(* ===== verification/_CoqProject ===== *)
-Q . S2P
Prelude.v
Consensus.v
Rewards.v
Encoding.v
Hashing.v
Address.v
Transaction.v
Block.v
MerkleBlock.v
Difficulty.v
Sighash.v
Script.v
Equihash.v
Pow.v
Pon.v
Storage.v
Fluxnode.v
Utxo.v
FlatFiles.v
Indexes.v
ChainIndex.v
Shielded.v
Validation.v
HeaderChain.v
HeaderTree.v
HeaderHistory.v
Caches.v
Payees.v
FluxnodeChecks.v
Ledger.v
BlockConnect.v
Frames.v
Failures.v
Supply.v
UtxoLedger.v
Disconnect.v
SampleBlock.v
BlockHeaders.v
Float64.v
Mempool.v
PoolInvariant.v
PoolEviction.v
Orphans.v
SamplePool.v
MempoolPolicy.v
Admission.v
OrphanRetry.v
SampleAdmission.v
Wire.v
Peers.v
FeeEstimator.v
FeeHistory.v
AddrBook.v
PeerBook.v
PeerServer.v
Serving.v
HeaderServing.v
TxRelay.v
Sync.v
SampleServing.v
Wallet.v
WalletScripts.v
WalletOps.v
WalletFile.v
WalletRestart.v
WalletSafety.v
WalletUndo.v
SampleWallet.v
