(* ===== verification/Prelude.v ===== *)
(** * Verification library for fluxd-rust

    fluxd-rust is a node of the Flux chain, a descendant of Zcash with
    fluxnodes and a proof-of-node phase.  This library models the node in Rocq
    and proves what makes it correct.  The sources are under
    [src/fluxd_rust/crates]; the paths below are relative to it.

    ** How the parts interact

    A block arrives from a peer ([Wire], [Peers]), its header enters the header
    tree ([HeaderChain]), its transactions are checked on their own
    ([Validation]) and against the outputs the chain has ([Ledger],
    [BlockConnect]); connecting it writes one batch to the store ([Storage])
    and its bytes and undo data to files ([FlatFiles]).  Transactions that are
    in no block wait in the memory pool ([Mempool], [MempoolPolicy]), are
    passed on between peers ([PeerServer], [TxRelay]), and their fees are
    learned from ([FeeEstimator]).  The wallet ([Wallet]) keeps keys and what
    of the chain belongs to them.

    ** Layout

    Base: [Prelude] has the outcome type [result] of Rust code ([Ok], [Err] and
    [Panic]), machine integers as [Z], byte strings as [list Z], and the lemmas
    and tactics that every file uses; [Float64] has the binary64 operations.

    Primitives ([primitives/src], [consensus/src], [script/src], [pow/src],
    [pon/src], [shielded/src]):
    - [Encoding] ([encoding.rs]): encoder and decoder, and the relations [reads]
      and [parses] every codec theorem goes through; [Codec] is the interface
      of a type with a canonical codec.
    - [Hashing] ([hash.rs]): digests, a class with its laws.
    - [Transaction], [Block], [MerkleBlock], [Address]: the files of the same
      names, and [outpoint.rs].
    - [Consensus] ([params.rs], [upgrades.rs], [money.rs], [constants.rs]),
      [Rewards] ([rewards.rs]), [Difficulty] ([pow/src/difficulty.rs]).
    - [Sighash], [Script] ([interpreter.rs], [standard.rs]), [Equihash] and
      [Pow] ([equihash_verify.rs], [pow/src/validation.rs]), [Pon]
      ([pon/src/slot.rs], [validation.rs]), [Shielded]
      ([shielded/src/verify.rs]).

    Chain state ([storage/src], [fluxnode/src], [chainstate/src]):
    - [Storage] ([lib.rs], [memory.rs]): the interface [KeyValueStore] with its
      laws, and the in-memory store that has them.
    - [Fluxnode] (the crate), [Utxo] ([utxo.rs], [undo.rs]), [FlatFiles]
      ([flatfiles.rs], [filemeta.rs]), [Indexes] (the transaction, spent, block,
      anchor and address indexes), [ChainIndex] ([index.rs]).
    - [Validation] ([validation.rs]): blocks and transactions on their own.
    - Of [state.rs]: [HeaderChain] (inserting headers; [HeaderTree] and
      [HeaderHistory] prove what it keeps), [Caches] (the read caches),
      [Payees] (who is paid), [FluxnodeChecks] (with [script/src/message.rs]),
      [Ledger] (the transactions of a block), [BlockConnect] ([connect_block],
      [disconnect_block], [commit_batch]).  Proofs: [Frames] (what is left
      alone), [Failures], [Supply], [UtxoLedger], [Disconnect]; [SampleBlock]
      runs them on a block.

    Node ([node/src]):
    - [Mempool] and [MempoolPolicy] ([mempool.rs]); proofs in [PoolInvariant],
      [PoolEviction], [Orphans], [Admission], [OrphanRetry]; runs in
      [SamplePool] and [SampleAdmission].
    - [Wire] and [Peers] ([p2p.rs]), [PeerServer] ([p2p_server.rs], proofs in
      [Serving] and [HeaderServing]), [TxRelay] ([tx_relay.rs]),
      [SampleServing].
    - [AddrBook] ([main.rs], [AddrBook]) and [PeerBook] ([peer_book.rs]).
    - [FeeEstimator] ([fee_estimator.rs], proofs in [FeeHistory]).
    - [Wallet] (keys, lock, secrets, file), [WalletScripts] (what it answers)
      and [WalletOps] (what changes it), all [wallet.rs]; proofs in
      [WalletFile], [WalletRestart], [WalletSafety], [WalletUndo]; runs in
      [SampleWallet].

    A definition has the name of the Rust item it translates; a method gets
    its type as a prefix ([tx_header], [header_decode_from]).

    ** Conventions

    Integers are [Z] with the predicates [is_u32], [is_i64], ... and the casts
    [wrap_u32], [wrap_i64], ...; release builds wrap on overflow (the
    workspace does not enable overflow checks), and where a computation could
    overflow the wrap is written out.  [usize] is [nat] where it is an index,
    and a [u64] otherwise.  Out-of-range indexing, a failed [expect] and the
    checked arithmetic of the 256-bit crate are [Panic].  Encoders only append
    to a buffer, so an encoder is the bytes it appends; decoders are a
    state-and-error monad over a cursor.  Each stateful component has a
    monad of its own that keeps the state also when it fails ([chain], [node],
    [serve], [wallet_op], ...).  [String] is its UTF-8 bytes, a [BTreeMap] or
    [HashMap] a [gmap]; where the code iterates over one, the order is the one
    of the keys for a [BTreeMap], and for a [HashMap] that of the finite map,
    and no theorem depends on it.

    Third-party code is never defined.  It is a class, its documented behaviour
    a second class of laws, and concrete instances show that the laws can hold:
    [Hashes], [Blake2b], [U256Ops], [Secp] and [Recovery], [SecretKeys],
    [ShieldedCrypto], [ShieldedTrees], [SaplingKeys], [SaplingWitnesses],
    [Cipher], [Bech32], [Powf] (the platform's [powf]), [KeyValueStore], and
    for the wallet [Machine]: what clock, random generator and file system will
    do.  Where security rests on collision resistance the theorem says so in
    its conclusion (the claim holds or a collision is exhibited), because no
    function with a fixed digest length is injective.

    ** What the theorems show

    A theorem with a number is a property of the manifest; the others are kept
    beside them.

    - The ledger.  [UtxoLedger.connect_block_refines_ledger] (C1): connecting
      implements an abstract ledger of outputs;
      [Disconnect.disconnect_block_restores_outputs] (C3): disconnecting is
      its inverse; [Supply.connect_block_bounds_supply] (C2): no block makes
      money beyond its reward; [Failures.failed_step_harmless] (C4): what
      fails leaves the chain as it was; [Validation.coinbase_ids_unique]
      (C34), [Payees.accepted_coinbase_pays] (C35).
    - Validation.  [Validation.accepted_block_sound] (C11),
      [Validation.accepted_transaction_sound] (C12),
      [Validation.no_unproved_joinsplit] (C13),
      [Sighash.signature_hash_commits].
    - Headers.  [HeaderHistory.header_tree_consistent] (C10): what the store
      holds is a tree with right heights, work and skip pointers, and the best
      header has the most work; [HeaderHistory.heaviest_header_wins] (C39),
      [HeaderHistory.header_ancestor_exact],
      [HeaderHistory.difficulty_window_exact].
    - Fluxnodes.  [Payees.next_payee_waited_longest] (C36),
      [Payees.payments_cache_follows_store], [Payees.confirm_expiry_converges]
      (C40), [FluxnodeChecks.accepted_start_controls_collateral] (C38),
      [Fluxnode.fluxnode_history_consistent].
    - Caches and store.  [Caches.cached_lookups_exact] (C37),
      [Storage.write_batch_refines_map], [Utxo.utxo_set_refines_map],
      [Utxo.block_undo_roundtrip], [FlatFiles.flatfile_append_read],
      [Indexes.address_deltas_in_chain_order].
    - Wire formats.  [Transaction.transaction_roundtrip] (C7),
      [Transaction.transaction_decode_canonical] (C8),
      [Transaction.transaction_decode_no_panic] (C9),
      [Transaction.transaction_hash_form_commits], [Block.block_roundtrip],
      [Block.block_decode_canonical], [Block.header_hash_form_commits];
      between peers [Wire.frames_roundtrip] (C21),
      [Wire.peer_messages_well_formed] (C31), [Wire.peer_messages_roundtrip],
      [Peers.handshake_exchanges].
    - Memory pool.  [Orphans.pool_history_consistent] (C5),
      [Admission.admitted_entry_sound] (C6), [Admission.missing_inputs_named]
      (C17), [OrphanRetry.orphans_retried] (C18),
      [PoolEviction.insert_evicts_cheapest] (C33).
    - Peers.  [Peers.connections_counted] (C19),
      [Serving.inbound_peer_harmless] (C22), [Serving.inbound_rate_bounded]
      (C25), [HeaderServing.getheaders_answered] (C23),
      [Serving.getdata_answered] (C24), [TxRelay.relay_agrees_with_server]
      (C29), [AddrBook.address_sample_fair] (C30),
      [AddrBook.address_book_bounded], [PeerBook.bans_refine_specification]
      (C32), [PeerBook.bans_survive_restart].
    - Fees.  [FeeHistory.estimator_never_aborts] (C20),
      [FeeHistory.estimator_counts_tracked],
      [FeeHistory.estimator_file_roundtrip].
    - Wallet.  [WalletRestart.wallet_survives_restart] (C14),
      [WalletRestart.wallet_file_never_torn] (C27),
      [WalletRestart.encrypted_wallet_reopens] (C15),
      [WalletSafety.locked_wallet_holds_no_secret] (C16),
      [WalletSafety.secrets_belong_to_addresses] (C28),
      [WalletUndo.failed_save_undone] (C26).
    - Scripts, proofs of work and economics.  [Script.verify_script_total],
      [Script.p2pkh_spend], [Script.p2sh_spend],
      [Script.check_multisig_exact], [Equihash.equihash_accepts_iff_wagner],
      [Pow.pow_header_accepted_iff], [Pon.pon_header_accepted],
      [Difficulty.next_work_total_and_bounded],
      [Difficulty.compact_encoding_precision],
      [Difficulty.block_proof_is_expected_work],
      [MerkleBlock.merkle_root_commits],
      [MerkleBlock.partial_merkle_proof_sound],
      [MerkleBlock.partial_merkle_proof_correct],
      [Rewards.block_subsidy_bounded], [Rewards.pon_reward_split_conserves],
      [Rewards.pow_fluxnode_payout_exact], [Rewards.fluxnode_tier_unique],
      [Consensus.epoch_constant_until_next_activation],
      [Address.address_script_bijection], [Address.wif_bijection].

    What the code does wrong is proved where it can be shown on the model:
    [Caches.interleaved_lookup_revives_spent_output],
    [Payees.payee_depends_on_earlier_queries],
    [SamplePool.full_pool_loses_evicted], [SamplePool.parent_not_missed],
    [FeeHistory.skipped_block_leaks_count],
    [Peers.stale_request_cuts_connection], [AddrBook.family_tags_collide],
    [AddrBook.height_claim_wraps], [PeerBook.far_ban_lifts_all_bans],
    [WalletRestart.unlocked_save_unreadable],
    [SampleWallet.failed_change_keeps_new_key],
    [SampleWallet.expired_wallet_shows_secret].

    ** Fuel

    A loop that is not structural in the model runs on fuel computed from its
    input, and running out is [Panic] or [None], which a theorem or lemma of
    its file excludes.  By file: [MerkleBlock] (the layer length, 32 bits of a
    count), [Encoding] (the bytes left), [Script] (the script length),
    [HeaderChain] (the distance in heights of [ancestor_loop]), [Payees] (the
    nodes of the queue for [payee_rounds], four rounds for [EXPIRE_ROUNDS]),
    [FluxnodeChecks] (the script length), [BlockConnect] (one more than the
    files listed in the store for [prune_loop]), [Mempool] (the size of the
    pool for walks and evictions), [MempoolPolicy] (the square of one more
    than the orphans), [FeeEstimator] (the buckets), [AddrBook] (the addresses
    left to place), [PeerServer] (the locator and the 160 headers of an
    answer), [WalletScripts] (the script length, the distance of two
    diversifier indexes), [WalletOps] (the 100 tries of the source).

    ** Not modelled

    - The RPC server, the command line, the terminal and web dashboards,
      statistics, metrics and logging: input and output.  What RPC calls is
      modelled.
    - The loops of [main.rs] that start threads and download over several
      peers at once, and the time limits and sockets of the peer-to-peer code.
      A stream is the messages it delivers; the clock is read once per call or
      message; writes to a peer succeed.
    - Other threads: between the steps of one operation nothing else runs,
      except in [Caches], where readers interleave with a commit, and in
      [PeerBook], where a lock can be poisoned.  Elsewhere locks never fail,
      and proofs verified in parallel are verified in order.
    - Proof systems, curves, sprout proving and the download of parameters
      ([shielded/src/sprout.rs], [params.rs]) and the fjall backend: third
      party.
    - The names of flat files (a file is its number), [Vec::with_capacity],
      payloads of NaN, the JSON of [peers.dat] and of the ban list, and the
      overwriting of secrets before they are dropped.
    - [HeaderHistory] covers chains shorter than 2^31 - 1 blocks. *)

From Stdlib Require Import ZArith Lia.
From stdpp Require Import base list option numbers strings.

#[global] Open Scope Z_scope.

(** ** Outcomes of Rust code

    [Ok] and [Err] are the constructors of [Result]; [Panic] is an abort of
    the running thread (an out-of-range index, a failed [expect], an
    arithmetic panic of the big-integer crate). *)
Inductive result (E A : Type) : Type :=
| Ok (a : A)
| Err (e : E)
| Panic.
Arguments Ok {E A} _.
Arguments Err {E A} _.
Arguments Panic {E A}.

#[global] Instance result_ret {E} : MRet (result E) := fun A a => Ok a.
#[global] Instance result_bind {E} : MBind (result E) := fun A B f m =>
  match m with Ok a => f a | Err e => Err e | Panic => Panic end.

#[global] Instance result_eq_dec {E A} `{EqDecision E} `{EqDecision A} : EqDecision (result E A).
Proof. solve_decision. Defined.

(** [map_err] is the conversion the [?] operator applies through [From]. *)
Definition map_err {E F A} (f : E -> F) (m : result E A) : result F A :=
  match m with Ok a => Ok a | Err e => Err (f e) | Panic => Panic end.

(** [Option::ok_or]. *)
Definition ok_or {E A} (o : option A) (e : E) : result E A :=
  match o with Some a => Ok a | None => Err e end.

(** A slice index [v[i]]: out of range it panics. *)
Definition index {E A} (l : list A) (i : nat) : result E A :=
  match l !! i with Some a => Ok a | None => Panic end.

Definition is_ok {E A} (m : result E A) : bool :=
  match m with Ok _ => true | _ => false end.

(** ** Machine integers

    A Rust integer of width [w] is a [Z]; [is_uN]/[is_iN] say it is in range,
    [wrap_uN]/[wrap_iN] are the [as] casts and the wrap-around of release
    builds. *)
Definition is_u8 (z : Z) : Prop := 0 <= z < 256.
Definition is_u16 (z : Z) : Prop := 0 <= z < 65536.
Definition is_u32 (z : Z) : Prop := 0 <= z < 4294967296.
Definition is_u64 (z : Z) : Prop := 0 <= z < 18446744073709551616.
Definition is_i32 (z : Z) : Prop := -2147483648 <= z < 2147483648.
Definition is_i64 (z : Z) : Prop := -9223372036854775808 <= z < 9223372036854775808.

#[global] Instance is_u8_dec z : Decision (is_u8 z).
Proof. unfold is_u8; apply _. Defined.
#[global] Instance is_u16_dec z : Decision (is_u16 z).
Proof. unfold is_u16; apply _. Defined.
#[global] Instance is_u32_dec z : Decision (is_u32 z).
Proof. unfold is_u32; apply _. Defined.
#[global] Instance is_u64_dec z : Decision (is_u64 z).
Proof. unfold is_u64; apply _. Defined.
#[global] Instance is_i32_dec z : Decision (is_i32 z).
Proof. unfold is_i32; apply _. Defined.
#[global] Instance is_i64_dec z : Decision (is_i64 z).
Proof. unfold is_i64; apply _. Defined.

Definition wrap_u8 (z : Z) : Z := z mod 256.
Definition wrap_u16 (z : Z) : Z := z mod 65536.
Definition wrap_u32 (z : Z) : Z := z mod 4294967296.
Definition wrap_u64 (z : Z) : Z := z mod 18446744073709551616.
Definition wrap_i32 (z : Z) : Z := (z + 2147483648) mod 4294967296 - 2147483648.
Definition wrap_i64 (z : Z) : Z :=
  (z + 9223372036854775808) mod 18446744073709551616 - 9223372036854775808.

Definition u32_max : Z := 4294967295.
Definition u64_max : Z := 18446744073709551615.
Definition i64_max : Z := 9223372036854775807.

(** [checked_add] of [i64]. *)
Definition checked_add_i64 (a b : Z) : option Z :=
  let s := a + b in
  if (-9223372036854775808 <=? s) && (s <=? 9223372036854775807) then Some s else None.

(** Saturating arithmetic of [u32]. *)
Definition saturating_mul_u32 (a b : Z) : Z := Z.min (a * b) u32_max.
Definition saturating_add_u32 (a b : Z) : Z := Z.min (a + b) u32_max.

Ltac unfold_ints :=
  unfold is_u8, is_u16, is_u32, is_u64, is_i32, is_i64,
    wrap_u8, wrap_u16, wrap_u32, wrap_u64, wrap_i32, wrap_i64,
    u32_max, u64_max, i64_max in *.

(** [int_lia] is [lia] after the width predicates are unfolded. *)
Ltac int_lia := unfold_ints; lia.

(** [lia] with divisions by constants turned into linear equations. *)
Ltac div_lia := Z.to_euclidean_division_equations; lia.

Lemma wrap_u32_id z : is_u32 z -> wrap_u32 z = z.
Proof. unfold_ints; intros; apply Z.mod_small; lia. Qed.
Lemma wrap_u32_range z : is_u32 (wrap_u32 z).
Proof. unfold_ints; apply Z.mod_pos_bound; lia. Qed.
Lemma wrap_i32_id z : is_i32 z -> wrap_i32 z = z.
Proof. unfold_ints; intros; rewrite Z.mod_small; lia. Qed.
Lemma wrap_i32_range z : is_i32 (wrap_i32 z).
Proof. unfold_ints; pose proof (Z.mod_pos_bound (z + 2147483648) 4294967296); lia. Qed.
Lemma wrap_i64_id z : is_i64 z -> wrap_i64 z = z.
Proof. unfold_ints; intros; rewrite Z.mod_small; lia. Qed.
Lemma wrap_i64_range z : is_i64 (wrap_i64 z).
Proof.
  unfold_ints.
  pose proof (Z.mod_pos_bound (z + 9223372036854775808) 18446744073709551616); lia.
Qed.

(** ** Bytes *)
Abbreviation bytes := (list Z).
Abbreviation Hash256 := (list Z).

Definition bytes_ok (bs : bytes) : Prop := Forall is_u8 bs.
#[global] Instance bytes_ok_dec bs : Decision (bytes_ok bs).
Proof. unfold bytes_ok; apply _. Defined.

(** A fixed array [[u8; n]]. *)
Definition array (n : nat) (bs : bytes) : Prop := length bs = n /\ bytes_ok bs.
#[global] Instance array_dec n bs : Decision (array n bs).
Proof. unfold array; apply _. Defined.

(** [[0u8; n]]. *)
Definition zeros (n : nat) : bytes := replicate n 0.

(** [to_le_bytes] and [from_le_bytes] of an [n]-byte integer; the big-endian
    forms are their reversals. *)
Fixpoint le_bytes (n : nat) (z : Z) : bytes :=
  match n with O => [] | S n => z mod 256 :: le_bytes n (z / 256) end.
Fixpoint from_le (bs : bytes) : Z :=
  match bs with [] => 0 | b :: bs => b + 256 * from_le bs end.
Definition be_bytes (n : nat) (z : Z) : bytes := rev (le_bytes n z).
Definition from_be (bs : bytes) : Z := from_le (rev bs).

(** The bytes of a string literal. *)
Definition ascii_bytes (s : string) : bytes :=
  map (fun c => Z.of_N (Ascii.N_of_ascii c)) (String.list_ascii_of_string s).

(** [slice bs from to] is [&bs[from..to]] inside the bounds of [bs]. *)
Definition slice {A} (l : list A) (from to : nat) : list A := take (to - from) (drop from l).

(** [starts_with]. *)
Fixpoint starts_with (l p : bytes) {struct p} : bool :=
  match p with
  | [] => true
  | x :: p => match l with y :: l => (x =? y) && starts_with l p | [] => false end
  end.

(** ** Byte lemmas *)
Create HintDb bytes discriminated.

Lemma bytes_ok_app l1 l2 : bytes_ok (l1 ++ l2) <-> bytes_ok l1 /\ bytes_ok l2.
Proof. apply Forall_app. Qed.

Lemma bytes_ok_cons b l : bytes_ok (b :: l) <-> is_u8 b /\ bytes_ok l.
Proof. apply Forall_cons. Qed.

Lemma bytes_ok_nil : bytes_ok [].
Proof. constructor. Qed.

Lemma bytes_ok_take n l : bytes_ok l -> bytes_ok (take n l).
Proof. apply Forall_take. Qed.

Lemma bytes_ok_drop n l : bytes_ok l -> bytes_ok (drop n l).
Proof. apply Forall_drop. Qed.

Lemma mod_256_u8 z : is_u8 (z mod 256).
Proof. unfold is_u8; apply Z.mod_pos_bound; lia. Qed.

Lemma length_le_bytes n z : length (le_bytes n z) = n.
Proof. revert z; induction n as [|n IH]; intros z; cbn [le_bytes length]; [done|by rewrite IH]. Qed.

Lemma le_bytes_ok n z : bytes_ok (le_bytes n z).
Proof.
  revert z; induction n as [|n IH]; intros z; cbn [le_bytes]; [constructor|].
  apply bytes_ok_cons; auto using mod_256_u8.
Qed.

Lemma length_be_bytes n z : length (be_bytes n z) = n.
Proof. unfold be_bytes; by rewrite length_rev, length_le_bytes. Qed.

Lemma be_bytes_ok n z : bytes_ok (be_bytes n z).
Proof. unfold be_bytes, bytes_ok; apply Forall_rev, le_bytes_ok. Qed.

Lemma zeros_ok n : bytes_ok (zeros n).
Proof. apply Forall_replicate; unfold is_u8; lia. Qed.

Lemma length_zeros n : length (zeros n) = n.
Proof. apply length_replicate. Qed.

Lemma array_zeros n : array n (zeros n).
Proof. split; [apply length_replicate|apply zeros_ok]. Qed.

#[export] Hint Resolve bytes_ok_nil bytes_ok_take bytes_ok_drop le_bytes_ok be_bytes_ok
  zeros_ok array_zeros mod_256_u8 : bytes.

Lemma pow256_succ n : 256 ^ Z.of_nat (S n) = 256 * 256 ^ Z.of_nat n.
Proof. rewrite Nat2Z.inj_succ, Z.pow_succ_r; lia. Qed.

Lemma pow256_pos n : 0 < 256 ^ Z.of_nat n.
Proof. apply Z.pow_pos_nonneg; lia. Qed.

Lemma from_le_le_bytes n z : from_le (le_bytes n z) = z mod 256 ^ Z.of_nat n.
Proof.
  revert z; induction n as [|n IH]; intros z; cbn [le_bytes from_le].
  - by rewrite Z.mod_1_r.
  - rewrite IH, pow256_succ.
    pose proof (pow256_pos n).
    rewrite Z.rem_mul_r by lia. lia.
Qed.

Lemma from_le_range bs : bytes_ok bs -> 0 <= from_le bs < 256 ^ Z.of_nat (length bs).
Proof.
  induction bs as [|b bs IH]; cbn [length from_le]; intros H.
  - simpl; lia.
  - apply bytes_ok_cons in H as [Hb Hbs]. specialize (IH Hbs).
    rewrite pow256_succ. unfold is_u8 in Hb. lia.
Qed.

Lemma le_bytes_from_le bs : bytes_ok bs -> le_bytes (length bs) (from_le bs) = bs.
Proof.
  induction bs as [|b bs IH]; cbn [length from_le le_bytes]; intros H; [done|].
  apply bytes_ok_cons in H as [Hb Hbs]. unfold is_u8 in Hb.
  rewrite (Z.mul_comm 256), Z.mod_add, Z.div_add, Z.mod_small, Z.div_small by lia.
  rewrite Z.add_0_l, IH; done.
Qed.

Lemma from_be_be_bytes n z : from_be (be_bytes n z) = z mod 256 ^ Z.of_nat n.
Proof. unfold from_be, be_bytes. rewrite rev_involutive. apply from_le_le_bytes. Qed.

Lemma le_bytes_inj n a b :
  0 <= a < 256 ^ Z.of_nat n -> 0 <= b < 256 ^ Z.of_nat n ->
  le_bytes n a = le_bytes n b -> a = b.
Proof.
  intros Ha Hb H. apply (f_equal from_le) in H.
  rewrite !from_le_le_bytes, !Z.mod_small in H; done.
Qed.

Lemma le_bytes_mod n z : le_bytes n (z mod 256 ^ Z.of_nat n) = le_bytes n z.
Proof.
  rewrite <- from_le_le_bytes.
  rewrite <- (length_le_bytes n z) at 1.
  apply le_bytes_from_le, le_bytes_ok.
Qed.

Lemma from_le_single b : from_le [b] = b.
Proof. cbn [from_le]; lia. Qed.

Lemma from_le_app a b : from_le (a ++ b) = from_le a + 256 ^ Z.of_nat (length a) * from_le b.
Proof.
  induction a as [|x a IH]; [change (from_le ([] ++ b)) with (from_le b); simpl length; change (from_le []) with 0; lia|].
  change (from_le ((x :: a) ++ b)) with (x + 256 * from_le (a ++ b)).
  change (from_le (x :: a)) with (x + 256 * from_le a). rewrite IH. cbn [length]. rewrite pow256_succ. lia.
Qed.

Lemma from_be_cons b l : from_be (b :: l) = b * 256 ^ Z.of_nat (length l) + from_be l.
Proof. unfold from_be. cbn [rev]. rewrite from_le_app, length_rev, from_le_single. lia. Qed.

Lemma from_be_range bs : bytes_ok bs -> 0 <= from_be bs < 256 ^ Z.of_nat (length bs).
Proof.
  intros Hb. unfold from_be. rewrite <- length_rev. apply from_le_range. by apply Forall_rev.
Qed.

(** The value-level forms at the widths the code uses. *)
Lemma from_le_le_bytes_1 z : is_u8 z -> from_le (le_bytes 1 z) = z.
Proof. intros H; rewrite from_le_le_bytes; apply Z.mod_small, H. Qed.
Lemma from_le_le_bytes_2 z : is_u16 z -> from_le (le_bytes 2 z) = z.
Proof. intros H; rewrite from_le_le_bytes; apply Z.mod_small, H. Qed.
Lemma from_le_le_bytes_4 z : is_u32 z -> from_le (le_bytes 4 z) = z.
Proof. intros H; rewrite from_le_le_bytes; apply Z.mod_small, H. Qed.
Lemma from_le_le_bytes_8 z : is_u64 z -> from_le (le_bytes 8 z) = z.
Proof. intros H; rewrite from_le_le_bytes; apply Z.mod_small, H. Qed.

Lemma wrap_i32_from_le z : is_i32 z -> wrap_i32 (from_le (le_bytes 4 z)) = z.
Proof.
  intros H. rewrite from_le_le_bytes. change (256 ^ Z.of_nat 4) with 4294967296.
  unfold_ints. rewrite Zplus_mod_idemp_l, Z.mod_small; lia.
Qed.
Lemma wrap_i64_from_le z : is_i64 z -> wrap_i64 (from_le (le_bytes 8 z)) = z.
Proof.
  intros H. rewrite from_le_le_bytes. change (256 ^ Z.of_nat 8) with 18446744073709551616.
  unfold_ints. rewrite Zplus_mod_idemp_l, Z.mod_small; lia.
Qed.

(** A signed cast does not change the bytes an integer is written as. *)
Lemma le_bytes_wrap_i32 z : le_bytes 4 (wrap_i32 z) = le_bytes 4 z.
Proof.
  rewrite <- (le_bytes_mod 4 (wrap_i32 z)), <- (le_bytes_mod 4 z).
  change (256 ^ Z.of_nat 4) with 4294967296. f_equal. unfold_ints.
  rewrite Zminus_mod_idemp_l. f_equal; lia.
Qed.
Lemma le_bytes_wrap_i64 z : le_bytes 8 (wrap_i64 z) = le_bytes 8 z.
Proof.
  rewrite <- (le_bytes_mod 8 (wrap_i64 z)), <- (le_bytes_mod 8 z).
  change (256 ^ Z.of_nat 8) with 18446744073709551616. f_equal. unfold_ints.
  rewrite Zminus_mod_idemp_l. f_equal; lia.
Qed.

Lemma length_slice {A} (l : list A) i j :
  (i <= j)%nat -> (j <= length l)%nat -> length (slice l i j) = (j - i)%nat.
Proof. intros. unfold slice. rewrite length_take, length_drop. lia. Qed.

Lemma slice_app_l {A} (l1 l2 : list A) :
  slice (l1 ++ l2) 0 (length l1) = l1.
Proof. unfold slice. rewrite drop_0, Nat.sub_0_r. apply take_app_length. Qed.

(** [slice_at]: the slice that a concatenation of known-length parts puts
    there. *)
Lemma slice_at {A} (l1 l2 l3 : list A) i j :
  i = length l1 -> j = (length l1 + length l2)%nat -> slice (l1 ++ l2 ++ l3) i j = l2.
Proof.
  intros -> ->. unfold slice. rewrite drop_app_length.
  rewrite Nat.add_comm, Nat.add_sub. apply take_app_length.
Qed.

(** Its first and its last part. *)
Lemma slice_first {A} (l2 l3 : list A) i j : i = 0%nat -> j = length l2 -> slice (l2 ++ l3) i j = l2.
Proof. intros -> ->. apply (slice_at [] l2 l3); done. Qed.

Lemma slice_last {A} (l1 l2 : list A) i j :
  i = length l1 -> j = (length l1 + length l2)%nat -> slice (l1 ++ l2) i j = l2.
Proof. intros. rewrite <- (app_nil_r l2) at 1. by apply slice_at. Qed.

Lemma slice_whole {A} (l : list A) i j : i = 0%nat -> j = length l -> slice l i j = l.
Proof. intros -> ->. by apply (slice_last []). Qed.

Lemma slice_skip {A} (l1 l2 : list A) i j :
  (length l1 <= i)%nat -> slice (l1 ++ l2) i j = slice l2 (i - length l1) (j - length l1).
Proof.
  intros Hi. unfold slice. rewrite drop_app_ge by done. f_equal. lia.
Qed.

Lemma starts_with_spec l p : starts_with l p = true <-> exists r, l = p ++ r.
Proof.
  revert l; induction p as [|x p IH]; intros l; simpl.
  - split; [eauto|done].
  - destruct l as [|y l]; [split; [done|by intros (?&?)]|].
    rewrite andb_true_iff, Z.eqb_eq, IH. split.
    + intros [-> [r ->]]; eauto.
    + intros [r [= -> ->]]; eauto.
Qed.

Lemma starts_with_app p r : starts_with (p ++ r) p = true.
Proof. apply starts_with_spec; eauto. Qed.

#[global] Arguments le_bytes : simpl never.
#[global] Arguments from_le : simpl never.
#[global] Arguments zeros : simpl never.

(** ** Result inversion *)
Lemma bind_Ok {E A B} (m : result E A) (f : A -> result E B) b :
  (m ≫= f) = Ok b <-> exists a, m = Ok a /\ f a = Ok b.
Proof.
  destruct m as [a|e|]; simpl; split; try (by intros); try (by intros (?&?&?)).
  - eauto.
  - intros (a'&[= <-]&H); done.
Qed.

Lemma map_err_Ok {E F A} (f : E -> F) (m : result E A) a :
  map_err f m = Ok a <-> m = Ok a.
Proof. destruct m; simpl; split; congruence. Qed.

Lemma ok_or_Ok {E A} (o : option A) (e : E) a : ok_or o e = Ok a <-> o = Some a.
Proof. destruct o; simpl; split; congruence. Qed.

(** *** Computations that cannot abort *)
Lemma bind_not_panic {Er A B} (m : result Er A) (f : A -> result Er B) :
  m <> Panic -> (forall a, m = Ok a -> f a <> Panic) -> (m ≫= f) <> Panic.
Proof. destruct m as [a|e|]; simpl; intros Hm Hf; [by apply Hf|done|done]. Qed.

Lemma ok_or_not_panic {Er A} (o : option A) (e : Er) : ok_or o e <> Panic.
Proof. by destruct o. Qed.
Lemma map_err_not_panic {Er F A} (f : Er -> F) (m : result Er A) : m <> Panic -> map_err f m <> Panic.
Proof. by destruct m. Qed.
Lemma index_not_panic {Er A} (l : list A) i : (i < length l)%nat -> index (E:=Er) l i <> Panic.
Proof. unfold index. intros Hi. by destruct (lookup_lt_is_Some_2 l i Hi) as [? ->]. Qed.

(** [inv_result] decomposes the hypotheses that say a monadic computation
    succeeded. *)
Ltac inv_result :=
  repeat match goal with
  | H : (_ ≫= _) = Ok _ |- _ =>
      let a := fresh "a" in let H1 := fresh "Hm" in
      apply bind_Ok in H as (a & H1 & H)
  | H : map_err _ _ = Ok _ |- _ => apply map_err_Ok in H
  | H : ok_or _ _ = Ok _ |- _ => apply ok_or_Ok in H
  | H : mret _ = Ok _ |- _ => injection H as H
  | H : Ok _ = Ok _ |- _ => injection H as H
  | H : Err _ = Ok _ |- _ => discriminate H
  | H : Panic = Ok _ |- _ => discriminate H
  | H : context [if ?b then _ else _] |- _ =>
      lazymatch type of H with _ = Ok _ => destruct b eqn:? end
  end; subst.

(** A closed decidable fact, by evaluation. *)
Ltac by_decide := apply (bool_decide_unpack _); vm_compute; exact I.
