(* ===== verification/Consensus.v ===== *)
(** * Consensus parameters ([consensus/src/constants.rs], [money.rs],
      [upgrades.rs], [params.rs])

    The upgrade schedule and its queries, the constants of the rules, and the
    parameter sets of the three networks. *)

From S2P Require Import Prelude.
From Stdlib Require Import ZArith Lia.
From stdpp Require Import base list option numbers strings.
#[local] Open Scope Z_scope.

(** ** Money *)
Definition COIN : Z := 100000000.
Definition CENT : Z := 1000000.
Definition MAX_MONEY : Z := 440000000 * COIN.
Definition money_range (value : Z) : bool := (0 <=? value) && (value <=? MAX_MONEY).

(** ** Constants *)
Definition MIN_BLOCK_VERSION : Z := 4.
Definition MIN_PON_BLOCK_VERSION : Z := 100.
Definition MAX_REORG_LENGTH : Z := 40.
Definition PON_REORG_LENGTH : Z := 5000.
Definition PON_REORG_START_HEIGHT : Z := 2020000.
Definition PON_REORG_END_HEIGHT : Z := 2025000.
Definition max_reorg_depth (height : Z) : Z :=
  if (PON_REORG_START_HEIGHT <=? height) && (height <=? PON_REORG_END_HEIGHT)
  then PON_REORG_LENGTH else MAX_REORG_LENGTH.
Definition SPROUT_MIN_TX_VERSION : Z := 1.
Definition OVERWINTER_MIN_TX_VERSION : Z := 3.
Definition OVERWINTER_MAX_TX_VERSION : Z := 3.
Definition SAPLING_MIN_TX_VERSION : Z := 4.
Definition SAPLING_MAX_TX_VERSION : Z := 4.
Definition MAX_BLOCK_SIZE : Z := 2000000.
Definition MAX_BLOCK_SIGOPS : Z := 20000.
Definition MAX_TX_SIZE_BEFORE_SAPLING : Z := 100000.
Definition MAX_TX_SIZE_AFTER_SAPLING : Z := MAX_BLOCK_SIZE.
Definition COINBASE_MATURITY : Z := 100.
Definition FLUXNODE_MIN_CONFIRMATION_DETERMINISTIC : Z := 100.
Definition FLUXNODE_START_TX_EXPIRATION_HEIGHT : Z := 60.
Definition FLUXNODE_START_TX_EXPIRATION_HEIGHT_V2 : Z := 240.
Definition FLUXNODE_DOS_REMOVE_AMOUNT : Z := 180.
Definition FLUXNODE_DOS_REMOVE_AMOUNT_V2 : Z := 720.
Definition FLUXNODE_CONFIRM_UPDATE_EXPIRATION_HEIGHT_V1 : Z := 60.
Definition FLUXNODE_CONFIRM_UPDATE_EXPIRATION_HEIGHT_V2 : Z := 80.
Definition FLUXNODE_CONFIRM_UPDATE_EXPIRATION_HEIGHT_V3 : Z := 160.
Definition FLUXNODE_CONFIRM_UPDATE_EXPIRATION_HEIGHT_V4 : Z := 640.
Definition TX_EXPIRY_HEIGHT_THRESHOLD : Z := 500000000.
Definition TX_EXPIRING_SOON_THRESHOLD : Z := 3.
Definition MAX_SCRIPT_SIZE : Z := 10000.

(** ** Upgrades *)
Inductive UpgradeIndex :=
| BaseSprout | TestDummy | Lwma | Equi144_5 | Acadia | Kamiooka | Kamata | Flux | Halving
| P2ShNodes | Pon.
#[global] Instance UpgradeIndex_eq_dec : EqDecision UpgradeIndex.
Proof. solve_decision. Defined.

Definition as_usize (idx : UpgradeIndex) : nat :=
  match idx with
  | BaseSprout => 0 | TestDummy => 1 | Lwma => 2 | Equi144_5 => 3 | Acadia => 4 | Kamiooka => 5
  | Kamata => 6 | Flux => 7 | Halving => 8 | P2ShNodes => 9 | Pon => 10
  end%nat.

Definition MAX_NETWORK_UPGRADES : nat := 11.
Definition ALL_UPGRADES : list UpgradeIndex :=
  [BaseSprout; TestDummy; Lwma; Equi144_5; Acadia; Kamiooka; Kamata; Flux; Halving; P2ShNodes; Pon].

Record NetworkUpgrade := mkUpgrade {
  protocol_version : Z; activation_height : Z; hash_activation_block : option Hash256 }.
Definition ALWAYS_ACTIVE : Z := 0.
Definition NO_ACTIVATION_HEIGHT : Z := -1.

Inductive UpgradeState := Disabled | Pending | Active.
#[global] Instance UpgradeState_eq_dec : EqDecision UpgradeState.
Proof. solve_decision. Defined.

(** The branch ids of [NETWORK_UPGRADE_INFO] (names and texts left out). *)
Definition UPGRADE_BRANCH_IDS : list Z :=
  [0; 0x74736554; 0x76b809bb; 0x76b809bb; 0x76b809bb; 0x76b809bb; 0x76b809bb; 0x76b809bb;
   0x76b809bb; 0x76b809bb; 0x76b809bb].

(** The schedule is an array of [MAX_NETWORK_UPGRADES] entries, so indexing it
    by an [UpgradeIndex] is always in range. *)
Definition upgrade_at (upgrades : list NetworkUpgrade) (idx : UpgradeIndex) : NetworkUpgrade :=
  default (mkUpgrade 0 NO_ACTIVATION_HEIGHT None) (upgrades !! as_usize idx).

Definition network_upgrade_state (height : Z) (upgrades : list NetworkUpgrade) (idx : UpgradeIndex)
    : UpgradeState :=
  let activation_height := activation_height (upgrade_at upgrades idx) in
  if activation_height =? NO_ACTIVATION_HEIGHT then Disabled
  else if height >=? activation_height then Active
  else Pending.

Definition network_upgrade_active (height : Z) (upgrades : list NetworkUpgrade) (idx : UpgradeIndex)
    : bool := bool_decide (network_upgrade_state height upgrades idx = Active).

Definition current_epoch (height : Z) (upgrades : list NetworkUpgrade) : UpgradeIndex :=
  default BaseSprout (find (network_upgrade_active height upgrades) (rev ALL_UPGRADES)).

Definition current_epoch_branch_id (height : Z) (upgrades : list NetworkUpgrade) : Z :=
  default 0 (UPGRADE_BRANCH_IDS !! as_usize (current_epoch height upgrades)).

Definition is_consensus_branch_id (branch_id : Z) : bool :=
  existsb (fun id => id =? branch_id) UPGRADE_BRANCH_IDS.

Definition is_activation_height (height : Z) (upgrades : list NetworkUpgrade) (idx : UpgradeIndex)
    : bool :=
  if bool_decide (idx = BaseSprout) || (height <? 0) then false
  else height =? activation_height (upgrade_at upgrades idx).

Definition is_activation_height_for_any_upgrade (height : Z) (upgrades : list NetworkUpgrade) : bool :=
  if height <? 0 then false
  else existsb (fun idx => height =? activation_height (upgrade_at upgrades idx)) (drop 1 ALL_UPGRADES).

Definition next_epoch (height : Z) (upgrades : list NetworkUpgrade) : option UpgradeIndex :=
  if height <? 0 then None
  else find (fun idx => bool_decide (network_upgrade_state height upgrades idx = Pending))
         (drop 1 ALL_UPGRADES).

Definition next_activation_height (height : Z) (upgrades : list NetworkUpgrade) : option Z :=
  (fun idx => activation_height (upgrade_at upgrades idx)) <$> next_epoch height upgrades.

(** ** Parameter records *)
Inductive Network := Mainnet | Testnet | Regtest.
#[global] Instance Network_eq_dec : EqDecision Network.
Proof. solve_decision. Defined.

Record EquihashParams := mkEquihash { eh_n : Z; eh_k : Z; solution_size : Z }.
#[global] Instance EquihashParams_eq_dec : EqDecision EquihashParams.
Proof. solve_decision. Defined.
Record Checkpoint := mkCheckpoint { checkpoint_height : Z; checkpoint_hash : Hash256 }.
Record TimedPublicKey := mkTimedKey { key : string; valid_from : Z }.
Record EmergencyParams := mkEmergency {
  public_keys : list string; collateral_hash : Hash256; min_signatures : Z }.

Record ConsensusParams := mkConsensusParams {
  network : Network; hash_genesis_block : Hash256; genesis_time : Z;
  coinbase_must_be_protected : bool; subsidy_slow_start_interval : Z;
  subsidy_halving_interval : Z; majority_enforce_block_upgrade : Z;
  majority_reject_block_outdated : Z; majority_window : Z;
  upgrades : list NetworkUpgrade; emergency : EmergencyParams; checkpoints : list Checkpoint;
  pow_limit : Hash256; pon_limit : Hash256; pon_start_limit : Hash256;
  pow_allow_min_difficulty_after_height : option Z;
  digishield_averaging_window : Z; digishield_max_adjust_down : Z; digishield_max_adjust_up : Z;
  pow_target_spacing : Z; pon_target_spacing : Z; pon_difficulty_window : Z;
  pon_subsidy_reduction_interval : Z; pon_max_reductions : Z; pon_initial_subsidy : Z;
  minimum_chain_work : Hash256; zawy_lwma_averaging_window : Z; eh_epoch_fade_length : Z;
  eh_epoch_1 : EquihashParams; eh_epoch_2 : EquihashParams; eh_epoch_3 : EquihashParams }.

Record FundingParams := mkFunding {
  exchange_address : string; exchange_height : Z; exchange_amount : Z;
  foundation_address : string; foundation_height : Z; foundation_amount : Z;
  dev_fund_address : string }.
Record SwapPoolParams := mkSwapPool {
  swap_address : string; swap_start_height : Z; swap_amount : Z; swap_interval : Z;
  swap_max_times : Z }.
Record FluxnodeParams := mkFluxnodeParams {
  start_payments_height : Z; benchmarking_public_keys : list TimedPublicKey;
  p2sh_public_keys : list TimedPublicKey;
  cumulus_transition_start : Z; cumulus_transition_end : Z;
  nimbus_transition_start : Z; nimbus_transition_end : Z;
  stratus_transition_start : Z; stratus_transition_end : Z }.
Record ChainParams := mkChainParams {
  chain_network : Network; consensus : ConsensusParams; funding : FundingParams;
  swap_pool : SwapPoolParams; chain_emergency : EmergencyParams; fluxnode_params : FluxnodeParams;
  message_start : bytes; default_port : Z; dns_seeds : list string; fixed_seeds : list string }.

(** [i64]/[i32] division truncates towards zero. *)
Definition subsidy_slow_start_shift (p : ConsensusParams) : Z :=
  Z.quot (subsidy_slow_start_interval p) 2.
Definition digishield_averaging_window_timespan (p : ConsensusParams) : Z :=
  wrap_i64 (digishield_averaging_window p * pow_target_spacing p).
Definition digishield_min_actual_timespan (p : ConsensusParams) : Z :=
  Z.quot (wrap_i64 (digishield_averaging_window_timespan p
                    * wrap_i64 (100 - digishield_max_adjust_up p))) 100.
Definition digishield_max_actual_timespan (p : ConsensusParams) : Z :=
  Z.quot (wrap_i64 (digishield_averaging_window_timespan p
                    * wrap_i64 (100 + digishield_max_adjust_down p))) 100.

(** [hash256_from_hex] of a literal: the number it denotes, little endian. *)
Definition hash256_hex (literal : Z) : Hash256 := le_bytes 32 literal.

(** ** The three networks *)
Definition MAINNET_EMERGENCY_KEYS : list string := [
  "025ee73f72d6996f94fe6ec9fac3f9ba6dcb947ed46dfbda530fc73ff99c667a4e";
  "026f4281124d10eb90589831bac405d715ad79051ac5243d21c322d2abf2fd81e2";
  "03083d65c2f57cfe4d1c34eb575bd9d836f5111dd0de86405d48211bf42ea30403";
  "03674c29f348124e998fd838228a3ff050ca26fe0c13ad98698585cbbf796b461e" ].

Definition TESTNET_EMERGENCY_KEYS : list string := [
  "029a1c55fa7e69dd99087f7ca799797052ae21327b94159e60b8cc5704eb188583";
  "023c806b01f35a18b42b08f23f5c7e8490801a7da8fd6f6e77708d9f26f22c423e";
  "02615c78e21078c21a63cb21cc4d29eaa148d97c3dcbe7be5d9d4dda4e969bb05a";
  "033d301dc7ef7ab653da36da1285063ea9be1448d601e3c9f99185476b9d4ae1d1" ].

Definition MAINNET_BENCHMARKING_KEYS : list TimedPublicKey := [
  mkTimedKey
    "042e79d7dd1483996157df6b16c831be2b14b31c69944ea2a585c63b5101af1f9517ba392cee5b1f45a62e9d936488429374535a2f76870bfa8eea6667b13eb39e"
    0;
  mkTimedKey
    "04517413e51fa9b2e94f200b254cca69beb86f2d74bf66ca53854ba66bc376dde9b52e9b4403731d9a4f3e8edd9687f1e1824b688fe26454bd9fb823a3307b4682"
    1618113600;
  mkTimedKey
    "0480dff65aa9d4b4c4234e4723a5e7c5bf527ca683b53aa26a7225cc5eb16e6e79f9629eb5f96c12b173de7a20e9823b2d36575759f3490864922f7ed04e171fad"
    1647262800;
  mkTimedKey
    "0437d58236a849ebe0e6558c1517e1f5c56749e04a2f7a7daedd4ef7c9fb6a773f32a33fe5ddad88b9af3ff496ee5ce79ce245c258bafa4e8d287baa3d54c6c65f"
    1706209200;
  mkTimedKey
    "04e54965119e89861f80135b13f56c3b5cc55ad2b916d9705052fc91d2894f9cb19151a8d61c6e9ea4812075dd32f06fde5965589ffa1517ab1bd2ddbc66a39f42"
    1743534000 ].

Definition TESTNET_BENCHMARKING_KEYS : list TimedPublicKey := [
  mkTimedKey
    "04d422e01f5acff68504b92df96a9004cf61be432a20efe83fe8a94c1aa730fe7dece5d2e8298f2d5672d4e569c55d9f0a73268ef7b92990d8c014e828a7cc48dd"
    0;
  mkTimedKey
    "042023568fbcc4715c34d8596feaabf0683b3dfa7280b2f4df0436311a31086a73fdf507d63c3ec89455037ba738375d17b309c2cd226f173a5ef7841400cd09ec"
    1617508800 ].

Definition REGTEST_BENCHMARKING_KEYS : list TimedPublicKey := [
  mkTimedKey
    "04cf3c34f01486bbb34c1a7ca11c2ddb1b3d98698c3f37d54452ff91a8cd5e92a6910ce5fc2cc7ad63547454a965df53ff5be740d4ef4ac89848c2bafd1e40e6b7"
    0;
  mkTimedKey
    "045d54130187b4c4bba25004bf615881c2d79b16950a59114df27dc9858d8e531fda4f3a27aa95ceb2bcc87ddd734be40a6808422655e5350fa9417874556b7342"
    1617508800 ].

Definition MAINNET_P2SH_KEYS : list TimedPublicKey := [
  mkTimedKey
    "04ab11edbb8a15f7cc2628a4a2c18cea095d250f8c9a2924cbd581b8d8fb3a8b91e39e5febddb7ffc60f20dfd352a40aa4f061aa60a9ace26d43e1b7a18aea4162"
    0 ].

Definition TESTNET_P2SH_KEYS : list TimedPublicKey := [
  mkTimedKey
    "04276f105ff36a670a56e75c2462cff05a4a7864756e6e1af01022e32752d6fe57b1e13cab4f2dbe3a6a51b4e0de83a5c4627345f5232151867850018c9a3c3a1d"
    0 ].

Definition REGTEST_P2SH_KEYS : list TimedPublicKey := [
  mkTimedKey
    "04276f105ff36a670a56e75c2462cff05a4a7864756e6e1af01022e32752d6fe57b1e13cab4f2dbe3a6a51b4e0de83a5c4627345f5232151867850018c9a3c3a1d"
    0 ].

Definition MAINNET_DNS_SEEDS : list string := [
  "dnsseed.asoftwaresolution.com";
  "dnsseed.zel.network";
  "dnsseed.runonflux.io" ].

Definition MAINNET_FIXED_SEEDS : list string := [
  "46.36.38.23:16125";
  "46.36.39.93:16125";
  "45.63.86.148:16125";
  "45.63.83.125:16125";
  "52.171.140.27:16125";
  "142.44.143.182:16125";
  "173.212.207.13:16125";
  "173.249.13.224:16125";
  "136.33.111.57:16125";
  "35.194.136.53:16125";
  "35.205.124.144:16125" ].

Definition TESTNET_DNS_SEEDS : list string := [
  "flux-testnet-seed.asoftwaresolution.com";
  "test.dnsseed.zel.network";
  "test.dnsseed.runonflux.io" ].

Definition TESTNET_FIXED_SEEDS : list string := [].

Definition REGTEST_DNS_SEEDS : list string := [].

Definition REGTEST_FIXED_SEEDS : list string := [].

Definition mainnet_upgrades : list NetworkUpgrade := [
  mkUpgrade 170002 ALWAYS_ACTIVE None;
  mkUpgrade 170002 NO_ACTIVATION_HEIGHT None;
  mkUpgrade 170002 125000 None;
  mkUpgrade 170002 125100 None;
  mkUpgrade 170007 250000 (Some (hash256_hex 0x0000001d65fa78f2f6c172a51b5aca59ee1927e51f728647fca21b180becfe59));
  mkUpgrade 170012 372500 (Some (hash256_hex 0x00000052e2ac144c2872ff641c646e41dac166ac577bc9b0837f501aba19de4a));
  mkUpgrade 170016 558000 (Some (hash256_hex 0x000000a33d38f37f586b843a9c8cf6d1ff1269e6114b34604cabcd14c44268d4));
  mkUpgrade 170017 835554 (Some (hash256_hex 0x000000ce99aa6765bdaae673cdf41f661ff20a116eb6f2fe0843488d8061f193));
  mkUpgrade 170018 1076532 (Some (hash256_hex 0x000000111f8643ce24d9753dbc324220877299075a8a6102da61ef4460296325));
  mkUpgrade 170019 1549500 (Some (hash256_hex 0x00000009f9178347f3dea495a089400050c3388e07f9c871fb1ebddcab1f8044));
  mkUpgrade 170020 2020000 None ].

Definition mainnet_checkpoints : list Checkpoint := [
  mkCheckpoint 0 (hash256_hex 0x00052461a5006c2e3b74ce48992a08695607912d5604c3eb8da25749b0900444);
  mkCheckpoint 5500 (hash256_hex 0x0000000e7724f8bace09dd762657169c10622af4a6a8e959152cd00b9119848e);
  mkCheckpoint 35000 (hash256_hex 0x000000004646dd797644b9c67aff320961e95c311b4f26985424b720d09fcaa5);
  mkCheckpoint 70000 (hash256_hex 0x00000001edcf7768ed39fac55414e53a78d077b1b41fccdaf9307d7bc219626a);
  mkCheckpoint 94071 (hash256_hex 0x00000005ec83876bc5288badf0971ae83ac7c6a286851f7b22a75a03e73b401a);
  mkCheckpoint 277649 (hash256_hex 0x00000004a53f9271d05071a052b3738b46663f3335d14b6aea965a3cb70c0cc8);
  mkCheckpoint 400000 (hash256_hex 0x000000390342f0e52443ad79b43e5d85b78bf519667aeb3aa980d76caeda0369);
  mkCheckpoint 530000 (hash256_hex 0x0000004b4459ec6904e8116d178c357b0f25a7d45c5c5836ce3714791f1ed124);
  mkCheckpoint 600000 (hash256_hex 0x000000dea4478401e6ab95f6d05ade810115411e95e75fab9fd94a44df4b1e1d);
  mkCheckpoint 700000 (hash256_hex 0x0000000845ef03939225cc592773fd7aef54b5232fc42790c46ef6f11ee3e8d4);
  mkCheckpoint 800000 (hash256_hex 0x000000451b73f495b2f6ad38bd89d15495551fc15c2078ad7af3d54d06422cc6);
  mkCheckpoint 900000 (hash256_hex 0x000001e1ad2bb5e3cabb09559b6e65b871bf1d2a51bcc141ce45fc4cbd1d9cd8);
  mkCheckpoint 1000000 (hash256_hex 0x0000001a80e7f30d21fb14116cd01d51e1fad8ac84cc960896f4691a57368a47);
  mkCheckpoint 1040000 (hash256_hex 0x00000007f3b465bd4b0e161e43c05a3d946144330e33ea3a91cb952e6ef86b7d);
  mkCheckpoint 1040577 (hash256_hex 0x000000071fe89682ac260bc0a49621344eb28ae01659c9e7ce86e3762e45f52d);
  mkCheckpoint 1042126 (hash256_hex 0x0000000295e4663178fd9e533787e74206645910a2bfb61938db5f67796eaad0);
  mkCheckpoint 1060000 (hash256_hex 0x0000000fd721d8d381c4b24a4f78fc036955d7a0f98d2765b8c7badad8b66c1b);
  mkCheckpoint 1442798 (hash256_hex 0x0000000cc561fecb2ecfd22ba7af09450ca8cf270f407ce8b948195ff2aa0d13);
  mkCheckpoint 1518503 (hash256_hex 0x0000000dba41dc84c52a3933af49d316fff49a76b49d42bd5b6d20c4e451a0ef);
  mkCheckpoint 1791720 (hash256_hex 0x0000000abc7bd62a213e0dab43c9c01220b031a568fdfb5c2ef89e6b30054bdc);
  mkCheckpoint 2020500 (hash256_hex 0xaf2a1bd59c61f64860b4b45bd65358743fda40d8420564b58c39df45be7da97c);
  mkCheckpoint 2021000 (hash256_hex 0xd2dcec473e809575e30ec2c0f400758120f5121b8268f90cdb8a7dbefe285b0d);
  mkCheckpoint 2021500 (hash256_hex 0xfa98471f31ffc1366330bababc090ad5cb6bd23c25bb3b61d1e1ed07a77d6126);
  mkCheckpoint 2022000 (hash256_hex 0x40a060546a56eb7fab0fd33ab3e6de834ff0d5273847d4f231a9addecfc44f61);
  mkCheckpoint 2029000 (hash256_hex 0x4856dc788a973db4cc537465c9ef80288e1eb065898993d72371b1ee48c248b4) ].

Definition mainnet_emergency_params : EmergencyParams :=
  mkEmergency MAINNET_EMERGENCY_KEYS (hash256_hex 0x1111111111111111111111111111111111111111111111111111111111111111) 2.

Definition mainnet_consensus_params : ConsensusParams := {|
  network := Mainnet;
  hash_genesis_block := (hash256_hex 0x00052461a5006c2e3b74ce48992a08695607912d5604c3eb8da25749b0900444);
  genesis_time := 1516980000;
  coinbase_must_be_protected := true;
  subsidy_slow_start_interval := 5000;
  subsidy_halving_interval := 655350;
  majority_enforce_block_upgrade := 750;
  majority_reject_block_outdated := 950;
  majority_window := 4000;
  upgrades := mainnet_upgrades;
  emergency := mainnet_emergency_params;
  checkpoints := mainnet_checkpoints;
  pow_limit := (hash256_hex 0x0007ffffffffffffffffffffffffffffffffffffffffffffffffffffffffffff);
  pon_limit := (hash256_hex 0x0fffffffffffffffffffffffffffffffffffffffffffffffffffffffffffffff);
  pon_start_limit := (hash256_hex 0x000bffffffffffffffffffffffffffffffffffffffffffffffffffffffffffff);
  pow_allow_min_difficulty_after_height := None;
  digishield_averaging_window := 17;
  digishield_max_adjust_down := 32;
  digishield_max_adjust_up := 16;
  pow_target_spacing := 120;
  pon_target_spacing := 30;
  pon_difficulty_window := 30;
  pon_subsidy_reduction_interval := 1051200;
  pon_max_reductions := 20;
  pon_initial_subsidy := 14;
  minimum_chain_work := (hash256_hex 0x000000000000000000000000000000000000000000000000000021f5d5da5d73);
  zawy_lwma_averaging_window := 60;
  eh_epoch_fade_length := 11;
  eh_epoch_1 := mkEquihash 200 9 1344;
  eh_epoch_2 := mkEquihash 144 5 100;
  eh_epoch_3 := mkEquihash 125 4 52 |}.

Definition mainnet_funding : FundingParams := {|
  exchange_address := "t3PMbbA5YBMrjSD3dD16SSdXKuKovwmj6tS";
  exchange_height := 836274;
  exchange_amount := (7500000 * COIN);
  foundation_address := "t3XjYMBvwxnXVv9jqg4CgokZ3f7kAoXPQL8";
  foundation_height := 836994;
  foundation_amount := (2500000 * COIN);
  dev_fund_address := "t3hPu1YDeGUCp8m7BQCnnNUmRMJBa5RadyA" |}.

Definition mainnet_swap_pool : SwapPoolParams := {|
  swap_address := "t3ThbWogDoAjGuS6DEnmN1GWJBRbVjSUK4T";
  swap_start_height := 837714;
  swap_amount := (22000000 * COIN);
  swap_interval := 21600;
  swap_max_times := 10 |}.

Definition mainnet_fluxnode : FluxnodeParams := {|
  start_payments_height := 560000;
  benchmarking_public_keys := MAINNET_BENCHMARKING_KEYS;
  p2sh_public_keys := MAINNET_P2SH_KEYS;
  cumulus_transition_start := 1076532;
  cumulus_transition_end := 1086612;
  nimbus_transition_start := 1081572;
  nimbus_transition_end := 1092372;
  stratus_transition_start := 1087332;
  stratus_transition_end := 1097412 |}.

Definition mainnet_chain_params : ChainParams := {|
  chain_network := Mainnet;
  consensus := mainnet_consensus_params;
  funding := mainnet_funding;
  swap_pool := mainnet_swap_pool;
  chain_emergency := mainnet_emergency_params;
  fluxnode_params := mainnet_fluxnode;
  message_start := [0x24; 0xe9; 0x27; 0x64];
  default_port := 16125;
  dns_seeds := MAINNET_DNS_SEEDS;
  fixed_seeds := MAINNET_FIXED_SEEDS |}.

Definition testnet_upgrades : list NetworkUpgrade := [
  mkUpgrade 170002 ALWAYS_ACTIVE None;
  mkUpgrade 170002 NO_ACTIVATION_HEIGHT None;
  mkUpgrade 170002 70 None;
  mkUpgrade 170002 140 None;
  mkUpgrade 170007 210 None;
  mkUpgrade 170012 280 None;
  mkUpgrade 170016 350 None;
  mkUpgrade 170017 420 None;
  mkUpgrade 170018 520 None;
  mkUpgrade 170019 600 None;
  mkUpgrade 170020 800 None ].

Definition testnet_checkpoints : list Checkpoint := [
  mkCheckpoint 0 (hash256_hex 0x0042202a64a929fc25cc10e68615ddbe38007b1b40da08acd3f530f83c79b9d1);
  mkCheckpoint 320 (hash256_hex 0x0237bf16aba912b0c68933809a7e7fe9553ddff1bc0782d2463fc5d161af1c46) ].

Definition testnet_emergency_params : EmergencyParams :=
  mkEmergency TESTNET_EMERGENCY_KEYS (hash256_hex 0x1111111111111111111111111111111111111111111111111111111111111111) 2.

Definition testnet_consensus_params : ConsensusParams := {|
  network := Testnet;
  hash_genesis_block := (hash256_hex 0x0042202a64a929fc25cc10e68615ddbe38007b1b40da08acd3f530f83c79b9d1);
  genesis_time := 1582228940;
  coinbase_must_be_protected := true;
  subsidy_slow_start_interval := 1;
  subsidy_halving_interval := 655350;
  majority_enforce_block_upgrade := 51;
  majority_reject_block_outdated := 75;
  majority_window := 400;
  upgrades := testnet_upgrades;
  emergency := testnet_emergency_params;
  checkpoints := testnet_checkpoints;
  pow_limit := (hash256_hex 0x0effffffffffffffffffffffffffffffffffffffffffffffffffffffffffffff);
  pon_limit := (hash256_hex 0x0fffffffffffffffffffffffffffffffffffffffffffffffffffffffffffffff);
  pon_start_limit := (hash256_hex 0x7fffffffffffffffffffffffffffffffffffffffffffffffffffffffffffffff);
  pow_allow_min_difficulty_after_height := (Some 0);
  digishield_averaging_window := 17;
  digishield_max_adjust_down := 32;
  digishield_max_adjust_up := 16;
  pow_target_spacing := 60;
  pon_target_spacing := 30;
  pon_difficulty_window := 60;
  pon_subsidy_reduction_interval := 525600;
  pon_max_reductions := 20;
  pon_initial_subsidy := 14;
  minimum_chain_work := (zeros 32);
  zawy_lwma_averaging_window := 60;
  eh_epoch_fade_length := 10;
  eh_epoch_1 := mkEquihash 48 5 36;
  eh_epoch_2 := mkEquihash 48 5 36;
  eh_epoch_3 := mkEquihash 48 5 36 |}.

Definition testnet_funding : FundingParams := {|
  exchange_address := "tmRucHD85zgSigtA4sJJBDbPkMUJDcw5XDE";
  exchange_height := 4100;
  exchange_amount := (7500000 * COIN);
  foundation_address := "tmRucHD85zgSigtA4sJJBDbPkMUJDcw5XDE";
  foundation_height := 4200;
  foundation_amount := (2500000 * COIN);
  dev_fund_address := "t2GoxS2SRmLQDnTyWePHjKD3izvFsKUAjrH" |}.

Definition testnet_swap_pool : SwapPoolParams := {|
  swap_address := "tmRucHD85zgSigtA4sJJBDbPkMUJDcw5XDE";
  swap_start_height := 4300;
  swap_amount := (2200000 * COIN);
  swap_interval := 100;
  swap_max_times := 10 |}.

Definition testnet_fluxnode : FluxnodeParams := {|
  start_payments_height := 350;
  benchmarking_public_keys := TESTNET_BENCHMARKING_KEYS;
  p2sh_public_keys := TESTNET_P2SH_KEYS;
  cumulus_transition_start := 420;
  cumulus_transition_end := 520;
  nimbus_transition_start := 420;
  nimbus_transition_end := 520;
  stratus_transition_start := 420;
  stratus_transition_end := 520 |}.

Definition testnet_chain_params : ChainParams := {|
  chain_network := Testnet;
  consensus := testnet_consensus_params;
  funding := testnet_funding;
  swap_pool := testnet_swap_pool;
  chain_emergency := testnet_emergency_params;
  fluxnode_params := testnet_fluxnode;
  message_start := [0xfa; 0x1a; 0xf9; 0xbf];
  default_port := 26125;
  dns_seeds := TESTNET_DNS_SEEDS;
  fixed_seeds := TESTNET_FIXED_SEEDS |}.

Definition regtest_upgrades : list NetworkUpgrade := [
  mkUpgrade 170002 ALWAYS_ACTIVE None;
  mkUpgrade 170002 NO_ACTIVATION_HEIGHT None;
  mkUpgrade 170002 NO_ACTIVATION_HEIGHT None;
  mkUpgrade 170002 NO_ACTIVATION_HEIGHT None;
  mkUpgrade 170006 NO_ACTIVATION_HEIGHT None;
  mkUpgrade 170012 NO_ACTIVATION_HEIGHT None;
  mkUpgrade 170016 NO_ACTIVATION_HEIGHT None;
  mkUpgrade 170017 NO_ACTIVATION_HEIGHT None;
  mkUpgrade 170018 NO_ACTIVATION_HEIGHT None;
  mkUpgrade 170019 NO_ACTIVATION_HEIGHT None;
  mkUpgrade 170020 NO_ACTIVATION_HEIGHT None ].

Definition regtest_checkpoints : list Checkpoint := [
  mkCheckpoint 0 (hash256_hex 0x01998760a88dc2b5715f69d2f18c1d90e0b604612242d9099eaff3048dd1e0ce) ].

Definition regtest_emergency_params : EmergencyParams :=
  mkEmergency TESTNET_EMERGENCY_KEYS (hash256_hex 0x1111111111111111111111111111111111111111111111111111111111111111) 1.

Definition regtest_consensus_params : ConsensusParams := {|
  network := Regtest;
  hash_genesis_block := (hash256_hex 0x01998760a88dc2b5715f69d2f18c1d90e0b604612242d9099eaff3048dd1e0ce);
  genesis_time := 1296688602;
  coinbase_must_be_protected := false;
  subsidy_slow_start_interval := 0;
  subsidy_halving_interval := 150;
  majority_enforce_block_upgrade := 750;
  majority_reject_block_outdated := 950;
  majority_window := 1000;
  upgrades := regtest_upgrades;
  emergency := regtest_emergency_params;
  checkpoints := regtest_checkpoints;
  pow_limit := (hash256_hex 0x0f0f0f0f0f0f0f0f0f0f0f0f0f0f0f0f0f0f0f0f0f0f0f0f0f0f0f0f0f0f0f0f);
  pon_limit := (hash256_hex 0x0f0f0f0f0f0f0f0f0f0f0f0f0f0f0f0f0f0f0f0f0f0f0f0f0f0f0f0f0f0f0f0f);
  pon_start_limit := (hash256_hex 0x7fffffffffffffffffffffffffffffffffffffffffffffffffffffffffffffff);
  pow_allow_min_difficulty_after_height := (Some 0);
  digishield_averaging_window := 17;
  digishield_max_adjust_down := 0;
  digishield_max_adjust_up := 0;
  pow_target_spacing := 120;
  pon_target_spacing := 30;
  pon_difficulty_window := 60;
  pon_subsidy_reduction_interval := 100;
  pon_max_reductions := 10;
  pon_initial_subsidy := 14;
  minimum_chain_work := (hash256_hex 0x00);
  zawy_lwma_averaging_window := 60;
  eh_epoch_fade_length := 11;
  eh_epoch_1 := mkEquihash 200 9 1344;
  eh_epoch_2 := mkEquihash 144 5 100;
  eh_epoch_3 := mkEquihash 125 4 52 |}.

Definition regtest_funding : FundingParams := {|
  exchange_address := "tmRucHD85zgSigtA4sJJBDbPkMUJDcw5XDE";
  exchange_height := 10;
  exchange_amount := (3000000 * COIN);
  foundation_address := "t2DFGpj2tciojsGKKrGVwQ92hUwAxWQQgJ9";
  foundation_height := 10;
  foundation_amount := (2500000 * COIN);
  dev_fund_address := "t2GoxS2SRmLQDnTyWePHjKD3izvFsKUAjrH" |}.

Definition regtest_swap_pool : SwapPoolParams := {|
  swap_address := "t2Dsexh4v5g2dpL2LLCsR1p9TshMm63jSBM";
  swap_start_height := 10;
  swap_amount := (2100000 * COIN);
  swap_interval := 10;
  swap_max_times := 5 |}.

Definition regtest_fluxnode : FluxnodeParams := {|
  start_payments_height := 100;
  benchmarking_public_keys := REGTEST_BENCHMARKING_KEYS;
  p2sh_public_keys := REGTEST_P2SH_KEYS;
  cumulus_transition_start := 0;
  cumulus_transition_end := 1000;
  nimbus_transition_start := 0;
  nimbus_transition_end := 1000;
  stratus_transition_start := 0;
  stratus_transition_end := 100 |}.

Definition regtest_chain_params : ChainParams := {|
  chain_network := Regtest;
  consensus := regtest_consensus_params;
  funding := regtest_funding;
  swap_pool := regtest_swap_pool;
  chain_emergency := regtest_emergency_params;
  fluxnode_params := regtest_fluxnode;
  message_start := [0xaa; 0xe8; 0x3f; 0x5f];
  default_port := 26126;
  dns_seeds := REGTEST_DNS_SEEDS;
  fixed_seeds := REGTEST_FIXED_SEEDS |}.

Definition consensus_params (network : Network) : ConsensusParams :=
  match network with
  | Mainnet => mainnet_consensus_params
  | Testnet => testnet_consensus_params
  | Regtest => regtest_consensus_params
  end.

Definition chain_params (network : Network) : ChainParams :=
  match network with
  | Mainnet => mainnet_chain_params
  | Testnet => testnet_chain_params
  | Regtest => regtest_chain_params
  end.

(** ** The schedule's queries *)
Section schedule.
  Context (us : list NetworkUpgrade).

Definition act (idx : UpgradeIndex) : Z := activation_height (upgrade_at us idx).

(** Enabled upgrades activate in index order. *)
Fixpoint sorted_enabled (l : list UpgradeIndex) : bool :=
  match l with
  | [] => true
  | i :: l =>
      ((act i =? NO_ACTIVATION_HEIGHT)
       || forallb (fun j => (act j =? NO_ACTIVATION_HEIGHT) || (act i <=? act j)) l)
      && sorted_enabled l
  end.
Definition schedule_sorted : bool := sorted_enabled (drop 1 ALL_UPGRADES).

Lemma active_spec h i :
  network_upgrade_active h us i = true <-> act i <> NO_ACTIVATION_HEIGHT /\ act i <= h.
Proof.
  unfold network_upgrade_active, network_upgrade_state. fold (act i).
  rewrite bool_decide_eq_true, Z.geb_leb. destruct (Z.eqb_spec (act i) NO_ACTIVATION_HEIGHT); [naive_solver|].
  destruct (Z.leb_spec (act i) h); split; intros; try done; lia.
Qed.

Lemma pending_spec h i :
  bool_decide (network_upgrade_state h us i = Pending) = true
  <-> act i <> NO_ACTIVATION_HEIGHT /\ h < act i.
Proof.
  unfold network_upgrade_state. fold (act i).
  rewrite bool_decide_eq_true, Z.geb_leb. destruct (Z.eqb_spec (act i) NO_ACTIVATION_HEIGHT); [naive_solver|].
  destruct (Z.leb_spec (act i) h); split; intros; try done; lia.
Qed.

(** The first pending upgrade of a sorted list bounds all later activations. *)
Lemma find_pending_least h l i j :
  sorted_enabled l = true ->
  find (fun i => bool_decide (network_upgrade_state h us i = Pending)) l = Some i ->
  j ∈ l -> act j <> NO_ACTIVATION_HEIGHT -> act j <= h \/ act i <= act j.
Proof.
  induction l as [|x l IH]; cbn [sorted_enabled find]; [done|].
  intros [Hx Hl]%andb_true_iff. destruct (bool_decide _) eqn:Hp.
  - intros [= ->] [->|Hj]%elem_of_cons Hne; [right; lia|]. apply pending_spec in Hp as [Hp ?].
    apply orb_true_iff in Hx as [Hx|Hx]; [by apply Z.eqb_eq in Hx|].
    rewrite forallb_forall in Hx. specialize (Hx j (proj1 (list_elem_of_In _ _) Hj)).
    apply orb_true_iff in Hx as [Hx|Hx]; [by apply Z.eqb_eq in Hx|right; lia].
  - intros Hf [->|Hj]%elem_of_cons Hne; [|by eauto].
    destruct (Z.le_gt_cases (act x) h); [by left|].
    assert (Hc : bool_decide (network_upgrade_state h us x = Pending) = true)
      by (apply pending_spec; split; [done|lia]). congruence.
Qed.

Lemma find_pending_none h l j :
  find (fun i => bool_decide (network_upgrade_state h us i = Pending)) l = None ->
  j ∈ l -> act j <> NO_ACTIVATION_HEIGHT -> act j <= h.
Proof.
  intros Hf Hj Hne. apply list_elem_of_In in Hj. eapply find_none in Hf; [|done].
  destruct (Z.le_gt_cases (act j) h); [done|].
  assert (Hc : bool_decide (network_upgrade_state h us j = Pending) = true)
    by (apply pending_spec; split; [done|lia]). congruence.
Qed.

(** Two heights with the same active upgrades (the base epoch apart) are in
    the same epoch. *)
Lemma current_epoch_ext h k :
  (forall j, j ∈ drop 1 ALL_UPGRADES ->
     network_upgrade_active h us j = network_upgrade_active k us j) ->
  current_epoch h us = current_epoch k us.
Proof.
  intros Hj. unfold current_epoch. change (rev ALL_UPGRADES) with (rev (drop 1 ALL_UPGRADES) ++ [BaseSprout]).
  assert (Hl : forall l, (forall j, j ∈ l -> j ∈ drop 1 ALL_UPGRADES) ->
    default BaseSprout (find (network_upgrade_active h us) (l ++ [BaseSprout]))
    = default BaseSprout (find (network_upgrade_active k us) (l ++ [BaseSprout]))).
  { induction l as [|x l IH]; intros Hin; cbn [app find].
    - by destruct (network_upgrade_active h us BaseSprout), (network_upgrade_active k us BaseSprout).
    - rewrite <- (Hj x) by (apply Hin; left). destruct (network_upgrade_active h us x); [done|].
      apply IH. intros j ?. apply Hin. by right. }
  apply Hl. intros j Hin. apply list_elem_of_In, in_rev, list_elem_of_In in Hin. done.
Qed.
End schedule.

(** ** Properties *)

(** The schedule queries agree with each other.  When upgrades activate
    in index order, the epoch is the same at every height from [h] up to (not
    including) the height [next_activation_height h] returns, that height is
    above [h] and is an activation height; with no next activation the epoch
    never changes again. *)
Theorem epoch_constant_until_next_activation (us : list NetworkUpgrade) (h k : Z)
    (Hs : schedule_sorted us = true) (Hh : 0 <= h) (Hk : h <= k) :
  match next_activation_height h us with
  | Some a => h < a /\ is_activation_height_for_any_upgrade a us = true
      /\ (k < a -> current_epoch k us = current_epoch h us)
  | None => current_epoch k us = current_epoch h us
  end.
Proof.
  unfold next_activation_height, next_epoch. replace (h <? 0) with false by (symmetry; apply Z.ltb_ge; lia).
  destruct (find _ (drop 1 ALL_UPGRADES)) as [i|] eqn:Hf; cbn.
  - pose proof (find_some _ _ Hf) as [Hi Hp]. apply pending_spec in Hp as [Hne Hlt].
    fold (act us i). split_and!; [done| |].
    + unfold is_activation_height_for_any_upgrade.
      replace (act us i <? 0) with false by (symmetry; apply Z.ltb_ge; lia).
      apply existsb_exists. exists i. split; [done|apply Z.eqb_refl].
    + intros Hka. apply current_epoch_ext. intros j Hj.
      apply eq_true_iff_eq. rewrite !active_spec.
      split; intros [Hne' ?]; (split; [done|]); [|lia].
      destruct (find_pending_least us h _ i j Hs Hf Hj Hne'); lia.
  - apply current_epoch_ext. intros j Hj. apply eq_true_iff_eq. rewrite !active_spec.
    split; intros [Hne' ?]; (split; [done|]); [|lia].
    by apply (find_pending_none us h _ j Hf).
Qed.

Lemma epoch_constant_until_next_activation_witness :
  match next_activation_height 600000 mainnet_upgrades with
  | Some a => 600000 < a /\ is_activation_height_for_any_upgrade a mainnet_upgrades = true
      /\ (800000 < a -> current_epoch 800000 mainnet_upgrades = current_epoch 600000 mainnet_upgrades)
  | None => current_epoch 800000 mainnet_upgrades = current_epoch 600000 mainnet_upgrades
  end.
Proof. apply epoch_constant_until_next_activation; [vm_compute; reflexivity|lia|lia]. Defined.

(** The schedules of all networks are in order. *)
Lemma schedules_sorted n : schedule_sorted (upgrades (consensus_params n)) = true.
Proof. by destruct n. Qed.
