(* ===== verification/Rewards.v ===== *)
(** * Subsidies and payouts ([consensus/src/rewards.rs])

    Block subsidy, fluxnode payouts (with the [f64] arithmetic of the code),
    collateral tiers, and the one-off funding amounts. *)

From S2P Require Import Prelude Consensus.
From Stdlib Require Import ZArith Lia Floats.SpecFloat.
From stdpp Require Import base list option numbers strings.
#[local] Open Scope Z_scope.

Definition V1_FLUXNODE_COLLAT_CUMULUS : Z := 10000 * COIN.
Definition V1_FLUXNODE_COLLAT_NIMBUS : Z := 25000 * COIN.
Definition V1_FLUXNODE_COLLAT_STRATUS : Z := 100000 * COIN.
Definition V2_FLUXNODE_COLLAT_CUMULUS : Z := 1000 * COIN.
Definition V2_FLUXNODE_COLLAT_NIMBUS : Z := 12500 * COIN.
Definition V2_FLUXNODE_COLLAT_STRATUS : Z := 40000 * COIN.

(** Integer division: it panics on a zero divisor. *)
Definition checked_quot {E} (a b : Z) : result E Z :=
  if b =? 0 then Panic else Ok (Z.quot a b).

(** [saturating_sub] of [i32]. *)
Definition saturating_sub_i32 (a b : Z) : Z := Z.max (-2147483648) (Z.min 2147483647 (a - b)).

(** [for _ in 0..reductions { subsidy = subsidy * 9 / 10 }]. *)
Fixpoint reduce_subsidy (reductions : nat) (subsidy : Z) : Z :=
  match reductions with
  | O => subsidy
  | S n => reduce_subsidy n (Z.quot (wrap_i64 (subsidy * 9)) 10)
  end.

Definition block_subsidy {E} (height : Z) (params : ConsensusParams) : result E Z :=
  if network_upgrade_active height (upgrades params) Pon then
    let subsidy := wrap_i64 (pon_initial_subsidy params * COIN) in
    let activation_height := activation_height (upgrade_at (upgrades params) Pon) in
    let blocks_since_pon := saturating_sub_i32 height activation_height in
    years_elapsed ← checked_quot blocks_since_pon (pon_subsidy_reduction_interval params);
    let reductions := Z.min years_elapsed (pon_max_reductions params) in
    Ok (reduce_subsidy (Z.to_nat reductions) subsidy)
  else
    let subsidy := 150 * COIN in
    if height =? 1 then Ok (13020000 * COIN)
    else if height <? Z.quot (subsidy_slow_start_interval params) 2 then
      subsidy ← checked_quot subsidy (subsidy_slow_start_interval params);
      Ok (wrap_i64 (subsidy * height))
    else if height <? subsidy_slow_start_interval params then
      subsidy ← checked_quot subsidy (subsidy_slow_start_interval params);
      Ok (wrap_i64 (subsidy * wrap_i32 (height + 1)))
    else
      let shift := subsidy_slow_start_shift params in
      halvings ← checked_quot (wrap_i32 (height - shift)) (subsidy_halving_interval params);
      if halvings >=? 64 then Ok 0
      else if halvings >=? 2 then Ok (Z.shiftr subsidy 2)
      else Ok (Z.shiftr subsidy (halvings mod 64)).

(** ** [f64]

    IEEE binary64 as in [SpecFloat]; a decimal literal is the correctly
    rounded quotient of two exact integers. *)
Definition f64_of_i64 (z : Z) : spec_float := binary_normalize 53 1024 z 0 false.
Definition f64_mul (a b : spec_float) : spec_float := SFmul 53 1024 a b.
Definition f64_literal (num den : Z) : spec_float :=
  SFdiv 53 1024 (f64_of_i64 num) (f64_of_i64 den).

(** [as i64] from [f64]: truncation towards zero, saturating, NaN to 0. *)
Definition i64_of_f64 (f : spec_float) : Z :=
  match f with
  | S754_zero _ | S754_nan => 0
  | S754_infinity s => if s then -9223372036854775808 else 9223372036854775807
  | S754_finite s m e =>
      let t := Z.shiftl (Z.pos m) e in
      if s then Z.max (-9223372036854775808) (- t) else Z.min 9223372036854775807 t
  end.

Definition fluxnode_subsidy (height block_value tier : Z) (params : ConsensusParams) : Z :=
  if network_upgrade_active height (upgrades params) Pon then
    let PON_INITIAL_TOTAL := 14 * COIN in
    let PON_CUMULUS_BASE := COIN in
    let PON_NIMBUS_BASE := Z.quot (35 * COIN) 10 in
    let PON_STRATUS_BASE := 9 * COIN in
    let pay base := Z.quot (wrap_i64 (block_value * base)) PON_INITIAL_TOTAL in
    if tier =? 1 then pay PON_CUMULUS_BASE
    else if tier =? 2 then pay PON_NIMBUS_BASE
    else if tier =? 3 then pay PON_STRATUS_BASE
    else 0
  else
    let flux_rebrand_active := network_upgrade_active height (upgrades params) Flux in
    let multiple := f64_of_i64 (if flux_rebrand_active then 2 else 1) in
    let pay percentage := i64_of_f64 (f64_mul (f64_of_i64 block_value) (f64_mul percentage multiple)) in
    if tier =? 1 then pay (f64_literal 375 10000)
    else if tier =? 2 then pay (f64_literal 625 10000)
    else if tier =? 3 then pay (f64_literal 15 100)
    else 0.

Definition fluxnode_collateral_matches_tier (height amount tier : Z) (params : FluxnodeParams) : bool :=
  if tier =? 1 then
    if height <? cumulus_transition_start params then amount =? V1_FLUXNODE_COLLAT_CUMULUS
    else if height <? cumulus_transition_end params then
      (amount =? V1_FLUXNODE_COLLAT_CUMULUS) || (amount =? V2_FLUXNODE_COLLAT_CUMULUS)
    else amount =? V2_FLUXNODE_COLLAT_CUMULUS
  else if tier =? 2 then
    if height <? nimbus_transition_start params then amount =? V1_FLUXNODE_COLLAT_NIMBUS
    else if height <? nimbus_transition_end params then
      (amount =? V1_FLUXNODE_COLLAT_NIMBUS) || (amount =? V2_FLUXNODE_COLLAT_NIMBUS)
    else amount =? V2_FLUXNODE_COLLAT_NIMBUS
  else if tier =? 3 then
    if height <? stratus_transition_start params then amount =? V1_FLUXNODE_COLLAT_STRATUS
    else if height <? stratus_transition_end params then
      (amount =? V1_FLUXNODE_COLLAT_STRATUS) || (amount =? V2_FLUXNODE_COLLAT_STRATUS)
    else amount =? V2_FLUXNODE_COLLAT_STRATUS
  else false.

Definition fluxnode_tier_from_collateral (height amount : Z) (params : FluxnodeParams) : option Z :=
  find (fun tier => fluxnode_collateral_matches_tier height amount tier params) [1; 2; 3].

Definition min_dev_fund_amount {E} (height : Z) (params : ConsensusParams) : result E Z :=
  if negb (network_upgrade_active height (upgrades params) Pon) then Ok 0
  else
    block_value ← block_subsidy height params;
    let cumulus := fluxnode_subsidy height block_value 1 params in
    let nimbus := fluxnode_subsidy height block_value 2 params in
    let stratus := fluxnode_subsidy height block_value 3 params in
    Ok (wrap_i64 (block_value - cumulus - nimbus - stratus)).

Definition exchange_fund_amount (height : Z) (funding : FundingParams) : Z :=
  if height =? exchange_height funding then exchange_amount funding else 0.

Definition foundation_fund_amount (height : Z) (funding : FundingParams) : Z :=
  if height =? foundation_height funding then foundation_amount funding else 0.

(** [for i in 0..max_times]. *)
Fixpoint swap_pool_loop (count : nat) (i height : Z) (sp : SwapPoolParams) : bool :=
  match count with
  | O => false
  | S count =>
      if height =? wrap_i64 (swap_start_height sp + wrap_i64 (swap_interval sp * i)) then true
      else swap_pool_loop count (i + 1) height sp
  end.

Definition is_swap_pool_interval (height : Z) (sp : SwapPoolParams) : bool :=
  if height <? swap_start_height sp then false
  else if height >? wrap_i64 (swap_start_height sp + wrap_i64 (swap_interval sp * swap_max_times sp))
  then false
  else swap_pool_loop (Z.to_nat (swap_max_times sp)) 0 height sp.

Definition swap_pool_amount (height : Z) (sp : SwapPoolParams) : Z :=
  if is_swap_pool_interval height sp then swap_amount sp else 0.

(** ** Lemmas *)
Lemma reduce_step_bounds s :
  0 <= s <= 150 * COIN -> 0 <= Z.quot (wrap_i64 (s * 9)) 10 <= s.
Proof.
  unfold COIN. intros Hs. rewrite wrap_i64_id by int_lia.
  rewrite Z.quot_div_nonneg by lia. split; [apply Z.div_pos; lia|].
  apply Z.div_le_upper_bound; lia.
Qed.

Lemma reduce_subsidy_bounds n s :
  0 <= s <= 150 * COIN -> 0 <= reduce_subsidy n s <= s.
Proof.
  revert s; induction n as [|n IH]; intros s Hs; cbn [reduce_subsidy]; [lia|].
  pose proof (reduce_step_bounds s Hs).
  specialize (IH (Z.quot (wrap_i64 (s * 9)) 10) ltac:(lia)). lia.
Qed.

Lemma reduce_subsidy_add n m s :
  reduce_subsidy (n + m) s = reduce_subsidy m (reduce_subsidy n s).
Proof. revert s; induction n as [|n IH]; intros s; [done|]. apply IH. Qed.

(** What the parameter sets of the networks guarantee the subsidy code. *)
Definition subsidy_params_ok (p : ConsensusParams) : Prop :=
  0 <= pon_initial_subsidy p <= 14 /\ 0 < pon_subsidy_reduction_interval p
  /\ 0 <= subsidy_slow_start_interval p < 2147483647 /\ 0 < subsidy_halving_interval p
  /\ (network_upgrade_active 0 (upgrades p) Pon = false)
  /\ -1 <= activation_height (upgrade_at (upgrades p) Pon).
#[global] Instance subsidy_params_ok_dec p : Decision (subsidy_params_ok p).
Proof. unfold subsidy_params_ok; apply _. Defined.

Lemma network_params_ok n : subsidy_params_ok (consensus_params n).
Proof. destruct n; by_decide. Qed.

(** The subsidy while proof of node is active. *)
Lemma block_subsidy_pon {E} p h :
  subsidy_params_ok p -> is_i32 h -> network_upgrade_active h (upgrades p) Pon = true ->
  block_subsidy (E:=E) h p
  = Ok (reduce_subsidy
          (Z.to_nat (Z.min ((h - activation_height (upgrade_at (upgrades p) Pon))
                            / pon_subsidy_reduction_interval p) (pon_max_reductions p)))
          (pon_initial_subsidy p * COIN)).
Proof.
  intros (H1&H2&_&_&_&Ha) Hh Hp. unfold block_subsidy. rewrite Hp.
  apply active_spec in Hp as [Hne Hle]. unfold act, NO_ACTIVATION_HEIGHT in *.
  set (a := activation_height (upgrade_at (upgrades p) Pon)) in *.
  unfold saturating_sub_i32, checked_quot. unfold is_i32 in Hh.
  rewrite Z.min_r, Z.max_r by lia.
  replace (_ =? 0) with false by (symmetry; apply Z.eqb_neq; lia).
  rewrite Z.quot_div_nonneg by lia. cbn.
  rewrite wrap_i64_id; [done|]. unfold COIN. int_lia.
Qed.

Lemma block_subsidy_pow_bounds {E} p h :
  subsidy_params_ok p -> 0 <= h < 2147483647 -> h <> 1 ->
  network_upgrade_active h (upgrades p) Pon = false ->
  exists v, block_subsidy (E:=E) h p = Ok v /\ 0 <= v <= 150 * COIN.
Proof.
  intros (_&_&H3&H4&_&_) Hh H1 Hp. unfold block_subsidy. rewrite Hp.
  replace (h =? 1) with false by (symmetry; by apply Z.eqb_neq).
  set (i := subsidy_slow_start_interval p) in *. unfold COIN in *. change (150 * 100000000) with 15000000000.
  assert (Hi2 : 0 <= Z.quot i 2 <= i).
  { rewrite Z.quot_div_nonneg by lia. split; [apply Z.div_pos; lia|apply Z.div_le_upper_bound; lia]. }
  assert (Hslow : forall k, 0 <= k <= i -> 0 < i ->
    0 <= wrap_i64 (Z.quot 15000000000 i * k) <= 15000000000).
  { intros k Hk Hpos. rewrite Z.quot_div_nonneg by lia.
    assert (0 <= 15000000000 / i) by (apply Z.div_pos; lia).
    assert (i * (15000000000 / i) <= 15000000000) by (apply Z.mul_div_le; lia).
    assert (0 <= 15000000000 / i * k <= 15000000000) by nia.
    rewrite wrap_i64_id by int_lia. done. }
  unfold checked_quot.
  destruct (Z.ltb_spec h (Z.quot i 2)).
  { replace (i =? 0) with false by (symmetry; apply Z.eqb_neq; lia). cbn. eexists; split; [done|]. apply Hslow; lia. }
  destruct (Z.ltb_spec h i).
  { replace (i =? 0) with false by (symmetry; apply Z.eqb_neq; lia). cbn. eexists; split; [done|].
    rewrite wrap_i32_id by int_lia. apply Hslow; lia. }
  replace (subsidy_halving_interval p =? 0) with false by (symmetry; apply Z.eqb_neq; lia).
  unfold subsidy_slow_start_shift. fold i. rewrite wrap_i32_id by int_lia.
  rewrite Z.quot_div_nonneg by lia.
  assert (0 <= (h - Z.quot i 2) / subsidy_halving_interval p) by (apply Z.div_pos; lia).
  set (q := (h - Z.quot i 2) / subsidy_halving_interval p) in *.
  cbn [mbind result_bind]. rewrite !Z.geb_leb.
  destruct (Z.leb_spec 64 q); [eexists; split; [done|lia]|].
  destruct (Z.leb_spec 2 q); [eexists; split; [done|by_decide]|].
  assert (q = 0 \/ q = 1) as [->| ->] by lia; eexists; (split; [done|by_decide]).
Qed.

(** ** Properties *)

(** On every network and at every height the subsidy is computed without
    overflow or division by zero and is a valid amount of money: at most 150
    coins, the height-1 premine of 13,020,000 coins apart. *)
Theorem block_subsidy_bounded (n : Network) (h : Z) (Hh : 0 <= h < 2147483647) :
  exists v, block_subsidy (E:=unit) h (consensus_params n) = Ok v
    /\ money_range v = true /\ (h <> 1 -> v <= 150 * COIN).
Proof.
  pose proof (network_params_ok n) as Hp. set (p := consensus_params n) in *.
  assert (Hm : forall v, 0 <= v <= 150 * COIN -> money_range v = true).
  { intros v Hv. unfold money_range, MAX_MONEY, COIN in *. apply andb_true_iff. lia. }
  destruct (network_upgrade_active h (upgrades p) Pon) eqn:Hact.
  - rewrite block_subsidy_pon by (try done; int_lia). eexists; split; [done|].
    pose proof Hp as (H1&_). pose proof (reduce_subsidy_bounds
      (Z.to_nat (Z.min ((h - activation_height (upgrade_at (upgrades p) Pon))
        / pon_subsidy_reduction_interval p) (pon_max_reductions p))) (pon_initial_subsidy p * COIN)) as Hb.
    unfold COIN in *. split; [apply Hm|]; lia.
  - destruct (Z.eq_dec h 1) as [->|Hne].
    + unfold block_subsidy. rewrite Hact. by exists (13020000 * COIN).
    + destruct (block_subsidy_pow_bounds (E:=unit) p h Hp Hh Hne Hact) as (v&->&Hv).
      exists v. split; [done|]. split; [by apply Hm|lia].
Qed.

Lemma block_subsidy_bounded_witness :
  exists v, block_subsidy (E:=unit) 2500000 (consensus_params Mainnet) = Ok v
    /\ money_range v = true /\ (2500000 <> 1 -> v <= 150 * COIN).
Proof. apply block_subsidy_bounded; lia. Defined.

(** One payout of the proof-of-node split. *)
Lemma pon_pay_eq v base :
  0 <= v <= 14 * COIN -> 0 <= base <= 9 * COIN ->
  Z.quot (wrap_i64 (v * base)) (14 * COIN) = v * base / (14 * COIN).
Proof.
  unfold COIN. intros Hv Hb. rewrite wrap_i64_id by (unfold is_i64; nia).
  rewrite Z.quot_div_nonneg; [done|nia|lia].
Qed.

(** While proof of node is active the reward is split without losing or
    creating a unit: the three tier payouts are non-negative, they and the
    minimum development fund add up to the block subsidy, and the fund gets
    at least its 0.5/14 share (all roundings go to it). *)
Theorem pon_reward_split_conserves (n : Network) (h v : Z) (Hh : 0 <= h < 2147483647)
    (Hp : network_upgrade_active h (upgrades (consensus_params n)) Pon = true)
    (Hv : block_subsidy (E:=unit) h (consensus_params n) = Ok v) :
  let pay tier := fluxnode_subsidy h v tier (consensus_params n) in
  0 <= pay 1 /\ 0 <= pay 2 /\ 0 <= pay 3
  /\ exists d, min_dev_fund_amount (E:=unit) h (consensus_params n) = Ok d
     /\ v = pay 1 + pay 2 + pay 3 + d /\ v <= 28 * d.
Proof.
  pose proof (network_params_ok n) as Hok. set (p := consensus_params n) in *.
  assert (Hr : 0 <= v <= 14 * COIN).
  { pose proof Hok as (H1&_). rewrite block_subsidy_pon in Hv by (try done; int_lia).
    injection Hv as <-. unfold COIN in *. match goal with |- context [reduce_subsidy ?k ?s] =>
      pose proof (reduce_subsidy_bounds k s) end. unfold COIN in *. lia. }
  cbv zeta. unfold min_dev_fund_amount. rewrite Hp, Hv. cbn [negb mbind result_bind].
  unfold fluxnode_subsidy. rewrite Hp. change (1 =? 1) with true. change (2 =? 1) with false.
  change (2 =? 2) with true. change (3 =? 1) with false. change (3 =? 2) with false.
  change (3 =? 3) with true. cbv iota.
  change (Z.quot (35 * COIN) 10) with 350000000.
  rewrite !pon_pay_eq by (unfold COIN in *; lia). unfold COIN in *.
  pose proof (Z.div_mod (v * 100000000) (14 * 100000000) ltac:(lia)).
  pose proof (Z.mod_pos_bound (v * 100000000) (14 * 100000000) ltac:(lia)).
  pose proof (Z.div_mod (v * 350000000) (14 * 100000000) ltac:(lia)).
  pose proof (Z.mod_pos_bound (v * 350000000) (14 * 100000000) ltac:(lia)).
  pose proof (Z.div_mod (v * (9 * 100000000)) (14 * 100000000) ltac:(lia)).
  pose proof (Z.mod_pos_bound (v * (9 * 100000000)) (14 * 100000000) ltac:(lia)).
  split_and!; [lia..|]. eexists; split; [done|].
  rewrite wrap_i64_id by int_lia. lia.
Qed.

Lemma pon_reward_split_conserves_witness :
  let pay tier := fluxnode_subsidy 2020000 1400000000 tier (consensus_params Mainnet) in
  0 <= pay 1 /\ 0 <= pay 2 /\ 0 <= pay 3
  /\ exists d, min_dev_fund_amount (E:=unit) 2020000 (consensus_params Mainnet) = Ok d
     /\ 1400000000 = pay 1 + pay 2 + pay 3 + d /\ 1400000000 <= 28 * d.
Proof. apply pon_reward_split_conserves; [lia|vm_compute; reflexivity|vm_compute; reflexivity]. Defined.

(** The subsidy of the proof-of-work era on the main network, after the slow
    start. *)
Lemma mainnet_pow_subsidy h :
  5000 <= h < 2020000 ->
  block_subsidy (E:=unit) h mainnet_consensus_params
  = Ok (if h <? 657850 then 150 * COIN else if h <? 1313200 then 75 * COIN else 3750000000).
Proof.
  intros Hh. unfold block_subsidy.
  assert (network_upgrade_active h (upgrades mainnet_consensus_params) Pon = false) as ->.
  { apply not_true_is_false. intros [_ Ha]%active_spec. cbn in Ha. lia. }
  unfold subsidy_slow_start_shift, checked_quot.
  cbn [subsidy_slow_start_interval subsidy_halving_interval mainnet_consensus_params].
  change (Z.quot 5000 2) with 2500.
  replace (h =? 1) with false by (symmetry; apply Z.eqb_neq; lia).
  replace (h <? 2500) with false by (symmetry; apply Z.ltb_ge; lia).
  replace (h <? 5000) with false by (symmetry; apply Z.ltb_ge; lia).
  change (655350 =? 0) with false. rewrite wrap_i32_id by int_lia.
  rewrite Z.quot_div_nonneg by lia. cbn [mbind result_bind]. rewrite !Z.geb_leb.
  assert (Hq : forall q, 655350 * q <= h - 2500 < 655350 * (q + 1) -> (h - 2500) / 655350 = q).
  { intros q Hq. symmetry. apply (Z.div_unique_pos _ _ _ (h - 2500 - 655350 * q)); lia. }
  destruct (Z.ltb_spec h 657850); [rewrite (Hq 0) by lia; reflexivity|].
  destruct (Z.ltb_spec h 1313200); [rewrite (Hq 1) by lia; (vm_compute; reflexivity)|].
  destruct (Z.ltb_spec h 1968550); [rewrite (Hq 2) by lia|rewrite (Hq 3) by lia]; (vm_compute; reflexivity).
Qed.

(** The tier's share in units of 1/10000. *)
Definition tier_share (tier : Z) : Z := if tier =? 1 then 375 else if tier =? 2 then 625 else 1500.

(** In the proof-of-work era of the main network the floating-point payout
    computation is exact: at every height after the slow start and for every
    tier it returns precisely 3.75%, 6.25% or 15% of the subsidy, doubled
    after the Flux upgrade, with no rounding error. *)
Theorem pow_fluxnode_payout_exact (h tier v : Z) (Hh : 5000 <= h < 2020000) (Ht : 1 <= tier <= 3)
    (Hv : block_subsidy (E:=unit) h mainnet_consensus_params = Ok v) :
  fluxnode_subsidy h v tier mainnet_consensus_params * 10000
  = v * tier_share tier * (if h <? 835554 then 1 else 2).
Proof.
  rewrite mainnet_pow_subsidy in Hv by done. injection Hv as <-.
  unfold fluxnode_subsidy.
  assert (network_upgrade_active h (upgrades mainnet_consensus_params) Pon = false) as ->.
  { apply not_true_is_false. intros [_ Ha]%active_spec. cbn in Ha. lia. }
  assert (network_upgrade_active h (upgrades mainnet_consensus_params) Flux = negb (h <? 835554)) as ->.
  { apply eq_true_iff_eq. rewrite active_spec, negb_true_iff, Z.ltb_ge. cbn. unfold NO_ACTIVATION_HEIGHT. lia. }
  assert (tier = 1 \/ tier = 2 \/ tier = 3) as [->|[->| ->]] by lia;
    (destruct (h <? 657850); [|destruct (h <? 1313200)]); destruct (h <? 835554); vm_compute; reflexivity.
Qed.

Lemma pow_fluxnode_payout_exact_witness :
  fluxnode_subsidy 1000000 7500000000 2 mainnet_consensus_params * 10000
  = 7500000000 * tier_share 2 * (if 1000000 <? 835554 then 1 else 2).
Proof. apply pow_fluxnode_payout_exact; [lia|lia|vm_compute; reflexivity]. Defined.

(** An amount is the collateral of at most one tier, and
    [fluxnode_tier_from_collateral] returns a tier exactly when the amount is
    a collateral of it at that height. *)
Theorem fluxnode_tier_unique (h amount tier : Z) (p : FluxnodeParams) :
  fluxnode_tier_from_collateral h amount p = Some tier
  <-> fluxnode_collateral_matches_tier h amount tier p = true.
Proof.
  unfold fluxnode_tier_from_collateral. cbn [find].
  set (m := fluxnode_collateral_matches_tier h amount).
  assert (Hex : forall a b, a <> b -> m a p = true -> m b p = true -> False).
  { intros a b Hab. unfold m, fluxnode_collateral_matches_tier,
      V1_FLUXNODE_COLLAT_CUMULUS, V1_FLUXNODE_COLLAT_NIMBUS, V1_FLUXNODE_COLLAT_STRATUS,
      V2_FLUXNODE_COLLAT_CUMULUS, V2_FLUXNODE_COLLAT_NIMBUS, V2_FLUXNODE_COLLAT_STRATUS, COIN.
    repeat case_match; rewrite ?orb_true_iff, ?Z.eqb_eq in *; (done || lia). }
  assert (Hdom : m tier p = true -> tier = 1 \/ tier = 2 \/ tier = 3).
  { unfold m, fluxnode_collateral_matches_tier.
    destruct (Z.eqb_spec tier 1); [by left|]. destruct (Z.eqb_spec tier 2); [by right; left|].
    destruct (Z.eqb_spec tier 3); [by right; right|done]. }
  destruct (m 1 p) eqn:M1; [|destruct (m 2 p) eqn:M2; [|destruct (m 3 p) eqn:M3]];
    (split; [by intros [= <-]|]); intros Hm; destruct (Hdom Hm) as [->|[->| ->]];
    first [done|congruence|exfalso; by apply (Hex 1 2)|exfalso; by apply (Hex 1 3)
          |exfalso; by apply (Hex 2 3)].
Qed.

(** The swap pool pays at exactly the scheduled heights. *)
Lemma swap_pool_loop_spec count i h sp :
  swap_pool_loop count i h sp = true <->
  exists k, 0 <= k < Z.of_nat count
    /\ h = wrap_i64 (swap_start_height sp + wrap_i64 (swap_interval sp * (i + k))).
Proof.
  revert i; induction count as [|count IH]; intros i; cbn [swap_pool_loop].
  - split; [done|]. intros (k&?&_). lia.
  - destruct (Z.eqb_spec h (wrap_i64 (swap_start_height sp + wrap_i64 (swap_interval sp * i)))) as [E|E].
    + split; [|done]. intros _. exists 0. rewrite Z.add_0_r. split; [lia|done].
    + rewrite IH. split; intros (k&Hk&Hh).
      * exists (k + 1). split; [lia|]. by replace (i + (k + 1)) with (i + 1 + k) by lia.
      * destruct (Z.eq_dec k 0) as [->|]; [by rewrite Z.add_0_r in Hh|].
        exists (k - 1). split; [lia|]. by replace (i + 1 + (k - 1)) with (i + k) by lia.
Qed.

Lemma is_swap_pool_interval_spec n h :
  let sp := swap_pool (chain_params n) in
  is_swap_pool_interval h sp = true <->
  exists k, 0 <= k < swap_max_times sp /\ h = swap_start_height sp + swap_interval sp * k.
Proof.
  cbv zeta. set (sp := swap_pool (chain_params n)).
  assert (Hp : 0 <= swap_start_height sp <= 1000000 /\ 0 < swap_interval sp <= 100000
               /\ 0 < swap_max_times sp <= 10) by (destruct n; by_decide).
  assert (Hw : forall k, 0 <= k <= swap_max_times sp ->
    wrap_i64 (swap_start_height sp + wrap_i64 (swap_interval sp * k))
    = swap_start_height sp + swap_interval sp * k).
  { intros k Hk. assert (0 <= swap_interval sp * k <= 1000000) by nia.
    rewrite (wrap_i64_id (_ * _)) by int_lia. apply wrap_i64_id. int_lia. }
  unfold is_swap_pool_interval. rewrite Z.gtb_ltb, (Hw (swap_max_times sp)) by lia.
  destruct (Z.ltb_spec h (swap_start_height sp)).
  { split; [done|]. intros (k&?&->). nia. }
  destruct (Z.ltb_spec (swap_start_height sp + swap_interval sp * swap_max_times sp) h).
  { split; [done|]. intros (k&?&->). nia. }
  rewrite swap_pool_loop_spec, Z2Nat.id by lia.
  split; intros (k&Hk&Hh); exists k; (split; [done|]).
  - by rewrite Z.add_0_l, Hw in Hh by lia.
  - by rewrite Z.add_0_l, Hw by lia.
Qed.
