(* ===== verification/Encoding.v ===== *)
(** * Consensus byte encoding ([primitives/src/encoding.rs])

    An [Encoder] only appends to its buffer, so every [write_*] method is the
    bytes it appends and a sequence of writes is their concatenation.  A
    [Decoder] is a slice with a cursor; reading is a state-and-error monad.

    Two relations carry every codec theorem of the library:
    [reads m bs a] (the decoder [m], placed before the bytes [bs], returns
    [a] and stops right after them) and [parses m P] (whatever [m] accepts is
    a prefix [bs] related to its result by [P]).  Both compose over the
    monad, so the law of a type's codec follows from the laws of its fields. *)

From S2P Require Import Prelude.
From Stdlib Require Import ZArith Lia.
From stdpp Require Import base list option numbers strings.
#[local] Open Scope Z_scope.

(** ** Encoder *)
Definition write_u8 (value : Z) : bytes := [wrap_u8 value].
Definition write_i8 (value : Z) : bytes := [wrap_u8 value].
Definition write_u16_le (value : Z) : bytes := le_bytes 2 value.
Definition write_u32_le (value : Z) : bytes := le_bytes 4 value.
Definition write_i32_le (value : Z) : bytes := le_bytes 4 value.
Definition write_u64_le (value : Z) : bytes := le_bytes 8 value.
Definition write_i64_le (value : Z) : bytes := le_bytes 8 value.
Definition write_bytes (bs : bytes) : bytes := bs.

Definition write_varint (value : Z) : bytes :=
  if value <? 0xfd then write_u8 value
  else if value <=? 0xffff then write_u8 0xfd ++ write_u16_le value
  else if value <=? 0xffffffff then write_u8 0xfe ++ write_u32_le value
  else write_u8 0xff ++ write_u64_le value.

Definition write_var_bytes (bs : bytes) : bytes :=
  write_varint (Z.of_nat (length bs)) ++ write_bytes bs.

(** A Rust [String] is its UTF-8 bytes. *)
Definition write_var_str (value : bytes) : bytes := write_var_bytes value.

Definition write_hash_le (hash : Hash256) : bytes := hash.

#[global] Arguments write_u8 : simpl never.
#[global] Arguments write_u16_le : simpl never.
#[global] Arguments write_u32_le : simpl never.
#[global] Arguments write_i32_le : simpl never.
#[global] Arguments write_u64_le : simpl never.
#[global] Arguments write_i64_le : simpl never.
#[global] Arguments write_varint : simpl never.
#[global] Arguments write_var_bytes : simpl never.

(** ** Decoder *)
Definition MAX_COMPACT_SIZE : Z := 0x02000000.

Inductive DecodeError :=
| UnexpectedEof
| NonCanonicalVarInt
| SizeTooLarge
| InvalidData (message : string)
| TrailingBytes.

#[global] Instance DecodeError_eq_dec : EqDecision DecodeError.
Proof. solve_decision. Defined.

(** [to_string]. *)
Definition DecodeError_to_string (e : DecodeError) : string :=
  match e with
  | UnexpectedEof => "unexpected end of input"
  | NonCanonicalVarInt => "non-canonical CompactSize"
  | SizeTooLarge => "compact size exceeds maximum"
  | InvalidData message => message
  | TrailingBytes => "trailing bytes after decode"
  end.

Record Decoder := mkDecoder { input : bytes; cursor : nat }.

Definition new_decoder (input : bytes) : Decoder := mkDecoder input 0.

Definition remaining (d : Decoder) : nat := (length (input d) - cursor d)%nat.

Definition is_empty (d : Decoder) : bool := Nat.leb (length (input d)) (cursor d).

(** Decoding with errors of type [E]. *)
Definition parser (E A : Type) : Type := Decoder -> result E (A * Decoder).

#[global] Instance parser_ret {E} : MRet (parser E) := fun A a d => Ok (a, d).
#[global] Instance parser_bind {E} : MBind (parser E) := fun A B f m d =>
  match m d with
  | Ok (a, d') => f a d'
  | Err e => Err e
  | Panic => Panic
  end.

Definition fail {E A} (e : E) : parser E A := fun _ => Err e.

(** The [?] operator at an error type with a [From] instance. *)
Definition lift {E F A} (f : E -> F) (m : parser E A) : parser F A :=
  fun d => map_err f (m d).

Definition read_slice (len : nat) : parser DecodeError bytes := fun d =>
  if Nat.ltb (remaining d) len then Err UnexpectedEof
  else Ok (slice (input d) (cursor d) (cursor d + len),
           mkDecoder (input d) (cursor d + len)).

(** Reading one byte, [read_slice(1)?[0]]. *)
Definition read_u8 : parser DecodeError Z :=
  s ← read_slice 1; fun d => b ← index s 0; Ok (b, d).
Definition read_i8 : parser DecodeError Z :=
  v ← read_u8; mret (if v <? 128 then v else v - 256).
Definition read_u16_le : parser DecodeError Z := s ← read_slice 2; mret (from_le s).
Definition read_u32_le : parser DecodeError Z := s ← read_slice 4; mret (from_le s).
Definition read_i32_le : parser DecodeError Z := v ← read_u32_le; mret (wrap_i32 v).
Definition read_u64_le : parser DecodeError Z := s ← read_slice 8; mret (from_le s).
Definition read_i64_le : parser DecodeError Z := v ← read_u64_le; mret (wrap_i64 v).

Definition read_fixed (n : nat) : parser DecodeError bytes := read_slice n.
Definition read_bytes (len : nat) : parser DecodeError bytes := read_slice len.

Definition read_varint : parser DecodeError Z :=
  prefix ← read_u8;
  value ← (if prefix <? 0xfd then mret prefix
           else if prefix =? 0xfd then
             value ← read_u16_le;
             if value <? 0xfd then fail NonCanonicalVarInt else mret value
           else if prefix =? 0xfe then
             value ← read_u32_le;
             if value <? 0x10000 then fail NonCanonicalVarInt else mret value
           else
             value ← read_u64_le;
             if value <? 0x100000000 then fail NonCanonicalVarInt else mret value);
  if value >? MAX_COMPACT_SIZE then fail SizeTooLarge else mret value.

(** [usize::try_from] of a [u64]: [usize] has 64 bits. *)
Definition usize_try_from (v : Z) : parser DecodeError nat :=
  if v <=? u64_max then mret (Z.to_nat v) else fail SizeTooLarge.

(** A compact size used as an element count. *)
Definition read_count : parser DecodeError nat :=
  count ← read_varint; usize_try_from count.

Definition read_var_bytes : parser DecodeError bytes :=
  len ← read_varint;
  len ← usize_try_from len;
  read_bytes len.

(** [String::from_utf8]: well-formed UTF-8 in the sense of the Unicode
    standard's table of well-formed byte sequences. *)
Definition utf8_cont (b : Z) : bool := (0x80 <=? b) && (b <=? 0xbf).
Fixpoint utf8_valid (bs : bytes) : bool :=
  match bs with
  | [] => true
  | b0 :: r =>
    if b0 <=? 0x7f then utf8_valid r
    else match r with
    | [] => false
    | b1 :: r1 =>
      if (0xc2 <=? b0) && (b0 <=? 0xdf) then utf8_cont b1 && utf8_valid r1
      else match r1 with
      | [] => false
      | b2 :: r2 =>
        if (0xe0 <=? b0) && (b0 <=? 0xef) then
          (if b0 =? 0xe0 then (0xa0 <=? b1) && (b1 <=? 0xbf)
           else if b0 =? 0xed then (0x80 <=? b1) && (b1 <=? 0x9f)
           else utf8_cont b1) && utf8_cont b2 && utf8_valid r2
        else match r2 with
        | [] => false
        | b3 :: r3 =>
          (0xf0 <=? b0) && (b0 <=? 0xf4) &&
          (if b0 =? 0xf0 then (0x90 <=? b1) && (b1 <=? 0xbf)
           else if b0 =? 0xf4 then (0x80 <=? b1) && (b1 <=? 0x8f)
           else utf8_cont b1) && utf8_cont b2 && utf8_cont b3 && utf8_valid r3
        end
      end
    end
  end.

Definition read_var_str : parser DecodeError bytes :=
  bs ← read_var_bytes;
  if utf8_valid bs then mret bs else fail (InvalidData "invalid utf8 string").

Definition read_bool : parser DecodeError bool :=
  v ← read_u8; mret (negb (v =? 0)).

Definition read_hash_le : parser DecodeError Hash256 := read_slice 32.

(** [for _ in 0..count { out.push(decode()?) }]. *)
Fixpoint read_n {E A} (n : nat) (m : parser E A) : parser E (list A) :=
  match n with
  | O => mret []
  | S n => x ← m; xs ← read_n n m; mret (x :: xs)
  end.

(** The [Encodable] and [Decodable] traits. *)
Class Encodable (A : Type) := consensus_encode : A -> bytes.
Class Decodable (A : Type) := consensus_decode : parser DecodeError A.

Definition encode {A} `{Encodable A} (value : A) : bytes := consensus_encode value.

(** Run a parser over a whole slice, refusing trailing bytes. *)
Definition decode_all {E A} (trailing : E) (m : parser E A) (bs : bytes) : result E A :=
  match m (new_decoder bs) with
  | Ok (value, d) => if is_empty d then Ok value else Err trailing
  | Err e => Err e
  | Panic => Panic
  end.

Definition decode {A} `{Decodable A} (bs : bytes) : result DecodeError A :=
  decode_all TrailingBytes consensus_decode bs.

(** [write_vec] and [read_vec] of [transaction.rs]. *)
Definition write_list {A} (enc : A -> bytes) (l : list A) : bytes := concat (map enc l).

Definition write_vec {A} `{Encodable A} (values : list A) : bytes :=
  write_varint (Z.of_nat (length values)) ++ write_list consensus_encode values.

Definition read_vec {A} `{Decodable A} : parser DecodeError (list A) :=
  count ← read_count; read_n count consensus_decode.

(** ** The codec relations *)
Definition rem (d : Decoder) : bytes := drop (cursor d) (input d).

Definition advance (d : Decoder) (n : nat) : Decoder := mkDecoder (input d) (cursor d + n).

Definition reads {E A} (m : parser E A) (bs : bytes) (a : A) : Prop :=
  forall d rest, rem d = bs ++ rest -> m d = Ok (a, advance d (length bs)).

Definition parses {E A} (m : parser E A) (P : A -> bytes -> Prop) : Prop :=
  forall d a d', bytes_ok (rem d) -> m d = Ok (a, d') ->
    exists bs, rem d = bs ++ rem d' /\ d' = advance d (length bs) /\ bytes_ok bs /\ P a bs.

(** A parser that never aborts the process. *)
Definition no_panic {E A} (m : parser E A) : Prop := forall d, m d <> Panic.

Create HintDb codec discriminated.

Lemma rem_advance d n : rem (advance d n) = drop n (rem d).
Proof. unfold rem, advance; simpl. by rewrite drop_drop. Qed.

Lemma rem_new bs : rem (new_decoder bs) = bs.
Proof. reflexivity. Qed.

Lemma advance_0 d : advance d 0 = d.
Proof. destruct d; unfold advance; simpl; f_equal; lia. Qed.

Lemma advance_advance d n m : advance (advance d n) m = advance d (n + m).
Proof. unfold advance; simpl; f_equal; lia. Qed.

Lemma length_rem d : length (rem d) = remaining d.
Proof. unfold rem, remaining. by rewrite length_drop. Qed.

Lemma is_empty_rem d : is_empty d = true <-> rem d = [].
Proof.
  unfold is_empty, rem. rewrite Nat.leb_le. split.
  - apply drop_ge.
  - intros H. apply (f_equal length) in H. rewrite length_drop in H. simpl in H. lia.
Qed.

Lemma reads_ret {E A} (a : A) : reads (E:=E) (mret a) [] a.
Proof. intros d rest _. unfold mret, parser_ret. by rewrite advance_0. Qed.

Lemma reads_bind {E A B} (m : parser E A) (f : A -> parser E B) bs1 bs2 a b :
  reads m bs1 a -> reads (f a) bs2 b -> reads (m ≫= f) (bs1 ++ bs2) b.
Proof.
  intros Hm Hf d rest Hd. unfold mbind, parser_bind.
  rewrite <- app_assoc in Hd. rewrite (Hm _ _ Hd).
  rewrite (Hf _ rest).
  - by rewrite advance_advance, length_app.
  - rewrite rem_advance, Hd. apply drop_app_length.
Qed.

(** The same rule when the second parser reads nothing more. *)
Lemma reads_bind_nil {E A B} (m : parser E A) (f : A -> parser E B) bs a b :
  reads m bs a -> reads (f a) [] b -> reads (m ≫= f) bs b.
Proof. intros. rewrite <- (app_nil_r bs). by eapply reads_bind. Qed.

Lemma reads_lift {E F A} (f : E -> F) (m : parser E A) bs a :
  reads m bs a -> reads (lift f m) bs a.
Proof. intros H d rest Hd. unfold lift. by rewrite (H _ _ Hd). Qed.

Lemma reads_conseq {E A} (m : parser E A) bs bs' a :
  reads m bs a -> bs = bs' -> reads m bs' a.
Proof. by intros ? <-. Qed.

(** A parser that reads all there is. *)
Definition reads_whole {E A} (m : parser E A) (bs : bytes) (a : A) : Prop :=
  forall d, rem d = bs -> exists d', m d = Ok (a, d').
Lemma reads_whole_bind {E A B} (m : parser E A) (f : A -> parser E B) bs1 bs2 a b :
  reads m bs1 a -> reads_whole (f a) bs2 b -> reads_whole (m ≫= f) (bs1 ++ bs2) b.
Proof.
  intros Hm Hf d Hd. unfold mbind, parser_bind. rewrite (Hm d bs2 Hd). apply Hf. rewrite rem_advance, Hd. by apply drop_app_length.
Qed.

Lemma reads_decode_all {E A} (t : E) (m : parser E A) bs a :
  reads m bs a -> decode_all t m bs = Ok a.
Proof.
  intros H. unfold decode_all. rewrite (H _ []); [|by rewrite rem_new, app_nil_r].
  replace (is_empty _) with true; [done|]. symmetry. apply is_empty_rem.
  rewrite rem_advance, rem_new. by apply drop_ge.
Qed.

Lemma reads_if {E A} (c : bool) (m1 m2 : parser E A) bs1 bs2 a :
  (c = true -> reads m1 bs1 a) -> (c = false -> reads m2 bs2 a) ->
  reads (if c then m1 else m2) (if c then bs1 else bs2) a.
Proof. destruct c; auto. Qed.

(** A parser whose encodings start two equal strings read the same value. *)
Lemma reads_prefix {E A} (m : parser E A) bs1 bs2 r1 r2 a1 a2 :
  reads m bs1 a1 -> reads m bs2 a2 -> bs1 ++ r1 = bs2 ++ r2 -> a1 = a2 /\ r1 = r2.
Proof.
  intros H1 H2 Heq.
  specialize (H1 (new_decoder (bs1 ++ r1)) r1 (rem_new _)).
  specialize (H2 (new_decoder (bs1 ++ r1)) r2 ltac:(by rewrite rem_new)).
  rewrite H1 in H2. injection H2 as -> Hl. split; [done|]. by apply app_inj_1 in Heq as [_ ->].
Qed.

Lemma parses_ret {E A} (a : A) : parses (E:=E) (mret a) (fun a' bs => a' = a /\ bs = []).
Proof.
  intros d a' d' _ [= <- <-]. exists []. rewrite advance_0.
  split_and!; auto with bytes.
Qed.

Lemma parses_bind {E A B} (m : parser E A) (f : A -> parser E B) P Q :
  parses m P -> (forall a, parses (f a) (Q a)) ->
  parses (m ≫= f)
    (fun b bs => exists a bs1 bs2, bs = bs1 ++ bs2 /\ bytes_ok bs1 /\ P a bs1 /\ Q a b bs2).
Proof.
  intros Hm Hf d b d' Hd. unfold mbind, parser_bind.
  destruct (m d) as [[a d1]|e|] eqn:E1; [|done|done]. intros E2.
  destruct (Hm _ _ _ Hd E1) as (bs1&Hr1&->&Hok1&HP).
  assert (Hd1 : bytes_ok (rem (advance d (length bs1)))) by (rewrite rem_advance; auto with bytes).
  destruct (Hf _ _ _ _ Hd1 E2) as (bs2&Hr2&->&Hok2&HQ).
  exists (bs1 ++ bs2). split_and!.
  - by rewrite <- app_assoc, <- Hr2.
  - by rewrite advance_advance, length_app.
  - by apply bytes_ok_app.
  - eauto 10.
Qed.

Lemma parses_fail {E A} (e : E) (P : A -> bytes -> Prop) : parses (fail e) P.
Proof. intros d a d' _ [=]. Qed.

Lemma parses_lift {E F A} (f : E -> F) (m : parser E A) P : parses m P -> parses (lift f m) P.
Proof.
  intros H d a d' Hd Hm. apply (H d a d' Hd). unfold lift in Hm.
  by apply map_err_Ok in Hm.
Qed.

Lemma parses_conseq {E A} (m : parser E A) (P Q : A -> bytes -> Prop) :
  parses m P -> (forall a bs, bytes_ok bs -> P a bs -> Q a bs) -> parses m Q.
Proof. intros H HPQ d a d' Hd Hm. destruct (H d a d' Hd Hm) as (bs&?&?&?&?); eauto 10. Qed.

Lemma parses_if {E A} (c : bool) (m1 m2 : parser E A) (P : A -> bytes -> Prop) :
  (c = true -> parses m1 P) -> (c = false -> parses m2 P) -> parses (if c then m1 else m2) P.
Proof. destruct c; auto. Qed.

Lemma parses_decode_all {E A} (t : E) (m : parser E A) P bs a :
  parses m P -> bytes_ok bs -> decode_all t m bs = Ok a -> P a bs.
Proof.
  intros Hm Hbs. unfold decode_all.
  destruct (m (new_decoder bs)) as [[a' d']|?|] eqn:E1; [|done|done].
  destruct (is_empty d') eqn:He; [|done]. intros [= ->].
  destruct (Hm _ _ _ ltac:(by rewrite rem_new) E1) as (bs'&Hr&_&_&HP).
  apply is_empty_rem in He. rewrite He, app_nil_r, rem_new in Hr. by subst.
Qed.

Lemma no_panic_ret {E A} (a : A) : no_panic (E:=E) (mret a).
Proof. by intros d. Qed.
Lemma no_panic_fail {E A} (e : E) : no_panic (A:=A) (fail e).
Proof. by intros d. Qed.
Lemma no_panic_bind {E A B} (m : parser E A) (f : A -> parser E B) :
  no_panic m -> (forall a, no_panic (f a)) -> no_panic (m ≫= f).
Proof.
  intros Hm Hf d. unfold mbind, parser_bind. specialize (Hm d).
  destruct (m d) as [[a d']|e|]; [apply Hf|done|done].
Qed.
Lemma no_panic_lift {E F A} (f : E -> F) (m : parser E A) : no_panic m -> no_panic (lift f m).
Proof. intros H d. unfold lift. specialize (H d). by destruct (m d). Qed.
Lemma no_panic_read_n {E A} n (m : parser E A) : no_panic m -> no_panic (read_n n m).
Proof.
  intros Hm. induction n as [|n IH]; simpl; [apply no_panic_ret|].
  apply no_panic_bind; [done|]. intros x. apply no_panic_bind; [done|].
  intros xs. apply no_panic_ret.
Qed.

(** ** Laws of the primitive readers *)
Lemma read_slice_reads n bs : length bs = n -> reads (read_slice n) bs bs.
Proof.
  intros <- d rest Hd. unfold read_slice.
  assert (Hl : (length bs <= remaining d)%nat).
  { rewrite <- length_rem, Hd, length_app. lia. }
  replace (Nat.ltb _ _) with false by (symmetry; apply Nat.ltb_ge; done).
  unfold slice, advance, rem in *. rewrite Hd.
  rewrite Nat.add_comm, Nat.add_sub, take_app_length. done.
Qed.

Lemma read_slice_parses n : parses (read_slice n) (fun s bs => s = bs /\ length bs = n).
Proof.
  intros d a d' Hok. unfold read_slice.
  destruct (Nat.ltb_spec (remaining d) n); [done|]. intros [= <- <-].
  assert (Hs : slice (input d) (cursor d) (cursor d + n) = take n (rem d)).
  { unfold slice, rem. by rewrite Nat.add_comm, Nat.add_sub. }
  rewrite Hs. assert (Hl : length (take n (rem d)) = n).
  { rewrite length_take, length_rem. lia. }
  exists (take n (rem d)). rewrite Hl. split_and!; auto with bytes.
  change (mkDecoder _ _) with (advance d n). by rewrite rem_advance, take_drop.
Qed.

Lemma no_panic_read_slice n : no_panic (read_slice n).
Proof. intros d. unfold read_slice. by destruct (Nat.ltb _ _). Qed.

(** A reader that post-processes a fixed-size slice. *)
Lemma read_int_reads n (f : bytes -> Z) bs v :
  length bs = n -> f bs = v -> reads (s ← read_slice n; mret (f s)) bs v.
Proof.
  intros Hl <-. apply reads_bind_nil with bs; [by apply read_slice_reads|apply reads_ret].
Qed.

Lemma read_int_parses n (f : bytes -> Z) :
  parses (s ← read_slice n; mret (f s)) (fun v bs => length bs = n /\ v = f bs).
Proof.
  eapply parses_conseq.
  { apply parses_bind; [apply read_slice_parses|intros a; apply parses_ret]. }
  intros v bs _ (s&bs1&bs2&->&_&[-> Hl]&->&->). by rewrite app_nil_r.
Qed.

Lemma read_u8_eq d : read_u8 d = (s ← read_slice 1; mret (from_le s)) d.
Proof.
  unfold read_u8, mbind, parser_bind, read_slice.
  destruct (Nat.ltb_spec (remaining d) 1); [done|].
  assert (Hl : length (slice (input d) (cursor d) (cursor d + 1)) = 1%nat).
  { rewrite length_slice; unfold remaining in *; lia. }
  destruct (slice _ _ _) as [|b [|]] eqn:E; [discriminate|clear Hl|discriminate].
  unfold index, mret, parser_ret; cbn [lookup list_lookup mbind result_bind].
  by rewrite from_le_single.
Qed.

Lemma read_u8_reads v : is_u8 v -> reads read_u8 (write_u8 v) v.
Proof.
  intros Hv d rest Hd. rewrite read_u8_eq. revert d rest Hd.
  apply (read_int_reads 1 from_le); [done|].
  unfold write_u8, wrap_u8. rewrite from_le_single. by apply Z.mod_small.
Qed.

Lemma read_u8_parses : parses read_u8 (fun v bs => is_u8 v /\ bs = write_u8 v).
Proof.
  intros d a d' Hok. rewrite read_u8_eq. revert d a d' Hok.
  eapply parses_conseq; [apply read_int_parses|].
  intros v bs Hok [Hl ->]. destruct bs as [|b [|]]; [done|clear Hl|done].
  apply bytes_ok_cons in Hok as [Hb _]. rewrite from_le_single.
  unfold write_u8, wrap_u8.
  rewrite Z.mod_small by apply Hb. done.
Qed.

Lemma read_u16_le_reads v : is_u16 v -> reads read_u16_le (write_u16_le v) v.
Proof. intros. apply read_int_reads; [apply length_le_bytes|by apply from_le_le_bytes_2]. Qed.
Lemma read_u32_le_reads v : is_u32 v -> reads read_u32_le (write_u32_le v) v.
Proof. intros. apply read_int_reads; [apply length_le_bytes|by apply from_le_le_bytes_4]. Qed.
Lemma read_u64_le_reads v : is_u64 v -> reads read_u64_le (write_u64_le v) v.
Proof. intros. apply read_int_reads; [apply length_le_bytes|by apply from_le_le_bytes_8]. Qed.

Lemma read_le_parses n :
  parses (s ← read_slice n; mret (from_le s))
    (fun v bs => 0 <= v < 256 ^ Z.of_nat n /\ bs = le_bytes n v).
Proof.
  eapply parses_conseq; [apply read_int_parses|].
  intros v bs Hok [<- ->]. split; [by apply from_le_range|by rewrite le_bytes_from_le].
Qed.

Lemma read_u16_le_parses : parses read_u16_le (fun v bs => is_u16 v /\ bs = write_u16_le v).
Proof. apply (read_le_parses 2). Qed.
Lemma read_u32_le_parses : parses read_u32_le (fun v bs => is_u32 v /\ bs = write_u32_le v).
Proof. apply (read_le_parses 4). Qed.
Lemma read_u64_le_parses : parses read_u64_le (fun v bs => is_u64 v /\ bs = write_u64_le v).
Proof. apply (read_le_parses 8). Qed.

Lemma read_i32_le_reads v : is_i32 v -> reads read_i32_le (write_i32_le v) v.
Proof.
  intros Hv. unfold read_i32_le, read_u32_le.
  eapply reads_bind_nil; [by apply read_int_reads; [apply length_le_bytes|]|].
  cbv beta. rewrite wrap_i32_from_le by done. apply reads_ret.
Qed.
Lemma read_i64_le_reads v : is_i64 v -> reads read_i64_le (write_i64_le v) v.
Proof.
  intros Hv. unfold read_i64_le, read_u64_le.
  eapply reads_bind_nil; [by apply read_int_reads; [apply length_le_bytes|]|].
  cbv beta. rewrite wrap_i64_from_le by done. apply reads_ret.
Qed.

Lemma read_i32_le_parses : parses read_i32_le (fun v bs => is_i32 v /\ bs = write_i32_le v).
Proof.
  eapply parses_conseq.
  { apply parses_bind; [apply read_u32_le_parses|intros; apply parses_ret]. }
  intros v bs _ (u&bs1&bs2&->&_&[_ ->]&->&->). rewrite app_nil_r.
  split; [apply wrap_i32_range|symmetry; apply le_bytes_wrap_i32].
Qed.
Lemma read_i64_le_parses : parses read_i64_le (fun v bs => is_i64 v /\ bs = write_i64_le v).
Proof.
  eapply parses_conseq.
  { apply parses_bind; [apply read_u64_le_parses|intros; apply parses_ret]. }
  intros v bs _ (u&bs1&bs2&->&_&[_ ->]&->&->). rewrite app_nil_r.
  split; [apply wrap_i64_range|symmetry; apply le_bytes_wrap_i64].
Qed.

Lemma read_fixed_reads n bs : array n bs -> reads (read_fixed n) bs bs.
Proof. intros [Hl _]. by apply read_slice_reads. Qed.
Lemma read_fixed_parses n : parses (read_fixed n) (fun a bs => array n a /\ bs = a).
Proof.
  eapply parses_conseq; [apply read_slice_parses|].
  intros a bs Hok [-> Hl]. done.
Qed.
Lemma read_hash_le_reads h : array 32 h -> reads read_hash_le (write_hash_le h) h.
Proof. apply read_fixed_reads. Qed.
Lemma read_hash_le_parses : parses read_hash_le (fun h bs => array 32 h /\ bs = write_hash_le h).
Proof. apply read_fixed_parses. Qed.

(** ** Compact sizes *)

(** The four written forms of a compact size, by magnitude. *)
Lemma write_varint_cases v :
  0 <= v ->
  (v < 0xfd /\ write_varint v = write_u8 v) \/
  (0xfd <= v <= 0xffff /\ write_varint v = write_u8 0xfd ++ write_u16_le v) \/
  (0x10000 <= v <= 0xffffffff /\ write_varint v = write_u8 0xfe ++ write_u32_le v) \/
  (0x100000000 <= v /\ write_varint v = write_u8 0xff ++ write_u64_le v).
Proof.
  intros Hv. unfold write_varint.
  destruct (Z.ltb_spec v 0xfd); [left; done|].
  destruct (Z.leb_spec v 0xffff); [right; left; split; [lia|done]|].
  destruct (Z.leb_spec v 0xffffffff); [do 2 right; left; split; [lia|done]|].
  do 3 right; split; [lia|done].
Qed.

Ltac bool_lia :=
  repeat match goal with
  | |- context [?a <? ?b] =>
      first [replace (a <? b) with true by (symmetry; apply Z.ltb_lt; lia)
            |replace (a <? b) with false by (symmetry; apply Z.ltb_ge; lia)]
  | |- context [?a <=? ?b] =>
      first [replace (a <=? b) with true by (symmetry; apply Z.leb_le; lia)
            |replace (a <=? b) with false by (symmetry; apply Z.leb_gt; lia)]
  | |- context [?a >? ?b] => rewrite (Z.gtb_ltb a b)
  | |- context [?a >=? ?b] => rewrite (Z.geb_leb a b)
  | |- context [?a =? ?b] =>
      first [replace (a =? b) with true by (symmetry; apply Z.eqb_eq; lia)
            |replace (a =? b) with false by (symmetry; apply Z.eqb_neq; lia)]
  end.

Lemma read_varint_reads v : 0 <= v <= MAX_COMPACT_SIZE -> reads read_varint (write_varint v) v.
Proof.
  unfold MAX_COMPACT_SIZE. intros Hv.
  assert (Hend : reads (E:=DecodeError)
    (if v >? MAX_COMPACT_SIZE then fail SizeTooLarge else mret v) [] v).
  { unfold MAX_COMPACT_SIZE. bool_lia. apply reads_ret. }
  destruct (write_varint_cases v) as [[? ->]|[[? ->]|[[? ->]|[? ->]]]]; [lia|..|lia].
  - eapply reads_bind_nil; [apply read_u8_reads; int_lia|]. cbv beta. bool_lia.
    eapply reads_bind_nil; [apply reads_ret|apply Hend].
  - eapply reads_bind; [apply read_u8_reads; int_lia|].
    eapply reads_bind_nil; [|apply Hend].
    cbv beta. bool_lia.
    eapply reads_bind_nil; [apply read_u16_le_reads; int_lia|]. cbv beta. bool_lia. apply reads_ret.
  - eapply reads_bind; [apply read_u8_reads; int_lia|].
    eapply reads_bind_nil; [|apply Hend].
    cbv beta. bool_lia.
    eapply reads_bind_nil; [apply read_u32_le_reads; int_lia|]. cbv beta. bool_lia. apply reads_ret.
Qed.

(** An integer read of width [n] that must be at least [lo]. *)
Lemma read_min_parses (m : parser DecodeError Z) (enc : Z -> bytes) (R : Z -> Prop) lo :
  parses m (fun v bs => R v /\ bs = enc v) ->
  parses (value ← m; if value <? lo then fail NonCanonicalVarInt else mret value)
    (fun v bs => lo <= v /\ R v /\ bs = enc v).
Proof.
  intros Hm. eapply parses_conseq.
  { apply parses_bind; [apply Hm|]. intros v.
    instantiate (1 := fun v' v bs => lo <= v' /\ v = v' /\ bs = []). cbv beta.
    apply parses_if; intros Hlt; [apply parses_fail|].
    apply Z.ltb_ge in Hlt. eapply parses_conseq; [apply parses_ret|].
    intros ? ? _ [-> ->]; done. }
  intros v bs _ (v'&bs1&bs2&->&_&[HR ->]&Hlo&->&->). by rewrite app_nil_r.
Qed.

Lemma read_varint_parses :
  parses read_varint (fun v bs => 0 <= v <= MAX_COMPACT_SIZE /\ bs = write_varint v).
Proof.
  set (Q := fun p v bs => 0 <= v /\ write_varint v = write_u8 p ++ bs).
  eapply parses_conseq.
  { apply parses_bind; [apply read_u8_parses|]. intros p.
    instantiate (1 := fun p v bs => is_u8 p -> Q p v bs /\ v <= MAX_COMPACT_SIZE). cbv beta.
    eapply parses_conseq.
    { apply parses_bind with (P := fun v bs => is_u8 p -> Q p v bs)
        (Q := fun v' v bs => v = v' /\ bs = [] /\ v <= MAX_COMPACT_SIZE).
      - unfold Q. repeat (apply parses_if; intros ?).
        + eapply parses_conseq; [apply parses_ret|]. intros v bs _ [-> ->] Hp.
          split; [int_lia|]. unfold write_varint. by rewrite app_nil_r, H.
        + eapply parses_conseq; [apply read_min_parses, read_u16_le_parses|].
          intros v bs _ (?&?&->) Hp. apply Z.eqb_eq in H0 as ->. split; [int_lia|].
          unfold write_varint. unfold_ints. by bool_lia.
        + eapply parses_conseq; [apply read_min_parses, read_u32_le_parses|].
          intros v bs _ (?&?&->) Hp. apply Z.eqb_eq in H1 as ->. split; [int_lia|].
          unfold write_varint. unfold_ints. by bool_lia.
        + eapply parses_conseq; [apply read_min_parses, read_u64_le_parses|].
          intros v bs _ (?&?&->) Hp.
          assert (p = 0xff) as -> by (unfold_ints; lia). split; [int_lia|].
          unfold write_varint. unfold_ints. by bool_lia.
      - intros v. rewrite Z.gtb_ltb. apply parses_if; intros Hgt; [apply parses_fail|].
        apply Z.ltb_ge in Hgt. eapply parses_conseq; [apply parses_ret|].
        intros ? ? _ [-> ->]. done. }
    intros v bs _ (v'&bs1&bs2&->&_&HQ&->&->&?) Hp. rewrite app_nil_r. auto. }
  intros v bs _ (p&bs1&bs2&->&_&[Hp ->]&HQ). destruct (HQ Hp) as [[? Hw] ?].
  split; [lia|done].
Qed.

Lemma usize_try_from_reads (n : nat) :
  Z.of_nat n <= u64_max -> reads (usize_try_from (Z.of_nat n)) [] n.
Proof.
  intros Hn. unfold usize_try_from. bool_lia. rewrite Nat2Z.id. apply reads_ret.
Qed.

Lemma usize_try_from_parses v :
  parses (usize_try_from v) (fun n bs => n = Z.to_nat v /\ bs = []).
Proof. unfold usize_try_from. apply parses_if; intros _; [apply parses_ret|apply parses_fail]. Qed.

(** Lengths a compact size can announce. *)
Definition fits_compact {A} (l : list A) : Prop := Z.of_nat (length l) <= MAX_COMPACT_SIZE.
#[global] Instance fits_compact_dec {A} (l : list A) : Decision (fits_compact l).
Proof. unfold fits_compact; apply _. Defined.

Lemma read_count_reads {A} (l : list A) :
  fits_compact l -> reads read_count (write_varint (Z.of_nat (length l))) (length l).
Proof.
  unfold fits_compact, MAX_COMPACT_SIZE. intros Hl. eapply reads_bind_nil.
  - apply read_varint_reads. unfold MAX_COMPACT_SIZE. lia.
  - apply usize_try_from_reads. int_lia.
Qed.

Lemma read_count_parses :
  parses read_count (fun n bs => Z.of_nat n <= MAX_COMPACT_SIZE /\ bs = write_varint (Z.of_nat n)).
Proof.
  eapply parses_conseq.
  { apply parses_bind; [apply read_varint_parses|intros; apply usize_try_from_parses]. }
  intros n bs _ (v&bs1&bs2&->&_&[Hv ->]&->&->). rewrite app_nil_r, Z2Nat.id by lia. split; [lia|done].
Qed.

Lemma read_var_bytes_eq d :
  read_var_bytes d = (len ← read_count; read_bytes len) d.
Proof.
  unfold read_var_bytes, read_count, mbind, parser_bind.
  destruct (read_varint d) as [[v d']|?|]; [|done|done].
  by destruct (usize_try_from v d') as [[n d'']|?|].
Qed.

Lemma read_var_bytes_reads bs : fits_compact bs -> reads read_var_bytes (write_var_bytes bs) bs.
Proof.
  intros Hf d rest Hd. rewrite read_var_bytes_eq. revert d rest Hd. unfold write_var_bytes, write_bytes.
  change (reads (len ← read_count; read_bytes len) (write_varint (Z.of_nat (length bs)) ++ bs) bs).
  eapply reads_bind; [by apply read_count_reads|by apply read_slice_reads].
Qed.

Lemma read_var_bytes_parses :
  parses read_var_bytes (fun v bs => (fits_compact v /\ bytes_ok v) /\ bs = write_var_bytes v).
Proof.
  intros d a d' Hok. rewrite read_var_bytes_eq. revert d a d' Hok.
  eapply parses_conseq.
  { apply parses_bind; [apply read_count_parses|intros; apply read_slice_parses]. }
  intros v bs Hok (n&bs1&bs2&->&_&[Hn ->]&->&<-).
  apply bytes_ok_app in Hok as [_ ?]. done.
Qed.

Lemma read_var_str_reads s :
  fits_compact s -> utf8_valid s = true -> reads read_var_str (write_var_str s) s.
Proof.
  intros Hf Hu. eapply reads_bind_nil; [by apply read_var_bytes_reads|].
  cbv beta. rewrite Hu. apply reads_ret.
Qed.

(** What [String] values are here: valid UTF-8 that a compact size fits. *)
Definition str_ok (s : bytes) : Prop := (fits_compact s /\ bytes_ok s) /\ utf8_valid s = true.
#[global] Instance str_ok_dec s : Decision (str_ok s).
Proof. unfold str_ok; apply _. Defined.

Lemma read_var_str_parses :
  parses read_var_str (fun s bs => str_ok s /\ bs = write_var_str s).
Proof.
  eapply parses_conseq.
  { apply parses_bind; [apply read_var_bytes_parses|]. intros s.
    instantiate (1 := fun s s' bs => utf8_valid s = true /\ s' = s /\ bs = []). cbv beta.
    apply parses_if; intros ?; [|apply parses_fail].
    eapply parses_conseq; [apply parses_ret|]. intros ? ? _ [-> ->]; done. }
  intros s bs _ (s'&bs1&bs2&->&_&[Hs ->]&Hu&->&->). rewrite app_nil_r. done.
Qed.

Definition write_bool (b : bool) : bytes := write_u8 (if b then 1 else 0).

Lemma read_bool_reads b : reads read_bool (write_bool b) b.
Proof.
  eapply reads_bind_nil; [apply read_u8_reads; destruct b; int_lia|].
  destruct b; apply reads_ret.
Qed.

(** ** Sequences *)
Lemma read_n_reads {E A} (m : parser E A) (enc : A -> bytes) (R : A -> Prop) l :
  (forall a, R a -> reads m (enc a) a) -> Forall R l ->
  reads (read_n (length l) m) (write_list enc l) l.
Proof.
  intros Hm. induction 1 as [|a l Ha Hl IH]; cbn [length read_n].
  - apply reads_ret.
  - unfold write_list in *; cbn [map concat]. eapply reads_bind; [by apply Hm|].
    eapply reads_bind_nil; [apply IH|]. apply reads_ret.
Qed.

Lemma read_n_parses {E A} (m : parser E A) (enc : A -> bytes) (R : A -> Prop) n :
  parses m (fun a bs => R a /\ bs = enc a) ->
  parses (read_n n m) (fun l bs => (length l = n /\ Forall R l) /\ bs = write_list enc l).
Proof.
  intros Hm. induction n as [|n IH]; cbn [read_n].
  - eapply parses_conseq; [apply parses_ret|]. by intros l bs _ [-> ->].
  - eapply parses_conseq.
    { apply parses_bind; [apply Hm|intros a]. apply parses_bind; [apply IH|intros xs; apply parses_ret]. }
    intros l bs _ (a&bs1&bs2&->&_&[Ha ->]&xs&bs3&bs4&->&_&[[<- Hxs] ->]&->&->).
    rewrite app_nil_r. split; [split; [done|by constructor]|done].
Qed.

(** The law of a type whose codec is canonical: what is written is read back,
    and whatever is read is well formed and is what would be written. *)
Class Codec (A : Type) `{Encodable A} `{Decodable A} := {
  wf : A -> Prop;
  codec_reads a : wf a -> reads consensus_decode (consensus_encode a) a;
  codec_parses : parses consensus_decode (fun a bs => wf a /\ bs = consensus_encode a) }.

Lemma read_vec_reads `{Codec A} l :
  fits_compact l -> Forall wf l -> reads read_vec (write_vec l) l.
Proof.
  intros Hf Hl. eapply reads_bind; [by apply read_count_reads|].
  apply read_n_reads with wf; [apply codec_reads|done].
Qed.

Lemma read_vec_parses `{Codec A} :
  parses read_vec (fun l bs => (fits_compact l /\ Forall wf l) /\ bs = write_vec l).
Proof.
  eapply parses_conseq.
  { apply parses_bind; [apply read_count_parses|intros n].
    apply read_n_parses, codec_parses. }
  intros l bs _ (n&bs1&bs2&->&_&[Hn ->]&[<- Hl]&->). done.
Qed.

(** Round trip and canonicity of the whole-slice entry points. *)
Lemma decode_encode `{Codec A} a : wf a -> decode (encode a) = Ok a.
Proof. intros. by apply reads_decode_all, codec_reads. Qed.

Lemma encode_decode `{Codec A} bs a :
  bytes_ok bs -> decode bs = Ok a -> wf a /\ encode a = bs.
Proof.
  intros Hbs Hd. by destruct (parses_decode_all _ _ _ _ _ codec_parses Hbs Hd) as [? ->].
Qed.

Lemma consensus_encode_inj `{Codec A} (a b : A) :
  wf a -> wf b -> consensus_encode a = consensus_encode b -> a = b.
Proof.
  intros Ha Hb E. apply (f_equal (fun bs => bs ++ [])) in E.
  by destruct (reads_prefix _ _ _ [] [] _ _ (codec_reads a Ha) (codec_reads b Hb) E).
Qed.

(** ** Panic freedom of the primitive readers *)
Lemma no_panic_read_u8 : no_panic read_u8.
Proof. intros d. rewrite read_u8_eq. revert d. apply no_panic_bind; [apply no_panic_read_slice|intros; apply no_panic_ret]. Qed.
Lemma no_panic_usize_try_from v : no_panic (usize_try_from v).
Proof. unfold usize_try_from. by destruct (_ <=? _). Qed.

Create HintDb nopanic discriminated.
#[export] Hint Resolve no_panic_ret no_panic_fail no_panic_lift no_panic_read_slice
  no_panic_read_u8 no_panic_read_n no_panic_usize_try_from : nopanic.

(** [solve_no_panic] follows the structure of a parser. *)
Ltac solve_no_panic :=
  repeat first
    [ solve [eauto with nopanic]
    | apply no_panic_bind; [|intros ?]
    | apply no_panic_lift
    | apply no_panic_read_n
    | match goal with
      | |- no_panic (if ?b then _ else _) => destruct b
      | |- no_panic (match ?x with _ => _ end) => destruct x
      end
    | progress cbv beta zeta ].

Lemma no_panic_read_i32_le : no_panic read_i32_le.
Proof. unfold read_i32_le, read_u32_le. solve_no_panic. Qed.
Lemma no_panic_read_u32_le : no_panic read_u32_le.
Proof. unfold read_u32_le. solve_no_panic. Qed.
Lemma no_panic_read_u64_le : no_panic read_u64_le.
Proof. unfold read_u64_le. solve_no_panic. Qed.
Lemma no_panic_read_i64_le : no_panic read_i64_le.
Proof. unfold read_i64_le, read_u64_le. solve_no_panic. Qed.
Lemma no_panic_read_varint : no_panic read_varint.
Proof. unfold read_varint, read_u16_le, read_u32_le, read_u64_le. solve_no_panic. Qed.
#[export] Hint Resolve no_panic_read_i32_le no_panic_read_u32_le no_panic_read_u64_le
  no_panic_read_i64_le no_panic_read_varint : nopanic.
Lemma no_panic_read_count : no_panic read_count.
Proof. unfold read_count. solve_no_panic. Qed.
Lemma no_panic_read_fixed n : no_panic (read_fixed n).
Proof. apply no_panic_read_slice. Qed.
Lemma no_panic_read_hash_le : no_panic read_hash_le.
Proof. apply no_panic_read_slice. Qed.
Lemma no_panic_read_var_bytes : no_panic read_var_bytes.
Proof. unfold read_var_bytes, read_bytes. solve_no_panic. Qed.
#[export] Hint Resolve no_panic_read_count no_panic_read_var_bytes no_panic_read_fixed
  no_panic_read_hash_le : nopanic.
Lemma no_panic_read_var_str : no_panic read_var_str.
Proof. unfold read_var_str. solve_no_panic. Qed.
Lemma no_panic_read_bool : no_panic read_bool.
Proof. unfold read_bool. solve_no_panic. Qed.
#[export] Hint Resolve no_panic_read_var_str no_panic_read_bool : nopanic.

(** ** Codec automation

    [codec] holds the reading and the parsing law of every reader;
    [solve_reads] and [solve_parses] compose them along the monad. *)
#[export] Hint Resolve reads_ret reads_lift read_u8_reads read_u16_le_reads read_u32_le_reads
  read_u64_le_reads read_i32_le_reads read_i64_le_reads read_fixed_reads read_hash_le_reads
  read_varint_reads read_count_reads read_var_bytes_reads read_var_str_reads read_bool_reads
  read_vec_reads codec_reads : codec.
#[export] Hint Resolve parses_ret parses_fail parses_lift read_u8_parses read_u16_le_parses
  read_u32_le_parses read_u64_le_parses read_i32_le_parses read_i64_le_parses read_fixed_parses
  read_hash_le_parses read_varint_parses read_count_parses read_var_bytes_parses
  read_var_str_parses read_vec_parses codec_parses : codec.
#[export] Hint Extern 1 (is_u8 _) => int_lia : codec.

Ltac reads_step :=
  first
    [ solve [eauto with codec]
    | eapply reads_bind; [solve [eauto with codec]|]; cbv beta
    | eapply reads_bind_nil; [solve [eauto with codec]|]; cbv beta ].
Ltac solve_reads := rewrite <- ?app_assoc; repeat reads_step.

Ltac parses_step :=
  first
    [ eapply parses_ret
    | solve [eauto with codec]
    | eapply parses_bind; [solve [eauto with codec]|]; intros ?; cbv beta ].

(** Decompose the relation a composed parser establishes. *)
Ltac inv_parses :=
  cbv beta in *;
  repeat match goal with
  | H : exists _, _ |- _ => destruct H as [? H]
  | H : _ /\ _ |- _ => destruct H
  end; subst; rewrite ?app_nil_r in *.

Ltac solve_parses :=
  eapply parses_conseq; [repeat parses_step|intros ? ? ? ?; inv_parses].
