(* ===== verification/Hashing.v ===== *)
(** * Hash functions ([primitives/src/hash.rs])

    The digests themselves come from third-party crates: they are a class of
    functions, and what the code relies on (fixed digest lengths) is the
    class [HashesLaws]. *)

From S2P Require Import Prelude.
From Stdlib Require Import ZArith Lia.
From stdpp Require Import base list option numbers strings.
#[local] Open Scope Z_scope.

(** [Sha256::digest], [Ripemd160::digest], [Sha1::digest] and BLAKE2b-256 with
    a 16-byte personalization. *)
Class Hashes := {
  Sha256_digest : bytes -> bytes;
  Ripemd160_digest : bytes -> bytes;
  Sha1_digest : bytes -> bytes;
  blake2b_256 : bytes -> bytes -> bytes }.

Class HashesLaws (H : Hashes) : Prop := {
  Sha256_array d : array 32 (Sha256_digest d);
  Ripemd160_array d : array 20 (Ripemd160_digest d);
  Sha1_array d : array 20 (Sha1_digest d);
  blake2b_256_array p d : array 32 (blake2b_256 p d) }.

Section hash.
  Context {H : Hashes}.

Definition sha256 (data : bytes) : Hash256 := Sha256_digest data.
Definition sha256d (data : bytes) : Hash256 := Sha256_digest (Sha256_digest data).
(** Two different byte strings with one double SHA-256. *)
Definition sha256d_broken : Prop := exists x y, x <> y /\ sha256d x = sha256d y.

Definition hash160 (data : bytes) : bytes := Ripemd160_digest (sha256 data).

  Context {L : HashesLaws H}.

Lemma sha256_array d : array 32 (sha256 d).
Proof. apply Sha256_array. Qed.
Lemma sha256d_array d : array 32 (sha256d d).
Proof. apply Sha256_array. Qed.
Lemma hash160_array d : array 20 (hash160 d).
Proof. apply Ripemd160_array. Qed.
End hash.

#[export] Hint Resolve sha256_array sha256d_array hash160_array : bytes.

(** A concrete instance: a polynomial checksum, used to evaluate the model. *)
Definition toy_digest (n : nat) (d : bytes) : bytes :=
  le_bytes n (foldl (fun h b => Z.land (h * 1000003 + b + 12345) 0xffffffffffffffffffffffffffffffffffffffff) 1 d).

#[global] Instance toy_hashes : Hashes := {|
  Sha256_digest := toy_digest 32;
  Ripemd160_digest := toy_digest 20;
  Sha1_digest d := toy_digest 20 (1 :: d);
  blake2b_256 p d := toy_digest 32 (p ++ d) |}.

Lemma toy_digest_array n d : array n (toy_digest n d).
Proof. split; [apply length_le_bytes|apply le_bytes_ok]. Qed.

#[global] Instance toy_hashes_laws : HashesLaws toy_hashes.
Proof. split; intros; apply toy_digest_array. Qed.
