(* ===== verification/Address.v ===== *)
(** * Addresses and keys in base58 ([primitives/src/address.rs])

    Base58Check encoding and decoding, addresses as scripts, and secret keys
    in wallet import format.  A Rust [&str] is its bytes. *)

From S2P Require Import Prelude Consensus Hashing.
From Stdlib Require Import ZArith Lia Ascii.
From stdpp Require Import base list option numbers strings.
#[local] Open Scope Z_scope.

Inductive AddressError := InvalidLength | InvalidCharacter | InvalidChecksum | UnknownPrefix.
#[global] Instance AddressError_eq_dec : EqDecision AddressError.
Proof. solve_decision. Defined.

Definition ALPHABET : bytes :=
  Eval vm_compute in
  ascii_bytes "123456789ABCDEFGHJKLMNPQRSTUVWXYZabcdefghijkmnopqrstuvwxyz".

(** [position] in the alphabet. *)
Definition base58_value (byte : Z) : option Z :=
  (fun p => Z.of_nat (fst p)) <$> list_find (fun v => v = byte) ALPHABET.

(** The inner loop of [base58_decode] over [bytes.iter_mut().rev()]: here the
    list is already reversed, least significant byte first. *)
Fixpoint decode_mul_add (le : bytes) (carry : Z) : bytes * Z :=
  match le with
  | [] => ([], carry)
  | byte :: le =>
      let val := byte * 58 + carry in
      let '(le, carry) := decode_mul_add le (Z.shiftr val 8) in
      (Z.land val 0xff :: le, carry)
  end.
(** [while carry > 0 { bytes.insert(0, ..) }] in the same order; a [u32] has
    at most four bytes. *)
Fixpoint decode_carry (fuel : nat) (carry : Z) : bytes :=
  match fuel with
  | O => []
  | S fuel => if carry >? 0 then Z.land carry 0xff :: decode_carry fuel (Z.shiftr carry 8) else []
  end.
Definition decode_digit (bs : bytes) (value : Z) : bytes :=
  let '(le, carry) := decode_mul_add (rev bs) value in
  rev (le ++ decode_carry 4 carry).

Fixpoint decode_loop (input : bytes) (bs : bytes) : result AddressError bytes :=
  match input with
  | [] => Ok bs
  | ch :: input =>
      value ← ok_or (base58_value ch) InvalidCharacter;
      decode_loop input (decode_digit bs value)
  end.

(** [take_while(|b| b == x).count()]. *)
Fixpoint leading (x : Z) (l : bytes) : nat :=
  match l with b :: l => if b =? x then S (leading x l) else O | [] => O end.

Definition base58_decode (input : bytes) : result AddressError bytes :=
  match input with
  | [] => Err InvalidLength
  | _ => bs ← decode_loop input []; Ok (zeros (leading 0x31 input) ++ bs)
  end.

Fixpoint encode_mul_add (le : bytes) (carry : Z) : bytes * Z :=
  match le with
  | [] => ([], carry)
  | digit :: le =>
      let value := digit * 256 + carry in
      let '(le, carry) := encode_mul_add le (value / 58) in
      (value mod 58 :: le, carry)
  end.
Fixpoint encode_carry (fuel : nat) (carry : Z) : bytes :=
  match fuel with
  | O => []
  | S fuel => if carry >? 0 then carry mod 58 :: encode_carry fuel (carry / 58) else []
  end.
Definition encode_byte (digits : bytes) (byte : Z) : bytes :=
  let '(le, carry) := encode_mul_add (rev digits) byte in
  rev (le ++ encode_carry 6 carry).
Definition encode_digits (data : bytes) : bytes := foldl encode_byte [0] data.

Definition base58_encode (data : bytes) : bytes :=
  match data with
  | [] => []
  | _ => replicate (leading 0 data) 0x31
         ++ map (fun digit => default 0 (ALPHABET !! Z.to_nat digit)) (encode_digits data)
  end.

(** ** Scripts of an address *)
Definition OP_DUP : Z := 0x76.
Definition OP_HASH160 : Z := 0xa9.
Definition OP_EQUALVERIFY : Z := 0x88.
Definition OP_CHECKSIG : Z := 0xac.
Definition OP_EQUAL : Z := 0x87.

Definition p2pkh_script (hash : bytes) : bytes :=
  [OP_DUP; OP_HASH160; 0x14] ++ hash ++ [OP_EQUALVERIFY; OP_CHECKSIG].
Definition p2sh_script (hash : bytes) : bytes := [OP_HASH160; 0x14] ++ hash ++ [OP_EQUAL].

(** [script[i] == b], evaluated only on scripts long enough. *)
Definition at_is (script : bytes) (i : nat) (b : Z) : bool :=
  match script !! i with Some x => x =? b | None => false end.
Definition is_p2pkh (script : bytes) : bool :=
  Nat.eqb (length script) 25 && at_is script 0 0x76 && at_is script 1 0xa9 && at_is script 2 0x14
  && at_is script 23 0x88 && at_is script 24 0xac.
Definition is_p2sh (script : bytes) : bool :=
  Nat.eqb (length script) 23 && at_is script 0 0xa9 && at_is script 1 0x14 && at_is script 22 0x87.

Definition network_prefixes (network : Network) : bytes * bytes :=
  match network with
  | Mainnet => ([0x1C; 0xB8], [0x1C; 0xBD])
  | Testnet | Regtest => ([0x1D; 0x25], [0x1C; 0xBA])
  end.

Section address.
  Context {H : Hashes}.

Definition base58check_decode (input : bytes) : result AddressError bytes :=
  bs ← base58_decode input;
  if Nat.ltb (length bs) 4 then Err InvalidLength
  else
    let payload := take (length bs - 4) bs in
    let checksum := drop (length bs - 4) bs in
    let digest := sha256d payload in
    if bool_decide (checksum = take 4 digest) then Ok payload else Err InvalidChecksum.

Definition base58check_encode (payload : bytes) : bytes :=
  base58_encode (payload ++ take 4 (sha256d payload)).

Definition address_to_script_pubkey (address : bytes) (network : Network)
    : result AddressError bytes :=
  payload ← base58check_decode address;
  let '(pubkey_prefix, script_prefix) := network_prefixes network in
  if starts_with payload pubkey_prefix then
    let hash := drop (length pubkey_prefix) payload in
    if negb (Nat.eqb (length hash) 20) then Err InvalidLength else Ok (p2pkh_script hash)
  else if starts_with payload script_prefix then
    let hash := drop (length script_prefix) payload in
    if negb (Nat.eqb (length hash) 20) then Err InvalidLength else Ok (p2sh_script hash)
  else Err UnknownPrefix.

Definition script_pubkey_to_address (script : bytes) (network : Network) : option bytes :=
  let '(pubkey_prefix, script_prefix) := network_prefixes network in
  if is_p2pkh script then Some (base58check_encode (pubkey_prefix ++ slice script 3 23))
  else if is_p2sh script then Some (base58check_encode (script_prefix ++ slice script 2 22))
  else None.

Definition wif_prefix (network : Network) : Z :=
  match network with Mainnet => 0x80 | Testnet | Regtest => 0xEF end.

Definition secret_key_to_wif (secret : bytes) (network : Network) (compressed : bool) : bytes :=
  base58check_encode ([wif_prefix network] ++ secret ++ (if compressed then [0x01] else [])).

Definition wif_to_secret_key (wif : bytes) (network : Network) : result AddressError (bytes * bool) :=
  payload ← base58check_decode wif;
  if Nat.eqb (length payload) 0 then Err InvalidLength
  else
    b0 ← index payload 0;
    if negb (b0 =? wif_prefix network) then Err UnknownPrefix
    else if Nat.eqb (length payload) 33 then Ok (slice payload 1 33, false)
    else if Nat.eqb (length payload) 34 && at_is payload 33 0x01
    then Ok (slice payload 1 33, true)
    else Err InvalidLength.
End address.

(** The exchange-fund address of the main network is a script address. *)
Example base58_decode_sample :
  base58_decode (ascii_bytes "t3PMbbA5YBMrjSD3dD16SSdXKuKovwmj6tS")
  = Ok [0x1C; 0xBD; 52; 146; 132; 207; 20; 182; 215; 248; 0; 131; 139; 125; 105;
        176; 117; 248; 160; 55; 27; 76; 196; 152; 230; 171].
Proof. vm_compute. reflexivity. Qed.

(** An all-zero input gets one digit too many: the digit vector starts as
    [[0]], which no input byte removes. *)
Example base58_zeros_not_roundtrip : base58_decode (base58_encode [0; 0]) = Ok [0; 0; 0].
Proof. vm_compute. reflexivity. Qed.

(** ** Positional notation *)
Section radix.
  Context (B : Z) (HB : 1 < B).

Definition digits_ok (l : bytes) : Prop := Forall (fun d => 0 <= d < B) l.
Fixpoint value_le (l : bytes) : Z := match l with [] => 0 | d :: l => d + B * value_le l end.
(** No superfluous leading digit. *)
Definition normal_le (l : bytes) : Prop := l = [] \/ B ^ (Z.of_nat (length l) - 1) <= value_le l.

Fixpoint carry_digits (fuel : nat) (carry : Z) : bytes :=
  match fuel with
  | O => []
  | S fuel => if carry >? 0 then carry mod B :: carry_digits fuel (carry / B) else []
  end.

Lemma carry_digits_spec fuel c :
  0 <= c < B ^ Z.of_nat fuel ->
  digits_ok (carry_digits fuel c) /\ value_le (carry_digits fuel c) = c
  /\ normal_le (carry_digits fuel c) /\ (c = 0 -> carry_digits fuel c = []).
Proof.
  revert c; induction fuel as [|fuel IH]; intros c Hc; cbn [carry_digits].
  - change (Z.of_nat 0) with 0 in Hc. rewrite Z.pow_0_r in Hc.
    split_and!; [constructor|cbn; lia|by left|done].
  - rewrite Nat2Z.inj_succ, Z.pow_succ_r in Hc by lia.
    rewrite Z.gtb_ltb. destruct (Z.ltb_spec 0 c) as [Hpos|]; [|split_and!; [constructor|cbn; lia|by left|done]].
    destruct (IH (c / B)) as (H1&H2&H3&H4).
    { split; [apply Z.div_pos; lia|apply Z.div_lt_upper_bound; lia]. }
    pose proof (Z.div_mod c B ltac:(lia)). pose proof (Z.mod_pos_bound c B ltac:(lia)). split_and!.
    + by constructor.
    + cbn. rewrite H2. lia.
    + right. cbn [length value_le]. rewrite H2. rewrite Nat2Z.inj_succ. unfold Z.succ. rewrite Z.add_simpl_r.
      destruct H3 as [->|H3]; [cbn; lia|]. rewrite H2 in H3.
      destruct (carry_digits fuel (c / B)) as [|x r] eqn:E; [cbn; lia|].
      cbn [length] in *. rewrite Nat2Z.inj_succ in *. unfold Z.succ in *. rewrite Z.add_simpl_r in H3.
      rewrite Z.pow_add_r, Z.pow_1_r by lia. nia.
    + lia.
Qed.

Lemma value_le_app l r : value_le (l ++ r) = value_le l + B ^ Z.of_nat (length l) * value_le r.
Proof.
  induction l as [|d l IH]; cbn [app value_le length].
  - change (Z.of_nat 0) with 0. rewrite Z.pow_0_r. lia.
  - rewrite IH, Nat2Z.inj_succ, Z.pow_succ_r by lia. lia.
Qed.

Lemma value_le_bounds l : digits_ok l -> 0 <= value_le l < B ^ Z.of_nat (length l).
Proof.
  induction 1 as [|d l Hd _ IH]; cbn [value_le length].
  - change (Z.of_nat 0) with 0. rewrite Z.pow_0_r. lia.
  - rewrite Nat2Z.inj_succ, Z.pow_succ_r by lia. nia.
Qed.

(** Normal notations are unique. *)
Lemma value_le_inj l1 l2 :
  digits_ok l1 -> digits_ok l2 -> length l1 = length l2 -> value_le l1 = value_le l2 -> l1 = l2.
Proof.
  intros H1. revert l2; induction H1 as [|d l Hd Hl IH]; intros [|e l2] H2 Hlen Hv; try done.
  apply Forall_cons in H2 as [He H2]. cbn [value_le length] in *.
  assert (d = e /\ value_le l = value_le l2) as [-> ?].
  { assert (value_le l = value_le l2) by nia. split; [lia|done]. }
  f_equal. apply IH; [done|lia|done].
Qed.

Lemma normal_unique l1 l2 :
  digits_ok l1 -> digits_ok l2 -> normal_le l1 -> normal_le l2 -> value_le l1 = value_le l2 -> l1 = l2.
Proof.
  intros H1 H2 N1 N2 Hv. apply value_le_inj; try done.
  assert (Hle : forall a b, digits_ok a -> digits_ok b -> normal_le b -> value_le a = value_le b ->
    (length b <= length a)%nat).
  { intros a b Ha Hb [->|N] E; [cbn; lia|]. destruct b as [|x b]; [cbn; lia|].
    pose proof (value_le_bounds a Ha). rewrite <- E in N.
    assert (Hlt : B ^ (Z.of_nat (length (x :: b)) - 1) < B ^ Z.of_nat (length a)) by lia.
    apply Z.pow_lt_mono_r_iff in Hlt; cbn [length] in *; lia. }
  apply Nat.le_antisymm; [apply (Hle l2 l1)|apply (Hle l1 l2)]; done.
Qed.
End radix.

(** Conversion between radices: digits of radix [M] are pushed onto a notation
    of radix [B]. *)
Section convert.
  Context (B M : Z) (HB : 1 < B) (HM : 1 < M).

(** Multiply by [M], add [carry]: the generic form of both inner loops. *)
Fixpoint mul_add (l : bytes) (carry : Z) : bytes * Z :=
  match l with
  | [] => ([], carry)
  | d :: l =>
      let v := d * M + carry in
      let '(l', c) := mul_add l (v / B) in (v mod B :: l', c)
  end.
Lemma mul_add_spec l c :
  digits_ok B l -> 0 <= c < M ->
  let '(l', c') := mul_add l c in
  digits_ok B l' /\ length l' = length l /\ 0 <= c' < M
  /\ value_le B l' + B ^ Z.of_nat (length l) * c' = value_le B l * M + c.
Proof.
  revert c; induction l as [|d l IH]; intros c Hl Hc; cbn [mul_add].
  - split_and!; try (done || constructor || lia). cbn. lia.
  - apply Forall_cons in Hl as [Hd Hl].
    assert (Hv : 0 <= (d * M + c) / B < M).
    { split; [apply Z.div_pos; nia|apply Z.div_lt_upper_bound; nia]. }
    specialize (IH _ Hl Hv). destruct (mul_add l _) as [l' c'].
    destruct IH as (Hl'&Hlen&Hc'&He). split_and!.
    + constructor; [apply Z.mod_pos_bound; lia|done].
    + cbn. by rewrite Hlen.
    + lia.
    + lia.
    + cbn [value_le length]. rewrite Nat2Z.inj_succ, Z.pow_succ_r by lia.
      pose proof (Z.div_mod (d * M + c) B ltac:(lia)). nia.
Qed.

(** One step of either loop: the value is multiplied by [M] and [d] added, and
    the notation stays normal. *)
Lemma push_spec l d fuel :
  digits_ok B l -> normal_le B l -> 0 <= d < M -> M <= B ^ Z.of_nat fuel ->
  let '(l', c) := mul_add l d in
  let r := l' ++ carry_digits B fuel c in
  digits_ok B r /\ normal_le B r /\ value_le B r = value_le B l * M + d.
Proof.
  intros Hl Hn Hd Hf. pose proof (mul_add_spec l d Hl Hd) as Hm.
  destruct (mul_add l d) as [l' c]. destruct Hm as (Hl'&Hlen&Hc&He).
  destruct (carry_digits_spec B HB fuel c ltac:(lia)) as (C1&C2&C3&C4). cbv zeta. split_and!.
  - by apply Forall_app.
  - destruct (Z.eq_dec c 0) as [->|Hc0].
    + rewrite C4, app_nil_r by done. rewrite Z.mul_0_r, Z.add_0_r in He.
      destruct Hn as [->|Hn]; [left; by destruct l'|right].
      rewrite Hlen, He. pose proof (value_le_bounds B HB l Hl). nia.
    + right. rewrite value_le_app, C2. destruct C3 as [C3|C3]; [rewrite C3 in C2; cbn in C2; lia|].
      rewrite C2 in C3. rewrite length_app. pose proof (value_le_bounds B HB l' Hl').
      destruct (carry_digits B fuel c) as [|x r] eqn:E; [cbn in C2; lia|].
      replace (Z.of_nat (length l' + length (x :: r)) - 1)
        with (Z.of_nat (length l') + (Z.of_nat (length (x :: r)) - 1)) by (cbn; lia).
      rewrite Z.pow_add_r by (cbn; lia). rewrite Hlen in *. nia.
  - by rewrite value_le_app, C2, Hlen.
Qed.

End convert.

(** ** The two loops as positional conversions *)
Lemma decode_mul_add_eq l c : decode_mul_add l c = mul_add 256 58 l c.
Proof.
  revert c; induction l as [|d l IH]; intros c; cbn [decode_mul_add mul_add]; [done|].
  rewrite Z.shiftr_div_pow2 by lia. change 0xff with (Z.ones 8). rewrite Z.land_ones by lia.
  change (2 ^ 8) with 256. by rewrite IH.
Qed.
Lemma decode_carry_eq n c : decode_carry n c = carry_digits 256 n c.
Proof.
  revert c; induction n as [|n IH]; intros c; cbn [decode_carry carry_digits]; [done|].
  rewrite Z.shiftr_div_pow2 by lia. change 0xff with (Z.ones 8). rewrite Z.land_ones by lia.
  change (2 ^ 8) with 256. by rewrite IH.
Qed.
Lemma encode_mul_add_eq l c : encode_mul_add l c = mul_add 58 256 l c.
Proof. revert c; induction l as [|d l IH]; intros c; cbn; [done|]. by rewrite IH. Qed.
Lemma encode_carry_eq n c : encode_carry n c = carry_digits 58 n c.
Proof. revert c; induction n as [|n IH]; intros c; cbn; [done|]. by rewrite IH. Qed.

(** Big-endian value of a digit list. *)
Definition value_be (B : Z) (l : bytes) : Z := value_le B (rev l).
Definition normal_be (B : Z) (l : bytes) : Prop := digits_ok B l /\ normal_le B (rev l).

Lemma digits_ok_rev B l : digits_ok B (rev l) <-> digits_ok B l.
Proof. unfold digits_ok. split; [|apply Forall_rev]. intros F%Forall_rev. by rewrite rev_involutive in F. Qed.

Lemma normal_be_unique B l1 l2 :
  1 < B -> normal_be B l1 -> normal_be B l2 -> value_be B l1 = value_be B l2 -> l1 = l2.
Proof.
  intros HB [D1 N1] [D2 N2] Hv. rewrite <- (rev_involutive l1), <- (rev_involutive l2). f_equal.
  apply (normal_unique B); rewrite ?digits_ok_rev; done.
Qed.

Lemma value_be_cons B d l : value_be B (d :: l) = d * B ^ Z.of_nat (length l) + value_be B l.
Proof.
  unfold value_be. cbn [rev]. rewrite value_le_app, length_rev. cbn [value_le]. lia.
Qed.

Lemma normal_be_cons B d l : 1 < B -> digits_ok B (d :: l) -> d <> 0 -> normal_be B (d :: l).
Proof.
  intros HB Hd Hne. split; [done|]. right. fold (value_be B (d :: l)). rewrite value_be_cons, length_rev.
  apply Forall_cons in Hd as [Hd Hl]. pose proof (proj2 (digits_ok_rev B l) Hl) as Hl'.
  pose proof (value_le_bounds B HB (rev l) Hl').
  cbn [length]. replace (Z.of_nat (S (length l)) - 1) with (Z.of_nat (length l)) by lia.
  unfold value_be. assert (0 < B ^ Z.of_nat (length l)) by (apply Z.pow_pos_nonneg; lia). nia.
Qed.

(** A normal notation of a positive number starts with a non-zero digit. *)
Lemma normal_be_head B l :
  1 < B -> normal_be B l -> 0 < value_be B l -> exists d r, l = d :: r /\ d <> 0.
Proof.
  intros HB [D N] Hv. destruct l as [|d r]; [unfold value_be in Hv; cbn in Hv; lia|].
  exists d, r. split; [done|]. intros ->. destruct N as [N|N]; [by apply app_nil in N as [_ ?]|].
  fold (value_be B (0 :: r)) in N. rewrite value_be_cons, length_rev in N.
  apply Forall_cons in D as [_ D]. pose proof (proj2 (digits_ok_rev B r) D) as D'.
  pose proof (value_le_bounds B HB (rev r) D') as Hb. rewrite length_rev in Hb.
  cbn [length] in N. replace (Z.of_nat (S (length r)) - 1) with (Z.of_nat (length r)) in N by lia.
  unfold value_be in N. lia.
Qed.

Lemma decode_digit_spec bs d :
  normal_be 256 bs -> 0 <= d < 58 ->
  normal_be 256 (decode_digit bs d) /\ value_be 256 (decode_digit bs d) = value_be 256 bs * 58 + d.
Proof.
  intros [D N] Hd. unfold decode_digit. rewrite decode_mul_add_eq.
  pose proof (push_spec 256 58 ltac:(lia) ltac:(lia) (rev bs) d 4 (proj2 (digits_ok_rev _ _) D) N Hd) as Hp.
  destruct (mul_add 256 58 (rev bs) d) as [le c]. rewrite decode_carry_eq.
  destruct Hp as (P1&P2&P3); [by cbn|]. unfold normal_be, value_be.
  rewrite rev_involutive, digits_ok_rev. done.
Qed.

Lemma encode_byte_spec ds b :
  normal_be 58 ds -> 0 <= b < 256 ->
  normal_be 58 (encode_byte ds b) /\ value_be 58 (encode_byte ds b) = value_be 58 ds * 256 + b.
Proof.
  intros [D N] Hb. unfold encode_byte. rewrite encode_mul_add_eq.
  pose proof (push_spec 58 256 ltac:(lia) ltac:(lia) (rev ds) b 6 (proj2 (digits_ok_rev _ _) D) N Hb) as Hp.
  destruct (mul_add 58 256 (rev ds) b) as [le c]. rewrite encode_carry_eq.
  destruct Hp as (P1&P2&P3); [by cbn|]. unfold normal_be, value_be.
  rewrite rev_involutive, digits_ok_rev. done.
Qed.

(** Folding a step that multiplies and adds computes the value. *)
Lemma fold_spec (B M : Z) (step : bytes -> Z -> bytes) :
  (forall l d, normal_be B l -> 0 <= d < M ->
     normal_be B (step l d) /\ value_be B (step l d) = value_be B l * M + d) ->
  forall ds l, normal_be B l -> digits_ok M ds ->
  normal_be B (foldl step l ds)
  /\ value_be B (foldl step l ds) = value_be B l * M ^ Z.of_nat (length ds) + value_be M ds.
Proof.
  intros Hstep ds. induction ds as [|d ds IH]; intros l Hl Hds; cbn [foldl].
  - split; [done|]. unfold value_be; cbn. lia.
  - apply Forall_cons in Hds as [Hd Hds]. destruct (Hstep l d Hl Hd) as [H1 H2].
    destruct (IH _ H1 Hds) as [H3 H4]. split; [done|].
    rewrite H4, H2, value_be_cons. cbn [length]. rewrite Nat2Z.inj_succ, Z.pow_succ_r by lia. lia.
Qed.

Lemma normal_be_nil B : normal_be B [].
Proof. split; [constructor|by left]. Qed.

(** ** The alphabet *)
Lemma base58_value_alphabet d :
  0 <= d < 58 -> base58_value (default 0 (ALPHABET !! Z.to_nat d)) = Some d.
Proof.
  intros Hd. assert (Hall : forallb (fun n => bool_decide
    (base58_value (default 0 (ALPHABET !! n)) = Some (Z.of_nat n))) (seq 0 58) = true) by (vm_compute; done).
  rewrite forallb_forall in Hall. specialize (Hall (Z.to_nat d)).
  rewrite bool_decide_eq_true, Z2Nat.id in Hall by lia. apply Hall, in_seq. lia.
Qed.

Lemma base58_value_inv c d :
  base58_value c = Some d -> 0 <= d < 58 /\ default 0 (ALPHABET !! Z.to_nat d) = c.
Proof.
  unfold base58_value. intros Hf. destruct (list_find _ ALPHABET) as [[n x]|] eqn:E; [|done].
  apply list_find_Some in E as (E&->&_). cbn in Hf. injection Hf as <-. rewrite Nat2Z.id, E.
  apply lookup_lt_Some in E. change (length ALPHABET) with 58%nat in E. split; [lia|done].
Qed.

Definition alpha (d : Z) : Z := default 0 (ALPHABET !! Z.to_nat d).

Lemma alpha_zero d : 0 <= d < 58 -> alpha d = 0x31 -> d = 0.
Proof.
  intros Hd E. pose proof (base58_value_alphabet d Hd) as H1. fold (alpha d) in H1. rewrite E in H1.
  change (base58_value 0x31) with (Some 0) in H1. by injection H1.
Qed.

Lemma decode_loop_alpha ds bs :
  digits_ok 58 ds -> decode_loop (map alpha ds) bs = Ok (foldl decode_digit bs ds).
Proof.
  intros Hd. revert bs; induction Hd as [|d ds Hd _ IH]; intros bs; cbn [map decode_loop foldl]; [done|].
  change (alpha d) with (default 0 (ALPHABET !! Z.to_nat d)).
  rewrite (base58_value_alphabet d Hd). cbn. apply IH.
Qed.

Lemma decode_loop_inv input bs r :
  decode_loop input bs = Ok r ->
  exists ds, input = map alpha ds /\ digits_ok 58 ds /\ r = foldl decode_digit bs ds.
Proof.
  revert bs; induction input as [|c input IH]; intros bs; cbn [decode_loop].
  - intros [= <-]. exists []. split_and!; (done || constructor).
  - intros Hd. inv_result. destruct (base58_value_inv _ _ Hm) as [Ha Hc].
    destruct (IH _ Hd) as (ds&->&Hds&->). exists (a :: ds). split_and!; [|by constructor|done].
    cbn. f_equal. done.
Qed.

(** Lists of digits, split after their leading zeros. *)
Definition has_nonzero (l : bytes) : bool := existsb (fun b => negb (b =? 0)) l.

Lemma split_zeros l :
  has_nonzero l = true -> exists k b r, l = zeros k ++ b :: r /\ b <> 0.
Proof.
  induction l as [|x l IH]; cbn; [done|]. destruct (Z.eqb_spec x 0) as [->|Hx]; cbn.
  - intros Hl. destruct (IH Hl) as (k&b&r&->&Hb). by exists (S k), b, r.
  - intros _. by exists 0%nat, x, l.
Qed.

Lemma leading_split x k b r : b <> x -> leading x (replicate k x ++ b :: r) = k.
Proof.
  intros Hb. induction k as [|k IH]; cbn.
  - by rewrite (proj2 (Z.eqb_neq b x) Hb).
  - by rewrite Z.eqb_refl, IH.
Qed.

Lemma foldl_decode_zeros k : foldl decode_digit [] (zeros k) = [].
Proof. induction k as [|k IH]; [done|]. apply IH. Qed.

Lemma encode_byte_0_nonzero b : 0 <= b < 256 -> b <> 0 -> encode_byte [0] b = encode_byte [] b.
Proof.
  intros Hb Hne. assert (Hall : forallb (fun n => bool_decide
    (encode_byte [0] (Z.of_nat n) = encode_byte [] (Z.of_nat n))) (seq 1 255) = true) by (vm_compute; done).
  rewrite forallb_forall in Hall. specialize (Hall (Z.to_nat b)).
  rewrite bool_decide_eq_true, Z2Nat.id in Hall by lia. apply Hall, in_seq. lia.
Qed.

Lemma foldl_encode_zeros k : foldl encode_byte [0] (zeros k) = [0].
Proof. induction k as [|k IH]; [done|]. apply IH. Qed.

(** The digits of a non-zero byte string. *)
Lemma encode_digits_spec k b r :
  digits_ok 256 (b :: r) -> b <> 0 ->
  normal_be 58 (encode_digits (zeros k ++ b :: r))
  /\ value_be 58 (encode_digits (zeros k ++ b :: r)) = value_be 256 (b :: r).
Proof.
  intros Hd Hb. unfold encode_digits. rewrite foldl_app, foldl_encode_zeros. cbn [foldl].
  pose proof Hd as [Hb' _]%Forall_cons. rewrite encode_byte_0_nonzero by done.
  destruct (fold_spec 58 256 encode_byte encode_byte_spec (b :: r) [] (normal_be_nil _) Hd) as [H1 H2].
  cbn [foldl] in *. split; [done|]. rewrite H2. unfold value_be at 1. cbn [rev value_le]. lia.
Qed.

Lemma value_be_pos b r B : 1 < B -> digits_ok B (b :: r) -> b <> 0 -> 0 < value_be B (b :: r).
Proof.
  intros HB Hd Hb. rewrite value_be_cons. apply Forall_cons in Hd as [Hb' Hr].
  pose proof (value_le_bounds B HB (rev r) (proj2 (digits_ok_rev B r) Hr)). unfold value_be.
  assert (0 < B ^ Z.of_nat (length r)) by (apply Z.pow_pos_nonneg; lia). nia.
Qed.

Lemma map_alpha_zeros k : map alpha (zeros k) = replicate k 0x31.
Proof.
  induction k as [|k IH]; [done|].
  change (alpha 0 :: map alpha (zeros k) = 0x31 :: replicate k 0x31). by rewrite IH.
Qed.

Lemma zeros_digits k : digits_ok 58 (zeros k).
Proof. apply Forall_replicate. lia. Qed.

(** Base58 round trips, both ways, for strings with a non-zero byte. *)
Lemma base58_roundtrip data :
  bytes_ok data -> has_nonzero data = true -> base58_decode (base58_encode data) = Ok data.
Proof.
  intros Hok Hnz. destruct (split_zeros _ Hnz) as (k&b&r&->&Hb).
  apply bytes_ok_app in Hok as [_ Hok].
  destruct (encode_digits_spec k b r Hok Hb) as [N V].
  pose proof (value_be_pos b r 256 ltac:(lia) Hok Hb) as Hpos.
  destruct (normal_be_head 58 (encode_digits (zeros k ++ b :: r))) as (d&ds&Ed&Hd); [lia|done|by rewrite V|].
  assert (He : base58_encode (zeros k ++ b :: r)
    = map alpha (zeros k ++ encode_digits (zeros k ++ b :: r))).
  { rewrite map_app, map_alpha_zeros. unfold base58_encode, zeros.
    rewrite leading_split by done. by destruct (replicate k 0 ++ b :: r) eqn:E; [destruct k|]. }
  assert (Hds : digits_ok 58 (zeros k ++ encode_digits (zeros k ++ b :: r))).
  { apply Forall_app. split; [apply zeros_digits|apply N]. }
  rewrite He. unfold base58_decode. rewrite decode_loop_alpha by done.
  rewrite foldl_app, foldl_decode_zeros. cbn [mbind result_bind].
  destruct (fold_spec 256 58 decode_digit decode_digit_spec (encode_digits (zeros k ++ b :: r)) []
    (normal_be_nil _) (proj1 N)) as [N2 V2].
  assert (foldl decode_digit [] (encode_digits (zeros k ++ b :: r)) = b :: r) as ->.
  { apply (normal_be_unique 256); [lia|done|by apply normal_be_cons|].
    rewrite V2, V. unfold value_be at 1. cbn [rev value_le]. lia. }
  rewrite Ed, map_app, map_alpha_zeros. cbn [map].
  rewrite leading_split; [by destruct k|].
  intros E. apply Hd, alpha_zero; [|done]. apply Forall_app in Hds as [_ Hds]. rewrite Ed in Hds.
  by apply Forall_cons in Hds as [? _].
Qed.

Lemma base58_canonical s bs :
  base58_decode s = Ok bs -> has_nonzero bs = true -> bytes_ok bs /\ base58_encode bs = s.
Proof.
  intros Hd Hnz.
  assert (Hs : exists r, decode_loop s [] = Ok r /\ bs = zeros (leading 0x31 s) ++ r).
  { unfold base58_decode in Hd. destruct s as [|c s]; [done|].
    apply bind_Ok in Hd as (r&Hr&[= <-]). by exists r. }
  clear Hd. destruct Hs as (r'&Hm&->).
  destruct (decode_loop_inv _ _ _ Hm) as (ds&->&Hds&->). clear Hm.
  destruct (has_nonzero ds) eqn:Hz.
  - destruct (split_zeros _ Hz) as (k&d&r&->&Hd).
    apply Forall_app in Hds as [_ Hds]. rewrite foldl_app, foldl_decode_zeros in *.
    destruct (fold_spec 256 58 decode_digit decode_digit_spec (d :: r) [] (normal_be_nil _) Hds) as [N V].
    assert (V0 : value_be 256 (foldl decode_digit [] (d :: r)) = value_be 58 (d :: r)).
    { rewrite V. unfold value_be at 1. cbn [rev value_le]. lia. }
    pose proof (value_be_pos d r 58 ltac:(lia) Hds Hd) as Hpos.
    destruct (normal_be_head 256 (foldl decode_digit [] (d :: r))) as (b&t&Eb&Hb); [lia|done|by rewrite V0|].
    rewrite Eb in *. rewrite map_app, map_alpha_zeros in *. cbn [map] in *.
    rewrite leading_split in * by (intros E'; apply Hd, alpha_zero; [by apply Forall_cons in Hds as [? _]|done]).
    split. { apply bytes_ok_app. split; [apply zeros_ok|apply N]. }
    destruct (encode_digits_spec k b t (proj1 N) Hb) as [N2 V2].
    assert (encode_digits (zeros k ++ b :: t) = d :: r) as E2.
    { apply (normal_be_unique 58); [lia|done|by apply normal_be_cons|]. by rewrite V2, V0. }
    unfold base58_encode. fold alpha. rewrite E2. unfold zeros. rewrite leading_split by done.
    by destruct (replicate k 0 ++ b :: t) eqn:E3; [destruct k|].
  - exfalso. assert (exists k, ds = zeros k) as [k ->].
    { clear -Hz. induction ds as [|d ds IH]; [by exists 0%nat|]. cbn in Hz.
      apply orb_false_iff in Hz as [Hd Hz]. destruct (IH Hz) as [k ->]. exists (S k).
      apply negb_false_iff, Z.eqb_eq in Hd as ->. done. }
    rewrite foldl_decode_zeros, app_nil_r in Hnz.
    clear -Hnz. induction (leading 49 _) as [|n IH]; [done|]. by apply IH.
Qed.

(** ** Checksummed strings *)
Section check_laws.
  Context {H : Hashes} {L : HashesLaws H}.

Lemma has_nonzero_app l1 l2 : has_nonzero (l1 ++ l2) = has_nonzero l1 || has_nonzero l2.
Proof. apply existsb_app. Qed.

Lemma length_checksum payload : length (take 4 (sha256d payload)) = 4%nat.
Proof. rewrite length_take. destruct (sha256d_array payload) as [-> _]. done. Qed.

Lemma base58check_decode_eq payload :
  bytes_ok payload -> has_nonzero payload = true ->
  base58check_decode (base58check_encode payload) = Ok payload.
Proof.
  intros Hok Hnz. pose proof (length_checksum payload) as Hc.
  unfold base58check_decode, base58check_encode. rewrite base58_roundtrip.
  - cbn [mbind result_bind]. rewrite length_app, Hc.
    replace (Nat.ltb _ _) with false by (symmetry; apply Nat.ltb_ge; lia).
    replace (length payload + 4 - 4)%nat with (length payload) by lia.
    rewrite take_app_length, drop_app_length. by rewrite bool_decide_eq_true_2.
  - apply bytes_ok_app. split; [done|]. apply bytes_ok_take, sha256d_array.
  - by rewrite has_nonzero_app, Hnz.
Qed.

Lemma base58check_decode_inv s payload :
  base58check_decode s = Ok payload -> has_nonzero payload = true ->
  bytes_ok payload /\ base58check_encode payload = s.
Proof.
  unfold base58check_decode. intros Hd Hnz. apply bind_Ok in Hd as (bs&Hb&Hd).
  destruct (Nat.ltb_spec (length bs) 4); [done|]. case_bool_decide as Hc; [|done].
  injection Hd as <-.
  assert (E : bs = take (length bs - 4) bs ++ take 4 (sha256d (take (length bs - 4) bs))).
  { rewrite <- Hc. symmetry. apply take_drop. }
  destruct (base58_canonical s bs Hb) as [Hok He].
  { rewrite E, has_nonzero_app, Hnz. done. }
  split; [by apply bytes_ok_take|]. unfold base58check_encode. by rewrite <- E.
Qed.
End check_laws.

(** ** Script shapes *)
Lemma at_is_true s i b : at_is s i b = true <-> s !! i = Some b.
Proof.
  unfold at_is. destruct (s !! i); [|done]. rewrite Z.eqb_eq. split; [by intros ->|by intros [=]].
Qed.

Lemma is_p2pkh_spec s :
  is_p2pkh s = true <-> s = p2pkh_script (slice s 3 23) /\ length (slice s 3 23) = 20%nat.
Proof.
  unfold is_p2pkh. rewrite !andb_true_iff, !at_is_true, Nat.eqb_eq. split.
  - intros (((((Hl&H0)&H1)&H2)&H23)&H24). do 25 (destruct s as [|? s]; [done|]).
    destruct s; [|done]. cbn in *. by simplify_eq.
  - intros [E Hl]. revert E Hl. generalize (slice s 3 23) as h. intros h -> Hl.
    do 20 (destruct h as [|? h]; [done|]). by destruct h.
Qed.

Lemma is_p2sh_spec s :
  is_p2sh s = true <-> s = p2sh_script (slice s 2 22) /\ length (slice s 2 22) = 20%nat.
Proof.
  unfold is_p2sh. rewrite !andb_true_iff, !at_is_true, Nat.eqb_eq. split.
  - intros (((Hl&H0)&H1)&H22). do 23 (destruct s as [|? s]; [done|]).
    destruct s; [|done]. cbn in *. by simplify_eq.
  - intros [E Hl]. revert E Hl. generalize (slice s 2 22) as h. intros h -> Hl.
    do 20 (destruct h as [|? h]; [done|]). by destruct h.
Qed.

Lemma slice_p2pkh h : length h = 20%nat -> slice (p2pkh_script h) 3 23 = h.
Proof. intros Hl. apply (slice_at [OP_DUP; OP_HASH160; 0x14] h); cbn; lia. Qed.
Lemma slice_p2sh h : length h = 20%nat -> slice (p2sh_script h) 2 22 = h.
Proof. intros Hl. apply (slice_at [OP_HASH160; 0x14] h); cbn; lia. Qed.

Lemma is_p2pkh_script h : length h = 20%nat -> is_p2pkh (p2pkh_script h) = true.
Proof. intros Hl. apply is_p2pkh_spec. by rewrite slice_p2pkh. Qed.
Lemma is_p2sh_script h :
  length h = 20%nat -> is_p2sh (p2sh_script h) = true /\ is_p2pkh (p2sh_script h) = false.
Proof.
  intros Hl. split; [apply is_p2sh_spec; by rewrite slice_p2sh|].
  unfold is_p2pkh, p2sh_script. by rewrite !length_app, Hl.
Qed.

Lemma bytes_ok_slice bs i j : bytes_ok bs -> bytes_ok (slice bs i j).
Proof. intros. unfold slice. auto with bytes. Qed.

(** The two prefixes of a network differ and are not zero. *)
Lemma prefixes_facts n :
  let '(a, b) := network_prefixes n in
  length a = 2%nat /\ length b = 2%nat /\ bytes_ok a /\ bytes_ok b /\ has_nonzero a = true
  /\ has_nonzero b = true /\ forall h, starts_with (b ++ h) a = false.
Proof. destruct n; cbn; split_and!; try done; try by_decide. Qed.

(** ** Properties *)

(** Addresses and standard scripts correspond one to one on every network:
    a string is the address of a script exactly when it decodes to that
    script.  Hence encoding then decoding is the identity, and no script has
    two addresses. *)
Theorem address_script_bijection (H : Hashes) (L : HashesLaws H) (script address : bytes)
    (n : Network) (Hok : bytes_ok script) :
  script_pubkey_to_address script n = Some address
  <-> address_to_script_pubkey address n = Ok script.
Proof.
  unfold script_pubkey_to_address, address_to_script_pubkey.
  pose proof (prefixes_facts n) as Hp. destruct (network_prefixes n) as [a b].
  destruct Hp as (La&Lb&Oa&Ob&Za&Zb&Hab). split.
  - destruct (is_p2pkh script) eqn:E1; [|destruct (is_p2sh script) eqn:E2; [|done]]; intros [= <-].
    + apply is_p2pkh_spec in E1 as [E Hl]. rewrite base58check_decode_eq.
      * cbn [mbind result_bind]. rewrite starts_with_app, drop_app_length, Hl. cbn [Nat.eqb negb].
        by rewrite <- E.
      * apply bytes_ok_app; auto using bytes_ok_slice.
      * by rewrite has_nonzero_app, Za.
    + apply is_p2sh_spec in E2 as [E Hl]. rewrite base58check_decode_eq.
      * cbn [mbind result_bind]. rewrite Hab, starts_with_app, drop_app_length, Hl.
        cbn [Nat.eqb negb]. by rewrite <- E.
      * apply bytes_ok_app; auto using bytes_ok_slice.
      * by rewrite has_nonzero_app, Zb.
  - intros Hd. apply bind_Ok in Hd as (payload&Hc&Hd).
    destruct (starts_with payload a) eqn:E1; [|destruct (starts_with payload b) eqn:E2; [|done]].
    + apply starts_with_spec in E1 as [h ->]. rewrite drop_app_length in Hd.
      destruct (Nat.eqb_spec (length h) 20) as [Hl|]; [|done]. injection Hd as <-.
      rewrite is_p2pkh_script, slice_p2pkh by done. f_equal.
      apply base58check_decode_inv in Hc as [_ Hc]; [done|]. by rewrite has_nonzero_app, Za.
    + apply starts_with_spec in E2 as [h ->]. rewrite drop_app_length in Hd.
      destruct (Nat.eqb_spec (length h) 20) as [Hl|]; [|done]. injection Hd as <-.
      destruct (is_p2sh_script h Hl) as [-> ->]. rewrite slice_p2sh by done. f_equal.
      apply base58check_decode_inv in Hc as [_ Hc]; [done|]. by rewrite has_nonzero_app, Zb.
Qed.

Definition sample_hash20 : bytes := map Z.of_nat (seq 1 20).
Definition sample_address : bytes :=
  default [] (script_pubkey_to_address (p2pkh_script sample_hash20) Mainnet).

Lemma address_script_bijection_witness :
  script_pubkey_to_address (p2pkh_script sample_hash20) Mainnet = Some sample_address
  <-> address_to_script_pubkey sample_address Mainnet = Ok (p2pkh_script sample_hash20).
Proof. apply (address_script_bijection toy_hashes toy_hashes_laws); by_decide. Defined.

(** Secret keys and their wallet-import strings correspond one to one: a
    string is what a 32-byte key exports to exactly when it imports to that
    key with the same compression flag. *)
Theorem wif_bijection (H : Hashes) (L : HashesLaws H) (secret wif : bytes) (n : Network)
    (compressed : bool) (Hs : array 32 secret) :
  secret_key_to_wif secret n compressed = wif
  <-> wif_to_secret_key wif n = Ok (secret, compressed).
Proof.
  assert (Hz : forall t, has_nonzero ([wif_prefix n] ++ t) = true) by (intros; by destruct n).
  destruct Hs as [Hl Hok]. unfold secret_key_to_wif, wif_to_secret_key. split.
  - intros <-. rewrite base58check_decode_eq; [|apply bytes_ok_app; split|apply Hz].
    + cbn [mbind result_bind index app length Nat.eqb lookup list_lookup]. rewrite Z.eqb_refl.
      rewrite length_app, Hl.
      assert (Es : forall t, slice (wif_prefix n :: secret ++ t) 1 33 = secret).
      { intros t. apply (slice_at [wif_prefix n] secret t); cbn; lia. }
      destruct compressed; cbn [negb length Nat.add Nat.eqb andb].
      * assert (at_is (wif_prefix n :: secret ++ [1]) 33 1 = true) as ->; [|by rewrite Es].
        apply at_is_true. change (wif_prefix n :: secret ++ [1]) with ((wif_prefix n :: secret) ++ [1]).
        rewrite lookup_app_r by (cbn [length]; lia). cbn [length]. by rewrite Hl.
      * by rewrite Es.
    + destruct n; by_decide.
    + apply bytes_ok_app. split; [done|]. destruct compressed; by_decide.
  - intros Hd. apply bind_Ok in Hd as (payload&Hc&Hd).
    destruct payload as [|b0 payload]; [done|]. cbn [length Nat.eqb index lookup list_lookup mbind result_bind] in Hd.
    destruct (Z.eqb_spec b0 (wif_prefix n)) as [->|]; [|done]. cbn [negb] in Hd.
    apply base58check_decode_inv in Hc as [_ Hc]; [|apply (Hz payload)]. subst wif.
    destruct (Nat.eqb_spec (length payload) 32) as [H32|H32].
    + injection Hd as <- <-.
      change (slice (wif_prefix n :: payload) 1 33) with (take 32 payload).
      rewrite take_ge, app_nil_r by (cbn; lia). done.
    + destruct (Nat.eqb_spec (length payload) 33) as [H33|]; [|done].
      destruct (at_is _ 33 1) eqn:E1; [|done]. injection Hd as <- <-.
      change (slice (wif_prefix n :: payload) 1 33) with (take 32 payload).
      apply at_is_true in E1. change (payload !! 32%nat = Some 1) in E1.
      f_equal. cbn [app]. f_equal.
      rewrite <- (take_drop 32 payload) at 2. f_equal. by rewrite (drop_S _ _ _ E1), drop_ge by lia.
Qed.

Lemma wif_bijection_witness :
  secret_key_to_wif (replicate 32 7) Mainnet true
    = secret_key_to_wif (replicate 32 7) Mainnet true
  <-> wif_to_secret_key (secret_key_to_wif (replicate 32 7) Mainnet true) Mainnet
      = Ok (replicate 32 7, true).
Proof. apply (wif_bijection toy_hashes toy_hashes_laws); by_decide. Defined.
