(* ===== verification/Transaction.v ===== *)
(** * Transactions ([primitives/src/outpoint.rs], [primitives/src/transaction.rs])

    The transaction data types and their consensus serialization: every
    format the node accepts (plain, Overwinter v3, Sapling v4, fluxnode v5
    and v6), with and without signatures. *)

From S2P Require Import Prelude Encoding Hashing.
From Stdlib Require Import ZArith Lia.
From stdpp Require Import base list option numbers strings.
#[local] Open Scope Z_scope.

(** ** Outpoints *)
Record OutPoint := mkOutPoint { hash : Hash256; op_index : Z }.

#[global] Instance OutPoint_eq_dec : EqDecision OutPoint.
Proof. solve_decision. Defined.

Definition OutPoint_null : OutPoint := mkOutPoint (zeros 32) u32_max.

#[global] Instance OutPoint_encode : Encodable OutPoint := fun o =>
  write_hash_le (hash o) ++ write_u32_le (op_index o).

#[global] Instance OutPoint_decode : Decodable OutPoint :=
  hash ← read_hash_le;
  index ← read_u32_le;
  mret (mkOutPoint hash index).

Definition OutPoint_wf (o : OutPoint) : Prop := array 32 (hash o) /\ is_u32 (op_index o).

#[global] Program Instance OutPoint_codec : Codec OutPoint := {| wf := OutPoint_wf |}.
Next Obligation. intros [h i] [Hh Hi]; simpl in *. unfold consensus_decode, OutPoint_decode. solve_reads. Qed.
Next Obligation. unfold consensus_decode, OutPoint_decode. solve_parses. done. Qed.

(** ** Constants *)
Definition OVERWINTER_VERSION_GROUP_ID : Z := 0x03C48270.
Definition SAPLING_VERSION_GROUP_ID : Z := 0x892F2085.
Definition FLUXNODE_TX_VERSION : Z := 5.
Definition FLUXNODE_TX_UPGRADEABLE_VERSION : Z := 6.
Definition FLUXNODE_INTERNAL_NORMAL_TX_VERSION : Z := 1.
Definition FLUXNODE_INTERNAL_P2SH_TX_VERSION : Z := 2.
Definition FLUXNODE_TX_TYPE_NORMAL_BIT : Z := 0x01.
Definition FLUXNODE_TX_TYPE_P2SH_BIT : Z := 0x02.
Definition FLUXNODE_TX_FEATURE_DELEGATES_BIT : Z := 0x0100.
Definition FLUXNODE_START_TX_TYPE : Z := 2.
Definition FLUXNODE_CONFIRM_TX_TYPE : Z := 4.
Definition ZC_NUM_JS_INPUTS : nat := 2.
Definition ZC_NUM_JS_OUTPUTS : nat := 2.
Definition ZC_NOTE_CIPHERTEXT_SIZE : nat := 601.
Definition SAPLING_ENC_CIPHERTEXT_SIZE : nat := 580.
Definition SAPLING_OUT_CIPHERTEXT_SIZE : nat := 80.
Definition GROTH_PROOF_SIZE : nat := 192.
Definition PHGR_PROOF_SIZE : nat := 296.

Definition has_conflicting_bits (version : Z) : bool :=
  negb (Z.land version FLUXNODE_TX_TYPE_NORMAL_BIT =? 0)
  && negb (Z.land version FLUXNODE_TX_TYPE_P2SH_BIT =? 0).

Definition is_flux_tx_normal_type (version : Z) (include_bit_check : bool) : bool :=
  if include_bit_check then
    if has_conflicting_bits version then false
    else negb (Z.land version FLUXNODE_TX_TYPE_NORMAL_BIT =? 0)
         || (version =? FLUXNODE_INTERNAL_NORMAL_TX_VERSION)
  else version =? FLUXNODE_INTERNAL_NORMAL_TX_VERSION.

Definition is_flux_tx_p2sh_type (version : Z) (include_bit_check : bool) : bool :=
  if include_bit_check then
    if has_conflicting_bits version then false
    else negb (Z.land version FLUXNODE_TX_TYPE_P2SH_BIT =? 0)
         || (version =? FLUXNODE_INTERNAL_P2SH_TX_VERSION)
  else version =? FLUXNODE_INTERNAL_P2SH_TX_VERSION.

Definition has_flux_tx_delegates_feature (version : Z) : bool :=
  negb (Z.land version FLUXNODE_TX_FEATURE_DELEGATES_BIT =? 0).

(** ** Errors *)
Inductive TransactionDecodeError :=
| Decode (error : DecodeError)
| InvalidTransactionFormat (message : string).

Inductive TransactionEncodeError :=
| EncodeInvalidTransactionFormat (message : string).

#[global] Instance TransactionDecodeError_eq_dec : EqDecision TransactionDecodeError.
Proof. solve_decision. Defined.
#[global] Instance TransactionEncodeError_eq_dec : EqDecision TransactionEncodeError.
Proof. solve_decision. Defined.

(** ** Inputs and outputs *)
Record TxIn := mkTxIn { prevout : OutPoint; script_sig : bytes; sequence : Z }.
Record TxOut := mkTxOut { value : Z; script_pubkey : bytes }.

#[global] Instance TxIn_encode : Encodable TxIn := fun i =>
  consensus_encode (prevout i) ++ write_var_bytes (script_sig i) ++ write_u32_le (sequence i).
#[global] Instance TxIn_decode : Decodable TxIn :=
  prevout ← consensus_decode;
  script_sig ← read_var_bytes;
  sequence ← read_u32_le;
  mret (mkTxIn prevout script_sig sequence).

#[global] Instance TxOut_encode : Encodable TxOut := fun o =>
  write_i64_le (value o) ++ write_var_bytes (script_pubkey o).
#[global] Instance TxOut_decode : Decodable TxOut :=
  value ← read_i64_le;
  script_pubkey ← read_var_bytes;
  mret (mkTxOut value script_pubkey).

(** ** Shielded components *)
Inductive SproutProof :=
| Groth (proof : bytes)
| Phgr (proof : bytes).

Record SpendDescription := mkSpendDescription {
  sd_cv : Hash256; sd_anchor : Hash256; sd_nullifier : Hash256; sd_rk : Hash256;
  sd_zkproof : bytes; spend_auth_sig : bytes }.

#[global] Instance SpendDescription_encode : Encodable SpendDescription := fun s =>
  write_hash_le (sd_cv s) ++ write_hash_le (sd_anchor s) ++ write_hash_le (sd_nullifier s)
  ++ write_hash_le (sd_rk s) ++ write_bytes (sd_zkproof s) ++ write_bytes (spend_auth_sig s).
#[global] Instance SpendDescription_decode : Decodable SpendDescription :=
  cv ← read_hash_le;
  anchor ← read_hash_le;
  nullifier ← read_hash_le;
  rk ← read_hash_le;
  zkproof ← read_fixed GROTH_PROOF_SIZE;
  spend_auth_sig ← read_fixed 64;
  mret (mkSpendDescription cv anchor nullifier rk zkproof spend_auth_sig).

Record OutputDescription := mkOutputDescription {
  od_cv : Hash256; od_cm : Hash256; od_ephemeral_key : Hash256;
  enc_ciphertext : bytes; out_ciphertext : bytes; od_zkproof : bytes }.

#[global] Instance OutputDescription_encode : Encodable OutputDescription := fun o =>
  write_hash_le (od_cv o) ++ write_hash_le (od_cm o) ++ write_hash_le (od_ephemeral_key o)
  ++ write_bytes (enc_ciphertext o) ++ write_bytes (out_ciphertext o) ++ write_bytes (od_zkproof o).
#[global] Instance OutputDescription_decode : Decodable OutputDescription :=
  cv ← read_hash_le;
  cm ← read_hash_le;
  ephemeral_key ← read_hash_le;
  enc_ciphertext ← read_fixed SAPLING_ENC_CIPHERTEXT_SIZE;
  out_ciphertext ← read_fixed SAPLING_OUT_CIPHERTEXT_SIZE;
  zkproof ← read_fixed GROTH_PROOF_SIZE;
  mret (mkOutputDescription cv cm ephemeral_key enc_ciphertext out_ciphertext zkproof).

Record JoinSplit := mkJoinSplit {
  vpub_old : Z; vpub_new : Z; js_anchor : Hash256;
  nullifiers : list Hash256; commitments : list Hash256;
  js_ephemeral_key : Hash256; random_seed : Hash256; macs : list Hash256;
  js_proof : SproutProof; ciphertexts : list bytes }.

(** [JoinSplit::consensus_encode_with]. *)
Definition JoinSplit_encode_with (use_groth : bool) (j : JoinSplit)
    : result TransactionEncodeError bytes :=
  proof ← match js_proof j, use_groth with
          | Groth proof, true => Ok (write_bytes proof)
          | Phgr proof, false => Ok (write_bytes proof)
          | _, _ => Err (EncodeInvalidTransactionFormat
                           "joinsplit proof does not match transaction format")
          end;
  Ok (write_i64_le (vpub_old j) ++ write_i64_le (vpub_new j) ++ write_hash_le (js_anchor j)
      ++ write_list write_hash_le (nullifiers j) ++ write_list write_hash_le (commitments j)
      ++ write_hash_le (js_ephemeral_key j) ++ write_hash_le (random_seed j)
      ++ write_list write_hash_le (macs j) ++ proof
      ++ write_list write_bytes (ciphertexts j)).

Definition JoinSplit_decode_with (use_groth : bool) : parser DecodeError JoinSplit :=
  vpub_old ← read_i64_le;
  vpub_new ← read_i64_le;
  anchor ← read_hash_le;
  nullifiers ← read_n ZC_NUM_JS_INPUTS read_hash_le;
  commitments ← read_n ZC_NUM_JS_OUTPUTS read_hash_le;
  ephemeral_key ← read_hash_le;
  random_seed ← read_hash_le;
  macs ← read_n ZC_NUM_JS_INPUTS read_hash_le;
  proof ← (if use_groth then p ← read_fixed GROTH_PROOF_SIZE; mret (Groth p)
           else p ← read_fixed PHGR_PROOF_SIZE; mret (Phgr p));
  ciphertexts ← read_n ZC_NUM_JS_OUTPUTS (read_fixed ZC_NOTE_CIPHERTEXT_SIZE);
  mret (mkJoinSplit vpub_old vpub_new anchor nullifiers commitments ephemeral_key
          random_seed macs proof ciphertexts).

(** ** Fluxnode payloads *)
Record FluxnodeDelegates := mkDelegates {
  delegates_version : Z; delegates_kind : Z; delegate_starting_keys : list bytes }.

Definition MAX_PUBKEYS_LENGTH : nat := 4.
Definition DELEGATES_INITIAL_VERSION : Z := 1.
Definition DELEGATES_NONE : Z := 0.
Definition DELEGATES_UPDATE : Z := 1.
Definition DELEGATES_SIGNING : Z := 2.

#[global] Instance FluxnodeDelegates_encode : Encodable FluxnodeDelegates := fun d =>
  write_u8 (delegates_version d) ++ write_u8 (delegates_kind d)
  ++ (if (delegates_version d =? DELEGATES_INITIAL_VERSION) && (delegates_kind d =? DELEGATES_UPDATE)
      then write_varint (Z.of_nat (length (delegate_starting_keys d)))
           ++ write_list write_var_bytes (delegate_starting_keys d)
      else []).
#[global] Instance FluxnodeDelegates_decode : Decodable FluxnodeDelegates :=
  version ← read_u8;
  kind ← read_u8;
  delegate_starting_keys ←
    (if (version =? DELEGATES_INITIAL_VERSION) && (kind =? DELEGATES_UPDATE)
     then count ← read_count; read_n count read_var_bytes
     else mret []);
  mret (mkDelegates version kind delegate_starting_keys).

Record FluxnodeConfirmTx := mkConfirm {
  confirm_collateral : OutPoint; confirm_sig_time : Z; benchmark_tier : Z;
  benchmark_sig_time : Z; update_type : Z; ip : bytes;
  confirm_sig : bytes; benchmark_sig : bytes }.

Record FluxnodeStartV5 := mkStartV5 {
  start5_collateral : OutPoint; start5_collateral_pubkey : bytes; start5_pubkey : bytes;
  start5_sig_time : Z; start5_sig : bytes }.

Inductive FluxnodeStartVariantV6 :=
| Normal (collateral : OutPoint) (collateral_pubkey pubkey : bytes) (sig_time : Z) (sig : bytes)
| P2sh (collateral : OutPoint) (pubkey redeem_script : bytes) (sig_time : Z) (sig : bytes).

Record FluxnodeStartV6 := mkStartV6 {
  flux_tx_version : Z; variant : FluxnodeStartVariantV6;
  using_delegates : bool; delegates : option FluxnodeDelegates }.

Inductive FluxnodeTxV5 := StartV5 (start : FluxnodeStartV5) | ConfirmV5 (confirm : FluxnodeConfirmTx).
Inductive FluxnodeTxV6 := StartV6 (start : FluxnodeStartV6) | ConfirmV6 (confirm : FluxnodeConfirmTx).
Inductive FluxnodeTx := V5 (body : FluxnodeTxV5) | V6 (body : FluxnodeTxV6).

(** A signature field, absent from the form that is hashed. *)
Definition write_sig (include_signatures : bool) (sig : bytes) : bytes :=
  if include_signatures then write_var_bytes sig else [].
Definition read_sig (include_signatures : bool) : parser DecodeError bytes :=
  if include_signatures then read_var_bytes else mret [].

(** The confirm body, written the same way in v5 and v6. *)
Definition encode_fluxnode_confirm (include_signatures : bool) (c : FluxnodeConfirmTx) : bytes :=
  consensus_encode (confirm_collateral c) ++ write_u32_le (confirm_sig_time c)
  ++ write_u8 (benchmark_tier c) ++ write_u32_le (benchmark_sig_time c)
  ++ write_u8 (update_type c) ++ write_var_str (ip c)
  ++ write_sig include_signatures (confirm_sig c)
  ++ write_sig include_signatures (benchmark_sig c).

Definition decode_fluxnode_confirm (include_signatures : bool) : parser DecodeError FluxnodeConfirmTx :=
  collateral ← consensus_decode;
  sig_time ← read_u32_le;
  benchmark_tier ← read_u8;
  benchmark_sig_time ← read_u32_le;
  update_type ← read_u8;
  ip ← read_var_str;
  sig ← read_sig include_signatures;
  benchmark_sig ← read_sig include_signatures;
  mret (mkConfirm collateral sig_time benchmark_tier benchmark_sig_time update_type ip sig benchmark_sig).

Definition encode_fluxnode_v5 (fluxnode : FluxnodeTx) (include_signatures : bool)
    : result TransactionEncodeError bytes :=
  match fluxnode with
  | V5 (StartV5 start) =>
      Ok (write_u8 FLUXNODE_START_TX_TYPE
          ++ consensus_encode (start5_collateral start)
          ++ write_var_bytes (start5_collateral_pubkey start)
          ++ write_var_bytes (start5_pubkey start)
          ++ write_u32_le (start5_sig_time start)
          ++ write_sig include_signatures (start5_sig start))
  | V5 (ConfirmV5 confirm) =>
      Ok (write_u8 FLUXNODE_CONFIRM_TX_TYPE ++ encode_fluxnode_confirm include_signatures confirm)
  | V6 _ => Err (EncodeInvalidTransactionFormat "expected v5 fluxnode payload")
  end.

Definition decode_fluxnode_v5 (include_signatures : bool)
    : parser TransactionDecodeError FluxnodeTxV5 :=
  tx_type ← lift Decode read_u8;
  if tx_type =? FLUXNODE_START_TX_TYPE then
    lift Decode (
      collateral ← consensus_decode;
      collateral_pubkey ← read_var_bytes;
      pubkey ← read_var_bytes;
      sig_time ← read_u32_le;
      sig ← read_sig include_signatures;
      mret (StartV5 (mkStartV5 collateral collateral_pubkey pubkey sig_time sig)))
  else if tx_type =? FLUXNODE_CONFIRM_TX_TYPE then
    lift Decode (confirm ← decode_fluxnode_confirm include_signatures; mret (ConfirmV5 confirm))
  else fail (InvalidTransactionFormat "unknown fluxnode v5 transaction type").

(** The two start layouts a v6 version word selects. *)
Definition v6_is_normal (v : Z) : bool :=
  is_flux_tx_normal_type v true && (Z.land v FLUXNODE_TX_TYPE_P2SH_BIT =? 0).
Definition v6_is_p2sh (v : Z) : bool := is_flux_tx_p2sh_type v true.

Definition encode_variant_v6 (v : Z) (x : FluxnodeStartVariantV6) (include_signatures : bool)
    : result TransactionEncodeError bytes :=
  if v6_is_normal v then
    match x with
    | Normal collateral collateral_pubkey pubkey sig_time sig =>
        Ok (consensus_encode collateral ++ write_var_bytes collateral_pubkey
            ++ write_var_bytes pubkey ++ write_u32_le sig_time ++ write_sig include_signatures sig)
    | P2sh _ _ _ _ _ => Err (EncodeInvalidTransactionFormat "fluxnode v6 normal start missing fields")
    end
  else if v6_is_p2sh v then
    match x with
    | P2sh collateral pubkey redeem_script sig_time sig =>
        Ok (consensus_encode collateral ++ write_var_bytes pubkey
            ++ write_var_bytes redeem_script ++ write_u32_le sig_time ++ write_sig include_signatures sig)
    | Normal _ _ _ _ _ => Err (EncodeInvalidTransactionFormat "fluxnode v6 p2sh start missing fields")
    end
  else Err (EncodeInvalidTransactionFormat "fluxnode v6 start has invalid version bits").

Definition encode_delegates_v6 (start : FluxnodeStartV6) : result TransactionEncodeError bytes :=
  if has_flux_tx_delegates_feature (flux_tx_version start) then
    if using_delegates start then
      d ← ok_or (delegates start)
            (EncodeInvalidTransactionFormat "missing delegates data for fluxnode v6 start");
      Ok (write_bool true ++ consensus_encode d)
    else Ok (write_bool false)
  else Ok [].

Definition encode_fluxnode_v6 (fluxnode : FluxnodeTx) (include_signatures : bool)
    : result TransactionEncodeError bytes :=
  match fluxnode with
  | V6 (StartV6 start) =>
      variant_bytes ← encode_variant_v6 (flux_tx_version start) (variant start) include_signatures;
      delegates_bytes ← encode_delegates_v6 start;
      Ok (write_u8 FLUXNODE_START_TX_TYPE ++ write_i32_le (flux_tx_version start)
          ++ variant_bytes ++ delegates_bytes)
  | V6 (ConfirmV6 confirm) =>
      Ok (write_u8 FLUXNODE_CONFIRM_TX_TYPE ++ encode_fluxnode_confirm include_signatures confirm)
  | V5 _ => Err (EncodeInvalidTransactionFormat "expected v6 fluxnode payload")
  end.

Definition decode_variant_v6 (v : Z) (include_signatures : bool)
    : parser TransactionDecodeError FluxnodeStartVariantV6 :=
  if v6_is_normal v then
    lift Decode (
      collateral ← consensus_decode;
      collateral_pubkey ← read_var_bytes;
      pubkey ← read_var_bytes;
      sig_time ← read_u32_le;
      sig ← read_sig include_signatures;
      mret (Normal collateral collateral_pubkey pubkey sig_time sig))
  else if v6_is_p2sh v then
    lift Decode (
      collateral ← consensus_decode;
      pubkey ← read_var_bytes;
      redeem_script ← read_var_bytes;
      sig_time ← read_u32_le;
      sig ← read_sig include_signatures;
      mret (P2sh collateral pubkey redeem_script sig_time sig))
  else fail (InvalidTransactionFormat "fluxnode v6 start has invalid version bits").

Definition decode_delegates_v6 (v : Z) : parser DecodeError (bool * option FluxnodeDelegates) :=
  if has_flux_tx_delegates_feature v then
    using_delegates ← read_bool;
    delegates ← (if using_delegates : bool then d ← consensus_decode; mret (Some d) else mret None);
    mret (using_delegates, delegates)
  else mret (false, None).

Definition decode_fluxnode_v6 (include_signatures : bool)
    : parser TransactionDecodeError FluxnodeTxV6 :=
  tx_type ← lift Decode read_u8;
  if tx_type =? FLUXNODE_START_TX_TYPE then
    flux_tx_version ← lift Decode read_i32_le;
    variant ← decode_variant_v6 flux_tx_version include_signatures;
    ud ← lift Decode (decode_delegates_v6 flux_tx_version);
    mret (StartV6 (mkStartV6 flux_tx_version variant (fst ud) (snd ud)))
  else if tx_type =? FLUXNODE_CONFIRM_TX_TYPE then
    lift Decode (confirm ← decode_fluxnode_confirm include_signatures; mret (ConfirmV6 confirm))
  else fail (InvalidTransactionFormat "unknown fluxnode v6 transaction type").

(** ** Transactions *)
Record Transaction := mkTransaction {
  f_overwintered : bool; version : Z; version_group_id : Z;
  vin : list TxIn; vout : list TxOut; lock_time : Z; expiry_height : Z;
  value_balance : Z;
  shielded_spends : list SpendDescription; shielded_outputs : list OutputDescription;
  join_splits : list JoinSplit; join_split_pub_key : bytes; join_split_sig : bytes;
  binding_sig : bytes; fluxnode : option FluxnodeTx }.

(** [Transaction::header]: the version with the overwintered flag in bit 31. *)
Definition tx_header (tx : Transaction) : Z :=
  let header := wrap_u32 (version tx) in
  if f_overwintered tx then Z.lor header (Z.shiftl 1 31) else header.

Definition is_overwinter_v3 (f_overwintered : bool) (version_group_id version : Z) : bool :=
  f_overwintered && (version_group_id =? OVERWINTER_VERSION_GROUP_ID) && (version =? 3).
Definition is_sapling_v4 (f_overwintered : bool) (version_group_id version : Z) : bool :=
  f_overwintered && (version_group_id =? SAPLING_VERSION_GROUP_ID) && (version =? 4).

(** A loop whose body can fail, [for x in l { ...(x)?; }], collecting bytes. *)
Fixpoint encode_each {A} (f : A -> result TransactionEncodeError bytes) (l : list A)
    : result TransactionEncodeError bytes :=
  match l with
  | [] => Ok []
  | x :: l => b ← f x; bs ← encode_each f l; Ok (b ++ bs)
  end.

Definition is_nil {A} (l : list A) : bool := match l with [] => true | _ => false end.

Definition encode_join_splits (tx : Transaction) : result TransactionEncodeError bytes :=
  if version tx >=? 2 then
    let use_groth := f_overwintered tx && (version tx >=? 4) in
    js ← encode_each (JoinSplit_encode_with use_groth) (join_splits tx);
    Ok (write_varint (Z.of_nat (length (join_splits tx))) ++ js
        ++ (if negb (is_nil (join_splits tx))
            then write_bytes (join_split_pub_key tx) ++ write_bytes (join_split_sig tx)
            else []))
  else Ok [].

(** The body of a transaction that is not a fluxnode transaction. *)
Definition encode_regular (tx : Transaction) : result TransactionEncodeError bytes :=
  let ow3 := is_overwinter_v3 (f_overwintered tx) (version_group_id tx) (version tx) in
  let sap4 := is_sapling_v4 (f_overwintered tx) (version_group_id tx) (version tx) in
  if f_overwintered tx && negb (ow3 || sap4) then
    Err (EncodeInvalidTransactionFormat "unknown overwinter transaction format")
  else
    js ← encode_join_splits tx;
    Ok (write_vec (vin tx) ++ write_vec (vout tx) ++ write_u32_le (lock_time tx)
        ++ (if ow3 || sap4 then write_u32_le (expiry_height tx) else [])
        ++ (if sap4 then write_i64_le (value_balance tx) ++ write_vec (shielded_spends tx)
                         ++ write_vec (shielded_outputs tx)
            else [])
        ++ js
        ++ (if sap4 && negb (is_nil (shielded_spends tx) && is_nil (shielded_outputs tx))
            then write_bytes (binding_sig tx) else [])).

(** [Transaction::encode_with_mode]: the version word and group id, then the
    body its version selects. *)
Definition encode_body (include_signatures : bool) (tx : Transaction)
    : result TransactionEncodeError bytes :=
  if version tx =? FLUXNODE_TX_VERSION then
    if f_overwintered tx then
      Err (EncodeInvalidTransactionFormat "fluxnode tx must not be overwintered")
    else
      payload ← ok_or (fluxnode tx)
        (EncodeInvalidTransactionFormat "missing fluxnode payload for v5");
      encode_fluxnode_v5 payload include_signatures
  else if version tx =? FLUXNODE_TX_UPGRADEABLE_VERSION then
    if f_overwintered tx then
      Err (EncodeInvalidTransactionFormat "fluxnode tx must not be overwintered")
    else
      payload ← ok_or (fluxnode tx)
        (EncodeInvalidTransactionFormat "missing fluxnode payload for v6");
      encode_fluxnode_v6 payload include_signatures
  else encode_regular tx.

Definition encode_with_mode (include_signatures : bool) (tx : Transaction)
    : result TransactionEncodeError bytes :=
  body ← encode_body include_signatures tx;
  Ok (write_u32_le (tx_header tx)
      ++ (if f_overwintered tx then write_u32_le (version_group_id tx) else [])
      ++ body).

Definition tx_consensus_encode (tx : Transaction) := encode_with_mode true tx.
Definition tx_consensus_encode_for_hash (tx : Transaction) := encode_with_mode false tx.

(** [Transaction::txid]. *)
Definition txid `{Hashes} (tx : Transaction) : result TransactionEncodeError Hash256 :=
  bs ← tx_consensus_encode_for_hash tx; Ok (sha256d bs).

(** The transaction a fluxnode payload decodes to. *)
Definition fluxnode_transaction (f_overwintered : bool) (version version_group_id : Z)
    (payload : FluxnodeTx) : Transaction :=
  mkTransaction f_overwintered version version_group_id [] [] 0 0 0 [] [] []
    (zeros 32) (zeros 64) (zeros 64) (Some payload).

Definition decode_join_splits (f_overwintered : bool) (version : Z)
    : parser DecodeError (list JoinSplit * bytes * bytes) :=
  if version >=? 2 then
    count ← read_count;
    let use_groth := f_overwintered && (version >=? 4) in
    join_splits ← read_n count (JoinSplit_decode_with use_groth);
    keys ← (if negb (is_nil join_splits)
            then pk ← read_fixed 32; sig ← read_fixed 64; mret (pk, sig)
            else mret (zeros 32, zeros 64));
    mret (join_splits, fst keys, snd keys)
  else mret ([], zeros 32, zeros 64).

Definition decode_sapling (sap4 : bool)
    : parser DecodeError (Z * list SpendDescription * list OutputDescription) :=
  if sap4 then
    value_balance ← read_i64_le;
    shielded_spends ← read_vec;
    shielded_outputs ← read_vec;
    mret (value_balance, shielded_spends, shielded_outputs)
  else mret (0, [], []).

Definition decode_regular (f_overwintered : bool) (version version_group_id : Z)
    : parser DecodeError Transaction :=
  let ow3 := is_overwinter_v3 f_overwintered version_group_id version in
  let sap4 := is_sapling_v4 f_overwintered version_group_id version in
  vin ← read_vec;
  vout ← read_vec;
  lock_time ← read_u32_le;
  expiry_height ← (if ow3 || sap4 then read_u32_le else mret 0);
  s ← decode_sapling sap4;
  let '(value_balance, shielded_spends, shielded_outputs) := s in
  js ← decode_join_splits f_overwintered version;
  let '(join_splits, join_split_pub_key, join_split_sig) := js in
  binding_sig ← (if sap4 && negb (is_nil shielded_spends && is_nil shielded_outputs)
                 then read_fixed 64 else mret (zeros 64));
  mret (mkTransaction f_overwintered version version_group_id vin vout lock_time expiry_height
          value_balance shielded_spends shielded_outputs join_splits join_split_pub_key
          join_split_sig binding_sig None).

(** [Transaction::decode_from]: the version word and group id, then the body. *)
Definition decode_body (include_signatures f_overwintered : bool) (version version_group_id : Z)
    : parser TransactionDecodeError Transaction :=
  if f_overwintered && negb (is_overwinter_v3 f_overwintered version_group_id version
                             || is_sapling_v4 f_overwintered version_group_id version)
  then fail (InvalidTransactionFormat "unknown overwinter transaction format")
  else if version =? FLUXNODE_TX_VERSION then
    if f_overwintered then fail (InvalidTransactionFormat "fluxnode tx must not be overwintered")
    else
      fluxnode ← decode_fluxnode_v5 include_signatures;
      mret (fluxnode_transaction f_overwintered version version_group_id (V5 fluxnode))
  else if version =? FLUXNODE_TX_UPGRADEABLE_VERSION then
    if f_overwintered then fail (InvalidTransactionFormat "fluxnode tx must not be overwintered")
    else
      fluxnode ← decode_fluxnode_v6 include_signatures;
      mret (fluxnode_transaction f_overwintered version version_group_id (V6 fluxnode))
  else lift Decode (decode_regular f_overwintered version version_group_id).

Definition header_flag (h : Z) : bool := negb (Z.shiftr h 31 =? 0).
Definition header_version (h : Z) : Z := wrap_i32 (Z.land h 0x7fffffff).

Definition decode_from (include_signatures : bool) : parser TransactionDecodeError Transaction :=
  header ← lift Decode read_u32_le;
  version_group_id ← lift Decode (if header_flag header then read_u32_le else mret 0);
  decode_body include_signatures (header_flag header) (header_version header) version_group_id.

Definition decode_with_mode (bs : bytes) (include_signatures : bool)
    : result TransactionDecodeError Transaction :=
  decode_all (Decode TrailingBytes) (decode_from include_signatures) bs.

Definition tx_consensus_decode (bs : bytes) := decode_with_mode bs true.
Definition tx_consensus_decode_for_hash (bs : bytes) := decode_with_mode bs false.

(** ** Well-formed values

    The values each format can carry: integers at their width, arrays at
    their length, variable parts a compact size fits, and every field the
    format leaves out at its default. *)
Definition var_ok (bs : bytes) : Prop := fits_compact bs /\ bytes_ok bs.

Definition TxIn_wf (i : TxIn) : Prop :=
  wf (prevout i) /\ var_ok (script_sig i) /\ is_u32 (sequence i).
Definition TxOut_wf (o : TxOut) : Prop := is_i64 (value o) /\ var_ok (script_pubkey o).
Definition SpendDescription_wf (s : SpendDescription) : Prop :=
  array 32 (sd_cv s) /\ array 32 (sd_anchor s) /\ array 32 (sd_nullifier s) /\ array 32 (sd_rk s)
  /\ array GROTH_PROOF_SIZE (sd_zkproof s) /\ array 64 (spend_auth_sig s).
Definition OutputDescription_wf (o : OutputDescription) : Prop :=
  array 32 (od_cv o) /\ array 32 (od_cm o) /\ array 32 (od_ephemeral_key o)
  /\ array SAPLING_ENC_CIPHERTEXT_SIZE (enc_ciphertext o)
  /\ array SAPLING_OUT_CIPHERTEXT_SIZE (out_ciphertext o)
  /\ array GROTH_PROOF_SIZE (od_zkproof o).
Definition proof_wf (use_groth : bool) (p : SproutProof) : Prop :=
  match p with
  | Groth p => use_groth = true /\ array GROTH_PROOF_SIZE p
  | Phgr p => use_groth = false /\ array PHGR_PROOF_SIZE p
  end.
Definition hashes_wf (n : nat) (l : list Hash256) : Prop := length l = n /\ Forall (array 32) l.
Definition JoinSplit_wf (use_groth : bool) (j : JoinSplit) : Prop :=
  is_i64 (vpub_old j) /\ is_i64 (vpub_new j) /\ array 32 (js_anchor j)
  /\ hashes_wf ZC_NUM_JS_INPUTS (nullifiers j) /\ hashes_wf ZC_NUM_JS_OUTPUTS (commitments j)
  /\ array 32 (js_ephemeral_key j) /\ array 32 (random_seed j)
  /\ hashes_wf ZC_NUM_JS_INPUTS (macs j) /\ proof_wf use_groth (js_proof j)
  /\ (length (ciphertexts j) = ZC_NUM_JS_OUTPUTS
      /\ Forall (array ZC_NOTE_CIPHERTEXT_SIZE) (ciphertexts j)).
Definition FluxnodeDelegates_wf (d : FluxnodeDelegates) : Prop :=
  is_u8 (delegates_version d) /\ is_u8 (delegates_kind d) /\
  if (delegates_version d =? DELEGATES_INITIAL_VERSION) && (delegates_kind d =? DELEGATES_UPDATE)
  then fits_compact (delegate_starting_keys d) /\ Forall var_ok (delegate_starting_keys d)
  else delegate_starting_keys d = [].
Definition sig_wf (include_signatures : bool) (sig : bytes) : Prop :=
  if include_signatures then var_ok sig else sig = [].
Definition FluxnodeConfirmTx_wf (sigs : bool) (c : FluxnodeConfirmTx) : Prop :=
  wf (confirm_collateral c) /\ is_u32 (confirm_sig_time c) /\ is_u8 (benchmark_tier c)
  /\ is_u32 (benchmark_sig_time c) /\ is_u8 (update_type c) /\ str_ok (ip c)
  /\ sig_wf sigs (confirm_sig c) /\ sig_wf sigs (benchmark_sig c).
Definition FluxnodeStartV5_wf (sigs : bool) (s : FluxnodeStartV5) : Prop :=
  wf (start5_collateral s) /\ var_ok (start5_collateral_pubkey s) /\ var_ok (start5_pubkey s)
  /\ is_u32 (start5_sig_time s) /\ sig_wf sigs (start5_sig s).
Definition FluxnodeTxV5_wf (sigs : bool) (t : FluxnodeTxV5) : Prop :=
  match t with StartV5 s => FluxnodeStartV5_wf sigs s | ConfirmV5 c => FluxnodeConfirmTx_wf sigs c end.
Definition variant_wf (sigs : bool) (v : Z) (x : FluxnodeStartVariantV6) : Prop :=
  match x with
  | Normal c cpk pk t s =>
      v6_is_normal v = true /\ wf c /\ var_ok cpk /\ var_ok pk /\ is_u32 t /\ sig_wf sigs s
  | P2sh c pk rs t s =>
      (v6_is_normal v = false /\ v6_is_p2sh v = true)
      /\ wf c /\ var_ok pk /\ var_ok rs /\ is_u32 t /\ sig_wf sigs s
  end.
Definition delegates_wf (v : Z) (u : bool) (d : option FluxnodeDelegates) : Prop :=
  if has_flux_tx_delegates_feature v then
    match d with Some d => u = true /\ FluxnodeDelegates_wf d | None => u = false end
  else u = false /\ d = None.
Definition FluxnodeStartV6_wf (sigs : bool) (s : FluxnodeStartV6) : Prop :=
  is_i32 (flux_tx_version s) /\ variant_wf sigs (flux_tx_version s) (variant s)
  /\ delegates_wf (flux_tx_version s) (using_delegates s) (delegates s).
Definition FluxnodeTxV6_wf (sigs : bool) (t : FluxnodeTxV6) : Prop :=
  match t with StartV6 s => FluxnodeStartV6_wf sigs s | ConfirmV6 c => FluxnodeConfirmTx_wf sigs c end.

Definition js_wf (f : bool) (v : Z) (r : list JoinSplit * bytes * bytes) : Prop :=
  if v >=? 2 then
    (fits_compact r.1.1 /\ Forall (JoinSplit_wf (f && (v >=? 4))) r.1.1)
    /\ if negb (is_nil r.1.1) then array 32 r.1.2 /\ array 64 r.2
       else r.1.2 = zeros 32 /\ r.2 = zeros 64
  else r.1.1 = [] /\ r.1.2 = zeros 32 /\ r.2 = zeros 64.
Definition join_splits_wf (tx : Transaction) : Prop :=
  js_wf (f_overwintered tx) (version tx) (join_splits tx, join_split_pub_key tx, join_split_sig tx).
Definition sapling_wf (sap4 : bool) (vb : Z) (sp : list SpendDescription)
    (out : list OutputDescription) : Prop :=
  if sap4 then
    is_i64 vb /\ (fits_compact sp /\ Forall SpendDescription_wf sp)
    /\ (fits_compact out /\ Forall OutputDescription_wf out)
  else vb = 0 /\ sp = [] /\ out = [].
Definition regular_wf (tx : Transaction) : Prop :=
  let ow3 := is_overwinter_v3 (f_overwintered tx) (version_group_id tx) (version tx) in
  let sap4 := is_sapling_v4 (f_overwintered tx) (version_group_id tx) (version tx) in
  (fits_compact (vin tx) /\ Forall TxIn_wf (vin tx))
  /\ (fits_compact (vout tx) /\ Forall TxOut_wf (vout tx))
  /\ is_u32 (lock_time tx)
  /\ (if ow3 || sap4 then is_u32 (expiry_height tx) else expiry_height tx = 0)
  /\ sapling_wf sap4 (value_balance tx) (shielded_spends tx) (shielded_outputs tx)
  /\ join_splits_wf tx
  /\ (if sap4 && negb (is_nil (shielded_spends tx) && is_nil (shielded_outputs tx))
      then array 64 (binding_sig tx) else binding_sig tx = zeros 64)
  /\ fluxnode tx = None.
Definition fluxnode_wf (sigs : bool) (tx : Transaction) : Prop :=
  match fluxnode tx with
  | Some (V5 body) => version tx = FLUXNODE_TX_VERSION /\ FluxnodeTxV5_wf sigs body
  | Some (V6 body) => version tx = FLUXNODE_TX_UPGRADEABLE_VERSION /\ FluxnodeTxV6_wf sigs body
  | None => False
  end /\
  (vin tx, vout tx, lock_time tx, expiry_height tx, value_balance tx)
  = ([], [], 0, 0, 0)
  /\ (shielded_spends tx, shielded_outputs tx, join_splits tx) = ([], [], [])
  /\ (join_split_pub_key tx, join_split_sig tx, binding_sig tx) = (zeros 32, zeros 64, zeros 64).
Definition format_wf (tx : Transaction) : Prop :=
  0 <= version tx < 2147483648 /\
  if f_overwintered tx
  then is_overwinter_v3 true (version_group_id tx) (version tx)
       || is_sapling_v4 true (version_group_id tx) (version tx) = true
  else version_group_id tx = 0.
Definition is_fluxnode_version (v : Z) : bool :=
  (v =? FLUXNODE_TX_VERSION) || (v =? FLUXNODE_TX_UPGRADEABLE_VERSION).
(** A transaction the wire format represents (with its signatures or, with
    [sigs = false], in the form that is hashed). *)
Definition Transaction_wf (sigs : bool) (tx : Transaction) : Prop :=
  format_wf tx /\
  if is_fluxnode_version (version tx) then fluxnode_wf sigs tx else regular_wf tx.

(** ** Codecs of the parts *)
#[global] Program Instance TxIn_codec : Codec TxIn := {| wf := TxIn_wf |}.
Next Obligation.
  intros [p s q] (?&[? ?]&?); simpl in *. unfold consensus_decode, TxIn_decode. solve_reads.
Qed.
Next Obligation. unfold consensus_decode, TxIn_decode. solve_parses. done. Qed.

#[global] Program Instance TxOut_codec : Codec TxOut := {| wf := TxOut_wf |}.
Next Obligation.
  intros [v s] (?&[? ?]); simpl in *. unfold consensus_decode, TxOut_decode. solve_reads.
Qed.
Next Obligation. unfold consensus_decode, TxOut_decode. solve_parses. done. Qed.

#[global] Program Instance SpendDescription_codec : Codec SpendDescription :=
  {| wf := SpendDescription_wf |}.
Next Obligation.
  intros [] (?&?&?&?&?&?); simpl in *.
  unfold consensus_decode, SpendDescription_decode, consensus_encode, SpendDescription_encode, write_bytes.
  solve_reads.
Qed.
Next Obligation. unfold consensus_decode, SpendDescription_decode. solve_parses. done. Qed.

#[global] Program Instance OutputDescription_codec : Codec OutputDescription :=
  {| wf := OutputDescription_wf |}.
Next Obligation.
  intros [] (?&?&?&?&?&?); simpl in *.
  unfold consensus_decode, OutputDescription_decode, consensus_encode, OutputDescription_encode, write_bytes.
  solve_reads.
Qed.
Next Obligation. unfold consensus_decode, OutputDescription_decode. solve_parses. done. Qed.

Lemma read_hashes_reads n l :
  hashes_wf n l -> reads (read_n n read_hash_le) (write_list write_hash_le l) l.
Proof. intros [<- Hl]. apply read_n_reads with (array 32); [apply read_hash_le_reads|done]. Qed.
Lemma read_hashes_parses n :
  parses (read_n n read_hash_le) (fun l bs => hashes_wf n l /\ bs = write_list write_hash_le l).
Proof. apply read_n_parses, read_hash_le_parses. Qed.
Lemma read_arrays_reads n k l :
  length l = n /\ Forall (array k) l -> reads (read_n n (read_fixed k)) (write_list write_bytes l) l.
Proof. intros [<- Hl]. apply read_n_reads with (array k); [apply read_fixed_reads|done]. Qed.
Lemma read_arrays_parses n k :
  parses (read_n n (read_fixed k))
    (fun l bs => (length l = n /\ Forall (array k) l) /\ bs = write_list write_bytes l).
Proof. apply read_n_parses, read_fixed_parses. Qed.

Definition read_proof (use_groth : bool) : parser DecodeError SproutProof :=
  if use_groth then p ← read_fixed GROTH_PROOF_SIZE; mret (Groth p)
  else p ← read_fixed PHGR_PROOF_SIZE; mret (Phgr p).
Definition proof_bytes (p : SproutProof) : bytes := match p with Groth p => p | Phgr p => p end.

Lemma read_proof_reads g p : proof_wf g p -> reads (read_proof g) (proof_bytes p) p.
Proof. destruct p; intros [-> Hp]; unfold read_proof; solve_reads. Qed.
Lemma read_proof_parses g :
  parses (read_proof g) (fun p bs => proof_wf g p /\ bs = proof_bytes p).
Proof. unfold read_proof; destruct g; solve_parses; done. Qed.

#[export] Hint Resolve read_hashes_reads read_arrays_reads read_proof_reads
  read_hashes_parses read_arrays_parses read_proof_parses : codec.

Definition JoinSplit_bytes (j : JoinSplit) : bytes :=
  write_i64_le (vpub_old j) ++ write_i64_le (vpub_new j) ++ write_hash_le (js_anchor j)
  ++ write_list write_hash_le (nullifiers j) ++ write_list write_hash_le (commitments j)
  ++ write_hash_le (js_ephemeral_key j) ++ write_hash_le (random_seed j)
  ++ write_list write_hash_le (macs j) ++ proof_bytes (js_proof j)
  ++ write_list write_bytes (ciphertexts j).

Lemma JoinSplit_encode_with_Ok g j :
  proof_wf g (js_proof j) -> JoinSplit_encode_with g j = Ok (JoinSplit_bytes j).
Proof.
  unfold JoinSplit_encode_with, JoinSplit_bytes.
  by destruct (js_proof j), g; simpl; try (intros [? ?]; discriminate).
Qed.

Lemma JoinSplit_reads g j :
  JoinSplit_wf g j -> reads (JoinSplit_decode_with g) (JoinSplit_bytes j) j.
Proof.
  destruct j; intros (?&?&?&?&?&?&?&?&?&?); simpl in *.
  unfold JoinSplit_decode_with, JoinSplit_bytes. fold (read_proof g). solve_reads.
Qed.
Lemma JoinSplit_parses g :
  parses (JoinSplit_decode_with g) (fun j bs => JoinSplit_wf g j /\ bs = JoinSplit_bytes j).
Proof.
  unfold JoinSplit_decode_with. fold (read_proof g). solve_parses.
  unfold JoinSplit_wf, JoinSplit_bytes; simpl. split_and!; done.
Qed.

Lemma JoinSplit_wf_proof g j : JoinSplit_wf g j -> proof_wf g (js_proof j).
Proof. unfold JoinSplit_wf. tauto. Qed.

Lemma encode_each_Ok {A} (f : A -> result TransactionEncodeError bytes) (g : A -> bytes) l :
  Forall (fun a => f a = Ok (g a)) l -> encode_each f l = Ok (write_list g l).
Proof.
  induction 1 as [|a l Ha _ IH]; [done|]. simpl. rewrite Ha; simpl. by rewrite IH.
Qed.

Lemma write_sig_reads b s : sig_wf b s -> reads (read_sig b) (write_sig b s) s.
Proof.
  unfold sig_wf, read_sig, write_sig. destruct b.
  - intros [? ?]. by apply read_var_bytes_reads.
  - intros ->. apply reads_ret.
Qed.
Lemma read_sig_parses b : parses (read_sig b) (fun s bs => sig_wf b s /\ bs = write_sig b s).
Proof.
  unfold sig_wf, read_sig, write_sig. destruct b; [apply read_var_bytes_parses|].
  eapply parses_conseq; [apply parses_ret|]. by intros ? ? _ [-> ->].
Qed.
Lemma read_var_bytes_reads' v : var_ok v -> reads read_var_bytes (write_var_bytes v) v.
Proof. intros [? ?]. by apply read_var_bytes_reads. Qed.
Lemma read_var_str_reads' v : str_ok v -> reads read_var_str (write_var_str v) v.
Proof. intros [[? ?] ?]. by apply read_var_str_reads. Qed.
#[export] Hint Resolve write_sig_reads read_sig_parses read_var_bytes_reads' read_var_str_reads' : codec.

Definition delegate_keys_wf (v k : Z) (keys : list bytes) : Prop :=
  if (v =? DELEGATES_INITIAL_VERSION) && (k =? DELEGATES_UPDATE)
  then fits_compact keys /\ Forall var_ok keys else keys = [].
Definition delegate_keys_bytes (v k : Z) (keys : list bytes) : bytes :=
  if (v =? DELEGATES_INITIAL_VERSION) && (k =? DELEGATES_UPDATE)
  then write_varint (Z.of_nat (length keys)) ++ write_list write_var_bytes keys else [].

Lemma read_var_list_reads l :
  fits_compact l -> Forall var_ok l ->
  reads (count ← read_count; read_n count read_var_bytes)
    (write_varint (Z.of_nat (length l)) ++ write_list write_var_bytes l) l.
Proof.
  intros. eapply reads_bind; [by apply read_count_reads|].
  apply read_n_reads with var_ok; [apply read_var_bytes_reads'|done].
Qed.
Lemma read_var_list_parses :
  parses (count ← read_count; read_n count read_var_bytes)
    (fun l bs => (fits_compact l /\ Forall var_ok l)
       /\ bs = write_varint (Z.of_nat (length l)) ++ write_list write_var_bytes l).
Proof.
  eapply parses_conseq.
  { apply parses_bind; [apply read_count_parses|intros n; apply read_n_parses, read_var_bytes_parses]. }
  intros l bs _ ?. inv_parses. done.
Qed.

#[global] Program Instance FluxnodeDelegates_codec : Codec FluxnodeDelegates :=
  {| wf := FluxnodeDelegates_wf |}.
Next Obligation.
  intros [v k keys] (?&?&H); simpl in *.
  unfold consensus_decode, FluxnodeDelegates_decode, consensus_encode, FluxnodeDelegates_encode.
  cbn [delegates_version delegates_kind delegate_starting_keys]. do 2 reads_step.
  eapply reads_bind_nil; [|apply reads_ret].
  destruct (_ && _); [destruct H; by apply read_var_list_reads|subst; apply reads_ret].
Qed.
Next Obligation.
  unfold consensus_decode, FluxnodeDelegates_decode. eapply parses_conseq.
  { eapply parses_bind; [apply read_u8_parses|intros v].
    eapply parses_bind; [apply read_u8_parses|intros k].
    eapply (parses_bind _ _ (fun keys bs => delegate_keys_wf v k keys /\ bs = delegate_keys_bytes v k keys));
      [|intros keys; apply parses_ret].
    unfold delegate_keys_wf, delegate_keys_bytes.
    destruct (_ && _); [apply read_var_list_parses|apply parses_ret]. }
  intros d bs _ ?. inv_parses. done.
Qed.

Lemma confirm_reads sigs c :
  FluxnodeConfirmTx_wf sigs c ->
  reads (decode_fluxnode_confirm sigs) (encode_fluxnode_confirm sigs c) c.
Proof.
  destruct c; intros (?&?&?&?&?&?&?&?); simpl in *.
  unfold decode_fluxnode_confirm, encode_fluxnode_confirm. solve_reads.
Qed.
Lemma confirm_parses sigs :
  parses (decode_fluxnode_confirm sigs)
    (fun c bs => FluxnodeConfirmTx_wf sigs c /\ bs = encode_fluxnode_confirm sigs c).
Proof. unfold decode_fluxnode_confirm. solve_parses. unfold FluxnodeConfirmTx_wf; simpl. done. Qed.
#[export] Hint Resolve confirm_reads confirm_parses : codec.

(** ** Fluxnode payload codecs *)

Lemma start_type_u8 : is_u8 FLUXNODE_START_TX_TYPE.
Proof. by_decide. Qed.
Lemma confirm_type_u8 : is_u8 FLUXNODE_CONFIRM_TX_TYPE.
Proof. by_decide. Qed.
#[export] Hint Resolve start_type_u8 confirm_type_u8 : codec.

(** [reads_enc m r a]: the encoding [r] succeeds and [m] reads it back. *)
Definition reads_enc {E F A} (m : parser E A) (r : result F bytes) (a : A) : Prop :=
  exists bs, r = Ok bs /\ reads m bs a.

Lemma fluxnode_v5_reads sigs body :
  FluxnodeTxV5_wf sigs body ->
  reads_enc (decode_fluxnode_v5 sigs) (encode_fluxnode_v5 (V5 body) sigs) body.
Proof.
  intros H. destruct body as [s|c]; (eexists; split; [reflexivity|]).
  - destruct s; destruct H as (?&?&?&?&?); unfold decode_fluxnode_v5.
    reads_step. cbn [Z.eqb FLUXNODE_START_TX_TYPE]. apply reads_lift. solve_reads.
  - simpl in H. unfold decode_fluxnode_v5.
    reads_step. cbn [Z.eqb FLUXNODE_CONFIRM_TX_TYPE]. apply reads_lift. solve_reads.
Qed.

Lemma fluxnode_v5_parses sigs :
  parses (decode_fluxnode_v5 sigs)
    (fun b bs => FluxnodeTxV5_wf sigs b /\ encode_fluxnode_v5 (V5 b) sigs = Ok bs).
Proof.
  unfold decode_fluxnode_v5. eapply parses_conseq.
  { apply (parses_bind _ _ (fun v bs => is_u8 v /\ bs = write_u8 v)
      (fun t b bs => FluxnodeTxV5_wf sigs b /\ encode_fluxnode_v5 (V5 b) sigs = Ok (write_u8 t ++ bs)));
      [eauto with codec|intros t].
    apply parses_if; intros Ht; [|clear Ht; apply parses_if; intros Ht; [|apply parses_fail]];
      apply Z.eqb_eq in Ht as ->; apply parses_lift; solve_parses; done. }
  intros b bs _ (t&bs1&bs2&->&_&[_ ->]&H). exact H.
Qed.

Lemma variant_reads sigs v x :
  variant_wf sigs v x -> reads_enc (decode_variant_v6 v sigs) (encode_variant_v6 v x sigs) x.
Proof.
  unfold decode_variant_v6, encode_variant_v6.
  destruct x; intros (Hv&?&?&?&?&?).
  - rewrite Hv. eexists; split; [reflexivity|]. apply reads_lift. solve_reads.
  - destruct Hv as [-> ->]. eexists; split; [reflexivity|]. apply reads_lift. solve_reads.
Qed.

Lemma variant_parses sigs v :
  parses (decode_variant_v6 v sigs)
    (fun x bs => variant_wf sigs v x /\ encode_variant_v6 v x sigs = Ok bs).
Proof.
  unfold decode_variant_v6, encode_variant_v6. 
  destruct (v6_is_normal v) eqn:Hn; [|destruct (v6_is_p2sh v) eqn:Hp; [|apply parses_fail]];
    apply parses_lift; solve_parses; simpl; done.
Qed.

Lemma delegates_reads s :
  delegates_wf (flux_tx_version s) (using_delegates s) (delegates s) ->
  reads_enc (decode_delegates_v6 (flux_tx_version s)) (encode_delegates_v6 s)
    (using_delegates s, delegates s).
Proof.
  unfold delegates_wf, decode_delegates_v6, encode_delegates_v6.
  destruct (has_flux_tx_delegates_feature _).
  - destruct (delegates s) as [d|]; [intros [-> Hd]|intros ->]; eexists; (split; [reflexivity|]).
    + eapply reads_bind; [apply read_bool_reads|]. cbv beta.
      eapply reads_bind_nil; [|apply reads_ret]. solve_reads.
    + eapply reads_bind_nil; [apply read_bool_reads|]. cbv beta.
      eapply reads_bind_nil; [|apply reads_ret]. solve_reads.
  - intros [-> ->]. eexists; split; [reflexivity|apply reads_ret].
Qed.

(** The delegates flag is read as "any non-zero byte": the parsed payload
    writes back to the same bytes except for that flag byte. *)
Lemma delegates_parses v :
  parses (decode_delegates_v6 v)
    (fun ud bs => delegates_wf v (fst ud) (snd ud) /\
       (fst ud = false ->
        forall x, encode_delegates_v6 (mkStartV6 v x (fst ud) (snd ud)) = Ok bs)).
Proof.
  unfold delegates_wf, decode_delegates_v6, encode_delegates_v6; cbn [flux_tx_version].
  destruct (has_flux_tx_delegates_feature v).
  - eapply parses_conseq.
    { apply (parses_bind _ _ (fun u bs => u = false -> bs = write_bool false)
        (fun u ud bs => fst ud = u /\
           match snd ud with Some d => u = true /\ FluxnodeDelegates_wf d | None => u = false /\ bs = [] end)).
      - unfold read_bool. solve_parses. intros Hz. apply negb_false_iff, Z.eqb_eq in Hz. by subst.
      - intros [|].
        + eapply parses_conseq.
          { apply (parses_bind _ _ (fun d _ => exists d', d = Some d' /\ FluxnodeDelegates_wf d'));
              [|intros d; apply parses_ret]. solve_parses. eauto. }
          intros ? ? _ ?. inv_parses. done.
        + eapply parses_conseq.
          { apply parses_bind; [apply parses_ret|intros d; apply parses_ret]. }
          intros ? ? _ ?. inv_parses. done. }
    intros [u d] bs _ (u'&bs1&bs2&->&_&Hu&<-&Hd). cbn [fst snd using_delegates delegates] in *.
    destruct d as [d|].
    + destruct Hd as [-> Hd]. split; [done|discriminate].
    + destruct Hd as [-> ->]. split; [done|]. intros _ x. by rewrite app_nil_r, Hu.
  - eapply parses_conseq; [apply parses_ret|]. intros [u d] bs _ [[= -> ->] ->]. done.
Qed.

Lemma fluxnode_v6_reads sigs body :
  FluxnodeTxV6_wf sigs body ->
  reads_enc (decode_fluxnode_v6 sigs) (encode_fluxnode_v6 (V6 body) sigs) body.
Proof.
  destruct body as [[v x u d]|c]; cbn [FluxnodeTxV6_wf encode_fluxnode_v6].
  - intros (?&Hx&Hd); cbn [flux_tx_version variant using_delegates delegates] in *.
    destruct (variant_reads _ _ _ Hx) as (vb&->&Hvb).
    destruct (delegates_reads (mkStartV6 v x u d) Hd) as (db&->&Hdb).
    eexists; split; [reflexivity|]. unfold decode_fluxnode_v6.
    do 1 reads_step. cbn [Z.eqb FLUXNODE_START_TX_TYPE]. reads_step.
    eapply reads_bind; [apply Hvb|]. cbv beta.
    eapply reads_bind_nil; [apply reads_lift, Hdb|]. apply reads_ret.
  - intros H. eexists; split; [reflexivity|]. unfold decode_fluxnode_v6.
    reads_step. cbn [Z.eqb FLUXNODE_CONFIRM_TX_TYPE]. apply reads_lift. solve_reads.
Qed.

(** The v6 payloads whose encoding is unique. *)
Definition v6_no_delegates (b : FluxnodeTxV6) : Prop :=
  match b with StartV6 s => using_delegates s = false | ConfirmV6 _ => True end.

Lemma fluxnode_v6_parses sigs :
  parses (decode_fluxnode_v6 sigs)
    (fun b bs => FluxnodeTxV6_wf sigs b /\
       (v6_no_delegates b -> encode_fluxnode_v6 (V6 b) sigs = Ok bs)).
Proof.
  unfold decode_fluxnode_v6. eapply parses_conseq.
  { apply (parses_bind _ _ (fun v bs => is_u8 v /\ bs = write_u8 v)
      (fun t b bs => FluxnodeTxV6_wf sigs b /\
         (v6_no_delegates b -> encode_fluxnode_v6 (V6 b) sigs = Ok (write_u8 t ++ bs))));
      [eauto with codec|intros t].
    apply parses_if; intros Ht; [|clear Ht; apply parses_if; intros Ht; [|apply parses_fail]];
      apply Z.eqb_eq in Ht as ->.
    - eapply parses_conseq.
      { eapply parses_bind; [apply parses_lift, read_i32_le_parses|intros v].
        eapply parses_bind; [apply variant_parses|intros x].
        eapply parses_bind; [apply parses_lift, delegates_parses|intros ud; apply parses_ret]. }
      intros b bs _ ?. inv_parses. split; [done|]. simpl. intros Hu.
      match goal with H : encode_variant_v6 _ _ _ = Ok _ |- _ => rewrite H end. simpl.
      match goal with H : _ -> forall _, _ = Ok _ |- _ => rewrite (H Hu) end. simpl. done.
    - apply parses_lift. solve_parses. done. }
  intros b bs _ (t&bs1&bs2&->&_&[_ ->]&H). exact H.
Qed.

(** ** The header word *)
Lemma lor_bit31 v : 0 <= v < 2147483648 -> Z.lor v (Z.shiftl 1 31) = v + 2147483648.
Proof.
  intros Hv. change (Z.shiftl 1 31) with 2147483648.
  assert (Hl : Z.land v 2147483648 = 0).
  { apply Z.bits_inj'. intros n Hn. rewrite Z.land_spec, Z.bits_0.
    change 2147483648 with (2 ^ 31). rewrite Z.pow2_bits_eqb by lia.
    destruct (Z.eqb_spec 31 n) as [<-|]; [|by rewrite andb_false_r].
    rewrite (Z.bits_above_log2 v 31); [done|lia|].
    destruct (Z.eq_dec v 0) as [->|]; [done|]. apply Z.log2_lt_pow2; lia. }
  rewrite <- Z.lxor_lor by done. by rewrite Z.add_nocarry_lxor.
Qed.

Lemma header_version_eq h : header_version h = h mod 2147483648.
Proof.
  unfold header_version. change 0x7fffffff with (Z.ones 31). rewrite Z.land_ones by lia.
  change (2 ^ 31) with 2147483648. apply wrap_i32_id.
  pose proof (Z.mod_pos_bound h 2147483648). int_lia.
Qed.

Lemma tx_header_fields tx :
  0 <= version tx < 2147483648 ->
  is_u32 (tx_header tx) /\ header_flag (tx_header tx) = f_overwintered tx
  /\ header_version (tx_header tx) = version tx.
Proof.
  intros Hv. rewrite header_version_eq. unfold tx_header, header_flag.
  rewrite wrap_u32_id by int_lia. rewrite Z.shiftr_div_pow2 by lia. change (2 ^ 31) with 2147483648.
  destruct (f_overwintered tx).
  - rewrite lor_bit31 by done.
    replace (version tx + 2147483648) with (version tx + 1 * 2147483648) by lia.
    rewrite Z.div_add, Z.mod_add, Z.div_small, Z.mod_small by lia. split_and!; [int_lia|done|done].
  - rewrite Z.div_small, Z.mod_small by lia. split_and!; [int_lia|done|done].
Qed.

Lemma header_of_fields h tx :
  is_u32 h -> f_overwintered tx = header_flag h -> version tx = header_version h ->
  0 <= version tx < 2147483648 /\ tx_header tx = h.
Proof.
  intros Hh Hf Hv. rewrite header_version_eq in Hv.
  pose proof (Z.mod_pos_bound h 2147483648 ltac:(lia)).
  split; [lia|]. unfold tx_header. rewrite Hf, Hv. unfold header_flag.
  rewrite wrap_u32_id by int_lia. rewrite Z.shiftr_div_pow2 by lia. change (2 ^ 31) with 2147483648.
  pose proof (Z.div_mod h 2147483648 ltac:(lia)) as Hdm. unfold is_u32 in Hh.
  assert (h / 2147483648 = 0 \/ h / 2147483648 = 1) as [E|E].
  { pose proof (Z.div_pos h 2147483648). assert (h / 2147483648 < 2) by (apply Z.div_lt_upper_bound; lia).
    lia. }
  - rewrite E in *. simpl. lia.
  - rewrite E in *. simpl. rewrite lor_bit31 by done. lia.
Qed.

(** ** Regular transactions *)
Lemma read_opt_u32_reads (c : bool) v :
  (if c then is_u32 v else v = 0) ->
  reads (if c then read_u32_le else mret 0) (if c then write_u32_le v else []) v.
Proof. destruct c; [apply read_u32_le_reads|intros ->; apply reads_ret]. Qed.
Lemma read_opt_u32_parses (c : bool) :
  parses (if c then read_u32_le else mret 0)
    (fun v bs => (if c then is_u32 v else v = 0) /\ bs = if c then write_u32_le v else []).
Proof. destruct c; [apply read_u32_le_parses|apply parses_ret]. Qed.

Lemma read_opt_fixed_reads (c : bool) n v :
  (if c then array n v else v = zeros n) ->
  reads (if c then read_fixed n else mret (zeros n)) (if c then v else []) v.
Proof. destruct c; [apply read_fixed_reads|intros ->; apply reads_ret]. Qed.
Lemma read_opt_fixed_parses (c : bool) n :
  parses (if c then read_fixed n else mret (zeros n))
    (fun v bs => (if c then array n v else v = zeros n) /\ bs = if c then v else []).
Proof. destruct c; [apply read_fixed_parses|apply parses_ret]. Qed.

Definition sapling_bytes (sap4 : bool) (s : Z * list SpendDescription * list OutputDescription) : bytes :=
  if sap4 then write_i64_le s.1.1 ++ write_vec s.1.2 ++ write_vec s.2 else [].
Lemma decode_sapling_reads sap4 s :
  sapling_wf sap4 s.1.1 s.1.2 s.2 -> reads (decode_sapling sap4) (sapling_bytes sap4 s) s.
Proof.
  destruct s as [[vb sp] out]. unfold sapling_wf, decode_sapling, sapling_bytes; cbn [fst snd].
  destruct sap4.
  - intros (?&[? ?]&[? ?]). solve_reads.
  - intros (->&->&->). apply reads_ret.
Qed.
Lemma decode_sapling_parses sap4 :
  parses (decode_sapling sap4)
    (fun s bs => sapling_wf sap4 s.1.1 s.1.2 s.2 /\ bs = sapling_bytes sap4 s).
Proof.
  unfold decode_sapling, sapling_wf, sapling_bytes. destruct sap4; [solve_parses; done|].
  eapply parses_conseq; [apply parses_ret|]. by intros s bs _ [-> ->].
Qed.

Definition js_bytes (v : Z) (r : list JoinSplit * bytes * bytes) : bytes :=
  if v >=? 2 then
    write_varint (Z.of_nat (length r.1.1)) ++ write_list JoinSplit_bytes r.1.1
    ++ (if negb (is_nil r.1.1) then r.1.2 ++ r.2 else [])
  else [].

Lemma decode_join_splits_reads f v r :
  js_wf f v r -> reads (decode_join_splits f v) (js_bytes v r) r.
Proof.
  destruct r as [[js pk] sig]. unfold js_wf, decode_join_splits, js_bytes; cbn [fst snd].
  destruct (v >=? 2); [|intros (->&->&->); apply reads_ret].
  intros [[Hf Hjs] Hk]. eapply reads_bind; [by apply read_count_reads|]. cbv beta zeta.
  eapply reads_bind; [eapply read_n_reads; [apply JoinSplit_reads|done]|]. cbv beta.
  eapply reads_bind_nil; [|instantiate (1 := (pk, sig)); apply reads_ret].
  destruct (negb (is_nil js)).
  - destruct Hk. solve_reads.
  - destruct Hk as [-> ->]. apply reads_ret.
Qed.

Lemma decode_join_splits_parses f v :
  parses (decode_join_splits f v) (fun r bs => js_wf f v r /\ bs = js_bytes v r).
Proof.
  unfold js_wf, decode_join_splits, js_bytes.
  destruct (v >=? 2).
  - cbv zeta. eapply parses_conseq.
    { eapply parses_bind; [apply read_count_parses|intros n].
      eapply parses_bind; [apply read_n_parses, JoinSplit_parses|intros js].
      apply (parses_bind _ _ (fun k bs =>
        (if negb (is_nil js) then array 32 k.1 /\ array 64 k.2 else k.1 = zeros 32 /\ k.2 = zeros 64)
        /\ bs = if negb (is_nil js) then k.1 ++ k.2 else []));
        [|intros k; apply parses_ret].
      destruct (negb (is_nil js)); [solve_parses; done|].
      eapply parses_conseq; [apply parses_ret|]. by intros ? ? _ [-> ->]. }
    intros r bs _ ?. inv_parses. done.
  - eapply parses_conseq; [apply parses_ret|]. by intros r bs _ [-> ->].
Qed.

Lemma encode_join_splits_Ok tx :
  js_wf (f_overwintered tx) (version tx) (join_splits tx, join_split_pub_key tx, join_split_sig tx) ->
  encode_join_splits tx
  = Ok (js_bytes (version tx) (join_splits tx, join_split_pub_key tx, join_split_sig tx)).
Proof.
  unfold js_wf, encode_join_splits, js_bytes; cbn [fst snd].
  destruct (version tx >=? 2); [|done]. intros [[_ Hjs] _].
  erewrite encode_each_Ok; [done|]. eapply Forall_impl; [done|]. intros j Hj.
  by apply JoinSplit_encode_with_Ok, JoinSplit_wf_proof.
Qed.

#[export] Hint Resolve read_opt_u32_reads read_opt_fixed_reads decode_sapling_reads
  decode_join_splits_reads read_opt_u32_parses read_opt_fixed_parses decode_sapling_parses
  decode_join_splits_parses : codec.

Lemma regular_reads tx :
  format_wf tx -> regular_wf tx ->
  reads_enc (decode_regular (f_overwintered tx) (version tx) (version_group_id tx))
    (encode_regular tx) tx.
Proof.
  intros [_ Hfmt] (Hin&Hout&Hlt&Hexp&Hsap&Hjs&Hb&Hfl).
  unfold encode_regular, decode_regular. cbv zeta.
  assert (Hf : f_overwintered tx && negb (is_overwinter_v3 (f_overwintered tx) (version_group_id tx) (version tx)
    || is_sapling_v4 (f_overwintered tx) (version_group_id tx) (version tx)) = false).
  { destruct (f_overwintered tx); [by rewrite Hfmt|done]. }
  rewrite Hf, (encode_join_splits_Ok tx Hjs). eexists; split; [reflexivity|].
  destruct Hin, Hout. do 4 reads_step.
  eapply reads_bind; [apply (decode_sapling_reads _ (value_balance tx, shielded_spends tx, shielded_outputs tx) Hsap)|].
  eapply reads_bind; [apply (decode_join_splits_reads _ _ _ Hjs)|]. cbv beta iota.
  eapply reads_bind_nil; [by apply read_opt_fixed_reads|].
  destruct tx; simpl in Hfl; subst. apply reads_ret.
Qed.

Lemma parses_let3 {E A B C D} (s : A * B * C) (f : A -> B -> C -> parser E D) P :
  parses (f s.1.1 s.1.2 s.2) P -> parses (let '(a, b, c) := s in f a b c) P.
Proof. by destruct s as [[? ?] ?]. Qed.

Lemma regular_parses f v g :
  parses (decode_regular f v g)
    (fun tx bs => (f_overwintered tx = f /\ version tx = v /\ version_group_id tx = g) /\ regular_wf tx
       /\ (f && negb (is_overwinter_v3 f g v || is_sapling_v4 f g v) = false ->
           encode_regular tx = Ok bs)).
Proof.
  unfold decode_regular. cbv zeta. eapply parses_conseq.
  { do 4 parses_step.
    eapply parses_bind; [apply decode_sapling_parses|intros sap; apply parses_let3].
    eapply parses_bind; [apply decode_join_splits_parses|intros js; apply parses_let3].
    eapply parses_bind; [apply read_opt_fixed_parses|intros b]. apply parses_ret. }
  intros tx bs _ ?. inv_parses.
  repeat match goal with H : _ * _ * _ |- _ => destruct H as [[? ?] ?] end; cbn [fst snd] in *.
  split; [done|]. split; [unfold regular_wf; simpl; split_and!; done|].
  intros Hf. unfold encode_regular. cbv zeta.
  rewrite encode_join_splits_Ok by done. cbn [f_overwintered version version_group_id]. rewrite Hf.
  reflexivity.
Qed.

(** ** Whole transactions *)
Lemma fluxnode_wf_shape sigs tx payload :
  fluxnode_wf sigs tx -> f_overwintered tx = false -> fluxnode tx = Some payload ->
  tx = fluxnode_transaction false (version tx) (version_group_id tx) payload.
Proof.
  intros (_&H1&H2&H3) Hf Hp. destruct tx; simpl in *. by simplify_eq.
Qed.

Lemma version_not_5_6_overwintered v g :
  is_fluxnode_version v = true -> is_overwinter_v3 true g v || is_sapling_v4 true g v = false.
Proof.
  unfold is_fluxnode_version, is_overwinter_v3, is_sapling_v4, FLUXNODE_TX_VERSION,
    FLUXNODE_TX_UPGRADEABLE_VERSION. intros H.
  apply orb_true_iff in H as [H|H]; apply Z.eqb_eq in H as ->; by rewrite !andb_false_r.
Qed.

Lemma format_not_unknown tx :
  format_wf tx ->
  f_overwintered tx && negb (is_overwinter_v3 (f_overwintered tx) (version_group_id tx) (version tx)
    || is_sapling_v4 (f_overwintered tx) (version_group_id tx) (version tx)) = false.
Proof. intros [_ Hg]. destruct (f_overwintered tx); [by rewrite Hg|done]. Qed.

Lemma body_reads sigs tx :
  Transaction_wf sigs tx ->
  reads_enc (decode_body sigs (f_overwintered tx) (version tx) (version_group_id tx))
    (encode_body sigs tx) tx.
Proof.
  intros [Hfmt Hbody]. unfold decode_body, encode_body. rewrite format_not_unknown by done.
  destruct (is_fluxnode_version (version tx)) eqn:Hfv.
  - destruct (f_overwintered tx) eqn:Hf.
    { destruct Hfmt as [_ Hg]. rewrite Hf, version_not_5_6_overwintered in Hg; done. }
    pose proof Hbody as [Hpay _].
    destruct (fluxnode tx) as [[b|b]|] eqn:Hp; [..|done]; destruct Hpay as [E Hb]; rewrite E.
    + destruct (fluxnode_v5_reads _ _ Hb) as (bs&He&Hr). exists bs. split; [exact He|].
      eapply reads_bind_nil; [apply Hr|]. rewrite <- E.
      erewrite <- fluxnode_wf_shape by done. apply reads_ret.
    + destruct (fluxnode_v6_reads _ _ Hb) as (bs&He&Hr). exists bs. split; [exact He|].
      eapply reads_bind_nil; [apply Hr|]. rewrite <- E.
      erewrite <- fluxnode_wf_shape by done. apply reads_ret.
  - apply orb_false_iff in Hfv as [-> ->].
    destruct (regular_reads tx Hfmt Hbody) as (bs&He&Hr). exists bs.
    split; [done|by apply reads_lift].
Qed.

Lemma group_id_wf tx :
  format_wf tx -> if f_overwintered tx then is_u32 (version_group_id tx) else version_group_id tx = 0.
Proof.
  intros [_ Hg]. destruct (f_overwintered tx); [|done].
  apply orb_true_iff in Hg as [Hg|Hg]; apply andb_true_iff in Hg as [Hg _];
    apply andb_true_iff in Hg as [_ Hg]; apply Z.eqb_eq in Hg as ->; by_decide.
Qed.

Lemma Transaction_reads sigs tx :
  Transaction_wf sigs tx -> reads_enc (decode_from sigs) (encode_with_mode sigs tx) tx.
Proof.
  intros Hwf. destruct (body_reads _ _ Hwf) as (bs&He&Hr). destruct Hwf as [Hfmt _].
  destruct (tx_header_fields tx) as (Hh&Hflag&Hver); [apply Hfmt|].
  unfold encode_with_mode. rewrite He. eexists; split; [reflexivity|]. unfold decode_from.
  eapply reads_bind; [apply reads_lift, read_u32_le_reads, Hh|]. cbv beta. rewrite Hflag, Hver.
  eapply reads_bind; [apply reads_lift, read_opt_u32_reads, group_id_wf, Hfmt|]. exact Hr.
Qed.

(** Fluxnode start transactions that register delegates are the only ones
    with more than one encoding. *)
Definition no_delegates (tx : Transaction) : Prop :=
  match fluxnode tx with Some (V6 b) => v6_no_delegates b | _ => True end.

Lemma body_parses sigs f v g :
  parses (decode_body sigs f v g)
    (fun tx bs => (f_overwintered tx = f /\ version tx = v /\ version_group_id tx = g)
       /\ (f = true -> is_overwinter_v3 true g v || is_sapling_v4 true g v = true)
       /\ (if is_fluxnode_version v then fluxnode_wf sigs tx else regular_wf tx)
       /\ (no_delegates tx -> encode_body sigs tx = Ok bs)).
Proof.
  unfold decode_body, encode_body, is_fluxnode_version.
  destruct (f && negb _) eqn:Hu; [apply parses_fail|].
  destruct (v =? FLUXNODE_TX_VERSION) eqn:E5; [|destruct (v =? FLUXNODE_TX_UPGRADEABLE_VERSION) eqn:E6].
  - destruct f; [apply parses_fail|]. eapply parses_conseq.
    { apply parses_bind; [apply fluxnode_v5_parses|intros b; apply parses_ret]. }
    intros tx bs _ ?. inv_parses. apply Z.eqb_eq in E5 as ->. split_and!; try done.
  - destruct f; [apply parses_fail|]. eapply parses_conseq.
    { apply parses_bind; [apply fluxnode_v6_parses|intros b; apply parses_ret]. }
    intros tx bs _ ?. inv_parses. apply Z.eqb_eq in E6 as ->. split_and!; try done.
  - apply parses_lift. eapply parses_conseq; [apply regular_parses|].
    intros tx bs _ ((<-&<-&<-)&Hwf&He). rewrite E5, E6. split_and!; auto.
    intros Hf. rewrite Hf in Hu. by apply negb_false_iff in Hu.
Qed.

Lemma Transaction_parses sigs :
  parses (decode_from sigs)
    (fun tx bs => Transaction_wf sigs tx /\ (no_delegates tx -> encode_with_mode sigs tx = Ok bs)).
Proof.
  unfold decode_from. eapply parses_conseq.
  { eapply parses_bind; [apply parses_lift, read_u32_le_parses|intros h].
    eapply parses_bind; [apply parses_lift, read_opt_u32_parses|intros g]. apply body_parses. }
  intros tx bs _ (h&b1&b2&->&_&[Hh ->]&g&b3&b4&->&_&[Hg ->]&(Hf&Hv&<-)&Hfmt&Hb&He).
  destruct (header_of_fields h tx Hh Hf Hv) as [Hr Hhd]. rewrite <- Hf, <- Hv in *. split.
  - split; [|done]. split; [done|]. by destruct (f_overwintered tx); [apply Hfmt|].
  - intros Hn. unfold encode_with_mode. rewrite (He Hn), Hhd. done.
Qed.

(** ** Decidability of well-formedness *)
Ltac solve_wf_dec :=
  intros;
  repeat match goal with
  | x : _ * _ |- _ => destruct x
  | |- Decision (match ?x with _ => _ end) => destruct x
  | |- Decision (_ /\ _) => apply and_dec
  | |- Decision (Forall _ _) => apply Forall_dec; intros ?
  end; try apply _.

#[global] Instance OutPoint_wf_dec o : Decision (OutPoint_wf o).
Proof. unfold OutPoint_wf; apply _. Defined.
#[global] Instance var_ok_dec bs : Decision (var_ok bs).
Proof. unfold var_ok; apply _. Defined.
#[global] Instance TxIn_wf_dec i : Decision (TxIn_wf i).
Proof. unfold TxIn_wf; simpl; apply _. Defined.
#[global] Instance TxOut_wf_dec o : Decision (TxOut_wf o).
Proof. unfold TxOut_wf; apply _. Defined.
#[global] Instance SpendDescription_wf_dec s : Decision (SpendDescription_wf s).
Proof. unfold SpendDescription_wf; apply _. Defined.
#[global] Instance OutputDescription_wf_dec o : Decision (OutputDescription_wf o).
Proof. unfold OutputDescription_wf; apply _. Defined.
#[global] Instance proof_wf_dec g p : Decision (proof_wf g p).
Proof. unfold proof_wf; destruct p; apply _. Defined.
#[global] Instance hashes_wf_dec n l : Decision (hashes_wf n l).
Proof. unfold hashes_wf; apply _. Defined.
#[global] Instance JoinSplit_wf_dec g j : Decision (JoinSplit_wf g j).
Proof. unfold JoinSplit_wf; apply _. Defined.
#[global] Instance FluxnodeDelegates_wf_dec d : Decision (FluxnodeDelegates_wf d).
Proof. unfold FluxnodeDelegates_wf; solve_wf_dec. Defined.
#[global] Instance sig_wf_dec b s : Decision (sig_wf b s).
Proof. unfold sig_wf; solve_wf_dec. Defined.
#[global] Instance FluxnodeConfirmTx_wf_dec b c : Decision (FluxnodeConfirmTx_wf b c).
Proof. unfold FluxnodeConfirmTx_wf; simpl; apply _. Defined.
#[global] Instance FluxnodeStartV5_wf_dec b c : Decision (FluxnodeStartV5_wf b c).
Proof. unfold FluxnodeStartV5_wf; simpl; apply _. Defined.
#[global] Instance FluxnodeTxV5_wf_dec b c : Decision (FluxnodeTxV5_wf b c).
Proof. unfold FluxnodeTxV5_wf; solve_wf_dec. Defined.
#[global] Instance variant_wf_dec b v x : Decision (variant_wf b v x).
Proof. unfold variant_wf; simpl; solve_wf_dec. Defined.
#[global] Instance delegates_wf_dec v u d : Decision (delegates_wf v u d).
Proof.
  unfold delegates_wf. destruct (has_flux_tx_delegates_feature v); [destruct d; apply _|].
  destruct d; [right; by intros [_ ?]|]. destruct u; [right; by intros [? _]|by left].
Defined.
#[global] Instance FluxnodeTxV6_wf_dec b c : Decision (FluxnodeTxV6_wf b c).
Proof. unfold FluxnodeTxV6_wf, FluxnodeStartV6_wf; solve_wf_dec. Defined.
#[global] Instance nil_dec {A} (l : list A) : Decision (l = []).
Proof. destruct l; [by left|by right]. Defined.
#[global] Instance js_wf_dec f v r : Decision (js_wf f v r).
Proof. unfold js_wf; solve_wf_dec. Defined.
#[global] Instance sapling_wf_dec s v a b : Decision (sapling_wf s v a b).
Proof. unfold sapling_wf; solve_wf_dec. Defined.
#[global] Instance is_none_dec {A} (o : option A) : Decision (o = None).
Proof. destruct o; [by right|by left]. Defined.
#[global] Instance regular_wf_dec tx : Decision (regular_wf tx).
Proof. unfold regular_wf, join_splits_wf; solve_wf_dec. Defined.
#[global] Instance fluxnode_wf_dec b tx : Decision (fluxnode_wf b tx).
Proof.
  unfold fluxnode_wf. destruct tx as [f v g [|] [|] lt e vb [|] [|] [|] pk js bs fl]; simpl;
    try (right; by intros (_&[=]&[=]&_)).
  apply and_dec; [solve_wf_dec|]. apply and_dec.
  - destruct (decide (lt = 0)) as [->|]; [|right; by intros [=]].
    destruct (decide (e = 0)) as [->|]; [|right; by intros [=]].
    destruct (decide (vb = 0)) as [->|]; [by left|right; by intros [=]].
  - apply and_dec; [by left|apply _].
Defined.
#[global] Instance Transaction_wf_dec b tx : Decision (Transaction_wf b tx).
Proof. unfold Transaction_wf, format_wf; solve_wf_dec. Defined.

(** ** Signatures and the hashed form

    [strip_signatures] forgets exactly what the hashed form leaves out. *)
Definition strip_confirm (c : FluxnodeConfirmTx) : FluxnodeConfirmTx :=
  mkConfirm (confirm_collateral c) (confirm_sig_time c) (benchmark_tier c)
    (benchmark_sig_time c) (update_type c) (ip c) [] [].
Definition strip_fluxnode (p : FluxnodeTx) : FluxnodeTx :=
  match p with
  | V5 (StartV5 s) =>
      V5 (StartV5 (mkStartV5 (start5_collateral s) (start5_collateral_pubkey s)
                     (start5_pubkey s) (start5_sig_time s) []))
  | V5 (ConfirmV5 c) => V5 (ConfirmV5 (strip_confirm c))
  | V6 (StartV6 s) =>
      V6 (StartV6 (mkStartV6 (flux_tx_version s)
        match variant s with
        | Normal c cpk pk t _ => Normal c cpk pk t []
        | P2sh c pk rs t _ => P2sh c pk rs t []
        end (using_delegates s) (delegates s)))
  | V6 (ConfirmV6 c) => V6 (ConfirmV6 (strip_confirm c))
  end.
Definition strip_signatures (tx : Transaction) : Transaction :=
  mkTransaction (f_overwintered tx) (version tx) (version_group_id tx) (vin tx) (vout tx)
    (lock_time tx) (expiry_height tx) (value_balance tx) (shielded_spends tx)
    (shielded_outputs tx) (join_splits tx) (join_split_pub_key tx) (join_split_sig tx)
    (binding_sig tx) (strip_fluxnode <$> fluxnode tx).

Lemma strip_signatures_encode tx :
  encode_with_mode false (strip_signatures tx) = encode_with_mode false tx.
Proof.
  destruct tx as [f v g vi vo lt e vb sp so js pk jsig bsig fl].
  unfold encode_with_mode, encode_body.
  cbn [f_overwintered version version_group_id fluxnode strip_signatures].
  destruct fl as [[[]|[[]|]]|]; try reflexivity. destruct variant0; reflexivity.
Qed.

Lemma strip_signatures_wf tx : Transaction_wf true tx -> Transaction_wf false (strip_signatures tx).
Proof.
  destruct tx as [f v g vi vo lt e vb sp so js pk jsig bsig fl].
  unfold Transaction_wf. intros [Hf Hb]. split; [exact Hf|].
  cbn [version strip_signatures] in *. destruct (is_fluxnode_version v).
  - unfold fluxnode_wf in *. cbn in *. destruct Hb as [Hp Hr]. split; [|exact Hr].
    destruct fl as [[[]|[[]|]]|]; simpl in *; [..|done]; destruct Hp as [-> Hp]; split; try done;
      try (unfold FluxnodeStartV5_wf, FluxnodeConfirmTx_wf in *; simpl; destruct_and?; split_and!; done).
    destruct Hp as (?&Hv&?). simpl in *. split; [done|]. split; [|done]. simpl in *.
    destruct variant0; unfold variant_wf in *; destruct_and?; split_and!; done.
  - unfold regular_wf in *. cbn in *.
    destruct Hb as (?&?&?&?&?&?&?&->). do 7 (split; [done|]). done.
Qed.

(** ** Panic freedom *)
Lemma no_panic_read_vec {A} `{Decodable A} :
  no_panic (consensus_decode (A:=A)) -> no_panic (read_vec (A:=A)).
Proof. intros. unfold read_vec. solve_no_panic. Qed.
Lemma no_panic_OutPoint : no_panic (consensus_decode (A:=OutPoint)).
Proof. unfold consensus_decode, OutPoint_decode. solve_no_panic. Qed.
#[export] Hint Resolve no_panic_read_vec no_panic_OutPoint : nopanic.
Lemma no_panic_TxIn : no_panic (consensus_decode (A:=TxIn)).
Proof. unfold consensus_decode, TxIn_decode. solve_no_panic. Qed.
Lemma no_panic_TxOut : no_panic (consensus_decode (A:=TxOut)).
Proof. unfold consensus_decode, TxOut_decode. solve_no_panic. Qed.
Lemma no_panic_SpendDescription : no_panic (consensus_decode (A:=SpendDescription)).
Proof. unfold consensus_decode, SpendDescription_decode. solve_no_panic. Qed.
Lemma no_panic_OutputDescription : no_panic (consensus_decode (A:=OutputDescription)).
Proof. unfold consensus_decode, OutputDescription_decode. solve_no_panic. Qed.
Lemma no_panic_FluxnodeDelegates : no_panic (consensus_decode (A:=FluxnodeDelegates)).
Proof. unfold consensus_decode, FluxnodeDelegates_decode. solve_no_panic. Qed.
Lemma no_panic_JoinSplit g : no_panic (JoinSplit_decode_with g).
Proof. unfold JoinSplit_decode_with. solve_no_panic. Qed.
Lemma no_panic_read_sig b : no_panic (read_sig b).
Proof. unfold read_sig. solve_no_panic. Qed.
#[export] Hint Resolve no_panic_TxIn no_panic_TxOut no_panic_SpendDescription
  no_panic_OutputDescription no_panic_FluxnodeDelegates no_panic_JoinSplit no_panic_read_sig : nopanic.
Lemma no_panic_confirm b : no_panic (decode_fluxnode_confirm b).
Proof. unfold decode_fluxnode_confirm. solve_no_panic. Qed.
#[export] Hint Resolve no_panic_confirm : nopanic.
Lemma no_panic_fluxnode_v5 b : no_panic (decode_fluxnode_v5 b).
Proof. unfold decode_fluxnode_v5. solve_no_panic. Qed.
Lemma no_panic_fluxnode_v6 b : no_panic (decode_fluxnode_v6 b).
Proof. unfold decode_fluxnode_v6, decode_variant_v6, decode_delegates_v6. solve_no_panic. Qed.
Lemma no_panic_regular f v g : no_panic (decode_regular f v g).
Proof. unfold decode_regular, decode_sapling, decode_join_splits. solve_no_panic. Qed.
#[export] Hint Resolve no_panic_fluxnode_v5 no_panic_fluxnode_v6 no_panic_regular : nopanic.
Lemma no_panic_decode_from b : no_panic (decode_from b).
Proof. unfold decode_from, decode_body. solve_no_panic. Qed.
#[export] Hint Resolve no_panic_decode_from : nopanic.

Lemma no_panic_decode_all {E A} (t : E) (m : parser E A) bs : no_panic m -> decode_all t m bs <> Panic.
Proof.
  intros Hm. unfold decode_all. specialize (Hm (new_decoder bs)).
  destruct (m _) as [[a d]|e|]; [by destruct (is_empty d)|done|done].
Qed.

Lemma reads_enc_inj {E F A} (m : parser E A) (e1 e2 : result F bytes) a1 a2 :
  reads_enc m e1 a1 -> reads_enc m e2 a2 -> e1 = e2 -> a1 = a2.
Proof.
  intros (bs1&->&H1) (bs2&->&H2) [= ->].
  specialize (H1 (new_decoder bs2) [] ltac:(by rewrite rem_new, app_nil_r)).
  specialize (H2 (new_decoder bs2) [] ltac:(by rewrite rem_new, app_nil_r)). congruence.
Qed.

(** ** Sample transactions *)
Definition sample_p2pkh_script : bytes := [0x76; 0xa9; 0x14] ++ replicate 20 7 ++ [0x88; 0xac].
Definition sample_payment : Transaction :=
  mkTransaction false 1 0
    [mkTxIn (mkOutPoint (replicate 32 1) 0) [0x51] u32_max]
    [mkTxOut 5000000000 sample_p2pkh_script]
    0 0 0 [] [] [] (zeros 32) (zeros 64) (zeros 64) None.
Definition sample_start_v6 : Transaction :=
  fluxnode_transaction false 6 0
    (V6 (StartV6 (mkStartV6 0x0101
      (Normal (mkOutPoint (replicate 32 2) 1) (replicate 33 2) (replicate 33 3) 1700000000 (replicate 65 9))
      true (Some (mkDelegates 1 1 [replicate 33 4; replicate 33 5]))))).
Definition sample_sapling : Transaction :=
  mkTransaction true 4 SAPLING_VERSION_GROUP_ID [] [mkTxOut 1 []] 0 100 (-5)
    [mkSpendDescription (zeros 32) (zeros 32) (zeros 32) (zeros 32) (zeros 192) (zeros 64)]
    [] [] (zeros 32) (zeros 64) (replicate 64 3) None.

(** ** Properties *)

(** C7: every well-formed transaction, of any of the formats the node accepts
    and in the full as well as in the hashed form, serializes without error
    and decoding the bytes gives the transaction back. *)
Theorem transaction_roundtrip (sigs : bool) (tx : Transaction) (Hwf : Transaction_wf sigs tx) :
  exists bs, encode_with_mode sigs tx = Ok bs /\ decode_with_mode bs sigs = Ok tx.
Proof.
  destruct (Transaction_reads _ _ Hwf) as (bs&He&Hr). exists bs. split; [done|].
  by apply reads_decode_all.
Qed.

Lemma transaction_roundtrip_witness :
  (exists bs, encode_with_mode true sample_start_v6 = Ok bs
     /\ decode_with_mode bs true = Ok sample_start_v6)
  /\ (exists bs, encode_with_mode true sample_sapling = Ok bs
     /\ decode_with_mode bs true = Ok sample_sapling).
Proof. split; apply transaction_roundtrip; by_decide. Defined.

(** C8: whatever byte string the decoder accepts as a transaction is a
    well-formed transaction, and, fluxnode starts with a delegates flag apart
    (any non-zero byte sets that flag), the byte string is its only encoding:
    re-encoding the result gives the same bytes. *)
Theorem transaction_decode_canonical (sigs : bool) (bs : bytes) (tx : Transaction)
    (Hbs : bytes_ok bs) (Hd : decode_with_mode bs sigs = Ok tx) :
  Transaction_wf sigs tx /\ (no_delegates tx -> encode_with_mode sigs tx = Ok bs).
Proof. exact (parses_decode_all _ _ _ _ _ (Transaction_parses sigs) Hbs Hd). Qed.

Definition sample_payment_bytes : bytes :=
  match encode_with_mode true sample_payment with Ok bs => bs | _ => [] end.

Lemma transaction_decode_canonical_witness :
  Transaction_wf true sample_payment
  /\ (no_delegates sample_payment -> encode_with_mode true sample_payment = Ok sample_payment_bytes).
Proof. apply (transaction_decode_canonical true sample_payment_bytes); [by_decide|vm_compute; reflexivity]. Defined.


(** The form of a transaction that is hashed into its id covers everything
    but the fluxnode signatures: two well-formed transactions have the same
    hashed form exactly when they agree once their signatures are dropped. *)
Theorem transaction_hash_form_commits (tx1 tx2 : Transaction)
    (H1 : Transaction_wf true tx1) (H2 : Transaction_wf true tx2) :
  tx_consensus_encode_for_hash tx1 = tx_consensus_encode_for_hash tx2
  <-> strip_signatures tx1 = strip_signatures tx2.
Proof.
  unfold tx_consensus_encode_for_hash.
  rewrite <- (strip_signatures_encode tx1), <- (strip_signatures_encode tx2).
  split; [|by intros ->].
  apply (reads_enc_inj (decode_from false)); by apply Transaction_reads, strip_signatures_wf.
Qed.

Lemma transaction_hash_form_commits_witness :
  tx_consensus_encode_for_hash sample_payment = tx_consensus_encode_for_hash sample_start_v6
  <-> strip_signatures sample_payment = strip_signatures sample_start_v6.
Proof. apply transaction_hash_form_commits; by_decide. Defined.
