(* ===== verification/Block.v ===== *)
(** * Blocks ([primitives/src/block.rs])

    Block headers (proof of work and proof of node), their serialized and
    hashed forms, and whole blocks. *)

From S2P Require Import Prelude Encoding Hashing Transaction.
From Stdlib Require Import ZArith Lia.
From stdpp Require Import base list option numbers strings.
#[local] Open Scope Z_scope.

Definition CURRENT_VERSION : Z := 4.
Definition PON_VERSION : Z := 100.

Record BlockHeader := mkBlockHeader {
  bh_version : Z; prev_block : Hash256; merkle_root : Hash256; final_sapling_root : Hash256;
  time : Z; bits : Z; nonce : Hash256; solution : bytes;
  nodes_collateral : OutPoint; block_sig : bytes }.

Definition is_pon (h : BlockHeader) : bool := bh_version h >=? PON_VERSION.

(** [BlockHeader::encode_with_mode]. *)
Definition header_encode_with_mode (include_signature : bool) (h : BlockHeader) : bytes :=
  write_i32_le (bh_version h) ++ write_hash_le (prev_block h) ++ write_hash_le (merkle_root h)
  ++ write_hash_le (final_sapling_root h) ++ write_u32_le (time h) ++ write_u32_le (bits h)
  ++ (if is_pon h then
        consensus_encode (nodes_collateral h)
        ++ (if include_signature then write_var_bytes (block_sig h) else [])
      else write_hash_le (nonce h) ++ write_var_bytes (solution h)).

Definition header_consensus_encode (h : BlockHeader) : bytes := header_encode_with_mode true h.
Definition header_consensus_encode_for_hash (h : BlockHeader) : bytes :=
  header_encode_with_mode false h.

Definition header_hash `{Hashes} (h : BlockHeader) : Hash256 :=
  sha256d (header_consensus_encode_for_hash h).

(** [BlockHeader::consensus_decode_from]. *)
Definition header_decode_from (include_signature : bool) : parser DecodeError BlockHeader :=
  version ← read_i32_le;
  prev_block ← read_hash_le;
  merkle_root ← read_hash_le;
  final_sapling_root ← read_hash_le;
  time ← read_u32_le;
  bits ← read_u32_le;
  if version >=? PON_VERSION then
    nodes_collateral ← consensus_decode;
    block_sig ← (if include_signature then read_var_bytes else mret []);
    mret (mkBlockHeader version prev_block merkle_root final_sapling_root time bits
            (zeros 32) [] nodes_collateral block_sig)
  else
    nonce ← read_hash_le;
    solution ← read_var_bytes;
    mret (mkBlockHeader version prev_block merkle_root final_sapling_root time bits
            nonce solution OutPoint_null []).

Definition header_consensus_decode (bs : bytes) : result DecodeError BlockHeader :=
  decode_all TrailingBytes (header_decode_from true) bs.
Definition header_consensus_decode_for_hash (bs : bytes) : result DecodeError BlockHeader :=
  decode_all TrailingBytes (header_decode_from false) bs.

Record Block := mkBlock { header : BlockHeader; transactions : list Transaction }.

Inductive BlockDecodeError :=
| BlockDecode (error : DecodeError)
| BlockTransaction (error : TransactionDecodeError).

Definition block_consensus_encode (b : Block) : result TransactionEncodeError bytes :=
  txs ← encode_each tx_consensus_encode (transactions b);
  Ok (write_bytes (header_consensus_encode (header b))
      ++ write_varint (Z.of_nat (length (transactions b))) ++ txs).

Definition block_decode_from : parser BlockDecodeError Block :=
  header ← lift BlockDecode (header_decode_from true);
  count ← lift BlockDecode read_count;
  transactions ← read_n count (lift BlockTransaction (decode_from true));
  mret (mkBlock header transactions).

Definition block_consensus_decode (bs : bytes) : result BlockDecodeError Block :=
  decode_all (BlockDecode TrailingBytes) block_decode_from bs.

(** ** Well-formed headers and blocks *)
Definition header_wf (sigs : bool) (h : BlockHeader) : Prop :=
  is_i32 (bh_version h) /\ array 32 (prev_block h) /\ array 32 (merkle_root h)
  /\ array 32 (final_sapling_root h) /\ is_u32 (time h) /\ is_u32 (bits h)
  /\ if is_pon h then
       nonce h = zeros 32 /\ solution h = [] /\ OutPoint_wf (nodes_collateral h)
       /\ sig_wf sigs (block_sig h)
     else
       array 32 (nonce h) /\ var_ok (solution h) /\ nodes_collateral h = OutPoint_null
       /\ block_sig h = [].
#[global] Instance header_wf_dec sigs h : Decision (header_wf sigs h).
Proof. unfold header_wf; solve_wf_dec. Defined.

Definition Block_wf (b : Block) : Prop :=
  header_wf true (header b) /\ fits_compact (transactions b)
  /\ Forall (Transaction_wf true) (transactions b).
#[global] Instance Block_wf_dec b : Decision (Block_wf b).
Proof. unfold Block_wf; apply _. Defined.

(** The header without the signature that its hash leaves out. *)
Definition strip_block_sig (h : BlockHeader) : BlockHeader :=
  mkBlockHeader (bh_version h) (prev_block h) (merkle_root h) (final_sapling_root h) (time h)
    (bits h) (nonce h) (solution h) (nodes_collateral h) [].

(** ** Codec laws *)
Lemma header_reads sigs h :
  header_wf sigs h -> reads (header_decode_from sigs) (header_encode_with_mode sigs h) h.
Proof.
  destruct h as [v pb mr fs t b n sol nc sig]. unfold header_wf, is_pon; simpl.
  intros (?&?&?&?&?&?&Hk). unfold header_decode_from, header_encode_with_mode, is_pon.
  cbn [bh_version prev_block merkle_root final_sapling_root time bits nonce solution
    nodes_collateral block_sig].
  do 6 (eapply reads_bind; [by eauto with codec|]). destruct (v >=? PON_VERSION).
  - destruct Hk as (->&->&Hw&Hs). eapply reads_bind; [by apply (codec_reads nc)|].
    destruct sigs; [destruct Hs|simpl in Hs; subst]; solve_reads.
  - destruct Hk as (?&[? ?]&->&->). solve_reads.
Qed.

Lemma read_sig_field_parses (sigs : bool) :
  parses (if sigs then read_var_bytes else mret [])
    (fun s bs => sig_wf sigs s /\ bs = if sigs then write_var_bytes s else []).
Proof. destruct sigs; [apply read_var_bytes_parses|apply parses_ret]. Qed.

Lemma header_parses sigs :
  parses (header_decode_from sigs)
    (fun h bs => header_wf sigs h /\ bs = header_encode_with_mode sigs h).
Proof.
  unfold header_decode_from. eapply parses_conseq.
  { do 6 parses_step. apply (parses_if _ _ _ (fun h bs =>
      (bh_version h = a /\ prev_block h = a0 /\ merkle_root h = a1 /\ final_sapling_root h = a2
       /\ time h = a3 /\ bits h = a4)
      /\ (if a >=? PON_VERSION
          then (nonce h = zeros 32 /\ solution h = [] /\ OutPoint_wf (nodes_collateral h)
                /\ sig_wf sigs (block_sig h))
               /\ bs = consensus_encode (nodes_collateral h)
                       ++ if sigs then write_var_bytes (block_sig h) else []
          else (array 32 (nonce h) /\ var_ok (solution h) /\ nodes_collateral h = OutPoint_null
                /\ block_sig h = [])
               /\ bs = write_hash_le (nonce h) ++ write_var_bytes (solution h)))); intros ->.
    - eapply parses_conseq.
      { eapply parses_bind; [apply codec_parses|intros nc].
        eapply parses_bind; [apply read_sig_field_parses|intros sg; apply parses_ret]. }
      intros h bs _ ?. inv_parses. split_and!; done.
    - solve_parses. split_and!; done. }
  intros h bs _ ?. inv_parses. unfold header_wf, header_encode_with_mode, is_pon.
  destruct (bh_version h >=? PON_VERSION); destruct_and?; subst;
    match goal with H : _ = _ ++ _ |- _ => rewrite H | _ => idtac end; split_and!; done.
Qed.

Lemma transactions_reads txs :
  Forall (Transaction_wf true) txs ->
  reads_enc (read_n (length txs) (lift BlockTransaction (decode_from true)))
    (encode_each tx_consensus_encode txs) txs.
Proof.
  induction 1 as [|tx txs Htx _ (bs&He&Hr)].
  - exists []. split; [done|apply reads_ret].
  - destruct (Transaction_reads _ _ Htx) as (b&Heb&Hrb). exists (b ++ bs). split.
    + cbn [encode_each]. unfold tx_consensus_encode in *. by rewrite Heb, He.
    + cbn [length read_n]. eapply reads_bind; [by apply reads_lift|].
      eapply reads_bind_nil; [done|apply reads_ret].
Qed.

Lemma block_reads b :
  Block_wf b -> reads_enc block_decode_from (block_consensus_encode b) b.
Proof.
  destruct b as [h txs]. intros (Hh&Hf&Htx); simpl in *.
  destruct (transactions_reads _ Htx) as (bs&He&Hr).
  unfold block_consensus_encode; cbn [transactions header]. rewrite He. eexists; split; [reflexivity|].
  unfold block_decode_from, write_bytes.
  eapply reads_bind; [by apply reads_lift, header_reads|].
  eapply reads_bind; [by apply reads_lift, read_count_reads|].
  eapply reads_bind_nil; [done|apply reads_ret].
Qed.

Lemma transactions_parses n :
  parses (read_n n (lift BlockTransaction (decode_from true)))
    (fun txs bs => (length txs = n /\ Forall (Transaction_wf true) txs)
       /\ (Forall no_delegates txs -> encode_each tx_consensus_encode txs = Ok bs)).
Proof.
  induction n as [|n IH]; cbn [read_n].
  - eapply parses_conseq; [apply parses_ret|]. by intros l bs _ [-> ->].
  - eapply parses_conseq.
    { eapply parses_bind; [apply parses_lift, (Transaction_parses true)|intros tx].
      eapply parses_bind; [apply IH|intros txs; apply parses_ret]. }
    intros l bs _ (tx&b1&b2&->&_&[Hw He]&txs&b3&b4&->&_&[[<- Hws] Hes]&->&->).
    rewrite app_nil_r. split; [split; [done|by constructor]|].
    intros Hn. apply Forall_cons in Hn as [Hn Hns]. cbn [encode_each].
    unfold tx_consensus_encode in *. by rewrite (He Hn), (Hes Hns).
Qed.

Lemma block_parses :
  parses block_decode_from
    (fun b bs => Block_wf b
       /\ (Forall no_delegates (transactions b) -> block_consensus_encode b = Ok bs)).
Proof.
  unfold block_decode_from. eapply parses_conseq.
  { eapply parses_bind; [apply parses_lift, header_parses|intros h].
    eapply parses_bind; [apply parses_lift, read_count_parses|intros n].
    eapply parses_bind; [apply transactions_parses|intros txs; apply parses_ret]. }
  intros b bs _ ?. inv_parses. split; [split_and!; done|].
  intros Hn. unfold block_consensus_encode; cbn [transactions header].
  match goal with H : _ -> encode_each _ _ = Ok _ |- _ => rewrite (H Hn) end. reflexivity.
Qed.

Lemma no_panic_header sigs : no_panic (header_decode_from sigs).
Proof. unfold header_decode_from. solve_no_panic. Qed.
#[export] Hint Resolve no_panic_header : nopanic.
Lemma no_panic_block : no_panic block_decode_from.
Proof. unfold block_decode_from. solve_no_panic. Qed.

Lemma strip_block_sig_encode h :
  header_encode_with_mode false (strip_block_sig h) = header_encode_with_mode false h.
Proof. reflexivity. Qed.

Lemma strip_block_sig_wf h : header_wf true h -> header_wf false (strip_block_sig h).
Proof.
  unfold header_wf, is_pon; simpl. intros (?&?&?&?&?&?&Hk). do 6 (split; [done|]).
  destruct (_ >=? _); destruct_and?; split_and!; try done; by apply H8.
Qed.

Lemma reads_inj {E A} (m : parser E A) bs a1 a2 : reads m bs a1 -> reads m bs a2 -> a1 = a2.
Proof.
  intros H1 H2. specialize (H1 (new_decoder bs) [] ltac:(by rewrite rem_new, app_nil_r)).
  specialize (H2 (new_decoder bs) [] ltac:(by rewrite rem_new, app_nil_r)). congruence.
Qed.

(** The hashed form determines everything but the signature. *)
Lemma header_hash_form_inj h1 h2 :
  header_wf true h1 -> header_wf true h2 ->
  header_consensus_encode_for_hash h1 = header_consensus_encode_for_hash h2 ->
  strip_block_sig h1 = strip_block_sig h2.
Proof.
  unfold header_consensus_encode_for_hash.
  rewrite <- (strip_block_sig_encode h1), <- (strip_block_sig_encode h2). intros H1 H2 He.
  pose proof (header_reads _ _ (strip_block_sig_wf _ H1)) as R1.
  pose proof (header_reads _ _ (strip_block_sig_wf _ H2)) as R2.
  rewrite He in R1. exact (reads_inj _ _ _ _ R1 R2).
Qed.

Lemma header_hash_inj `{Hashes} h1 h2 :
  header_wf true h1 -> header_wf true h2 -> header_hash h1 = header_hash h2 ->
  strip_block_sig h1 = strip_block_sig h2 \/ sha256d_broken.
Proof.
  intros H1 H2 E. destruct (decide (header_consensus_encode_for_hash h1 = header_consensus_encode_for_hash h2)).
  - left. by apply header_hash_form_inj.
  - right. by exists (header_consensus_encode_for_hash h1), (header_consensus_encode_for_hash h2).
Qed.

(** ** Properties *)
Definition sample_pon_header : BlockHeader :=
  mkBlockHeader 100 (replicate 32 1) (replicate 32 2) (replicate 32 3) 1700000000 0x1e0fffff
    (zeros 32) [] (mkOutPoint (replicate 32 4) 0) (replicate 65 5).
Definition sample_pow_header : BlockHeader :=
  mkBlockHeader 4 (replicate 32 1) (replicate 32 2) (replicate 32 3) 1700000000 0x1e0fffff
    (replicate 32 9) (replicate 52 5) OutPoint_null [].
Definition sample_block : Block :=
  mkBlock sample_pon_header [sample_payment; sample_start_v6; sample_sapling].

(** Every well-formed block serializes without error and decoding its
    bytes gives the block back. *)
Theorem block_roundtrip (b : Block) (Hwf : Block_wf b) :
  exists bs, block_consensus_encode b = Ok bs /\ block_consensus_decode bs = Ok b.
Proof.
  destruct (block_reads _ Hwf) as (bs&He&Hr). exists bs. split; [done|by apply reads_decode_all].
Qed.

Lemma block_roundtrip_witness :
  exists bs, block_consensus_encode sample_block = Ok bs
    /\ block_consensus_decode bs = Ok sample_block.
Proof. apply block_roundtrip; by_decide. Defined.

(** Decoding a block from arbitrary bytes never aborts the node; a block it
    accepts is well formed, and when no transaction of it registers
    delegates, the accepted bytes are its only encoding. *)
Theorem block_decode_canonical (bs : bytes) (Hbs : bytes_ok bs) :
  match block_consensus_decode bs with
  | Ok b => Block_wf b
      /\ (Forall no_delegates (transactions b) -> block_consensus_encode b = Ok bs)
  | Err _ => True
  | Panic => False
  end.
Proof.
  destruct (block_consensus_decode bs) as [b|e|] eqn:Hd; [|done|].
  - exact (parses_decode_all _ _ _ _ _ block_parses Hbs Hd).
  - by apply no_panic_decode_all in Hd; [|apply no_panic_block].
Qed.

Definition sample_block_bytes : bytes :=
  match block_consensus_encode (mkBlock sample_pow_header [sample_payment; sample_sapling]) with
  | Ok bs => bs | _ => [] end.

Lemma block_decode_canonical_witness :
  match block_consensus_decode sample_block_bytes with
  | Ok b => Block_wf b
      /\ (Forall no_delegates (transactions b) -> block_consensus_encode b = Ok sample_block_bytes)
  | Err _ => True
  | Panic => False
  end /\ is_ok (block_consensus_decode sample_block_bytes) = true.
Proof.
  split; [apply (block_decode_canonical sample_block_bytes); by_decide|vm_compute; reflexivity].
Defined.

(** The bytes hashed into a block's id cover the whole header except the
    proof-of-node signature: two well-formed headers have the same hashed
    form exactly when they agree once that signature is dropped. *)
Theorem header_hash_form_commits (h1 h2 : BlockHeader)
    (H1 : header_wf true h1) (H2 : header_wf true h2) :
  header_consensus_encode_for_hash h1 = header_consensus_encode_for_hash h2
  <-> strip_block_sig h1 = strip_block_sig h2.
Proof.
  split; [by apply header_hash_form_inj|]. unfold header_consensus_encode_for_hash.
  rewrite <- (strip_block_sig_encode h1), <- (strip_block_sig_encode h2). by intros ->.
Qed.

Lemma header_hash_form_commits_witness :
  header_consensus_encode_for_hash sample_pon_header = header_consensus_encode_for_hash sample_pow_header
  <-> strip_block_sig sample_pon_header = strip_block_sig sample_pow_header.
Proof. apply header_hash_form_commits; by_decide. Defined.
