(* ===== verification/MerkleBlock.v ===== *)
(** * Merkle trees ([primitives/src/merkleblock.rs], [merkle_root] of
      [chainstate/src/validation.rs])

    The block merkle root with its mutation check, and the partial merkle
    trees of transaction proofs: building, serializing, decoding and
    extracting them.  Both are related to one reference definition, the
    [layer]s of the tree. *)

From S2P Require Import Prelude Consensus Encoding Hashing Transaction Block.
From Stdlib Require Import ZArith Lia.
From stdpp Require Import base list option numbers strings.
#[local] Open Scope Z_scope.

Definition MIN_SERIALIZED_TX_SIZE : Z := 60.

Record PartialMerkleTree := mkPMT {
  n_transactions : Z; pmt_bits : list bool; hashes : list Hash256 }.

(** ** Tree geometry *)
Definition calc_tree_width (n_transactions : Z) (height : nat) : Z :=
  let n := n_transactions in
  (* [1u64.checked_shl(height).unwrap_or(0)] *)
  let shift := if Nat.ltb height 64 then Z.shiftl 1 (Z.of_nat height) else 0 in
  if shift =? 0 then 0
  else
    let width := Z.shiftr (Z.min (n + Z.max (shift - 1) 0) u64_max) (Z.of_nat height) in
    if width <=? u32_max then width else u32_max.

(** The [while] loop of [calc_tree_height]; from height 64 on the width is 0. *)
Fixpoint calc_tree_height_loop (fuel : nat) (n_transactions : Z) (height : nat) : nat :=
  match fuel with
  | O => height
  | S fuel =>
    if calc_tree_width n_transactions height >? 1
    then calc_tree_height_loop fuel n_transactions (S height)
    else height
  end.
Definition calc_tree_height (n_transactions : Z) : nat :=
  calc_tree_height_loop 65 n_transactions 0.

Section merkle.
  Context {H : Hashes}.

Definition merkle_hash_pair (left right : Hash256) : Hash256 := sha256d (left ++ right).

(** ** Building *)
Fixpoint calc_hash {E} (n : Z) (height : nat) (pos : Z) (txids : list Hash256) : result E Hash256 :=
  match height with
  | O => index txids (Z.to_nat pos)
  | S height =>
    left ← calc_hash n height (saturating_mul_u32 pos 2) txids;
    right ← (if saturating_add_u32 (saturating_mul_u32 pos 2) 1 <? calc_tree_width n height
             then calc_hash n height (saturating_add_u32 (saturating_mul_u32 pos 2) 1) txids
             else Ok left);
    Ok (merkle_hash_pair left right)
  end.

(** The loop over [start..end] that stops at the first match. *)
Fixpoint any_match {E} (matches : list bool) (idx : nat) (count : nat) : result E bool :=
  match count with
  | O => Ok false
  | S count => m ← index matches idx; if m : bool then Ok true else any_match matches (S idx) count
  end.

(** [traverse_and_build] pushes onto the tree's [bits] and [hashes]. *)
Fixpoint traverse_and_build (height : nat) (pos : Z) (txids : list Hash256)
    (matches : list bool) (tree : PartialMerkleTree) : result DecodeError PartialMerkleTree :=
  let n := n_transactions tree in
  let start := Z.shiftl pos (Z.of_nat height) in
  let stop := Z.min (Z.shiftl (pos + 1) (Z.of_nat height)) n in
  parent_of_match ← any_match matches (Z.to_nat start) (Z.to_nat (stop - start));
  let tree := mkPMT n (pmt_bits tree ++ [parent_of_match]) (hashes tree) in
  match height with
  | O =>
    hash ← calc_hash n 0 pos txids;
    Ok (mkPMT n (pmt_bits tree) (hashes tree ++ [hash]))
  | S height' =>
    if negb parent_of_match then
      hash ← calc_hash n height pos txids;
      Ok (mkPMT n (pmt_bits tree) (hashes tree ++ [hash]))
    else
      tree ← traverse_and_build height' (saturating_mul_u32 pos 2) txids matches tree;
      if saturating_add_u32 (saturating_mul_u32 pos 2) 1 <? calc_tree_width n height'
      then traverse_and_build height' (saturating_add_u32 (saturating_mul_u32 pos 2) 1)
             txids matches tree
      else Ok tree
  end.

Definition from_txids (txids : list Hash256) (matches : list bool)
    : result DecodeError PartialMerkleTree :=
  if negb (Nat.eqb (length txids) (length matches))
  then Err (InvalidData "txids/matches length mismatch")
  else if Z.of_nat (length txids) >? u32_max then Err SizeTooLarge
  else
    let n := Z.of_nat (length txids) in
    traverse_and_build (calc_tree_height n) 0 txids matches (mkPMT n [] []).

(** ** Extracting *)
Record extract_state := mkES {
  bits_used : nat; hashes_used : nat; matches_out : list Hash256; bad : bool }.

Fixpoint traverse_and_extract (t : PartialMerkleTree) (height : nat) (pos : Z) (s : extract_state)
    : Hash256 * extract_state :=
  match pmt_bits t !! bits_used s with
  | None => (zeros 32, mkES (bits_used s) (hashes_used s) (matches_out s) true)
  | Some parent_of_match =>
    let s := mkES (S (bits_used s)) (hashes_used s) (matches_out s) (bad s) in
    let leaf :=
      match hashes t !! hashes_used s with
      | None => (zeros 32, mkES (bits_used s) (hashes_used s) (matches_out s) true)
      | Some hash =>
        (hash, mkES (bits_used s) (S (hashes_used s))
                 (if Nat.eqb height 0 && parent_of_match then matches_out s ++ [hash]
                  else matches_out s) (bad s))
      end in
    match height with
    | O => leaf
    | S height' =>
      if negb parent_of_match then leaf
      else
        let '(left_h, s) := traverse_and_extract t height' (saturating_mul_u32 pos 2) s in
        if saturating_add_u32 (saturating_mul_u32 pos 2) 1
           <? calc_tree_width (n_transactions t) height'
        then
          let '(right_h, s) :=
            traverse_and_extract t height' (saturating_add_u32 (saturating_mul_u32 pos 2) 1) s in
          (merkle_hash_pair left_h right_h,
           if bool_decide (right_h = left_h)
           then mkES (bits_used s) (hashes_used s) (matches_out s) true else s)
        else (merkle_hash_pair left_h left_h, s)
    end
  end.

Definition extract_matches_into (t : PartialMerkleTree) : option (Hash256 * list Hash256) :=
  if n_transactions t =? 0 then None
  else if n_transactions t >? MAX_BLOCK_SIZE / MIN_SERIALIZED_TX_SIZE then None
  else if Z.of_nat (length (hashes t)) >? n_transactions t then None
  else if Nat.ltb (length (pmt_bits t)) (length (hashes t)) then None
  else
    let '(root, s) :=
      traverse_and_extract t (calc_tree_height (n_transactions t)) 0 (mkES 0 0 [] false) in
    if bad s then None
    else if negb (Nat.eqb ((bits_used s + 7) / 8) ((length (pmt_bits t) + 7) / 8)) then None
    else if negb (Nat.eqb (hashes_used s) (length (hashes t))) then None
    else Some (root, matches_out s).

(** [extract_matches] returns the root and the vector the traversal filled. *)
Definition extract_matches (t : PartialMerkleTree) : option (Hash256 * list Hash256) :=
  extract_matches_into t.

(** ** [merkle_root] of block validation *)
Fixpoint merkle_pairs (fuel : nat) (layer : list Hash256) (i : nat) (next : list Hash256)
    (mutated : bool) : list Hash256 * bool :=
  match fuel with
  | O => (next, mutated)
  | S fuel =>
    let size := length layer in
    if Nat.ltb i size then
      let i2 := if Nat.ltb (i + 1) size then (i + 1)%nat else i in
      let a := default [] (layer !! i) in
      let b := default [] (layer !! i2) in
      let mutated := if Nat.eqb i2 (i + 1) && Nat.eqb (i2 + 1) size && bool_decide (a = b)
                     then true else mutated in
      merkle_pairs fuel layer (i + 2) (next ++ [sha256d (a ++ b)]) mutated
    else (next, mutated)
  end.

Fixpoint merkle_loop (fuel : nat) (layer : list Hash256) (mutated : bool) : Hash256 * bool :=
  match fuel with
  | O => (default [] (layer !! 0%nat), mutated)
  | S fuel =>
    if Nat.ltb 1 (length layer) then
      let '(next, mutated) := merkle_pairs (length layer) layer 0 [] mutated in
      merkle_loop fuel next mutated
    else (default [] (layer !! 0%nat), mutated)
  end.

(** Each pass halves the layer, so a pass per element is enough fuel. *)
Definition merkle_root (txids : list Hash256) : Hash256 * bool :=
  match txids with
  | [] => (zeros 32, false)
  | _ => merkle_loop (length txids) txids false
  end.
End merkle.

(** ** Serialization *)

(** Bit [i] of the flag bytes is bit [i mod 8] of byte [i / 8]. *)
Definition set_flag (flag_bytes : bytes) (idx : nat) : bytes :=
  alter (fun b => Z.lor b (Z.shiftl 1 (Z.of_nat (idx mod 8)))) (idx / 8)%nat flag_bytes.
Fixpoint pack_flags (flag_bytes : bytes) (idx : nat) (bits : list bool) : bytes :=
  match bits with
  | [] => flag_bytes
  | bit :: bits => pack_flags (if bit : bool then set_flag flag_bytes idx else flag_bytes) (S idx) bits
  end.
Definition flag_bytes (bits : list bool) : bytes :=
  pack_flags (zeros ((length bits + 7) / 8)) 0 bits.

Definition unpack_byte (byte : Z) : list bool :=
  map (fun bit => negb (Z.land byte (Z.shiftl 1 bit) =? 0)) [0; 1; 2; 3; 4; 5; 6; 7].
Definition unpack_flags (bs : bytes) : list bool := concat (map unpack_byte bs).

#[global] Instance PMT_encode : Encodable PartialMerkleTree := fun t =>
  write_u32_le (n_transactions t)
  ++ write_varint (Z.of_nat (length (hashes t))) ++ write_list write_hash_le (hashes t)
  ++ write_var_bytes (flag_bytes (pmt_bits t)).

#[global] Instance PMT_decode : Decodable PartialMerkleTree :=
  n ← read_u32_le;
  if n >? MAX_BLOCK_SIZE / MIN_SERIALIZED_TX_SIZE
  then fail (InvalidData "too many transactions in merkle tree")
  else
    hash_count ← read_count;
    if Z.of_nat hash_count >? n then fail (InvalidData "too many hashes in merkle tree")
    else
      hashes ← read_n hash_count read_hash_le;
      bs ← read_var_bytes;
      if Z.of_nat (length bs) >? (Z.min (Z.min (n * 2) u64_max + 7) u64_max) / 8
      then fail (InvalidData "too many flag bytes in merkle tree")
      else mret (mkPMT n (unpack_flags bs) hashes).

Record MerkleBlock := mkMerkleBlock { mb_header : BlockHeader; txn : PartialMerkleTree }.

#[global] Instance MerkleBlock_encode : Encodable MerkleBlock := fun m =>
  write_bytes (header_consensus_encode (mb_header m)) ++ consensus_encode (txn m).
#[global] Instance MerkleBlock_decode : Decodable MerkleBlock :=
  header ← header_decode_from true;
  txn ← consensus_decode;
  mret (mkMerkleBlock header txn).

(** ** Geometry lemmas *)
Lemma calc_tree_width_eq n h :
  0 <= n <= u32_max -> (h < 64)%nat ->
  calc_tree_width n h = (n + 2 ^ Z.of_nat h - 1) / 2 ^ Z.of_nat h.
Proof.
  intros Hn Hh. unfold calc_tree_width.
  replace (Nat.ltb h 64) with true by (symmetry; apply Nat.ltb_lt; lia).
  rewrite Z.shiftl_1_l.
  assert (H1 : 1 <= 2 ^ Z.of_nat h) by (pose proof (Z.pow_pos_nonneg 2 (Z.of_nat h)); lia).
  assert (H2 : 2 ^ Z.of_nat h <= 2 ^ 63) by (apply Z.pow_le_mono_r; lia).
  change (2 ^ 63) with 9223372036854775808 in H2. unfold u32_max, u64_max in *.
  bool_lia. rewrite Z.max_l, Z.min_l, Z.shiftr_div_pow2, Z.add_sub_assoc by lia.
  assert (Hw : (n + 2 ^ Z.of_nat h - 1) / 2 ^ Z.of_nat h <= 4294967295).
  { apply Z.div_le_upper_bound; [lia|].
    assert (n * 1 <= 4294967295 * 1) by lia. nia. }
  by bool_lia.
Qed.

Lemma calc_tree_width_0 n : 0 <= n <= u32_max -> calc_tree_width n 0 = n.
Proof. intros. rewrite calc_tree_width_eq by lia. change (2 ^ Z.of_nat 0) with 1. rewrite Z.div_1_r. lia. Qed.

Lemma calc_tree_width_S n h :
  0 <= n <= u32_max -> (S h < 64)%nat ->
  calc_tree_width n (S h) = (calc_tree_width n h + 1) / 2.
Proof.
  intros Hn Hh. rewrite !calc_tree_width_eq by lia. rewrite Nat2Z.inj_succ, Z.pow_succ_r by lia.
  assert (0 < 2 ^ Z.of_nat h) by (apply Z.pow_pos_nonneg; lia).
  set (q := 2 ^ Z.of_nat h) in *.
  replace ((n + q - 1) / q + 1) with ((n + q - 1 + 1 * q) / q) by (by rewrite Z.div_add by lia).
  rewrite Zdiv_Zdiv by lia. f_equal; lia.
Qed.

Lemma calc_tree_height_loop_spec n fuel h :
  (forall k, (h <= k < h + fuel)%nat -> calc_tree_width n k > 1) \/
  let r := calc_tree_height_loop fuel n h in
  (h <= r < h + fuel)%nat /\ calc_tree_width n r <= 1
  /\ forall k, (h <= k < r)%nat -> calc_tree_width n k > 1.
Proof.
  revert h; induction fuel as [|fuel IH]; intros h; cbn [calc_tree_height_loop]; [left; lia|].
  rewrite Z.gtb_ltb. destruct (Z.ltb_spec 1 (calc_tree_width n h)) as [Hw|Hw].
  - destruct (IH (S h)) as [Hall|(Hr&Hle&Hgt)].
    + left. intros k Hk. destruct (decide (k = h)) as [->|]; [lia|apply Hall; lia].
    + right. split; [lia|]. split; [done|]. intros k Hk.
      destruct (decide (k = h)) as [->|]; [lia|apply Hgt; lia].
  - right. split_and!; [lia|lia|done|lia].
Qed.

(** The height loop ends, at the first height with a single node. *)
Lemma calc_tree_height_spec n :
  0 <= n <= u32_max ->
  (calc_tree_height n < 64)%nat /\ calc_tree_width n (calc_tree_height n) <= 1
  /\ forall k, (k < calc_tree_height n)%nat -> calc_tree_width n k > 1.
Proof.
  intros Hn. unfold calc_tree_height.
  assert (H40 : calc_tree_width n 40 <= 1).
  { rewrite calc_tree_width_eq by lia. change (2 ^ Z.of_nat 40) with 1099511627776.
    unfold u32_max in *. apply Z.lt_succ_r, Z.div_lt_upper_bound; lia. }
  destruct (calc_tree_height_loop_spec n 65 0) as [Hall|(Hr&Hle&Hgt)].
  { specialize (Hall 40%nat ltac:(lia)). lia. }
  split_and!; [|done|intros; apply Hgt; lia].
  destruct (decide (calc_tree_height_loop 65 n 0 <= 40)%nat); [lia|].
  specialize (Hgt 40%nat ltac:(lia)). lia.
Qed.

(** ** The reference tree: its layers *)
Section layers.
  Context {H : Hashes}.

Fixpoint pair_up (l : list Hash256) : list Hash256 :=
  match l with
  | [] => []
  | [a] => [merkle_hash_pair a a]
  | a :: b :: l => merkle_hash_pair a b :: pair_up l
  end.

Fixpoint layer (h : nat) (txids : list Hash256) : list Hash256 :=
  match h with O => txids | S h => pair_up (layer h txids) end.

(** No two siblings of the tree have the same hash. *)
Fixpoint siblings_differ (l : list Hash256) : bool :=
  match l with a :: b :: l => negb (bool_decide (a = b)) && siblings_differ l | _ => true end.
Definition distinct_siblings (txids : list Hash256) : bool :=
  forallb (fun h => siblings_differ (layer h txids))
    (seq 0 (calc_tree_height (Z.of_nat (length txids)))).

(** Induction two elements at a time. *)
Lemma list_ind2 {A} (P : list A -> Prop) :
  P [] -> (forall a, P [a]) -> (forall a b l, P l -> P (a :: b :: l)) -> forall l, P l.
Proof.
  intros H0 H1 H2. fix IH 1. intros [|a [|b l]]; [apply H0|apply H1|apply H2, IH].
Qed.

Lemma siblings_differ_lookup l p a :
  siblings_differ l = true -> l !! (2 * p)%nat = Some a -> l !! (2 * p + 1)%nat = Some a -> False.
Proof.
  revert p. induction l as [|x|x y l IH] using list_ind2; intros p; cbn [siblings_differ].
  - done.
  - destruct p; [done|]. replace (2 * S p)%nat with (S (S (2 * p))) by lia. done.
  - intros [Hne Hl]%andb_true_iff. destruct p as [|p].
    + intros [= <-] [= ->]. by rewrite bool_decide_eq_true_2 in Hne.
    + replace (2 * S p)%nat with (S (S (2 * p))) by lia. apply (IH p Hl).
Qed.

Lemma distinct_siblings_lookup txids h p a :
  distinct_siblings txids = true -> (h < calc_tree_height (Z.of_nat (length txids)))%nat ->
  layer h txids !! (2 * p)%nat = Some a -> layer h txids !! (2 * p + 1)%nat = Some a -> False.
Proof.
  intros Hd Hh. apply siblings_differ_lookup. unfold distinct_siblings in Hd.
  rewrite forallb_forall in Hd. apply Hd, in_seq. lia.
Qed.

Lemma pair_up_lookup l p :
  pair_up l !! p = match l !! (2 * p)%nat with
                   | Some a => Some (merkle_hash_pair a (default a (l !! (2 * p + 1)%nat)))
                   | None => None
                   end.
Proof.
  revert p. induction l as [|a|a b l IH] using list_ind2; intros p.
  - done.
  - destruct p; [done|]. replace (2 * S p)%nat with (S (S (2 * p))) by lia. done.
  - destruct p as [|p]; [done|]. replace (2 * S p)%nat with (S (S (2 * p))) by lia.
    cbn [pair_up]. cbn [lookup list_lookup]. apply IH.
Qed.

Lemma length_pair_up l : length (pair_up l) = ((length l + 1) / 2)%nat.
Proof.
  induction l as [|a|a b l IH] using list_ind2; [done|done|].
  cbn [pair_up length]. rewrite IH.
  replace (S (S (length l)) + 1)%nat with (length l + 1 + 1 * 2)%nat by lia.
  rewrite Nat.div_add by lia. lia.
Qed.

Lemma length_layer h txids :
  Z.of_nat (length txids) <= u32_max -> (h < 64)%nat ->
  Z.of_nat (length (layer h txids)) = calc_tree_width (Z.of_nat (length txids)) h.
Proof.
  intros Hn. induction h as [|h IH]; intros Hh; cbn [layer].
  - by rewrite calc_tree_width_0 by lia.
  - rewrite length_pair_up, calc_tree_width_S by lia. rewrite <- IH by lia.
    rewrite Nat2Z.inj_div. lia.
Qed.

Lemma length_layer_le h txids : (length (layer h txids) <= length txids)%nat.
Proof.
  induction h as [|h IH]; cbn [layer]; [lia|]. rewrite length_pair_up.
  destruct (length (layer h txids)) as [|k] eqn:E; [simpl; lia|].
  assert ((S k + 1) / 2 <= S k)%nat by (apply Nat.Div0.div_le_upper_bound; lia). lia.
Qed.

(** A node of layer [S h] has its left child, and its right child exactly when
    the code's width test says so. *)
Lemma children txids h p :
  Z.of_nat (length txids) <= u32_max -> (S h < 64)%nat ->
  (p < length (layer (S h) txids))%nat ->
  let n := Z.of_nat (length txids) in
  let c := saturating_mul_u32 (Z.of_nat p) 2 in
  c = Z.of_nat (2 * p) /\ saturating_add_u32 c 1 = Z.of_nat (2 * p + 1)
  /\ (2 * p < length (layer h txids))%nat
  /\ (saturating_add_u32 c 1 <? calc_tree_width n h)
     = Nat.ltb (2 * p + 1) (length (layer h txids)).
Proof.
  intros Hn Hh Hp. cbv zeta. cbn [layer] in Hp. rewrite length_pair_up in Hp.
  pose proof (length_layer_le h txids) as Hle.
  assert (H2p : (2 * p < length (layer h txids))%nat).
  { pose proof (Nat.Div0.div_mod (length (layer h txids) + 1) 2). pose proof (Nat.mod_upper_bound (length (layer h txids) + 1) 2). lia. }
  unfold saturating_mul_u32, saturating_add_u32, u32_max in *.
  rewrite !Z.min_l by lia. split_and!; [lia|lia|done|].
  rewrite <- length_layer by (unfold u32_max; lia).
  destruct (Nat.ltb_spec (2 * p + 1) (length (layer h txids))); [apply Z.ltb_lt|apply Z.ltb_ge]; lia.
Qed.

Lemma calc_hash_layer {E} txids h p x :
  Z.of_nat (length txids) <= u32_max -> (h < 64)%nat -> layer h txids !! p = Some x ->
  calc_hash (E:=E) (Z.of_nat (length txids)) h (Z.of_nat p) txids = Ok x.
Proof.
  intros Hn. revert p x; induction h as [|h IH]; intros p x Hh Hx.
  - unfold calc_hash, index. rewrite Nat2Z.id. cbn [layer] in Hx. by rewrite Hx.
  - destruct (children txids h p) as (Hc&Hc1&H2p&Hw); [done|done|by apply lookup_lt_Some in Hx|].
    cbn [layer] in Hx. rewrite pair_up_lookup in Hx.
    destruct (lookup_lt_is_Some_2 _ _ H2p) as [a Ha]. rewrite Ha in Hx. apply (inj Some) in Hx as <-.
    cbn [calc_hash]. rewrite Hw, Hc1, Hc. rewrite (IH (2 * p)%nat a) by (done || lia).
    unfold mbind, result_bind.
    destruct (Nat.ltb_spec (2 * p + 1) (length (layer h txids))) as [Hlt|Hge].
    + destruct (lookup_lt_is_Some_2 _ _ Hlt) as [b Hb]. rewrite (IH (2 * p + 1)%nat b) by (done || lia).
      by rewrite Hb.
    + apply lookup_ge_None in Hge. by rewrite Hge.
Qed.
End layers.

(** ** The leaves below a node *)
Definition leaves {A} (h p : nat) (l : list A) : list A := take (2 ^ h) (drop (p * 2 ^ h) l).

Lemma leaves_0 {A} p (l : list A) : leaves 0 p l = match l !! p with Some a => [a] | None => [] end.
Proof.
  unfold leaves. change (2 ^ 0)%nat with 1%nat. rewrite Nat.mul_1_r.
  destruct (l !! p) as [a|] eqn:E.
  - by rewrite (drop_S _ _ _ E).
  - apply lookup_ge_None in E. by rewrite drop_ge.
Qed.

Lemma leaves_S {A} h p (l : list A) : leaves (S h) p l = leaves h (2 * p) l ++ leaves h (2 * p + 1) l.
Proof.
  unfold leaves. rewrite Nat.pow_succ_r'.
  replace (p * (2 * 2 ^ h))%nat with (2 * p * 2 ^ h)%nat by lia.
  replace ((2 * p + 1) * 2 ^ h)%nat with (2 * p * 2 ^ h + 2 ^ h)%nat by lia.
  rewrite <- drop_drop. set (r := drop (2 * p * 2 ^ h) l).
  replace (2 * 2 ^ h)%nat with (2 ^ h + 2 ^ h)%nat by lia. by rewrite take_take_drop.
Qed.

Lemma leaves_top {A} h (l : list A) : (length l <= 2 ^ h)%nat -> leaves h 0 l = l.
Proof. intros. unfold leaves. rewrite Nat.mul_0_l, drop_0. by apply take_ge. Qed.

Lemma length_leaves {A B} h p (l : list A) (m : list B) :
  length l = length m -> length (leaves h p l) = length (leaves h p m).
Proof. intros E. unfold leaves. by rewrite !length_take, !length_drop, E. Qed.

Lemma any_match_spec {E} matches idx count :
  (idx + count <= length matches)%nat ->
  any_match (E:=E) matches idx count = Ok (existsb id (take count (drop idx matches))).
Proof.
  revert idx; induction count as [|count IH]; intros idx Hle; cbn [any_match]; [done|].
  destruct (lookup_lt_is_Some_2 matches idx) as [m Hm]; [lia|].
  unfold index. rewrite Hm, (drop_S _ _ _ Hm). cbn.
  destruct m; [done|]. rewrite IH by lia. done.
Qed.

(** The code's [start..end] range is the node's leaves. *)
Lemma any_match_leaves {E} matches n h p :
  n = Z.of_nat (length matches) ->
  (p * 2 ^ h <= length matches)%nat ->
  any_match (E:=E) matches (Z.to_nat (Z.shiftl (Z.of_nat p) (Z.of_nat h)))
    (Z.to_nat (Z.min (Z.shiftl (Z.of_nat p + 1) (Z.of_nat h)) n
               - Z.shiftl (Z.of_nat p) (Z.of_nat h)))
  = Ok (existsb id (leaves h p matches)).
Proof.
  intros -> Hle. rewrite !Z.shiftl_mul_pow2 by lia.
  replace (2 ^ Z.of_nat h) with (Z.of_nat (2 ^ h)) by (by rewrite Nat2Z.inj_pow).
  set (q := (2 ^ h)%nat) in *.
  replace (Z.to_nat (Z.of_nat p * Z.of_nat q)) with (p * q)%nat by lia.
  replace (Z.to_nat _) with (Nat.min q (length matches - p * q)) by lia.
  rewrite any_match_spec by lia. do 2 f_equal. unfold leaves. fold q.
  destruct (Nat.le_ge_cases q (length matches - p * q)).
  - by rewrite Nat.min_l.
  - rewrite Nat.min_r by done. rewrite !take_ge by (rewrite ?length_drop; lia). done.
Qed.

Lemma leaves_nil {A} h p (l : list A) : (length l <= p * 2 ^ h)%nat -> leaves h p l = [].
Proof. intros. unfold leaves. by rewrite drop_ge, take_nil. Qed.

(** The transactions a match vector selects. *)
Fixpoint selected {A} (l : list A) (matches : list bool) : list A :=
  match l, matches with
  | x :: l, m :: matches => (if m : bool then [x] else []) ++ selected l matches
  | _, _ => []
  end.

Lemma selected_nil_r {A} (l : list A) : selected l [] = [].
Proof. by destruct l. Qed.

Lemma selected_app {A} (l1 l2 : list A) m1 m2 :
  length l1 = length m1 -> selected (l1 ++ l2) (m1 ++ m2) = selected l1 m1 ++ selected l2 m2.
Proof.
  revert m1; induction l1 as [|x l1 IH]; intros [|b m1]; try done; simpl.
  intros [= E]. by rewrite IH, app_assoc.
Qed.

Lemma selected_none {A} (l : list A) m : existsb id m = false -> selected l m = [].
Proof.
  revert m; induction l as [|x l IH]; intros [|b m]; try done; simpl.
  intros [-> Hm]%orb_false_iff. by rewrite IH.
Qed.

(** A node of the tree has at least one leaf. *)
Lemma node_start {H : Hashes} txids h p : (p < length (layer h txids))%nat -> (p * 2 ^ h < length txids)%nat.
Proof.
  revert p; induction h as [|h IH]; intros p; cbn [layer].
  - rewrite Nat.mul_1_r. done.
  - rewrite length_pair_up. intros Hp.
    assert (H2 : (2 * p < length (layer h txids))%nat).
    { pose proof (Nat.Div0.div_mod (length (layer h txids) + 1) 2).
      pose proof (Nat.mod_upper_bound (length (layer h txids) + 1) 2). lia. }
    specialize (IH _ H2). rewrite Nat.pow_succ_r'. lia.
Qed.

Lemma node_end {H : Hashes} txids h q : (length (layer h txids) <= q)%nat -> (length txids <= q * 2 ^ h)%nat.
Proof.
  revert q; induction h as [|h IH]; intros q; cbn [layer].
  - rewrite Nat.mul_1_r. done.
  - rewrite length_pair_up. intros Hq.
    assert (H2 : (length (layer h txids) <= 2 * q)%nat).
    { pose proof (Nat.Div0.div_mod (length (layer h txids) + 1) 2).
      pose proof (Nat.mod_upper_bound (length (layer h txids) + 1) 2). lia. }
    specialize (IH _ H2). rewrite Nat.pow_succ_r'. lia.
Qed.

(** ** What building produces *)
Section build.
  Context {H : Hashes}.
  Context (txids : list Hash256) (matches : list bool).
  Context (Hlen : length txids = length matches).
  Context (Hn : Z.of_nat (length txids) <= u32_max).

Inductive built : nat -> nat -> list bool -> list Hash256 -> Prop :=
| built_leaf p x m : txids !! p = Some x -> matches !! p = Some m -> built 0 p [m] [x]
| built_prune h p x :
    layer (S h) txids !! p = Some x -> existsb id (leaves (S h) p matches) = false ->
    built (S h) p [false] [x]
| built_one h p b hs :
    existsb id (leaves (S h) p matches) = true ->
    (length (layer h txids) <= 2 * p + 1)%nat -> (p < length (layer (S h) txids))%nat ->
    built h (2 * p) b hs -> built (S h) p (true :: b) hs
| built_two h p b1 hs1 b2 hs2 :
    existsb id (leaves (S h) p matches) = true ->
    (2 * p + 1 < length (layer h txids))%nat ->
    built h (2 * p) b1 hs1 -> built h (2 * p + 1) b2 hs2 ->
    built (S h) p (true :: b1 ++ b2) (hs1 ++ hs2).

Lemma traverse_and_build_spec h p tree :
  (h < 64)%nat -> (p < length (layer h txids))%nat ->
  n_transactions tree = Z.of_nat (length txids) ->
  exists b hs, built h p b hs /\
    traverse_and_build h (Z.of_nat p) txids matches tree
    = Ok (mkPMT (n_transactions tree) (pmt_bits tree ++ b) (hashes tree ++ hs)).
Proof.
  revert p tree; induction h as [|h IH]; intros p tree Hh Hp Ht;
    cbn [traverse_and_build]; cbv zeta; rewrite any_match_leaves;
    try (rewrite Ht, Hlen; done); try (pose proof (node_start _ _ _ Hp); lia).
  - cbn [layer] in Hp. destruct (lookup_lt_is_Some_2 _ _ Hp) as [x Hx].
    destruct (lookup_lt_is_Some_2 matches p) as [m Hm]; [lia|].
    exists [m], [x]. split; [by constructor|].
    rewrite leaves_0, Hm. unfold calc_hash, index. rewrite Nat2Z.id, Hx. cbn. by rewrite orb_false_r.
  - destruct (existsb id (leaves (S h) p matches)) eqn:Hm;
      cbn [negb]; unfold mbind at 1, result_bind at 1; cbn [negb].
    + destruct (children txids h p) as (Hc&Hc1&H2p&Hw); [done..|].
      cbn [n_transactions]. rewrite Ht, Hw, Hc1, Hc.
      destruct (IH (2 * p)%nat (mkPMT (Z.of_nat (length txids)) (pmt_bits tree ++ [true]) (hashes tree)))
        as (b1&hs1&Hb1&->); [lia|done|done|].
      cbn [n_transactions pmt_bits hashes]. unfold mbind, result_bind.
      destruct (Nat.ltb_spec (2 * p + 1) (length (layer h txids))) as [Hlt|Hge].
      * edestruct (IH (2 * p + 1)%nat) as (b2&hs2&Hb2&->); [lia|done|done|].
        cbn [n_transactions pmt_bits hashes].
        eexists _, _. split; [by apply built_two|]. f_equal. f_equal; simplify_list_eq; done.
      * eexists _, _. split; [by apply built_one|]. f_equal. f_equal; simplify_list_eq; done.
    + destruct (lookup_lt_is_Some_2 _ _ Hp) as [x Hx].
      cbn [n_transactions]. rewrite Ht, (calc_hash_layer _ _ _ x) by done. cbn.
      exists [false], [x]. split; [by constructor|done].
Qed.

(** Sizes of what is pushed. *)
Lemma built_lengths h p b hs :
  built h p b hs ->
  (1 <= length hs <= length (leaves h p txids))%nat /\ (length hs <= length b)%nat.
Proof.
  induction 1 as [p x m Hx|h p x Hx _|h p b hs _ Hge Hp _ IH|h p b1 hs1 b2 hs2 _ _ _ IH1 _ IH2].
  - rewrite leaves_0, Hx. simpl. lia.
  - apply lookup_lt_Some, node_start in Hx. unfold leaves.
    rewrite length_take, length_drop. simpl.
    pose proof (Nat.pow_nonzero 2 (S h)). simpl in *. lia.
  - rewrite leaves_S, length_app. simpl in *. lia.
  - rewrite leaves_S, !length_app. cbn [length]. rewrite !length_app. lia.
Qed.

Lemma traverse_and_extract_built t h p b hs :
  distinct_siblings txids = true -> built h p b hs ->
  (h < 64)%nat -> (h <= calc_tree_height (Z.of_nat (length txids)))%nat ->
  n_transactions t = Z.of_nat (length txids) ->
  forall s pb qb ph qh,
  pmt_bits t = pb ++ b ++ qb -> bits_used s = length pb ->
  hashes t = ph ++ hs ++ qh -> hashes_used s = length ph ->
  exists x, layer h txids !! p = Some x /\
    traverse_and_extract t h (Z.of_nat p) s
    = (x, mkES (length pb + length b) (length ph + length hs)
            (matches_out s ++ selected (leaves h p txids) (leaves h p matches)) (bad s)).
Proof.
  intros Hd Hb. induction Hb as [p x m Hx Hm|h p x Hx Hno|h p b hs Hany Hge Hp Hb IH
    |h p b1 hs1 b2 hs2 Hany Hlt Hb1 IH1 Hb2 IH2];
    intros Hh Hht Ht s pb qb ph qh Eb Hbu Eh Hhu; cbn [traverse_and_extract]; rewrite Eb, Hbu.
  - exists x. split; [done|]. rewrite lookup_app_r, Nat.sub_diag by lia.
    rewrite !leaves_0, Hx, Hm. cbn.
    rewrite Eh, Hhu, lookup_app_r, Nat.sub_diag by lia. cbn.
    rewrite !Nat.add_1_r. destruct m; rewrite ?app_nil_r; done.
  - exists x. split; [done|]. rewrite (selected_none _ _ Hno), app_nil_r.
    rewrite lookup_app_r, Nat.sub_diag by lia. cbn.
    rewrite Eh, Hhu, lookup_app_r, Nat.sub_diag by lia. cbn.
    rewrite !Nat.add_1_r. done.
  - destruct (children txids h p) as (Hc&Hc1&H2p&Hw); [done..|].
    rewrite lookup_app_r, Nat.sub_diag by lia. cbn [lookup list_lookup app].
    cbn [negb]. rewrite Ht, Hw, Hc.
    destruct (IH ltac:(lia) ltac:(lia) Ht (mkES (S (length pb)) (hashes_used s) (matches_out s) (bad s))
      (pb ++ [true]) qb ph qh) as (x&Hx&Hx'); [by rewrite Eb, <- app_assoc|by rewrite length_app; simpl; lia|done|done|].
    cbn [bits_used hashes_used matches_out bad] in *. rewrite Hx'.
    replace (Nat.ltb _ _) with false by (symmetry; apply Nat.ltb_ge; lia).
    exists (merkle_hash_pair x x). split.
    + cbn [layer]. rewrite pair_up_lookup, Hx. by rewrite (lookup_ge_None_2 _ (2 * p + 1)).
    + rewrite !leaves_S, selected_app by by apply length_leaves.
      rewrite (leaves_nil h (2 * p + 1) matches) by (rewrite <- Hlen; by apply node_end).
      rewrite selected_nil_r, app_nil_r. do 2 f_equal. rewrite length_app; simpl; lia.
  - assert (Hp : (p < length (layer (S h) txids))%nat).
    { cbn [layer]. rewrite length_pair_up. apply Nat.div_le_lower_bound; lia. }
    destruct (children txids h p) as (Hc&Hc1&H2p&Hw); [done..|].
    rewrite lookup_app_r, Nat.sub_diag by lia. cbn [lookup list_lookup app].
    cbn [negb]. rewrite Ht, Hw, Hc1, Hc.
    destruct (IH1 ltac:(lia) ltac:(lia) Ht (mkES (S (length pb)) (hashes_used s) (matches_out s) (bad s))
      (pb ++ [true]) (b2 ++ qb) ph (hs2 ++ qh)) as (x&Hx&Hx');
      [by rewrite Eb; simplify_list_eq|by rewrite length_app; simpl; lia|by rewrite Eh; simplify_list_eq|done|].
    cbn [bits_used hashes_used matches_out bad] in *. rewrite Hx'.
    replace (Nat.ltb _ _) with true by (symmetry; apply Nat.ltb_lt; lia).
    destruct (IH2 ltac:(lia) ltac:(lia) Ht (mkES (length (pb ++ [true]) + length b1) (length ph + length hs1)
      (matches_out s ++ selected (leaves h (2 * p) txids) (leaves h (2 * p) matches)) (bad s))
      (pb ++ [true] ++ b1) qb (ph ++ hs1) qh) as (y&Hy&Hy');
      [by rewrite Eb; simplify_list_eq|by rewrite !length_app; simpl; lia|by rewrite Eh; simplify_list_eq
      |by rewrite (length_app ph)|].
    rewrite Hy'. cbn [bits_used hashes_used matches_out bad].
    rewrite bool_decide_eq_false_2 by (intros ->; by eapply distinct_siblings_lookup).
    exists (merkle_hash_pair x y). split.
    + cbn [layer]. by rewrite pair_up_lookup, Hx, Hy.
    + rewrite !leaves_S, selected_app by by apply length_leaves.
      rewrite !length_app. cbn [length]. rewrite !length_app, app_assoc. do 2 f_equal; lia.
Qed.
End build.

(** ** Flag bytes *)
Definition flag_bit (fb : bytes) (j : nat) : bool :=
  Z.testbit (default 0 (fb !! (j / 8)%nat)) (Z.of_nat (j mod 8)).

Lemma land_bit_test b k : 0 <= k -> negb (Z.land b (Z.shiftl 1 k) =? 0) = Z.testbit b k.
Proof.
  intros Hk. rewrite Z.shiftl_1_l. destruct (Z.testbit b k) eqn:Eb.
  - apply negb_true_iff, Z.eqb_neq. intros E.
    apply (f_equal (fun z => Z.testbit z k)) in E.
    rewrite Z.land_spec, Z.pow2_bits_true, Eb, Z.bits_0 in E by done. done.
  - apply negb_false_iff, Z.eqb_eq, Z.bits_inj'. intros i Hi.
    rewrite Z.land_spec, Z.bits_0, Z.pow2_bits_eqb by done.
    destruct (Z.eqb_spec k i) as [<-|]; [by rewrite Eb|by rewrite andb_false_r].
Qed.

Lemma lor_bit_u8 b k : is_u8 b -> (k < 8)%nat -> is_u8 (Z.lor b (Z.shiftl 1 (Z.of_nat k))).
Proof.
  intros Hb Hk. rewrite Z.shiftl_1_l. unfold is_u8 in *.
  assert (0 <= Z.lor b (2 ^ Z.of_nat k)) by (apply Z.lor_nonneg; split; [lia|apply Z.pow_nonneg; lia]).
  split; [done|]. change 256 with (2 ^ 8).
  destruct (Z.eq_dec (Z.lor b (2 ^ Z.of_nat k)) 0) as [->|]; [done|].
  apply Z.log2_lt_pow2; [lia|]. rewrite Z.log2_lor by (try apply Z.pow_nonneg; lia).
  rewrite Z.log2_pow2 by lia. apply Z.max_lub_lt; [|lia].
  destruct (Z.eq_dec b 0) as [->|]; [done|]. apply Z.log2_lt_pow2; simpl; lia.
Qed.

Lemma length_set_flag fb i : length (set_flag fb i) = length fb.
Proof. apply length_alter. Qed.

Lemma set_flag_bit fb i j :
  (i < 8 * length fb)%nat -> flag_bit (set_flag fb i) j = bool_decide (i = j) || flag_bit fb j.
Proof.
  intros Hi. unfold flag_bit, set_flag.
  assert (Hq : (i / 8 < length fb)%nat) by (apply Nat.Div0.div_lt_upper_bound; lia).
  destruct (lookup_lt_is_Some_2 _ _ Hq) as [b Hb].
  destruct (decide (i / 8 = j / 8)%nat) as [E|E].
  - rewrite <- E, list_lookup_alter, decide_True, Hb by done. cbn [fmap option_fmap option_map default from_option id].
    rewrite Z.lor_spec, Z.shiftl_1_l, Z.pow2_bits_eqb by lia. rewrite orb_comm. f_equal.
    apply eq_true_iff_eq. rewrite Z.eqb_eq, bool_decide_eq_true.
    pose proof (Nat.div_mod_eq i 8). pose proof (Nat.div_mod_eq j 8). split; [lia|by intros ->].
  - rewrite list_lookup_alter_ne by done. rewrite bool_decide_eq_false_2; [done|by intros ->].
Qed.

Lemma pack_flags_bit bits fb idx j :
  (idx + length bits <= 8 * length fb)%nat ->
  flag_bit (pack_flags fb idx bits) j
  = (if decide (idx <= j)%nat then default false (bits !! (j - idx)%nat) else false) || flag_bit fb j.
Proof.
  revert fb idx; induction bits as [|b bits IH]; intros fb idx Hle; cbn [pack_flags].
  - by destruct (decide _).
  - cbn [length] in Hle. rewrite IH by (destruct b; rewrite ?length_set_flag; lia).
    assert (Hf : flag_bit (if b then set_flag fb idx else fb) j
                 = (b && bool_decide (idx = j)) || flag_bit fb j).
    { destruct b; [rewrite set_flag_bit by lia|]; done. }
    rewrite Hf, orb_assoc. f_equal.
    destruct (decide (S idx <= j)%nat), (decide (idx <= j)%nat); try lia.
    + replace (j - idx)%nat with (S (j - S idx)) by lia. cbn.
      rewrite bool_decide_eq_false_2 by lia. by rewrite andb_false_r, orb_false_r.
    + assert (idx = j) as <- by lia. rewrite Nat.sub_diag. cbn.
      rewrite bool_decide_eq_true_2 by done. by rewrite andb_true_r.
    + rewrite bool_decide_eq_false_2 by lia. by rewrite andb_false_r.
Qed.

Lemma length_pack_flags bits fb idx : length (pack_flags fb idx bits) = length fb.
Proof.
  revert fb idx; induction bits as [|[] bits IH]; intros fb idx; cbn [pack_flags]; [done|..];
    rewrite IH; [apply length_set_flag|done].
Qed.

Lemma pack_flags_ok bits fb idx : bytes_ok fb -> bytes_ok (pack_flags fb idx bits).
Proof.
  revert fb idx; induction bits as [|b bits IH]; intros fb idx Hfb; cbn [pack_flags]; [done|].
  apply IH. destruct b; [|done]. unfold set_flag, bytes_ok. apply Forall_alter; [done|].
  intros x _ Hx. apply lor_bit_u8; [done|]. by apply Nat.mod_upper_bound.
Qed.

Lemma unpack_flags_lookup bs j :
  unpack_flags bs !! j = if decide (j < 8 * length bs)%nat then Some (flag_bit bs j) else None.
Proof.
  unfold unpack_flags, flag_bit. revert j; induction bs as [|b bs IH]; intros j; cbn [map concat].
  - destruct (decide _); simpl in *; [lia|done].
  - destruct (decide (j < 8)%nat) as [Hj|Hj].
    + rewrite lookup_app_l by (simpl; lia). rewrite decide_True by (simpl; lia).
      rewrite Nat.div_small, Nat.mod_small by done. cbn [lookup list_lookup].
      unfold unpack_byte. rewrite !(map_cons _ _ _). cbn [map].
      rewrite !land_bit_test by lia.
      do 8 (destruct j as [|j]; [done|]). lia.
    + rewrite lookup_app_r by (simpl; lia). change (length (unpack_byte b)) with 8%nat. rewrite IH.
      assert (E : j = (j - 8 + 1 * 8)%nat) by lia.
      destruct (decide (j - 8 < 8 * length bs)%nat).
      * rewrite decide_True by (simpl; lia). do 2 f_equal.
        -- rewrite E at 2. rewrite Nat.div_add by done. by rewrite Nat.add_1_r.
        -- rewrite E at 2. by rewrite Nat.Div0.mod_add.
      * rewrite decide_False by (simpl; lia). done.
Qed.

Lemma length_flag_bytes bits : length (flag_bytes bits) = ((length bits + 7) / 8)%nat.
Proof. unfold flag_bytes, zeros. by rewrite length_pack_flags, length_replicate. Qed.

Lemma flag_bytes_room (bits : list bool) : (length bits <= 8 * ((length bits + 7) / 8))%nat.
Proof. pose proof (Nat.div_mod_eq (length bits + 7) 8). pose proof (Nat.mod_upper_bound (length bits + 7) 8). lia. Qed.

(** Decoded flags are the encoded ones, padded to whole bytes. *)
Lemma unpack_flag_bytes bits :
  unpack_flags (flag_bytes bits)
  = bits ++ replicate (8 * ((length bits + 7) / 8) - length bits) false.
Proof.
  pose proof (flag_bytes_room bits) as Hr.
  apply list_eq. intros j. rewrite unpack_flags_lookup, length_flag_bytes.
  unfold flag_bytes. rewrite pack_flags_bit by (unfold zeros; rewrite length_replicate; lia).
  destruct (decide (0 <= j)%nat) as [_|]; [|lia]. rewrite Nat.sub_0_r.
  assert (E0 : flag_bit (zeros ((length bits + 7) / 8)) j = false).
  { unfold flag_bit, zeros. destruct (decide (j / 8 < (length bits + 7) / 8)%nat).
    - rewrite lookup_replicate_2 by done. apply Z.bits_0.
    - rewrite (lookup_ge_None_2 _ (j / 8)) by (rewrite length_replicate; lia). apply Z.bits_0. }
  rewrite E0, orb_false_r. destruct (decide (j < length bits)%nat) as [Hj|Hj].
  - rewrite decide_True by lia. rewrite lookup_app_l by done.
    by destruct (lookup_lt_is_Some_2 _ _ Hj) as [b ->].
  - rewrite (lookup_ge_None_2 bits j) by lia. rewrite lookup_app_r by lia.
    destruct (decide _).
    + by rewrite lookup_replicate_2 by lia.
    + by rewrite lookup_ge_None_2 by (rewrite length_replicate; lia).
Qed.

(** ** The block merkle root *)
Section root.
  Context {H : Hashes}.

(** The last pair of an even layer is a pair of equal hashes. *)
Fixpoint last_pair_equal (l : list Hash256) : bool :=
  match l with
  | [] | [_] => false
  | [a; b] => bool_decide (a = b)
  | a :: b :: l => last_pair_equal l
  end.
(** Some of the first [k] layers ends in such a pair. *)
Fixpoint mutated_below (k : nat) (txids : list Hash256) : bool :=
  match k with
  | O => false
  | S k => last_pair_equal txids || mutated_below k (pair_up txids)
  end.

Lemma merkle_pairs_spec l pre fuel next m :
  (length l <= fuel)%nat ->
  merkle_pairs fuel (pre ++ l) (length pre) next m = (next ++ pair_up l, m || last_pair_equal l).
Proof.
  revert pre fuel next m. induction l as [|a|a b l IH] using list_ind2; intros pre fuel next m Hf.
  - rewrite !app_nil_r, orb_false_r. destruct fuel; [done|]. cbn [merkle_pairs].
    by rewrite Nat.ltb_irrefl.
  - destruct fuel as [|fuel]; [simpl in Hf; lia|]. cbn [merkle_pairs]. rewrite length_app. cbn [length].
    replace (Nat.ltb _ _) with true by (symmetry; apply Nat.ltb_lt; lia).
    replace (Nat.ltb (length pre + 1) _) with false by (symmetry; apply Nat.ltb_ge; lia).
    rewrite lookup_app_r, Nat.sub_diag by lia. cbn [lookup list_lookup default from_option id].
    replace (Nat.eqb (length pre) _) with false by (symmetry; apply Nat.eqb_neq; lia).
    cbn [andb last_pair_equal pair_up]. rewrite orb_false_r.
    destruct fuel; [done|]. cbn [merkle_pairs]. rewrite length_app. cbn [length].
    by replace (Nat.ltb (length pre + 2) _) with false by (symmetry; apply Nat.ltb_ge; lia).
  - destruct fuel as [|fuel]; [simpl in Hf; lia|]. cbn [length] in Hf.
    cbn [merkle_pairs]. rewrite length_app. cbn [length].
    replace (Nat.ltb _ _) with true by (symmetry; apply Nat.ltb_lt; lia).
    replace (Nat.ltb (length pre + 1) _) with true by (symmetry; apply Nat.ltb_lt; lia).
    rewrite !lookup_app_r, Nat.sub_diag by lia. replace (length pre + 1 - length pre)%nat with 1%nat by lia.
    cbn [lookup list_lookup default from_option id]. rewrite Nat.eqb_refl.
    replace (pre ++ a :: b :: l) with ((pre ++ [a; b]) ++ l) by (by rewrite <- app_assoc).
    replace (length pre + 2)%nat with (length (pre ++ [a; b])) by (rewrite length_app; simpl; lia).
    rewrite IH by lia. cbn [pair_up]. unfold merkle_hash_pair. rewrite <- app_assoc. f_equal.
    destruct l as [|c l]; cbn [length andb].
    + replace (Nat.eqb _ _) with true by (symmetry; apply Nat.eqb_eq; lia). cbn.
      destruct (bool_decide (a = b)), m; done.
    + replace (Nat.eqb _ _) with false by (symmetry; apply Nat.eqb_neq; lia). done.
Qed.

Lemma layer_shift h l : layer (S h) l = layer h (pair_up l).
Proof. induction h as [|h IH]; [done|]. cbn [layer] in *. by rewrite IH. Qed.

Lemma merkle_loop_spec fuel l m :
  (1 <= length l <= fuel)%nat ->
  exists k root, layer k l = [root] /\ (forall j, (j < k)%nat -> (1 < length (layer j l))%nat)
    /\ merkle_loop fuel l m = (root, m || mutated_below k l).
Proof.
  revert l m; induction fuel as [|fuel IH]; intros l m Hl; [lia|]. cbn [merkle_loop].
  destruct (Nat.ltb_spec 1 (length l)) as [H1|H1].
  - pose proof (merkle_pairs_spec l [] (length l) [] m) as E. cbn in E. rewrite E by lia. clear E.
    assert (Hd : (1 <= (length l + 1) / 2 <= fuel)%nat).
    { pose proof (Nat.div_mod_eq (length l + 1) 2). pose proof (Nat.mod_upper_bound (length l + 1) 2). lia. }
    destruct (IH (pair_up l) (m || last_pair_equal l)) as (k&root&Hk&Hj&->);
      [by rewrite length_pair_up|].
    exists (S k), root. rewrite layer_shift. split; [done|]. split.
    + intros [|j] Hlt; [done|]. rewrite layer_shift. apply Hj. lia.
    + cbn [mutated_below]. by rewrite orb_assoc.
  - destruct l as [|x [|]]; simpl in *; try lia. exists 0%nat, x. rewrite orb_false_r.
    split_and!; [done|lia|done].
Qed.

(** The root is the single node of the top layer; the flag says whether some
    layer ends in a pair of equal hashes. *)
Lemma merkle_root_spec txids :
  (1 <= length txids)%nat -> Z.of_nat (length txids) <= u32_max ->
  let k := calc_tree_height (Z.of_nat (length txids)) in
  exists root, layer k txids = [root] /\ merkle_root txids = (root, mutated_below k txids).
Proof.
  intros H1 Hn. cbv zeta. destruct (merkle_loop_spec (length txids) txids false) as (k&root&Hk&Hj&E); [lia|].
  destruct (calc_tree_height_spec (Z.of_nat (length txids))) as (Hh&Hw&Hgt); [lia|].
  set (h := calc_tree_height _) in *. rewrite <- length_layer in Hw by done.
  assert (k <= h)%nat as Hkh.
  { destruct (decide (k <= h)%nat); [done|]. specialize (Hj h ltac:(lia)). lia. }
  assert (h <= k)%nat.
  { destruct (decide (h <= k)%nat); [done|]. specialize (Hgt k ltac:(lia)).
    rewrite <- length_layer, Hk in Hgt by lia. simpl in Hgt. lia. }
  assert (h = k) as -> by lia. exists root. split; [done|].
  unfold merkle_root. destruct txids; [simpl in *; lia|]. by rewrite E.
Qed.

(** ** Collisions *)
Definition sha256d_collision : Prop :=
  exists x y, x <> y /\ length x = 64%nat /\ length y = 64%nat /\ sha256d x = sha256d y.

Lemma merkle_hash_pair_inj a b c d :
  length a = 32%nat -> length b = 32%nat -> length c = 32%nat -> length d = 32%nat ->
  merkle_hash_pair a b = merkle_hash_pair c d -> (a = c /\ b = d) \/ sha256d_collision.
Proof.
  intros Ha Hb Hc Hd E. destruct (decide (a ++ b = c ++ d)) as [E'|E'].
  - left. apply app_inj_1 in E'; [done|lia].
  - right. exists (a ++ b), (c ++ d). rewrite !length_app. split_and!; (done || lia).
Qed.

Lemma pair_up_inj l1 l2 :
  Forall (fun h => length h = 32%nat) l1 -> Forall (fun h => length h = 32%nat) l2 ->
  last_pair_equal l1 = false -> last_pair_equal l2 = false ->
  pair_up l1 = pair_up l2 -> l1 = l2 \/ sha256d_collision.
Proof.
  revert l2. induction l1 as [|a|a b l1 IH] using list_ind2;
    intros [|c [|d l2]] F1 F2 M1 M2 E; cbn [pair_up] in E; try done; auto.
  all: repeat match goal with F : Forall _ (_ :: _) |- _ => apply Forall_cons in F as [? F] end.
  all: pose proof (f_equal tail E) as El; injection E as E;
    apply merkle_hash_pair_inj in E as [[? ?]|]; auto; subst; auto; cbn in El.
  - destruct l2 as [|? [|]]; [|done..]. cbn in M2. by rewrite bool_decide_eq_true_2 in M2.
  - destruct l1 as [|? [|]]; [|done..]. cbn in M1. by rewrite bool_decide_eq_true_2 in M1.
  - destruct (IH l2) as [->|]; auto; [by destruct l1|by destruct l2].
Qed.

  Context {L : HashesLaws H}.

Lemma pair_up_arrays l : Forall (array 32) (pair_up l).
Proof.
  induction l as [|a|a b l IH] using list_ind2; cbn [pair_up];
    repeat constructor; auto; apply sha256d_array.
Qed.

Lemma layer_arrays h txids : Forall (array 32) txids -> Forall (array 32) (layer h txids).
Proof. destruct h; [done|]. intros _. apply pair_up_arrays. Qed.

Lemma layers_equal_down k l1 l2 :
  Forall (array 32) l1 -> Forall (array 32) l2 ->
  mutated_below k l1 = false -> mutated_below k l2 = false ->
  layer k l1 = layer k l2 -> l1 = l2 \/ sha256d_collision.
Proof.
  revert l1 l2; induction k as [|k IH]; intros l1 l2 F1 F2 M1 M2 E; [by left|].
  cbn [mutated_below] in M1, M2. apply orb_false_iff in M1 as [? ?], M2 as [? ?].
  rewrite !layer_shift in E.
  destruct (IH (pair_up l1) (pair_up l2)) as [E'|]; auto using pair_up_arrays.
  apply pair_up_inj; try done; (eapply Forall_impl; [done|by intros ? [? _]]).
Qed.

(** ** Soundness of extraction *)
Lemma traverse_and_extract_bad t h pos s :
  bad s = true -> bad (traverse_and_extract t h pos s).2 = true.
Proof.
  revert pos s; induction h as [|h IH]; intros pos s Hb; cbn [traverse_and_extract].
  - destruct (pmt_bits t !! _); [|done]. by destruct (hashes t !! _).
  - destruct (pmt_bits t !! _) as [b|]; [|done]. cbn [hashes_used bits_used].
    destruct b; cbn [negb]; [|by destruct (hashes t !! _)].
    match goal with |- context [traverse_and_extract t h (saturating_mul_u32 pos 2) ?s'] =>
      pose proof (IH (saturating_mul_u32 pos 2) s' Hb) as H1;
      destruct (traverse_and_extract t h (saturating_mul_u32 pos 2) s') as [l s1] end.
    destruct (_ <? _); [|done].
    match goal with |- context [traverse_and_extract t h ?q s1] =>
      pose proof (IH q s1 H1) as H2; destruct (traverse_and_extract t h q s1) as [r s2] end.
    cbn [snd] in *. by destruct (bool_decide _).
Qed.

Lemma traverse_and_extract_array t h pos s :
  Forall (array 32) (hashes t) -> array 32 (traverse_and_extract t h pos s).1.
Proof.
  intros Ht. assert (Hl : forall i, array 32 (default (zeros 32) (hashes t !! i))).
  { intros i. destruct (hashes t !! i) eqn:E; [|apply array_zeros].
    by eapply Forall_lookup_1 in E. }
  destruct h as [|h]; cbn [traverse_and_extract].
  - destruct (pmt_bits t !! _); [|apply array_zeros].
    specialize (Hl (hashes_used s)). by destruct (hashes t !! _).
  - destruct (pmt_bits t !! _) as [b|]; [|apply array_zeros]. cbn [hashes_used bits_used].
    destruct b; cbn [negb].
    + destruct (traverse_and_extract t h _ _) as [l s1]. destruct (_ <? _); [|apply sha256d_array].
      destruct (traverse_and_extract t h _ _) as [r s2]. apply sha256d_array.
    + specialize (Hl (hashes_used s)). by destruct (hashes t !! _).
Qed.
(** Under the true hash of its node, a traversal only reports transactions of
    the block, or it exhibits a collision. *)
Lemma traverse_and_extract_sound txids t h p s x s' :
  Forall (array 32) txids -> Forall (array 32) (hashes t) ->
  Z.of_nat (length txids) <= u32_max -> n_transactions t = Z.of_nat (length txids) ->
  (h < 64)%nat -> layer h txids !! p = Some x ->
  traverse_and_extract t h (Z.of_nat p) s = (x, s') -> bad s' = false ->
  Forall (fun m => m ∈ txids) (matches_out s) ->
  Forall (fun m => m ∈ txids) (matches_out s') \/ sha256d_collision.
Proof.
  intros Ftx Fh Hn Ht. revert p s x s'; induction h as [|h IH]; intros p s x s' Hh Hx E Hb Hs;
    cbn [traverse_and_extract] in E.
  - destruct (pmt_bits t !! _) as [b|]; [|by simplify_eq].
    cbn [bits_used hashes_used] in E. destruct (hashes t !! _) as [y|]; [|by simplify_eq].
    simplify_eq. left. destruct b; cbn; [|done]. apply Forall_app; split; [done|].
    constructor; [|done]. cbn in Hx. by eapply list_elem_of_lookup_2.
  - destruct (pmt_bits t !! _) as [b|]; [|by simplify_eq]. cbn [bits_used hashes_used] in E.
    destruct b; cbn [negb] in E; [|destruct (hashes t !! _); [|by simplify_eq]; simplify_eq; by left].
    destruct (children txids h p) as (Hc&Hc1&H2p&Hw); [done|lia|by apply lookup_lt_Some in Hx|].
    rewrite Ht, Hw, Hc1, Hc in E. cbn [layer] in Hx. rewrite pair_up_lookup in Hx.
    destruct (lookup_lt_is_Some_2 _ _ H2p) as [a Ha]. rewrite Ha in Hx. apply (inj Some) in Hx.
    pose proof (layer_arrays h txids Ftx) as Fl.
    destruct (Forall_lookup_1 _ _ _ _ Fl Ha) as [La _].
    match type of E with context [traverse_and_extract t h (Z.of_nat (2 * p)) ?s0] =>
      pose proof (traverse_and_extract_array t h (Z.of_nat (2 * p)) s0 Fh) as [Ll _];
      pose proof (IH (2 * p)%nat s0) as IHl;
      destruct (traverse_and_extract t h (Z.of_nat (2 * p)) s0) as [l s1] eqn:E1 end.
    cbn [fst] in Ll.
    destruct (Nat.ltb_spec (2 * p + 1) (length (layer h txids))) as [Hlt|Hge].
    + destruct (lookup_lt_is_Some_2 _ _ Hlt) as [c Hc2]. rewrite Hc2 in Hx. cbn in Hx.
      destruct (Forall_lookup_1 _ _ _ _ Fl Hc2) as [Lc _].
      pose proof (traverse_and_extract_array t h (Z.of_nat (2 * p + 1)) s1 Fh) as [Lr _].
      pose proof (traverse_and_extract_bad t h (Z.of_nat (2 * p + 1)) s1) as Hb1.
      pose proof (IH (2 * p + 1)%nat s1) as IHr.
      destruct (traverse_and_extract t h (Z.of_nat (2 * p + 1)) s1) as [r s2] eqn:E2.
      cbn [fst snd] in *. destruct (bool_decide (r = l)); simplify_eq.
      match goal with Hp : merkle_hash_pair _ _ = merkle_hash_pair _ _ |- _ =>
        destruct (merkle_hash_pair_inj _ _ _ _ Ll Lr La Lc Hp) as [[-> ->]|]; [|by right] end.
      destruct (IHl a s1) as [Hm|]; [lia|done|done| |done| |by right].
      { destruct (bad s1); [|done]. by rewrite Hb1 in Hb. }
      apply (IHr c s'); (done || lia).
    + apply lookup_ge_None in Hge. rewrite Hge in Hx. cbn in Hx. simplify_eq.
      match goal with Hp : merkle_hash_pair _ _ = merkle_hash_pair _ _ |- _ =>
        destruct (merkle_hash_pair_inj _ _ _ _ Ll Ll La La Hp) as [[-> _]|]; [|by right] end.
      apply (IHl a s'); (done || lia).
Qed.
End root.

(** ** Serialization laws *)
Lemma PMT_reads t :
  is_u32 (n_transactions t) -> n_transactions t <= MAX_BLOCK_SIZE / MIN_SERIALIZED_TX_SIZE ->
  Z.of_nat (length (hashes t)) <= n_transactions t -> Forall (array 32) (hashes t) ->
  Z.of_nat (length (flag_bytes (pmt_bits t))) <= (n_transactions t * 2 + 7) / 8 ->
  reads consensus_decode (consensus_encode t)
    (mkPMT (n_transactions t) (unpack_flags (flag_bytes (pmt_bits t))) (hashes t)).
Proof.
  change (MAX_BLOCK_SIZE / MIN_SERIALIZED_TX_SIZE) with 33333. intros Hu Hn Hh Ha Hf.
  assert (Hd : (n_transactions t * 2 + 7) / 8 <= 33333) by (apply Z.div_le_upper_bound; lia).
  unfold consensus_decode, PMT_decode, consensus_encode, PMT_encode.
  change (MAX_BLOCK_SIZE / MIN_SERIALIZED_TX_SIZE) with 33333.
  eapply reads_bind; [by apply read_u32_le_reads|]. bool_lia.
  eapply reads_bind; [apply read_count_reads; unfold fits_compact, MAX_COMPACT_SIZE; lia|]. bool_lia.
  eapply reads_bind; [by apply read_hashes_reads|].
  eapply reads_bind_nil; [apply read_var_bytes_reads; unfold fits_compact, MAX_COMPACT_SIZE; lia|].
  unfold u64_max. rewrite !Z.min_l by lia. bool_lia. apply reads_ret.
Qed.

(** ** Properties *)
Lemma built_hashes_arrays {H : Hashes} {L : HashesLaws H} txids matches h p b hs :
  Forall (array 32) txids -> built txids matches h p b hs -> Forall (array 32) hs.
Proof.
  intros F. induction 1; try done.
  - repeat constructor; by eapply (Forall_lookup_1 _ _ _ _ F).
  - repeat constructor; by eapply (Forall_lookup_1 _ _ _ _ (layer_arrays (S h) txids F)).
  - by apply Forall_app.
Qed.

Lemma extract_matches_built {H : Hashes} {L : HashesLaws H} txids matches b hs q :
  length txids = length matches -> (1 <= length txids)%nat ->
  Z.of_nat (length txids) <= MAX_BLOCK_SIZE / MIN_SERIALIZED_TX_SIZE ->
  distinct_siblings txids = true ->
  built txids matches (calc_tree_height (Z.of_nat (length txids))) 0 b hs ->
  ((length b + 7) / 8 = (length (b ++ q) + 7) / 8)%nat ->
  extract_matches (mkPMT (Z.of_nat (length txids)) (b ++ q) hs)
  = Some (fst (merkle_root txids), selected txids matches).
Proof.
  change (MAX_BLOCK_SIZE / MIN_SERIALIZED_TX_SIZE) with 33333. intros Hlen H1 Hn Hd Hb Hq.
  assert (Hu : Z.of_nat (length txids) <= u32_max) by (unfold u32_max; lia).
  destruct (calc_tree_height_spec (Z.of_nat (length txids))) as (Hh&Hw&_); [lia|].
  destruct (merkle_root_spec txids H1 Hu) as (root&Hl&Hr).
  destruct (built_lengths _ _ Hlen _ _ _ _ Hb) as [Hhs Hhb].
  assert (Htop : forall A (l : list A), length l = length txids ->
    leaves (calc_tree_height (Z.of_nat (length txids))) 0 l = l).
  { intros A l El. apply leaves_top. rewrite El.
    pose proof (node_end txids (calc_tree_height (Z.of_nat (length txids))) 1) as He.
    rewrite Nat.mul_1_l in He. apply He. rewrite Hl. done. }
  rewrite Htop in Hhs by done.
  destruct (traverse_and_extract_built txids matches Hlen Hu
    (mkPMT (Z.of_nat (length txids)) (b ++ q) hs) _ _ _ _ Hd Hb Hh ltac:(lia) eq_refl
    (mkES 0 0 [] false) [] q [] []) as (x&Hx&E); [done|done|by rewrite app_nil_r|done|].
  rewrite Hl in Hx. apply (inj Some) in Hx as <-. rewrite !Htop in E by done.
  unfold extract_matches, extract_matches_into.
  cbn [n_transactions hashes pmt_bits]. change (MAX_BLOCK_SIZE / MIN_SERIALIZED_TX_SIZE) with 33333.
  bool_lia. replace (Nat.ltb _ _) with false by (symmetry; apply Nat.ltb_ge; rewrite length_app; lia).
  cbn [length Nat.add app matches_out bad] in E. change (Z.of_nat 0) with 0 in E. rewrite E. cbn [bad bits_used hashes_used matches_out].
  rewrite <- Hq, !Nat.eqb_refl, Hr. done.
Qed.

Definition sample_txids : list Hash256 := map (fun i => le_bytes 32 (Z.of_nat i)) (seq 0 7).
Definition sample_matches : list bool := [false; true; false; true; true; false; false].

(** A transaction proof works end to end.  For a block's transaction ids
    with no two equal sibling hashes, building the partial merkle tree of a
    selection succeeds; extracting it gives the block's merkle root and
    exactly the selected ids; and, when its flags fit the decoder's limit,
    the serialized proof decodes and the decoded tree extracts the same. *)
Theorem partial_merkle_proof_correct (H : Hashes) (L : HashesLaws H)
    (txids : list Hash256) (matches : list bool)
    (Hlen : length txids = length matches) (H1 : (1 <= length txids)%nat)
    (Hn : Z.of_nat (length txids) <= MAX_BLOCK_SIZE / MIN_SERIALIZED_TX_SIZE)
    (Ha : Forall (array 32) txids) (Hd : distinct_siblings txids = true) :
  exists t, from_txids txids matches = Ok t
    /\ extract_matches t = Some (fst (merkle_root txids), selected txids matches)
    /\ (Z.of_nat (length (flag_bytes (pmt_bits t))) <= (n_transactions t * 2 + 7) / 8 ->
        exists t', decode (encode t) = Ok t'
          /\ extract_matches t' = Some (fst (merkle_root txids), selected txids matches)).
Proof.
  assert (Hn' : Z.of_nat (length txids) <= 33333) by exact Hn.
  assert (Hu : Z.of_nat (length txids) <= u32_max) by (unfold u32_max; lia).
  destruct (calc_tree_height_spec (Z.of_nat (length txids))) as (Hh&_&_); [lia|].
  destruct (merkle_root_spec txids H1 Hu) as (root&Hl&_).
  destruct (traverse_and_build_spec txids matches Hlen Hu (calc_tree_height (Z.of_nat (length txids))) 0
    (mkPMT (Z.of_nat (length txids)) [] [])) as (b&hs&Hb&E); [done|rewrite Hl; simpl; lia|done|].
  destruct (built_lengths _ _ Hlen _ _ _ _ Hb) as [[_ Hhs] _].
  exists (mkPMT (Z.of_nat (length txids)) b hs). split_and!.
  - unfold from_txids. rewrite (proj2 (Nat.eqb_eq _ _) Hlen). cbn [negb].
    rewrite Z.gtb_ltb. replace (_ <? _) with false by (symmetry; apply Z.ltb_ge; done). exact E.
  - pose proof (extract_matches_built txids matches b hs [] Hlen H1 Hn Hd Hb) as E'.
    rewrite app_nil_r in E'. by apply E'.
  - cbn [n_transactions pmt_bits]. intros Hf. eexists. split.
    + apply reads_decode_all, PMT_reads; cbn [n_transactions pmt_bits hashes];
        [int_lia|done| |by eapply built_hashes_arrays|done].
      unfold leaves in Hhs. rewrite length_take, length_drop in Hhs. lia.
    + cbn [n_transactions pmt_bits hashes]. rewrite unpack_flag_bytes.
      apply extract_matches_built; try done. rewrite length_app, length_replicate.
      pose proof (flag_bytes_room b). set (k := ((length b + 7) / 8)%nat) in *.
      replace (length b + (8 * k - length b) + 7)%nat with (k * 8 + 7)%nat by lia.
      rewrite Nat.div_add_l by lia. simpl. lia.
Qed.

Lemma partial_merkle_proof_correct_witness :
  exists t, from_txids sample_txids sample_matches = Ok t
    /\ extract_matches t = Some (fst (merkle_root sample_txids), selected sample_txids sample_matches)
    /\ (Z.of_nat (length (flag_bytes (pmt_bits t))) <= (n_transactions t * 2 + 7) / 8 ->
        exists t', decode (encode t) = Ok t'
          /\ extract_matches t'
             = Some (fst (merkle_root sample_txids), selected sample_txids sample_matches)).
Proof. apply (partial_merkle_proof_correct toy_hashes toy_hashes_laws); by_decide. Defined.

(** A proof cannot claim a transaction that is not in the block.  If any
    partial merkle tree whatsoever extracts to the merkle root of a block
    with as many transactions as it announces, then every id it reports is
    one of the block's, or the tree exhibits two different 64-byte strings
    with the same double SHA-256. *)
Theorem partial_merkle_proof_sound (H : Hashes) (L : HashesLaws H)
    (txids : list Hash256) (t : PartialMerkleTree) (matched : list Hash256)
    (Htx : Forall (array 32) txids) (Ht : Forall (array 32) (hashes t))
    (Hcount : n_transactions t = Z.of_nat (length txids))
    (He : extract_matches t = Some (fst (merkle_root txids), matched)) :
  Forall (fun m => m ∈ txids) matched \/ sha256d_collision.
Proof.
  unfold extract_matches, extract_matches_into in He.
  change (MAX_BLOCK_SIZE / MIN_SERIALIZED_TX_SIZE) with 33333 in He.
  destruct (Z.eqb_spec (n_transactions t) 0); [done|]. rewrite Z.gtb_ltb in He.
  destruct (Z.ltb_spec 33333 (n_transactions t)); [done|].
  destruct (_ >? _); [done|]. destruct (Nat.ltb _ _); [done|].
  destruct (traverse_and_extract t _ 0 _) as [root s] eqn:E. destruct (bad s) eqn:Hbad; [done|].
  destruct (negb _); [done|]. destruct (negb _); [done|]. injection He as -> <-.
  assert (Hu : Z.of_nat (length txids) <= u32_max) by (unfold u32_max; lia).
  destruct (merkle_root_spec txids ltac:(lia) Hu) as (root&Hl&Hr).
  rewrite Hr, Hcount in E. cbn [fst] in E. change 0 with (Z.of_nat 0) in E.
  eapply traverse_and_extract_sound in E; try done.
  - apply calc_tree_height_spec. lia.
  - by rewrite Hl.
Qed.

Definition sample_tree : PartialMerkleTree :=
  match from_txids sample_txids sample_matches with Ok t => t | _ => mkPMT 0 [] [] end.

Lemma partial_merkle_proof_sound_witness :
  Forall (fun m => m ∈ sample_txids) (selected sample_txids sample_matches)
  \/ sha256d_collision (H:=toy_hashes).
Proof.
  apply (partial_merkle_proof_sound toy_hashes toy_hashes_laws sample_txids sample_tree);
    [by_decide|by_decide|vm_compute; reflexivity|vm_compute; reflexivity].
Defined.

(** The merkle root commits to the transaction list.  Two lists of
    transaction ids whose trees have the same height, that have the same root
    and that both pass the mutation check are equal, unless two different
    64-byte strings have the same double SHA-256. *)
Theorem merkle_root_commits (H : Hashes) (L : HashesLaws H) (txids1 txids2 : list Hash256)
    (root : Hash256)
    (F1 : Forall (array 32) txids1) (F2 : Forall (array 32) txids2)
    (N1 : 1 <= Z.of_nat (length txids1) <= u32_max) (N2 : 1 <= Z.of_nat (length txids2) <= u32_max)
    (Hh : calc_tree_height (Z.of_nat (length txids1)) = calc_tree_height (Z.of_nat (length txids2)))
    (R1 : merkle_root txids1 = (root, false)) (R2 : merkle_root txids2 = (root, false)) :
  txids1 = txids2 \/ sha256d_collision.
Proof.
  destruct (merkle_root_spec txids1 ltac:(lia) ltac:(lia)) as (r1&L1&E1).
  destruct (merkle_root_spec txids2 ltac:(lia) ltac:(lia)) as (r2&L2&E2).
  rewrite R1 in E1. rewrite R2 in E2. injection E1 as <- M1. injection E2 as <- M2.
  rewrite <- Hh in L2, M2. apply (layers_equal_down (calc_tree_height (Z.of_nat (length txids1))));
    try done. by rewrite L1, L2.
Qed.

Lemma merkle_root_commits_witness :
  sample_txids = sample_txids \/ sha256d_collision (H:=toy_hashes).
Proof.
  apply (merkle_root_commits toy_hashes toy_hashes_laws sample_txids sample_txids
           (fst (merkle_root (H:=toy_hashes) sample_txids)));
    [by_decide|by_decide|by_decide|by_decide|reflexivity|vm_compute; reflexivity|vm_compute; reflexivity].
Defined.

(** The mutation check refuses the classic duplicated tail. *)
Example merkle_root_duplicate_tail (H : Hashes) a b c :
  fst (merkle_root [a; b; c]) = fst (merkle_root [a; b; c; c])
  /\ snd (merkle_root [a; b; c; c]) = true.
Proof.
  unfold merkle_root. cbn. rewrite (bool_decide_eq_true_2 (c = c)) by done.
  split; [done|]. by destruct (bool_decide _).
Qed.

(** ** A proof the format cannot carry

    A proof for every transaction of a block of 257 visits all 521 tree nodes
    (257 + 129 + 65 + 33 + 17 + 9 + 5 + 3 + 2 + 1), which is 66 flag bytes,
    while the decoder allows (2 * 257 + 7) / 8 = 65. *)
Theorem full_proof_of_257_rejected (H : Hashes) :
  let txids := map (fun i => le_bytes 32 (Z.of_nat i)) (seq 0 257) in
  (t ← from_txids txids (replicate 257 true); decode (A:=PartialMerkleTree) (encode t))
  = Err (InvalidData "too many flag bytes in merkle tree").
Proof. vm_compute. reflexivity. Qed.
