(* ===== verification/Difficulty.v ===== *)
(** * Difficulty ([pow/src/difficulty.rs])

    Compact targets, chain work and the three retargeting algorithms.  The
    256-bit integers come from the [primitive-types] crate: its operations
    are the class [U256Ops] on the numbers they denote, its documented
    behaviour the class [U256Laws] ([None] is a panic). *)

From S2P Require Import Prelude Encoding Consensus.
From Stdlib Require Import ZArith Lia.
From stdpp Require Import base list option numbers strings sorting.
#[local] Open Scope Z_scope.

Definition u256_max : Z := 2 ^ 256 - 1.
Definition is_u256 (z : Z) : Prop := 0 <= z < 2 ^ 256.
#[global] Instance is_u256_dec z : Decision (is_u256 z).
Proof. unfold is_u256; apply _. Defined.

Class U256Ops := {
  u256_from_little_endian : bytes -> Z;
  u256_to_little_endian : Z -> bytes;
  u256_from_big_endian : bytes -> Z;
  u256_to_big_endian : Z -> bytes;
  u256_bits : Z -> Z;
  u256_low_u32 : Z -> Z;
  u256_shl : Z -> Z -> Z;
  u256_shr : Z -> Z -> Z;
  u256_not : Z -> Z;
  u256_add : Z -> Z -> option Z;
  u256_sub : Z -> Z -> option Z;
  u256_mul : Z -> Z -> option Z;
  u256_div : Z -> Z -> option Z;
  u256_saturating_add : Z -> Z -> Z;
  u256_overflowing_add : Z -> Z -> Z * bool;
  u256_overflowing_mul : Z -> Z -> Z * bool }.

Class U256Laws (U : U256Ops) : Prop := {
  u256_from_le_spec bs : array 32 bs -> u256_from_little_endian bs = from_le bs;
  u256_to_le_spec a : is_u256 a -> u256_to_little_endian a = le_bytes 32 a;
  u256_from_be_spec bs : array 32 bs -> u256_from_big_endian bs = from_be bs;
  u256_to_be_spec a : is_u256 a -> u256_to_big_endian a = be_bytes 32 a;
  u256_bits_spec a : is_u256 a -> u256_bits a = if a =? 0 then 0 else Z.log2 a + 1;
  u256_low_u32_spec a : is_u256 a -> u256_low_u32 a = a mod 2 ^ 32;
  u256_shl_spec a n : is_u256 a -> 0 <= n -> u256_shl a n = (a * 2 ^ n) mod 2 ^ 256;
  u256_shr_spec a n : is_u256 a -> 0 <= n -> u256_shr a n = a / 2 ^ n;
  u256_not_spec a : is_u256 a -> u256_not a = u256_max - a;
  u256_add_spec a b : is_u256 a -> is_u256 b ->
    u256_add a b = if a + b <=? u256_max then Some (a + b) else None;
  u256_sub_spec a b : is_u256 a -> is_u256 b ->
    u256_sub a b = if b <=? a then Some (a - b) else None;
  u256_mul_spec a b : is_u256 a -> is_u256 b ->
    u256_mul a b = if a * b <=? u256_max then Some (a * b) else None;
  u256_div_spec a b : is_u256 a -> is_u256 b ->
    u256_div a b = if b =? 0 then None else Some (a / b);
  u256_saturating_add_spec a b : is_u256 a -> is_u256 b ->
    u256_saturating_add a b = Z.min (a + b) u256_max;
  u256_overflowing_add_spec a b : is_u256 a -> is_u256 b ->
    u256_overflowing_add a b = ((a + b) mod 2 ^ 256, u256_max <? a + b);
  u256_overflowing_mul_spec a b : is_u256 a -> is_u256 b ->
    u256_overflowing_mul a b = ((a * b) mod 2 ^ 256, u256_max <? a * b) }.

(** The numbers themselves are an instance. *)
#[global] Instance Z_u256 : U256Ops := {|
  u256_from_little_endian := from_le;
  u256_to_little_endian := le_bytes 32;
  u256_from_big_endian := from_be;
  u256_to_big_endian := be_bytes 32;
  u256_bits a := if a =? 0 then 0 else Z.log2 a + 1;
  u256_low_u32 a := a mod 2 ^ 32;
  u256_shl a n := Z.shiftl a n mod 2 ^ 256;
  u256_shr a n := Z.shiftr a n;
  u256_not a := u256_max - a;
  u256_add a b := if a + b <=? u256_max then Some (a + b) else None;
  u256_sub a b := if b <=? a then Some (a - b) else None;
  u256_mul a b := if a * b <=? u256_max then Some (a * b) else None;
  u256_div a b := if b =? 0 then None else Some (a / b);
  u256_saturating_add a b := Z.min (a + b) u256_max;
  u256_overflowing_add a b := ((a + b) mod 2 ^ 256, u256_max <? a + b);
  u256_overflowing_mul a b := ((a * b) mod 2 ^ 256, u256_max <? a * b) |}.

#[global] Instance Z_u256_laws : U256Laws Z_u256.
Proof.
  split; intros; try done; cbn.
  - by rewrite Z.shiftl_mul_pow2.
  - by rewrite Z.shiftr_div_pow2.
Qed.

(** An operation that panics. *)
Definition or_panic {E A} (o : option A) : result E A :=
  match o with Some a => Ok a | None => Panic end.

Inductive CompactError := Negative | Overflow.
#[global] Instance CompactError_eq_dec : EqDecision CompactError.
Proof. solve_decision. Defined.
Inductive DifficultyError := EmptyChain | NonContiguous | Compact (error : CompactError).
#[global] Instance DifficultyError_eq_dec : EqDecision DifficultyError.
Proof. solve_decision. Defined.

Record HeaderInfo := mkHeaderInfo { hi_height : Z; hi_time : Z; hi_bits : Z }.

Section difficulty.
  Context {U : U256Ops}.

Definition compact_to_u256 (bits : Z) : result CompactError Z :=
  let size := Z.shiftr bits 24 in
  let word := Z.land bits 0x007fffff in
  let negative := negb (Z.land bits 0x00800000 =? 0) in
  if negative then Err Negative
  else
    let '(word, value) :=
      if size <=? 3 then
        let word := Z.shiftr word (8 * (3 - size)) in (word, word)
      else (word, u256_shl word (8 * (size - 3))) in
    if negb (word =? 0)
       && ((size >? 34) || ((word >? 0xff) && (size >? 33)) || ((word >? 0xffff) && (size >? 32)))
    then Err Overflow
    else Ok value.

(** [u32] shifts keep the low 32 bits. *)
Definition u256_to_compact (value : Z) : Z :=
  if value =? 0 then 0
  else
    let size := (u256_bits value + 7) / 8 in
    let compact :=
      if size <=? 3 then wrap_u32 (Z.shiftl (u256_low_u32 value) (8 * (3 - size)))
      else u256_low_u32 (u256_shr value (8 * (size - 3))) in
    let '(compact, size) :=
      if negb (Z.land compact 0x00800000 =? 0) then (Z.shiftr compact 8, size + 1)
      else (compact, size) in
    Z.lor (wrap_u32 (Z.shiftl size 24)) (Z.land compact 0x007fffff).

Definition u256_to_hash (value : Z) : Hash256 := u256_to_little_endian value.

Definition compact_to_target (bits : Z) : result CompactError Hash256 :=
  value ← compact_to_u256 bits; Ok (u256_to_hash value).

Definition target_to_compact (target : Hash256) : Z :=
  u256_to_compact (u256_from_little_endian target).

Definition hash_meets_target (hash target : Hash256) : bool :=
  u256_from_little_endian hash <=? u256_from_little_endian target.

Definition block_proof (bits : Z) : result CompactError Z :=
  target ← compact_to_u256 bits;
  if target =? 0 then Ok 0
  else
    t1 ← or_panic (u256_add target 1);
    q ← or_panic (u256_div (u256_not target) t1);
    or_panic (u256_add q 1).

Definition cmp_be (a b : Hash256) : comparison :=
  u256_from_little_endian a ?= u256_from_little_endian b.

(** [for (idx, header) in chain.iter().enumerate()]. *)
Fixpoint contiguous_from (base : Z) (idx : nat) (chain : list HeaderInfo) : bool :=
  match chain with
  | [] => true
  | header :: chain =>
      (hi_height header =? base + Z.of_nat idx) && contiguous_from base (S idx) chain
  end.
Definition ensure_contiguous (chain : list HeaderInfo) : result DifficultyError () :=
  first ← index chain 0;
  if contiguous_from (hi_height first) 0 chain then Ok () else Err NonContiguous.

Definition eh_epoch_end (params : ConsensusParams) (upgrade : UpgradeIndex) : Z :=
  activation_height (upgrade_at (upgrades params) upgrade) + wrap_i64 (eh_epoch_fade_length params) - 1.

(** [chain[i]] for an [i64] index cast to [usize]. *)
Definition index_i64 {E} (chain : list HeaderInfo) (i : Z) : result E HeaderInfo :=
  if i <? 0 then Panic else index chain (Z.to_nat i).

(** [chain[start..=idx]], sorted, and its middle element. *)
Definition median_time_past {E} (chain : list HeaderInfo) (idx : nat) : result E Z :=
  let start := (idx - 10)%nat in
  if Nat.ltb idx (length chain) then
    let times := merge_sort Z.le (map hi_time (slice chain start (S idx))) in
    index times (length times / 2)
  else Panic.

Definition clamp_to_limit (next : Z) (params : ConsensusParams) : Z :=
  let pow_limit := u256_from_little_endian (pow_limit params) in
  if next >? pow_limit then pow_limit else next.

Definition digishield_next_work_required {E} (avg_target last_mtp first_mtp : Z)
    (params : ConsensusParams) : result E Z :=
  let actual_timespan := last_mtp - first_mtp in
  let target_timespan := digishield_averaging_window_timespan params in
  let actual_timespan := target_timespan + Z.quot (actual_timespan - target_timespan) 4 in
  let actual_timespan :=
    if actual_timespan <? digishield_min_actual_timespan params
    then digishield_min_actual_timespan params else actual_timespan in
  let actual_timespan :=
    if actual_timespan >? digishield_max_actual_timespan params
    then digishield_max_actual_timespan params else actual_timespan in
  next ← or_panic (u256_div avg_target (wrap_u64 target_timespan));
  next ← or_panic (u256_mul next (wrap_u64 actual_timespan));
  Ok (u256_to_compact (clamp_to_limit next params)).

(** The loop of [lwma_next_work_required] over the last [count] heights. *)
Fixpoint lwma_loop (count : nat) (chain : list HeaderInfo) (base_height t divisor i j : Z)
    (sum_target weighted_time : Z) : result DifficultyError (Z * Z) :=
  match count with
  | O => Ok (sum_target, weighted_time)
  | S count =>
      block ← index_i64 chain (i - base_height);
      prev_block ← index_i64 chain (i - 1 - base_height);
      let solvetime := Z.min (Z.max (hi_time block - hi_time prev_block) (-360)) (6 * t) in
      let j := j + 1 in
      let weighted_time := weighted_time + solvetime * j in
      target ← map_err Compact (compact_to_u256 (hi_bits block));
      q ← or_panic (u256_div target divisor);
      lwma_loop count chain base_height t divisor (i + 1) j
        (u256_saturating_add sum_target q) weighted_time
  end.

Definition lwma_next_work_required (chain : list HeaderInfo) (params : ConsensusParams)
    : result DifficultyError Z :=
  let t := pow_target_spacing params in
  let n := zawy_lwma_averaging_window params in
  let k := Z.quot (n * (n + 1) * t) 2 in
  last ← or_panic (last chain);
  let height := hi_height last in
  if height <=? n then Ok (target_to_compact (pow_limit params))
  else
    first ← index chain 0;
    let base_height := hi_height first in
    sw ← lwma_loop (Z.to_nat n) chain base_height t (wrap_u64 (k * n)) (height - n + 1) 0 0 0;
    let '(sum_target, weighted_time) := sw in
    let weighted_time := if weighted_time <? Z.quot k 10 then Z.quot k 10 else weighted_time in
    next ← or_panic (u256_mul sum_target (wrap_u64 weighted_time));
    Ok (u256_to_compact (clamp_to_limit next params)).

Definition mul_div_u256 {E} (value mul div : Z) : result E Z :=
  if div =? 0 then Ok u256_max
  else
    q ← or_panic (u256_div value div);
    qd ← or_panic (u256_mul q div);
    r ← or_panic (u256_sub value qd);
    let '(q_mul, overflow_q) := u256_overflowing_mul q mul in
    let q_mul := if overflow_q : bool then u256_max else q_mul in
    r_mul ← or_panic (u256_mul r mul);
    rd ← or_panic (u256_div r_mul div);
    let '(sum, overflow_sum) := u256_overflowing_add q_mul rd in
    Ok (if overflow_sum : bool then u256_max else sum).

Fixpoint lwma3_loop (count : nat) (chain : list HeaderInfo) (base_height height t divisor i j : Z)
    (sum_target previous_diff weighted_time previous_timestamp : Z)
    : result DifficultyError (Z * Z * Z) :=
  match count with
  | O => Ok (sum_target, previous_diff, weighted_time)
  | S count =>
      block ← index_i64 chain (i - base_height);
      let this_timestamp :=
        if hi_time block >? previous_timestamp then hi_time block else previous_timestamp + 1 in
      let solvetime := Z.min (6 * t) (this_timestamp - previous_timestamp) in
      let j := j + 1 in
      let weighted_time := weighted_time + solvetime * j in
      target ← map_err Compact (compact_to_u256 (hi_bits block));
      q ← or_panic (u256_div target divisor);
      lwma3_loop count chain base_height height t divisor (i + 1) j
        (u256_saturating_add sum_target q)
        (if i =? height then target else previous_diff) weighted_time this_timestamp
  end.

Definition lwma3_next_work_required (chain : list HeaderInfo) (params : ConsensusParams)
    : result DifficultyError Z :=
  let t := pow_target_spacing params in
  let n := zawy_lwma_averaging_window params in
  let k := Z.quot (n * (n + 1) * t) 2 in
  last ← or_panic (last chain);
  let height := hi_height last in
  let pow_limit := u256_from_little_endian (pow_limit params) in
  if height <? n then Ok (u256_to_compact pow_limit)
  else
    first ← index chain 0;
    let base_height := hi_height first in
    start ← index_i64 chain (height - n - base_height);
    spw ← lwma3_loop (Z.to_nat n) chain base_height height t (wrap_u64 (k * n)) (height - n + 1) 0
            0 0 0 (hi_time start);
    let '(sum_target, previous_diff, weighted_time) := spw in
    next ← or_panic (u256_mul sum_target (wrap_u64 weighted_time));
    half ← or_panic (u256_div previous_diff 2);
    let max_target := u256_saturating_add previous_diff half in
    min_target ← mul_div_u256 previous_diff 67 100;
    let next := if next >? max_target then max_target else next in
    let next := if next <? min_target then min_target else next in
    let next := if next >? pow_limit then pow_limit else next in
    Ok (u256_to_compact next).

(** [for header in &chain[start..] { total = total.saturating_add(..) }]. *)
Fixpoint sum_targets (headers : list HeaderInfo) (total : Z) : result DifficultyError Z :=
  match headers with
  | [] => Ok total
  | header :: headers =>
      target ← map_err Compact (compact_to_u256 (hi_bits header));
      sum_targets headers (u256_saturating_add total target)
  end.

Definition get_next_work_required (chain : list HeaderInfo) (next_block_time : option Z)
    (params : ConsensusParams) : result DifficultyError Z :=
  let pow_limit_bits := target_to_compact (pow_limit params) in
  match chain with
  | [] => Ok pow_limit_bits
  | _ =>
    _ ← ensure_contiguous chain;
    last ← or_panic (last chain);
    let last_height := hi_height last in
    let epoch_1_end := eh_epoch_end params Equi144_5 in
    if (last_height >? epoch_1_end - 1) && (last_height <? epoch_1_end + 61) then Ok pow_limit_bits
    else
    let epoch_2_end := eh_epoch_end params Kamiooka in
    if (last_height >? epoch_2_end - 1) && (last_height <? epoch_2_end + 64) then
      lwma_bits ← lwma3_next_work_required chain params;
      full_target ← map_err Compact (compact_to_u256 lwma_bits);
      let target_step := u256_shr full_target 5 in
      let step := epoch_2_end + 61 - last_height in
      let target_step := fst (u256_overflowing_mul target_step (wrap_u32 step)) in
      let full_target := fst (u256_overflowing_add full_target target_step) in
      Ok (u256_to_compact (clamp_to_limit full_target params))
    else
    let min_difficulty :=
      match pow_allow_min_difficulty_after_height params, next_block_time with
      | Some min_height, Some next_time =>
          (last_height >=? min_height) && (next_time >? hi_time last + pow_target_spacing params * 2)
      | _, _ => false
      end in
    if min_difficulty then Ok pow_limit_bits
    else
    let window := Z.to_nat (digishield_averaging_window params) in
    if Nat.leb (length chain) window then Ok pow_limit_bits
    else
    let start := (length chain - window)%nat in
    total ← sum_targets (drop start chain) 0;
    avg ← or_panic (u256_div total (Z.of_nat window));
    let next_height := last_height + 1 in
    let lwma_height := activation_height (upgrade_at (upgrades params) Lwma) in
    let acadia_height := activation_height (upgrade_at (upgrades params) Acadia) in
    if next_height <? lwma_height then
      last_mtp ← median_time_past chain (length chain - 1);
      first_mtp ← median_time_past chain (start - 1);
      digishield_next_work_required avg last_mtp first_mtp params
    else if next_height <? acadia_height then lwma_next_work_required chain params
    else lwma3_next_work_required chain params
  end.
End difficulty.

Example compact_genesis : compact_to_u256 0x1f07ffff = Ok (0x7ffff * 2 ^ 224).
Proof. vm_compute. reflexivity. Qed.

(** ** Bit fields as arithmetic *)
Lemma land_7fffff b : Z.land b 0x007fffff = b mod 2 ^ 23.
Proof. change 0x007fffff with (Z.ones 23). apply Z.land_ones. lia. Qed.

Lemma land_bit23 b : Z.land b 0x00800000 = (b / 2 ^ 23) mod 2 * 2 ^ 23.
Proof.
  change 0x00800000 with (2 ^ 23). rewrite <- Z.testbit_spec' by lia.
  apply Z.bits_inj'. intros i Hi. rewrite Z.land_spec, Z.pow2_bits_eqb by lia.
  rewrite <- Z.shiftl_mul_pow2 by lia. rewrite Z.shiftl_spec by lia.
  destruct (Z.eqb_spec 23 i) as [<-|Hne].
  - rewrite Z.sub_diag, andb_true_r. by destruct (Z.testbit b 23).
  - rewrite andb_false_r. symmetry. destruct (Z.lt_ge_cases i 23).
    + by rewrite Z.testbit_neg_r by lia.
    + destruct (Z.testbit b 23); cbn; [|by rewrite Z.bits_0].
      apply Z.bits_above_log2; [lia|]. cbn. lia.
Qed.

(** The fields of a compact word. *)
Lemma compact_fields size word :
  0 <= word < 2 ^ 23 ->
  let b := size * 2 ^ 24 + word in
  Z.shiftr b 24 = size /\ Z.land b 0x007fffff = word /\ Z.land b 0x00800000 = 0.
Proof.
  intros Hw. cbv zeta. rewrite land_7fffff, land_bit23, Z.shiftr_div_pow2 by lia.
  change (2 ^ 24) with 16777216. change (2 ^ 23) with 8388608 in *.
  split_and!; div_lia.
Qed.

Lemma lor_fields size word :
  0 <= size < 256 -> 0 <= word < 2 ^ 23 ->
  Z.lor (wrap_u32 (Z.shiftl size 24)) word = size * 2 ^ 24 + word.
Proof.
  intros Hs Hw. rewrite Z.shiftl_mul_pow2 by lia.
  rewrite wrap_u32_id by (unfold is_u32; change (2 ^ 24) with 16777216; lia).
  rewrite <- Z.lxor_lor, Z.add_nocarry_lxor; [done| |].
  all: apply Z.bits_inj'; intros i Hi; rewrite Z.land_spec, Z.bits_0; apply andb_false_iff;
    destruct (Z.lt_ge_cases i 24);
    [left; rewrite <- Z.shiftl_mul_pow2 by lia; by apply Z.shiftl_spec_low
    |right; destruct (Z.eq_dec word 0) as [->|]; [apply Z.bits_0|]; apply Z.bits_above_log2; [lia|];
     apply Z.lt_le_trans with 23; [|lia]; apply Z.log2_lt_pow2; lia].
Qed.

(** Bytes needed for a number. *)
Lemma byte_size v :
  0 < v < 2 ^ 256 ->
  let s := (Z.log2 v + 1 + 7) / 8 in
  1 <= s <= 32 /\ 2 ^ (8 * (s - 1)) <= v < 2 ^ (8 * s).
Proof.
  intros Hv. cbv zeta. pose proof (Z.log2_spec v ltac:(lia)) as Hl.
  pose proof (Z.log2_nonneg v). assert (Z.log2 v < 256) by (apply Z.log2_lt_pow2; lia).
  set (l := Z.log2 v) in *. set (s := (l + 1 + 7) / 8).
  pose proof (Z.div_mod (l + 1 + 7) 8 ltac:(lia)). pose proof (Z.mod_pos_bound (l + 1 + 7) 8 ltac:(lia)).
  fold s in H1. split; [lia|]. split.
  - etrans; [|apply Hl]. apply Z.pow_le_mono_r; lia.
  - eapply Z.lt_le_trans; [apply Hl|]. apply Z.pow_le_mono_r; lia.
Qed.

Section compact_laws.
  Context {U : U256Ops} {L : U256Laws U}.

(** What [u256_to_compact] writes: the leading bytes of the number, at least
    15 significant bits of them. *)
Definition compact_repr (v size word : Z) : Prop :=
  1 <= size <= 33 /\ 0 < word < 2 ^ 23 /\ (size = 33 -> word <= 0xffff)
  /\ if size <=? 3 then word = v * 2 ^ (8 * (3 - size))
     else word = v / 2 ^ (8 * (size - 3)) /\ 2 ^ 15 <= word.

Lemma compact0_repr v :
  0 < v < 2 ^ 256 ->
  let s := (u256_bits v + 7) / 8 in
  let c := if s <=? 3 then wrap_u32 (Z.shiftl (u256_low_u32 v) (8 * (3 - s)))
           else u256_low_u32 (u256_shr v (8 * (s - 3))) in
  1 <= s <= 32 /\ 2 ^ 16 <= c < 2 ^ 24
  /\ c = if s <=? 3 then v * 2 ^ (8 * (3 - s)) else v / 2 ^ (8 * (s - 3)).
Proof.
  intros Hv. assert (Hu : is_u256 v) by (unfold is_u256; lia). cbv zeta.
  rewrite u256_bits_spec by done. rewrite (proj2 (Z.eqb_neq v 0)) by lia.
  destruct (byte_size v Hv) as [Hs Hb]. set (s := (Z.log2 v + 1 + 7) / 8) in *. split; [done|].
  destruct (Z.leb_spec s 3).
  - assert (Hvb : v < 2 ^ 24).
    { eapply Z.lt_le_trans; [apply Hb|]. apply Z.pow_le_mono_r; lia. }
    rewrite u256_low_u32_spec, Z.mod_small by (done || (change (2 ^ 24) with 16777216 in Hvb; lia)).
    rewrite Z.shiftl_mul_pow2 by lia.
    assert (Hc : 2 ^ 16 <= v * 2 ^ (8 * (3 - s)) < 2 ^ 24).
    { replace (2 ^ 16) with (2 ^ (8 * (s - 1)) * 2 ^ (8 * (3 - s)))
        by (rewrite <- Z.pow_add_r by lia; f_equal; lia).
      replace (2 ^ 24) with (2 ^ (8 * s) * 2 ^ (8 * (3 - s)))
        by (rewrite <- Z.pow_add_r by lia; f_equal; lia).
      pose proof (Z.pow_pos_nonneg 2 (8 * (3 - s)) ltac:(lia) ltac:(lia)). nia. }
    rewrite wrap_u32_id by (unfold is_u32; change (2 ^ 24) with 16777216 in Hc; change (2 ^ 16) with 65536 in Hc; lia).
    done.
  - rewrite u256_shr_spec by (done || lia).
    pose proof (Z.pow_pos_nonneg 2 (8 * (s - 3)) ltac:(lia) ltac:(lia)) as Hp.
    assert (Hc : 2 ^ 16 <= v / 2 ^ (8 * (s - 3)) < 2 ^ 24).
    { split.
      - apply Z.div_le_lower_bound; [done|]. rewrite <- Z.pow_add_r by lia.
        etrans; [|apply Hb]. apply Z.pow_le_mono_r; lia.
      - apply Z.div_lt_upper_bound; [done|]. rewrite <- Z.pow_add_r by lia.
        eapply Z.lt_le_trans; [apply Hb|]. apply Z.pow_le_mono_r; lia. }
    change (2 ^ 24) with 16777216 in *. change (2 ^ 16) with 65536 in *.
    rewrite u256_low_u32_spec, Z.mod_small; [done|lia|].
    unfold is_u256. change (2 ^ 256) with (16777216 * 2 ^ 232). lia.
Qed.

Lemma u256_to_compact_repr v :
  0 < v < 2 ^ 256 ->
  exists size word, u256_to_compact v = size * 2 ^ 24 + word /\ compact_repr v size word.
Proof.
  intros Hv. unfold u256_to_compact. rewrite (proj2 (Z.eqb_neq v 0)) by lia.
  pose proof (compact0_repr v Hv) as H. cbv zeta in *.
  set (s := (u256_bits v + 7) / 8) in *.
  set (c := if s <=? 3 then _ else _) in *. destruct H as (Hs&Hc&Ec).
  rewrite land_bit23. change (2 ^ 24) with 16777216 in *. change (2 ^ 16) with 65536 in *.
  destruct (Z.lt_ge_cases c 8388608) as [Hlt|Hge].
  - replace (c / 2 ^ 23) with 0 by (symmetry; apply Z.div_small; lia). cbn [negb Z.eqb Z.modulo Z.mul].
    change (0 mod 2 * 2 ^ 23 =? 0) with true. cbn [negb].
    rewrite land_7fffff, Z.mod_small by lia. exists s, c.
    rewrite lor_fields by (change (2 ^ 23) with 8388608; div_lia). split; [done|].
    unfold compact_repr. change (2 ^ 23) with 8388608. split_and!; try lia.
    destruct (s <=? 3); [done|split; [done|]]. change (2 ^ 15) with 32768. lia.
  - replace (c / 2 ^ 23) with 1 by (change (2 ^ 23) with 8388608; div_lia).
    change (1 mod 2 * 2 ^ 23 =? 0) with false. cbn [negb].
    rewrite Z.shiftr_div_pow2 by lia. change (2 ^ 8) with 256.
    rewrite land_7fffff, Z.mod_small by (change (2 ^ 23) with 8388608; div_lia).
    exists (s + 1), (c / 256).
    rewrite lor_fields by (change (2 ^ 23) with 8388608; div_lia). split; [done|].
    unfold compact_repr. change (2 ^ 23) with 8388608. split_and!; try div_lia.
    destruct (Z.leb_spec (s + 1) 3).
    + rewrite (proj2 (Z.leb_le s 3)) in Ec by lia. rewrite Ec.
      replace (8 * (3 - s)) with (8 * (3 - (s + 1)) + 8) by lia.
      rewrite Z.pow_add_r, Z.mul_assoc by lia. change (2 ^ 8) with 256. by rewrite Z.div_mul.
    + split; [|change (2 ^ 15) with 32768; div_lia]. rewrite Ec.
      destruct (Z.leb_spec s 3).
      * assert (s = 3) as -> by lia. change (2 ^ (8 * (3 - 3))) with 1. by rewrite Z.mul_1_r.
      * replace (8 * (s + 1 - 3)) with (8 * (s - 3) + 8) by lia.
        rewrite Z.pow_add_r by lia. rewrite Z.div_div by (try apply Z.pow_nonzero; lia). done.
Qed.

(** Decoding a representable pair. *)
Lemma compact_to_u256_fields size word :
  0 <= size <= 33 -> 0 <= word < 2 ^ 23 -> (size = 33 -> word <= 0xffff) ->
  compact_to_u256 (size * 2 ^ 24 + word)
  = Ok (if size <=? 3 then word / 2 ^ (8 * (3 - size)) else word * 2 ^ (8 * (size - 3))).
Proof.
  intros Hs Hw H33. unfold compact_to_u256.
  destruct (compact_fields size word Hw) as (->&->&->). cbn [negb Z.eqb]. cbv zeta.
  change (2 ^ 23) with 8388608 in Hw.
  destruct (Z.leb_spec size 3) as [H3|H3].
  - rewrite Z.shiftr_div_pow2 by lia.
    destruct (negb (_ =? 0)); [|done]. cbn [andb].
    rewrite !Z.gtb_ltb. replace (34 <? size) with false by (symmetry; apply Z.ltb_ge; lia).
    replace (33 <? size) with false by (symmetry; apply Z.ltb_ge; lia).
    replace (32 <? size) with false by (symmetry; apply Z.ltb_ge; lia). by rewrite !andb_false_r.
  - assert (Hu : is_u256 word). { unfold is_u256. change (2 ^ 256) with (8388608 * 2 ^ 233). lia. }
    rewrite u256_shl_spec by (done || lia).
    assert (Hfit : word * 2 ^ (8 * (size - 3)) < 2 ^ 256).
    { destruct (Z.eq_dec size 33) as [->|].
      - change (8 * (33 - 3)) with 240. change (2 ^ 256) with (65536 * 2 ^ 240). specialize (H33 eq_refl). lia.
      - eapply Z.lt_le_trans with (8388608 * 2 ^ (8 * (size - 3))).
        + apply Z.mul_lt_mono_pos_r; [apply Z.pow_pos_nonneg; lia|lia].
        + change 8388608 with (2 ^ 23). rewrite <- Z.pow_add_r by lia. apply Z.pow_le_mono_r; lia. }
    pose proof (Z.pow_pos_nonneg 2 (8 * (size - 3)) ltac:(lia) ltac:(lia)).
    rewrite Z.mod_small by nia. destruct (negb (word =? 0)); [|done]. cbn [andb].
    rewrite !Z.gtb_ltb. replace (34 <? size) with false by (symmetry; apply Z.ltb_ge; lia).
    replace (33 <? size) with false by (symmetry; apply Z.ltb_ge; lia). rewrite andb_false_r. cbn [orb].
    destruct (Z.ltb_spec 32 size); [|by rewrite andb_false_r].
    replace (65535 <? word) with false; [done|]. symmetry. apply Z.ltb_ge, H33. lia.
Qed.

(** A target survives the compact form up to truncation of its low bits. *)
Lemma compact_truncates v :
  0 <= v < 2 ^ 256 ->
  exists v', compact_to_u256 (u256_to_compact v) = Ok v'
    /\ 0 <= v' <= v /\ (v - v') * 2 ^ 15 <= v'.
Proof.
  intros Hv. destruct (Z.eq_dec v 0) as [->|Hne].
  { exists 0. unfold u256_to_compact. rewrite Z.eqb_refl.
    change 0 with (0 * 2 ^ 24 + 0) at 1. rewrite compact_to_u256_fields by lia. split; [done|]. cbn. lia. }
  destruct (u256_to_compact_repr v ltac:(lia)) as (size&word&->&Hs&Hw&H33&Hr).
  rewrite compact_to_u256_fields by lia. eexists; split; [done|].
  destruct (Z.leb_spec size 3) as [H3|H3].
  - subst word. rewrite Z.div_mul by (apply Z.pow_nonzero; lia).
    change (2 ^ 15) with 32768. lia.
  - destruct Hr as [-> Hw15].
    pose proof (Z.pow_pos_nonneg 2 (8 * (size - 3)) ltac:(lia) ltac:(lia)) as Hp.
    set (p := 2 ^ (8 * (size - 3))) in *.
    pose proof (Z.div_mod v p ltac:(lia)). pose proof (Z.mod_pos_bound v p Hp). nia.
Qed.

Lemma compact_to_u256_range b v :
  is_u32 b -> compact_to_u256 b = Ok v -> 0 <= v < u256_max.
Proof.
  unfold is_u32, u256_max. intros Hb. unfold compact_to_u256.
  rewrite land_7fffff. pose proof (Z.mod_pos_bound b (2 ^ 23) ltac:(lia)) as Hw.
  rewrite Z.shiftr_div_pow2 by lia.
  assert (Hs : 0 <= b / 2 ^ 24 < 256) by (change (2 ^ 24) with 16777216; div_lia).
  set (w := b mod 2 ^ 23) in *. set (s := b / 2 ^ 24) in *. change (2 ^ 23) with 8388608 in Hw.
  destruct (negb (Z.land b 8388608 =? 0)); [done|]. cbv zeta.
  destruct (Z.leb_spec s 3).
  - destruct (_ && _); [done|]. intros [= <-]. rewrite Z.shiftr_div_pow2 by lia.
    pose proof (Z.pow_pos_nonneg 2 (8 * (3 - s)) ltac:(lia) ltac:(lia)).
    assert (0 <= w / 2 ^ (8 * (3 - s)) <= w) by
      (split; [apply Z.div_pos; lia|apply Z.div_le_upper_bound; nia]).
    change (2 ^ 256) with (8388608 * 2 ^ 233). lia.
  - rewrite u256_shl_spec by (unfold is_u256; change (2 ^ 256) with (8388608 * 2 ^ 233); lia).
    destruct (_ && _); [done|]. intros [= <-].
    replace (8 * (s - 3)) with (1 + (8 * (s - 3) - 1)) by lia.
    rewrite Z.pow_add_r, Z.pow_1_r by lia. set (q := 2 ^ (8 * (s - 3) - 1)).
    replace (w * (2 * q)) with (2 * (w * q)) by lia. change (2 ^ 256) with (2 * 2 ^ 255).
    rewrite Z.mul_mod_distr_l by (try apply Z.pow_nonzero; lia).
    pose proof (Z.mod_pos_bound (w * q) (2 ^ 255) ltac:(lia)). lia.
Qed.

Lemma block_proof_eq b t :
  is_u32 b -> compact_to_u256 b = Ok t -> 0 < t -> block_proof b = Ok (2 ^ 256 / (t + 1)).
Proof.
  intros Hb Ht Hpos. pose proof (compact_to_u256_range b t Hb Ht) as Hr. unfold u256_max in Hr.
  unfold block_proof. rewrite Ht. cbn [mbind result_bind].
  rewrite (proj2 (Z.eqb_neq t 0)) by lia.
  assert (Hu : forall z, 0 <= z < 2 ^ 256 -> is_u256 z) by done.
  rewrite u256_add_spec by (apply Hu; lia).
  replace (t + 1 <=? u256_max) with true by (symmetry; apply Z.leb_le; unfold u256_max; lia).
  cbn [or_panic mbind result_bind].
  rewrite u256_not_spec, u256_div_spec by (apply Hu; unfold u256_max; lia).
  rewrite (proj2 (Z.eqb_neq (t + 1) 0)) by lia. cbn [or_panic mbind result_bind].
  assert (Hq : 0 <= (u256_max - t) / (t + 1) < 2 ^ 255).
  { unfold u256_max. split; [apply Z.div_pos; lia|]. apply Z.div_lt_upper_bound; [lia|].
    change (2 ^ 256) with (2 * 2 ^ 255). nia. }
  set (q := (u256_max - t) / (t + 1)) in *.
  rewrite u256_add_spec by (apply Hu; change (2 ^ 256) with (2 * 2 ^ 255); lia).
  replace (q + 1 <=? u256_max) with true
    by (symmetry; apply Z.leb_le; unfold u256_max; change (2 ^ 256) with (2 * 2 ^ 255); lia).
  cbn [or_panic]. f_equal. subst q. unfold u256_max.
  replace (2 ^ 256) with (2 ^ 256 - 1 - t + 1 * (t + 1)) at 2 by lia. by rewrite Z.div_add by lia.
Qed.
End compact_laws.

(** ** Properties *)

(** The compact form keeps a target up to a relative error of 2^-15 and
    never rounds up: every 256-bit number encodes to a compact word that
    decodes, without error, to a number at most as large, and the bits lost
    amount to at most 1/32768 of it. *)
Theorem compact_encoding_precision (U : U256Ops) (L : U256Laws U) (v : Z) (Hv : is_u256 v) :
  exists v', compact_to_u256 (u256_to_compact v) = Ok v'
    /\ 0 <= v' <= v /\ (v - v') * 2 ^ 15 <= v'.
Proof. by apply compact_truncates. Qed.

Lemma compact_encoding_precision_witness :
  exists v', compact_to_u256 (u256_to_compact (2 ^ 231 + 12345)) = Ok v'
    /\ 0 <= v' <= 2 ^ 231 + 12345 /\ (2 ^ 231 + 12345 - v') * 2 ^ 15 <= v'.
Proof. apply (compact_encoding_precision Z_u256 Z_u256_laws); by_decide. Defined.

(** The work of a block is 2^256 / (target + 1), computed in 256 bits
    without overflow for every compact word that decodes to a positive
    target; hence a smaller target is never less work. *)
Theorem block_proof_is_expected_work (U : U256Ops) (L : U256Laws U) (b1 b2 t1 t2 : Z)
    (H1 : is_u32 b1) (H2 : is_u32 b2)
    (T1 : compact_to_u256 b1 = Ok t1) (T2 : compact_to_u256 b2 = Ok t2) (Hlt : 0 < t1 <= t2) :
  block_proof b1 = Ok (2 ^ 256 / (t1 + 1)) /\ block_proof b2 = Ok (2 ^ 256 / (t2 + 1))
  /\ 2 ^ 256 / (t2 + 1) <= 2 ^ 256 / (t1 + 1).
Proof.
  split_and!; [apply block_proof_eq; (done || lia)..|]. apply Z.div_le_compat_l; lia.
Qed.

Lemma block_proof_is_expected_work_witness :
  block_proof 0x1d00ffff = Ok (2 ^ 256 / (0xffff * 2 ^ 208 + 1))
  /\ block_proof 0x1f07ffff = Ok (2 ^ 256 / (0x7ffff * 2 ^ 224 + 1))
  /\ 2 ^ 256 / (0x7ffff * 2 ^ 224 + 1) <= 2 ^ 256 / (0xffff * 2 ^ 208 + 1).
Proof.
  apply (block_proof_is_expected_work Z_u256 Z_u256_laws);
    [by_decide|by_decide|vm_compute; reflexivity|vm_compute; reflexivity|by_decide].
Defined.

(** ** Retargeting *)
Section retarget.
  Context {U : U256Ops} {L : U256Laws U}.
  Context (p : ConsensusParams).

Definition limit : Z := from_le (pow_limit p).
Definition lwma_k : Z :=
  Z.quot (zawy_lwma_averaging_window p * (zawy_lwma_averaging_window p + 1) * pow_target_spacing p) 2.

(** What the networks' parameters guarantee the retargeting code. *)
Definition retarget_params_ok : Prop :=
  array 32 (pow_limit p) /\ 0 < limit < 2 ^ 252
  /\ 0 < pow_target_spacing p <= 1000 /\ 1 < zawy_lwma_averaging_window p <= 1000
  /\ 0 < digishield_averaging_window p <= 1000
  /\ (0 < digishield_averaging_window_timespan p <= 1000000
      /\ 0 <= digishield_min_actual_timespan p <= digishield_max_actual_timespan p
      /\ digishield_max_actual_timespan p <= 2 * digishield_averaging_window_timespan p).
#[global] Instance retarget_params_ok_dec : Decision retarget_params_ok.
Proof. unfold retarget_params_ok; apply _. Defined.

(** A chain whose headers carry valid targets. *)
Definition header_ok (h : HeaderInfo) : Prop :=
  exists tg, compact_to_u256 (hi_bits h) = Ok tg /\ 0 <= tg <= limit.
Definition chain_ok (chain : list HeaderInfo) : Prop :=
  chain <> [] /\ contiguous_from (hi_height (default (mkHeaderInfo 0 0 0) (head chain))) 0 chain = true
  /\ Forall header_ok chain
  /\ (hi_height (default (mkHeaderInfo 0 0 0) (head chain)) = 0
      \/ zawy_lwma_averaging_window p < Z.of_nat (length chain)).

(** A compact word within the limit. *)
Definition within_limit (r : result DifficultyError Z) : Prop :=
  exists b tg, r = Ok b /\ compact_to_u256 b = Ok tg /\ 0 <= tg <= limit.

  Context (Hp : retarget_params_ok).

Lemma limit_u256 : 0 < limit < 2 ^ 252 /\ u256_from_little_endian (pow_limit p) = limit.
Proof. destruct Hp as (Ha&HP&_). split; [done|]. by apply u256_from_le_spec. Qed.

Lemma u256_small z : 0 <= z < 2 ^ 256 -> is_u256 z.
Proof. done. Qed.

Lemma within_limit_compact v : 0 <= v <= limit -> within_limit (Ok (u256_to_compact v)).
Proof.
  intros Hv. destruct limit_u256 as [HP _].
  destruct (compact_truncates v) as (v'&Hc&Hv'&_).
  { change (2 ^ 256) with (16 * 2 ^ 252). lia. }
  exists (u256_to_compact v), v'. split; [done|]. split; [done|lia].
Qed.

Lemma clamp_within v : 0 <= v -> 0 <= clamp_to_limit v p <= limit.
Proof.
  intros Hv. destruct limit_u256 as [HP E]. unfold clamp_to_limit. rewrite E, Z.gtb_ltb.
  destruct (Z.ltb_spec limit v); lia.
Qed.

(** Heights of a contiguous chain. *)
Lemma contiguous_lookup base idx chain i h :
  contiguous_from base idx chain = true -> chain !! i = Some h ->
  hi_height h = base + Z.of_nat (idx + i).
Proof.
  revert idx i; induction chain as [|x chain IH]; intros idx i; [done|].
  cbn [contiguous_from]. intros [Hx Hc]%andb_true_iff. destruct i as [|i]; cbn.
  - intros [= <-]. apply Z.eqb_eq in Hx. rewrite Nat.add_0_r. done.
  - intros Hi. rewrite (IH (S idx) i Hc Hi). f_equal. lia.
Qed.

Lemma chain_last chain :
  chain_ok chain -> exists first lst, head chain = Some first /\ last chain = Some lst
    /\ chain !! 0%nat = Some first
    /\ hi_height lst = hi_height first + Z.of_nat (length chain) - 1
    /\ (0 < length chain)%nat.
Proof.
  intros (Hne&Hc&_&_). destruct chain as [|first chain]; [done|]. cbn [head default from_option id] in Hc.
  exists first. destruct (last (first :: chain)) as [lst|] eqn:El; [|by apply last_None in El].
  exists lst. split_and!; try done; [|cbn; lia].
  rewrite last_lookup in El. rewrite (contiguous_lookup _ _ _ _ _ Hc El). cbn. lia.
Qed.

Lemma index_i64_ok {E} (chain : list HeaderInfo) i :
  0 <= i < Z.of_nat (length chain) -> Forall header_ok chain ->
  exists h, index_i64 (E:=E) chain i = Ok h /\ header_ok h.
Proof.
  intros Hi HF. destruct (lookup_lt_is_Some_2 chain (Z.to_nat i)) as [h Hh]; [lia|].
  exists h. unfold index_i64, index. rewrite (proj2 (Z.ltb_ge i 0)), Hh by lia.
  split; [done|]. by eapply Forall_lookup_1.
Qed.

Lemma div_target tg d : 0 <= tg <= limit -> 0 < d < 2 ^ 64 ->
  u256_div tg d = Some (tg / d) /\ 0 <= tg / d <= limit / d.
Proof.
  intros Ht Hd. destruct limit_u256 as [HP _]. rewrite u256_div_spec.
  - rewrite (proj2 (Z.eqb_neq d 0)) by lia. split; [done|].
    split; [apply Z.div_pos; lia|apply Z.div_le_mono; lia].
  - apply u256_small. change (2 ^ 256) with (16 * 2 ^ 252). lia.
  - apply u256_small. change (2 ^ 256) with (2 ^ 192 * 2 ^ 64). lia.
Qed.

Lemma saturating_add_bound a b m :
  0 <= a <= m -> 0 <= b -> m + b <= u256_max ->
  u256_saturating_add a b = a + b.
Proof.
  intros Ha Hb Hm. unfold u256_max in *. rewrite u256_saturating_add_spec by (apply u256_small; lia).
  unfold u256_max. lia.
Qed.

(** The accumulated sums of both LWMA loops stay small. *)
Definition lwma_n : Z := zawy_lwma_averaging_window p.
Definition lwma_t : Z := pow_target_spacing p.
Definition lwma_divisor : Z := lwma_k * lwma_n.

Lemma lwma_consts :
  1 < lwma_n <= 1000 /\ 0 < lwma_t <= 1000 /\ 2 * lwma_k = lwma_n * (lwma_n + 1) * lwma_t
  /\ 0 < lwma_k <= 2000000000 /\ 0 < lwma_divisor < 2 ^ 64 /\ wrap_u64 (lwma_k * lwma_n) = lwma_divisor.
Proof.
  destruct Hp as (_&_&Ht&Hn&_). fold lwma_n lwma_t in *.
  assert (Hk : 2 * lwma_k = lwma_n * (lwma_n + 1) * lwma_t).
  { unfold lwma_k. fold lwma_n lwma_t. rewrite Z.quot_div_nonneg by nia.
    assert (Hev : (lwma_n * (lwma_n + 1)) mod 2 = 0).
    { rewrite Z.mul_mod by lia. rewrite (Z.add_mod lwma_n 1) by lia.
      pose proof (Z.mod_pos_bound lwma_n 2 ltac:(lia)). assert (lwma_n mod 2 = 0 \/ lwma_n mod 2 = 1) as [->| ->] by lia; done. }
    pose proof (Z.div_mod (lwma_n * (lwma_n + 1)) 2 ltac:(lia)) as Hdm. rewrite Hev, Z.add_0_r in Hdm.
    rewrite Hdm. replace (2 * (lwma_n * (lwma_n + 1) / 2) * lwma_t) with (lwma_n * (lwma_n + 1) / 2 * lwma_t * 2) by lia.
    rewrite Z.div_mul by lia. lia. }
  assert (lwma_n * (lwma_n + 1) <= 1001000) by nia. assert (6 <= lwma_n * (lwma_n + 1)) by nia.
  assert (lwma_n * (lwma_n + 1) * lwma_t <= 1001000 * 1000) by (apply Z.mul_le_mono_nonneg; lia).
  assert (6 * 1 <= lwma_n * (lwma_n + 1) * lwma_t) by (apply Z.mul_le_mono_nonneg; lia).
  assert (0 < lwma_k <= 2000000000) by lia.
  assert (HD : 0 < lwma_divisor <= 2000000000 * 1000). { unfold lwma_divisor. nia. }
  split_and!; try lia.
  unfold wrap_u64. fold lwma_divisor. apply Z.mod_small. lia.
Qed.

(** Sum times time never overflows. *)
Lemma lwma_product s w :
  0 <= s <= lwma_n * (limit / lwma_divisor) -> 0 <= w <= lwma_n * (6 * lwma_t * lwma_n) ->
  u256_mul s (wrap_u64 w) = Some (s * w) /\ 0 <= s * w.
Proof.
  intros Hs Hw. destruct lwma_consts as (Hn&Ht&Hk&Hkb&HD&_). destruct limit_u256 as [HP _].
  assert (Hw64 : 0 <= w <= 6000000000000) by nia.
  assert (wrap_u64 w = w) as -> by (unfold wrap_u64; apply Z.mod_small; lia).
  assert (HPD : lwma_n * (limit / lwma_divisor) * lwma_k <= limit).
  { unfold lwma_divisor in *. pose proof (Z.mul_div_le limit (lwma_k * lwma_n) ltac:(lia)). lia. }
  assert (Hwk : w <= 12 * lwma_k) by nia.
  assert (s * w <= 12 * limit) by nia.
  rewrite u256_mul_spec.
  - replace (_ <=? u256_max) with true; [split; [done|nia]|].
    symmetry. apply Z.leb_le. unfold u256_max. change (2 ^ 256) with (16 * 2 ^ 252). lia.
  - apply u256_small. split; [lia|]. change (2 ^ 256) with (16 * 2 ^ 252). nia.
  - apply u256_small. change (2 ^ 256) with (2 ^ 64 * 2 ^ 192). change (2 ^ 64) with 18446744073709551616. lia.
Qed.

Lemma lwma_step_bound s k :
  0 <= s <= k * (limit / lwma_divisor) -> 0 <= k < lwma_n -> forall q, 0 <= q <= limit / lwma_divisor ->
  u256_saturating_add s q = s + q /\ 0 <= s + q <= (k + 1) * (limit / lwma_divisor).
Proof.
  intros Hs Hk q Hq. destruct lwma_consts as (Hn&_&_&_&HD&_). destruct limit_u256 as [HP _].
  split; [|nia]. apply (saturating_add_bound _ _ (k * (limit / lwma_divisor))); [done|lia|].
  assert (lwma_n * (limit / lwma_divisor) <= limit).
  { unfold lwma_divisor in *. pose proof (Z.mul_div_le limit (lwma_k * lwma_n) ltac:(lia)).
    destruct lwma_consts as (_&_&_&?&_). assert (0 <= limit / (lwma_k * lwma_n)) by (apply Z.div_pos; lia). nia. }
  assert (k * (limit / lwma_divisor) + q <= lwma_n * (limit / lwma_divisor)) by nia.
  unfold u256_max. change (2 ^ 256) with (16 * 2 ^ 252). lia.
Qed.

Lemma lwma_loop_ok count chain base i j s w :
  Forall header_ok chain -> 0 <= i - 1 - base -> i + Z.of_nat count <= base + Z.of_nat (length chain) ->
  0 <= j -> j + Z.of_nat count = lwma_n -> 0 <= s <= j * (limit / lwma_divisor) -> - (j * (360 * lwma_n)) <= w <= j * (6 * lwma_t * lwma_n) ->
  exists s' w', lwma_loop count chain base lwma_t lwma_divisor i j s w = Ok (s', w')
    /\ 0 <= s' <= lwma_n * (limit / lwma_divisor) /\ w' <= lwma_n * (6 * lwma_t * lwma_n).
Proof.
  destruct lwma_consts as (Hn&Ht&_&_&HD&_).
  revert i j s w; induction count as [|count IH]; intros i j s w HF Hi Hl Hj Hc Hs Hw; cbn [lwma_loop].
  - exists s, w. replace j with lwma_n in * by lia. split_and!; (done || lia).
  - destruct (index_i64_ok (E:=DifficultyError) chain (i - base)) as (b&->&(tg&Htg&Htgb)); [lia|done|].
    destruct (index_i64_ok (E:=DifficultyError) chain (i - 1 - base)) as (b'&->&_); [lia|done|].
    cbn [mbind result_bind]. rewrite Htg. cbn [map_err mbind result_bind].
    destruct (div_target tg lwma_divisor Htgb HD) as [-> Hq]. cbn [or_panic mbind result_bind].
    destruct (lwma_step_bound s j Hs ltac:(lia) _ Hq) as [-> Hs'].
    set (st := Z.min (Z.max _ _) _). assert (Hst : -360 <= st <= 6 * lwma_t) by lia.
    apply IH; try done; try lia; nia.
Qed.

Lemma lwma3_loop_ok count chain base height i j s pd w ts :
  Forall header_ok chain -> 0 <= i - base -> i + Z.of_nat count <= base + Z.of_nat (length chain) ->
  0 <= j -> j + Z.of_nat count = lwma_n -> 0 <= s <= j * (limit / lwma_divisor) -> 0 <= pd <= limit ->
  0 <= w <= j * (6 * lwma_t * lwma_n) ->
  exists s' pd' w', lwma3_loop count chain base height lwma_t lwma_divisor i j s pd w ts = Ok (s', pd', w')
    /\ 0 <= s' <= lwma_n * (limit / lwma_divisor) /\ 0 <= pd' <= limit /\ 0 <= w' <= lwma_n * (6 * lwma_t * lwma_n).
Proof.
  destruct lwma_consts as (Hn&Ht&_&_&HD&_).
  revert i j s pd w ts; induction count as [|count IH]; intros i j s pd w ts HF Hi Hl Hj Hc Hs Hpd Hw;
    cbn [lwma3_loop].
  - exists s, pd, w. replace j with lwma_n in * by lia. split_and!; (done || lia).
  - destruct (index_i64_ok (E:=DifficultyError) chain (i - base)) as (b&->&(tg&Htg&Htgb)); [lia|done|].
    cbn [mbind result_bind]. rewrite Htg. cbn [map_err mbind result_bind].
    destruct (div_target tg lwma_divisor Htgb HD) as [-> Hq]. cbn [or_panic mbind result_bind].
    destruct (lwma_step_bound s j Hs ltac:(lia) _ Hq) as [-> Hs'].
    set (now := if hi_time b >? ts then _ else _).
    assert (Hnow : ts < now). { subst now. rewrite Z.gtb_ltb. destruct (Z.ltb_spec ts (hi_time b)); lia. }
    set (st := Z.min _ _). assert (Hst : 0 <= st <= 6 * lwma_t) by lia.
    apply IH; try done; try lia; try nia. by destruct (i =? height).
Qed.

Lemma mul_div_ok {E} v : 0 <= v <= limit -> exists r, mul_div_u256 (E:=E) v 67 100 = Ok r /\ 0 <= r.
Proof.
  intros Hv. destruct limit_u256 as [HP _].
  assert (HB : 2 ^ 256 = 16 * 2 ^ 252) by done. unfold mul_div_u256. cbn [Z.eqb].
  destruct (div_target v 100 Hv ltac:(lia)) as [-> _]. cbn [or_panic mbind result_bind].
  set (q := v / 100). assert (Hq : 0 <= v - q * 100 < 100 /\ 0 <= q <= v) by (subst q; div_lia).
  rewrite u256_mul_spec by (apply u256_small; lia).
  replace (q * 100 <=? u256_max) with true by (symmetry; apply Z.leb_le; unfold u256_max; lia).
  cbn [or_panic mbind result_bind]. rewrite u256_sub_spec by (apply u256_small; lia).
  replace (q * 100 <=? v) with true by (symmetry; apply Z.leb_le; lia). cbn [or_panic mbind result_bind].
  rewrite u256_overflowing_mul_spec by (apply u256_small; lia).
  rewrite u256_mul_spec by (apply u256_small; lia).
  replace ((v - q * 100) * 67 <=? u256_max) with true by (symmetry; apply Z.leb_le; unfold u256_max; lia).
  cbn [or_panic mbind result_bind]. rewrite u256_div_spec by (apply u256_small; lia).
  cbn [Z.eqb or_panic mbind result_bind].
  assert (Hd : 0 <= (v - q * 100) * 67 / 100 < 67) by div_lia.
  assert (Hqm : 0 <= (if u256_max <? q * 67 then u256_max else (q * 67) mod 2 ^ 256) < 2 ^ 256).
  { destruct (_ <? _); [unfold u256_max; lia|apply Z.mod_pos_bound; lia]. }
  set (qm := if u256_max <? q * 67 then u256_max else _) in *. clearbody qm.
  rewrite u256_overflowing_add_spec by (apply u256_small; lia).
  eexists; split; [done|]. destruct (u256_max <? _); [by compute|apply Z.mod_pos_bound; lia].
Qed.

Lemma lwma_within chain : chain_ok chain -> within_limit (lwma_next_work_required chain p).
Proof.
  intros Hc. destruct (chain_last chain Hc) as (first&lst&Hh&Hl&H0&Hht&Hlen).
  destruct Hc as (_&_&HF&Hbase). rewrite Hh in Hbase. cbn [default from_option id] in Hbase.
  destruct lwma_consts as (Hn&Ht&Hk&Hkb&HD&HwD). destruct limit_u256 as [HP EP].
  unfold lwma_next_work_required. cbv zeta. rewrite Hl. cbn [or_panic mbind result_bind].
  cbv zeta. fold lwma_k. fold lwma_t lwma_n. fold lwma_n in Hbase. rewrite HwD.
  destruct (Z.leb_spec (hi_height lst) lwma_n).
  { unfold target_to_compact. rewrite EP. apply within_limit_compact. lia. }
  unfold index. rewrite H0. cbn [mbind result_bind].
  destruct (lwma_loop_ok (Z.to_nat lwma_n) chain (hi_height first) (hi_height lst - lwma_n + 1) 0 0 0)
    as (s&w&->&Hs&Hw); [done|lia|lia|lia|lia|lia|lia|]. cbn [mbind result_bind].
  set (w' := if w <? Z.quot lwma_k 10 then _ else _).
  assert (Hw' : 0 <= w' <= lwma_n * (6 * lwma_t * lwma_n)).
  { subst w'. assert (0 <= Z.quot lwma_k 10 <= lwma_k) by (rewrite Z.quot_div_nonneg by lia; div_lia).
    destruct (Z.ltb_spec w (Z.quot lwma_k 10)); nia. }
  destruct (lwma_product s w' Hs Hw') as [-> Hnn]. cbn [or_panic mbind result_bind].
  by apply within_limit_compact, clamp_within.
Qed.

Lemma lwma3_within chain : chain_ok chain -> within_limit (lwma3_next_work_required chain p).
Proof.
  intros Hc. destruct (chain_last chain Hc) as (first&lst&Hh&Hl&H0&Hht&Hlen).
  destruct Hc as (_&_&HF&Hbase). rewrite Hh in Hbase. cbn [default from_option id] in Hbase.
  destruct lwma_consts as (Hn&Ht&Hk&Hkb&HD&HwD). destruct limit_u256 as [HP EP].
  unfold lwma3_next_work_required. cbv zeta. rewrite Hl. cbn [or_panic mbind result_bind].
  cbv zeta. fold lwma_k. fold lwma_t lwma_n. fold lwma_n in Hbase. rewrite HwD, EP.
  destruct (Z.ltb_spec (hi_height lst) lwma_n); [apply within_limit_compact; lia|].
  unfold index. rewrite H0. cbn [mbind result_bind].
  destruct (index_i64_ok (E:=DifficultyError) chain (hi_height lst - lwma_n - hi_height first)) as (b&->&_);
    [lia|done|]. cbn [mbind result_bind].
  destruct (lwma3_loop_ok (Z.to_nat lwma_n) chain (hi_height first) (hi_height lst) (hi_height lst - lwma_n + 1) 0 0 0 0
    (hi_time b)) as (s&pd&w&->&Hs&Hpd&Hw); [done|lia|lia|lia|lia|lia|lia|lia|]. cbn [mbind result_bind].
  destruct (lwma_product s w Hs Hw) as [-> Hnn]. cbn [or_panic mbind result_bind].
  destruct (div_target pd 2 Hpd ltac:(lia)) as [-> Hhalf]. cbn [or_panic mbind result_bind].
  destruct (mul_div_ok (E:=DifficultyError) pd Hpd) as (mn&->&Hmn). cbn [mbind result_bind].
  assert (Hmx : 0 <= u256_saturating_add pd (pd / 2)).
  { assert (limit / 2 <= limit) by div_lia. rewrite u256_saturating_add_spec
      by (apply u256_small; change (2 ^ 256) with (16 * 2 ^ 252); lia). unfold u256_max. lia. }
  apply within_limit_compact. rewrite !Z.gtb_ltb.
  repeat match goal with |- context [?a <? ?b] => destruct (Z.ltb_spec a b) end; lia.
Qed.

Lemma sum_targets_ok hs total :
  Forall header_ok hs -> 0 <= total <= u256_max ->
  exists r, sum_targets hs total = Ok r /\ 0 <= r <= u256_max
    /\ r <= total + Z.of_nat (length hs) * limit.
Proof.
  destruct limit_u256 as [HP _]. intros HF. revert total. assert (HB : 2 ^ 256 = 16 * 2 ^ 252) by done.
  induction HF as [|h hs (tg&Htg&Hb) HF IH]; intros total H0; cbn [sum_targets length] in *.
  - exists total. split; [done|lia].
  - rewrite Htg. cbn [map_err mbind result_bind].
    rewrite u256_saturating_add_spec by (apply u256_small; unfold u256_max in *; lia).
    destruct (IH (Z.min (total + tg) u256_max)) as (r&->&Hr&Hle); [lia|].
    exists r. split; [done|]. split; [done|nia].
Qed.

Lemma median_ok {E} chain idx :
  (idx < length chain)%nat -> exists m, median_time_past (E:=E) chain idx = Ok m.
Proof.
  intros Hi. unfold median_time_past. rewrite (proj2 (Nat.ltb_lt _ _) Hi).
  set (ts := merge_sort Z.le _).
  assert (Hl : (1 <= length ts)%nat).
  { subst ts. rewrite (Permutation_length (merge_sort_Permutation _ _)), length_map, length_slice; lia. }
  destruct (lookup_lt_is_Some_2 ts (length ts / 2)) as [m Hm].
  { apply Nat.div_lt; lia. }
  exists m. unfold index. by rewrite Hm.
Qed.

Lemma digishield_within avg a b :
  0 <= avg <= limit -> within_limit (digishield_next_work_required avg a b p).
Proof.
  intros Hav. destruct limit_u256 as [HP EP]. destruct Hp as (_&_&_&_&_&HT&Hmm&Hmx).
  unfold digishield_next_work_required. set (T := digishield_averaging_window_timespan p) in *.
  set (at0 := T + Z.quot (a - b - T) 4).
  set (at1 := if at0 <? digishield_min_actual_timespan p then _ else _).
  set (at2 := if at1 >? digishield_max_actual_timespan p then _ else _).
  assert (Hat : 0 <= at2 <= 2 * T).
  { subst at2 at1. rewrite Z.gtb_ltb.
    repeat match goal with |- context [?a <? ?b] => destruct (Z.ltb_spec a b) end; lia. }
  assert (wrap_u64 T = T) as -> by (unfold wrap_u64; apply Z.mod_small; lia).
  assert (wrap_u64 at2 = at2) as -> by (unfold wrap_u64; apply Z.mod_small; lia).
  destruct (div_target avg T Hav ltac:(lia)) as [-> Hq]. cbn [or_panic mbind result_bind].
  assert (Hprod : avg / T * at2 <= 2 * limit).
  { pose proof (Z.mul_div_le avg T ltac:(lia)). nia. }
  assert (HB : 2 ^ 256 = 16 * 2 ^ 252) by done.
  assert (limit / T <= limit) by (apply Z.div_le_upper_bound; nia).
  rewrite u256_mul_spec by (apply u256_small; lia).
  replace (_ <=? u256_max) with true by (symmetry; apply Z.leb_le; unfold u256_max; lia).
  cbn [or_panic mbind result_bind]. apply within_limit_compact, clamp_within. nia.
Qed.

Lemma next_work_within chain next_time :
  chain_ok chain -> within_limit (get_next_work_required chain next_time p).
Proof.
  intros Hc. destruct limit_u256 as [HP EP].
  destruct (chain_last chain Hc) as (first&lst&Hh&Hl&H0&Hht&Hlen).
  assert (Hlim : within_limit (Ok (target_to_compact (pow_limit p)))).
  { unfold target_to_compact. rewrite EP. apply within_limit_compact. lia. }
  unfold get_next_work_required. destruct chain as [|x chain'] eqn:Ec; [done|]. rewrite <- Ec in *. cbv zeta.
  assert (ensure_contiguous chain = Ok ()) as Hcont.
  { unfold ensure_contiguous, index. rewrite H0. cbn [mbind result_bind].
    destruct Hc as (_&Hcc&_). rewrite Hh in Hcc. cbn in Hcc. by rewrite Hcc. }
  clear Ec. rewrite Hcont, Hl. cbn [or_panic mbind result_bind].
  destruct (_ && _); [done|]. destruct (_ && _).
  { destruct (lwma3_within chain Hc) as (b&tg&->&Htg&Hb). cbn [mbind result_bind]. rewrite Htg.
    cbn [map_err mbind result_bind]. apply within_limit_compact, clamp_within.
    assert (HB : 2 ^ 256 = 16 * 2 ^ 252) by done.
    rewrite u256_shr_spec by (try apply u256_small; lia).
    assert (Hs : 0 <= tg / 2 ^ 5 <= tg) by (change (2 ^ 5) with 32; div_lia).
    rewrite u256_overflowing_mul_spec; [|apply u256_small; lia|].
    2: { apply u256_small. unfold wrap_u32. change (2 ^ 256) with (4294967296 * 2 ^ 224).
         pose proof (Z.mod_pos_bound (eh_epoch_end p Kamiooka + 61 - hi_height lst) 4294967296). lia. }
    cbn [fst]. rewrite u256_overflowing_add_spec; [apply Z.mod_pos_bound; lia|apply u256_small; lia|].
    apply u256_small, Z.mod_pos_bound. lia. }
  match goal with |- within_limit (if ?c then _ else _) => destruct c end; [done|].
  destruct (Nat.leb_spec (length chain) (Z.to_nat (digishield_averaging_window p))); [done|].
  pose proof Hp as (_&_&_&_&Hw&_). set (w := Z.to_nat (digishield_averaging_window p)) in *.
  pose proof Hc as (_&_&HF&_).
  assert (Hdl : length (drop (length chain - w) chain) = w) by (rewrite length_drop; lia).
  assert (Hwz : 0 < Z.of_nat w <= 1000) by (subst w; lia).
  destruct (sum_targets_ok (drop (length chain - w) chain) 0) as (tot&->&Hu&Htot);
    [by apply Forall_drop|by compute|].
  cbn [mbind result_bind]. rewrite Hdl in Htot.
  assert (Hav : 0 <= tot / Z.of_nat w <= limit).
  { split; [apply Z.div_pos; lia|apply Z.div_le_upper_bound; lia]. }
  rewrite u256_div_spec.
  2: { apply u256_small. unfold u256_max in Hu. lia. }
  2: { apply u256_small. change (2 ^ 256) with (2 ^ 192 * 2 ^ 64). lia. }
  rewrite (proj2 (Z.eqb_neq (Z.of_nat w) 0)) by lia. cbn [or_panic mbind result_bind].
  destruct (_ <? _).
  - destruct (median_ok (E:=DifficultyError) chain (length chain - 1)) as [m1 ->]; [lia|].
    destruct (median_ok (E:=DifficultyError) chain (length chain - w - 1)) as [m2 ->]; [lia|].
    cbn [mbind result_bind]. by apply digishield_within.
  - destruct (_ <? _); [by apply lwma_within|by apply lwma3_within].
Qed.
End retarget.

(** Retargeting is total and respects the limit.  On every network, for
    every contiguous chain of headers with valid targets that is long enough
    for the averaging window (or starts at genesis), computing the next
    difficulty neither fails nor panics, whatever the timestamps are, and the
    word it returns decodes to a target no easier than the network's limit. *)
Theorem next_work_total_and_bounded (U : U256Ops) (L : U256Laws U) (net : Network)
    (chain : list HeaderInfo) (next_time : option Z)
    (Hc : chain_ok (consensus_params net) chain) :
  exists b tg, get_next_work_required chain next_time (consensus_params net) = Ok b
    /\ compact_to_u256 b = Ok tg /\ 0 <= tg <= from_le (pow_limit (consensus_params net)).
Proof. apply (next_work_within (consensus_params net)); [destruct net; by_decide|done]. Qed.

Definition sample_chain : list HeaderInfo :=
  map (fun i => mkHeaderInfo (Z.of_nat i) (1600000000 + 120 * Z.of_nat i) 0x1f07ffff) (seq 0 70).

Lemma sample_chain_ok : chain_ok mainnet_consensus_params sample_chain.
Proof.
  split; [done|]. split; [done|]. split; [|by left].
  unfold sample_chain. apply Forall_map, Forall_true. intros i.
  exists (0x7ffff * 2 ^ 224). split; [vm_compute; reflexivity|by_decide].
Qed.

Lemma next_work_total_and_bounded_witness :
  exists b tg, get_next_work_required sample_chain None (consensus_params Mainnet) = Ok b
    /\ compact_to_u256 b = Ok tg /\ 0 <= tg <= from_le (pow_limit (consensus_params Mainnet)).
Proof. apply (next_work_total_and_bounded Z_u256 Z_u256_laws). exact sample_chain_ok. Defined.
