(* ===== verification/Sighash.v ===== *)
(** * Signature hashes ([script/src/sighash.rs])

    The digest a transparent input signs, in its original (Sprout) and its
    Overwinter/Sapling form. *)

From S2P Require Import Prelude Encoding Hashing Transaction.
From Stdlib Require Import ZArith Lia.
From stdpp Require Import base list option numbers strings.
#[local] Open Scope Z_scope.

Definition SIGHASH_ALL : Z := 0x01.
Definition SIGHASH_NONE : Z := 0x02.
Definition SIGHASH_SINGLE : Z := 0x03.
Definition SIGHASH_ANYONECANPAY : Z := 0x80.

Definition base_type (sighash_type : Z) : Z := Z.land sighash_type 0x1f.
Definition has_anyone_can_pay (sighash_type : Z) : bool :=
  negb (Z.land sighash_type SIGHASH_ANYONECANPAY =? 0).

Inductive SigVersion := Sprout | Overwinter | Sapling.

Inductive SighashError :=
| InputIndexOutOfRange
| MissingOutput
| UnsupportedTransactionFormat (message : string)
| SighashEncoding (error : TransactionEncodeError).

Definition ZCASH_PREVOUTS_HASH_PERSONALIZATION : bytes :=
  Eval vm_compute in ascii_bytes "ZcashPrevoutHash".
Definition ZCASH_SEQUENCE_HASH_PERSONALIZATION : bytes :=
  Eval vm_compute in ascii_bytes "ZcashSequencHash".
Definition ZCASH_OUTPUTS_HASH_PERSONALIZATION : bytes :=
  Eval vm_compute in ascii_bytes "ZcashOutputsHash".
Definition ZCASH_JOINSPLITS_HASH_PERSONALIZATION : bytes :=
  Eval vm_compute in ascii_bytes "ZcashJSplitsHash".
Definition ZCASH_SHIELDED_SPENDS_HASH_PERSONALIZATION : bytes :=
  Eval vm_compute in ascii_bytes "ZcashSSpendsHash".
Definition ZCASH_SHIELDED_OUTPUTS_HASH_PERSONALIZATION : bytes :=
  Eval vm_compute in ascii_bytes "ZcashSOutputHash".
Definition ZCASH_SIGHASH_PERSONALIZATION_PREFIX : bytes :=
  Eval vm_compute in ascii_bytes "ZcashSigHash".

Section sighash.
  Context {H : Hashes}.

Definition blake2b_hash (personalization data : bytes) : Hash256 := blake2b_256 personalization data.

Definition signature_hash_version (tx : Transaction) : result SighashError SigVersion :=
  if f_overwintered tx then
    if version_group_id tx =? SAPLING_VERSION_GROUP_ID then Ok Sapling
    else if version_group_id tx =? OVERWINTER_VERSION_GROUP_ID then Ok Overwinter
    else Err (UnsupportedTransactionFormat "unknown overwintered version group id")
  else Ok Sprout.

(** One input of the Sprout form, at [actual_index]. *)
Definition sprout_input (tx : Transaction) (input_index : option nat) (script_code : bytes)
    (blank_sequences : bool) (actual_index : nat) : result SighashError bytes :=
  input ← index (vin tx) actual_index;
  let is_signing := bool_decide (input_index = Some actual_index) in
  Ok (consensus_encode (prevout input)
      ++ (if is_signing then write_var_bytes script_code else write_varint 0)
      ++ (if negb is_signing && blank_sequences then write_u32_le 0
          else write_u32_le (sequence input))).

Definition sprout_output (tx : Transaction) (input_index : option nat) (hash_single : bool)
    (idx : nat) : result SighashError bytes :=
  if hash_single && negb (bool_decide (Some idx = input_index))
  then Ok (write_i64_le (-1) ++ write_varint 0)
  else output ← index (vout tx) idx; Ok (consensus_encode output).

(** [for idx in 0..count { .. }], collecting what each iteration writes. *)
Fixpoint write_each {A} (f : A -> result SighashError bytes) (l : list A) : result SighashError bytes :=
  match l with
  | [] => Ok []
  | x :: l => b ← f x; bs ← write_each f l; Ok (b ++ bs)
  end.

Definition signature_hash_sprout (tx : Transaction) (input_index : option nat)
    (script_code : bytes) (sighash_type : Z) : result SighashError Hash256 :=
  let hash_single := base_type sighash_type =? SIGHASH_SINGLE in
  let hash_none := base_type sighash_type =? SIGHASH_NONE in
  _ ← (match input_index with
       | Some i =>
           if Nat.leb (length (vin tx)) i then Err InputIndexOutOfRange
           else if hash_single && Nat.leb (length (vout tx)) i then Err MissingOutput
           else Ok ()
       | None => if hash_single then Err MissingOutput else Ok ()
       end);
  if f_overwintered tx then
    Err (UnsupportedTransactionFormat "sprout sighash requires non-overwintered transaction")
  else
  let anyone_can_pay := has_anyone_can_pay sighash_type in
  if anyone_can_pay && bool_decide (input_index = None) then Err InputIndexOutOfRange
  else
  let input_indices :=
    if anyone_can_pay then match input_index with Some i => [i] | None => [] end
    else seq 0 (length (vin tx)) in
  inputs ← write_each (sprout_input tx input_index script_code (hash_single || hash_none)) input_indices;
  output_count ← (if hash_none then Ok O
                  else if hash_single then i ← ok_or input_index MissingOutput; Ok (S i)
                  else Ok (length (vout tx)));
  outputs ← write_each (sprout_output tx input_index hash_single) (seq 0 output_count);
  join_splits ←
    (if version tx >=? 2 then
       js ← map_err SighashEncoding (encode_each (JoinSplit_encode_with false) (join_splits tx));
       Ok (write_varint (Z.of_nat (length (join_splits tx))) ++ js
           ++ (if negb (is_nil (join_splits tx)) then join_split_pub_key tx ++ zeros 64 else []))
     else Ok []);
  Ok (sha256d (write_i32_le (version tx)
        ++ write_varint (Z.of_nat (length input_indices)) ++ inputs
        ++ write_varint (Z.of_nat output_count) ++ outputs
        ++ write_u32_le (lock_time tx) ++ join_splits ++ write_u32_le sighash_type)).

Definition hash_prevouts (tx : Transaction) : Hash256 :=
  blake2b_hash ZCASH_PREVOUTS_HASH_PERSONALIZATION
    (write_list (fun i => consensus_encode (prevout i)) (vin tx)).
Definition hash_sequence (tx : Transaction) : Hash256 :=
  blake2b_hash ZCASH_SEQUENCE_HASH_PERSONALIZATION
    (write_list (fun i => write_u32_le (sequence i)) (vin tx)).
Definition hash_outputs_all (tx : Transaction) : Hash256 :=
  blake2b_hash ZCASH_OUTPUTS_HASH_PERSONALIZATION (write_list consensus_encode (vout tx)).
Definition hash_outputs_single (output : TxOut) : Hash256 :=
  blake2b_hash ZCASH_OUTPUTS_HASH_PERSONALIZATION (consensus_encode output).
Definition hash_join_splits (tx : Transaction) : result SighashError Hash256 :=
  let use_groth := f_overwintered tx && (version tx >=? 4) in
  js ← map_err SighashEncoding (encode_each (JoinSplit_encode_with use_groth) (join_splits tx));
  Ok (blake2b_hash ZCASH_JOINSPLITS_HASH_PERSONALIZATION (js ++ join_split_pub_key tx)).
Definition hash_shielded_spends (spends : list SpendDescription) : Hash256 :=
  blake2b_hash ZCASH_SHIELDED_SPENDS_HASH_PERSONALIZATION
    (write_list (fun s => sd_cv s ++ sd_anchor s ++ sd_nullifier s ++ sd_rk s ++ sd_zkproof s) spends).
Definition hash_shielded_outputs (outputs : list OutputDescription) : Hash256 :=
  blake2b_hash ZCASH_SHIELDED_OUTPUTS_HASH_PERSONALIZATION (write_list consensus_encode outputs).

(** The digests of the parts, in the order they are written. *)
Definition overwinter_outputs_hash (tx : Transaction) (input_index : option nat) (base : Z) : Hash256 :=
  if negb (base =? SIGHASH_SINGLE) && negb (base =? SIGHASH_NONE) then hash_outputs_all tx
  else if base =? SIGHASH_SINGLE then
    match input_index with
    | Some i => match vout tx !! i with Some o => hash_outputs_single o | None => zeros 32 end
    | None => zeros 32
    end
  else zeros 32.

Definition signature_hash_overwinter (tx : Transaction) (input_index : option nat)
    (script_code : bytes) (amount sighash_type consensus_branch_id : Z) (sapling : bool)
    : result SighashError Hash256 :=
  _ ← (match input_index with
       | Some i => if Nat.leb (length (vin tx)) i then Err InputIndexOutOfRange else Ok ()
       | None => Ok ()
       end);
  let anyone_can_pay := has_anyone_can_pay sighash_type in
  let base := base_type sighash_type in
  let prevouts_hash := if negb anyone_can_pay then hash_prevouts tx else zeros 32 in
  let sequence_hash :=
    if negb anyone_can_pay && negb (base =? SIGHASH_SINGLE) && negb (base =? SIGHASH_NONE)
    then hash_sequence tx else zeros 32 in
  let outputs_hash := overwinter_outputs_hash tx input_index base in
  join_splits_hash ← (if negb (is_nil (join_splits tx)) then hash_join_splits tx else Ok (zeros 32));
  let shielded_spends_hash :=
    if sapling && negb (is_nil (shielded_spends tx)) then hash_shielded_spends (shielded_spends tx)
    else zeros 32 in
  let shielded_outputs_hash :=
    if sapling && negb (is_nil (shielded_outputs tx)) then hash_shielded_outputs (shielded_outputs tx)
    else zeros 32 in
  let personalization := ZCASH_SIGHASH_PERSONALIZATION_PREFIX ++ le_bytes 4 consensus_branch_id in
  tail ← (match input_index with
          | Some i =>
              input ← index (vin tx) i;
              Ok (consensus_encode (prevout input) ++ write_var_bytes script_code
                  ++ write_i64_le amount ++ write_u32_le (sequence input))
          | None => Ok []
          end);
  Ok (blake2b_hash personalization
        (write_u32_le (tx_header tx) ++ write_u32_le (version_group_id tx)
         ++ prevouts_hash ++ sequence_hash ++ outputs_hash ++ join_splits_hash
         ++ (if sapling then shielded_spends_hash ++ shielded_outputs_hash else [])
         ++ write_u32_le (lock_time tx) ++ write_u32_le (expiry_height tx)
         ++ (if sapling then write_i64_le (value_balance tx) else [])
         ++ write_u32_le sighash_type ++ tail)).

Definition signature_hash (tx : Transaction) (input_index : option nat) (script_code : bytes)
    (amount sighash_type consensus_branch_id : Z) : result SighashError Hash256 :=
  sigversion ← signature_hash_version tx;
  match sigversion with
  | Sprout => signature_hash_sprout tx input_index script_code sighash_type
  | Overwinter =>
      signature_hash_overwinter tx input_index script_code amount sighash_type consensus_branch_id false
  | Sapling =>
      signature_hash_overwinter tx input_index script_code amount sighash_type consensus_branch_id true
  end.
End sighash.

(** ** What a signature covers *)

(** A transaction without the parts a signature cannot cover: input scripts,
    spend authorizations, the join-split and binding signatures. *)
Definition unsign_input (i : TxIn) : TxIn := mkTxIn (prevout i) [] (sequence i).
Definition unsign_spend (s : SpendDescription) : SpendDescription :=
  mkSpendDescription (sd_cv s) (sd_anchor s) (sd_nullifier s) (sd_rk s) (sd_zkproof s) [].
Definition unsigned (tx : Transaction) : Transaction :=
  mkTransaction (f_overwintered tx) (version tx) (version_group_id tx)
    (map unsign_input (vin tx)) (vout tx) (lock_time tx) (expiry_height tx) (value_balance tx)
    (map unsign_spend (shielded_spends tx)) (shielded_outputs tx) (join_splits tx)
    (join_split_pub_key tx) [] [] (fluxnode tx).

(** A signature over every input and output. *)
Definition covers_all (sighash_type : Z) : bool :=
  negb (has_anyone_can_pay sighash_type)
  && negb (base_type sighash_type =? SIGHASH_SINGLE)
  && negb (base_type sighash_type =? SIGHASH_NONE).

(** What is signed about the input being spent. *)
Definition signed_input (tx : Transaction) (input_index : option nat) (script_code : bytes)
    (amount : Z) : option (option (OutPoint * Z) * bytes * Z) :=
  match input_index with
  | Some i => Some ((fun t => (prevout t, sequence t)) <$> vin tx !! i, script_code, amount)
  | None => None
  end.

Section commits.
  Context {H : Hashes} {L : HashesLaws H}.

(** Two personalized messages with one BLAKE2b digest, or one whose digest is
    the all-zero placeholder. *)
Definition blake2b_broken : Prop :=
  (exists p1 x1 p2 x2, (p1, x1) <> (p2, x2) /\ blake2b_256 p1 x1 = blake2b_256 p2 x2)
  \/ exists p x, blake2b_256 p x = zeros 32.

Lemma digest_eq p1 x1 p2 x2 :
  blake2b_256 p1 x1 = blake2b_256 p2 x2 -> blake2b_broken \/ (p1 = p2 /\ x1 = x2).
Proof.
  intros E. destruct (decide ((p1, x1) = (p2, x2))) as [[= -> ->]|n]; [by right|].
  left; left. exists p1, x1, p2, x2. done.
Qed.

(** A digest that is the placeholder when its list is empty. *)
Definition optional_digest {A} (p : bytes) (l : list A) (f : list A -> bytes) : bytes :=
  if negb (is_nil l) then blake2b_256 p (f l) else zeros 32.

Lemma optional_digest_eq {A} p (l1 l2 : list A) (f1 f2 : list A -> bytes) :
  optional_digest p l1 f1 = optional_digest p l2 f2 ->
  blake2b_broken \/ (l1 = [] /\ l2 = []) \/ f1 l1 = f2 l2.
Proof.
  unfold optional_digest. destruct l1 as [|a1 l1], l2 as [|a2 l2]; simpl; intros E.
  - auto.
  - left; right; eauto.
  - left; right; eauto.
  - apply digest_eq in E as [?|[_ E]]; auto.
Qed.

Lemma write_list_inj {Er A} (m : parser Er A) (enc : A -> bytes) (R : A -> Prop) l1 l2 :
  (forall a, R a -> reads m (enc a) a) -> (forall a, R a -> enc a <> []) ->
  Forall R l1 -> Forall R l2 -> write_list enc l1 = write_list enc l2 -> l1 = l2.
Proof.
  intros Hm Hne H1; revert l2. induction H1 as [|a l1 Ha H1 IH]; intros l2 [|b l2' Hb H2];
    unfold write_list in *; cbn [map concat]; intros E.
  - done.
  - symmetry in E. apply app_eq_nil in E as [E _]. by destruct (Hne b).
  - apply app_eq_nil in E as [E _]. by destruct (Hne a).
  - apply (reads_prefix m _ _ _ _ a b) in E as [-> E]; [|by apply Hm..].
    f_equal. by apply IH.
Qed.

(** The message of an Overwinter-style digest that covers everything. *)
Definition spend_bytes (s : SpendDescription) : bytes :=
  sd_cv s ++ sd_anchor s ++ sd_nullifier s ++ sd_rk s ++ sd_zkproof s.
Definition input_tail (tx : Transaction) (input_index : option nat) (script_code : bytes)
    (amount : Z) : bytes :=
  match input_index with
  | Some i =>
      match vin tx !! i with
      | Some t => consensus_encode (prevout t) ++ write_var_bytes script_code
          ++ write_i64_le amount ++ write_u32_le (sequence t)
      | None => []
      end
  | None => []
  end.
Definition full_message (sapling : bool) (tx : Transaction) (input_index : option nat)
    (script_code : bytes) (amount sighash_type : Z) : bytes :=
  write_u32_le (tx_header tx) ++ write_u32_le (version_group_id tx)
  ++ hash_prevouts tx ++ hash_sequence tx ++ hash_outputs_all tx
  ++ optional_digest ZCASH_JOINSPLITS_HASH_PERSONALIZATION (join_splits tx)
       (fun l => write_list JoinSplit_bytes l ++ join_split_pub_key tx)
  ++ (if sapling then
        optional_digest ZCASH_SHIELDED_SPENDS_HASH_PERSONALIZATION (shielded_spends tx)
          (write_list spend_bytes)
        ++ optional_digest ZCASH_SHIELDED_OUTPUTS_HASH_PERSONALIZATION (shielded_outputs tx)
          (write_list consensus_encode)
      else [])
  ++ write_u32_le (lock_time tx) ++ write_u32_le (expiry_height tx)
  ++ (if sapling then write_i64_le (value_balance tx) else [])
  ++ write_u32_le sighash_type ++ input_tail tx input_index script_code amount.

(** The digest is that message's, under the branch's personalization. *)
Lemma signature_hash_overwinter_message sapling tx idx sc am st br h :
  f_overwintered tx = true -> regular_wf tx -> covers_all st = true ->
  signature_hash_overwinter tx idx sc am st br sapling = Ok h ->
  h = blake2b_256 (ZCASH_SIGHASH_PERSONALIZATION_PREFIX ++ le_bytes 4 br)
        (full_message sapling tx idx sc am st)
  /\ match idx with Some i => exists t, vin tx !! i = Some t | None => True end.
Proof.
  intros Hf (_&_&_&_&_&Hjs&_) Hc. unfold covers_all in Hc.
  apply andb_true_iff in Hc as [Hc Hn]. apply andb_true_iff in Hc as [Ha Hs].
  unfold signature_hash_overwinter, overwinter_outputs_hash. rewrite Ha, Hs, Hn.
  cbn [andb].
  assert (Hj : (if negb (is_nil (join_splits tx)) then hash_join_splits tx else Ok (zeros 32))
    = Ok (optional_digest ZCASH_JOINSPLITS_HASH_PERSONALIZATION (join_splits tx)
       (fun l => write_list JoinSplit_bytes l ++ join_split_pub_key tx))).
  { unfold optional_digest, hash_join_splits. destruct (is_nil (join_splits tx)); [done|].
    cbn [negb]. rewrite Hf. unfold join_splits_wf, js_wf in Hjs. cbn [fst snd] in Hjs.
    rewrite (encode_each_Ok _ JoinSplit_bytes); [done|].
    destruct (version tx >=? 2); [|by destruct Hjs as [-> _]].
    destruct Hjs as [[_ Hjs] _]. rewrite Hf in Hjs.
    eapply Forall_impl; [exact Hjs|]. intros j Hj. by apply JoinSplit_encode_with_Ok, JoinSplit_wf_proof. }
  rewrite Hj. clear Hj Hjs.
  intros E. unfold full_message, input_tail. destruct idx as [i|].
  - destruct (Nat.leb_spec (length (vin tx)) i) as [|Hi]; [done|].
    destruct (lookup_lt_is_Some_2 (vin tx) i Hi) as [t Ht]. unfold index in E. rewrite Ht in *.
    split; [|eauto]. cbn [mbind result_bind] in E. injection E as <-. by destruct sapling.
  - split; [|done]. cbn [mbind result_bind] in E. injection E as <-. by destruct sapling.
Qed.

Lemma length_blake2b p x : length (blake2b_256 p x) = 32%nat.
Proof. apply blake2b_256_array. Qed.
Lemma length_optional_digest {A} p (l : list A) f : length (optional_digest p l f) = 32%nat.
Proof. unfold optional_digest. destruct (negb _); [apply length_blake2b|apply length_replicate]. Qed.

Lemma OutPoint_encode_nonempty (o : OutPoint) : wf o -> consensus_encode o <> [].
Proof. destruct o as [h i]; intros [[Hl _] _]; simpl in *. by destruct h. Qed.
Lemma le_bytes_nonempty n z : le_bytes (S n) z <> [].
Proof. done. Qed.
Lemma TxOut_encode_nonempty (o : TxOut) : wf o -> consensus_encode o <> [].
Proof.
  intros _ E. apply app_eq_nil in E as [E _]. by apply le_bytes_nonempty in E.
Qed.

(** The list digests commit to the lists. *)
Lemma hash_prevouts_inj tx1 tx2 :
  Forall TxIn_wf (vin tx1) -> Forall TxIn_wf (vin tx2) -> hash_prevouts tx1 = hash_prevouts tx2 ->
  blake2b_broken \/ map prevout (vin tx1) = map prevout (vin tx2).
Proof.
  intros W1 W2 E. apply digest_eq in E as [?|[_ E]]; [by left|right].
  revert E. unfold write_list. rewrite <- !(map_map prevout consensus_encode).
  apply write_list_inj with consensus_decode wf; [apply codec_reads|apply OutPoint_encode_nonempty| |].
  all: apply Forall_fmap; eapply Forall_impl; [eassumption|]; by intros ? [? _].
Qed.

Lemma hash_sequence_inj tx1 tx2 :
  Forall TxIn_wf (vin tx1) -> Forall TxIn_wf (vin tx2) -> hash_sequence tx1 = hash_sequence tx2 ->
  blake2b_broken \/ map sequence (vin tx1) = map sequence (vin tx2).
Proof.
  intros W1 W2 E. apply digest_eq in E as [?|[_ E]]; [by left|right].
  revert E. unfold write_list. rewrite <- !(map_map sequence write_u32_le).
  apply write_list_inj with read_u32_le is_u32; [apply read_u32_le_reads|intros; apply le_bytes_nonempty| |].
  all: apply Forall_fmap; eapply Forall_impl; [eassumption|]; by intros ? (_&_&?).
Qed.

Lemma hash_outputs_inj tx1 tx2 :
  Forall TxOut_wf (vout tx1) -> Forall TxOut_wf (vout tx2) ->
  hash_outputs_all tx1 = hash_outputs_all tx2 -> blake2b_broken \/ vout tx1 = vout tx2.
Proof.
  intros W1 W2 E. apply digest_eq in E as [?|[_ E]]; [by left|right].
  revert E. by apply write_list_inj with consensus_decode wf; [apply codec_reads|apply TxOut_encode_nonempty|..].
Qed.

Lemma unsign_inputs l1 l2 :
  map prevout l1 = map prevout l2 -> map sequence l1 = map sequence l2 ->
  map unsign_input l1 = map unsign_input l2.
Proof.
  revert l2; induction l1 as [|a l1 IH]; intros [|b l2]; simpl; try done.
  intros [= Ea El] [= Eb Em]. unfold unsign_input at 1 3. rewrite Ea, Eb. f_equal. auto.
Qed.

Lemma optional_list_inj {A} p (enc : A -> bytes) (l1 l2 : list A) :
  (write_list enc l1 = write_list enc l2 -> l1 = l2) ->
  optional_digest p l1 (write_list enc) = optional_digest p l2 (write_list enc) ->
  blake2b_broken \/ l1 = l2.
Proof. intros Hi E. apply optional_digest_eq in E as [?|[[-> ->]|E]]; auto. Qed.

Lemma join_splits_inj g p l1 l2 k1 k2 :
  Forall (JoinSplit_wf g) l1 -> Forall (JoinSplit_wf g) l2 ->
  length k1 = 32%nat -> length k2 = 32%nat ->
  (l1 = [] -> k1 = zeros 32) -> (l2 = [] -> k2 = zeros 32) ->
  optional_digest p l1 (fun l => write_list JoinSplit_bytes l ++ k1)
  = optional_digest p l2 (fun l => write_list JoinSplit_bytes l ++ k2) ->
  blake2b_broken \/ (l1 = l2 /\ k1 = k2).
Proof.
  intros W1 W2 L1 L2 Z1 Z2 E. apply optional_digest_eq in E as [?|[[? ?]|E]].
  - by left.
  - right. subst. by rewrite Z1, Z2.
  - right. apply app_inj_2 in E as [E ->]; [|congruence]. split; [|done].
    revert E. apply write_list_inj with (JoinSplit_decode_with g) (JoinSplit_wf g); try done.
    by apply JoinSplit_reads.
Qed.

Definition read_spend : parser DecodeError SpendDescription :=
  cv ← read_fixed 32; anchor ← read_fixed 32; nf ← read_fixed 32; rk ← read_fixed 32;
  proof ← read_fixed GROTH_PROOF_SIZE; mret (mkSpendDescription cv anchor nf rk proof []).

Lemma spends_inj p l1 l2 :
  Forall SpendDescription_wf l1 -> Forall SpendDescription_wf l2 ->
  optional_digest p l1 (write_list spend_bytes) = optional_digest p l2 (write_list spend_bytes) ->
  blake2b_broken \/ map unsign_spend l1 = map unsign_spend l2.
Proof.
  intros W1 W2 E. apply optional_digest_eq in E as [?|[[-> ->]|E]]; auto. right.
  assert (Hu : forall l, write_list spend_bytes (map unsign_spend l) = write_list spend_bytes l).
  { intros l. unfold write_list. by rewrite map_map. }
  rewrite <- (Hu l1), <- (Hu l2) in E. revert E.
  set (R s := array 32 (sd_cv s) /\ array 32 (sd_anchor s) /\ array 32 (sd_nullifier s)
    /\ array 32 (sd_rk s) /\ array GROTH_PROOF_SIZE (sd_zkproof s) /\ spend_auth_sig s = []).
  assert (HR : forall l, Forall SpendDescription_wf l -> Forall R (map unsign_spend l)).
  { intros l W. apply Forall_fmap. eapply Forall_impl; [eassumption|].
    intros s (?&?&?&?&?&?). unfold R; repeat (split; [assumption|]); reflexivity. }
  apply (write_list_inj read_spend spend_bytes R); [| |by apply HR..].
  - intros [] (?&?&?&?&?&?); simpl in *; subst. unfold read_spend, spend_bytes; simpl. solve_reads.
  - intros s ([Hl _]&_) E. apply app_eq_nil in E as [E _]. by rewrite E in Hl.
Qed.

Lemma outputs_inj p l1 l2 :
  Forall OutputDescription_wf l1 -> Forall OutputDescription_wf l2 ->
  optional_digest p l1 (write_list consensus_encode) = optional_digest p l2 (write_list consensus_encode) ->
  blake2b_broken \/ l1 = l2.
Proof.
  intros W1 W2. apply optional_list_inj.
  apply write_list_inj with consensus_decode wf; try done; [apply codec_reads|].
  intros o ([Hl _]&_) E. apply app_eq_nil in E as [E _]. unfold write_hash_le in E. by rewrite E in Hl.
Qed.

Lemma input_tail_inj tx1 tx2 i1 i2 sc1 sc2 am1 am2 :
  Forall TxIn_wf (vin tx1) -> Forall TxIn_wf (vin tx2) ->
  fits_compact sc1 -> fits_compact sc2 -> is_i64 am1 -> is_i64 am2 ->
  match i1 with Some i => exists t, vin tx1 !! i = Some t | None => True end ->
  match i2 with Some i => exists t, vin tx2 !! i = Some t | None => True end ->
  input_tail tx1 i1 sc1 am1 = input_tail tx2 i2 sc2 am2 ->
  signed_input tx1 i1 sc1 am1 = signed_input tx2 i2 sc2 am2.
Proof.
  intros W1 W2 F1 F2 A1 A2 I1 I2. unfold input_tail, signed_input.
  destruct i1 as [i1|], i2 as [i2|]; [..|done].
  - destruct I1 as [t1 H1], I2 as [t2 H2]. rewrite H1, H2. cbn [fmap option_fmap option_map].
    pose proof (Forall_lookup_1 _ _ _ _ W1 H1) as (P1&_&S1).
    pose proof (Forall_lookup_1 _ _ _ _ W2 H2) as (P2&_&S2).
    intros E.
    apply (reads_prefix consensus_decode _ _ _ _ (prevout t1) (prevout t2)) in E as [Ep E];
      [|by apply codec_reads..].
    apply (reads_prefix read_var_bytes _ _ _ _ sc1 sc2) in E as [-> E];
      [|by apply read_var_bytes_reads..].
    apply (reads_prefix read_i64_le _ _ _ _ am1 am2) in E as [-> E];
      [|by apply read_i64_le_reads..].
    apply le_bytes_inj in E; [|done..]. by rewrite Ep, E.
  - destruct I1 as [t1 H1]. rewrite H1. intros E. apply (f_equal length) in E.
    rewrite !length_app in E. unfold write_u32_le in E. rewrite length_le_bytes in E. simpl in E; lia.
  - destruct I2 as [t1 H1]. rewrite H1. intros E. apply (f_equal length) in E.
    rewrite !length_app in E. unfold write_u32_le in E. rewrite length_le_bytes in E. simpl in E; lia.
Qed.

Lemma sapling_v4_group tx :
  f_overwintered tx = true -> format_wf tx ->
  is_sapling_v4 true (version_group_id tx) (version tx)
  = (version_group_id tx =? SAPLING_VERSION_GROUP_ID).
Proof.
  intros F [_ Hg]. rewrite F in Hg. unfold is_overwinter_v3, is_sapling_v4 in *.
  destruct (Z.eqb_spec (version_group_id tx) SAPLING_VERSION_GROUP_ID) as [E|]; [|done].
  rewrite E in *. simpl in *. done.
Qed.

Lemma pub_key_wf tx :
  join_splits_wf tx -> length (join_split_pub_key tx) = 32%nat
  /\ (join_splits tx = [] -> join_split_pub_key tx = zeros 32).
Proof.
  unfold join_splits_wf, js_wf; cbn [fst snd]. destruct (_ >=? _).
  - intros [_ Hk]. destruct (join_splits tx); simpl in Hk.
    + destruct Hk as [-> _]. done.
    + destruct Hk as [[Hk _] _]. done.
  - intros (_&->&_). done.
Qed.

Lemma join_splits_forall tx :
  f_overwintered tx = true -> join_splits_wf tx ->
  Forall (JoinSplit_wf (version tx >=? 4)) (join_splits tx).
Proof.
  intros F. unfold join_splits_wf, js_wf; cbn [fst snd]. rewrite F.
  destruct (version tx >=? 2); [by intros [[_ ?] _]|]. intros [-> _]. constructor.
Qed.

Lemma u32_prefix a b r1 r2 :
  is_u32 a -> is_u32 b -> write_u32_le a ++ r1 = write_u32_le b ++ r2 -> a = b /\ r1 = r2.
Proof. intros. by apply (reads_prefix read_u32_le (write_u32_le a) (write_u32_le b)); [apply read_u32_le_reads..|]. Qed.
Lemma i64_prefix a b r1 r2 :
  is_i64 a -> is_i64 b -> write_i64_le a ++ r1 = write_i64_le b ++ r2 -> a = b /\ r1 = r2.
Proof. intros. by apply (reads_prefix read_i64_le (write_i64_le a) (write_i64_le b)); [apply read_i64_le_reads..|]. Qed.

Lemma unsigned_eq tx1 tx2 :
  f_overwintered tx1 = f_overwintered tx2 -> version tx1 = version tx2 ->
  version_group_id tx1 = version_group_id tx2 ->
  map unsign_input (vin tx1) = map unsign_input (vin tx2) -> vout tx1 = vout tx2 ->
  lock_time tx1 = lock_time tx2 -> expiry_height tx1 = expiry_height tx2 ->
  value_balance tx1 = value_balance tx2 ->
  map unsign_spend (shielded_spends tx1) = map unsign_spend (shielded_spends tx2) ->
  shielded_outputs tx1 = shielded_outputs tx2 -> join_splits tx1 = join_splits tx2 ->
  join_split_pub_key tx1 = join_split_pub_key tx2 -> fluxnode tx1 = fluxnode tx2 ->
  unsigned tx1 = unsigned tx2.
Proof. intros. unfold unsigned. by f_equal. Qed.

(** What two regular transactions share when their full messages agree. *)
Lemma full_message_inj b1 b2 tx1 tx2 i1 i2 sc1 sc2 am1 am2 st1 st2 :
  f_overwintered tx1 = true -> f_overwintered tx2 = true ->
  Transaction_wf true tx1 -> Transaction_wf true tx2 -> regular_wf tx1 -> regular_wf tx2 ->
  b1 = (version_group_id tx1 =? SAPLING_VERSION_GROUP_ID) ->
  b2 = (version_group_id tx2 =? SAPLING_VERSION_GROUP_ID) ->
  full_message b1 tx1 i1 sc1 am1 st1 = full_message b2 tx2 i2 sc2 am2 st2 ->
  is_u32 st1 -> is_u32 st2 ->
  blake2b_broken \/
  (unsigned tx1 = unsigned tx2 /\ st1 = st2
   /\ input_tail tx1 i1 sc1 am1 = input_tail tx2 i2 sc2 am2).
Proof.
  intros F1 F2 T1 T2 R1 R2 -> -> E St1 St2.
  destruct T1 as [Fm1 _], T2 as [Fm2 _].
  destruct (tx_header_fields tx1 (proj1 Fm1)) as (Hh1&_&Hv1).
  destruct (tx_header_fields tx2 (proj1 Fm2)) as (Hh2&_&Hv2).
  pose proof (group_id_wf _ Fm1) as G1. rewrite F1 in G1.
  pose proof (group_id_wf _ Fm2) as G2. rewrite F2 in G2.
  unfold full_message in E.
  apply u32_prefix in E as [Eh E]; [|done..].
  apply u32_prefix in E as [Eg E]; [|done..].
  assert (Ev : version tx1 = version tx2) by (rewrite <- Hv1, <- Hv2; by f_equal).
  apply app_inj_1 in E as [Epre E]; [|unfold hash_prevouts, blake2b_hash; by rewrite !length_blake2b].
  apply app_inj_1 in E as [Eseq E]; [|unfold hash_sequence, blake2b_hash; by rewrite !length_blake2b].
  apply app_inj_1 in E as [Eout E]; [|unfold hash_outputs_all, blake2b_hash; by rewrite !length_blake2b].
  apply app_inj_1 in E as [Ejs E]; [|by rewrite !length_optional_digest].
  destruct R1 as ([_ W1]&[_ O1]&K1&X1&S1&J1&_&N1), R2 as ([_ W2]&[_ O2]&K2&X2&S2&J2&_&N2).
  apply hash_prevouts_inj in Epre as [?|Epre]; [by left| |done..].
  apply hash_sequence_inj in Eseq as [?|Eseq]; [by left| |done..].
  apply hash_outputs_inj in Eout as [?|Eout]; [by left| |done..].
  pose proof (join_splits_forall _ F1 J1) as Q1. pose proof (join_splits_forall _ F2 J2) as Q2.
  rewrite <- Ev in Q2. apply pub_key_wf in J1 as [L1 Z1], J2 as [L2 Z2].
  apply (join_splits_inj _ _ _ _ _ _ Q1 Q2 L1 L2 Z1 Z2) in Ejs as [?|[Ejs Epk]]; [by left|].
  pose proof (proj2 Fm1) as Y1. pose proof (proj2 Fm2) as Y2.
  rewrite F1 in X1, Y1, S1. rewrite F2 in X2, Y2, S2. rewrite Y1 in X1. rewrite Y2 in X2. clear Y1 Y2.
  rewrite (sapling_v4_group _ F1 Fm1) in S1. rewrite (sapling_v4_group _ F2 Fm2) in S2.
  rewrite <- Eg in S2, E. pose proof (unsign_inputs _ _ Epre Eseq) as Eins.
  destruct (version_group_id tx1 =? SAPLING_VERSION_GROUP_ID) eqn:Hs.
  - destruct S1 as (V1&[_ P1]&[_ U1]), S2 as (V2&[_ P2]&[_ U2]).
    rewrite <- !app_assoc in E.
    apply app_inj_1 in E as [Esp E]; [|by rewrite !length_optional_digest].
    apply app_inj_1 in E as [Esh E]; [|by rewrite !length_optional_digest].
    apply spends_inj in Esp as [?|Esp]; [by left| |done..].
    apply outputs_inj in Esh as [?|Esh]; [by left| |done..].
    apply u32_prefix in E as [El E]; [|done..]. apply u32_prefix in E as [Ee E]; [|done..].
    apply i64_prefix in E as [Evb E]; [|done..]. apply u32_prefix in E as [-> E]; [|done..].
    right. split; [|done]. apply unsigned_eq; congruence.
  - destruct S1 as (V1&P1&U1), S2 as (V2&P2&U2). cbn [app] in E.
    apply u32_prefix in E as [El E]; [|done..]. apply u32_prefix in E as [Ee E]; [|done..].
    apply u32_prefix in E as [-> E]; [|done..].
    right. split; [|done]. apply unsigned_eq; congruence.
Qed.

(** A regular overwintered transaction signed as input [input_index] of
    value [amount]. *)
Definition signable (tx : Transaction) (script_code : bytes) (amount sighash_type branch : Z) : Prop :=
  f_overwintered tx = true /\ Transaction_wf true tx /\ fits_compact script_code
  /\ is_i64 amount /\ is_u32 sighash_type /\ is_u32 branch /\ covers_all sighash_type = true.

Lemma overwintered_regular tx :
  f_overwintered tx = true -> Transaction_wf true tx -> regular_wf tx.
Proof.
  intros F [[_ Hg] Hw]. rewrite F in Hg. destruct (is_fluxnode_version (version tx)) eqn:E; [|done].
  by rewrite (version_not_5_6_overwintered _ (version_group_id tx) E) in Hg.
Qed.

Lemma signature_hash_message tx idx sc am st br h :
  f_overwintered tx = true -> regular_wf tx -> covers_all st = true ->
  signature_hash tx idx sc am st br = Ok h ->
  h = blake2b_256 (ZCASH_SIGHASH_PERSONALIZATION_PREFIX ++ le_bytes 4 br)
        (full_message (version_group_id tx =? SAPLING_VERSION_GROUP_ID) tx idx sc am st)
  /\ match idx with Some i => exists t, vin tx !! i = Some t | None => True end.
Proof.
  intros F R C. unfold signature_hash, signature_hash_version. rewrite F.
  destruct (version_group_id tx =? SAPLING_VERSION_GROUP_ID).
  { by apply signature_hash_overwinter_message. }
  destruct (_ =? _); [by apply signature_hash_overwinter_message|done].
Qed.

(** A signature over all of an Overwinter or Sapling transaction is good
    for that transaction only.  If two such digests agree, then, unless
    BLAKE2b is broken, the two transactions are the same except for their
    signatures, and the branch, the hash type, and the spent input with its
    script and its amount are the same too. *)
Theorem signature_hash_commits (tx1 tx2 : Transaction) (i1 i2 : option nat) (sc1 sc2 : bytes)
    (am1 am2 st1 st2 br1 br2 : Z) (h : Hash256)
    (S1 : signable tx1 sc1 am1 st1 br1) (S2 : signable tx2 sc2 am2 st2 br2)
    (H1 : signature_hash tx1 i1 sc1 am1 st1 br1 = Ok h)
    (H2 : signature_hash tx2 i2 sc2 am2 st2 br2 = Ok h) :
  blake2b_broken \/
  (unsigned tx1 = unsigned tx2 /\ st1 = st2 /\ br1 = br2
   /\ signed_input tx1 i1 sc1 am1 = signed_input tx2 i2 sc2 am2).
Proof.
  destruct S1 as (F1&W1&C1&A1&T1&B1&V1), S2 as (F2&W2&C2&A2&T2&B2&V2).
  pose proof (overwintered_regular _ F1 W1) as R1. pose proof (overwintered_regular _ F2 W2) as R2.
  apply signature_hash_message in H1 as [H1 I1], H2 as [H2 I2]; [|done..].
  rewrite H1 in H2. apply digest_eq in H2 as [?|[Ep Em]]; [by left|].
  apply app_inv_head, le_bytes_inj in Ep; [|done..].
  apply full_message_inj in Em as [?|(Eu&Es&Et)]; [by left|right|done..].
  split_and!; [done..|]. destruct R1 as ([_ X1]&_), R2 as ([_ X2]&_). by apply input_tail_inj.
Qed.
End commits.

(** One payment with two different input scripts has one digest. *)
Definition sample_sapling_payment (script : bytes) : Transaction :=
  mkTransaction true 4 SAPLING_VERSION_GROUP_ID [mkTxIn (mkOutPoint (replicate 32 1) 0) script 5]
    [mkTxOut 7 sample_p2pkh_script] 0 100 0 [] [] [] (zeros 32) (zeros 64) (zeros 64) None.
Definition sample_digest : Hash256 :=
  Eval vm_compute in
    match signature_hash (sample_sapling_payment []) (Some O) [0x51] 10 SIGHASH_ALL 0x76b809bb with
    | Ok h => h | _ => [] end.

Lemma signature_hash_commits_witness :
  blake2b_broken \/
  (unsigned (sample_sapling_payment []) = unsigned (sample_sapling_payment [0x51])
   /\ SIGHASH_ALL = SIGHASH_ALL /\ 0x76b809bb = 0x76b809bb
   /\ signed_input (sample_sapling_payment []) (Some O) [0x51] 10
      = signed_input (sample_sapling_payment [0x51]) (Some O) [0x51] 10).
Proof.
  apply (signature_hash_commits _ _ _ _ _ _ _ _ _ _ _ _ sample_digest).
  - unfold signable. split_and!; by_decide.
  - unfold signable. split_and!; by_decide.
  - vm_compute; reflexivity.
  - vm_compute; reflexivity.
Defined.
