(* ===== verification/Script.v ===== *)
(** * Script interpreter ([script/src/standard.rs], [script/src/interpreter.rs])

    The stack machine that decides whether an input may spend an output.  A
    [Vec] used as a stack is a list whose head is its top.  Elliptic-curve
    operations are third party: the class [Secp]. *)

From S2P Require Import Prelude Encoding Hashing Transaction Sighash.
From Stdlib Require Import ZArith Lia.
From stdpp Require Import base list option numbers strings sets.
#[local] Open Scope Z_scope.

(** ** Opcodes *)
Definition OP_0 : Z := 0x00.
Definition OP_PUSHDATA1 : Z := 0x4c.
Definition OP_PUSHDATA2 : Z := 0x4d.
Definition OP_PUSHDATA4 : Z := 0x4e.
Definition OP_1NEGATE : Z := 0x4f.
Definition OP_1 : Z := 0x51.
Definition OP_16 : Z := 0x60.
Definition OP_IF : Z := 0x63.
Definition OP_NOTIF : Z := 0x64.
Definition OP_ELSE : Z := 0x67.
Definition OP_ENDIF : Z := 0x68.
Definition OP_VERIFY : Z := 0x69.
Definition OP_RETURN : Z := 0x6a.
Definition OP_2DROP : Z := 0x6d.
Definition OP_DROP : Z := 0x75.
Definition OP_DUP : Z := 0x76.
Definition OP_SIZE : Z := 0x82.
Definition OP_EQUAL : Z := 0x87.
Definition OP_EQUALVERIFY : Z := 0x88.
Definition OP_RIPEMD160 : Z := 0xa6.
Definition OP_SHA1 : Z := 0xa7.
Definition OP_SHA256 : Z := 0xa8.
Definition OP_HASH160 : Z := 0xa9.
Definition OP_HASH256 : Z := 0xaa.
Definition OP_CODESEPARATOR : Z := 0xab.
Definition OP_CHECKSIG : Z := 0xac.
Definition OP_CHECKSIGVERIFY : Z := 0xad.
Definition OP_CHECKMULTISIG : Z := 0xae.
Definition OP_CHECKMULTISIGVERIFY : Z := 0xaf.
Definition OP_NOP1 : Z := 0xb0.
Definition OP_CHECKLOCKTIMEVERIFY : Z := 0xb1.
Definition OP_NOP3 : Z := 0xb2.
Definition OP_NOP4 : Z := 0xb3.
Definition OP_NOP10 : Z := 0xb9.

(** ** Standard script forms *)
Inductive ScriptType := P2Pk | P2Pkh | P2Sh | P2Wpkh | P2Wsh | Unknown.

(** [script[i] == b]; the length is checked before every use. *)
Definition byte_is (script : bytes) (i : nat) (b : Z) : bool := bool_decide (script !! i = Some b).

Definition is_p2pkh (script : bytes) : bool :=
  Nat.eqb (length script) 25 && byte_is script 0 OP_DUP && byte_is script 1 OP_HASH160
  && byte_is script 2 0x14 && byte_is script 23 OP_EQUALVERIFY && byte_is script 24 OP_CHECKSIG.

Definition is_p2sh (script : bytes) : bool :=
  Nat.eqb (length script) 23 && byte_is script 0 OP_HASH160 && byte_is script 1 0x14
  && byte_is script 22 OP_EQUAL.

Definition is_p2wpkh (script : bytes) : bool :=
  Nat.eqb (length script) 22 && byte_is script 0 OP_0 && byte_is script 1 0x14.

Definition is_p2wsh (script : bytes) : bool :=
  Nat.eqb (length script) 34 && byte_is script 0 OP_0 && byte_is script 1 0x20.

Definition is_p2pk (script : bytes) : bool :=
  match script with
  | key_len :: _ =>
      if (key_len =? 33) || (key_len =? 65) then
        Nat.eqb (length script) (Z.to_nat key_len + 2)
        && byte_is script (length script - 1) OP_CHECKSIG
      else false
  | [] => false
  end.

Definition classify_script_pubkey (script : bytes) : ScriptType :=
  if is_p2pkh script then P2Pkh
  else if is_p2sh script then P2Sh
  else if is_p2wpkh script then P2Wpkh
  else if is_p2wsh script then P2Wsh
  else if is_p2pk script then P2Pk
  else Unknown.

(** ** Flags and errors *)
Definition SCRIPT_VERIFY_NONE : Z := 0.
Definition SCRIPT_VERIFY_P2SH : Z := Z.shiftl 1 0.
Definition SCRIPT_VERIFY_STRICTENC : Z := Z.shiftl 1 1.
Definition SCRIPT_VERIFY_LOW_S : Z := Z.shiftl 1 3.
Definition SCRIPT_VERIFY_NULLDUMMY : Z := Z.shiftl 1 4.
Definition SCRIPT_VERIFY_SIGPUSHONLY : Z := Z.shiftl 1 5.
Definition SCRIPT_VERIFY_MINIMALDATA : Z := Z.shiftl 1 6.
Definition SCRIPT_VERIFY_DISCOURAGE_UPGRADABLE_NOPS : Z := Z.shiftl 1 7.
Definition SCRIPT_VERIFY_CLEANSTACK : Z := Z.shiftl 1 8.
Definition SCRIPT_VERIFY_CHECKLOCKTIMEVERIFY : Z := Z.shiftl 1 9.

Definition MANDATORY_SCRIPT_VERIFY_FLAGS : Z := SCRIPT_VERIFY_P2SH.
Definition STANDARD_SCRIPT_VERIFY_FLAGS : Z :=
  Z.lor MANDATORY_SCRIPT_VERIFY_FLAGS (Z.lor SCRIPT_VERIFY_STRICTENC
  (Z.lor SCRIPT_VERIFY_MINIMALDATA (Z.lor SCRIPT_VERIFY_NULLDUMMY
  (Z.lor SCRIPT_VERIFY_DISCOURAGE_UPGRADABLE_NOPS (Z.lor SCRIPT_VERIFY_CLEANSTACK
  (Z.lor SCRIPT_VERIFY_CHECKLOCKTIMEVERIFY SCRIPT_VERIFY_LOW_S)))))).
Definition BLOCK_SCRIPT_VERIFY_FLAGS : Z :=
  Z.lor SCRIPT_VERIFY_P2SH SCRIPT_VERIFY_CHECKLOCKTIMEVERIFY.

(** [(flags & bit) != 0]. *)
Definition has_flag (flags bit : Z) : bool := negb (Z.land flags bit =? 0).

Inductive ScriptError :=
| StackUnderflow | EvalFalse | InvalidOpcode | SigEncoding | PubkeyEncoding | SigHashType
| SigCheck | SigPushOnly | NullDummy | LockTime | MinimalData | OtherScriptError (message : string).

#[global] Instance ScriptError_eq_dec : EqDecision ScriptError.
Proof. solve_decision. Defined.

(** ** Numbers and booleans on the stack *)
Definition bool_to_vec (value : bool) : bytes := if value then [1] else [].

(** The loop over [data.iter().enumerate()]; the last byte is the one nothing
    follows. *)
Fixpoint cast_to_bool (data : bytes) : bool :=
  match data with
  | [] => false
  | byte :: data => if negb (byte =? 0) then negb (is_nil data && (byte =? 0x80)) else cast_to_bool data
  end.

Definition decode_script_num (data : bytes) : result ScriptError Z :=
  match last data with
  | None => Ok 0
  | Some last =>
      if Nat.ltb 4 (length data) then Err InvalidOpcode
      else
        let result := from_le data in
        if negb (Z.land last 0x80 =? 0) then
          Ok (- Z.land result (Z.lnot (Z.shiftl 0x80 (8 * (Z.of_nat (length data) - 1)))))
        else Ok result
  end.

(** [while abs > 0] over the eight bytes of a [u64]. *)
Fixpoint abs_bytes (fuel : nat) (abs : Z) : bytes :=
  match fuel with
  | O => []
  | S fuel => if abs >? 0 then Z.land abs 0xff :: abs_bytes fuel (Z.shiftr abs 8) else []
  end.

Definition script_num_to_vec (value : Z) : bytes :=
  if value =? 0 then []
  else
    let result := abs_bytes 8 (Z.abs value) in
    match last result with
    | None => result
    | Some last =>
        if negb (Z.land last 0x80 =? 0) then result ++ [if value <? 0 then 0x80 else 0]
        else if value <? 0 then take (length result - 1) result ++ [Z.lor last 0x80]
        else result
    end.

(** ** Reading the script *)
Definition read_bytes (script : bytes) (cursor len : nat) : result ScriptError (bytes * nat) :=
  if Nat.ltb (length script) (cursor + len) then Err StackUnderflow
  else Ok (slice script cursor (cursor + len), (cursor + len)%nat).

(** [read_u8], [read_u16] and [read_u32]: the [n]-byte little-endian integer at
    the cursor. *)
Definition read_uint (n : nat) (script : bytes) (cursor : nat) : result ScriptError (Z * nat) :=
  r ← read_bytes script cursor n; Ok (from_le r.1, r.2).

Definition check_minimal_push (data : bytes) (opcode : Z) : bool :=
  let len := Z.of_nat (length data) in
  match data with
  | [] => opcode =? OP_0
  | [b] => if (1 <=? b) && (b <=? 16) then opcode =? OP_1 + (b - 1)
           else if b =? 0x81 then opcode =? OP_1NEGATE else opcode =? len
  | _ =>
      if len <=? 75 then opcode =? len
      else if len <=? 255 then opcode =? OP_PUSHDATA1
      else if len <=? 65535 then opcode =? OP_PUSHDATA2
      else true
  end.

Definition is_valid_pubkey (data : bytes) : bool :=
  if Nat.eqb (length data) 33 then byte_is data 0 0x02 || byte_is data 0 0x03
  else if Nat.eqb (length data) 65 then byte_is data 0 0x04
  else false.

(** [is_push_only] runs until its cursor passes the end.  A truncated push
    takes the length [usize::MAX], and [cursor + len] wraps in a release
    build, so the loop may run for ever: [None] is out of fuel. *)
Definition push_len (script : bytes) (opcode : Z) (cursor : nat) : option (Z * nat) :=
  let or_max n :=
    match read_uint n script cursor with Ok (v, c) => Some (v, c) | _ => Some (u64_max, cursor) end in
  if (1 <=? opcode) && (opcode <=? 0x4b) then Some (opcode, cursor)
  else if opcode =? OP_PUSHDATA1 then or_max 1%nat
  else if opcode =? OP_PUSHDATA2 then or_max 2%nat
  else if opcode =? OP_PUSHDATA4 then or_max 4%nat
  else if (opcode =? OP_0) || (opcode =? OP_1NEGATE) || ((OP_1 <=? opcode) && (opcode <=? OP_16))
  then Some (0, cursor)
  else None.

Fixpoint is_push_only_from (fuel : nat) (script : bytes) (cursor : nat) : option bool :=
  match fuel with
  | O => None
  | S fuel =>
      match script !! cursor with
      | None => Some true
      | Some opcode =>
          match push_len script opcode (S cursor) with
          | None => Some false
          | Some (len, cursor) =>
              if len >? 0 then
                let next := wrap_u64 (Z.of_nat cursor + len) in
                if next >? Z.of_nat (length script) then Some false
                else is_push_only_from fuel script (Z.to_nat next)
              else is_push_only_from fuel script cursor
          end
      end
  end.

Definition is_push_only (script : bytes) : option bool :=
  is_push_only_from (S (length script)) script 0.

(** ** Signature checking *)

(** What the code calls of the secp256k1 crate: parsing a DER signature and a
    public key, low-s normalization, and ECDSA verification of a digest. *)
Class Secp := {
  Signature : Type;
  PublicKey : Type;
  signature_eq_dec :: EqDecision Signature;
  from_der : bytes -> option Signature;
  normalize_s : Signature -> Signature;
  PublicKey_from_slice : bytes -> option PublicKey;
  verify_ecdsa : Hash256 -> Signature -> PublicKey -> bool }.

Record SignatureChecker := mkChecker {
  ck_tx : Transaction;
  ck_input_index : nat;
  ck_amount : Z;
  ck_flags : Z;
  ck_consensus_branch_id : Z }.

Section interpreter.
  Context {H : Hashes} {S256 : Secp}.

Definition check_sig (self : SignatureChecker) (sig_bytes pubkey_bytes script_code : bytes)
    : result ScriptError bool :=
  match last sig_bytes with
  | None => Ok false
  | Some sighash_type =>
      let base_type := Z.land sighash_type 0x1f in
      if has_flag (ck_flags self) SCRIPT_VERIFY_STRICTENC
         && negb (base_type =? 0x01) && negb (base_type =? SIGHASH_NONE)
         && negb (base_type =? SIGHASH_SINGLE)
      then Err SigHashType
      else
        let der := take (length sig_bytes - 1) sig_bytes in
        sig ← ok_or (from_der der) SigEncoding;
        let normalized := normalize_s sig in
        if has_flag (ck_flags self) SCRIPT_VERIFY_LOW_S && bool_decide (normalized <> sig)
        then Err SigEncoding
        else if has_flag (ck_flags self) SCRIPT_VERIFY_STRICTENC && negb (is_valid_pubkey pubkey_bytes)
        then Err PubkeyEncoding
        else
          pubkey ← ok_or (PublicKey_from_slice pubkey_bytes) PubkeyEncoding;
          match signature_hash (ck_tx self) (Some (ck_input_index self)) script_code
                  (ck_amount self) sighash_type (ck_consensus_branch_id self) with
          | Ok sighash =>
              if Nat.eqb (length sighash) 32 then Ok (verify_ecdsa sighash normalized pubkey)
              else Err SigCheck
          | Err _ => Ok false
          | Panic => Panic
          end
  end.

Definition LOCKTIME_THRESHOLD : Z := 500000000.

Definition check_lock_time (self : SignatureChecker) (lock_time' : Z) : result ScriptError () :=
  let tx_lock_time := lock_time (ck_tx self) in
  if ((tx_lock_time <? LOCKTIME_THRESHOLD) && (lock_time' >=? LOCKTIME_THRESHOLD))
     || ((tx_lock_time >=? LOCKTIME_THRESHOLD) && (lock_time' <? LOCKTIME_THRESHOLD))
  then Err LockTime
  else if lock_time' >? tx_lock_time then Err LockTime
  else
    input ← index (vin (ck_tx self)) (ck_input_index self);
    if sequence input =? u32_max then Err LockTime else Ok ().

(** ** One step of [eval_script] *)
Definition pop (stack : list bytes) : result ScriptError (bytes * list bytes) :=
  match stack with x :: stack => Ok (x, stack) | [] => Err StackUnderflow end.

(** [n] pops in a row, collected and reversed: the element popped last comes
    first. *)
Fixpoint pop_n (n : nat) (stack : list bytes) : result ScriptError (list bytes * list bytes) :=
  match n with
  | O => Ok ([], stack)
  | S n => r ← pop stack; r' ← pop_n n r.2; Ok (r'.1 ++ [r.1], r'.2)
  end.

(** [while sig_index < sigs.len() && key_index < pubkeys.len()], over the
    signatures and the keys that are left; the result is whether no signature
    is left. *)
Fixpoint multisig_loop (check : bytes -> bytes -> result ScriptError bool)
    (pubkeys sigs : list bytes) : result ScriptError bool :=
  match sigs, pubkeys with
  | [], _ => Ok true
  | _ :: _, [] => Ok false
  | sig :: sigs', key :: keys' =>
      ok ← check sig key;
      let sigs := if ok : bool then sigs' else sigs in
      if Nat.ltb (length keys') (length sigs) then Ok (is_nil sigs)
      else multisig_loop check keys' sigs
  end.

Definition check_multisig (checker : SignatureChecker) (script_code : bytes) (stack : list bytes)
    : result ScriptError (bool * list bytes) :=
  r ← pop stack; let '(n_bytes, stack) := r in
  n ← decode_script_num n_bytes;
  if negb ((0 <=? n) && (n <=? 20)) then Err InvalidOpcode
  else
    r ← pop_n (Z.to_nat n) stack; let '(pubkeys, stack) := r in
    r ← pop stack; let '(m_bytes, stack) := r in
    m ← decode_script_num m_bytes;
    if (m <? 0) || (m >? n) then Err InvalidOpcode
    else
      r ← pop_n (Z.to_nat m) stack; let '(sigs, stack) := r in
      r ← pop stack; let '(dummy, stack) := r in
      if has_flag (ck_flags checker) SCRIPT_VERIFY_NULLDUMMY && negb (is_nil dummy)
      then Err NullDummy
      else
        success ← multisig_loop (fun sig key => check_sig checker sig key script_code) pubkeys sigs;
        Ok (success, stack).

(** The local variables of [eval_script]; the operand stack lives across
    calls. *)
Record EvalState := mkEval {
  ev_cursor : nat;
  ev_script_code_start : nat;
  ev_exec_stack : list bool;
  ev_stack : list bytes }.

Definition with_stack (s : EvalState) (stack : list bytes) : EvalState :=
  mkEval (ev_cursor s) (ev_script_code_start s) (ev_exec_stack s) stack.
Definition with_exec (s : EvalState) (exec_stack : list bool) : EvalState :=
  mkEval (ev_cursor s) (ev_script_code_start s) exec_stack (ev_stack s).
Definition with_cursor (s : EvalState) (cursor : nat) : EvalState :=
  mkEval cursor (ev_script_code_start s) (ev_exec_stack s) (ev_stack s).

Definition executing (s : EvalState) : bool := forallb (fun v => v) (ev_exec_stack s).

(** The push of [len] bytes read at the cursor. *)
Definition eval_push (checker : SignatureChecker) (script : bytes) (opcode : Z) (len : nat)
    (s : EvalState) : result ScriptError EvalState :=
  r ← read_bytes script (ev_cursor s) len;
  let '(data, cursor) := r in
  let s := with_cursor s cursor in
  if executing s then
    if has_flag (ck_flags checker) SCRIPT_VERIFY_MINIMALDATA && negb (check_minimal_push data opcode)
    then Err MinimalData
    else Ok (with_stack s (data :: ev_stack s))
  else Ok s.

Definition eval_pushdata (checker : SignatureChecker) (script : bytes) (opcode : Z) (n : nat)
    (s : EvalState) : result ScriptError EvalState :=
  r ← read_uint n script (ev_cursor s);
  eval_push checker script opcode (Z.to_nat r.1) (with_cursor s r.2).

(** The arms guarded by [if !exec { continue; }]: they only touch the operand
    stack. *)
Definition eval_stack_op (checker : SignatureChecker) (script : bytes) (opcode : Z)
    (script_code_start : nat) (stack : list bytes) : result ScriptError (list bytes) :=
  let flags := ck_flags checker in
  let hash_top (f : bytes -> bytes) := r ← pop stack; Ok (f r.1 :: r.2) in
  if opcode =? OP_DUP then
    top ← ok_or (head stack) StackUnderflow; Ok (top :: stack)
  else if opcode =? OP_DROP then r ← pop stack; Ok r.2
  else if opcode =? OP_2DROP then r ← pop stack; r ← pop r.2; Ok r.2
  else if opcode =? OP_SIZE then
    top ← ok_or (head stack) StackUnderflow;
    Ok (script_num_to_vec (Z.of_nat (length top)) :: stack)
  else if opcode =? OP_RIPEMD160 then hash_top Ripemd160_digest
  else if opcode =? OP_SHA1 then hash_top Sha1_digest
  else if opcode =? OP_SHA256 then hash_top sha256
  else if opcode =? OP_HASH160 then hash_top hash160
  else if opcode =? OP_HASH256 then hash_top sha256d
  else if opcode =? OP_EQUAL then
    r ← pop stack; let '(a, stack) := r in
    r ← pop stack; let '(b, stack) := r in
    Ok (bool_to_vec (bool_decide (a = b)) :: stack)
  else if opcode =? OP_EQUALVERIFY then
    r ← pop stack; let '(a, stack) := r in
    r ← pop stack; let '(b, stack) := r in
    if bool_decide (a <> b) then Err EvalFalse else Ok stack
  else if opcode =? OP_VERIFY then
    r ← pop stack; let '(value, stack) := r in
    if negb (cast_to_bool value) then Err EvalFalse else Ok stack
  else if opcode =? OP_CHECKLOCKTIMEVERIFY then
    if has_flag flags SCRIPT_VERIFY_CHECKLOCKTIMEVERIFY then
      locktime_bytes ← ok_or (head stack) StackUnderflow;
      locktime ← decode_script_num locktime_bytes;
      _ ← check_lock_time checker locktime;
      Ok stack
    else if has_flag flags SCRIPT_VERIFY_DISCOURAGE_UPGRADABLE_NOPS then Err InvalidOpcode
    else Ok stack
  else if (opcode =? OP_NOP1) || (opcode =? OP_NOP3)
          || ((OP_NOP4 <=? opcode) && (opcode <=? OP_NOP10)) then
    if has_flag flags SCRIPT_VERIFY_DISCOURAGE_UPGRADABLE_NOPS then Err InvalidOpcode else Ok stack
  else if (opcode =? OP_CHECKSIG) || (opcode =? OP_CHECKSIGVERIFY) then
    r ← pop stack; let '(pubkey, stack) := r in
    r ← pop stack; let '(sig, stack) := r in
    ok ← check_sig checker sig pubkey (drop script_code_start script);
    if opcode =? OP_CHECKSIGVERIFY then if negb ok then Err SigCheck else Ok stack
    else Ok (bool_to_vec ok :: stack)
  else if (opcode =? OP_CHECKMULTISIG) || (opcode =? OP_CHECKMULTISIGVERIFY) then
    r ← check_multisig checker (drop script_code_start script) stack;
    let '(success, stack) := r in
    if opcode =? OP_CHECKMULTISIGVERIFY then if negb success then Err SigCheck else Ok stack
    else Ok (bool_to_vec success :: stack)
  else if opcode =? OP_RETURN then Err EvalFalse
  else Err InvalidOpcode.

(** The body of [while cursor < script.len()], after [opcode] was read and
    the cursor moved past it. *)
Definition eval_op (checker : SignatureChecker) (script : bytes) (opcode : Z) (s : EvalState)
    : result ScriptError EvalState :=
  let exec := executing s in
  if opcode =? OP_0 then Ok (if exec then with_stack s ([] :: ev_stack s) else s)
  else if opcode =? OP_1NEGATE then
    Ok (if exec then with_stack s (script_num_to_vec (-1) :: ev_stack s) else s)
  else if (1 <=? opcode) && (opcode <=? 0x4b) then
    eval_push checker script opcode (Z.to_nat opcode) s
  else if opcode =? OP_PUSHDATA1 then eval_pushdata checker script opcode 1 s
  else if opcode =? OP_PUSHDATA2 then eval_pushdata checker script opcode 2 s
  else if opcode =? OP_PUSHDATA4 then eval_pushdata checker script opcode 4 s
  else if (OP_1 <=? opcode) && (opcode <=? OP_16) then
    Ok (if exec then with_stack s (script_num_to_vec (opcode - OP_1 + 1) :: ev_stack s) else s)
  else if (opcode =? OP_IF) || (opcode =? OP_NOTIF) then
    if exec then
      r ← pop (ev_stack s);
      let value := cast_to_bool r.1 in
      let branch := if opcode =? OP_NOTIF then negb value else value in
      Ok (with_exec (with_stack s r.2) (branch :: ev_exec_stack s))
    else Ok (with_exec s (false :: ev_exec_stack s))
  else if opcode =? OP_ELSE then
    match ev_exec_stack s with
    | current :: exec_stack => Ok (with_exec s (negb current :: exec_stack))
    | [] => Err InvalidOpcode
    end
  else if opcode =? OP_ENDIF then
    match ev_exec_stack s with
    | _ :: exec_stack => Ok (with_exec s exec_stack)
    | [] => Err InvalidOpcode
    end
  else if opcode =? OP_CODESEPARATOR then
    Ok (if exec then mkEval (ev_cursor s) (ev_cursor s) (ev_exec_stack s) (ev_stack s) else s)
  else if exec then
    stack ← eval_stack_op checker script opcode (ev_script_code_start s) (ev_stack s);
    Ok (with_stack s stack)
  else Ok s.

(** Every iteration moves the cursor, so the script's length is fuel enough;
    running out of it is [Panic]. *)
Fixpoint eval_loop (fuel : nat) (checker : SignatureChecker) (script : bytes) (s : EvalState)
    : result ScriptError EvalState :=
  match script !! ev_cursor s with
  | None => Ok s
  | Some opcode =>
      match fuel with
      | O => Panic
      | S fuel =>
          s ← eval_op checker script opcode (with_cursor s (S (ev_cursor s)));
          eval_loop fuel checker script s
      end
  end.

Definition eval_script (script : bytes) (stack : list bytes) (checker : SignatureChecker)
    : result ScriptError (list bytes) :=
  s ← eval_loop (length script) checker script (mkEval 0 0 [] stack);
  if negb (is_nil (ev_exec_stack s)) then Err (OtherScriptError "unbalanced conditional")
  else Ok (ev_stack s).

(** [stack.is_empty() || !cast_to_bool(stack.last().unwrap())]. *)
Definition top_is_false (stack : list bytes) : bool :=
  match stack with [] => true | top :: _ => negb (cast_to_bool top) end.

(** [is_push_only], called where it may not return. *)
Definition push_only_or_hang (script : bytes) : result ScriptError bool :=
  match is_push_only script with Some b => Ok b | None => Panic end.

Definition verify_script (script_sig script_pubkey : bytes) (tx : Transaction) (input_index : nat)
    (amount flags consensus_branch_id : Z) : result ScriptError () :=
  push_only ← (if has_flag flags SCRIPT_VERIFY_SIGPUSHONLY then push_only_or_hang script_sig
               else Ok true);
  if negb push_only then Err SigPushOnly
  else
  let checker := mkChecker tx input_index amount flags consensus_branch_id in
  stack_copy ← eval_script script_sig [] checker;
  stack ← eval_script script_pubkey stack_copy checker;
  if top_is_false stack then Err EvalFalse
  else
  stack ← (if has_flag flags SCRIPT_VERIFY_P2SH && is_p2sh script_pubkey then
             push_only ← push_only_or_hang script_sig;
             if negb push_only then Err SigPushOnly
             else
               r ← pop stack_copy; let '(redeem_script, stack) := r in
               stack ← eval_script redeem_script stack checker;
               if top_is_false stack then Err EvalFalse else Ok stack
           else Ok stack);
  if has_flag flags SCRIPT_VERIFY_CLEANSTACK
     && (negb (Nat.eqb (length stack) 1) || top_is_false stack)
  then Err EvalFalse
  else Ok ().
End interpreter.

(** ** Termination *)
Section lemmas.
  Context {H : Hashes} {S256 : Secp}.

Lemma encode_each_not_panic {A} (f : A -> result TransactionEncodeError bytes) l :
  (forall a, f a <> Panic) -> encode_each f l <> Panic.
Proof.
  intros Hf. induction l as [|a l IH]; [done|]. simpl.
  apply bind_not_panic; [apply Hf|]. intros. by apply bind_not_panic.
Qed.
Lemma JoinSplit_encode_not_panic g j : JoinSplit_encode_with g j <> Panic.
Proof. unfold JoinSplit_encode_with. by destruct (js_proof j), g. Qed.
Lemma write_each_not_panic {A} (f : A -> result SighashError bytes) l :
  Forall (fun a => f a <> Panic) l -> write_each f l <> Panic.
Proof.
  induction 1 as [|a l Ha _ IH]; [done|]. simpl.
  apply bind_not_panic; [done|]. intros. by apply bind_not_panic.
Qed.

#[local] Hint Resolve ok_or_not_panic map_err_not_panic encode_each_not_panic
  JoinSplit_encode_not_panic : core.

Lemma sprout_inputs_not_panic tx i sc b st :
  (i < length (vin tx))%nat ->
  write_each (sprout_input tx (Some i) sc b)
    (if has_anyone_can_pay st then [i] else seq 0 (length (vin tx))) <> Panic.
Proof.
  intros Hi. apply write_each_not_panic, Forall_forall. intros a Ha. unfold sprout_input.
  apply bind_not_panic; [|done]. apply index_not_panic.
  destruct (has_anyone_can_pay st); set_unfold; [|lia]. destruct Ha as [->|[]]; lia.
Qed.

Lemma sprout_outputs_not_panic tx i (single : bool) n :
  (if single then i < length (vout tx) else n <= length (vout tx))%nat ->
  write_each (sprout_output tx (Some i) single) (seq 0 n) <> Panic.
Proof.
  intros Hn. apply write_each_not_panic, Forall_forall. intros a Ha. unfold sprout_output. set_unfold.
  destruct single; cbn [andb].
  - case_bool_decide as Hq; cbn [negb]; [|done]. injection Hq as ->.
    apply bind_not_panic; [|done]. by apply index_not_panic.
  - apply bind_not_panic; [|done]. apply index_not_panic. lia.
Qed.

Lemma signature_hash_sprout_not_panic tx i sc st : signature_hash_sprout tx (Some i) sc st <> Panic.
Proof.
  unfold signature_hash_sprout.
  destruct (Nat.leb_spec (length (vin tx)) i) as [|Hi]; [done|].
  apply bind_not_panic; [by destruct (_ && _)|]. intros u Hc.
  destruct (f_overwintered tx); [done|]. rewrite andb_false_r.
  apply bind_not_panic; [by apply sprout_inputs_not_panic|]. intros inputs _.
  apply bind_not_panic; [by destruct (_ =? _), (_ =? _)|]. intros n Hn.
  apply bind_not_panic.
  { apply sprout_outputs_not_panic. destruct (base_type st =? SIGHASH_SINGLE) eqn:Hs.
    - destruct (Nat.leb_spec (length (vout tx)) i); [done|lia].
    - destruct (base_type st =? SIGHASH_NONE); injection Hn as <-; lia. }
  intros outputs _. apply bind_not_panic; [|done]. destruct (_ >=? _); [|done].
  apply bind_not_panic; auto.
Qed.

Lemma signature_hash_overwinter_not_panic tx i sc am st br sap :
  signature_hash_overwinter tx (Some i) sc am st br sap <> Panic.
Proof.
  unfold signature_hash_overwinter.
  destruct (Nat.leb_spec (length (vin tx)) i) as [|Hi]; [done|].
  apply bind_not_panic; [done|]. intros _ _. apply bind_not_panic.
  { destruct (negb _); [|done]. unfold hash_join_splits. apply bind_not_panic; auto. }
  intros js _. apply bind_not_panic; [|done].
  apply bind_not_panic; [by apply index_not_panic|done].
Qed.

Lemma signature_hash_not_panic tx i sc am st br : signature_hash tx (Some i) sc am st br <> Panic.
Proof.
  unfold signature_hash, signature_hash_version.
  repeat case_match; simplify_eq/=; auto using signature_hash_sprout_not_panic,
    signature_hash_overwinter_not_panic.
Qed.

Lemma check_sig_not_panic ck sig key sc : check_sig ck sig key sc <> Panic.
Proof.
  unfold check_sig. destruct (last sig) as [st|]; [|done]. destruct (_ && _ && _ && _); [done|].
  apply bind_not_panic; [auto|]. intros s _. destruct (_ && _); [done|]. destruct (_ && _); [done|].
  apply bind_not_panic; [auto|]. intros k _.
  destruct (signature_hash _ _ _ _ _ _) eqn:Hs; [by destruct (Nat.eqb _ _)|done|].
  by apply signature_hash_not_panic in Hs.
Qed.

Lemma pop_not_panic stack : pop stack <> Panic.
Proof. by destruct stack. Qed.
Lemma pop_n_not_panic n stack : pop_n n stack <> Panic.
Proof.
  revert stack; induction n as [|n IH]; intros stack; [done|]. simpl.
  apply bind_not_panic; [apply pop_not_panic|]. intros. by apply bind_not_panic.
Qed.
Lemma decode_script_num_not_panic d : decode_script_num d <> Panic.
Proof. unfold decode_script_num. by repeat case_match. Qed.
Lemma multisig_loop_not_panic check keys sigs :
  (forall s k, check s k <> Panic) -> multisig_loop check keys sigs <> Panic.
Proof.
  intros Hc. revert sigs; induction keys as [|k keys IH]; intros [|s sigs]; try done. cbn [multisig_loop].
  apply bind_not_panic; [done|]. intros ok _. by destruct (Nat.ltb _ _).
Qed.

Lemma read_bytes_Ok script c n d c' :
  read_bytes script c n = Ok (d, c') <->
  (c + n <= length script)%nat /\ d = slice script c (c + n) /\ c' = (c + n)%nat.
Proof.
  unfold read_bytes. destruct (Nat.ltb_spec (length script) (c + n)).
  - split; [done|lia].
  - split; [intros [= <- <-]; done|intros (_&->&->); done].
Qed.
Lemma read_bytes_not_panic script c n : read_bytes script c n <> Panic.
Proof. unfold read_bytes. by destruct (Nat.ltb _ _). Qed.

#[local] Hint Resolve check_sig_not_panic pop_not_panic pop_n_not_panic decode_script_num_not_panic
  multisig_loop_not_panic read_bytes_not_panic : core.

(** Follow the structure of a result computation that cannot panic. *)
Ltac not_panic :=
  repeat first
    [ done
    | solve [auto]
    | apply bind_not_panic; [|intros ? ?]
    | match goal with
      | |- (if ?b then _ else _) <> _ => destruct b
      | |- (let '(_, _) := ?r in _) <> _ => destruct r
      | |- match ?x with _ => _ end <> _ => destruct x
      end ].

Lemma check_multisig_not_panic ck sc stack : check_multisig ck sc stack <> Panic.
Proof. unfold check_multisig. not_panic. Qed.
#[local] Hint Resolve check_multisig_not_panic : core.

Lemma check_lock_time_not_panic ck t :
  (ck_input_index ck < length (vin (ck_tx ck)))%nat -> check_lock_time ck t <> Panic.
Proof.
  intros Hi. unfold check_lock_time. destruct (_ || _); [done|]. destruct (_ >? _); [done|].
  apply bind_not_panic; [by apply index_not_panic|]. intros input _. by destruct (_ =? _).
Qed.

Lemma eval_stack_op_not_panic ck script op start stack :
  (ck_input_index ck < length (vin (ck_tx ck)))%nat -> eval_stack_op ck script op start stack <> Panic.
Proof.
  intros Hi. unfold eval_stack_op. pose proof (check_lock_time_not_panic ck) as Hl. not_panic.
Qed.

Lemma eval_push_not_panic ck script op len s : eval_push ck script op len s <> Panic.
Proof. unfold eval_push. not_panic. Qed.
Lemma eval_pushdata_not_panic ck script op n s : eval_pushdata ck script op n s <> Panic.
Proof.
  unfold eval_pushdata, read_uint. apply bind_not_panic; [not_panic|].
  intros. apply eval_push_not_panic.
Qed.
#[local] Hint Resolve eval_push_not_panic eval_pushdata_not_panic eval_stack_op_not_panic : core.

Lemma eval_op_not_panic ck script op s :
  (ck_input_index ck < length (vin (ck_tx ck)))%nat -> eval_op ck script op s <> Panic.
Proof. intros Hi. unfold eval_op. not_panic. Qed.

(** ** The cursor *)
Lemma eval_push_cursor ck script op len s s' :
  eval_push ck script op len s = Ok s' ->
  ev_cursor s' = (ev_cursor s + len)%nat /\ (ev_cursor s' <= length script)%nat.
Proof.
  unfold eval_push. intros E. apply bind_Ok in E as ([d c]&Hr&E). apply read_bytes_Ok in Hr as (Hl&_&->).
  destruct (executing _); [destruct (_ && _); [done|]|]; injection E as <-; done.
Qed.

Lemma eval_pushdata_cursor ck script op n s s' :
  eval_pushdata ck script op n s = Ok s' ->
  exists v, read_uint n script (ev_cursor s) = Ok (v, (ev_cursor s + n)%nat)
    /\ ev_cursor s' = (ev_cursor s + n + Z.to_nat v)%nat /\ (ev_cursor s' <= length script)%nat.
Proof.
  unfold eval_pushdata, read_uint. intros E. apply bind_Ok in E as ([v c]&Hr&E). rewrite Hr.
  apply bind_Ok in Hr as ([d c']&Hr&[= <- <-]). apply read_bytes_Ok in Hr as (Hl&_&->).
  apply eval_push_cursor in E. by eexists.
Qed.

Lemma eval_op_cursor ck script op s s' :
  eval_op ck script op s = Ok s' -> (ev_cursor s <= length script)%nat ->
  (ev_cursor s <= ev_cursor s' <= length script)%nat.
Proof.
  unfold eval_op. intros E Hs.
  repeat match type of E with (if ?b then _ else _) = _ => destruct b eqn:? end;
    repeat match type of E with Ok (if ?b then _ else _) = _ => destruct b eqn:? end;
    try (injection E as <-; simpl; lia).
  - apply eval_push_cursor in E. lia.
  - apply eval_pushdata_cursor in E as (v&_&?&?). lia.
  - apply eval_pushdata_cursor in E as (v&_&?&?). lia.
  - apply eval_pushdata_cursor in E as (v&_&?&?). lia.
  - apply bind_Ok in E as (r&_&[= <-]). simpl. lia.
  - destruct (ev_exec_stack s); simplify_eq/=. lia.
  - destruct (ev_exec_stack s); simplify_eq/=. lia.
  - apply bind_Ok in E as (r&_&[= <-]). simpl. lia.
Qed.

Lemma eval_loop_not_panic fuel ck script s :
  (ck_input_index ck < length (vin (ck_tx ck)))%nat ->
  (length script - ev_cursor s <= fuel)%nat -> eval_loop fuel ck script s <> Panic.
Proof.
  intros Hi. revert s; induction fuel as [|fuel IH]; intros s Hf; cbn [eval_loop];
    destruct (script !! ev_cursor s) as [op|] eqn:Hop; try done;
    apply lookup_lt_Some in Hop; [lia|].
  apply bind_not_panic; [by apply eval_op_not_panic|]. intros s' Hs'.
  apply eval_op_cursor in Hs'; simpl in *; [|lia]. apply IH. lia.
Qed.

Lemma eval_script_not_panic script stack ck :
  (ck_input_index ck < length (vin (ck_tx ck)))%nat -> eval_script script stack ck <> Panic.
Proof.
  intros Hi. unfold eval_script. apply bind_not_panic; [apply eval_loop_not_panic; simpl; auto; lia|].
  intros s _. by destruct (negb _).
Qed.

(** A push that evaluates is read the same way by [is_push_only]. *)
Lemma push_len_cursor ck script op s s' len c :
  eval_op ck script op s = Ok s' -> push_len script op (ev_cursor s) = Some (len, c) ->
  (ev_cursor s <= length script)%nat ->
  ev_cursor s' = (c + Z.to_nat len)%nat /\ (ev_cursor s' <= length script)%nat.
Proof.
  intros E Hp Hs. pose proof (eval_op_cursor _ _ _ _ _ E Hs) as [_ Hle]. split; [|done]. revert E Hp.
  unfold eval_op, push_len.
  destruct (Z.eqb_spec op OP_0) as [->|?]; [intros [= <-] [= <- <-]; destruct (executing s); simpl; lia|].
  destruct (Z.eqb_spec op OP_1NEGATE) as [->|?]; [intros [= <-] [= <- <-]; destruct (executing s); simpl; lia|].
  destruct (_ && _).
  { intros E [= <- <-]. apply eval_push_cursor in E. lia. }
  assert (Hd : forall k E0, eval_pushdata ck script op k s = Ok s' ->
    match read_uint k script (ev_cursor s) with
    | Ok (v, c) => Some (v, c) | _ => E0 end = Some (len, c) ->
    ev_cursor s' = (c + Z.to_nat len)%nat).
  { intros k E0 E. apply eval_pushdata_cursor in E as (v&->&?&?). intros [= <- <-]. lia. }
  destruct (op =? OP_PUSHDATA1); [by apply Hd|].
  destruct (op =? OP_PUSHDATA2); [by apply Hd|].
  destruct (op =? OP_PUSHDATA4); [by apply Hd|].
  cbn [orb]. destruct (_ && _); [|done].
  intros [= <-] [= <- <-]; destruct (executing s); simpl; lia.
Qed.

Lemma is_push_only_from_eval fuel fuel' ck script s s' :
  Z.of_nat (length script) <= i64_max -> (ev_cursor s <= length script)%nat ->
  (length script - ev_cursor s < fuel')%nat -> eval_loop fuel ck script s = Ok s' ->
  exists b, is_push_only_from fuel' script (ev_cursor s) = Some b.
Proof.
  intros Hlen. revert fuel' s; induction fuel as [|fuel IH]; intros fuel' s Hs Hf E;
    (destruct fuel' as [|fuel']; [lia|]); cbn [eval_loop is_push_only_from] in *;
    destruct (script !! ev_cursor s) as [op|] eqn:Hop; eauto; [done|].
  apply lookup_lt_Some in Hop. apply bind_Ok in E as (s1&E1&E).
  destruct (push_len script op (S (ev_cursor s))) as [[len c]|] eqn:Hp; [|eauto].
  pose proof (eval_op_cursor _ _ _ _ _ E1 ltac:(simpl; lia)) as Hc. simpl in Hc.
  destruct (push_len_cursor _ _ _ _ _ _ _ E1 Hp ltac:(simpl; lia)) as [Hs1 Hle].
  apply IH with fuel' s1 in E; [|lia..].
  rewrite Hs1 in E. rewrite Z.gtb_ltb. destruct (Z.ltb_spec 0 len).
  - unfold wrap_u64. rewrite Z.mod_small by (unfold_ints; lia). rewrite Z.gtb_ltb.
    replace (Z.of_nat (length script) <? Z.of_nat c + len) with false by (symmetry; apply Z.ltb_ge; lia).
    replace (Z.to_nat (Z.of_nat c + len)) with (c + Z.to_nat len)%nat by lia. done.
  - replace (c + Z.to_nat len)%nat with c in E by lia. done.
Qed.

Lemma push_only_after_eval ck script stack stack' :
  Z.of_nat (length script) <= i64_max -> eval_script script stack ck = Ok stack' ->
  exists b, is_push_only script = Some b.
Proof.
  intros Hl E. unfold eval_script in E. apply bind_Ok in E as (s'&E&_).
  eapply (is_push_only_from_eval _ _ ck _ (mkEval 0 0 [] stack)); [done|..|exact E]; simpl; lia.
Qed.

(** ** Standard scripts *)
Definition p2pkh_script (h : bytes) : bytes :=
  [OP_DUP; OP_HASH160; 0x14] ++ h ++ [OP_EQUALVERIFY; OP_CHECKSIG].
Definition p2sh_script (h : bytes) : bytes := [OP_HASH160; 0x14] ++ h ++ [OP_EQUAL].

Lemma eval_loop_step fuel ck script s op s1 :
  script !! ev_cursor s = Some op ->
  eval_op ck script op (with_cursor s (S (ev_cursor s))) = s1 ->
  eval_loop (S fuel) ck script s = (s ← s1; eval_loop fuel ck script s).
Proof. intros Hop <-. cbn [eval_loop]. by rewrite Hop. Qed.

Lemma eval_loop_end fuel ck script s :
  (length script <= ev_cursor s)%nat -> eval_loop fuel ck script s = Ok s.
Proof. intros Hs. destruct fuel; cbn [eval_loop]; by rewrite lookup_ge_None_2. Qed.

(** The push of the 20-byte hash of a standard script. *)
Lemma eval_hash_push ck pre h post stack start :
  length h = 20%nat ->
  eval_op ck (pre ++ 0x14 :: h ++ post) 0x14 (mkEval (S (length pre)) start [] stack)
  = Ok (mkEval (length pre + 21) start [] (h :: stack)).
Proof.
  intros Hl. unfold eval_op, eval_push. simpl.
  rewrite (proj2 (read_bytes_Ok _ _ 20 h (length pre + 21))).
  - simpl. replace (check_minimal_push h 20) with true.
    + rewrite andb_false_r. done.
    + unfold check_minimal_push. rewrite Hl. destruct h as [|a [|b h]]; [done|done|reflexivity].
  - rewrite length_app. cbn [length]. rewrite length_app, Hl. split; [lia|]. split; [|lia].
    replace (pre ++ 20 :: h ++ post) with ((pre ++ [20]) ++ h ++ post) by (by rewrite <- app_assoc).
    symmetry. apply slice_at; rewrite length_app; cbn [length]; lia.
Qed.

Lemma eval_p2pkh ck h stack :
  length h = 20%nat ->
  eval_script (p2pkh_script h) stack ck =
  match stack with
  | pubkey :: rest =>
      if bool_decide (h = hash160 pubkey) then
        match rest with
        | sig :: rest =>
            ok ← check_sig ck sig pubkey (p2pkh_script h); Ok (bool_to_vec ok :: rest)
        | [] => Err StackUnderflow
        end
      else Err EvalFalse
  | [] => Err StackUnderflow
  end.
Proof.
  intros Hl. unfold eval_script.
  assert (Hlen : length (p2pkh_script h) = 25%nat).
  { unfold p2pkh_script. rewrite !length_app, Hl. done. }
  rewrite Hlen. destruct stack as [|pubkey rest].
  { rewrite (eval_loop_step _ _ _ _ OP_DUP (Err StackUnderflow)); done. }
  rewrite (eval_loop_step _ _ _ _ OP_DUP (Ok (mkEval 1 0 [] (pubkey :: pubkey :: rest)))) by done.
  cbn [mbind result_bind].
  rewrite (eval_loop_step _ _ _ _ OP_HASH160 (Ok (mkEval 2 0 [] (hash160 pubkey :: pubkey :: rest)))) by done.
  cbn [mbind result_bind].
  rewrite (eval_loop_step _ _ _ _ 0x14 (Ok (mkEval 23 0 [] (h :: hash160 pubkey :: pubkey :: rest))));
    [|done|by apply (eval_hash_push ck [OP_DUP; OP_HASH160] h [OP_EQUALVERIFY; OP_CHECKSIG])].
  cbn [mbind result_bind].
  rewrite (eval_loop_step _ _ _ _ OP_EQUALVERIFY
    (if bool_decide (h = hash160 pubkey) then Ok (mkEval 24 0 [] (pubkey :: rest)) else Err EvalFalse)).
  2:{ unfold p2pkh_script. cbn [ev_cursor]. rewrite lookup_app_r by (cbn [length]; lia).
      rewrite lookup_app_r by (cbn [length]; lia). rewrite Hl. done. }
  2:{ unfold eval_op. cbn. repeat case_bool_decide; tauto || done. }
  case_bool_decide; [|done]. cbn [mbind result_bind].
  rewrite (eval_loop_step _ _ _ _ OP_CHECKSIG
    match rest with
    | sig :: rest => ok ← check_sig ck sig pubkey (p2pkh_script h);
        Ok (mkEval 25 0 [] (bool_to_vec ok :: rest))
    | [] => Err StackUnderflow
    end).
  2:{ unfold p2pkh_script. cbn [ev_cursor]. rewrite lookup_app_r by (cbn [length]; lia).
      rewrite lookup_app_r by (cbn [length]; lia). rewrite Hl. done. }
  2:{ unfold eval_op. simpl. destruct rest as [|sig rest]; [done|]. simpl.
      unfold eval_stack_op. cbn. by destruct (check_sig _ _ _ _). }
  destruct rest as [|sig rest]; [done|]. destruct (check_sig _ _ _ _) as [ok|e|]; [|done|done].
  cbn [mbind result_bind]. rewrite eval_loop_end by (cbn [ev_cursor]; lia). done.
Qed.

Lemma eval_p2sh ck h stack :
  length h = 20%nat ->
  eval_script (p2sh_script h) stack ck =
  match stack with
  | top :: rest => Ok (bool_to_vec (bool_decide (h = hash160 top)) :: rest)
  | [] => Err StackUnderflow
  end.
Proof.
  intros Hl. unfold eval_script.
  assert (Hlen : length (p2sh_script h) = 23%nat).
  { unfold p2sh_script. rewrite !length_app, Hl. done. }
  rewrite Hlen. destruct stack as [|top rest].
  { rewrite (eval_loop_step _ _ _ _ OP_HASH160 (Err StackUnderflow)); done. }
  rewrite (eval_loop_step _ _ _ _ OP_HASH160 (Ok (mkEval 1 0 [] (hash160 top :: rest)))) by done.
  cbn [mbind result_bind].
  rewrite (eval_loop_step _ _ _ _ 0x14 (Ok (mkEval 22 0 [] (h :: hash160 top :: rest))));
    [|done|by apply (eval_hash_push ck [OP_HASH160] h [OP_EQUAL])].
  cbn [mbind result_bind].
  rewrite (eval_loop_step _ _ _ _ OP_EQUAL
    (Ok (mkEval 23 0 [] (bool_to_vec (bool_decide (h = hash160 top)) :: rest)))).
  2:{ unfold p2sh_script. cbn [ev_cursor]. rewrite lookup_app_r by (cbn [length]; lia).
      rewrite lookup_app_r by (cbn [length]; lia). rewrite Hl. done. }
  2: done.
  cbn [mbind result_bind]. rewrite eval_loop_end by (cbn [ev_cursor]; lia). done.
Qed.

Lemma p2pkh_not_p2sh h : length h = 20%nat -> is_p2sh (p2pkh_script h) = false.
Proof. intros Hl. unfold is_p2sh, p2pkh_script. by rewrite !length_app, Hl. Qed.

Lemma p2sh_is_p2sh h : length h = 20%nat -> is_p2sh (p2sh_script h) = true.
Proof.
  intros Hl. assert (E : p2sh_script h !! 22%nat = Some OP_EQUAL).
  { unfold p2sh_script. rewrite lookup_app_r by (cbn [length]; lia).
    rewrite lookup_app_r by (cbn [length]; lia). rewrite Hl. reflexivity. }
  unfold is_p2sh, byte_is. rewrite E. unfold p2sh_script. rewrite !length_app, Hl. reflexivity.
Qed.

(** ** Multi-signature matching *)

(** [signed check sigs keys]: the signatures are valid for some of the keys,
    in the order of the keys. *)
Definition signed (check : bytes -> bytes -> result ScriptError bool) (sigs keys : list bytes) : Prop :=
  exists ks, sublist ks keys /\ Forall2 (fun sig key => check sig key = Ok true) sigs ks.

Lemma signed_skip check sigs key keys : signed check sigs keys -> signed check sigs (key :: keys).
Proof. intros (ks&Hs&Hf). exists ks. split; [by constructor|done]. Qed.
Lemma signed_take check sig sigs key keys :
  check sig key = Ok true -> signed check sigs keys -> signed check (sig :: sigs) (key :: keys).
Proof. intros Hc (ks&Hs&Hf). exists (key :: ks). split; by constructor. Qed.
Lemma signed_tail check sig sigs key keys :
  signed check (sig :: sigs) (key :: keys) -> signed check sigs keys.
Proof.
  intros (ks&Hs&Hf). inversion Hf as [|? k ? ks' Hk Hks]; subst. exists ks'. split; [|done].
  apply sublist_cons_l in Hs as (l1&l2&E&Hs). etrans; [exact Hs|].
  destruct l1 as [|x l1]; simplify_eq/=; [done|]. apply sublist_inserts_l. by constructor.
Qed.
Lemma signed_head_invalid check sig sigs key keys :
  check sig key <> Ok true -> signed check (sig :: sigs) (key :: keys) -> signed check (sig :: sigs) keys.
Proof.
  intros Hc (ks&Hs&Hf). inversion Hf as [|? k ? ks' Hk Hks]; subst.
  exists (k :: ks'). split; [|done]. inversion Hs; subst; done.
Qed.
Lemma signed_length check sigs keys : signed check sigs keys -> (length sigs <= length keys)%nat.
Proof. intros (ks&Hs&Hf). apply sublist_length in Hs. apply Forall2_length in Hf. lia. Qed.

Lemma multisig_loop_sound check keys sigs :
  multisig_loop check keys sigs = Ok true -> signed check sigs keys.
Proof.
  revert sigs; induction keys as [|key keys IH]; intros [|sig sigs]; cbn [multisig_loop].
  1,3: intros _; exists []; split; [apply sublist_nil_l|constructor].
  - done.
  - intros E. apply bind_Ok in E as (ok&Hok&E).
    destruct (Nat.ltb _ _).
    + destruct ok; [|done]. destruct sigs; [|done]. apply signed_take; [done|].
      exists []. split; [apply sublist_nil_l|constructor].
    + destruct ok; [apply signed_take; auto|apply signed_skip; auto].
Qed.

(** When every check answers, the greedy loop finds a matching if there is
    one. *)
Lemma multisig_loop_complete check keys sigs :
  (forall s k, s ∈ sigs -> k ∈ keys -> exists b, check s k = Ok b) ->
  exists b, multisig_loop check keys sigs = Ok b /\ (b = true <-> signed check sigs keys).
Proof.
  revert sigs; induction keys as [|key keys IH]; intros [|sig sigs] Hc; cbn [multisig_loop].
  - exists true. split; [done|]. split; [|done]. intros _. exists []. split; constructor.
  - exists false. split; [done|]. split; [done|]. intros Hs. apply signed_length in Hs. simpl in Hs; lia.
  - exists true. split; [done|]. split; [|done]. intros _. exists []. split; [apply sublist_nil_l|constructor].
  - destruct (Hc sig key) as [ok Hok]; [constructor..|]. rewrite Hok. cbn [mbind result_bind].
    destruct (Nat.ltb_spec (length keys) (length (if ok then sigs else sig :: sigs))) as [Hlt|Hge].
    + exists false. split; [destruct ok; [destruct sigs|]; simpl in *; (done || lia)|]. split; [done|].
      intros Hs. destruct ok.
      * apply signed_tail, signed_length in Hs. lia.
      * apply signed_head_invalid in Hs; [|by rewrite Hok]. apply signed_length in Hs. lia.
    + destruct (IH (if ok then sigs else sig :: sigs)) as (b&E&Hb).
      { intros s k Hs Hk. apply Hc; [destruct ok; set_solver|set_solver]. }
      exists b. split; [done|]. rewrite Hb. split.
      * destruct ok; [by apply signed_take|apply signed_skip].
      * destruct ok; [apply signed_tail|apply signed_head_invalid; by rewrite Hok].
Qed.

Lemma pop_n_rev l stack : pop_n (length l) (rev l ++ stack) = Ok (l, stack).
Proof.
  remember (rev l) as r eqn:Hr. assert (l = rev r) as -> by (by rewrite Hr, rev_involutive).
  clear Hr. rewrite length_rev. revert stack; induction r as [|x r IH]; intros stack; [done|].
  cbn [length pop_n app pop mbind result_bind fst snd]. by rewrite IH.
Qed.

Lemma script_num_small n : 0 <= n <= 20 -> decode_script_num (script_num_to_vec n) = Ok n.
Proof.
  intros Hn. assert (Hall : Forall (fun n => decode_script_num (script_num_to_vec n) = Ok n) (seqZ 0 21)).
  { cbn. repeat (constructor; [reflexivity|]). constructor. }
  rewrite Forall_forall in Hall. apply Hall, elem_of_seqZ. lia.
Qed.

(** ** Properties *)

(** Script verification terminates and never aborts the node: whatever
    the two scripts are, for an input the transaction has, verification
    returns, with success or with an error. *)
Theorem verify_script_total (script_sig script_pubkey : bytes) (tx : Transaction) (i : nat)
    (amount flags branch : Z)
    (Hi : (i < length (vin tx))%nat) (Hl : Z.of_nat (length script_sig) <= i64_max)
    (Hf : has_flag flags SCRIPT_VERIFY_SIGPUSHONLY = false) :
  verify_script script_sig script_pubkey tx i amount flags branch <> Panic.
Proof.
  unfold verify_script. rewrite Hf. cbn [mbind result_bind negb].
  set (ck := mkChecker tx i amount flags branch).
  apply bind_not_panic; [by apply eval_script_not_panic|]. intros copy Hcopy.
  apply bind_not_panic; [by apply eval_script_not_panic|]. intros stack _.
  destruct (top_is_false stack); [done|]. apply bind_not_panic; [|intros u _; by destruct (has_flag flags SCRIPT_VERIFY_CLEANSTACK && _)].
  destruct (_ && _); [|done]. unfold push_only_or_hang.
  destruct (push_only_after_eval ck script_sig [] copy Hl Hcopy) as [b ->].
  cbn [mbind result_bind]. destruct (negb b); [done|].
  apply bind_not_panic; [auto|]. intros [redeem rest] _.
  apply bind_not_panic; [by apply eval_script_not_panic|]. intros s _. by destruct (top_is_false s).
Qed.

(** An output to a public key hash can be spent only by the key's
    signature.  Whatever the input script is, verification against a
    pay-to-public-key-hash script succeeds exactly when evaluating the input
    script leaves on top a public key with that hash and below it a
    signature that checks against the output script (and, under the
    clean-stack rule, nothing else). *)
Theorem p2pkh_spend (script_sig h : bytes) (tx : Transaction) (i : nat) (amount flags branch : Z)
    (Hh : length h = 20%nat) (Hf : has_flag flags SCRIPT_VERIFY_SIGPUSHONLY = false) :
  let ck := mkChecker tx i amount flags branch in
  verify_script script_sig (p2pkh_script h) tx i amount flags branch = Ok () <->
  exists pubkey sig rest,
    eval_script script_sig [] ck = Ok (pubkey :: sig :: rest)
    /\ hash160 pubkey = h
    /\ check_sig ck sig pubkey (p2pkh_script h) = Ok true
    /\ (has_flag flags SCRIPT_VERIFY_CLEANSTACK = true -> rest = []).
Proof.
  intros ck. unfold verify_script. rewrite Hf, (p2pkh_not_p2sh h Hh), andb_false_r. fold ck.
  cbn [mbind result_bind negb]. split.
  - intros E. apply bind_Ok in E as (stack&Hs&E). rewrite Hs. rewrite eval_p2pkh in E by done.
    destruct stack as [|pubkey stack]; [done|]. case_bool_decide as Hk; [|done].
    destruct stack as [|sig rest]; [done|].
    destruct (check_sig ck sig pubkey (p2pkh_script h)) as [[|]|e|] eqn:Hc; try done.
    exists pubkey, sig, rest. split_and!; [done|done|done|]. intros Hcs.
    cbn in E. rewrite Hcs in E. destruct rest; [done|]. simpl in E. done.
  - intros (pubkey&sig&rest&Hs&Hk&Hc&Hr). rewrite Hs. cbn [mbind result_bind].
    rewrite eval_p2pkh, bool_decide_true, Hc by done. cbn.
    destruct (has_flag flags SCRIPT_VERIFY_CLEANSTACK); [|done]. by rewrite Hr.
Qed.

(** An output to a script hash is governed by the script behind the
    hash.  Verification against a pay-to-script-hash script succeeds exactly
    when the input script only pushes, the top of the stack it leaves is a
    script with that hash, and evaluating that script on the rest of the
    stack leaves a true value (alone, under the clean-stack rule). *)
Theorem p2sh_spend (script_sig h : bytes) (tx : Transaction) (i : nat) (amount flags branch : Z)
    (Hh : length h = 20%nat) (Hf : has_flag flags SCRIPT_VERIFY_SIGPUSHONLY = false)
    (Hp : has_flag flags SCRIPT_VERIFY_P2SH = true) :
  let ck := mkChecker tx i amount flags branch in
  verify_script script_sig (p2sh_script h) tx i amount flags branch = Ok () <->
  exists redeem rest top stack,
    is_push_only script_sig = Some true
    /\ eval_script script_sig [] ck = Ok (redeem :: rest)
    /\ hash160 redeem = h
    /\ eval_script redeem rest ck = Ok (top :: stack) /\ cast_to_bool top = true
    /\ (has_flag flags SCRIPT_VERIFY_CLEANSTACK = true -> stack = []).
Proof.
  intros ck. unfold verify_script. rewrite Hf, Hp, (p2sh_is_p2sh h Hh). fold ck.
  cbn [mbind result_bind negb andb]. unfold push_only_or_hang. split.
  - intros E. apply bind_Ok in E as (stack0&Hs&E). rewrite eval_p2sh in E by done.
    destruct stack0 as [|redeem rest]; [done|]. cbn [mbind result_bind] in E.
    case_bool_decide as Hk; [|done]. cbn [bool_to_vec top_is_false cast_to_bool] in E. simpl in E.
    destruct (is_push_only script_sig) as [[|]|]; try done. simpl in E.
    destruct (eval_script redeem rest ck) as [s|e|] eqn:Er; try done. cbn [mbind result_bind] in E.
    destruct s as [|top stack]; [done|]. cbn [top_is_false] in E.
    destruct (cast_to_bool top) eqn:Ht; [|done]. cbn in E. rewrite Ht in E.
    exists redeem, rest, top, stack. split_and!; try done. intros Hc. rewrite Hc in E.
    by destruct stack.
  - intros (redeem&rest&top&stack&Ho&Hs&Hk&Hr&Ht&Hc). rewrite Hs. cbn [mbind result_bind].
    rewrite eval_p2sh, bool_decide_true by done. rewrite Ho. simpl. rewrite Hr. simpl. rewrite Ht. simpl.
    rewrite Ht. destruct (has_flag flags SCRIPT_VERIFY_CLEANSTACK); [|done]. by rewrite Hc.
Qed.

(** M-of-n signature checking is exact.  With the keys, the signatures
    and the dummy laid out on the stack, and every signature check giving an
    answer, the operation consumes exactly those elements and reports success
    precisely when the signatures are valid for some of the keys in the keys'
    order; no valid assignment is missed by the one-pass search. *)
Theorem check_multisig_exact (ck : SignatureChecker) (script_code : bytes)
    (keys sigs rest : list bytes)
    (Hn : (length keys <= 20)%nat) (Hm : (length sigs <= length keys)%nat)
    (Hc : forall s k, s ∈ sigs -> k ∈ keys -> exists b, check_sig ck s k script_code = Ok b) :
  exists b,
    check_multisig ck script_code
      (script_num_to_vec (Z.of_nat (length keys)) :: rev keys
       ++ script_num_to_vec (Z.of_nat (length sigs)) :: rev sigs ++ [] :: rest)
    = Ok (b, rest)
    /\ (b = true <-> signed (fun s k => check_sig ck s k script_code) sigs keys).
Proof.
  destruct (multisig_loop_complete (fun s k => check_sig ck s k script_code) keys sigs Hc) as (b&E&Hb).
  exists b. split; [|done]. unfold check_multisig. cbn [pop mbind result_bind].
  rewrite script_num_small by lia. cbn [mbind result_bind].
  replace ((0 <=? Z.of_nat (length keys)) && (Z.of_nat (length keys) <=? 20)) with true
    by (symmetry; apply andb_true_iff; split; apply Z.leb_le; lia).
  cbn [negb]. rewrite Nat2Z.id, pop_n_rev. cbn [pop mbind result_bind].
  rewrite script_num_small by lia. cbn [mbind result_bind].
  replace ((Z.of_nat (length sigs) <? 0) || (Z.of_nat (length sigs) >? Z.of_nat (length keys))) with false
    by (symmetry; rewrite Z.gtb_ltb; apply orb_false_iff; split; apply Z.ltb_ge; lia).
  rewrite Nat2Z.id, pop_n_rev. cbn [pop mbind result_bind is_nil negb].
  rewrite andb_false_r, E. done.
Qed.
End lemmas.

(** ** Concrete runs *)

(** A toy curve: a signature is valid for a key when it repeats it. *)
#[global] Instance toy_secp : Secp := {|
  Signature := list Z;
  PublicKey := list Z;
  from_der d := Some d;
  normalize_s s := s;
  PublicKey_from_slice k := Some k;
  verify_ecdsa _ s k := bool_decide (s = k) |}.

Definition sample_key (b : Z) : bytes := 2 :: replicate 32 b.
Definition sample_signature (b : Z) : bytes := sample_key b ++ [SIGHASH_ALL].
Definition push (data : bytes) : bytes := Z.of_nat (length data) :: data.
Definition sample_spend : Transaction := sample_sapling_payment [].
Definition sample_checker : SignatureChecker :=
  mkChecker sample_spend 0 10 STANDARD_SCRIPT_VERIFY_FLAGS 0x76b809bb.
(** One-of-two multisig on the keys 5 and 6, as a redeem script. *)
Definition sample_redeem : bytes :=
  [OP_1] ++ push (sample_key 5) ++ push (sample_key 6) ++ [OP_1 + 1; OP_CHECKMULTISIG].

Lemma verify_script_total_witness :
  verify_script [OP_PUSHDATA2; 1] [OP_IF; OP_RETURN] sample_spend 0 10 STANDARD_SCRIPT_VERIFY_FLAGS
    0x76b809bb <> Panic.
Proof. apply verify_script_total; [cbn; lia|by_decide|reflexivity]. Defined.

Lemma p2pkh_spend_witness :
  verify_script (push (sample_signature 5) ++ push (sample_key 5))
    (p2pkh_script (hash160 (sample_key 5))) sample_spend 0 10 STANDARD_SCRIPT_VERIFY_FLAGS 0x76b809bb
  = Ok ().
Proof.
  apply (p2pkh_spend _ (hash160 (sample_key 5))); [reflexivity|reflexivity|].
  exists (sample_key 5), (sample_signature 5), []. split_and!; vm_compute; reflexivity.
Defined.

Lemma p2sh_spend_witness :
  verify_script ([OP_0] ++ push (sample_signature 6) ++ push sample_redeem)
    (p2sh_script (hash160 sample_redeem)) sample_spend 0 10 STANDARD_SCRIPT_VERIFY_FLAGS 0x76b809bb
  = Ok ().
Proof.
  apply (p2sh_spend _ (hash160 sample_redeem)); [reflexivity..|].
  exists sample_redeem, [sample_signature 6; []], [1], []. split_and!; vm_compute; reflexivity.
Defined.

Lemma check_multisig_exact_witness :
  exists b,
    check_multisig sample_checker [] [[2]; sample_key 7; sample_key 5; [1]; sample_signature 7; []; [9]]
    = Ok (b, [[9]])
    /\ (b = true <-> signed (fun s k => check_sig sample_checker s k [])
                       [sample_signature 7] [sample_key 5; sample_key 7]).
Proof.
  apply (check_multisig_exact sample_checker [] [sample_key 5; sample_key 7] [sample_signature 7]).
  - cbn; lia.
  - cbn; lia.
  - intros s k Hs Hk. apply list_elem_of_singleton in Hs as ->.
    apply elem_of_cons in Hk as [->|Hk]; [exists false; vm_compute; reflexivity|].
    apply list_elem_of_singleton in Hk as ->. exists true. vm_compute; reflexivity.
Defined.

(** A truncated push makes [is_push_only] run for ever in a release build:
    the length [usize::MAX] moves the cursor back by one. *)
Lemma is_push_only_hangs fuel : is_push_only_from fuel [OP_PUSHDATA1] 0 = None.
Proof. induction fuel as [|fuel IH]; [done|]. exact IH. Qed.

(** [OP_CHECKLOCKTIMEVERIFY] lets a negative lock time pass, and refuses the
    five-byte operand a time after January 2038 needs. *)
Definition locked (script_lock : bytes) : result ScriptError (list bytes) :=
  eval_script (push script_lock ++ [OP_CHECKLOCKTIMEVERIFY]) [] sample_checker.
Example negative_lock_time_passes : locked [0x81] = Err MinimalData /\ locked [0x82] = Ok [[0x82]].
Proof. vm_compute; done. Qed.
Example five_byte_lock_time_refused : locked [0; 0; 0; 0x80; 0] = Err InvalidOpcode.
Proof. vm_compute; done. Qed.
