(* ===== verification/Equihash.v ===== *)
(** * Equihash verification ([pow/src/equihash_verify.rs])

    A solution is a list of [2^k] indices; the leaf of an index is a slice of a
    BLAKE2b digest.  The verifier folds the leaves up a binary tree, checking
    at every node that the two children collide.  The theorem of this file is
    that it accepts exactly the solutions of the generalized birthday problem
    in Wagner's tree form. *)

From S2P Require Import Prelude Encoding Hashing.
From Stdlib Require Import ZArith Lia.
From stdpp Require Import base list option numbers strings sets.
#[local] Open Scope Z_scope.

(** BLAKE2b with a digest length and a personalization, of the whole message
    (the hasher state is the message fed so far). *)
Class Blake2b := { blake2b : nat -> bytes -> bytes -> bytes }.
Class Blake2bLaws (B : Blake2b) : Prop := {
  blake2b_array n p m : (n <= 64)%nat -> array n (blake2b n p m) }.

(** ** Parameters *)
Record Params := mkParams { p_n : nat; p_k : nat }.

Definition div_ceil (a b : nat) : nat := (a + b - 1) / b.

Definition Params_new (n k : nat) : option Params :=
  let allow_non_octet := Nat.eqb n 125 && Nat.eqb k 4 in
  if (Nat.eqb (n mod 8) 0 || allow_non_octet) && Nat.leb 3 k && Nat.ltb k n
     && Nat.eqb (n mod (k + 1)) 0
  then Some (mkParams n k) else None.

Definition indices_per_hash_output (p : Params) : nat := 512 / p_n p.
Definition hash_output (p : Params) : nat :=
  Z.to_nat (wrap_u8 (Z.of_nat (indices_per_hash_output p * div_ceil (p_n p) 8))).
Definition use_twist (p : Params) : bool := Nat.eqb (p_n p) 125 && Nat.eqb (p_k p) 4.
Definition collision_bit_length (p : Params) : nat := p_n p / (p_k p + 1).
Definition collision_byte_length (p : Params) : nat := div_ceil (collision_bit_length p) 8.

(** ** Bit unpacking *)

(** [>>] on [u32]: a release build takes the amount modulo 32. *)
Definition shr_u32 (v : Z) (s : nat) : Z := Z.shiftr v (Z.of_nat s mod 32).
Definition shl_u32 (v : Z) (s : nat) : Z := wrap_u32 (Z.shiftl v (Z.of_nat s mod 32)).

(** One iteration over the input; a completed group is appended to the output
    ([vout[j + x]] with [j] the length written so far). *)
Definition expand_step (bit_len byte_pad : nat) (s : nat * Z * bytes) (b : Z) : nat * Z * bytes :=
  let out_width := (div_ceil bit_len 8 + byte_pad)%nat in
  let bit_len_mask := wrap_u32 (shl_u32 1 bit_len - 1) in
  let '(acc_bits, acc_value, vout) := s in
  let acc_value := Z.lor (shl_u32 acc_value 8) b in
  let acc_bits := (acc_bits + 8)%nat in
  if Nat.leb bit_len acc_bits then
    let acc_bits := (acc_bits - bit_len)%nat in
    let byte x :=
      wrap_u8 (Z.land (shr_u32 acc_value (acc_bits + 8 * (out_width - x - 1)))
                 (Z.land (shr_u32 bit_len_mask (8 * (out_width - x - 1))) 0xff)) in
    (acc_bits, acc_value,
     vout ++ zeros byte_pad ++ map byte (seq byte_pad (out_width - byte_pad)))
  else (acc_bits, acc_value, vout).

Definition expand_array (vin : bytes) (bit_len byte_pad : nat) : bytes :=
  let out_width := (div_ceil bit_len 8 + byte_pad)%nat in
  let out_len := (8 * out_width * length vin / bit_len)%nat in
  if Nat.eqb out_len (length vin) then vin
  else
    let vout := snd (foldl (expand_step bit_len byte_pad) (O, 0, []) vin) in
    vout ++ zeros (out_len - length vout).

(** [read_u32_be] until the end; an incomplete group is dropped. *)
Fixpoint read_u32s_be (fuel : nat) (csr : bytes) : list Z :=
  match fuel with
  | O => []
  | S fuel =>
      if Nat.ltb (length csr) 4 then []
      else from_be (take 4 csr) :: read_u32s_be fuel (drop 4 csr)
  end.

Definition indices_from_minimal (p : Params) (minimal : bytes) : option (list Z) :=
  let c_bit_len := collision_bit_length p in
  if negb (Nat.eqb (length minimal) (2 ^ p_k p * (c_bit_len + 1) / 8)) then None
  else
    let byte_pad := (4 - div_ceil (c_bit_len + 1) 8)%nat in
    let csr := expand_array minimal (c_bit_len + 1) byte_pad in
    Some (read_u32s_be (length csr) csr).

(** ** Leaves *)
Definition personalise (n k : nat) : bytes :=
  (if (Nat.eqb n 144 && Nat.eqb k 5) || (Nat.eqb n 125 && Nat.eqb k 4)
   then [90; 101; 108; 80; 114; 111; 111; 102]      (* ZelProof *)
   else [90; 99; 97; 115; 104; 80; 111; 87])        (* ZcashPoW *)
  ++ le_bytes 4 (Z.of_nat n) ++ le_bytes 4 (Z.of_nat k).

Inductive VerifyKind := InvalidParams | Collision | OutOfOrder | DuplicateIdxs | NonZeroRootHash.
#[global] Instance VerifyKind_eq_dec : EqDecision VerifyKind.
Proof. solve_decision. Defined.

Record Node := mkNode { node_hash : bytes; node_indices : list Z }.

Section verify.
  Context {B : Blake2b}.

(** The hasher state: digest length, personalization, message. *)
Record BState := mkBState { bs_len : nat; bs_personal : bytes; bs_message : bytes }.
Definition update (s : BState) (m : bytes) : BState :=
  mkBState (bs_len s) (bs_personal s) (bs_message s ++ m).
Definition finalize (s : BState) : bytes := blake2b (bs_len s) (bs_personal s) (bs_message s).

Definition initialise_state (n k digest_len : nat) : BState := mkBState digest_len (personalise n k) [].

(** The sixteen words of a digest, and the sum of the digests of one group. *)
Definition digest_words (bs : bytes) : list Z :=
  map (fun idx => from_le (slice bs (idx * 4) (idx * 4 + 4))) (seq 0 16).

Definition twist_words (base_state : BState) (i : Z) : list Z :=
  let start_index := Z.land i 0xFFFFFFF0 in
  foldl (fun my_hash g2 =>
           zip_with (fun a w => wrap_u32 (a + w)) my_hash
             (digest_words (finalize (update base_state (le_bytes 4 g2)))))
    (replicate 16 0) (seqZ start_index (i - start_index + 1)).

Definition generate_hash (base_state : BState) (i : Z) (params : Params) : bytes :=
  let hash_len := hash_output params in
  if negb (use_twist params) then take hash_len (finalize (update base_state (le_bytes 4 i)))
  else
    let my_hash := twist_words base_state i in
    let out := take hash_len (concat (map (fun w => le_bytes 4 w) (take (hash_len / 4) my_hash))
                              ++ zeros hash_len) in
    imap (fun pos b => if Nat.eqb (pos mod 16) 15 then Z.land b 0xF8 else b) out.

(** The expanded hash of [Node::new]. *)
Definition leaf_hash (p : Params) (state : BState) (i : Z) : bytes :=
  let per := Z.of_nat (indices_per_hash_output p) in
  let hash := generate_hash state (i / per) p in
  let byte_len := div_ceil (p_n p) 8 in
  let start := (Z.to_nat (i mod per) * byte_len)%nat in
  expand_array (slice hash start (start + byte_len)) (collision_bit_length p) 0.

Definition Node_new (p : Params) (state : BState) (i : Z) : Node := mkNode (leaf_hash p state i) [i].

(** ** The tree *)
Definition indices_before (a b : Node) : bool :=
  match node_indices a, node_indices b with
  | x :: _, y :: _ => x <? y
  | _, _ => false
  end.

Definition from_children (a b : Node) (trim : nat) : Node :=
  let hash := zip_with Z.lxor (drop trim (node_hash a)) (drop trim (node_hash b)) in
  let indices :=
    if indices_before a b then node_indices a ++ node_indices b
    else node_indices b ++ node_indices a in
  mkNode hash indices.

Definition is_zero (a : Node) (len : nat) : bool := forallb (fun v => v =? 0) (take len (node_hash a)).

Definition has_collision (a b : Node) (len : nat) : bool :=
  forallb (fun ab => ab.1 =? ab.2) (take len (zip (node_hash a) (node_hash b))).

Definition distinct_indices (a b : Node) : bool :=
  forallb (fun i => forallb (fun j => negb (i =? j)) (node_indices b)) (node_indices a).

Definition validate_subtrees (p : Params) (a b : Node) : result VerifyKind () :=
  if negb (has_collision a b (collision_byte_length p)) then Err Collision
  else if indices_before b a then Err OutOfOrder
  else if negb (distinct_indices a b) then Err DuplicateIdxs
  else Ok ().

(** The recursion halves the index list; its length is fuel enough. *)
Fixpoint tree_validator (fuel : nat) (p : Params) (state : BState) (indices : list Z)
    : result VerifyKind Node :=
  match fuel with
  | O => Panic
  | S fuel =>
      if Nat.ltb 1 (length indices) then
        let mid := (length indices / 2)%nat in
        a ← tree_validator fuel p state (take mid indices);
        b ← tree_validator fuel p state (drop mid indices);
        _ ← validate_subtrees p a b;
        Ok (from_children a b (collision_byte_length p))
      else i ← index indices 0; Ok (Node_new p state i)
  end.

Definition is_valid_solution (n k : nat) (input nonce soln : bytes) : result VerifyKind () :=
  p ← ok_or (Params_new n k) InvalidParams;
  indices ← ok_or (indices_from_minimal p soln) InvalidParams;
  let state := update (update (initialise_state (p_n p) (p_k p) (hash_output p)) input) nonce in
  root ← tree_validator (S (length indices)) p state indices;
  if is_zero root (collision_byte_length p) then Ok () else Err NonZeroRootHash.
End verify.

(** ** Lengths *)
Lemma expand_step_effect bit_len byte_pad a v out b :
  exists d, length (snd (expand_step bit_len byte_pad (a, v, out) b))
      = (length out + d * (div_ceil bit_len 8 + byte_pad))%nat
    /\ (fst (fst (expand_step bit_len byte_pad (a, v, out) b)) + d * bit_len = a + 8)%nat.
Proof.
  unfold expand_step. destruct (Nat.leb_spec bit_len (a + 8)).
  - exists 1%nat. cbn [fst snd]. rewrite !length_app, length_map, length_seq, length_zeros. lia.
  - exists O. cbn [fst snd]. lia.
Qed.

Lemma expand_step_invariant bit_len byte_pad vin a v out :
  let w := (div_ceil bit_len 8 + byte_pad)%nat in
  let r := foldl (expand_step bit_len byte_pad) (a, v, out) vin in
  exists m, length (snd r) = (length out + m * w)%nat
    /\ (fst (fst r) + m * bit_len = a + 8 * length vin)%nat.
Proof.
  intros w. revert a v out. induction vin as [|b vin IH]; intros a v out.
  - exists O. simpl. lia.
  - cbn [foldl]. destruct (expand_step_effect bit_len byte_pad a v out b) as (d&D1&D2).
    destruct (expand_step _ _ _ b) as [[a' v'] out']. cbn [fst snd] in *.
    destruct (IH a' v' out') as (m&H1&H2). exists (d + m)%nat. cbv zeta. rewrite H1.
    cbn [length]. fold w in D1. nia.
Qed.

Lemma length_expand_array vin bit_len byte_pad :
  (0 < bit_len)%nat ->
  length (expand_array vin bit_len byte_pad)
  = (8 * (div_ceil bit_len 8 + byte_pad) * length vin / bit_len)%nat.
Proof.
  intros Hb. unfold expand_array. destruct (Nat.eqb_spec
    (8 * (div_ceil bit_len 8 + byte_pad) * length vin / bit_len) (length vin)) as [E|_]; [done|].
  destruct (expand_step_invariant bit_len byte_pad vin 0 0 []) as (m&H1&H2).
  rewrite length_app, H1, length_zeros. cbn [length] in *.
  assert (m * (div_ceil bit_len 8 + byte_pad)
    <= 8 * (div_ceil bit_len 8 + byte_pad) * length vin / bit_len)%nat; [|lia].
  apply Nat.div_le_lower_bound; nia.
Qed.

(** ** Exclusive or of byte strings *)
Abbreviation xor_bytes := (zip_with Z.lxor).

Lemma xor_bytes_assoc a b c : xor_bytes a (xor_bytes b c) = xor_bytes (xor_bytes a b) c.
Proof.
  revert b c; induction a as [|x a IH]; intros [|y b] [|z c]; simpl; try done.
  by rewrite IH, Z.lxor_assoc.
Qed.
Lemma xor_bytes_zeros_l a : xor_bytes (zeros (length a)) a = a.
Proof. induction a as [|x a IH]; [done|]. unfold zeros in *. cbn [length replicate zip_with]. by rewrite IH. Qed.

(** [vanishes m h]: the first [m] bytes of [h] are zero. *)
Definition vanishes (m : nat) (h : bytes) : Prop := Forall (fun v => v = 0) (take m h).

Lemma vanishes_split m c h :
  vanishes (m + c) h <-> vanishes m h /\ Forall (fun v => v = 0) (take c (drop m h)).
Proof.
  unfold vanishes. by rewrite <- take_take_drop, Forall_app.
Qed.

Lemma collision_xor a b :
  length a = length b ->
  forallb (fun ab => ab.1 =? ab.2) (zip a b) = true <-> Forall (fun v => v = 0) (xor_bytes a b).
Proof.
  revert b; induction a as [|x a IH]; intros [|y b]; simpl; try done; intros [= Hl].
  rewrite andb_true_iff, Forall_cons, (IH _ Hl), Z.eqb_eq, Z.lxor_eq_0_iff. done.
Qed.

Lemma drop_xor m a b : drop m (xor_bytes a b) = xor_bytes (drop m a) (drop m b).
Proof.
  revert a b; induction m as [|m IH]; intros [|x a] [|y b]; simpl; try done.
  by rewrite zip_with_nil_r.
Qed.
Lemma take_xor m a b : take m (xor_bytes a b) = xor_bytes (take m a) (take m b).
Proof.
  revert a b; induction m as [|m IH]; intros [|x a] [|y b]; simpl; try done. by rewrite IH.
Qed.
Lemma take_zip {A} m (a b : list A) : take m (zip a b) = zip (take m a) (take m b).
Proof.
  revert a b; induction m as [|m IH]; intros [|x a] [|y b]; simpl; try done. by rewrite IH.
Qed.

Lemma vanishes_xor m a b : vanishes m a -> vanishes m b -> vanishes m (xor_bytes a b).
Proof.
  unfold vanishes. rewrite take_xor. generalize (take m a), (take m b). clear.
  intros a b Ha; revert b; induction Ha as [|x a -> Ha IH]; intros [|y b] Hb; simpl; try constructor.
  - inversion Hb; subst. done.
  - inversion Hb; subst. auto.
Qed.

(** ** The generalized birthday problem *)
Section wagner.
  (** The leaves, all of one length, and the bytes a level must cancel. *)
  Context (leaf : Z -> bytes) (len cbl : nat) (Hleaf : forall i, length (leaf i) = len).

Definition xor_leaves (idxs : list Z) : bytes := foldr (fun i acc => xor_bytes (leaf i) acc) (zeros len) idxs.

Lemma length_xor_leaves idxs : length (xor_leaves idxs) = len.
Proof.
  unfold xor_leaves. induction idxs as [|i idxs IH]; [apply length_zeros|].
  cbn [foldr]. rewrite length_zip_with, Hleaf. lia.
Qed.

Lemma xor_leaves_app l r : xor_leaves (l ++ r) = xor_bytes (xor_leaves l) (xor_leaves r).
Proof.
  induction l as [|i l IH]; cbn [app xor_leaves foldr].
  - fold (xor_leaves r). by rewrite <- (length_xor_leaves r), xor_bytes_zeros_l.
  - fold (xor_leaves (l ++ r)). rewrite IH. apply xor_bytes_assoc.
Qed.

(** Wagner's tree of depth [d] over [2^d] indices: both halves are trees, the
    left one starts with the smaller index, and the hashes of all leaves
    cancel on the first [d] groups of bytes. *)
Fixpoint wagner (d : nat) (idxs : list Z) : Prop :=
  match d with
  | O => True
  | S d' =>
      let l := take (2 ^ d') idxs in
      let r := drop (2 ^ d') idxs in
      wagner d' l /\ wagner d' r
      /\ (forall i j, head l = Some i -> head r = Some j -> i < j)
      /\ vanishes (d * cbl) (xor_leaves idxs)
  end.

Lemma wagner_vanishes d idxs : wagner d idxs -> vanishes (d * cbl) (xor_leaves idxs).
Proof. destruct d; [intros _; by constructor|by intros (_&_&_&?)]. Qed.

(** The node the verifier builds for a tree of depth [d]. *)
Definition wagner_node (d : nat) (idxs : list Z) : Node := mkNode (drop (d * cbl) (xor_leaves idxs)) idxs.

Lemma distinct_indices_spec h1 h2 l r :
  distinct_indices (mkNode h1 l) (mkNode h2 r) = true <-> (forall x, x ∈ l -> x ∈ r -> False).
Proof.
  unfold distinct_indices; cbn [node_indices]. rewrite forallb_forall. split.
  - intros Hd x Hl Hr. apply list_elem_of_In in Hl, Hr. specialize (Hd x Hl).
    rewrite forallb_forall in Hd. specialize (Hd x Hr). by rewrite Z.eqb_refl in Hd.
  - intros Hd x Hl. rewrite forallb_forall. intros y Hr. apply negb_true_iff, Z.eqb_neq.
    intros ->. apply (Hd y); by apply list_elem_of_In.
Qed.

Lemma has_collision_spec d l r :
  vanishes (d * cbl) (xor_leaves l) -> vanishes (d * cbl) (xor_leaves r) ->
  has_collision (wagner_node d l) (wagner_node d r) cbl = true
  <-> vanishes (S d * cbl) (xor_leaves (l ++ r)).
Proof.
  intros Hl Hr. unfold has_collision, wagner_node; cbn [node_hash].
  rewrite take_zip, collision_xor by (by rewrite !length_take, !length_drop, !length_xor_leaves).
  rewrite Nat.mul_succ_l, vanishes_split, xor_leaves_app, drop_xor, take_xor.
  split; [intros Hc; split; [by apply vanishes_xor|done]|by intros [_ ?]].
Qed.

Lemma from_children_node d x l y r :
  x < y ->
  from_children (wagner_node d (x :: l)) (wagner_node d (y :: r)) cbl
  = wagner_node (S d) ((x :: l) ++ y :: r).
Proof.
  intros Hxy. unfold from_children, wagner_node, indices_before; cbn [node_hash node_indices].
  rewrite (proj2 (Z.ltb_lt x y) Hxy). f_equal.
  rewrite xor_leaves_app, drop_xor, !drop_drop. f_equal; f_equal; lia.
Qed.
End wagner.

Section tree.
  Context {B : Blake2b} (p : Params) (state : BState) (len : nat).
  Context (Hleaf : forall i, length (leaf_hash p state i) = len).
  #[local] Abbreviation leaf := (leaf_hash p state).
  #[local] Abbreviation cbl := (collision_byte_length p).

Lemma validate_subtrees_spec d l r i j :
  head l = Some i -> head r = Some j -> wagner leaf len cbl d l -> wagner leaf len cbl d r ->
  validate_subtrees p (wagner_node leaf len cbl d l) (wagner_node leaf len cbl d r) = Ok ()
  <-> i < j /\ vanishes (S d * cbl) (xor_leaves leaf len (l ++ r)) /\ (forall x, x ∈ l -> x ∈ r -> False).
Proof.
  intros Hi Hj Hl Hr. apply wagner_vanishes in Hl, Hr.
  pose proof (has_collision_spec leaf len cbl Hleaf d l r Hl Hr) as Hc.
  unfold validate_subtrees.
  pose proof (distinct_indices_spec (drop (d * cbl) (xor_leaves leaf len l))
    (drop (d * cbl) (xor_leaves leaf len r)) l r) as Hd.
  fold (wagner_node leaf len cbl d l) (wagner_node leaf len cbl d r) in Hd.
  destruct (has_collision _ _ _); cbn [negb]; [|split; [done|intros (_&Hv&_); by apply Hc in Hv]].
  destruct l as [|i' l]; [done|]. destruct r as [|j' r]; [done|].
  injection Hi as ->. injection Hj as ->.
  unfold indices_before at 1; cbn [wagner_node node_indices].
  destruct (Z.ltb_spec j i) as [Hlt|Hge]; [split; [done|lia]|].
  destruct (distinct_indices _ _); cbn [negb].
  - split; [|done]. intros _. split_and!; [|by apply Hc|by apply Hd].
    destruct (Z.eq_dec i j) as [->|]; [|lia]. exfalso. apply (proj1 Hd eq_refl j); set_solver.
  - split; [done|]. intros (_&_&Hx). by apply Hd in Hx.
Qed.

Lemma tree_validator_spec d fuel idxs node :
  length idxs = (2 ^ d)%nat -> (d < fuel)%nat ->
  tree_validator fuel p state idxs = Ok node
  <-> node = wagner_node leaf len cbl d idxs /\ wagner leaf len cbl d idxs /\ NoDup idxs.
Proof.
  revert fuel idxs node; induction d as [|d IH]; intros [|fuel] idxs node Hl Hf; try lia; cbn [tree_validator].
  - rewrite Hl. cbn [Nat.pow Nat.ltb Nat.leb]. destruct idxs as [|i [|? ?]]; try done.
    cbn [index lookup list_lookup mbind result_bind]. unfold index; cbn [lookup list_lookup mbind result_bind].
    replace (Node_new p state i) with (wagner_node leaf len cbl 0 [i]).
    + split; [intros [= <-]; split_and!; [done|done|apply NoDup_singleton]|by intros (->&_&_)].
    + unfold wagner_node, Node_new; cbn [Nat.mul xor_leaves foldr]. f_equal. rewrite drop_0.
      rewrite <- (Hleaf i). generalize (leaf_hash p state i). clear. intros h.
      induction h as [|x h IHh]; [done|]. unfold zeros in *. cbn [length replicate zip_with].
      by rewrite Z.lxor_0_r, IHh.
  - assert (Hp : (2 ^ S d = 2 * 2 ^ d)%nat) by (cbn [Nat.pow]; lia).
    assert (Hpos : (0 < 2 ^ d)%nat) by (apply Nat.neq_0_lt_0, Nat.pow_nonzero; lia).
    rewrite (proj2 (Nat.ltb_lt 1 (length idxs))) by lia.
    replace (length idxs / 2)%nat with (2 ^ d)%nat by (rewrite Hl, Hp, Nat.mul_comm, Nat.div_mul; lia).
    set (l := take (2 ^ d) idxs). set (r := drop (2 ^ d) idxs).
    assert (Hll : length l = (2 ^ d)%nat) by (unfold l; rewrite length_take; lia).
    assert (Hlr : length r = (2 ^ d)%nat) by (unfold r; rewrite length_drop; lia).
    assert (Hidx : idxs = l ++ r) by (symmetry; apply take_drop).
    destruct l as [|i l'] eqn:El; [simpl in Hll; lia|]. destruct r as [|j r'] eqn:Er; [simpl in Hlr; lia|].
    cbn [wagner]. fold l r. rewrite El, Er. rewrite bind_Ok.
    assert (Hw : forall a b, tree_validator fuel p state (i :: l') = Ok a ->
      tree_validator fuel p state (j :: r') = Ok b ->
      (_ ← validate_subtrees p a b; Ok (from_children a b cbl)) = Ok node <->
      node = wagner_node leaf len cbl (S d) idxs /\ i < j
      /\ vanishes (S d * cbl) (xor_leaves leaf len idxs)
      /\ (forall x, x ∈ i :: l' -> x ∈ j :: r' -> False)).
    { intros a b Ha Hb. apply IH in Ha as (->&Wl&Nl), Hb as (->&Wr&Nr); [|lia..].
      rewrite bind_Ok. rewrite Hidx. split.
      - intros ([]&Hv&[= <-]). apply (validate_subtrees_spec d _ _ i j) in Hv as (?&?&?); try done.
        rewrite from_children_node by done. done.
      - intros (->&Hij&Hv&Hx). exists tt. split.
        + apply (validate_subtrees_spec d _ _ i j); done.
        + by rewrite from_children_node. }
    split.
    + intros (a&Ha&E). rewrite bind_Ok in E. destruct E as (b&Hb&E).
      apply (Hw a b) in E as (->&Hij&Hv&Hx); [|done..].
      apply IH in Ha as (_&Wl&Nl), Hb as (_&Wr&Nr); [|lia..].
      split_and!; [done|done|done| |done|].
      * intros ? ? [= <-] [= <-]. done.
      * rewrite Hidx. apply NoDup_app. split_and!; [done| |done]. intros x Hxl Hxr. by apply (Hx x).
    + intros (->&(Wl&Wr&Hij&Hv)&Hnd). rewrite Hidx in Hnd. apply NoDup_app in Hnd as (Nl&Hx&Nr).
      exists (wagner_node leaf len cbl d (i :: l')). split; [apply IH; [lia|lia|done]|].
      apply bind_Ok. exists (wagner_node leaf len cbl d (j :: r')). split; [apply IH; [lia|lia|done]|].
      apply Hw; [apply IH; [lia|lia|done]..|]. split_and!; [done|by apply Hij|done|].
      intros x H1 H2. by apply (Hx x).
Qed.
End tree.

(** ** The parameter sets of the network *)
Definition supported_params : list (nat * nat) := [(200, 9); (144, 5); (96, 5); (125, 4); (48, 5)]%nat.

Lemma length_read_u32s_be fuel csr :
  (length csr <= fuel)%nat -> length (read_u32s_be fuel csr) = (length csr / 4)%nat.
Proof.
  revert csr; induction fuel as [|fuel IH]; intros csr Hf; cbn [read_u32s_be].
  { by destruct csr; [|simpl in Hf; lia]. }
  destruct (Nat.ltb_spec (length csr) 4); [by rewrite Nat.div_small|].
  cbn [length]. rewrite IH; rewrite length_drop; [|lia].
  replace (length csr) with (length csr - 4 + 1 * 4)%nat at 2 by lia.
  rewrite Nat.div_add by lia. lia.
Qed.

Lemma supported_indices n k p minimal idxs :
  (n, k) ∈ supported_params -> Params_new n k = Some p ->
  indices_from_minimal p minimal = Some idxs -> length idxs = (2 ^ k)%nat.
Proof.
  intros Hs Hp. unfold indices_from_minimal.
  destruct (Nat.eqb_spec (length minimal) (2 ^ p_k p * (collision_bit_length p + 1) / 8)) as [E|];
    cbn [negb]; [|done].
  intros [= <-]. rewrite length_read_u32s_be by done.
  rewrite length_expand_array, E by lia. revert Hs Hp. clear.
  intros Hs. repeat (apply elem_of_cons in Hs as [[= -> ->]|Hs]; [intros [= <-]; vm_compute; reflexivity|]).
  by apply elem_of_nil in Hs.
Qed.

Section leaves.
  Context {B : Blake2b} {L : Blake2bLaws B}.

Lemma length_generate_hash p state i :
  bs_len state = hash_output p -> (hash_output p <= 64)%nat ->
  length (generate_hash state i p) = hash_output p.
Proof.
  intros Hs Hh. unfold generate_hash. destruct (negb _).
  - rewrite length_take, Nat.min_l; [done|]. unfold finalize, update; cbn [bs_len bs_personal bs_message].
    destruct (blake2b_array (bs_len state) (bs_personal state) (bs_message state ++ le_bytes 4 i)); lia.
  - rewrite length_imap, length_take, length_app, length_zeros. lia.
Qed.

Lemma supported_leaf n k p state i :
  (n, k) ∈ supported_params -> Params_new n k = Some p -> bs_len state = hash_output p ->
  length (leaf_hash p state i) = ((k + 1) * collision_byte_length p)%nat.
Proof.
  intros Hs Hp Hb.
  assert (Hnum : (0 < collision_bit_length p)%nat /\ (hash_output p <= 64)%nat
    /\ (0 < indices_per_hash_output p)%nat
    /\ (indices_per_hash_output p * div_ceil (p_n p) 8 = hash_output p)%nat
    /\ (8 * (div_ceil (collision_bit_length p) 8 + 0) * div_ceil (p_n p) 8 / collision_bit_length p
        = (k + 1) * collision_byte_length p)%nat).
  { revert Hp. clear - Hs. repeat (apply elem_of_cons in Hs as [[= -> ->]|Hs]; [intros [= <-]; vm_compute; lia|]).
    by apply elem_of_nil in Hs. }
  destruct Hnum as (Hc&Ho&Hper&Hsz&Hout).
  unfold leaf_hash. rewrite length_expand_array by done.
  rewrite length_slice; [by replace (_ + _ - _)%nat with (div_ceil (p_n p) 8) by lia|lia|].
  rewrite length_generate_hash by done.
  pose proof (Z.mod_pos_bound i (Z.of_nat (indices_per_hash_output p)) ltac:(lia)).
  rewrite <- Hsz. nia.
Qed.

Lemma tree_validator_not_panic fuel p state idxs :
  (0 < length idxs <= fuel)%nat -> tree_validator fuel p state idxs <> Panic.
Proof.
  revert idxs; induction fuel as [|fuel IH]; intros idxs Hl; [lia|]. cbn [tree_validator].
  destruct (Nat.ltb_spec 1 (length idxs)).
  - assert (0 < length idxs / 2 < length idxs)%nat.
    { split; [apply Nat.div_str_pos; lia|apply Nat.div_lt; lia]. }
    destruct (tree_validator fuel p state (take _ _)) as [a|e|] eqn:Ea; [|done|].
    2:{ exfalso. revert Ea. apply IH. rewrite length_take. lia. }
    destruct (tree_validator fuel p state (drop _ _)) as [b|e|] eqn:Eb; [|done|].
    2:{ exfalso. revert Eb. apply IH. rewrite length_drop. lia. }
    cbn [mbind result_bind]. unfold validate_subtrees. by repeat case_match.
  - destruct idxs; [simpl in *; lia|]. done.
Qed.

Lemma is_zero_root k h cbl len :
  length h = ((k + 1) * cbl)%nat -> len = length h ->
  forallb (fun v => v =? 0) (take cbl (drop (k * cbl) h)) = true /\ vanishes (k * cbl) h
  <-> h = zeros len.
Proof.
  intros Hl ->. assert (Hv : vanishes (k * cbl + cbl) h <-> h = zeros (length h)).
  { unfold vanishes. rewrite firstn_all2 by lia. clear. induction h as [|x h IH]; [done|].
    unfold zeros in *. cbn [length replicate]. rewrite Forall_cons, IH. split; [intros [-> E]; by f_equal|by intros [= -> E]]. }
  rewrite <- Hv, vanishes_split, forallb_forall, Forall_forall.
  split; intros [H1 H2].
  - split; [done|]. intros x Hx. apply Z.eqb_eq, H1. by apply list_elem_of_In.
  - split; [|done]. intros x Hx. apply Z.eqb_eq, H2. by apply list_elem_of_In.
Qed.

(** ** Properties *)
Definition solution_state (p : Params) (input nonce : bytes) : BState :=
  update (update (initialise_state (p_n p) (p_k p) (hash_output p)) input) nonce.

(** A solution of the generalized birthday problem in Wagner's tree form:
    2^k distinct indices whose expanded hashes cancel to zero, in a tree that
    at every level has halves that start in increasing order and cancel on one
    more group of bits. *)
Definition wagner_solution (n k : nat) (input nonce soln : bytes) : Prop :=
  exists p idxs,
    Params_new n k = Some p /\ indices_from_minimal p soln = Some idxs
    /\ length idxs = (2 ^ k)%nat /\ NoDup idxs
    /\ let cbl := collision_byte_length p in
       let len := ((k + 1) * cbl)%nat in
       let leaf := leaf_hash p (solution_state p input nonce) in
       wagner leaf len cbl k idxs /\ xor_leaves leaf len idxs = zeros len.

Lemma is_valid_solution_spec n k input nonce soln :
  (n, k) ∈ supported_params ->
  is_valid_solution n k input nonce soln <> Panic /\
  (is_valid_solution n k input nonce soln = Ok () <-> wagner_solution n k input nonce soln).
Proof.
  intros Hs. unfold is_valid_solution, wagner_solution. destruct (Params_new n k) as [p|] eqn:Hp; cbn [ok_or mbind result_bind].
  2:{ split; [done|split; [done|by intros (?&?&?&_)]]. }
  destruct (indices_from_minimal p soln) as [idxs|] eqn:Hi; cbn [ok_or mbind result_bind].
  2:{ split; [done|split; [done|intros (?&?&[= <-]&?&_); congruence]]. }
  pose proof (supported_indices _ _ _ _ _ Hs Hp Hi) as Hlen.
  assert (Hpos : (0 < 2 ^ k)%nat) by (apply Nat.neq_0_lt_0, Nat.pow_nonzero; lia).
  pose proof (Nat.pow_gt_lin_r 2 k ltac:(lia)) as Hk.
  fold (solution_state p input nonce). set (st := solution_state p input nonce).
  set (len := ((k + 1) * collision_byte_length p)%nat).
  assert (Hleaf : forall i, length (leaf_hash p st i) = len) by (intros; by apply (supported_leaf n k)).
  pose proof (tree_validator_spec p st len Hleaf k (S (length idxs)) idxs) as Hspec.
  pose proof (tree_validator_not_panic (S (length idxs)) p st idxs ltac:(lia)) as Hnp.
  split.
  { destruct (tree_validator _ p st idxs); cbn [mbind result_bind]; [by destruct (is_zero _ _)|done|done]. }
  pose proof (length_xor_leaves _ len Hleaf idxs) as Hx.
  pose proof (is_zero_root k _ (collision_byte_length p) len Hx (eq_sym Hx)) as Hroot.
  rewrite bind_Ok. split.
  - intros (root&Hr&E). apply Hspec in Hr as (->&Hw&Hnd); [|lia..].
    exists p, idxs. split_and!; try done.
    apply Hroot. split; [|by apply wagner_vanishes].
    unfold is_zero, wagner_node in E; cbn [node_hash] in E. by destruct (forallb _ _).
  - intros (p'&idxs'&[= <-]&Hi'&_&Hnd&Hw&Hz). assert (idxs' = idxs) as -> by congruence.
    exists (wagner_node (leaf_hash p st) len (collision_byte_length p) k idxs).
    split; [by apply Hspec; [lia|lia|]|].
    apply Hroot in Hz as [Hz _].
    unfold is_zero, wagner_node; cbn [node_hash]. by rewrite Hz.
Qed.

(** The Equihash verifier decides the generalized birthday problem.  For
    each parameter set of the network it never aborts, and it accepts a
    solution exactly when the solution unpacks to 2^k distinct indices whose
    expanded hashes cancel to zero and which form Wagner's tree: at every
    level the two halves start in increasing order and cancel on one more
    group of bits. *)
Theorem equihash_accepts_iff_wagner (n k : nat) (input nonce soln : bytes)
    (Hs : (n, k) ∈ supported_params) :
  is_valid_solution n k input nonce soln <> Panic /\
  (is_valid_solution n k input nonce soln = Ok () <-> wagner_solution n k input nonce soln).
Proof. by apply is_valid_solution_spec. Qed.
End leaves.

(** A toy digest under which every two leaves collide. *)
#[global] Instance toy_blake2b : Blake2b := {| blake2b n _ _ := zeros n |}.
#[global] Instance toy_blake2b_laws : Blake2bLaws toy_blake2b.
Proof. split. intros n p m _. apply array_zeros. Qed.

(** The indices 0 to 31 packed in 9 bits each. *)
Definition sample_solution : bytes :=
  be_bytes 36 (foldl (fun acc i => acc * 512 + i) 0 (seqZ 0 32)).

Lemma equihash_accepts_iff_wagner_witness :
  is_valid_solution 48 5 [1] [2] sample_solution <> Panic /\
  (is_valid_solution 48 5 [1] [2] sample_solution = Ok ()
   <-> wagner_solution 48 5 [1] [2] sample_solution).
Proof. apply equihash_accepts_iff_wagner. vm_compute. tauto || set_solver. Defined.

Example sample_solution_accepted : is_valid_solution 48 5 [1] [2] sample_solution = Ok ().
Proof. vm_compute. reflexivity. Qed.
Example repeated_index_refused :
  is_valid_solution 48 5 [1] [2] (zeros 36) = Err DuplicateIdxs.
Proof. vm_compute. reflexivity. Qed.
