(* ===== verification/Pow.v ===== *)
(** * Proof-of-work headers ([pow/src/validation.rs], [pow/src/equihash.rs]) *)

From S2P Require Import Prelude Encoding Hashing Transaction Block Consensus Difficulty Equihash.
From Stdlib Require Import ZArith Lia.
From stdpp Require Import base list option numbers strings.
#[local] Open Scope Z_scope.

Inductive EquihashError :=
| MissingSolution | UnsupportedSolutionSize | DisallowedParameters | InvalidSolution.

Inductive PowError :=
| PowInvalidHeader (message : string)
| InvalidBits (message : string)
| HashMismatch
| Equihash (error : EquihashError)
| PowCompact (error : CompactError).

Definition params_from_solution_size (size : nat) : option EquihashParams :=
  if Nat.eqb size 1344 then Some (mkEquihash 200 9 1344)
  else if Nat.eqb size 100 then Some (mkEquihash 144 5 100)
  else if Nat.eqb size 68 then Some (mkEquihash 96 5 68)
  else if Nat.eqb size 52 then Some (mkEquihash 125 4 52)
  else if Nat.eqb size 36 then Some (mkEquihash 48 5 36)
  else None.

(** Around each change of parameters both sets are allowed for the fade
    length. *)
Definition allowed_params_for_height (height : Z) (params : ConsensusParams) : list EquihashParams :=
  let current_height := Z.max height 0 in
  let modified_height := current_height - wrap_i32 (eh_epoch_fade_length params) in
  let modified_height := if modified_height <? 0 then 0 else modified_height in
  if network_upgrade_active modified_height (upgrades params) Kamiooka then [eh_epoch_3 params]
  else if network_upgrade_active current_height (upgrades params) Kamiooka then
    [eh_epoch_3 params; eh_epoch_2 params]
  else if network_upgrade_active modified_height (upgrades params) Equi144_5 then [eh_epoch_2 params]
  else if network_upgrade_active current_height (upgrades params) Equi144_5 then
    [eh_epoch_2 params; eh_epoch_1 params]
  else [eh_epoch_1 params].

Definition equihash_input_bytes (header : BlockHeader) : bytes :=
  write_i32_le (bh_version header) ++ write_hash_le (prev_block header)
  ++ write_hash_le (merkle_root header) ++ write_hash_le (final_sapling_root header)
  ++ write_u32_le (time header) ++ write_u32_le (bits header).

Definition hash_to_le_bytes (hash : Hash256) : bytes := hash.

Section pow.
  Context {H : Hashes} {B : Blake2b} {U : U256Ops}.

(** The dump of a failed solution to a file is left out. *)
Definition validate_equihash_solution (header : BlockHeader) (height : Z) (params : ConsensusParams)
    : result EquihashError () :=
  if is_nil (solution header) then Err MissingSolution
  else
    solution_params ← ok_or (params_from_solution_size (length (solution header)))
                        UnsupportedSolutionSize;
    let allowed := allowed_params_for_height height params in
    if negb (bool_decide (solution_params ∈ allowed)) then Err DisallowedParameters
    else
      match is_valid_solution (Z.to_nat (eh_n solution_params)) (Z.to_nat (eh_k solution_params))
              (equihash_input_bytes header) (hash_to_le_bytes (nonce header)) (solution header) with
      | Ok _ => Ok ()
      | Err _ => Err InvalidSolution
      | Panic => Panic
      end.

Definition validate_pow_header (header : BlockHeader) (height : Z) (params : ConsensusParams)
    : result PowError () :=
  if is_pon header then Err (PowInvalidHeader "pow validation on pon header")
  else
    target ← map_err PowCompact (compact_to_u256 (bits header));
    if target =? 0 then Err (InvalidBits "pow target is zero")
    else
      let pow_limit := u256_from_little_endian (pow_limit params) in
      if target >? pow_limit then Err (InvalidBits "pow target above limit")
      else
        let hash_bytes := header_hash header in
        let hash_value := u256_from_little_endian hash_bytes in
        if hash_value >? target then Err HashMismatch
        else if (height =? 0) && bool_decide (prev_block header = zeros 32)
                && bool_decide (hash_bytes = hash_genesis_block params)
        then Ok ()
        else map_err Equihash (validate_equihash_solution header height params).
End pow.

Lemma solution_size_supported size sp :
  params_from_solution_size size = Some sp ->
  (Z.to_nat (eh_n sp), Z.to_nat (eh_k sp)) ∈ supported_params.
Proof.
  unfold params_from_solution_size, supported_params.
  repeat match goal with |- (if ?b then _ else _) = _ -> _ => destruct b end;
    intros E; simplify_eq; cbn; repeat constructor.
Qed.

Section accept.
  Context {H : Hashes} {L : HashesLaws H} {B : Blake2b} {BL : Blake2bLaws B} {U : U256Ops} {UL : U256Laws U}.

Lemma compact_to_u256_not_panic b : compact_to_u256 b <> Panic.
Proof. unfold compact_to_u256. by repeat case_match. Qed.

Lemma network_pow_limit net :
  array 32 (pow_limit (consensus_params net)).
Proof. destruct net; by_decide. Qed.

Lemma work_bound h t : 0 <= t -> h <= t -> (h + 1) * (2 ^ 256 / (t + 1)) <= 2 ^ 256.
Proof.
  intros Ht Hh. pose proof (Z.mul_div_le (2 ^ 256) (t + 1) ltac:(lia)).
  pose proof (Z.div_pos (2 ^ 256) (t + 1) ltac:(lia) ltac:(lia)). nia.
Qed.

Definition is_genesis (header : BlockHeader) (height : Z) (params : ConsensusParams) : Prop :=
  height = 0 /\ prev_block header = zeros 32 /\ header_hash header = hash_genesis_block params.

(** The header carries a Wagner solution with parameters allowed at its
    height. *)
Definition equihash_solved (header : BlockHeader) (height : Z) (params : ConsensusParams) : Prop :=
  exists sp, params_from_solution_size (length (solution header)) = Some sp
    /\ sp ∈ allowed_params_for_height height params
    /\ wagner_solution (Z.to_nat (eh_n sp)) (Z.to_nat (eh_k sp)) (equihash_input_bytes header)
         (nonce header) (solution header).

Lemma validate_equihash_spec header height params :
  validate_equihash_solution header height params <> Panic
  /\ (validate_equihash_solution header height params = Ok () <-> equihash_solved header height params).
Proof.
  unfold validate_equihash_solution, equihash_solved, hash_to_le_bytes.
  destruct (solution header) as [|b sol] eqn:Hsol.
  { split; [done|]. split; [done|]. by intros (sp&[=]&_). }
  cbn [is_nil]. rewrite <- Hsol.
  destruct (params_from_solution_size _) as [sp|] eqn:Hsp; cbn [ok_or mbind result_bind].
  2:{ split; [done|]. split; [done|by intros (?&[=]&_)]. }
  destruct (is_valid_solution_spec (Z.to_nat (eh_n sp)) (Z.to_nat (eh_k sp))
    (equihash_input_bytes header) (nonce header) (solution header)
    (solution_size_supported _ _ Hsp)) as [Hnp Hiff].
  case_bool_decide as Hall; cbn [negb].
  - destruct (is_valid_solution _ _ _ _ _) as [[]|e|]; [..|done].
    + split; [done|]. split; [|done]. intros _. exists sp. split_and!; [done|done|by apply Hiff].
    + split; [done|]. split; [done|]. intros (sp'&[= <-]&_&Hw). by apply Hiff in Hw.
  - split; [done|]. split; [done|]. by intros (sp'&[= <-]&Hin&_).
Qed.

(** A header is accepted as proof of work exactly when it is one.  On
    every network validation never aborts; it accepts a header iff it is not
    a proof-of-node header, its bits decode to a positive target within the
    network's limit, its hash is at most the target, and it either is the
    genesis header or carries a Wagner solution for parameters allowed at its
    height.  In particular the hash is as rare as the work the header is
    credited with: (hash + 1) * work <= 2^256. *)
Theorem pow_header_accepted_iff (net : Network) (header : BlockHeader) (height : Z)
    (Hb : is_u32 (bits header)) :
  let params := consensus_params net in
  validate_pow_header header height params <> Panic
  /\ (validate_pow_header header height params = Ok () <->
      is_pon header = false
      /\ exists target work,
           compact_to_u256 (bits header) = Ok target
           /\ 0 < target <= from_le (pow_limit params)
           /\ from_le (header_hash header) <= target
           /\ block_proof (bits header) = Ok work
           /\ (from_le (header_hash header) + 1) * work <= 2 ^ 256
           /\ (is_genesis header height params \/ equihash_solved header height params)).
Proof.
  intros params. unfold validate_pow_header.
  destruct (is_pon header); [split; [done|split; [done|by intros [[=] _]]]|].
  destruct (compact_to_u256 (bits header)) as [t|e|] eqn:Ht; cbn [map_err mbind result_bind].
  2:{ split; [done|split; [done|by intros (_&?&?&[=]&_)]]. }
  2:{ by apply compact_to_u256_not_panic in Ht. }
  rewrite (u256_from_le_spec _ (network_pow_limit net)). fold params.
  rewrite (u256_from_le_spec (header_hash header)) by apply sha256d_array.
  pose proof (compact_to_u256_range _ _ Hb Ht) as Hr.
  destruct (Z.eqb_spec t 0) as [->|Hne].
  { split; [done|split; [done|]]. intros (_&t'&w&[= <-]&[? _]&_). lia. }
  rewrite !Z.gtb_ltb. destruct (Z.ltb_spec (from_le (pow_limit params)) t) as [Hlt|Hle].
  { split; [done|split; [done|]]. intros (_&t'&w&[= <-]&[_ ?]&_). lia. }
  destruct (Z.ltb_spec t (from_le (header_hash header))) as [Hh|Hh].
  { split; [done|split; [done|]]. intros (_&t'&w&[= <-]&_&?&_). lia. }
  pose proof (block_proof_eq _ _ Hb Ht ltac:(lia)) as Hw.
  pose proof (work_bound (from_le (header_hash header)) t ltac:(lia) Hh) as Hwork.
  assert (Hiff : forall P : Prop, (is_genesis header height params \/ equihash_solved header height params <-> P) ->
    (P <-> false = false /\ exists target work, Ok (E:=CompactError) t = Ok target
       /\ 0 < target <= from_le (pow_limit params) /\ from_le (header_hash header) <= target
       /\ block_proof (bits header) = Ok work /\ (from_le (header_hash header) + 1) * work <= 2 ^ 256
       /\ (is_genesis header height params \/ equihash_solved header height params))).
  { intros P <-. split; [|by intros (_&?&?&_&_&_&_&_&?)].
    intros Hg. split; [done|]. exists t, (2 ^ 256 / (t + 1)). split_and!; try done; lia. }
  destruct (validate_equihash_spec header height params) as [Hnp Hsol].
  destruct (_ && _ && _) eqn:Hg.
  - split; [done|]. apply Hiff. split; [done|]. intros _. left.
    apply andb_true_iff in Hg as [Hg Hg3]. apply andb_true_iff in Hg as [Hg1 Hg2].
    apply Z.eqb_eq in Hg1. apply bool_decide_eq_true in Hg2, Hg3. done.
  - split; [by apply map_err_not_panic|]. apply Hiff. rewrite map_err_Ok, Hsol.
    split; [intros [(?&?&?)|?]; [|done]|by right].
    rewrite (proj2 (Z.eqb_eq height 0)), !bool_decide_true in Hg by done. done.
Qed.
End accept.

(** A main network header with the indices 0 to 15 packed in 26 bits each; the
    toy digests are below 2^160. *)
Definition sample_pow_solution : bytes :=
  be_bytes 52 (foldl (fun acc i => acc * 2 ^ 26 + i) 0 (seqZ 0 16)).
Definition sample_pow_header : BlockHeader :=
  mkBlockHeader 4 (zeros 32) (zeros 32) (zeros 32) 1600000000 0x1e00ffff (zeros 32)
    sample_pow_solution OutPoint_null [].

Lemma pow_header_accepted_iff_witness :
  let params := consensus_params Mainnet in
  let header := sample_pow_header in
  validate_pow_header header 900000 params <> Panic
  /\ (validate_pow_header header 900000 params = Ok () <->
      is_pon header = false
      /\ exists target work,
           compact_to_u256 (bits header) = Ok target
           /\ 0 < target <= from_le (pow_limit params)
           /\ from_le (header_hash header) <= target
           /\ block_proof (bits header) = Ok work
           /\ (from_le (header_hash header) + 1) * work <= 2 ^ 256
           /\ (is_genesis header 900000 params \/ equihash_solved header 900000 params)).
Proof. apply (pow_header_accepted_iff Mainnet sample_pow_header 900000). by_decide. Defined.

Example sample_pow_header_accepted :
  validate_pow_header sample_pow_header 900000 (consensus_params Mainnet) = Ok ().
Proof. vm_compute. reflexivity. Qed.
