(* ===== verification/Pon.v ===== *)
(** * Proof-of-node headers ([pon/src/slot.rs], [pon/src/validation.rs]) *)

From S2P Require Import Prelude Encoding Hashing Transaction Block Consensus Difficulty Sighash Script.
From Stdlib Require Import ZArith Lia.
From stdpp Require Import base list option numbers strings gmap sets.
#[local] Open Scope Z_scope.

Inductive PonError := InvalidHeader (message : string).
#[global] Instance PonError_eq_dec : EqDecision PonError.
Proof. solve_decision. Defined.

(** [i64] subtraction; the spacing is a positive constant of each network. *)
Definition get_slot_number (timestamp genesis_time : Z) (params : ConsensusParams) : Z :=
  let time_since_genesis := timestamp - genesis_time in
  if time_since_genesis <=? 0 then 0
  else wrap_u32 (Z.quot time_since_genesis (pon_target_spacing params)).

(** ** Hexadecimal keys *)

(** A digit as [u8::from_str_radix(_, 16)] reads it. *)
Definition hex_digit (c : Z) : option Z :=
  if (48 <=? c) && (c <=? 57) then Some (c - 48)
  else if (97 <=? c) && (c <=? 102) then Some (c - 87)
  else if (65 <=? c) && (c <=? 70) then Some (c - 55)
  else None.

(** Two characters; a leading plus sign is allowed by [from_str_radix]. *)
Definition hex_pair (a b : Z) : option Z :=
  if a =? 43 then hex_digit b
  else h ← hex_digit a; l ← hex_digit b; Some (16 * h + l).

Fixpoint hex_pairs (hex : bytes) : option bytes :=
  match hex with
  | [] => Some []
  | a :: b :: hex => byte ← hex_pair a b; rest ← hex_pairs hex; Some (byte :: rest)
  | [_] => None
  end.

Definition is_space (c : Z) : bool := (c =? 32) || ((9 <=? c) && (c <=? 13)).
Fixpoint trim_start (s : bytes) : bytes :=
  match s with c :: s' => if is_space c then trim_start s' else s | [] => [] end.
Definition trim (s : bytes) : bytes := rev (trim_start (rev (trim_start s))).

(** [hex_to_bytes] of an ASCII string. *)
Definition hex_to_bytes (input : bytes) : result PonError bytes :=
  let hex := trim input in
  let hex := if starts_with hex [48; 120] || starts_with hex [48; 88] then drop 2 hex else hex in
  ok_or (hex_pairs hex) (InvalidHeader "invalid hex pubkey").

(** ** Signatures of an emergency block *)
Definition decode_multisig (bs : bytes) : result PonError (list bytes) :=
  r ← map_err (fun _ => InvalidHeader "invalid emergency signature count") (read_count (new_decoder bs));
  let '(count, decoder) := r in
  r ← map_err (fun _ => InvalidHeader "invalid emergency signature")
        (read_n count read_var_bytes decoder);
  let '(sigs, decoder) := r in
  if negb (is_empty decoder) then Err (InvalidHeader "trailing bytes in emergency signatures")
  else Ok sigs.

Definition TESTNET_BYPASS_HASH : Hash256 :=
  Eval vm_compute in hash256_hex 0x544553544e4f4400000000000000000000000000000000000000000000000000.

Section pon.
  Context {H : Hashes} {S256 : Secp} {U : U256Ops}.

Definition pon_hash (collateral : OutPoint) (prev_block_hash : Hash256) (slot : Z) : Hash256 :=
  sha256d (consensus_encode collateral ++ write_hash_le prev_block_hash ++ write_u32_le slot).

Definition is_emergency_block (header : BlockHeader) (params : ConsensusParams) : bool :=
  is_pon header
  && bool_decide (Transaction.hash (nodes_collateral header) = collateral_hash (emergency params))
  && (op_index (nodes_collateral header) =? 0).

Definition is_testnet_bypass (header : BlockHeader) (params : ConsensusParams) : bool :=
  if bool_decide (network params <> Testnet) && bool_decide (network params <> Regtest) then false
  else bool_decide (Transaction.hash (nodes_collateral header) = TESTNET_BYPASS_HASH)
       && (op_index (nodes_collateral header) =? 0).

Definition pon_activation (params : ConsensusParams) : Z :=
  activation_height (upgrade_at (upgrades params) Pon).

Definition is_emergency_allowed (height : Z) (params : ConsensusParams) : bool :=
  height >=? pon_activation params.

Definition check_proof_of_node (hash : Hash256) (bits height : Z) (params : ConsensusParams)
    : result PonError () :=
  if bool_decide (network params = Regtest) then Ok ()
  else
    target ← map_err (fun _ => InvalidHeader "invalid pon target") (compact_to_u256 bits);
    if target =? 0 then Err (InvalidHeader "pon target is zero")
    else
      let limit := u256_from_little_endian (pon_limit params) in
      let start := u256_from_little_endian (pon_start_limit params) in
      let max_target :=
        if height >? 0 then
          if height >=? wrap_i32 (pon_activation params + wrap_i32 (pon_difficulty_window params))
          then limit else start
        else if limit >? start then limit else start in
      if target >? max_target then Err (InvalidHeader "pon target above limit")
      else
        let hash_value := u256_from_little_endian hash in
        if hash_value >? target then Err (InvalidHeader "pon hash does not meet target")
        else Ok ().

(** Keys that do not parse are skipped, malformed hexadecimal is an error. *)
Fixpoint parse_emergency_keys (keys : list string) : result PonError (list PublicKey) :=
  match keys with
  | [] => Ok []
  | key :: keys =>
      bs ← hex_to_bytes (ascii_bytes key);
      rest ← parse_emergency_keys keys;
      Ok (match PublicKey_from_slice bs with Some pubkey => pubkey :: rest | None => rest end)
  end.
Definition parse_emergency_pubkeys (params : ConsensusParams) : result PonError (list PublicKey) :=
  parse_emergency_keys (public_keys (emergency params)).

(** The inner loop: the first unused key that verifies the signature. *)
Fixpoint first_match (msg : Hash256) (sig : Signature) (used_keys : gset nat) (idx : nat)
    (pubkeys : list PublicKey) : option nat :=
  match pubkeys with
  | [] => None
  | pubkey :: pubkeys =>
      if bool_decide (idx ∈ used_keys) then first_match msg sig used_keys (S idx) pubkeys
      else if verify_ecdsa msg sig pubkey then Some idx
      else first_match msg sig used_keys (S idx) pubkeys
  end.

Fixpoint emergency_loop (msg : Hash256) (pubkeys : list PublicKey) (min_required : nat)
    (signatures : list bytes) (used_keys : gset nat) (valid : nat) : bool :=
  match signatures with
  | [] => false
  | sig :: signatures =>
      match from_der sig with
      | None => emergency_loop msg pubkeys min_required signatures used_keys valid
      | Some sig =>
          let '(used_keys, valid) :=
            match first_match msg sig used_keys 0 pubkeys with
            | Some idx => ({[idx]} ∪ used_keys, S valid)
            | None => (used_keys, valid)
            end in
          if Nat.leb min_required valid then true
          else emergency_loop msg pubkeys min_required signatures used_keys valid
      end
  end.

Definition validate_emergency_signatures (header : BlockHeader) (params : ConsensusParams)
    : result PonError () :=
  signatures ← decode_multisig (block_sig header);
  let min_required := Z.to_nat (Z.max (min_signatures (emergency params)) 0) in
  if Nat.ltb (length signatures) min_required then
    Err (InvalidHeader "emergency block has insufficient signatures")
  else if bool_decide (network params = Regtest) then Ok ()
  else
    pubkeys ← parse_emergency_pubkeys params;
    if is_nil pubkeys then Err (InvalidHeader "emergency block missing valid pubkeys")
    else if negb (Nat.eqb (length (header_hash header)) 32) then
      Err (InvalidHeader "invalid emergency block hash")
    else if emergency_loop (header_hash header) pubkeys min_required signatures ∅ 0 then Ok ()
    else Err (InvalidHeader "emergency block signature verification failed").

Definition validate_pon_header (header : BlockHeader) (height : Z) (params : ConsensusParams)
    : result PonError () :=
  if bool_decide (nodes_collateral header = OutPoint_null) then
    Err (InvalidHeader "pon header missing collateral outpoint")
  else if is_nil (block_sig header) then Err (InvalidHeader "pon header missing signature")
  else if is_emergency_block header params then
    if negb (is_emergency_allowed height params) then Err (InvalidHeader "emergency block not allowed")
    else validate_emergency_signatures header params
  else
    let slot := get_slot_number (time header) (genesis_time params) params in
    let hash := pon_hash (nodes_collateral header) (prev_block header) slot in
    check_proof_of_node hash (bits header) height params.

Definition validate_pon_signature (header : BlockHeader) (params : ConsensusParams)
    (pubkey_bytes : bytes) : result PonError () :=
  if is_emergency_block header params || is_testnet_bypass header params then Ok ()
  else if is_nil (block_sig header) then Err (InvalidHeader "pon header missing signature")
  else
    pubkey ← ok_or (PublicKey_from_slice pubkey_bytes) (InvalidHeader "invalid pubkey");
    sig ← ok_or (from_der (block_sig header)) (InvalidHeader "invalid pon signature");
    if negb (Nat.eqb (length (header_hash header)) 32) then Err (InvalidHeader "invalid pon hash")
    else if verify_ecdsa (header_hash header) sig pubkey then Ok ()
    else Err (InvalidHeader "pon signature verification failed").
End pon.

Section accept.
  Context {H : Hashes} {L : HashesLaws H} {S256 : Secp} {U : U256Ops} {UL : U256Laws U}.

(** [quorum msg pubkeys sigs n]: at least [n] different keys have each signed
    [msg] with one of the signatures. *)
Definition key_signed (msg : Hash256) (pubkeys : list PublicKey) (sigs : list bytes) (i : nat) : Prop :=
  exists key der sig, pubkeys !! i = Some key /\ der ∈ sigs /\ from_der der = Some sig
    /\ verify_ecdsa msg sig key = true.
Definition quorum (msg : Hash256) (pubkeys : list PublicKey) (sigs : list bytes) (n : nat) : Prop :=
  exists used : gset nat, (n <= size used)%nat /\ forall i, i ∈ used -> key_signed msg pubkeys sigs i.

Lemma first_match_spec msg sig used pre keys i :
  first_match msg sig used (length pre) keys = Some i ->
  (i ∉ used) /\ exists key, (pre ++ keys) !! i = Some key /\ verify_ecdsa msg sig key = true.
Proof.
  revert pre; induction keys as [|key keys IH]; intros pre; cbn [first_match]; [done|].
  assert (Hnext : first_match msg sig used (S (length pre)) keys = Some i ->
    (i ∉ used) /\ exists key0, (pre ++ key :: keys) !! i = Some key0 /\ verify_ecdsa msg sig key0 = true).
  { intros E. specialize (IH (pre ++ [key])). rewrite length_app, Nat.add_1_r in IH.
    rewrite <- app_assoc in IH. by apply IH. }
  case_bool_decide; [exact Hnext|]. destruct (verify_ecdsa msg sig key) eqn:Hv; [|exact Hnext].
  intros [= <-]. split; [done|]. exists key. split; [|done].
  rewrite lookup_app_r, Nat.sub_diag by lia. done.
Qed.

Lemma emergency_loop_quorum msg keys min sigs0 sigs (used : gset nat) :
  (forall s, s ∈ sigs -> s ∈ sigs0) -> (forall i, i ∈ used -> key_signed msg keys sigs0 i) ->
  emergency_loop msg keys min sigs used (size used) = true -> quorum msg keys sigs0 min.
Proof.
  revert used; induction sigs as [|der sigs IH]; intros used Hs Hu; cbn [emergency_loop]; [done|].
  destruct (from_der der) as [sig|] eqn:Hd; [|apply IH; set_solver].
  destruct (first_match msg sig used 0 keys) as [i|] eqn:Hm.
  - apply (first_match_spec msg sig used [] keys i) in Hm as (Hi&key&Hk&Hv).
    assert (Hu' : forall j, j ∈ {[i]} ∪ used -> key_signed msg keys sigs0 j).
    { intros j Hj. apply elem_of_union in Hj as [->%elem_of_singleton|Hj]; [|by apply Hu].
      exists key, der, sig. split_and!; [done| |done|done]. apply Hs. left. }
    assert (Hsz : size ({[i]} ∪ used) = S (size used)).
    { rewrite size_union by set_solver. by rewrite size_singleton. }
    destruct (Nat.leb_spec min (S (size used))).
    + intros _. exists ({[i]} ∪ used). split; [lia|done].
    + rewrite <- Hsz. apply IH; [set_solver|done].
  - destruct (Nat.leb_spec min (size used)).
    + intros _. by exists used.
    + apply IH; [set_solver|done].
Qed.

(** The emergency keys of the network hold a quorum over the header's hash. *)
Definition emergency_quorum (header : BlockHeader) (params : ConsensusParams) : Prop :=
  exists sigs keys, decode_multisig (block_sig header) = Ok sigs
    /\ parse_emergency_pubkeys params = Ok keys
    /\ quorum (header_hash header) keys sigs (Z.to_nat (min_signatures (emergency params))).

(** The largest target a proof-of-node header may claim at a height. *)
Definition pon_max_target (height : Z) (params : ConsensusParams) : Z :=
  if height >? 0 then
    if height >=? wrap_i32 (pon_activation params + wrap_i32 (pon_difficulty_window params))
    then from_le (pon_limit params) else from_le (pon_start_limit params)
  else Z.max (from_le (pon_limit params)) (from_le (pon_start_limit params)).

(** The node whose collateral the header names is selected for its slot. *)
Definition node_selected (header : BlockHeader) (height : Z) (params : ConsensusParams) : Prop :=
  exists target, compact_to_u256 (bits header) = Ok target
    /\ 0 < target <= pon_max_target height params
    /\ from_le (pon_hash (nodes_collateral header) (prev_block header)
                 (get_slot_number (time header) (genesis_time params) params)) <= target.

Lemma network_pon_limits net :
  array 32 (pon_limit (consensus_params net)) /\ array 32 (pon_start_limit (consensus_params net)).
Proof. destruct net; split; by_decide. Qed.

Lemma check_proof_of_node_spec net hash b height :
  net <> Regtest -> is_u32 b -> array 32 hash ->
  let params := consensus_params net in
  check_proof_of_node hash b height params = Ok () <->
  exists target, compact_to_u256 b = Ok target
    /\ 0 < target <= pon_max_target height params /\ from_le hash <= target.
Proof.
  intros Hnet Hb Hh params. unfold check_proof_of_node.
  rewrite bool_decide_false by (by destruct net).
  destruct (network_pon_limits net) as [Hl Hs]. fold params in Hl, Hs.
  rewrite !u256_from_le_spec by done.
  replace (if from_le (pon_limit params) >? from_le (pon_start_limit params) then _ else _)
    with (Z.max (from_le (pon_limit params)) (from_le (pon_start_limit params)))
    by (rewrite Z.gtb_ltb; destruct (Z.ltb_spec (from_le (pon_start_limit params)) (from_le (pon_limit params))); lia).
  fold (pon_max_target height params).
  destruct (compact_to_u256 b) as [t|e|] eqn:Ht; cbn [map_err mbind result_bind].
  2,3: split; [done|by intros (?&[=]&_)].
  pose proof (compact_to_u256_range _ _ Hb Ht). rewrite !Z.gtb_ltb.
  destruct (Z.eqb_spec t 0); [split; [done|intros (?&[= <-]&?&_); lia]|].
  destruct (Z.ltb_spec (pon_max_target height params) t); [split; [done|intros (?&[= <-]&?&_); lia]|].
  destruct (Z.ltb_spec t (from_le hash)); [split; [done|intros (?&[= <-]&_&?); lia]|].
  split; [|done]. intros _. exists t. split_and!; (done || lia).
Qed.

Lemma emergency_signatures_quorum header net :
  net <> Regtest ->
  let params := consensus_params net in
  validate_emergency_signatures header params = Ok () -> emergency_quorum header params.
Proof.
  intros Hnet params. unfold validate_emergency_signatures, emergency_quorum. intros E.
  apply bind_Ok in E as (sigs&Hs&E). destruct (Nat.ltb _ _); [done|].
  rewrite bool_decide_false in E by (by destruct net).
  apply bind_Ok in E as (keys&Hk&E). destruct (is_nil keys); [done|]. destruct (negb _); [done|].
  destruct (emergency_loop _ _ _ _ _ _) eqn:El; [|done].
  exists sigs, keys. split_and!; [done|done|].
  replace (Z.max (min_signatures (emergency params)) 0) with (min_signatures (emergency params)) in El
    by (by destruct net).
  rewrite <- (size_empty (C := gset nat)) in El at 1.
  by apply (emergency_loop_quorum _ _ _ sigs) in El; [|done|set_solver].
Qed.

(** Who may produce a proof-of-node block.  On the main and the test
    network an accepted header names a collateral and carries a signature,
    and either it is an emergency header at or above the activation height,
    and then at least the required number of different emergency keys have
    each signed its hash, or the hash of its collateral, its parent and its
    slot is within the target its bits announce, which is positive and at
    most the limit for its height.  For the second kind these conditions are
    also sufficient. *)
Theorem pon_header_accepted (net : Network) (header : BlockHeader) (height : Z)
    (Hnet : net <> Regtest) (Hb : is_u32 (bits header)) :
  let params := consensus_params net in
  let named := nodes_collateral header <> OutPoint_null /\ block_sig header <> [] in
  (validate_pon_header header height params = Ok () ->
   named /\
   if is_emergency_block header params
   then pon_activation params <= height /\ emergency_quorum header params
   else node_selected header height params)
  /\ (is_emergency_block header params = false -> named -> node_selected header height params ->
      validate_pon_header header height params = Ok ()).
Proof.
  intros params named. unfold validate_pon_header, named.
  case_bool_decide as Hnull; [split; [done|by intros _ []]|].
  destruct (block_sig header) as [|x sig] eqn:Hsig; [split; [done|by intros _ []]|].
  cbn [is_nil].
  assert (Hsel : check_proof_of_node (pon_hash (nodes_collateral header) (prev_block header)
      (get_slot_number (time header) (genesis_time params) params)) (bits header) height params = Ok ()
      <-> node_selected header height params).
  { apply check_proof_of_node_spec; [done|done|apply sha256d_array]. }
  destruct (is_emergency_block header params); split; try done.
  - unfold is_emergency_allowed. rewrite Z.geb_leb. destruct (Z.leb_spec (pon_activation params) height); [|done].
    cbn [negb]. intros E. split; [done|]. split; [done|]. by apply emergency_signatures_quorum.
  - intros E. split; [done|by apply Hsel].
  - intros _ _ Hn. by apply Hsel.
Qed.
End accept.

(** An emergency header of the main network with two signatures of the toy
    curve, and a header of an ordinary node. *)
Definition sample_emergency_header : BlockHeader :=
  let key s := match hex_to_bytes (ascii_bytes s) with Ok k => k | _ => [] end in
  mkBlockHeader 100 (zeros 32) (zeros 32) (zeros 32) 1800000000 0x1e00ffff (zeros 32) []
    (mkOutPoint (collateral_hash mainnet_emergency_params) 0)
    (write_varint 2 ++ concat (map (fun s => write_var_bytes (key s)) (take 2 MAINNET_EMERGENCY_KEYS))).
Definition sample_pon_header : BlockHeader :=
  mkBlockHeader 100 (zeros 32) (zeros 32) (zeros 32) 1800000000 0x1e00ffff (zeros 32) []
    (mkOutPoint (replicate 32 7) 1) [1].

Example sample_emergency_is_emergency :
  is_emergency_block sample_emergency_header (consensus_params Mainnet) = true.
Proof. vm_compute. reflexivity. Qed.

Lemma pon_header_accepted_witness :
  let params := consensus_params Mainnet in
  ((nodes_collateral sample_emergency_header <> OutPoint_null /\ block_sig sample_emergency_header <> [])
   /\ if is_emergency_block sample_emergency_header params
      then pon_activation params <= 2100000 /\ emergency_quorum sample_emergency_header params
      else node_selected sample_emergency_header 2100000 params)
  /\ validate_pon_header sample_pon_header 2100000 params = Ok ().
Proof.
  intros params. split.
  - destruct (pon_header_accepted Mainnet sample_emergency_header 2100000) as [Hf _];
      [done|by_decide|]. apply Hf. vm_compute; reflexivity.
  - destruct (pon_header_accepted Mainnet sample_pon_header 2100000) as [_ Hs]; [done|by_decide|].
    apply Hs; [vm_compute; reflexivity|split; by_decide|].
    exists (0xffff * 2 ^ 216). split; [vm_compute; reflexivity|]. split; vm_compute; [split|]; easy.
Defined.
