(* ===== verification/Storage.v ===== *)
(** * Key-value storage ([storage/src/lib.rs], [storage/src/memory.rs])

    [KeyValueStore] is the interface the chain state is written against: the
    operations as a class, their meaning (a finite map from column and key to
    value) as the class of laws.  [MemoryStore] is the in-memory
    implementation and satisfies the laws. *)

From S2P Require Import Prelude.
From Stdlib Require Import ZArith Lia Sorted.
From stdpp Require Import base list option numbers strings gmap sets sorting.
#[local] Open Scope Z_scope.

Inductive StoreError := Backend (message : string).

Inductive Column :=
| BlockIndex | HeaderIndex | HeightIndex | BlockHeaderCol | TxIndex | SpentIndex | Utxo
| AnchorSprout | AnchorSapling | NullifierSprout | NullifierSapling | Fluxnode | FluxnodeKey
| AddressOutpoint | AddressDelta | TimestampIndex | BlockTimestamp | BlockUndoCol | Meta
| UnconnectedBlock.

#[global] Instance Column_eq_dec : EqDecision Column.
Proof. solve_decision. Defined.

(** [Column::ALL]. *)
Definition ALL_COLUMNS : list Column :=
  [BlockIndex; HeaderIndex; HeightIndex; BlockHeaderCol; TxIndex; SpentIndex; Utxo; AnchorSprout;
   AnchorSapling; NullifierSprout; NullifierSapling; Fluxnode; FluxnodeKey; AddressOutpoint;
   AddressDelta; TimestampIndex; BlockTimestamp; BlockUndoCol; Meta; UnconnectedBlock].

(** [Column::index]: the position of the column's bit. *)
Definition column_index (c : Column) : nat :=
  match c with
  | BlockIndex => 0 | HeaderIndex => 1 | HeightIndex => 2 | BlockHeaderCol => 3 | TxIndex => 4
  | SpentIndex => 5 | Utxo => 6 | AnchorSprout => 7 | AnchorSapling => 8 | NullifierSprout => 9
  | NullifierSapling => 10 | Fluxnode => 11 | FluxnodeKey => 12 | AddressOutpoint => 13
  | AddressDelta => 14 | TimestampIndex => 15 | BlockTimestamp => 16 | BlockUndoCol => 17
  | Meta => 18 | UnconnectedBlock => 19
  end.
Definition column_bit (c : Column) : Z := Z.shiftl 1 (Z.of_nat (column_index c)).

Definition column_as_str (c : Column) : string :=
  match c with
  | BlockIndex => "block_index" | HeaderIndex => "header_index" | HeightIndex => "height_index"
  | BlockHeaderCol => "block_header" | TxIndex => "tx_index" | SpentIndex => "spent_index"
  | Utxo => "utxo" | AnchorSprout => "anchor_sprout" | AnchorSapling => "anchor_sapling"
  | NullifierSprout => "nullifier_sprout" | NullifierSapling => "nullifier_sapling"
  | Fluxnode => "fluxnode" | FluxnodeKey => "fluxnode_key"
  | AddressOutpoint => "address_outpoint" | AddressDelta => "address_delta"
  | TimestampIndex => "timestamp_index" | BlockTimestamp => "block_timestamp"
  | BlockUndoCol => "block_undo" | Meta => "meta" | UnconnectedBlock => "unconnected_block"
  end.

#[global] Program Instance Column_countable : Countable Column :=
  inj_countable' column_index (fun n => default BlockIndex (ALL_COLUMNS !! n)) _.
Next Obligation. by intros []. Qed.

(** ** Batches *)
Inductive WriteOp :=
| Put (column : Column) (key value : bytes)
| Delete (column : Column) (key : bytes).

(** A [WriteBatch] is its list of operations, in the order they were added. *)
Definition WriteBatch : Type := list WriteOp.

Definition batch_put (batch : WriteBatch) (column : Column) (key value : bytes) : WriteBatch :=
  batch ++ [Put column key value].
Definition batch_delete (batch : WriteBatch) (column : Column) (key : bytes) : WriteBatch :=
  batch ++ [Delete column key].

(** ** The interface *)
Class KeyValueStore (S : Type) := {
  kv_get : S -> Column -> bytes -> result StoreError (option bytes);
  kv_put : S -> Column -> bytes -> bytes -> result StoreError S;
  kv_delete : S -> Column -> bytes -> result StoreError S;
  kv_scan_prefix : S -> Column -> bytes -> result StoreError (list (bytes * bytes));
  kv_write_batch : S -> WriteBatch -> result StoreError S }.

(** What a store holds. *)
Abbreviation Contents := (gmap (Column * bytes) bytes).

Definition apply_op (m : Contents) (op : WriteOp) : Contents :=
  match op with
  | Put column key value => <[(column, key) := value]> m
  | Delete column key => delete (column, key) m
  end.

(** The order of [Vec<u8>]. *)
Fixpoint bytes_le (a b : bytes) : bool :=
  match a, b with
  | [], _ => true
  | _ :: _, [] => false
  | x :: a, y :: b => if x <? y then true else if y <? x then false else bytes_le a b
  end.

Class KeyValueStoreLaws (S : Type) `{KeyValueStore S} := {
  contents : S -> Contents;
  kv_get_spec s c k : kv_get s c k = Ok (contents s !! (c, k));
  kv_put_spec s c k v :
    exists s', kv_put s c k v = Ok s' /\ contents s' = <[(c, k) := v]> (contents s);
  kv_delete_spec s c k : exists s', kv_delete s c k = Ok s' /\ contents s' = delete (c, k) (contents s);
  kv_write_batch_spec s batch :
    exists s', kv_write_batch s batch = Ok s' /\ contents s' = foldl apply_op (contents s) batch;
  kv_scan_prefix_spec s c p :
    exists entries, kv_scan_prefix s c p = Ok entries
      /\ StronglySorted (fun a b => bytes_le a.1 b.1 = true) entries /\ NoDup entries.*1
      /\ forall k v, (k, v) ∈ entries <-> contents s !! (c, k) = Some v /\ starts_with k p = true }.

(** [for_each_prefix] with a visitor that threads a state of type [A]: the
    entries of a scan, in order, up to the first error. *)
Fixpoint visit_all {A} (visitor : A -> bytes -> bytes -> result StoreError A) (a : A)
    (entries : list (bytes * bytes)) : result StoreError A :=
  match entries with
  | [] => Ok a
  | (key, value) :: entries => a ← visitor a key value; visit_all visitor a entries
  end.
Definition for_each_prefix {A S} `{KeyValueStore S} (s : S) (column : Column) (prefix : bytes)
    (visitor : A -> bytes -> bytes -> result StoreError A) (a : A) : result StoreError A :=
  entries ← kv_scan_prefix s column prefix; visit_all visitor a entries.

(** ** The in-memory store *)

(** The order of the keys [(Column, Vec<u8>)] of the tree. *)
Definition entry_le (a b : (Column * bytes) * bytes) : Prop :=
  (column_index a.1.1 < column_index b.1.1)%nat
  \/ (a.1.1 = b.1.1 /\ bytes_le a.1.2 b.1.2 = true).

#[global] Instance entry_le_dec : RelDecision entry_le.
Proof. intros a b. unfold entry_le. apply _. Defined.

(** A [BTreeMap] is the map with its ordered iteration. *)
Record MemoryStore := mkMemory { inner : Contents }.

Definition memory_iter (s : MemoryStore) : list ((Column * bytes) * bytes) :=
  merge_sort entry_le (map_to_list (inner s)).

Definition memory_new : MemoryStore := mkMemory ∅.
Definition memory_get (s : MemoryStore) (column : Column) (key : bytes)
    : result StoreError (option bytes) := Ok (inner s !! (column, key)).
Definition memory_put (s : MemoryStore) (column : Column) (key value : bytes)
    : result StoreError MemoryStore := Ok (mkMemory (<[(column, key) := value]> (inner s))).
Definition memory_delete (s : MemoryStore) (column : Column) (key : bytes)
    : result StoreError MemoryStore := Ok (mkMemory (delete (column, key) (inner s))).

Definition in_scan (column : Column) (prefix : bytes) (e : (Column * bytes) * bytes) : bool :=
  bool_decide (e.1.1 = column) && starts_with e.1.2 prefix.

Definition memory_scan_prefix (s : MemoryStore) (column : Column) (prefix : bytes)
    : result StoreError (list (bytes * bytes)) :=
  Ok (map (fun e => (e.1.2, e.2)) (List.filter (in_scan column prefix) (memory_iter s))).

Definition memory_write_batch (s : MemoryStore) (batch : WriteBatch) : result StoreError MemoryStore :=
  Ok (mkMemory (foldl apply_op (inner s) batch)).

#[global] Instance memory_store : KeyValueStore MemoryStore := {|
  kv_get := memory_get; kv_put := memory_put; kv_delete := memory_delete;
  kv_scan_prefix := memory_scan_prefix; kv_write_batch := memory_write_batch |}.

(** ** The order of keys *)
Lemma bytes_le_total a b : bytes_le a b = true \/ bytes_le b a = true.
Proof.
  revert b; induction a as [|x a IH]; intros [|y b]; simpl; auto.
  destruct (Z.ltb_spec x y), (Z.ltb_spec y x); auto; lia.
Qed.

Lemma bytes_le_trans a b c : bytes_le a b = true -> bytes_le b c = true -> bytes_le a c = true.
Proof.
  revert b c; induction a as [|x a IH]; intros [|y b] [|z c]; simpl; try done.
  destruct (Z.ltb_spec x y), (Z.ltb_spec y x), (Z.ltb_spec y z), (Z.ltb_spec z y),
    (Z.ltb_spec x z), (Z.ltb_spec z x); try done; try lia. apply IH.
Qed.

#[global] Instance entry_le_total : Total entry_le.
Proof.
  intros [[c k] v] [[c' k'] v']; unfold entry_le; simpl.
  destruct (Nat.lt_trichotomy (column_index c) (column_index c')) as [|[E|]]; [auto| |auto].
  assert (c = c') as -> by (by destruct c, c').
  destruct (bytes_le_total k k'); auto.
Qed.

#[global] Instance entry_le_trans : Transitive entry_le.
Proof.
  intros [[c k] v] [[c' k'] v'] [[c2 k2] v2]; unfold entry_le; simpl.
  intros [?|[-> ?]] [?|[-> ?]]; [left; lia|by left|by left|right].
  split; [done|by eapply bytes_le_trans].
Qed.

(** ** The memory store satisfies the interface *)
Lemma memory_iter_elem s e : e ∈ memory_iter s <-> inner s !! e.1 = Some e.2.
Proof.
  unfold memory_iter. rewrite merge_sort_Permutation. destruct e as [k v].
  by rewrite elem_of_map_to_list.
Qed.

Lemma memory_iter_sorted s : StronglySorted entry_le (memory_iter s).
Proof. apply (StronglySorted_merge_sort _). Qed.

Lemma memory_iter_keys s : NoDup (memory_iter s).*1.
Proof. unfold memory_iter. rewrite merge_sort_Permutation. apply NoDup_fst_map_to_list. Qed.

Lemma in_scan_spec c p e : in_scan c p e = true <-> e.1.1 = c /\ starts_with e.1.2 p = true.
Proof. unfold in_scan. by rewrite andb_true_iff, bool_decide_eq_true. Qed.

(** The part of a sorted entry list that a scan keeps. *)
Lemma scan_sorted c p l :
  StronglySorted entry_le l -> NoDup l.*1 ->
  let r := map (fun e => (e.1.2, e.2)) (List.filter (in_scan c p) l) in
  StronglySorted (fun a b => bytes_le a.1 b.1 = true) r /\ NoDup r.*1.
Proof.
  intros Hs Hn. cbn zeta. induction Hs as [|e l Hs IH He]; [split; constructor|].
  cbn [fmap list_fmap] in Hn. apply NoDup_cons in Hn as [Hne Hn]. destruct (IH Hn) as [IH1 IH2].
  cbn [List.filter]. destruct (in_scan c p e) eqn:Hc; [|done]. apply in_scan_spec in Hc as [Hc _].
  cbn [map]. split.
  - constructor; [done|]. apply Forall_map, Forall_forall. intros e' He'.
    apply list_elem_of_In, List.filter_In in He' as [Hin Hc']. apply in_scan_spec in Hc' as [Hc' _].
    rewrite Forall_forall in He. destruct (He e') as [Hlt|[_ ?]]; [by apply list_elem_of_In| |done].
    rewrite Hc, Hc' in Hlt. lia.
  - cbn [fmap list_fmap]. constructor; [|done].
    intros Hin. apply list_elem_of_fmap in Hin as ([k v]&E&Hin). simpl in E.
    apply list_elem_of_In, in_map_iff in Hin as (e'&E'&Hin). injection E' as <- <-.
    apply List.filter_In in Hin as [Hin Hc']. apply in_scan_spec in Hc' as [Hc' _].
    apply Hne. apply list_elem_of_fmap. exists e'. split; [|by apply list_elem_of_In].
    rewrite (surjective_pairing e.1), (surjective_pairing e'.1). congruence.
Qed.

#[global] Program Instance memory_store_laws : KeyValueStoreLaws MemoryStore := {| contents := inner |}.
Next Obligation. done. Qed.
Next Obligation. intros. by eexists. Qed.
Next Obligation. intros. by eexists. Qed.
Next Obligation. intros. by eexists. Qed.
Next Obligation.
  intros s c p. eexists; split; [reflexivity|].
  destruct (scan_sorted c p _ (memory_iter_sorted s) (memory_iter_keys s)) as [H1 H2].
  split_and!; [done|done|]. intros k v. rewrite list_elem_of_In, in_map_iff. split.
  - intros ([[c' k'] v']&[= -> ->]&Hin). apply List.filter_In in Hin as [Hin Hc].
    apply in_scan_spec in Hc as [Hc Hp]. apply list_elem_of_In, memory_iter_elem in Hin.
    simpl in *. by subst.
  - intros [Hl Hp]. exists ((c, k), v). split; [done|]. apply List.filter_In.
    split; [by apply list_elem_of_In, memory_iter_elem|by apply in_scan_spec].
Qed.

Lemma memory_new_get c k : kv_get memory_new c k = Ok None.
Proof. reflexivity. Qed.

Lemma memory_commit_eq (s s' : MemoryStore) batch :
  kv_write_batch s batch = Ok s' -> s' = mkMemory (foldl apply_op (inner s) batch).
Proof. by intros [= <-]. Qed.

(** ** Committing a batch *)

(** The last operation of a batch on a key, if it has one: the new value, or
    [None] for a deletion. *)
Fixpoint last_write (batch : WriteBatch) (column : Column) (key : bytes) : option (option bytes) :=
  match batch with
  | [] => None
  | op :: batch =>
      match last_write batch column key with
      | Some r => Some r
      | None =>
          match op with
          | Put c k v => if bool_decide ((c, k) = (column, key)) then Some (Some v) else None
          | Delete c k => if bool_decide ((c, k) = (column, key)) then Some None else None
          end
      end
  end.

Lemma foldl_apply_op m batch c k :
  foldl apply_op m batch !! (c, k) = match last_write batch c k with Some r => r | None => m !! (c, k) end.
Proof.
  revert m; induction batch as [|op batch IH]; intros m; [done|]. cbn [foldl last_write]. rewrite IH.
  destruct (last_write batch c k) as [r|]; [done|].
  destruct op as [c' k' v|c' k']; simpl; case_bool_decide as E.
  - by rewrite E, lookup_insert_eq.
  - by rewrite lookup_insert_ne.
  - by rewrite E, lookup_delete_eq.
  - by rewrite lookup_delete_ne.
Qed.

Lemma last_write_app b1 b2 c k :
  last_write (b1 ++ b2) c k
  = match last_write b2 c k with Some r => Some r | None => last_write b1 c k end.
Proof.
  induction b1 as [|op b1 IH]; cbn [app last_write]; [by destruct (last_write b2 c k)|].
  rewrite IH. by destruct (last_write b2 c k).
Qed.

(** The operation behind a batch's last write. *)
Lemma last_write_elem batch c k r :
  last_write batch c k = Some r ->
  match r with Some v => Put c k v ∈ batch | None => Delete c k ∈ batch end.
Proof.
  induction batch as [|op batch IH]; cbn [last_write]; [done|].
  destruct (last_write batch c k) as [r'|]; [intros [= ->]|].
  - destruct r; apply list_elem_of_further, (IH eq_refl).
  - destruct op; case_bool_decide as E; intros [= <-]; injection E as -> ->; apply list_elem_of_here.
Qed.

Lemma put_last_write batch c k v : Put c k v ∈ batch -> is_Some (last_write batch c k).
Proof.
  induction batch as [|op batch IH]; intros Hin; [by apply elem_of_nil in Hin|].
  cbn [last_write]. apply elem_of_cons in Hin as [<-|Hin].
  - destruct (last_write batch c k); [done|]. by rewrite bool_decide_true.
  - destruct (IH Hin) as [r ->]. done.
Qed.

Section store.
  Context {S : Type} `{KeyValueStoreLaws S}.

(** Reading after a commit. *)
Lemma kv_commit (s : S) (batch : WriteBatch) :
  exists s', kv_write_batch s batch = Ok s'
    /\ forall c k, kv_get s' c k
                   = match last_write batch c k with Some r => Ok r | None => kv_get s c k end.
Proof.
  destruct (kv_write_batch_spec s batch) as (s'&Hw&Hc). exists s'. split; [done|]. intros c k.
  rewrite !kv_get_spec, Hc, foldl_apply_op. by destruct (last_write batch c k).
Qed.

Lemma kv_get_total (s : S) c k : exists o, kv_get s c k = Ok o.
Proof. rewrite kv_get_spec. eauto. Qed.

(** A batch takes effect as a whole and in order, on every store that
    keeps the interface's promise.  After a batch is written each key reads as
    the batch's last operation on it left it, and as before when the batch
    does not mention it; and a prefix scan then returns, in key order and
    without repetition, exactly the pairs that reading returns and whose key
    has the prefix. *)
Theorem write_batch_refines_map (s : S) (batch : WriteBatch) :
  exists s',
    kv_write_batch s batch = Ok s'
    /\ (forall c k, kv_get s' c k =
          match last_write batch c k with Some r => Ok r | None => kv_get s c k end)
    /\ (forall c p, exists entries,
          kv_scan_prefix s' c p = Ok entries
          /\ StronglySorted (fun a b => bytes_le a.1 b.1 = true) entries /\ NoDup entries.*1
          /\ forall k v, (k, v) ∈ entries <-> kv_get s' c k = Ok (Some v) /\ starts_with k p = true).
Proof.
  destruct (kv_commit s batch) as (s'&Hw&Hc). exists s'. split_and!; [done|done|].
  - intros c p. destruct (kv_scan_prefix_spec s' c p) as (entries&He&Hs&Hn&Hi).
    exists entries. split_and!; [done..|]. intros k v. rewrite Hi, kv_get_spec.
    split; [by intros [-> ?]|by intros [[= ->] ?]].
Qed.
End store.

Definition sample_batch : WriteBatch :=
  [Put Utxo [1] [10]; Put Utxo [1; 2] [20]; Delete Utxo [1]; Put Meta [1] [30]; Put Utxo [1; 0] [40]].

Lemma write_batch_refines_map_witness :
  exists s' : MemoryStore,
    kv_write_batch memory_new sample_batch = Ok s'
    /\ (forall c k, kv_get s' c k =
          match last_write sample_batch c k with Some r => Ok r | None => kv_get memory_new c k end)
    /\ (forall c p, exists entries,
          kv_scan_prefix s' c p = Ok entries
          /\ StronglySorted (fun a b => bytes_le a.1 b.1 = true) entries /\ NoDup entries.*1
          /\ forall k v, (k, v) ∈ entries <-> kv_get s' c k = Ok (Some v) /\ starts_with k p = true).
Proof. apply (write_batch_refines_map memory_new sample_batch). Defined.

Example sample_scan :
  (s ← kv_write_batch memory_new sample_batch; kv_scan_prefix s Utxo [1])
  = Ok [([1; 0], [40]); ([1; 2], [20])].
Proof. vm_compute. reflexivity. Qed.
