(* ===== verification/Fluxnode.v ===== *)
(** * Fluxnode records ([fluxnode/src/storage.rs], [cache.rs], [validation.rs])

    A fluxnode is registered by a start transaction and kept alive by confirm
    transactions.  Its record is stored under its collateral outpoint; the
    keys a record refers to are stored once each, under their hash. *)

From S2P Require Import Prelude Consensus Encoding Hashing Transaction Script Storage.
From Stdlib Require Import ZArith Lia.
From stdpp Require Import base list option numbers strings gmap.
#[local] Open Scope Z_scope.

(** ** Records *)
Abbreviation KeyId := (list Z).

Definition dedupe_key `{Hashes} (bs : bytes) : KeyId := sha256d bs.

Record FluxnodeRecord := mkFluxnodeRecord {
  fr_collateral : OutPoint; fr_tier : Z; fr_start_height : Z; fr_confirmed_height : Z;
  fr_last_confirmed_height : Z; fr_last_paid_height : Z; fr_collateral_value : Z;
  fr_operator_pubkey : KeyId; fr_collateral_pubkey : option KeyId;
  fr_p2sh_script : option KeyId; fr_delegates : option KeyId; fr_ip : bytes }.

#[global] Instance FluxnodeRecord_eq_dec : EqDecision FluxnodeRecord.
Proof. solve_decision. Defined.

Definition write_optional_key (key : option KeyId) : bytes :=
  match key with
  | Some key => write_u8 1 ++ write_bytes key
  | None => write_u8 0
  end.

Definition read_optional_key : parser DecodeError (option KeyId) :=
  flag ← read_u8;
  if flag =? 0 then mret None else key ← read_fixed 32; mret (Some key).

Definition FluxnodeRecord_encode (r : FluxnodeRecord) : bytes :=
  consensus_encode (fr_collateral r)
  ++ write_u8 (fr_tier r)
  ++ write_u32_le (fr_start_height r)
  ++ write_u32_le (fr_last_confirmed_height r)
  ++ write_u32_le (fr_last_paid_height r)
  ++ write_bytes (fr_operator_pubkey r)
  ++ write_optional_key (fr_collateral_pubkey r)
  ++ write_optional_key (fr_p2sh_script r)
  ++ write_u32_le (fr_confirmed_height r)
  ++ write_i64_le (fr_collateral_value r)
  ++ write_var_str (fr_ip r)
  ++ write_optional_key (fr_delegates r).

(** A test for the end of the input, as a parser. *)
Definition at_end {E} : parser E bool := fun d => Ok (is_empty d, d).

(** Records written by older versions end early: the missing fields get
    defaults. *)
Definition FluxnodeRecord_fields : parser DecodeError FluxnodeRecord :=
  collateral ← consensus_decode;
  tier ← read_u8;
  start_height ← read_u32_le;
  last_confirmed_height ← read_u32_le;
  last_paid_height ← read_u32_le;
  operator_pubkey ← read_fixed 32;
  collateral_pubkey ← read_optional_key;
  p2sh_script ← read_optional_key;
  ended ← at_end;
  confirmed ←
    (if ended : bool then
       mret (if last_confirmed_height =? start_height then 0 else last_confirmed_height, 0)
     else
       confirmed_height ← read_u32_le;
       collateral_value ← read_i64_le;
       mret (confirmed_height, collateral_value));
  ended ← at_end;
  ip ← (if ended : bool then mret [] else read_var_str);
  ended ← at_end;
  delegates ← (if ended : bool then mret None else read_optional_key);
  mret (mkFluxnodeRecord collateral tier start_height (fst confirmed) last_confirmed_height
          last_paid_height (snd confirmed) operator_pubkey collateral_pubkey p2sh_script
          delegates ip).

Definition FluxnodeRecord_decode (bs : bytes) : result DecodeError FluxnodeRecord :=
  decode_all TrailingBytes FluxnodeRecord_fields bs.

(** ** The cache *)
Record FluxnodeStartMeta := mkStartMeta { meta_tier : Z; meta_collateral_value : Z }.

Definition outpoint_key (outpoint : OutPoint) : bytes := consensus_encode outpoint.

Definition missing_meta : StoreError := Backend "missing fluxnode start metadata".
Definition update_before_confirm : StoreError :=
  Backend "fluxnode update confirm before initial confirm".
Definition invalid_update_type : StoreError :=
  Backend "fluxnode confirm has invalid update type".

Section cache.
  Context {H : Hashes} {S : Type} {KV : KeyValueStore S}.

Definition store_key (batch : WriteBatch) (bs : bytes) : KeyId * WriteBatch :=
  let key := dedupe_key bs in (key, batch_put batch FluxnodeKey key bs).

Definition load_key (store : S) (key : KeyId) : result StoreError (option bytes) :=
  kv_get store FluxnodeKey key.

Definition load_fluxnode_record (store : S) (outpoint : OutPoint)
    : result StoreError (option FluxnodeRecord) :=
  bs ← kv_get store Fluxnode (outpoint_key outpoint);
  match bs with
  | None => Ok None
  | Some bs =>
      map_err (fun err => Backend (DecodeError_to_string err))
        (r ← FluxnodeRecord_decode bs; Ok (Some r))
  end.

Definition lookup_operator_pubkey (store : S) (outpoint : OutPoint)
    : result StoreError (option bytes) :=
  record ← load_fluxnode_record store outpoint;
  match record with
  | None => Ok None
  | Some record => load_key store (fr_operator_pubkey record)
  end.

(** [Option::map] with [store_key]. *)
Definition store_optional_key (batch : WriteBatch) (key : option bytes)
    : option KeyId * WriteBatch :=
  match key with
  | None => (None, batch)
  | Some bs => let '(k, batch) := store_key batch bs in (Some k, batch)
  end.

Definition store_fluxnode_start (batch : WriteBatch) (collateral : OutPoint)
    (operator_pubkey : bytes) (collateral_pubkey redeem_script : option bytes)
    (delegates : option KeyId) (height : Z) (meta : FluxnodeStartMeta) : WriteBatch :=
  let '(operator_key, batch) := store_key batch operator_pubkey in
  let '(collateral_key, batch) := store_optional_key batch collateral_pubkey in
  let '(p2sh_key, batch) := store_optional_key batch redeem_script in
  let record := {|
    fr_collateral := collateral; fr_tier := meta_tier meta; fr_start_height := height;
    fr_confirmed_height := 0; fr_last_confirmed_height := height; fr_last_paid_height := 0;
    fr_collateral_value := meta_collateral_value meta; fr_operator_pubkey := operator_key;
    fr_collateral_pubkey := collateral_key; fr_p2sh_script := p2sh_key;
    fr_delegates := delegates; fr_ip := [] |} in
  batch_put batch Fluxnode (outpoint_key collateral) (FluxnodeRecord_encode record).

(** [load_fluxnode_record(..)?.and_then(|record| record.delegates)]. *)
Definition current_delegates (store : S) (collateral : OutPoint)
    : result StoreError (option KeyId) :=
  record ← load_fluxnode_record store collateral;
  Ok (record ≫= fr_delegates).

Definition delegates_key_for_start (store : S) (batch : WriteBatch) (collateral : OutPoint)
    (start : FluxnodeStartV6) : result StoreError (option KeyId * WriteBatch) :=
  current ← current_delegates store collateral;
  match delegates start with
  | None => Ok (current, batch)
  | Some d =>
      if negb (using_delegates start) then Ok (current, batch)
      else if negb (delegates_kind d =? DELEGATES_UPDATE) then Ok (current, batch)
      else if is_nil (delegate_starting_keys d) then Ok (None, batch)
      else let '(k, batch) := store_key batch (consensus_encode d) in Ok (Some k, batch)
  end.

Definition update_fluxnode_confirm (store : S) (batch : WriteBatch) (collateral : OutPoint)
    (height update_type : Z) (confirm : FluxnodeConfirmTx) : result StoreError WriteBatch :=
  record ← load_fluxnode_record store collateral;
  match record with
  | None => Ok batch
  | Some r =>
      confirmed_height ←
        (if update_type =? 0 then
           Ok (if fr_confirmed_height r =? 0 then height else fr_confirmed_height r)
         else if update_type =? 1 then
           if fr_confirmed_height r =? 0 then Err update_before_confirm
           else Ok (fr_confirmed_height r)
         else Err invalid_update_type);
      let record := {|
        fr_collateral := fr_collateral r; fr_tier := fr_tier r;
        fr_start_height := fr_start_height r; fr_confirmed_height := confirmed_height;
        fr_last_confirmed_height := height; fr_last_paid_height := fr_last_paid_height r;
        fr_collateral_value := fr_collateral_value r;
        fr_operator_pubkey := fr_operator_pubkey r;
        fr_collateral_pubkey := fr_collateral_pubkey r; fr_p2sh_script := fr_p2sh_script r;
        fr_delegates := fr_delegates r; fr_ip := ip confirm |} in
      Ok (batch_put batch Fluxnode (outpoint_key collateral) (FluxnodeRecord_encode record))
  end.

(** The batch is changed only when the call succeeds: nothing is added to it
    before the last operation that can fail. *)
Definition apply_fluxnode_tx (store : S) (batch : WriteBatch) (tx : Transaction) (height : Z)
    (start_meta : option FluxnodeStartMeta) : result StoreError WriteBatch :=
  match fluxnode tx with
  | None => Ok batch
  | Some (V5 (StartV5 start)) =>
      meta ← ok_or start_meta missing_meta;
      delegates ← current_delegates store (start5_collateral start);
      Ok (store_fluxnode_start batch (start5_collateral start) (start5_pubkey start)
            (Some (start5_collateral_pubkey start)) None delegates height meta)
  | Some (V6 (StartV6 start)) =>
      match variant start with
      | Normal collateral collateral_pubkey pubkey _ _ =>
          meta ← ok_or start_meta missing_meta;
          db ← delegates_key_for_start store batch collateral start;
          Ok (store_fluxnode_start (snd db) collateral pubkey (Some collateral_pubkey) None
                (fst db) height meta)
      | P2sh collateral pubkey redeem_script _ _ =>
          meta ← ok_or start_meta missing_meta;
          db ← delegates_key_for_start store batch collateral start;
          Ok (store_fluxnode_start (snd db) collateral pubkey None (Some redeem_script)
                (fst db) height meta)
      end
  | Some (V5 (ConfirmV5 confirm)) | Some (V6 (ConfirmV6 confirm)) =>
      update_fluxnode_confirm store batch (confirm_collateral confirm) height
        (update_type confirm) confirm
  end.
End cache.

(** ** Schedules and payload validation *)
Inductive FluxnodeTier := Cumulus | Nimbus | Stratus.

Definition start_payments_height_of (params : ChainParams) : Z :=
  start_payments_height (fluxnode_params params).

Definition enforced_tiers (height : Z) (params : ChainParams) : list FluxnodeTier :=
  let p := fluxnode_params params in
  (if height >=? cumulus_transition_end p then [Cumulus] else [])
  ++ (if height >=? nimbus_transition_end p then [Nimbus] else [])
  ++ (if height >=? stratus_transition_end p then [Stratus] else []).

Definition should_enforce_new_collateral (height : Z) (params : ChainParams) : bool :=
  let p := fluxnode_params params in
  (height >=? cumulus_transition_start p)
  && (height <? wrap_i64 (stratus_transition_end p + 10)).

Fixpoint select_from (time : Z) (current : TimedPublicKey) (keys : list TimedPublicKey)
    : TimedPublicKey :=
  match keys with
  | [] => current
  | key :: keys =>
      select_from time
        (if (valid_from key <=? time) && (valid_from key >=? valid_from current)
         then key else current) keys
  end.

(** An empty schedule panics. *)
Definition select_active_key (time : Z) (keys : list TimedPublicKey) : result Empty_set TimedPublicKey :=
  match keys with
  | [] => Panic
  | first :: _ => Ok (select_from time first keys)
  end.

Definition benchmarking_key_at (time : Z) (params : ChainParams) : result Empty_set TimedPublicKey :=
  select_active_key time (benchmarking_public_keys (fluxnode_params params)).

Definition p2sh_keys_at (time : Z) (params : ChainParams) : list TimedPublicKey :=
  List.filter (fun key => valid_from key <=? time) (p2sh_public_keys (fluxnode_params params)).

Section validation.
  Context {S256 : Secp}.

Definition validate_fluxnode_v5 (tx : FluxnodeTxV5) (version : Z) : result string unit :=
  if negb (version =? 5) then Err "fluxnode v5 payload used with non-v5 transaction"
  else match tx with
  | StartV5 start =>
      if is_nil (start5_collateral_pubkey start) || is_nil (start5_pubkey start)
      then Err "fluxnode v5 start missing pubkeys"
      else Ok tt
  | ConfirmV5 _ => Ok tt
  end.

Fixpoint validate_delegate_keys (keys : list bytes) : result string unit :=
  match keys with
  | [] => Ok tt
  | pubkey :: keys =>
      if negb (length pubkey =? 33)%nat then Err "fluxnode v6 delegate pubkey must be compressed"
      else match PublicKey_from_slice pubkey with
      | None => Err "fluxnode v6 delegate pubkey invalid"
      | Some _ => validate_delegate_keys keys
      end
  end.

Definition validate_delegates (start : FluxnodeStartV6) : result string unit :=
  if negb (using_delegates start) then Err "fluxnode v6 delegates feature set without flag"
  else
    delegates ← ok_or (delegates start) "fluxnode v6 delegates flag set without payload";
    if negb (delegates_kind delegates =? DELEGATES_UPDATE)
       && negb (delegates_kind delegates =? DELEGATES_SIGNING)
    then Err "fluxnode v6 delegates has invalid type"
    else if Nat.ltb MAX_PUBKEYS_LENGTH (length (delegate_starting_keys delegates))
    then Err "fluxnode v6 delegates has too many keys"
    else validate_delegate_keys (delegate_starting_keys delegates).

Definition is_some {A} (o : option A) : bool := match o with Some _ => true | None => false end.

Definition validate_fluxnode_v6 (tx : FluxnodeTxV6) (version : Z) : result string unit :=
  if negb (version =? 6) then Err "fluxnode v6 payload used with non-v6 transaction"
  else match tx with
  | StartV6 start =>
      let flux_version := flux_tx_version start in
      let is_normal := is_flux_tx_normal_type flux_version true
                       && (Z.land flux_version FLUXNODE_TX_TYPE_P2SH_BIT =? 0) in
      let is_p2sh := is_flux_tx_p2sh_type flux_version true in
      if negb (is_normal || is_p2sh) then Err "fluxnode v6 start has invalid version bits"
      else if has_flux_tx_delegates_feature flux_version then validate_delegates start
      else if using_delegates start || is_some (delegates start)
      then Err "fluxnode v6 delegates present without feature"
      else Ok tt
  | ConfirmV6 _ => Ok tt
  end.

Definition validate_fluxnode_tx (tx : FluxnodeTx) (version : Z) : result string unit :=
  match tx with
  | V5 payload => validate_fluxnode_v5 payload version
  | V6 payload => validate_fluxnode_v6 payload version
  end.
End validation.

(** ** Round trip of a record *)
Definition key_wf (key : option KeyId) : Prop :=
  match key with Some key => array 32 key | None => True end.
#[global] Instance key_wf_dec key : Decision (key_wf key).
Proof. destruct key; simpl; apply _. Defined.

Definition FluxnodeRecord_wf (r : FluxnodeRecord) : Prop :=
  wf (fr_collateral r) /\ is_u8 (fr_tier r) /\ is_u32 (fr_start_height r)
  /\ is_u32 (fr_confirmed_height r) /\ is_u32 (fr_last_confirmed_height r)
  /\ is_u32 (fr_last_paid_height r) /\ is_i64 (fr_collateral_value r)
  /\ array 32 (fr_operator_pubkey r) /\ key_wf (fr_collateral_pubkey r)
  /\ key_wf (fr_p2sh_script r) /\ key_wf (fr_delegates r) /\ str_ok (fr_ip r).
#[global] Instance FluxnodeRecord_wf_dec r : Decision (FluxnodeRecord_wf r).
Proof. unfold FluxnodeRecord_wf; simpl; apply _. Defined.

Lemma read_optional_key_reads key :
  key_wf key -> reads read_optional_key (write_optional_key key) key.
Proof.
  unfold read_optional_key. destruct key as [key|]; cbn [key_wf write_optional_key]; intros Hk.
  - eapply reads_bind; [apply read_u8_reads; int_lia|]. cbv beta.
    eapply reads_bind_nil; [by apply read_fixed_reads|apply reads_ret].
  - eapply reads_bind_nil; [apply read_u8_reads; int_lia|]. apply reads_ret.
Qed.

(** A bind that reads nothing and whose value depends on what is left. *)
Lemma reads_at_end {E A} (f : bool -> parser E A) bs a :
  bs <> [] -> reads (f false) bs a ->
  reads (fun d => f (is_empty d) d) bs a.
Proof.
  intros Hb Hf d rest Hd. destruct (is_empty d) eqn:He; [|by apply (Hf d rest)].
  apply is_empty_rem in He. rewrite He in Hd. by destruct bs.
Qed.

Lemma write_optional_key_not_nil key rest : write_optional_key key ++ rest <> [].
Proof. by destruct key. Qed.

Lemma at_end_bind {E A} (f : bool -> parser E A) bs a :
  bs <> [] -> reads (f false) bs a -> reads (at_end ≫= f) bs a.
Proof. apply reads_at_end. Qed.

Lemma length_write_varint n : (0 < length (write_varint n))%nat.
Proof.
  unfold write_varint, write_u8.
  destruct (n <? _); [|destruct (n <=? 0xffff); [|destruct (n <=? _)]]; simpl; lia.
Qed.

Lemma not_nil_length {A} (l : list A) : (0 < length l)%nat -> l <> [].
Proof. destruct l; simpl; [lia|done]. Qed.

Lemma FluxnodeRecord_reads r :
  FluxnodeRecord_wf r -> reads FluxnodeRecord_fields (FluxnodeRecord_encode r) r.
Proof.
  destruct r as [c t sh ch lch lph v op cp ps d i]. unfold FluxnodeRecord_wf; simpl.
  intros (?&?&?&?&?&?&?&?&Hcp&Hps&Hd&[[? ?] ?]).
  unfold FluxnodeRecord_encode, FluxnodeRecord_fields.
  cbn [fr_collateral fr_tier fr_start_height fr_confirmed_height fr_last_confirmed_height
       fr_last_paid_height fr_collateral_value fr_operator_pubkey fr_collateral_pubkey
       fr_p2sh_script fr_delegates fr_ip].
  do 6 (eapply reads_bind; [solve [eauto with codec]|]; cbv beta).
  do 2 (eapply reads_bind; [by apply read_optional_key_reads|]; cbv beta).
  apply at_end_bind; [apply not_nil_length; rewrite length_app; unfold write_u32_le; rewrite length_le_bytes; lia|].
  rewrite app_assoc. eapply reads_bind.
  { eapply reads_bind; [by apply read_u32_le_reads|]. cbv beta.
    eapply reads_bind_nil; [by apply read_i64_le_reads|apply reads_ret]. }
  cbv beta. apply at_end_bind.
  { apply not_nil_length. unfold write_var_str, write_var_bytes. rewrite !length_app.
    pose proof (length_write_varint (Z.of_nat (length i))). lia. }
  eapply reads_bind; [by apply read_var_str_reads|]. cbv beta.
  apply at_end_bind; [by destruct d|].
  eapply reads_bind_nil; [by apply read_optional_key_reads|]. apply reads_ret.
Qed.

Lemma FluxnodeRecord_decode_encode r :
  FluxnodeRecord_wf r -> FluxnodeRecord_decode (FluxnodeRecord_encode r) = Ok r.
Proof. intros. by apply reads_decode_all, FluxnodeRecord_reads. Qed.

(** ** The fluxnode store *)
Section invariant.
  Context {H : Hashes} {L : HashesLaws H} {S : Type} `{KVL : KeyValueStoreLaws S}.

(** The fluxnode transactions of a block: all of them read the store as the
    previous block left it and add to one batch. *)
Fixpoint apply_fluxnode_txs (store : S) (batch : WriteBatch)
    (txs : list (Transaction * option FluxnodeStartMeta)) (height : Z)
    : result StoreError WriteBatch :=
  match txs with
  | [] => Ok batch
  | (tx, meta) :: txs =>
      batch ← apply_fluxnode_tx store batch tx height meta;
      apply_fluxnode_txs store batch txs height
  end.

(** A record at height [h]: it names its own collateral, was last confirmed
    at a height the chain has reached, and was first confirmed between its
    start and its last confirmation. *)
Definition record_ok (h : Z) (o : OutPoint) (r : FluxnodeRecord) : Prop :=
  FluxnodeRecord_wf r /\ fr_collateral r = o
  /\ fr_start_height r <= fr_last_confirmed_height r <= h
  /\ (fr_confirmed_height r = 0
      \/ fr_start_height r <= fr_confirmed_height r <= fr_last_confirmed_height r).

Definition record_keys (r : FluxnodeRecord) : list KeyId :=
  fr_operator_pubkey r
  :: option_list (fr_collateral_pubkey r) ++ option_list (fr_p2sh_script r)
  ++ option_list (fr_delegates r).

Definition known_key (s : S) (k : KeyId) : Prop := exists bs, load_key s k = Ok (Some bs).

(** The store at height [h]: every record decodes, is consistent and every
    key it refers to is stored; stored keys are stored under their hash. *)
Definition fluxnode_store_ok (h : Z) (s : S) : Prop :=
  (forall o, wf o ->
     load_fluxnode_record s o = Ok None
     \/ exists r, load_fluxnode_record s o = Ok (Some r) /\ record_ok h o r
                  /\ Forall (known_key s) (record_keys r))
  /\ (forall k bs, load_key s k = Ok (Some bs) -> dedupe_key bs = k).

Definition meta_ok (meta : option FluxnodeStartMeta) : Prop :=
  match meta with
  | Some m => is_u8 (meta_tier m) /\ is_i64 (meta_collateral_value m)
  | None => True
  end.
Definition block_txs_ok (txs : list (Transaction * option FluxnodeStartMeta)) : Prop :=
  Forall (fun t => Transaction_wf true t.1 /\ meta_ok t.2) txs.

(** What a batch of fluxnode writes at height [h] over [s] consists of. *)
Definition key_coming (s : S) (batch : WriteBatch) (k : KeyId) : Prop :=
  known_key s k \/ exists bs, Put FluxnodeKey k bs ∈ batch.
Definition fluxnode_op_ok (h : Z) (s : S) (batch : WriteBatch) (op : WriteOp) : Prop :=
  match op with
  | Put FluxnodeKey k bs => k = dedupe_key bs
  | Put Fluxnode k v =>
      exists o r, wf o /\ k = outpoint_key o /\ v = FluxnodeRecord_encode r
        /\ record_ok h o r /\ Forall (key_coming s batch) (record_keys r)
  | _ => False
  end.
Definition fluxnode_batch_ok (h : Z) (s : S) (batch : WriteBatch) : Prop :=
  Forall (fluxnode_op_ok h s batch) batch.

Lemma key_coming_app s b1 b2 k : key_coming s b1 k -> key_coming s (b1 ++ b2) k.
Proof.
  intros [?|[bs Hin]]; [by left|right]. exists bs. apply elem_of_app. by left.
Qed.

Lemma batch_ok_put h s batch op :
  fluxnode_batch_ok h s batch -> fluxnode_op_ok h s (batch ++ [op]) op ->
  fluxnode_batch_ok h s (batch ++ [op]).
Proof.
  intros Hb Hop. apply Forall_app. split; [|by constructor].
  eapply Forall_impl; [apply Hb|]. intros [c k v|c k]; [|done]. destruct c; try done.
  intros (o&r&?&?&?&?&Hk). exists o, r. split_and!; try done.
  eapply Forall_impl; [apply Hk|]. intros; by apply key_coming_app.
Qed.

Lemma store_key_ok h s batch bs :
  fluxnode_batch_ok h s batch ->
  fluxnode_batch_ok h s (store_key batch bs).2 /\ key_coming s (store_key batch bs).2 (dedupe_key bs)
  /\ (store_key batch bs).1 = dedupe_key bs.
Proof.
  intros Hb. split_and!; [by apply batch_ok_put| |done].
  right. exists bs. apply elem_of_app. right. apply list_elem_of_here.
Qed.

Lemma dedupe_key_array bs : array 32 (dedupe_key bs).
Proof. apply sha256d_array. Qed.

Lemma store_optional_key_ok h s batch key :
  fluxnode_batch_ok h s batch ->
  exists b, (store_optional_key batch key).2 = batch ++ b
  /\ fluxnode_batch_ok h s (store_optional_key batch key).2
  /\ key_wf (store_optional_key batch key).1
  /\ Forall (key_coming s (store_optional_key batch key).2) (option_list (store_optional_key batch key).1).
Proof.
  intros Hb. destruct key as [bs|]; cbn.
  - exists [Put FluxnodeKey (dedupe_key bs) bs].
    destruct (store_key_ok h s batch bs Hb) as (?&?&_). split_and!; try done; [apply dedupe_key_array|].
    by constructor.
  - exists []. rewrite app_nil_r. split_and!; try done.
Qed.

Lemma store_fluxnode_start_ok h s batch o pk cpk rs d m :
  is_u32 h -> wf o -> meta_ok (Some m) -> key_wf d ->
  fluxnode_batch_ok h s batch -> Forall (key_coming s batch) (option_list d) ->
  fluxnode_batch_ok h s (store_fluxnode_start batch o pk cpk rs d h m).
Proof.
  intros Hh Ho [Ht Hv] Hd Hb Hkd. unfold store_fluxnode_start.
  destruct (store_key batch pk) as [k b1] eqn:E1.
  pose proof (store_key_ok h s batch pk Hb) as (Hb1&Hk&Ek). rewrite E1 in *. cbn [fst snd] in *. subst k.
  destruct (store_optional_key_ok h s b1 cpk Hb1) as (x2&A2&Hb2&Hw2&Hk2).
  destruct (store_optional_key b1 cpk) as [ck b2] eqn:E2. cbn [fst snd] in *.
  destruct (store_optional_key_ok h s b2 rs Hb2) as (x3&A3&Hb3&Hw3&Hk3).
  destruct (store_optional_key b2 rs) as [sk b3] eqn:E3. cbn [fst snd] in *.
  apply batch_ok_put; [done|]. subst b2 b3.
  replace b1 with (batch ++ [Put FluxnodeKey (dedupe_key pk) pk]) in * by (by injection E1).
  eexists o, _. split_and!; [done|reflexivity|reflexivity| |].
  - split_and!; [|done|simpl; lia|simpl; lia|by left]. unfold FluxnodeRecord_wf; simpl.
    split_and!; try done; try int_lia; [apply dedupe_key_array|by_decide].
  - unfold record_keys; cbn [fr_operator_pubkey fr_collateral_pubkey fr_p2sh_script fr_delegates].
    rewrite <- !app_assoc. apply Forall_cons. split.
    + by rewrite !app_assoc; do 3 apply key_coming_app.
    + rewrite !Forall_app. split_and!; (eapply Forall_impl; [eassumption|]; intros k Hk');
        rewrite ?app_assoc in *; repeat (done || apply key_coming_app).
Qed.

Lemma load_record_cases h s o :
  fluxnode_store_ok h s -> wf o ->
  load_fluxnode_record s o = Ok None
  \/ exists r, load_fluxnode_record s o = Ok (Some r) /\ record_ok h o r
               /\ Forall (known_key s) (record_keys r).
Proof. intros [Hr _] Ho. by apply Hr. Qed.

Lemma current_delegates_ok h s batch o :
  fluxnode_store_ok h s -> wf o ->
  exists d, current_delegates s o = Ok d /\ key_wf d /\ Forall (key_coming s batch) (option_list d).
Proof.
  intros Hs Ho. unfold current_delegates.
  destruct (load_record_cases h s o Hs Ho) as [->|(r&->&Hr&Hk)]; cbn [mbind result_bind].
  - exists None. split_and!; [done|done|constructor].
  - exists (fr_delegates r). split_and!; [done|apply Hr|].
    unfold record_keys in Hk. apply Forall_cons in Hk as [_ Hk]. rewrite !Forall_app in Hk.
    eapply Forall_impl; [apply Hk|]. by left.
Qed.

Lemma delegates_key_ok h0 h s batch o start :
  fluxnode_store_ok h0 s -> wf o -> fluxnode_batch_ok h s batch ->
  exists d b, delegates_key_for_start s batch o start = Ok (d, b)
    /\ key_wf d /\ fluxnode_batch_ok h s b /\ Forall (key_coming s b) (option_list d).
Proof.
  intros Hs Ho Hb. destruct (current_delegates_ok h0 s batch o Hs Ho) as (d&Hd&Hw&Hk).
  unfold delegates_key_for_start. rewrite Hd. cbn [mbind result_bind].
  destruct (delegates start) as [dl|]; [|eauto 10].
  destruct (negb (using_delegates start)); [eauto 10|].
  destruct (negb (delegates_kind dl =? DELEGATES_UPDATE)); [eauto 10|].
  destruct (is_nil (delegate_starting_keys dl)).
  { eexists None, _. split_and!; [reflexivity|done|done|constructor]. }
  destruct (store_key_ok h s batch (consensus_encode dl) Hb) as (Hb'&Hk'&Ek).
  destruct (store_key batch (consensus_encode dl)) as [k b]. cbn [fst snd] in *. subst k.
  eexists (Some _), _. split_and!; [reflexivity|apply dedupe_key_array|done|by constructor].
Qed.

Definition fluxnode_errors : list StoreError :=
  [missing_meta; update_before_confirm; invalid_update_type].

(** A step either extends the batch within the invariant or is refused for one
    of the three reasons the code names. *)
Definition step_ok (h : Z) (s : S) (r : result StoreError WriteBatch) : Prop :=
  match r with
  | Ok batch => fluxnode_batch_ok h s batch
  | Err e => e ∈ fluxnode_errors
  | Panic => False
  end.

Lemma step_ok_meta h s meta (k : FluxnodeStartMeta -> result StoreError WriteBatch) :
  meta_ok meta -> (forall m, meta_ok (Some m) -> step_ok h s (k m)) ->
  step_ok h s (m ← ok_or meta missing_meta; k m).
Proof.
  intros Hm Hk. destruct meta as [m|]; cbn [ok_or mbind result_bind]; [by apply Hk|].
  apply list_elem_of_here.
Qed.

Lemma update_confirm_ok h0 h s batch c :
  h0 <= h -> is_u32 h -> fluxnode_store_ok h0 s -> FluxnodeConfirmTx_wf true c ->
  fluxnode_batch_ok h s batch ->
  step_ok h s (update_fluxnode_confirm s batch (confirm_collateral c) h (update_type c) c).
Proof.
  intros Hle Hh Hs Hc Hb. unfold update_fluxnode_confirm.
  assert (Ho : wf (confirm_collateral c)) by apply Hc.
  destruct (load_record_cases _ s _ Hs Ho) as [->|(r&->&Hr&Hk)]; cbn [mbind result_bind]; [done|].
  assert (Hput : forall ch, is_u32 ch -> fr_confirmed_height r = 0 /\ ch = h \/ fr_confirmed_height r = ch ->
    step_ok h s (Ok (batch_put batch Fluxnode (outpoint_key (confirm_collateral c))
      (FluxnodeRecord_encode {|
        fr_collateral := fr_collateral r; fr_tier := fr_tier r;
        fr_start_height := fr_start_height r; fr_confirmed_height := ch;
        fr_last_confirmed_height := h; fr_last_paid_height := fr_last_paid_height r;
        fr_collateral_value := fr_collateral_value r;
        fr_operator_pubkey := fr_operator_pubkey r;
        fr_collateral_pubkey := fr_collateral_pubkey r; fr_p2sh_script := fr_p2sh_script r;
        fr_delegates := fr_delegates r; fr_ip := ip c |})))).
  { intros ch Hch Hcase. apply batch_ok_put; [done|].
    destruct Hr as ((?&?&?&?&?&?&?&?&?&?&?&?)&?&?&?). destruct Hc as (_&_&_&_&_&Hip&_).
    eexists (confirm_collateral c), _. split_and!; [done|reflexivity|reflexivity| |].
    - split_and!; [|done|simpl; lia|simpl; lia|simpl; lia].
      unfold FluxnodeRecord_wf; simpl. by split_and!.
    - eapply Forall_impl; [apply Hk|]. by left. }
  destruct Hr as ((?&?&?&?&?)&?).
  destruct (update_type c =? 0).
  { destruct (Z.eqb_spec (fr_confirmed_height r) 0); apply Hput; auto. }
  destruct (update_type c =? 1).
  { destruct (fr_confirmed_height r =? 0).
    - cbn [mbind result_bind step_ok]. apply list_elem_of_further, list_elem_of_here.
    - by apply Hput; auto. }
  cbn [mbind result_bind step_ok]. do 2 apply list_elem_of_further. apply list_elem_of_here.
Qed.

Lemma tx_payload_wf tx p :
  Transaction_wf true tx -> fluxnode tx = Some p ->
  match p with V5 b => FluxnodeTxV5_wf true b | V6 b => FluxnodeTxV6_wf true b end.
Proof.
  intros [_ Hw] Hp. destruct (is_fluxnode_version (version tx)).
  - destruct Hw as [Hw _]. rewrite Hp in Hw. by destruct p; destruct Hw.
  - destruct Hw as (_&_&_&_&_&_&_&Hn). congruence.
Qed.

Lemma apply_fluxnode_tx_ok h0 h s batch tx meta :
  h0 <= h -> is_u32 h -> fluxnode_store_ok h0 s -> Transaction_wf true tx -> meta_ok meta ->
  fluxnode_batch_ok h s batch -> step_ok h s (apply_fluxnode_tx s batch tx h meta).
Proof.
  intros Hle Hh Hs Htx Hm Hb. unfold apply_fluxnode_tx.
  destruct (fluxnode tx) as [p|] eqn:Hp; [|done]. apply tx_payload_wf in Hp; [|done].
  destruct p as [[st|c]|[st|c]]; cbn [FluxnodeTxV5_wf FluxnodeTxV6_wf] in Hp;
    [| by eapply update_confirm_ok | | by eapply update_confirm_ok].
  - apply step_ok_meta; [done|]. intros m Hm'.
    destruct Hp as (Ho&_). destruct (current_delegates_ok h0 s batch _ Hs Ho) as (d&->&Hd&Hk).
    cbn [mbind result_bind]. by apply store_fluxnode_start_ok.
  - destruct Hp as (_&Hv&_). destruct (variant st) as [o cpk pk t sg|o pk rs t sg];
      cbn [variant_wf] in Hv; (apply step_ok_meta; [done|]; intros m Hm').
    + destruct Hv as (_&Ho&_). destruct (delegates_key_ok h0 h s batch o st Hs Ho Hb) as (d&b&->&?&?&?).
      cbn [mbind result_bind fst snd]. by apply store_fluxnode_start_ok.
    + destruct Hv as (_&Ho&_). destruct (delegates_key_ok h0 h s batch o st Hs Ho Hb) as (d&b&->&?&?&?).
      cbn [mbind result_bind fst snd]. by apply store_fluxnode_start_ok.
Qed.

Lemma apply_fluxnode_txs_ok h0 h s txs batch :
  h0 <= h -> is_u32 h -> fluxnode_store_ok h0 s -> block_txs_ok txs ->
  fluxnode_batch_ok h s batch -> step_ok h s (apply_fluxnode_txs s batch txs h).
Proof.
  intros Hle Hh Hs. revert batch. induction txs as [|[tx meta] txs IH]; intros batch Htxs Hb; [done|].
  cbn [apply_fluxnode_txs]. apply Forall_cons in Htxs as [[Htx Hm] Htxs].
  pose proof (apply_fluxnode_tx_ok h0 h s batch tx meta Hle Hh Hs Htx Hm Hb) as Hstep.
  destruct (apply_fluxnode_tx s batch tx h meta) as [b|e|]; cbn [mbind result_bind]; [|done|done].
  by apply IH.
Qed.

(** Committing a block's batch. *)
Lemma commit_fluxnode_batch h0 h s batch :
  h0 <= h -> fluxnode_store_ok h0 s -> fluxnode_batch_ok h s batch ->
  exists s', kv_write_batch s batch = Ok s' /\ fluxnode_store_ok h s'.
Proof.
  intros Hle Hs Hb. destruct (kv_commit s batch) as (s'&Hw&Hg). exists s'. split; [done|].
  assert (Hop : forall op, op ∈ batch -> fluxnode_op_ok h s batch op) by (by apply Forall_forall).
  assert (Hcol : forall k bs, load_key s' k = Ok (Some bs) -> dedupe_key bs = k).
  { intros k bs. unfold load_key. rewrite Hg. destruct (last_write batch FluxnodeKey k) as [r|] eqn:Hl.
    - intros [= ->]. apply last_write_elem, Hop in Hl. done.
    - apply Hs. }
  assert (Hkey : forall k, key_coming s batch k -> known_key s' k).
  { intros k Hk. unfold known_key, load_key. rewrite Hg.
    destruct (last_write batch FluxnodeKey k) as [[bs|]|] eqn:Hl.
    - eauto.
    - by apply last_write_elem, Hop in Hl.
    - destruct Hk as [Hk|[bs Hin]]; [done|]. by apply put_last_write in Hin as [? ?]; congruence. }
  split; [|done]. intros o Ho. unfold load_fluxnode_record at 1 2. rewrite Hg.
  destruct (last_write batch Fluxnode (outpoint_key o)) as [[bs|]|] eqn:Hl; cbn [mbind result_bind].
  - apply last_write_elem, Hop in Hl as (o'&r&Ho'&Eo&->&Hr&Hk).
    apply consensus_encode_inj in Eo; [subst o'|done|done]. right. exists r.
    rewrite FluxnodeRecord_decode_encode by apply Hr. split_and!; [done|done|].
    eapply Forall_impl; [apply Hk|]. auto.
  - by apply last_write_elem, Hop in Hl.
  - destruct (load_record_cases h0 s o Hs Ho) as [Hn|(r&Hr&Hok&Hk)]; [by left|right].
    exists r. split_and!; [done| |].
    + destruct Hok as (?&?&?&?). split_and!; try done; lia.
    + eapply Forall_impl; [apply Hk|]. intros. apply Hkey. by left.
Qed.

(** The chain's fluxnode history: blocks at increasing heights, each of whose
    transactions apply, on top of an empty store. *)
Inductive fluxnode_history : Z -> S -> Prop :=
| history_empty s :
    (forall k, kv_get s Fluxnode k = Ok None) -> (forall k, kv_get s FluxnodeKey k = Ok None) ->
    fluxnode_history 0 s
| history_block h0 h s s' txs batch :
    fluxnode_history h0 s -> h0 <= h -> is_u32 h -> block_txs_ok txs ->
    apply_fluxnode_txs s [] txs h = Ok batch -> kv_write_batch s batch = Ok s' ->
    fluxnode_history h s'.

(** The fluxnode database is consistent at every height of every history
    of blocks: each record decodes, carries its own collateral, was last
    confirmed at a height the chain has reached and first confirmed between
    its start and its last confirmation, every key it refers to is stored
    under the hash of its bytes (so the operator key of every registered node
    can be looked up); and on such a database the next block either applies,
    or is refused for one of the three reasons the code names, never by a
    decoding error or an abort. *)
Theorem fluxnode_history_consistent (h : Z) (s : S) :
  fluxnode_history h s ->
  (forall o, wf o ->
     load_fluxnode_record s o = Ok None /\ lookup_operator_pubkey s o = Ok None
     \/ exists r pubkey,
          load_fluxnode_record s o = Ok (Some r) /\ record_ok h o r
          /\ lookup_operator_pubkey s o = Ok (Some pubkey)
          /\ dedupe_key pubkey = fr_operator_pubkey r
          /\ Forall (known_key s) (record_keys r))
  /\ forall h' txs, h <= h' -> is_u32 h' -> block_txs_ok txs ->
       match apply_fluxnode_txs s [] txs h' with
       | Ok batch => exists s', kv_write_batch s batch = Ok s' /\ fluxnode_history h' s'
       | Err e => e ∈ fluxnode_errors
       | Panic => False
       end.
Proof.
  intros Hh. assert (Hs : fluxnode_store_ok h s).
  { induction Hh as [s Hr Hk|h0 h s s' txs batch Hh IH Hle Hu Htxs Ha Hw].
    - split; [|by intros k bs; unfold load_key; rewrite Hk].
      intros o Ho. left. unfold load_fluxnode_record. by rewrite Hr.
    - pose proof (apply_fluxnode_txs_ok h0 h s txs [] Hle Hu IH Htxs ltac:(constructor)) as Hstep.
      rewrite Ha in Hstep. destruct (commit_fluxnode_batch h0 h s batch Hle IH Hstep) as (s2&Hw2&Hs2).
      congruence. }
  split.
  - intros o Ho. unfold lookup_operator_pubkey.
    destruct (load_record_cases h s o Hs Ho) as [->|(r&->&Hr&Hk)]; cbn [mbind result_bind]; [by left|right].
    destruct (proj1 (Forall_cons _ _ _) Hk) as [[pk Hpk] _]. exists r, pk.
    split_and!; try done. by apply Hs.
  - intros h' txs Hle Hu Htxs.
    pose proof (apply_fluxnode_txs_ok h h' s txs [] Hle Hu Hs Htxs ltac:(constructor)) as Hstep.
    destruct (apply_fluxnode_txs s [] txs h') as [batch|e|] eqn:Ha; [|done|done].
    destruct (kv_commit s batch) as (s'&Hw&_). exists s'. split; [done|]. by eapply history_block.
Qed.
End invariant.

Definition sample_collateral : OutPoint := mkOutPoint (replicate 32 17) 1.
Definition sample_fluxnode_tx (payload : FluxnodeTx) : Transaction :=
  fluxnode_transaction false 5 0 payload.
Definition sample_start : Transaction :=
  sample_fluxnode_tx (V5 (StartV5 (mkStartV5 sample_collateral [2; 1] [2; 18; 52] 0 []))).
Definition sample_confirm : Transaction :=
  sample_fluxnode_tx (V5 (ConfirmV5 (mkConfirm sample_collateral 7 1 8 0 [49; 46; 50] [1] [2]))).
Definition sample_block_1 := [(sample_start, Some (mkStartMeta 1 1000))].
Definition sample_block_2 := [(sample_confirm, None : option FluxnodeStartMeta)].
Definition sample_step (s : MemoryStore) (txs : list (Transaction * option FluxnodeStartMeta)) (h : Z)
    : MemoryStore :=
  match apply_fluxnode_txs s [] txs h with
  | Ok b => mkMemory (foldl apply_op (inner s) b)
  | _ => s
  end.
Definition sample_store_1 := sample_step memory_new sample_block_1 100.
Definition sample_store_2 := sample_step sample_store_1 sample_block_2 130.

Lemma sample_history_step h0 h s txs :
  fluxnode_history h0 s -> h0 <= h -> is_u32 h -> block_txs_ok txs ->
  is_ok (apply_fluxnode_txs s [] txs h) = true -> fluxnode_history h (sample_step s txs h).
Proof.
  intros Hh Hle Hu Htxs Hok. destruct (apply_fluxnode_txs s [] txs h) as [b| |] eqn:E; [|done|done].
  eapply history_block; [done..|]. unfold sample_step. by rewrite E.
Qed.

Lemma sample_history : fluxnode_history 130 sample_store_2.
Proof.
  apply (sample_history_step 100); [|lia|by_decide| |vm_compute; reflexivity].
  - apply (sample_history_step 0); [by apply history_empty|lia|by_decide| |vm_compute; reflexivity].
    repeat constructor; try by_decide; simpl; int_lia.
  - repeat constructor; try by_decide; simpl; int_lia.
Qed.

Lemma fluxnode_history_consistent_witness :
  lookup_operator_pubkey sample_store_2 sample_collateral = Ok (Some [2; 18; 52])
  /\ exists r pubkey,
       load_fluxnode_record sample_store_2 sample_collateral = Ok (Some r)
       /\ record_ok 130 sample_collateral r
       /\ lookup_operator_pubkey sample_store_2 sample_collateral = Ok (Some pubkey)
       /\ dedupe_key pubkey = fr_operator_pubkey r
       /\ Forall (known_key sample_store_2) (record_keys r).
Proof.
  split; [vm_compute; reflexivity|].
  destruct (fluxnode_history_consistent 130 sample_store_2 sample_history) as [Hr _].
  destruct (Hr sample_collateral ltac:(by_decide)) as [[Hn _]|Hs]; [|done].
  exfalso. assert (Hs : is_ok (r ← load_fluxnode_record sample_store_2 sample_collateral; ok_or r missing_meta) = true)
    by (vm_compute; reflexivity). by rewrite Hn in Hs.
Defined.

(** An update confirm before the first confirm is refused. *)
Example update_refused :
  apply_fluxnode_txs sample_store_1 []
    [(sample_fluxnode_tx (V6 (ConfirmV6 (mkConfirm sample_collateral 7 1 8 1 [] [] []))), None)] 101
  = Err update_before_confirm.
Proof. vm_compute. reflexivity. Qed.

(** ** Key schedules *)
Lemma select_from_spec time current keys :
  let k := select_from time current keys in
  (k = current \/ k ∈ keys /\ valid_from k <= time)
  /\ valid_from current <= valid_from k
  /\ forall k', k' ∈ keys -> valid_from k' <= time -> valid_from k' <= valid_from k.
Proof.
  revert current; induction keys as [|x keys IH]; intros current; cbn [select_from].
  - split_and!; [by left|lia|]. intros k' Hk'. by apply elem_of_nil in Hk'.
  - destruct (IH (if (valid_from x <=? time) && (valid_from x >=? valid_from current) then x else current))
      as (H1&H2&H3).
    assert (Hc : valid_from current
                 <= valid_from (if (valid_from x <=? time) && (valid_from x >=? valid_from current) then x else current)).
    { destruct (Z.leb_spec (valid_from x) time), (Z.geb_spec (valid_from x) (valid_from current)); simpl; lia. }
    split_and!; [|lia|].
    + destruct H1 as [->|[Hin ?]]; [|right; split; [by apply list_elem_of_further|done]].
      destruct (Z.leb_spec (valid_from x) time); simpl; [|by left].
      destruct (valid_from x >=? valid_from current); [right|by left].
      split; [apply list_elem_of_here|done].
    + intros k' Hk' Hle. apply elem_of_cons in Hk' as [->|Hk']; [|by apply H3].
      revert H2. destruct (Z.leb_spec (valid_from x) time), (Z.geb_spec (valid_from x) (valid_from current));
        simpl; lia.
Qed.

(** The active key of a schedule is its newest key that is already valid, or
    its first key when none is. *)
Lemma select_active_key_newest time keys k :
  select_active_key time keys = Ok k ->
  k ∈ keys /\ (valid_from k <= time \/ head keys = Some k)
  /\ forall k', k' ∈ keys -> valid_from k' <= time -> valid_from k' <= valid_from k.
Proof.
  destruct keys as [|x keys]; [done|]. intros E.
  assert (k = select_from time x (x :: keys)) as -> by (by injection E).
  destruct (select_from_spec time x (x :: keys)) as (H1&_&H3). split_and!; [| |done].
  - destruct H1 as [->|[? _]]; [apply list_elem_of_here|done].
  - destruct H1 as [->|[_ ?]]; [by right|by left].
Qed.

(** Every network has a benchmarking key at every time. *)
Lemma benchmarking_key_total time params :
  params ∈ chain_params <$> [Mainnet; Testnet; Regtest] ->
  exists k, benchmarking_key_at time params = Ok k.
Proof.
  intros (n&->&Hn)%list_elem_of_fmap. destruct n; by eexists.
Qed.
