(* ===== verification/Utxo.v ===== *)
(** * The UTXO set and block undo data ([chainstate/src/utxo.rs], [undo.rs])

    Unspent outputs are stored under their outpoint; the undo data of a block
    holds what the block overwrote, in the order it was overwritten. *)

From S2P Require Import Prelude Encoding Hashing Transaction Storage Fluxnode.
From Stdlib Require Import ZArith Lia.
From stdpp Require Import base list option numbers strings gmap.
#[local] Open Scope Z_scope.

(** ** Entries *)
Record UtxoEntry := mkUtxoEntry {
  ue_value : Z; ue_script_pubkey : bytes; ue_height : Z; ue_is_coinbase : bool }.

#[global] Instance UtxoEntry_eq_dec : EqDecision UtxoEntry.
Proof. solve_decision. Defined.

Definition UtxoEntry_encode (e : UtxoEntry) : bytes :=
  write_i64_le (ue_value e) ++ write_var_bytes (ue_script_pubkey e) ++ write_u32_le (ue_height e)
  ++ write_u8 (if ue_is_coinbase e then 1 else 0).

Definition UtxoEntry_fields : parser DecodeError UtxoEntry :=
  value ← read_i64_le;
  script_pubkey ← read_var_bytes;
  height ← read_u32_le;
  is_coinbase ← read_u8;
  mret (mkUtxoEntry value script_pubkey height (negb (is_coinbase =? 0))).

Definition UtxoEntry_decode (bs : bytes) : result DecodeError UtxoEntry :=
  decode_all TrailingBytes UtxoEntry_fields bs.

(** ** Keys *)
Definition OUTPOINT_KEY_LEN : nat := 36.
Abbreviation OutPointKey := (list Z).

Definition OutPointKey_new (outpoint : OutPoint) : OutPointKey :=
  hash outpoint ++ le_bytes 4 (op_index outpoint).
Definition OutPointKey_from_slice (bs : bytes) : option OutPointKey :=
  if (length bs =? OUTPOINT_KEY_LEN)%nat then Some bs else None.

(** ** The set *)
Section utxo_set.
  Context {S : Type} {KV : KeyValueStore S}.

Definition utxo_get (store : S) (outpoint : OutPoint) : result StoreError (option UtxoEntry) :=
  bs ← kv_get store Utxo (OutPointKey_new outpoint);
  match bs with
  | Some bs =>
      e ← map_err (fun err => Backend (DecodeError_to_string err)) (UtxoEntry_decode bs);
      Ok (Some e)
  | None => Ok None
  end.
Definition utxo_put (batch : WriteBatch) (outpoint : OutPoint) (entry : UtxoEntry) : WriteBatch :=
  batch_put batch Utxo (OutPointKey_new outpoint) (UtxoEntry_encode entry).
Definition utxo_delete (batch : WriteBatch) (outpoint : OutPoint) : WriteBatch :=
  batch_delete batch Utxo (OutPointKey_new outpoint).
End utxo_set.

(** ** Undo data *)
Definition BLOCK_UNDO_VERSION : Z := 2.

Record SpentOutput := mkSpentOutput { so_outpoint : OutPoint; so_entry : UtxoEntry }.
Record FluxnodeUndo := mkFluxnodeUndo { fu_collateral : OutPoint; fu_prev : option FluxnodeRecord }.
Record BlockUndo := mkBlockUndo {
  prev_sprout_tree : bytes; prev_sapling_tree : bytes; undo_spent : list SpentOutput;
  undo_fluxnode : list FluxnodeUndo; undo_fluxnode_extra : list FluxnodeUndo }.

Definition SpentOutput_encode (s : SpentOutput) : bytes :=
  consensus_encode (so_outpoint s) ++ write_var_bytes (UtxoEntry_encode (so_entry s)).
Definition FluxnodeUndo_encode (e : FluxnodeUndo) : bytes :=
  consensus_encode (fu_collateral e)
  ++ match fu_prev e with
     | Some record => write_u8 1 ++ write_var_bytes (FluxnodeRecord_encode record)
     | None => write_u8 0
     end.

(** The length of a vector, as [u32], and its elements. *)
Definition write_u32_list {A} (enc : A -> bytes) (l : list A) : bytes :=
  write_u32_le (Z.of_nat (length l)) ++ write_list enc l.
Definition read_u32_list {A} (m : parser DecodeError A) : parser DecodeError (list A) :=
  len ← read_u32_le; read_n (Z.to_nat len) m.

Definition BlockUndo_encode (u : BlockUndo) : bytes :=
  write_u8 BLOCK_UNDO_VERSION
  ++ write_var_bytes (prev_sprout_tree u)
  ++ write_var_bytes (prev_sapling_tree u)
  ++ write_u32_list SpentOutput_encode (undo_spent u)
  ++ write_u32_list FluxnodeUndo_encode (undo_fluxnode u)
  ++ write_u32_list FluxnodeUndo_encode (undo_fluxnode_extra u).

(** A record stored inside a length-prefixed field: any error in it becomes
    [InvalidData message]. *)
Definition nested {E A} (message : string) (decode : bytes -> result E A) (bs : bytes)
    : parser DecodeError A := fun d =>
  a ← map_err (fun _ => InvalidData message) (decode bs); Ok (a, d).

Definition read_spent_output : parser DecodeError SpentOutput :=
  outpoint ← consensus_decode;
  entry_bytes ← read_var_bytes;
  entry ← nested "invalid utxo entry in undo" UtxoEntry_decode entry_bytes;
  mret (mkSpentOutput outpoint entry).

Definition read_fluxnode_undo : parser DecodeError FluxnodeUndo :=
  collateral ← consensus_decode;
  has_prev ← read_u8;
  prev ← (if negb (has_prev =? 0) then
            record_bytes ← read_var_bytes;
            record ← nested "invalid fluxnode record in undo" FluxnodeRecord_decode record_bytes;
            mret (Some record)
          else mret None);
  mret (mkFluxnodeUndo collateral prev).

Definition BlockUndo_fields : parser DecodeError BlockUndo :=
  version ← read_u8;
  if negb (version =? 1) && negb (version =? BLOCK_UNDO_VERSION)
  then fail (InvalidData "unsupported block undo version")
  else
    prev_sprout_tree ← read_var_bytes;
    prev_sapling_tree ← read_var_bytes;
    spent ← read_u32_list read_spent_output;
    fluxnode ← read_u32_list read_fluxnode_undo;
    fluxnode_extra ← (if version =? 1 then mret [] else read_u32_list read_fluxnode_undo);
    mret (mkBlockUndo prev_sprout_tree prev_sapling_tree spent fluxnode fluxnode_extra).

Definition BlockUndo_decode (bs : bytes) : result DecodeError BlockUndo :=
  decode_all TrailingBytes BlockUndo_fields bs.

(** ** Codec laws *)
Definition UtxoEntry_wf (e : UtxoEntry) : Prop :=
  is_i64 (ue_value e) /\ var_ok (ue_script_pubkey e) /\ is_u32 (ue_height e).
#[global] Instance UtxoEntry_wf_dec e : Decision (UtxoEntry_wf e).
Proof. unfold UtxoEntry_wf; apply _. Defined.

Lemma UtxoEntry_reads e : UtxoEntry_wf e -> reads UtxoEntry_fields (UtxoEntry_encode e) e.
Proof.
  destruct e as [v s h c]. intros (?&[? ?]&?). unfold UtxoEntry_encode, UtxoEntry_fields.
  cbn [ue_value ue_script_pubkey ue_height ue_is_coinbase] in *.
  do 3 (eapply reads_bind; [solve [eauto with codec]|]; cbv beta).
  eapply reads_bind_nil; [apply read_u8_reads; destruct c; int_lia|]. destruct c; apply reads_ret.
Qed.

Lemma UtxoEntry_decode_encode e : UtxoEntry_wf e -> UtxoEntry_decode (UtxoEntry_encode e) = Ok e.
Proof. intros. by apply reads_decode_all, UtxoEntry_reads. Qed.

Lemma no_panic_FluxnodeRecord : no_panic FluxnodeRecord_fields.
Proof.
  assert (Hk : no_panic read_optional_key) by (unfold read_optional_key; solve_no_panic).
  assert (Hend : no_panic (E:=DecodeError) at_end) by done.
  unfold FluxnodeRecord_fields. apply no_panic_bind; [apply no_panic_OutPoint|intros].
  repeat first [done | solve_no_panic].
Qed.

Lemma no_panic_UtxoEntry : no_panic UtxoEntry_fields.
Proof. unfold UtxoEntry_fields. solve_no_panic. Qed.

(** *** Nested records *)
Lemma nested_reads {E A} msg (decode : bytes -> result E A) bs a :
  decode bs = Ok a -> reads (nested msg decode bs) [] a.
Proof. intros Hd d rest _. unfold nested. rewrite Hd. cbn. by rewrite advance_0. Qed.

Lemma no_panic_nested {E A} msg (decode : bytes -> result E A) bs :
  decode bs <> Panic -> no_panic (nested msg decode bs).
Proof. intros Hd d. unfold nested. by destruct (decode bs). Qed.

(** A stored record fits in a length-prefixed field. *)
Definition SpentOutput_wf (s : SpentOutput) : Prop :=
  wf (so_outpoint s) /\ UtxoEntry_wf (so_entry s) /\ fits_compact (UtxoEntry_encode (so_entry s)).
Definition FluxnodeUndo_wf (u : FluxnodeUndo) : Prop :=
  wf (fu_collateral u) /\
  match fu_prev u with
  | Some r => FluxnodeRecord_wf r /\ fits_compact (FluxnodeRecord_encode r)
  | None => True
  end.
Definition u32_list_wf {A} (P : A -> Prop) (l : list A) : Prop :=
  is_u32 (Z.of_nat (length l)) /\ Forall P l.
Definition BlockUndo_wf (u : BlockUndo) : Prop :=
  var_ok (prev_sprout_tree u) /\ var_ok (prev_sapling_tree u)
  /\ u32_list_wf SpentOutput_wf (undo_spent u) /\ u32_list_wf FluxnodeUndo_wf (undo_fluxnode u)
  /\ u32_list_wf FluxnodeUndo_wf (undo_fluxnode_extra u).

#[global] Instance SpentOutput_wf_dec s : Decision (SpentOutput_wf s).
Proof. unfold SpentOutput_wf; simpl; apply _. Defined.
#[global] Instance FluxnodeUndo_wf_dec u : Decision (FluxnodeUndo_wf u).
Proof. unfold FluxnodeUndo_wf; simpl; destruct (fu_prev u); apply _. Defined.
#[global] Instance u32_list_wf_dec {A} (P : A -> Prop) `{forall a, Decision (P a)} l :
  Decision (u32_list_wf P l).
Proof. unfold u32_list_wf; apply _. Defined.
#[global] Instance BlockUndo_wf_dec u : Decision (BlockUndo_wf u).
Proof. unfold BlockUndo_wf; apply _. Defined.

Lemma SpentOutput_reads s : SpentOutput_wf s -> reads read_spent_output (SpentOutput_encode s) s.
Proof.
  destruct s as [o e]. intros (Ho&He&Hf). cbn [so_outpoint so_entry] in *.
  eapply reads_bind; [by apply codec_reads|]. cbv beta.
  eapply reads_bind_nil; [by apply read_var_bytes_reads|]. cbv beta.
  eapply reads_bind_nil; [by apply nested_reads, UtxoEntry_decode_encode|]. apply reads_ret.
Qed.

Lemma FluxnodeUndo_reads u : FluxnodeUndo_wf u -> reads read_fluxnode_undo (FluxnodeUndo_encode u) u.
Proof.
  destruct u as [o [r|]]; intros (Ho&Hr); cbn [fu_collateral fu_prev] in *;
    (eapply reads_bind; [by apply codec_reads|]; cbv beta; cbn [fu_prev]).
  - destruct Hr as [Hr Hf]. eapply reads_bind; [apply read_u8_reads; int_lia|]. cbv beta.
    eapply reads_bind_nil; [|apply reads_ret].
    eapply reads_bind_nil; [by apply read_var_bytes_reads|]. cbv beta.
    eapply reads_bind_nil; [by apply nested_reads, FluxnodeRecord_decode_encode|]. apply reads_ret.
  - eapply reads_bind_nil; [apply read_u8_reads; int_lia|]. apply reads_ret.
Qed.

Lemma u32_list_reads {A} (m : parser DecodeError A) enc (P : A -> Prop) l :
  (forall a, P a -> reads m (enc a) a) -> u32_list_wf P l ->
  reads (read_u32_list m) (write_u32_list enc l) l.
Proof.
  intros Hm [Hl HP]. eapply reads_bind; [by apply read_u32_le_reads|]. cbv beta.
  rewrite Nat2Z.id. by apply read_n_reads with P.
Qed.

Lemma no_panic_u32_list {A} (m : parser DecodeError A) : no_panic m -> no_panic (read_u32_list m).
Proof. intros. unfold read_u32_list. solve_no_panic. Qed.

Lemma no_panic_BlockUndo : no_panic BlockUndo_fields.
Proof.
  assert (Hf : no_panic (read_u32_list read_fluxnode_undo)).
  { apply no_panic_u32_list. unfold read_fluxnode_undo.
    apply no_panic_bind; [apply no_panic_OutPoint|intros]. apply no_panic_bind; [solve_no_panic|intros].
    apply no_panic_bind; [|solve_no_panic]. case_match; [|solve_no_panic].
    apply no_panic_bind; [solve_no_panic|intros].
    apply no_panic_bind; [|solve_no_panic]. apply no_panic_nested, no_panic_decode_all, no_panic_FluxnodeRecord. }
  assert (Hs : no_panic (read_u32_list read_spent_output)).
  { apply no_panic_u32_list. unfold read_spent_output.
    apply no_panic_bind; [apply no_panic_OutPoint|intros]. apply no_panic_bind; [solve_no_panic|intros].
    apply no_panic_bind; [|solve_no_panic]. apply no_panic_nested, no_panic_decode_all, no_panic_UtxoEntry. }
  unfold BlockUndo_fields. repeat first [done | solve_no_panic].
Qed.

(** The layout version 1 files have: no extra fluxnode entries. *)
Definition BlockUndo_encode_v1 (u : BlockUndo) : bytes :=
  write_u8 1
  ++ write_var_bytes (prev_sprout_tree u)
  ++ write_var_bytes (prev_sapling_tree u)
  ++ write_u32_list SpentOutput_encode (undo_spent u)
  ++ write_u32_list FluxnodeUndo_encode (undo_fluxnode u).

(** Undo data survives its file.  A block's undo data decodes to exactly
    what was encoded (spent outputs and fluxnode records in their order, with
    their nested encodings), the layout of older files decodes to the same
    data with no extra fluxnode entries, and no byte string whatever makes
    the decoder abort. *)
Theorem block_undo_roundtrip (u : BlockUndo) :
  BlockUndo_wf u ->
  BlockUndo_decode (BlockUndo_encode u) = Ok u
  /\ BlockUndo_decode (BlockUndo_encode_v1 u)
     = Ok (mkBlockUndo (prev_sprout_tree u) (prev_sapling_tree u) (undo_spent u) (undo_fluxnode u) [])
  /\ forall bs, BlockUndo_decode bs <> Panic.
Proof.
  destruct u as [a b s f x]. intros ([? ?]&[? ?]&Hs&Hf&Hx).
  cbn [prev_sprout_tree prev_sapling_tree undo_spent undo_fluxnode undo_fluxnode_extra] in *.
  split_and!; [| |intros bs; apply no_panic_decode_all, no_panic_BlockUndo]; apply reads_decode_all;
    unfold BlockUndo_encode, BlockUndo_encode_v1, BlockUndo_fields, BLOCK_UNDO_VERSION;
    cbn [prev_sprout_tree prev_sapling_tree undo_spent undo_fluxnode undo_fluxnode_extra];
    (eapply reads_bind; [apply read_u8_reads; int_lia|]); cbn [Z.eqb Pos.eqb negb andb];
    do 2 (eapply reads_bind; [by apply read_var_bytes_reads|]; cbv beta);
    (eapply reads_bind; [by eapply u32_list_reads; [apply SpentOutput_reads|]|]); cbv beta.
  - eapply reads_bind; [by eapply u32_list_reads; [apply FluxnodeUndo_reads|]|]. cbv beta.
    eapply reads_bind_nil; [by eapply u32_list_reads; [apply FluxnodeUndo_reads|]|]. apply reads_ret.
  - eapply reads_bind_nil; [by eapply u32_list_reads; [apply FluxnodeUndo_reads|]|].
    eapply reads_bind_nil; [apply reads_ret|]. apply reads_ret.
Qed.

Definition sample_undo : BlockUndo := {|
  prev_sprout_tree := [1; 2]; prev_sapling_tree := [];
  undo_spent := [mkSpentOutput sample_collateral (mkUtxoEntry 5000 [118; 169] 12 true)];
  undo_fluxnode := [mkFluxnodeUndo sample_collateral None];
  undo_fluxnode_extra := [mkFluxnodeUndo sample_collateral
    (Some (mkFluxnodeRecord sample_collateral 1 2 3 4 5 6 (zeros 32) None (Some (zeros 32)) None [65]))] |}.

Lemma block_undo_roundtrip_witness :
  BlockUndo_wf sample_undo /\ BlockUndo_decode (BlockUndo_encode sample_undo) = Ok sample_undo.
Proof.
  assert (Hw : BlockUndo_wf sample_undo) by by_decide.
  split; [exact Hw|]. exact (proj1 (block_undo_roundtrip sample_undo Hw)).
Defined.

(** ** The set as a map *)
#[global] Program Instance OutPoint_countable : Countable OutPoint :=
  inj_countable' (fun o => (hash o, op_index o)) (fun p => mkOutPoint p.1 p.2) _.
Next Obligation. by intros []. Qed.

Lemma OutPointKey_inj (a b : OutPoint) : wf a -> wf b -> OutPointKey_new a = OutPointKey_new b -> a = b.
Proof. apply (consensus_encode_inj (A:=OutPoint)). Qed.

(** The changes a block makes to the set. *)
Inductive UtxoChange := Created (outpoint : OutPoint) (entry : UtxoEntry) | Spent (outpoint : OutPoint).

Definition change_wf (c : UtxoChange) : Prop :=
  match c with Created o e => wf o /\ UtxoEntry_wf e | Spent o => wf o end.
#[global] Instance change_wf_dec c : Decision (change_wf c).
Proof. destruct c; simpl; apply _. Defined.
Definition change_op (c : UtxoChange) : WriteOp :=
  match c with
  | Created o e => Put Utxo (OutPointKey_new o) (UtxoEntry_encode e)
  | Spent o => Storage.Delete Utxo (OutPointKey_new o)
  end.
Definition utxo_change (batch : WriteBatch) (c : UtxoChange) : WriteBatch :=
  match c with Created o e => utxo_put batch o e | Spent o => utxo_delete batch o end.
Definition apply_change (m : gmap OutPoint UtxoEntry) (c : UtxoChange) : gmap OutPoint UtxoEntry :=
  match c with Created o e => <[o := e]> m | Spent o => delete o m end.

Lemma utxo_changes_ops cs b : foldl utxo_change b cs = b ++ map change_op cs.
Proof.
  revert b; induction cs as [|c cs IH]; intros b; cbn [foldl map]; [by rewrite app_nil_r|].
  rewrite IH. by destruct c; unfold utxo_change, utxo_put, utxo_delete, batch_put, batch_delete;
    rewrite <- app_assoc.
Qed.

(** The last write of a run of changes to an outpoint is what the map says. *)
Lemma last_change m cs o :
  Forall change_wf cs -> wf o ->
  match last_write (map change_op cs) Utxo (OutPointKey_new o) with
  | Some (Some v) => exists e, v = UtxoEntry_encode e /\ UtxoEntry_wf e /\ foldl apply_change m cs !! o = Some e
  | Some None => foldl apply_change m cs !! o = None
  | None => foldl apply_change m cs !! o = m !! o
  end.
Proof.
  intros Hcs Ho. induction cs as [|c cs IH] using rev_ind; [done|].
  apply Forall_app in Hcs as [Hcs Hc]. apply Forall_cons in Hc as [Hc _]. specialize (IH Hcs).
  rewrite map_app, last_write_app, foldl_app. cbn [map foldl last_write].
  destruct c as [o' e|o']; cbn [change_op apply_change change_wf] in *; case_bool_decide as E.
  - injection E as E. apply OutPointKey_inj in E; [|apply Hc|done]. subst o'.
    exists e. rewrite lookup_insert_eq. by destruct Hc.
  - rewrite lookup_insert_ne by congruence. apply IH.
  - injection E as E. apply OutPointKey_inj in E; [|done..]. subst o'. apply lookup_delete_eq.
  - rewrite lookup_delete_ne by congruence. apply IH.
Qed.

Lemma last_change_other cs c k : c <> Utxo -> last_write (map change_op cs) c k = None.
Proof.
  intros Hc. induction cs as [|x cs IH]; [done|]. cbn [map last_write]. rewrite IH.
  by destruct x; cbn [change_op]; rewrite bool_decide_false by congruence.
Qed.

Section refinement.
  Context {S : Type} `{KVL : KeyValueStoreLaws S}.

(** The store holds the unspent outputs [m]. *)
Definition utxo_represents (s : S) (m : gmap OutPoint UtxoEntry) : Prop :=
  forall o, wf o -> utxo_get s o = Ok (m !! o).

Lemma utxo_changes_commit (s : S) (m : gmap OutPoint UtxoEntry) (cs : list UtxoChange) :
  utxo_represents s m -> Forall change_wf cs ->
  exists s',
    kv_write_batch s (foldl utxo_change [] cs) = Ok s'
    /\ utxo_represents s' (foldl apply_change m cs)
    /\ forall c k, c <> Utxo -> kv_get s' c k = kv_get s c k.
Proof.
  intros Hm Hcs. rewrite utxo_changes_ops, app_nil_l.
  destruct (kv_commit s (map change_op cs)) as (s'&Hw&Hg). exists s'. split_and!; [done| |].
  - intros o Ho. unfold utxo_get. rewrite Hg. pose proof (last_change m cs o Hcs Ho) as Hl.
    destruct (last_write _ _ _) as [[v|]|]; cbn [mbind result_bind].
    + destruct Hl as (e&->&He&->). by rewrite UtxoEntry_decode_encode.
    + by rewrite Hl.
    + rewrite Hl. by apply Hm.
  - intros c k Hc. by rewrite Hg, last_change_other.
Qed.

(** The stored UTXO set refines a finite map from outpoints to entries.
    If the store represents the map [m], then any run of creations and
    spendings, in one batch and including several on the same outpoint,
    commits to a store that represents [m] with the same run applied to it,
    and leaves every other column as it was. *)
Theorem utxo_set_refines_map (s : S) (m : gmap OutPoint UtxoEntry) (cs : list UtxoChange) :
  utxo_represents s m -> Forall change_wf cs ->
  exists s',
    kv_write_batch s (foldl utxo_change [] cs) = Ok s'
    /\ utxo_represents s' (foldl apply_change m cs)
    /\ forall c k, c <> Utxo -> kv_get s' c k = kv_get s c k.
Proof. apply utxo_changes_commit. Qed.
End refinement.

Definition sample_changes : list UtxoChange :=
  [Created sample_collateral (mkUtxoEntry 5000 [118; 169] 12 true);
   Created OutPoint_null (mkUtxoEntry 7 [] 13 false); Spent sample_collateral].

Lemma utxo_set_refines_map_witness :
  exists s' : MemoryStore,
    kv_write_batch memory_new (foldl utxo_change [] sample_changes) = Ok s'
    /\ utxo_represents s' (foldl apply_change ∅ sample_changes)
    /\ forall c k, c <> Utxo -> kv_get s' c k = kv_get memory_new c k.
Proof. apply (utxo_set_refines_map memory_new ∅ sample_changes); [done|by_decide]. Defined.
