(* ===== verification/FlatFiles.v ===== *)
(** * Flat files ([chainstate/src/flatfiles.rs], [filemeta.rs])

    Blocks and undo data are appended, length-prefixed, to numbered files; the
    database keeps their locations.  The directory is a map from file numbers
    to contents; what the operating system does when a write fails is an
    argument of the operation. *)

From S2P Require Import Prelude Encoding.
From Stdlib Require Import ZArith Lia.
From stdpp Require Import base list option numbers strings gmap.
#[local] Open Scope Z_scope.

(** ** Locations *)
Record FileLocation := mkFileLocation { file_id : Z; offset : Z; loc_len : Z }.

#[global] Instance FileLocation_eq_dec : EqDecision FileLocation.
Proof. solve_decision. Defined.

Definition FileLocation_encode (l : FileLocation) : bytes :=
  le_bytes 4 (file_id l) ++ le_bytes 8 (offset l) ++ le_bytes 4 (loc_len l).
Definition FileLocation_decode (bs : bytes) : option FileLocation :=
  if negb (length bs =? 16)%nat then None
  else Some (mkFileLocation (from_le (slice bs 0 4)) (from_le (slice bs 4 12)) (from_le (slice bs 12 16))).

Definition FileLocation_wf (l : FileLocation) : Prop :=
  is_u32 (file_id l) /\ is_u64 (offset l) /\ is_u32 (loc_len l).
#[global] Instance FileLocation_wf_dec l : Decision (FileLocation_wf l).
Proof. unfold FileLocation_wf; apply _. Defined.

(** ** The store *)
Inductive FlatFileError := Io | InvalidLocation | LengthMismatch.

Abbreviation Files := (gmap Z bytes).

Record FlatFileState := mkFlatFileState { current_file : Z; current_len : Z }.

(** The directory's entries in some order: the highest file number wins. *)
Definition last_existing (entries : list (Z * bytes)) : option (Z * Z) :=
  foldl (fun last e =>
    let found := Some (e.1, Z.of_nat (length e.2)) in
    match last with
    | Some (current, _) => if e.1 <=? current then last else found
    | None => found
    end) None entries.

Definition locate_active_file (files : Files) (max_file_size : Z) : FlatFileState :=
  match last_existing (map_to_list files) with
  | Some (last_id, len) =>
      if len >=? max_file_size then mkFlatFileState (wrap_u32 (last_id + 1)) 0
      else mkFlatFileState last_id len
  | None => mkFlatFileState 0 0
  end.

(** A failing operating system: opening the file fails, or the write stops
    after some bytes. *)
Inductive Fault := OpenFails | WriteStops (written : nat).

Definition append_to (files : Files) (id : Z) (data : bytes) : Files :=
  <[id := default [] (files !! id) ++ data]> files.

Definition append (max_file_size : Z) (fault : option Fault) (st : FlatFileState) (files : Files)
    (bs : bytes) : FlatFileState * Files * result FlatFileError FileLocation :=
  let needed := 4 + Z.of_nat (length bs) in
  let st := if wrap_u64 (current_len st + needed) >? max_file_size
            then mkFlatFileState (wrap_u32 (current_file st + 1)) 0 else st in
  let offset := current_len st in
  let len := wrap_u32 (Z.of_nat (length bs)) in
  let data := le_bytes 4 len ++ bs in
  match fault with
  | Some OpenFails => (st, files, Err Io)
  | Some (WriteStops n) => (st, append_to files (current_file st) (take n data), Err Io)
  | None =>
      (mkFlatFileState (current_file st) (wrap_u64 (current_len st + needed)),
       append_to files (current_file st) data,
       Ok (mkFileLocation (current_file st) offset len))
  end.

(** [read_exact] at a position of an open file. *)
Definition read_exact (content : bytes) (position len : nat) : result FlatFileError bytes :=
  if Nat.leb (position + len) (length content) then Ok (slice content position (position + len))
  else Err Io.

Definition read (files : Files) (location : FileLocation) : result FlatFileError bytes :=
  if loc_len location =? 0 then Err InvalidLocation
  else
    content ← ok_or (files !! file_id location) Io;
    let position := Z.to_nat (offset location) in
    len_bytes ← read_exact content position 4;
    let stored_len := from_le len_bytes in
    if negb (stored_len =? loc_len location) then Err LengthMismatch
    else read_exact content (position + 4) (Z.to_nat stored_len).

Definition remove_file (files : Files) (id : Z) : Files * result FlatFileError unit :=
  match files !! id with
  | Some _ => (delete id files, Ok tt)
  | None => (files, Err Io)
  end.

(** ** File metadata *)
Definition META_BLOCK_FILES_LAST_FILE_KEY : bytes := ascii_bytes "flatfiles:blocks:last_file".
Definition META_BLOCK_FILES_LAST_LEN_KEY : bytes := ascii_bytes "flatfiles:blocks:last_len".
Definition META_UNDO_FILES_LAST_FILE_KEY : bytes := ascii_bytes "flatfiles:undo:last_file".
Definition META_UNDO_FILES_LAST_LEN_KEY : bytes := ascii_bytes "flatfiles:undo:last_len".
Definition META_BLOCK_FILES_PRUNED_FILE_KEY : bytes := ascii_bytes "flatfiles:blocks:pruned_file".
Definition META_UNDO_FILES_PRUNED_FILE_KEY : bytes := ascii_bytes "flatfiles:undo:pruned_file".
Definition META_BLOCK_FILE_INFO_PREFIX : bytes := ascii_bytes "flatfiles:blocks:file:".
Definition META_UNDO_FILE_INFO_PREFIX : bytes := ascii_bytes "flatfiles:undo:file:".
Definition FLATFILE_INFO_FLAG_PRUNED : Z := 1.

Record FlatFileInfo := mkFlatFileInfo {
  ffi_blocks : Z; ffi_size : Z; height_first : Z; height_last : Z; time_first : Z; time_last : Z;
  ffi_flags : Z }.

Definition FlatFileInfo_encode (i : FlatFileInfo) : bytes :=
  write_u32_le (ffi_blocks i) ++ write_u64_le (ffi_size i) ++ write_i32_le (height_first i)
  ++ write_i32_le (height_last i) ++ write_u32_le (time_first i) ++ write_u32_le (time_last i)
  ++ write_u32_le (ffi_flags i).

Definition FlatFileInfo_fields : parser DecodeError FlatFileInfo :=
  blocks ← read_u32_le;
  size ← read_u64_le;
  height_first ← read_i32_le;
  height_last ← read_i32_le;
  time_first ← read_u32_le;
  time_last ← read_u32_le;
  flags ← read_u32_le;
  mret (mkFlatFileInfo blocks size height_first height_last time_first time_last flags).

(** [.ok()?] drops the error. *)
Definition FlatFileInfo_decode (bs : bytes) : option FlatFileInfo :=
  match decode_all TrailingBytes FlatFileInfo_fields bs with Ok i => Some i | _ => None end.

Definition block_file_info_key (id : Z) : bytes := META_BLOCK_FILE_INFO_PREFIX ++ le_bytes 4 id.
Definition undo_file_info_key (id : Z) : bytes := META_UNDO_FILE_INFO_PREFIX ++ le_bytes 4 id.

Definition parse_file_info_key (prefix key : bytes) : option Z :=
  if negb (length key =? length prefix + 4)%nat then None
  else if negb (starts_with key prefix) then None
  else Some (from_le (drop (length prefix) key)).
Definition parse_block_file_info_key : bytes -> option Z := parse_file_info_key META_BLOCK_FILE_INFO_PREFIX.
Definition parse_undo_file_info_key : bytes -> option Z := parse_file_info_key META_UNDO_FILE_INFO_PREFIX.

(** ** Codecs *)
Lemma FileLocation_encode_array l : length (FileLocation_encode l) = 16%nat.
Proof. unfold FileLocation_encode. by rewrite !length_app, !length_le_bytes. Qed.

Lemma FileLocation_decode_encode l :
  FileLocation_wf l -> FileLocation_decode (FileLocation_encode l) = Some l.
Proof.
  intros (?&?&?). unfold FileLocation_decode. rewrite FileLocation_encode_array. cbn [negb Nat.eqb].
  unfold FileLocation_encode.
  rewrite slice_first by (by rewrite ?length_le_bytes).
  rewrite slice_at by (by rewrite !length_le_bytes).
  rewrite app_assoc, slice_last by (by rewrite ?length_app, !length_le_bytes).
  rewrite !from_le_le_bytes_4, from_le_le_bytes_8 by done. by destruct l.
Qed.

Definition FlatFileInfo_wf (i : FlatFileInfo) : Prop :=
  is_u32 (ffi_blocks i) /\ is_u64 (ffi_size i) /\ is_i32 (height_first i) /\ is_i32 (height_last i)
  /\ is_u32 (time_first i) /\ is_u32 (time_last i) /\ is_u32 (ffi_flags i).

Lemma FlatFileInfo_decode_encode i :
  FlatFileInfo_wf i -> FlatFileInfo_decode (FlatFileInfo_encode i) = Some i.
Proof.
  intros Hi. unfold FlatFileInfo_decode. rewrite (reads_decode_all _ _ _ i); [done|].
  destruct i, Hi as (?&?&?&?&?&?&?). unfold FlatFileInfo_encode, FlatFileInfo_fields.
  cbn [ffi_blocks ffi_size height_first height_last time_first time_last ffi_flags] in *. solve_reads.
Qed.

Lemma parse_file_info_key_ok prefix id : is_u32 id -> parse_file_info_key prefix (prefix ++ le_bytes 4 id) = Some id.
Proof.
  intros Hid. unfold parse_file_info_key.
  rewrite length_app, length_le_bytes, Nat.eqb_refl, starts_with_app, drop_app_length. cbn [negb].
  by rewrite from_le_le_bytes_4.
Qed.

(** The two families of keys do not overlap. *)
Lemma file_info_keys_disjoint id :
  parse_block_file_info_key (undo_file_info_key id) = None
  /\ parse_undo_file_info_key (block_file_info_key id) = None.
Proof.
  unfold parse_block_file_info_key, parse_undo_file_info_key, parse_file_info_key,
    undo_file_info_key, block_file_info_key.
  rewrite !length_app, !length_le_bytes. by split.
Qed.

(** ** Appending and reading *)
Lemma slice_app_le {A} (l x : list A) i j : (j <= length l)%nat -> slice (l ++ x) i j = slice l i j.
Proof.
  intros Hj. unfold slice. destruct (decide (i <= length l)%nat).
  - rewrite drop_app_le by done. rewrite take_app_le; [done|]. rewrite length_drop. lia.
  - replace (j - i)%nat with 0%nat by lia. done.
Qed.

Lemma read_exact_app content x p n d :
  read_exact content p n = Ok d -> read_exact (content ++ x) p n = Ok d.
Proof.
  unfold read_exact. destruct (Nat.leb_spec (p + n) (length content)); [|done]. intros [= <-].
  rewrite length_app. replace (Nat.leb _ _) with true by (symmetry; apply Nat.leb_le; lia).
  by rewrite slice_app_le.
Qed.

Lemma read_exact_at a b c p n :
  p = length a -> n = length b -> read_exact (a ++ b ++ c) p n = Ok b.
Proof.
  intros -> ->. unfold read_exact. rewrite !length_app.
  replace (Nat.leb _ _) with true by (symmetry; apply Nat.leb_le; lia). by rewrite slice_at.
Qed.

Lemma read_exact_last a b p n : p = length a -> n = length b -> read_exact (a ++ b) p n = Ok b.
Proof. intros. rewrite <- (app_nil_r b) at 1. by apply read_exact_at. Qed.

(** Appending never changes what a readable location reads as. *)
Lemma read_append_to files id data loc d :
  read files loc = Ok d -> read (append_to files id data) loc = Ok d.
Proof.
  unfold read, append_to. destruct (loc_len loc =? 0); [done|].
  destruct (decide (id = file_id loc)) as [->|Hne]; [|by rewrite lookup_insert_ne].
  rewrite lookup_insert_eq. destruct (files !! file_id loc) as [content|]; [|done].
  cbn [from_option id ok_or mbind result_bind].
  destruct (read_exact content _ 4) as [l| |] eqn:E; cbn [mbind result_bind]; [|done|done].
  rewrite (read_exact_app _ data _ _ _ E). cbn [mbind result_bind].
  destruct (negb _); [done|]. by apply read_exact_app.
Qed.

(** The cursor is at the end of the last file. *)
Definition flat_files_ok (st : FlatFileState) (files : Files) : Prop :=
  current_len st = Z.of_nat (length (default [] (files !! current_file st)))
  /\ forall id, is_Some (files !! id) -> id <= current_file st.

(** The file an append goes to. *)
Lemma append_target max st files needed :
  flat_files_ok st files ->
  is_u32 (current_file st + 1) ->
  let st' := if wrap_u64 (current_len st + needed) >? max
             then mkFlatFileState (wrap_u32 (current_file st + 1)) 0 else st in
  flat_files_ok st' files.
Proof.
  intros [Hl Hf] Hu. cbn zeta. destruct (_ >? max); [|done]. rewrite wrap_u32_id by done.
  split; cbn [current_file current_len].
  - destruct (files !! (current_file st + 1)) as [c|] eqn:E; [|done].
    specialize (Hf (current_file st + 1) ltac:(by rewrite E)). lia.
  - intros id Hid. specialize (Hf id Hid). lia.
Qed.

(** Scanning the directory finds its highest file. *)
Lemma last_existing_spec files :
  match last_existing (map_to_list files) with
  | Some (id, len) =>
      (exists c, files !! id = Some c /\ len = Z.of_nat (length c)) /\ forall i, is_Some (files !! i) -> i <= id
  | None => files = ∅
  end.
Proof.
  assert (Hgen : forall l, match last_existing l with
    | Some (id, len) => (exists c, (id, c) ∈ l /\ len = Z.of_nat (length c)) /\ forall e, e ∈ l -> e.1 <= id
    | None => l = []
    end).
  { unfold last_existing. induction l as [|[i c] l IH] using rev_ind; [done|]. rewrite foldl_app. cbn [foldl fst snd].
    destruct (foldl _ None l) as [[id len]|] eqn:E.
    - destruct IH as [(c'&Hin&->) Hle]. destruct (Z.leb_spec i id); (split; [eexists; split; [|reflexivity]; set_solver|]).
      + intros e He. apply elem_of_app in He as [He|He]; [by apply Hle|]. apply list_elem_of_singleton in He as ->. done.
      + intros e He. apply elem_of_app in He as [He|He]; [specialize (Hle e He); lia|].
        apply list_elem_of_singleton in He as ->. simpl; lia.
    - subst l. split; [eexists; split; [|reflexivity]; set_solver|].
      intros e He. apply elem_of_app in He as [He|He]; [by apply elem_of_nil in He|].
      apply list_elem_of_singleton in He as ->. simpl; lia. }
  specialize (Hgen (map_to_list files)). destruct (last_existing _) as [[id len]|].
  - destruct Hgen as [(c&Hc&->) Hle]. split; [exists c; by rewrite <- elem_of_map_to_list|].
    intros i [x Hx]. apply (Hle (i, x)). by apply elem_of_map_to_list.
  - by apply map_to_list_empty_iff.
Qed.

(** Reopening finds a cursor at the end of the last file. *)
Lemma locate_active_file_ok max files :
  (forall id, is_Some (files !! id) -> 0 <= id /\ is_u32 (id + 1)) ->
  flat_files_ok (locate_active_file files max) files.
Proof.
  intros Hid. unfold locate_active_file. pose proof (last_existing_spec files) as Hl.
  destruct (last_existing _) as [[id len]|].
  - destruct Hl as [(c&Hc&->) Hle]. destruct (Hid id ltac:(by rewrite Hc)) as [? ?].
    destruct (_ >=? max).
    + rewrite wrap_u32_id by done. split; cbn [current_file current_len].
      * destruct (files !! (id + 1)) as [x|] eqn:E; [|done].
        specialize (Hle (id + 1) ltac:(by rewrite E)). lia.
      * intros i Hi. specialize (Hle i Hi). lia.
    + split; cbn [current_file current_len]; [by rewrite Hc|done].
  - subst files. split; cbn [current_file current_len]; [done|]. intros i [? Hi]. by rewrite lookup_empty in Hi.
Qed.

Definition fits_in_files (st : FlatFileState) (bs : bytes) : Prop :=
  0 <= current_file st /\ is_u32 (current_file st + 2) /\ is_u64 (current_len st + 4 + Z.of_nat (length bs))
  /\ 0 < Z.of_nat (length bs) < 4294967296.

(** What is appended to the flat files can be read back, for ever.  With
    the cursor at the end of the last file, appending a non-empty byte string
    returns a location that reads as exactly that string, in the current file
    or, when the size limit would be passed, at the start of a new one; the
    cursor is again at the end of the last file, every location that could be
    read before still reads as before, and so does it after the store is
    reopened, which finds a cursor at the end of the last file too. *)
Theorem flatfile_append_read (max : Z) (st : FlatFileState) (files : Files) (bs : bytes) :
  flat_files_ok st files -> fits_in_files st bs ->
  exists st' files' loc,
    append max None st files bs = (st', files', Ok loc)
    /\ flat_files_ok st' files'
    /\ read files' loc = Ok bs
    /\ (forall loc' d, read files loc' = Ok d -> read files' loc' = Ok d)
    /\ (forall max', (forall id, is_Some (files !! id) -> 0 <= id) ->
                     flat_files_ok (locate_active_file files' max') files')
    /\ (current_len st + 4 + Z.of_nat (length bs) <= max -> file_id loc = current_file st)
    /\ (max < current_len st + 4 + Z.of_nat (length bs) ->
        file_id loc = current_file st + 1 /\ offset loc = 0).
Proof.
  intros Hok (H0&Hu2&Hs&Hb). assert (Hu : is_u32 (current_file st + 1)) by int_lia. unfold append. cbn zeta.
  pose proof (append_target max st files (4 + Z.of_nat (length bs)) Hok Hu) as Hok'. cbn zeta in Hok'.
  assert (Hlen : 0 <= current_len st) by (destruct Hok as [-> _]; lia).
  assert (Hw : wrap_u64 (current_len st + (4 + Z.of_nat (length bs)))
               = current_len st + 4 + Z.of_nat (length bs)).
  { unfold_ints. rewrite Z.mod_small; lia. }
  set (st1 := if wrap_u64 (current_len st + (4 + Z.of_nat (length bs))) >? max
              then mkFlatFileState (wrap_u32 (current_file st + 1)) 0 else st) in *.
  assert (Hl1 : is_u64 (current_len st1 + (4 + Z.of_nat (length bs)))).
  { unfold st1. destruct (_ >? max); cbn [current_len]; int_lia. }
  rewrite (wrap_u32_id (Z.of_nat (length bs))) by int_lia.
  set (data := le_bytes 4 (Z.of_nat (length bs)) ++ bs).
  assert (Hdata : Z.of_nat (length data) = 4 + Z.of_nat (length bs)).
  { unfold data. rewrite length_app, length_le_bytes. lia. }
  do 3 eexists. split; [reflexivity|]. destruct Hok' as [Hl Hf]. split_and!.
  - split; cbn [current_file current_len]; unfold append_to.
    + rewrite lookup_insert_eq. cbn. rewrite length_app.
      unfold_ints. rewrite Z.mod_small; lia.
    + intros id. destruct (decide (id = current_file st1)) as [->|Hne]; [lia|].
      rewrite lookup_insert_ne by done. apply Hf.
  - unfold read, append_to. cbn [loc_len file_id offset].
    replace (Z.of_nat (length bs) =? 0) with false by (symmetry; apply Z.eqb_neq; lia).
    rewrite lookup_insert_eq. cbn [ok_or mbind result_bind].
    unfold data. set (old := default [] (files !! current_file st1)) in *.
    rewrite (read_exact_at old (le_bytes 4 _) bs) by (rewrite ?length_le_bytes; lia).
    cbn [mbind result_bind]. rewrite from_le_le_bytes_4 by int_lia. rewrite Z.eqb_refl. cbn [negb].
    rewrite app_assoc. apply read_exact_last; rewrite ?length_app, ?length_le_bytes; lia.
  - intros loc' d. apply read_append_to.
  - intros max' Hpos. apply locate_active_file_ok. unfold append_to.
    assert (Hcur : 0 <= current_file st1 /\ is_u32 (current_file st1 + 1)).
    { unfold st1. destruct (_ >? max); cbn [current_file]; rewrite ?(wrap_u32_id _ Hu); int_lia. }
    intros id. destruct (decide (id = current_file st1)) as [->|Hne]; [done|].
    rewrite lookup_insert_ne by done. intros Hid. specialize (Hpos id Hid). specialize (Hf id Hid).
    int_lia.
  - intros Hle. cbn [file_id]. unfold st1. rewrite Hw. rewrite Z.gtb_ltb.
    by replace (max <? _) with false by (symmetry; apply Z.ltb_ge; lia).
  - intros Hlt. cbn [file_id offset]. unfold st1. rewrite Hw. rewrite Z.gtb_ltb.
    replace (max <? _) with true by (symmetry; apply Z.ltb_lt; lia).
    cbn [current_file current_len]. by rewrite wrap_u32_id.
Qed.

Definition sample_files : Files := {[ 0 := [9; 9; 9] ]}.

Lemma flatfile_append_read_witness :
  flat_files_ok (mkFlatFileState 0 3) sample_files
  /\ exists st' files' loc,
    append 9 None (mkFlatFileState 0 3) sample_files [5; 6; 7] = (st', files', Ok loc)
    /\ flat_files_ok st' files'
    /\ read files' loc = Ok [5; 6; 7].
Proof.
  assert (Hok : flat_files_ok (mkFlatFileState 0 3) sample_files).
  { split; [done|]. intros id. unfold sample_files. cbn [current_file].
    destruct (decide (id = 0)) as [->|]; [lia|]. rewrite lookup_singleton_ne by done. by intros [? ?]. }
  split; [exact Hok|].
  destruct (flatfile_append_read 9 (mkFlatFileState 0 3) sample_files [5; 6; 7] Hok) as (st'&files'&loc&H1&H2&H3&_).
  - unfold fits_in_files; simpl. int_lia.
  - exists st', files', loc. done.
Defined.

(** A write that stops part way leaves bytes in the file that the cursor does
    not count: the location the next append returns is then not where its
    bytes are. *)
Definition sample_faulty : FlatFileState * Files * result FlatFileError FileLocation :=
  let '(st, files, _) := append 1000 (Some (WriteStops 5)) (mkFlatFileState 0 0) ∅ [5; 6; 7] in
  append 1000 None st files [1; 2; 3].

Example append_after_fault_unreadable :
  exists st files loc, sample_faulty = (st, files, Ok loc) /\ read files loc = Ok [5; 3; 0]
                       /\ loc = mkFileLocation 0 0 3.
Proof. do 3 eexists. vm_compute. done. Qed.

(** An empty append succeeds but its location is refused by [read]. *)
Example empty_append_unreadable :
  exists st files loc,
    append 1000 None (mkFlatFileState 0 0) ∅ [] = (st, files, Ok loc) /\ read files loc = Err InvalidLocation.
Proof. do 3 eexists. vm_compute. done. Qed.
