(* ===== verification/Indexes.v ===== *)
(** * The chain database's indexes

    Transactions ([chainstate/src/txindex.rs]), spent outputs
    ([spentindex.rs]), block files ([blockindex.rs]), shielded anchors and
    nullifiers ([anchors.rs]), addresses ([address_index.rs],
    [address_deltas.rs]) and headers ([index.rs]). *)

From S2P Require Import Prelude Encoding Hashing Transaction Difficulty Script Storage Fluxnode Utxo FlatFiles.
From Stdlib Require Import ZArith Lia Sorted.
From stdpp Require Import base list option numbers strings gmap.
#[local] Open Scope Z_scope.

(** ** Transactions *)
Definition TX_LOCATION_LEN : nat := 20.
Record TxLocation := mkTxLocation { tl_block : FileLocation; tl_index : Z }.

Definition TxLocation_encode (l : TxLocation) : bytes :=
  FileLocation_encode (tl_block l) ++ le_bytes 4 (tl_index l).
Definition TxLocation_decode (bs : bytes) : option TxLocation :=
  if negb (length bs =? TX_LOCATION_LEN)%nat then None
  else block ← FileLocation_decode (slice bs 0 16);
       Some (mkTxLocation block (from_le (slice bs 16 20))).

(** ** Spent outputs *)
Definition SPENT_INDEX_VALUE_LEN_V1 : nat := 40.
Definition SPENT_INDEX_VALUE_LEN_V2 : nat := 72.

Record SpentIndexDetails := mkSpentIndexDetails {
  satoshis : Z; address_type : Z; address_hash : bytes }.
Record SpentIndexValue := mkSpentIndexValue {
  siv_txid : Hash256; siv_input_index : Z; siv_block_height : Z; details : option SpentIndexDetails }.

Definition SpentIndexValue_encode (v : SpentIndexValue) : bytes :=
  siv_txid v ++ le_bytes 4 (siv_input_index v) ++ le_bytes 4 (siv_block_height v)
  ++ match details v with
     | Some d => le_bytes 8 (satoshis d) ++ le_bytes 4 (address_type d) ++ address_hash d
     | None => zeros 32
     end.
Definition SpentIndexValue_decode (bs : bytes) : option SpentIndexValue :=
  if negb (length bs =? SPENT_INDEX_VALUE_LEN_V1)%nat
     && negb (length bs =? SPENT_INDEX_VALUE_LEN_V2)%nat then None
  else
    let details :=
      if (length bs =? SPENT_INDEX_VALUE_LEN_V2)%nat then
        Some (mkSpentIndexDetails (wrap_i64 (from_le (slice bs 40 48))) (from_le (slice bs 48 52))
                (slice bs 52 72))
      else None in
    Some (mkSpentIndexValue (slice bs 0 32) (from_le (slice bs 32 36)) (from_le (slice bs 36 40)) details).

(** ** Block files *)
Definition BLOCK_INDEX_ENTRY_LEN_V1 : nat := 16.
Definition BLOCK_INDEX_ENTRY_LEN_V2 : nat := 40.
Definition STATUS_HAVE_DATA : Z := Z.shiftl 1 0.
Definition STATUS_HAVE_UNDO : Z := Z.shiftl 1 1.

Record BlockIndexEntry := mkBlockIndexEntry {
  bie_block : FileLocation; bie_undo : option FileLocation; tx_count : Z; bie_status : Z }.

Definition BlockIndexEntry_encode (e : BlockIndexEntry) : bytes :=
  FileLocation_encode (bie_block e)
  ++ match bie_undo e with Some location => FileLocation_encode location | None => zeros 16 end
  ++ le_bytes 4 (tx_count e) ++ le_bytes 4 (bie_status e).
Definition BlockIndexEntry_decode (bs : bytes) : option BlockIndexEntry :=
  if (length bs =? BLOCK_INDEX_ENTRY_LEN_V1)%nat then
    block ← FileLocation_decode bs; Some (mkBlockIndexEntry block None 0 STATUS_HAVE_DATA)
  else if negb (length bs =? BLOCK_INDEX_ENTRY_LEN_V2)%nat then None
  else
    block ← FileLocation_decode (slice bs 0 16);
    let undo := match FileLocation_decode (slice bs 16 32) with
                | Some location => if negb (loc_len location =? 0) then Some location else None
                | None => None
                end in
    Some (mkBlockIndexEntry block undo (from_le (slice bs 32 36)) (from_le (slice bs 36 40))).

Section indexes.
  Context {H : Hashes} {S : Type} {KV : KeyValueStore S}.

Definition txindex_insert (batch : WriteBatch) (txid : Hash256) (location : TxLocation) : WriteBatch :=
  batch_put batch TxIndex txid (TxLocation_encode location).
Definition txindex_delete (batch : WriteBatch) (txid : Hash256) : WriteBatch :=
  batch_delete batch TxIndex txid.
Definition txindex_get (store : S) (txid : Hash256) : result StoreError (option TxLocation) :=
  bs ← kv_get store TxIndex txid;
  match bs with
  | Some bs => l ← ok_or (TxLocation_decode bs) (Backend "invalid tx index entry"); Ok (Some l)
  | None => Ok None
  end.

Definition spentindex_insert (batch : WriteBatch) (outpoint : OutPoint) (value : SpentIndexValue)
    : WriteBatch :=
  batch_put batch SpentIndex (OutPointKey_new outpoint) (SpentIndexValue_encode value).
Definition spentindex_delete (batch : WriteBatch) (outpoint : OutPoint) : WriteBatch :=
  batch_delete batch SpentIndex (OutPointKey_new outpoint).
Definition spentindex_get (store : S) (outpoint : OutPoint) : result StoreError (option SpentIndexValue) :=
  bs ← kv_get store SpentIndex (OutPointKey_new outpoint);
  match bs with
  | Some bs => v ← ok_or (SpentIndexValue_decode bs) (Backend "invalid spent index entry"); Ok (Some v)
  | None => Ok None
  end.

(** ** Anchors and nullifiers, each kind in its column *)
Definition anchor_get (column : Column) (store : S) (anchor : Hash256) : result StoreError (option bytes) :=
  kv_get store column anchor.
Definition anchor_contains (column : Column) (store : S) (anchor : Hash256) : result StoreError bool :=
  bs ← kv_get store column anchor; Ok (is_some bs).
Definition anchor_insert (column : Column) (batch : WriteBatch) (anchor : Hash256) (tree : bytes)
    : WriteBatch := batch_put batch column anchor tree.
Definition anchor_remove (column : Column) (batch : WriteBatch) (anchor : Hash256) : WriteBatch :=
  batch_delete batch column anchor.
Definition nullifier_contains (column : Column) (store : S) (nullifier : Hash256)
    : result StoreError bool :=
  bs ← kv_get store column nullifier; Ok (is_some bs).
Definition nullifier_insert (column : Column) (batch : WriteBatch) (nullifier : Hash256) : WriteBatch :=
  batch_put batch column nullifier [].
Definition nullifier_remove (column : Column) (batch : WriteBatch) (nullifier : Hash256) : WriteBatch :=
  batch_delete batch column nullifier.

(** ** Addresses *)
Definition SCRIPT_HASH_LEN : nat := 32.

(** A pay-to-public-key script is indexed as the pay-to-public-key-hash script
    of its key. *)
Definition normalized_p2pk_hash (script_pubkey : bytes) : option Hash256 :=
  match script_pubkey with
  | len :: _ =>
      if (len =? 33) || (len =? 65) then
        let pubkey_end := (Z.to_nat len + 1)%nat in
        if Nat.leb pubkey_end (length script_pubkey) then
          let pubkey := slice script_pubkey 1 pubkey_end in
          Some (sha256 ([0x76; 0xa9; 0x14] ++ hash160 pubkey ++ [0x88; 0xac]))
        else None
      else None
  | [] => None
  end.

Definition script_hash (script_pubkey : bytes) : option Hash256 :=
  match classify_script_pubkey script_pubkey with
  | P2Pkh | P2Sh => Some (sha256 script_pubkey)
  | P2Pk => normalized_p2pk_hash script_pubkey
  | P2Wpkh | P2Wsh | Unknown => None
  end.

Definition address_outpoint_key_with_script_hash (script_hash : Hash256) (outpoint : OutPoint) : bytes :=
  script_hash ++ OutPointKey_new outpoint.
Definition address_outpoint_key (script_pubkey : bytes) (outpoint : OutPoint) : option bytes :=
  script ← script_hash script_pubkey;
  Some (script ++ OutPointKey_new outpoint).
Definition address_prefix (script_pubkey : bytes) : option Hash256 := script_hash script_pubkey.

Definition address_insert_with_script_hash (batch : WriteBatch) (script_hash : Hash256)
    (outpoint : OutPoint) : WriteBatch :=
  batch_put batch AddressOutpoint (address_outpoint_key_with_script_hash script_hash outpoint) [].
Definition address_insert (batch : WriteBatch) (script_pubkey : bytes) (outpoint : OutPoint) : WriteBatch :=
  match address_outpoint_key script_pubkey outpoint with
  | Some key => batch_put batch AddressOutpoint key []
  | None => batch
  end.
Definition address_delete_with_script_hash (batch : WriteBatch) (script_hash : Hash256)
    (outpoint : OutPoint) : WriteBatch :=
  batch_delete batch AddressOutpoint (address_outpoint_key_with_script_hash script_hash outpoint).
Definition address_delete (batch : WriteBatch) (script_pubkey : bytes) (outpoint : OutPoint) : WriteBatch :=
  match address_outpoint_key script_pubkey outpoint with
  | Some key => batch_delete batch AddressOutpoint key
  | None => batch
  end.

Definition outpoint_from_key (key : bytes) : option OutPoint :=
  if negb (length key =? SCRIPT_HASH_LEN + OUTPOINT_KEY_LEN)%nat then None
  else Some (mkOutPoint (slice key 32 64) (from_le (slice key 64 68))).

(** Entries that do not decode are skipped, [if let Some(x) = f(..) { out.push(x) }]. *)
Definition address_scan (store : S) (script_pubkey : bytes) : result StoreError (list OutPoint) :=
  match address_prefix script_pubkey with
  | None => Ok []
  | Some prefix =>
      entries ← kv_scan_prefix store AddressOutpoint prefix;
      Ok (omap (M:=list) (fun e : bytes * bytes => outpoint_from_key (fst e)) entries)
  end.

(** ** Address deltas *)
Definition DELTA_KEY_LEN : nat := 77.
Definition DELTA_VALUE_LEN : nat := 8.

Record AddressDeltaEntry := mkDelta {
  d_height : Z; d_tx_index : Z; d_txid : Hash256; d_index : Z; d_spending : bool; d_satoshis : Z }.

(** The height and the position are big endian, so that keys sort by them. *)
Definition address_delta_key (script_hash : Hash256) (height tx_index : Z) (txid : Hash256)
    (index : Z) (spending : bool) : bytes :=
  script_hash ++ be_bytes 4 height ++ be_bytes 4 tx_index ++ txid ++ le_bytes 4 index
  ++ [if spending then 1 else 0].

Definition decode_entry (key value : bytes) : option AddressDeltaEntry :=
  if negb (length key =? DELTA_KEY_LEN)%nat || negb (length value =? DELTA_VALUE_LEN)%nat then None
  else Some (mkDelta (from_be (slice key 32 36)) (from_be (slice key 36 40)) (slice key 40 72)
               (from_le (slice key 72 76)) (negb (default 0 (key !! 76%nat) =? 0))
               (wrap_i64 (from_le value))).

Definition delta_insert_with_prefix (batch : WriteBatch) (script_hash : Hash256) (height tx_index : Z)
    (txid : Hash256) (index : Z) (spending : bool) (satoshis : Z) : WriteBatch :=
  batch_put batch AddressDelta (address_delta_key script_hash height tx_index txid index spending)
    (le_bytes 8 satoshis).
Definition delta_insert (batch : WriteBatch) (script_pubkey : bytes) (height tx_index : Z)
    (txid : Hash256) (index : Z) (spending : bool) (satoshis : Z) : WriteBatch :=
  match address_prefix script_pubkey with
  | None => batch
  | Some prefix => delta_insert_with_prefix batch prefix height tx_index txid index spending satoshis
  end.
Definition delta_delete_with_prefix (batch : WriteBatch) (script_hash : Hash256) (height tx_index : Z)
    (txid : Hash256) (index : Z) (spending : bool) : WriteBatch :=
  batch_delete batch AddressDelta (address_delta_key script_hash height tx_index txid index spending).
Definition delta_delete (batch : WriteBatch) (script_pubkey : bytes) (height tx_index : Z)
    (txid : Hash256) (index : Z) (spending : bool) : WriteBatch :=
  match address_prefix script_pubkey with
  | None => batch
  | Some prefix => delta_delete_with_prefix batch prefix height tx_index txid index spending
  end.

Definition delta_scan (store : S) (script_pubkey : bytes) : result StoreError (list AddressDeltaEntry) :=
  match address_prefix script_pubkey with
  | None => Ok []
  | Some prefix =>
      entries ← kv_scan_prefix store AddressDelta prefix;
      Ok (omap (M:=list) (fun e : bytes * bytes => decode_entry (fst e) (snd e)) entries)
  end.

Definition delta_for_each {A} (store : S) (script_pubkey : bytes)
    (visitor : A -> AddressDeltaEntry -> result StoreError A) (a : A) : result StoreError A :=
  match address_prefix script_pubkey with
  | None => Ok a
  | Some prefix =>
      for_each_prefix store AddressDelta prefix
        (fun a key value => match decode_entry key value with
                            | None => Ok a
                            | Some entry => visitor a entry
                            end) a
  end.
End indexes.

(** ** Record layouts *)

(** [pick_slice] evaluates the slice of a concatenation of parts of known
    length. *)
Ltac known_lengths :=
  rewrite ?length_app, ?length_le_bytes, ?length_be_bytes, ?length_zeros, ?FileLocation_encode_array; simpl; lia.
Ltac pick_slice :=
  repeat (rewrite slice_skip by known_lengths);
  rewrite ?length_app, ?length_le_bytes, ?length_be_bytes, ?length_zeros, ?FileLocation_encode_array; simpl Nat.sub;
  first [rewrite slice_first by known_lengths | rewrite slice_whole by known_lengths].

Definition TxLocation_wf (l : TxLocation) : Prop := FileLocation_wf (tl_block l) /\ is_u32 (tl_index l).

Lemma TxLocation_decode_encode l : TxLocation_wf l -> TxLocation_decode (TxLocation_encode l) = Some l.
Proof.
  intros [Hb Hi]. unfold TxLocation_decode, TxLocation_encode.
  rewrite length_app, length_le_bytes, FileLocation_encode_array. cbn [negb Nat.eqb Nat.add TX_LOCATION_LEN].
  pick_slice. rewrite FileLocation_decode_encode by done. cbn [mbind option_bind].
  pick_slice. rewrite from_le_le_bytes_4 by done. by destruct l.
Qed.

Definition SpentIndexValue_wf (v : SpentIndexValue) : Prop :=
  array 32 (siv_txid v) /\ is_u32 (siv_input_index v) /\ is_u32 (siv_block_height v)
  /\ match details v with
     | Some d => is_i64 (satoshis d) /\ is_u32 (address_type d) /\ array 20 (address_hash d)
     | None => True
     end.

Definition zero_details : SpentIndexDetails := mkSpentIndexDetails 0 0 (zeros 20).

(** A value without details comes back with zero details. *)
Lemma SpentIndexValue_decode_encode v :
  SpentIndexValue_wf v ->
  SpentIndexValue_decode (SpentIndexValue_encode v)
  = Some (mkSpentIndexValue (siv_txid v) (siv_input_index v) (siv_block_height v)
            (Some (default zero_details (details v)))).
Proof.
  destruct v as [t i h d]. intros ([Ht _]&Hi&Hh&Hd).
  unfold SpentIndexValue_encode; cbn [siv_txid siv_input_index siv_block_height details] in *.
  set (rest := match d with Some d => _ | None => zeros 32 end).
  assert (Hrest : length rest = 32%nat).
  { unfold rest. destruct d as [d|]; [|done].
    destruct Hd as (_&_&[Ha _]). by rewrite !length_app, !length_le_bytes, Ha. }
  unfold SpentIndexValue_decode. rewrite !length_app, !length_le_bytes, Ht, Hrest.
  cbn [Nat.eqb Nat.add negb andb SPENT_INDEX_VALUE_LEN_V1 SPENT_INDEX_VALUE_LEN_V2].
  assert (Hsplit : forall a b, (40 <= a)%nat -> slice (t ++ le_bytes 4 i ++ le_bytes 4 h ++ rest) a b
                               = slice rest (a - 40) (b - 40)).
  { intros a b Ha. do 3 rewrite slice_skip by (rewrite ?Ht, ?length_le_bytes; lia).
    rewrite !length_le_bytes, Ht. f_equal; lia. }
  rewrite (Hsplit 40%nat 48%nat), (Hsplit 48%nat 52%nat), (Hsplit 52%nat 72%nat) by lia. cbn [Nat.sub].
  rewrite slice_first by done.
  rewrite slice_skip, slice_first by (rewrite ?Ht, ?length_le_bytes; lia). rewrite from_le_le_bytes_4 by done.
  do 2 rewrite slice_skip by (rewrite ?Ht, ?length_le_bytes; lia).
  rewrite slice_first by (rewrite ?Ht, ?length_le_bytes; lia). rewrite from_le_le_bytes_4 by done.
  do 2 f_equal. destruct d as [[s ty a]|]; unfold rest; [|done].
  destruct Hd as (Hs&Hty&[Ha _]). cbn [satoshis address_type address_hash from_option] in *.
  rewrite slice_first by (by rewrite ?length_le_bytes). rewrite wrap_i64_from_le by done.
  rewrite slice_skip, slice_first by (rewrite ?length_le_bytes; lia). rewrite from_le_le_bytes_4 by done.
  do 2 rewrite slice_skip by (rewrite ?length_le_bytes; lia).
  rewrite slice_whole by (rewrite !length_le_bytes; lia). done.
Qed.

Definition BlockIndexEntry_wf (e : BlockIndexEntry) : Prop :=
  FileLocation_wf (bie_block e) /\ is_u32 (tx_count e) /\ is_u32 (bie_status e)
  /\ match bie_undo e with Some l => FileLocation_wf l /\ loc_len l <> 0 | None => True end.

Lemma BlockIndexEntry_decode_encode e :
  BlockIndexEntry_wf e -> BlockIndexEntry_decode (BlockIndexEntry_encode e) = Some e.
Proof.
  destruct e as [b u c s]. intros (Hb&Hc&Hs&Hu).
  unfold BlockIndexEntry_encode; cbn [bie_block bie_undo tx_count bie_status] in *.
  set (ub := match u with Some l => FileLocation_encode l | None => zeros 16 end).
  assert (Hub : length ub = 16%nat) by (by unfold ub; destruct u; rewrite ?FileLocation_encode_array).
  unfold BlockIndexEntry_decode. rewrite !length_app, !length_le_bytes, FileLocation_encode_array, Hub.
  cbn [Nat.eqb Nat.add negb BLOCK_INDEX_ENTRY_LEN_V1 BLOCK_INDEX_ENTRY_LEN_V2].
  pose proof (FileLocation_encode_array b) as Hfb. pose proof (FileLocation_decode_encode b Hb) as Hdb.
  set (fb := FileLocation_encode b) in *. clearbody fb.
  rewrite (slice_first fb _ 0 16) by lia. rewrite Hdb. cbn [mbind option_bind].
  do 3 rewrite (slice_skip fb) by lia. rewrite Hfb. cbn [Nat.sub].
  rewrite (slice_first ub _ 0 16) by lia. do 2 rewrite (slice_skip ub) by lia. rewrite Hub. cbn [Nat.sub].
  rewrite (slice_first _ _ 0 4) by (rewrite ?length_le_bytes; lia).
  rewrite (slice_last _ _ 4 8) by (rewrite ?length_le_bytes; lia). rewrite !from_le_le_bytes_4 by done.
  do 2 f_equal. unfold ub. destruct u as [l|]; [|by vm_compute].
  destruct Hu as [Hl Hn]. rewrite FileLocation_decode_encode by done.
  by rewrite (proj2 (Z.eqb_neq _ _) Hn).
Qed.

(** ** The address delta index *)
Definition delta_wf (d : AddressDeltaEntry) : Prop :=
  is_u32 (d_height d) /\ is_u32 (d_tx_index d) /\ array 32 (d_txid d) /\ is_u32 (d_index d)
  /\ is_i64 (d_satoshis d).
#[global] Instance delta_wf_dec d : Decision (delta_wf d).
Proof. unfold delta_wf; apply _. Defined.

Definition delta_key (p : Hash256) (d : AddressDeltaEntry) : bytes :=
  address_delta_key p (d_height d) (d_tx_index d) (d_txid d) (d_index d) (d_spending d).
Definition delta_value (d : AddressDeltaEntry) : bytes := le_bytes 8 (d_satoshis d).

Lemma from_be_be_bytes_4 z : is_u32 z -> from_be (be_bytes 4 z) = z.
Proof. intros Hz. rewrite from_be_be_bytes. by apply Z.mod_small. Qed.

Lemma decode_entry_encode p d :
  length p = 32%nat -> delta_wf d -> decode_entry (delta_key p d) (delta_value d) = Some d.
Proof.
  intros Hp. destruct d as [h i t x s v]. intros (Hh&Hi&[Ht _]&Hx&Hv).
  unfold delta_key, delta_value, address_delta_key; cbn [d_height d_tx_index d_txid d_index d_spending d_satoshis] in *.
  unfold decode_entry. rewrite !length_app, !length_le_bytes, !length_be_bytes, Hp, Ht. cbn [length Nat.eqb Nat.add negb orb DELTA_KEY_LEN DELTA_VALUE_LEN].
  rewrite slice_skip, slice_first by (rewrite ?Hp, ?length_be_bytes; lia). rewrite from_be_be_bytes_4 by done.
  do 2 rewrite slice_skip by (rewrite ?Hp, ?length_be_bytes; lia).
  rewrite slice_first by (rewrite ?Hp, ?length_be_bytes; lia). rewrite from_be_be_bytes_4 by done.
  do 3 rewrite slice_skip by (rewrite ?Hp, ?length_be_bytes; lia).
  rewrite slice_first by (rewrite ?Hp, ?length_be_bytes, ?Ht; lia).
  do 4 rewrite slice_skip by (rewrite ?Hp, ?length_be_bytes, ?Ht; lia).
  rewrite slice_first by (rewrite ?Hp, ?length_be_bytes, ?Ht, ?length_le_bytes; lia).
  rewrite from_le_le_bytes_4, wrap_i64_from_le by done.
  do 5 rewrite lookup_app_r by (rewrite ?Hp, ?length_be_bytes, ?Ht, ?length_le_bytes; lia).
  rewrite Hp, !length_be_bytes, Ht, length_le_bytes. by destruct s.
Qed.

(** Keys of equal width compare as the numbers they are big-endian for. *)
Lemma bytes_le_app_be u v x y :
  length u = length v -> bytes_ok u -> bytes_ok v -> bytes_le (u ++ x) (v ++ y) = true ->
  from_be u < from_be v \/ u = v /\ bytes_le x y = true.
Proof.
  revert v; induction u as [|a u IH]; intros [|b v] Hl Hu Hv; try done; [by right|].
  apply bytes_ok_cons in Hu as [Ha Hu], Hv as [Hb Hv]. injection Hl as Hl.
  cbn [app bytes_le]. rewrite !from_be_cons, Hl.
  pose proof (from_be_range u Hu) as Ru. pose proof (from_be_range v Hv) as Rv. rewrite Hl in Ru.
  destruct (Z.ltb_spec a b); [intros _; left; nia|]. destruct (Z.ltb_spec b a); [done|].
  intros Hle. assert (a = b) as -> by lia. destruct (IH v Hl Hu Hv Hle) as [?|[-> ?]]; [left; lia|by right].
Qed.

Lemma bytes_le_same_prefix p x y : bytes_le (p ++ x) (p ++ y) = bytes_le x y.
Proof. induction p as [|a p IH]; [done|]. cbn [app bytes_le]. by rewrite Z.ltb_irrefl. Qed.

(** Chain order: by height, then by position in the block. *)
Definition chain_order (a b : AddressDeltaEntry) : Prop :=
  d_height a < d_height b \/ d_height a = d_height b /\ d_tx_index a <= d_tx_index b.

Lemma delta_key_order p a b :
  delta_wf a -> delta_wf b -> bytes_le (delta_key p a) (delta_key p b) = true -> chain_order a b.
Proof.
  intros (Ha&Ia&_) (Hb&Ib&_). unfold delta_key, address_delta_key.
  rewrite bytes_le_same_prefix. intros H.
  apply bytes_le_app_be in H as [H|[E H]]; [| |by rewrite !length_be_bytes|apply be_bytes_ok..].
  { rewrite !from_be_be_bytes_4 in H by done. by left. }
  apply (f_equal from_be) in E. rewrite !from_be_be_bytes_4 in E by done. right. split; [done|].
  apply bytes_le_app_be in H as [H|[E' _]]; [| |by rewrite !length_be_bytes|apply be_bytes_ok..].
  { rewrite !from_be_be_bytes_4 in H by done. lia. }
  apply (f_equal from_be) in E'. rewrite !from_be_be_bytes_4 in E' by done. lia.
Qed.

Section delta_index.
  Context {H : Hashes} {L : HashesLaws H} {S : Type} `{KVL : KeyValueStoreLaws S}.

(** The column holds only what the index writes. *)
Definition deltas_ok (s : S) : Prop :=
  forall k v, kv_get s AddressDelta k = Ok (Some v) ->
    exists p d, length p = 32%nat /\ delta_wf d /\ k = delta_key p d /\ v = delta_value d.

Lemma script_hash_length script p : script_hash script = Some p -> length p = 32%nat.
Proof.
  unfold script_hash, normalized_p2pk_hash. intros Hp.
  destruct (classify_script_pubkey script); try done.
  2-3: injection Hp as <-; apply sha256_array.
  destruct script as [|len r]; [done|]. destruct (_ || _); [|done]. destruct (Nat.leb _ _); [|done].
  injection Hp as <-. apply sha256_array.
Qed.

(** The index's writes keep the column in shape. *)
Inductive DeltaChange := Recorded (p : Hash256) (d : AddressDeltaEntry) | Erased (p : Hash256) (d : AddressDeltaEntry).
Definition delta_change_wf (c : DeltaChange) : Prop :=
  match c with Recorded p d | Erased p d => length p = 32%nat /\ delta_wf d end.
Definition delta_change (batch : WriteBatch) (c : DeltaChange) : WriteBatch :=
  match c with
  | Recorded p d => delta_insert_with_prefix batch p (d_height d) (d_tx_index d) (d_txid d) (d_index d) (d_spending d) (d_satoshis d)
  | Erased p d => delta_delete_with_prefix batch p (d_height d) (d_tx_index d) (d_txid d) (d_index d) (d_spending d)
  end.

Lemma delta_changes_elem cs b op :
  op ∈ foldl delta_change b cs -> op ∈ b \/
  exists c, c ∈ cs /\ op = match c with
    | Recorded p d => Put AddressDelta (delta_key p d) (delta_value d)
    | Erased p d => Storage.Delete AddressDelta (delta_key p d) end.
Proof.
  revert b; induction cs as [|c cs IH]; intros b; cbn [foldl]; [by left|].
  intros Hin. apply IH in Hin as [Hin|(c'&Hc&->)]; [|right; exists c'; split; [by right|done]].
  assert (Hb : exists op', delta_change b c = b ++ [op'] /\ op' = match c with
    | Recorded p d => Put AddressDelta (delta_key p d) (delta_value d)
    | Erased p d => Storage.Delete AddressDelta (delta_key p d) end) by (by destruct c; eexists).
  destruct Hb as (op'&E&Hop). rewrite E in Hin. apply elem_of_app in Hin as [?|Hin]; [by left|].
  apply list_elem_of_singleton in Hin as ->. right. exists c. split; [by left|done].
Qed.

Lemma deltas_ok_commit (s : S) cs :
  deltas_ok s -> Forall delta_change_wf cs ->
  exists s', kv_write_batch s (foldl delta_change [] cs) = Ok s' /\ deltas_ok s'.
Proof.
  intros Hs Hcs. destruct (kv_commit s (foldl delta_change [] cs)) as (s'&Hw&Hg).
  exists s'. split; [done|]. intros k v. rewrite Hg.
  destruct (last_write _ AddressDelta k) as [r|] eqn:Hl; [|apply Hs]. intros [= ->].
  apply last_write_elem, delta_changes_elem in Hl as [Hl|(c&Hc&E)]; [by apply elem_of_nil in Hl|].
  rewrite Forall_forall in Hcs. specialize (Hcs c Hc). destruct c as [p d|p d]; [|done].
  injection E as -> ->. destruct Hcs. by exists p, d.
Qed.

(** What a scan of one address returns, decoded entry by entry. *)
Lemma scan_entries (s : S) p entries :
  deltas_ok s -> length p = 32%nat ->
  (forall k v, (k, v) ∈ entries -> kv_get s AddressDelta k = Ok (Some v) /\ starts_with k p = true) ->
  exists ds, entries = map (fun d => (delta_key p d, delta_value d)) ds /\ Forall delta_wf ds.
Proof.
  intros Hs Hp. induction entries as [|[k v] entries IH]; intros He; [by exists []|].
  destruct IH as (ds&->&Hds); [intros k' v' Hin; apply He; by right|].
  destruct (He k v ltac:(left)) as [Hg Hpre]. apply Hs in Hg as (p'&d&Hp'&Hd&->&->).
  apply starts_with_spec in Hpre as [r Hr]. unfold delta_key, address_delta_key in Hr.
  apply app_inj_1 in Hr as [-> _]; [|congruence]. exists (d :: ds). split; [done|by constructor].
Qed.

Lemma omap_decoded p ds :
  length p = 32%nat -> Forall delta_wf ds ->
  omap (M:=list) (fun e : bytes * bytes => decode_entry (fst e) (snd e))
    (map (fun d => (delta_key p d, delta_value d)) ds) = ds.
Proof.
  intros Hp. induction 1 as [|d ds Hd Hds IH]; [done|].
  cbn [map omap list_omap fst snd]. rewrite decode_entry_encode by done. by f_equal.
Qed.

Lemma map_sorted p ds :
  Forall delta_wf ds ->
  StronglySorted (fun a b => bytes_le a.1 b.1 = true) (map (fun d => (delta_key p d, delta_value d)) ds) ->
  StronglySorted chain_order ds.
Proof.
  induction 1 as [|d ds Hd Hds IH]; [constructor|]. cbn [map]. intros Hs.
  apply StronglySorted_inv in Hs as [Hs Hf]. constructor; [by apply IH|].
  apply Forall_map in Hf. rewrite Forall_forall in *. intros d' Hin.
  apply (delta_key_order p); [done|by apply Hds|]. by apply Hf.
Qed.

(** The history of an address comes back complete and in chain order.  On
    a store whose delta column was written by the index, scanning an
    indexable script returns exactly the deltas recorded for its script hash,
    each once, sorted by height and by position in the block (the key layout
    is big endian for this reason), and deltas of no other script; recording
    and erasing deltas keeps the column in that shape. *)
Theorem address_deltas_in_chain_order (s : S) (script : bytes) (p : Hash256) :
  deltas_ok s -> address_prefix script = Some p ->
  (exists es,
     delta_scan s script = Ok es
     /\ StronglySorted chain_order es /\ NoDup es
     /\ forall d, d ∈ es <-> delta_wf d /\ kv_get s AddressDelta (delta_key p d) = Ok (Some (delta_value d)))
  /\ forall cs, Forall delta_change_wf cs ->
       exists s', kv_write_batch s (foldl delta_change [] cs) = Ok s' /\ deltas_ok s'.
Proof.
  intros Hs Hp. split; [|by intros; apply deltas_ok_commit].
  pose proof (script_hash_length script p Hp) as Hlen.
  unfold delta_scan. rewrite Hp. destruct (kv_scan_prefix_spec s AddressDelta p) as (entries&->&Hsort&Hnd&Hin).
  cbn [mbind result_bind].
  destruct (scan_entries s p entries Hs Hlen) as (ds&->&Hds).
  { intros k v Hkv. apply Hin in Hkv as [Hkv ?]. by rewrite kv_get_spec, Hkv. }
  rewrite omap_decoded by done. exists ds. split_and!; [done|by eapply map_sorted| |].
  - rewrite <- list_fmap_compose in Hnd. by apply NoDup_fmap_1 in Hnd.
  - intros d. split.
    + intros Hd. split; [rewrite Forall_forall in Hds; by apply Hds|].
      assert (He : (delta_key p d, delta_value d) ∈ map (fun d => (delta_key p d, delta_value d)) ds).
      { apply list_elem_of_In, in_map_iff. exists d. split; [done|by apply list_elem_of_In]. }
      apply Hin in He as [He _]. by rewrite kv_get_spec, He.
    + intros [Hd Hg]. rewrite kv_get_spec in Hg. injection Hg as Hg.
      assert (He : (delta_key p d, delta_value d) ∈ map (fun d => (delta_key p d, delta_value d)) ds).
      { apply Hin. split; [done|]. apply starts_with_app. }
      apply list_elem_of_In, in_map_iff in He as (d'&E&Hd'%list_elem_of_In).
      apply pair_equal_spec in E as [E1 E2].
      rewrite Forall_forall in Hds. pose proof (decode_entry_encode p d' Hlen (Hds d' Hd')) as D.
      rewrite E1, E2, decode_entry_encode in D by done. by injection D as ->.
Qed.
End delta_index.

Definition sample_p2pkh : bytes := [0x76; 0xa9; 20] ++ replicate 20 7 ++ [0x88; 0xac].
Definition sample_prefix : Hash256 := default [] (address_prefix sample_p2pkh).
Definition sample_deltas : list DeltaChange :=
  [Recorded sample_prefix (mkDelta 300 0 (zeros 32) 1 true (-5));
   Recorded sample_prefix (mkDelta 255 2 (zeros 32) 0 false 5);
   Recorded (zeros 32) (mkDelta 1 0 (zeros 32) 0 false 9)].
Definition sample_delta_store : MemoryStore :=
  mkMemory (foldl apply_op (inner memory_new) (foldl delta_change [] sample_deltas)).

Lemma sample_deltas_ok : deltas_ok sample_delta_store.
Proof.
  assert (Hn : deltas_ok memory_new) by (intros k v; by rewrite memory_new_get).
  assert (Hw : Forall delta_change_wf sample_deltas) by (repeat constructor; by_decide).
  destruct (deltas_ok_commit memory_new sample_deltas Hn Hw) as (s'&E&Hs).
  rewrite (memory_commit_eq _ _ _ E) in Hs. exact Hs.
Qed.

Lemma address_deltas_in_chain_order_witness :
  delta_scan sample_delta_store sample_p2pkh
  = Ok [mkDelta 255 2 (zeros 32) 0 false 5; mkDelta 300 0 (zeros 32) 1 true (-5)]
  /\ exists es, delta_scan sample_delta_store sample_p2pkh = Ok es /\ StronglySorted chain_order es.
Proof.
  split; [vm_compute; reflexivity|].
  destruct (address_deltas_in_chain_order sample_delta_store sample_p2pkh sample_prefix sample_deltas_ok)
    as [(es&He&Hs&_) _]; [vm_compute; reflexivity|].
  exact (ex_intro _ es (conj He Hs)).
Defined.
