(* ===== verification/ChainIndex.v ===== *)
(** * The header index ([chainstate/src/index.rs])

    Every known header has an entry under its hash; the active chain is the
    height index, and two meta keys name the best header and the best block. *)

From S2P Require Import Prelude Encoding Hashing Transaction Difficulty Storage Fluxnode.
From Stdlib Require Import ZArith Lia.
From stdpp Require Import base list option numbers strings gmap.
#[local] Open Scope Z_scope.

Definition META_BEST_HEADER_KEY : bytes := ascii_bytes "best_header".
Definition META_BEST_BLOCK_KEY : bytes := ascii_bytes "best_block".

Definition STATUS_HAS_HEADER : Z := Z.shiftl 1 0.
Definition STATUS_HAS_BLOCK : Z := Z.shiftl 1 1.
Definition STATUS_FAILED_VALIDATION : Z := Z.shiftl 1 2.
Definition STATUS_FAILED_MASK : Z := STATUS_FAILED_VALIDATION.

Record HeaderEntry := mkHeaderEntry {
  he_prev_hash : Hash256; he_skip_hash : Hash256; he_height : Z; he_time : Z; he_bits : Z;
  he_chainwork : bytes; he_status : Z }.
Record ChainTip := mkChainTip { tip_hash : Hash256; tip_height : Z; tip_chainwork : bytes }.

#[global] Instance HeaderEntry_eq_dec : EqDecision HeaderEntry.
Proof. solve_decision. Defined.
#[global] Instance ChainTip_eq_dec : EqDecision ChainTip.
Proof. solve_decision. Defined.

(** ** Status bits *)
Definition status_with_header (status : Z) : Z := Z.lor status STATUS_HAS_HEADER.
Definition status_with_block (status : Z) : Z := Z.lor status STATUS_HAS_BLOCK.
Definition status_without_block (status : Z) : Z := Z.land status (255 - STATUS_HAS_BLOCK).
Definition status_with_failed (status : Z) : Z := Z.lor status STATUS_FAILED_VALIDATION.
Definition has_header (status : Z) : bool := negb (Z.land status STATUS_HAS_HEADER =? 0).
Definition has_block (status : Z) : bool := negb (Z.land status STATUS_HAS_BLOCK =? 0).
Definition is_failed (status : Z) : bool := negb (Z.land status STATUS_FAILED_MASK =? 0).

Definition chainwork_value `{U256Ops} (e : HeaderEntry) : Z := u256_from_big_endian (he_chainwork e).

(** ** Entries *)
Definition encode_header_entry (e : HeaderEntry) : bytes :=
  write_hash_le (he_prev_hash e) ++ write_i32_le (he_height e) ++ write_u32_le (he_time e)
  ++ write_u32_le (he_bits e) ++ write_bytes (he_chainwork e) ++ write_u8 (he_status e)
  ++ write_hash_le (he_skip_hash e).

(** An entry of an older version ends before the skip hash. *)
Definition HeaderEntry_fields : parser string HeaderEntry :=
  prev_hash ← lift DecodeError_to_string read_hash_le;
  height ← lift DecodeError_to_string read_i32_le;
  time ← lift DecodeError_to_string read_u32_le;
  bits ← lift DecodeError_to_string read_u32_le;
  chainwork ← lift DecodeError_to_string (read_fixed 32);
  status ← lift DecodeError_to_string read_u8;
  ended ← at_end;
  skip_hash ← (if ended : bool then mret (zeros 32)
               else hash ← lift DecodeError_to_string read_hash_le;
                    ended ← at_end;
                    if negb ended then fail "trailing bytes in header entry"%string else mret hash);
  mret (mkHeaderEntry prev_hash skip_hash height time bits chainwork status).

Definition decode_header_entry (bs : bytes) : result string HeaderEntry :=
  r ← HeaderEntry_fields (new_decoder bs); Ok (fst r).

Definition decode_hash (bs : bytes) : result string Hash256 :=
  if negb (length bs =? 32)%nat then Err "invalid hash length"%string else Ok bs.

Definition height_key (height : Z) : bytes := le_bytes 4 height.

(** ** The index *)
Section index.
  Context {S : Type} {KV : KeyValueStore S}.

Definition get_header (store : S) (hash : Hash256) : result StoreError (option HeaderEntry) :=
  bs ← kv_get store HeaderIndex hash;
  match bs with
  | Some bs => e ← map_err Backend (decode_header_entry bs); Ok (Some e)
  | None => Ok None
  end.
Definition put_header (batch : WriteBatch) (hash : Hash256) (entry : HeaderEntry) : WriteBatch :=
  batch_put batch HeaderIndex hash (encode_header_entry entry).
Definition set_best_header (batch : WriteBatch) (hash : Hash256) : WriteBatch :=
  batch_put batch Meta META_BEST_HEADER_KEY hash.
Definition set_best_block (batch : WriteBatch) (hash : Hash256) : WriteBatch :=
  batch_put batch Meta META_BEST_BLOCK_KEY hash.

Definition tip_at (store : S) (key : bytes) : result StoreError (option ChainTip) :=
  bs ← kv_get store Meta key;
  match bs with
  | None => Ok None
  | Some bs =>
      hash ← map_err Backend (decode_hash bs);
      entry ← get_header store hash;
      match entry with
      | Some entry => Ok (Some (mkChainTip hash (he_height entry) (he_chainwork entry)))
      | None => Ok None
      end
  end.
Definition best_header (store : S) : result StoreError (option ChainTip) :=
  tip_at store META_BEST_HEADER_KEY.
Definition best_block (store : S) : result StoreError (option ChainTip) :=
  tip_at store META_BEST_BLOCK_KEY.

Definition height_hash (store : S) (height : Z) : result StoreError (option Hash256) :=
  bs ← kv_get store HeightIndex (height_key height);
  match bs with
  | Some bs => h ← map_err Backend (decode_hash bs); Ok (Some h)
  | None => Ok None
  end.
Definition set_height_hash (batch : WriteBatch) (height : Z) (hash : Hash256) : WriteBatch :=
  batch_put batch HeightIndex (height_key height) hash.
Definition clear_height_hash (batch : WriteBatch) (height : Z) : WriteBatch :=
  batch_delete batch HeightIndex (height_key height).

Fixpoint decode_headers (entries : list (bytes * bytes)) : result StoreError (list (Hash256 * HeaderEntry)) :=
  match entries with
  | [] => Ok []
  | (key, value) :: entries =>
      hash ← map_err Backend (decode_hash key);
      entry ← map_err Backend (decode_header_entry value);
      rest ← decode_headers entries;
      Ok ((hash, entry) :: rest)
  end.
Definition scan_headers (store : S) : result StoreError (list (Hash256 * HeaderEntry)) :=
  entries ← kv_scan_prefix store HeaderIndex []; decode_headers entries.
End index.

(** ** Laws *)
Definition HeaderEntry_wf (e : HeaderEntry) : Prop :=
  array 32 (he_prev_hash e) /\ array 32 (he_skip_hash e) /\ is_i32 (he_height e) /\ is_u32 (he_time e)
  /\ is_u32 (he_bits e) /\ array 32 (he_chainwork e) /\ is_u8 (he_status e).
#[global] Instance HeaderEntry_wf_dec e : Decision (HeaderEntry_wf e).
Proof. unfold HeaderEntry_wf; apply _. Defined.

(** A parser that reads a whole input. *)
Lemma reads_whole_ret {E A} (a : A) bs : reads_whole (E:=E) (mret a) bs a.
Proof. intros d _. by exists d. Qed.

Lemma reads_whole_at_end {E A} (f : bool -> parser E A) bs a :
  reads_whole (f (is_nil bs)) bs a -> reads_whole (at_end ≫= f) bs a.
Proof.
  intros Hf d Hd. unfold mbind, parser_bind, at_end.
  replace (is_empty d) with (is_nil bs); [by apply Hf|].
  destruct (is_empty d) eqn:He; [by apply is_empty_rem in He; rewrite He in Hd; subst|].
  destruct bs; [|done]. by apply is_empty_rem in Hd; congruence.
Qed.

Lemma decode_header_entry_encode e :
  HeaderEntry_wf e -> decode_header_entry (encode_header_entry e) = Ok e.
Proof.
  destruct e as [p s h t b c st]. intros (Hp&Hs&Hh&Ht&Hb&Hc&Hst).
  assert (Hr : reads_whole HeaderEntry_fields (encode_header_entry (mkHeaderEntry p s h t b c st))
                 (mkHeaderEntry p s h t b c st)).
  { unfold encode_header_entry, HeaderEntry_fields.
    cbn [he_prev_hash he_skip_hash he_height he_time he_bits he_chainwork he_status] in *.
    do 6 (eapply reads_whole_bind; [solve [eauto with codec]|]; cbv beta).
    apply reads_whole_at_end. replace (is_nil (write_hash_le s)) with false by (by destruct s, Hs).
    rewrite <- (app_nil_r (write_hash_le s)). intros d Hd. unfold mbind, parser_bind.
    destruct (reads_whole_bind (lift DecodeError_to_string read_hash_le)
      (fun hash => ended ← at_end; if negb ended then fail "trailing bytes in header entry"%string else mret hash)
      (write_hash_le s) [] s s ltac:(eauto with codec) ltac:(apply reads_whole_at_end, reads_whole_ret) d Hd)
      as [d' E]. unfold mbind, parser_bind in E. rewrite E. by exists d'. }
  unfold decode_header_entry. destruct (Hr (new_decoder _) (rem_new _)) as [d' ->]. done.
Qed.

Lemma decode_hash_ok h : length h = 32%nat -> decode_hash h = Ok h.
Proof. intros Hh. unfold decode_hash. by rewrite Hh. Qed.

(** *** The status byte keeps independent bits *)
Lemma status_bits status :
  is_u8 status ->
  has_block (status_with_block status) = true /\ has_block (status_without_block status) = false
  /\ is_failed (status_with_failed status) = true /\ has_header (status_with_header status) = true
  /\ is_failed (status_with_block status) = is_failed status
  /\ is_failed (status_without_block status) = is_failed status
  /\ has_block (status_with_failed status) = has_block status
  /\ is_u8 (status_with_block status) /\ is_u8 (status_without_block status)
  /\ is_u8 (status_with_failed status).
Proof.
  intros Hs.
  assert (Hall : forallb (fun n => let s := Z.of_nat n in
    has_block (status_with_block s) && negb (has_block (status_without_block s))
    && is_failed (status_with_failed s) && has_header (status_with_header s)
    && Bool.eqb (is_failed (status_with_block s)) (is_failed s)
    && Bool.eqb (is_failed (status_without_block s)) (is_failed s)
    && Bool.eqb (has_block (status_with_failed s)) (has_block s)
    && bool_decide (is_u8 (status_with_block s)) && bool_decide (is_u8 (status_without_block s))
    && bool_decide (is_u8 (status_with_failed s))) (List.seq 0 256) = true) by (vm_compute; reflexivity).
  rewrite forallb_forall in Hall. specialize (Hall (Z.to_nat status)).
  rewrite Z2Nat.id in Hall by int_lia. cbv zeta in Hall.
  rewrite !andb_true_iff, !bool_decide_eq_true, !Bool.eqb_true_iff, negb_true_iff in Hall.
  destruct Hall as (((((((((?&?)&?)&?)&?)&?)&?)&?)&?)&?); [|by split_and!].
  apply List.in_seq. int_lia.
Qed.
