(* ===== verification/Shielded.v ===== *)
(** * Shielded transaction verification ([shielded/src/verify.rs])

    The proof systems, curves and signature schemes are third-party crates:
    the class [ShieldedCrypto].  What is modelled is what the code checks, in
    which order, against which digest and public inputs. *)

From S2P Require Import Prelude Hashing Encoding Transaction Sighash.
From Stdlib Require Import ZArith Lia.
From stdpp Require Import base list option numbers strings.
#[local] Open Scope Z_scope.

(** [ed25519_dalek], [zcash_proofs], [sapling_crypto], [redjubjub] and the
    verifying keys of [ShieldedParams]. *)
Class ShieldedCrypto := {
  ed25519_key : Type;
  ed25519_from_bytes : bytes -> option ed25519_key;
  ed25519_verify_strict : ed25519_key -> bytes -> bytes -> bool;
  ShieldedParams : Type;
  (** proof, anchor, h_sig, macs, nullifiers, commitments, vpub_old, vpub_new *)
  sprout_verify_proof :
    ShieldedParams -> bytes -> Hash256 -> Hash256 -> list Hash256 -> list Hash256 -> list Hash256 -> Z -> Z -> bool;
  ValueCommitment : Type; Scalar : Type; SpendAuthKey : Type; NoteCommitment : Type;
  Point : Type; GrothProof : Type;
  value_commitment_not_small_order : bytes -> option ValueCommitment;
  base_from_repr : bytes -> option Scalar;
  spend_auth_key_from : bytes -> option SpendAuthKey;
  note_commitment_from_bytes : bytes -> option NoteCommitment;
  extended_point_from_bytes : bytes -> option Point;
  groth_proof_read : bytes -> option GrothProof;
  SaplingCtx : Type;
  sapling_ctx_new : SaplingCtx;
  check_spend : ShieldedParams -> SaplingCtx -> ValueCommitment -> Scalar -> Hash256 -> SpendAuthKey ->
    Hash256 -> bytes -> GrothProof -> bool * SaplingCtx;
  check_output : ShieldedParams -> SaplingCtx -> ValueCommitment -> NoteCommitment -> Point ->
    GrothProof -> bool * SaplingCtx;
  final_check : SaplingCtx -> Z -> Hash256 -> bytes -> bool }.

Inductive ShieldedError :=
| MissingParams (message : string)
| SighashFailed (message : string)
| InvalidShieldedTransaction (message : string).

Definition TransactionEncodeError_to_string (e : TransactionEncodeError) : string :=
  match e with EncodeInvalidTransactionFormat message => message end.
Definition SighashError_to_string (e : SighashError) : string :=
  match e with
  | InputIndexOutOfRange => "input index out of range"
  | MissingOutput => "no matching output for SIGHASH_SINGLE"
  | UnsupportedTransactionFormat message => message
  | SighashEncoding err => TransactionEncodeError_to_string err
  end.

Section verify.
  Context {H : Hashes} {SC : ShieldedCrypto}.

Definition joinsplit_hsig (random_seed : bytes) (nullifiers : list Hash256) (join_split_pub_key : bytes)
    : Hash256 :=
  blake2b_256 (ascii_bytes "ZcashComputehSig") (random_seed ++ concat nullifiers ++ join_split_pub_key).

Definition verify_joinsplit_signature (pubkey sig sighash : bytes) : result ShieldedError unit :=
  key ← ok_or (ed25519_from_bytes pubkey) (InvalidShieldedTransaction "invalid joinsplit pubkey");
  if ed25519_verify_strict key sighash sig then Ok tt
  else Err (InvalidShieldedTransaction "invalid joinsplit signature").

(** [u64::try_from] of an [i64]. *)
Definition u64_try_from (v : Z) (message : string) : result ShieldedError Z :=
  if v <? 0 then Err (InvalidShieldedTransaction message) else Ok v.

Definition verify_joinsplit_proof (joinsplit : JoinSplit) (join_split_pub_key : bytes)
    (params : ShieldedParams) : result ShieldedError unit :=
  let h_sig := joinsplit_hsig (random_seed joinsplit) (nullifiers joinsplit) join_split_pub_key in
  vpub_old ← u64_try_from (vpub_old joinsplit) "joinsplit vpub_old out of range";
  vpub_new ← u64_try_from (vpub_new joinsplit) "joinsplit vpub_new out of range";
  match js_proof joinsplit with
  | Groth proof =>
      if sprout_verify_proof params proof (js_anchor joinsplit) h_sig (macs joinsplit)
           (nullifiers joinsplit) (commitments joinsplit) vpub_old vpub_new
      then Ok tt else Err (InvalidShieldedTransaction "invalid joinsplit proof")
  | Phgr _ => Ok tt
  end.

Fixpoint verify_joinsplit_proofs (joinsplits : list JoinSplit) (join_split_pub_key : bytes)
    (params : ShieldedParams) : result ShieldedError unit :=
  match joinsplits with
  | [] => Ok tt
  | j :: joinsplits =>
      _ ← verify_joinsplit_proof j join_split_pub_key params;
      verify_joinsplit_proofs joinsplits join_split_pub_key params
  end.

Definition parse {A} (message : string) (o : option A) : result ShieldedError A :=
  ok_or o (InvalidShieldedTransaction message).
Definition parse_value_commitment (bs : bytes) :=
  parse "sapling value commitment invalid" (value_commitment_not_small_order bs).
Definition parse_anchor (bs : bytes) := parse "sapling anchor invalid" (base_from_repr bs).
Definition parse_rk (bs : bytes) := parse "sapling spend auth key invalid" (spend_auth_key_from bs).
Definition parse_cmu (bs : bytes) := parse "sapling note commitment invalid" (note_commitment_from_bytes bs).
Definition parse_epk (bs : bytes) := parse "sapling epk invalid" (extended_point_from_bytes bs).

Fixpoint verify_spends (params : ShieldedParams) (sighash : Hash256) (ctx : SaplingCtx)
    (spends : list SpendDescription) : result ShieldedError SaplingCtx :=
  match spends with
  | [] => Ok ctx
  | spend :: spends =>
      cv ← parse_value_commitment (sd_cv spend);
      anchor ← parse_anchor (sd_anchor spend);
      rk ← parse_rk (sd_rk spend);
      proof ← parse "invalid sapling spend proof" (groth_proof_read (sd_zkproof spend));
      let '(ok, ctx) :=
        check_spend params ctx cv anchor (sd_nullifier spend) rk sighash (spend_auth_sig spend) proof in
      if negb ok then Err (InvalidShieldedTransaction "sapling spend description invalid")
      else verify_spends params sighash ctx spends
  end.

Fixpoint verify_outputs (params : ShieldedParams) (ctx : SaplingCtx)
    (outputs : list OutputDescription) : result ShieldedError SaplingCtx :=
  match outputs with
  | [] => Ok ctx
  | output :: outputs =>
      cv ← parse_value_commitment (od_cv output);
      cmu ← parse_cmu (od_cm output);
      epk ← parse_epk (od_ephemeral_key output);
      proof ← parse "invalid sapling output proof" (groth_proof_read (od_zkproof output));
      let '(ok, ctx) := check_output params ctx cv cmu epk proof in
      if negb ok then Err (InvalidShieldedTransaction "sapling output description invalid")
      else verify_outputs params ctx outputs
  end.

Definition verify_sapling (tx : Transaction) (sighash : Hash256) (params : ShieldedParams)
    : result ShieldedError unit :=
  ctx ← verify_spends params sighash sapling_ctx_new (shielded_spends tx);
  ctx ← verify_outputs params ctx (shielded_outputs tx);
  if negb (is_nil (shielded_spends tx) && is_nil (shielded_outputs tx)) then
    if negb (final_check ctx (value_balance tx) sighash (binding_sig tx))
    then Err (InvalidShieldedTransaction "sapling binding signature invalid")
    else Ok tt
  else Ok tt.

Definition verify_transaction (tx : Transaction) (branch_id : Z) (params : ShieldedParams)
    : result ShieldedError unit :=
  let has_joinsplit := negb (is_nil (join_splits tx)) in
  let has_sapling := negb (is_nil (shielded_spends tx) && is_nil (shielded_outputs tx)) in
  if negb has_joinsplit && negb has_sapling then Ok tt
  else
    sighash ← map_err (fun err => SighashFailed (SighashError_to_string err))
                (signature_hash tx None [] 0 SIGHASH_ALL branch_id);
    _ ← (if has_joinsplit then
           _ ← verify_joinsplit_signature (join_split_pub_key tx) (join_split_sig tx) sighash;
           verify_joinsplit_proofs (join_splits tx) (join_split_pub_key tx) params
         else Ok tt);
    if has_sapling then verify_sapling tx sighash params else Ok tt.
End verify.
