(* ===== verification/Validation.v ===== *)
(** * Block and transaction validation ([chainstate/src/validation.rs])

    The checks that need no chain state: formats, upgrades, values, duplicates,
    proofs, header, merkle root, lock times and signature operations.  The
    performance counters have no effect on the result and are left out. *)

From S2P Require Import Prelude Consensus Encoding Hashing Transaction Block MerkleBlock Difficulty Sighash.
From S2P Require Import Script Equihash Pow Pon Fluxnode Utxo Shielded.
From Stdlib Require Import ZArith Lia.
From stdpp Require Import base list option numbers strings gmap.
#[local] Open Scope Z_scope.

Inductive ValidationError :=
| InvalidBlock (message : string)
| InvalidBlockHeader (message : string)
| InvalidTransaction (message : string)
| ValueOutOfRange
| DuplicateInput
| DuplicateTransaction
| MerkleMismatch
| ShieldedFailure (error : ShieldedError)
| PowFailure (error : PowError)
| PonFailure (error : PonError)
| FluxnodeFailure (message : string)
| EncodingFailure (error : TransactionEncodeError).

(** A failed check. *)
Definition require (check : bool) (e : ValidationError) : result ValidationError unit :=
  if check then Ok tt else Err e.

(** A loop that inserts into a [HashSet] and stops at the first element that
    is already there. *)
Fixpoint insert_all {A} `{Countable A} (e : ValidationError) (seen : gset A) (l : list A)
    : result ValidationError (gset A) :=
  match l with
  | [] => Ok seen
  | x :: l => if bool_decide (x ∈ seen) then Err e else insert_all e ({[x]} ∪ seen) l
  end.

(** ** Classification *)
Definition is_fluxnode_tx (tx : Transaction) : bool :=
  (version tx =? FLUXNODE_TX_VERSION) || (version tx =? FLUXNODE_TX_UPGRADEABLE_VERSION).

Definition is_null_input (input : TxIn) : bool := bool_decide (prevout input = OutPoint_null).

Definition is_coinbase_tx (tx : Transaction) : bool :=
  match vin tx with [input] => is_null_input input | _ => false end.

Definition is_expired_tx (tx : Transaction) (height : Z) : bool :=
  if (expiry_height tx =? 0) || is_coinbase_tx tx || (height <? 0) then false
  else height >? expiry_height tx.

Definition is_final_tx (tx : Transaction) (height block_time : Z) : bool :=
  if lock_time tx =? 0 then true
  else
    let compare := if lock_time tx <? 500000000 then height else block_time in
    if lock_time tx <? compare then true
    else forallb (fun input => sequence input =? u32_max) (vin tx).

Definition fluxnode_start_version (tx : Transaction) : option Z :=
  match fluxnode tx with
  | Some (V6 (StartV6 start)) => Some (flux_tx_version start)
  | _ => None
  end.

Definition fluxnode_collateral_outpoint (tx : Transaction) : option OutPoint :=
  payload ← fluxnode tx;
  Some match payload with
       | V5 (StartV5 start) => start5_collateral start
       | V5 (ConfirmV5 confirm) | V6 (ConfirmV6 confirm) => confirm_collateral confirm
       | V6 (StartV6 start) =>
           match variant start with
           | Normal collateral _ _ _ _ => collateral
           | P2sh collateral _ _ _ _ => collateral
           end
       end.

(** ** The coinbase height *)
Definition push_data (data : bytes) : bytes :=
  let len := Z.of_nat (length data) in
  (if len <? 0x4c then [wrap_u8 len]
   else if len <=? 255 then [0x4c; wrap_u8 len]
   else if len <=? 65535 then 0x4d :: le_bytes 2 len
   else 0x4e :: le_bytes 4 len) ++ data.

Definition script_push_int (value : Z) : bytes :=
  if value =? 0 then [0x00]
  else if value =? -1 then [0x4f]
  else if (1 <=? value) && (value <=? 16) then [0x51 + (value - 1)]
  else push_data (script_num_to_vec value).

Definition coinbase_height_matches (tx : Transaction) (height : Z) : bool :=
  match vin tx with
  | [] => false
  | input :: _ => starts_with (script_sig input) (script_push_int height)
  end.

(** ** Signature operations *)

(** Skip [len] bytes of pushed data: [None] when the script ends before. *)
Definition skip (script : bytes) (len : nat) : option bytes :=
  if Nat.ltb (length script) len then None else Some (drop len script).

(** The data a PUSHDATA opcode announces in [width] bytes. *)
Definition skip_pushdata (width : nat) (script : bytes) : option bytes :=
  if Nat.ltb (length script) width then None
  else skip (drop width script) (Z.to_nat (from_le (take width script))).

(** The loop over the script from the cursor on; every iteration moves the
    cursor, so the script's length is fuel enough. *)
Fixpoint sigops_loop (fuel : nat) (script : bytes) (count : Z) : Z :=
  match fuel, script with
  | S fuel, opcode :: script =>
      let continue rest := match rest with Some rest => sigops_loop fuel rest count | None => count end in
      if (opcode =? 0xac) || (opcode =? 0xad) then sigops_loop fuel script (wrap_u32 (count + 1))
      else if (opcode =? 0xae) || (opcode =? 0xaf) then sigops_loop fuel script (wrap_u32 (count + 20))
      else if (1 <=? opcode) && (opcode <=? 0x4b) then continue (skip script (Z.to_nat opcode))
      else if opcode =? 0x4c then continue (skip_pushdata 1 script)
      else if opcode =? 0x4d then continue (skip_pushdata 2 script)
      else if opcode =? 0x4e then continue (skip_pushdata 4 script)
      else sigops_loop fuel script count
  | _, _ => count
  end.

Definition legacy_sigops (script : bytes) : Z := sigops_loop (length script) script 0.

(** A sum of [u32]s. *)
Definition sum_u32 (l : list Z) : Z := foldl (fun a b => wrap_u32 (a + b)) 0 l.

Definition tx_sigops (tx : Transaction) : Z :=
  wrap_u32 (sum_u32 (map (fun input => legacy_sigops (script_sig input)) (vin tx))
            + sum_u32 (map (fun output => legacy_sigops (script_pubkey output)) (vout tx))).
Definition block_sigops (block : Block) : Z := sum_u32 (map tx_sigops (transactions block)).

(** ** Values *)
Definition checked_total (value_out value : Z) : result ValidationError Z :=
  value_out ← ok_or (checked_add_i64 value_out value) ValueOutOfRange;
  _ ← require (negb (value_out >? MAX_MONEY)) ValueOutOfRange;
  Ok value_out.

Fixpoint sum_outputs (value_out : Z) (outputs : list TxOut) : result ValidationError Z :=
  match outputs with
  | [] => Ok value_out
  | output :: outputs =>
      _ ← require (negb ((value output <? 0) || (value output >? MAX_MONEY))) ValueOutOfRange;
      value_out ← checked_total value_out (value output);
      sum_outputs value_out outputs
  end.

Fixpoint sum_joinsplits_old (value_out : Z) (joinsplits : list JoinSplit) : result ValidationError Z :=
  match joinsplits with
  | [] => Ok value_out
  | j :: joinsplits =>
      _ ← require (negb ((vpub_old j <? 0) || (vpub_old j >? MAX_MONEY))) ValueOutOfRange;
      _ ← require (negb ((vpub_new j <? 0) || (vpub_new j >? MAX_MONEY))) ValueOutOfRange;
      _ ← require (negb (negb (vpub_new j =? 0) && negb (vpub_old j =? 0)))
            (InvalidTransaction "joinsplit vpub_old and vpub_new both non-zero");
      value_out ← checked_total value_out (vpub_old j);
      sum_joinsplits_old value_out joinsplits
  end.

Fixpoint sum_joinsplits_new (value_in : Z) (joinsplits : list JoinSplit) : result ValidationError Z :=
  match joinsplits with
  | [] => Ok value_in
  | j :: joinsplits =>
      value_in ← checked_total value_in (vpub_new j);
      sum_joinsplits_new value_in joinsplits
  end.

(** ** Transactions *)
Section validation.
  Context {H : Hashes} {B : Blake2b} {U : U256Ops} {S256 : Secp} {SC : ShieldedCrypto}.

Record ValidationFlags := mkFlags {
  check_pow : bool; check_pon : bool; check_script : bool; check_shielded : bool;
  shielded_params : option ShieldedParams }.

Definition check_format (tx : Transaction) : result ValidationError unit :=
  let has_joinsplit := negb (is_nil (join_splits tx)) in
  let has_spends := negb (is_nil (shielded_spends tx)) in
  let has_outputs := negb (is_nil (shielded_outputs tx)) in
  if negb (is_fluxnode_tx tx) then
    _ ← (if negb (f_overwintered tx) then
           require (negb (version tx <? SPROUT_MIN_TX_VERSION))
             (InvalidTransaction "transaction version too low")
         else
           _ ← require (negb (version tx <? OVERWINTER_MIN_TX_VERSION))
                 (InvalidTransaction "overwinter version too low");
           _ ← require (negb (negb (version_group_id tx =? OVERWINTER_VERSION_GROUP_ID)
                              && negb (version_group_id tx =? SAPLING_VERSION_GROUP_ID)))
                 (InvalidTransaction "unknown transaction version group id");
           require (negb (expiry_height tx >=? TX_EXPIRY_HEIGHT_THRESHOLD))
             (InvalidTransaction "expiry height is too high"));
    _ ← require (negb (is_nil (vin tx) && negb has_joinsplit && negb has_spends))
          (InvalidTransaction "transaction must have inputs or shielded spends");
    require (negb (is_nil (vout tx) && negb has_joinsplit && negb has_outputs))
      (InvalidTransaction "transaction must have outputs or shielded outputs")
  else
    require (negb (negb (is_nil (vout tx)) || has_joinsplit || has_outputs || negb (is_nil (vin tx)) || has_spends))
      (InvalidTransaction "fluxnode transaction must not contain regular inputs or outputs").

Definition check_size (tx : Transaction) (sapling_active : bool) : result ValidationError unit :=
  encoded ← map_err EncodingFailure (tx_consensus_encode tx);
  let tx_size := wrap_u32 (Z.of_nat (length encoded)) in
  _ ← require (negb (negb sapling_active && (tx_size >? MAX_TX_SIZE_BEFORE_SAPLING)))
        (InvalidTransaction "transaction too large");
  require (negb (tx_size >? MAX_TX_SIZE_AFTER_SAPLING)) (InvalidTransaction "transaction too large").

Definition check_upgrade_rules (tx : Transaction) (height : Z) (params : ConsensusParams)
    (sapling_active : bool) : result ValidationError unit :=
  if is_fluxnode_tx tx then Ok tt
  else
    _ ← (if sapling_active then
           _ ← require (negb ((version tx >=? SAPLING_MIN_TX_VERSION) && negb (f_overwintered tx)))
                 (InvalidTransaction "overwintered flag must be set");
           _ ← require (negb (f_overwintered tx && negb (version_group_id tx =? SAPLING_VERSION_GROUP_ID)))
                 (InvalidTransaction "invalid sapling version group id");
           _ ← require (negb (f_overwintered tx && (version tx <? SAPLING_MIN_TX_VERSION)))
                 (InvalidTransaction "sapling version too low");
           _ ← require (negb (f_overwintered tx && (version tx >? SAPLING_MAX_TX_VERSION)))
                 (InvalidTransaction "sapling version too high");
           _ ← require (f_overwintered tx)
                 (InvalidTransaction "sapling active but transaction not overwintered");
           require (negb (is_expired_tx tx height)) (InvalidTransaction "transaction expired")
         else require (negb (f_overwintered tx)) (InvalidTransaction "overwinter is not active yet"));
    require (negb (network_upgrade_active height (upgrades params) Flux && negb (is_nil (vin tx))
                   && (negb (is_nil (join_splits tx)) || negb (is_nil (shielded_outputs tx)))))
      (InvalidTransaction "shielded outputs disabled after flux rebrand").

Definition check_inputs_shape (tx : Transaction) (is_coinbase : bool) : result ValidationError unit :=
  if is_coinbase then
    match vin tx with
    | [input] =>
        _ ← require (is_null_input input)
              (InvalidTransaction "coinbase must have exactly one null input");
        _ ← require (is_nil (join_splits tx)) (InvalidTransaction "coinbase must not contain joinsplits");
        _ ← require (is_nil (shielded_spends tx))
              (InvalidTransaction "coinbase must not contain shielded spends");
        _ ← require (is_nil (shielded_outputs tx))
              (InvalidTransaction "coinbase must not contain shielded outputs");
        let script_len := length (script_sig input) in
        require (Nat.leb 2 script_len && Nat.leb script_len 100)
          (InvalidTransaction "coinbase scriptSig length out of range")
    | _ => Err (InvalidTransaction "coinbase must have exactly one null input")
    end
  else require (negb (existsb is_null_input (vin tx)))
         (InvalidTransaction "non-coinbase cannot contain null prevout").

(** The transparent and shielded values; [- value_balance] of an [i64]. *)
Definition check_values (tx : Transaction) : result ValidationError unit :=
  let has_spends := negb (is_nil (shielded_spends tx)) in
  let has_outputs := negb (is_nil (shielded_outputs tx)) in
  value_out ← sum_outputs 0 (vout tx);
  _ ← require (negb (negb has_spends && negb has_outputs && negb (value_balance tx =? 0)
                     && negb (is_fluxnode_tx tx)))
        (InvalidTransaction "value balance with no shielded components");
  _ ← require (negb ((value_balance tx >? MAX_MONEY) || (value_balance tx <? - MAX_MONEY))) ValueOutOfRange;
  value_out ← (if value_balance tx <=? 0 then checked_total value_out (- value_balance tx)
               else Ok value_out);
  _ ← sum_joinsplits_old value_out (join_splits tx);
  value_in ← sum_joinsplits_new 0 (join_splits tx);
  if value_balance tx >=? 0 then _ ← checked_total value_in (value_balance tx); Ok tt else Ok tt.

Definition check_duplicates (tx : Transaction) : result ValidationError unit :=
  _ ← insert_all DuplicateInput ∅ (map prevout (vin tx));
  _ ← insert_all (InvalidTransaction "duplicate joinsplit nullifier") ∅
        (concat (map nullifiers (join_splits tx)));
  _ ← insert_all (InvalidTransaction "duplicate sapling nullifier") ∅
        (map sd_nullifier (shielded_spends tx));
  Ok tt.

Definition check_fluxnode (tx : Transaction) (height : Z) (params : ConsensusParams)
    : result ValidationError unit :=
  _ ← (match fluxnode tx with
       | Some fluxnode => map_err FluxnodeFailure (validate_fluxnode_tx fluxnode (version tx))
       | None => Ok tt
       end);
  if is_fluxnode_tx tx then
    _ ← require (network_upgrade_active height (upgrades params) Kamata)
          (InvalidTransaction "fluxnode transaction before kamata activation");
    if version tx =? FLUXNODE_TX_UPGRADEABLE_VERSION then
      _ ← require (network_upgrade_active height (upgrades params) P2ShNodes)
            (InvalidTransaction "fluxnode upgrade transaction before p2sh nodes activation");
      match fluxnode_start_version tx with
      | Some flux_version =>
          if negb (network_upgrade_active height (upgrades params) Consensus.Pon) then
            _ ← require (negb (negb (flux_version =? FLUXNODE_INTERNAL_NORMAL_TX_VERSION)
                               && negb (flux_version =? FLUXNODE_INTERNAL_P2SH_TX_VERSION)))
                  (InvalidTransaction "fluxnode tx version bits not active yet");
            require (negb (has_flux_tx_delegates_feature flux_version))
              (InvalidTransaction "fluxnode delegates feature not active yet")
          else Ok tt
      | None => Ok tt
      end
    else Ok tt
  else Ok tt.

Definition has_shielded (tx : Transaction) : bool :=
  negb (is_nil (join_splits tx)) || negb (is_nil (shielded_spends tx)) || negb (is_nil (shielded_outputs tx)).

Definition loaded_params (flags : ValidationFlags) : result ValidationError ShieldedParams :=
  ok_or (shielded_params flags) (ShieldedFailure (MissingParams "shielded parameters not loaded")).

Definition check_proofs (tx : Transaction) (branch_id : Z) (flags : ValidationFlags)
    : result ValidationError unit :=
  if check_shielded flags && has_shielded tx then
    params ← loaded_params flags;
    map_err ShieldedFailure (verify_transaction tx branch_id params)
  else Ok tt.

Definition validate_transaction (tx : Transaction) (is_coinbase : bool) (height : Z)
    (params : ConsensusParams) (branch_id : Z) (flags : ValidationFlags) : result ValidationError unit :=
  let sapling_active := network_upgrade_active height (upgrades params) Acadia in
  _ ← check_format tx;
  _ ← check_size tx sapling_active;
  _ ← check_upgrade_rules tx height params sapling_active;
  _ ← check_inputs_shape tx is_coinbase;
  _ ← check_values tx;
  _ ← check_duplicates tx;
  _ ← check_fluxnode tx height params;
  check_proofs tx branch_id flags.

Definition validate_mempool_transaction (tx : Transaction) (height block_time : Z)
    (params : ConsensusParams) (flags : ValidationFlags) : result ValidationError unit :=
  _ ← require (is_final_tx tx height block_time) (InvalidTransaction "transaction is not final");
  validate_transaction tx false height params (current_epoch_branch_id height (upgrades params)) flags.

(** ** Headers and blocks *)
Fixpoint check_activation_hashes (header : BlockHeader) (height : Z) (schedule : list NetworkUpgrade)
    : result ValidationError unit :=
  match schedule with
  | [] => Ok tt
  | upgrade :: schedule =>
      _ ← (if height =? activation_height upgrade then
             match hash_activation_block upgrade with
             | Some expected_hash =>
                 require (bool_decide (header_hash header = expected_hash))
                   (InvalidBlockHeader "activation block hash mismatch")
             | None => Ok tt
             end
           else Ok tt);
      check_activation_hashes header height schedule
  end.

Definition validate_header (header : BlockHeader) (height : Z) (params : ConsensusParams)
    (flags : ValidationFlags) : result ValidationError unit :=
  let pon_active := network_upgrade_active height (upgrades params) Consensus.Pon in
  _ ← require (negb (bh_version header <? MIN_BLOCK_VERSION)) (InvalidBlockHeader "block version too low");
  _ ← require (negb (pon_active && (bh_version header <? MIN_PON_BLOCK_VERSION)))
        (InvalidBlockHeader "pon block version too low");
  _ ← require (negb (pon_active && negb (is_pon header)))
        (InvalidBlockHeader "pon upgrade active but header is not pon");
  _ ← require (negb (negb pon_active && is_pon header))
        (InvalidBlockHeader "pon upgrade inactive but header is pon");
  _ ← check_activation_hashes header height (upgrades params);
  if is_pon header then
    if check_pon flags then map_err PonFailure (validate_pon_header header height params) else Ok tt
  else if check_pow flags then map_err PowFailure (validate_pow_header header height params)
  else Ok tt.

Definition validate_merkle_root (block : Block) (txids : list Hash256) : result ValidationError unit :=
  let '(root, mutated) := MerkleBlock.merkle_root txids in
  _ ← require (negb mutated) DuplicateTransaction;
  require (bool_decide (root = Block.merkle_root (header block))) MerkleMismatch.

(** [iter().map(txid).collect()]. *)
Fixpoint txids_of (txs : list Transaction) : result ValidationError (list Hash256) :=
  match txs with
  | [] => Ok []
  | tx :: txs =>
      id ← map_err EncodingFailure (txid tx);
      ids ← txids_of txs;
      Ok (id :: ids)
  end.

(** What the loop over the transactions remembers. *)
Record BlockScan := mkScan { seen_txids : gset Hash256; fluxnode_outpoints : gset OutPoint }.

Fixpoint scan_transactions (block_time : Z) (height : Z) (params : ConsensusParams) (branch_id : Z)
    (flags : ValidationFlags) (scan : BlockScan) (index : nat) (txs : list Transaction)
    (txids : list Hash256) : result ValidationError unit :=
  match txs with
  | [] => Ok tt
  | tx :: txs =>
      _ ← require (is_final_tx tx height block_time) (InvalidTransaction "transaction is not final");
      _ ← validate_transaction tx (index =? 0)%nat height params branch_id flags;
      match txids with
      | [] => Err (InvalidBlock "transaction id cache mismatch")
      | id :: txids =>
          seen ← insert_all DuplicateTransaction (seen_txids scan) [id];
          outpoints ←
            (if Nat.ltb 0 index then
               match fluxnode_collateral_outpoint tx with
               | Some outpoint =>
                   insert_all (InvalidBlock "duplicate fluxnode collateral outpoint")
                     (fluxnode_outpoints scan) [outpoint]
               | None => Ok (fluxnode_outpoints scan)
               end
             else Ok (fluxnode_outpoints scan));
          scan_transactions block_time height params branch_id flags (mkScan seen outpoints) (S index)
            txs txids
      end
  end.

(** The proofs of a block are verified in parallel; which of several failures
    is reported is not specified by the code, here it is the first. *)
Fixpoint verify_all (branch_id : Z) (params : ShieldedParams) (txs : list Transaction)
    : result ValidationError unit :=
  match txs with
  | [] => Ok tt
  | tx :: txs =>
      _ ← map_err ShieldedFailure (verify_transaction tx branch_id params);
      verify_all branch_id params txs
  end.

Definition validate_block_with_txids_and_size (block : Block) (height : Z) (params : ConsensusParams)
    (flags : ValidationFlags) (block_size : option Z) : result ValidationError (list Hash256) :=
  match transactions block with
  | [] => Err (InvalidBlock "block must contain at least one transaction")
  | coinbase :: _ =>
      _ ← require (negb (wrap_u32 (Z.of_nat (length (transactions block))) >? MAX_BLOCK_SIZE))
            (InvalidBlock "block transaction count too large");
      block_size ← (match block_size with
                    | Some size => Ok size
                    | None =>
                        encoded ← map_err EncodingFailure (block_consensus_encode block);
                        Ok (wrap_u32 (Z.of_nat (length encoded)))
                    end);
      _ ← require (negb (block_size >? MAX_BLOCK_SIZE)) (InvalidBlock "block size too large");
      _ ← validate_header (header block) height params flags;
      txids ← txids_of (transactions block);
      _ ← validate_merkle_root block txids;
      _ ← require (negb ((height >? 20) && negb (coinbase_height_matches coinbase height)))
            (InvalidBlock "coinbase height mismatch");
      let branch_id := current_epoch_branch_id height (upgrades params) in
      let tx_flags :=
        mkFlags (check_pow flags) (check_pon flags) (check_script flags) false (shielded_params flags) in
      _ ← scan_transactions (time (header block)) height params branch_id tx_flags (mkScan ∅ ∅) 0
            (transactions block) txids;
      _ ← require (negb (block_sigops block >? MAX_BLOCK_SIGOPS))
            (InvalidBlock "block sigops limit exceeded");
      let shielded_txs := List.filter has_shielded (transactions block) in
      _ ← (if check_shielded flags && negb (is_nil shielded_txs) then
             params ← loaded_params flags;
             verify_all branch_id params shielded_txs
           else Ok tt);
      Ok txids
  end.

Definition validate_block_with_txids (block : Block) (height : Z) (params : ConsensusParams)
    (flags : ValidationFlags) : result ValidationError (list Hash256) :=
  validate_block_with_txids_and_size block height params flags None.
Definition validate_block (block : Block) (height : Z) (params : ConsensusParams)
    (flags : ValidationFlags) : result ValidationError unit :=
  _ ← validate_block_with_txids_and_size block height params flags None; Ok tt.

(** The last transaction with an id wins. *)
Fixpoint index_loop (index : nat) (txs : list Transaction) (m : gmap Hash256 nat)
    : result ValidationError (gmap Hash256 nat) :=
  match txs with
  | [] => Ok m
  | tx :: txs => id ← map_err EncodingFailure (txid tx); index_loop (S index) txs (<[id := index]> m)
  end.
Definition index_transactions (block : Block) : result ValidationError (gmap Hash256 nat) :=
  index_loop 0 (transactions block) ∅.
End validation.

(** ** Laws of the checks *)
Lemma require_Ok check e u : require check e = Ok u <-> check = true.
Proof. destruct check; simpl; split; try done; by destruct u. Qed.

Lemma require_bind {A} check e (k : unit -> result ValidationError A) a :
  (x ← require check e; k x) = Ok a <-> check = true /\ k tt = Ok a.
Proof. destruct check; simpl; naive_solver. Qed.

Lemma insert_all_Ok {A} `{Countable A} e (seen s : gset A) l :
  insert_all e seen l = Ok s ->
  NoDup l /\ (forall x, x ∈ l -> x ∉ seen) /\ s = list_to_set l ∪ seen.
Proof.
  revert seen; induction l as [|x l IH]; intros seen; cbn [insert_all].
  - intros [= ->]. split_and!; [constructor|by intros x Hx%elem_of_nil|]. simpl. by rewrite union_empty_l_L.
  - case_bool_decide as Hx; [done|]. intros Hs. destruct (IH _ Hs) as (Hn&Hf&->). split_and!.
    + constructor; [|done]. intros Hin. apply (Hf x Hin), elem_of_union_l, elem_of_singleton_2, eq_refl.
    + intros y [->|Hy]%elem_of_cons; [done|]. specialize (Hf y Hy).
      by apply not_elem_of_union in Hf as [_ ?].
    + cbn [list_to_set]. by rewrite (assoc_L (∪)), (comm_L (∪) (list_to_set l)).
Qed.

Lemma checked_total_Ok a b t :
  checked_total a b = Ok t <-> t = a + b /\ is_i64 t /\ t <= MAX_MONEY.
Proof.
  unfold checked_total, checked_add_i64. cbv zeta. split.
  - intros E. apply bind_Ok in E as (v&E&E2). apply ok_or_Ok in E.
    destruct ((_ <=? a + b) && (a + b <=? _)) eqn:Hr; [|done]. injection E as <-.
    apply require_bind in E2 as [Hm [= <-]]. apply andb_true_iff in Hr as [H1%Z.leb_le H2%Z.leb_le].
    rewrite negb_true_iff, Z.gtb_ltb, Z.ltb_ge in Hm. split; [done|]. split; [int_lia|done].
  - intros (->&Hi&Hm).
    replace ((_ <=? a + b) && (a + b <=? _)) with true by (symmetry; apply andb_true_iff; rewrite !Z.leb_le; int_lia).
    cbn [ok_or mbind result_bind]. replace (a + b >? MAX_MONEY) with false; [done|].
    symmetry. rewrite Z.gtb_ltb, Z.ltb_ge. done.
Qed.

Definition sumZ (l : list Z) : Z := fold_right Z.add 0 l.

Lemma check_range v lo hi : negb ((v <? lo) || (v >? hi)) = true <-> lo <= v <= hi.
Proof. rewrite negb_true_iff, orb_false_iff, Z.gtb_ltb, !Z.ltb_ge. lia. Qed.

Lemma sum_outputs_Ok v outs t :
  sum_outputs v outs = Ok t ->
  t = v + sumZ (map value outs) /\ Forall (fun o => 0 <= value o <= MAX_MONEY) outs
  /\ (v <= MAX_MONEY -> t <= MAX_MONEY).
Proof.
  revert v; induction outs as [|o outs IH]; intros v; cbn [sum_outputs map sumZ fold_right].
  - intros [= ->]. split_and!; [lia|constructor|done].
  - intros E. apply require_bind in E as [Hr%check_range E]. apply bind_Ok in E as (v'&Hv&E).
    apply checked_total_Ok in Hv as (->&_&Hm). destruct (IH _ E) as (->&Hf&Hle).
    unfold sumZ. split_and!; [lia|by constructor|auto].
Qed.

Lemma sum_joinsplits_old_Ok v js t :
  sum_joinsplits_old v js = Ok t ->
  t = v + sumZ (map vpub_old js)
  /\ Forall (fun j => 0 <= vpub_old j <= MAX_MONEY /\ 0 <= vpub_new j <= MAX_MONEY
                      /\ (vpub_old j = 0 \/ vpub_new j = 0)) js
  /\ (v <= MAX_MONEY -> t <= MAX_MONEY).
Proof.
  revert v; induction js as [|j js IH]; intros v; cbn [sum_joinsplits_old map sumZ fold_right].
  - intros [= ->]. split_and!; [lia|constructor|done].
  - intros E. apply require_bind in E as [Hr1%check_range E]. apply require_bind in E as [Hr2%check_range E].
    apply require_bind in E as [Hz E]. apply bind_Ok in E as (v'&Hv&E).
    apply checked_total_Ok in Hv as (->&_&Hm). destruct (IH _ E) as (->&Hf&Hle).
    unfold sumZ. split_and!; [lia| |auto]. constructor; [|done]. split_and!; lia.
Qed.

Lemma sum_joinsplits_new_Ok v js t :
  sum_joinsplits_new v js = Ok t ->
  t = v + sumZ (map vpub_new js) /\ (v <= MAX_MONEY -> t <= MAX_MONEY).
Proof.
  revert v; induction js as [|j js IH]; intros v; cbn [sum_joinsplits_new map sumZ fold_right].
  - intros [= ->]. split; [lia|done].
  - intros E. apply bind_Ok in E as (v'&Hv&E). apply checked_total_Ok in Hv as (->&_&Hm).
    destruct (IH _ E) as (->&Hle). unfold sumZ. split; [lia|auto].
Qed.

(** ** What acceptance means *)
Definition values_ok (tx : Transaction) : Prop :=
  Forall (fun o => 0 <= value o <= MAX_MONEY) (vout tx)
  /\ Forall (fun j => 0 <= vpub_old j <= MAX_MONEY /\ 0 <= vpub_new j <= MAX_MONEY
                      /\ (vpub_old j = 0 \/ vpub_new j = 0)) (join_splits tx)
  /\ - MAX_MONEY <= value_balance tx <= MAX_MONEY
  /\ sumZ (map value (vout tx)) + Z.max 0 (- value_balance tx) + sumZ (map vpub_old (join_splits tx)) <= MAX_MONEY
  /\ sumZ (map vpub_new (join_splits tx)) + Z.max 0 (value_balance tx) <= MAX_MONEY.

Lemma check_values_Ok tx u : check_values tx = Ok u -> values_ok tx.
Proof.
  unfold check_values. cbv zeta. intros E. apply bind_Ok in E as (v&Hv&E).
  apply sum_outputs_Ok in Hv as (->&Hf&Hle). specialize (Hle ltac:(by vm_compute)).
  apply require_bind in E as [_ E]. apply require_bind in E as [Hb E].
  rewrite negb_true_iff, orb_false_iff, Z.gtb_ltb, !Z.ltb_ge in Hb.
  apply bind_Ok in E as (v&Hv&E).
  assert (v = sumZ (map value (vout tx)) + Z.max 0 (- value_balance tx) /\ v <= MAX_MONEY) as [-> Hv'].
  { destruct (Z.leb_spec (value_balance tx) 0).
    - apply checked_total_Ok in Hv as (->&_&?). lia.
    - injection Hv as <-. lia. }
  apply bind_Ok in E as (v2&Hv2&E). apply sum_joinsplits_old_Ok in Hv2 as (->&Hj&Hle2).
  specialize (Hle2 Hv'). apply bind_Ok in E as (v3&Hv3&E). apply sum_joinsplits_new_Ok in Hv3 as (->&Hle3).
  specialize (Hle3 ltac:(by vm_compute)).
  assert (0 + sumZ (map vpub_new (join_splits tx)) + Z.max 0 (value_balance tx) <= MAX_MONEY).
  { destruct (Z.geb_spec (value_balance tx) 0); [|lia].
    apply bind_Ok in E as (v4&Hv4&_). apply checked_total_Ok in Hv4 as (->&_&?). lia. }
  unfold values_ok. split_and!; try done; lia.
Qed.

Lemma check_duplicates_Ok tx u :
  check_duplicates tx = Ok u ->
  NoDup (map prevout (vin tx)) /\ NoDup (concat (map nullifiers (join_splits tx)))
  /\ NoDup (map sd_nullifier (shielded_spends tx)).
Proof.
  unfold check_duplicates. intros E. apply bind_Ok in E as (s1&H1&E). apply bind_Ok in E as (s2&H2&E).
  apply bind_Ok in E as (s3&H3&_). apply insert_all_Ok in H1, H2, H3. by destruct H1, H2, H3.
Qed.

Lemma check_inputs_shape_Ok tx cb u :
  check_inputs_shape tx cb = Ok u ->
  cb = is_coinbase_tx tx
  /\ (cb = true -> join_splits tx = [] /\ shielded_spends tx = [] /\ shielded_outputs tx = []
                   /\ exists i, vin tx = [i] /\ (2 <= length (script_sig i) <= 100)%nat)
  /\ (cb = false -> Forall (fun i => prevout i <> OutPoint_null) (vin tx)).
Proof.
  unfold check_inputs_shape, is_coinbase_tx. destruct cb.
  - destruct (vin tx) as [|i [|]]; [done| |done]. intros E.
    apply require_bind in E as [-> E]. apply require_bind in E as [H1 E]. apply require_bind in E as [H2 E].
    apply require_bind in E as [H3 E]. apply require_Ok in E.
    split_and!; [done| |done]. intros _.
    destruct (join_splits tx), (shielded_spends tx), (shielded_outputs tx); try done.
    split_and!; try done. exists i. split; [done|].
    apply andb_true_iff in E as [E1%Nat.leb_le E2%Nat.leb_le]. done.
  - intros E%require_Ok%negb_true_iff. split_and!; [|done|].
    + destruct (vin tx) as [|i [|]]; [done| |done]. simpl in E. by rewrite orb_false_r in E.
    + intros _. apply Forall_forall. intros i Hi Hn.
      assert (existsb is_null_input (vin tx) = true) as Hc; [|congruence].
      apply existsb_exists. exists i. split; [by apply list_elem_of_In|]. unfold is_null_input.
      by apply bool_decide_eq_true.
Qed.

Section accept.
  Context {H : Hashes} {B : Blake2b} {U : U256Ops} {S256 : Secp} {SC : ShieldedCrypto}.

Lemma validate_transaction_Ok tx cb height params bid flags u :
  validate_transaction tx cb height params bid flags = Ok u ->
  check_format tx = Ok tt
  /\ check_size tx (network_upgrade_active height (upgrades params) Acadia) = Ok tt
  /\ check_upgrade_rules tx height params (network_upgrade_active height (upgrades params) Acadia) = Ok tt
  /\ check_inputs_shape tx cb = Ok tt /\ check_values tx = Ok tt /\ check_duplicates tx = Ok tt
  /\ check_fluxnode tx height params = Ok tt /\ check_proofs tx bid flags = Ok tt.
Proof.
  unfold validate_transaction. cbv zeta. intros E.
  repeat (apply bind_Ok in E as ([]&?&E)). destruct u. by split_and!.
Qed.

Lemma check_size_Ok tx s u :
  check_size tx s = Ok u -> exists bs, tx_consensus_encode tx = Ok bs /\ wrap_u32 (Z.of_nat (length bs)) <= MAX_TX_SIZE_AFTER_SAPLING.
Proof.
  unfold check_size. cbv zeta. intros E. apply bind_Ok in E as (bs&He&E). apply map_err_Ok in He.
  apply require_bind in E as [_ E]. apply require_Ok, negb_true_iff in E. rewrite Z.gtb_ltb, Z.ltb_ge in E.
  eauto.
Qed.

(** The upgrade rules once Acadia (Sapling) is active. *)
Lemma check_upgrade_rules_acadia tx height params u :
  check_upgrade_rules tx height params true = Ok u ->
  is_fluxnode_tx tx = true
  \/ f_overwintered tx = true /\ version_group_id tx = SAPLING_VERSION_GROUP_ID /\ version tx = 4
     /\ is_expired_tx tx height = false.
Proof.
  unfold check_upgrade_rules. destruct (is_fluxnode_tx tx); [by left|]. intros E. right.
  apply bind_Ok in E as ([]&E&_).
  apply require_bind in E as [_ E]. apply require_bind in E as [H1 E]. apply require_bind in E as [H2 E].
  apply require_bind in E as [H3 E]. apply require_bind in E as [Ho E]. apply require_Ok in E.
  rewrite Ho in *. cbn [andb negb] in *. unfold SAPLING_MIN_TX_VERSION, SAPLING_MAX_TX_VERSION in *.
  rewrite negb_true_iff, negb_false_iff in H1. apply Z.eqb_eq in H1.
  rewrite negb_true_iff in H2, H3, E. split_and!; try done. lia.
Qed.

(** C12: an accepted transaction is one the ledger can apply: no input, no
    joinsplit nullifier and no sapling nullifier occurs twice in it, every
    value is in the money range, and neither the total it creates (outputs,
    net value into the shielded pools) nor the shielded value it releases
    exceeds the money supply, so no sum overflows; it is a coinbase exactly
    when it was validated as one, a coinbase has no shielded part and
    any other transaction no null input; and it has an encoding of bounded
    size. *)
Theorem accepted_transaction_sound (tx : Transaction) (is_coinbase : bool) (height : Z)
    (params : ConsensusParams) (branch_id : Z) (flags : ValidationFlags) :
  validate_transaction tx is_coinbase height params branch_id flags = Ok tt ->
  NoDup (map prevout (vin tx))
  /\ NoDup (concat (map nullifiers (join_splits tx)))
  /\ NoDup (map sd_nullifier (shielded_spends tx))
  /\ values_ok tx
  /\ is_coinbase = is_coinbase_tx tx
  /\ (is_coinbase = true -> has_shielded tx = false)
  /\ (is_coinbase = false -> Forall (fun i => prevout i <> OutPoint_null) (vin tx))
  /\ (exists bs, tx_consensus_encode tx = Ok bs /\ wrap_u32 (Z.of_nat (length bs)) <= MAX_TX_SIZE_AFTER_SAPLING).
Proof.
  intros E. apply validate_transaction_Ok in E as (_&Hs&_&Hi&Hv&Hd&_).
  apply check_duplicates_Ok in Hd as (?&?&?). apply check_values_Ok in Hv.
  apply check_inputs_shape_Ok in Hi as (?&Hc&Hn). apply check_size_Ok in Hs.
  split_and!; try done. intros Ht. destruct (Hc Ht) as (E1&E2&E3&_).
  unfold has_shielded. by rewrite E1, E2, E3.
Qed.

(** Joinsplits that encode have the proof system of their version. *)
Lemma encode_each_proofs g js bs :
  encode_each (JoinSplit_encode_with g) js = Ok bs ->
  Forall (fun j => match js_proof j with Groth _ => g = true | Phgr _ => g = false end) js.
Proof.
  revert bs; induction js as [|j js IH]; intros bs; cbn [encode_each]; [constructor|].
  intros E. apply bind_Ok in E as (b&Hb&E). apply bind_Ok in E as (bs'&Hbs&_). constructor; [|by eapply IH].
  unfold JoinSplit_encode_with in Hb. destruct (js_proof j), g; done.
Qed.

Lemma groth_after_acadia tx bs :
  f_overwintered tx = true -> version tx = 4 -> tx_consensus_encode tx = Ok bs ->
  Forall (fun j => exists proof, js_proof j = Groth proof) (join_splits tx).
Proof.
  intros Ho Hv E. unfold tx_consensus_encode, encode_with_mode in E. apply bind_Ok in E as (body&E&_).
  unfold encode_body in E. rewrite Hv in E. cbn [Z.eqb FLUXNODE_TX_VERSION FLUXNODE_TX_UPGRADEABLE_VERSION Pos.eqb] in E.
  unfold encode_regular in E. cbv zeta in E. destruct (f_overwintered tx && negb _); [done|].
  apply bind_Ok in E as (js&E&_). unfold encode_join_splits in E. rewrite Hv, Ho in E.
  cbn [Z.geb Z.compare Pos.compare Pos.compare_cont andb] in E. cbv zeta in E.
  apply bind_Ok in E as (b&E&_). apply encode_each_proofs in E.
  eapply Forall_impl; [apply E|]. intros j Hj. cbv beta in Hj. destruct (js_proof j); [eauto|done].
Qed.

Lemma verify_joinsplit_proofs_Ok js pk sp u :
  verify_joinsplit_proofs js pk sp = Ok u -> Forall (fun j => verify_joinsplit_proof j pk sp = Ok tt) js.
Proof.
  induction js as [|j js IH]; cbn [verify_joinsplit_proofs]; [constructor|].
  intros E. apply bind_Ok in E as ([]&Hj&E). constructor; [done|by apply IH].
Qed.

(** The proof of a joinsplit, checked against its public inputs. *)
Definition joinsplit_proved (sp : ShieldedParams) (pk : bytes) (j : JoinSplit) : Prop :=
  exists proof, js_proof j = Groth proof
  /\ sprout_verify_proof sp proof (js_anchor j) (joinsplit_hsig (random_seed j) (nullifiers j) pk)
       (macs j) (nullifiers j) (commitments j) (vpub_old j) (vpub_new j) = true.


(** *** The coinbase height *)
Lemma from_le_abs_bytes fuel v : 0 <= v < 256 ^ Z.of_nat fuel -> from_le (abs_bytes fuel v) = v.
Proof.
  revert v; induction fuel as [|fuel IH]; intros v Hv; cbn [abs_bytes].
  - change (256 ^ Z.of_nat 0) with 1 in Hv. change (from_le []) with 0. lia.
  - rewrite pow256_succ in Hv. rewrite Z.gtb_ltb. destruct (Z.ltb_spec 0 v); [|change (from_le []) with 0; lia].
    change (from_le (Z.land v 255 :: abs_bytes fuel (Z.shiftr v 8)))
      with (Z.land v 255 + 256 * from_le (abs_bytes fuel (Z.shiftr v 8))).
    change 255 with (Z.ones 8). rewrite Z.land_ones, Z.shiftr_div_pow2 by lia. change (2 ^ 8) with 256.
    rewrite IH by (split; [apply Z.div_pos; lia|apply Z.div_lt_upper_bound; lia]).
    pose proof (Z.div_mod v 256). lia.
Qed.

Lemma length_abs_bytes fuel v : (length (abs_bytes fuel v) <= fuel)%nat.
Proof. revert v; induction fuel as [|n IH]; intros v; cbn [abs_bytes]; [simpl; lia|]. destruct (v >? 0); simpl; [specialize (IH (Z.shiftr v 8))|]; lia. Qed.

(** A positive number reads back from its script form, which is short. *)
Lemma script_num_positive v :
  0 < v < 256 ^ 8 ->
  from_le (script_num_to_vec v) = v /\ (length (script_num_to_vec v) <= 9)%nat.
Proof.
  intros Hv. unfold script_num_to_vec.
  replace (v =? 0) with false by (symmetry; apply Z.eqb_neq; lia).
  replace (v <? 0) with false by (symmetry; apply Z.ltb_ge; lia).
  rewrite Z.abs_eq by lia. cbv zeta.
  assert (Hr : from_le (abs_bytes 8 v) = v) by (apply from_le_abs_bytes; change (Z.of_nat 8) with 8; lia). pose proof (length_abs_bytes 8 v) as Hl.
  destruct (last (abs_bytes 8 v)); [|split; [done|lia]].
  destruct (negb _); [|split; [done|lia]].
  rewrite from_le_app, length_app, Hr, from_le_single. cbn [length]. split; lia.
Qed.

Lemma script_push_int_prefix_free h1 h2 x1 x2 :
  16 < h1 < 256 ^ 8 -> 16 < h2 < 256 ^ 8 ->
  script_push_int h1 ++ x1 = script_push_int h2 ++ x2 -> h1 = h2.
Proof.
  assert (Hpush : forall h, 16 < h < 256 ^ 8 ->
    script_push_int h = Z.of_nat (length (script_num_to_vec h)) :: script_num_to_vec h).
  { intros h Hh. destruct (script_num_positive h ltac:(lia)) as [_ Hl]. unfold script_push_int, push_data.
    replace (h =? 0) with false by (symmetry; apply Z.eqb_neq; lia).
    replace (h =? -1) with false by (symmetry; apply Z.eqb_neq; lia).
    replace ((1 <=? h) && (h <=? 16)) with false by (symmetry; apply andb_false_iff; right; apply Z.leb_gt; lia).
    replace (_ <? 0x4c) with true by (symmetry; apply Z.ltb_lt; lia).
    unfold wrap_u8. rewrite Z.mod_small by lia. done. }
  intros H1 H2. rewrite !Hpush by done. intros [= Hl E]. apply Nat2Z.inj in Hl.
  apply app_inj_1 in E as [E _]; [|done].
  destruct (script_num_positive h1 ltac:(lia)) as [<- _], (script_num_positive h2 ltac:(lia)) as [<- _].
  by rewrite E.
Qed.

Lemma coinbase_heights_differ tx1 tx2 h1 h2 :
  16 < h1 < 256 ^ 8 -> 16 < h2 < 256 ^ 8 ->
  coinbase_height_matches tx1 h1 = true -> coinbase_height_matches tx2 h2 = true ->
  vin tx1 = vin tx2 -> h1 = h2.
Proof.
  unfold coinbase_height_matches. intros H1 H2 M1 M2 E. rewrite <- E in M2.
  destruct (vin tx1) as [|i l]; [done|].
  apply starts_with_spec in M1 as [x1 E1], M2 as [x2 E2]. rewrite E1 in E2.
  by eapply script_push_int_prefix_free.
Qed.

(** *** Blocks *)
Lemma txids_of_Ok txs ids :
  txids_of txs = Ok ids -> Forall2 (fun tx id => txid tx = Ok id) txs ids.
Proof.
  revert ids; induction txs as [|tx txs IH]; intros ids; cbn [txids_of]; [intros [= <-]; constructor|].
  intros E. apply bind_Ok in E as (id&Hid&E). apply map_err_Ok in Hid.
  apply bind_Ok in E as (ids'&Hids&[= <-]). constructor; auto.
Qed.

(** What the scan of a block establishes for the transactions from [index]. *)
Definition scanned_ok (block_time height : Z) (params : ConsensusParams) (bid : Z)
    (flags : ValidationFlags) (index : nat) (txs : list Transaction) : Prop :=
  forall i tx, txs !! i = Some tx ->
    is_final_tx tx height block_time = true
    /\ validate_transaction tx (index + i =? 0)%nat height params bid flags = Ok tt.

Lemma scan_transactions_Ok bt height params bid flags scan index txs ids u :
  length txs = length ids ->
  scan_transactions bt height params bid flags scan index txs ids = Ok u ->
  scanned_ok bt height params bid flags index txs
  /\ NoDup ids /\ (forall id, id ∈ ids -> id ∉ seen_txids scan)
  /\ (let os := omap (M:=list) fluxnode_collateral_outpoint (drop (1 - index) txs) in
      NoDup os /\ forall o, o ∈ os -> o ∉ fluxnode_outpoints scan).
Proof.
  revert scan index ids; induction txs as [|tx txs IH]; intros scan index ids Hl; cbn [scan_transactions].
  { intros _. destruct ids; [|done]. split; [by intros i tx|]. split; [apply NoDup_nil_2|]. split; [by intros id Hid%elem_of_nil|].
    rewrite drop_nil. cbn. split; [apply NoDup_nil_2|by intros o Ho%elem_of_nil]. }
  intros E. apply require_bind in E as [Hfin E]. apply bind_Ok in E as ([]&Hv&E).
  destruct ids as [|id ids]; [done|]. apply bind_Ok in E as (seen&Hs&E).
  apply insert_all_Ok in Hs as (_&Hfresh&->). apply bind_Ok in E as (outs&Ho&E).
  injection Hl as Hl. destruct (IH _ _ _ Hl E) as (Hsc&Hnd&Hseen&Hos&Hnew). cbn [seen_txids fluxnode_outpoints list_to_set] in *.
  split; [|split; [|split]].
  - intros [|i] tx' Hi; [injection Hi as <-; by rewrite Nat.add_0_r|].
    rewrite Nat.add_succ_r. by apply Hsc.
  - constructor; [|done]. intros Hin. apply (Hseen id Hin). set_unfold. auto.
  - intros id' [->|Hin]%elem_of_cons; [apply Hfresh, list_elem_of_here|].
    specialize (Hseen id' Hin). set_unfold. tauto.
  - assert (E0 : forall n, (1 - S n = 0)%nat) by lia. rewrite E0, drop_0 in Hos, Hnew. destruct index as [|index].
    + injection Ho as <-. cbn [Nat.sub drop]. rewrite drop_0. done.
    + rewrite E0, drop_0. cbn [Nat.ltb Nat.leb] in Ho. cbn [omap list_omap].
      destruct (fluxnode_collateral_outpoint tx) as [o|]; cbv beta iota zeta; [|injection Ho as <-; done].
      apply insert_all_Ok in Ho as (_&Hf&->). cbn [list_to_set] in *. split.
      * constructor; [|done]. intros Hin. apply (Hnew o Hin). set_unfold. auto.
      * intros o' [->|Hin]%elem_of_cons; [apply Hf, list_elem_of_here|].
        specialize (Hnew o' Hin). set_unfold. tauto.
Qed.

Lemma verify_all_Ok bid sp txs u :
  verify_all bid sp txs = Ok u -> Forall (fun tx => verify_transaction tx bid sp = Ok tt) txs.
Proof.
  induction txs as [|tx txs IH]; cbn [verify_all]; [constructor|].
  intros E. apply bind_Ok in E as ([]&Hv&E). apply map_err_Ok in Hv. constructor; [done|by apply IH].
Qed.

(** The first transaction of an accepted block. *)
Lemma accepted_coinbase block height params flags size id ids :
  validate_block_with_txids_and_size block height params flags size = Ok (id :: ids) -> 20 < height ->
  exists tx txs, transactions block = tx :: txs /\ txid tx = Ok id /\ coinbase_height_matches tx height = true.
Proof.
  unfold validate_block_with_txids_and_size. destruct (transactions block) as [|cb txs]; [done|].
  cbv zeta. intros E Hgt. apply require_bind in E as [_ E]. apply bind_Ok in E as (sz&_&E).
  apply require_bind in E as [_ E]. apply bind_Ok in E as ([]&_&E). apply bind_Ok in E as (ids'&Hids&E).
  apply bind_Ok in E as ([]&_&E). apply require_bind in E as [Hh E]. apply bind_Ok in E as ([]&_&E).
  apply require_bind in E as [_ E]. apply bind_Ok in E as ([]&_&E). injection E as ->.
  apply txids_of_Ok in Hids. apply Forall2_cons in Hids as [Hid _]. exists cb, txs. split_and!; [done..|].
  rewrite negb_true_iff in Hh. replace (height >? 20) with true in Hh by (symmetry; rewrite Z.gtb_ltb; by apply Z.ltb_lt).
  by destruct (coinbase_height_matches cb height).
Qed.

Lemma txid_eq tx1 tx2 id :
  Transaction_wf true tx1 -> Transaction_wf true tx2 -> txid tx1 = Ok id -> txid tx2 = Ok id ->
  strip_signatures tx1 = strip_signatures tx2 \/ sha256d_broken.
Proof.
  unfold txid, tx_consensus_encode_for_hash. intros W1 W2 E1 E2.
  apply bind_Ok in E1 as (b1&H1&[= <-]). apply bind_Ok in E2 as (b2&H2&[= E2]).
  destruct (decide (b1 = b2)) as [<-|Hne]; [left|right; by exists b1, b2].
  rewrite <- strip_signatures_encode in H1, H2.
  eapply (reads_enc_inj (decode_from false)); [by apply Transaction_reads, strip_signatures_wf..|congruence].
Qed.

(** C11: an accepted block is a block.  Its returned ids are the ids of its
    transactions, in order and all different; the header carries their merkle
    root and no duplicated tail hides behind it; every transaction is final
    and individually valid, the first and only the first being a coinbase;
    above height 20 the coinbase commits to the height; no two fluxnode
    transactions use the same collateral; the signature operations are
    bounded; and with proof checking on, every transaction with a shielded
    part passes its verification. *)
Theorem accepted_block_sound (block : Block) (height : Z) (params : ConsensusParams)
    (flags : ValidationFlags) (block_size : option Z) (txids : list Hash256) :
  validate_block_with_txids_and_size block height params flags block_size = Ok txids ->
  Forall2 (fun tx id => txid tx = Ok id) (transactions block) txids
  /\ NoDup txids
  /\ MerkleBlock.merkle_root txids = (Block.merkle_root (header block), false)
  /\ (forall i tx, transactions block !! i = Some tx ->
        is_final_tx tx height (time (header block)) = true
        /\ values_ok tx /\ NoDup (map prevout (vin tx))
        /\ is_coinbase_tx tx = (i =? 0)%nat)
  /\ (20 < height -> exists coinbase, head (transactions block) = Some coinbase
                                      /\ coinbase_height_matches coinbase height = true)
  /\ NoDup (omap (M:=list) fluxnode_collateral_outpoint (tail (transactions block)))
  /\ block_sigops block <= MAX_BLOCK_SIGOPS
  /\ (check_shielded flags = true ->
      forall tx, tx ∈ transactions block -> has_shielded tx = true ->
      exists sp, shielded_params flags = Some sp
        /\ verify_transaction tx (current_epoch_branch_id height (upgrades params)) sp = Ok tt).
Proof.
  unfold validate_block_with_txids_and_size. destruct (transactions block) as [|cb txs] eqn:Htxs; [done|].
  intros E. apply require_bind in E as [_ E]. apply bind_Ok in E as (size&_&E).
  apply require_bind in E as [_ E]. apply bind_Ok in E as ([]&_&E).
  apply bind_Ok in E as (ids&Hids&E). apply bind_Ok in E as ([]&Hmr&E).
  apply require_bind in E as [Hh E]. cbv zeta in E. apply bind_Ok in E as ([]&Hscan&E).
  apply require_bind in E as [Hso E]. apply bind_Ok in E as ([]&Hsh&[= <-]).
  apply txids_of_Ok in Hids. pose proof (Forall2_length _ _ _ Hids) as Hlen.
  apply scan_transactions_Ok in Hscan as (Hsc&Hnd&_&Hos&_); [|done].
  split_and!; try done.
  - unfold validate_merkle_root in Hmr. destruct (MerkleBlock.merkle_root ids) as [root mutated].
    apply require_bind in Hmr as [Hm Hr]. apply require_Ok, bool_decide_eq_true in Hr.
    apply negb_true_iff in Hm. by subst.
  - intros i tx Hi. destruct (Hsc i tx Hi) as [Hf Hv]. cbn [Nat.add] in Hv.
    apply validate_transaction_Ok in Hv as (_&_&_&Hin&Hval&Hd&_).
    apply check_values_Ok in Hval. apply check_duplicates_Ok in Hd as (?&_).
    apply check_inputs_shape_Ok in Hin as (->&_). done.
  - intros Hgt. exists cb. split; [done|]. rewrite negb_true_iff in Hh.
    replace (height >? 20) with true in Hh by (symmetry; rewrite Z.gtb_ltb; by apply Z.ltb_lt).
    by destruct (coinbase_height_matches cb height).
  - by rewrite negb_true_iff, Z.gtb_ltb, Z.ltb_ge in Hso.
  - intros Hcheck tx Hin Hs. rewrite Hcheck in Hsh.
    assert (Hfil : tx ∈ List.filter has_shielded (cb :: txs)).
    { apply list_elem_of_In, List.filter_In. split; [by apply list_elem_of_In|done]. }
    destruct (is_nil (List.filter has_shielded (cb :: txs))) eqn:Hn.
    { destruct (List.filter has_shielded (cb :: txs)); [by apply elem_of_nil in Hfil|done]. }
    cbn [andb negb] in Hsh. apply bind_Ok in Hsh as (sp&Hsp&Hv). apply ok_or_Ok in Hsp.
    apply verify_all_Ok in Hv. rewrite Forall_forall in Hv. exists sp. split; [done|by apply Hv].
Qed.

(** C34: coinbase transactions are unique (what BIP 30 and BIP 34 are for).
    Two accepted blocks at different heights above 20 never start with the
    same transaction id, unless two different byte strings have the same
    double SHA-256: the height at the front of the coinbase script is prefix
    free and covered by the id.  So a coinbase cannot overwrite the unspent
    outputs of an earlier one. *)
Theorem coinbase_ids_unique (block1 block2 : Block) (h1 h2 : Z) (params : ConsensusParams)
    (flags : ValidationFlags) (size1 size2 : option Z) (id : Hash256) (ids1 ids2 : list Hash256) :
  validate_block_with_txids_and_size block1 h1 params flags size1 = Ok (id :: ids1) ->
  validate_block_with_txids_and_size block2 h2 params flags size2 = Ok (id :: ids2) ->
  Forall (Transaction_wf true) (transactions block1) ->
  Forall (Transaction_wf true) (transactions block2) ->
  20 < h1 < 2 ^ 31 -> 20 < h2 < 2 ^ 31 ->
  h1 = h2 \/ sha256d_broken.
Proof.
  intros E1 E2 W1 W2 Hh1 Hh2.
  destruct (accepted_coinbase _ _ _ _ _ _ _ E1 ltac:(lia)) as (tx1&r1&Ht1&Hi1&Hm1).
  destruct (accepted_coinbase _ _ _ _ _ _ _ E2 ltac:(lia)) as (tx2&r2&Ht2&Hi2&Hm2).
  rewrite Ht1 in W1. rewrite Ht2 in W2. apply Forall_cons in W1 as [W1 _], W2 as [W2 _].
  destruct (txid_eq _ _ _ W1 W2 Hi1 Hi2) as [Hs|?]; [left|by right].
  apply (f_equal vin) in Hs. assert (2 ^ 31 < 256 ^ 8) by done.
  by eapply (coinbase_heights_differ tx1 tx2); [lia|lia| | |].
Qed.
End accept.

(** ** Samples *)

(** Toy proof systems: a signature or proof is valid when it starts with what
    it is about. *)
#[global] Instance toy_shielded : ShieldedCrypto := {|
  ed25519_key := bytes;
  ed25519_from_bytes := Some;
  ed25519_verify_strict _ message sig := bool_decide (take 32 sig = message);
  ShieldedParams := unit;
  sprout_verify_proof _ proof _ h_sig _ _ _ _ _ := bool_decide (take 32 proof = h_sig);
  ValueCommitment := bytes; Scalar := bytes; SpendAuthKey := bytes; NoteCommitment := bytes;
  Point := bytes; GrothProof := bytes;
  value_commitment_not_small_order := Some; base_from_repr := Some; spend_auth_key_from := Some;
  note_commitment_from_bytes := Some; extended_point_from_bytes := Some; groth_proof_read := Some;
  SaplingCtx := unit; sapling_ctx_new := tt;
  check_spend _ _ _ _ nullifier _ _ _ proof := (bool_decide (take 32 proof = nullifier), tt);
  check_output _ _ _ cm _ proof := (bool_decide (take 32 proof = cm), tt);
  final_check _ _ sighash sig := bool_decide (take 32 sig = sighash) |}.

Definition sample_joinsplit (proof : bytes) : JoinSplit :=
  mkJoinSplit 5 0 (zeros 32) [replicate 32 1; replicate 32 2] [zeros 32; zeros 32] (zeros 32)
    (zeros 32) [zeros 32; zeros 32] (Groth proof) [zeros 601; zeros 601].
Definition sample_hsig : Hash256 :=
  Eval vm_compute in joinsplit_hsig (zeros 32) [replicate 32 1; replicate 32 2] (zeros 32).
Definition sample_shielded_tx (sig : bytes) : Transaction :=
  mkTransaction true 4 SAPLING_VERSION_GROUP_ID [] [] 0 300000 0 [] []
    [sample_joinsplit (sample_hsig ++ zeros 160)] (zeros 32) sig (zeros 64) None.
Definition sample_branch_id : Z :=
  Eval vm_compute in current_epoch_branch_id 300000 (upgrades (consensus_params Mainnet)).
Definition sample_shielded_digest : Hash256 :=
  Eval vm_compute in
    match signature_hash (sample_shielded_tx (zeros 64)) None [] 0 SIGHASH_ALL sample_branch_id with
    | Ok h => h | _ => [] end.
Definition sample_shielded : Transaction := sample_shielded_tx (sample_shielded_digest ++ zeros 32).
Definition sample_flags : ValidationFlags := mkFlags false false false true (Some tt).

Definition sample_coinbase (height : Z) : Transaction :=
  mkTransaction false 1 0 [mkTxIn OutPoint_null (script_push_int height ++ [0]) u32_max]
    [mkTxOut 5000000000 sample_p2pkh_script] 0 0 0 [] [] [] (zeros 32) (zeros 64) (zeros 64) None.
Definition sample_id (height : Z) : Hash256 :=
  match txid (sample_coinbase height) with Ok id => id | _ => [] end.
Definition sample_mined (height : Z) : Block :=
  mkBlock (mkBlockHeader 4 (zeros 32) (sample_id height) (zeros 32) 1600000000 0x1e00ffff (zeros 32)
             [] OutPoint_null []) [sample_coinbase height].

Example sample_shielded_tampered :
  validate_transaction (sample_shielded_tx (zeros 64)) false 300000 (consensus_params Mainnet)
    sample_branch_id sample_flags
  = Err (ShieldedFailure (InvalidShieldedTransaction "invalid joinsplit signature")).
Proof. vm_compute. reflexivity. Qed.

Lemma accepted_transaction_sound_witness :
  let tx := sample_shielded in
  NoDup (map prevout (vin tx))
  /\ NoDup (concat (map nullifiers (join_splits tx)))
  /\ NoDup (map sd_nullifier (shielded_spends tx))
  /\ values_ok tx
  /\ false = is_coinbase_tx tx
  /\ (false = true -> has_shielded tx = false)
  /\ (false = false -> Forall (fun i => prevout i <> OutPoint_null) (vin tx))
  /\ (exists bs, tx_consensus_encode tx = Ok bs
                 /\ wrap_u32 (Z.of_nat (length bs)) <= MAX_TX_SIZE_AFTER_SAPLING).
Proof.
  apply (accepted_transaction_sound sample_shielded false 300000 (consensus_params Mainnet)
           sample_branch_id sample_flags).
  vm_compute. reflexivity.
Defined.


Lemma sample_mined_accepted height :
  height = 300 \/ height = 301 ->
  validate_block_with_txids_and_size (sample_mined height) height (consensus_params Mainnet)
    sample_flags None = Ok [sample_id height].
Proof. intros [-> | ->]; vm_compute; reflexivity. Qed.

Lemma accepted_block_sound_witness :
  let block := sample_mined 300 in
  let txids := [sample_id 300] in
  Forall2 (fun tx id => txid tx = Ok id) (transactions block) txids
  /\ NoDup txids
  /\ MerkleBlock.merkle_root txids = (Block.merkle_root (header block), false)
  /\ (forall i tx, transactions block !! i = Some tx ->
        is_final_tx tx 300 (time (header block)) = true
        /\ values_ok tx /\ NoDup (map prevout (vin tx))
        /\ is_coinbase_tx tx = (i =? 0)%nat)
  /\ (20 < 300 -> exists coinbase, head (transactions block) = Some coinbase
                                   /\ coinbase_height_matches coinbase 300 = true)
  /\ NoDup (omap (M:=list) fluxnode_collateral_outpoint (tail (transactions block)))
  /\ block_sigops block <= MAX_BLOCK_SIGOPS
  /\ (check_shielded sample_flags = true ->
      forall tx, tx ∈ transactions block -> has_shielded tx = true ->
        exists sp, shielded_params sample_flags = Some sp
          /\ verify_transaction tx (current_epoch_branch_id 300 (upgrades (consensus_params Mainnet))) sp = Ok tt).
Proof.
  apply (accepted_block_sound (sample_mined 300) 300 (consensus_params Mainnet) sample_flags None).
  apply sample_mined_accepted. by left.
Defined.

Lemma coinbase_ids_unique_witness :
  300 = 300 \/ sha256d_broken (H:=toy_hashes).
Proof.
  apply (coinbase_ids_unique (sample_mined 300) (sample_mined 300) 300 300 (consensus_params Mainnet)
           sample_flags None None (sample_id 300) [] []);
    [by apply sample_mined_accepted; left|by apply sample_mined_accepted; left|by_decide|by_decide|by_decide|by_decide].
Defined.
