(* ===== verification/HeaderChain.v ===== *)
(** * The header chain ([chainstate/src/state.rs], headers)

    Headers form a tree under the genesis block.  Each entry carries its
    height, the work of the chain up to it and a skip pointer; the best header
    is the one with the most work.  Headers arrive in batches that are written
    to the store at once: until then [hs_pending] holds what is not stored yet.
    A cache of entries sits in front of the store; it keeps what it saw even
    when a batch is dropped.  The lock around the cache never fails here, and
    log lines are left out. *)

From S2P Require Import Prelude Consensus Encoding Hashing Transaction Block Difficulty Equihash Pow Pon.
From S2P Require Import Script Storage FlatFiles ChainIndex Validation.
From Stdlib Require Import ZArith Lia.
From stdpp Require Import base list option numbers strings gmap sorting.
#[local] Open Scope Z_scope.

Inductive ChainStateError :=
| ChainValidation (error : ValidationError)
| ChainStore (error : StoreError)
| ChainFlatFile (error : FlatFileError)
| MissingInput
| MissingHeader
| ChainValueOutOfRange
| CorruptIndex (message : string)
| ChainInvalidHeader (message : string).

Record ChainStateOptions := mkOptions {
  store_block_headers : bool; index_tx : bool; index_spent : bool; index_address : bool;
  index_timestamp : bool; prune_blocks : bool; prune_undo : bool }.
Definition options_full : ChainStateOptions := mkOptions true true true true true false false.
Definition options_lite : ChainStateOptions := mkOptions false false false false false true true.

(** ** Skip heights *)
Definition invert_lowest_one (value : Z) : Z := Z.land value (Z.max (value - 1) (- 2 ^ 31)).
Definition get_skip_height (height : Z) : Z :=
  if height <? 2 then 0
  else if negb (Z.land height 1 =? 0) then invert_lowest_one (invert_lowest_one (height - 1)) + 1
  else invert_lowest_one height.

(** ** The cache of header entries *)
Record HeaderCache := mkCache {
  hc_entries : gmap Hash256 HeaderEntry; hc_order : list Hash256; hc_capacity : nat }.
Definition header_cache_new (capacity : nat) : HeaderCache := mkCache ∅ [] capacity.
Definition cache_get (cache : HeaderCache) (hash : Hash256) : option HeaderEntry :=
  hc_entries cache !! hash.
(** Drop the oldest hash that is still cached. *)
Fixpoint evict (entries : gmap Hash256 HeaderEntry) (order : list Hash256)
    : gmap Hash256 HeaderEntry * list Hash256 :=
  match order with
  | [] => (entries, [])
  | hash :: order =>
      match entries !! hash with
      | Some _ => (delete hash entries, order)
      | None => evict entries order
      end
  end.
Definition cache_insert (cache : HeaderCache) (hash : Hash256) (entry : HeaderEntry) : HeaderCache :=
  let entries := <[hash := entry]> (hc_entries cache) in
  match hc_entries cache !! hash with
  | Some _ => mkCache entries (hc_order cache) (hc_capacity cache)
  | None =>
      let order := hc_order cache ++ [hash] in
      if Nat.ltb (hc_capacity cache) (size entries) then
        let '(entries, order) := evict entries order in mkCache entries order (hc_capacity cache)
      else mkCache entries order (hc_capacity cache)
  end.

(** ** Windows over the last headers *)
Definition MTP_WINDOW_SIZE : nat := 11.
Record DifficultyWindow := mkWindow {
  dw_tip_hash : Hash256; dw_window : list HeaderInfo; dw_len : nat }.

(** [push_back], then [pop_front] while too long. *)
Definition window_push (window : list HeaderInfo) (len : nat) (info : HeaderInfo) : list HeaderInfo :=
  let window := window ++ [info] in drop (length window - len) window.
Definition window_advance (w : DifficultyWindow) (hash : Hash256) (height time bits : Z)
    : DifficultyWindow :=
  mkWindow hash (window_push (dw_window w) (dw_len w) (mkHeaderInfo height time bits)) (dw_len w).

(** The middle of the sorted times; an empty list aborts. *)
Definition headers_median_time {E} (headers : list HeaderInfo) : result E Z :=
  let times := merge_sort Z.le (map hi_time headers) in
  index times (length times / 2).

(** ** The state of an insertion

    [hs_cache] belongs to the node, the other fields to the batch of headers at
    hand: the operations to write, the new entries, the best header with its
    work, and the windows that spare walking the chain for each header. *)
Record HeaderState := mkHeaderState {
  hs_cache : HeaderCache; hs_batch : WriteBatch; hs_pending : gmap Hash256 HeaderEntry;
  hs_best : option (Hash256 * Z); hs_difficulty_window : option DifficultyWindow;
  hs_mtp_window : option DifficultyWindow }.

Definition set_cache (c : HeaderCache) (s : HeaderState) : HeaderState :=
  mkHeaderState c (hs_batch s) (hs_pending s) (hs_best s) (hs_difficulty_window s) (hs_mtp_window s).
Definition set_batch (b : WriteBatch) (s : HeaderState) : HeaderState :=
  mkHeaderState (hs_cache s) b (hs_pending s) (hs_best s) (hs_difficulty_window s) (hs_mtp_window s).
Definition set_pending (p : gmap Hash256 HeaderEntry) (s : HeaderState) : HeaderState :=
  mkHeaderState (hs_cache s) (hs_batch s) p (hs_best s) (hs_difficulty_window s) (hs_mtp_window s).
Definition set_best (b : option (Hash256 * Z)) (s : HeaderState) : HeaderState :=
  mkHeaderState (hs_cache s) (hs_batch s) (hs_pending s) b (hs_difficulty_window s) (hs_mtp_window s).
Definition set_windows (d m : option DifficultyWindow) (s : HeaderState) : HeaderState :=
  mkHeaderState (hs_cache s) (hs_batch s) (hs_pending s) (hs_best s) d m.

(** Computations that can fail and keep the state they had reached. *)
Definition chain (A : Type) : Type := HeaderState -> result ChainStateError A * HeaderState.
#[global] Instance chain_ret : MRet chain := fun A a s => (Ok a, s).
#[global] Instance chain_bind : MBind chain := fun A B f m s =>
  match m s with
  | (Ok a, s) => f a s
  | (Err e, s) => (Err e, s)
  | (Panic, s) => (Panic, s)
  end.
Definition run {A} (r : result ChainStateError A) : chain A := fun s => (r, s).
Definition gets {A} (f : HeaderState -> A) : chain A := fun s => (Ok (f s), s).
Definition modify (f : HeaderState -> HeaderState) : chain unit := fun s => (Ok tt, f s).
Definition throw {A} (e : ChainStateError) : chain A := run (Err e).
Definition ensure (check : bool) (message : string) : chain unit :=
  if check then mret tt else throw (ChainInvalidHeader message).
(** [.ok()]: an error becomes [None]. *)
Definition try_ok {A} (m : chain A) : chain (option A) := fun s =>
  match m s with
  | (Ok a, s) => (Ok (Some a), s)
  | (Err _, s) => (Ok None, s)
  | (Panic, s) => (Panic, s)
  end.
Definition from_store {A} (r : result StoreError A) : chain A := run (map_err ChainStore r).

Section headers.
  Context {H : Hashes} {B : Blake2b} {U : U256Ops} {S256 : Secp} {S : Type} {KV : KeyValueStore S}.
  Context (store : S) (params : ConsensusParams) (options : ChainStateOptions).

(** ** Lookups *)
Definition header_entry (hash : Hash256) : chain (option HeaderEntry) :=
  cache ← gets hs_cache;
  match cache_get cache hash with
  | Some entry => mret (Some entry)
  | None =>
      entry ← from_store (get_header store hash);
      match entry with
      | Some e => _ ← modify (set_cache (cache_insert cache hash e)); mret (Some e)
      | None => mret None
      end
  end.

Definition header_entry_with_pending (use_pending : bool) (hash : Hash256) : chain (option HeaderEntry) :=
  pending ← gets hs_pending;
  match (if use_pending then pending !! hash else None) with
  | Some entry => mret (Some entry)
  | None => header_entry hash
  end.

(** The walk of [header_ancestor_hash]: every step goes down, so the distance
    to the target is fuel enough. *)
Fixpoint ancestor_loop (fuel : nat) (target_height : Z) (current_hash : Hash256) (entry : HeaderEntry)
    : chain (option Hash256) :=
  if he_height entry >? target_height then
    match fuel with
    | O => run Panic
    | Datatypes.S fuel =>
        let skip_height := get_skip_height (he_height entry) in
        let next_hash :=
          if negb (bool_decide (he_skip_hash entry = zeros 32)) && (skip_height >=? target_height)
          then he_skip_hash entry else he_prev_hash entry in
        next ← header_entry next_hash;
        match next with
        | Some entry => ancestor_loop fuel target_height next_hash entry
        | None => mret None
        end
    end
  else mret (Some current_hash).

Definition header_ancestor_hash (hash : Hash256) (target_height : Z) : chain (option Hash256) :=
  if target_height <? 0 then mret None
  else
    entry ← header_entry hash;
    match entry with
    | None => mret None
    | Some entry =>
        if target_height >? he_height entry then mret None
        else ancestor_loop (Z.to_nat (he_height entry - target_height)) target_height hash entry
    end.

(** The last [count] headers up to [current], newest first. *)
Fixpoint collect_loop (use_pending : bool) (count : nat) (current : Hash256) : chain (list HeaderInfo) :=
  match count with
  | O => mret []
  | Datatypes.S count =>
      entry ← header_entry_with_pending use_pending current;
      entry ← run (ok_or entry MissingHeader);
      let info := mkHeaderInfo (he_height entry) (he_time entry) (he_bits entry) in
      if he_height entry =? 0 then mret [info]
      else headers ← collect_loop use_pending count (he_prev_hash entry); mret (info :: headers)
  end.
Definition collect_headers (use_pending : bool) (tip_hash : Hash256) (count : nat)
    : chain (list HeaderInfo) :=
  headers ← collect_loop use_pending count tip_hash; mret (rev headers).

(** *** Windows *)
Definition difficulty_window_len : nat :=
  Z.to_nat (Z.max (digishield_averaging_window params)
                  (Z.min (zawy_lwma_averaging_window params + 1) (2 ^ 63 - 1))).

Definition difficulty_bootstrap (use_pending : bool) (tip_hash : Hash256)
    : chain (option DifficultyWindow) :=
  let window_len := difficulty_window_len in
  if (window_len =? 0)%nat then mret None
  else
    chain ← try_ok (collect_headers use_pending tip_hash window_len);
    mret match chain with
         | Some (info :: rest) => Some (mkWindow tip_hash (info :: rest) window_len)
         | _ => None
         end.
Definition mtp_bootstrap (use_pending : bool) (tip_hash : Hash256) : chain (option DifficultyWindow) :=
  chain ← try_ok (collect_headers use_pending tip_hash MTP_WINDOW_SIZE);
  mret match chain with
       | Some (info :: rest) => Some (mkWindow tip_hash (info :: rest) MTP_WINDOW_SIZE)
       | _ => None
       end.

Definition next_work (headers : list HeaderInfo) (next_time : Z) : chain Z :=
  run (map_err (fun _ => ChainInvalidHeader "difficulty calculation failed")
         (get_next_work_required headers (Some next_time) params)).

(** ** The expected difficulty *)
Definition clamp_timespan (actual target : Z) : Z :=
  let min_timespan := Z.quot (target * 4) 5 in
  let max_timespan := Z.quot (target * 5) 4 in
  let actual := if actual <? min_timespan then min_timespan else actual in
  if actual >? max_timespan then max_timespan else actual.

Definition expected_pon_bits (use_pending : bool) (prev_hash : Hash256) (height : Z) : chain Z :=
  prev_entry ← header_entry_with_pending use_pending prev_hash;
  prev_entry ← run (ok_or prev_entry MissingHeader);
  let activation_height := activation_height (upgrade_at (upgrades params) Consensus.Pon) in
  let lookback_window := pon_difficulty_window params in
  if height <? activation_height then mret (he_bits prev_entry)
  else
    let pon_start_bits := target_to_compact (pon_start_limit params) in
    if height <? activation_height + lookback_window then mret pon_start_bits
    else
      let window := Z.to_nat (pon_difficulty_window params) in
      headers ← collect_headers use_pending prev_hash window;
      if Nat.ltb (length headers) window then mret pon_start_bits
      else
        first ← run (or_panic (head headers));
        last ← run (or_panic (last headers));
        let target_timespan := (lookback_window - 1) * pon_target_spacing params in
        if target_timespan <=? 0 then mret (target_to_compact (pon_limit params))
        else
          let actual_timespan := clamp_timespan (hi_time last - hi_time first) target_timespan in
          prev_target ← run (map_err (fun _ => ChainInvalidHeader "invalid pon target")
                               (compact_to_u256 (he_bits prev_entry)));
          if prev_target =? 0 then mret (target_to_compact (pon_limit params))
          else
            quotient ← run (or_panic (u256_div prev_target target_timespan));
            next_target ← run (or_panic (u256_mul quotient actual_timespan));
            let max_target := u256_from_little_endian (pon_limit params) in
            let next_target := if next_target >? max_target then max_target else next_target in
            let next_target := if next_target =? 0 then max_target else next_target in
            mret (u256_to_compact next_target).

Definition expected_bits (use_pending : bool) (prev_hash : Hash256) (height next_time : Z) : chain Z :=
  if height =? 0 then mret (target_to_compact (pow_limit params))
  else if network_upgrade_active height (upgrades params) Consensus.Pon then
    expected_pon_bits use_pending prev_hash height
  else
    headers ← collect_headers use_pending prev_hash difficulty_window_len;
    next_work headers next_time.
Definition next_work_required_bits (prev_hash : Hash256) (height next_time : Z) : chain Z :=
  expected_bits false prev_hash height next_time.

(** The window when it ends at the parent, the chain otherwise. *)
Definition bits_after (prev_hash : Hash256) (height next_time : Z) : chain Z :=
  if network_upgrade_active height (upgrades params) Consensus.Pon then
    expected_bits true prev_hash height next_time
  else
    window ← gets hs_difficulty_window;
    match window with
    | Some window =>
        if bool_decide (dw_tip_hash window = prev_hash) then next_work (dw_window window) next_time
        else expected_bits true prev_hash height next_time
    | None => expected_bits true prev_hash height next_time
    end.

(** ** The checks on a new header *)
Fixpoint find_checkpoint_on_chain (best_block_height : Z) (checkpoints : list Checkpoint)
    : chain (option Checkpoint) :=
  match checkpoints with
  | [] => mret None
  | checkpoint :: checkpoints =>
      if checkpoint_height checkpoint <=? best_block_height then
        entry ← try_ok (header_entry (checkpoint_hash checkpoint));
        match entry with
        | Some (Some _) => mret (Some checkpoint)
        | _ => find_checkpoint_on_chain best_block_height checkpoints
        end
      else find_checkpoint_on_chain best_block_height checkpoints
  end.
Definition last_checkpoint_on_chain (best_block_height : Z) : chain (option Checkpoint) :=
  find_checkpoint_on_chain best_block_height (rev (checkpoints params)).

Definition is_genesis (header : BlockHeader) (hash : Hash256) : bool :=
  bool_decide (prev_block header = zeros 32) && bool_decide (hash = hash_genesis_block params).

(** The parent: [None] for the genesis header. *)
Definition previous_entry (header : BlockHeader) (hash : Hash256) : chain (option HeaderEntry) :=
  if is_genesis header hash then mret None
  else
    pending ← gets hs_pending;
    match pending !! prev_block header with
    | Some entry => mret (Some entry)
    | None =>
        entry ← from_store (get_header store (prev_block header));
        entry ← run (ok_or entry MissingHeader);
        mret (Some entry)
    end.
Definition height_after (prev_entry : option HeaderEntry) : Z :=
  match prev_entry with Some entry => wrap_i32 (he_height entry + 1) | None => 0 end.
Definition chainwork_before (prev_entry : option HeaderEntry) : Z :=
  match prev_entry with Some entry => chainwork_value entry | None => 0 end.

Definition check_checkpoint (hash : Hash256) (height : Z) : chain unit :=
  match find (fun checkpoint => checkpoint_height checkpoint =? height) (checkpoints params) with
  | Some checkpoint => ensure (bool_decide (checkpoint_hash checkpoint = hash)) "checkpoint mismatch"
  | None => mret tt
  end.

Definition reorg_allowed (best_height height : Z) : bool :=
  negb (best_height - (height - 1) >=? max_reorg_depth best_height).

Definition check_fork (height : Z) : chain unit :=
  best_block ← from_store (best_block store);
  match best_block with
  | None => mret tt
  | Some best_block =>
      _ ← ensure (reorg_allowed (tip_height best_block) height)
            "forked chain older than max reorganization depth";
      checkpoint ← last_checkpoint_on_chain (tip_height best_block);
      match checkpoint with
      | Some checkpoint =>
          ensure (negb (height <? checkpoint_height checkpoint)) "forked chain older than last checkpoint"
      | None => mret tt
      end
  end.

Fixpoint check_activations (hash : Hash256) (height : Z) (schedule : list NetworkUpgrade) : chain unit :=
  match schedule with
  | [] => mret tt
  | upgrade :: schedule =>
      _ ← (if height =? activation_height upgrade then
             match hash_activation_block upgrade with
             | Some expected_hash => ensure (bool_decide (hash = expected_hash)) "activation block hash mismatch"
             | None => mret tt
             end
           else mret tt);
      check_activations hash height schedule
  end.

Definition check_version (header : BlockHeader) (hash : Hash256) (height : Z) : chain unit :=
  let pon_active := network_upgrade_active height (upgrades params) Consensus.Pon in
  _ ← ensure (negb (bh_version header <? MIN_BLOCK_VERSION)) "block version too low";
  _ ← ensure (negb (pon_active && (bh_version header <? MIN_PON_BLOCK_VERSION))) "pon block version too low";
  _ ← check_activations hash height (upgrades params);
  _ ← ensure (negb (pon_active && negb (is_pon header))) "pon upgrade active but header is not pon";
  ensure (negb (negb pon_active && is_pon header)) "pon upgrade inactive but header is pon".

Definition max_future (header : BlockHeader) (height : Z) : Z :=
  if negb (network_upgrade_active height (upgrades params) Lwma) then 2 * 60 * 60
  else if is_pon header then 300 else 360.

(** [mtp] computes the median time past of the parent; [now] is the clock. *)
Definition check_time (now : Z) (header : BlockHeader) (height : Z) (prev_entry : option HeaderEntry)
    (mtp : chain Z) : chain unit :=
  match prev_entry with
  | None => mret tt
  | Some prev_entry =>
      _ ← ensure (negb (time header >? now + max_future header height)) "block timestamp too far in the future";
      if is_pon header then
        ensure (negb (time header <=? he_time prev_entry)) "pon block timestamp too early"
      else
        mtp ← mtp;
        ensure (negb (time header <=? mtp)) "block timestamp too early"
  end.
Definition chain_mtp (prev_hash : Hash256) : chain Z :=
  headers ← collect_headers true prev_hash MTP_WINDOW_SIZE; run (headers_median_time headers).
Definition window_mtp (prev_hash : Hash256) : chain Z :=
  window ← gets hs_mtp_window;
  let fallback :=
    _ ← modify (fun s => set_windows (hs_difficulty_window s) None s); chain_mtp prev_hash in
  match window with
  | Some window =>
      if bool_decide (dw_tip_hash window = prev_hash) then run (headers_median_time (dw_window window))
      else fallback
  | None => fallback
  end.

Definition check_bits (header : BlockHeader) (hash : Hash256) (height : Z) : chain unit :=
  if is_genesis header hash then mret tt
  else
    expected ← bits_after (prev_block header) height (time header);
    ensure (bits header =? expected) "unexpected difficulty bits".

Definition check_proof (header : BlockHeader) (height : Z) (check_pow : bool) : chain unit :=
  if is_pon header then
    run (map_err (fun e => ChainValidation (PonFailure e)) (validate_pon_header header height params))
  else if check_pow then
    run (map_err (fun e => ChainValidation (PowFailure e)) (validate_pow_header header height params))
  else mret tt.

(** The work of one header; a proof-of-node block counts 2^40. *)
Definition header_work (header : BlockHeader) : result ChainStateError Z :=
  if is_pon header then Ok (2 ^ 40)
  else map_err (fun _ => ChainInvalidHeader "invalid difficulty target") (block_proof (bits header)).
Definition add_work (prev_chainwork work : Z) : result ChainStateError Z :=
  or_panic (u256_add prev_chainwork work).

Definition new_entry (header : BlockHeader) (skip_hash : Hash256) (height chainwork : Z) : HeaderEntry :=
  mkHeaderEntry (prev_block header) skip_hash height (time header) (bits header)
    (u256_to_big_endian chainwork) (status_with_header 0).

(** ** Insertion *)
Definition update_best (hash : Hash256) (work : Z) : chain unit :=
  best ← gets hs_best;
  let should_update := match best with Some (_, best_work) => work >? best_work | None => true end in
  if should_update then
    modify (fun s => set_batch (set_best_header (hs_batch s) hash) (set_best (Some (hash, work)) s))
  else mret tt.

Definition cache_entry (hash : Hash256) (entry : HeaderEntry) : chain unit :=
  modify (fun s => set_cache (cache_insert (hs_cache s) hash entry) s).
Definition remember (hash : Hash256) (entry : HeaderEntry) : chain unit :=
  modify (fun s => set_pending (<[hash := entry]> (hs_pending s)) s).
Definition write_entry (hash : Hash256) (entry : HeaderEntry) : chain unit :=
  modify (fun s => set_batch (put_header (hs_batch s) hash entry) s).
Definition write_header_bytes (header : BlockHeader) (hash : Hash256) : chain unit :=
  if store_block_headers options then
    modify (fun s => set_batch (batch_put (hs_batch s) BlockHeaderCol hash
                                  (header_consensus_encode header)) s)
  else mret tt.

(** A proof-of-node header stored with a chain work that its parent's does
    not explain: the corrected work, if the parent is known. *)
Definition corrected_work (header : BlockHeader) (hash : Hash256) (existing : HeaderEntry)
    : chain (option Z) :=
  if is_pon header && negb (is_genesis header hash) then
    pending ← gets hs_pending;
    prev_entry ← (match pending !! prev_block header with
                  | Some entry => mret (Some entry)
                  | None =>
                      entry ← try_ok (from_store (get_header store (prev_block header)));
                      mret (match entry with Some entry => entry | None => None end)
                  end);
    match prev_entry with
    | Some prev_entry =>
        expected_work ← run (add_work (chainwork_value prev_entry) (2 ^ 40));
        mret (if chainwork_value existing =? expected_work then None else Some expected_work)
    | None => mret None
    end
  else mret None.
Definition with_chainwork (entry : HeaderEntry) (work : Z) : HeaderEntry :=
  mkHeaderEntry (he_prev_hash entry) (he_skip_hash entry) (he_height entry) (he_time entry)
    (he_bits entry) (u256_to_big_endian work) (he_status entry).

Definition reinsert_header (header : BlockHeader) (hash : Hash256) (existing : HeaderEntry)
    : chain HeaderEntry :=
  _ ← write_header_bytes header hash;
  corrected ← corrected_work header hash existing;
  match corrected with
  | Some expected_work =>
      let updated := with_chainwork existing expected_work in
      _ ← write_entry hash updated;
      _ ← remember hash updated;
      _ ← cache_entry hash updated;
      _ ← update_best hash expected_work;
      mret updated
  | None =>
      _ ← update_best hash (chainwork_value existing);
      mret existing
  end.

Definition advance_window (window : option DifficultyWindow) (hash prev_hash : Hash256)
    (height time bits : Z) : option DifficultyWindow :=
  match window with
  | Some window =>
      if bool_decide (dw_tip_hash window = prev_hash) then Some (window_advance window hash height time bits)
      else None
  | None => None
  end.

(** Everything insertion checks, and the entry it makes. *)
Definition check_new_header (now : Z) (header : BlockHeader) (hash : Hash256) (check_pow : bool)
    : chain HeaderEntry :=
  let prev_hash := prev_block header in
  prev_entry ← previous_entry header hash;
  let height := height_after prev_entry in
  _ ← check_checkpoint hash height;
  _ ← check_fork height;
  _ ← check_version header hash height;
  _ ← check_time now header height prev_entry (chain_mtp prev_hash);
  _ ← check_bits header hash height;
  _ ← check_proof header height check_pow;
  work ← run (header_work header);
  chainwork ← run (add_work (chainwork_before prev_entry) work);
  skip_hash ← (if height <=? 0 then mret (zeros 32)
               else
                 ancestor ← header_ancestor_hash prev_hash (get_skip_height height);
                 mret (default (zeros 32) ancestor));
  mret (new_entry header skip_hash height chainwork).

Definition record_header (header : BlockHeader) (hash : Hash256) (entry : HeaderEntry) : chain unit :=
  let height := he_height entry in
  _ ← write_entry hash entry;
  _ ← write_header_bytes header hash;
  _ ← remember hash entry;
  _ ← cache_entry hash entry;
  _ ← update_best hash (chainwork_value entry);
  modify (fun s =>
    set_windows
      (if network_upgrade_active height (upgrades params) Consensus.Pon then None
       else advance_window (hs_difficulty_window s) hash (prev_block header) height (time header)
              (bits header)) (hs_mtp_window s) s).

Definition insert_new_header (now : Z) (header : BlockHeader) (hash : Hash256) (check_pow : bool)
    : chain HeaderEntry :=
  entry ← check_new_header now header hash check_pow;
  _ ← record_header header hash entry;
  mret entry.

Definition insert_header_with_pending (now : Z) (header : BlockHeader) (check_pow : bool)
    : chain HeaderEntry :=
  let hash := header_hash header in
  pending ← gets hs_pending;
  match pending !! hash with
  | Some existing => mret existing
  | None =>
      existing ← from_store (get_header store hash);
      match existing with
      | Some existing => reinsert_header header hash existing
      | None => insert_new_header now header hash check_pow
      end
  end.

(** [clock i] is what the clock shows at the [i]th header. *)
Fixpoint insert_loop (clock : nat -> Z) (headers : list BlockHeader) (check_pow : bool)
    : chain (list (Hash256 * HeaderEntry)) :=
  match headers with
  | [] => mret []
  | header :: headers =>
      entry ← insert_header_with_pending (clock O) header check_pow;
      results ← insert_loop (fun i => clock (Datatypes.S i)) headers check_pow;
      mret ((header_hash header, entry) :: results)
  end.

(** The state a batch starts from. *)
Definition stored_best : result ChainStateError (option (Hash256 * Z)) :=
  best ← map_err ChainStore (best_header store);
  Ok (option_map (fun tip => (tip_hash tip, u256_from_big_endian (tip_chainwork tip))) best).

Definition begin_batch (headers : list BlockHeader) : chain unit :=
  best ← run stored_best;
  _ ← modify (fun s => set_windows None None (set_best best (set_pending ∅ s)));
  window ← (match headers with
            | header :: _ => difficulty_bootstrap false (prev_block header)
            | [] => mret None
            end);
  modify (set_windows window None).
Definition insert_headers_batch_with_pow (clock : nat -> Z) (headers : list BlockHeader)
    (check_pow : bool) : chain (list (Hash256 * HeaderEntry)) :=
  _ ← begin_batch headers; insert_loop clock headers check_pow.
Definition insert_headers_batch (clock : nat -> Z) (headers : list BlockHeader)
    : chain (list (Hash256 * HeaderEntry)) := insert_headers_batch_with_pow clock headers true.

Definition insert_header (now : Z) (header : BlockHeader) : chain HeaderEntry :=
  _ ← begin_batch []; insert_header_with_pending now header true.

(** ** Validation ahead of insertion

    The same rules on headers that only live in [pending]; it leaves out the
    version, activation and checkpoint-fork checks, which insertion repeats. *)
Definition validate_new_header (now : Z) (header : BlockHeader) (hash : Hash256) (check_pow : bool)
    : chain HeaderEntry :=
  let prev_hash := prev_block header in
  prev_entry ← previous_entry header hash;
  let height := height_after prev_entry in
  let pon_active := network_upgrade_active height (upgrades params) Consensus.Pon in
  _ ← check_checkpoint hash height;
  best_block ← from_store (best_block store);
  _ ← (match best_block with
       | Some best_block => ensure (reorg_allowed (tip_height best_block) height) "reorg too deep"
       | None => mret tt
       end);
  _ ← ensure (negb (is_pon header && negb pon_active)) "pon upgrade inactive but header is pon";
  _ ← check_time now header height prev_entry (window_mtp prev_hash);
  _ ← check_bits header hash height;
  _ ← check_proof header height check_pow;
  work ← run (header_work header);
  chainwork ← run (add_work (chainwork_before prev_entry) work);
  let entry := new_entry header (zeros 32) height chainwork in
  _ ← remember hash entry;
  _ ← modify (fun s =>
         if pon_active then set_windows None None s
         else set_windows
                (advance_window (hs_difficulty_window s) hash prev_hash height (time header) (bits header))
                (advance_window (hs_mtp_window s) hash prev_hash height (time header) (bits header)) s);
  mret entry.

Definition validate_header_with_pending (now : Z) (header : BlockHeader) (check_pow : bool)
    : chain HeaderEntry :=
  let hash := header_hash header in
  pending ← gets hs_pending;
  match pending !! hash with
  | Some existing => mret existing
  | None =>
      existing ← from_store (get_header store hash);
      match existing with
      | Some existing =>
          corrected ← corrected_work header hash existing;
          mret (match corrected with
                | Some expected_work => with_chainwork existing expected_work
                | None => existing
                end)
      | None => validate_new_header now header hash check_pow
      end
  end.

Fixpoint validate_loop (clock : nat -> Z) (headers : list BlockHeader) (check_pow : bool)
    : chain (list (Hash256 * HeaderEntry)) :=
  match headers with
  | [] => mret []
  | header :: headers =>
      entry ← validate_header_with_pending (clock O) header check_pow;
      results ← validate_loop (fun i => clock (Datatypes.S i)) headers check_pow;
      mret ((header_hash header, entry) :: results)
  end.

Definition validate_headers_batch_with_cache (clock : nat -> Z) (headers : list BlockHeader)
    (check_pow : bool) : chain (list (Hash256 * HeaderEntry)) :=
  match headers with
  | [] => mret []
  | header :: _ =>
      difficulty ← gets hs_difficulty_window;
      difficulty ← (match difficulty with
                    | Some window => mret (Some window)
                    | None => difficulty_bootstrap true (prev_block header)
                    end);
      _ ← modify (fun s => set_windows difficulty (hs_mtp_window s) s);
      mtp ← gets hs_mtp_window;
      mtp ← (match mtp with
             | Some window => mret (Some window)
             | None => mtp_bootstrap true (prev_block header)
             end);
      _ ← modify (fun s => set_windows (hs_difficulty_window s) mtp s);
      validate_loop clock headers check_pow
  end.

(** ** Failed headers and the best header *)
Definition mark_header_failed (hash : Hash256) : chain unit :=
  entry ← header_entry hash;
  match entry with
  | None => mret tt
  | Some entry =>
      if is_failed (he_status entry) then mret tt
      else
        let entry :=
          mkHeaderEntry (he_prev_hash entry) (he_skip_hash entry) (he_height entry) (he_time entry)
            (he_bits entry) (he_chainwork entry) (status_with_failed (he_status entry)) in
        _ ← write_entry hash entry;
        cache_entry hash entry
  end.

Definition set_best_header_now (hash : Hash256) : result ChainStateError S :=
  entry ← map_err ChainStore (get_header store hash);
  match entry with
  | None => Err MissingHeader
  | Some _ => map_err ChainStore (kv_write_batch store (set_best_header [] hash))
  end.
End headers.
