(* ===== verification/HeaderTree.v ===== *)
(** * The header tree: what the header chain keeps

    An abstract tree of headers, the invariant that ties the store, the cache
    and a batch under construction to it, and the properties of insertion and
    of the skip pointers. *)

From S2P Require Import Prelude Consensus Encoding Hashing Transaction Block MerkleBlock Difficulty Equihash.
From S2P Require Import Script Storage ChainIndex Validation HeaderChain.
From Stdlib Require Import ZArith Lia.
From stdpp Require Import base list option numbers strings gmap sorting.
#[local] Open Scope Z_scope.

(** ** Skip heights go down *)
Lemma invert_lowest_one_bounds v : 1 <= v < 2 ^ 31 -> 0 <= invert_lowest_one v < v.
Proof.
  intros Hv. unfold invert_lowest_one. rewrite Z.max_l by lia. split; [apply Z.land_nonneg; lia|].
  assert (Z.land v (v - 1) <= v - 1); [|lia]. apply Z.ldiff_le; [lia|]. apply Z.bits_inj'. intros i _.
  rewrite Z.ldiff_spec, Z.land_spec, Z.bits_0. by destruct (Z.testbit v i), (Z.testbit (v - 1) i).
Qed.

Lemma get_skip_height_bounds h : 1 <= h < 2 ^ 31 -> 0 <= get_skip_height h < h.
Proof.
  intros Hh. unfold get_skip_height. destruct (Z.ltb_spec h 2); [lia|].
  destruct (negb _); [|apply invert_lowest_one_bounds; lia].
  pose proof (invert_lowest_one_bounds (h - 1) ltac:(lia)) as H1.
  destruct (Z.eq_dec (invert_lowest_one (h - 1)) 0) as [->|].
  - change (invert_lowest_one 0) with 0. lia.
  - pose proof (invert_lowest_one_bounds (invert_lowest_one (h - 1)) ltac:(lia)). lia.
Qed.

(** ** The abstract tree *)
Record Node := mkNode { n_prev : Hash256; n_height : Z; n_time : Z; n_bits : Z; n_work : Z }.
Abbreviation Tree := (gmap Hash256 Node).

Definition node_info (n : Node) : HeaderInfo := mkHeaderInfo (n_height n) (n_time n) (n_bits n).

(** [k] steps towards the genesis. *)
Fixpoint walk (t : Tree) (k : nat) (h : Hash256) : option Hash256 :=
  match k with
  | O => Some h
  | S k => match t !! h with Some n => walk t k (n_prev n) | None => None end
  end.

(** The last [k] headers up to [h], newest first. *)
Fixpoint path (t : Tree) (k : nat) (h : Hash256) : list HeaderInfo :=
  match k, t !! h with
  | S k, Some n => node_info n :: (if n_height n =? 0 then [] else path t k (n_prev n))
  | _, _ => []
  end.

Section tree.
  Context {H : Hashes} {U : U256Ops}.
  Context (params : ConsensusParams).

Definition pon_active (height : Z) : bool := network_upgrade_active height (upgrades params) Pon.
Definition node_work (height bits : Z) : Z :=
  if pon_active height then 2 ^ 40 else match block_proof bits with Ok w => w | _ => 0 end.

(** The digest collides, or hits the all-zero hash that stands for no block. *)
Definition hash_broken : Prop := sha256d_broken \/ exists x, sha256d x = zeros 32.

(** A node is a header, under its hash, on top of its parent. *)
Definition of_header (h : Hash256) (n : Node) : Prop :=
  h <> zeros 32 /\ exists header, header_wf true header /\ header_hash header = h
    /\ prev_block header = n_prev n /\ time header = n_time n /\ bits header = n_bits n
    /\ is_pon header = pon_active (n_height n).
Definition root_ok (h : Hash256) (n : Node) : Prop :=
  n_prev n = zeros 32 /\ h = hash_genesis_block params /\ n_height n = 0 /\ n_work n = node_work 0 (n_bits n).
Definition child_ok (t : Tree) (h : Hash256) (n : Node) : Prop :=
  ~ (n_prev n = zeros 32 /\ h = hash_genesis_block params)
  /\ exists p, t !! n_prev n = Some p /\ n_height n = n_height p + 1
               /\ n_work n = n_work p + node_work (n_height n) (n_bits n).
Definition node_ok (t : Tree) (h : Hash256) (n : Node) : Prop :=
  of_header h n /\ 0 <= n_height n < 2 ^ 31 - 1 /\ is_u256 (n_work n) /\ (root_ok h n \/ child_ok t h n).
Definition tree_ok (t : Tree) : Prop := map_Forall (node_ok t) t.

(** ** Entries of the tree *)
Definition node_of (e : HeaderEntry) : Node :=
  mkNode (he_prev_hash e) (he_height e) (he_time e) (he_bits e) (chainwork_value e).
Definition skip_ok (t : Tree) (h : Hash256) (e : HeaderEntry) : Prop :=
  he_skip_hash e = zeros 32
  \/ 0 < he_height e
     /\ walk t (Z.to_nat (he_height e - get_skip_height (he_height e))) h = Some (he_skip_hash e).
Definition entry_ok (t : Tree) (h : Hash256) (e : HeaderEntry) : Prop :=
  t !! h = Some (node_of e) /\ HeaderEntry_wf e /\ skip_ok t h e.
Definition entries_ok (t : Tree) (m : gmap Hash256 HeaderEntry) : Prop := map_Forall (entry_ok t) m.

(** Every entry's parent is there too. *)
Definition closed (m : gmap Hash256 HeaderEntry) : Prop :=
  forall h e, m !! h = Some e -> he_height e = 0 \/ is_Some (m !! he_prev_hash e).

(** ** Laws of trees *)
Lemma child_parent t h n :
  tree_ok t -> t !! h = Some n -> 0 < n_height n ->
  exists p, t !! n_prev n = Some p /\ n_height n = n_height p + 1.
Proof. intros Ht Hn Hh. destruct (Ht h n Hn) as (_&_&_&[(_&_&?&_)|(_&p&?&?&_)]); [lia|eauto]. Qed.

Lemma walk_total t h n k :
  tree_ok t -> t !! h = Some n -> Z.of_nat k <= n_height n ->
  exists a na, walk t k h = Some a /\ t !! a = Some na /\ n_height na = n_height n - Z.of_nat k.
Proof.
  intros Ht. revert h n; induction k as [|k IH]; intros h n Hn Hk; cbn [walk].
  - exists h, n. split_and!; [done..|lia].
  - rewrite Hn. destruct (child_parent t h n Ht Hn ltac:(lia)) as (p&Hp&Hh).
    destruct (IH _ p Hp ltac:(lia)) as (a&na&?&?&?). exists a, na. split_and!; [done..|lia].
Qed.

Lemma walk_add t j k h : walk t (k + j) h = match walk t k h with Some a => walk t j a | None => None end.
Proof.
  revert h; induction k as [|k IH]; intros h; cbn [walk Nat.add]; [done|].
  destruct (t !! h); [apply IH|done].
Qed.

Lemma walk_mono t t' k h a : t ⊆ t' -> walk t k h = Some a -> walk t' k h = Some a.
Proof.
  intros Hs. revert h; induction k as [|k IH]; intros h; cbn [walk]; [done|].
  destruct (t !! h) as [n|] eqn:E; [|done]. rewrite (lookup_weaken _ _ _ _ E Hs). apply IH.
Qed.

Lemma path_mono t t' k h :
  tree_ok t -> t ⊆ t' -> is_Some (t !! h) -> path t' k h = path t k h.
Proof.
  intros Ht Hs. revert h; induction k as [|k IH]; intros h [n Hn]; cbn [path]; [done|].
  rewrite Hn, (lookup_weaken _ _ _ _ Hn Hs). f_equal. destruct (Z.eqb_spec (n_height n) 0); [done|].
  apply IH. destruct (child_parent t h n Ht Hn) as (p&->&_); [|done].
  destruct (Ht h n Hn) as (_&?&_). lia.
Qed.

Lemma length_path t k h : (length (path t k h) <= k)%nat.
Proof.
  revert h; induction k as [|k IH]; intros h; cbn [path]; [done|].
  destruct (t !! h) as [n|]; simpl; [|lia]. destruct (_ =? _); simpl; [lia|]. specialize (IH (n_prev n)). lia.
Qed.

Lemma path_take t k h : path t k h = take k (path t (S k) h).
Proof.
  revert h; induction k as [|k IH]; intros h; [done|]. cbn [path take].
  destruct (t !! h) as [n|]; [|done]. cbn [take]. f_equal. destruct (_ =? _); [by rewrite take_nil|apply IH].
Qed.

Lemma entry_ok_mono t t' h e : t ⊆ t' -> entry_ok t h e -> entry_ok t' h e.
Proof.
  intros Hs (Hn&Hw&Hk). split_and!; [by eapply lookup_weaken|done|].
  destruct Hk as [|[? Hk]]; [by left|right]. split; [done|by eapply walk_mono].
Qed.
Lemma entries_ok_mono t t' m : t ⊆ t' -> entries_ok t m -> entries_ok t' m.
Proof. intros Hs Hm h e He. eapply entry_ok_mono; [done|by apply Hm]. Qed.

Lemma entry_height t h e : tree_ok t -> entry_ok t h e -> 0 <= he_height e < 2 ^ 31 - 1.
Proof. intros Ht (Hn&_). by destruct (Ht _ _ Hn) as (_&?&_). Qed.

(** A closed set of entries holds every ancestor of its members. *)
Lemma closed_walk t m h k a :
  entries_ok t m -> closed m -> is_Some (m !! h) -> (forall e, m !! h = Some e -> Z.of_nat k <= he_height e) ->
  tree_ok t -> walk t k h = Some a -> is_Some (m !! a).
Proof.
  intros Hm Hc Hh Hk Ht. revert h Hh Hk; induction k as [|k IH]; intros h [e He] Hk; cbn [walk].
  { intros [= <-]. eauto. }
  destruct (Hm h e He) as (Hn&_&_). rewrite Hn. cbn [node_of n_prev]. specialize (Hk e He).
  destruct (Hc h e He) as [?|[p Hp]]; [lia|]. apply IH; [eauto|]. intros p' Hp'.
  destruct (child_parent t h _ Ht Hn) as (q&Hq&Hqh); [simpl; lia|]. simpl in *.
  destruct (Hm _ _ Hp') as (Hn'&_&_). rewrite Hq in Hn'. injection Hn' as ->. simpl in *. lia.
Qed.
End tree.

(** ** The cache *)
Lemma evict_subseteq entries order : (evict entries order).1 ⊆ entries.
Proof.
  revert entries; induction order as [|h order IH]; intros entries; cbn [evict]; [done|].
  destruct (entries !! h); [|apply IH]. apply delete_subseteq.
Qed.

Lemma cache_insert_subseteq cache h e : hc_entries (cache_insert cache h e) ⊆ <[h := e]> (hc_entries cache).
Proof.
  unfold cache_insert. destruct (hc_entries cache !! h); [done|]. destruct (Nat.ltb _ _); [|done].
  pose proof (evict_subseteq (<[h := e]> (hc_entries cache)) (hc_order cache ++ [h])) as Hs.
  by destruct (evict _ _).
Qed.

(** ** Computations that only fill the cache *)
Section lookups.
  Context {H : Hashes} {B : Blake2b} {U : U256Ops} {S256 : Secp} {S : Type} {KV : KeyValueStore S}.
  Context (store : S) (params : ConsensusParams) (options : ChainStateOptions).
  Context (t : Tree) (m : gmap Hash256 HeaderEntry).
  Hypothesis Ht : tree_ok params t.
  Hypothesis Hstore : forall h, get_header store h = Ok (m !! h).
  Hypothesis Hm : entries_ok t m.
  Hypothesis Hclosed : closed m.

Definition cache_ok (c : HeaderCache) : Prop := entries_ok t (hc_entries c).

Definition quiet {A} (p : chain A) (s : HeaderState) (Q : result ChainStateError A -> Prop) : Prop :=
  exists r c, p s = (r, set_cache c s) /\ cache_ok c /\ Q r.

Lemma set_cache_eta s : s = set_cache (hs_cache s) s.
Proof. by destruct s. Qed.

Lemma quiet_run {A} (r : result ChainStateError A) s (Q : _ -> Prop) :
  cache_ok (hs_cache s) -> Q r -> quiet (run r) s Q.
Proof. intros Hc Hq. exists r, (hs_cache s). split_and!; [|done..]. unfold run. by rewrite <- set_cache_eta. Qed.

Lemma quiet_ret {A} (a : A) s (Q : _ -> Prop) : cache_ok (hs_cache s) -> Q (Ok a) -> quiet (mret a) s Q.
Proof. apply (quiet_run (Ok a)). Qed.

Lemma quiet_bind {A C} (p : chain A) (f : A -> chain C) s (Q1 : _ -> Prop) (Q2 : _ -> Prop) :
  quiet p s Q1 ->
  (forall a c, Q1 (Ok a) -> cache_ok c -> quiet (f a) (set_cache c s) Q2) ->
  (forall e, Q1 (Err e) -> Q2 (Err e)) -> (Q1 Panic -> Q2 Panic) -> quiet (p ≫= f) s Q2.
Proof.
  intros (r&c&E&Hc&Hq) Hf He Hp. unfold quiet, mbind, chain_bind. rewrite E. destruct r as [a|e|].
  - destruct (Hf a c Hq Hc) as (r'&c'&E'&?&?). exists r', c'. done.
  - exists (Err e), c. auto.
  - exists Panic, c. auto.
Qed.

Lemma quiet_try {A} (p : chain A) s (Q : _ -> Prop) :
  quiet p s (fun r => match r with Ok a => Q (Ok (Some a)) | Err _ => Q (Ok None) | Panic => Q Panic end) ->
  quiet (try_ok p) s Q.
Proof.
  intros (r&c&E&Hc&Hq). unfold quiet, try_ok. rewrite E. destruct r; eexists _, c; (split; [done|]); done.
Qed.

Lemma quiet_conseq {A} (p : chain A) s (Q1 Q2 : _ -> Prop) :
  quiet p s Q1 -> (forall r, Q1 r -> Q2 r) -> quiet p s Q2.
Proof. intros (r&c&E&Hc&Hq) HQ. exists r, c. auto. Qed.

(** A lookup finds what is stored, and whatever it finds is in the tree. *)
Lemma header_entry_spec h s :
  cache_ok (hs_cache s) ->
  quiet (header_entry store h) s (fun r =>
    exists o, r = Ok o /\ (forall e, o = Some e -> entry_ok t h e) /\ (is_Some (m !! h) -> is_Some o)).
Proof.
  intros Hc. unfold quiet, header_entry, gets, cache_get, mbind, chain_bind.
  destruct (hc_entries (hs_cache s) !! h) as [e|] eqn:E.
  - exists (Ok (Some e)), (hs_cache s). rewrite <- set_cache_eta. split; [done|]. split; [done|].
    exists (Some e). split_and!; [done| |eauto]. intros e' [= <-]. by apply Hc.
  - unfold from_store, run. rewrite Hstore. cbn [map_err]. destruct (m !! h) as [e|] eqn:Em.
    + unfold modify, mret, chain_ret. eexists _, _. split; [reflexivity|]. split.
      * intros h' e' He'.
        pose proof (lookup_weaken _ _ _ _ He' (cache_insert_subseteq _ _ _)) as Hi.
        apply lookup_insert_Some in Hi as [[<- <-]|[_ Hi]]; [by apply Hm|by apply Hc].
      * exists (Some e). split_and!; [done| |eauto]. intros e' [= <-]. by apply Hm.
    + exists (Ok None), (hs_cache s). rewrite <- set_cache_eta. split; [done|]. split; [done|].
      exists None. split_and!; [done..|]. by intros [? ?].
Qed.

Lemma header_entry_with_pending_spec up h s :
  cache_ok (hs_cache s) -> entries_ok t (hs_pending s) ->
  quiet (header_entry_with_pending store up h) s (fun r =>
    exists o, r = Ok o /\ (forall e, o = Some e -> entry_ok t h e)
              /\ (is_Some (m !! h) \/ up = true /\ is_Some (hs_pending s !! h) -> is_Some o)).
Proof.
  intros Hc Hp. unfold header_entry_with_pending. eapply (quiet_bind _ _ _ (fun r => r = Ok (hs_pending s))).
  { exists (Ok (hs_pending s)), (hs_cache s). rewrite <- set_cache_eta. done. }
  2,3: done. intros pend c [= ->] Hc'. destruct (if up then hs_pending s !! h else None) as [e|] eqn:E.
  - apply quiet_ret; [done|]. exists (Some e). split_and!; [done| |eauto]. intros e' [= <-].
    destruct up; [by apply Hp|done].
  - eapply quiet_conseq; [by apply header_entry_spec|]. intros r (o&->&Ho&Hs). exists o. split_and!; [done..|].
    intros [?|[-> ?]]; [auto|]. rewrite E in *. by destruct H0.
Qed.

(** ** Ancestors *)
Lemma ancestor_loop_spec fuel target h e s :
  cache_ok (hs_cache s) -> entry_ok t h e -> 0 <= target <= he_height e ->
  he_height e - target <= Z.of_nat fuel ->
  quiet (ancestor_loop store fuel target h e) s (fun r =>
    exists o, r = Ok o
      /\ (forall a, o = Some a -> walk t (Z.to_nat (he_height e - target)) h = Some a)
      /\ (is_Some (m !! h) -> is_Some o)).
Proof.
  revert h e s; induction fuel as [|fuel IH]; intros h e s Hc He Ht0 Hf; cbn [ancestor_loop];
    rewrite Z.gtb_ltb; destruct (Z.ltb_spec target (he_height e)) as [Hlt|Hge]; try lia.
  1,3: replace (he_height e) with target by lia; rewrite Z.sub_diag; apply quiet_ret; [done|];
       exists (Some h); split_and!; [done|by intros a [= <-]|eauto].
  pose proof (entry_height params t h e Ht He) as Hh. destruct He as (Hn&Hwf&Hskip).
  assert (Hnext : exists k, (1 <= k)%nat /\ Z.of_nat k <= he_height e - target
    /\ walk t k h = Some (if negb (bool_decide (he_skip_hash e = zeros 32))
                              && (get_skip_height (he_height e) >=? target)
                          then he_skip_hash e else he_prev_hash e)).
  { destruct (negb _ && _) eqn:Hb.
    - apply andb_true_iff in Hb as [Hz%negb_true_iff%bool_decide_eq_false Hs]. rewrite Z.geb_leb in Hs.
      apply Z.leb_le in Hs. destruct Hskip as [?|[_ Hw]]; [done|].
      pose proof (get_skip_height_bounds (he_height e) ltac:(lia)).
      exists (Z.to_nat (he_height e - get_skip_height (he_height e))). split_and!; [lia..|done].
    - exists 1%nat. split_and!; [lia..|]. cbn [walk]. by rewrite Hn. }
  destruct Hnext as (k&Hk1&Hk2&Hw). set (next := if negb _ && _ then _ else _) in *.
  eapply quiet_bind; [by apply header_entry_spec| |by intros ? (?&?&_)|by intros (?&?&_)].
  intros o c (o'&[= <-]&Hoe&Hom) Hc'. destruct o as [e'|].
  - specialize (Hoe e' eq_refl). destruct (walk_total params t h _ k Ht Hn) as (a&na&Ha&Hna&Hhn); [simpl; lia|].
    rewrite Hw in Ha. injection Ha as <-. pose proof Hoe as (Hn'&_). rewrite Hna in Hn'. injection Hn' as ->.
    cbn [node_of n_height] in Hhn.
    eapply quiet_conseq; [apply IH; [done..|lia|lia]|]. intros r (o&->&Ho&Hmo). exists o. split_and!; [done| |].
    + intros a Ha. replace (Z.to_nat (he_height e - target)) with (k + Z.to_nat (he_height e' - target))%nat by lia.
      rewrite walk_add, Hw. by apply Ho.
    + intros Hs. apply Hmo. eapply (closed_walk params t m h k); try done.
      intros e0 He0. destruct (Hm h e0 He0) as (Hn0&_). rewrite Hn in Hn0. injection Hn0 as ? E ? ? ?. lia.
  - apply quiet_ret; [done|]. exists None. split_and!; [done..|]. intros Hs.
    destruct (Hom) as [? ?]; [|done]. eapply (closed_walk params t m h k); try done.
    intros e0 He0. destruct (Hm h e0 He0) as (Hn0&_). rewrite Hn in Hn0. injection Hn0 as ? E ? ? ?. lia.
Qed.

Lemma header_ancestor_spec h target s :
  cache_ok (hs_cache s) ->
  quiet (header_ancestor_hash store h target) s (fun r =>
    exists o, r = Ok o
      /\ (forall a, o = Some a -> exists n, t !! h = Some n /\ 0 <= target <= n_height n
                                   /\ walk t (Z.to_nat (n_height n - target)) h = Some a)
      /\ (forall e, m !! h = Some e -> 0 <= target <= he_height e -> is_Some o)).
Proof.
  intros Hc. unfold header_ancestor_hash. destruct (Z.ltb_spec target 0).
  { apply quiet_ret; [done|]. exists None. split_and!; [done..|]. intros; lia. }
  eapply quiet_bind; [by apply header_entry_spec| |by intros ? (?&?&_)|by intros (?&?&_)].
  intros o c (o'&[= <-]&Hoe&Hom) Hc'. destruct o as [e|].
  - specialize (Hoe e eq_refl). rewrite Z.gtb_ltb. destruct (Z.ltb_spec (he_height e) target).
    { apply quiet_ret; [done|]. exists None. split_and!; [done..|]. intros e' He' Hle.
      destruct (Hm h e' He') as (Hn'&_), Hoe as (Hn&_). rewrite Hn in Hn'. injection Hn' as ? E ? ? ?. lia. }
    eapply quiet_conseq; [apply ancestor_loop_spec; [done..|lia|lia]|].
    intros r (o&->&Ho&Hmo). exists o. split_and!; [done| |eauto].
    intros a Ha. exists (node_of e). destruct Hoe as (Hn&_). split_and!; [done|simpl; lia..|by apply Ho].
  - apply quiet_ret; [done|]. exists None. split_and!; [done..|]. intros e He _. destruct Hom as [? ?]; [eauto|done].
Qed.

(** ** Collecting headers *)
Lemma collect_loop_spec up k h s :
  cache_ok (hs_cache s) -> entries_ok t (hs_pending s) -> closed (hs_pending s ∪ m) ->
  quiet (collect_loop store up k h) s (fun r =>
    r <> Panic /\ (forall l, r = Ok l -> l = path t k h)
    /\ (is_Some ((if up then hs_pending s ∪ m else m) !! h) -> r = Ok (path t k h))).
Proof.
  revert h s; induction k as [|k IH]; intros h s Hc Hp Hcl; cbn [collect_loop path].
  { apply quiet_ret; [done|]. split_and!; [done|by intros l [= ->]|done]. }
  eapply quiet_bind; [by apply header_entry_with_pending_spec| |by intros ? (?&?&_)|by intros (?&?&_)].
  intros o c (o'&[= <-]&Hoe&Hos) Hc'.
  assert (Hknown : is_Some ((if up then hs_pending s ∪ m else m) !! h) -> is_Some o).
  { intros Hs. apply Hos. destruct up; [|by left]. rewrite lookup_union_is_Some in Hs. naive_solver. }
  destruct o as [e|]; cbn [ok_or].
  2: { eexists _, c. split; [reflexivity|]. split; [done|]. split_and!; [done..|]. intros Hs.
       by destruct (Hknown Hs). }
  specialize (Hoe e eq_refl). pose proof Hoe as (Hn&_). rewrite Hn.
  change (n_height (node_of e)) with (he_height e).
  eapply (quiet_bind _ _ _ (fun r => r = Ok e)); [by apply quiet_run| |done..].
  intros e1 c1 [= ->] Hc1. destruct (Z.eqb_spec (he_height e) 0) as [Hz|Hz].
  { apply quiet_ret; [done|]. split_and!; [done|by intros l [= <-]|done]. }
  eapply quiet_bind; [apply (IH (he_prev_hash e) (set_cache c1 (set_cache c s))); done| | |].
  - intros l c2 (_&Hl&_) Hc2. rewrite (Hl l eq_refl). apply quiet_ret; [done|].
    split_and!; [done|by intros l' [= <-]|done].
  - intros err (_&_&Hk). split_and!; [done..|]. intros Hs. exfalso. cbn [hs_pending set_cache] in Hk.
    enough (Hs' : is_Some ((if up then hs_pending s ∪ m else m) !! he_prev_hash e)) by by specialize (Hk Hs').
    assert (Hin : forall (mm : gmap Hash256 HeaderEntry), entries_ok t mm -> closed mm -> is_Some (mm !! h) ->
      is_Some (mm !! he_prev_hash e)).
    { intros mm Hmm Hcm [e0 He0]. destruct (Hmm h e0 He0) as (Hn0&_). rewrite Hn in Hn0.
      injection Hn0 as E1 E2 _ _ _. destruct (Hcm h e0 He0); [lia|]. by rewrite E1. }
    destruct up; apply Hin; try done. intros h' e' [He'|[_ He']]%lookup_union_Some_raw; [by apply Hp|by apply Hm].
  - by intros (?&_).
Qed.

Lemma collect_headers_spec up k h s :
  cache_ok (hs_cache s) -> entries_ok t (hs_pending s) -> closed (hs_pending s ∪ m) ->
  quiet (collect_headers store up h k) s (fun r =>
    r <> Panic /\ (forall l, r = Ok l -> l = rev (path t k h))
    /\ (is_Some ((if up then hs_pending s ∪ m else m) !! h) -> r = Ok (rev (path t k h)))).
Proof.
  intros Hc Hp Hcl. unfold collect_headers. eapply quiet_bind; [by apply collect_loop_spec| | |].
  - intros l c (_&Hl&_) Hc'. rewrite (Hl l eq_refl). apply quiet_ret; [done|].
    split_and!; [done|by intros l' [= <-]|done].
  - intros e (_&_&Hk). split_and!; [done..|]. intros Hs. by specialize (Hk Hs).
  - by intros (?&_).
Qed.
End lookups.
