(* ===== verification/HeaderHistory.v ===== *)
(** * Properties of header insertion

    Histories of a node's header chain, the invariant every history keeps, and
    the properties that follow. *)

From S2P Require Import Prelude Consensus Encoding Hashing Transaction Block Difficulty Equihash.
From S2P Require Import Script Storage ChainIndex Validation HeaderChain HeaderTree.
From Stdlib Require Import ZArith Lia.
From stdpp Require Import base list option numbers strings gmap sorting.
#[local] Open Scope Z_scope.

Section insertion.
  Context {H : Hashes} {HL : HashesLaws H} {B : Blake2b} {U : U256Ops} {UL : U256Laws U} {S256 : Secp}.
  Context {S : Type} {KV : KeyValueStore S}.
  Context (store : S) (params : ConsensusParams) (options : ChainStateOptions).
  Context (t : Tree) (m : gmap Hash256 HeaderEntry).
  Hypothesis Ht : tree_ok params t.
  Hypothesis Hstore : forall h, get_header store h = Ok (m !! h).
  Hypothesis Hm : entries_ok t m.
  Hypothesis Hclosed : closed m.

(** ** Checks change nothing but the cache *)
Definition quietly {A} (p : chain A) (s : HeaderState) (P : A -> Prop) : Prop :=
  quiet t p s (fun r => forall a, r = Ok a -> P a).

Lemma quietly_bind {A C} (p : chain A) (f : A -> chain C) s (P1 : A -> Prop) (P2 : C -> Prop) :
  quietly p s P1 -> (forall a c, P1 a -> cache_ok t c -> quietly (f a) (set_cache c s) P2) ->
  quietly (p ≫= f) s P2.
Proof. intros Hp Hf. eapply quiet_bind; [exact Hp| |done..]. intros a c Ha. apply Hf, (Ha a eq_refl). Qed.

Lemma quietly_run {A} (r : result ChainStateError A) s (P : A -> Prop) :
  cache_ok t (hs_cache s) -> (forall a, r = Ok a -> P a) -> quietly (run r) s P.
Proof. intros Hc HP. by apply quiet_run. Qed.
Lemma quietly_ret {A} (a : A) s (P : A -> Prop) : cache_ok t (hs_cache s) -> P a -> quietly (mret a) s P.
Proof. intros Hc HP. apply (quietly_run (Ok a)); [done|]. by intros a' [= <-]. Qed.
Lemma quietly_gets {A} (f : HeaderState -> A) s (P : A -> Prop) :
  cache_ok t (hs_cache s) -> P (f s) -> quietly (gets f) s P.
Proof.
  intros Hc HP. exists (Ok (f s)), (hs_cache s). rewrite <- set_cache_eta. split_and!; [done..|]. by intros a [= <-].
Qed.
Lemma quietly_ensure b message s : cache_ok t (hs_cache s) -> quietly (ensure b message) s (fun _ => b = true).
Proof. intros Hc. unfold ensure. destruct b; [by apply quietly_ret|]. by apply quietly_run. Qed.
Lemma quietly_conseq {A} (p : chain A) s (P1 P2 : A -> Prop) :
  quietly p s P1 -> (forall a, P1 a -> P2 a) -> quietly p s P2.
Proof. intros Hp HP. eapply quiet_conseq; [exact Hp|]. intros r Hr a Ha. apply HP, Hr, Ha. Qed.
Lemma quietly_ensure_any b message s : cache_ok t (hs_cache s) -> quietly (ensure b message) s (fun _ => True).
Proof. intros Hc. eapply quietly_conseq; [by apply quietly_ensure|done]. Qed.

Lemma quietly_header_entry h s :
  cache_ok t (hs_cache s) -> quietly (header_entry store h) s (fun _ => True).
Proof. intros Hc. eapply quiet_conseq; [eapply header_entry_spec; eauto|done]. Qed.

(** The part of the state that lookups read besides the cache. *)
Definition pending_ok (s : HeaderState) : Prop :=
  entries_ok t (hs_pending s) /\ closed (hs_pending s ∪ m).

Lemma quietly_entry_with_pending up h s :
  cache_ok t (hs_cache s) -> pending_ok s -> quietly (header_entry_with_pending store up h) s (fun _ => True).
Proof. intros Hc [Hp _]. eapply quiet_conseq; [eapply header_entry_with_pending_spec; eauto|done]. Qed.
Lemma quietly_collect up h k s :
  cache_ok t (hs_cache s) -> pending_ok s -> quietly (collect_headers store up h k) s (fun _ => True).
Proof. intros Hc [Hp Hcl]. eapply quiet_conseq; [eapply collect_headers_spec; eauto|done]. Qed.

(** [done] on goals without content, [auto] on what a lookup reads. *)
Ltac quiet_tac :=
  repeat match goal with
  | |- quietly (_ ≫= _) _ _ => apply (quietly_bind _ _ _ (fun _ => True)); [|intros ? ? _ ?]
  | |- quietly (mret _) _ _ => apply quietly_ret; [assumption|try done]
  | |- quietly (run _) _ _ => apply quietly_run; [assumption|try done]
  | |- quietly (gets _) _ _ => apply (quietly_gets _ _ (fun _ => True)); [assumption|done]
  | |- quietly (ensure _ _) _ _ => apply quietly_ensure_any; assumption
  | |- quietly (header_entry _ _) _ _ => apply quietly_header_entry; assumption
  | |- quietly (header_entry_with_pending _ _ _) _ _ => apply quietly_entry_with_pending; assumption
  | |- quietly (collect_headers _ _ _ _) _ _ => apply quietly_collect; assumption
  | |- quietly (match ?x with _ => _ end) _ _ => destruct x
  | |- quietly (if ?x then _ else _) _ _ => destruct x
  end.

Lemma quietly_expected_bits up prev height next_time s :
  cache_ok t (hs_cache s) -> pending_ok s ->
  quietly (expected_bits store params up prev height next_time) s (fun _ => True).
Proof. intros Hc Hp. unfold expected_bits, expected_pon_bits, next_work. quiet_tac. Qed.

Lemma quietly_check_bits header hash height s :
  cache_ok t (hs_cache s) -> pending_ok s ->
  quietly (check_bits store params header hash height) s (fun _ => True).
Proof.
  intros Hc Hp. unfold check_bits, bits_after, next_work. cbv zeta.
  quiet_tac; apply quietly_expected_bits; assumption.
Qed.

Lemma quietly_check_fork height s :
  cache_ok t (hs_cache s) -> quietly (check_fork store params height) s (fun _ => True).
Proof.
  intros Hc. unfold check_fork, from_store, last_checkpoint_on_chain. quiet_tac.
  generalize (rev (checkpoints params)) as l. intros l.
  match goal with |- quietly _ ?s _ => assert (Hc2 : cache_ok t (hs_cache s)) by assumption;
    revert Hc2; generalize s end.
  induction l as [|cp l IH]; intros s2 Hc2; cbn [find_checkpoint_on_chain]; [by apply quietly_ret|].
  destruct (_ <=? _); [|by apply IH]. eapply (quietly_bind _ _ _ (fun _ => True)).
  - apply quiet_try. eapply quiet_conseq; [by apply quietly_header_entry|]. intros [] ?; done.
  - intros [[e|]|] ? _ Hc3; [by apply quietly_ret| |]; by apply IH.
Qed.

(** ** What the checks establish *)
Definition parent_known (s : HeaderState) (header : BlockHeader) (hash : Hash256)
    (prev_entry : option HeaderEntry) : Prop :=
  match prev_entry with
  | None => is_genesis params header hash = true
  | Some p => is_genesis params header hash = false /\ (hs_pending s ∪ m) !! prev_block header = Some p
  end.
Definition skip_known (header : BlockHeader) (height : Z) (skip : Hash256) : Prop :=
  skip = zeros 32
  \/ 0 < height /\ exists n, t !! prev_block header = Some n /\ 0 <= get_skip_height height <= n_height n
       /\ walk t (Z.to_nat (n_height n - get_skip_height height)) (prev_block header) = Some skip.
Definition header_checked (s : HeaderState) (header : BlockHeader) (hash : Hash256) (e : HeaderEntry) : Prop :=
  exists prev_entry work skip,
    parent_known s header hash prev_entry
    /\ is_pon header = pon_active params (height_after prev_entry)
    /\ add_work (chainwork_before prev_entry) (node_work params (height_after prev_entry) (bits header)) = Ok work
    /\ is_u256 (node_work params (height_after prev_entry) (bits header))
    /\ skip_known header (height_after prev_entry) skip
    /\ e = new_entry header skip (height_after prev_entry) work.

Lemma quietly_previous header hash s :
  cache_ok t (hs_cache s) -> pending_ok s ->
  quietly (previous_entry store params header hash) s (parent_known s header hash).
Proof.
  intros Hc [Hp _]. unfold previous_entry, parent_known. destruct (is_genesis params header hash) eqn:Hg.
  { by apply quietly_ret. }
  eapply (quietly_bind _ _ _ (fun a => a = hs_pending s)); [by apply quietly_gets|].
  intros pend c -> Hc'. destruct (hs_pending s !! prev_block header) as [e|] eqn:Ep.
  { apply quietly_ret; [done|]. split; [done|]. by apply lookup_union_Some_l. }
  unfold from_store. rewrite Hstore. cbn [map_err].
  eapply (quietly_bind _ _ _ (fun a => a = m !! prev_block header)).
  { apply quietly_run; [done|]. by intros a [= <-]. }
  intros a c2 -> Hc2. destruct (m !! prev_block header) as [e|] eqn:Em; cbn [ok_or].
  - eapply (quietly_bind _ _ _ (fun a => a = e)); [apply quietly_run; [done|by intros a [= <-]]|].
    intros a c3 -> Hc3. apply quietly_ret; [done|]. split; [done|]. by rewrite lookup_union_r.
  - eapply (quietly_bind _ _ _ (fun _ => False)); [by apply quietly_run|done].
Qed.

Lemma block_proof_u256 b w : is_u32 b -> block_proof b = Ok w -> is_u256 w.
Proof.
  intros Hb. unfold block_proof. destruct (compact_to_u256 b) as [target| |] eqn:Et; [|done..].
  pose proof (compact_to_u256_range b target Hb Et) as Hr. cbn [mbind result_bind].
  destruct (Z.eqb_spec target 0) as [->|Hz]; [by intros [= <-]|]. intros E.
  pose proof (block_proof_eq b target Hb Et ltac:(lia)) as E2. unfold block_proof in E2. rewrite Et in E2.
  cbn [mbind result_bind] in E2. rewrite (proj2 (Z.eqb_neq _ _) Hz) in E2. rewrite E2 in E. injection E as <-.
  split; [apply Z.div_pos; lia|]. apply Z.div_lt_upper_bound; [lia|]. nia.
Qed.

Lemma header_work_node header height w :
  header_wf true header -> is_pon header = pon_active params height -> header_work header = Ok w ->
  w = node_work params height (bits header) /\ is_u256 w.
Proof.
  intros Hwf Hp. unfold header_work, node_work. rewrite Hp. destruct (pon_active params height).
  - intros [= <-]. done.
  - destruct (block_proof (bits header)) as [w'| |] eqn:Ew; [|done..]. intros [= <-]. split; [done|].
    eapply block_proof_u256; [|done]. by destruct Hwf as (_&_&_&_&_&?&_).
Qed.

Lemma check_new_header_spec now header hash cp s :
  cache_ok t (hs_cache s) -> pending_ok s -> header_wf true header ->
  quietly (check_new_header store params now header hash cp) s (header_checked s header hash).
Proof.
  intros Hc Hp Hwf. unfold check_new_header. cbv zeta.
  eapply quietly_bind; [by apply quietly_previous|]. intros prev c Hprev Hc1.
  eapply (quietly_bind _ _ _ (fun _ => True)). { unfold check_checkpoint. quiet_tac. }
  intros _ c2 _ Hc2. eapply (quietly_bind _ _ _ (fun _ => True)); [by apply quietly_check_fork|].
  intros _ c3 _ Hc3.
  eapply (quietly_bind _ _ _ (fun _ => is_pon header = pon_active params (height_after prev))).
  { unfold check_version. eapply (quietly_bind _ _ _ (fun _ => True)); [quiet_tac|]. intros _ c4 _ Hc4.
    eapply (quietly_bind _ _ _ (fun _ => True)); [quiet_tac|]. intros _ c5 _ Hc5.
    eapply (quietly_bind _ _ _ (fun _ => True)).
    { generalize (upgrades params) as l. intros l.
      match goal with |- quietly _ ?s _ => assert (Hc' : cache_ok t (hs_cache s)) by assumption;
        revert Hc'; generalize s end.
      induction l as [|u l IH]; intros s2 Hc'; cbn [check_activations]; [by apply quietly_ret|].
      eapply (quietly_bind _ _ _ (fun _ => True)); [quiet_tac|]. intros _ c6 _ Hc6. by apply IH. }
    intros _ c6 _ Hc6. eapply quietly_bind; [by apply quietly_ensure|]. intros ? c7 Hb Hc7.
    eapply quietly_conseq; [by apply quietly_ensure|]. cbv beta in *. intros _ Hb2. unfold pon_active.
    by destruct (network_upgrade_active _ _ _), (is_pon header). }
  intros ? c4 Hpon Hc4. eapply (quietly_bind _ _ _ (fun _ => True)).
  { unfold check_time, chain_mtp. quiet_tac. }
  intros _ c5 _ Hc5. eapply (quietly_bind _ _ _ (fun _ => True)); [by apply quietly_check_bits|].
  intros _ c6 _ Hc6. eapply (quietly_bind _ _ _ (fun _ => True)). { unfold check_proof. quiet_tac. }
  intros _ c7 _ Hc7.
  eapply (quietly_bind _ _ _ (fun w => w = node_work params (height_after prev) (bits header) /\ is_u256 w)).
  { apply quietly_run; [done|]. intros w Hw. by apply header_work_node. }
  intros w c8 [-> Hu] Hc8.
  eapply (quietly_bind _ _ _ (fun work => add_work (chainwork_before prev) _ = Ok work)).
  { by apply quietly_run. }
  intros work c9 Hwork Hc9. eapply (quietly_bind _ _ _ (skip_known header (height_after prev))).
  { destruct (Z.leb_spec (height_after prev) 0); [apply quietly_ret; [done|by left]|].
    eapply quietly_bind.
    { eapply quiet_conseq; [by eapply header_ancestor_spec|]. intros r (o&->&Ho&_) o' [= <-]. exact Ho. }
    intros o c10 Ho Hc10. apply quietly_ret; [done|]. destruct o as [anc|]; [|by left].
    destruct (Ho anc eq_refl) as (n&?&?&?). right. split; [done|]. by exists n. }
  intros skip c10 Hskip Hc10. apply quietly_ret; [done|]. exists prev, work, skip. by split_and!.
Qed.
End insertion.

(** ** Growing the tree *)
Section growth.
  Context {H : Hashes} {HL : HashesLaws H} {U : U256Ops} {UL : U256Laws U}.
  Context (params : ConsensusParams).

Lemma node_ok_mono t t' h n : t ⊆ t' -> node_ok params t h n -> node_ok params t' h n.
Proof.
  intros Hs (Ho&Hh&Hw&Hr). split; [done|]. split; [done|]. split; [done|]. destruct Hr as [?|(?&p&?&?)]; [by left|right].
  split; [done|]. exists p. split; [by eapply lookup_weaken|done].
Qed.

Lemma tree_ok_insert t h n :
  tree_ok params t -> t !! h = None -> node_ok params t h n -> tree_ok params (<[h := n]> t).
Proof.
  intros Ht Hn Hok. assert (Hs : t ⊆ <[h := n]> t) by by apply insert_subseteq.
  apply map_Forall_insert_2; [by apply (node_ok_mono t)|]. intros h' n' Hn'. apply (node_ok_mono t); [done|by apply Ht].
Qed.

(** A hash determines its node. *)
Lemma node_unique t h n1 n2 :
  node_ok params t h n1 -> node_ok params t h n2 -> n1 = n2 \/ sha256d_broken.
Proof.
  intros ((_&h1&W1&E1&P1&T1&B1&_)&_&_&R1) ((_&h2&W2&E2&P2&T2&B2&_)&_&_&R2).
  assert (E : header_hash h1 = header_hash h2) by congruence.
  destruct (header_hash_inj h1 h2 W1 W2 E) as [Hs|]; [left|by right].
  injection Hs as _ Hp _ _ Htime Hbits _ _ _. destruct n1 as [p1 g1 t1 b1 w1], n2 as [p2 g2 t2 b2 w2]. simpl in *.
  assert (p1 = p2) as <- by congruence. assert (t1 = t2) as <- by congruence. assert (b1 = b2) as <- by congruence.
  unfold root_ok, child_ok in *. simpl in *.
  destruct R1 as [(?&?&->&->)|(N1&q1&Q1&->&->)], R2 as [(?&?&->&->)|(N2&q2&Q2&->&->)]; try done; [by destruct N2|by destruct N1|].
  rewrite Q1 in Q2. by injection Q2 as <-.
Qed.

Lemma tree_key t h n : tree_ok params t -> t !! h = Some n -> array 32 h.
Proof. intros Ht Hn. destruct (Ht h n Hn) as ((_&hd&_&<-&_)&_). apply sha256d_array. Qed.

(** The node of a checked header. *)
Lemma checked_entry t m s header e :
  tree_ok params t -> entries_ok t m -> entries_ok t (hs_pending s) -> header_wf true header ->
  header_checked params t m s header (header_hash header) e -> he_height e < 2 ^ 31 - 1 ->
  header_hash header <> zeros 32 ->
  node_ok params t (header_hash header) (node_of e) /\ HeaderEntry_wf e
  /\ (he_height e = 0 \/ is_Some ((hs_pending s ∪ m) !! he_prev_hash e))
  /\ forall t', t ⊆ t' -> t' !! header_hash header = Some (node_of e) -> skip_ok t' (header_hash header) e.
Proof.
  intros Ht Hm Hp Hwf (prev&work&skip&Hprev&Hpon&Hwork&Hu&Hskip&->) Hh Hnz.
  pose proof Hwf as (_&Apb&_&_&Htime&Hbits&_).
  assert (Hpe : forall p, prev = Some p -> entry_ok t (prev_block header) p).
  { intros p ->. destruct Hprev as [_ Hl]. apply lookup_union_Some_raw in Hl as [Hl|[_ Hl]]; [by apply Hp|by apply Hm]. }
  assert (Hheight : 0 <= height_after prev < 2 ^ 31 - 1).
  { split; [|done]. destruct prev as [p|]; [|done]. pose proof (entry_height params t _ p Ht (Hpe p eq_refl)).
    simpl. rewrite wrap_i32_id by int_lia. lia. }
  assert (Hbefore : is_u256 (chainwork_before prev)).
  { destruct prev as [p|]; [|done]. destruct (Hpe p eq_refl) as (Hn&_). by destruct (Ht _ _ Hn) as (_&_&?&_). }
  unfold add_work in Hwork. rewrite u256_add_spec in Hwork by done.
  destruct (Z.leb_spec (chainwork_before prev + node_work params (height_after prev) (bits header)) u256_max); [|done].
  injection Hwork as <-. set (w := chainwork_before prev + _) in *.
  assert (Hw : is_u256 w) by (unfold is_u256, u256_max in *; lia).
  assert (Hnode : node_of (new_entry header skip (height_after prev) w)
                  = mkNode (prev_block header) (height_after prev) (time header) (bits header) w).
  { unfold node_of, new_entry, chainwork_value. cbn [he_prev_hash he_height he_time he_bits he_chainwork].
    rewrite u256_to_be_spec, u256_from_be_spec, from_be_be_bytes by (done || (split; [apply length_be_bytes|apply be_bytes_ok])).
    by rewrite Z.mod_small. }
  rewrite Hnode. split; [|split; [|split]].
  - unfold node_ok, root_ok, child_ok. cbn [n_prev n_height n_time n_bits n_work].
    split; [split; [done|]; exists header; by split_and!|]. split; [done|]. split; [done|].
    unfold parent_known, is_genesis in Hprev. destruct prev as [p|].
    + destruct Hprev as [Hg _]. right. split.
      { intros [E1 E2]. by rewrite !bool_decide_true in Hg. }
      destruct (Hpe p eq_refl) as (Hn&_). exists (node_of p). split; [done|]. cbn [node_of n_height n_work].
      pose proof (entry_height params t _ p Ht (Hpe p eq_refl)). cbn [height_after chainwork_before] in *.
      split; [by rewrite wrap_i32_id by int_lia|done].
    + apply andb_true_iff in Hprev as [?%bool_decide_eq_true ?%bool_decide_eq_true]. left. done.
  - unfold HeaderEntry_wf, new_entry.
    cbn [he_prev_hash he_skip_hash he_height he_time he_bits he_chainwork he_status].
    rewrite u256_to_be_spec by done.
    assert (Aw : array 32 (be_bytes 32 w)) by (split; [apply length_be_bytes|apply be_bytes_ok]).
    assert (As : array 32 skip).
    { destruct Hskip as [->|(_&n&Hn&Hg&Hk)]; [by apply array_zeros|].
    destruct (walk_total params t _ n (Z.to_nat (n_height n - get_skip_height (height_after prev))) Ht Hn)
      as (a&na&Ha&Hna&_); [lia|]. rewrite Hk in Ha. injection Ha as <-. by eapply tree_key. }
    assert (is_i32 (height_after prev)) by int_lia. done.
  - destruct prev as [p|]; [right|by left]. destruct Hprev as [_ Hl]. cbn [new_entry he_prev_hash]. by rewrite Hl.
  - intros t' Hs Hl. destruct Hskip as [->|(Hpos&n&Hn&Hg&Hk)]; [by left|right].
    cbn [new_entry he_height he_skip_hash]. split; [done|]. destruct prev as [p|]; [|done].
    destruct (Hpe p eq_refl) as (Hnp&_). rewrite Hn in Hnp. injection Hnp as ->. cbn [node_of n_height] in *.
    pose proof (entry_height params t _ p Ht (Hpe p eq_refl)).
    assert (Eh : height_after (Some p) = he_height p + 1) by (simpl; rewrite wrap_i32_id by int_lia; done).
    replace (Z.to_nat (height_after (Some p) - get_skip_height (height_after (Some p))))
      with (Datatypes.S (Z.to_nat (he_height p - get_skip_height (height_after (Some p))))) by lia.
    cbn [walk]. rewrite Hl. cbn [n_prev]. by eapply walk_mono.
Qed.
End growth.

(** ** The state of a batch *)
Lemma last_write_put b c k v c' k' :
  last_write (batch_put b c k v) c' k'
  = if bool_decide ((c, k) = (c', k')) then Some (Some v) else last_write b c' k'.
Proof. unfold batch_put. rewrite last_write_app. cbn [last_write]. by case_bool_decide. Qed.

Section batch.
  Context {H : Hashes} {HL : HashesLaws H} {B : Blake2b} {U : U256Ops} {UL : U256Laws U} {S256 : Secp}.
  Context {S : Type} {KV : KeyValueStore S}.
  Context (store : S) (params : ConsensusParams) (options : ChainStateOptions).

(** The best header has the most work. *)
Definition best_max (known : gmap Hash256 HeaderEntry) (best : option (Hash256 * Z)) : Prop :=
  match best with
  | None => known = ∅
  | Some (h, w) => (exists e, known !! h = Some e /\ chainwork_value e = w)
                   /\ forall h' e', known !! h' = Some e' -> chainwork_value e' <= w
  end.

(** A window holds the last headers of its tip's chain. *)
Definition window_ok (t : Tree) (len : nat) (w : DifficultyWindow) : Prop :=
  dw_len w = len /\ (0 < len)%nat /\ is_Some (t !! dw_tip_hash w)
  /\ dw_window w = rev (path t len (dw_tip_hash w)).

Record batch_ok (t : Tree) (m : gmap Hash256 HeaderEntry) (best0 : option (Hash256 * Z))
    (s : HeaderState) : Prop := {
  bo_cache : cache_ok t (hs_cache s);
  bo_pending : entries_ok t (hs_pending s);
  bo_closed : closed (hs_pending s ∪ m);
  bo_writes h : last_write (hs_batch s) HeaderIndex h
                = option_map (fun e => Some (encode_header_entry e)) (hs_pending s !! h);
  bo_puts h v : Put HeaderIndex h v ∈ hs_batch s -> exists e, hs_pending s !! h = Some e /\ v = encode_header_entry e;
  bo_best_write :
    match last_write (hs_batch s) Meta META_BEST_HEADER_KEY with
    | None => hs_best s = best0
    | Some (Some h) => exists w, hs_best s = Some (h, w)
    | Some None => False
    end;
  bo_best : best_max (hs_pending s ∪ m) (hs_best s);
  bo_window w : hs_difficulty_window s = Some w -> window_ok t (difficulty_window_len params) w }.

Lemma batch_ok_cache t m best0 s c :
  batch_ok t m best0 s -> cache_ok t c -> batch_ok t m best0 (set_cache c s).
Proof. intros [] Hc. by constructor. Qed.

Lemma window_ok_mono t t' len w :
  tree_ok params t -> t ⊆ t' -> window_ok t len w -> window_ok t' len w.
Proof.
  intros Ht Hs (?&?&Htip&Hwin). split; [done|]. split; [done|]. split.
  - destruct Htip as [n Hn]. exists n. by eapply lookup_weaken.
  - by rewrite Hwin, (path_mono params t t').
Qed.

Lemma batch_ok_mono t t' m best0 s :
  tree_ok params t -> t ⊆ t' -> batch_ok t m best0 s -> batch_ok t' m best0 s.
Proof.
  intros Ht Hs [Hc Hp]. constructor; try done; try by eapply entries_ok_mono.
  intros w Hw. eapply window_ok_mono; eauto.
Qed.

Lemma window_push_path t k h n :
  t !! h = Some n -> n_height n <> 0 -> (0 < k)%nat ->
  window_push (rev (path t k (n_prev n))) k (node_info n) = rev (path t k h).
Proof.
  intros Hn Hz Hk. unfold window_push. destruct k as [|k]; [lia|].
  assert (E : path t (Datatypes.S k) h = node_info n :: path t k (n_prev n)).
  { cbn [path]. by rewrite Hn, (proj2 (Z.eqb_neq _ _) Hz). }
  rewrite E, (path_take t k). cbn [rev]. clear E.
  pose proof (length_path t (Datatypes.S k) (n_prev n)) as Hl. rewrite length_app, length_rev. cbn [length].
  set (l := path t (Datatypes.S k) (n_prev n)) in *. rewrite drop_app_le by (rewrite length_rev; lia). f_equal.
  rewrite skipn_rev. f_equal. destruct (decide (length l = Datatypes.S k)) as [E|E].
  - f_equal. lia.
  - by rewrite !take_ge by lia.
Qed.
(** *** Recording a new header *)
Definition header_writes (batch : WriteBatch) (header : BlockHeader) (hash : Hash256) (e : HeaderEntry)
    : WriteBatch :=
  let batch := put_header batch hash e in
  if store_block_headers options then batch_put batch BlockHeaderCol hash (header_consensus_encode header)
  else batch.

Lemma header_writes_last batch header hash e h :
  last_write (header_writes batch header hash e) HeaderIndex h
  = if bool_decide (hash = h) then Some (Some (encode_header_entry e)) else last_write batch HeaderIndex h.
Proof.
  unfold header_writes, put_header.
  destruct (store_block_headers options); rewrite ?last_write_put; repeat case_bool_decide; simplify_eq; done.
Qed.
Lemma header_writes_meta batch header hash e k :
  last_write (header_writes batch header hash e) Meta k = last_write batch Meta k.
Proof.
  unfold header_writes, put_header.
  destruct (store_block_headers options); rewrite ?last_write_put; repeat case_bool_decide; simplify_eq; done.
Qed.

Lemma header_writes_puts batch header hash e h v :
  Put HeaderIndex h v ∈ header_writes batch header hash e ->
  Put HeaderIndex h v ∈ batch \/ h = hash /\ v = encode_header_entry e.
Proof.
  unfold header_writes, put_header, batch_put. destruct (store_block_headers options);
    rewrite ?elem_of_app, ?list_elem_of_singleton; naive_solver.
Qed.
Definition better_best (best : option (Hash256 * Z)) (work : Z) : bool :=
  match best with Some (_, best_work) => work >? best_work | None => true end.
Definition advanced (s : HeaderState) (header : BlockHeader) (hash : Hash256) (e : HeaderEntry)
    : option DifficultyWindow :=
  if pon_active params (he_height e) then None
  else advance_window (hs_difficulty_window s) hash (prev_block header) (he_height e) (time header) (bits header).

Lemma record_header_eq header hash e s :
  record_header params options header hash e s
  = (Ok tt,
     let batch := header_writes (hs_batch s) header hash e in
     let better := better_best (hs_best s) (chainwork_value e) in
     mkHeaderState (cache_insert (hs_cache s) hash e)
       (if better then set_best_header batch hash else batch)
       (<[hash := e]> (hs_pending s))
       (if better then Some (hash, chainwork_value e) else hs_best s)
       (advanced s header hash e) (hs_mtp_window s)).
Proof.
  unfold record_header, write_entry, write_header_bytes, remember, cache_entry, update_best, modify, gets,
    mbind, chain_bind, mret, chain_ret, header_writes, better_best, advanced, pon_active.
  destruct (store_block_headers options), (hs_best s) as [[? w]|] eqn:E; simpl; rewrite ?E;
    try destruct (_ >? w); try done; unfold set_windows; simpl; by rewrite ?E.
Qed.

Lemma best_max_insert known best hash e :
  known !! hash = None -> best_max known best ->
  best_max (<[hash := e]> known)
    (if better_best best (chainwork_value e) then Some (hash, chainwork_value e) else best).
Proof.
  intros Hn Hb. destruct best as [[h w]|]; cbn [better_best best_max] in *.
  - destruct Hb as [(e0&He0&<-) Hmax]. rewrite Z.gtb_ltb.
    destruct (Z.ltb_spec (chainwork_value e0) (chainwork_value e)); cbn [best_max].
    + split; [exists e; by rewrite lookup_insert_eq|].
      intros h' e' [[<- <-]|[_ He']]%lookup_insert_Some; [lia|]. specialize (Hmax h' e' He'). lia.
    + split; [exists e0; split; [|done]; rewrite lookup_insert_ne by congruence; done|].
      intros h' e' [[<- <-]|[_ He']]%lookup_insert_Some; [lia|by eapply Hmax].
  - subst known. split; [exists e; by rewrite lookup_insert_eq|].
    intros h' e' [[<- <-]|[_ He']]%lookup_insert_Some; [lia|]. by rewrite lookup_empty in He'.
Qed.

Lemma record_header_ok t m best0 header hash e s :
  tree_ok params t -> batch_ok t m best0 s -> entry_ok t hash e ->
  hs_pending s !! hash = None -> m !! hash = None ->
  (he_height e = 0 \/ is_Some ((hs_pending s ∪ m) !! he_prev_hash e)) ->
  (he_height e = 0 -> he_prev_hash e = zeros 32) ->
  he_prev_hash e = prev_block header -> he_time e = time header -> he_bits e = bits header ->
  exists s', record_header params options header hash e s = (Ok tt, s') /\ batch_ok t m best0 s'
             /\ hs_pending s' = <[hash := e]> (hs_pending s).
Proof.
  intros Ht [Hc Hp Hcl Hw Hputs Hbw Hb Hwin] He Hn Hmn Hprev Hroot Ep Et Eb. rewrite record_header_eq. cbv zeta.
  eexists. split; [reflexivity|]. split; [|done].
  assert (Hu : <[hash := e]> (hs_pending s) ∪ m = <[hash := e]> (hs_pending s ∪ m)) by by rewrite insert_union_l.
  constructor; cbn [hs_cache hs_pending hs_batch hs_best hs_difficulty_window]; rewrite ?Hu.
  - intros h' e' Hl. pose proof (lookup_weaken _ _ _ _ Hl (cache_insert_subseteq _ _ _)) as Hi.
    apply lookup_insert_Some in Hi as [[<- <-]|[_ Hi]]; [done|by apply Hc].
  - by apply map_Forall_insert_2.
  - intros h' e' [[<- <-]|[_ Hl]]%lookup_insert_Some.
    + destruct Hprev as [?|[p Hl]]; [by left|right]. destruct (decide (hash = he_prev_hash e)) as [->|].
      * rewrite lookup_insert_eq. eauto.
      * rewrite lookup_insert_ne by done. eauto.
    + destruct (Hcl h' e' Hl) as [?|[p Hl']]; [by left|right]. destruct (decide (hash = he_prev_hash e')) as [<-|].
      * rewrite lookup_insert_eq. eauto.
      * rewrite lookup_insert_ne by done. eauto.
  - intros h. assert (Hh : last_write (header_writes (hs_batch s) header hash e) HeaderIndex h
      = option_map (fun e => Some (encode_header_entry e)) (<[hash := e]> (hs_pending s) !! h)).
    { rewrite header_writes_last. case_bool_decide as Ed; [by rewrite <- Ed, lookup_insert_eq|].
      by rewrite lookup_insert_ne, Hw. }
    destruct (better_best _ _); [|done]. unfold set_best_header. rewrite last_write_put.
    by rewrite bool_decide_false.
  - intros h v Hin. assert (Put HeaderIndex h v ∈ header_writes (hs_batch s) header hash e) as Hin'.
    { destruct (better_best _ _); [|done]. unfold set_best_header, batch_put in Hin.
      apply elem_of_app in Hin as [?|Hin%list_elem_of_singleton]; [done|congruence]. }
    apply header_writes_puts in Hin' as [Hin'|[-> ->]]; [|exists e; by rewrite lookup_insert_eq].
    destruct (Hputs h v Hin') as (e'&He'&->). exists e'. rewrite lookup_insert_ne by congruence. done.
  - destruct (better_best _ _).
    + unfold set_best_header. rewrite last_write_put, bool_decide_true by done. eauto.
    + rewrite header_writes_meta. done.
  - apply best_max_insert; [|done]. by apply lookup_union_None.
  - intros w. unfold advanced. destruct (pon_active params (he_height e)); [done|]. unfold advance_window.
    destruct (hs_difficulty_window s) as [w0|] eqn:Ew; [|done]. case_bool_decide as Etip; [|done].
    intros [= <-]. destruct (Hwin w0 eq_refl) as (Hlen&Hpos&[tip Htip]&Hpath). destruct He as (Hnode&_).
    assert (Hz : he_height e <> 0).
    { intros Hz. destruct (Ht _ _ Htip) as ((Hnz&_)&_). apply Hnz. rewrite Etip, <- Ep. by apply Hroot. }
    unfold window_ok, window_advance. cbn [dw_len dw_window dw_tip_hash]. rewrite Hlen.
    split; [done|]. split; [done|]. split; [eauto|].
    rewrite Hpath, Etip, <- Ep, <- Et, <- Eb.
    exact (window_push_path t _ hash (node_of e) Hnode Hz Hpos).
Qed.
End batch.

(** ** One header *)
Section step.
  Context {H : Hashes} {HL : HashesLaws H} {B : Blake2b} {U : U256Ops} {UL : U256Laws U} {S256 : Secp}.
  Context {S : Type} {KV : KeyValueStore S}.
  Context (store : S) (params : ConsensusParams) (options : ChainStateOptions).
  Context (t : Tree) (m : gmap Hash256 HeaderEntry) (best0 : option (Hash256 * Z)).
  Hypothesis Ht : tree_ok params t.
  Hypothesis Hstore : forall h, get_header store h = Ok (m !! h).
  Hypothesis Hm : entries_ok t m.
  Hypothesis Hclosed : closed m.

Lemma batch_pending_ok s : batch_ok params t m best0 s -> pending_ok t m s.
Proof. by intros []. Qed.

(** A stored header's work is what its parent explains: nothing to correct. *)
Lemma corrected_work_none header s e :
  batch_ok params t m best0 s -> header_wf true header -> m !! header_hash header = Some e ->
  corrected_work store params header (header_hash header) e s = (Ok None, s) \/ hash_broken.
Proof.
  intros Hb Hwf He. unfold corrected_work.
  destruct (is_pon header && negb (is_genesis params header (header_hash header))) eqn:Hc; [|by left].
  apply andb_true_iff in Hc as [Hpon Hng%negb_true_iff]. destruct (Hm _ _ He) as (Hn&Hewf&_).
  destruct (Ht _ _ Hn) as ((_&h0&W0&E0&P0&_&_&Hp0)&Hh&Hw&Hr). cbn [node_of n_prev n_height n_work n_bits] in *.
  destruct (header_hash_inj h0 header W0 Hwf E0) as [Hs|]; [|by right; left].
  injection Hs as Hv Hpp _ _ _ _ _ _ _. assert (is_pon h0 = is_pon header) as Hpe by (unfold is_pon; by rewrite Hv).
  unfold root_ok, child_ok in Hr. cbn [node_of n_prev n_height n_work n_bits] in Hr.
  destruct Hr as [(Hz&Hg&_)|(_&p&Hp&Hhp&Hwp)].
  { unfold is_genesis in Hng. by rewrite Hg, <- Hpp, P0, Hz, !bool_decide_true in Hng. }
  left. unfold node_work in Hwp. rewrite <- Hp0, Hpe, Hpon in Hwp. rewrite Hpp in P0.
  assert (Hpar : exists pe, (match hs_pending s !! prev_block header with Some pe => Some pe | None => m !! prev_block header end) = Some pe
                 /\ entry_ok t (prev_block header) pe).
  { destruct (hs_pending s !! prev_block header) as [pe|] eqn:Epe.
    - exists pe. split; [done|]. by apply (bo_pending _ _ _ _ _ Hb).
    - destruct (Hclosed _ _ He) as [Hz|[pe Hpe']].
      + assert (0 <= n_height p) by (destruct (Ht _ _ Hp) as (_&?&_); lia). lia.
      + rewrite <- P0 in Hpe'. exists pe. split; [done|by apply Hm]. }
  destruct Hpar as (pe&Hpl&(Hpn&_)). rewrite P0, Hp in Hpn. injection Hpn as ->.
  cbn [node_of n_work n_height] in *. unfold gets, mbind, chain_bind.
  assert (Hadd : add_work (chainwork_value pe) (2 ^ 40) = Ok (chainwork_value e)).
  { unfold add_work. destruct (Ht _ _ Hp) as (_&_&Hu&_). cbn [node_of n_work] in Hu.
    rewrite u256_add_spec by done. rewrite Hwp in Hw. unfold is_u256, u256_max in *.
    replace (_ <=? _) with true by (symmetry; apply Z.leb_le; lia). cbn [or_panic]. by rewrite Hwp. }
  destruct (hs_pending s !! prev_block header) as [pe'|].
  - injection Hpl as ->. unfold mret, chain_ret, run. rewrite Hadd. by rewrite Z.eqb_refl.
  - unfold try_ok, from_store, run. rewrite Hstore, Hpl. cbn [map_err]. unfold mret, chain_ret. rewrite Hadd.
    by rewrite Z.eqb_refl.
Qed.

(** Inserting a header that is stored already changes nothing but the batch's
    copy of its bytes. *)
Lemma reinsert_ok header s e :
  batch_ok params t m best0 s -> header_wf true header ->
  m !! header_hash header = Some e -> hs_pending s !! header_hash header = None ->
  (exists s', reinsert_header store params options header (header_hash header) e s = (Ok e, s')
              /\ batch_ok params t m best0 s' /\ hs_pending s' = hs_pending s)
  \/ hash_broken.
Proof.
  intros Hb Hwf He Hn. unfold reinsert_header.
  set (s1 := if store_block_headers options
             then set_batch (batch_put (hs_batch s) BlockHeaderCol (header_hash header) (header_consensus_encode header)) s
             else s).
  assert (Hb1 : batch_ok params t m best0 s1).
  { unfold s1. destruct (store_block_headers options); [|done]. destruct Hb. constructor; try done.
    - intros h. cbn [hs_batch set_batch]. by rewrite last_write_put, bool_decide_false.
    - intros h v. cbn [hs_batch set_batch]. unfold batch_put. intros [?|Hin%list_elem_of_singleton]%elem_of_app; [|done]. auto.
    - cbn [hs_batch set_batch]. by rewrite last_write_put, bool_decide_false. }
  assert (E1 : write_header_bytes options header (header_hash header) s = (Ok tt, s1)).
  { unfold write_header_bytes, modify, s1. by destruct (store_block_headers options). }
  destruct (corrected_work_none header s1 e Hb1 Hwf He) as [E2|]; [left|by right].
  exists s1. assert (E3 : update_best (header_hash header) (chainwork_value e) s1 = (Ok tt, s1)).
  { unfold update_best, gets, mbind, chain_bind. pose proof (bo_best _ _ _ _ _ Hb1) as Hbm.
    assert (Hk : (hs_pending s1 ∪ m) !! header_hash header = Some e).
    { replace (hs_pending s1) with (hs_pending s) by (unfold s1; by destruct (store_block_headers options)).
      by rewrite lookup_union_r. }
    unfold best_max in Hbm. destruct (hs_best s1) as [[h w]|].
    - destruct Hbm as [_ Hmax]. specialize (Hmax _ _ Hk). rewrite Z.gtb_ltb.
      by rewrite (proj2 (Z.ltb_ge _ _) Hmax).
    - by rewrite Hbm, lookup_empty in Hk. }
  unfold mbind, chain_bind. rewrite E1, E2, E3. split; [done|]. split; [done|].
  unfold s1. by destruct (store_block_headers options).
Qed.

(** What a call leaves behind: the invariant, for a tree that has grown by at
    most the new header; and after a success the header is known. *)
Definition inserted (header : BlockHeader) (r : result ChainStateError HeaderEntry) (s' : HeaderState) : Prop :=
  match r with
  | Ok e => he_height e < 2 ^ 31 - 1 ->
      exists t', t ⊆ t' /\ tree_ok params t' /\ batch_ok params t' m best0 s'
                 /\ (hs_pending s' ∪ m) !! header_hash header = Some e
  | _ => batch_ok params t m best0 s'
  end.

Lemma insert_header_step now header cp s r s' :
  batch_ok params t m best0 s -> header_wf true header ->
  insert_header_with_pending store params options now header cp s = (r, s') ->
  inserted header r s' \/ hash_broken.
Proof.
  intros Hb Hwf. unfold insert_header_with_pending, gets, mbind at 1, chain_bind at 1. cbv beta iota zeta.
  destruct (hs_pending s !! header_hash header) as [e|] eqn:Hp.
  { intros [= <- <-]. left. intros _. exists t. split_and!; try done. by apply lookup_union_Some_l. }
  unfold from_store, run at 1, mbind at 1, chain_bind at 1. rewrite Hstore. cbn [map_err].
  destruct (m !! header_hash header) as [e|] eqn:He.
  { intros E. destruct (reinsert_ok header s e Hb Hwf He Hp) as [(s2&E2&Hb2&Hp2)|]; [left|by right].
    rewrite E2 in E. injection E as <- <-. intros _. exists t. split_and!; try done.
    rewrite Hp2. by rewrite lookup_union_r. }
  destruct (decide (header_hash header = zeros 32)) as [Hz|Hnz].
  { intros _. right. right. exists (header_consensus_encode_for_hash header). exact Hz. }
  unfold insert_new_header, mbind, chain_bind.
  destruct (check_new_header_spec store params t m Ht Hstore Hm Hclosed now header (header_hash header) cp s
              (bo_cache _ _ _ _ _ Hb) (batch_pending_ok _ Hb) Hwf) as (rc&c&Ec&Hc&Hq).
  rewrite Ec. destruct rc as [e|err|].
  2,3: intros [= <- <-]; left; by apply batch_ok_cache.
  specialize (Hq e eq_refl).
  destruct (decide (he_height e < 2 ^ 31 - 1)) as [Hh|Hh].
  2: { rewrite record_header_eq. intros [= <- <-]. left. intros Hh'. by destruct Hh. }
  destruct (checked_entry params t m s header e Ht Hm (bo_pending _ _ _ _ _ Hb) Hwf Hq Hh Hnz)
    as (Hnode&Hewf&Hprev&Hskip).
  assert (Ht' : (exists t', t ⊆ t' /\ tree_ok params t' /\ t' !! header_hash header = Some (node_of e)) \/ hash_broken).
  { destruct (t !! header_hash header) as [n|] eqn:Hn.
    - destruct (node_unique params t _ _ _ Hnode (Ht _ _ Hn)) as [->|]; [left|by right; left]. by exists t.
    - left. exists (<[header_hash header := node_of e]> t). split_and!; [by apply insert_subseteq| |by rewrite lookup_insert_eq].
      by apply tree_ok_insert. }
  destruct Ht' as [(t'&Hsub&Hok'&Hl)|]; [|by right].
  assert (Hb' : batch_ok params t' m best0 (set_cache c s)).
  { apply batch_ok_cache; [by apply (batch_ok_mono params t)|]. by apply (entries_ok_mono t). }
  assert (Hroot : he_height e = 0 -> he_prev_hash e = zeros 32).
  { intros Hz0. destruct Hnode as (_&_&_&[(?&_)|(_&p&Hp0&Hhp&_)]); [done|]. cbn [node_of n_height] in Hhp.
    destruct (Ht _ _ Hp0) as (_&?&_). lia. }
  destruct (record_header_ok params options t' m best0 header (header_hash header) e (set_cache c s))
    as (s2&E2&Hb2&Hp2); try done; try (destruct Hq as (?&?&?&_&_&_&_&_&->); done).
  { split_and!; [done|done|]. by apply Hskip. }
  rewrite E2. intros [= <- <-]. left. intros _. exists t'. split_and!; try done.
  rewrite Hp2. rewrite <- insert_union_l. by rewrite lookup_insert_eq.
Qed.
End step.

(** ** Histories *)
Section history.
  Context {H : Hashes} {HL : HashesLaws H} {B : Blake2b} {U : U256Ops} {UL : U256Laws U} {S256 : Secp}.
  Context {S : Type} {KV : KeyValueStore S} {KL : KeyValueStoreLaws S}.
  Context (params : ConsensusParams) (options : ChainStateOptions).

Definition idle (cache : HeaderCache) (best : option (Hash256 * Z)) : HeaderState :=
  mkHeaderState cache [] ∅ best None None.

(** An entry again, with another status at most. *)
Definition same_header (e e' : HeaderEntry) : Prop :=
  HeaderEntry_wf e' /\ he_prev_hash e' = he_prev_hash e /\ he_skip_hash e' = he_skip_hash e
  /\ he_height e' = he_height e /\ he_time e' = he_time e /\ he_bits e' = he_bits e
  /\ he_chainwork e' = he_chainwork e.
(** Operations that come after those of a batch of headers, the rest of a
    connected block: they can write any column, but of the headers only
    statuses. *)
Definition restating (store : S) (s : HeaderState) (op : WriteOp) : Prop :=
  match op with
  | Put HeaderIndex h v =>
      exists e e', (hs_pending s !! h = Some e \/ hs_pending s !! h = None /\ get_header store h = Ok (Some e))
        /\ same_header e e' /\ v = encode_header_entry e'
  | Storage.Delete HeaderIndex _ => False
  | Put Meta k _ | Storage.Delete Meta k => k <> META_BEST_HEADER_KEY
  | _ => True
  end.
Definition restates (store : S) (s : HeaderState) (extra : WriteBatch) : Prop := Forall (restating store s) extra.
Lemma restates_last store s extra :
  restates store s extra ->
  last_write extra Meta META_BEST_HEADER_KEY = None
  /\ forall h : Hash256,
       match last_write extra HeaderIndex h with
       | None => True
       | Some None => False
       | Some (Some v) => restating store s (Put HeaderIndex h v)
       end.
Proof.
  intros Hr. unfold restates in Hr. rewrite Forall_forall in Hr. split.
  - destruct (last_write extra Meta META_BEST_HEADER_KEY) as [r|] eqn:E; [|done].
    apply last_write_elem in E. destruct r; by destruct (Hr _ E).
  - intros h. destruct (last_write extra HeaderIndex h) as [r|] eqn:E; [|done].
    apply last_write_elem in E. destruct r; exact (Hr _ E).
Qed.

(** What can happen to a node's headers, from an empty database on: a batch
    begins (an unfinished one is dropped), a header is inserted or refused,
    the batch is written, with what else a block brings or on its own,
    something else is written, the cache drops entries or takes those of
    stored headers, as a lookup does, the node restarts with an empty cache.
    No chain is longer than 2^31 - 1. *)
Definition stored_like (store : S) (h : Hash256) (e : HeaderEntry) : Prop :=
  exists e0, get_header store h = Ok (Some e0) /\ (e = e0 \/ same_header e0 e).
Inductive header_history : S -> HeaderState -> Prop :=
| history_start store capacity :
    (forall c k, kv_get store c k = Ok None) ->
    header_history store (idle (header_cache_new capacity) None)
| history_begin store s headers s' :
    header_history store s -> begin_batch store params headers (set_batch [] s) = (Ok tt, s') ->
    header_history store s'
| history_insert store s now header check_pow r s' :
    header_history store s -> header_wf true header ->
    insert_header_with_pending store params options now header check_pow s = (r, s') ->
    (forall e, r = Ok e -> he_height e < 2 ^ 31 - 1) -> header_history store s'
| history_commit store s extra store' :
    header_history store s -> restates store s extra -> kv_write_batch store (hs_batch s ++ extra) = Ok store' ->
    header_history store' (idle (hs_cache s) (hs_best s))
| history_elsewhere store s store' :
    header_history store s -> (forall h, get_header store' h = get_header store h) ->
    kv_get store' Meta META_BEST_HEADER_KEY = kv_get store Meta META_BEST_HEADER_KEY -> header_history store' s
| history_cache store s c :
    header_history store s ->
    (forall h e, hc_entries c !! h = Some e -> hc_entries (hs_cache s) !! h = Some e \/ stored_like store h e) ->
    header_history store (set_cache c s)
| history_restart store s capacity best :
    header_history store s -> stored_best store = Ok best ->
    header_history store (idle (header_cache_new capacity) best).

(** The invariant. *)
Definition best_stored (store : S) (m : gmap Hash256 HeaderEntry) (best : option (Hash256 * Z)) : Prop :=
  kv_get store Meta META_BEST_HEADER_KEY = Ok (option_map fst best) /\ best_max m best.
Definition chain_ok (t : Tree) (m : gmap Hash256 HeaderEntry) (store : S) (s : HeaderState) : Prop :=
  tree_ok params t /\ (forall h, get_header store h = Ok (m !! h)) /\ entries_ok t m /\ closed m
  /\ exists best0, best_stored store m best0 /\ batch_ok params t m best0 s.

Lemma best_header_stored t m store best :
  tree_ok params t -> (forall h, get_header store h = Ok (m !! h)) -> entries_ok t m -> best_stored store m best ->
  best_header store
  = Ok (match best with
        | Some (h, _) => option_map (fun e => mkChainTip h (he_height e) (he_chainwork e)) (m !! h)
        | None => None
        end).
Proof.
  intros Ht Hs Hm [Hk Hb]. unfold best_header, tip_at. rewrite Hk. destruct best as [[h w]|]; [|done].
  cbn [option_map fst mbind result_bind]. destruct Hb as [(e&He&_) _]. destruct (Hm _ _ He) as (Hn&_).
  destruct (tree_key params t h _ Ht Hn) as [Hl _]. rewrite decode_hash_ok by done.
  cbn [map_err mbind result_bind]. rewrite Hs, He. done.
Qed.

Lemma stored_best_eq t m store best :
  tree_ok params t -> (forall h, get_header store h = Ok (m !! h)) -> entries_ok t m -> best_stored store m best ->
  stored_best store = Ok best.
Proof.
  intros Ht Hs Hm Hb. unfold stored_best. rewrite (best_header_stored t m store best) by done.
  destruct best as [[h w]|]; [|done]. destruct Hb as [_ [(e&He&Hw) _]]. rewrite He.
  cbn [option_map map_err mbind result_bind tip_hash tip_chainwork]. by rewrite <- Hw.
Qed.

Lemma idle_ok t m store cache best :
  cache_ok t cache -> closed m -> best_stored store m best ->
  batch_ok params t m best (idle cache best).
Proof.
  intros Hc Hcl [_ Hb]. constructor; cbn [hs_cache hs_pending hs_batch hs_best hs_difficulty_window idle];
    rewrite ?(left_id_L ∅ (∪)); try done. by intros h v Hin%not_elem_of_nil.
Qed.

Lemma bootstrap_ok t m store prev s :
  tree_ok params t -> (forall h, get_header store h = Ok (m !! h)) -> entries_ok t m -> closed m ->
  cache_ok t (hs_cache s) -> hs_pending s = ∅ ->
  quiet t (difficulty_bootstrap store params false prev) s (fun r =>
    exists o, r = Ok o /\ forall w, o = Some w -> window_ok t (difficulty_window_len params) w).
Proof.
  intros Ht Hs Hm Hcl Hc Hp. unfold difficulty_bootstrap. cbv zeta.
  destruct (Nat.eqb_spec (difficulty_window_len params) 0); [apply quiet_ret; [done|]; by exists None|].
  eapply (quiet_bind _ _ _ _ (fun r => exists o, r = Ok o /\ forall l, o = Some l -> l = rev (path t (difficulty_window_len params) prev))).
  - apply quiet_try. eapply quiet_conseq.
    { eapply collect_headers_spec; [exact Hs|exact Hm|exact Hcl|exact Hc| |].
      - rewrite Hp. by intros h e Hl%lookup_empty_Some.
      - by rewrite Hp, (left_id_L ∅ (∪)). }
    intros [l|e|] (Hnp&Hl&_); [|by exists None|done]. exists (Some l). split; [done|]. intros l' [= <-]. by apply Hl.
  - intros o c (o'&[= <-]&Ho) Hc'. apply quiet_ret; [done|]. eexists. split; [reflexivity|].
    destruct o as [[|info rest]|]; [done| |done]. intros w [= <-]. specialize (Ho _ eq_refl).
    unfold window_ok. cbn [dw_len dw_tip_hash dw_window]. split; [done|]. split; [lia|]. split; [|done].
    destruct (difficulty_window_len params) as [|k]; [done|]. cbn [path] in Ho. by destruct (t !! prev).
  - by intros e (?&?&_).
  - by intros (?&?&_).
Qed.

Lemma begin_batch_ok t m store s headers s' :
  chain_ok t m store s -> begin_batch store params headers (set_batch [] s) = (Ok tt, s') ->
  chain_ok t m store s'.
Proof.
  intros (Ht&Hs&Hm&Hcl&best0&Hb0&Hb) E. split_and!; [done..|]. exists best0. split; [done|].
  unfold begin_batch, run, mbind, chain_bind, modify in E. rewrite (stored_best_eq t m store best0) in E by done.
  assert (Hidle : forall c, cache_ok t c -> batch_ok params t m best0 (idle c best0)).
  { intros c Hc. by eapply idle_ok. }
  pose proof (bo_cache _ _ _ _ _ Hb) as Hc. destruct headers as [|header headers].
  { injection E as <-. by apply Hidle. }
  cbv beta iota in E.
  match type of E with context [difficulty_bootstrap store params false (prev_block header) ?s0] =>
    destruct (bootstrap_ok t m store (prev_block header) s0 Ht Hs Hm Hcl Hc eq_refl) as (r&c&Er&Hc'&o&->&Ho) end.
  rewrite Er in E. injection E as <-. destruct (Hidle c Hc') as [].
  by constructor.
Qed.

(** The entries after a batch and what came with it. *)
Definition restated (m m' : gmap Hash256 HeaderEntry) : Prop :=
  forall h : Hash256, option_Forall2 same_header (m !! h) (m' !! h).
Definition restate (extra : WriteBatch) (h : Hash256) (e : HeaderEntry) : HeaderEntry :=
  match last_write extra HeaderIndex h with
  | Some (Some v) => match decode_header_entry v with Ok e' => e' | _ => e end
  | _ => e
  end.
Lemma same_header_refl e : HeaderEntry_wf e -> same_header e e.
Proof. unfold same_header. auto 10. Qed.
Lemma same_header_node e e' : same_header e e' -> node_of e' = node_of e.
Proof. intros (_&H1&_&H2&H3&H4&H5). unfold node_of, chainwork_value. congruence. Qed.
Lemma same_header_ok t (h : Hash256) e e' : same_header e e' -> entry_ok t h e -> entry_ok t h e'.
Proof.
  intros Hs (Hn&_&Hk). pose proof (same_header_node _ _ Hs) as En. destruct Hs as (Hwf&_&E1&E2&_).
  split_and!; [by rewrite En|done|]. unfold skip_ok. by rewrite E1, E2.
Qed.
Lemma restate_lookup (m : gmap Hash256 HeaderEntry) extra (h : Hash256) :
  map_imap (fun h e => Some (restate extra h e)) m !! h = restate extra h <$> m !! h.
Proof. rewrite map_lookup_imap. by destruct (m !! h). Qed.

Lemma restate_ok t m store s extra :
  (forall h, get_header store h = Ok (m !! h)) -> entries_ok t (hs_pending s ∪ m) -> restates store s extra ->
  restated (hs_pending s ∪ m) (map_imap (fun h e => Some (restate extra h e)) (hs_pending s ∪ m)).
Proof.
  intros Hs Hm [_ Hr]%restates_last h. rewrite restate_lookup. specialize (Hr h).
  destruct ((hs_pending s ∪ m) !! h) as [e|] eqn:Ee; [|constructor]. constructor.
  destruct (Hm _ _ Ee) as (_&Hwf&_). unfold restate.
  destruct (last_write extra HeaderIndex h) as [[v|]|]; [|by apply same_header_refl..].
  destruct Hr as (e1&e'&He1&Hsame&->). rewrite decode_header_entry_encode by apply Hsame.
  assert (e1 = e) as ->; [|done]. destruct He1 as [He1|[He1 Hg]].
  - rewrite (lookup_union_Some_l _ _ _ _ He1) in Ee. congruence.
  - rewrite lookup_union_r in Ee by done. rewrite Hs in Hg. congruence.
Qed.
Lemma restate_unwritten extra (h : Hash256) e : last_write extra HeaderIndex h = None -> restate extra h e = e.
Proof. unfold restate. by intros ->. Qed.

Lemma restated_entries t m m' : restated m m' -> entries_ok t m -> entries_ok t m'.
Proof.
  intros Hr Hm h e' He'. specialize (Hr h). rewrite He' in Hr. inversion Hr as [e e1 Hsame E1 E2|]; subst.
  eapply same_header_ok; [exact Hsame|]. by apply Hm.
Qed.
Lemma restated_closed m m' : restated m m' -> closed m -> closed m'.
Proof.
  intros Hr Hc h e' He'. pose proof (Hr h) as Hh. rewrite He' in Hh. inversion Hh as [e e1 Hsame E1 E2|]; subst.
  destruct Hsame as (_&Ep&_&Eh&_). rewrite Ep, Eh. destruct (Hc h e) as [?|[p Hp]]; [done|by left|right].
  specialize (Hr (he_prev_hash e)). rewrite Hp in Hr. inversion Hr; subst. by eexists.
Qed.
Lemma restated_best m m' best : restated m m' -> best_max m best -> best_max m' best.
Proof.
  intros Hr Hb. destruct best as [[h w]|].
  - destruct Hb as [(e&He&Hw) Hmax]. split.
    + pose proof (Hr h) as Hh. rewrite He in Hh. inversion Hh as [e1 e' Hsame E1 E2|]; subst. exists e'. split; [done|].
      destruct Hsame as (_&_&_&_&_&_&Ec). unfold chainwork_value. by rewrite Ec.
    + intros h' e' He'. pose proof (Hr h') as Hh. rewrite He' in Hh. inversion Hh as [e1 e2 Hsame E1 E2|]; subst.
      destruct Hsame as (_&_&_&_&_&_&Ec). unfold chainwork_value. rewrite Ec. by apply (Hmax h').
  - cbn [best_max] in *. subst m. apply map_eq. intros h. specialize (Hr h). rewrite lookup_empty in *. by inversion Hr.
Qed.

Lemma commit_ok t m store s extra store' :
  chain_ok t m store s -> restates store s extra -> kv_write_batch store (hs_batch s ++ extra) = Ok store' ->
  exists m', chain_ok t m' store' (idle (hs_cache s) (hs_best s)) /\ restated (hs_pending s ∪ m) m'
    /\ forall h : Hash256, last_write extra HeaderIndex h = None -> m' !! h = (hs_pending s ∪ m) !! h.
Proof.
  intros (Ht&Hs&Hm&Hcl&best0&[Hk0 Hm0]&Hb) Hx E. pose proof Hb as [Hc Hp Hcl' Hw _ Hbw Hbest _].
  destruct (kv_commit store (hs_batch s ++ extra)) as (s2&E2&Hget). rewrite E in E2. injection E2 as <-.
  assert (Hm' : entries_ok t (hs_pending s ∪ m)).
  { intros h e [Hl|[_ Hl]]%lookup_union_Some_raw; [by apply Hp|by apply Hm]. }
  pose proof (restate_ok t m store s extra Hs Hm' Hx) as Hr. apply restates_last in Hx. set (m' := map_imap _ _) in Hr.
  assert (Hun : forall h : Hash256, last_write extra HeaderIndex h = None -> m' !! h = (hs_pending s ∪ m) !! h).
  { intros h Hl. unfold m'. rewrite restate_lookup. destruct ((hs_pending s ∪ m) !! h) as [e|]; [|done].
    cbn [fmap option_fmap option_map]. by rewrite restate_unwritten. }
  exists m'. split; [|done].
  assert (Hget' : forall h, get_header store' h = Ok (m' !! h)).
  { intros h. unfold get_header. rewrite Hget, last_write_app. destruct Hx as [_ Hx]. specialize (Hx h).
    destruct (last_write extra HeaderIndex h) as [[v|]|] eqn:El; [|done|].
    - destruct Hx as (e1&e'&He1&Hsame&->). cbn [mbind result_bind]. rewrite decode_header_entry_encode by apply Hsame.
      unfold m'. rewrite restate_lookup. unfold restate. rewrite El, decode_header_entry_encode by apply Hsame.
      assert (is_Some ((hs_pending s ∪ m) !! h)) as [e ->]; [|done]. apply lookup_union_is_Some.
      destruct He1 as [->|[_ Hg]]; [left; by eexists|right]. rewrite Hs in Hg. injection Hg as ->. by eexists.
    - rewrite Hun by done. rewrite Hw. destruct (hs_pending s !! h) as [e|] eqn:He.
      + cbn [option_map mbind result_bind]. destruct (Hp _ _ He) as (_&Hwf&_).
        rewrite decode_header_entry_encode by done. by rewrite (lookup_union_Some_l _ _ _ _ He).
      + cbn [option_map]. rewrite lookup_union_r by done. rewrite <- Hs. done. }
  assert (Hb' : best_stored store' m' (hs_best s)).
  { split; [|by eapply restated_best]. rewrite Hget, last_write_app. destruct Hx as [-> _].
    destruct (last_write (hs_batch s) Meta META_BEST_HEADER_KEY) as [[h|]|]; [|done|].
    - by destruct Hbw as [w ->].
    - by rewrite Hbw. }
  pose proof (restated_closed _ _ Hr Hcl') as Hcl2. split_and!; [done|done|by eapply restated_entries|done|].
  exists (hs_best s). split; [done|]. by eapply idle_ok.
Qed.
Lemma restates_nothing store s : restates store s [].
Proof. constructor. Qed.

(** Stored entries in the cache. *)
Lemma refilled_ok t m store s c :
  chain_ok t m store s ->
  (forall h e, hc_entries c !! h = Some e -> hc_entries (hs_cache s) !! h = Some e \/ stored_like store h e) ->
  chain_ok t m store (set_cache c s).
Proof.
  intros (Ht&Hs&Hm&Hcl&best0&Hb0&Hb) Hc. split_and!; [done..|]. exists best0. split; [done|]. apply batch_ok_cache; [done|].
  intros h e He. destruct (Hc h e He) as [Hi|(e0&Hi&Hsame)]; [by apply (bo_cache _ _ _ _ _ Hb)|].
  rewrite Hs in Hi. injection Hi as Hi. destruct Hsame as [->|Hsame]; [by apply Hm|].
  eapply same_header_ok; [exact Hsame|]. by apply Hm.
Qed.
Lemma elsewhere_ok t m store store' s :
  chain_ok t m store s -> (forall h, get_header store' h = get_header store h) ->
  kv_get store' Meta META_BEST_HEADER_KEY = kv_get store Meta META_BEST_HEADER_KEY -> chain_ok t m store' s.
Proof.
  intros (Ht&Hs&Hm&Hcl&best0&[Hk Hmax]&Hb) Hg Hbest. split_and!; [done|intros h; by rewrite Hg|done|done|].
  exists best0. split; [|done]. split; [by rewrite Hbest|done].
Qed.

Lemma history_chain_ok store s :
  header_history store s -> (exists t m, chain_ok t m store s) \/ hash_broken.
Proof.
  induction 1 as [store cap Hempty|store s headers s' _ [IH|] E|store s now header cp r s' _ [IH|] Hwf E Hh
    |store s extra store' _ [IH|] Hx E|store s store' _ [IH|] Hg Hk|store s c _ [IH|] Hc|store s cap best _ [IH|] E]; try by right.
  - left. exists ∅, ∅. split_and!; try done.
    + intros h. unfold get_header. by rewrite Hempty.
    + exists None. split; [split; [by rewrite Hempty|done]|]. by eapply idle_ok.
  - left. destruct IH as (t&m&IH). exists t, m. by eapply begin_batch_ok.
  - destruct IH as (t&m&Ht&Hs&Hm&Hcl&best0&Hb0&Hb).
    destruct (insert_header_step store params options t m best0 Ht Hs Hm Hcl now header cp s r s' Hb Hwf E)
      as [Hi|]; [left|by right]. destruct r as [e|err|]; cbn [inserted] in Hi.
    + destruct (Hi (Hh e eq_refl)) as (t'&Hsub&Ht'&Hb'&_). exists t', m.
      split_and!; [done|done|by eapply entries_ok_mono|done|by exists best0].
    + exists t, m. split_and!; [done..|by exists best0].
    + exists t, m. split_and!; [done..|by exists best0].
  - left. destruct IH as (t&m&IH). destruct (commit_ok t m store s extra store' IH Hx E) as (m'&Hok&_). by exists t, m'.
  - left. destruct IH as (t&m&IH). exists t, m. by eapply elsewhere_ok.
  - left. destruct IH as (t&m&IH). exists t, m. by apply refilled_ok.
  - left. destruct IH as (t&m&Ht&Hs&Hm&Hcl&best0&Hb0&Hb). exists t, m. split_and!; [done..|].
    exists best0. split; [done|]. rewrite (stored_best_eq t m store best0) in E by done. injection E as <-.
    by eapply idle_ok.
Qed.

(** What the stored headers are, in terms of the store alone. *)
Definition genesis_entry (h : Hash256) (e : HeaderEntry) : Prop :=
  h = hash_genesis_block params /\ he_prev_hash e = zeros 32 /\ he_height e = 0
  /\ chainwork_value e = node_work params 0 (he_bits e).
Definition on_top_of (p e : HeaderEntry) : Prop :=
  he_height e = he_height p + 1
  /\ chainwork_value e = chainwork_value p + node_work params (he_height e) (he_bits e).

Lemma stored_entry_ok t m store s h e :
  chain_ok t m store s -> m !! h = Some e ->
  genesis_entry h e \/ exists p, m !! he_prev_hash e = Some p /\ on_top_of p e.
Proof.
  intros (Ht&Hs&Hm&Hcl&_) He. destruct (Hm _ _ He) as (Hn&_). destruct (Ht _ _ Hn) as (_&_&_&Hr).
  unfold root_ok, child_ok in Hr. cbn [node_of n_prev n_height n_bits n_work] in Hr.
  destruct Hr as [(?&?&?&?)|(_&p&Hp&Hh&Hw)]; [left; by split_and!|right].
  destruct (Hcl _ _ He) as [Hz|[pe Hpe]].
  - destruct (Ht _ _ Hp) as (_&?&_). lia.
  - exists pe. destruct (Hm _ _ Hpe) as (Hpn&_). rewrite Hp in Hpn. injection Hpn as ->. done.
Qed.


(** The parent [k] steps down, by the stored entries alone. *)
Fixpoint nth_parent (store : S) (k : nat) (h : Hash256) : result StoreError (option Hash256) :=
  match k with
  | O => Ok (Some h)
  | Datatypes.S k =>
      entry ← get_header store h;
      match entry with Some e => nth_parent store k (he_prev_hash e) | None => Ok None end
  end.

Lemma nth_parent_walk t m store s k h e a :
  chain_ok t m store s -> m !! h = Some e -> Z.of_nat k <= he_height e -> walk t k h = Some a ->
  nth_parent store k h = Ok (Some a).
Proof.
  intros (Ht&Hs&Hm&Hcl&_). revert h e; induction k as [|k IH]; intros h e He Hk; cbn [walk nth_parent].
  { by intros [= <-]. }
  destruct (Hm _ _ He) as (Hn&_). rewrite Hn, Hs, He. cbn [node_of n_prev mbind result_bind].
  destruct (Hcl _ _ He) as [?|[p Hp]]; [lia|]. apply (IH _ p Hp).
  destruct (child_parent params t h _ Ht Hn) as (q&Hq&Hqh); [simpl; lia|]. cbn [node_of n_prev n_height] in *.
  destruct (Hm _ _ Hp) as (Hpn&_). rewrite Hq in Hpn. injection Hpn as ->. cbn [node_of n_height] in Hqh. lia.
Qed.

(** The skip pointers are right.  After any history, jumping along skip
    pointers from a stored header finds, for every height at or below its
    own, exactly the block that following the parents one by one reaches, it
    always ends, and it changes nothing but the cache. *)
Theorem header_ancestor_exact (store : S) (s : HeaderState) (hash : Hash256) (e : HeaderEntry) (target : Z) :
  header_history store s -> get_header store hash = Ok (Some e) -> 0 <= target <= he_height e ->
  hash_broken \/
  exists a c, header_ancestor_hash store hash target s = (Ok (Some a), set_cache c s)
              /\ nth_parent store (Z.to_nat (he_height e - target)) hash = Ok (Some a).
Proof.
  intros Hh He Htg. destruct (history_chain_ok store s Hh) as [(t&m&Hok)|]; [right|by left].
  pose proof Hok as (Ht&Hs&Hm&Hcl&best0&_&Hb). rewrite Hs in He. injection He as He.
  edestruct (header_ancestor_spec store params t m Ht Hs Hm Hcl hash target s) as (r&c&E&_&o&->&Ho&Hfound);
    [apply Hb|].
  destruct (Hfound e He Htg) as [a ->]. destruct (Ho a eq_refl) as (n&Hn&_&Hw).
  destruct (Hm _ _ He) as (Hn'&_). rewrite Hn in Hn'. injection Hn' as ->. cbn [node_of n_height] in Hw.
  exists a, c. split; [done|]. eapply nth_parent_walk; [done..|lia|done].
Qed.

(** The sliding window changes no difficulty.  In every state an
    insertion can reach, the bits demanded of a header on a known parent are
    the same whether they are computed from the window that slid along with
    the batch or from the chain collected again. *)
Theorem difficulty_window_exact (store : S) (s : HeaderState) (prev_hash : Hash256) (height next_time : Z) :
  header_history store s ->
  is_Some (hs_pending s !! prev_hash) \/ get_header store prev_hash <> Ok None ->
  height <> 0 ->
  hash_broken \/
  exists r c1 c2, bits_after store params prev_hash height next_time s = (r, set_cache c1 s)
                  /\ expected_bits store params true prev_hash height next_time s = (r, set_cache c2 s).
Proof.
  intros Hh Hknown Hz. destruct (history_chain_ok store s Hh) as [(t&m&Hok)|]; [right|by left].
  pose proof Hok as (Ht&Hs&Hm&Hcl&best0&_&Hb). destruct Hb as [Hc Hp Hcl' _ _ _ _ Hwin].
  assert (Hk : is_Some ((hs_pending s ∪ m) !! prev_hash)).
  { rewrite lookup_union_is_Some. destruct Hknown as [?|Hg]; [by left|right]. rewrite Hs in Hg.
    destruct (m !! prev_hash); [eauto|done]. }
  assert (Hex : exists r c2, expected_bits store params true prev_hash height next_time s = (r, set_cache c2 s)).
  { destruct (quietly_expected_bits store params t m Hs Hm Hcl true prev_hash height next_time s Hc (conj Hp Hcl'))
      as (r&c&E&_). eauto. }
  destruct Hex as (r&c2&E2). exists r. unfold bits_after.
  destruct (network_upgrade_active height (upgrades params) Pon) eqn:Hpon; [by exists c2, c2|].
  unfold gets, mbind at 1, chain_bind at 1. destruct (hs_difficulty_window s) as [w|] eqn:Ew; [|by exists c2, c2].
  case_bool_decide as Etip; [|by exists c2, c2].
  destruct (Hwin w eq_refl) as (Hlen&_&_&Hpath). rewrite Etip in Hpath.
  unfold expected_bits in E2. rewrite (proj2 (Z.eqb_neq _ _) Hz), Hpon in E2.
  destruct (collect_headers_spec store t m Hs Hm Hcl true (difficulty_window_len params) prev_hash s Hc Hp Hcl')
    as (rc&c&Ec&_&_&_&Hr).
  specialize (Hr Hk). subst rc. unfold mbind, chain_bind in E2. rewrite Ec in E2.
  rewrite <- Hpath in E2. unfold next_work, run in E2 |- *. injection E2 as <- _.
  exists (hs_cache s), c. rewrite <- set_cache_eta. split; [done|].
  unfold expected_bits. rewrite (proj2 (Z.eqb_neq _ _) Hz), Hpon. unfold mbind, chain_bind. by rewrite Ec, <- Hpath.
Qed.

End history.

(** The batch operation is a history step after the other. *)
Lemma insert_headers_in_history `{Hashes} `{Blake2b} `{U256Ops} `{Secp} {S} `{KeyValueStore S} params options
    (store : S) s clock headers check_pow results s' :
  header_history params options store s -> Forall (header_wf true) headers ->
  insert_headers_batch_with_pow store params options clock headers check_pow (set_batch [] s) = (Ok results, s') ->
  Forall (fun x => he_height x.2 < 2 ^ 31 - 1) results -> header_history params options store s'.
Proof.
  intros Hh Hwf. unfold insert_headers_batch_with_pow, mbind at 1, chain_bind at 1.
  destruct (begin_batch store params headers (set_batch [] s)) as [[[]|e|] s1] eqn:Eb; [|done..].
  apply (history_begin params options store s headers s1) in Hh; [|done]. clear Eb s.
  revert s1 clock results Hh Hwf; induction headers as [|h hs IH]; intros s1 clock results Hh Hwf E Hb.
  { cbn [insert_loop] in E. unfold mret, chain_ret in E. by injection E as _ <-. }
  apply Forall_cons in Hwf as [Hw Hws]. cbn [insert_loop] in E. unfold mbind, chain_bind in E.
  destruct (insert_header_with_pending store params options (clock O) h check_pow s1) as [[e|e|] s2] eqn:Ei; [|done..].
  destruct (insert_loop store params options (fun i => clock (Datatypes.S i)) hs check_pow s2) as [[rest|e'|] s3] eqn:El; [|done..].
  unfold mret, chain_ret in E. injection E as <- <-. apply Forall_cons in Hb as [Hb1 Hb2].
  eapply IH; [|done|exact El|done]. eapply history_insert; [exact Hh|exact Hw|exact Ei|]. intros e0 [= <-]. exact Hb1.
Qed.

(** ** A sample history: a genesis block and one block on top, then a third
    header in a batch that is not yet written. *)
Definition sample_header (prev : Hash256) (seconds : Z) : BlockHeader :=
  mkBlockHeader 4 prev (zeros 32) (zeros 32) seconds (target_to_compact (pow_limit (consensus_params Mainnet)))
    (zeros 32) (zeros 100) OutPoint_null [].
Definition sample_genesis : BlockHeader := sample_header (zeros 32) 1500000000.
Definition sample_child : BlockHeader := sample_header (header_hash sample_genesis) 1500000120.
Definition sample_grandchild : BlockHeader := sample_header (header_hash sample_child) 1500000240.
Definition sample_params : ConsensusParams :=
  let p := consensus_params Mainnet in
  mkConsensusParams (network p) (header_hash sample_genesis) (genesis_time p) (coinbase_must_be_protected p)
    (subsidy_slow_start_interval p) (subsidy_halving_interval p) (majority_enforce_block_upgrade p)
    (majority_reject_block_outdated p) (majority_window p) (upgrades p) (Consensus.emergency p) []
    (pow_limit p) (pon_limit p) (pon_start_limit p) (pow_allow_min_difficulty_after_height p)
    (digishield_averaging_window p) (digishield_max_adjust_down p) (digishield_max_adjust_up p)
    (pow_target_spacing p) (pon_target_spacing p) (pon_difficulty_window p) (pon_subsidy_reduction_interval p)
    (pon_max_reductions p) (pon_initial_subsidy p) (minimum_chain_work p) (zawy_lwma_averaging_window p)
    (eh_epoch_fade_length p) (eh_epoch_1 p) (eh_epoch_2 p) (eh_epoch_3 p).
Definition sample_now (i : nat) : Z := 1600000000.
Definition sample_insert (store : MemoryStore) (s : HeaderState) (headers : list BlockHeader)
    : result ChainStateError (list (Hash256 * HeaderEntry)) * HeaderState :=
  insert_headers_batch_with_pow store sample_params options_full sample_now headers false (set_batch [] s).
Definition sample_state_0 : HeaderState := idle (header_cache_new 10) None.
Definition sample_state_1 : HeaderState := (sample_insert memory_new sample_state_0 [sample_genesis; sample_child]).2.
Definition sample_store_headers : MemoryStore := mkMemory (foldl apply_op (inner memory_new) (hs_batch sample_state_1)).
Definition sample_state_2 : HeaderState := idle (hs_cache sample_state_1) (hs_best sample_state_1).
Definition sample_state_3 : HeaderState := (sample_insert sample_store_headers sample_state_2 [sample_grandchild]).2.

Lemma sample_insert_history store s headers :
  header_history sample_params options_full store s -> Forall (header_wf true) headers ->
  (match (sample_insert store s headers).1 with
   | Ok results => bool_decide (Forall (fun x => he_height x.2 < 2 ^ 31 - 1) results)
   | _ => false
   end) = true ->
  header_history sample_params options_full store (sample_insert store s headers).2.
Proof.
  intros Hh Hwf. unfold sample_insert. destruct (insert_headers_batch_with_pow _ _ _ _ _ _ _) as [[results|e|] s'] eqn:E;
    [|done..]. intros Hb%bool_decide_eq_true. by eapply insert_headers_in_history.
Qed.

Lemma sample_history_2 : header_history sample_params options_full sample_store_headers sample_state_2.
Proof.
  apply (history_commit _ _ memory_new sample_state_1 []); [|apply restates_nothing|by rewrite app_nil_r].
  apply sample_insert_history; [|by_decide|vm_compute; reflexivity].
  apply history_start. intros c k. apply memory_new_get.
Qed.
Lemma sample_history_3 : header_history sample_params options_full sample_store_headers sample_state_3.
Proof. apply sample_insert_history; [apply sample_history_2|by_decide|vm_compute; reflexivity]. Qed.


Definition sample_child_entry : HeaderEntry :=
  Eval vm_compute in
    match get_header sample_store_headers (header_hash sample_child) with
    | Ok (Some e) => e | _ => mkHeaderEntry [] [] 0 0 0 [] 0 end.

Lemma header_ancestor_exact_witness :
  hash_broken \/
  exists a c,
    header_ancestor_hash sample_store_headers (header_hash sample_child) 0 sample_state_3
    = (Ok (Some a), set_cache c sample_state_3)
    /\ nth_parent sample_store_headers (Z.to_nat (he_height sample_child_entry - 0)) (header_hash sample_child)
       = Ok (Some a).
Proof.
  apply (header_ancestor_exact sample_params options_full sample_store_headers sample_state_3
           (header_hash sample_child) sample_child_entry 0 sample_history_3);
    [vm_compute; reflexivity|split; vm_compute; discriminate].
Defined.

Lemma difficulty_window_exact_witness :
  hash_broken \/
  exists r c1 c2,
    bits_after sample_store_headers sample_params (header_hash sample_child) 2 1500000240 sample_state_3
    = (r, set_cache c1 sample_state_3)
    /\ expected_bits sample_store_headers sample_params true (header_hash sample_child) 2 1500000240 sample_state_3
       = (r, set_cache c2 sample_state_3).
Proof.
  apply (difficulty_window_exact sample_params options_full sample_store_headers sample_state_3
           (header_hash sample_child) 2 1500000240 sample_history_3);
    [right; vm_compute; discriminate|discriminate].
Defined.

Definition sample_insertion : result ChainStateError HeaderEntry * HeaderState :=
  insert_header_with_pending sample_store_headers sample_params options_full 1600000000 sample_grandchild false
    sample_state_2.
Definition sample_grandchild_entry : HeaderEntry :=
  Eval vm_compute in
    match sample_insertion.1 with Ok e => e | _ => mkHeaderEntry [] [] 0 0 0 [] 0 end.

