(* ===== verification/Caches.v ===== *)
(** * The read caches of the chain state ([chainstate/src/state.rs])

    Unspent outputs and fluxnode keys are read through two caches that forget
    the least recently used entry.  [UtxoCache] and [FluxnodeKeyCache] are the
    same code over different keys: both are [Lru] here.  The second half puts
    the caches next to the store they cache, with the lookups that fill them
    and the part of [commit_batch] that keeps them up to date. *)

From S2P Require Import Prelude Encoding Hashing Transaction Storage Fluxnode Utxo.
From Stdlib Require Import ZArith Lia.
From stdpp Require Import base list option numbers strings gmap.
#[local] Open Scope Z_scope.

(** ** The cache *)

(** [UtxoCacheEntry]: the bytes and the stamp of their last use. *)
Abbreviation LruEntry := (bytes * Z)%type.

Record Lru := mkLru {
  lru_entries : gmap bytes LruEntry;
  lru_order : list (bytes * Z);
  lru_capacity : nat;
  lru_clock : Z }.

#[global] Instance Lru_eq_dec : EqDecision Lru.
Proof. solve_decision. Defined.

Definition lru_new (capacity : nat) : Lru := mkLru ∅ [] capacity 0.

(** [bump_stamp]: the clock after it is the new stamp. *)
Definition bump_stamp (c : Lru) : Lru :=
  mkLru (lru_entries c) (lru_order c) (lru_capacity c) (wrap_u64 (lru_clock c + 1)).

(** The entry of [key] gets the stamp of the clock, and the use is queued. *)
Definition touch (key data : bytes) (c : Lru) : Lru :=
  mkLru (<[key := (data, lru_clock c)]> (lru_entries c)) (lru_order c ++ [(key, lru_clock c)])
    (lru_capacity c) (lru_clock c).

Definition lru_get (key : bytes) (c : Lru) : option bytes * Lru :=
  if (lru_capacity c =? 0)%nat then (None, c)
  else
    let c := bump_stamp c in
    match lru_entries c !! key with
    | None => (None, c)
    | Some (data, _) => (Some data, touch key data c)
    end.

(** The loop of [evict]: queued uses whose entry is gone or was used again
    since are dropped, the others take their entry with them. *)
Fixpoint lru_evict (entries : gmap bytes LruEntry) (order : list (bytes * Z)) (capacity : nat)
    : gmap bytes LruEntry * list (bytes * Z) :=
  if (capacity <? size entries)%nat then
    match order with
    | [] => (entries, [])
    | (key, stamp) :: order =>
        match entries !! key with
        | None => lru_evict entries order capacity
        | Some (_, st) =>
            if negb (st =? stamp) then lru_evict entries order capacity
            else lru_evict (delete key entries) order capacity
        end
    end
  else (entries, order).

Definition evict_all (c : Lru) : Lru :=
  let '(entries, order) := lru_evict (lru_entries c) (lru_order c) (lru_capacity c) in
  mkLru entries order (lru_capacity c) (lru_clock c).

Definition lru_insert (key data : bytes) (c : Lru) : Lru :=
  if (lru_capacity c =? 0)%nat then c else evict_all (touch key data (bump_stamp c)).

Definition lru_remove (key : bytes) (c : Lru) : Lru :=
  mkLru (delete key (lru_entries c)) (lru_order c) (lru_capacity c) (lru_clock c).

(** ** Lookups and commits *)
Definition decode_utxo (bs : bytes) : result StoreError UtxoEntry :=
  map_err (fun err => Backend (DecodeError_to_string err)) (UtxoEntry_decode bs).

Section lookups.
  Context {S : Type} {KV : KeyValueStore S}.

(** [utxo_entry_cached_inner]: nothing is cached before it has decoded. *)
Definition utxo_entry_cached (store : S) (key : OutPointKey) (cache : Lru)
    : result StoreError (option UtxoEntry) * Lru :=
  let '(cached, cache) := lru_get key cache in
  match cached with
  | Some bs => (e ← decode_utxo bs; Ok (Some e), cache)
  | None =>
      match kv_get store Utxo key with
      | Err e => (Err e, cache)
      | Panic => (Panic, cache)
      | Ok None => (Ok None, cache)
      | Ok (Some bs) =>
          match decode_utxo bs with
          | Ok e => (Ok (Some e), lru_insert key bs cache)
          | Err e => (Err e, cache)
          | Panic => (Panic, cache)
          end
      end
  end.

Definition fluxnode_key_bytes (store : S) (key : KeyId) (cache : Lru)
    : result StoreError (option bytes) * Lru :=
  let '(cached, cache) := lru_get key cache in
  match cached with
  | Some bs => (Ok (Some bs), cache)
  | None =>
      match kv_get store FluxnodeKey key with
      | Err e => (Err e, cache)
      | Panic => (Panic, cache)
      | Ok None => (Ok None, cache)
      | Ok (Some bs) => (Ok (Some bs), lru_insert key bs cache)
      end
  end.
End lookups.

(** [commit_batch] on the cache of outputs, in the order of the batch. *)
Definition commit_utxo_op (cache : Lru) (op : WriteOp) : Lru :=
  match op with
  | Put Utxo key value =>
      match OutPointKey_from_slice key with Some key => lru_insert key value cache | None => cache end
  | Storage.Delete Utxo key =>
      match OutPointKey_from_slice key with Some key => lru_remove key cache | None => cache end
  | _ => cache
  end.
Definition commit_utxos (batch : WriteBatch) (cache : Lru) : Lru := foldl commit_utxo_op cache batch.

(** [commit_batch] on the cache of keys: first every deletion of the batch,
    then every update. *)
Definition key_delete (op : WriteOp) : option KeyId :=
  match op with
  | Storage.Delete FluxnodeKey key => if (length key =? 32)%nat then Some key else None
  | _ => None
  end.
Definition key_update (op : WriteOp) : option (KeyId * bytes) :=
  match op with
  | Put FluxnodeKey key value => if (length key =? 32)%nat then Some (key, value) else None
  | _ => None
  end.
Definition commit_keys (batch : WriteBatch) (cache : Lru) : Lru :=
  foldl (fun c kv => lru_insert kv.1 kv.2 c)
    (foldl (fun c k => lru_remove k c) cache (omap key_delete batch)) (omap key_update batch).

(** ** The size of a cache *)

(** Every entry waits in the queue under its current stamp. *)
Definition queued (entries : gmap bytes LruEntry) (order : list (bytes * Z)) : Prop :=
  forall k data st, entries !! k = Some (data, st) -> (k, st) ∈ order.
Definition lru_ok (c : Lru) : Prop :=
  queued (lru_entries c) (lru_order c) /\ (size (lru_entries c) <= lru_capacity c)%nat.

Lemma lru_evict_spec order entries cap :
  queued entries order ->
  let r := lru_evict entries order cap in
  queued r.1 r.2 /\ (size r.1 <= cap)%nat /\ r.1 ⊆ entries.
Proof.
  revert entries; induction order as [|[k st] order IH]; intros entries Hq; cbn [lru_evict];
    destruct (Nat.ltb_spec cap (size entries)) as [Hc|Hc]; cbn zeta; try (by split_and!).
  - assert (entries = ∅) as ->.
    { apply map_empty. intros k. destruct (entries !! k) as [[data st]|] eqn:E; [|done].
      apply Hq in E. by apply elem_of_nil in E. }
    cbn [fst snd]. split_and!; [done|rewrite map_size_empty; lia|done].
  - destruct (entries !! k) as [[data st']|] eqn:E.
    + destruct (Z.eqb_spec st' st) as [->|Hst]; cbn [negb].
      * destruct (IH (delete k entries)) as (H1&H2&H3).
        { intros k' d' s' Hk. apply lookup_delete_Some in Hk as [Hne Hk]. apply Hq, elem_of_cons in Hk.
          destruct Hk as [Hk|Hk]; [|done]. by injection Hk as -> ->. }
        split_and!; [done..|]. etrans; [exact H3|apply delete_subseteq].
      * apply IH. intros k' d' s' Hk. pose proof Hk as Hk'. apply Hq, elem_of_cons in Hk' as [Hk'|?]; [|done].
        injection Hk' as -> ->. rewrite E in Hk. by simplify_eq.
    + apply IH. intros k' d' s' Hk. pose proof Hk as Hk'. apply Hq, elem_of_cons in Hk' as [Hk'|?]; [|done].
      injection Hk' as -> ->. by rewrite E in Hk.
Qed.

Lemma queued_touch key data c :
  queued (lru_entries c) (lru_order c) ->
  queued (lru_entries (touch key data c)) (lru_order (touch key data c)).
Proof.
  intros Hq k d st Hk. cbn [touch lru_entries lru_order] in *. apply elem_of_app.
  apply lookup_insert_Some in Hk as [[<- Hk]|[_ Hk]]; [|left; by eapply Hq].
  injection Hk as <- <-. right. by apply list_elem_of_singleton.
Qed.

(** What a lookup and an insertion leave in the cache. *)
Lemma lru_get_spec key c :
  lru_ok c ->
  lru_ok (lru_get key c).2 /\ lru_capacity (lru_get key c).2 = lru_capacity c
  /\ fst <$> lru_entries (lru_get key c).2 = fst <$> lru_entries c
  /\ forall data, (lru_get key c).1 = Some data -> (fst <$> lru_entries c) !! key = Some data.
Proof.
  intros [Hq Hs]. unfold lru_get. destruct (lru_capacity c =? 0)%nat eqn:Hcap.
  { apply Nat.eqb_eq in Hcap. by split_and!. }
  cbn [bump_stamp lru_entries]. destruct (lru_entries c !! key) as [[data st]|] eqn:E; [|by split_and!].
  cbn [fst snd]. split_and!; [split| |  |].
  - by apply queued_touch.
  - cbn [touch bump_stamp lru_entries lru_capacity].
    rewrite map_size_insert_Some by (eexists; exact E). done.
  - done.
  - cbn [touch bump_stamp lru_entries]. rewrite fmap_insert. apply insert_id. by rewrite lookup_fmap, E.
  - intros d Hd. injection Hd as <-. by rewrite lookup_fmap, E.
Qed.

Lemma lru_insert_spec key data c :
  lru_ok c ->
  lru_ok (lru_insert key data c) /\ lru_capacity (lru_insert key data c) = lru_capacity c
  /\ forall k d, (fst <$> lru_entries (lru_insert key data c)) !! k = Some d ->
                 (<[key := data]> (fst <$> lru_entries c)) !! k = Some d.
Proof.
  intros [Hq Hs]. unfold lru_insert. destruct (Nat.eqb_spec (lru_capacity c) 0) as [H0|H0].
  { split_and!; [done..|]. intros k d Hk. rewrite (map_size_empty_inv (lru_entries c)) in Hk by lia.
    by rewrite lookup_fmap, lookup_empty in Hk. }
  unfold evict_all. pose proof (lru_evict_spec (lru_order (touch key data (bump_stamp c)))
    (lru_entries (touch key data (bump_stamp c))) (lru_capacity (touch key data (bump_stamp c)))
    (queued_touch key data (bump_stamp c) Hq)) as Hev. cbn zeta in Hev.
  destruct (lru_evict _ _ _) as [entries order]. cbn [fst snd] in Hev. destruct Hev as (H1&H2&H3).
  split_and!; [done..|]. intros k d Hk. cbn [lru_entries] in Hk.
  rewrite lookup_fmap in Hk. destruct (entries !! k) as [[d' st]|] eqn:E; [|done]. injection Hk as <-.
  eapply lookup_weaken in E; [|exact H3]. cbn [touch bump_stamp lru_entries] in E.
  apply lookup_insert_Some in E as [[<- E]|[Hne E]].
  - injection E as <- _. by rewrite lookup_insert_eq.
  - by rewrite lookup_insert_ne, lookup_fmap, E by done.
Qed.

Lemma lru_remove_spec key c :
  lru_ok c ->
  lru_ok (lru_remove key c) /\ lru_capacity (lru_remove key c) = lru_capacity c
  /\ fst <$> lru_entries (lru_remove key c) = delete key (fst <$> lru_entries c).
Proof.
  intros [Hq Hs]. cbn [lru_remove lru_entries lru_capacity]. split_and!; [split|done|apply fmap_delete].
  - intros k d st Hk. cbn [lru_remove lru_entries lru_order] in *.
    apply lookup_delete_Some in Hk as [_ Hk]. by eapply Hq.
  - cbn [lru_entries lru_remove]. etrans; [|exact Hs]. apply map_subseteq_size, delete_subseteq.
Qed.

(** ** A cache next to its store *)

(** What is cached for a column is what the store holds. *)
Definition mirrors (get : bytes -> option bytes) (c : Lru) : Prop :=
  forall k data, (fst <$> lru_entries c) !! k = Some data -> get k = Some data.

Lemma mirrors_get get key c : lru_ok c -> mirrors get c -> mirrors get (lru_get key c).2.
Proof.
  intros Hc Hm k data Hk. apply Hm. destruct (lru_get_spec key c Hc) as (_&_&E&_). by rewrite <- E.
Qed.

Lemma mirrors_insert get key data c :
  lru_ok c -> (forall k d, k <> key -> (fst <$> lru_entries c) !! k = Some d -> get k = Some d) ->
  get key = Some data -> mirrors get (lru_insert key data c).
Proof.
  intros Hc Hm Hk k d E. apply lru_insert_spec in E; [|done].
  apply lookup_insert_Some in E as [[<- <-]|[Hne E]]; [done|by apply Hm].
Qed.

Definition column_get (m : Contents) (column : Column) (k : bytes) : option bytes := m !! (column, k).

(** The keys of a cache, before and after an operation. *)
Definition keys_length (n : nat) (c : Lru) : Prop :=
  forall k, is_Some (lru_entries c !! k) -> length k = n.

Lemma keys_length_fst n c :
  keys_length n c <-> forall k d, (fst <$> lru_entries c) !! k = Some d -> length k = n.
Proof.
  split.
  - intros Hn k d Hk. apply Hn. rewrite lookup_fmap in Hk. by destruct (lru_entries c !! k).
  - intros Hn k [[d st] Hk]. apply (Hn k d). by rewrite lookup_fmap, Hk.
Qed.

(** One cache next to the column it mirrors. *)
Definition cache_ok (s : Contents) (column : Column) (n : nat) (c : Lru) : Prop :=
  lru_ok c /\ mirrors (column_get s column) c /\ keys_length n c.

Lemma cache_ok_get s column n key c : cache_ok s column n c -> cache_ok s column n (lru_get key c).2.
Proof.
  intros (H1&H2&H3). split_and!; [by apply lru_get_spec|by apply mirrors_get|].
  rewrite keys_length_fst in *. destruct (lru_get_spec key c H1) as (_&_&E&_). by rewrite E.
Qed.

Lemma cache_ok_insert s column n key data c :
  cache_ok s column n c -> length key = n -> column_get s column key = Some data ->
  cache_ok s column n (lru_insert key data c).
Proof.
  intros (H1&H2&H3) Hn Hk. split_and!; [by apply lru_insert_spec|apply mirrors_insert; auto|].
  rewrite keys_length_fst in *. intros k d E. apply lru_insert_spec in E; [|done].
  apply lookup_insert_Some in E as [[<- <-]|[_ E]]; eauto.
Qed.

(** A store changed under the cache: what the change does to the cache. *)
Lemma cache_ok_update (s s' : Contents) column n c key r :
  cache_ok s column n c ->
  (forall k, length k = n -> column_get s' column k = if decide (k = key) then r else column_get s column k) ->
  match r with
  | Some data => length key = n -> cache_ok s' column n (lru_insert key data c)
  | None => cache_ok s' column n (lru_remove key c)
  end.
Proof.
  intros (H1&H2&H3) Hs. pose proof H3 as H3'. rewrite keys_length_fst in H3'. destruct r as [data|].
  - intros Hn. split_and!; [by apply lru_insert_spec| |].
    + apply mirrors_insert; [done| |by rewrite Hs, decide_True].
      intros k d Hne Hk. rewrite Hs, decide_False by eauto. by apply H2.
    + rewrite keys_length_fst. intros k d E. apply lru_insert_spec in E; [|done].
      apply lookup_insert_Some in E as [[<- <-]|[_ E]]; eauto.
  - destruct (lru_remove_spec key c H1) as (H4&H5&E). split_and!; [done| |].
    + intros k d Hk. rewrite E in Hk. apply lookup_delete_Some in Hk as [Hne Hk].
      rewrite Hs, decide_False by eauto. by apply H2.
    + rewrite keys_length_fst, E. intros k d Hk. apply lookup_delete_Some in Hk as [_ Hk]. eauto.
Qed.

(** A write next to the update of the cache it triggers; a write to another
    column or under a key of another length does not concern the cache. *)
Lemma cache_ok_elsewhere m op column n c :
  cache_ok m column n c ->
  (forall k, length k = n -> column_get (apply_op m op) column k = column_get m column k) ->
  cache_ok (apply_op m op) column n c.
Proof.
  intros (H1&H2&H3) Hop. split_and!; [done| |done].
  intros k d Hk. rewrite Hop; [by apply H2|]. rewrite keys_length_fst in H3. eauto.
Qed.

Lemma commit_utxo_op_ok m op c :
  cache_ok m Utxo OUTPOINT_KEY_LEN c -> cache_ok (apply_op m op) Utxo OUTPOINT_KEY_LEN (commit_utxo_op c op).
Proof.
  intros Hc. destruct op as [col k v|col k]; destruct (decide (col = Utxo)) as [->|Hcol].
  - cbn [commit_utxo_op]. unfold OutPointKey_from_slice. destruct (Nat.eqb_spec (length k) OUTPOINT_KEY_LEN).
    + apply (cache_ok_update m _ _ _ c k (Some v)); [done| |done]. intros k' _. unfold column_get; cbn [apply_op].
      destruct (decide (k' = k)) as [->|]; [by rewrite lookup_insert_eq|by rewrite lookup_insert_ne by congruence].
    + apply cache_ok_elsewhere; [done|]. intros k' Hk'. unfold column_get; cbn [apply_op].
      apply lookup_insert_ne. congruence.
  - replace (commit_utxo_op c (Put col k v)) with c by (by destruct col).
    apply cache_ok_elsewhere; [done|]. intros k' _. apply lookup_insert_ne. congruence.
  - cbn [commit_utxo_op]. unfold OutPointKey_from_slice. destruct (Nat.eqb_spec (length k) OUTPOINT_KEY_LEN).
    + apply (cache_ok_update m _ _ _ c k None); [done|]. intros k' _. unfold column_get; cbn [apply_op].
      destruct (decide (k' = k)) as [->|]; [by rewrite lookup_delete_eq|by rewrite lookup_delete_ne by congruence].
    + apply cache_ok_elsewhere; [done|]. intros k' Hk'. unfold column_get; cbn [apply_op].
      apply lookup_delete_ne. congruence.
  - replace (commit_utxo_op c (Storage.Delete col k)) with c by (by destruct col).
    apply cache_ok_elsewhere; [done|]. intros k' _. apply lookup_delete_ne. congruence.
Qed.

Lemma commit_utxos_ok m batch c :
  cache_ok m Utxo OUTPOINT_KEY_LEN c -> cache_ok (foldl apply_op m batch) Utxo OUTPOINT_KEY_LEN (commit_utxos batch c).
Proof.
  unfold commit_utxos. revert m c; induction batch as [|op batch IH]; intros m c Hc; [done|].
  cbn [foldl]. apply IH. by apply commit_utxo_op_ok.
Qed.

(** No code deletes a fluxnode key: they are stored under their hash. *)
Definition deletes_key (op : WriteOp) : Prop :=
  match op with Storage.Delete FluxnodeKey _ => True | _ => False end.
#[global] Instance deletes_key_dec op : Decision (deletes_key op).
Proof. destruct op as [|[]]; simpl; apply _. Defined.

Lemma commit_keys_ok m batch c :
  Forall (fun op => ~ deletes_key op) batch ->
  cache_ok m FluxnodeKey 32 c -> cache_ok (foldl apply_op m batch) FluxnodeKey 32 (commit_keys batch c).
Proof.
  intros Hb. unfold commit_keys.
  replace (omap key_delete batch) with (@nil KeyId); [cbn [foldl]|].
  2: { induction Hb as [|op batch Hop _ IH]; [done|]. cbn [omap list_omap].
       by destruct op as [|[]]; cbn [key_delete deletes_key] in *. }
  revert m c. induction Hb as [|op batch Hop _ IH]; intros m c Hc; [done|]. cbn [foldl omap list_omap].
  assert (key_update op = None -> cache_ok (apply_op m op) FluxnodeKey 32 c) as Hother.
  { intros Hn. apply cache_ok_elsewhere; [done|]. intros k' Hk'. unfold column_get.
    destruct op as [col k v|col k]; cbn [apply_op].
    - apply lookup_insert_ne. intros [= -> ->]. cbn [key_update] in Hn. by rewrite Hk' in Hn.
    - apply lookup_delete_ne. intros [= -> ->]. by apply Hop. }
  destruct (key_update op) as [[k v]|] eqn:E; [|by apply IH, Hother].
  cbn [foldl fst snd]. apply IH. destruct op as [[] k0 v0|]; try done. cbn [key_update] in E.
  destruct (Nat.eqb_spec (length k0) 32); [|done]. injection E as <- <-.
  apply (cache_ok_update m _ _ _ c k0 (Some v0)); [done| |done]. intros k' _. unfold column_get; cbn [apply_op].
  destruct (decide (k' = k0)) as [->|]; [by rewrite lookup_insert_eq|by rewrite lookup_insert_ne by congruence].
Qed.

Section coherence.
  Context {S : Type} `{KVL : KeyValueStoreLaws S}.

Definition caches_ok (s : S) (utxos keys : Lru) : Prop :=
  cache_ok (contents s) Utxo OUTPOINT_KEY_LEN utxos /\ cache_ok (contents s) FluxnodeKey 32 keys.

(** A lookup answers what the store answers and keeps the cache in order. *)
Lemma utxo_entry_cached_spec s key c :
  cache_ok (contents s) Utxo OUTPOINT_KEY_LEN c -> length key = OUTPOINT_KEY_LEN ->
  (utxo_entry_cached s key c).1
    = (bs ← kv_get s Utxo key; match bs with Some bs => e ← decode_utxo bs; Ok (Some e) | None => Ok None end)
  /\ cache_ok (contents s) Utxo OUTPOINT_KEY_LEN (utxo_entry_cached s key c).2.
Proof.
  intros Hc Hk. unfold utxo_entry_cached. pose proof (cache_ok_get (contents s) Utxo _ key c Hc) as Hg.
  pose proof (lru_get_spec key c (proj1 Hc)) as (_&_&_&Hhit). rewrite kv_get_spec. cbn [mbind result_bind].
  destruct (lru_get key c) as [[bs|] c']; cbn [fst snd] in *.
  - destruct Hc as (_&Hm&_). specialize (Hm key bs (Hhit bs eq_refl)). unfold column_get in Hm. by rewrite Hm.
  - destruct (contents s !! (Utxo, key)) as [bs|] eqn:E; [|done].
    destruct (decode_utxo bs) as [e|e|]; cbn [fst snd mbind result_bind]; [|done..].
    split; [done|]. by apply cache_ok_insert.
Qed.

Lemma fluxnode_key_bytes_spec s key c :
  cache_ok (contents s) FluxnodeKey 32 c -> length key = 32%nat ->
  (fluxnode_key_bytes s key c).1 = load_key s key
  /\ cache_ok (contents s) FluxnodeKey 32 (fluxnode_key_bytes s key c).2.
Proof.
  intros Hc Hk. unfold fluxnode_key_bytes, load_key.
  pose proof (cache_ok_get (contents s) FluxnodeKey _ key c Hc) as Hg.
  pose proof (lru_get_spec key c (proj1 Hc)) as (_&_&_&Hhit). rewrite kv_get_spec.
  destruct (lru_get key c) as [[bs|] c']; cbn [fst snd] in *.
  - destruct Hc as (_&Hm&_). specialize (Hm key bs (Hhit bs eq_refl)). unfold column_get in Hm. by rewrite Hm.
  - destruct (contents s !! (FluxnodeKey, key)) as [bs|] eqn:E; cbn [fst snd]; [|done].
    split; [done|]. by apply cache_ok_insert.
Qed.

(** What happens to the store and the caches while lookups and commits take
    turns. *)
Inductive cache_history : S -> Lru -> Lru -> Prop :=
| history_start s n1 n2 : cache_history s (lru_new n1) (lru_new n2)
| history_utxo s utxos keys key :
    cache_history s utxos keys -> length key = OUTPOINT_KEY_LEN ->
    cache_history s (utxo_entry_cached s key utxos).2 keys
| history_key s utxos keys key :
    cache_history s utxos keys -> length key = 32%nat ->
    cache_history s utxos (fluxnode_key_bytes s key keys).2
| history_commit s s' utxos keys batch :
    cache_history s utxos keys -> Forall (fun op => ~ deletes_key op) batch ->
    kv_write_batch s batch = Ok s' ->
    cache_history s' (commit_utxos batch utxos) (commit_keys batch keys).

Lemma cache_ok_new m column n cap : cache_ok m column n (lru_new cap).
Proof.
  split_and!.
  - split; [|cbn [lru_new lru_entries]; rewrite map_size_empty; lia]. intros k d st Hk. done.
  - intros k d Hk. cbn [lru_new lru_entries] in Hk. by rewrite lookup_fmap, lookup_empty in Hk.
  - intros k [x Hk]. done.
Qed.

Lemma cache_history_ok s utxos keys : cache_history s utxos keys -> caches_ok s utxos keys.
Proof.
  induction 1 as [s n1 n2|s utxos keys key _ [IH1 IH2] Hk|s utxos keys key _ [IH1 IH2] Hk
                 |s s' utxos keys batch _ [IH1 IH2] Hb Hw].
  - split; apply cache_ok_new.
  - split; [|done]. by apply utxo_entry_cached_spec.
  - split; [done|]. by apply fluxnode_key_bytes_spec.
  - destruct (kv_write_batch_spec s batch) as (s2&Hw2&Hs). rewrite Hw in Hw2. injection Hw2 as <-.
    split; rewrite Hs; [by apply commit_utxos_ok|by apply commit_keys_ok].
Qed.

End coherence.

(** A history that fills a cache of one entry, evicts from it, spends the
    output it holds and reads everything back. *)
Definition sample_entry (v : Z) : UtxoEntry := mkUtxoEntry v [81] 10 false.
Definition sample_batch : WriteBatch :=
  utxo_put (utxo_put [] sample_collateral (sample_entry 5)) OutPoint_null (sample_entry 6)
  ++ [Put FluxnodeKey (zeros 32) [1; 2]].
Definition spend_batch : WriteBatch := utxo_delete [] OutPoint_null.
Definition store_after (s : MemoryStore) (batch : WriteBatch) : MemoryStore :=
  match kv_write_batch s batch with Ok s' => s' | _ => s end.
Definition sample_filled : MemoryStore := store_after memory_new sample_batch.
Definition sample_spent : MemoryStore := store_after sample_filled spend_batch.
Definition sample_utxos : Lru :=
  (utxo_entry_cached sample_spent (OutPointKey_new sample_collateral)
     (commit_utxos spend_batch (commit_utxos sample_batch (lru_new 1)))).2.
Definition sample_keys : Lru := commit_keys spend_batch (commit_keys sample_batch (lru_new 4)).

Lemma sample_cache_history : cache_history sample_spent sample_utxos sample_keys.
Proof.
  apply history_utxo; [|vm_compute; reflexivity].
  eapply history_commit; [|by_decide|reflexivity].
  eapply history_commit; [apply (history_start memory_new)|by_decide|reflexivity].
Qed.


Example sample_spent_reads :
  (utxo_entry_cached sample_spent (OutPointKey_new sample_collateral) sample_utxos).1
    = Ok (Some (sample_entry 5))
  /\ (utxo_entry_cached sample_spent (OutPointKey_new OutPoint_null) sample_utxos).1 = Ok None
  /\ size (lru_entries sample_utxos) = 1%nat.
Proof. vm_compute. auto. Qed.

(** ** The queue of uses

    The entries are bounded by the capacity, the queue is not: only an
    insertion that overfills the cache shortens it, and every hit adds to it. *)
Lemma lru_hit_grows key data st c :
  (0 < lru_capacity c)%nat -> lru_entries c !! key = Some (data, st) ->
  length (lru_order (lru_get key c).2) = Datatypes.S (length (lru_order c))
  /\ exists st', lru_entries (lru_get key c).2 !! key = Some (data, st').
Proof.
  intros Hc Hk. unfold lru_get. destruct (Nat.eqb_spec (lru_capacity c) 0); [lia|].
  cbn [bump_stamp lru_entries]. rewrite Hk. cbn [snd touch lru_order lru_entries bump_stamp].
  rewrite length_app. cbn [length]. split; [lia|]. eexists. apply lookup_insert_eq.
Qed.

Theorem lru_order_unbounded (n : nat) :
  exists c : Lru, (lru_capacity c = 1 /\ size (lru_entries c) = 1 /\ n <= length (lru_order c))%nat.
Proof.
  set (c0 := lru_insert [7] [1] (lru_new 1)).
  assert (exists c st, lru_ok c /\ lru_capacity c = 1%nat /\ (n <= length (lru_order c))%nat
    /\ lru_entries c !! [7] = Some ([1], st)) as (c&st&(_&Hs)&Hc&Hl&Hk).
  { induction n as [|n (c&st&IH1&IH2&IH3&IH4)].
    - exists c0, 1. split_and!; [|done|lia|done].
      apply (lru_insert_spec [7] [1] (lru_new 1)), (cache_ok_new ∅ Utxo 1 1).
    - destruct (lru_hit_grows [7] [1] st c) as [H1 [st' H2]]; [lia|done|].
      destruct (lru_get_spec [7] c IH1) as (H3&H4&_).
      exists (lru_get [7] c).2, st'. split_and!; [done|congruence|lia|done]. }
  exists c. split_and!; [done| |done]. rewrite Hc in Hs. apply Nat.le_antisymm; [done|].
  destruct (size _) eqn:E; [|lia]. apply map_size_empty_inv in E. by rewrite E in Hk.
Qed.

(** ** Two threads

    [utxo_entry_cached_inner] locks the cache twice, with the read of the
    store between, and [commit_batch] writes the store before it locks the
    cache.  Readers (the memory pool, the RPC server) take no other lock, so
    their steps interleave with those of the thread that commits a block. *)
Inductive ReaderPc := RIdle | RMissed (key : bytes) | RLoaded (key data : bytes).
Inductive WriterPc := WIdle | WWritten (batch : WriteBatch).

Record CacheThreads (S : Type) := mkThreads {
  th_store : S; th_cache : Lru; th_reader : ReaderPc; th_writer : WriterPc }.
Arguments mkThreads {S} _ _ _ _.
Arguments th_store {S} _.
Arguments th_cache {S} _.
Arguments th_reader {S} _.
Arguments th_writer {S} _.

Section threads.
  Context {S : Type} {KV : KeyValueStore S}.

Inductive cache_step : CacheThreads S -> CacheThreads S -> Prop :=
| reader_hit s c c' w key data :
    lru_get key c = (Some data, c') ->
    cache_step (mkThreads s c RIdle w) (mkThreads s c' RIdle w)
| reader_miss s c c' w key :
    lru_get key c = (None, c') ->
    cache_step (mkThreads s c RIdle w) (mkThreads s c' (RMissed key) w)
| reader_load s c w key data entry :
    kv_get s Utxo key = Ok (Some data) -> decode_utxo data = Ok entry ->
    cache_step (mkThreads s c (RMissed key) w) (mkThreads s c (RLoaded key data) w)
| reader_absent s c w key :
    kv_get s Utxo key = Ok None ->
    cache_step (mkThreads s c (RMissed key) w) (mkThreads s c RIdle w)
| reader_fill s c w key data :
    cache_step (mkThreads s c (RLoaded key data) w) (mkThreads s (lru_insert key data c) RIdle w)
| writer_store s s' c r batch :
    kv_write_batch s batch = Ok s' ->
    cache_step (mkThreads s c r WIdle) (mkThreads s' c r (WWritten batch))
| writer_cache s c r batch :
    cache_step (mkThreads s c r (WWritten batch)) (mkThreads s (commit_utxos batch c) r WIdle).
End threads.

(** A reader that loads an output before it is spent and caches it after
    brings it back: both threads are done, the store no longer has the
    output, and every later lookup, those of [connect_block] included,
    finds it unspent. *)
Theorem interleaved_lookup_revives_spent_output :
  exists c : Lru,
    rtc cache_step (mkThreads sample_filled (lru_new 8) RIdle WIdle) (mkThreads sample_spent c RIdle WIdle)
    /\ utxo_get sample_spent OutPoint_null = Ok None
    /\ (utxo_entry_cached sample_spent (OutPointKey_new OutPoint_null) c).1 = Ok (Some (sample_entry 6)).
Proof.
  set (key := OutPointKey_new OutPoint_null). set (data := UtxoEntry_encode (sample_entry 6)).
  set (missed := (lru_get key (lru_new 8)).2).
  exists (lru_insert key data (commit_utxos spend_batch missed)). split; [|split; vm_compute; reflexivity].
  apply (rtc_l _ _ (mkThreads sample_filled missed (RMissed key) WIdle));
    [apply reader_miss; vm_compute; reflexivity|].
  apply (rtc_l _ _ (mkThreads sample_filled missed (RLoaded key data) WIdle));
    [apply (reader_load _ _ _ _ _ (sample_entry 6)); vm_compute; reflexivity|].
  apply (rtc_l _ _ (mkThreads sample_spent missed (RLoaded key data) (WWritten spend_batch)));
    [apply writer_store; reflexivity|].
  apply (rtc_l _ _ (mkThreads sample_spent (commit_utxos spend_batch missed) (RLoaded key data) WIdle));
    [apply writer_cache|].
  apply rtc_once, reader_fill.
Qed.
