(* ===== verification/Payees.v ===== *)
(** * Fluxnode payments ([chainstate/src/state.rs], payees and funding)

    Each block pays one fluxnode of every tier: the one that has waited
    longest.  [PaymentsCache] keeps the fluxnodes of a tier in that order; it
    is filled from the store on first use and follows the batches committed
    after that.  The choice drops, for good, every node it finds not payable.
    Outputs and keys are read from the store here: [Caches.cached_lookups_exact]
    shows that the caches in front of it do not change what is read. *)

From S2P Require Import Prelude Consensus Rewards Encoding Hashing Address Transaction Block Storage.
From S2P Require Import Fluxnode Utxo Validation HeaderChain.
From Stdlib Require Import ZArith Lia Sorted.
From stdpp Require Import base list option numbers strings gmap.
#[local] Open Scope Z_scope.

(** ** Confirmation and expiry *)
Definition fluxnode_confirm_expiration_count (height : Z) (consensus : ConsensusParams) : Z :=
  if network_upgrade_active height (upgrades consensus) Pon
  then FLUXNODE_CONFIRM_UPDATE_EXPIRATION_HEIGHT_V4
  else if network_upgrade_active height (upgrades consensus) Halving
  then FLUXNODE_CONFIRM_UPDATE_EXPIRATION_HEIGHT_V3
  else if network_upgrade_active height (upgrades consensus) Flux
  then FLUXNODE_CONFIRM_UPDATE_EXPIRATION_HEIGHT_V2
  else FLUXNODE_CONFIRM_UPDATE_EXPIRATION_HEIGHT_V1.

(** [i32::try_from(height).unwrap_or(i32::MAX)] of a [u32]. *)
Definition i32_or_max (height : Z) : Z := Z.min height 2147483647.

(** [last_confirmed_height.saturating_add(expiration).saturating_add(1)]. *)
Definition expire_at (last_confirmed_height expiration : Z) : Z :=
  saturating_add_u32 (saturating_add_u32 last_confirmed_height expiration) 1.

(** The [loop] of [fluxnode_confirm_expire_height]; [None] is running out of
    the given number of rounds. *)
Fixpoint expire_loop (rounds : nat) (last_confirmed_height expiration expire_height : Z)
    (consensus : ConsensusParams) : option Z :=
  match rounds with
  | O => None
  | S rounds =>
      let next := fluxnode_confirm_expiration_count (i32_or_max expire_height) consensus in
      if next =? expiration then Some expire_height
      else expire_loop rounds last_confirmed_height next (expire_at last_confirmed_height next) consensus
  end.

(** Four rounds are enough ([expire_loop_ends]). *)
Definition EXPIRE_ROUNDS : nat := 4.
Definition fluxnode_confirm_expire_height (last_confirmed_height : Z) (consensus : ConsensusParams) : Z :=
  let expiration := fluxnode_confirm_expiration_count (i32_or_max last_confirmed_height) consensus in
  default 0 (expire_loop EXPIRE_ROUNDS last_confirmed_height expiration
               (expire_at last_confirmed_height expiration) consensus).

Definition fluxnode_confirm_expired_for_pay_height (pay_height last_confirmed_height : Z)
    (consensus : ConsensusParams) : bool :=
  if pay_height <=? last_confirmed_height then false
  else pay_height >=? fluxnode_confirm_expire_height last_confirmed_height consensus.

(** ** The order of payments *)
Record FluxnodePaymentMeta := mkPaymentMeta {
  pm_tier : Z; pm_confirmed_height : Z; pm_last_confirmed_height : Z; pm_last_paid_height : Z;
  pm_collateral_value : Z; pm_operator_pubkey : KeyId; pm_collateral_pubkey : option KeyId;
  pm_p2sh_script : option KeyId }.

Record FluxnodePayeeKey := mkPayeeKey {
  comparator_height : Z; has_last_paid : bool; hash_le : Hash256; pk_index : Z; pk_outpoint : OutPointKey }.

#[global] Instance FluxnodePaymentMeta_eq_dec : EqDecision FluxnodePaymentMeta.
Proof. solve_decision. Defined.
#[global] Instance FluxnodePayeeKey_eq_dec : EqDecision FluxnodePayeeKey.
Proof. solve_decision. Defined.

(** [(1..=3).contains(&tier)]. *)
Definition paid_tier (tier : Z) : bool := (1 <=? tier) && (tier <=? 3).

(** [FluxnodePayeeKey::from_record]. *)
Definition payee_key (record : FluxnodeRecord) : option FluxnodePayeeKey :=
  if negb (paid_tier (fr_tier record)) then None
  else if fr_confirmed_height record =? 0 then None
  else Some {|
    comparator_height :=
      if fr_last_paid_height record >? 0 then fr_last_paid_height record else fr_confirmed_height record;
    has_last_paid := fr_last_paid_height record >? 0;
    hash_le := hash (fr_collateral record);
    pk_index := op_index (fr_collateral record);
    pk_outpoint := OutPointKey_new (fr_collateral record) |}.

Definition payment_meta (record : FluxnodeRecord) : FluxnodePaymentMeta :=
  mkPaymentMeta (fr_tier record) (fr_confirmed_height record) (fr_last_confirmed_height record)
    (fr_last_paid_height record) (fr_collateral_value record) (fr_operator_pubkey record)
    (fr_collateral_pubkey record) (fr_p2sh_script record).

(** [Ordering::then_with]. *)
Definition then_with (a b : comparison) : comparison := match a with Eq => b | _ => a end.
Definition bool_cmp (a b : bool) : comparison :=
  match a, b with false, true => Lt | true, false => Gt | _, _ => Eq end.
Fixpoint bytes_cmp (a b : bytes) : comparison :=
  match a, b with
  | [], [] => Eq
  | [], _ => Lt
  | _, [] => Gt
  | x :: a, y :: b => then_with (x ?= y) (bytes_cmp a b)
  end.

(** [FluxnodePayeeKey::cmp]. *)
Definition payee_cmp (a b : FluxnodePayeeKey) : comparison :=
  then_with (comparator_height a ?= comparator_height b)
    (then_with (bool_cmp (has_last_paid a) (has_last_paid b))
       (then_with (bytes_cmp (hash_le a) (hash_le b)) (pk_index a ?= pk_index b))).

(** A [BTreeSet] is the list of its keys in order. *)
Fixpoint tree_insert (key : FluxnodePayeeKey) (tree : list FluxnodePayeeKey) : list FluxnodePayeeKey :=
  match tree with
  | [] => [key]
  | x :: tree' =>
      match payee_cmp key x with
      | Lt => key :: tree
      | Eq => tree
      | Gt => x :: tree_insert key tree'
      end
  end.
Fixpoint tree_remove (key : FluxnodePayeeKey) (tree : list FluxnodePayeeKey) : list FluxnodePayeeKey :=
  match tree with
  | [] => []
  | x :: tree =>
      match payee_cmp key x with
      | Lt => x :: tree
      | Eq => tree
      | Gt => x :: tree_remove key tree
      end
  end.

(** ** The cache of payments *)
Record PaymentsCache := mkPayments {
  pc_initialized : bool;
  by_tier : list (list FluxnodePayeeKey);
  key_by_outpoint : gmap OutPointKey FluxnodePayeeKey;
  meta_by_outpoint : gmap OutPointKey FluxnodePaymentMeta }.

Definition payments_new : PaymentsCache := mkPayments false [[]; []; []] ∅ ∅.
Definition payments_reset (c : PaymentsCache) : PaymentsCache := mkPayments true [[]; []; []] ∅ ∅.

Definition tier_index (tier : Z) : nat := Z.to_nat (tier - 1).
Definition tier_tree (tier : Z) (c : PaymentsCache) : list FluxnodePayeeKey :=
  default [] (by_tier c !! tier_index tier).
Definition alter_tier (f : list FluxnodePayeeKey -> list FluxnodePayeeKey) (tier : Z)
    (trees : list (list FluxnodePayeeKey)) : list (list FluxnodePayeeKey) :=
  alter f (tier_index tier) trees.

Definition remove_outpoint (outpoint : OutPointKey) (c : PaymentsCache) : PaymentsCache :=
  mkPayments (pc_initialized c)
    (match meta_by_outpoint c !! outpoint, key_by_outpoint c !! outpoint with
     | Some old_meta, Some old_key =>
         if paid_tier (pm_tier old_meta)
         then alter_tier (tree_remove old_key) (pm_tier old_meta) (by_tier c)
         else by_tier c
     | _, _ => by_tier c
     end)
    (delete outpoint (key_by_outpoint c)) (delete outpoint (meta_by_outpoint c)).

Definition upsert_record (record : FluxnodeRecord) (c : PaymentsCache) : PaymentsCache :=
  let outpoint := OutPointKey_new (fr_collateral record) in
  let c := match meta_by_outpoint c !! outpoint with Some _ => remove_outpoint outpoint c | None => c end in
  match payee_key record with
  | None => c
  | Some key =>
      mkPayments (pc_initialized c) (alter_tier (tree_insert key) (fr_tier record) (by_tier c))
        (<[outpoint := key]> (key_by_outpoint c))
        (<[outpoint := payment_meta record]> (meta_by_outpoint c))
  end.

(** [commit_batch] on the cache of payments: the writes of fluxnode records,
    in order, once the cache has been filled. *)
Definition commit_payment_op (c : PaymentsCache) (op : WriteOp) : result ChainStateError PaymentsCache :=
  match op with
  | Put Fluxnode _ value =>
      match FluxnodeRecord_decode value with
      | Ok record => Ok (upsert_record record c)
      | _ => Err (CorruptIndex "invalid fluxnode record bytes in batch")
      end
  | Storage.Delete Fluxnode key =>
      match OutPointKey_from_slice key with
      | Some key => Ok (remove_outpoint key c)
      | None => Ok c
      end
  | _ => Ok c
  end.
Fixpoint commit_payment_ops (batch : WriteBatch) (c : PaymentsCache)
    : result ChainStateError unit * PaymentsCache :=
  match batch with
  | [] => (Ok tt, c)
  | op :: batch =>
      match commit_payment_op c op with
      | Ok c => commit_payment_ops batch c
      | Err e => (Err e, c)
      | Panic => (Panic, c)
      end
  end.
Definition commit_payments (batch : WriteBatch) (c : PaymentsCache)
    : result ChainStateError unit * PaymentsCache :=
  if pc_initialized c then commit_payment_ops batch c else (Ok tt, c).

(** ** Keys of the parameters *)
Definition is_ascii_space (b : Z) : bool := ((9 <=? b) && (b <=? 13)) || (b =? 32).
Fixpoint trim_start (bs : bytes) : bytes :=
  match bs with b :: bs' => if is_ascii_space b then trim_start bs' else bs | [] => [] end.
Definition trim (bs : bytes) : bytes := rev (trim_start (rev (trim_start bs))).
Definition strip_0x (bs : bytes) : bytes :=
  match bs with 48 :: (120 :: bs | 88 :: bs) => bs | _ => bs end.
Definition hex_digit (b : Z) : option Z :=
  if (48 <=? b) && (b <=? 57) then Some (b - 48)
  else if (97 <=? b) && (b <=? 102) then Some (b - 87)
  else if (65 <=? b) && (b <=? 70) then Some (b - 55)
  else None.
Fixpoint hex_pairs (bs : bytes) : option bytes :=
  match bs with
  | high :: low :: bs =>
      high ← hex_digit high; low ← hex_digit low;
      rest ← hex_pairs bs; Some (Z.lor (Z.shiftl high 4) low :: rest)
  | _ => Some []
  end.
Definition hex_to_bytes (input : bytes) : option bytes :=
  let hex := strip_0x (trim input) in
  if (length hex mod 2 =? 1)%nat then None else hex_pairs hex.
Definition key_bytes (k : TimedPublicKey) : option bytes := hex_to_bytes (ascii_bytes (key k)).

Definition invalid_tx {A} (message : string) : result ChainStateError A :=
  Err (ChainValidation (InvalidTransaction message)).
Definition invalid_fluxnode {A} (message : string) : result ChainStateError A :=
  Err (ChainValidation (FluxnodeFailure message)).

Section payees.
  Context {H : Hashes} {S : Type} {KV : KeyValueStore S} (store : S) (params : ChainParams).

Definition fluxnode_record (outpoint : OutPoint) : result ChainStateError (option FluxnodeRecord) :=
  bs ← map_err ChainStore (kv_get store Fluxnode (OutPointKey_new outpoint));
  match bs with
  | None => Ok None
  | Some bs =>
      r ← map_err (fun _ => CorruptIndex "invalid fluxnode record") (FluxnodeRecord_decode bs);
      Ok (Some r)
  end.

(** A fluxnode may start again once its start has been banned long enough, or
    its last confirmation has expired. *)
Definition fluxnode_start_allowed (outpoint : OutPoint) (height : Z) : result ChainStateError bool :=
  if height <? 0 then Ok true
  else
    record ← fluxnode_record outpoint;
    match record with
    | None => Ok true
    | Some r =>
        if fr_last_confirmed_height r =? fr_start_height r then
          if fr_start_height r =? height then Ok true
          else
            let removal_height_v1 := saturating_add_u32 (fr_start_height r) FLUXNODE_DOS_REMOVE_AMOUNT in
            let removal_height :=
              if network_upgrade_active (i32_or_max removal_height_v1) (upgrades (consensus params)) Pon
              then saturating_add_u32 (fr_start_height r) FLUXNODE_DOS_REMOVE_AMOUNT_V2
              else removal_height_v1 in
            Ok (height >? removal_height)
        else
          Ok (height >? fluxnode_confirm_expire_height (fr_last_confirmed_height r) (consensus params))
    end.

(** The records of a scan, up to the first that does not decode. *)
Fixpoint load_records (entries : list (bytes * bytes)) (c : PaymentsCache)
    : result ChainStateError unit * PaymentsCache :=
  match entries with
  | [] => (Ok tt, c)
  | (_, value) :: entries =>
      match FluxnodeRecord_decode value with
      | Ok record => load_records entries (upsert_record record c)
      | Err err => (Err (ChainStore (Backend (DecodeError_to_string err))), c)
      | Panic => (Panic, c)
      end
  end.
Definition ensure_fluxnode_payments_cache_loaded (c : PaymentsCache)
    : result ChainStateError unit * PaymentsCache :=
  if pc_initialized c then (Ok tt, c)
  else
    let c := payments_reset c in
    match kv_scan_prefix store Fluxnode [] with
    | Ok entries => load_records entries c
    | Err e => (Err (ChainStore e), c)
    | Panic => (Panic, c)
    end.

Definition stored_key (key : KeyId) (missing : string) : result ChainStateError bytes :=
  bs ← map_err ChainStore (load_key store key);
  ok_or bs (CorruptIndex missing).

Definition is_p2sh_signing_key (pubkey : bytes) : bool :=
  existsb (fun k => bool_decide (key_bytes k = Some pubkey)) (p2sh_public_keys (fluxnode_params params)).

Definition fluxnode_payee_script (utxo : UtxoEntry) (meta : FluxnodePaymentMeta)
    : result ChainStateError bytes :=
  match pm_p2sh_script meta with
  | Some redeem_key =>
      redeem_script ← stored_key redeem_key "missing fluxnode redeem script";
      Ok (p2sh_script (hash160 redeem_script))
  | None =>
      collateral_key ← ok_or (pm_collateral_pubkey meta)
                         (CorruptIndex "missing fluxnode collateral pubkey key");
      pubkey_bytes ← stored_key collateral_key "missing fluxnode collateral pubkey bytes";
      if is_p2sh_signing_key pubkey_bytes then Ok (ue_script_pubkey utxo)
      else Ok (p2pkh_script (hash160 pubkey_bytes))
  end.

(** The outpoint a key of 36 bytes stands for. *)
Definition outpoint_of_key (k : OutPointKey) : OutPoint :=
  mkOutPoint (slice k 0 32) (from_le (slice k 32 36)).

(** One round of the loop of [next_fluxnode_payee]: [inl] is what it returns,
    [inr] the cache it goes on with. *)
Definition payee_round (tier pay_height : Z) (c : PaymentsCache)
    : result ChainStateError (option (OutPoint * bytes)) + PaymentsCache :=
  match tier_tree tier c with
  | [] => inl (Ok None)
  | key :: _ =>
      match meta_by_outpoint c !! pk_outpoint key with
      | None =>
          inr (mkPayments (pc_initialized c) (alter_tier (tree_remove key) tier (by_tier c))
                 (delete (pk_outpoint key) (key_by_outpoint c)) (meta_by_outpoint c))
      | Some meta =>
          if negb (pm_tier meta =? tier) then inr (remove_outpoint (pk_outpoint key) c)
          else if fluxnode_confirm_expired_for_pay_height pay_height (pm_last_confirmed_height meta)
                    (consensus params)
          then inr (remove_outpoint (pk_outpoint key) c)
          else
            let outpoint := outpoint_of_key (pk_outpoint key) in
            match map_err ChainStore (utxo_get store outpoint) with
            | Ok None => inr (remove_outpoint (pk_outpoint key) c)
            | Ok (Some utxo) =>
                if negb (fluxnode_collateral_matches_tier pay_height (ue_value utxo) tier
                           (fluxnode_params params))
                then inr (remove_outpoint (pk_outpoint key) c)
                else inl (script ← fluxnode_payee_script utxo meta; Ok (Some (outpoint, script)))
            | Err e => inl (Err e)
            | Panic => inl Panic
            end
      end
  end.

(** The loop; [None] is running out of the given number of rounds. *)
Fixpoint payee_loop (rounds : nat) (tier pay_height : Z) (c : PaymentsCache)
    : option (result ChainStateError (option (OutPoint * bytes)) * PaymentsCache) :=
  match rounds with
  | O => None
  | Datatypes.S rounds =>
      match payee_round tier pay_height c with
      | inl r => Some (r, c)
      | inr c => payee_loop rounds tier pay_height c
      end
  end.

(** Each round takes a key out of the tree or an outpoint out of the cache
    ([payee_loop_ends]). *)
Definition payee_rounds (tier : Z) (c : PaymentsCache) : nat :=
  Datatypes.S (length (tier_tree tier c) + size (meta_by_outpoint c)).

Definition next_fluxnode_payee (tier pay_height : Z) (c : PaymentsCache)
    : result ChainStateError (option (OutPoint * bytes)) * PaymentsCache :=
  if negb (paid_tier tier) then (Ok None, c)
  else if pay_height <? 0 then (Ok None, c)
  else
    match ensure_fluxnode_payments_cache_loaded c with
    | (Ok _, c) => default (Panic, c) (payee_loop (payee_rounds tier c) tier pay_height c)
    | (Err e, c) => (Err e, c)
    | (Panic, c) => (Panic, c)
    end.

(** ** The payments of a block *)
Record FluxnodePayout := mkPayout {
  po_tier : Z; po_outpoint : OutPoint; po_script_pubkey : bytes; po_amount : Z }.

Fixpoint payouts_loop (tiers : list Z) (height block_value : Z) (c : PaymentsCache)
    : result ChainStateError (list FluxnodePayout) * PaymentsCache :=
  match tiers with
  | [] => (Ok [], c)
  | tier :: tiers =>
      match next_fluxnode_payee tier (saturating_sub_i32 height 1) c with
      | (Ok payee, c) =>
          let '(rest, c) := payouts_loop tiers height block_value c in
          (rest ← rest;
           Ok (match payee with
               | Some (outpoint, script) =>
                   mkPayout tier outpoint script
                     (fluxnode_subsidy height block_value tier (consensus params)) :: rest
               | None => rest
               end), c)
      | (Err e, c) => (Err e, c)
      | (Panic, c) => (Panic, c)
      end
  end.
Definition expected_fluxnode_payouts (height : Z) (c : PaymentsCache)
    : result ChainStateError (list FluxnodePayout) * PaymentsCache :=
  if height <? start_payments_height (fluxnode_params params) then (Ok [], c)
  else
    match block_subsidy height (consensus params) with
    | Ok block_value => payouts_loop [1; 2; 3] height block_value c
    | Err e => (Err e, c)
    | Panic => (Panic, c)
    end.

Definition address_script (address : string) (message : string) : result ChainStateError bytes :=
  map_err (fun _ => ChainValidation (InvalidTransaction message))
    (address_to_script_pubkey (ascii_bytes address) (chain_network params)).

Fixpoint remainder_after (payouts : list FluxnodePayout) (remainder : Z) : result ChainStateError Z :=
  match payouts with
  | [] => Ok remainder
  | p :: payouts =>
      remainder ← ok_or (checked_add_i64 remainder (- po_amount p)) ChainValueOutOfRange;
      remainder_after payouts remainder
  end.

(** The first payout not yet approved that the output pays, and whether there
    is one. *)
Fixpoint approve (out : TxOut) (payouts : list (FluxnodePayout * bool)) : list (FluxnodePayout * bool) * bool :=
  match payouts with
  | [] => ([], false)
  | (p, approved) :: payouts =>
      if negb approved && (value out =? po_amount p) && bool_decide (script_pubkey out = po_script_pubkey p)
      then ((p, true) :: payouts, true)
      else let '(payouts, used) := approve out payouts in ((p, approved) :: payouts, used)
  end.

(** The loop over the outputs of the coinbase.  An output that pays a
    fluxnode does not also pay the development fund. *)
Fixpoint scan_outputs (dev_fund_script : option bytes) (remainder : Z) (outs : list TxOut)
    (payouts : list (FluxnodePayout * bool)) (dev_fund_paid : bool)
    : list (FluxnodePayout * bool) * bool :=
  match outs with
  | [] => (payouts, dev_fund_paid)
  | out :: outs =>
      let '(payouts, used) := approve out payouts in
      let pays_dev :=
        match dev_fund_script with
        | Some script => bool_decide (script_pubkey out = script) && (value out >=? remainder)
        | None => false
        end in
      scan_outputs dev_fund_script remainder outs payouts (dev_fund_paid || (negb used && pays_dev))
  end.

(** [check_deterministic_fluxnode_payouts] once the payouts are known. *)
Definition check_payouts (coinbase : Transaction) (height : Z) (payouts : list FluxnodePayout)
    : result ChainStateError (list OutPoint) :=
  let check_dev_fund := network_upgrade_active height (upgrades (consensus params)) Pon in
  if is_nil payouts && negb check_dev_fund then Ok []
  else
    block_value ← block_subsidy height (consensus params);
    remainder ← remainder_after payouts block_value;
    dev_fund_script ←
      (if check_dev_fund then
         script ← address_script (dev_fund_address (funding params)) "invalid dev fund address";
         Ok (Some script)
       else Ok None);
    let '(approved, dev_fund_paid) :=
      scan_outputs dev_fund_script remainder (vout coinbase) (map (fun p => (p, false)) payouts) false in
    if check_dev_fund && negb dev_fund_paid then invalid_tx "coinbase missing dev fund remainder"
    else if existsb (fun p => negb (snd p)) approved
    then invalid_tx "coinbase missing deterministic fluxnode payout"
    else Ok (map po_outpoint payouts).

Definition check_deterministic_fluxnode_payouts (coinbase : Transaction) (height : Z) (c : PaymentsCache)
    : result ChainStateError (list OutPoint) * PaymentsCache :=
  let '(payouts, c) := expected_fluxnode_payouts height c in
  (payouts ← payouts; check_payouts coinbase height payouts, c).

(** A coinbase has an output that pays [amount], or at least [amount], to an
    address of the parameters. *)
Definition require_output (coinbase : Transaction) (pays : Z -> bool) (address invalid missing : string)
    : result ChainStateError unit :=
  script ← address_script address invalid;
  if existsb (fun out => bool_decide (script_pubkey out = script) && pays (value out)) (vout coinbase)
  then Ok tt else invalid_tx missing.

Definition check_coinbase_funding (tx : Transaction) (height : Z) : result ChainStateError unit :=
  _ ← (if network_upgrade_active height (upgrades (consensus params)) Pon then
         min_dev ← min_dev_fund_amount height (consensus params);
         if min_dev >? 0
         then require_output tx (fun v => v >=? min_dev) (dev_fund_address (funding params))
                "invalid dev fund address" "coinbase missing dev fund payment"
         else Ok tt
       else Ok tt);
  let exchange_amount := exchange_fund_amount height (funding params) in
  _ ← (if exchange_amount >? 0
       then require_output tx (fun v => v =? exchange_amount) (exchange_address (funding params))
              "invalid exchange address" "coinbase missing exchange funding"
       else Ok tt);
  let foundation_amount := foundation_fund_amount height (funding params) in
  _ ← (if foundation_amount >? 0
       then require_output tx (fun v => v =? foundation_amount) (foundation_address (funding params))
              "invalid foundation address" "coinbase missing foundation funding"
       else Ok tt);
  if is_swap_pool_interval height (swap_pool params)
  then require_output tx (fun v => v =? swap_pool_amount height (swap_pool params))
         (swap_address (swap_pool params)) "invalid swap pool address" "coinbase missing swap pool funding"
  else Ok tt.
End payees.

(** ** Expiry *)
Lemma network_upgrade_active_mono h h' upgrades idx :
  h <= h' -> network_upgrade_active h upgrades idx = true -> network_upgrade_active h' upgrades idx = true.
Proof.
  unfold network_upgrade_active, network_upgrade_state. rewrite !bool_decide_eq_true. intros Hle.
  destruct (_ =? NO_ACTIVATION_HEIGHT); [done|].
  destruct (Z.geb_spec h (activation_height (upgrade_at upgrades idx))); [|done].
  destruct (Z.geb_spec h' (activation_height (upgrade_at upgrades idx))); [done|lia].
Qed.

(** The step of the schedule an expiry count stands for. *)
Definition expiry_step (count : Z) : nat :=
  if count =? 640 then 3 else if count =? 160 then 2 else if count =? 80 then 1 else 0.

Lemma expiration_count_cases h c :
  let count := fluxnode_confirm_expiration_count h c in count = 60 \/ count = 80 \/ count = 160 \/ count = 640.
Proof.
  unfold fluxnode_confirm_expiration_count. repeat (destruct (network_upgrade_active _ _ _); [right|]); auto.
Qed.

Lemma expiration_count_mono h h' c :
  h <= h' -> fluxnode_confirm_expiration_count h c <= fluxnode_confirm_expiration_count h' c.
Proof.
  intros Hle. unfold fluxnode_confirm_expiration_count.
  pose proof (network_upgrade_active_mono h h' (upgrades c) Pon Hle).
  pose proof (network_upgrade_active_mono h h' (upgrades c) Halving Hle).
  pose proof (network_upgrade_active_mono h h' (upgrades c) Flux Hle).
  destruct (network_upgrade_active h (upgrades c) Pon), (network_upgrade_active h' (upgrades c) Pon),
    (network_upgrade_active h (upgrades c) Halving), (network_upgrade_active h' (upgrades c) Halving),
    (network_upgrade_active h (upgrades c) Flux), (network_upgrade_active h' (upgrades c) Flux);
    try (vm_compute; congruence); exfalso; naive_solver.
Qed.

(** Each round that does not end goes to a later step of the schedule. *)
Lemma expire_loop_spec rounds last c e :
  is_u32 last -> (3 - expiry_step e < rounds)%nat ->
  (e = 60 \/ e = 80 \/ e = 160 \/ e = 640) ->
  e <= fluxnode_confirm_expiration_count (i32_or_max (expire_at last e)) c ->
  exists h, expire_loop rounds last e (expire_at last e) c = Some h
    /\ h = expire_at last (fluxnode_confirm_expiration_count (i32_or_max h) c)
    /\ forall e', (e' = 60 \/ e' = 80 \/ e' = 160 \/ e' = 640) -> e <= e' ->
         e' = fluxnode_confirm_expiration_count (i32_or_max (expire_at last e')) c -> h <= expire_at last e'.
Proof.
  intros Hl. revert e; induction rounds as [|rounds IH]; intros e Hr He Hle; [lia|]. cbn [expire_loop].
  set (next := fluxnode_confirm_expiration_count (i32_or_max (expire_at last e)) c) in *.
  assert (forall a b, a <= b -> expire_at last a <= expire_at last b) as Hmono.
  { intros a b Hab. unfold expire_at, saturating_add_u32. lia. }
  destruct (Z.eqb_spec next e) as [Heq|Hne].
  - exists (expire_at last e). split_and!; [done|fold next; by rewrite Heq|]. intros e' _ Hee _. auto.
  - pose proof (expiration_count_cases (i32_or_max (expire_at last e)) c) as Hn. cbn zeta in Hn. fold next in Hn.
    destruct (IH next) as (h&H1&H2&H3).
    + unfold expiry_step in *. destruct He as [->|[->|[->| ->]]]; destruct Hn as [Hn|[Hn|[Hn|Hn]]];
        rewrite Hn in *; simpl in *; lia.
    + done.
    + unfold next at 1. apply expiration_count_mono. unfold i32_or_max. pose proof (Hmono e next). lia.
    + exists h. split_and!; [done..|]. intros e' He' Hee Hfix. apply H3; [done| |done].
      rewrite Hfix. unfold next. apply expiration_count_mono. unfold i32_or_max. pose proof (Hmono e e'). lia.
Qed.



(** ** The order is a strict order on the keys of outpoints *)
Lemma then_with_eq a b : then_with a b = Eq <-> a = Eq /\ b = Eq.
Proof. destruct a, b; naive_solver. Qed.
Lemma then_with_opp a b : CompOpp (then_with a b) = then_with (CompOpp a) (CompOpp b).
Proof. by destruct a. Qed.
Lemma then_with_lt a b : then_with a b = Lt <-> a = Lt \/ (a = Eq /\ b = Lt).
Proof. destruct a, b; naive_solver. Qed.

Lemma bytes_cmp_eq a b : bytes_cmp a b = Eq <-> a = b.
Proof.
  revert b; induction a as [|x a IH]; intros [|y b]; cbn [bytes_cmp]; try done.
  rewrite then_with_eq, Z.compare_eq_iff, IH. naive_solver.
Qed.
Lemma bytes_cmp_opp a b : bytes_cmp b a = CompOpp (bytes_cmp a b).
Proof.
  revert b; induction a as [|x a IH]; intros [|y b]; cbn [bytes_cmp]; try done.
  by rewrite then_with_opp, IH, Z.compare_antisym.
Qed.
Lemma bytes_cmp_trans a b c : bytes_cmp a b = Lt -> bytes_cmp b c = Lt -> bytes_cmp a c = Lt.
Proof.
  revert b c; induction a as [|x a IH]; intros [|y b] [|z c]; cbn [bytes_cmp]; try done.
  rewrite !then_with_lt, !Z.compare_lt_iff, !Z.compare_eq_iff.
  intros [?|[-> ?]] [?|[-> ?]]; [left; lia|by left|by left|right; split; [done|by eapply IH]].
Qed.
Lemma bool_cmp_eq a b : bool_cmp a b = Eq <-> a = b.
Proof. by destruct a, b. Qed.
Lemma bool_cmp_opp a b : bool_cmp b a = CompOpp (bool_cmp a b).
Proof. by destruct a, b. Qed.

Lemma payee_cmp_opp a b : payee_cmp b a = CompOpp (payee_cmp a b).
Proof.
  unfold payee_cmp. rewrite !then_with_opp, (bool_cmp_opp (has_last_paid a)), (bytes_cmp_opp (hash_le a)).
  by rewrite (Z.compare_antisym (comparator_height a)), (Z.compare_antisym (pk_index a)).
Qed.

Lemma payee_cmp_trans a b c : payee_cmp a b = Lt -> payee_cmp b c = Lt -> payee_cmp a c = Lt.
Proof.
  unfold payee_cmp. rewrite !then_with_lt, !Z.compare_lt_iff, !Z.compare_eq_iff, !bool_cmp_eq, !bytes_cmp_eq.
  intros [H1|[H1 [H2|[H2 [H3|[H3 H4]]]]]] [G1|[G1 [G2|[G2 [G3|[G3 G4]]]]]];
    try (left; lia); right; (split; [lia|]); try (left; congruence);
    try (left; by destruct (has_last_paid a), (has_last_paid b), (has_last_paid c)); right; (split; [congruence|]);
    try (left; congruence); try (left; by eapply bytes_cmp_trans); right; split; [congruence|lia].
Qed.

(** A key made from an outpoint: the order tells it from every other. *)
Definition payee_key_wf (k : FluxnodePayeeKey) : Prop :=
  exists o, hash_le k = hash o /\ pk_index k = op_index o /\ pk_outpoint k = OutPointKey_new o.

Lemma payee_cmp_eq a b : payee_key_wf a -> payee_key_wf b -> payee_cmp a b = Eq -> a = b.
Proof.
  intros (o&A1&A2&A3) (o'&B1&B2&B3). unfold payee_cmp.
  rewrite !then_with_eq, !Z.compare_eq_iff, bool_cmp_eq, bytes_cmp_eq. intros (E1&E2&E3&E4).
  destruct a, b; cbn in *. assert (o = o') as -> by (destruct o, o'; cbn in *; congruence). congruence.
Qed.

Lemma payee_cmp_refl a : payee_cmp a a = Eq.
Proof. unfold payee_cmp. by rewrite !then_with_eq, !Z.compare_refl, bool_cmp_eq, bytes_cmp_eq. Qed.

Lemma payee_key_some r key :
  payee_key r = Some key ->
  paid_tier (fr_tier r) = true /\ fr_confirmed_height r <> 0 /\ payee_key_wf key
  /\ pk_outpoint key = OutPointKey_new (fr_collateral r).
Proof.
  unfold payee_key. destruct (paid_tier (fr_tier r)); [|done]. cbn [negb].
  destruct (Z.eqb_spec (fr_confirmed_height r) 0); [done|]. intros [= <-].
  split_and!; [done..| |done]. by exists (fr_collateral r).
Qed.

(** ** Trees *)
Definition payee_lt (a b : FluxnodePayeeKey) : Prop := payee_cmp a b = Lt.
Definition tree_ok (t : list FluxnodePayeeKey) : Prop := StronglySorted payee_lt t /\ Forall payee_key_wf t.

Lemma tree_ok_cons x t : tree_ok (x :: t) <-> tree_ok t /\ payee_key_wf x /\ Forall (payee_lt x) t.
Proof.
  unfold tree_ok. rewrite Forall_cons. split.
  - intros [Hs [Hx Ht]]. apply StronglySorted_inv in Hs as [Hs Hf]. done.
  - intros ((Hs&Ht)&Hx&Hf). split; [by constructor|done].
Qed.

Lemma tree_insert_spec key t :
  payee_key_wf key -> tree_ok t ->
  tree_ok (tree_insert key t) /\ forall x, x ∈ tree_insert key t <-> x = key \/ x ∈ t.
Proof.
  intros Hk. induction t as [|y t IH]; intros Ht; cbn [tree_insert].
  - split; [apply tree_ok_cons; split_and!; [done|done|constructor]|]. intros x.
    by rewrite list_elem_of_singleton, elem_of_nil, (right_id False or).
  - apply tree_ok_cons in Ht as (Ht&Hy&Hf). destruct (IH Ht) as [IH1 IH2].
    destruct (payee_cmp key y) eqn:E.
    + apply payee_cmp_eq in E as <-; [|done..]. split; [by apply tree_ok_cons|]. intros x.
      rewrite elem_of_cons. naive_solver.
    + split; [|intros x; by rewrite !elem_of_cons]. apply tree_ok_cons. split_and!; [by apply tree_ok_cons|done|].
      constructor; [done|]. eapply Forall_impl; [exact Hf|]. intros z Hz. by eapply payee_cmp_trans.
    + split; [|intros x; rewrite !elem_of_cons, IH2; naive_solver]. apply tree_ok_cons. split_and!; [done..|].
      apply Forall_forall. intros z Hz. apply IH2 in Hz as [->|Hz]; [|by eapply Forall_forall in Hf].
      unfold payee_lt. by rewrite payee_cmp_opp, E.
Qed.

Lemma tree_remove_spec key t :
  payee_key_wf key -> tree_ok t ->
  tree_ok (tree_remove key t) /\ forall x, x ∈ tree_remove key t <-> x ∈ t /\ x <> key.
Proof.
  intros Hk. induction t as [|y t IH]; intros Ht; cbn [tree_remove].
  - split; [done|]. intros x. rewrite elem_of_nil. naive_solver.
  - pose proof Ht as Hyt. apply tree_ok_cons in Ht as (Ht&Hy&Hf). destruct (IH Ht) as [IH1 IH2].
    destruct (payee_cmp key y) eqn:E.
    + apply payee_cmp_eq in E as <-; [|done..]. split; [done|]. intros x. rewrite elem_of_cons.
      rewrite Forall_forall in Hf. split; [|naive_solver]. intros Hx. split; [by right|]. intros ->.
      specialize (Hf key Hx). unfold payee_lt in Hf. by rewrite payee_cmp_refl in Hf.
    + split; [done|]. intros x. split; [|by intros []]. intros Hx. split; [done|]. intros ->.
      apply elem_of_cons in Hx as [->|Hx]; [by rewrite payee_cmp_refl in E|].
      rewrite Forall_forall in Hf. specialize (Hf key Hx). unfold payee_lt in Hf.
      by rewrite payee_cmp_opp, E in Hf.
    + split.
      * apply tree_ok_cons. split_and!; [done..|]. apply Forall_forall. intros z Hz. apply IH2 in Hz as [Hz _].
        rewrite Forall_forall in Hf. auto.
      * intros x. rewrite !elem_of_cons, IH2. split; [|naive_solver]. intros [->|?]; [|naive_solver].
        split; [by left|]. intros ->. by rewrite payee_cmp_refl in E.
Qed.

(** ** The cache stands for a set of records *)
Definition listed_meta (r : FluxnodeRecord) : option FluxnodePaymentMeta :=
  match payee_key r with Some _ => Some (payment_meta r) | None => None end.
Definition listed (R : gmap OutPointKey FluxnodeRecord) (tier : Z) (key : FluxnodePayeeKey) : Prop :=
  exists k r, R !! k = Some r /\ payee_key r = Some key /\ fr_tier r = tier.

Record payments_ok (R : gmap OutPointKey FluxnodeRecord) (c : PaymentsCache) : Prop := {
  po_trees : length (by_tier c) = 3%nat;
  po_records k r : R !! k = Some r -> wf (fr_collateral r) /\ k = OutPointKey_new (fr_collateral r);
  po_keys k : key_by_outpoint c !! k = R !! k ≫= payee_key;
  po_metas k : meta_by_outpoint c !! k = R !! k ≫= listed_meta;
  po_tree tier : paid_tier tier = true ->
    tree_ok (tier_tree tier c) /\ forall key, key ∈ tier_tree tier c <-> listed R tier key }.

Lemma paid_tier_index t : paid_tier t = true -> (tier_index t < 3)%nat /\ t = Z.of_nat (tier_index t) + 1.
Proof. unfold paid_tier, tier_index. rewrite andb_true_iff, !Z.leb_le. lia. Qed.

Lemma tier_tree_alter f t t' i l k m :
  paid_tier t = true -> paid_tier t' = true -> length l = 3%nat ->
  tier_tree t (mkPayments i (alter_tier f t' l) k m)
  = if decide (t = t') then f (tier_tree t (mkPayments i l k m)) else tier_tree t (mkPayments i l k m).
Proof.
  intros Ht Ht' Hl. apply paid_tier_index in Ht as [H1 H2], Ht' as [H3 H4].
  unfold tier_tree, alter_tier. cbn [by_tier]. case_decide as E.
  - subst t'. rewrite list_lookup_alter_eq. destruct (lookup_lt_is_Some_2 l (tier_index t)) as [x ->]; [lia|done].
  - rewrite list_lookup_alter_ne; [done|]. lia.
Qed.

Lemma listed_outpoint R c tier key :
  payments_ok R c -> listed R tier key ->
  exists r, R !! pk_outpoint key = Some r /\ payee_key r = Some key /\ fr_tier r = tier /\ paid_tier tier = true.
Proof.
  intros Hc (k&r&Hr&Hk&Ht). destruct (payee_key_some r key Hk) as (Hp&_&_&Ho).
  destruct (po_records R c Hc k r Hr) as [_ ->]. exists r. rewrite Ho. by subst tier.
Qed.

Lemma listed_delete R c k tier key :
  payments_ok R c -> (listed (delete k R) tier key <-> listed R tier key /\ pk_outpoint key <> k).
Proof.
  intros Hc. split.
  - intros (k'&r&Hr&Hk&Ht). apply lookup_delete_Some in Hr as [Hne Hr]. split; [by exists k', r|].
    destruct (po_records R c Hc k' r Hr) as [_ E]. destruct (payee_key_some r key Hk) as (_&_&_&Ho). congruence.
  - intros [Hl Hne]. destruct (listed_outpoint R c tier key Hc Hl) as (r&Hr&Hk&Ht&_).
    exists (pk_outpoint key), r. by rewrite lookup_delete_ne.
Qed.

Lemma lookup_delete_bind {A : Type} (R : gmap OutPointKey FluxnodeRecord) (f : FluxnodeRecord -> option A) (k k' : OutPointKey) (m : gmap OutPointKey A) :
  m !! k' = R !! k' ≫= f -> (delete k m) !! k' = delete k R !! k' ≫= f.
Proof.
  intros Hm. destruct (decide (k' = k)) as [->|]; [by rewrite !lookup_delete_eq|by rewrite !lookup_delete_ne].
Qed.

(** Dropping a record. *)
Lemma remove_outpoint_ok R c k : payments_ok R c -> payments_ok (delete k R) (remove_outpoint k c).
Proof.
  intros Hc. pose proof Hc as [H1 H2 H3 H4 H5]. split.
  - unfold remove_outpoint. cbn [by_tier]. destruct (meta_by_outpoint c !! k), (key_by_outpoint c !! k); try done.
    destruct (paid_tier _); [|done]. unfold alter_tier. by rewrite length_alter.
  - intros k' r Hr. apply lookup_delete_Some in Hr as [_ Hr]. by apply H2.
  - intros k'. cbn [remove_outpoint key_by_outpoint]. by apply lookup_delete_bind.
  - intros k'. cbn [remove_outpoint meta_by_outpoint]. by apply lookup_delete_bind.
  - intros t Ht. unfold remove_outpoint. rewrite H4, H3.
    destruct (H5 t Ht) as [Hok Hin].
    destruct (R !! k ≫= payee_key) as [key0|] eqn:Ek.
    + destruct (R !! k) as [r|] eqn:Er; [|done]. cbn [mbind option_bind] in Ek |- *. unfold listed_meta. rewrite Ek.
      destruct (payee_key_some r key0 Ek) as (Hp&_&Hwf&Ho). cbn [payment_meta pm_tier]. rewrite Hp.
      rewrite tier_tree_alter by done. case_decide as E.
      * destruct (tree_remove_spec key0 (tier_tree t c) Hwf Hok) as [G1 G2]. split; [exact G1|]. intros key.
        rewrite (listed_delete R c k t key Hc), <- Hin. etrans; [apply G2|]. split; intros [Hkey Hx]; (split; [done|]);
          apply Hin in Hkey; destruct (listed_outpoint R c t key Hc Hkey) as (r'&Hr'&Hk'&_&_).
        -- intros <-. congruence.
        -- intros ->. apply Hx. destruct (H2 k r Er) as [_ ->]. by rewrite Ho.
      * split; [exact Hok|]. intros key. rewrite (listed_delete R c k t key Hc), <- Hin.
        split; [|by intros []]. intros Hkey. split; [done|]. intros <-. apply Hin in Hkey.
        destruct (listed_outpoint R c t key Hc Hkey) as (r'&Hr'&_&Ht'&_). congruence.
    + assert (forall key, listed R t key -> pk_outpoint key <> k) as Hne.
      { intros key Hl <-. destruct (listed_outpoint R c t key Hc Hl) as (r&Hr&Hk&_). by rewrite Hr in Ek; cbn in Ek; rewrite Hk in Ek. }
      assert (forall b : list (list FluxnodePayeeKey), b = by_tier c ->
        tree_ok (default [] (b !! tier_index t)) /\
        forall key, key ∈ default [] (b !! tier_index t) <-> listed (delete k R) t key) as Hgoal.
      { intros b ->. split; [exact Hok|]. intros key. rewrite (listed_delete R c k t key Hc).
        etrans; [apply Hin|]. naive_solver. }
      apply Hgoal. by destruct (R !! k ≫= listed_meta).
Qed.

Lemma payments_ok_reset c : payments_ok ∅ (payments_reset c).
Proof.
  split; [done|intros k r Hr; by rewrite lookup_empty in Hr|intros k; by rewrite !lookup_empty..|].
  intros t Ht. apply paid_tier_index in Ht as [Hlt _].
  assert (tier_tree t (payments_reset c) = []) as ->.
  { unfold tier_tree. cbn [payments_reset by_tier]. by destruct (tier_index t) as [|[|[|]]]; [..|lia]. }
  split; [split; constructor|]. intros key. rewrite elem_of_nil. split; [done|]. intros (k&r&Hr&_); by rewrite lookup_empty in Hr.
Qed.

(** A record that replaces what was there. *)
Lemma upsert_record_ok R c r :
  payments_ok R c -> wf (fr_collateral r) ->
  payments_ok (<[OutPointKey_new (fr_collateral r) := r]> R) (upsert_record r c).
Proof.
  intros Hc Hwf. unfold upsert_record. set (k := OutPointKey_new (fr_collateral r)).
  set (c' := match meta_by_outpoint c !! k with Some _ => remove_outpoint k c | None => c end).
  assert (payments_ok (delete k R) c') as Hc'.
  { unfold c'. destruct (meta_by_outpoint c !! k) eqn:E; [by apply remove_outpoint_ok|].
    pose proof (remove_outpoint_ok R c k Hc) as Hr. pose proof (po_metas R c Hc k) as Hm. rewrite E in Hm.
    assert (key_by_outpoint c !! k = None) as Hk.
    { rewrite (po_keys R c Hc). destruct (R !! k) as [r'|]; [|done]. cbn [mbind option_bind] in *.
      unfold listed_meta in Hm. by destruct (payee_key r'). }
    unfold remove_outpoint in Hr. rewrite E in Hr. rewrite (delete_id (key_by_outpoint c)), (delete_id (meta_by_outpoint c)) in Hr by done. by destruct c. }
  clearbody c'. clear Hc. rewrite <- insert_delete_eq. pose proof Hc' as [H1 H2 H3 H4 H5].
  assert (forall k' r', <[k := r]> (delete k R) !! k' = Some r' -> wf (fr_collateral r') /\ k' = OutPointKey_new (fr_collateral r')) as Hrec.
  { intros k' r' Hk'. apply lookup_insert_Some in Hk' as [[<- <-]|[_ Hk']]; [done|by apply H2]. }
  assert (forall t key, listed (<[k := r]> (delete k R)) t key <->
            listed (delete k R) t key \/ (payee_key r = Some key /\ fr_tier r = t)) as Hl.
  { intros t key. split.
    - intros (k'&r'&Hk'&Hp&Ht). apply lookup_insert_Some in Hk' as [[_ <-]|[_ Hk']]; [by right|left; by exists k', r'].
    - intros [(k'&r'&Hk'&Hp&Ht)|[Hp Ht]]; [exists k', r'|exists k, r; by rewrite lookup_insert_eq].
      rewrite lookup_insert_ne; [done|]. intros <-. by rewrite lookup_delete_eq in Hk'. }
  assert (forall (A : Type) (f : FluxnodeRecord -> option A) (m : gmap OutPointKey A) k',
    m !! k' = delete k R !! k' ≫= f -> forall a, f r = a ->
    (match a with Some x => <[k := x]> m | None => m end) !! k' = <[k := r]> (delete k R) !! k' ≫= f) as Hmap.
  { intros A f m k' Hm a Hf. destruct (decide (k' = k)) as [->|Hne].
    - rewrite lookup_insert_eq. cbn [mbind option_bind]. rewrite Hf. destruct a; [apply lookup_insert_eq|].
      by rewrite Hm, lookup_delete_eq.
    - rewrite (lookup_insert_ne (delete k R)) by done. rewrite <- Hm. destruct a; [by apply lookup_insert_ne|done]. }
  destruct (payee_key r) as [key|] eqn:Ek.
  - destruct (payee_key_some r key Ek) as (Hp&_&Hkwf&Ho). split; [|exact Hrec| | |].
    + cbn [by_tier]. unfold alter_tier. by rewrite length_alter.
    + intros k'. by apply (Hmap _ payee_key (key_by_outpoint c') k' (H3 k') (Some key)).
    + intros k'. apply (Hmap _ listed_meta (meta_by_outpoint c') k' (H4 k') (Some (payment_meta r))).
      unfold listed_meta. by rewrite Ek.
    + intros t Ht. rewrite tier_tree_alter by done. destruct (H5 t Ht) as [Hok Hin]. case_decide as E.
      * destruct (tree_insert_spec key (tier_tree t c') Hkwf Hok) as [G1 G2]. split; [exact G1|].
        intros x. rewrite Hl, <- Hin. etrans; [apply G2|]. naive_solver.
      * split; [exact Hok|]. intros x. rewrite Hl, <- Hin. naive_solver.
  - split; [done|exact Hrec| | |].
    + intros k'. by apply (Hmap _ payee_key (key_by_outpoint c') k' (H3 k') None).
    + intros k'. apply (Hmap _ listed_meta (meta_by_outpoint c') k' (H4 k') None). unfold listed_meta. by rewrite Ek.
    + intros t Ht. destruct (H5 t Ht) as [Hok Hin]. split; [done|]. intros x. rewrite Hl, <- Hin. naive_solver.
Qed.

(** ** The choice of a payee *)
Section choice.
  Context {H : Hashes} {S : Type} `{KVL : KeyValueStoreLaws S} (store : S) (params : ChainParams).
  Context (utxos : gmap OutPoint UtxoEntry) (Hutxos : utxo_represents store utxos).

(** A record whose fluxnode is paid at [pay_height]: of the tier, confirmed,
    not expired, and with its collateral unspent and of the tier's amount. *)
Definition eligible (tier pay_height : Z) (r : FluxnodeRecord) : bool :=
  (fr_tier r =? tier) && negb (fr_confirmed_height r =? 0)
  && negb (fluxnode_confirm_expired_for_pay_height pay_height (fr_last_confirmed_height r) (consensus params))
  && match utxos !! fr_collateral r with
     | Some utxo => fluxnode_collateral_matches_tier pay_height (ue_value utxo) tier (fluxnode_params params)
     | None => false
     end.

(** The keys a record needs to be paid are stored. *)
Definition payable (r : FluxnodeRecord) : Prop :=
  match fr_p2sh_script r, fr_collateral_pubkey r with
  | Some k, _ | None, Some k => exists bs, load_key store k = Ok (Some bs)
  | None, None => False
  end.

Lemma payee_script_total utxo r :
  payable r -> exists script, fluxnode_payee_script store params utxo (payment_meta r) = Ok script.
Proof.
  unfold payable, fluxnode_payee_script, stored_key. cbn [payment_meta pm_p2sh_script pm_collateral_pubkey].
  destruct (fr_p2sh_script r) as [k|]; [|destruct (fr_collateral_pubkey r) as [k|]; [|done]];
    intros [bs Hbs]; cbn [ok_or mbind result_bind]; rewrite Hbs; cbn [map_err mbind result_bind ok_or]; [by eexists|].
  destruct (is_p2sh_signing_key params bs); by eexists.
Qed.

Lemma outpoint_of_key_new o : wf o -> outpoint_of_key (OutPointKey_new o) = o.
Proof.
  intros [[Hh _] Hi]. unfold outpoint_of_key, OutPointKey_new. destruct o as [h i]; cbn [hash op_index] in *.
  rewrite slice_first by (rewrite ?Hh; done). rewrite slice_last by (rewrite ?length_le_bytes, Hh; done).
  by rewrite from_le_le_bytes_4.
Qed.

(** The head of a tree: the record that has waited longest. *)
Lemma payee_round_ok R c tier pay_height :
  payments_ok R c -> paid_tier tier = true -> (forall k r, R !! k = Some r -> payable r) ->
  match payee_round store params tier pay_height c with
  | inl (Ok None) => forall key, ~ listed R tier key
  | inl (Ok (Some (o, script))) =>
      exists r key utxo, R !! OutPointKey_new o = Some r /\ payee_key r = Some key /\ fr_collateral r = o
        /\ eligible tier pay_height r = true /\ utxos !! o = Some utxo
        /\ fluxnode_payee_script store params utxo (payment_meta r) = Ok script
        /\ forall key', listed R tier key' -> key' = key \/ payee_cmp key key' = Lt
  | inl _ => False
  | inr c' =>
      exists k r, R !! k = Some r /\ fr_tier r = tier /\ eligible tier pay_height r = false
        /\ c' = remove_outpoint k c /\ is_Some (meta_by_outpoint c !! k)
  end.
Proof.
  intros Hc Ht Hpay. pose proof Hc as [H1 H2 H3 H4 H5]. destruct (H5 tier Ht) as [Hok Hin]. unfold payee_round.
  destruct (tier_tree tier c) as [|key tree] eqn:Etree.
  { intros key Hl. apply Hin in Hl. by apply elem_of_nil in Hl. }
  assert (listed R tier key) as Hl by (apply Hin; by left).
  destruct (listed_outpoint R c tier key Hc Hl) as (r&Hr&Hk&Htier&_).
  destruct (payee_key_some r key Hk) as (_&Hconf&_&_).
  destruct (H2 _ r Hr) as [Hwf Hko].
  assert (meta_by_outpoint c !! pk_outpoint key = Some (payment_meta r)) as Hm.
  { rewrite H4, Hr. cbn [mbind option_bind]. unfold listed_meta. by rewrite Hk. }
  rewrite Hm. cbn [payment_meta pm_tier pm_last_confirmed_height]. rewrite Htier, Z.eqb_refl. cbn [negb].
  assert (forall b, eligible tier pay_height r = false -> b = false ->
    exists k r0, R !! k = Some r0 /\ fr_tier r0 = tier /\ eligible tier pay_height r0 = b
      /\ remove_outpoint (pk_outpoint key) c = remove_outpoint k c /\ is_Some (meta_by_outpoint c !! k)) as Hdrop.
  { intros b He ->. exists (pk_outpoint key), r. by rewrite Hm. }
  assert (eligible tier pay_height r
    = negb (fluxnode_confirm_expired_for_pay_height pay_height (fr_last_confirmed_height r) (consensus params))
      && match utxos !! fr_collateral r with
         | Some utxo => fluxnode_collateral_matches_tier pay_height (ue_value utxo) tier (fluxnode_params params)
         | None => false
         end) as He.
  { unfold eligible. rewrite Htier, Z.eqb_refl. destruct (Z.eqb_spec (fr_confirmed_height r) 0); [done|]. done. }
  destruct (fluxnode_confirm_expired_for_pay_height _ _ _) eqn:Eexp; [by apply Hdrop|]. cbn [negb andb] in He.
  rewrite Hko, outpoint_of_key_new by done. rewrite (Hutxos _ Hwf). cbn [map_err].
  destruct (utxos !! fr_collateral r) as [utxo|] eqn:Eu; [|by rewrite <- Hko; apply Hdrop].
  destruct (fluxnode_collateral_matches_tier _ _ _ _) eqn:Em; cbn [negb]; [|by rewrite <- Hko; apply Hdrop].
  destruct (payee_script_total utxo r (Hpay _ _ Hr)) as [script Hs].
  rewrite Hs. cbn [mbind result_bind]. exists r, key, utxo. rewrite <- Hko. split_and!; try done.
  intros key' Hl'. apply Hin, elem_of_cons in Hl' as [->|Hl']; [by left|right].
  apply tree_ok_cons in Hok as (_&_&Hf). rewrite Forall_forall in Hf. by apply Hf.
Qed.

(** ** The loop ends *)
Lemma tree_remove_length key t : (length (tree_remove key t) <= length t)%nat.
Proof. induction t as [|x t IH]; cbn [tree_remove length]; [lia|]. destruct (payee_cmp key x); cbn [length]; lia. Qed.

Lemma tier_tree_alter_length t key t' i l k m :
  (length (tier_tree t (mkPayments i (alter_tier (tree_remove key) t' l) k m))
   <= length (tier_tree t (mkPayments i l k m)))%nat.
Proof.
  unfold tier_tree, alter_tier. cbn [by_tier]. destruct (decide (tier_index t = tier_index t')) as [->|Hne].
  - rewrite list_lookup_alter_eq. destruct (l !! tier_index t'); cbn; [apply tree_remove_length|lia].
  - by rewrite list_lookup_alter_ne.
Qed.

Lemma remove_outpoint_length t k c : (length (tier_tree t (remove_outpoint k c)) <= length (tier_tree t c))%nat.
Proof.
  unfold remove_outpoint. destruct (meta_by_outpoint c !! k), (key_by_outpoint c !! k); try done.
  destruct (paid_tier _); [|done]. etrans; [apply tier_tree_alter_length|]. done.
Qed.

Lemma payee_round_decreases tier pay_height c c' :
  payee_round store params tier pay_height c = inr c' -> (payee_rounds tier c' < payee_rounds tier c)%nat.
Proof.
  unfold payee_round, payee_rounds. destruct (tier_tree tier c) as [|key tree] eqn:Et; [done|].
  assert (forall k meta, meta_by_outpoint c !! k = Some meta -> remove_outpoint k c = c' ->
    (Datatypes.S (length (tier_tree tier c') + size (meta_by_outpoint c'))
     < Datatypes.S (length (key :: tree) + size (meta_by_outpoint c)))%nat) as Hdrop.
  { intros k meta Hm <-. pose proof (remove_outpoint_length tier k c) as Hl. rewrite Et in Hl.
    cbn [remove_outpoint meta_by_outpoint]. rewrite (map_size_delete_Some k) by (by exists meta).
    assert (size (meta_by_outpoint c) <> 0%nat); [|lia]. intros E. apply map_size_empty_inv in E. by rewrite E in Hm. }
  destruct (meta_by_outpoint c !! pk_outpoint key) as [meta|] eqn:Em.
  - destruct (negb _); [intros [= E]; by eapply Hdrop|]. destruct (fluxnode_confirm_expired_for_pay_height _ _ _);
      [intros [= E]; by eapply Hdrop|].
    destruct (map_err ChainStore _) as [[utxo|]|e|]; [|intros [= E]; by eapply Hdrop|done..].
    destruct (negb _); [intros [= E]; by eapply Hdrop|done].
  - intros [= <-]. cbn [meta_by_outpoint]. unfold tier_tree in *. cbn [by_tier]. unfold alter_tier.
    rewrite list_lookup_alter_eq. destruct (by_tier c !! tier_index tier) as [t|]; [|done]. cbn in Et |- *. subst t.
    cbn [tree_remove]. rewrite payee_cmp_refl. cbn [length]. lia.
Qed.

Lemma payee_loop_ends tier pay_height rounds c :
  (payee_rounds tier c <= rounds)%nat -> is_Some (payee_loop store params rounds tier pay_height c).
Proof.
  revert c; induction rounds as [|rounds IH]; intros c Hr; [unfold payee_rounds in Hr; lia|]. cbn [payee_loop].
  destruct (payee_round store params tier pay_height c) as [r|c'] eqn:E; [done|]. apply IH.
  apply payee_round_decreases in E. lia.
Qed.

(** ** What the loop returns *)

(** [R'] is [R] without some records that [tier] does not pay. *)
Definition only_ineligible_dropped (tier pay_height : Z) (R R' : gmap OutPointKey FluxnodeRecord) : Prop :=
  forall k r, R !! k = Some r ->
    R' !! k = Some r \/ (R' !! k = None /\ fr_tier r = tier /\ eligible tier pay_height r = false).

(** [r] comes before every other eligible record. *)
Definition waits_longer (r r' : FluxnodeRecord) : Prop :=
  exists key key', payee_key r = Some key /\ payee_key r' = Some key' /\ payee_cmp key key' = Lt.

Definition chosen (tier pay_height : Z) (R : gmap OutPointKey FluxnodeRecord)
    (res : result ChainStateError (option (OutPoint * bytes))) : Prop :=
  match res with
  | Ok None => forall k r, R !! k = Some r -> eligible tier pay_height r = false
  | Ok (Some (o, script)) =>
      exists r utxo, R !! OutPointKey_new o = Some r /\ fr_collateral r = o
        /\ eligible tier pay_height r = true /\ utxos !! o = Some utxo
        /\ fluxnode_payee_script store params utxo (payment_meta r) = Ok script
        /\ forall k' r', R !! k' = Some r' -> eligible tier pay_height r' = true -> r' = r \/ waits_longer r r'
  | _ => False
  end.

Lemma eligible_listed tier pay_height r :
  paid_tier tier = true -> eligible tier pay_height r = true -> exists key, payee_key r = Some key /\ fr_tier r = tier.
Proof.
  intros Ht. unfold eligible, payee_key. rewrite !andb_true_iff, Z.eqb_eq. intros [[[-> Hc] _] _].
  rewrite Ht. destruct (fr_confirmed_height r =? 0); [done|]. by eexists.
Qed.

Lemma payee_loop_ok tier pay_height rounds R c :
  payments_ok R c -> paid_tier tier = true -> (forall k r, R !! k = Some r -> payable r) ->
  (payee_rounds tier c <= rounds)%nat ->
  exists res c' R', payee_loop store params rounds tier pay_height c = Some (res, c')
    /\ payments_ok R' c' /\ pc_initialized c' = pc_initialized c
    /\ only_ineligible_dropped tier pay_height R R' /\ R' ⊆ R /\ chosen tier pay_height R res.
Proof.
  intros Hc Ht. revert R c Hc; induction rounds as [|rounds IH]; intros R c Hc Hpay Hr.
  { unfold payee_rounds in Hr. lia. }
  cbn [payee_loop]. pose proof (payee_round_ok R c tier pay_height Hc Ht Hpay) as Hround.
  destruct (payee_round store params tier pay_height c) as [res|c'] eqn:E.
  - exists res, c, R. split_and!; [done..|by left|done|].
    destruct res as [[[o script]|]| |]; [| |done..]; cbn [chosen].
    + destruct Hround as (r&key&utxo&H1&H2&H3&H4&H5&H6&H7). exists r, utxo. split_and!; [done..|].
      intros k' r' Hr' He. destruct (eligible_listed tier pay_height r' Ht He) as (key'&Hk'&Ht').
      destruct (H7 key') as [->|Hlt]; [by exists k', r'| |right; by exists key, key'].
      left. destruct (payee_key_some r key H2) as (_&_&_&Ho). destruct (payee_key_some r' key Hk') as (_&_&_&Ho').
      destruct (po_records R c Hc _ r' Hr') as [_ ->]. rewrite <- Ho', Ho, H3, H1 in Hr'. congruence.
    + intros k r Hk. destruct (eligible tier pay_height r) eqn:He; [|done].
      destruct (eligible_listed tier pay_height r Ht He) as (key&Hkey&Htier). destruct (Hround key). by exists k, r.
  - destruct Hround as (k&r&Hk&Htier&He&->&_).
    destruct (IH (delete k R) (remove_outpoint k c)) as (res&c'&R'&H1&H2&H3&H4&H5&H6).
    + by apply remove_outpoint_ok.
    + intros k' r' Hr'. apply lookup_delete_Some in Hr' as [_ Hr']. eauto.
    + apply payee_round_decreases in E. lia.
    + exists res, c', R'. split_and!; [done..| | |].
      * intros k' r' Hr'. destruct (decide (k' = k)) as [->|Hne].
        -- right. rewrite Hk in Hr'. injection Hr' as <-. split; [|done]. destruct (R' !! k) eqn:E'; [|done].
           eapply lookup_weaken in E'; [|exact H5]. by rewrite lookup_delete_eq in E'.
        -- apply H4. by rewrite lookup_delete_ne.
      * etrans; [exact H5|apply delete_subseteq].
      * destruct res as [[[o script]|]| |]; [| |done..]; cbn [chosen] in *.
        -- destruct H6 as (r0&utxo&G1&G2&G3&G4&G5&G6). apply lookup_delete_Some in G1 as [Hne G1].
           exists r0, utxo. split_and!; [done..|]. intros k' r' Hr' He'. apply (G6 k'); [|done].
           rewrite lookup_delete_ne; [done|]. intros <-. congruence.
        -- intros k' r' Hr'. destruct (decide (k' = k)) as [->|Hne]; [congruence|].
           apply (H6 k'). by rewrite lookup_delete_ne.
Qed.

(** ** Loading the cache *)

(** The records of the store. *)
Definition stored_records (R : gmap OutPointKey FluxnodeRecord) : Prop :=
  forall k, match contents store !! (Fluxnode, k) with
            | Some v => exists r, FluxnodeRecord_decode v = Ok r /\ R !! k = Some r
                          /\ wf (fr_collateral r) /\ k = OutPointKey_new (fr_collateral r)
            | None => R !! k = None
            end.

Lemma load_records_ok (entries : list (bytes * bytes)) (R R0 : gmap OutPointKey FluxnodeRecord) (c : PaymentsCache) :
  payments_ok R0 c ->
  (forall k v, (k, v) ∈ entries -> exists r, FluxnodeRecord_decode v = Ok r /\ R !! k = Some r
                 /\ wf (fr_collateral r) /\ k = OutPointKey_new (fr_collateral r)) ->
  exists c' (R' : gmap OutPointKey FluxnodeRecord), load_records entries c = (Ok tt, c') /\ payments_ok R' c' /\ pc_initialized c' = pc_initialized c
    /\ forall k, R' !! k = if decide (k ∈ entries.*1) then R !! k else R0 !! k.
Proof.
  revert R0 c; induction entries as [|[k v] entries IH]; intros R0 c Hc He.
  { exists c, R0. split_and!; [done..|]. intros k. by rewrite decide_False by apply not_elem_of_nil. }
  destruct (He k v) as (r&Hd&Hr&Hwf&Hk); [by left|]. cbn [load_records]. rewrite Hd.
  destruct (IH _ _ (upsert_record_ok R0 c r Hc Hwf)) as (c'&R'&H1&H2&H3&H4).
  { intros k' v' Hin. apply He. by right. }
  exists c', R'. split_and!; [done..| |].
  - rewrite H3. unfold upsert_record. destruct (meta_by_outpoint c !! _), (payee_key r); done.
  - intros k'. rewrite H4. cbn [fmap list_fmap fst]. rewrite <- Hk.
    destruct (decide (k' ∈ entries.*1)) as [Hin|Hin]; [by rewrite decide_True by (by right)|].
    destruct (decide (k' = k)) as [->|Hne]; [rewrite decide_True by (by left); by rewrite lookup_insert_eq|].
    rewrite decide_False, lookup_insert_ne by (rewrite ?elem_of_cons; naive_solver). done.
Qed.

Lemma ensure_loaded_ok R c :
  pc_initialized c = false -> stored_records R ->
  exists c', ensure_fluxnode_payments_cache_loaded store c = (Ok tt, c') /\ payments_ok R c' /\ pc_initialized c' = true.
Proof.
  intros Hi HR. unfold ensure_fluxnode_payments_cache_loaded. rewrite Hi.
  destruct (kv_scan_prefix_spec store Fluxnode []) as (entries&->&_&_&Hin).
  destruct (load_records_ok entries R ∅ (payments_reset c)) as (c'&R'&H1&H2&H3&H4); [apply payments_ok_reset| |].
  - intros k v Hkv. apply Hin in Hkv as [Hkv _]. specialize (HR k). by rewrite Hkv in HR.
  - exists c'. rewrite H1, H3. split_and!; [done| |done]. replace R with R'; [done|]. apply map_eq. intros k.
    rewrite H4. case_decide as E; [done|]. rewrite lookup_empty. specialize (HR k).
    destruct (contents store !! (Fluxnode, k)) as [v|] eqn:Ev; [|done]. destruct E.
    apply list_elem_of_fmap. exists (k, v). split; [done|]. apply Hin. split; [done|by destruct k].
Qed.

(** The cache is the image of [R]: filled from it and kept up to date, or
    about to be filled from a store that holds it. *)
Definition payments_reflect (R : gmap OutPointKey FluxnodeRecord) (c : PaymentsCache) : Prop :=
  if pc_initialized c then payments_ok R c else stored_records R.
End choice.

(** ** Following the store *)

(** What a write of the fluxnode column does to the records. *)
Definition apply_record_op (R : gmap OutPointKey FluxnodeRecord) (op : WriteOp) : gmap OutPointKey FluxnodeRecord :=
  match op with
  | Put Fluxnode k v => match FluxnodeRecord_decode v with Ok r => <[k := r]> R | _ => R end
  | Storage.Delete Fluxnode k => delete k R
  | _ => R
  end.

(** Records are written under the key of their collateral. *)
Definition record_op_ok (op : WriteOp) : Prop :=
  match op with
  | Put Fluxnode k v =>
      match FluxnodeRecord_decode v with
      | Ok r => wf (fr_collateral r) /\ k = OutPointKey_new (fr_collateral r)
      | _ => False
      end
  | Storage.Delete Fluxnode k => length k = OUTPOINT_KEY_LEN
  | _ => True
  end.

Lemma commit_payment_ops_ok batch R c :
  payments_ok R c -> Forall record_op_ok batch ->
  exists c', commit_payment_ops batch c = (Ok tt, c') /\ payments_ok (foldl apply_record_op R batch) c'
    /\ pc_initialized c' = pc_initialized c.
Proof.
  intros Hc Hb. revert R c Hc; induction Hb as [|op batch Hop _ IH]; intros R c Hc; [by exists c|].
  cbn [commit_payment_ops foldl].
  assert (exists c1, commit_payment_op c op = Ok c1 /\ payments_ok (apply_record_op R op) c1
            /\ pc_initialized c1 = pc_initialized c) as (c1&->&Hc1&<-); [|by apply IH].
  destruct op as [[] k v|[] k]; try (by exists c); cbn [commit_payment_op apply_record_op record_op_ok] in *.
  - destruct (FluxnodeRecord_decode v) as [r| |]; [|done..]. destruct Hop as [Hwf ->].
    exists (upsert_record r c). split_and!; [done|by apply upsert_record_ok|].
    unfold upsert_record. destruct (meta_by_outpoint c !! _), (payee_key r); done.
  - unfold OutPointKey_from_slice. rewrite Hop. cbn. exists (remove_outpoint k c).
    split_and!; [done|by apply remove_outpoint_ok|done].
Qed.

Section following.
  Context {S : Type} `{KVL : KeyValueStoreLaws S}.

Lemma stored_records_op (m : Contents) op R :
  record_op_ok op ->
  (forall k, match m !! (Fluxnode, k) with
             | Some v => exists r, FluxnodeRecord_decode v = Ok r /\ R !! k = Some r
                           /\ wf (fr_collateral r) /\ k = OutPointKey_new (fr_collateral r)
             | None => R !! k = None
             end) ->
  forall k, match apply_op m op !! (Fluxnode, k) with
            | Some v => exists r, FluxnodeRecord_decode v = Ok r /\ apply_record_op R op !! k = Some r
                          /\ wf (fr_collateral r) /\ k = OutPointKey_new (fr_collateral r)
            | None => apply_record_op R op !! k = None
            end.
Proof.
  intros Hop HR k. destruct op as [col k0 v0|col k0]; cbn [apply_op]; destruct (decide (col = Fluxnode)) as [->|Hcol].
  - cbn [record_op_ok apply_record_op] in *. destruct (FluxnodeRecord_decode v0) as [r| |] eqn:Hd; [|done..].
    destruct Hop as [Hwf Hk0]. destruct (decide (k = k0)) as [->|Hne].
    + rewrite !lookup_insert_eq. by exists r.
    + rewrite !lookup_insert_ne by congruence. apply HR.
  - rewrite lookup_insert_ne by congruence. replace (apply_record_op R (Put col k0 v0)) with R by (by destruct col).
    apply HR.
  - cbn [apply_record_op]. destruct (decide (k = k0)) as [->|Hne]; [by rewrite !lookup_delete_eq|].
    rewrite !lookup_delete_ne by congruence. apply HR.
  - rewrite lookup_delete_ne by congruence.
    replace (apply_record_op R (Storage.Delete col k0)) with R by (by destruct col). apply HR.
Qed.

Lemma stored_records_commit (s s' : S) batch R :
  stored_records s R -> Forall record_op_ok batch -> kv_write_batch s batch = Ok s' ->
  stored_records s' (foldl apply_record_op R batch).
Proof.
  intros HR Hb Hw. destruct (kv_write_batch_spec s batch) as (s2&Hw2&Hs). rewrite Hw in Hw2. injection Hw2 as <-.
  unfold stored_records in *. rewrite Hs. clear Hs Hw. generalize dependent (contents s). intros m HR.
  revert m R HR. induction Hb as [|op batch Hop _ IH]; intros m R HR; [done|]. cbn [foldl]. apply IH.
  by apply stored_records_op.
Qed.

(** The cache of payments follows the store.  Committing a batch whose
    fluxnode records are filed under their collateral leaves a cache that
    stands for the records of the store after the batch, whether the cache
    was filled before the batch or is filled after it. *)
Theorem payments_cache_follows_store (s s' : S) (batch : WriteBatch) (R : gmap OutPointKey FluxnodeRecord)
    (c : PaymentsCache) :
  stored_records s R -> payments_reflect s R c -> Forall record_op_ok batch ->
  kv_write_batch s batch = Ok s' ->
  exists c', commit_payments batch c = (Ok tt, c')
    /\ stored_records s' (foldl apply_record_op R batch)
    /\ payments_reflect s' (foldl apply_record_op R batch) c'.
Proof.
  intros HR Hc Hb Hw. pose proof (stored_records_commit s s' batch R HR Hb Hw) as HR'.
  unfold commit_payments, payments_reflect in *. destruct (pc_initialized c) eqn:Ei.
  - destruct (commit_payment_ops_ok batch R c Hc Hb) as (c'&H1&H2&H3). exists c'. by rewrite H3, Ei.
  - exists c. by rewrite Ei.
Qed.

End following.

(** ** A store with two fluxnodes of the first tier *)
Definition node_pubkey : bytes := [2; 7].
Definition node_outpoint (i : Z) : OutPoint := mkOutPoint (replicate 32 i) 1.
Definition node_record (i confirmed last_confirmed last_paid : Z) : FluxnodeRecord := {|
  fr_collateral := node_outpoint i; fr_tier := 1; fr_start_height := 500;
  fr_confirmed_height := confirmed; fr_last_confirmed_height := last_confirmed;
  fr_last_paid_height := last_paid; fr_collateral_value := V1_FLUXNODE_COLLAT_CUMULUS;
  fr_operator_pubkey := dedupe_key node_pubkey; fr_collateral_pubkey := Some (dedupe_key node_pubkey);
  fr_p2sh_script := None; fr_delegates := None; fr_ip := [] |}.
Definition node_put (r : FluxnodeRecord) : WriteOp :=
  Put Fluxnode (OutPointKey_new (fr_collateral r)) (FluxnodeRecord_encode r).

(** The first was confirmed before the second, which was paid since. *)
Definition node_a : FluxnodeRecord := node_record 17 700 1500 0.
Definition node_b : FluxnodeRecord := node_record 34 600 1540 900.
Definition nodes_batch : WriteBatch :=
  [Put FluxnodeKey (dedupe_key node_pubkey) node_pubkey; node_put node_a; node_put node_b].
Definition nodes_records : gmap OutPointKey FluxnodeRecord := foldl apply_record_op ∅ nodes_batch.

Definition node_utxo : UtxoEntry := mkUtxoEntry V1_FLUXNODE_COLLAT_CUMULUS (p2pkh_script (zeros 20)) 400 false.
Definition node_changes : list UtxoChange :=
  [Created (node_outpoint 17) node_utxo; Created (node_outpoint 34) node_utxo].
Definition node_utxos : gmap OutPoint UtxoEntry := foldl apply_change ∅ node_changes.

Definition commit_to (s : MemoryStore) (batch : WriteBatch) : MemoryStore :=
  match kv_write_batch s batch with Ok s' => s' | _ => s end.
Definition nodes_store : MemoryStore := commit_to memory_new nodes_batch.
Definition node_store : MemoryStore := commit_to nodes_store (foldl utxo_change [] node_changes).

Lemma nodes_batch_ok : Forall record_op_ok nodes_batch.
Proof.
  unfold nodes_batch. rewrite !Forall_cons. cbn [record_op_ok node_put].
  rewrite !FluxnodeRecord_decode_encode by by_decide. split_and!; first [exact I|by_decide|apply Forall_nil_2].
Qed.

Lemma node_store_utxos : utxo_represents node_store node_utxos.
Proof.
  destruct (utxo_changes_commit nodes_store ∅ node_changes) as (s'&Hw&Hu&_).
  - intros o _. unfold utxo_get.
    destruct (kv_commit memory_new nodes_batch) as (s'&Hw&Hg). injection Hw as Hw.
    replace nodes_store with s' by (unfold nodes_store, commit_to; rewrite <- Hw; done).
    rewrite Hg. cbn [last_write nodes_batch node_put]. by rewrite !bool_decide_false by congruence.
  - by_decide.
  - unfold node_store, commit_to. by rewrite Hw.
Qed.

Lemma node_store_records : stored_records node_store nodes_records.
Proof.
  replace nodes_records with (foldl apply_record_op nodes_records (foldl utxo_change [] node_changes)) by done.
  apply (stored_records_commit nodes_store); [|by rewrite utxo_changes_ops; repeat constructor|done].
  apply (stored_records_commit memory_new); [|apply nodes_batch_ok|done]. by intros k.
Qed.

Lemma nodes_records_eq :
  nodes_records = <[OutPointKey_new (node_outpoint 34) := node_b]> (<[OutPointKey_new (node_outpoint 17) := node_a]> ∅).
Proof.
  unfold nodes_records, nodes_batch. cbn [foldl apply_record_op node_put].
  by rewrite !FluxnodeRecord_decode_encode by by_decide.
Qed.

Lemma nodes_payable k r : nodes_records !! k = Some r -> payable node_store r.
Proof.
  rewrite nodes_records_eq, !lookup_insert_Some, lookup_empty.
  intros [[_ <-]|[_ [[_ <-]|[_ ?]]]]; [..|done]; exists node_pubkey; by vm_compute.
Qed.


Lemma payments_cache_follows_store_witness :
  exists c', commit_payments nodes_batch payments_new = (Ok tt, c')
    /\ stored_records nodes_store (foldl apply_record_op ∅ nodes_batch)
    /\ payments_reflect nodes_store (foldl apply_record_op ∅ nodes_batch) c'.
Proof.
  apply (payments_cache_follows_store memory_new nodes_store nodes_batch ∅ payments_new);
    [by intros k|by intros k|apply nodes_batch_ok|done].
Defined.

(** The second node is paid after the first while both are confirmed. *)
Definition payee_at (pay_height : Z) (c : PaymentsCache) :=
  next_fluxnode_payee node_store mainnet_chain_params 1 pay_height c.
Definition payee_script : bytes := p2pkh_script (hash160 node_pubkey).

Example payee_oldest : (payee_at 1550 payments_new).1 = Ok (Some (node_outpoint 17, payee_script)).
Proof. vm_compute. reflexivity. Qed.

(** A choice for a height forgets the nodes that are not payable there.  The
    first node expires at height 1561: once the choice has been asked for
    that height, a block that replaces an earlier one is held to paying the
    second node, where a node that starts afresh on the same store expects the
    first. *)
Theorem payee_depends_on_earlier_queries :
  let warm := (payee_at 1561 payments_new).2 in
  (payee_at 1550 warm).1 = Ok (Some (node_outpoint 34, payee_script))
  /\ (payee_at 1550 payments_new).1 = Ok (Some (node_outpoint 17, payee_script)).
Proof. vm_compute. auto. Qed.

(** A load that fails leaves the cache marked as filled: the next choice no
    longer reports the damaged record. *)
Definition damaged_store : MemoryStore := commit_to memory_new [Put Fluxnode (zeros 36) [1]].
Example failed_load_not_repeated :
  let c := (next_fluxnode_payee damaged_store mainnet_chain_params 1 1550 payments_new) in
  is_ok c.1 = false /\ (next_fluxnode_payee damaged_store mainnet_chain_params 1 1550 c.2).1 = Ok None.
Proof. vm_compute. auto. Qed.

(** ** What an accepted coinbase pays *)
Definition pays_payout (out : TxOut) (p : FluxnodePayout) : Prop :=
  value out = po_amount p /\ script_pubkey out = po_script_pubkey p.

Lemma approve_spec out l :
  let '(l', used) := approve out l in
  if used then exists j p, l !! j = Some (p, false) /\ pays_payout out p /\ l' = <[j := (p, true)]> l
  else l' = l.
Proof.
  induction l as [|[p b] l IH]; cbn [approve]; [done|].
  destruct (negb b && (value out =? po_amount p) && bool_decide (script_pubkey out = po_script_pubkey p)) eqn:E.
  - apply andb_true_iff in E as [[Hb Hv]%andb_true_iff Hs]. apply negb_true_iff in Hb as ->.
    apply Z.eqb_eq in Hv. apply bool_decide_eq_true in Hs. by exists 0%nat, p.
  - destruct (approve out l) as [l' used]. destruct used; [|by rewrite IH].
    destruct IH as (j&p'&Hj&Hp&->). by exists (Datatypes.S j), p'.
Qed.

Section paying.
  Context (all : list TxOut) (dev_fund_script : option bytes) (remainder : Z).

Definition pays_dev (out : TxOut) : Prop :=
  exists script, dev_fund_script = Some script /\ script_pubkey out = script /\ value out >= remainder.

(** After the first [n] outputs: [assign] gives each approved payout an
    output of its own, and the output that pays the fund is none of them. *)
Record paid_so_far (n : nat) (assign : nat -> option nat) (l : list (FluxnodePayout * bool)) (dev : bool) : Prop := {
  psf_approved j p : l !! j = Some (p, true) ->
    exists i out, assign j = Some i /\ all !! i = Some out /\ pays_payout out p;
  psf_open j p : l !! j = Some (p, false) -> assign j = None;
  psf_range j i : assign j = Some i -> (i < n)%nat;
  psf_inj j1 j2 i : assign j1 = Some i -> assign j2 = Some i -> j1 = j2;
  psf_dev : dev = true -> exists i out, (i < n)%nat /\ all !! i = Some out /\ pays_dev out /\ forall j, assign j <> Some i }.

Lemma scan_outputs_spec outs n assign l dev :
  drop n all = outs -> paid_so_far n assign l dev ->
  let '(l', dev') := scan_outputs dev_fund_script remainder outs l dev in
  map fst l' = map fst l /\ exists assign', paid_so_far (n + length outs) assign' l' dev'.
Proof.
  revert n assign l dev; induction outs as [|out outs IH]; intros n assign l dev Hd Hpsf; cbn [scan_outputs].
  { split; [done|]. exists assign. by rewrite Nat.add_0_r. }
  assert (all !! n = Some out) as Hn by (rewrite <- (Nat.add_0_r n), <- lookup_drop, Hd; done).
  assert (drop (Datatypes.S n) all = outs) as Hd'.
  { rewrite <- Nat.add_1_r, <- drop_drop, Hd. done. }
  pose proof (approve_spec out l) as Ha. destruct (approve out l) as [l1 used].
  set (dev1 := _ || _).
  assert (map fst l1 = map fst l /\ exists assign1, paid_so_far (Datatypes.S n) assign1 l1 dev1) as [Hm [assign1 H1]].
  { destruct Hpsf as [P1 P2 P3 P4 P5]. destruct used; unfold dev1; cbn [negb andb].
    - destruct Ha as (j&p&Hj&Hp&->). split.
      { change (fst <$> <[j:=(p, true)]> l = fst <$> l). rewrite list_fmap_insert. apply list_insert_id.
        by rewrite list_lookup_fmap, Hj. }
      exists (fun k => if decide (k = j) then Some n else assign k). rewrite orb_false_r. split.
      + intros k q Hk. destruct (decide (k = j)) as [->|Hne].
        * rewrite list_lookup_insert_eq in Hk by (by eapply lookup_lt_Some). injection Hk as <-. by exists n, out.
        * rewrite list_lookup_insert_ne in Hk by done. by apply P1.
      + intros k q Hk. destruct (decide (k = j)) as [->|Hne].
        * rewrite list_lookup_insert_eq in Hk by (by eapply lookup_lt_Some). done.
        * rewrite list_lookup_insert_ne in Hk by done. by eapply P2.
      + intros k i. case_decide; [intros [= <-]; lia|]. intros Hi. apply P3 in Hi. lia.
      + intros k1 k2 i. do 2 case_decide; subst; try done; [intros [= <-] Hi|intros Hi [= <-]|by apply P4];
          apply P3 in Hi; lia.
      + intros Hdev. destruct (P5 Hdev) as (i&o&Hi&Ho&Hpd&Hne). exists i, o. split_and!; [lia|done..|].
        intros k. case_decide; [intros [= <-]; lia|apply Hne].
    - subst l1. split; [done|]. exists assign. split; [done|done| |done|].
      + intros k i Hi. apply P3 in Hi. lia.
      + rewrite orb_true_iff. intros [Hdev|Hdev].
        * destruct (P5 Hdev) as (i&o&Hi&Ho&Hpd&Hne). exists i, o. split_and!; [lia|done..].
        * exists n, out. split_and!; [lia|done| |intros k Hk; apply P3 in Hk; lia].
          unfold pays_dev. destruct dev_fund_script as [script|]; [|done]. exists script.
          apply andb_true_iff in Hdev as [Hs Hv]. apply bool_decide_eq_true in Hs. split_and!; [done..|lia]. }
  pose proof (IH (Datatypes.S n) assign1 l1 dev1 Hd' H1) as IH'.
  destruct (scan_outputs dev_fund_script remainder outs l1 dev1) as [l' dev'].
  destruct IH' as [Hm' [assign' H']]. split; [by rewrite Hm'|]. exists assign'. cbn [length].
  by rewrite Nat.add_succ_r.
Qed.
End paying.

Lemma remainder_after_spec payouts r r' :
  remainder_after payouts r = Ok r' -> r' = r - sumZ (map po_amount payouts).
Proof.
  revert r; induction payouts as [|p payouts IH]; intros r; cbn [remainder_after map sumZ fold_right].
  - intros [= ->]. lia.
  - unfold checked_add_i64. destruct (_ && _); cbn [ok_or mbind result_bind]; [|done]. intros E. apply IH in E.
    unfold sumZ in E. lia.
Qed.

(** C35: a coinbase that is accepted pays every expected fluxnode its amount,
    each with an output of its own, and once proof-of-node is active a
    further output, which pays no fluxnode, gives the development fund at
    least what the subsidy leaves. *)
Theorem accepted_coinbase_pays `{Hashes} (params : ChainParams) (coinbase : Transaction) (height : Z)
    (payouts : list FluxnodePayout) (paid : list OutPoint) :
  check_payouts params coinbase height payouts = Ok paid ->
  paid = map po_outpoint payouts
  /\ exists output_of : nat -> option nat,
      (forall j p, payouts !! j = Some p ->
         exists i out, output_of j = Some i /\ vout coinbase !! i = Some out /\ pays_payout out p)
      /\ (forall j1 j2 i, output_of j1 = Some i -> output_of j2 = Some i -> j1 = j2)
      /\ (network_upgrade_active height (upgrades (consensus params)) Pon = true ->
          exists subsidy script i out,
            block_subsidy (E:=ChainStateError) height (consensus params) = Ok subsidy
            /\ address_to_script_pubkey (ascii_bytes (dev_fund_address (funding params)))
                 (chain_network params) = Ok script
            /\ vout coinbase !! i = Some out /\ script_pubkey out = script
            /\ value out >= subsidy - sumZ (map po_amount payouts)
            /\ forall j, output_of j <> Some i).
Proof.
  unfold check_payouts. set (pon := network_upgrade_active _ _ _).
  destruct (is_nil payouts && negb pon) eqn:E.
  { apply andb_true_iff in E as [Hn Hp]. intros [= <-]. destruct payouts; [|done]. apply negb_true_iff in Hp.
    split; [done|]. exists (fun _ => None). rewrite Hp. done. }
  destruct (block_subsidy height (consensus params)) as [subsidy| |]; [|done..]. cbn [mbind result_bind].
  destruct (remainder_after payouts subsidy) as [rem| |] eqn:Er; [|done..]. cbn [mbind result_bind].
  apply remainder_after_spec in Er.
  match goal with |- context [if pon then ?a else ?b] => destruct (if pon then a else b) as [script| |] eqn:Es end;
    [|done..]. cbn [mbind result_bind].
  pose proof (scan_outputs_spec (vout coinbase) script rem (vout coinbase) 0 (fun _ => None)
    (map (fun p => (p, false)) payouts) false) as Hscan.
  destruct (scan_outputs _ _ _ _ _) as [l dev]. destruct Hscan as [Hm [assign Hpsf]]; [done| |].
  { split; try done. intros j p Hj. apply list_lookup_fmap_Some in Hj as (q&[= _]&_). }
  destruct (pon && negb dev) eqn:Edev; [done|]. destruct (existsb _ l) eqn:Eall; [done|]. intros [= <-].
  split; [done|]. exists assign. destruct Hpsf as [P1 P2 P3 P4 P5]. split_and!; [| done|].
  - intros j p Hj. assert (map fst l !! j = Some p) as Hl.
    { rewrite Hm, map_map. rewrite list_lookup_fmap, Hj. done. }
    apply list_lookup_fmap_Some in Hl as ([q b]&->&Hl). destruct b; [by eapply P1|].
    exfalso. assert (existsb (fun p => negb p.2) l = true) as Ht; [|congruence].
    apply existsb_exists. exists (q, false). split; [|done]. apply list_elem_of_In. by eapply list_elem_of_lookup_2.
  - intros Hpon. rewrite Hpon in Edev, Es. cbn [andb] in Edev. apply negb_false_iff in Edev.
    destruct (P5 Edev) as (i&out&_&Hi&(sc&->&Hsc&Hv)&Hne). exists subsidy, sc, i, out.
    unfold address_script in Es. destruct (address_to_script_pubkey _ _) as [a| |]; [|done..].
    cbn in Es. injection Es as ->. split_and!; [done..|by rewrite <- Er|done].
Qed.

Definition string_of_bytes (bs : bytes) : string :=
  String.string_of_list_ascii (map (fun b => Ascii.ascii_of_N (Z.to_N b)) bs).
Definition sample_dev_script : bytes := p2pkh_script (zeros 20).
Definition sample_funding : FundingParams := {|
  exchange_address := ""; exchange_height := 836274; exchange_amount := 0; foundation_address := "";
  foundation_height := 836994; foundation_amount := 0;
  dev_fund_address := string_of_bytes (base58check_encode ((network_prefixes Mainnet).1 ++ zeros 20)) |}.
Definition sample_params : ChainParams := {|
  chain_network := Mainnet; consensus := mainnet_consensus_params; funding := sample_funding;
  swap_pool := mainnet_swap_pool; chain_emergency := mainnet_emergency_params;
  fluxnode_params := mainnet_fluxnode; message_start := []; default_port := 0; dns_seeds := []; fixed_seeds := [] |}.
Definition sample_pon_height : Z := 2020000.
Definition sample_payouts : list FluxnodePayout :=
  [mkPayout 1 (node_outpoint 17) payee_script COIN; mkPayout 3 (node_outpoint 34) payee_script (9 * COIN)].
Definition sample_pon_coinbase (fund : Z) : Transaction :=
  mkTransaction false 1 0 [mkTxIn OutPoint_null [1; 1] 4294967295]
    [mkTxOut (9 * COIN) payee_script; mkTxOut fund sample_dev_script; mkTxOut COIN payee_script]
    0 0 0 [] [] [] (zeros 32) (zeros 64) (zeros 64) None.

Lemma accepted_coinbase_pays_witness :
  [node_outpoint 17; node_outpoint 34] = map po_outpoint sample_payouts.
Proof.
  pose proof (accepted_coinbase_pays sample_params (sample_pon_coinbase (4 * COIN)) sample_pon_height
    sample_payouts [node_outpoint 17; node_outpoint 34]) as Ha.
  destruct Ha as [Hp _]; [vm_compute; reflexivity|exact Hp].
Defined.

Example underpaid_fund_refused :
  check_payouts sample_params (sample_pon_coinbase (4 * COIN - 1)) sample_pon_height sample_payouts
  = invalid_tx "coinbase missing dev fund remainder".
Proof. vm_compute. reflexivity. Qed.
