(* ===== verification/FluxnodeChecks.v ===== *)
(** * Signed messages and fluxnode transactions ([script/src/message.rs],
    [chainstate/src/state.rs])

    A fluxnode is started by a transaction signed with the key that controls
    its collateral and confirmed by its operator and a benchmarking key.  The
    checks against the chain state and the signatures to verify are collected
    here; a block verifies all its signatures at the end, the memory pool each
    transaction's at once.  Compact signatures are those of the secp256k1
    crate, a parameter ([Recovery]). *)

From S2P Require Import Prelude Consensus Rewards Encoding Hashing Address Transaction Block Script Storage.
From S2P Require Import Fluxnode Utxo Validation HeaderChain Payees.
From Stdlib Require Import ZArith Lia.
From stdpp Require Import base list option numbers strings gmap.
#[local] Open Scope Z_scope.

(** ** Signed messages *)

(** [secp256k1::ecdsa::{RecoverableSignature, RecoveryId}]. *)
Class Recovery `{Secp} := {
  RecoverableSignature : Type;
  RecoveryId : Type;
  RecoveryId_from_i32 : Z -> option RecoveryId;
  RecoverableSignature_from_compact : bytes -> RecoveryId -> option RecoverableSignature;
  to_standard : RecoverableSignature -> Signature;
  recover_ecdsa : Hash256 -> RecoverableSignature -> option PublicKey;
  serialize : PublicKey -> bytes;
  serialize_uncompressed : PublicKey -> bytes }.

Inductive SignedMessageError :=
| InvalidPubkey | InvalidSignature | InvalidRecoveryId | InvalidMessage | RecoverFailed | PubkeyMismatch.

Definition SIGNED_MESSAGE_MAGIC : bytes := ascii_bytes "Zelcash Signed Message:" ++ [10].

Section message.
  Context {H : Hashes} {S256 : Secp} {R : Recovery}.

Definition signed_message_hash (message : bytes) : Hash256 :=
  sha256d (write_var_str SIGNED_MESSAGE_MAGIC ++ write_var_bytes message).

Definition decode_compact_signature (signature : bytes)
    : result SignedMessageError (RecoverableSignature * bool) :=
  match signature with
  | header :: compact =>
      if negb (length signature =? 65)%nat then Err InvalidSignature
      else if negb ((27 <=? header) && (header <=? 34)) then Err InvalidSignature
      else
        let compressed := header >=? 31 in
        let recovery := if compressed then header - 31 else header - 27 in
        rec_id ← ok_or (RecoveryId_from_i32 recovery) InvalidRecoveryId;
        sig ← ok_or (RecoverableSignature_from_compact compact rec_id) InvalidSignature;
        Ok (sig, compressed)
  | [] => Err InvalidSignature
  end.

(** [Message::from_digest_slice] fails only on a digest that is not 32 bytes. *)
Definition verify_signed_message (expected_pubkey signature message : bytes)
    : result SignedMessageError unit :=
  if is_nil expected_pubkey then Err InvalidPubkey
  else
    sc ← decode_compact_signature signature;
    if negb (eqb (snd sc) (length expected_pubkey =? 33)%nat) then Err PubkeyMismatch
    else
      let digest := signed_message_hash message in
      if negb (length digest =? 32)%nat then Err InvalidMessage
      else
        pubkey ← ok_or (PublicKey_from_slice expected_pubkey) InvalidPubkey;
        if verify_ecdsa digest (to_standard (fst sc)) pubkey then Ok tt else Err InvalidSignature.

Definition recover_signed_message_pubkey (signature message : bytes) : result SignedMessageError bytes :=
  sc ← decode_compact_signature signature;
  let digest := signed_message_hash message in
  if negb (length digest =? 32)%nat then Err InvalidMessage
  else
    pubkey ← ok_or (recover_ecdsa digest (fst sc)) RecoverFailed;
    Ok (if snd sc : bool then serialize pubkey else serialize_uncompressed pubkey).
End message.

(** ** The texts that are signed *)
Definition hex_lower (d : Z) : Z := if d <? 10 then 48 + d else 87 + d.
Definition hash256_to_hex (hash : Hash256) : bytes :=
  flat_map (fun byte => [hex_lower (Z.shiftr byte 4); hex_lower (Z.land byte 15)]) (rev hash).

(** [to_string] of an unsigned integer below [10 ^ fuel]. *)
Fixpoint decimal_digits (fuel : nat) (n : Z) (acc : bytes) : bytes :=
  match fuel with
  | O => acc
  | Datatypes.S fuel =>
      let acc := (48 + n mod 10) :: acc in
      if n <? 10 then acc else decimal_digits fuel (n / 10) acc
  end.
Definition decimal (n : Z) : bytes := decimal_digits 20 n [].

Definition fluxnode_confirm_message (c : FluxnodeConfirmTx) : bytes :=
  let o := confirm_collateral c in
  ascii_bytes "COutPoint(" ++ take 10 (hash256_to_hex (hash o)) ++ ascii_bytes ", " ++ decimal (op_index o)
  ++ ascii_bytes ")" ++ decimal (op_index o) ++ decimal (update_type c) ++ decimal (confirm_sig_time c).

Definition fluxnode_benchmark_message (c : FluxnodeConfirmTx) : bytes :=
  confirm_sig c ++ decimal (benchmark_tier c) ++ decimal (benchmark_sig_time c) ++ ip c.

(** ** Collateral *)
Definition script_p2pkh_hash (script : bytes) : option bytes :=
  if is_p2pkh script then Some (slice script 3 23) else None.
Definition script_p2sh_hash (script : bytes) : option bytes :=
  if is_p2sh script then Some (slice script 2 22) else None.

Definition select_timed_pubkey (keys : list TimedPublicKey) (time : Z) : option TimedPublicKey :=
  match keys with [] => None | first :: _ => Some (select_from time first keys) end.

(** [height.checked_sub(collateral_height as i32).unwrap_or_default()]. *)
Definition collateral_age (collateral_height height : Z) : Z :=
  let age := height - wrap_i32 collateral_height in
  if (-2147483648 <=? age) && (age <=? 2147483647) then age else 0.
Definition ensure_fluxnode_collateral_mature (collateral_height height : Z) : result ChainStateError unit :=
  if height <? 0 then Ok tt
  else if collateral_age collateral_height height <? FLUXNODE_MIN_CONFIRMATION_DETERMINISTIC
  then invalid_fluxnode "fluxnode collateral too new"
  else Ok tt.

(** The pushes of a multisig script up to its count of keys: the keys among
    them and what follows.  [None] is a script that is refused. *)
Fixpoint multisig_keys (fuel : nat) (script : bytes) (pubkeys : list bytes) : option (list bytes * bytes) :=
  match fuel, script with
  | O, _ => None
  | Datatypes.S _, [] => Some (pubkeys, [])
  | Datatypes.S fuel, op :: rest =>
      if (0x51 <=? op) && (op <=? 0x60) then Some (pubkeys, script)
      else
        len_rest ← (if op <=? 75 then Some (Z.to_nat op, rest)
                    else if op =? 0x4c then
                      match rest with len :: rest => Some (Z.to_nat len, rest) | [] => None end
                    else if op =? 0x4d then
                      match rest with
                      | lo :: hi :: rest => Some (Z.to_nat (from_le [lo; hi]), rest)
                      | _ => None
                      end
                    else None);
        let '(len, rest) := len_rest in
        if (length rest <? len)%nat then None
        else
          let data := take len rest in
          multisig_keys fuel (drop len rest)
            (if ((length data =? 33) || (length data =? 65))%nat then pubkeys ++ [data] else pubkeys)
  end.

Definition parse_multisig_redeem_script (script : bytes) : option (list bytes) :=
  if (length script <? 3)%nat then None
  else
    match script with
    | opcode :: rest =>
        if negb ((0x51 <=? opcode) && (opcode <=? 0x60)) then None
        else
          let required := opcode - 0x51 + 1 in
          keys_rest ← multisig_keys (Datatypes.S (length rest)) rest [];
          let '(pubkeys, rest) := keys_rest in
          match rest with
          | [total_opcode; check] =>
              let total := total_opcode - 0x51 + 1 in
              if (0x51 <=? total_opcode) && (total_opcode <=? 0x60) && (check =? 0xae)
                 && (total =? Z.of_nat (length pubkeys)) && (required <=? total)
              then Some pubkeys else None
          | _ => None
          end
    | [] => None
    end.

(** ** The checks of a fluxnode transaction *)
Record CreatedUtxo := mkCreated {
  cu_outpoint : OutPoint; cu_entry : UtxoEntry; cu_address_key : option Hash256 }.

Inductive FluxnodeSigPubkeys := Single (pubkey : bytes) | Any (pubkeys : list bytes).
Record FluxnodeSigCheck := mkSigCheck {
  sc_pubkeys : FluxnodeSigPubkeys; sc_signature : bytes; sc_message : bytes; sc_error : string }.

Section checks.
  Context {H : Hashes} {S256 : Secp} {R : Recovery} {S : Type} {KV : KeyValueStore S}.
  Context (store : S) (params : ChainParams).

(** [FluxnodeSigCheck::verify]. *)
Definition sig_check_verify (check : FluxnodeSigCheck) : result string unit :=
  match sc_pubkeys check with
  | Single pubkey =>
      map_err (fun _ => sc_error check) (verify_signed_message pubkey (sc_signature check) (sc_message check))
  | Any pubkeys =>
      if existsb (fun pubkey => is_ok (verify_signed_message pubkey (sc_signature check) (sc_message check))) pubkeys
      then Ok tt else Err (sc_error check)
  end.
Fixpoint verify_sig_checks (checks : list FluxnodeSigCheck) : result ChainStateError unit :=
  match checks with
  | [] => Ok tt
  | check :: checks =>
      _ ← map_err (fun message => ChainValidation (FluxnodeFailure message)) (sig_check_verify check);
      verify_sig_checks checks
  end.

Definition lookup_fluxnode_collateral (outpoint : OutPoint) (created : gmap OutPointKey CreatedUtxo)
    : result ChainStateError UtxoEntry :=
  match created !! OutPointKey_new outpoint with
  | Some created => Ok (cu_entry created)
  | None =>
      entry ← map_err ChainStore (utxo_get store outpoint);
      ok_or entry (ChainValidation (FluxnodeFailure "fluxnode collateral not found"))
  end.

Definition validate_fluxnode_collateral_script (script_pubkey collateral_pubkey : bytes) (sig_time : Z)
    (redeem_script : option bytes) : result ChainStateError unit :=
  match script_p2sh_hash script_pubkey with
  | Some script_hash =>
      match redeem_script with
      | Some redeem_script =>
          if bool_decide (hash160 redeem_script = script_hash) then Ok tt
          else invalid_fluxnode "fluxnode p2sh redeem script hash mismatch"
      | None =>
          key ← ok_or (select_timed_pubkey (p2sh_public_keys (fluxnode_params params)) sig_time)
                  (ChainValidation (FluxnodeFailure "fluxnode p2sh signing key missing"));
          expected ← ok_or (key_bytes key)
                       (ChainValidation (FluxnodeFailure "invalid fluxnode p2sh signing pubkey"));
          if bool_decide (collateral_pubkey = expected) then Ok tt
          else invalid_fluxnode "fluxnode p2sh collateral pubkey mismatch"
      end
  | None =>
      pubkey_hash ← ok_or (script_p2pkh_hash script_pubkey)
                      (ChainValidation (FluxnodeFailure "fluxnode collateral script unsupported"));
      if is_nil collateral_pubkey then invalid_fluxnode "fluxnode collateral pubkey missing"
      else if bool_decide (hash160 collateral_pubkey = pubkey_hash) then Ok tt
      else invalid_fluxnode "fluxnode collateral pubkey does not match script"
  end.

Definition invalid_delegates {A} : result ChainStateError A := Err (CorruptIndex "invalid fluxnode delegates entry").
Definition delegate_pubkeys_for_outpoint (collateral : OutPoint) : result ChainStateError (list bytes) :=
  record ← fluxnode_record store collateral;
  match record ≫= fr_delegates with
  | None => Ok []
  | Some key =>
      bs ← stored_key store key "fluxnode delegates key missing";
      match decode_all TrailingBytes (consensus_decode (A:=FluxnodeDelegates)) bs with
      | Ok delegates =>
          if negb (delegates_kind delegates =? DELEGATES_UPDATE) then invalid_delegates
          else Ok (delegate_starting_keys delegates)
      | Err _ => invalid_delegates
      | Panic => Panic
      end
  end.

(** [self.operator_pubkey_bytes]: from the cache of payments when it knows
    the node, from the record otherwise. *)
Definition operator_pubkey_bytes (payments : PaymentsCache) (collateral : OutPoint)
    : result ChainStateError (option bytes) :=
  let cached := if pc_initialized payments then meta_by_outpoint payments !! OutPointKey_new collateral else None in
  match cached with
  | Some meta => map_err ChainStore (load_key store (pm_operator_pubkey meta))
  | None =>
      record ← fluxnode_record store collateral;
      match record with
      | None => Ok None
      | Some record => map_err ChainStore (load_key store (fr_operator_pubkey record))
      end
  end.

Definition signing_as_delegate (start : FluxnodeStartV6) : bool :=
  using_delegates start
  && match delegates start with Some d => delegates_kind d =? DELEGATES_SIGNING | None => false end.

(** A start is refused when the collateral was started before in this block
    or may not start again yet. *)
Definition check_start_allowed (collateral : OutPoint) (height : Z) (operator_pubkeys : gmap OutPoint bytes)
    : result ChainStateError unit :=
  allowed ← (match operator_pubkeys !! collateral with
             | Some _ => Ok false
             | None => fluxnode_start_allowed store params collateral height
             end);
  if allowed : bool then Ok tt else invalid_fluxnode "fluxnode start collateral already registered".

(** The collateral of a start: unspent, old enough, controlled by the key or
    script of the transaction, and of a tier's amount. *)
Definition check_collateral (collateral : OutPoint) (collateral_pubkey : bytes) (sig_time : Z)
    (redeem_script : option bytes) (height : Z) (created : gmap OutPointKey CreatedUtxo)
    : result ChainStateError (UtxoEntry * FluxnodeStartMeta) :=
  entry ← lookup_fluxnode_collateral collateral created;
  _ ← ensure_fluxnode_collateral_mature (ue_height entry) height;
  _ ← validate_fluxnode_collateral_script (ue_script_pubkey entry) collateral_pubkey sig_time redeem_script;
  tier ← ok_or (fluxnode_tier_from_collateral height (ue_value entry) (fluxnode_params params))
           (ChainValidation (FluxnodeFailure "fluxnode collateral amount invalid"));
  Ok (entry, mkStartMeta tier (ue_value entry)).

Definition start_signature_invalid : string := "fluxnode start signature invalid".

(** The signature of a start: by its own keys, or by any of the delegates
    registered for the collateral. *)
Definition start_sig_check (start : FluxnodeStartV6) (collateral : OutPoint) (own : FluxnodeSigPubkeys)
    (sig message : bytes) : result ChainStateError FluxnodeSigCheck :=
  pubkeys ← (if signing_as_delegate start then
               keys ← delegate_pubkeys_for_outpoint collateral; Ok (Any keys)
             else Ok own);
  Ok (mkSigCheck pubkeys sig message start_signature_invalid).

(** What [validate_fluxnode_tx] checks, the signatures it leaves to verify,
    and the metadata of a start. *)
Definition fluxnode_start_checks_v5 (start : FluxnodeStartV5) (txid : Hash256) (height : Z)
    (created : gmap OutPointKey CreatedUtxo) (operator_pubkeys : gmap OutPoint bytes)
    : result ChainStateError (list FluxnodeSigCheck * option (OutPoint * FluxnodeStartMeta)) :=
  let collateral := start5_collateral start in
  if bool_decide (collateral = OutPoint_null) then invalid_fluxnode "fluxnode start has null collateral"
  else
    _ ← check_start_allowed collateral height operator_pubkeys;
    em ← check_collateral collateral (start5_collateral_pubkey start) (start5_sig_time start) None height created;
    Ok ([mkSigCheck (Single (start5_collateral_pubkey start)) (start5_sig start) (hash256_to_hex txid)
           start_signature_invalid], Some (collateral, snd em)).

Definition fluxnode_start_checks_v6 (start : FluxnodeStartV6) (txid : Hash256) (height : Z)
    (created : gmap OutPointKey CreatedUtxo) (operator_pubkeys : gmap OutPoint bytes)
    : result ChainStateError (list FluxnodeSigCheck * option (OutPoint * FluxnodeStartMeta)) :=
  match variant start with
  | Normal collateral collateral_pubkey _ sig_time sig =>
      if bool_decide (collateral = OutPoint_null) then invalid_fluxnode "fluxnode start has null collateral"
      else
        _ ← check_start_allowed collateral height operator_pubkeys;
        em ← check_collateral collateral collateral_pubkey sig_time None height created;
        match script_p2pkh_hash (ue_script_pubkey (fst em)) with
        | None => invalid_fluxnode "fluxnode normal collateral not p2pkh"
        | Some _ =>
            check ← start_sig_check start collateral (Single collateral_pubkey) sig (hash256_to_hex txid);
            Ok ([check], Some (collateral, snd em))
        end
  | P2sh collateral _ redeem_script sig_time sig =>
      if bool_decide (collateral = OutPoint_null) then invalid_fluxnode "fluxnode start has null collateral"
      else if Z.of_nat (length redeem_script) >? MAX_SCRIPT_SIZE
      then invalid_fluxnode "fluxnode redeem script too large"
      else
        _ ← check_start_allowed collateral height operator_pubkeys;
        pubkeys ← ok_or (parse_multisig_redeem_script redeem_script)
                    (ChainValidation (FluxnodeFailure "fluxnode redeem script not multisig"));
        em ← check_collateral collateral [] sig_time (Some redeem_script) height created;
        match script_p2sh_hash (ue_script_pubkey (fst em)) with
        | None => invalid_fluxnode "fluxnode p2sh collateral not p2sh"
        | Some _ =>
            check ← start_sig_check start collateral (Any pubkeys) sig (hash256_to_hex txid);
            Ok ([check], Some (collateral, snd em))
        end
  end.

Definition check_confirm_update (record : FluxnodeRecord) (update : Z) : result ChainStateError unit :=
  if update =? 0 then
    if negb (fr_confirmed_height record =? 0) then invalid_fluxnode "fluxnode confirm already confirmed" else Ok tt
  else if update =? 1 then
    if fr_confirmed_height record =? 0
    then invalid_fluxnode "fluxnode update confirm before initial confirm" else Ok tt
  else invalid_fluxnode "fluxnode confirm has invalid update type".

Definition fluxnode_confirm_checks (confirm : FluxnodeConfirmTx) (operator_pubkeys : gmap OutPoint bytes)
    : result ChainStateError (list FluxnodeSigCheck * option (OutPoint * FluxnodeStartMeta)) :=
  let collateral := confirm_collateral confirm in
  if bool_decide (collateral = OutPoint_null) then invalid_fluxnode "fluxnode confirm has null collateral"
  else
    record ← fluxnode_record store collateral;
    record ← ok_or record (ChainValidation (FluxnodeFailure "fluxnode confirm missing start record"));
    _ ← check_confirm_update record (update_type confirm);
    if is_nil (confirm_sig confirm) || is_nil (benchmark_sig confirm)
    then invalid_fluxnode "fluxnode confirm missing signatures"
    else if negb (paid_tier (benchmark_tier confirm))
    then invalid_fluxnode "fluxnode confirm has invalid benchmarking tier"
    else if update_type confirm >? 1 then invalid_fluxnode "fluxnode confirm has invalid update type"
    else if ((if (benchmark_sig_time confirm >=? 1647262800)%Z then 60 else 40) <? length (ip confirm))%nat
    then invalid_fluxnode "fluxnode confirm ip too large"
    else
      operator_pubkey ←
        (match operator_pubkeys !! collateral with
         | Some pubkey => Ok pubkey
         | None =>
             bs ← map_err ChainStore (load_key store (fr_operator_pubkey record));
             ok_or bs (ChainValidation (FluxnodeFailure "fluxnode operator pubkey missing"))
         end);
      benchmark_key ←
        ok_or (select_timed_pubkey (benchmarking_public_keys (fluxnode_params params)) (benchmark_sig_time confirm))
          (ChainValidation (FluxnodeFailure "fluxnode benchmark key missing"));
      benchmark_pubkey ← ok_or (key_bytes benchmark_key)
                           (ChainValidation (FluxnodeFailure "invalid benchmark pubkey"));
      Ok ([mkSigCheck (Single operator_pubkey) (confirm_sig confirm) (fluxnode_confirm_message confirm)
             "fluxnode confirm signature invalid";
           mkSigCheck (Single benchmark_pubkey) (benchmark_sig confirm) (fluxnode_benchmark_message confirm)
             "fluxnode benchmark signature invalid"], None).

Definition fluxnode_tx_checks (tx : Transaction) (txid : Hash256) (height : Z)
    (created : gmap OutPointKey CreatedUtxo) (operator_pubkeys : gmap OutPoint bytes)
    : result ChainStateError (list FluxnodeSigCheck * option (OutPoint * FluxnodeStartMeta)) :=
  match fluxnode tx with
  | None => Ok ([], None)
  | Some (V5 (StartV5 start)) => fluxnode_start_checks_v5 start txid height created operator_pubkeys
  | Some (V6 (StartV6 start)) => fluxnode_start_checks_v6 start txid height created operator_pubkeys
  | Some (V5 (ConfirmV5 confirm)) | Some (V6 (ConfirmV6 confirm)) =>
      fluxnode_confirm_checks confirm operator_pubkeys
  end.

(** [validate_fluxnode_tx_for_mempool]: the signatures are verified at once,
    and nothing of the block is known. *)
Definition validate_fluxnode_tx_for_mempool (tx : Transaction) (txid : Hash256) (height : Z)
    : result ChainStateError unit :=
  checks ← fluxnode_tx_checks tx txid height ∅ ∅;
  verify_sig_checks (fst checks).
End checks.

(** ** Who may start a fluxnode *)
Section started.
  Context {H : Hashes} {S256 : Secp} {R : Recovery} {S : Type} {KV : KeyValueStore S}.
  Context (store : S) (params : ChainParams).

(** The keys that may sign the start for an unspent output: the key of its
    address, the service's key for a script address, a key of its multisig
    script, or a delegate registered for it. *)
Inductive may_start (collateral : OutPoint) (entry : UtxoEntry) : bytes -> Prop :=
| owner_key pk : script_p2pkh_hash (ue_script_pubkey entry) = Some (hash160 pk) -> may_start collateral entry pk
| service_key h time k pk :
    script_p2sh_hash (ue_script_pubkey entry) = Some h ->
    select_timed_pubkey (p2sh_public_keys (fluxnode_params params)) time = Some k -> key_bytes k = Some pk ->
    may_start collateral entry pk
| multisig_key redeem keys pk :
    script_p2sh_hash (ue_script_pubkey entry) = Some (hash160 redeem) ->
    parse_multisig_redeem_script redeem = Some keys -> pk ∈ keys -> may_start collateral entry pk
| delegate_key keys pk :
    delegate_pubkeys_for_outpoint store collateral = Ok keys -> pk ∈ keys -> may_start collateral entry pk.

Definition start_collateral (tx : Transaction) : option OutPoint :=
  match fluxnode tx with
  | Some (V5 (StartV5 start)) => Some (start5_collateral start)
  | Some (V6 (StartV6 start)) =>
      Some (match variant start with Normal collateral _ _ _ _ | P2sh collateral _ _ _ _ => collateral end)
  | _ => None
  end.

Lemma script_hashes script : script_p2sh_hash script <> None -> script_p2pkh_hash script = None.
Proof.
  unfold script_p2sh_hash, script_p2pkh_hash, is_p2sh, is_p2pkh.
  destruct (Nat.eqb_spec (length script) 23) as [E|]; [|done]. by rewrite E.
Qed.

Lemma check_collateral_ok collateral pk time redeem height created entry meta :
  check_collateral store params collateral pk time redeem height created = Ok (entry, meta) ->
  lookup_fluxnode_collateral store collateral created = Ok entry
  /\ (0 <= height -> FLUXNODE_MIN_CONFIRMATION_DETERMINISTIC <= collateral_age (ue_height entry) height)
  /\ fluxnode_tier_from_collateral height (ue_value entry) (fluxnode_params params) = Some (meta_tier meta)
  /\ meta_collateral_value meta = ue_value entry
  /\ validate_fluxnode_collateral_script params (ue_script_pubkey entry) pk time redeem = Ok tt.
Proof.
  unfold check_collateral. destruct (lookup_fluxnode_collateral _ _ _) as [e| |]; [|done..].
  cbn [mbind result_bind]. unfold ensure_fluxnode_collateral_mature.
  destruct (height <? 0) eqn:Eh; [|destruct (Z.ltb_spec (collateral_age (ue_height e) height) FLUXNODE_MIN_CONFIRMATION_DETERMINISTIC); [done|]];
    cbn [mbind result_bind]; (destruct (validate_fluxnode_collateral_script _ _ _ _ _) as [[]| |] eqn:Es; [|done..]);
    cbn [mbind result_bind]; (destruct (fluxnode_tier_from_collateral _ _ _) as [t|] eqn:Et; [|done]);
    cbn [ok_or mbind result_bind]; intros [= <- <-]; (split_and!; [done|lia|done..]).
Qed.

Lemma collateral_script_key script pk time :
  validate_fluxnode_collateral_script params script pk time None = Ok tt ->
  script_p2pkh_hash script = Some (hash160 pk)
  \/ exists h k, script_p2sh_hash script = Some h
       /\ select_timed_pubkey (p2sh_public_keys (fluxnode_params params)) time = Some k /\ key_bytes k = Some pk.
Proof.
  unfold validate_fluxnode_collateral_script. destruct (script_p2sh_hash script) as [h|].
  - destruct (select_timed_pubkey _ _) as [k|]; [|done]. cbn [ok_or mbind result_bind].
    destruct (key_bytes k) as [bs|] eqn:Ek; [|done]. cbn [ok_or mbind result_bind].
    case_bool_decide as E; [|done]. intros _. right. exists h, k. by subst.
  - destruct (script_p2pkh_hash script) as [h|]; [|done]. cbn [ok_or mbind result_bind].
    destruct (is_nil pk); [done|]. case_bool_decide as E; [|done]. intros _. left. by subst.
Qed.

Lemma collateral_script_redeem script redeem time :
  script_p2sh_hash script <> None ->
  validate_fluxnode_collateral_script params script [] time (Some redeem) = Ok tt ->
  script_p2sh_hash script = Some (hash160 redeem).
Proof.
  unfold validate_fluxnode_collateral_script. destruct (script_p2sh_hash script) as [h|]; [|done].
  case_bool_decide as E; [|done]. by subst.
Qed.

(** The key a verified check was verified with. *)
Definition check_keys (p : FluxnodeSigPubkeys) : list bytes :=
  match p with Single k => [k] | Any ks => ks end.
Lemma sig_check_verified check :
  sig_check_verify check = Ok tt ->
  exists pk, pk ∈ check_keys (sc_pubkeys check)
    /\ verify_signed_message pk (sc_signature check) (sc_message check) = Ok tt.
Proof.
  unfold sig_check_verify. destruct (sc_pubkeys check) as [pk|pks]; cbn [check_keys].
  - destruct (verify_signed_message _ _ _) as [[]| |] eqn:E; [|done..]. intros _. exists pk.
    split; [by apply list_elem_of_singleton|done].
  - destruct (existsb _ pks) eqn:E; [|done]. intros _. apply existsb_exists in E as (pk&Hin&Hok).
    exists pk. split; [by apply list_elem_of_In|]. by destruct (verify_signed_message _ _ _) as [[]| |].
Qed.

Lemma start_sig_check_keys start collateral own sig message check :
  start_sig_check store start collateral own sig message = Ok check ->
  sc_message check = message
  /\ (sc_pubkeys check = own
      \/ exists keys, delegate_pubkeys_for_outpoint store collateral = Ok keys /\ sc_pubkeys check = Any keys).
Proof.
  unfold start_sig_check. destruct (signing_as_delegate start).
  - destruct (delegate_pubkeys_for_outpoint _ _) as [keys| |]; [|done..]. cbn. intros [= <-]. eauto.
  - cbn. intros [= <-]. eauto.
Qed.

Lemma check_start_allowed_ok collateral height :
  check_start_allowed store params collateral height ∅ = Ok tt ->
  fluxnode_start_allowed store params collateral height = Ok true.
Proof.
  unfold check_start_allowed. rewrite lookup_empty. by destruct (fluxnode_start_allowed _ _ _ _) as [[]| |].
Qed.

(** What the checks of a start establish about its collateral, and whose
    signature they leave to verify. *)
Definition start_checked (collateral : OutPoint) (txid : Hash256) (height : Z)
    (checks : list FluxnodeSigCheck * option (OutPoint * FluxnodeStartMeta)) : Prop :=
  exists entry meta check,
    checks = ([check], Some (collateral, meta))
    /\ collateral <> OutPoint_null
    /\ utxo_get store collateral = Ok (Some entry)
    /\ fluxnode_start_allowed store params collateral height = Ok true
    /\ (0 <= height -> FLUXNODE_MIN_CONFIRMATION_DETERMINISTIC <= collateral_age (ue_height entry) height)
    /\ fluxnode_tier_from_collateral height (ue_value entry) (fluxnode_params params) = Some (meta_tier meta)
    /\ meta_collateral_value meta = ue_value entry
    /\ sc_message check = hash256_to_hex txid
    /\ forall pk, pk ∈ check_keys (sc_pubkeys check) -> may_start collateral entry pk.

Lemma collateral_lookup collateral entry :
  lookup_fluxnode_collateral store collateral ∅ = Ok entry -> utxo_get store collateral = Ok (Some entry).
Proof.
  unfold lookup_fluxnode_collateral. rewrite lookup_empty.
  destruct (utxo_get store collateral) as [[e|]| |]; [|done..]. cbn. by intros [= <-].
Qed.

(** A start whose collateral and signature check have been established. *)
Lemma start_checked_intro collateral txid height pk time redeem entry meta check :
  bool_decide (collateral = OutPoint_null) = false ->
  check_start_allowed store params collateral height ∅ = Ok tt ->
  check_collateral store params collateral pk time redeem height ∅ = Ok (entry, meta) ->
  sc_message check = hash256_to_hex txid ->
  (validate_fluxnode_collateral_script params (ue_script_pubkey entry) pk time redeem = Ok tt ->
   forall k, k ∈ check_keys (sc_pubkeys check) -> may_start collateral entry k) ->
  start_checked collateral txid height ([check], Some (collateral, meta)).
Proof.
  intros Hn Ha Hc Hm Hk. apply bool_decide_eq_false in Hn. apply check_start_allowed_ok in Ha.
  destruct (check_collateral_ok _ _ _ _ _ _ _ _ Hc) as (H1&H2&H3&H4&H5). apply collateral_lookup in H1.
  exists entry, meta, check. split_and!; auto.
Qed.

Lemma own_key_may_start collateral entry pk time k :
  validate_fluxnode_collateral_script params (ue_script_pubkey entry) pk time None = Ok tt ->
  k ∈ check_keys (Single pk) -> may_start collateral entry k.
Proof.
  intros Hv Hk. apply list_elem_of_singleton in Hk as ->.
  destruct (collateral_script_key _ _ _ Hv) as [Hh|(h&key&H1&H2&H3)]; [by apply owner_key|by eapply service_key].
Qed.

Lemma start_checks_sound tx txid height collateral checks :
  start_collateral tx = Some collateral ->
  fluxnode_tx_checks store params tx txid height ∅ ∅ = Ok checks ->
  start_checked collateral txid height checks.
Proof.
  unfold start_collateral, fluxnode_tx_checks. destruct (fluxnode tx) as [[[start|c]|[start|c]]|]; try done.
  - intros [= <-]. unfold fluxnode_start_checks_v5. destruct (bool_decide _) eqn:En; [done|].
    destruct (check_start_allowed _ _ _ _ _) as [[]| |] eqn:Ea; [|done..]. cbn [mbind result_bind].
    destruct (check_collateral _ _ _ _ _ _ _ _) as [[entry meta]| |] eqn:Ec; [|done..]. cbn [mbind result_bind fst snd].
    intros [= <-]. eapply start_checked_intro; [done..|]. intros Hv k. by eapply own_key_may_start.
  - intros [= Hcol]. unfold fluxnode_start_checks_v6.
    destruct (variant start) as [col pk opk time sig|col opk redeem time sig]; subst col.
    + destruct (bool_decide _) eqn:En; [done|].
      destruct (check_start_allowed _ _ _ _ _) as [[]| |] eqn:Ea; [|done..]. cbn [mbind result_bind].
      destruct (check_collateral _ _ _ _ _ _ _ _) as [[entry meta]| |] eqn:Ec; [|done..]. cbn [mbind result_bind fst snd].
      destruct (script_p2pkh_hash _); [|done].
      destruct (start_sig_check _ _ _ _ _ _) as [check| |] eqn:Es; [|done..]. cbn [mbind result_bind].
      intros [= <-]. apply start_sig_check_keys in Es as [Hm Hk].
      eapply start_checked_intro; [done..|]. intros Hv k Hin. destruct Hk as [Hk|(keys&Hd&Hk)]; rewrite Hk in Hin.
      * by eapply own_key_may_start.
      * by eapply delegate_key.
    + destruct (bool_decide _) eqn:En; [done|]. destruct (_ >? _); [done|].
      destruct (check_start_allowed _ _ _ _ _) as [[]| |] eqn:Ea; [|done..]. cbn [mbind result_bind].
      destruct (parse_multisig_redeem_script redeem) as [pubkeys|] eqn:Ep; [|done]. cbn [ok_or mbind result_bind].
      destruct (check_collateral _ _ _ _ _ _ _ _) as [[entry meta]| |] eqn:Ec; [|done..]. cbn [mbind result_bind fst snd].
      destruct (script_p2sh_hash (ue_script_pubkey entry)) eqn:Eh; [|done].
      destruct (start_sig_check _ _ _ _ _ _) as [check| |] eqn:Es; [|done..]. cbn [mbind result_bind].
      intros [= <-]. apply start_sig_check_keys in Es as [Hm Hk].
      eapply start_checked_intro; [done..|]. intros Hv k Hin.
      apply collateral_script_redeem in Hv; [|by rewrite Eh]. destruct Hk as [Hk|(keys&Hd&Hk)]; rewrite Hk in Hin.
      * by eapply multisig_key.
      * by eapply delegate_key.
Qed.

(** C38: a fluxnode start that the memory pool accepts is backed by its
    collateral.  The output is unspent, at least 100 blocks old and worth
    exactly a tier's amount, it is free to be started, and the transaction id
    is signed by a key entitled to it: the key of its address, the service
    key of a script address, a key of its multisig script or a registered
    delegate. *)
Theorem accepted_start_controls_collateral (tx : Transaction) (txid : Hash256) (height : Z) (collateral : OutPoint) :
  validate_fluxnode_tx_for_mempool store params tx txid height = Ok tt ->
  start_collateral tx = Some collateral ->
  exists entry tier pk sig,
    utxo_get store collateral = Ok (Some entry)
    /\ fluxnode_start_allowed store params collateral height = Ok true
    /\ (0 <= height -> FLUXNODE_MIN_CONFIRMATION_DETERMINISTIC <= collateral_age (ue_height entry) height)
    /\ fluxnode_tier_from_collateral height (ue_value entry) (fluxnode_params params) = Some tier
    /\ may_start collateral entry pk
    /\ verify_signed_message pk sig (hash256_to_hex txid) = Ok tt.
Proof.
  unfold validate_fluxnode_tx_for_mempool. intros Hv Hc.
  destruct (fluxnode_tx_checks _ _ _ _ _ _ _) as [checks| |] eqn:E; [|done..]. cbn [mbind result_bind] in Hv.
  destruct (start_checks_sound tx txid height collateral checks Hc E) as (entry&meta&check&->&H1&H2&H3&H4&H5&H6&H7&H8).
  cbn [fst verify_sig_checks] in Hv. destruct (sig_check_verify check) as [[]| |] eqn:Es; [|done..].
  apply sig_check_verified in Es as (pk&Hin&Hpk). rewrite H7 in Hpk.
  exists entry, (meta_tier meta), pk, (sc_signature check). split_and!; auto.
Qed.
End started.

(** ** A start on the toy curve: its signatures repeat the key *)
#[global] Instance toy_recovery : Recovery := {|
  RecoverableSignature := bytes;
  RecoveryId := Z;
  RecoveryId_from_i32 i := if (0 <=? i) && (i <=? 3) then Some i else None;
  RecoverableSignature_from_compact compact _ := Some (take 33 compact);
  to_standard s := s;
  recover_ecdsa _ s := Some s;
  serialize k := k;
  serialize_uncompressed k := k |}.

Definition start_key : bytes := sample_key 9.
Definition start_signature (k : bytes) : bytes := 31 :: k ++ replicate 31 0.
Definition start_utxo : UtxoEntry :=
  mkUtxoEntry V1_FLUXNODE_COLLAT_CUMULUS (p2pkh_script (hash160 start_key)) 400 false.
Definition start_store : MemoryStore := commit_to memory_new (utxo_put [] (node_outpoint 51) start_utxo).
Definition start_tx (k : bytes) : Transaction :=
  fluxnode_transaction false 5 0 (V5 (StartV5 (mkStartV5 (node_outpoint 51) start_key node_pubkey 7 (start_signature k)))).
Definition start_txid : Hash256 := replicate 32 77.

Lemma accepted_start_controls_collateral_witness :
  exists entry tier pk sig,
    utxo_get start_store (node_outpoint 51) = Ok (Some entry)
    /\ fluxnode_start_allowed start_store mainnet_chain_params (node_outpoint 51) 500 = Ok true
    /\ (0 <= 500 -> FLUXNODE_MIN_CONFIRMATION_DETERMINISTIC <= collateral_age (ue_height entry) 500)
    /\ fluxnode_tier_from_collateral 500 (ue_value entry) (fluxnode_params mainnet_chain_params) = Some tier
    /\ may_start start_store mainnet_chain_params (node_outpoint 51) entry pk
    /\ verify_signed_message pk sig (hash256_to_hex start_txid) = Ok tt.
Proof.
  apply (accepted_start_controls_collateral start_store mainnet_chain_params (start_tx start_key) start_txid 500
           (node_outpoint 51)); vm_compute; reflexivity.
Defined.

Example start_refusals :
  validate_fluxnode_tx_for_mempool start_store mainnet_chain_params (start_tx (sample_key 8)) start_txid 500
    = invalid_fluxnode "fluxnode start signature invalid"
  /\ validate_fluxnode_tx_for_mempool start_store mainnet_chain_params (start_tx start_key) start_txid 499
    = invalid_fluxnode "fluxnode collateral too new".
Proof. vm_compute. auto. Qed.

(** A two-of-three multisig script lists its keys; a missing key is refused. *)
Example multisig_parsed :
  let script n := 82 :: push (sample_key 1) ++ push (sample_key 2) ++ push (sample_key 3) ++ [n; 174] in
  parse_multisig_redeem_script (script 83) = Some [sample_key 1; sample_key 2; sample_key 3]
  /\ parse_multisig_redeem_script (script 82) = None.
Proof. vm_compute. auto. Qed.

Example confirm_message_text :
  fluxnode_confirm_message (mkConfirm (node_outpoint 171) 1700000000 1 0 1 [] [] [])
  = ascii_bytes "COutPoint(ababababab, 1)111700000000".
Proof. vm_compute. reflexivity. Qed.

(** ** A start and its confirmation in one block

    The checks of a confirmation know the starts of the block, the update of
    the record does not: it reads the record the block found.  When a banned
    start is repeated and confirmed in the same block, the confirmation is
    verified with the new operator's key and then overwrites the new start
    with the old record, old operator included. *)
Definition old_operator : bytes := sample_key 1.
Definition new_operator : bytes := sample_key 2.
Definition banned_record : FluxnodeRecord := {|
  fr_collateral := node_outpoint 51; fr_tier := 1; fr_start_height := 500; fr_confirmed_height := 0;
  fr_last_confirmed_height := 500; fr_last_paid_height := 0; fr_collateral_value := V1_FLUXNODE_COLLAT_CUMULUS;
  fr_operator_pubkey := dedupe_key old_operator; fr_collateral_pubkey := Some (dedupe_key start_key);
  fr_p2sh_script := None; fr_delegates := None; fr_ip := [] |}.
Definition banned_store : MemoryStore :=
  commit_to start_store [Put FluxnodeKey (dedupe_key old_operator) old_operator; node_put banned_record].
Definition restart : FluxnodeStartV5 :=
  mkStartV5 (node_outpoint 51) start_key new_operator 7 (start_signature start_key).
Definition restart_confirm : FluxnodeConfirmTx := mkConfirm (node_outpoint 51) 7 1 7 0 [] [1] [1].
Definition restart_batch : result StoreError WriteBatch :=
  apply_fluxnode_txs banned_store []
    [(fluxnode_transaction false 5 0 (V5 (StartV5 restart)), Some (mkStartMeta 1 V1_FLUXNODE_COLLAT_CUMULUS));
     (fluxnode_transaction false 5 0 (V5 (ConfirmV5 restart_confirm)), None)] 800.

Theorem confirm_of_restart_keeps_old_operator :
  (exists check rest meta,
     fluxnode_confirm_checks banned_store mainnet_chain_params restart_confirm {[node_outpoint 51 := new_operator]}
     = Ok (check :: rest, meta) /\ sc_pubkeys check = Single new_operator)
  /\ exists batch r,
       restart_batch = Ok batch
       /\ fluxnode_record (commit_to banned_store batch) (node_outpoint 51) = Ok (Some r)
       /\ (fr_operator_pubkey r, fr_start_height r, fr_confirmed_height r) = (dedupe_key old_operator, 500, 800).
Proof.
  split.
  - do 3 eexists. split; vm_compute; reflexivity.
  - do 2 eexists. split; [vm_compute; reflexivity|]. split; vm_compute; reflexivity.
Qed.
