(* ===== verification/Ledger.v ===== *)
(** * The ledger of a block ([chainstate/src/state.rs], transactions of a block)

    What connecting the transactions of a block does, before the block's own
    records: the outputs it spends and creates, its shielded effects, the
    fluxnode records it changes, and the totals of outputs and value pools.
    The loop of [connect_block] threads four groups of local variables, which
    are the records [UtxoAcc], [ShieldedAcc] and [FluxnodeAcc] and their sum
    [BlockAcc].  Note commitment trees are a parameter ([ShieldedTrees]).
    Timers, counters and log lines are left out. *)

From S2P Require Import Prelude Consensus Encoding Hashing Transaction Block Difficulty Sighash Script Storage.
From S2P Require Import Fluxnode Utxo Indexes ChainIndex Validation HeaderChain Payees FluxnodeChecks.
From Stdlib Require Import ZArith Lia.
From stdpp Require Import base list option numbers strings gmap.
#[local] Open Scope Z_scope.

(** ** Amounts *)
Definition MAX_U64 : Z := 18446744073709551615.
Definition checked_sub_i64 (a b : Z) : option Z := checked_add_i64 a (- b).
Definition checked_add_u64 (a b : Z) : option Z := if a + b <=? MAX_U64 then Some (a + b) else None.
Definition checked_sub_u64 (a b : Z) : option Z := if b <=? a then Some (a - b) else None.
Definition or_range {A} (o : option A) : result ChainStateError A := ok_or o ChainValueOutOfRange.

Definition money_range (value : Z) : bool := (0 <=? value) && (value <=? MAX_MONEY).
Definition range_check (check : bool) : result ChainStateError unit :=
  if check then Ok tt else Err ChainValueOutOfRange.

Fixpoint sum_tx_outputs (total : Z) (outputs : list TxOut) : result ChainStateError Z :=
  match outputs with
  | [] => Ok total
  | output :: outputs =>
      _ ← range_check (negb ((value output <? 0) || (value output >? MAX_MONEY)));
      total ← or_range (checked_add_i64 total (value output));
      _ ← range_check (money_range total);
      sum_tx_outputs total outputs
  end.
Fixpoint sum_joinsplits (part : JoinSplit -> Z) (total : Z) (joinsplits : list JoinSplit) : result ChainStateError Z :=
  match joinsplits with
  | [] => Ok total
  | j :: joinsplits =>
      total ← or_range (checked_add_i64 total (part j));
      _ ← range_check (money_range (part j) && money_range total);
      sum_joinsplits part total joinsplits
  end.

Definition tx_value_out (tx : Transaction) : result ChainStateError Z :=
  total ← sum_tx_outputs 0 (vout tx);
  total ← (if value_balance tx <=? 0 then
             let balance := wrap_i64 (- value_balance tx) in
             total ← or_range (checked_add_i64 total balance);
             _ ← range_check (money_range balance && money_range total); Ok total
           else Ok total);
  sum_joinsplits vpub_old total (join_splits tx).

Definition tx_shielded_value_in (tx : Transaction) : result ChainStateError Z :=
  total ← (if value_balance tx >=? 0 then
             total ← or_range (checked_add_i64 0 (value_balance tx));
             _ ← range_check (money_range (value_balance tx) && money_range total); Ok total
           else Ok 0);
  sum_joinsplits vpub_new total (join_splits tx).

Fixpoint joinsplit_pool_delta (sprout : Z) (joinsplits : list JoinSplit) : result ChainStateError Z :=
  match joinsplits with
  | [] => Ok sprout
  | j :: joinsplits =>
      sprout ← or_range (checked_add_i64 sprout (vpub_old j));
      sprout ← or_range (checked_sub_i64 sprout (vpub_new j));
      joinsplit_pool_delta sprout joinsplits
  end.
Fixpoint pool_deltas (sprout sapling : Z) (txs : list Transaction) : result ChainStateError (Z * Z) :=
  match txs with
  | [] => Ok (sprout, sapling)
  | tx :: txs =>
      sapling ← or_range (checked_sub_i64 sapling (value_balance tx));
      sprout ← joinsplit_pool_delta sprout (join_splits tx);
      pool_deltas sprout sapling txs
  end.
Definition value_pool_deltas (block : Block) : result ChainStateError (Z * Z) :=
  pool_deltas 0 0 (transactions block).

(** ** Totals kept in the store *)
Definition SPROUT_TREE_KEY : bytes := ascii_bytes "sprout_tree".
Definition SAPLING_TREE_KEY : bytes := ascii_bytes "sapling_tree".
Definition UTXO_STATS_KEY : bytes := ascii_bytes "utxo_stats_v1".
Definition VALUE_POOLS_KEY : bytes := ascii_bytes "value_pools_v1".

Record UtxoStats := mkUtxoStats { txouts : Z; total_amount : Z }.
Record ValuePools := mkValuePools { sprout_pool : Z; sapling_pool : Z }.
#[global] Instance UtxoStats_eq_dec : EqDecision UtxoStats.
Proof. solve_decision. Defined.
#[global] Instance ValuePools_eq_dec : EqDecision ValuePools.
Proof. solve_decision. Defined.

Definition UtxoStats_encode (s : UtxoStats) : bytes := write_u64_le (txouts s) ++ write_i64_le (total_amount s).
Definition UtxoStats_fields : parser DecodeError UtxoStats :=
  txouts ← read_u64_le; total_amount ← read_i64_le; mret (mkUtxoStats txouts total_amount).
Definition UtxoStats_decode (bs : bytes) : result DecodeError UtxoStats :=
  decode_all TrailingBytes UtxoStats_fields bs.
Definition ValuePools_encode (p : ValuePools) : bytes :=
  write_i64_le (sprout_pool p) ++ write_i64_le (sapling_pool p).
Definition ValuePools_fields : parser DecodeError ValuePools :=
  sprout ← read_i64_le; sapling ← read_i64_le; mret (mkValuePools sprout sapling).
Definition ValuePools_decode (bs : bytes) : result DecodeError ValuePools :=
  decode_all TrailingBytes ValuePools_fields bs.

(** ** Note commitment trees *)

(** [incrementalmerkletree] and [zcash_primitives::merkle_tree], as
    [chainstate/src/shielded.rs] calls them. *)
Class ShieldedTrees := {
  SproutTree : Type;
  SaplingTree : Type;
  SaplingNode : Type;
  empty_sprout_tree : SproutTree;
  empty_sapling_tree : SaplingTree;
  sprout_append : Hash256 -> SproutTree -> option SproutTree;
  sapling_append : SaplingNode -> SaplingTree -> option SaplingTree;
  sapling_node_from_hash : Hash256 -> option SaplingNode;
  sprout_root_hash : SproutTree -> Hash256;
  sapling_root_hash : SaplingTree -> Hash256;
  sprout_empty_root_hash : Hash256;
  sapling_empty_root_hash : Hash256;
  sprout_tree_to_bytes : SproutTree -> option bytes;
  sprout_tree_from_bytes : bytes -> option SproutTree;
  sapling_tree_to_bytes : SaplingTree -> option bytes;
  sapling_tree_from_bytes : bytes -> option SaplingTree }.

(** A [for] loop that can fail. *)
Fixpoint try_fold {E A B} (f : A -> B -> result E A) (a : A) (l : list B) : result E A :=
  match l with [] => Ok a | b :: l => a ← f a b; try_fold f a l end.

Section trees.
  Context {T : ShieldedTrees} {S : Type} {KV : KeyValueStore S}.

Definition sprout_append_failed {A} : result ChainStateError A := invalid_tx "sprout tree append failed".
Definition append_commitment (tree : SproutTree) (commitment : Hash256) : result ChainStateError SproutTree :=
  match sprout_append commitment tree with Some tree => Ok tree | None => sprout_append_failed end.
Definition append_commitments (tree : SproutTree) (j : JoinSplit) : result ChainStateError SproutTree :=
  try_fold append_commitment tree (commitments j).
Definition append_output (tree : SaplingTree) (output : OutputDescription) : result ChainStateError SaplingTree :=
  match sapling_node_from_hash (od_cm output) with
  | None => invalid_tx "sapling note commitment invalid"
  | Some node =>
      match sapling_append node tree with
      | Some tree => Ok tree
      | None => invalid_tx "sapling tree append failed"
      end
  end.

Record ShieldedTreesCache := mkTreesCache {
  tc_sprout_tree : SproutTree; tc_sprout_root : Hash256; tc_sprout_bytes : bytes;
  tc_sapling_tree : SaplingTree; tc_sapling_root : Hash256; tc_sapling_bytes : bytes }.

(** A stored tree and its bytes; none stored is the empty tree. *)
Definition load_tree {Tree} (from_bytes : bytes -> option Tree) (to_bytes : Tree -> option bytes) (empty : Tree)
    (message : string) (stored : option bytes) : result ChainStateError (Tree * bytes) :=
  match stored with
  | Some bs => tree ← ok_or (from_bytes bs) (CorruptIndex message); Ok (tree, bs)
  | None => bs ← ok_or (to_bytes empty) (CorruptIndex message); Ok (empty, bs)
  end.
(** [ShieldedTreesCache::load]. *)
Definition trees_load (store : S) : result ChainStateError ShieldedTreesCache :=
  sprout_bytes ← map_err ChainStore (kv_get store Meta SPROUT_TREE_KEY);
  sprout ← load_tree sprout_tree_from_bytes sprout_tree_to_bytes empty_sprout_tree "invalid sprout tree" sprout_bytes;
  sapling_bytes ← map_err ChainStore (kv_get store Meta SAPLING_TREE_KEY);
  sapling ← load_tree sapling_tree_from_bytes sapling_tree_to_bytes empty_sapling_tree "invalid sapling tree"
              sapling_bytes;
  Ok (mkTreesCache (fst sprout) (sprout_root_hash (fst sprout)) (snd sprout)
        (fst sapling) (sapling_root_hash (fst sapling)) (snd sapling)).

Definition sprout_anchor_tree (store : S) (anchor : Hash256) : result ChainStateError (option SproutTree) :=
  if bool_decide (anchor = sprout_empty_root_hash) then Ok (Some empty_sprout_tree)
  else
    bs ← map_err ChainStore (anchor_get AnchorSprout store anchor);
    match bs with
    | None => Ok None
    | Some bs => tree ← ok_or (sprout_tree_from_bytes bs) (CorruptIndex "invalid sprout anchor tree"); Ok (Some tree)
    end.
Definition sapling_anchor_exists (store : S) (anchor : Hash256) : result ChainStateError bool :=
  if bool_decide (anchor = sapling_empty_root_hash) then Ok true
  else map_err ChainStore (anchor_contains AnchorSapling store anchor).
End trees.

(** ** Shielded effects of a transaction *)
Section shielded.
  Context {T : ShieldedTrees} {S : Type} {KV : KeyValueStore S} (store : S) (trees : ShieldedTreesCache).

Record ShieldedAcc := mkShieldedAcc {
  sa_sprout_delta : Z; sa_sapling_delta : Z;
  sa_seen_sprout : gset Hash256; sa_seen_sapling : gset Hash256;
  sa_sprout_tree : option SproutTree; sa_sapling_tree : option SaplingTree }.

(** One nullifier of a joinsplit: new in the block and in the chain. *)
Definition check_nullifier (column : Column) (duplicate spent : string) (seen : gset Hash256) (nullifier : Hash256)
    : result ChainStateError (gset Hash256) :=
  if bool_decide (nullifier ∈ seen) then invalid_tx duplicate
  else
    known ← map_err ChainStore (nullifier_contains column store nullifier);
    if known : bool then invalid_tx spent else Ok ({[nullifier]} ∪ seen).
Definition check_sprout_nullifier : gset Hash256 -> Hash256 -> result ChainStateError (gset Hash256) :=
  check_nullifier NullifierSprout "duplicate sprout nullifier in block" "sprout nullifier already spent".

(** The joinsplits of a transaction may use each other's roots as anchors. *)
Definition check_joinsplit (st : ShieldedAcc * gmap Hash256 SproutTree) (j : JoinSplit)
    : result ChainStateError (ShieldedAcc * gmap Hash256 SproutTree) :=
  let '(acc, intermediates) := st in
  delta ← or_range (checked_add_i64 (sa_sprout_delta acc) (vpub_old j));
  delta ← or_range (checked_sub_i64 delta (vpub_new j));
  seen ← try_fold check_sprout_nullifier (sa_seen_sprout acc) (nullifiers j);
  tree ← (match intermediates !! js_anchor j with
          | Some tree => Ok tree
          | None =>
              tree ← sprout_anchor_tree store (js_anchor j);
              match tree with Some tree => Ok tree | None => invalid_tx "sprout anchor not found" end
          end);
  tree ← append_commitments tree j;
  Ok (mkShieldedAcc delta (sa_sapling_delta acc) seen (sa_seen_sapling acc) (sa_sprout_tree acc) (sa_sapling_tree acc),
      <[sprout_root_hash tree := tree]> intermediates).

Definition check_spend (seen : gset Hash256) (spend : SpendDescription) : result ChainStateError (gset Hash256) :=
  seen ← check_nullifier NullifierSapling "duplicate sapling nullifier in block" "sapling nullifier already spent"
           seen (sd_nullifier spend);
  known ← sapling_anchor_exists store (sd_anchor spend);
  if known : bool then Ok seen else invalid_tx "sapling anchor not found".

(** The pool deltas, nullifiers and anchors of a transaction. *)
Definition check_shielded_tx (acc : ShieldedAcc) (tx : Transaction) : result ChainStateError ShieldedAcc :=
  sapling_delta ← or_range (checked_sub_i64 (sa_sapling_delta acc) (value_balance tx));
  let acc := mkShieldedAcc (sa_sprout_delta acc) sapling_delta (sa_seen_sprout acc) (sa_seen_sapling acc)
               (sa_sprout_tree acc) (sa_sapling_tree acc) in
  st ← try_fold check_joinsplit (acc, ∅) (join_splits tx);
  let acc := fst st in
  seen ← try_fold check_spend (sa_seen_sapling acc) (shielded_spends tx);
  Ok (mkShieldedAcc (sa_sprout_delta acc) (sa_sapling_delta acc) (sa_seen_sprout acc) seen
        (sa_sprout_tree acc) (sa_sapling_tree acc)).

(** The nullifiers a transaction reveals, into the batch. *)
Definition insert_nullifiers (batch : WriteBatch) (tx : Transaction) : WriteBatch :=
  let batch := foldl (fun b j => foldl (nullifier_insert NullifierSprout) b (nullifiers j)) batch (join_splits tx) in
  foldl (fun b s => nullifier_insert NullifierSapling b (sd_nullifier s)) batch (shielded_spends tx).

(** The commitments a transaction adds to the trees, which are copied from
    the cache when the block first needs them. *)
Definition append_notes (acc : ShieldedAcc) (tx : Transaction) : result ChainStateError ShieldedAcc :=
  sprout ← (if is_nil (join_splits tx) then Ok (sa_sprout_tree acc)
            else
              tree ← try_fold append_commitments (default (tc_sprout_tree trees) (sa_sprout_tree acc)) (join_splits tx);
              Ok (Some tree));
  sapling ← (if is_nil (shielded_outputs tx) then Ok (sa_sapling_tree acc)
             else
               tree ← try_fold append_output (default (tc_sapling_tree trees) (sa_sapling_tree acc)) (shielded_outputs tx);
               Ok (Some tree));
  Ok (mkShieldedAcc (sa_sprout_delta acc) (sa_sapling_delta acc) (sa_seen_sprout acc) (sa_seen_sapling acc)
        sprout sapling).
End shielded.

(** ** Outputs *)
Record ScriptCheck := mkScriptCheck {
  chk_tx_index : nat; chk_input_index : nat; chk_spent_index : nat; chk_value : Z }.

Record UtxoAcc := mkUtxoAcc {
  ua_batch : WriteBatch;
  ua_created : gmap OutPointKey CreatedUtxo;
  ua_spent_outpoints : gset OutPointKey;
  ua_spent : list SpentOutput;
  ua_script_checks : list ScriptCheck;
  ua_utxos_created : Z; ua_utxos_spent : Z; ua_value_created : Z; ua_value_spent : Z }.

Definition set_ua_batch (batch : WriteBatch) (acc : UtxoAcc) : UtxoAcc :=
  mkUtxoAcc batch (ua_created acc) (ua_spent_outpoints acc) (ua_spent acc) (ua_script_checks acc)
    (ua_utxos_created acc) (ua_utxos_spent acc) (ua_value_created acc) (ua_value_spent acc).

Definition spent_address_info (script_pubkey : bytes) : Z * bytes :=
  if is_p2pkh script_pubkey then (1, slice script_pubkey 3 23)
  else if is_p2sh script_pubkey then (2, slice script_pubkey 2 22)
  else (0, zeros 20).

Section outputs.
  Context {H : Hashes} {S : Type} {KV : KeyValueStore S} (store : S) (params : ChainParams).
  Context (options : ChainStateOptions) (check_script : bool) (height : Z).

(** Rules on an output of a coinbase. *)
Definition check_coinbase_spend (entry : UtxoEntry) (tx : Transaction) : result ChainStateError unit :=
  if ue_is_coinbase entry then
    if height - ue_height entry <? COINBASE_MATURITY then invalid_tx "premature spend of coinbase"
    else if coinbase_must_be_protected (consensus params)
            && negb (network_upgrade_active height (upgrades (consensus params)) Flux)
            && negb (is_nil (vout tx))
    then invalid_tx "coinbase spend has transparent outputs"
    else Ok tt
  else Ok tt.

(** The entry an input spends: created earlier in the block, or stored.  The
    flag says which. *)
Definition find_input (acc : UtxoAcc) (prevout : OutPoint)
    : result ChainStateError (UtxoEntry * option Hash256 * bool) :=
  match ua_created acc !! OutPointKey_new prevout with
  | Some created => Ok (cu_entry created, cu_address_key created, true)
  | None =>
      entry ← map_err ChainStore (utxo_get store prevout);
      match entry with
      | Some entry => Ok (entry, script_hash (ue_script_pubkey entry), false)
      | None => Err MissingInput
      end
  end.

(** The writes an input causes: the spent index, the removal of the output
    and the address indexes. *)
Definition input_ops (batch : WriteBatch) (tx_index : nat) (txid : Hash256) (input_index : nat)
    (prevout : OutPoint) (entry : UtxoEntry) (address_key : option Hash256) (created_in_block : bool) : WriteBatch :=
  let batch :=
    if index_spent options then
      let '(address_type, address_hash) := spent_address_info (ue_script_pubkey entry) in
      spentindex_insert batch prevout
        (mkSpentIndexValue txid (wrap_u32 (Z.of_nat input_index)) (wrap_u32 height)
           (Some (mkSpentIndexDetails (ue_value entry) address_type address_hash)))
    else batch in
  let batch := if created_in_block then batch else utxo_delete batch prevout in
  if index_address options then
    match address_key with
    | Some key =>
        let batch := if created_in_block then batch else address_delete_with_script_hash batch key prevout in
        delta_insert_with_prefix batch key (wrap_u32 height) (wrap_u32 (Z.of_nat tx_index)) txid
          (wrap_u32 (Z.of_nat input_index)) true (- ue_value entry)
    | None => batch
    end
  else batch.

(** One input of transaction [tx_index]; [transparent_in] is what the inputs
    before it are worth. *)
Definition connect_input (tx_index : nat) (tx : Transaction) (txid : Hash256)
    (st : UtxoAcc * Z) (indexed : nat * TxIn) : result ChainStateError (UtxoAcc * Z) :=
  let '(acc, transparent_in) := st in
  let '(input_index, input) := indexed in
  let key := OutPointKey_new (prevout input) in
  if bool_decide (key ∈ ua_spent_outpoints acc) then Err MissingInput
  else
    found ← find_input acc (prevout input);
    let '(entry, address_key, created_in_block) := found in
    _ ← or_range (checked_sub_i64 0 (ue_value entry));
    utxos_spent ← or_range (checked_add_u64 (ua_utxos_spent acc) 1);
    value_spent ← or_range (checked_add_i64 (ua_value_spent acc) (ue_value entry));
    _ ← check_coinbase_spend entry tx;
    let checks :=
      if check_script
      then ua_script_checks acc ++ [mkScriptCheck tx_index input_index (length (ua_spent acc)) (ue_value entry)]
      else ua_script_checks acc in
    transparent_in ← or_range (checked_add_i64 transparent_in (ue_value entry));
    Ok (mkUtxoAcc
          (input_ops (ua_batch acc) tx_index txid input_index (prevout input) entry address_key created_in_block)
          (delete key (ua_created acc)) ({[key]} ∪ ua_spent_outpoints acc)
          (ua_spent acc ++ [mkSpentOutput (prevout input) entry]) checks
          (ua_utxos_created acc) utxos_spent (ua_value_created acc) value_spent,
        transparent_in).

Fixpoint enumerate_from {A} (i : nat) (l : list A) : list (nat * A) :=
  match l with [] => [] | a :: l => (i, a) :: enumerate_from (Datatypes.S i) l end.
Definition enumerate {A} (l : list A) : list (nat * A) := enumerate_from 0 l.

Definition connect_inputs (tx_index : nat) (tx : Transaction) (txid : Hash256) (acc : UtxoAcc)
    : result ChainStateError (UtxoAcc * Z) :=
  try_fold (connect_input tx_index tx txid) (acc, 0) (enumerate (vin tx)).

Definition connect_output (tx_index : nat) (txid : Hash256) (acc : UtxoAcc) (indexed : nat * TxOut)
    : result ChainStateError UtxoAcc :=
  let '(out_index, output) := indexed in
  let outpoint := mkOutPoint txid (wrap_u32 (Z.of_nat out_index)) in
  let address_key := if index_address options then script_hash (script_pubkey output) else None in
  let entry := mkUtxoEntry (value output) (script_pubkey output) (wrap_u32 height) (tx_index =? 0)%nat in
  utxos_created ← or_range (checked_add_u64 (ua_utxos_created acc) 1);
  value_created ← or_range (checked_add_i64 (ua_value_created acc) (value output));
  let batch :=
    match address_key with
    | Some key =>
        delta_insert_with_prefix (ua_batch acc) key (wrap_u32 height) (wrap_u32 (Z.of_nat tx_index)) txid
          (wrap_u32 (Z.of_nat out_index)) false (value output)
    | None => ua_batch acc
    end in
  Ok (mkUtxoAcc batch (<[OutPointKey_new outpoint := mkCreated outpoint entry address_key]> (ua_created acc))
        (ua_spent_outpoints acc) (ua_spent acc) (ua_script_checks acc)
        utxos_created (ua_utxos_spent acc) value_created (ua_value_spent acc)).
Definition connect_outputs (tx_index : nat) (tx : Transaction) (txid : Hash256) (acc : UtxoAcc)
    : result ChainStateError UtxoAcc :=
  try_fold (connect_output tx_index txid) acc (enumerate (vout tx)).

(** The outputs that survive the block, in the order of the map's iteration,
    which the code leaves open. *)
Definition put_created (batch : WriteBatch) (created : CreatedUtxo) : WriteBatch :=
  let batch := utxo_put batch (cu_outpoint created) (cu_entry created) in
  if index_address options then
    match cu_address_key created with
    | Some key => address_insert_with_script_hash batch key (cu_outpoint created)
    | None => batch
    end
  else batch.
Definition put_all_created (batch : WriteBatch) (created : gmap OutPointKey CreatedUtxo) : WriteBatch :=
  foldl put_created batch (map snd (map_to_list created)).
End outputs.

(** ** A transaction *)
Record FluxnodeAcc := mkFluxnodeAcc {
  fa_undo : list FluxnodeUndo;
  fa_operator_pubkeys : gmap OutPoint bytes;
  fa_sig_checks : list FluxnodeSigCheck;
  fa_start_meta : gmap OutPoint FluxnodeStartMeta }.

Record BlockAcc `{ShieldedTrees} := mkBlockAcc {
  ba_utxo : UtxoAcc; ba_shielded : ShieldedAcc; ba_fluxnode : FluxnodeAcc; ba_total_fees : Z }.
Arguments mkBlockAcc {_} _ _ _ _.

Definition fluxnode_collateral (tx : Transaction) : option OutPoint :=
  match fluxnode tx with
  | None => None
  | Some (V5 (StartV5 start)) => Some (start5_collateral start)
  | Some (V6 (StartV6 start)) =>
      Some (match variant start with Normal collateral _ _ _ _ | P2sh collateral _ _ _ _ => collateral end)
  | Some (V5 (ConfirmV5 confirm)) | Some (V6 (ConfirmV6 confirm)) => Some (confirm_collateral confirm)
  end.

Definition fluxnode_start_operator_pubkey (tx : Transaction) : option (OutPoint * bytes) :=
  match fluxnode tx with
  | Some (V5 (StartV5 start)) => Some (start5_collateral start, start5_pubkey start)
  | Some (V6 (StartV6 start)) =>
      Some (match variant start with
            | Normal collateral _ pubkey _ _ => (collateral, pubkey)
            | P2sh collateral pubkey _ _ _ => (collateral, pubkey)
            end)
  | _ => None
  end.

Section block.
  Context {H : Hashes} {S256 : Secp} {R : Recovery} {T : ShieldedTrees} {S : Type} {KV : KeyValueStore S}.
  Context (store : S) (params : ChainParams) (options : ChainStateOptions) (trees : ShieldedTreesCache).
  Context (check_script : bool) (height : Z).

(** The record a fluxnode transaction is about to change, for the undo data. *)
Definition fluxnode_undo_entry (tx : Transaction) : result ChainStateError (option FluxnodeUndo) :=
  match fluxnode_collateral tx with
  | None => Ok None
  | Some collateral => prev ← fluxnode_record store collateral; Ok (Some (mkFluxnodeUndo collateral prev))
  end.

(** The first statements of the loop: the checks of a fluxnode transaction. *)
Definition collect_fluxnode_checks (acc : FluxnodeAcc) (created : gmap OutPointKey CreatedUtxo) (tx : Transaction)
    (txid : Hash256) : result ChainStateError FluxnodeAcc :=
  checks ← fluxnode_tx_checks store params tx txid height created (fa_operator_pubkeys acc);
  Ok (mkFluxnodeAcc (fa_undo acc) (fa_operator_pubkeys acc) (fa_sig_checks acc ++ fst checks)
        (match snd checks with
         | Some (collateral, meta) => <[collateral := meta]> (fa_start_meta acc)
         | None => fa_start_meta acc
         end)).

(** The change of the fluxnode record, with its undo entry. *)
Definition connect_fluxnode (acc : FluxnodeAcc) (batch : WriteBatch) (tx : Transaction)
    : result ChainStateError (FluxnodeAcc * WriteBatch) :=
  undo ← fluxnode_undo_entry tx;
  let start_operator := fluxnode_start_operator_pubkey tx in
  let start_meta := start_operator ≫= (fun co => fa_start_meta acc !! fst co) in
  batch ← map_err ChainStore (apply_fluxnode_tx store batch tx (wrap_u32 height) start_meta);
  Ok (mkFluxnodeAcc
        (match undo with Some entry => fa_undo acc ++ [entry] | None => fa_undo acc end)
        (match start_operator with
         | Some (collateral, pubkey) => <[collateral := pubkey]> (fa_operator_pubkeys acc)
         | None => fa_operator_pubkeys acc
         end) (fa_sig_checks acc) (fa_start_meta acc), batch).

(** The inputs of a transaction other than the coinbase, and its fee. *)
Definition connect_spending (tx_index : nat) (tx : Transaction) (txid : Hash256) (value_out shielded_in : Z)
    (utxo : UtxoAcc) (total_fees : Z) : result ChainStateError (UtxoAcc * Z) :=
  if (tx_index =? 0)%nat then Ok (utxo, total_fees)
  else
    st ← connect_inputs store params options check_script height tx_index tx txid utxo;
    let '(utxo, transparent_in) := st in
    value_in ← or_range (checked_add_i64 shielded_in transparent_in);
    _ ← range_check (negb (value_in <? value_out));
    total_fees ← or_range (checked_add_i64 total_fees (value_in - value_out));
    Ok (utxo, total_fees).

(** The body of the loop over the transactions. *)
Definition connect_tx (acc : BlockAcc) (item : nat * (Transaction * Hash256)) : result ChainStateError BlockAcc :=
  let '(tx_index, (tx, txid)) := item in
  fluxnode ← collect_fluxnode_checks (ba_fluxnode acc) (ua_created (ba_utxo acc)) tx txid;
  value_out ← tx_value_out tx;
  shielded_in ← tx_shielded_value_in tx;
  shielded ← check_shielded_tx store (ba_shielded acc) tx;
  spent ← connect_spending tx_index tx txid value_out shielded_in (ba_utxo acc) (ba_total_fees acc);
  let '(utxo, total_fees) := spent in
  fb ← connect_fluxnode fluxnode (ua_batch utxo) tx;
  let '(fluxnode, batch) := fb in
  let utxo := set_ua_batch (insert_nullifiers batch tx) utxo in
  shielded ← append_notes trees shielded tx;
  utxo ← connect_outputs options height tx_index tx txid utxo;
  Ok (mkBlockAcc utxo shielded fluxnode total_fees).

Definition acc_start (batch : WriteBatch) : BlockAcc :=
  mkBlockAcc (mkUtxoAcc batch ∅ ∅ [] [] 0 0 0 0) (mkShieldedAcc 0 0 ∅ ∅ None None) (mkFluxnodeAcc [] ∅ [] ∅) 0.

Definition connect_txs (batch : WriteBatch) (txs : list Transaction) (txids : list Hash256)
    : result ChainStateError BlockAcc :=
  try_fold connect_tx (acc_start batch) (enumerate (combine txs txids)).
End block.
