(* ===== verification/BlockConnect.v ===== *)
(** * Connecting and disconnecting blocks ([chainstate/src/state.rs])

    [connect_block] checks a block against the chain state and returns the
    batch that makes it the new tip, [disconnect_block] the batch that takes
    the tip away again, and [commit_batch] writes a batch and brings the
    in-memory state up to date.  Connecting already appends the block and its
    undo data to the flat files.  The read caches of [Caches] are left out
    here (they do not change what is read), as are metrics and log lines; the
    locks around the in-memory state never fail, and a read-only view of it is
    passed where the code locks it to read. *)

From S2P Require Import Prelude Consensus Rewards Encoding Hashing Address Transaction Block Difficulty Sighash.
From S2P Require Import Script Equihash Pow Pon Storage Fluxnode Utxo FlatFiles Indexes ChainIndex Shielded.
From S2P Require Import Validation HeaderChain Caches Payees FluxnodeChecks Ledger.
From Stdlib Require Import ZArith Lia.
From stdpp Require Import base list option numbers strings gmap.
#[local] Open Scope Z_scope.

(** ** The state of a node *)
Inductive FlatFileKind := Blocks | Undo.
Record TrackedFlatFile := mkTracked { tracked_file_id : Z; tracked_info : FlatFileInfo }.
Record FlatFileMetaCache := mkFileMeta {
  meta_blocks : option TrackedFlatFile; meta_undo : option TrackedFlatFile }.
Definition tracked (kind : FlatFileKind) (c : FlatFileMetaCache) : option TrackedFlatFile :=
  match kind with Blocks => meta_blocks c | Undo => meta_undo c end.
Definition track (kind : FlatFileKind) (t : option TrackedFlatFile) (c : FlatFileMetaCache) : FlatFileMetaCache :=
  match kind with Blocks => mkFileMeta t (meta_undo c) | Undo => mkFileMeta (meta_blocks c) t end.

(** [FlatFileStore]: its cursor, its directory and the size it splits at. *)
Record FlatFileStore := mkFlatFileStore { ffs_state : FlatFileState; ffs_files : Files; ffs_max : Z }.

Record ChainState `{ShieldedTrees} (S : Type) := mkChainState {
  cs_store : S; cs_header_cache : HeaderCache; cs_payments : PaymentsCache;
  cs_trees : option ShieldedTreesCache; cs_blocks : FlatFileStore; cs_undo : FlatFileStore;
  cs_file_meta : FlatFileMetaCache }.
Arguments mkChainState {_ _} _ _ _ _ _ _ _.
Arguments cs_store {_ _} _.
Arguments cs_header_cache {_ _} _.
Arguments cs_payments {_ _} _.
Arguments cs_trees {_ _} _.
Arguments cs_blocks {_ _} _.
Arguments cs_undo {_ _} _.
Arguments cs_file_meta {_ _} _.

Section node.
  Context {H : Hashes} {B : Blake2b} {U : U256Ops} {S256 : Secp} {R : Recovery} {SC : ShieldedCrypto}.
  Context {T : ShieldedTrees} {S : Type} {KV : KeyValueStore S}.
  Context (params : ChainParams) (options : ChainStateOptions).

Definition set_store (x : S) (s : ChainState S) : ChainState S :=
  mkChainState x (cs_header_cache s) (cs_payments s) (cs_trees s) (cs_blocks s) (cs_undo s) (cs_file_meta s).
Definition set_header_cache (x : HeaderCache) (s : ChainState S) : ChainState S :=
  mkChainState (cs_store s) x (cs_payments s) (cs_trees s) (cs_blocks s) (cs_undo s) (cs_file_meta s).
Definition set_payments (x : PaymentsCache) (s : ChainState S) : ChainState S :=
  mkChainState (cs_store s) (cs_header_cache s) x (cs_trees s) (cs_blocks s) (cs_undo s) (cs_file_meta s).
Definition set_trees (x : option ShieldedTreesCache) (s : ChainState S) : ChainState S :=
  mkChainState (cs_store s) (cs_header_cache s) (cs_payments s) x (cs_blocks s) (cs_undo s) (cs_file_meta s).
Definition set_files (kind : FlatFileKind) (x : FlatFileStore) (s : ChainState S) : ChainState S :=
  match kind with
  | Blocks => mkChainState (cs_store s) (cs_header_cache s) (cs_payments s) (cs_trees s) x (cs_undo s) (cs_file_meta s)
  | Undo => mkChainState (cs_store s) (cs_header_cache s) (cs_payments s) (cs_trees s) (cs_blocks s) x (cs_file_meta s)
  end.
Definition set_file_meta (x : FlatFileMetaCache) (s : ChainState S) : ChainState S :=
  mkChainState (cs_store s) (cs_header_cache s) (cs_payments s) (cs_trees s) (cs_blocks s) (cs_undo s) x.
Definition files_of (kind : FlatFileKind) (s : ChainState S) : FlatFileStore :=
  match kind with Blocks => cs_blocks s | Undo => cs_undo s end.

(** Computations on the node that can fail and keep the state they reached. *)
Definition node (A : Type) : Type := ChainState S -> result ChainStateError A * ChainState S.
#[global] Instance node_ret : MRet node := fun A a s => (Ok a, s).
#[global] Instance node_bind : MBind node := fun A B f m s =>
  match m s with
  | (Ok a, s) => f a s
  | (Err e, s) => (Err e, s)
  | (Panic, s) => (Panic, s)
  end.
Definition lift {A} (r : result ChainStateError A) : node A := fun s => (r, s).
Definition reads {A} (f : ChainState S -> result ChainStateError A) : node A := fun s => (f s, s).
Definition read_store {A} (f : S -> result ChainStateError A) : node A := reads (fun s => f (cs_store s)).
Definition changes (f : ChainState S -> ChainState S) : node unit := fun s => (Ok tt, f s).

(** ** Totals, trees and files *)
Definition stored_total {A} (key : bytes) (decode : bytes -> result DecodeError A) (message : string) (store : S)
    : result ChainStateError (option A) :=
  bs ← map_err ChainStore (kv_get store Meta key);
  match bs with
  | None => Ok None
  | Some bs => a ← map_err (fun _ => CorruptIndex message) (decode bs); Ok (Some a)
  end.
Definition utxo_stats : S -> result ChainStateError (option UtxoStats) :=
  stored_total UTXO_STATS_KEY UtxoStats_decode "invalid utxo stats".
Definition value_pools : S -> result ChainStateError (option ValuePools) :=
  stored_total VALUE_POOLS_KEY ValuePools_decode "invalid value pools".

(** [compute_utxo_stats]: the visitor counts every stored output. *)
Definition count_utxo (stats : UtxoStats) (key value : bytes) : result StoreError UtxoStats :=
  entry ← decode_utxo value;
  txouts ← ok_or (checked_add_u64 (txouts stats) 1) (Backend "utxo txouts overflow");
  total ← ok_or (checked_add_i64 (total_amount stats) (ue_value entry)) (Backend "utxo total overflow");
  Ok (mkUtxoStats txouts total).
Definition compute_utxo_stats (store : S) : result ChainStateError UtxoStats :=
  map_err ChainStore (for_each_prefix store Utxo [] count_utxo (mkUtxoStats 0 0)).
Definition utxo_stats_or_compute (store : S) : result ChainStateError UtxoStats :=
  stats ← utxo_stats store;
  match stats with Some stats => Ok stats | None => compute_utxo_stats store end.

Definition block_index_entry (store : S) (hash : Hash256) : result ChainStateError (option BlockIndexEntry) :=
  bs ← map_err ChainStore (kv_get store BlockIndex hash);
  match bs with
  | None => Ok None
  | Some bs => e ← ok_or (BlockIndexEntry_decode bs) (CorruptIndex "invalid block index entry"); Ok (Some e)
  end.
Definition block_location (store : S) (hash : Hash256) : result ChainStateError (option FileLocation) :=
  e ← block_index_entry store hash; Ok (option_map bie_block e).
Definition read_block (s : ChainState S) (location : FileLocation) : result ChainStateError bytes :=
  map_err ChainFlatFile (FlatFiles.read (ffs_files (cs_blocks s)) location).
Definition decode_block (bs : bytes) : result ChainStateError Block :=
  map_err (fun _ => CorruptIndex "invalid block bytes") (block_consensus_decode bs).

Definition check_pools (pools : ValuePools) : result ChainStateError unit :=
  if (sprout_pool pools <? 0) || (sapling_pool pools <? 0) then Err (CorruptIndex "negative shielded value pool")
  else Ok tt.
Definition add_pools (pools : ValuePools) (sprout sapling : Z) : result ChainStateError ValuePools :=
  sprout ← or_range (checked_add_i64 (sprout_pool pools) sprout);
  sapling ← or_range (checked_add_i64 (sapling_pool pools) sapling);
  _ ← check_pools (mkValuePools sprout sapling);
  Ok (mkValuePools sprout sapling).

(** The deltas of the blocks of the chain, from the files. *)
Fixpoint sum_pools (s : ChainState S) (count : nat) (height : Z) (pools : ValuePools)
    : result ChainStateError ValuePools :=
  match count with
  | O => Ok pools
  | Datatypes.S count =>
      hash ← map_err ChainStore (height_hash (cs_store s) height);
      hash ← ok_or hash (CorruptIndex "missing height index entry");
      location ← block_location (cs_store s) hash;
      location ← ok_or location (CorruptIndex "missing block index entry");
      bs ← read_block s location;
      block ← decode_block bs;
      deltas ← value_pool_deltas block;
      pools ← add_pools pools (fst deltas) (snd deltas);
      sum_pools s count (height + 1) pools
  end.
Definition compute_value_pools (s : ChainState S) : result ChainStateError ValuePools :=
  best ← map_err ChainStore (best_block (cs_store s));
  match best with
  | None => Ok (mkValuePools 0 0)
  | Some best => sum_pools s (Z.to_nat (tip_height best + 1)) 0 (mkValuePools 0 0)
  end.
Definition value_pools_or_compute (s : ChainState S) : result ChainStateError ValuePools :=
  pools ← value_pools (cs_store s);
  match pools with Some pools => Ok pools | None => compute_value_pools s end.

(** The cache of note commitment trees, filled on first use. *)
Definition shielded_cache : node ShieldedTreesCache := fun s =>
  match cs_trees s with
  | Some trees => (Ok trees, s)
  | None =>
      match trees_load (cs_store s) with
      | Ok trees => (Ok trees, set_trees (Some trees) s)
      | Err e => (Err e, s)
      | Panic => (Panic, s)
      end
  end.
Definition update_tree {Tree} (from_bytes : bytes -> option Tree) (message : string) (bs : option bytes)
    : result ChainStateError (option (Tree * bytes)) :=
  match bs with
  | None => Ok None
  | Some bs => tree ← ok_or (from_bytes bs) (CorruptIndex message); Ok (Some (tree, bs))
  end.
(** A tree that does not parse leaves what was updated before it. *)
Definition update_shielded_cache (sprout_bytes sapling_bytes : option bytes) : node unit :=
  trees ← shielded_cache;
  sprout ← lift (update_tree sprout_tree_from_bytes "invalid sprout tree" sprout_bytes);
  let trees :=
    match sprout with
    | Some (tree, bs) => mkTreesCache tree (sprout_root_hash tree) bs (tc_sapling_tree trees)
                           (tc_sapling_root trees) (tc_sapling_bytes trees)
    | None => trees
    end in
  _ ← changes (set_trees (Some trees));
  sapling ← lift (update_tree sapling_tree_from_bytes "invalid sapling tree" sapling_bytes);
  match sapling with
  | Some (tree, bs) =>
      changes (set_trees (Some (mkTreesCache (tc_sprout_tree trees) (tc_sprout_root trees) (tc_sprout_bytes trees)
                                  tree (sapling_root_hash tree) bs)))
  | None => mret tt
  end.

(** [FlatFileStore::append]; [fault] is a failure of the operating system. *)
Definition append_file (kind : FlatFileKind) (fault : option Fault) (bs : bytes) : node FileLocation := fun s =>
  let f := files_of kind s in
  let '(st, files, r) := FlatFiles.append (ffs_max f) fault (ffs_state f) (ffs_files f) bs in
  (map_err ChainFlatFile r, set_files kind (mkFlatFileStore st files (ffs_max f)) s).

Definition file_info_key (kind : FlatFileKind) (id : Z) : bytes :=
  match kind with Blocks => block_file_info_key id | Undo => undo_file_info_key id end.
Definition last_file_key (kind : FlatFileKind) : bytes :=
  match kind with Blocks => META_BLOCK_FILES_LAST_FILE_KEY | Undo => META_UNDO_FILES_LAST_FILE_KEY end.
Definition last_len_key (kind : FlatFileKind) : bytes :=
  match kind with Blocks => META_BLOCK_FILES_LAST_LEN_KEY | Undo => META_UNDO_FILES_LAST_LEN_KEY end.

Definition flatfile_info_cached (kind : FlatFileKind) (id : Z) : node FlatFileInfo := fun s =>
  let hit := match tracked kind (cs_file_meta s) with
             | Some t => if tracked_file_id t =? id then Some (tracked_info t) else None
             | None => None
             end in
  match hit with
  | Some info => (Ok info, s)
  | None =>
      match (bs ← map_err ChainStore (kv_get (cs_store s) Meta (file_info_key kind id));
             match bs with
             | Some bs => ok_or (FlatFileInfo_decode bs) (CorruptIndex "invalid flatfile info entry")
             | None => Ok (mkFlatFileInfo 0 0 0 0 0 0 0)
             end) with
      | Ok info => (Ok info, set_file_meta (track kind (Some (mkTracked id info)) (cs_file_meta s)) s)
      | Err e => (Err e, s)
      | Panic => (Panic, s)
      end
  end.

Definition update_flatfile_meta (batch : WriteBatch) (kind : FlatFileKind) (id file_len height time : Z)
    : node WriteBatch :=
  info ← flatfile_info_cached kind id;
  let first := ffi_blocks info =? 0 in
  blocks ← lift (or_range (if ffi_blocks info + 1 <=? u32_max then Some (ffi_blocks info + 1) else None));
  let info :=
    mkFlatFileInfo blocks file_len
      (if first then height else Z.min (height_first info) height)
      (if first then height else Z.max (height_last info) height)
      (if first then time else Z.min (time_first info) time)
      (if first then time else Z.max (time_last info) time) (ffi_flags info) in
  let batch := batch_put batch Meta (file_info_key kind id) (FlatFileInfo_encode info) in
  let batch := batch_put batch Meta (last_file_key kind) (le_bytes 4 id) in
  mret (batch_put batch Meta (last_len_key kind) (le_bytes 8 file_len)).

(** The length of the file after a record at [location]. *)
Definition file_len_after (location : FileLocation) : result ChainStateError Z :=
  or_range (len ← checked_add_u64 (offset location) 4; checked_add_u64 len (loc_len location)).

Definition clear_block_index_undo (store : S) (hash : Hash256) (batch : WriteBatch)
    : result ChainStateError WriteBatch :=
  entry ← block_index_entry store hash;
  match entry with
  | None => Ok batch
  | Some e =>
      if negb (is_some (bie_undo e)) && (Z.land (bie_status e) STATUS_HAVE_UNDO =? 0) then Ok batch
      else
        let e := mkBlockIndexEntry (bie_block e) None (tx_count e)
                   (Z.land (bie_status e) (u32_max - STATUS_HAVE_UNDO)) in
        Ok (batch_put batch BlockIndex hash (BlockIndexEntry_encode e))
  end.

Definition block_logical_time (store : S) (hash : Hash256) : result ChainStateError (option Z) :=
  bs ← map_err ChainStore (kv_get store BlockTimestamp hash);
  match bs with
  | None => Ok None
  | Some bs =>
      if negb (length bs =? 4)%nat then Err (CorruptIndex "invalid block timestamp entry")
      else Ok (Some (from_be bs))
  end.

Definition decode_undo (bs : bytes) : result ChainStateError BlockUndo :=
  map_err (fun _ => CorruptIndex "invalid block undo entry") (BlockUndo_decode bs).
(** The undo data of a block: where it is, or in older stores itself. *)
Definition block_undo (s : ChainState S) (hash : Hash256) : result ChainStateError (option BlockUndo) :=
  bs ← map_err ChainStore (kv_get (cs_store s) BlockUndoCol hash);
  match bs with
  | None => Ok None
  | Some bs =>
      undo ← (if (length bs =? 16)%nat then
                location ← ok_or (FileLocation_decode bs) (CorruptIndex "invalid block undo entry");
                undo_bytes ← map_err ChainFlatFile (FlatFiles.read (ffs_files (cs_undo s)) location);
                decode_undo undo_bytes
              else decode_undo bs);
      Ok (Some undo)
  end.

Definition saturating_add_i32 (a b : Z) : Z := Z.max (-2147483648) (Z.min 2147483647 (a + b)).
(** The block that is now too deep to be undone loses its undo data. *)
Definition prune_block_undo (store : S) (height : Z) (batch : WriteBatch) : result ChainStateError WriteBatch :=
  if height <? 0 then Ok batch
  else
    let max_depth := wrap_i32 (max_reorg_depth height) in
    let prune_height := saturating_sub_i32 height (saturating_add_i32 max_depth 1) in
    if prune_height <? 0 then Ok batch
    else
      hash ← map_err ChainStore (height_hash store prune_height);
      match hash with
      | Some hash => clear_block_index_undo store hash (batch_delete batch BlockUndoCol hash)
      | None => Ok batch
      end.

(** ** Connecting a block *)

(** [insert_header], on the header cache and the batch at hand. *)
Definition insert_block_header (now : Z) (batch : WriteBatch) (hd : BlockHeader)
    : node (HeaderEntry * WriteBatch) := fun s =>
  let '(r, hs) := insert_header (cs_store s) (consensus params) options now hd
                    (mkHeaderState (cs_header_cache s) batch ∅ None None None) in
  (entry ← r; Ok (entry, hs_batch hs), set_header_cache (hs_cache hs) s).

Definition check_extends_tip (hd : BlockHeader) (height : Z) (store : S) : result ChainStateError unit :=
  best ← map_err ChainStore (best_block store);
  match best with
  | Some best => if bool_decide (prev_block hd = tip_hash best) then Ok tt
                 else Err (ChainInvalidHeader "block does not extend best block tip")
  | None => if height =? 0 then Ok tt
            else Err (ChainInvalidHeader "missing best block for non-genesis height")
  end.

(** The ids of the transactions: validated here, given, or computed. *)
Fixpoint compute_txids (txs : list Transaction) : result ChainStateError (list Hash256) :=
  match txs with
  | [] => Ok []
  | tx :: txs =>
      id ← map_err (fun e => ChainValidation (EncodingFailure e)) (txid tx);
      ids ← compute_txids txs; Ok (id :: ids)
  end.
Definition block_txids (block : Block) (height : Z) (flags : ValidationFlags) (prevalidated : bool)
    (txids : option (list Hash256)) : result ChainStateError (list Hash256) :=
  if negb prevalidated then map_err ChainValidation (validate_block_with_txids block height (consensus params) flags)
  else
    match txids with
    | Some txids => if (length txids =? length (transactions block))%nat then Ok txids
                    else Err (CorruptIndex "transaction id cache mismatch")
    | None => compute_txids (transactions block)
    end.

Definition check_pon_signature (hd : BlockHeader) (height : Z) (s : ChainState S) : result ChainStateError unit :=
  if is_pon hd && network_upgrade_active height (upgrades (consensus params)) Consensus.Pon then
    pubkey ← operator_pubkey_bytes (cs_store s) (cs_payments s) (nodes_collateral hd);
    pubkey ← ok_or pubkey (ChainInvalidHeader "missing fluxnode entry for pon signature");
    map_err (fun e => ChainValidation (PonFailure e)) (validate_pon_signature hd (consensus params) pubkey)
  else Ok tt.

(** [block.transactions[0]]. *)
Definition first_tx (block : Block) : result ChainStateError Transaction := index (transactions block) 0.

Definition check_payouts_due (coinbase : Transaction) (height : Z) : node (list OutPoint) := fun s =>
  let '(r, payments) := check_deterministic_fluxnode_payouts (cs_store s) params coinbase height (cs_payments s) in
  (r, set_payments payments s).

(** The signatures of the inputs, collected while they were connected. *)
Definition run_script_check (block : Block) (spent : list SpentOutput) (branch_id : Z) (check : ScriptCheck)
    : result ChainStateError unit :=
  tx ← index (transactions block) (chk_tx_index check);
  input ← index (vin tx) (chk_input_index check);
  spent ← index spent (chk_spent_index check);
  map_err (fun _ => ChainValidation (InvalidTransaction "script validation failed"))
    (verify_script (script_sig input) (ue_script_pubkey (so_entry spent)) tx (chk_input_index check) (chk_value check)
       BLOCK_SCRIPT_VERIFY_FLAGS branch_id).
Definition run_script_checks (block : Block) (spent : list SpentOutput) (branch_id : Z) (checks : list ScriptCheck)
    : result ChainStateError unit :=
  try_fold (fun _ => run_script_check block spent branch_id) tt checks.

Definition with_last_paid (height : Z) (r : FluxnodeRecord) : FluxnodeRecord := {|
  fr_collateral := fr_collateral r; fr_tier := fr_tier r; fr_start_height := fr_start_height r;
  fr_confirmed_height := fr_confirmed_height r; fr_last_confirmed_height := fr_last_confirmed_height r;
  fr_last_paid_height := height; fr_collateral_value := fr_collateral_value r;
  fr_operator_pubkey := fr_operator_pubkey r; fr_collateral_pubkey := fr_collateral_pubkey r;
  fr_p2sh_script := fr_p2sh_script r; fr_delegates := fr_delegates r; fr_ip := fr_ip r |}.

(** The record a batch leaves at a key: the last operation on it counts. *)
Definition record_in_batch (batch : WriteBatch) (key : bytes) : option (option bytes) :=
  foldl (fun found op =>
           match op with
           | Put Fluxnode op_key value => if bool_decide (op_key = key) then Some (Some value) else found
           | Storage.Delete Fluxnode op_key => if bool_decide (op_key = key) then Some None else found
           | _ => found
           end) None batch.
Definition mark_paid (store : S) (height : Z) (st : WriteBatch * list FluxnodeUndo) (collateral : OutPoint)
    : result ChainStateError (WriteBatch * list FluxnodeUndo) :=
  let '(batch, extra) := st in
  let key := OutPointKey_new collateral in
  record ← (match record_in_batch batch key with
            | Some (Some bs) =>
                r ← map_err (fun _ => CorruptIndex "invalid fluxnode record bytes in batch") (FluxnodeRecord_decode bs);
                Ok (Some r)
            | Some None => Ok None
            | None => fluxnode_record store collateral
            end);
  record ← ok_or record (CorruptIndex "missing fluxnode record for deterministic payout");
  Ok (batch_put batch Fluxnode key (FluxnodeRecord_encode (with_last_paid (wrap_u32 height) record)),
      extra ++ [mkFluxnodeUndo collateral (Some record)]).
Definition mark_all_paid (store : S) (height : Z) (batch : WriteBatch) (paid : list OutPoint)
    : result ChainStateError (WriteBatch * list FluxnodeUndo) :=
  try_fold (mark_paid store height) (batch, []) paid.

(** The roots after the block, the commitment of the header and the anchors. *)
Definition root_after {Tree} (root_hash : Tree -> Hash256) (tree : option Tree) (prev : Hash256) : Hash256 :=
  match tree with Some tree => root_hash tree | None => prev end.
Definition changed_tree {Tree} (root_hash : Tree -> Hash256) (tree : option Tree) (prev : Hash256) : option Tree :=
  tree ← tree; if bool_decide (root_hash tree = prev) then None else Some tree.
Definition finish_trees (trees : ShieldedTreesCache) (acc : ShieldedAcc) (hd : BlockHeader) (height : Z)
    (batch : WriteBatch) : result ChainStateError WriteBatch :=
  let sapling_root := root_after sapling_root_hash (sa_sapling_tree acc) (tc_sapling_root trees) in
  if network_upgrade_active height (upgrades (consensus params)) Acadia
     && negb (bool_decide (final_sapling_root hd = sapling_root))
  then Err (ChainValidation (InvalidBlock "sapling root mismatch"))
  else
    batch ← (match changed_tree sprout_root_hash (sa_sprout_tree acc) (tc_sprout_root trees) with
             | Some tree =>
                 bs ← ok_or (sprout_tree_to_bytes tree) (CorruptIndex "invalid sprout tree");
                 Ok (batch_put (anchor_insert AnchorSprout batch (sprout_root_hash tree) bs) Meta SPROUT_TREE_KEY bs)
             | None => Ok batch
             end);
    match changed_tree sapling_root_hash (sa_sapling_tree acc) (tc_sapling_root trees) with
    | Some tree =>
        bs ← ok_or (sapling_tree_to_bytes tree) (CorruptIndex "invalid sapling tree");
        Ok (batch_put (anchor_insert AnchorSapling batch (sapling_root_hash tree) []) Meta SAPLING_TREE_KEY bs)
    | None => Ok batch
    end.

(** Where the bytes of the block are: given, or appended to the files now. *)
Definition place_block (fault : option Fault) (block : Block) (block_bytes : option bytes)
    (block_location : option FileLocation) : node FileLocation :=
  match block_location with
  | Some location =>
      lift (if loc_len location =? 0 then Err (ChainInvalidHeader "invalid block file location")
            else match block_bytes with
                 | Some bs => if Z.of_nat (length bs) =? loc_len location then Ok location
                              else Err (CorruptIndex "block bytes length mismatch")
                 | None => Ok location
                 end)
  | None =>
      bs ← lift (match block_bytes with
                 | Some bs => Ok bs
                 | None => map_err (fun e => ChainValidation (EncodingFailure e)) (block_consensus_encode block)
                 end);
      append_file Blocks fault bs
  end.
(** A record of the files and what their metadata says of it. *)
Definition note_location (kind : FlatFileKind) (batch : WriteBatch) (location : FileLocation) (height time : Z)
    : node WriteBatch :=
  file_len ← lift (file_len_after location);
  update_flatfile_meta batch kind (file_id location) file_len height time.

(** The block's own index entries: timestamps, headers and transactions.  An
    error in reading the previous timestamp is only logged. *)
Definition logical_time (store : S) (hd : BlockHeader) : Z :=
  if bool_decide (prev_block hd = zeros 32) then time hd
  else match block_logical_time store (prev_block hd) with
       | Ok (Some prev) => if time hd <=? prev then saturating_add_u32 prev 1 else time hd
       | _ => time hd
       end.
Definition timestamp_key (ts : Z) (hash : Hash256) : bytes := be_bytes 4 ts ++ hash.
Definition index_block (store : S) (hd : BlockHeader) (hash : Hash256) (location : FileLocation)
    (txids : list Hash256) (batch : WriteBatch) : WriteBatch :=
  let batch :=
    if index_timestamp options then
      let ts := logical_time store hd in
      batch_put (batch_put batch TimestampIndex (timestamp_key ts hash) []) BlockTimestamp hash (be_bytes 4 ts)
    else batch in
  let batch := if store_block_headers options then batch_put batch BlockHeaderCol hash (header_consensus_encode hd)
               else batch in
  if index_tx options
  then foldl (fun b (it : nat * Hash256) =>
                txindex_insert b (snd it) (mkTxLocation location (wrap_u32 (Z.of_nat (fst it)))))
         batch (enumerate txids)
  else batch.

Definition make_tip (entry : HeaderEntry) (hash : Hash256) (height : Z) (batch : WriteBatch) : WriteBatch :=
  let entry := mkHeaderEntry (he_prev_hash entry) (he_skip_hash entry) (he_height entry) (he_time entry)
                 (he_bits entry) (he_chainwork entry) (status_with_block (he_status entry)) in
  set_height_hash (set_best_block (put_header batch hash entry) hash) height hash.

(** What the coinbase may pay at most. *)
Definition max_reward (block_value height total_fees : Z) : result ChainStateError Z :=
  or_range (value ← checked_add_i64 block_value total_fees;
            value ← checked_add_i64 value (exchange_fund_amount height (funding params));
            value ← checked_add_i64 value (foundation_fund_amount height (funding params));
            checked_add_i64 value (swap_pool_amount height (swap_pool params))).
Definition check_coinbase_value (coinbase : Transaction) (height total_fees : Z) : result ChainStateError unit :=
  block_value ← block_subsidy height (consensus params);
  coinbase_value ← tx_value_out coinbase;
  max_reward ← max_reward block_value height total_fees;
  if (height >? 2) && (coinbase_value >? max_reward)
  then Err (ChainValidation (InvalidBlock "coinbase pays too much")) else Ok tt.

Definition stats_after (stats : UtxoStats) (acc : UtxoAcc) : result ChainStateError UtxoStats :=
  txouts ← ok_or (n ← checked_add_u64 (txouts stats) (ua_utxos_created acc); checked_sub_u64 n (ua_utxos_spent acc))
             (CorruptIndex "utxo stats mismatch");
  total ← or_range (v ← checked_add_i64 (total_amount stats) (ua_value_created acc);
                    checked_sub_i64 v (ua_value_spent acc));
  Ok (mkUtxoStats txouts total).

(** What is connected, with what it was given. *)
Record BlockInput := mkBlockInput {
  bi_block : Block; bi_height : Z; bi_flags : ValidationFlags; bi_prevalidated : bool;
  bi_txids : option (list Hash256); bi_bytes : option bytes; bi_location : option FileLocation }.
(** What the environment brings: the clock and failures of the file system. *)
Record BlockEnv := mkBlockEnv { be_now : Z; be_block_fault : option Fault; be_undo_fault : option Fault }.

(** The checks ahead of the transactions: the header is entered, extends the
    tip, and the coinbase pays whom it must. *)
Definition connect_header (env : BlockEnv) (input : BlockInput)
    : node (HeaderEntry * WriteBatch * list Hash256 * list OutPoint) :=
  let block := bi_block input in
  let height := bi_height input in
  inserted ← insert_block_header (be_now env) [] (header block);
  _ ← lift (if he_height (fst inserted) =? height then Ok tt
            else Err (ChainInvalidHeader "block height does not match header index"));
  _ ← read_store (check_extends_tip (header block) height);
  txids ← lift (block_txids block height (bi_flags input) (bi_prevalidated input) (bi_txids input));
  _ ← reads (check_pon_signature (header block) height);
  coinbase ← lift (first_tx block);
  _ ← lift (check_coinbase_funding params coinbase height);
  paid ← check_payouts_due coinbase height;
  mret (inserted, txids, paid).

(** The transactions, the signatures they need, and the outputs left over. *)
Definition connect_body (store : S) (trees : ShieldedTreesCache) (input : BlockInput) (batch : WriteBatch)
    (txids : list Hash256) (paid : list OutPoint)
    : result ChainStateError (BlockAcc * WriteBatch * list FluxnodeUndo) :=
  let block := bi_block input in
  let height := bi_height input in
  acc ← connect_txs store params options trees (check_script (bi_flags input)) height batch (transactions block) txids;
  let utxo := ba_utxo acc in
  let batch := put_all_created options (ua_batch utxo) (ua_created utxo) in
  _ ← verify_sig_checks (fa_sig_checks (ba_fluxnode acc));
  _ ← (if check_script (bi_flags input)
       then run_script_checks block (ua_spent utxo) (current_epoch_branch_id height (upgrades (consensus params)))
              (ua_script_checks utxo)
       else Ok tt);
  marked ← mark_all_paid store height batch paid;
  batch ← finish_trees trees (ba_shielded acc) (header block) height (fst marked);
  Ok (acc, batch, snd marked).

(** The totals, after the limit on the coinbase. *)
Definition finish_totals (stats : UtxoStats) (pools : ValuePools) (input : BlockInput) (acc : BlockAcc)
    (batch : WriteBatch) : result ChainStateError WriteBatch :=
  coinbase ← first_tx (bi_block input);
  _ ← check_coinbase_value coinbase (bi_height input) (ba_total_fees acc);
  stats ← stats_after stats (ba_utxo acc);
  let batch := batch_put batch Meta UTXO_STATS_KEY (UtxoStats_encode stats) in
  pools ← add_pools pools (sa_sprout_delta (ba_shielded acc)) (sa_sapling_delta (ba_shielded acc));
  Ok (batch_put batch Meta VALUE_POOLS_KEY (ValuePools_encode pools)).

Definition block_undo_of (trees : ShieldedTreesCache) (acc : BlockAcc) (extra : list FluxnodeUndo) : BlockUndo :=
  mkBlockUndo (tc_sprout_bytes trees) (tc_sapling_bytes trees) (ua_spent (ba_utxo acc)) (fa_undo (ba_fluxnode acc)) extra.

(** The undo data, and the entry that finds it and the block. *)
Definition store_undo (fault : option Fault) (undo : BlockUndo) (block : Block) (hash : Hash256)
    (location : FileLocation) (height : Z) (batch : WriteBatch) : node WriteBatch :=
  undo_location ← append_file Undo fault (BlockUndo_encode undo);
  batch ← note_location Undo batch undo_location height (time (header block));
  let batch :=
    batch_put batch BlockIndex hash
      (BlockIndexEntry_encode
         (mkBlockIndexEntry location (Some undo_location) (wrap_u32 (Z.of_nat (length (transactions block))))
            (Z.lor STATUS_HAVE_DATA STATUS_HAVE_UNDO))) in
  mret (batch_put batch BlockUndoCol hash (FileLocation_encode undo_location)).

Definition connect_block (env : BlockEnv) (input : BlockInput) : node WriteBatch :=
  let block := bi_block input in
  let height := bi_height input in
  let hash := header_hash (header block) in
  checked ← connect_header env input;
  let '(entry, batch, txids, paid) := checked in
  stats ← read_store utxo_stats_or_compute;
  pools ← reads value_pools_or_compute;
  trees ← shielded_cache;
  body ← read_store (fun store => connect_body store trees input batch txids paid);
  let '(acc, batch, extra) := body in
  location ← place_block (be_block_fault env) block (bi_bytes input) (bi_location input);
  batch ← note_location Blocks batch location height (time (header block));
  batch ← read_store (fun store =>
            Ok (make_tip entry hash height (index_block store (header block) hash location txids batch)));
  batch ← lift (finish_totals stats pools input acc batch);
  batch ← store_undo (be_undo_fault env) (block_undo_of trees acc extra) block hash location height batch;
  read_store (fun store => prune_block_undo store height batch).

(** ** Disconnecting a block *)
Definition remove_nullifiers (batch : WriteBatch) (tx : Transaction) : WriteBatch :=
  let batch := foldl (fun b j => foldl (nullifier_remove NullifierSprout) b (nullifiers j)) batch (join_splits tx) in
  foldl (fun b s => nullifier_remove NullifierSapling b (sd_nullifier s)) batch (shielded_spends tx).

Definition restore_fluxnode (batch : WriteBatch) (entry : FluxnodeUndo) : WriteBatch :=
  let key := OutPointKey_new (fu_collateral entry) in
  match fu_prev entry with
  | Some record => batch_put batch Fluxnode key (FluxnodeRecord_encode record)
  | None => batch_delete batch Fluxnode key
  end.

(** What the loop over the transactions changes.  The undo entries are popped
    from the end of their lists, which are kept reversed here. *)
Record Unwind := mkUnwind {
  uw_batch : WriteBatch; uw_spent : list SpentOutput; uw_fluxnode : list FluxnodeUndo;
  uw_removed : Z; uw_restored : Z; uw_value_removed : Z; uw_value_restored : Z }.

Definition remove_output (height tx_index : Z) (txid : Hash256) (u : Unwind) (indexed : nat * TxOut)
    : result ChainStateError Unwind :=
  let '(out_index, output) := indexed in
  let index := wrap_u32 (Z.of_nat out_index) in
  let outpoint := mkOutPoint txid index in
  let batch := utxo_delete (uw_batch u) outpoint in
  let batch :=
    if index_address options
    then delta_delete (address_delete batch (script_pubkey output) outpoint) (script_pubkey output) height tx_index
           txid index false
    else batch in
  removed ← or_range (checked_add_u64 (uw_removed u) 1);
  value_removed ← or_range (checked_add_i64 (uw_value_removed u) (value output));
  Ok (mkUnwind batch (uw_spent u) (uw_fluxnode u) removed (uw_restored u) value_removed (uw_value_restored u)).

Definition restore_input (height tx_index : Z) (txid : Hash256) (u : Unwind) (indexed : nat * TxIn)
    : result ChainStateError Unwind :=
  let '(input_index, input) := indexed in
  match uw_spent u with
  | [] => Err (CorruptIndex "block undo input mismatch")
  | spent :: rest =>
      if negb (bool_decide (so_outpoint spent = prevout input)) then Err (CorruptIndex "block undo outpoint mismatch")
      else
        let entry := so_entry spent in
        let batch := if index_spent options then spentindex_delete (uw_batch u) (so_outpoint spent) else uw_batch u in
        let batch :=
          if index_address options
          then delta_delete batch (ue_script_pubkey entry) height tx_index txid (wrap_u32 (Z.of_nat input_index)) true
          else batch in
        let batch := utxo_put batch (so_outpoint spent) entry in
        let batch := if index_address options then address_insert batch (ue_script_pubkey entry) (so_outpoint spent)
                     else batch in
        restored ← or_range (checked_add_u64 (uw_restored u) 1);
        value_restored ← or_range (checked_add_i64 (uw_value_restored u) (ue_value entry));
        Ok (mkUnwind batch rest (uw_fluxnode u) (uw_removed u) restored (uw_value_removed u) value_restored)
  end.

Definition restore_collateral (tx : Transaction) (u : Unwind) : result ChainStateError Unwind :=
  match fluxnode_collateral tx with
  | None => Ok u
  | Some collateral =>
      match uw_fluxnode u with
      | [] => Err (CorruptIndex "block undo fluxnode mismatch")
      | entry :: rest =>
          if negb (bool_decide (fu_collateral entry = collateral))
          then Err (CorruptIndex "block undo fluxnode collateral mismatch")
          else Ok (mkUnwind (restore_fluxnode (uw_batch u) entry) (uw_spent u) rest (uw_removed u) (uw_restored u)
                     (uw_value_removed u) (uw_value_restored u))
      end
  end.

Definition set_uw_batch (batch : WriteBatch) (u : Unwind) : Unwind :=
  mkUnwind batch (uw_spent u) (uw_fluxnode u) (uw_removed u) (uw_restored u) (uw_value_removed u)
    (uw_value_restored u).

Definition unwind_tx (height : Z) (u : Unwind) (item : nat * Transaction) : result ChainStateError Unwind :=
  let '(index, tx) := item in
  let tx_index := wrap_u32 (Z.of_nat index) in
  txid ← map_err (fun e => ChainValidation (EncodingFailure e)) (txid tx);
  u ← try_fold (remove_output height tx_index txid) u (enumerate (vout tx));
  let u := if index_tx options then set_uw_batch (txindex_delete (uw_batch u) txid) u else u in
  u ← (if (index =? 0)%nat then Ok u else try_fold (restore_input height tx_index txid) u (rev (enumerate (vin tx))));
  restore_collateral tx u.

Definition unwind_start (block : Block) (undo : BlockUndo) : Unwind :=
  let batch := foldl remove_nullifiers [] (transactions block) in
  let batch := foldl restore_fluxnode batch (rev (undo_fluxnode_extra undo)) in
  mkUnwind batch (rev (undo_spent undo)) (rev (undo_fluxnode undo)) 0 0 0 0.
(** The transactions of the block, undone from the last to the first. *)
Definition unwind_txs (height : Z) (block : Block) (undo : BlockUndo) : result ChainStateError Unwind :=
  u ← try_fold (unwind_tx height) (unwind_start block undo) (rev (enumerate (transactions block)));
  if negb (is_nil (uw_spent u)) then Err (CorruptIndex "block undo has extra spent entries")
  else if negb (is_nil (uw_fluxnode u)) then Err (CorruptIndex "block undo has extra fluxnode entries")
  else Ok u.

Definition remove_timestamp (store : S) (hash : Hash256) (batch : WriteBatch) : result ChainStateError WriteBatch :=
  ts ← block_logical_time store hash;
  Ok (match ts with
      | Some ts => batch_delete (batch_delete batch TimestampIndex (timestamp_key ts hash)) BlockTimestamp hash
      | None => batch
      end).

Definition undo_root {Tree} (from_bytes : bytes -> option Tree) (root_hash : Tree -> Hash256)
    (prev current : bytes) (current_root : Hash256) (message : string) : result ChainStateError Hash256 :=
  if bool_decide (prev = current) then Ok current_root
  else tree ← ok_or (from_bytes prev) (CorruptIndex message); Ok (root_hash tree).
Definition restore_trees (trees : ShieldedTreesCache) (undo : BlockUndo) (batch : WriteBatch)
    : result ChainStateError WriteBatch :=
  sprout ← undo_root sprout_tree_from_bytes sprout_root_hash (prev_sprout_tree undo) (tc_sprout_bytes trees)
             (tc_sprout_root trees) "invalid sprout undo tree";
  sapling ← undo_root sapling_tree_from_bytes sapling_root_hash (prev_sapling_tree undo) (tc_sapling_bytes trees)
              (tc_sapling_root trees) "invalid sapling undo tree";
  let batch := anchor_remove AnchorSprout batch (tc_sprout_root trees) in
  let batch := anchor_remove AnchorSapling batch (tc_sapling_root trees) in
  let batch := anchor_insert AnchorSprout batch sprout (prev_sprout_tree undo) in
  let batch := anchor_insert AnchorSapling batch sapling [] in
  Ok (batch_put (batch_put batch Meta SPROUT_TREE_KEY (prev_sprout_tree undo)) Meta SAPLING_TREE_KEY
        (prev_sapling_tree undo)).

Definition stats_before (stats : UtxoStats) (u : Unwind) : result ChainStateError UtxoStats :=
  txouts ← ok_or (n ← checked_add_u64 (txouts stats) (uw_restored u); checked_sub_u64 n (uw_removed u))
             (CorruptIndex "utxo stats mismatch");
  total ← or_range (v ← checked_sub_i64 (total_amount stats) (uw_value_removed u);
                    checked_add_i64 v (uw_value_restored u));
  Ok (mkUtxoStats txouts total).
Definition sub_pools (pools : ValuePools) (sprout sapling : Z) : result ChainStateError ValuePools :=
  sprout ← or_range (checked_sub_i64 (sprout_pool pools) sprout);
  sapling ← or_range (checked_sub_i64 (sapling_pool pools) sapling);
  _ ← check_pools (mkValuePools sprout sapling);
  Ok (mkValuePools sprout sapling).

(** The tip, its block and its undo data. *)
Definition disconnect_reads (hash : Hash256) (s : ChainState S)
    : result ChainStateError (HeaderEntry * Z * Block * BlockUndo) :=
  best ← map_err ChainStore (best_block (cs_store s));
  best ← ok_or best (ChainInvalidHeader "missing best block for disconnect");
  if negb (bool_decide (tip_hash best = hash)) then Err (ChainInvalidHeader "block does not match best block tip")
  else
    entry ← map_err ChainStore (get_header (cs_store s) hash);
    entry ← ok_or entry MissingHeader;
    height ← or_range (if 0 <=? he_height entry then Some (he_height entry) else None);
    location ← block_location (cs_store s) hash;
    location ← ok_or location (CorruptIndex "missing block index entry");
    bs ← read_block s location;
    block ← decode_block bs;
    undo ← block_undo s hash;
    undo ← ok_or undo (CorruptIndex "missing block undo entry; resync required");
    Ok (entry, height, block, undo).

Definition disconnect_block (hash : Hash256) : node WriteBatch :=
  found ← reads (disconnect_reads hash);
  let '(entry, height, block, undo) := found in
  stats ← read_store utxo_stats_or_compute;
  pools ← reads value_pools_or_compute;
  deltas ← lift (value_pool_deltas block);
  u ← lift (unwind_txs height block undo);
  batch ← read_store (fun store => remove_timestamp store hash (uw_batch u));
  trees ← shielded_cache;
  batch ← lift (restore_trees trees undo batch);
  let batch := set_best_block (clear_height_hash batch (he_height entry)) (he_prev_hash entry) in
  let batch := batch_delete batch BlockUndoCol hash in
  batch ← read_store (fun store => clear_block_index_undo store hash batch);
  stats ← lift (stats_before stats u);
  let batch := batch_put batch Meta UTXO_STATS_KEY (UtxoStats_encode stats) in
  pools ← lift (sub_pools pools (fst deltas) (snd deltas));
  let batch := batch_put batch Meta VALUE_POOLS_KEY (ValuePools_encode pools) in
  _ ← changes (fun s => set_header_cache (cache_insert (cs_header_cache s) hash entry) s);
  mret batch.

(** ** Committing a batch *)

(** What a batch means to the in-memory state: the last tree of each kind and
    the headers of blocks. *)
Definition last_meta (key : bytes) (batch : WriteBatch) : option bytes :=
  foldl (fun found op =>
           match op with
           | Put Meta op_key value => if bool_decide (op_key = key) then Some value else found
           | _ => found
           end) None batch.

Definition STATUS_OFFSET : nat := 32 + 4 + 4 + 4 + 32.
Definition header_update (key value : bytes) : result ChainStateError (option (Hash256 * HeaderEntry)) :=
  match value !! STATUS_OFFSET with
  | Some status =>
      if (length key =? 32)%nat && has_block status then
        entry ← map_err (fun _ => CorruptIndex "invalid header index entry in batch") (decode_header_entry value);
        Ok (Some (key, entry))
      else Ok None
  | None => Ok None
  end.
Fixpoint header_updates (batch : WriteBatch) : result ChainStateError (list (Hash256 * HeaderEntry)) :=
  match batch with
  | [] => Ok []
  | Put HeaderIndex key value :: batch =>
      update ← header_update key value;
      updates ← header_updates batch;
      Ok (match update with Some update => update :: updates | None => updates end)
  | _ :: batch => header_updates batch
  end.

(** The file metadata in memory follows the batch. *)
Definition kind_of_key (key : bytes) : option (FlatFileKind * Z) :=
  match parse_block_file_info_key key with
  | Some id => Some (Blocks, id)
  | None => match parse_undo_file_info_key key with Some id => Some (Undo, id) | None => None end
  end.
Definition commit_file_meta_op (c : FlatFileMetaCache) (op : WriteOp) : FlatFileMetaCache :=
  match op with
  | Put Meta key value =>
      match kind_of_key key, FlatFileInfo_decode value with
      | Some (kind, id), Some info => track kind (Some (mkTracked id info)) c
      | _, _ => c
      end
  | Storage.Delete Meta key =>
      match kind_of_key key with
      | Some (kind, id) =>
          match tracked kind c with
          | Some t => if tracked_file_id t =? id then track kind None c else c
          | None => c
          end
      | None => c
      end
  | _ => c
  end.
Definition commit_file_meta (batch : WriteBatch) (c : FlatFileMetaCache) : FlatFileMetaCache :=
  foldl commit_file_meta_op c batch.

Definition write_batch (batch : WriteBatch) : node unit := fun s =>
  match kv_write_batch (cs_store s) batch with
  | Ok store => (Ok tt, set_store store s)
  | Err e => (Err (ChainStore e), s)
  | Panic => (Panic, s)
  end.

(** Old files are removed: [remove_fails] says which removals the operating
    system refuses; a missing file is no error. *)
Definition pruned_key (kind : FlatFileKind) : bytes :=
  match kind with Blocks => META_BLOCK_FILES_PRUNED_FILE_KEY | Undo => META_UNDO_FILES_PRUNED_FILE_KEY end.
Definition file_info_prefix (kind : FlatFileKind) : bytes :=
  match kind with Blocks => META_BLOCK_FILE_INFO_PREFIX | Undo => META_UNDO_FILE_INFO_PREFIX end.
Definition meta_u32_le (store : S) (key : bytes) : result ChainStateError (option Z) :=
  bs ← map_err ChainStore (kv_get store Meta key);
  Ok (bs ← bs; if (length bs =? 4)%nat then Some (from_le bs) else None).

Definition drop_file (kind : FlatFileKind) (id : Z) : node unit :=
  changes (fun s =>
    let f := files_of kind s in
    set_files kind (mkFlatFileStore (ffs_state f) (fst (remove_file (ffs_files f) id)) (ffs_max f)) s).
Definition mark_pruned (kind : FlatFileKind) (id : Z) (info : FlatFileInfo) (batch : WriteBatch) : WriteBatch :=
  if Z.land (ffi_flags info) FLATFILE_INFO_FLAG_PRUNED =? 0 then
    batch_put batch Meta (file_info_key kind id)
      (FlatFileInfo_encode
         (mkFlatFileInfo (ffi_blocks info) (ffi_size info) (height_first info) (height_last info) (time_first info)
            (time_last info) (Z.lor (ffi_flags info) FLATFILE_INFO_FLAG_PRUNED)))
  else batch.
(** The file with number [id], when all of its blocks are deep enough. *)
Definition prunable (kind : FlatFileKind) (prune_height id : Z) (store : S)
    : result ChainStateError (option FlatFileInfo) :=
  bs ← map_err ChainStore (kv_get store Meta (file_info_key kind id));
  match bs with
  | None => Ok None
  | Some bs =>
      info ← ok_or (FlatFileInfo_decode bs) (CorruptIndex "invalid flatfile info entry");
      Ok (if (ffi_blocks info =? 0) || (height_last info >? prune_height) then None else Some info)
  end.
(** [fuel] bounds the files that can be dropped. *)
Fixpoint prune_loop (fuel : nat) (remove_fails : Z -> bool) (kind : FlatFileKind) (prune_height id : Z)
    (batch : WriteBatch) : node (Z * WriteBatch) :=
  match fuel with
  | O => lift Panic
  | Datatypes.S fuel =>
      info ← read_store (prunable kind prune_height id);
      match info with
      | None => mret (id, batch)
      | Some info =>
          _ ← (if remove_fails id then lift (Err (ChainFlatFile Io)) else drop_file kind id);
          prune_loop fuel remove_fails kind prune_height (saturating_add_u32 id 1) (mark_pruned kind id info batch)
      end
  end.
Definition prune_fuel (kind : FlatFileKind) (store : S) : result ChainStateError nat :=
  entries ← map_err ChainStore (kv_scan_prefix store Meta (file_info_prefix kind));
  Ok (Datatypes.S (length entries)).
Definition prune_flatfiles_kind (remove_fails : Z -> bool) (kind : FlatFileKind) (prune_height : Z) : node unit :=
  first ← read_store (fun store => meta_u32_le store (pruned_key kind));
  let first := default 0 first in
  fuel ← read_store (prune_fuel kind);
  last ← prune_loop fuel remove_fails kind prune_height first [];
  if fst last =? first then mret tt
  else
    _ ← write_batch (batch_put (snd last) Meta (pruned_key kind) (le_bytes 4 (fst last)));
    changes (fun s => set_file_meta (track kind None (cs_file_meta s)) s).
Definition prune_flatfiles (remove_fails : FlatFileKind -> Z -> bool) : node unit :=
  best ← read_store (fun store => map_err ChainStore (best_block store));
  match best with
  | None => mret tt
  | Some tip =>
      let prune_height := tip_height tip - (max_reorg_depth (tip_height tip) + 1) in
      if (tip_height tip <? 0) || (prune_height <? 0) then mret tt
      else
        _ ← (if prune_blocks options then prune_flatfiles_kind (remove_fails Blocks) Blocks prune_height else mret tt);
        if prune_undo options then prune_flatfiles_kind (remove_fails Undo) Undo prune_height else mret tt
  end.
(** Its errors are only logged. *)
Definition ignore_errors (m : node unit) : node unit := fun s =>
  match m s with (Panic, s) => (Panic, s) | (_, s) => (Ok tt, s) end.

Definition commit_batch (remove_fails : FlatFileKind -> Z -> bool) (batch : WriteBatch) : node unit :=
  updates ← lift (header_updates batch);
  _ ← write_batch batch;
  let sprout_bytes := last_meta SPROUT_TREE_KEY batch in
  let sapling_bytes := last_meta SAPLING_TREE_KEY batch in
  _ ← (if is_some sprout_bytes || is_some sapling_bytes then update_shielded_cache sprout_bytes sapling_bytes
       else mret tt);
  _ ← changes (fun s => set_header_cache (foldl (fun c u => cache_insert c (fst u) (snd u)) (cs_header_cache s) updates) s);
  _ ← changes (fun s => set_file_meta (commit_file_meta batch (cs_file_meta s)) s);
  _ ← (fun s => let '(r, payments) := commit_payments batch (cs_payments s) in (r, set_payments payments s)) : node unit;
  if prune_blocks options || prune_undo options then ignore_errors (prune_flatfiles remove_fails) else mret tt.
End node.
