(* ===== verification/Frames.v ===== *)
(** * What the operations of a block leave alone

    [extends P b b'] says that [b'] is [b] with operations added that all
    satisfy [P].  Every operation of a block but the spending and creating of
    outputs adds operations on other columns than the outputs', so that the
    part of a batch that concerns the outputs can be followed on its own.
    Here are the frame lemmas that say so, for whole computations too, and
    what a successful step of the node says about its parts. *)

From S2P Require Import Prelude Consensus Rewards Encoding Hashing Address Transaction Block Difficulty Sighash.
From S2P Require Import Script Equihash Pow Pon Storage Fluxnode Utxo FlatFiles Indexes ChainIndex Shielded.
From S2P Require Import Validation HeaderChain Caches Payees FluxnodeChecks Ledger BlockConnect.
From Stdlib Require Import ZArith Lia.
From stdpp Require Import base list option numbers strings gmap.
#[local] Open Scope Z_scope.

(** ** Loops that can fail *)
Lemma try_fold_app {E A B} (f : A -> B -> result E A) a l1 l2 :
  try_fold f a (l1 ++ l2) = (a ← try_fold f a l1; try_fold f a l2).
Proof. revert a; induction l1 as [|b l1 IH]; intros a; [done|]. simpl. destruct (f a b); simpl; [apply IH|done..]. Qed.

(** A property of the list done so far and the state reached. *)
Lemma try_fold_ind {E A B} (f : A -> B -> result E A) (I : list B -> A -> Prop) a l a' :
  I [] a ->
  (forall seen b a1 a2, b ∈ l -> I seen a1 -> f a1 b = Ok a2 -> I (seen ++ [b]) a2) ->
  try_fold f a l = Ok a' -> I l a'.
Proof.
  intros H0 Hs. revert a'. induction l as [|b l IH] using rev_ind; intros a' Hf; [by injection Hf as <-|].
  rewrite try_fold_app in Hf. inv_result. cbn [try_fold] in Hf. inv_result.
  eapply Hs; [|apply IH; [|exact Hm]|exact Hm0]; [set_solver|].
  intros seen b' a1 a2 Hb. apply Hs. set_solver.
Qed.

Lemma try_fold_inv {E A B} (f : A -> B -> result E A) (I : A -> Prop) a l a' :
  I a -> (forall b a1 a2, b ∈ l -> I a1 -> f a1 b = Ok a2 -> I a2) -> try_fold f a l = Ok a' -> I a'.
Proof. intros H0 Hs. apply (try_fold_ind f (fun _ => I)); eauto. Qed.

Lemma elem_of_enumerate_from {A} n (l : list A) i a :
  (i, a) ∈ enumerate_from n l -> (n <= i)%nat /\ l !! (i - n)%nat = Some a.
Proof.
  revert n. induction l as [|b l IH]; intros n; cbn [enumerate_from]; [by intros ?%elem_of_nil|].
  intros [[= -> ->]|Hin]%elem_of_cons; [by rewrite Nat.sub_diag|].
  apply IH in Hin as [Hn Hl]. split; [lia|]. by replace (i - n)%nat with (Datatypes.S (i - Datatypes.S n)) by lia.
Qed.

(** ** Batches that grow *)
Definition op_column (op : WriteOp) : Column :=
  match op with Put c _ _ | Storage.Delete c _ => c end.
Definition op_key (op : WriteOp) : bytes :=
  match op with Put _ k _ | Storage.Delete _ k => k end.

Definition extends (P : WriteOp -> Prop) (b b' : WriteBatch) : Prop := exists ops, b' = b ++ ops /\ Forall P ops.

Section extends.
  Context (P : WriteOp -> Prop).

Lemma extends_refl b : extends P b b.
Proof. exists []. by rewrite app_nil_r. Qed.
Lemma extends_trans b1 b2 b3 : extends P b1 b2 -> extends P b2 b3 -> extends P b1 b3.
Proof.
  intros (o1&->&H1) (o2&->&H2). exists (o1 ++ o2). by rewrite app_assoc, Forall_app.
Qed.
Lemma extends_put b b' c k v : P (Put c k v) -> extends P b b' -> extends P b (batch_put b' c k v).
Proof. intros HP Hb. eapply extends_trans; [exact Hb|]. exists [Put c k v]. split; [done|by constructor]. Qed.
Lemma extends_delete b b' c k : P (Storage.Delete c k) -> extends P b b' -> extends P b (batch_delete b' c k).
Proof. intros HP Hb. eapply extends_trans; [exact Hb|]. exists [Storage.Delete c k]. split; [done|by constructor]. Qed.
Lemma extends_foldl {A} (f : WriteBatch -> A -> WriteBatch) b b' l :
  (forall b1 a, extends P b1 (f b1 a)) -> extends P b b' -> extends P b (foldl f b' l).
Proof.
  intros Hf. revert b'. induction l as [|a l IH]; intros b' Hb; [done|]. apply IH.
  eapply extends_trans; [exact Hb|apply Hf].
Qed.
Lemma extends_last_write b b' c k :
  extends P b b' -> (forall op, P op -> op_column op = c -> op_key op <> k) -> last_write b' c k = last_write b c k.
Proof.
  intros (ops&->&Hops) HP. rewrite last_write_app.
  destruct (last_write ops c k) as [r|] eqn:E; [|done]. apply last_write_elem in E. rewrite Forall_forall in Hops.
  destruct r; by destruct (HP _ (Hops _ E)).
Qed.
End extends.

(** Operations on other columns than the outputs'. *)
Definition off_utxo (op : WriteOp) : Prop := op_column op <> Utxo.
Abbreviation quiet := (extends off_utxo).
Lemma quiet_last_write b b' k : quiet b b' -> last_write b' Utxo k = last_write b Utxo k.
Proof. intros Hb. eapply extends_last_write; [exact Hb|]. by intros op Hop E. Qed.

Create HintDb quiet discriminated.
#[export] Hint Resolve extends_refl : quiet.
#[export] Hint Extern 1 (extends _ _ (batch_put _ _ _ _)) => apply extends_put; [done|] : quiet.
#[export] Hint Extern 1 (extends _ _ (batch_delete _ _ _)) => apply extends_delete; [done|] : quiet.
#[export] Hint Extern 2 (extends _ _ (match ?x with _ => _ end)) => destruct x : quiet.

(** *** The helpers *)
Section helpers.
  Context {H : Hashes} {S : Type} {KV : KeyValueStore S}.

Lemma quiet_spentindex_insert b o v : quiet b (spentindex_insert b o v).
Proof. unfold spentindex_insert. auto with quiet. Qed.
Lemma quiet_address_insert b h o : quiet b (address_insert_with_script_hash b h o).
Proof. unfold address_insert_with_script_hash. auto with quiet. Qed.
Lemma quiet_address_delete b h o : quiet b (address_delete_with_script_hash b h o).
Proof. unfold address_delete_with_script_hash. auto with quiet. Qed.
Lemma quiet_delta_insert b k h i t n sp v : quiet b (delta_insert_with_prefix b k h i t n sp v).
Proof. unfold delta_insert_with_prefix. auto with quiet. Qed.

Lemma quiet_insert_nullifiers b tx : quiet b (insert_nullifiers b tx).
Proof.
  unfold insert_nullifiers, nullifier_insert.
  repeat (apply extends_foldl; intros; auto with quiet).
Qed.

Lemma quiet_store_key b k : quiet b (snd (store_key b k)).
Proof. unfold store_key. simpl. auto with quiet. Qed.
Lemma quiet_store_optional_key b k : quiet b (snd (store_optional_key b k)).
Proof. unfold store_optional_key, store_key. destruct k; simpl; auto with quiet. Qed.

Lemma quiet_store_fluxnode_start b c pk cpk redeem d h meta :
  quiet b (store_fluxnode_start b c pk cpk redeem d h meta).
Proof.
  unfold store_fluxnode_start.
  destruct (store_key b pk) as [k1 b1] eqn:E1, (store_optional_key b1 cpk) as [k2 b2] eqn:E2,
    (store_optional_key b2 redeem) as [k3 b3] eqn:E3. apply extends_put; [done|].
  pose proof (quiet_store_key b pk) as Hq1. rewrite E1 in Hq1.
  pose proof (quiet_store_optional_key b1 cpk) as Hq2. rewrite E2 in Hq2.
  pose proof (quiet_store_optional_key b2 redeem) as Hq3. rewrite E3 in Hq3.
  by eapply extends_trans, extends_trans; [exact Hq1|exact Hq2|].
Qed.

Lemma quiet_delegates_key store b c start k b' :
  delegates_key_for_start store b c start = Ok (k, b') -> quiet b b'.
Proof.
  unfold delegates_key_for_start, store_key. intros Hd. apply bind_Ok in Hd as (current&_&Hd).
  destruct (delegates start) as [d|]; inv_result; subst; auto with quiet.
Qed.

Lemma quiet_confirm store b c h u confirm b' :
  update_fluxnode_confirm store b c h u confirm = Ok b' -> quiet b b'.
Proof.
  unfold update_fluxnode_confirm. intros Hc. apply bind_Ok in Hc as (r&_&Hc).
  destruct r as [r|]; inv_result; auto with quiet.
Qed.

Lemma quiet_apply_fluxnode store b tx h meta b' :
  apply_fluxnode_tx store b tx h meta = Ok b' -> quiet b b'.
Proof.
  unfold apply_fluxnode_tx. intros Ha.
  destruct (fluxnode tx) as [[[start|confirm]|[start|confirm]]|]; [| |destruct (variant start)| |];
    try (by apply quiet_confirm in Ha); inv_result; auto using quiet_store_fluxnode_start with quiet.
  all: match goal with a : option KeyId * WriteBatch |- _ => destruct a as [k b1] end; apply quiet_delegates_key in Hm0;
       (eapply extends_trans; [exact Hm0|apply quiet_store_fluxnode_start]).
Qed.
End helpers.

(** ** Entering a header *)
Section headers.
  Context {H : Hashes} {B : Blake2b} {U : U256Ops} {S256 : Secp} {S : Type} {KV : KeyValueStore S}.
  Context (store : S) (params : ConsensusParams) (options : ChainStateOptions).

(** A computation on header state that adds no operation on outputs. *)
Definition grows {A} (p : chain A) : Prop := forall s, quiet (hs_batch s) (hs_batch (snd (p s))).

Lemma grows_bind {A C} (p : chain A) (f : A -> chain C) : grows p -> (forall a, grows (f a)) -> grows (p ≫= f).
Proof.
  intros Hp Hf s. specialize (Hp s). unfold mbind, chain_bind. destruct (p s) as [[a|e|] s1]; [|done..].
  eapply extends_trans; [exact Hp|apply Hf].
Qed.
Lemma grows_same {A} (p : chain A) : (forall s, hs_batch (snd (p s)) = hs_batch s) -> grows p.
Proof. intros Hp s. rewrite Hp. apply extends_refl. Qed.
Lemma grows_modify (f : HeaderState -> HeaderState) :
  (forall s, quiet (hs_batch s) (hs_batch (f s))) -> grows (modify f).
Proof. done. Qed.
Lemma grows_try {A} (p : chain A) : grows p -> grows (try_ok p).
Proof. intros Hp s. specialize (Hp s). unfold try_ok. by destruct (p s) as [[a|e|] s1]. Qed.

Ltac grows_tac :=
  repeat first
  [ progress intros
  | match goal with |- grows (_ ≫= _) => apply grows_bind end
  | match goal with |- grows (try_ok _) => apply grows_try end
  | match goal with |- grows (match ?x with _ => _ end) => destruct x end
  | match goal with |- grows (if ?x then _ else _) => destruct x end
  | apply grows_modify; intros; simpl; auto with quiet; fail
  | apply grows_same; intros; reflexivity ].

Lemma grows_header_entry h : grows (header_entry store h).
Proof. unfold header_entry, from_store. grows_tac. Qed.
Lemma grows_with_pending up h : grows (header_entry_with_pending store up h).
Proof. unfold header_entry_with_pending. grows_tac; auto using grows_header_entry. Qed.
Lemma grows_ancestor fuel target h e : grows (ancestor_loop store fuel target h e).
Proof.
  revert h e. induction fuel as [|fuel IH]; intros h e; simpl; grows_tac; auto using grows_header_entry.
Qed.
Lemma grows_header_ancestor h target : grows (header_ancestor_hash store h target).
Proof. unfold header_ancestor_hash. grows_tac; auto using grows_header_entry, grows_ancestor. Qed.
Lemma grows_collect up h k : grows (collect_headers store up h k).
Proof.
  unfold collect_headers. apply grows_bind; [|intros; grows_tac].
  revert h. induction k as [|k IH]; intros h; simpl; grows_tac; auto using grows_with_pending.
Qed.
Lemma grows_expected_bits up h height t : grows (expected_bits store params up h height t).
Proof.
  unfold expected_bits, expected_pon_bits, next_work.
  grows_tac; auto using grows_collect, grows_with_pending.
Qed.
Lemma grows_check_bits header hash height : grows (check_bits store params header hash height).
Proof. unfold check_bits, bits_after, next_work, ensure. grows_tac; apply grows_expected_bits. Qed.
Lemma grows_check_fork height : grows (check_fork store params height).
Proof.
  unfold check_fork, from_store, ensure, last_checkpoint_on_chain. grows_tac.
  induction (rev (checkpoints params)) as [|cp l IH]; simpl; grows_tac; auto using grows_header_entry.
Qed.
Lemma grows_check_activations hash height schedule : grows (check_activations hash height schedule).
Proof. induction schedule as [|u l IH]; simpl; unfold ensure; grows_tac; apply IH. Qed.
Lemma grows_update_best hash work : grows (update_best hash work).
Proof. unfold update_best, set_best_header. grows_tac. Qed.
Lemma grows_write_header header hash : grows (write_header_bytes options header hash).
Proof. unfold write_header_bytes. grows_tac. Qed.

Lemma grows_check_new now header hash pow : grows (check_new_header store params now header hash pow).
Proof.
  unfold check_new_header, previous_entry, check_checkpoint, check_version, check_time, chain_mtp, check_proof,
    from_store, ensure. cbv zeta.
  grows_tac; auto using grows_check_fork, grows_check_activations, grows_check_bits, grows_header_ancestor, grows_collect.
Qed.
Lemma grows_record header hash e : grows (record_header params options header hash e).
Proof.
  unfold record_header, write_entry, put_header, remember, cache_entry.
  grows_tac; auto using grows_write_header, grows_update_best.
Qed.
Lemma grows_reinsert header hash e : grows (reinsert_header store params options header hash e).
Proof.
  unfold reinsert_header, corrected_work, write_entry, put_header, remember, cache_entry, from_store.
  grows_tac; auto using grows_write_header, grows_update_best.
Qed.
Lemma grows_insert now header : grows (insert_header store params options now header).
Proof.
  unfold insert_header, insert_header_with_pending, insert_new_header, begin_batch, from_store.
  grows_tac; auto using grows_check_new, grows_record, grows_reinsert.
Qed.
End headers.

(** ** What a successful step of the node says *)
Section nodes.
  Context {H : Hashes} {B : Blake2b} {U : U256Ops} {S256 : Secp} {R : Recovery} {SC : ShieldedCrypto}.
  Context {T : ShieldedTrees} {S : Type} {KV : KeyValueStore S}.

Lemma node_bind_Ok {A C} (m : node (S:=S) A) (f : A -> node (S:=S) C) s b s' :
  (m ≫= f) s = (Ok b, s') -> exists a s1, m s = (Ok a, s1) /\ f a s1 = (Ok b, s').
Proof. unfold mbind, node_bind. destruct (m s) as [[a|e|] s1]; intros Hf; try discriminate. eauto. Qed.
Lemma lift_Ok {A} (r : result ChainStateError A) (s s' : ChainState S) a :
  BlockConnect.lift r s = (Ok a, s') -> r = Ok a /\ s' = s.
Proof. by intros [= -> ->]. Qed.
Lemma reads_Ok {A} (f : ChainState S -> result ChainStateError A) s s' a :
  reads f s = (Ok a, s') -> f s = Ok a /\ s' = s.
Proof. by intros [= ? ->]. Qed.
Lemma changes_Ok (f : ChainState S -> ChainState S) s s' u : changes f s = (Ok u, s') -> s' = f s.
Proof. by intros [= _ ->]. Qed.
Lemma node_ret_Ok {A} (a b : A) (s s' : ChainState S) : mret (M:=node) a s = (Ok b, s') -> b = a /\ s' = s.
Proof. by intros [= -> ->]. Qed.
End nodes.

(** [inv_node] follows a step that succeeded through its parts. *)
Ltac inv_node :=
  repeat match goal with
  | H : (_ ≫= _) _ = (Ok _, _) |- _ =>
      let a := fresh "a" in let s := fresh "s" in let H1 := fresh "Hn" in
      apply node_bind_Ok in H as (a & s & H1 & H)
  | H : BlockConnect.lift _ _ = (Ok _, _) |- _ => apply lift_Ok in H as [H ?]
  | H : read_store _ _ = (Ok _, _) |- _ => apply reads_Ok in H as [H ?]
  | H : reads _ _ = (Ok _, _) |- _ => apply reads_Ok in H as [H ?]
  | H : changes _ _ = (Ok _, _) |- _ => apply changes_Ok in H
  | H : mret _ _ = (Ok _, _) |- _ => apply node_ret_Ok in H as [? ?]
  end; subst.

(** ** Connecting a block *)

(** Operations on the files' metadata and the entries that point into them. *)
Definition file_op (op : WriteOp) : Prop :=
  op_column op = BlockIndex \/ op_column op = BlockUndoCol
  \/ (op_column op = Meta /\ head (op_key op) = Some 102).
Lemma file_op_off_utxo op : file_op op -> off_utxo op.
Proof. unfold file_op, off_utxo. intros [->|[->|[-> _]]]; done. Qed.
Lemma extends_mono (P Q : WriteOp -> Prop) b b' : (forall op, P op -> Q op) -> extends P b b' -> extends Q b b'.
Proof. intros HPQ (ops&->&Hops). exists ops. split; [done|]. eapply Forall_impl; eauto. Qed.
Lemma file_op_info kind id v : file_op (Put Meta (file_info_key kind id) v).
Proof. right; right. by destruct kind. Qed.
Lemma file_op_last_file kind v : file_op (Put Meta (last_file_key kind) v).
Proof. right; right. by destruct kind. Qed.
Lemma file_op_last_len kind v : file_op (Put Meta (last_len_key kind) v).
Proof. right; right. by destruct kind. Qed.
#[export] Hint Resolve file_op_info file_op_last_file file_op_last_len : quiet.
#[export] Hint Extern 1 (file_op (_ BlockIndex _)) => by left : quiet.
#[export] Hint Extern 1 (file_op (_ BlockIndex _ _)) => by left : quiet.
#[export] Hint Extern 1 (file_op (_ BlockUndoCol _)) => by right; left : quiet.
#[export] Hint Extern 1 (file_op (_ BlockUndoCol _ _)) => by right; left : quiet.

Section blocks.
  Context {H : Hashes} {B : Blake2b} {U : U256Ops} {S256 : Secp} {R : Recovery} {SC : ShieldedCrypto}.
  Context {T : ShieldedTrees} {S : Type} {KV : KeyValueStore S}.
  Context (params : ChainParams) (options : ChainStateOptions).

(** Everything but the caches: what reads depend on. *)
Definition same_disk (s s' : ChainState S) : Prop :=
  cs_store s' = cs_store s /\ cs_blocks s' = cs_blocks s /\ cs_undo s' = cs_undo s.
(** The same, but for the block files. *)
Definition same_store (s s' : ChainState S) : Prop := cs_store s' = cs_store s /\ cs_undo s' = cs_undo s.
Lemma same_disk_refl s : same_disk s s.
Proof. done. Qed.
Lemma same_disk_trans s1 s2 s3 : same_disk s1 s2 -> same_disk s2 s3 -> same_disk s1 s3.
Proof. intros (?&?&?) (?&?&?). split_and!; congruence. Qed.

Lemma insert_block_header_frame now b hd (s s' : ChainState S) e b' :
  insert_block_header params options now b hd s = (Ok (e, b'), s') -> quiet b b' /\ same_disk s s'.
Proof.
  unfold insert_block_header. intros Hi.
  pose proof (grows_insert (cs_store s) (consensus params) options now hd
                (mkHeaderState (cs_header_cache s) b ∅ None None None)) as Hg.
  destruct (insert_header _ _ _ _ _ _) as [r hs]. destruct r; simplify_eq/=. done.
Qed.

Lemma check_payouts_frame coinbase h (s s' : ChainState S) paid :
  check_payouts_due params coinbase h s = (Ok paid, s') -> same_disk s s'.
Proof. unfold check_payouts_due. destruct (check_deterministic_fluxnode_payouts _ _ _ _ _). by intros [= _ <-]. Qed.

Lemma connect_header_frame env input (s s' : ChainState S) e b txids paid :
  connect_header params options env input s = (Ok (e, b, txids, paid), s') ->
  quiet [] b /\ same_disk s s'
  /\ block_txids params (bi_block input) (bi_height input) (bi_flags input) (bi_prevalidated input) (bi_txids input)
     = Ok txids.
Proof.
  unfold connect_header. intros Hc. inv_node. simplify_eq/=.
  match goal with Hi : insert_block_header _ _ _ _ _ _ = _ |- _ => apply insert_block_header_frame in Hi as [Hb Hs] end.
  match goal with Hi : check_payouts_due _ _ _ _ = _ |- _ => apply check_payouts_frame in Hi end.
  split_and!; [done| |done]. by eapply same_disk_trans.
Qed.

Lemma shielded_cache_frame (s s' : ChainState S) trees : shielded_cache s = (Ok trees, s') -> same_disk s s'.
Proof. unfold shielded_cache. destruct (cs_trees s); [by intros [= _ <-]|]. destruct (trees_load _); by intros [= _ <-]. Qed.

Lemma place_block_frame fault block bs given (s s' : ChainState S) location :
  place_block fault block bs given s = (Ok location, s') -> same_store s s'.
Proof.
  unfold place_block, append_file. intros Hp. destruct given; inv_node; [done|].
  destruct (append _ _ _ _ _) as [[st files] r]. injection Hp as _ <-. done.
Qed.

Lemma flatfile_info_frame kind id (s s' : ChainState S) info :
  flatfile_info_cached kind id s = (Ok info, s') -> same_store s s'.
Proof.
  unfold flatfile_info_cached. intros Hf. repeat (case_match; simplify_eq/=; try done).
Qed.
Lemma note_location_frame kind b location h time (s s' : ChainState S) b' :
  note_location kind b location h time s = (Ok b', s') -> extends file_op b b' /\ same_store s s'.
Proof.
  unfold note_location, update_flatfile_meta. intros Hn. inv_node.
  match goal with Hi : flatfile_info_cached _ _ _ = _ |- _ => apply flatfile_info_frame in Hi end.
  split; [|done]. repeat apply extends_put; auto with quiet.
Qed.

(** [undo] is appended to the undo files, and the batch says where. *)
Definition undo_saved (fault : option Fault) (undo : BlockUndo) (hash : Hash256) (s s' : ChainState S)
    (batch : WriteBatch) : Prop :=
  exists st files location,
    append (ffs_max (cs_undo s)) fault (ffs_state (cs_undo s)) (ffs_files (cs_undo s)) (BlockUndo_encode undo)
    = (st, files, Ok location)
    /\ cs_undo s' = mkFlatFileStore st files (ffs_max (cs_undo s))
    /\ Put BlockUndoCol hash (FileLocation_encode location) ∈ batch.

Lemma store_undo_frame fault undo block hash location h b (s s' : ChainState S) b' :
  store_undo fault undo block hash location h b s = (Ok b', s') ->
  extends file_op b b' /\ cs_store s' = cs_store s /\ undo_saved fault undo hash s s' b'.
Proof.
  unfold store_undo, append_file, undo_saved. intros Hn. inv_node.
  match goal with Hi : note_location _ _ _ _ _ _ = _ |- _ => apply note_location_frame in Hi as [Hq [Hst Hun]] end.
  destruct (append _ _ _ _ _) as [[st files] [loc|e|]]; simplify_eq/=.
  split; [repeat apply extends_put; auto with quiet|]. split; [done|].
  eexists st, files, _. split_and!; [done|done|]. apply elem_of_app. right. apply list_elem_of_here.
Qed.

Lemma prune_block_undo_frame (store : S) h b b' : prune_block_undo store h b = Ok b' -> extends file_op b b'.
Proof.
  unfold prune_block_undo, clear_block_index_undo. intros Hp. inv_result; auto with quiet.
  repeat (case_match; inv_result; auto with quiet).
  all: eauto using extends_refl, extends_put, extends_delete with quiet.
Qed.

Lemma mark_all_paid_frame (store : S) h b paid b' extra :
  mark_all_paid store h b paid = Ok (b', extra) -> quiet b b'.
Proof.
  intros Hm. change (quiet b (fst (b', extra))).
  refine (try_fold_inv _ (fun st => quiet b (fst st)) _ _ _ _ _ Hm); [auto with quiet|].
  intros o [b1 e1] [b2 e2] _ Hb Hp. unfold mark_paid in Hp. inv_result. simpl in *. auto with quiet.
Qed.

Lemma finish_trees_frame trees acc hd h b b' : finish_trees params trees acc hd h b = Ok b' -> quiet b b'.
Proof.
  unfold finish_trees, anchor_insert. intros Hf. inv_result.
  repeat (case_match; inv_result); auto 10 with quiet.
Qed.

Lemma index_block_frame (store : S) hd hash location txids b : quiet b (index_block options store hd hash location txids b).
Proof.
  unfold index_block. cbv zeta. destruct (index_tx options); [apply extends_foldl|];
    unfold txindex_insert; repeat case_match; auto with quiet.
Qed.
Lemma make_tip_frame e hash h b : quiet b (make_tip e hash h b).
Proof. unfold make_tip, set_height_hash, set_best_block, put_header. auto with quiet. Qed.

Lemma finish_totals_frame stats pools input acc b b' :
  finish_totals params stats pools input acc b = Ok b' -> quiet b b'.
Proof. unfold finish_totals. intros Hf. inv_result. auto with quiet. Qed.
End blocks.

(** The pools are computed from what is on disk. *)
Section disk.
  Context {H : Hashes} {T : ShieldedTrees} {S : Type} {KV : KeyValueStore S}.

Lemma sum_pools_disk (s s' : ChainState S) count h pools :
  same_disk s s' -> sum_pools s' count h pools = sum_pools s count h pools.
Proof.
  intros (E1&E2&_). revert h pools. induction count as [|count IH]; intros h pools; cbn [sum_pools]; [done|].
  unfold read_block. rewrite E1, E2.
  destruct (map_err ChainStore (height_hash _ _)) as [hash| |]; cbn [mbind result_bind]; [|done..].
  destruct (ok_or hash _); cbn [mbind result_bind]; [|done..].
  destruct (block_location _ _) as [location| |]; cbn [mbind result_bind]; [|done..].
  destruct (ok_or location _); cbn [mbind result_bind]; [|done..].
  destruct (map_err ChainFlatFile _); cbn [mbind result_bind]; [|done..].
  destruct (decode_block _); cbn [mbind result_bind]; [|done..].
  destruct (value_pool_deltas _); cbn [mbind result_bind]; [|done..].
  destruct (add_pools _ _ _); cbn [mbind result_bind]; [|done..]. apply IH.
Qed.
Lemma value_pools_disk (s s' : ChainState S) :
  same_disk s s' -> value_pools_or_compute s' = value_pools_or_compute s.
Proof.
  intros Hd. unfold value_pools_or_compute, compute_value_pools. pose proof Hd as [E _]. rewrite E.
  destruct (value_pools _) as [[p|]| |]; cbn [mbind result_bind]; try done.
  destruct (map_err ChainStore (best_block _)) as [[b|]| |]; cbn [mbind result_bind]; try done.
  by apply sum_pools_disk.
Qed.
End disk.

(** ** The parts of a successful connection *)
Section parts.
  Context {H : Hashes} {B : Blake2b} {U : U256Ops} {S256 : Secp} {R : Recovery} {SC : ShieldedCrypto}.
  Context {T : ShieldedTrees} {S : Type} {KV : KeyValueStore S}.
  Context (params : ChainParams) (options : ChainStateOptions).

Record connected (input : BlockInput) (s : ChainState S) (batch : WriteBatch) (stats : UtxoStats)
    (pools : ValuePools) (txids : list Hash256) (b0 b1 b2 : WriteBatch) (trees : ShieldedTreesCache)
    (acc : BlockAcc) (extra : list FluxnodeUndo) : Prop := {
  cd_txids : block_txids params (bi_block input) (bi_height input) (bi_flags input) (bi_prevalidated input)
               (bi_txids input) = Ok txids;
  cd_stats : utxo_stats_or_compute (cs_store s) = Ok stats;
  cd_pools : value_pools_or_compute s = Ok pools;
  cd_start : quiet [] b0;
  cd_txs : connect_txs (cs_store s) params options trees (check_script (bi_flags input)) (bi_height input) b0
             (transactions (bi_block input)) txids = Ok acc;
  cd_sigs : verify_sig_checks (fa_sig_checks (ba_fluxnode acc)) = Ok tt;
  cd_scripts : check_script (bi_flags input) = true ->
               run_script_checks (bi_block input) (ua_spent (ba_utxo acc))
                 (current_epoch_branch_id (bi_height input) (upgrades (consensus params)))
                 (ua_script_checks (ba_utxo acc)) = Ok tt;
  cd_middle : quiet (put_all_created options (ua_batch (ba_utxo acc)) (ua_created (ba_utxo acc))) b1;
  cd_totals : finish_totals params stats pools input acc b1 = Ok b2;
  cd_end : extends file_op b2 batch }.

Lemma connect_body_parts (store : S) trees input b txids paid acc b' extra :
  connect_body params options store trees input b txids paid = Ok (acc, b', extra) ->
  connect_txs store params options trees (check_script (bi_flags input)) (bi_height input) b
    (transactions (bi_block input)) txids = Ok acc
  /\ verify_sig_checks (fa_sig_checks (ba_fluxnode acc)) = Ok tt
  /\ (check_script (bi_flags input) = true ->
      run_script_checks (bi_block input) (ua_spent (ba_utxo acc))
        (current_epoch_branch_id (bi_height input) (upgrades (consensus params))) (ua_script_checks (ba_utxo acc)) = Ok tt)
  /\ quiet (put_all_created options (ua_batch (ba_utxo acc)) (ua_created (ba_utxo acc))) b'.
Proof.
  unfold connect_body. intros Hb. apply bind_Ok in Hb as (acc'&Htxs&Hb). cbv zeta in Hb.
  apply bind_Ok in Hb as ([]&Hsigs&Hb). apply bind_Ok in Hb as ([]&Hscripts&Hb).
  apply bind_Ok in Hb as ([b1 ex]&Hmark&Hb). apply bind_Ok in Hb as (b2&Htrees&Hb). injection Hb as -> -> ->.
  split_and!; [done|done| |].
  - intros E. by rewrite E in Hscripts.
  - eapply extends_trans; [by eapply mark_all_paid_frame|by eapply finish_trees_frame].
Qed.

Lemma connect_block_parts env input (s s' : ChainState S) batch :
  connect_block params options env input s = (Ok batch, s') ->
  exists stats pools txids b0 b1 b2 trees acc extra, connected input s batch stats pools txids b0 b1 b2 trees acc extra
    /\ cs_store s' = cs_store s
    /\ undo_saved (be_undo_fault env) (block_undo_of trees acc extra) (header_hash (header (bi_block input))) s s' batch.
Proof.
  unfold connect_block. intros Hc. apply node_bind_Ok in Hc as ([[[e b0] txids] paid]&s1&Hh&Hc).
  apply connect_header_frame in Hh as (Hb0&Hd1&Htx).
  apply node_bind_Ok in Hc as (stats&s2&Hst&Hc). apply reads_Ok in Hst as [Hst ->].
  apply node_bind_Ok in Hc as (pools&s2&Hp&Hc). apply reads_Ok in Hp as [Hp ->].
  rewrite (value_pools_disk s s1) in Hp by done. destruct Hd1 as (Es1&_&Eu1). rewrite Es1 in Hst.
  apply node_bind_Ok in Hc as (trees&s2&Ht&Hc). apply shielded_cache_frame in Ht as (Es2&_&Eu2).
  apply node_bind_Ok in Hc as ([[acc bm] extra]&s3&Hb&Hc). apply reads_Ok in Hb as [Hb ->].
  rewrite Es2, Es1 in Hb. apply connect_body_parts in Hb as (Htxs&Hsigs&Hscripts&Hmid).
  inv_node. simplify_eq/=.
  repeat match goal with
  | Hi : place_block _ _ _ _ _ = _ |- _ => apply place_block_frame in Hi as [? ?]
  | Hi : note_location _ _ _ _ _ _ = _ |- _ => apply note_location_frame in Hi as [? [? ?]]
  | Hi : store_undo _ _ _ _ _ _ _ _ = _ |- _ => apply store_undo_frame in Hi as (?&?&Hundo)
  | Hi : prune_block_undo _ _ _ = _ |- _ => apply prune_block_undo_frame in Hi
  end.
  match goal with Hf : finish_totals _ _ _ _ _ ?b1 = Ok ?b2 |- _ => exists stats, pools, txids, b0, b1, b2, trees, acc, extra end.
  split; [|split; [congruence|]].
  - split; try assumption.
    + eapply extends_trans; [exact Hmid|]. eapply extends_trans; [by eapply (extends_mono file_op _ _ _ file_op_off_utxo)|].
      eapply extends_trans; [apply index_block_frame|apply make_tip_frame].
    + by eapply extends_trans.
  - destruct Hundo as (st&files&location&Ha&Hu&Hin). exists st, files, location.
    assert (cs_undo s = cs_undo s2) as -> by congruence.
    match goal with Ha : append _ _ (ffs_state (cs_undo ?x)) _ _ = _ |- _ => assert (cs_undo x = cs_undo s2) as E by congruence end.
    rewrite E in *. split_and!; [done|done|].
    match goal with Hi : extends file_op _ batch |- _ => destruct Hi as (ops&->&_) end. apply elem_of_app. by left.
Qed.
End parts.
