(* ===== verification/Failures.v ===== *)
(** * What a failure leaves behind ([chainstate/src/state.rs])

    Connecting and disconnecting a block only prepare a batch: whatever they
    answer, and whatever the operating system does to the block files, the
    store is as it was and every record of the files reads as before.  A
    commit that fails has either written nothing, or has met data that its
    in-memory state cannot follow. *)

From S2P Require Import Prelude Consensus Rewards Encoding Hashing Transaction Block Difficulty Sighash Script Equihash Pow Pon Storage Fluxnode Utxo FlatFiles Indexes ChainIndex Shielded Validation HeaderChain Caches Payees FluxnodeChecks Ledger BlockConnect Frames.
From Stdlib Require Import ZArith Lia.
From stdpp Require Import base list option numbers strings gmap.
#[local] Open Scope Z_scope.

(** ** The files only grow *)
Definition files_grow (f f' : FlatFileStore) : Prop :=
  forall location d, read (ffs_files f) location = Ok d -> read (ffs_files f') location = Ok d.
Lemma files_grow_refl f : files_grow f f.
Proof. by intros location d. Qed.
Lemma files_grow_trans f1 f2 f3 : files_grow f1 f2 -> files_grow f2 f3 -> files_grow f1 f3.
Proof. intros H1 H2 location d Hr. by apply H2, H1. Qed.

Lemma append_grows max fault st files bs :
  files_grow (mkFlatFileStore st files max)
    (mkFlatFileStore (append max fault st files bs).1.1 (append max fault st files bs).1.2 max).
Proof.
  intros location d Hr. unfold append. cbv zeta.
  destruct fault as [[|n]|]; simpl; [done|by apply read_append_to..].
Qed.

Section failures.
  Context {H : Hashes} {B : Blake2b} {U : U256Ops} {S256 : Secp} {R : Recovery} {SC : ShieldedCrypto}.
  Context {T : ShieldedTrees} {S : Type} {KV : KeyValueStore S}.
  Context (params : ChainParams) (options : ChainStateOptions).

(** ** Steps that harm nothing, whatever they answer *)
Definition unharmed (s s' : ChainState S) : Prop :=
  cs_store s' = cs_store s /\ files_grow (cs_blocks s) (cs_blocks s') /\ files_grow (cs_undo s) (cs_undo s').
Definition steady {A} (p : node A) : Prop := forall s, unharmed s (snd (p s)).

#[export] Instance unharmed_preorder : PreOrder unharmed.
Proof.
  split; [intros s; split_and!; auto using files_grow_refl|]. intros s1 s2 s3 (H1&H2&H3) (H4&H5&H6).
  split_and!; [congruence|by eapply files_grow_trans..].
Qed.

Lemma unharmed_same_disk s s' : same_disk s s' -> unharmed s s'.
Proof. intros (Hs&Hb&Hu). unfold unharmed. rewrite Hs, Hb, Hu. split_and!; auto using files_grow_refl. Qed.

Lemma steady_bind {A C} (p : node A) (f : A -> node C) : steady p -> (forall a, steady (f a)) -> steady (p ≫= f).
Proof.
  intros Hp Hf s. unfold mbind, node_bind. specialize (Hp s).
  destruct (p s) as [[a|e|] s1]; [|exact Hp..]. etrans; [exact Hp|]. apply Hf.
Qed.
Lemma steady_lift {A} (r : result ChainStateError A) : steady (lift r).
Proof. by intros s; simpl. Qed.
Lemma steady_ret {A} (a : A) : steady (mret a).
Proof. by intros s; simpl. Qed.
Lemma steady_reads {A} (f : ChainState S -> result ChainStateError A) : steady (reads f).
Proof. by intros s; simpl. Qed.
Lemma steady_read_store {A} (f : S -> result ChainStateError A) : steady (read_store f).
Proof. by intros s; simpl. Qed.
Lemma steady_append kind fault bs : steady (append_file kind fault bs).
Proof.
  intros s. unfold append_file. destruct kind; simpl.
  all: match goal with |- context [append ?m ?f ?st ?fs ?d] => pose proof (append_grows m f st fs d) as Hg;
         destruct (append m f st fs d) as [[st' files'] r] end.
  all: split_and!; by try apply files_grow_refl.
Qed.
End failures.

Create HintDb steady.
#[export] Hint Resolve steady_bind steady_lift steady_ret steady_reads steady_read_store steady_append : steady.

Section blocks.
  Context {H : Hashes} {B : Blake2b} {U : U256Ops} {S256 : Secp} {R : Recovery} {SC : ShieldedCrypto}.
  Context {T : ShieldedTrees} {S : Type} {KV : KeyValueStore S}.
  Context (params : ChainParams) (options : ChainStateOptions).

Lemma steady_insert_header now batch hd : steady (S:=S) (insert_block_header params options now batch hd).
Proof. intros s. unfold insert_block_header. destruct (insert_header _ _ _ _ _ _) as [r hs]. by apply unharmed_same_disk. Qed.
Lemma steady_payouts coinbase h : steady (S:=S) (check_payouts_due params coinbase h).
Proof. intros s. unfold check_payouts_due. destruct (check_deterministic_fluxnode_payouts _ _ _ _ _). by apply unharmed_same_disk. Qed.
Lemma steady_trees : steady (S:=S) shielded_cache.
Proof. intros s. unfold shielded_cache. destruct (cs_trees s); [|destruct (trees_load _)]; by apply unharmed_same_disk. Qed.
Lemma steady_changes (f : ChainState S -> ChainState S) : (forall s, unharmed s (f s)) -> steady (changes f).
Proof. intros Hf s. apply Hf. Qed.
Lemma steady_flatfile_info kind id : steady (S:=S) (flatfile_info_cached kind id).
Proof. intros s. unfold flatfile_info_cached. apply unharmed_same_disk. destruct kind; repeat case_match; by simplify_eq/=. Qed.
Lemma steady_note_location kind b location h time : steady (S:=S) (note_location kind b location h time).
Proof. unfold note_location, update_flatfile_meta. auto 10 using steady_flatfile_info with steady. Qed.
Lemma steady_place_block fault block bs given : steady (S:=S) (place_block fault block bs given).
Proof. unfold place_block. destruct given; auto 10 with steady. Qed.
#[local] Hint Resolve steady_insert_header steady_payouts steady_trees steady_note_location steady_place_block : steady.
#[local] Hint Extern 1 (steady (changes _)) => apply steady_changes; intros ?; by apply unharmed_same_disk : steady.

Lemma steady_connect_header env input : steady (S:=S) (connect_header params options env input).
Proof. unfold connect_header. cbv zeta. auto 20 with steady. Qed.
Lemma steady_store_undo fault undo block hash location h b :
  steady (S:=S) (store_undo fault undo block hash location h b).
Proof. unfold store_undo. auto 10 with steady. Qed.
#[local] Hint Resolve steady_connect_header steady_store_undo : steady.

Lemma steady_connect env input : steady (S:=S) (connect_block params options env input).
Proof.
  unfold connect_block. cbv zeta. apply steady_bind; [auto with steady|]. intros [[[e b] ids] paid].
  do 3 (apply steady_bind; [auto with steady|intros ?]). apply steady_bind; [auto with steady|].
  intros [[acc b'] extra]. auto 20 with steady.
Qed.
Lemma steady_disconnect hash : steady (S:=S) (disconnect_block options hash).
Proof.
  unfold disconnect_block. apply steady_bind; [auto with steady|]. intros [[[e h] block] undo].
  auto 30 with steady.
Qed.
End blocks.

(** ** A commit that fails *)
Section commit.
  Context {H : Hashes} {T : ShieldedTrees} {S : Type} `{KVL : KeyValueStoreLaws S}.
  Context (options : ChainStateOptions).

(** What the in-memory state cannot follow: trees that do not parse and
    fluxnode records that do not decode. *)
Definition unfollowed : list ChainStateError :=
  [CorruptIndex "invalid sprout tree"; CorruptIndex "invalid sapling tree";
   CorruptIndex "invalid fluxnode record bytes in batch"].
Definition follows {A} (p : node A) : Prop :=
  forall s : ChainState S, same_disk s (snd (p s)) /\ forall e, fst (p s) = Err e -> e ∈ unfollowed.

Lemma follows_bind {A C} (p : node A) (f : A -> node C) : follows p -> (forall a, follows (f a)) -> follows (p ≫= f).
Proof.
  intros Hp Hf s. unfold mbind, node_bind. destruct (Hp s) as [Hs He].
  destruct (p s) as [[a|e|] s1]; simpl in *; [|split; [done|]..]; [|by intros e' [= <-]; apply He|done].
  destruct (Hf a s1) as [Hs1 He1]. split; [by eapply same_disk_trans|done].
Qed.
Lemma follows_done {A} (p : node A) :
  (forall s, match p s with (Ok _, s') => same_disk s s' | _ => False end) -> follows p.
Proof. intros Hp s. specialize (Hp s). by destruct (p s) as [[a|e|] s']. Qed.
Definition ends {A} (p : node A) : Prop := forall (s : ChainState S) e s',
  p s = (Err e, s') -> same_disk s s' /\ e ∈ unfollowed.
Lemma ends_bind {A C} (p : node A) (f : A -> node C) : follows p -> (forall a, ends (f a)) -> ends (p ≫= f).
Proof.
  intros Hp Hf s e s'. unfold mbind, node_bind. destruct (Hp s) as [Hs He].
  destruct (p s) as [[a|e1|] s1]; simpl in *; [|intros [= <- <-]; auto|done].
  intros Hb. apply Hf in Hb as [Hs' Hin]. split; [by eapply same_disk_trans|done].
Qed.
Lemma update_tree_follows {Tree} (f : bytes -> option Tree) message bs e :
  CorruptIndex message ∈ unfollowed -> update_tree f message bs = Err e -> e ∈ unfollowed.
Proof. intros Hm. unfold update_tree. destruct bs; [|done]. destruct (f _); by intros [= <-]. Qed.
Lemma load_tree_follows {Tree} (f : bytes -> option Tree) g empty message stored e :
  CorruptIndex message ∈ unfollowed -> load_tree f g empty message stored = Err e -> e ∈ unfollowed.
Proof. intros Hm. unfold load_tree. destruct stored; [destruct (f _)|destruct (g empty)]; by intros [= <-]. Qed.
Lemma sprout_unfollowed : CorruptIndex "invalid sprout tree" ∈ unfollowed.
Proof. apply elem_of_cons. by left. Qed.
Lemma sapling_unfollowed : CorruptIndex "invalid sapling tree" ∈ unfollowed.
Proof. apply elem_of_cons. right. apply elem_of_cons. by left. Qed.
Lemma record_unfollowed : CorruptIndex "invalid fluxnode record bytes in batch" ∈ unfollowed.
Proof. do 2 (apply elem_of_cons; right). apply elem_of_cons. by left. Qed.

Lemma trees_load_follows (store : S) e : trees_load store = Err e -> e ∈ unfollowed.
Proof.
  unfold trees_load. rewrite !kv_get_spec. cbn [map_err mbind result_bind].
  destruct (load_tree sprout_tree_from_bytes _ _ _ _) as [sprout|e1|] eqn:E; cbn [mbind result_bind]; [|intros [= <-]|done].
  2: { by apply load_tree_follows in E; [|apply sprout_unfollowed]. }
  destruct (load_tree sapling_tree_from_bytes _ _ _ _) as [sapling|e1|] eqn:E1; cbn [mbind result_bind]; [done|intros [= <-]|done].
  by apply load_tree_follows in E1; [|apply sapling_unfollowed].
Qed.
Lemma update_cache_follows a b : follows (update_shielded_cache a b).
Proof.
  unfold update_shielded_cache. apply follows_bind.
  { intros s. unfold shielded_cache. destruct (cs_trees s); [done|].
    destruct (trees_load (cs_store s)) as [| |] eqn:E; try done. split; [done|]. intros e' [= <-].
    by apply trees_load_follows in E. }
  intros trees. apply follows_bind.
  { intros s. split; [done|]. intros e He. by apply update_tree_follows in He; [|apply sprout_unfollowed]. }
  intros sprout. cbv zeta. apply follows_bind; [by apply follows_done|]. intros _. apply follows_bind.
  { intros s. split; [done|]. intros e He. by apply update_tree_follows in He; [|apply sapling_unfollowed]. }
  intros [[tree bs]|]; by apply follows_done.
Qed.
Lemma commit_payments_error batch c e c' : commit_payments batch c = (Err e, c') -> e ∈ unfollowed.
Proof.
  unfold commit_payments. destruct (pc_initialized c); [|done].
  revert c. induction batch as [|op batch IH]; intros c; simpl; [done|].
  destruct (commit_payment_op c op) as [c1|e1|] eqn:E; [by apply IH| |done]. intros [= <- _].
  unfold commit_payment_op in E. repeat (case_match; simplify_eq/=); apply record_unfollowed.
Qed.

(** A commit that fails has written its whole batch or nothing. *)
Lemma commit_batch_fails fails batch (s s' : ChainState S) e :
  commit_batch options fails batch s = (Err e, s') ->
  cs_blocks s' = cs_blocks s /\ cs_undo s' = cs_undo s
  /\ (cs_store s' = cs_store s \/ kv_write_batch (cs_store s) batch = Ok (cs_store s') /\ e ∈ unfollowed).
Proof.
  unfold commit_batch. intros Hc. unfold mbind at 1, node_bind at 1 in Hc.
  destruct (BlockConnect.lift (header_updates batch) s) as [[u|e1|] s1] eqn:E; unfold BlockConnect.lift in E;
    [|simplify_eq; auto|done]. assert (s1 = s) as -> by congruence. clear E.
  unfold mbind at 1, node_bind at 1, write_batch in Hc.
  destruct (kv_write_batch_spec (cs_store s) batch) as (store'&Hw&_). rewrite Hw in Hc. rewrite Hw. cbv zeta in Hc.
  match type of Hc with ?p _ = _ => assert (ends p) as Hf end.
  { apply ends_bind.
    { match goal with |- follows (if ?c then _ else _) => destruct c end; [apply update_cache_follows|by apply follows_done]. }
    intros _. do 2 (apply ends_bind; [by apply follows_done|intros _]).
    apply ends_bind.
    { intros s0. destruct (commit_payments batch (cs_payments s0)) as [r p] eqn:E. split; [done|].
      intros e0 He. simpl in He. subst r. by apply commit_payments_error in E. }
    intros _ s0 e0 s1. unfold ignore_errors.
    destruct (_ || _); [|done]. by destruct (prune_flatfiles options fails s0) as [[| |] ?]. }
  apply Hf in Hc as [(Hs&Hb&Hu) He]. simpl in Hs. rewrite Hs. auto.
Qed.
End commit.

(** ** Failing to connect or disconnect a block *)
Section theorems.
  Context {H : Hashes} {B : Blake2b} {U : U256Ops} {S256 : Secp} {R : Recovery} {SC : ShieldedCrypto}.
  Context {T : ShieldedTrees} {S : Type} `{KVL : KeyValueStoreLaws S}.
  Context (params : ChainParams) (options : ChainStateOptions).

End theorems.
