(* ===== verification/Supply.v ===== *)
(** * The money supply

    The outputs and the shielded pools together grow by at most the subsidy
    and the funding amounts of a block's height, whatever the block contains. *)

From S2P Require Import Prelude Consensus Rewards Encoding Hashing Address Transaction Block Difficulty Sighash.
From S2P Require Import Script Equihash Pow Pon Storage Fluxnode Utxo FlatFiles Indexes ChainIndex Shielded.
From S2P Require Import Validation HeaderChain Caches Payees FluxnodeChecks Ledger BlockConnect Frames.
From Stdlib Require Import ZArith Lia.
From stdpp Require Import base list option numbers strings gmap.
#[local] Open Scope Z_scope.

(** ** Amounts *)
Definition sum_of {A} (f : A -> Z) (l : list A) : Z := foldr (fun a s => f a + s) 0 l.
Lemma sum_of_app {A} (f : A -> Z) l1 l2 : sum_of f (l1 ++ l2) = sum_of f l1 + sum_of f l2.
Proof. unfold sum_of. induction l1; simpl; lia. Qed.
Lemma sum_of_snoc {A} (f : A -> Z) l a : sum_of f (l ++ [a]) = sum_of f l + f a.
Proof. rewrite sum_of_app. unfold sum_of. simpl. lia. Qed.
Lemma sum_of_nonneg {A} (f : A -> Z) l : Forall (fun a => 0 <= f a) l -> 0 <= sum_of f l.
Proof. unfold sum_of. induction 1; simpl; lia. Qed.

Lemma checked_add_i64_Some a b c : checked_add_i64 a b = Some c <-> c = a + b /\ is_i64 c.
Proof. unfold checked_add_i64. case_match; unfold_ints; split; try intros [= <-]; try intros [-> ?]; (done || lia || f_equal; lia). Qed.
Lemma checked_sub_i64_Some a b c : checked_sub_i64 a b = Some c <-> c = a - b /\ is_i64 c.
Proof. unfold checked_sub_i64. rewrite checked_add_i64_Some. unfold_ints. lia. Qed.
Lemma checked_add_u64_Some a b c : checked_add_u64 a b = Some c <-> c = a + b /\ c <= MAX_U64.
Proof. unfold checked_add_u64. case_match; split; try intros [= <-]; try intros [-> ?]; (done || lia || f_equal; lia). Qed.
Lemma checked_sub_u64_Some a b c : checked_sub_u64 a b = Some c <-> c = a - b /\ b <= a.
Proof. unfold checked_sub_u64. case_match; split; try intros [= <-]; try intros [-> ?]; (done || lia || f_equal; lia). Qed.
Lemma or_range_Ok {A} (o : option A) a : or_range o = Ok a <-> o = Some a.
Proof. apply ok_or_Ok. Qed.
Lemma range_check_Ok b u : range_check b = Ok u <-> b = true.
Proof. destruct b, u; simpl; split; done. Qed.
Lemma money_range_true v : money_range v = true <-> 0 <= v <= MAX_MONEY.
Proof. unfold money_range. lia. Qed.

(** Turns the checked operations of a successful computation into equations. *)
Ltac inv_amounts :=
  repeat (inv_result;
    repeat match goal with
    | H : or_range _ = Ok _ |- _ => apply or_range_Ok in H
    | H : checked_add_i64 _ _ = Some _ |- _ => apply checked_add_i64_Some in H as [-> H]
    | H : checked_sub_i64 _ _ = Some _ |- _ => apply checked_sub_i64_Some in H as [-> H]
    | H : checked_add_u64 _ _ = Some _ |- _ => apply checked_add_u64_Some in H as [-> H]
    | H : checked_sub_u64 _ _ = Some _ |- _ => apply checked_sub_u64_Some in H as [-> H]
    | H : range_check _ = Ok _ |- _ => apply range_check_Ok in H
    end).

Lemma sum_tx_outputs_Ok total outs r :
  sum_tx_outputs total outs = Ok r -> r = total + sum_of value outs /\ Forall (fun o => 0 <= value o <= MAX_MONEY) outs.
Proof.
  revert total. induction outs as [|o outs IH]; intros total Ho; cbn [sum_tx_outputs] in Ho.
  - injection Ho as <-. unfold sum_of. simpl. split; [lia|done].
  - inv_amounts. apply IH in Ho as [-> Hf]. unfold sum_of in *. simpl. split; [lia|]. constructor; [lia|done].
Qed.

Lemma sum_joinsplits_Ok part total js r :
  sum_joinsplits part total js = Ok r -> r = total + sum_of part js /\ Forall (fun j => 0 <= part j) js.
Proof.
  revert total. induction js as [|j js IH]; intros total Ho; cbn [sum_joinsplits] in Ho.
  - injection Ho as <-. unfold sum_of. simpl. split; [lia|done].
  - inv_amounts. apply IH in Ho as [-> Hf]. unfold sum_of, money_range in *. simpl. split; [lia|]. constructor; [lia|done].
Qed.

Definition output_value (tx : Transaction) : Z := sum_of value (vout tx).
Definition pool_in (tx : Transaction) : Z := sum_of vpub_old (join_splits tx).
Definition pool_out (tx : Transaction) : Z := sum_of vpub_new (join_splits tx).

Lemma tx_value_out_Ok tx r :
  tx_value_out tx = Ok r -> is_i64 (value_balance tx) ->
  r = output_value tx + Z.max 0 (- value_balance tx) + pool_in tx
  /\ Forall (fun o => 0 <= value o <= MAX_MONEY) (vout tx).
Proof.
  unfold tx_value_out, output_value, pool_in. intros Ho Hvb. inv_amounts.
  all: apply sum_tx_outputs_Ok in Hm as [-> Hv]; apply sum_joinsplits_Ok in Ho as [-> Hj]; (split; [|done]).
  - apply andb_prop in Hm2 as [Hr _]. apply money_range_true in Hr.
    destruct (decide (value_balance tx = -9223372036854775808)) as [E|E].
    + rewrite E in Hr. change (wrap_i64 _) with (-9223372036854775808) in Hr. lia.
    + rewrite wrap_i64_id; [lia|int_lia].
  - lia.
Qed.

Lemma tx_shielded_value_in_Ok tx r :
  tx_shielded_value_in tx = Ok r -> r = Z.max 0 (value_balance tx) + pool_out tx /\ 0 <= pool_out tx.
Proof.
  unfold tx_shielded_value_in, pool_out. intros Ho. inv_amounts.
  all: apply sum_joinsplits_Ok in Ho as [-> Hj]; apply sum_of_nonneg in Hj; lia.
Qed.

(** ** The accounts of a block *)
Section supply.
  Context {H : Hashes} {B : Blake2b} {U : U256Ops} {S256 : Secp} {R : Recovery} {SC : ShieldedCrypto}.
  Context {T : ShieldedTrees} {S : Type} {KV : KeyValueStore S}.
  Context (store : S) (params : ChainParams) (options : ChainStateOptions) (trees : ShieldedTreesCache).
  Context (check : bool) (height : Z).

Lemma check_joinsplits_pool acc anchors js st :
  try_fold (check_joinsplit store) (acc, anchors) js = Ok st ->
  sa_sprout_delta (fst st) = sa_sprout_delta acc + sum_of vpub_old js - sum_of vpub_new js
  /\ sa_sapling_delta (fst st) = sa_sapling_delta acc.
Proof.
  intros Hf. pattern js, st. eapply try_fold_ind; [| |exact Hf]; [unfold sum_of; simpl; lia|].
  intros seen j [acc1 i1] [acc2 i2] _ [Hsp Hsa] Hj. simpl in *. unfold check_joinsplit in Hj. inv_amounts.
  rewrite !sum_of_snoc. simpl. lia.
Qed.

Lemma check_shielded_tx_pools acc tx acc' :
  check_shielded_tx store acc tx = Ok acc' ->
  sa_sprout_delta acc' = sa_sprout_delta acc + pool_in tx - pool_out tx
  /\ sa_sapling_delta acc' = sa_sapling_delta acc - value_balance tx.
Proof.
  unfold check_shielded_tx. intros Hc. inv_amounts. simpl.
  apply check_joinsplits_pool in Hm0. simpl in Hm0. done.
Qed.

Lemma append_notes_pools acc tx acc' :
  append_notes trees acc tx = Ok acc' ->
  sa_sprout_delta acc' = sa_sprout_delta acc /\ sa_sapling_delta acc' = sa_sapling_delta acc.
Proof. unfold append_notes. intros Hc. by inv_amounts. Qed.

Lemma connect_inputs_value i tx txid acc acc' total :
  connect_inputs store params options check height i tx txid acc = Ok (acc', total) ->
  ua_value_created acc' = ua_value_created acc /\ ua_value_spent acc' = ua_value_spent acc + total
  /\ ua_utxos_created acc' = ua_utxos_created acc.
Proof.
  intros Hf. unfold connect_inputs in Hf.
  apply (try_fold_inv _ (fun st => ua_value_created (fst st) = ua_value_created acc
          /\ ua_value_spent (fst st) = ua_value_spent acc + snd st
          /\ ua_utxos_created (fst st) = ua_utxos_created acc)) in Hf; [done|simpl; lia|].
  intros [k input] [acc1 t1] [acc2 t2] _ (?&?&?) Hi. unfold connect_input in Hi. simpl in *.
  inv_amounts; destruct a as [[entry key] cib]; inv_amounts; simpl; lia.
Qed.

Lemma connect_outputs_value i tx txid acc acc' :
  connect_outputs options height i tx txid acc = Ok acc' ->
  ua_value_created acc' = ua_value_created acc + output_value tx /\ ua_value_spent acc' = ua_value_spent acc.
Proof.
  unfold connect_outputs, output_value. intros Hf.
  assert (ua_value_created acc' = ua_value_created acc + sum_of (fun it => value (snd it)) (enumerate (vout tx))
          /\ ua_value_spent acc' = ua_value_spent acc) as [-> ->].
  { pattern (enumerate (vout tx)), acc'. eapply try_fold_ind; [| |exact Hf]; [unfold sum_of; simpl; lia|].
    intros seen [k o] a1 a2 _ [Hc Hs] Ho. unfold connect_output in Ho. inv_amounts. simpl.
    rewrite sum_of_snoc. simpl. lia. }
  split; [|done]. f_equal. unfold enumerate. generalize 0%nat. clear.
  induction (vout tx) as [|o l IH]; intros n; [done|]. unfold sum_of in *. simpl. by rewrite IH.
Qed.

(** What a block adds to the ledger: outputs and pools. *)
Definition net (acc : BlockAcc) : Z :=
  ua_value_created (ba_utxo acc) - ua_value_spent (ba_utxo acc)
  + sa_sprout_delta (ba_shielded acc) + sa_sapling_delta (ba_shielded acc).

Lemma connect_tx_supply acc i tx txid acc' :
  connect_tx store params options trees check height acc (i, (tx, txid)) = Ok acc' -> is_i64 (value_balance tx) ->
  exists out, tx_value_out tx = Ok out
    /\ net acc' + ba_total_fees acc' <= net acc + ba_total_fees acc + (if (i =? 0)%nat then out else 0)
    /\ (i = 0%nat -> ba_total_fees acc' = ba_total_fees acc).
Proof.
  intros Hc Hvb. unfold connect_tx in Hc. inv_result. destruct a3 as [utxo fees]. inv_result.
  destruct a3 as [fluxnode batch]. inv_result. exists a0. split; [done|]. unfold net. simpl.
  apply tx_value_out_Ok in Hm0 as [-> _]; [|done]. apply tx_shielded_value_in_Ok in Hm1 as [-> Hn].
  apply check_shielded_tx_pools in Hm2 as [Hsp Hsa]. apply append_notes_pools in Hm5 as [-> ->].
  apply connect_outputs_value in Hm6 as [-> ->]. simpl. rewrite Hsp, Hsa.
  unfold connect_spending in Hm3. destruct (i =? 0)%nat eqn:Hi; inv_amounts; simpl in *.
  - split; [lia|done].
  - destruct a0 as [utxo' total]. inv_amounts.
    match goal with Hi : connect_inputs _ _ _ _ _ _ _ _ _ = Ok _ |- _ => apply connect_inputs_value in Hi as (->&->&_) end.
    apply Nat.eqb_neq in Hi. split; [lia|done].
Qed.

Lemma connect_txs_supply batch tx0 txs id0 ids acc :
  connect_txs store params options trees check height batch (tx0 :: txs) (id0 :: ids) = Ok acc ->
  Forall (fun tx => is_i64 (value_balance tx)) (tx0 :: txs) ->
  exists out, tx_value_out tx0 = Ok out /\ net acc + ba_total_fees acc <= out.
Proof.
  unfold connect_txs, enumerate. cbn [combine enumerate_from try_fold]. intros Hc [Hvb0 Hvb]%Forall_cons. inv_result.
  apply connect_tx_supply in Hm as (out&Ho&Hle&Hfee); [|done]. exists out. split; [done|].
  apply (try_fold_inv _ (fun acc => net acc + ba_total_fees acc <= out)) in Hc; [done| |].
  - specialize (Hfee eq_refl). simpl in Hfee, Hle. unfold net in Hle at 2. simpl in Hle. lia.
  - intros [i [tx txid]] a1 a2 Hin Hle1 Hc1. apply elem_of_enumerate_from in Hin as [Hi Hl].
    apply connect_tx_supply in Hc1 as (out'&_&Hle'&_).
    + destruct (Nat.eqb_spec i 0); lia.
    + apply list_elem_of_lookup_2, list_elem_of_In, in_combine_l, list_elem_of_In in Hl.
      rewrite Forall_forall in Hvb. by apply Hvb.
Qed.
End supply.

(** ** The supply after a block *)
Definition supply (stats : UtxoStats) (pools : ValuePools) : Z :=
  total_amount stats + sprout_pool pools + sapling_pool pools.

Section blocks.
  Context {H : Hashes} {B : Blake2b} {U : U256Ops} {S256 : Secp} {R : Recovery} {SC : ShieldedCrypto}.
  Context {T : ShieldedTrees} {S : Type} {KV : KeyValueStore S}.
  Context (params : ChainParams) (options : ChainStateOptions).

(** What may be issued at a height besides the fees. *)
Definition issuance (height subsidy : Z) : Z :=
  subsidy + exchange_fund_amount height (funding params) + foundation_fund_amount height (funding params)
  + swap_pool_amount height (swap_pool params).

Lemma finish_totals_supply stats pools input acc b b' coinbase out :
  finish_totals params stats pools input acc b = Ok b' -> 2 < bi_height input ->
  head (transactions (bi_block input)) = Some coinbase -> tx_value_out coinbase = Ok out ->
  net acc + ba_total_fees acc <= out ->
  exists stats' pools' subsidy,
    b' = b ++ [Put Meta UTXO_STATS_KEY (UtxoStats_encode stats'); Put Meta VALUE_POOLS_KEY (ValuePools_encode pools')]
    /\ block_subsidy (bi_height input) (consensus params) = Ok (E:=ChainStateError) subsidy
    /\ supply stats' pools' <= supply stats pools + issuance (bi_height input) subsidy
    /\ 0 <= sprout_pool pools' /\ 0 <= sapling_pool pools'.
Proof.
  unfold finish_totals, first_tx, index, check_coinbase_value, max_reward, stats_after, add_pools, check_pools.
  intros Hf Hh Hcb Hout Hle. destruct (transactions (bi_block input)) as [|tx txs]; [done|]. simplify_eq/=.
  inv_result. rewrite Hout in *. simplify_eq/=.
  repeat match goal with
  | Ho : or_range _ = Ok _ |- _ => apply or_range_Ok in Ho
  | Ho : option_bind _ _ _ _ = Some _ |- _ => apply bind_Some in Ho as (?&?&Ho)
  | Ho : _ ≫= _ = Some _ |- _ => apply bind_Some in Ho as (?&?&Ho)
  end. inv_amounts.
  eexists (mkUtxoStats _ _), (mkValuePools _ _), _. split; [unfold batch_put; by rewrite <- app_assoc|].
  split; [done|]. unfold supply, issuance, net in *. simpl. lia.
Qed.

Lemma block_txids_length block h flags pre given txids :
  block_txids params block h flags pre given = Ok txids -> length txids = length (transactions block).
Proof.
  unfold block_txids, validate_block_with_txids, validate_block_with_txids_and_size. destruct pre; simpl.
  - destruct given as [ids|]; [by case_match; intros [= ->]; apply Nat.eqb_eq|].
    revert txids. induction (transactions block) as [|tx txs IH]; intros txids Hc; cbn [compute_txids] in Hc;
      [by injection Hc as <-|]. inv_result. simpl. f_equal. by apply IH.
  - intros Hv. apply map_err_Ok in Hv. destruct (transactions block) as [|tx txs]; [done|].
    do 4 (apply bind_Ok in Hv as (?&?&Hv)). apply bind_Ok in Hv as (ids&Hids&Hv).
    inv_result; by apply txids_of_Ok, Forall2_length in Hids.
Qed.
(** C2: no block inflates the supply.  When [connect_block] accepts a
    block above height 2, on whatever state and with whatever transactions,
    the batch it returns records totals [stats'] and [pools'] (they are the
    batch's last writes to their keys), and the value of all unspent outputs
    plus both shielded pools has grown by at most the subsidy of the height and
    the exchange, foundation and swap-pool amounts: fees, coinbase, shielded
    transfers and spends cannot create money.  Neither pool is negative. *)
Theorem connect_block_bounds_supply env input (s s' : ChainState S) batch :
  connect_block params options env input s = (Ok batch, s') -> 2 < bi_height input ->
  Forall (fun tx => is_i64 (value_balance tx)) (transactions (bi_block input)) ->
  exists stats pools stats' pools' subsidy,
    utxo_stats_or_compute (cs_store s) = Ok stats /\ value_pools_or_compute s = Ok pools
    /\ last_write batch Meta UTXO_STATS_KEY = Some (Some (UtxoStats_encode stats'))
    /\ last_write batch Meta VALUE_POOLS_KEY = Some (Some (ValuePools_encode pools'))
    /\ block_subsidy (bi_height input) (consensus params) = Ok (E:=ChainStateError) subsidy
    /\ supply stats' pools' <= supply stats pools + issuance (bi_height input) subsidy
    /\ 0 <= sprout_pool pools' /\ 0 <= sapling_pool pools'.
Proof.
  intros Hc Hh Hvb.
  apply connect_block_parts in Hc as (stats&pools&txids&b0&b1&b2&trees&acc&extra&[Htx Hst Hp Hb0 Htxs _ _ _ Hf He]&_&_).
  destruct (transactions (bi_block input)) as [|coinbase txs] eqn:Etxs.
  { unfold finish_totals, first_tx, index in Hf. by rewrite Etxs in Hf. }
  destruct txids as [|id ids].
  { apply block_txids_length in Htx. by rewrite Etxs in Htx. }
  apply connect_txs_supply in Htxs as (out&Hout&Hle); [|done].
  eapply finish_totals_supply in Hf as (stats'&pools'&subsidy&->&Hs&Hsup&Hp1&Hp2); [|done|by rewrite Etxs|done..].
  exists stats, pools, stats', pools', subsidy. split_and!; try done.
  all: rewrite (extends_last_write _ _ _ _ _ He); [by rewrite last_write_app|].
  all: unfold file_op; intros op [Hop|[Hop|[_ Hop]]] E Ek; [congruence..|by rewrite Ek in Hop].
Qed.
End blocks.
