(* ===== verification/UtxoLedger.v ===== *)
(** * Blocks on the set of unspent outputs

    The abstract ledger is a finite map from outpoints to entries; a block
    spends what its inputs name, one by one, and creates its outputs.  What
    [connect_block] writes refines it: inputs that are missing or spent twice
    are refused, outputs created and spent inside the block never reach the
    store, and the written set is the abstract one. *)

From S2P Require Import Prelude Consensus Rewards Encoding Hashing Address Transaction Block Difficulty Sighash.
From S2P Require Import Script Equihash Pow Pon Storage Fluxnode Utxo FlatFiles Indexes ChainIndex Shielded.
From S2P Require Import Validation HeaderChain Caches Payees FluxnodeChecks Ledger BlockConnect Frames.
From Stdlib Require Import ZArith Lia.
From stdpp Require Import base list option numbers strings gmap.
#[local] Open Scope Z_scope.

(** ** The abstract ledger *)
Abbreviation UtxoMap := (gmap OutPoint UtxoEntry).

Definition spend (m : UtxoMap) (input : TxIn) : option UtxoMap :=
  match m !! prevout input with Some _ => Some (delete (prevout input) m) | None => None end.
Fixpoint spend_all (m : UtxoMap) (inputs : list TxIn) : option UtxoMap :=
  match inputs with [] => Some m | input :: inputs => m ← spend m input; spend_all m inputs end.

Definition output_point (txid : Hash256) (index : nat) : OutPoint := mkOutPoint txid (wrap_u32 (Z.of_nat index)).
Definition output_entry (height : Z) (tx_index : nat) (output : TxOut) : UtxoEntry :=
  mkUtxoEntry (value output) (script_pubkey output) (wrap_u32 height) (tx_index =? 0)%nat.
Definition create (height : Z) (tx_index : nat) (txid : Hash256) (m : UtxoMap) (output : nat * TxOut) : UtxoMap :=
  <[output_point txid (fst output) := output_entry height tx_index (snd output)]> m.
Definition create_all (height : Z) (tx_index : nat) (txid : Hash256) (m : UtxoMap) (outputs : list TxOut) : UtxoMap :=
  foldl (create height tx_index txid) m (enumerate outputs).

(** A transaction; the coinbase, which is the first, spends nothing. *)
Definition ledger_tx (height : Z) (m : UtxoMap) (item : nat * (Transaction * Hash256)) : option UtxoMap :=
  let '(tx_index, (tx, txid)) := item in
  m ← (if (tx_index =? 0)%nat then Some m else spend_all m (vin tx));
  Some (create_all height tx_index txid m (vout tx)).
Fixpoint ledger_txs (height : Z) (m : UtxoMap) (items : list (nat * (Transaction * Hash256))) : option UtxoMap :=
  match items with [] => Some m | item :: items => m ← ledger_tx height m item; ledger_txs height m items end.
Definition ledger_block (height : Z) (m : UtxoMap) (txs : list Transaction) (txids : list Hash256) : option UtxoMap :=
  ledger_txs height m (enumerate (combine txs txids)).

Lemma ledger_txs_app height m l1 l2 :
  ledger_txs height m (l1 ++ l2) = (m ← ledger_txs height m l1; ledger_txs height m l2).
Proof. revert m. induction l1 as [|x l1 IH]; intros m; [done|]. simpl. destruct (ledger_tx height m x); simpl; [apply IH|done]. Qed.
Lemma spend_all_app m l1 l2 : spend_all m (l1 ++ l2) = (m ← spend_all m l1; spend_all m l2).
Proof. revert m. induction l1 as [|x l1 IH]; intros m; [done|]. simpl. destruct (spend m x); simpl; [apply IH|done]. Qed.

(** ** What the ledger spends *)
Fixpoint spent_all (m : UtxoMap) (inputs : list TxIn) : list SpentOutput :=
  match inputs with
  | [] => []
  | input :: inputs =>
      match m !! prevout input with
      | Some entry => mkSpentOutput (prevout input) entry :: spent_all (delete (prevout input) m) inputs
      | None => []
      end
  end.
Definition tx_spent (m : UtxoMap) (item : nat * (Transaction * Hash256)) : list SpentOutput :=
  if (fst item =? 0)%nat then [] else spent_all m (vin (fst (snd item))).
(** The outputs a block spends, in the order of its inputs. *)
Fixpoint ledger_spent (height : Z) (m : UtxoMap) (items : list (nat * (Transaction * Hash256))) : list SpentOutput :=
  match items with
  | [] => []
  | item :: items =>
      tx_spent m item ++ match ledger_tx height m item with Some m => ledger_spent height m items | None => [] end
  end.
Definition block_spent (height : Z) (m : UtxoMap) (txs : list Transaction) (txids : list Hash256) : list SpentOutput :=
  ledger_spent height m (enumerate (combine txs txids)).

Lemma spent_all_app m l1 l2 m1 :
  spend_all m l1 = Some m1 -> spent_all m (l1 ++ l2) = spent_all m l1 ++ spent_all m1 l2.
Proof.
  revert m. induction l1 as [|x l1 IH]; intros m; simpl; intros Hs; [by injection Hs as ->|]. unfold spend in Hs.
  destruct (m !! prevout x); [|done]. simpl in *. by rewrite (IH _ Hs).
Qed.
Lemma ledger_spent_snoc height m l item m1 :
  ledger_txs height m l = Some m1 -> ledger_spent height m (l ++ [item]) = ledger_spent height m l ++ tx_spent m1 item.
Proof.
  revert m. induction l as [|x l IH]; intros m; simpl; intros Hl.
  - injection Hl as ->. destruct (ledger_tx height m1 item); by rewrite app_nil_r.
  - destruct (ledger_tx height m x) as [m2|]; [|done]. simpl in Hl. by rewrite (IH m2 Hl), app_assoc.
Qed.

(** ** The accumulator tracks the ledger *)
Definition tx_wf (tx : Transaction) : Prop := Forall TxIn_wf (vin tx) /\ Forall TxOut_wf (vout tx).

Section tracking.
  Context {H : Hashes} {B : Blake2b} {U : U256Ops} {S256 : Secp} {R : Recovery} {SC : ShieldedCrypto}.
  Context {T : ShieldedTrees} {S : Type} `{KVL : KeyValueStoreLaws S}.
  Context (store : S) (m : UtxoMap) (Hm : utxo_represents store m).
  Context (params : ChainParams) (options : ChainStateOptions) (check : bool) (height : Z).

(** [mk] is the ledger after the part of the block done so far: created and
    not yet spent in the block, or in the store and not deleted. *)
Record tracks (mk : UtxoMap) (acc : UtxoAcc) : Prop := {
  tr_lookup o : wf o ->
    mk !! o = match ua_created acc !! OutPointKey_new o with
              | Some c => Some (cu_entry c)
              | None => match last_write (ua_batch acc) Utxo (OutPointKey_new o) with
                        | Some _ => None
                        | None => m !! o
                        end
              end;
  tr_deleted k r : last_write (ua_batch acc) Utxo k = Some r -> r = None /\ k ∈ ua_spent_outpoints acc;
  tr_created k c : ua_created acc !! k = Some c ->
    k = OutPointKey_new (cu_outpoint c) /\ wf (cu_outpoint c) /\ UtxoEntry_wf (cu_entry c)
    /\ m !! cu_outpoint c = None }.

Lemma tracks_same mk acc acc' :
  quiet (ua_batch acc) (ua_batch acc') -> ua_created acc' = ua_created acc ->
  ua_spent_outpoints acc' = ua_spent_outpoints acc -> tracks mk acc -> tracks mk acc'.
Proof.
  intros Hq Ec Es [H1 H2 H3]. constructor.
  - intros o Ho. rewrite Ec, (quiet_last_write _ _ _ Hq). auto.
  - intros k r. rewrite (quiet_last_write _ _ _ Hq), Es. auto.
  - intros k c. rewrite Ec. apply H3.
Qed.

Lemma input_ops_last_write b i txid k o entry key cib q :
  last_write (input_ops options height b i txid k o entry key cib) Utxo q
  = if negb cib && bool_decide (OutPointKey_new o = q) then Some None else last_write b Utxo q.
Proof.
  unfold input_ops. cbv zeta.
  set (b1 := if index_spent options then _ else b).
  assert (quiet b b1) as Hq1.
  { subst b1. destruct (index_spent options); [|auto with quiet].
    destruct (spent_address_info _). apply quiet_spentindex_insert. }
  set (b2 := if cib then b1 else utxo_delete b1 o).
  assert (last_write b2 Utxo q = if negb cib && bool_decide (OutPointKey_new o = q) then Some None else last_write b Utxo q) as <-.
  { subst b2. destruct cib; [by apply quiet_last_write|]. unfold utxo_delete, batch_delete.
    rewrite last_write_app, (quiet_last_write _ _ _ Hq1). simpl.
    repeat case_bool_decide; congruence. }
  apply quiet_last_write. destruct (index_address options); [|auto with quiet].
  destruct key as [key|]; [|auto with quiet].
  destruct cib; [apply quiet_delta_insert|].
  eapply extends_trans; [apply quiet_address_delete|apply quiet_delta_insert].
Qed.

Lemma tracks_input mk acc acc' i tx txid k input t t' :
  TxIn_wf input -> tracks mk acc ->
  connect_input store params options check height i tx txid (acc, t) (k, input) = Ok (acc', t') ->
  exists mk', spend mk input = Some mk' /\ tracks mk' acc' /\ ua_spent acc' = ua_spent acc ++ spent_all mk [input].
Proof.
  intros Hwf [Hl Hd Hc] Hi. unfold connect_input in Hi. case_bool_decide as Hspent; [done|].
  apply bind_Ok in Hi as ([[entry key] cib]&Hf&Hi).
  do 4 (apply bind_Ok in Hi as (?&_&Hi)). cbv zeta in Hi. apply bind_Ok in Hi as (?&_&Hi). injection Hi as <- <-.
  set (o := prevout input) in *. assert (Ho : wf o) by apply Hwf.
  assert (Hnone : last_write (ua_batch acc) Utxo (OutPointKey_new o) = None).
  { destruct (last_write _ _ _) as [r|] eqn:E; [|done]. by apply Hd in E as [_ ?]. }
  assert (mk !! o = Some entry /\ (cib = true -> m !! o = None)) as [Hk Hcib].
  { rewrite Hl by done. unfold find_input in Hf. destruct (ua_created acc !! OutPointKey_new o) as [c|] eqn:Ec.
    - injection Hf as <- _ <-. split; [done|]. intros _. apply Hc in Ec as (Ek&Hwc&_&Hmc).
      by apply OutPointKey_inj in Ek; [subst o|..]; [rewrite Ek|done|done].
    - rewrite Hnone. rewrite Hm in Hf by done. simpl in Hf. destruct (m !! o) as [e|]; simplify_eq/=. done. }
  exists (delete o mk). split; [unfold spend; fold o; by rewrite Hk|].
  split; [|cbn [ua_spent spent_all]; fold o; by rewrite Hk].
  constructor; cbn [ua_created ua_batch ua_spent_outpoints].
  - intros p Hp. rewrite input_ops_last_write. destruct (decide (p = o)) as [->|Hne].
    + rewrite lookup_delete_eq, lookup_delete_eq, bool_decide_true by done.
      destruct cib; simpl; [|done]. by rewrite Hnone, Hcib.
    + assert (OutPointKey_new o <> OutPointKey_new p) by (intros E; by apply OutPointKey_inj in E).
      rewrite lookup_delete_ne, lookup_delete_ne, bool_decide_false, andb_false_r by done. by apply Hl.
  - intros q r. rewrite input_ops_last_write. destruct (_ && _) eqn:E.
    + intros [= <-]. split; [done|]. apply andb_prop in E as [_ <-%bool_decide_eq_true].
      by apply elem_of_union_l, elem_of_singleton.
    + intros Hr. apply Hd in Hr as [-> ?]. split; [done|by apply elem_of_union_r].
  - intros q c [_ Hq]%lookup_delete_Some. by apply Hc.
Qed.

Lemma tracks_inputs mk acc acc' i tx txid t :
  Forall TxIn_wf (vin tx) -> tracks mk acc ->
  connect_inputs store params options check height i tx txid acc = Ok (acc', t) ->
  exists mk', spend_all mk (vin tx) = Some mk' /\ tracks mk' acc' /\ ua_spent acc' = ua_spent acc ++ spent_all mk (vin tx).
Proof.
  unfold connect_inputs. intros Hwf Htr Hf.
  assert (exists mk', spend_all mk (map snd (enumerate (vin tx))) = Some mk' /\ tracks mk' (fst (acc', t))
    /\ ua_spent (fst (acc', t)) = ua_spent acc ++ spent_all mk (map snd (enumerate (vin tx)))) as Hg.
  { revert Hf. apply (try_fold_ind _ (fun seen st => exists mk', spend_all mk (map snd seen) = Some mk' /\ tracks mk' (fst st)
      /\ ua_spent (fst st) = ua_spent acc ++ spent_all mk (map snd seen))); [exists mk; by rewrite app_nil_r|].
    intros seen [k input] [a1 t1] [a2 t2] Hin (mk1&Hs1&Htr1&Hu1) Hi.
    apply elem_of_enumerate_from in Hin as [_ Hin]. apply list_elem_of_lookup_2 in Hin.
    rewrite Forall_forall in Hwf. eapply tracks_input in Hi as (mk2&Hs2&Htr2&Hu2); [|by apply Hwf|done].
    exists mk2. split; [|split; [done|]].
    - rewrite map_app, spend_all_app, Hs1. simpl. by rewrite Hs2.
    - cbn [fst] in *. rewrite map_app, (spent_all_app _ _ _ mk1 Hs1), app_assoc, <- Hu1. exact Hu2. }
  assert (map snd (enumerate (vin tx)) = vin tx) as E; [|by rewrite E in Hg].
  unfold enumerate. generalize 0%nat. clear. induction (vin tx) as [|x l IH]; intros n; [done|]. simpl. by f_equal.
Qed.

Lemma output_point_wf txid k : array 32 txid -> wf (output_point txid k).
Proof. intros Ha. split; [done|apply wrap_u32_range]. Qed.

Lemma tracks_output mk acc acc' i txid k output :
  array 32 txid -> TxOut_wf output -> m !! output_point txid k = None -> tracks mk acc ->
  connect_output options height i txid acc (k, output) = Ok acc' ->
  tracks (create height i txid mk (k, output)) acc'.
Proof.
  intros Ha [Hv Hs] Hfresh Htr Ho. unfold connect_output in Ho. cbv zeta in Ho.
  do 2 (apply bind_Ok in Ho as (?&_&Ho)). injection Ho as <-.
  match goal with |- tracks _ (mkUtxoAcc ?b _ _ _ _ _ _ _ _) =>
    apply (tracks_same mk acc (mkUtxoAcc b (ua_created acc) (ua_spent_outpoints acc) [] [] 0 0 0 0)) in Htr;
      [|simpl; destruct (index_address options), (script_hash (script_pubkey output));
        auto using quiet_delta_insert with quiet|done|done] end.
  destruct Htr as [Hl Hd Hc]. simpl in Hl, Hd, Hc.
  pose proof (output_point_wf txid k Ha) as Hp. fold (output_point txid k).
  constructor; cbn [ua_created ua_batch ua_spent_outpoints].
  - intros o Ho. unfold create. simpl. destruct (decide (o = output_point txid k)) as [->|Hne].
    + by rewrite !lookup_insert_eq.
    + assert (OutPointKey_new (output_point txid k) <> OutPointKey_new o) by (intros E; by apply OutPointKey_inj in E).
      rewrite !lookup_insert_ne by done. by apply Hl.
  - done.
  - intros q c [[<- <-]|[_ Hq]]%lookup_insert_Some; [|by apply Hc].
    cbn [cu_outpoint cu_entry]. split; [done|split; [done|split; [|done]]].
    split; [done|split; [done|apply wrap_u32_range]].
Qed.

Lemma tracks_outputs mk acc acc' i tx txid :
  array 32 txid -> Forall TxOut_wf (vout tx) -> (forall k, m !! output_point txid k = None) -> tracks mk acc ->
  connect_outputs options height i tx txid acc = Ok acc' ->
  tracks (create_all height i txid mk (vout tx)) acc'.
Proof.
  intros Ha Hwf Hfresh Htr. unfold connect_outputs, create_all.
  apply (try_fold_ind _ (fun seen acc => tracks (foldl (create height i txid) mk seen) acc)); [done|].
  intros seen [k output] a1 a2 Hin Htr1 Hi. rewrite foldl_app. simpl.
  apply elem_of_enumerate_from in Hin as [_ Hin]. apply list_elem_of_lookup_2 in Hin. rewrite Forall_forall in Hwf.
  eapply tracks_output; eauto.
Qed.

Lemma connect_outputs_spent acc acc' i tx txid :
  connect_outputs options height i tx txid acc = Ok acc' -> ua_spent acc' = ua_spent acc.
Proof.
  unfold connect_outputs. apply (try_fold_inv _ (fun a => ua_spent a = ua_spent acc)); [done|].
  intros [k o] a1 a2 _ Hu Hi. unfold connect_output in Hi. inv_result. all: exact Hu.
Qed.

Lemma tracks_tx trees mk acc acc' i tx txid :
  tx_wf tx -> array 32 txid -> (forall k, m !! output_point txid k = None) -> tracks mk (ba_utxo acc) ->
  connect_tx store params options trees check height acc (i, (tx, txid)) = Ok acc' ->
  exists mk', ledger_tx height mk (i, (tx, txid)) = Some mk' /\ tracks mk' (ba_utxo acc')
    /\ ua_spent (ba_utxo acc') = ua_spent (ba_utxo acc) ++ tx_spent mk (i, (tx, txid)).
Proof.
  intros [Hin Hout] Ha Hfresh Htr Hc. unfold connect_tx in Hc.
  do 4 (apply bind_Ok in Hc as (?&_&Hc)). apply bind_Ok in Hc as ([utxo fees]&Hsp&Hc).
  apply bind_Ok in Hc as ([fluxnode batch]&Hfx&Hc). apply bind_Ok in Hc as (?&_&Hc).
  apply bind_Ok in Hc as (utxo'&Ho&Hc). injection Hc as <-. cbn [ba_utxo].
  assert (exists mk1, (if (i =? 0)%nat then Some mk else spend_all mk (vin tx)) = Some mk1 /\ tracks mk1 utxo
    /\ ua_spent utxo = ua_spent (ba_utxo acc) ++ tx_spent mk (i, (tx, txid))) as (mk1&Hmk1&Htr1&Hu1).
  { unfold connect_spending, tx_spent in *. cbn [fst snd]. destruct (i =? 0)%nat.
    - injection Hsp as <- _. exists mk. by rewrite app_nil_r.
    - apply bind_Ok in Hsp as ([utxo1 total]&Hi&Hsp). inv_result. by eapply tracks_inputs. }
  exists (create_all height i txid mk1 (vout tx)). split; [unfold ledger_tx; by rewrite Hmk1|].
  split; [|by rewrite (connect_outputs_spent _ _ _ _ _ Ho)].
  refine (tracks_outputs mk1 _ utxo' i tx txid Ha Hout Hfresh _ Ho).
  apply (tracks_same mk1 utxo); [|done..]. cbn [ua_batch set_ua_batch].
  unfold connect_fluxnode in Hfx. inv_result. eapply extends_trans; [|apply quiet_insert_nullifiers].
  by eapply quiet_apply_fluxnode.
Qed.

Lemma tracks_txs trees b txs txids acc :
  quiet [] b -> Forall tx_wf txs -> Forall (array 32) txids ->
  (forall txid k, txid ∈ txids -> m !! output_point txid k = None) ->
  connect_txs store params options trees check height b txs txids = Ok acc ->
  exists mk, ledger_block height m txs txids = Some mk /\ tracks mk (ba_utxo acc)
    /\ ua_spent (ba_utxo acc) = block_spent height m txs txids.
Proof.
  intros Hb Htxs Hids Hfresh. unfold connect_txs, ledger_block, block_spent.
  apply (try_fold_ind _ (fun seen acc => exists mk, ledger_txs height m seen = Some mk /\ tracks mk (ba_utxo acc)
    /\ ua_spent (ba_utxo acc) = ledger_spent height m seen)).
  - exists m. split; [done|split; [|done]]. constructor; cbn [acc_start ba_utxo ua_created ua_batch ua_spent_outpoints].
    + intros o Ho. rewrite lookup_empty. by rewrite (quiet_last_write _ _ _ Hb).
    + intros k r. by rewrite (quiet_last_write _ _ _ Hb).
    + intros k c. by rewrite lookup_empty.
  - intros seen [i [tx txid]] a1 a2 Hin (mk1&Hl1&Htr1&Hu1) Hc.
    apply elem_of_enumerate_from in Hin as [_ Hin]. apply list_elem_of_lookup_2, list_elem_of_In in Hin.
    pose proof (in_combine_l _ _ _ _ Hin) as H1%list_elem_of_In. pose proof (in_combine_r _ _ _ _ Hin) as H2%list_elem_of_In.
    rewrite Forall_forall in Htxs. rewrite Forall_forall in Hids. eapply tracks_tx in Hc as (mk2&Hl2&Htr2&Hu2); eauto.
    exists mk2. split; [rewrite ledger_txs_app, Hl1; cbn [mbind option_bind ledger_txs]; by rewrite Hl2|].
    split; [done|]. by rewrite (ledger_spent_snoc _ _ _ _ mk1 Hl1), <- Hu1.
Qed.

Lemma put_created_last_write b c q :
  last_write (put_created options b c) Utxo q
  = if bool_decide (OutPointKey_new (cu_outpoint c) = q) then Some (Some (UtxoEntry_encode (cu_entry c)))
    else last_write b Utxo q.
Proof.
  unfold put_created. cbv zeta.
  assert (forall b1, last_write (if index_address options
      then match cu_address_key c with
           | Some key => address_insert_with_script_hash b1 key (cu_outpoint c) | None => b1 end
      else b1) Utxo q = last_write b1 Utxo q) as ->.
  { intros b1. apply quiet_last_write. destruct (index_address options); [|auto with quiet].
    destruct (cu_address_key c); auto using quiet_address_insert with quiet. }
  unfold utxo_put, batch_put. rewrite last_write_app. cbn [last_write]. repeat case_bool_decide; congruence.
Qed.

(** The survivors are written last, in whatever order the map is walked. *)
Lemma put_all_created_last_write (b : WriteBatch) (created : gmap OutPointKey CreatedUtxo) (q : OutPointKey) :
  (forall k c, created !! k = Some c -> k = OutPointKey_new (cu_outpoint c)) ->
  last_write (put_all_created options b created) Utxo q
  = match created !! q with
    | Some c => Some (Some (UtxoEntry_encode (cu_entry c)))
    | None => last_write b Utxo q
    end.
Proof.
  intros Hk. unfold put_all_created. set (key c := OutPointKey_new (cu_outpoint c)).
  assert (forall l : list CreatedUtxo, (forall c, c ∈ l -> created !! key c = Some c) ->
    last_write (foldl (put_created options) b l) Utxo q
    = match created !! q with
      | Some c => if bool_decide (q ∈ map key l) then Some (Some (UtxoEntry_encode (cu_entry c))) else last_write b Utxo q
      | None => last_write b Utxo q
      end) as Hl.
  { induction l as [|c l IH] using rev_ind; intros Hin; [by destruct (created !! q)|].
    rewrite foldl_app. cbn [foldl]. rewrite put_created_last_write, IH by (intros c' ?; apply Hin, elem_of_app; by left).
    rewrite map_app. fold (key c). destruct (decide (key c = q)) as [E|E].
    - rewrite (bool_decide_true (key c = q)) by done. rewrite <- E, (Hin c) by (apply elem_of_app; right; apply list_elem_of_here).
      rewrite bool_decide_true; [done|]. apply elem_of_app. right. apply list_elem_of_here.
    - rewrite (bool_decide_false (key c = q)) by done. destruct (created !! q) as [c'|] eqn:Eq; [|done]. replace (bool_decide (q ∈ map key l ++ map key [c])) with (bool_decide (q ∈ map key l)); [done|].
      apply bool_decide_ext. rewrite elem_of_app. split; [by left|]. intros [?|Hq]; [done|]. by apply list_elem_of_singleton in Hq as ->. }
  rewrite Hl.
  - destruct (created !! q) as [c|] eqn:Eq; [|done]. rewrite bool_decide_true; [done|].
    apply list_elem_of_In, in_map_iff. exists c. split; [symmetry; by apply Hk|]. apply in_map_iff. exists (q, c).
    split; [done|]. by apply list_elem_of_In, elem_of_map_to_list.
  - intros c Hc. apply list_elem_of_In, in_map_iff in Hc as ([k c']&<-&Hc). apply list_elem_of_In, elem_of_map_to_list in Hc.
    cbn [snd]. pose proof (Hk _ _ Hc) as ->. done.
Qed.

Lemma tracks_commit mk acc batch :
  tracks mk acc -> quiet (put_all_created options (ua_batch acc) (ua_created acc)) batch ->
  exists store', kv_write_batch store batch = Ok store' /\ utxo_represents store' mk.
Proof.
  intros [Hl Hd Hc] Hq. destruct (kv_commit store batch) as (store'&Hw&Hg). exists store'. split; [done|].
  intros o Ho. unfold utxo_get. rewrite Hg, (quiet_last_write _ _ _ Hq), put_all_created_last_write, Hl;
    [|done|intros k c Hk; by apply Hc in Hk as [? _]].
  destruct (ua_created acc !! OutPointKey_new o) as [c|] eqn:Ec.
  - apply Hc in Ec as (_&_&Hwf&_). cbn [mbind result_bind]. by rewrite UtxoEntry_decode_encode.
  - destruct (last_write (ua_batch acc) Utxo (OutPointKey_new o)) as [r|] eqn:Er.
    + by apply Hd in Er as [-> _].
    + by apply Hm.
Qed.
End tracking.

(** ** Committing *)
Section commit.
  Context {H : Hashes} {T : ShieldedTrees} {S : Type} `{KVL : KeyValueStoreLaws S}.
  Context (options : ChainStateOptions).
  (* Keys that the metadata of the files does not use. *)
  Context (K : Column -> bytes -> Prop) (HK : forall op, file_op op -> ~ K (op_column op) (op_key op)).

(** Steps of the node that leave what is stored under these keys alone, and
    the cache of headers, errors included. *)
Definition same_at (s s' : ChainState S) : Prop :=
  (forall c k, K c k -> kv_get (cs_store s') c k = kv_get (cs_store s) c k)
  /\ cs_header_cache s' = cs_header_cache s.
Definition keeps {A} (p : node A) : Prop := forall s, same_at s (snd (p s)).

Lemma same_at_trans s1 s2 s3 : same_at s1 s2 -> same_at s2 s3 -> same_at s1 s3.
Proof. intros [H1 E1] [H2 E2]. split; [|congruence]. intros c k Hk. by rewrite H2, H1. Qed.
Lemma keeps_store {A} (p : node A) :
  (forall s, cs_store (snd (p s)) = cs_store s /\ cs_header_cache (snd (p s)) = cs_header_cache s) -> keeps p.
Proof. intros Hp s. destruct (Hp s) as [E1 E2]. split; [intros c k _; by rewrite E1|done]. Qed.
Lemma keeps_bind {A C} (p : node A) (f : A -> node C) : keeps p -> (forall a, keeps (f a)) -> keeps (p ≫= f).
Proof.
  intros Hp Hf s. unfold mbind, node_bind. specialize (Hp s). destruct (p s) as [[a|e|] s1]; [|done..].
  eapply same_at_trans; [exact Hp|apply Hf].
Qed.
Lemma keeps_write b : extends file_op [] b -> keeps (write_batch b).
Proof.
  intros Hb s. unfold write_batch. destruct (kv_commit (cs_store s) b) as (store'&->&Hg). split; [|done].
  intros c k Hk. simpl. rewrite Hg, (extends_last_write file_op [] b); [done|done|].
  intros op Hop <- <-. by apply (HK op).
Qed.
Lemma keeps_ignore (p : node unit) : keeps p -> keeps (ignore_errors p).
Proof. intros Hp s. specialize (Hp s). unfold ignore_errors. by destruct (p s) as [[a|e|] s1]. Qed.

Lemma keeps_drop_file kind id : keeps (drop_file kind id).
Proof. by apply keeps_store; destruct kind. Qed.
Lemma file_op_pruned kind v : file_op (Put Meta (pruned_key kind) v).
Proof. right; right. by destruct kind. Qed.
Lemma mark_pruned_files kind id info b : extends file_op b (mark_pruned kind id info b).
Proof. unfold mark_pruned. destruct (_ =? _); [apply extends_put; auto with quiet|auto with quiet]. Qed.
Lemma prune_loop_keeps fuel fails kind h id b :
  keeps (prune_loop fuel fails kind h id b)
  /\ forall s r s', prune_loop fuel fails kind h id b s = (Ok r, s') -> extends file_op b (snd r).
Proof.
  revert id b. induction fuel as [|fuel IH]; intros id b; simpl; [split; [by apply keeps_store|done]|]. split.
  - apply keeps_bind; [by apply keeps_store|]. intros [info|]; [|by apply keeps_store].
    apply keeps_bind; [destruct (fails id); [by apply keeps_store|apply keeps_drop_file]|].
    intros _. apply IH.
  - intros s r s' Hp. apply node_bind_Ok in Hp as ([info|]&s1&_&Hp).
    + apply node_bind_Ok in Hp as (?&s2&_&Hp). apply IH in Hp.
      eapply extends_trans; [apply mark_pruned_files|exact Hp].
    + injection Hp as <- _. apply extends_refl.
Qed.
Lemma keeps_prune_kind fails kind h : keeps (prune_flatfiles_kind fails kind h).
Proof.
  unfold prune_flatfiles_kind. apply keeps_bind; [by apply keeps_store|]. intros first. cbv zeta.
  apply keeps_bind; [by apply keeps_store|]. intros fuel s. unfold mbind, node_bind at 1.
  destruct (prune_loop_keeps fuel fails kind h (default 0 first) []) as [Hk Hq]. specialize (Hk s).
  destruct (prune_loop _ _ _ _ _ _ s) as [[[last b]|e|] s1] eqn:E; [|by apply Hk..]. apply Hq in E.
  assert (keeps (if last =? default 0 first then mret tt
     else _ ← write_batch (batch_put b Meta (pruned_key kind) (le_bytes 4 last));
          changes (fun s => set_file_meta (track kind None (cs_file_meta s)) s))) as Hk2.
  { destruct (_ =? _); [by apply keeps_store|].
    apply keeps_bind; [apply keeps_write, extends_put; [apply file_op_pruned|done]|]. intros _. by apply keeps_store. }
  eapply same_at_trans; [exact Hk|apply Hk2].
Qed.
Lemma keeps_prune fails : keeps (prune_flatfiles options fails).
Proof.
  unfold prune_flatfiles. apply keeps_bind; [by apply keeps_store|]. intros [tip|]; [|by apply keeps_store].
  destruct (_ || _); [by apply keeps_store|].
  apply keeps_bind; [|intros _]; destruct (_ options); first [apply keeps_prune_kind|by apply keeps_store].
Qed.

Lemma keeps_shielded_cache : keeps shielded_cache.
Proof. apply keeps_store. intros s. unfold shielded_cache. destruct (cs_trees s); [done|]. by destruct (trees_load _). Qed.
Lemma keeps_update_cache a b : keeps (update_shielded_cache a b).
Proof.
  unfold update_shielded_cache. apply keeps_bind; [apply keeps_shielded_cache|]. intros trees.
  apply keeps_bind; [by apply keeps_store|]. intros sprout. cbv zeta.
  apply keeps_bind; [by apply keeps_store|]. intros _. apply keeps_bind; [by apply keeps_store|].
  intros [[tree bs]|]; by apply keeps_store.
Qed.

(** What a commit does, whatever its result: nothing, or it writes its batch
    and no more under these keys; the cache of headers takes the updates of
    the batch, unless an error comes first. *)
Definition committed (batch : WriteBatch) (s s' : ChainState S) : Prop :=
  exists store' updates, header_updates batch = Ok updates /\ kv_write_batch (cs_store s) batch = Ok store'
    /\ (forall c k, K c k -> kv_get (cs_store s') c k = kv_get store' c k)
    /\ (cs_header_cache s' = cs_header_cache s
        \/ cs_header_cache s' = foldl (fun c u => cache_insert c (fst u) (snd u)) (cs_header_cache s) updates).
Lemma commit_batch_frame fails batch (s s' : ChainState S) r :
  commit_batch options fails batch s = (r, s') -> committed batch s s' \/ s' = s /\ forall u, r <> Ok u.
Proof.
  unfold commit_batch, mbind at 1, node_bind at 1, BlockConnect.lift.
  destruct (header_updates batch) as [updates|e|] eqn:Eu; [|intros [= <- <-]; by right..].
  unfold mbind at 1, node_bind at 1, write_batch.
  destruct (kv_write_batch (cs_store s) batch) as [store'|e|] eqn:Ew; [|intros [= <- <-]; by right..].
  intros Hc. left. exists store', updates. split; [done|split; [done|]].
  unfold mbind at 1, node_bind at 1 in Hc.
  match type of Hc with (let '(_, _) := ?p ?s0 in _) = _ => assert (keeps p) as Hk;
    [|specialize (Hk s0); destruct (p s0) as [[[]|e|] s1] eqn:E1] end.
  { match goal with |- keeps (if ?c then _ else _) => destruct c end; [apply keeps_update_cache|by apply keeps_store]. }
  2,3: injection Hc as <- <-; destruct Hk as [Hk Ek]; by split; [exact Hk|left].
  match type of Hc with (_ ≫= ?f) _ = _ => change (f tt (set_header_cache
    (foldl (fun c u => cache_insert c (fst u) (snd u)) (cs_header_cache s1) updates) s1) = (r, s')) in Hc end.
  cbv beta in Hc. match type of Hc with ?p ?s0 = _ => assert (keeps p) as Hk2; [|specialize (Hk2 s0); rewrite Hc in Hk2] end.
  { apply keeps_bind; [by apply keeps_store|]. intros _. apply keeps_bind.
    { apply keeps_store. intros s2. by destruct (commit_payments _ _). }
    intros _. match goal with |- keeps (if ?c then _ else _) => destruct c end; [apply keeps_ignore, keeps_prune|by apply keeps_store]. }
  destruct Hk as [Hk Ek], Hk2 as [Hk2 Ek2]. cbn [snd cs_store cs_header_cache set_header_cache set_store] in *.
  split; [intros c k Hck; by rewrite Hk2, Hk|right]. by rewrite Ek2, Ek.
Qed.
End commit.

Section commit_utxos.
  Context {H : Hashes} {T : ShieldedTrees} {S : Type} `{KVL : KeyValueStoreLaws S}.
  Context (options : ChainStateOptions).

(** A commit writes its batch, and nothing else to the outputs. *)
Lemma commit_batch_utxos fails batch (s s' : ChainState S) :
  commit_batch options fails batch s = (Ok tt, s') ->
  exists store', kv_write_batch (cs_store s) batch = Ok store'
    /\ forall k, kv_get (cs_store s') Utxo k = kv_get store' Utxo k.
Proof.
  intros Hc. apply (commit_batch_frame options (fun c _ => c = Utxo)) in Hc as [(store'&updates&_&Hw&Hk&_)|[_ Hn]].
  - exists store'. split; [done|]. intros k. by apply Hk.
  - by destruct (Hn tt).
  - intros op Hop. by apply file_op_off_utxo.
Qed.

Lemma represents_reads (s1 s2 : S) m :
  (forall k, kv_get s2 Utxo k = kv_get s1 Utxo k) -> utxo_represents s1 m -> utxo_represents s2 m.
Proof. intros Hg Hm o Ho. unfold utxo_get. rewrite Hg. by apply Hm. Qed.
End commit_utxos.

(** ** The refinement *)
Section refinement.
  Context {H : Hashes} {B : Blake2b} {U : U256Ops} {S256 : Secp} {R : Recovery} {SC : ShieldedCrypto}.
  Context {T : ShieldedTrees} {S : Type} `{KVL : KeyValueStoreLaws S}.
  Context (params : ChainParams) (options : ChainStateOptions).

(** What a block must satisfy besides being connected: its ids are hashes, and
    no stored output has the id of one of its transactions. *)
Definition fresh_ids (m : UtxoMap) (txids : list Hash256) : Prop :=
  Forall (array 32) txids /\ forall o, hash o ∈ txids -> m !! o = None.

Lemma connected_ledger env input (s s' s'' : ChainState S) batch txids (m : UtxoMap) fails :
  connect_block params options env input s = (Ok batch, s') ->
  commit_batch options fails batch s' = (Ok tt, s'') ->
  block_txids params (bi_block input) (bi_height input) (bi_flags input) (bi_prevalidated input) (bi_txids input)
    = Ok txids ->
  utxo_represents (cs_store s) m -> Forall tx_wf (transactions (bi_block input)) -> fresh_ids m txids ->
  exists m' undo, ledger_block (bi_height input) m (transactions (bi_block input)) txids = Some m'
    /\ utxo_represents (cs_store s'') m'
    /\ undo_spent undo = block_spent (bi_height input) m (transactions (bi_block input)) txids
    /\ undo_saved (be_undo_fault env) undo (header_hash (header (bi_block input))) s s' batch.
Proof.
  intros Hc Hcommit Htx Hm Hwf [Hids Hfresh]. apply connect_block_parts in Hc
    as (stats&pools&txids'&b0&b1&b2&trees&acc&extra&[Htx' _ _ Hb0 Htxs _ _ Hmid Htot He]&Es&Hundo).
  assert (txids' = txids) as -> by congruence.
  eapply tracks_txs in Htxs as (m'&Hl&Htr&Hsp); [|done..|intros id k Hid; by apply Hfresh].
  exists m', (block_undo_of trees acc extra). split; [done|].
  assert (quiet (put_all_created options (ua_batch (ba_utxo acc)) (ua_created (ba_utxo acc))) batch) as Hq.
  { eapply extends_trans; [exact Hmid|]. eapply extends_trans; [by eapply finish_totals_frame|].
    by apply (extends_mono file_op _ _ _ file_op_off_utxo). }
  apply commit_batch_utxos in Hcommit as (store'&Hw&Hg). rewrite Es in Hw.
  eapply tracks_commit in Hq as (store2&Hw2&Hr); [|done|exact Htr]. assert (store2 = store') as -> by congruence.
  split; [by eapply represents_reads|done].
Qed.

(** C1: connecting a block refines the abstract ledger.  Let the store hold
    the unspent outputs [m] and let [connect_block] accept a block of
    well-formed transactions with new ids.  Then the abstract ledger, which
    removes one output per input in the order of the block and fails when an
    input names an output that is not there, accepts the block too: no input
    is missing and none is spent twice, also between transactions of the
    block.  Once the returned batch is committed the store holds exactly the
    outputs the ledger ends with, and the undo data that was appended to the
    undo files, where the batch says, lists the spent outputs in order. *)
Theorem connect_block_refines_ledger env input (s s' s'' : ChainState S) batch txids (m : UtxoMap) fails :
  connect_block params options env input s = (Ok batch, s') ->
  commit_batch options fails batch s' = (Ok tt, s'') ->
  block_txids params (bi_block input) (bi_height input) (bi_flags input) (bi_prevalidated input) (bi_txids input)
    = Ok txids ->
  utxo_represents (cs_store s) m -> Forall tx_wf (transactions (bi_block input)) -> fresh_ids m txids ->
  exists m' undo, ledger_block (bi_height input) m (transactions (bi_block input)) txids = Some m'
    /\ utxo_represents (cs_store s'') m'
    /\ undo_spent undo = block_spent (bi_height input) m (transactions (bi_block input)) txids
    /\ undo_saved (be_undo_fault env) undo (header_hash (header (bi_block input))) s s' batch.
Proof. apply connected_ledger. Qed.
End refinement.
