(* ===== verification/Disconnect.v ===== *)
(** * Disconnecting a block

    [disconnect_block] walks the block backwards with the outputs its undo
    data remembers.  On the abstract ledger of [UtxoLedger] that is the
    inverse of connecting: the outputs of the block go, those it spent come
    back. *)

From S2P Require Import Prelude Consensus Rewards Encoding Hashing Address Transaction Block Difficulty Sighash.
From S2P Require Import Script Equihash Pow Pon Storage Fluxnode Utxo FlatFiles Indexes ChainIndex Shielded.
From S2P Require Import Validation HeaderChain Caches Payees FluxnodeChecks Ledger BlockConnect Frames UtxoLedger.
From Stdlib Require Import ZArith Lia.
From stdpp Require Import base list option numbers strings gmap.
#[local] Open Scope Z_scope.

(** ** Batches as functions on the ledger *)
Definition batch_maps (b : WriteBatch) (m1 m2 : UtxoMap) : Prop :=
  forall o, wf o ->
    match last_write b Utxo (OutPointKey_new o) with
    | Some (Some v) => exists e, v = UtxoEntry_encode e /\ UtxoEntry_wf e /\ m2 !! o = Some e
    | Some None => m2 !! o = None
    | None => m2 !! o = m1 !! o
    end.

Lemma batch_maps_start b m : quiet [] b -> batch_maps b m m.
Proof. intros Hb o Ho. by rewrite (quiet_last_write _ _ _ Hb). Qed.
Lemma batch_maps_quiet b b' m1 m2 : quiet b b' -> batch_maps b m1 m2 -> batch_maps b' m1 m2.
Proof. intros Hb Hm o Ho. rewrite (quiet_last_write _ _ _ Hb). by apply Hm. Qed.
Lemma batch_maps_delete b m1 m2 o : wf o -> batch_maps b m1 m2 -> batch_maps (utxo_delete b o) m1 (delete o m2).
Proof.
  intros Ho Hm p Hp. unfold utxo_delete, batch_delete. rewrite last_write_app. cbn [last_write].
  case_bool_decide as E.
  - injection E as E. apply OutPointKey_inj in E; [|done..]. subst p. apply lookup_delete_eq.
  - rewrite lookup_delete_ne by congruence. by apply Hm.
Qed.
Lemma batch_maps_put b m1 m2 o e :
  wf o -> UtxoEntry_wf e -> batch_maps b m1 m2 -> batch_maps (utxo_put b o e) m1 (<[o := e]> m2).
Proof.
  intros Ho He Hm p Hp. unfold utxo_put, batch_put. rewrite last_write_app. cbn [last_write].
  case_bool_decide as E.
  - injection E as E. apply OutPointKey_inj in E; [|done..]. subst p. exists e. by rewrite lookup_insert_eq.
  - rewrite lookup_insert_ne by congruence. by apply Hm.
Qed.
Lemma batch_maps_commit {S} `{KVL : KeyValueStoreLaws S} (s s' : S) b m1 m2 :
  utxo_represents s m1 -> batch_maps b m1 m2 -> kv_write_batch s b = Ok s' -> utxo_represents s' m2.
Proof.
  intros Hs Hb Hw o Ho. destruct (kv_commit s b) as (s2&Hw2&Hg). assert (s2 = s') as -> by congruence.
  unfold utxo_get. rewrite Hg. specialize (Hb o Ho). destruct (last_write _ _ _) as [[v|]|].
  - destruct Hb as (e&->&He&->). cbn [mbind result_bind]. by rewrite UtxoEntry_decode_encode.
  - by rewrite Hb.
  - rewrite Hb. by apply Hs.
Qed.

(** ** Outputs go, spent outputs come back *)
Section unwind.
  Context {H : Hashes} (options : ChainStateOptions) (height : Z) (m0 : UtxoMap).

Lemma quiet_address_delete' b s o : quiet b (address_delete b s o).
Proof. unfold address_delete. destruct (address_outpoint_key s o); auto with quiet. Qed.
Lemma quiet_address_insert' b s o : quiet b (address_insert b s o).
Proof. unfold address_insert. destruct (address_outpoint_key s o); auto with quiet. Qed.
Lemma quiet_delta_delete b s h i t n sp : quiet b (delta_delete b s h i t n sp).
Proof. unfold delta_delete, delta_delete_with_prefix. destruct (address_prefix s); auto with quiet. Qed.

Lemma remove_outputs_maps ti txid u u' outs m1 :
  array 32 txid ->
  try_fold (remove_output options height ti txid) u (enumerate outs) = Ok u' -> batch_maps (uw_batch u) m0 m1 ->
  batch_maps (uw_batch u') m0 (foldl (fun m (it : nat * TxOut) => delete (output_point txid (fst it)) m) m1 (enumerate outs))
  /\ uw_spent u' = uw_spent u.
Proof.
  intros Ha Hf Hm. revert Hf.
  apply (try_fold_ind _ (fun seen u' => batch_maps (uw_batch u') m0 (foldl _ m1 seen) /\ uw_spent u' = uw_spent u)); [done|].
  intros seen [k output] u1 u2 _ [Hm1 Hs1] Hr. unfold remove_output in Hr. cbv zeta in Hr.
  do 2 (apply bind_Ok in Hr as (?&_&Hr)). injection Hr as <-. cbn [uw_batch uw_spent]. split; [|done].
  rewrite foldl_app. cbn [foldl fst]. fold (output_point txid k).
  apply (batch_maps_quiet (utxo_delete (uw_batch u1) (output_point txid k)));
    [|apply batch_maps_delete; [by apply output_point_wf|done]].
  destruct (index_address options); [|auto with quiet].
  eapply extends_trans; [apply quiet_address_delete'|apply quiet_delta_delete].
Qed.

(** Removing what a transaction created. *)
Lemma delete_points_lookup txid (l : list (nat * TxOut)) (m : UtxoMap) o :
  foldl (fun m (it : nat * TxOut) => delete (output_point txid (fst it)) m) m l !! o
  = if bool_decide (o ∈ map (fun it => output_point txid (fst it)) l) then None else m !! o.
Proof.
  induction l as [|it l IH] using rev_ind; [done|]. rewrite foldl_app, map_app. cbn [foldl map].
  destruct (decide (o = output_point txid (fst it))) as [->|Hne].
  - rewrite lookup_delete_eq, bool_decide_true; [done|]. apply elem_of_app. right. apply list_elem_of_here.
  - rewrite lookup_delete_ne, IH by done. match goal with |- (if ?a then _ else _) = (if ?b then _ else _) => assert (a = b) as ->; [|done] end.
    apply bool_decide_ext. rewrite elem_of_app, list_elem_of_singleton. split; [by left|]. by intros [|].
Qed.
Lemma create_lookup i txid (l : list (nat * TxOut)) (m : UtxoMap) o :
  o ∉ map (fun it : nat * TxOut => output_point txid (fst it)) l -> foldl (create height i txid) m l !! o = m !! o.
Proof.
  induction l as [|it l IH] using rev_ind; [done|]. rewrite foldl_app, map_app, not_elem_of_app. cbn [foldl map].
  intros [Hl Hne]. unfold create at 1. rewrite lookup_insert_ne by (intros <-; apply Hne, list_elem_of_here). by apply IH.
Qed.
Lemma uncreate i txid m outs :
  (forall k, m !! output_point txid k = None) ->
  foldl (fun m (it : nat * TxOut) => delete (output_point txid (fst it)) m) (create_all height i txid m outs) (enumerate outs) = m.
Proof.
  intros Hf. apply map_eq. intros o. rewrite delete_points_lookup. case_bool_decide as E; [|by apply create_lookup].
  apply list_elem_of_In, in_map_iff in E as (it&<-&_). by rewrite Hf.
Qed.

Lemma restore_inputs_maps ti txid n ins u u' m1 m2 rest :
  Forall TxIn_wf ins -> map_Forall (fun _ e => UtxoEntry_wf e) m1 -> spend_all m1 ins = Some m2 ->
  uw_spent u = rev (spent_all m1 ins) ++ rest -> batch_maps (uw_batch u) m0 m2 ->
  try_fold (restore_input options height ti txid) u (rev (enumerate_from n ins)) = Ok u' ->
  batch_maps (uw_batch u') m0 m1 /\ uw_spent u' = rest.
Proof.
  revert n m1 rest u'. induction ins as [|x l IH]; intros n m1 rest u' Hwf Hent Hs Hu Hm Hf.
  { injection Hs as ->. injection Hf as <-. done. }
  apply Forall_cons in Hwf as [Hx Hwf]. cbn [spend_all spent_all] in *. unfold spend in Hs.
  destruct (m1 !! prevout x) as [e|] eqn:Ex; [|done]. cbn [mbind option_bind] in Hs.
  cbn [enumerate_from rev] in Hf. rewrite try_fold_app in Hf. apply bind_Ok in Hf as (u1&Hf&Hr).
  cbn [rev] in Hu. rewrite <- app_assoc in Hu. eapply IH in Hf as [Hm1 Hu1]; [|done| |exact Hs|exact Hu|done].
  2: { by apply map_Forall_delete. }
  cbn [try_fold] in Hr. apply bind_Ok in Hr as (u2&Hr&[= <-]). unfold restore_input in Hr. rewrite Hu1 in Hr. simpl in Hr.
  destruct (negb _); [done|]. do 2 (apply bind_Ok in Hr as (?&_&Hr)). injection Hr as <-.
  cbn [uw_batch uw_spent]. split; [|done].
  rewrite <- (insert_delete_id m1 (prevout x) e Ex).
  match goal with |- batch_maps (if _ then address_insert ?b _ _ else _) _ _ => apply (batch_maps_quiet b) end.
  { destruct (index_address options); [apply quiet_address_insert'|apply extends_refl]. }
  apply batch_maps_put; [apply Hx|by apply (Hent (prevout x))|].
  eapply batch_maps_quiet; [|exact Hm1].
  destruct (index_address options); [eapply extends_trans; [|apply quiet_delta_delete]|];
    destruct (index_spent options); unfold spentindex_delete; auto with quiet.
Qed.

(** What the ledger after a part of a block can hold. *)
Definition ledger_within (m m1 : UtxoMap) (ids : list Hash256) : Prop :=
  map_Forall (fun _ e => UtxoEntry_wf e) m1
  /\ forall o e, m1 !! o = Some e -> m !! o = Some e \/ hash o ∈ ids.

Lemma spend_all_within m m1 m2 ids ins :
  spend_all m1 ins = Some m2 -> ledger_within m m1 ids -> ledger_within m m2 ids.
Proof.
  revert m1. induction ins as [|x l IH]; intros m1 Hs Hw; [by injection Hs as <-|]. cbn [spend_all] in Hs.
  unfold spend in Hs. destruct (m1 !! prevout x) as [e|]; [|done]. simpl in Hs. apply (IH _ Hs).
  destruct Hw as [Hent Hdom]. split; [by apply map_Forall_delete|].
  intros o e' [_ Ho]%lookup_delete_Some. by eapply Hdom.
Qed.
Lemma create_all_within i txid m m1 ids outs :
  Forall TxOut_wf outs -> ledger_within m m1 ids -> ledger_within m (create_all height i txid m1 outs) (ids ++ [txid]).
Proof.
  intros Hwf [Hent Hdom]. unfold create_all.
  assert (forall l : list (nat * TxOut), Forall (fun it => TxOut_wf (snd it)) l ->
    ledger_within m (foldl (create height i txid) m1 l) (ids ++ [txid])) as Hl.
  { induction l as [|it l IH] using rev_ind; intros Hf.
    - split; [done|]. intros o e Ho. apply Hdom in Ho as [?|?]; [by left|]. right. apply elem_of_app. by left.
    - apply Forall_app in Hf as [Hf [[Hv Hsp] _]%Forall_cons]. rewrite foldl_app. cbn [foldl].
      destruct (IH Hf) as [He Hd]. unfold create at 1. split.
      + apply map_Forall_insert_2; [|done]. split; [done|split; [done|apply wrap_u32_range]].
      + intros o e [[<- _]|[_ Ho]]%lookup_insert_Some; [|by eapply Hd].
        right. apply elem_of_app. right. apply list_elem_of_here. }
  apply Hl, Forall_forall. intros [k o] Hin. apply elem_of_enumerate_from in Hin as [_ Hin].
  rewrite Forall_forall in Hwf. by apply Hwf, (list_elem_of_lookup_2 _ _ _ Hin).
Qed.

(** An item of the block, with what its transaction must satisfy. *)
Definition item_ok (item : nat * (Transaction * Hash256)) : Prop :=
  tx_wf (fst (snd item)) /\ array 32 (snd (snd item)) /\ txid (fst (snd item)) = Ok (snd (snd item)).
Definition item_id (item : nat * (Transaction * Hash256)) : Hash256 := snd (snd item).

Lemma ledger_txs_within m m1 items :
  ledger_txs height m items = Some m1 -> Forall item_ok items -> map_Forall (fun _ e => UtxoEntry_wf e) m ->
  ledger_within m m1 (map item_id items).
Proof.
  revert m1. induction items as [|[i [tx id]] l IH] using rev_ind; intros m1 Hl Hok Hent.
  { injection Hl as <-. split; [done|]. by left. }
  rewrite ledger_txs_app in Hl. apply bind_Some in Hl as (m2&Hl&Ht). apply Forall_app in Hok as [Hok [[[Hin Hout] _] _]%Forall_cons].
  cbn [ledger_txs] in Ht. apply bind_Some in Ht as (m3&Ht&[= <-]). unfold ledger_tx in Ht.
  apply bind_Some in Ht as (m4&Hs&[= <-]). rewrite map_app. apply create_all_within; [done|].
  specialize (IH _ Hl Hok Hent). destruct (i =? 0)%nat; [by injection Hs as <-|]. by eapply spend_all_within.
Qed.

Lemma restore_collateral_frame tx u u' :
  restore_collateral tx u = Ok u' -> quiet (uw_batch u) (uw_batch u') /\ uw_spent u' = uw_spent u.
Proof.
  unfold restore_collateral, restore_fluxnode. intros Hr.
  destruct (fluxnode_collateral tx); [|injection Hr as <-; split; [apply extends_refl|done]].
  destruct (uw_fluxnode u) as [|entry rest]; [done|]. destruct (negb _); [done|]. injection Hr as <-.
  cbn [uw_batch uw_spent]. split; [auto with quiet|done].
Qed.

Lemma unwind_tx_maps m1 m2 item u u' rest :
  item_ok item -> map_Forall (fun _ e => UtxoEntry_wf e) m1 -> (forall o, hash o = item_id item -> m1 !! o = None) ->
  ledger_tx height m1 item = Some m2 -> batch_maps (uw_batch u) m0 m2 -> uw_spent u = rev (tx_spent m1 item) ++ rest ->
  unwind_tx options height u (fst item, fst (snd item)) = Ok u' ->
  batch_maps (uw_batch u') m0 m1 /\ uw_spent u' = rest.
Proof.
  destruct item as [i [tx id]]. intros ([Hin Hout]&Ha&Hid) Hent Hfresh Hl Hm Hu Hw.
  unfold item_id, tx_spent in *. cbn [fst snd] in *. unfold ledger_tx in Hl. apply bind_Some in Hl as (m3&Hs&[= <-]).
  unfold unwind_tx in Hw. rewrite Hid in Hw. cbn [map_err mbind result_bind] in Hw. cbv zeta in Hw.
  apply bind_Ok in Hw as (u1&Hr&Hw). eapply remove_outputs_maps in Hr as [Hm1 Hu1]; [|done|exact Hm].
  rewrite uncreate in Hm1.
  2: { intros k. assert (ledger_within m1 m1 []) as Hw1 by (split; [done|by left]).
       destruct (i =? 0)%nat; [injection Hs as <-|eapply spend_all_within in Hw1; [|exact Hs]].
       - by apply Hfresh.
       - destruct (m3 !! output_point id k) as [e|] eqn:Ek; [|done]. apply Hw1 in Ek as [Ek|Ek%elem_of_nil]; [|done].
         by rewrite Hfresh in Ek. }
  set (u2 := if index_tx options then _ else u1) in Hw.
  assert (batch_maps (uw_batch u2) m0 m3 /\ uw_spent u2 = uw_spent u1) as [Hm2 Hu2].
  { subst u2. destruct (index_tx options); [|done]. split; [|done]. eapply batch_maps_quiet; [|exact Hm1].
    cbn [uw_batch set_uw_batch]. unfold txindex_delete. auto with quiet. }
  apply bind_Ok in Hw as (u3&Hi&Hw). apply restore_collateral_frame in Hw as [Hq ->].
  rewrite Hu1, Hu in Hu2. clear Hu Hu1.
  assert (batch_maps (uw_batch u3) m0 m1 /\ uw_spent u3 = rest) as [Hm3 Hu3]; [|split; [by eapply batch_maps_quiet|done]].
  destruct (i =? 0)%nat.
  - injection Hi as <-. injection Hs as ->. done.
  - eapply restore_inputs_maps in Hi; [exact Hi|done|done|exact Hs|exact Hu2|exact Hm2].
Qed.

Lemma unwind_items_maps m m1 items u u' :
  ledger_txs height m items = Some m1 -> Forall item_ok items -> NoDup (map item_id items) ->
  map_Forall (fun _ e => UtxoEntry_wf e) m -> (forall o, hash o ∈ map item_id items -> m !! o = None) ->
  batch_maps (uw_batch u) m0 m1 -> uw_spent u = rev (ledger_spent height m items) ->
  try_fold (unwind_tx options height) u (rev (map (fun item => (fst item, fst (snd item))) items)) = Ok u' ->
  batch_maps (uw_batch u') m0 m /\ uw_spent u' = [].
Proof.
  revert m1 u. induction items as [|item l IH] using rev_ind; intros m1 u Hl Hok Hnd Hent Hfresh Hm Hu Hf.
  { injection Hl as ->. injection Hf as <-. done. }
  rewrite ledger_txs_app in Hl. apply bind_Some in Hl as (m2&Hl&Ht). cbn [ledger_txs] in Ht.
  apply bind_Some in Ht as (m3&Ht&[= ->]). apply Forall_app in Hok as [Hok [Hitem _]%Forall_cons].
  rewrite map_app in Hnd, Hfresh. apply NoDup_app in Hnd as (Hnd&Hdisj&_).
  pose proof (ledger_txs_within m m2 l Hl Hok Hent) as [Hent2 Hdom].
  rewrite (ledger_spent_snoc _ _ _ _ m2 Hl), rev_app_distr in Hu. rewrite map_app, rev_app_distr in Hf.
  cbn [map rev app try_fold] in Hf. apply bind_Ok in Hf as (u1&Hw&Hf).
  eapply unwind_tx_maps in Hw as [Hm1 Hu1]; [|done|done| |exact Ht|exact Hm|exact Hu].
  - eapply IH; [exact Hl|done|done|done| |exact Hm1|exact Hu1|exact Hf].
    intros o Ho. apply Hfresh, elem_of_app. by left.
  - intros o Ho. destruct (m2 !! o) as [e|] eqn:Eo; [|done]. apply Hdom in Eo as [Eo|Eo].
    + rewrite Hfresh in Eo; [done|]. apply elem_of_app. right. cbn [map]. rewrite Ho. apply list_elem_of_here.
    + exfalso. apply (Hdisj _ Eo). cbn [map]. rewrite Ho. apply list_elem_of_here.
Qed.
End unwind.

(** ** The block *)
Lemma enumerate_combine {A C} n (l1 : list A) (l2 : list C) :
  length l2 = length l1 ->
  enumerate_from n l1 = map (fun item => (fst item, fst (snd item))) (enumerate_from n (combine l1 l2)).
Proof.
  revert n l2. induction l1 as [|a l1 IH]; intros n [|c l2]; intros E; try done. simpl in *. f_equal. apply IH. lia.
Qed.
Lemma lookup_combine {A C} (l1 : list A) (l2 : list C) i a c :
  combine l1 l2 !! i = Some (a, c) -> l1 !! i = Some a /\ l2 !! i = Some c.
Proof. revert l2 i. induction l1 as [|x l1 IH]; intros [|y l2] [|i]; simpl; try done; [by intros [= -> ->]|apply IH]. Qed.
Lemma map_id_combine n (l1 : list Transaction) (l2 : list Hash256) :
  length l2 = length l1 -> map item_id (enumerate_from n (combine l1 l2)) = l2.
Proof. revert n l2. induction l1 as [|a l1 IH]; intros n [|c l2]; intros E; try done. simpl in *. f_equal. apply IH. lia. Qed.

Section disconnect.
  Context {H : Hashes} {T : ShieldedTrees} {S : Type} `{KVL : KeyValueStoreLaws S}.
  Context (options : ChainStateOptions).

(** A block as the files hold it: well-formed transactions with their ids,
    all different. *)
Definition block_ok (txs : list Transaction) (txids : list Hash256) : Prop :=
  Forall tx_wf txs /\ Forall2 (fun tx id => txid tx = Ok id) txs txids /\ NoDup txids.

Lemma block_items_ok txs txids :
  block_ok txs txids -> Forall (array 32) txids -> Forall item_ok (enumerate (combine txs txids)).
Proof.
  intros (Hwf&Hids&_) Ha. apply Forall_forall. intros [i [tx id]] Hin.
  apply elem_of_enumerate_from in Hin as [_ Hin].
  apply lookup_combine in Hin as [H1 H2].
  rewrite Forall_forall in Hwf. rewrite Forall_forall in Ha. rewrite Forall2_lookup in Hids.
  split; [by apply Hwf, (list_elem_of_lookup_2 _ _ _ H1)|]. split; [by apply Ha, (list_elem_of_lookup_2 _ _ _ H2)|].
  specialize (Hids (i - 0)%nat). simpl. rewrite H1, H2 in Hids. by inversion Hids.
Qed.

Lemma unwind_start_frame block undo :
  quiet [] (uw_batch (unwind_start block undo)) /\ uw_spent (unwind_start block undo) = rev (undo_spent undo).
Proof.
  split; [|done]. unfold unwind_start. cbn [uw_batch]. apply extends_foldl.
  - intros b entry. unfold restore_fluxnode. auto with quiet.
  - apply extends_foldl; [|apply extends_refl]. intros b tx. unfold remove_nullifiers, nullifier_remove.
    repeat (apply extends_foldl; intros; auto with quiet).
Qed.

Lemma clear_undo_frame (store : S) hash b b' : clear_block_index_undo store hash b = Ok b' -> extends file_op b b'.
Proof.
  unfold clear_block_index_undo. intros Hc. apply bind_Ok in Hc as ([e|]&_&Hc); inv_result; auto using extends_refl, extends_put with quiet.
Qed.
Lemma remove_timestamp_frame (store : S) hash b b' : remove_timestamp store hash b = Ok b' -> quiet b b'.
Proof. unfold remove_timestamp. intros Hc. apply bind_Ok in Hc as ([ts|]&_&[= <-]); auto with quiet. Qed.
Lemma restore_trees_frame trees undo b b' : restore_trees trees undo b = Ok b' -> quiet b b'.
Proof.
  unfold restore_trees, anchor_insert, anchor_remove. intros Hc.
  apply bind_Ok in Hc as (?&_&Hc). apply bind_Ok in Hc as (?&_&Hc). injection Hc as <-. auto 10 with quiet.
Qed.

Lemma disconnect_frame hash (s s' : ChainState S) batch entry h block undo :
  disconnect_reads hash s = Ok (entry, h, block, undo) ->
  disconnect_block options hash s = (Ok batch, s') ->
  cs_store s' = cs_store s /\ exists u, unwind_txs options h block undo = Ok u /\ quiet (uw_batch u) batch.
Proof.
  intros Hr Hd. unfold disconnect_block in Hd. apply node_bind_Ok in Hd as (found&s1&Hf&Hd).
  apply reads_Ok in Hf as [Hf ->]. assert (found = (entry, h, block, undo)) as -> by congruence.
  inv_node. match goal with Hi : shielded_cache _ = _ |- _ => apply shielded_cache_frame in Hi as [Es _] end.
  split; [done|]. eexists. split; [eassumption|].
  repeat (apply extends_put; [done|]).
  eapply extends_trans; [|eapply (extends_mono file_op _ _ _ file_op_off_utxo), clear_undo_frame; eassumption].
  apply extends_delete; [done|]. unfold set_best_block, clear_height_hash. apply extends_put; [done|].
  apply extends_delete; [done|].
  match goal with Hi : remove_timestamp _ _ _ = Ok _, Ht : restore_trees _ _ _ = Ok _ |- _ =>
    apply remove_timestamp_frame in Hi; apply restore_trees_frame in Ht end.
  by eapply extends_trans.
Qed.

(** C3: disconnecting the tip undoes it.  Let the store hold the outputs
    the ledger ends with after a block on [m], and let the undo data of the
    block list what it spent, as [connect_block] leaves both.  When
    [disconnect_block] finds that block and that undo data and its batch is
    committed, the store holds exactly the outputs [m] it held before the
    block. *)
Theorem disconnect_block_restores_outputs hash (s s' s'' : ChainState S) batch entry height block undo txids m m' fails :
  disconnect_reads hash s = Ok (entry, height, block, undo) ->
  block_ok (transactions block) txids -> fresh_ids m txids -> map_Forall (fun _ e => UtxoEntry_wf e) m ->
  ledger_block height m (transactions block) txids = Some m' -> utxo_represents (cs_store s) m' ->
  undo_spent undo = block_spent height m (transactions block) txids ->
  disconnect_block options hash s = (Ok batch, s') -> commit_batch options fails batch s' = (Ok tt, s'') ->
  utxo_represents (cs_store s'') m.
Proof.
  intros Hr Hok [Ha Hfresh] Hent Hl Hm' Hundo Hd Hc.
  eapply disconnect_frame in Hd as [Es (u&Hu&Hq)]; [|exact Hr].
  apply commit_batch_utxos in Hc as (store'&Hw&Hg). rewrite Es in Hw.
  assert (length txids = length (transactions block)) as Hlen by (symmetry; eapply Forall2_length, Hok).
  unfold unwind_txs in Hu. apply bind_Ok in Hu as (u1&Hf&Hu).
  assert (u1 = u) as -> by (destruct (negb _); [done|]; destruct (negb _); [done|]; by injection Hu).
  destruct (unwind_start_frame block undo) as [Hq0 Hsp0].
  unfold enumerate in Hf. rewrite (enumerate_combine 0 _ txids Hlen) in Hf.
  eapply (unwind_items_maps options height m' m m') in Hf as [Hmaps _]; [|exact Hl| | |done| | |].
  - eapply represents_reads; [exact Hg|]. eapply batch_maps_commit; [exact Hm'| |exact Hw].
    by eapply batch_maps_quiet.
  - by apply block_items_ok.
  - unfold enumerate. rewrite map_id_combine by done. apply Hok.
  - unfold enumerate. intros o. rewrite map_id_combine by done. apply Hfresh.
  - by apply batch_maps_start.
  - by rewrite Hsp0, Hundo.
Qed.
End disconnect.
