(* ===== verification/SampleBlock.v ===== *)
(** * A block connected and disconnected

    A small chain on toy cryptography: its third block spends a stored output,
    spends one of its own outputs again, and is connected, committed,
    disconnected and committed.  The theorems on connecting and disconnecting
    are applied to it. *)

From S2P Require Import Prelude Consensus Rewards Encoding Hashing Address Transaction Block Difficulty Sighash.
From S2P Require Import Script Equihash Pow Pon Storage Fluxnode Utxo FlatFiles Indexes ChainIndex Shielded.
From S2P Require Import Validation HeaderChain Caches Payees FluxnodeChecks Ledger BlockConnect Frames Failures Supply UtxoLedger Disconnect.
From Stdlib Require Import ZArith Lia.
From stdpp Require Import base list option numbers strings gmap.
#[local] Open Scope Z_scope.

(** ** Toy trees: lists of commitments *)
Fixpoint hashes_of (fuel : nat) (bs : bytes) : list Hash256 :=
  match fuel, bs with
  | Datatypes.S fuel, _ :: _ => take 32 bs :: hashes_of fuel (drop 32 bs)
  | _, _ => []
  end.
#[global] Instance toy_trees : ShieldedTrees := {|
  SproutTree := list Hash256; SaplingTree := list Hash256; SaplingNode := Hash256;
  empty_sprout_tree := []; empty_sapling_tree := [];
  sprout_append h t := Some (t ++ [h]); sapling_append h t := Some (t ++ [h]);
  sapling_node_from_hash h := Some h;
  sprout_root_hash t := toy_digest 32 (concat t); sapling_root_hash t := toy_digest 32 (1 :: concat t);
  sprout_empty_root_hash := toy_digest 32 []; sapling_empty_root_hash := toy_digest 32 [1];
  sprout_tree_to_bytes t := Some (concat t); sprout_tree_from_bytes bs := Some (hashes_of (length bs) bs);
  sapling_tree_to_bytes t := Some (concat t); sapling_tree_from_bytes bs := Some (hashes_of (length bs) bs) |}.

(** ** The chain before the block *)
Definition block_header (prev : Hash256) (seconds : Z) : BlockHeader :=
  mkBlockHeader 4 prev (zeros 32) (zeros 32) seconds (target_to_compact (pow_limit mainnet_consensus_params))
    (zeros 32) (zeros 100) OutPoint_null [].
Definition header_2 : BlockHeader := block_header (replicate 32 2) 1500000000.
Definition header_3 : BlockHeader := block_header (header_hash header_2) 1500000120.
Definition sample_entry (hd : BlockHeader) (height : Z) : HeaderEntry :=
  mkHeaderEntry (prev_block hd) (zeros 32) height (time hd) (bits hd) (be_bytes 32 height) (status_with_header 0).

Definition coin : OutPoint := mkOutPoint (replicate 32 9) 0.
Definition anyone : bytes := [81].
Definition coin_entry : UtxoEntry := mkUtxoEntry 5000 anyone 1 false.
Definition start_batch : WriteBatch :=
  let b := put_header [] (header_hash header_2) (sample_entry header_2 2) in
  let b := put_header b (header_hash header_3) (sample_entry header_3 3) in
  let b := set_best_header b (header_hash header_3) in
  let b := set_height_hash (set_best_block b (header_hash header_2)) 2 (header_hash header_2) in
  utxo_put (batch_put b Meta VALUE_POOLS_KEY (ValuePools_encode (mkValuePools 0 0))) coin coin_entry.
Definition start_state : ChainState MemoryStore :=
  mkChainState (commit_to memory_new start_batch) (header_cache_new 10) payments_new None
    (mkFlatFileStore (mkFlatFileState 0 0) ∅ 100000) (mkFlatFileStore (mkFlatFileState 0 0) ∅ 100000)
    (mkFileMeta None None).

(** ** The block *)
Definition plain_tx (input : TxIn) (outputs : list TxOut) : Transaction :=
  mkTransaction false 1 0 [input] outputs 0 0 0 [] [] [] (zeros 32) (zeros 64) (zeros 64) None.
Definition coinbase_3 : Transaction := plain_tx (mkTxIn OutPoint_null [1; 3] 4294967295) [mkTxOut 1000 anyone].
Definition spend_1 : Transaction :=
  plain_tx (mkTxIn coin [] 4294967295) [mkTxOut 3000 anyone; mkTxOut 1500 anyone].
Definition id_of (tx : Transaction) : Hash256 := match txid tx with Ok id => id | _ => [] end.
Definition spend_2 : Transaction :=
  plain_tx (mkTxIn (mkOutPoint (id_of spend_1) 0) [] 4294967295) [mkTxOut 2500 anyone].
Definition block_3 : Block := mkBlock header_3 [coinbase_3; spend_1; spend_2].
Definition block_ids : list Hash256 := [id_of coinbase_3; id_of spend_1; id_of spend_2].
Definition sample_env : BlockEnv := mkBlockEnv 1600000000 None None.
Definition sample_input : BlockInput :=
  mkBlockInput block_3 3 (mkFlags true true true true None) true None None None.

Definition connected_3 : result ChainStateError WriteBatch * ChainState MemoryStore :=
  connect_block sample_params options_full sample_env sample_input start_state.
Definition batch_of (r : result ChainStateError WriteBatch) : WriteBatch := match r with Ok b => b | _ => [] end.
Definition no_removal (kind : FlatFileKind) (id : Z) : bool := false.
Definition committed_3 : result ChainStateError unit * ChainState MemoryStore :=
  commit_batch options_full no_removal (batch_of (fst connected_3)) (snd connected_3).
Definition disconnected_3 : result ChainStateError WriteBatch * ChainState MemoryStore :=
  disconnect_block options_full (header_hash header_3) (snd committed_3).
Definition rolled_back : result ChainStateError unit * ChainState MemoryStore :=
  commit_batch options_full no_removal (batch_of (fst disconnected_3)) (snd disconnected_3).

(** The whole trip goes through, and the outputs are back. *)
Lemma ok_pair {A} (p : result ChainStateError A * ChainState MemoryStore) (a : A) : fst p = Ok a -> p = (Ok a, snd p).
Proof. destruct p. by intros [= ->]. Qed.
Lemma connected_3_Ok : connected_3 = (Ok (batch_of (fst connected_3)), snd connected_3).
Proof. apply ok_pair. vm_compute. reflexivity. Qed.
Lemma committed_3_Ok : committed_3 = (Ok tt, snd committed_3).
Proof. apply ok_pair. vm_compute. reflexivity. Qed.
Lemma disconnected_3_Ok : disconnected_3 = (Ok (batch_of (fst disconnected_3)), snd disconnected_3).
Proof. apply ok_pair. vm_compute. reflexivity. Qed.
Lemma rolled_back_Ok : rolled_back = (Ok tt, snd rolled_back).
Proof. apply ok_pair. vm_compute. reflexivity. Qed.

Example outputs_after :
  utxo_get (cs_store (snd committed_3)) coin = Ok None
  /\ utxo_get (cs_store (snd committed_3)) (mkOutPoint (id_of spend_1) 0) = Ok None
  /\ utxo_get (cs_store (snd committed_3)) (mkOutPoint (id_of spend_2) 0) = Ok (Some (mkUtxoEntry 2500 anyone 3 false))
  /\ utxo_get (cs_store (snd rolled_back)) coin = Ok (Some coin_entry).
Proof. vm_compute. auto. Qed.

Definition coins : UtxoMap := {[coin := coin_entry]}.
Lemma commit_to_write s b : kv_write_batch s b = Ok (commit_to s b).
Proof. done. Qed.
Lemma start_outputs : utxo_represents (cs_store start_state) coins.
Proof.
  refine (batch_maps_commit memory_new _ start_batch ∅ coins _ _ (commit_to_write _ _)); [done|].
  unfold start_batch. apply batch_maps_put; [by_decide|by_decide|]. apply batch_maps_start.
  unfold put_header, set_best_header, set_height_hash, set_best_block. auto 10 with quiet.
Qed.
Lemma txs_wf : Forall tx_wf (transactions block_3).
Proof. unfold tx_wf. by_decide. Qed.
Lemma ids_fresh : fresh_ids coins block_ids.
Proof.
  split; [by_decide|]. intros o Ho. apply lookup_singleton_None. intros <-. revert Ho.
  apply (bool_decide_unpack (hash coin ∉ block_ids)). vm_compute. exact I.
Qed.

Lemma connect_block_bounds_supply_witness :
  exists stats pools stats' pools' subsidy,
    utxo_stats_or_compute (cs_store start_state) = Ok stats /\ value_pools_or_compute start_state = Ok pools
    /\ last_write (batch_of (fst connected_3)) Meta UTXO_STATS_KEY = Some (Some (UtxoStats_encode stats'))
    /\ last_write (batch_of (fst connected_3)) Meta VALUE_POOLS_KEY = Some (Some (ValuePools_encode pools'))
    /\ block_subsidy 3 (consensus sample_params) = Ok (E:=ChainStateError) subsidy
    /\ supply stats' pools' <= supply stats pools + issuance sample_params 3 subsidy
    /\ 0 <= sprout_pool pools' /\ 0 <= sapling_pool pools'.
Proof.
  apply (connect_block_bounds_supply sample_params options_full sample_env sample_input start_state
           (snd connected_3) (batch_of (fst connected_3))); [exact connected_3_Ok|done|repeat constructor; by_decide].
Defined.

Lemma connect_block_refines_ledger_witness :
  exists m' undo, ledger_block 3 coins (transactions block_3) block_ids = Some m'
    /\ utxo_represents (cs_store (snd committed_3)) m'
    /\ undo_spent undo = block_spent 3 coins (transactions block_3) block_ids
    /\ undo_saved None undo (header_hash header_3) start_state (snd connected_3) (batch_of (fst connected_3)).
Proof.
  apply (connect_block_refines_ledger sample_params options_full sample_env sample_input start_state
           (snd connected_3) (snd committed_3) (batch_of (fst connected_3)) block_ids coins no_removal);
    [exact connected_3_Ok|exact committed_3_Ok|vm_compute; reflexivity|exact start_outputs|exact txs_wf|exact ids_fresh].
Defined.

Definition coins_after : UtxoMap := default ∅ (ledger_block 3 coins (transactions block_3) block_ids).
Lemma ledger_defined h m txs ids :
  is_some (ledger_block h m txs ids) = true -> ledger_block h m txs ids = Some (default ∅ (ledger_block h m txs ids)).
Proof. by destruct (ledger_block h m txs ids). Qed.
Lemma represents_default (s : MemoryStore) (r : option UtxoMap) m' :
  r = Some m' -> utxo_represents s m' -> utxo_represents s (default ∅ r).
Proof. by intros ->. Qed.
Definition found_3 : result ChainStateError (HeaderEntry * Z * Block * BlockUndo) :=
  disconnect_reads (header_hash header_3) (snd committed_3).
Definition entry_3 : HeaderEntry :=
  mkHeaderEntry (header_hash header_2) (zeros 32) 3 1500000120 (bits header_3) (be_bytes 32 3) 3.
Definition undo_3 : BlockUndo :=
  mkBlockUndo [] [] [mkSpentOutput coin coin_entry;
                     mkSpentOutput (mkOutPoint (id_of spend_1) 0) (mkUtxoEntry 3000 anyone 3 false)] [] [].
Lemma ledger_3 : ledger_block 3 coins (transactions block_3) block_ids = Some coins_after.
Proof. apply (ledger_defined 3 coins (transactions block_3) block_ids). vm_compute. reflexivity. Qed.
Lemma committed_outputs : utxo_represents (cs_store (snd committed_3)) coins_after.
Proof.
  destruct (connected_ledger sample_params options_full sample_env sample_input start_state
              (snd connected_3) (snd committed_3) (batch_of (fst connected_3)) block_ids coins no_removal)
    as (m'&undo&Hl&Hm&_);
    [exact connected_3_Ok|exact committed_3_Ok|vm_compute; reflexivity|exact start_outputs|exact txs_wf|exact ids_fresh|].
  unfold coins_after. eapply represents_default; [exact Hl|exact Hm].
Qed.

Lemma disconnect_block_restores_outputs_witness : utxo_represents (cs_store (snd rolled_back)) coins.
Proof.
  apply (disconnect_block_restores_outputs options_full (header_hash header_3) (snd committed_3) (snd disconnected_3)
           (snd rolled_back) (batch_of (fst disconnected_3)) entry_3 3 block_3 undo_3 block_ids coins coins_after no_removal);
    [vm_compute; reflexivity|split; [exact txs_wf|split; [repeat constructor; vm_compute; reflexivity|by_decide]]
    |exact ids_fresh|by apply map_Forall_singleton; by_decide|exact ledger_3|exact committed_outputs|vm_compute; reflexivity
    |exact disconnected_3_Ok|exact rolled_back_Ok].
Defined.

(** A block that is not the tip is not disconnected. *)
Definition refused : result ChainStateError unit * ChainState MemoryStore :=
  (disconnect_block options_full (zeros 32) ≫= commit_batch options_full no_removal) start_state.
Lemma err_pair {A} (r : result ChainStateError A * ChainState MemoryStore) e : fst r = Err e -> r = (Err e, snd r).
Proof. destruct r. by intros [= ->]. Qed.
