(* ===== verification/BlockHeaders.v ===== *)
(** * Blocks leave the headers alone

    Connecting a block enters its header and then restates it with another
    status; everything else a block writes, connected or disconnected, is on
    other columns than the headers'.  So the histories of [HeaderHistory] go on
    through the blocks of the node: what they promise of the stored headers
    holds while blocks come and go. *)

From S2P Require Import Prelude Consensus Rewards Encoding Hashing Address Transaction Block Difficulty Sighash.
From S2P Require Import Script Equihash Pow Pon Storage Fluxnode Utxo FlatFiles Indexes ChainIndex Shielded.
From S2P Require Import Validation HeaderChain HeaderTree HeaderHistory Caches Payees FluxnodeChecks Ledger BlockConnect Frames UtxoLedger Disconnect.
From Stdlib Require Import ZArith Lia.
From stdpp Require Import base list option numbers strings gmap relations.
#[local] Open Scope Z_scope.

(** ** Operations off the headers *)
Definition header_key (c : Column) (k : bytes) : Prop := c = HeaderIndex \/ c = Meta /\ k = META_BEST_HEADER_KEY.
#[global] Instance header_key_dec c k : Decision (header_key c k).
Proof. unfold header_key. apply _. Defined.
Definition off_headers (op : WriteOp) : Prop := ~ header_key (op_column op) (op_key op).
Abbreviation plain := (extends off_headers).

Lemma off_headers_column op : op_column op <> HeaderIndex -> op_column op <> Meta -> off_headers op.
Proof. by intros H1 H2 [?|[? _]]. Qed.
Lemma off_headers_meta op : op_column op = Meta -> op_key op <> META_BEST_HEADER_KEY -> off_headers op.
Proof. intros H1 H2 [H3|[_ ?]]; [|done]. by rewrite H1 in H3. Qed.
Lemma file_op_off_headers op : file_op op -> off_headers op.
Proof.
  unfold file_op. intros [E|[E|[E Hk]]]; [apply off_headers_column; by rewrite E..|].
  apply off_headers_meta; [done|]. intros E'. rewrite E' in Hk. by vm_compute in Hk.
Qed.
Lemma plain_files b b' : extends file_op b b' -> plain b b'.
Proof. apply extends_mono, file_op_off_headers. Qed.
Lemma plain_last_write b b' c k : plain b b' -> header_key c k -> last_write b' c k = last_write b c k.
Proof. intros Hb Hk. eapply extends_last_write; [exact Hb|]. intros op Hop <- <-. by apply Hop. Qed.

(** The operations at hand are on a column of their own, or under another key. *)
Ltac off_tac := first [by apply off_headers_column | apply off_headers_meta; [done|by_decide]].
Ltac plain_tac :=
  repeat match goal with
  | |- plain ?b ?b => apply extends_refl
  | |- plain _ (batch_put _ _ _ _) => apply extends_put; [off_tac|]
  | |- plain _ (batch_delete _ _ _) => apply extends_delete; [off_tac|]
  | |- plain _ (foldl _ _ _) => apply extends_foldl; [intros|]
  | |- plain _ (match ?x with _ => _ end) => destruct x
  | H : plain _ ?b |- plain _ ?b => exact H
  | H : plain ?b ?b' |- plain _ ?b' => eapply extends_trans; [|exact H]
  end.

(** ** Connecting *)
Section connecting.
  Context {H : Hashes} {B : Blake2b} {U : U256Ops} {S256 : Secp} {R : Recovery} {SC : ShieldedCrypto}.
  Context {T : ShieldedTrees} {S : Type} {KV : KeyValueStore S}.
  Context (params : ChainParams) (options : ChainStateOptions).

Lemma plain_fluxnode_start b c pk cpk redeem d h meta : plain b (store_fluxnode_start b c pk cpk redeem d h meta).
Proof. unfold store_fluxnode_start, store_optional_key, store_key. destruct cpk, redeem; cbv beta iota zeta; plain_tac. Qed.
Lemma plain_delegates_key (store : S) b c start k b' : delegates_key_for_start store b c start = Ok (k, b') -> plain b b'.
Proof.
  unfold delegates_key_for_start, store_key. intros Hd. apply bind_Ok in Hd as (current&_&Hd).
  destruct (delegates start) as [d|]; inv_result; subst; plain_tac.
Qed.
Lemma plain_confirm (store : S) b c h u confirm b' : update_fluxnode_confirm store b c h u confirm = Ok b' -> plain b b'.
Proof.
  unfold update_fluxnode_confirm. intros Hc. apply bind_Ok in Hc as (r&_&Hc). destruct r as [r|]; inv_result; plain_tac.
Qed.
Lemma plain_apply_fluxnode (store : S) b tx h meta b' : apply_fluxnode_tx store b tx h meta = Ok b' -> plain b b'.
Proof.
  unfold apply_fluxnode_tx. intros Ha.
  destruct (fluxnode tx) as [[[start|confirm]|[start|confirm]]|]; [| |destruct (variant start)| |];
    try (by apply plain_confirm in Ha); inv_result; auto using plain_fluxnode_start, extends_refl.
  all: match goal with a : option KeyId * WriteBatch |- _ => destruct a as [k b1] end; apply plain_delegates_key in Hm0;
       (eapply extends_trans; [exact Hm0|apply plain_fluxnode_start]).
Qed.
Lemma plain_nullifiers b tx : plain b (insert_nullifiers b tx).
Proof. unfold insert_nullifiers, nullifier_insert. plain_tac. Qed.

Context (store : S) (check : bool) (height : Z).
Lemma plain_input_ops b i txid k o e key cib : plain b (input_ops options height b i txid k o e key cib).
Proof.
  unfold input_ops, spentindex_insert, utxo_delete, address_delete_with_script_hash, delta_insert_with_prefix. cbv zeta. plain_tac.
Qed.
Lemma plain_inputs acc acc' i tx txid t :
  connect_inputs store params options check height i tx txid acc = Ok (acc', t) -> plain (ua_batch acc) (ua_batch acc').
Proof.
  unfold connect_inputs. intros Hf. change (plain (ua_batch acc) (ua_batch (acc', t).1)).
  refine (try_fold_inv _ (fun st => plain (ua_batch acc) (ua_batch st.1)) _ _ _ _ _ Hf); [apply extends_refl|].
  intros [k input] [a1 t1] [a2 t2] _ Hp Hi. unfold connect_input in Hi. case_bool_decide; [done|].
  apply bind_Ok in Hi as ([[entry key] cib]&_&Hi). do 4 (apply bind_Ok in Hi as (?&_&Hi)). cbv zeta in Hi.
  apply bind_Ok in Hi as (?&_&Hi). injection Hi as <- <-. eapply extends_trans; [exact Hp|apply plain_input_ops].
Qed.
Lemma plain_outputs acc acc' i tx txid :
  connect_outputs options height i tx txid acc = Ok acc' -> plain (ua_batch acc) (ua_batch acc').
Proof.
  unfold connect_outputs. apply (try_fold_inv _ (fun a => plain (ua_batch acc) (ua_batch a))); [apply extends_refl|].
  intros [k o] a1 a2 _ Hp Hi. unfold connect_output, delta_insert_with_prefix in Hi. inv_result.
  all: cbn [ua_batch]; plain_tac.
Qed.
Lemma plain_tx trees acc acc' item :
  connect_tx store params options trees check height acc item = Ok acc' -> plain (ua_batch (ba_utxo acc)) (ua_batch (ba_utxo acc')).
Proof.
  destruct item as [i [tx txid]]. unfold connect_tx. intros Hc.
  do 4 (apply bind_Ok in Hc as (?&_&Hc)). apply bind_Ok in Hc as ([utxo fees]&Hsp&Hc).
  apply bind_Ok in Hc as ([fluxnode batch]&Hfx&Hc). apply bind_Ok in Hc as (?&_&Hc).
  apply bind_Ok in Hc as (utxo'&Ho&Hc). injection Hc as <-. cbn [ba_utxo]. apply plain_outputs in Ho.
  eapply extends_trans; [|exact Ho]. cbn [ua_batch set_ua_batch].
  eapply extends_trans; [|apply plain_nullifiers].
  eapply extends_trans; [|unfold connect_fluxnode in Hfx; inv_result; by eapply plain_apply_fluxnode].
  unfold connect_spending in Hsp. destruct (i =? 0)%nat; [injection Hsp as <- _; apply extends_refl|].
  apply bind_Ok in Hsp as ([utxo1 total]&Hi&Hsp). inv_result. by eapply plain_inputs.
Qed.
Lemma plain_txs trees b txs txids acc :
  connect_txs store params options trees check height b txs txids = Ok acc -> plain b (ua_batch (ba_utxo acc)).
Proof.
  unfold connect_txs. apply (try_fold_inv _ (fun a => plain b (ua_batch (ba_utxo a)))); [apply extends_refl|].
  intros item a1 a2 _ Hp Hc. apply plain_tx in Hc. by eapply extends_trans.
Qed.
Lemma plain_created (b : WriteBatch) (created : gmap OutPointKey CreatedUtxo) : plain b (put_all_created options b created).
Proof.
  unfold put_all_created. apply extends_foldl; [|apply extends_refl]. intros b1 c.
  unfold put_created, utxo_put, address_insert_with_script_hash. cbv zeta. plain_tac.
Qed.
End connecting.

Section bodies.
  Context {H : Hashes} {B : Blake2b} {U : U256Ops} {S256 : Secp} {R : Recovery} {SC : ShieldedCrypto}.
  Context {T : ShieldedTrees} {S : Type} {KV : KeyValueStore S}.
  Context (params : ChainParams) (options : ChainStateOptions).

Lemma plain_paid (store : S) height b paid b' extra : mark_all_paid store height b paid = Ok (b', extra) -> plain b b'.
Proof.
  intros Hm. change (plain b (b', extra).1).
  refine (try_fold_inv _ (fun st => plain b st.1) _ _ _ _ _ Hm); [apply extends_refl|].
  intros o [b1 e1] [b2 e2] _ Hb Hp. unfold mark_paid in Hp. inv_result. simpl in *. plain_tac.
Qed.
Lemma plain_trees trees acc hd h b b' : finish_trees params trees acc hd h b = Ok b' -> plain b b'.
Proof. unfold finish_trees, anchor_insert. intros Hf. inv_result. repeat (case_match; inv_result); plain_tac. Qed.
Lemma plain_body (store : S) trees input b txids paid acc b' extra :
  connect_body params options store trees input b txids paid = Ok (acc, b', extra) -> plain b b'.
Proof.
  unfold connect_body. intros Hb. apply bind_Ok in Hb as (acc'&Htxs&Hb). cbv zeta in Hb.
  do 2 (apply bind_Ok in Hb as (?&_&Hb)). apply bind_Ok in Hb as ([b1 ex]&Hmark&Hb). apply bind_Ok in Hb as (b2&Htrees&Hb).
  injection Hb as -> -> ->. apply plain_txs in Htxs. apply plain_paid in Hmark. apply plain_trees in Htrees.
  eapply extends_trans; [exact Htxs|]. eapply extends_trans; [apply plain_created|]. by eapply extends_trans.
Qed.
Lemma plain_index (store : S) hd hash location txids b : plain b (index_block options store hd hash location txids b).
Proof. unfold index_block, txindex_insert. cbv zeta. plain_tac. Qed.
Lemma plain_totals stats pools input acc b b' : finish_totals params stats pools input acc b = Ok b' -> plain b b'.
Proof. unfold finish_totals. intros Hf. inv_result. plain_tac. Qed.

End bodies.

(** ** Steps that move neither the store nor the cache of headers *)
Section still.
  Context {H : Hashes} {B : Blake2b} {U : U256Ops} {S256 : Secp} {R : Recovery} {SC : ShieldedCrypto}.
  Context {T : ShieldedTrees} {S : Type} {KV : KeyValueStore S}.
  Context (params : ChainParams) (options : ChainStateOptions).

Definition same_chain (s s' : ChainState S) : Prop := cs_store s' = cs_store s /\ cs_header_cache s' = cs_header_cache s.
Definition still {A} (p : node (S:=S) A) : Prop := forall s, same_chain s (p s).2.
Lemma same_chain_trans s1 s2 s3 : same_chain s1 s2 -> same_chain s2 s3 -> same_chain s1 s3.
Proof. intros [??] [??]. split; congruence. Qed.
Lemma still_bind {A C} (p : node A) (f : A -> node C) : still p -> (forall a, still (f a)) -> still (p ≫= f).
Proof.
  intros Hp Hf s. specialize (Hp s). unfold mbind, node_bind. destruct (p s) as [[a|e|] s1]; [|done..].
  eapply same_chain_trans; [exact Hp|apply Hf].
Qed.
Lemma still_lift {A} (r : result ChainStateError A) : still (BlockConnect.lift r).
Proof. done. Qed.
Lemma still_reads {A} (f : ChainState S -> result ChainStateError A) : still (reads f).
Proof. done. Qed.
Lemma still_read_store {A} (f : S -> result ChainStateError A) : still (read_store f).
Proof. done. Qed.
Lemma still_ret {A} (a : A) : still (mret a).
Proof. done. Qed.
Lemma still_payouts coinbase h : still (check_payouts_due params coinbase h).
Proof. intros s. unfold check_payouts_due. by destruct (check_deterministic_fluxnode_payouts _ _ _ _ _). Qed.
Lemma still_cache : still shielded_cache.
Proof. intros s. unfold shielded_cache. destruct (cs_trees s); [done|]. by destruct (trees_load _). Qed.
Lemma still_append kind fault bs : still (append_file kind fault bs).
Proof. intros s. unfold append_file. destruct (append _ _ _ _ _) as [[st files] r]. by destruct kind. Qed.
Lemma still_info kind id : still (flatfile_info_cached kind id).
Proof. intros s. unfold flatfile_info_cached. repeat (case_match; simplify_eq/=; try done). Qed.
#[local] Hint Resolve still_lift still_reads still_read_store still_ret still_payouts still_cache still_append still_info : core.
Ltac still_tac :=
  repeat first
  [ progress intros | apply still_bind
  | match goal with |- still (match ?x with _ => _ end) => destruct x end
  | match goal with |- still (let '(_, _) := ?x in _) => destruct x end
  | solve [auto] ].
Lemma still_note kind b location h time : still (note_location kind b location h time).
Proof. unfold note_location, update_flatfile_meta. still_tac. Qed.
Lemma still_place fault block bs given : still (place_block fault block bs given).
Proof. unfold place_block. still_tac. Qed.
#[local] Hint Resolve still_note still_place : core.
Lemma still_undo fault undo block hash location h b : still (store_undo fault undo block hash location h b).
Proof. unfold store_undo. still_tac. Qed.
#[local] Hint Resolve still_undo : core.

(** Entering the header of a block moves the cache as [insert_header] says. *)
Definition entered (env : BlockEnv) (input : BlockInput) (s : ChainState S) : result ChainStateError HeaderEntry * HeaderState :=
  insert_header (cs_store s) (consensus params) options (be_now env) (header (bi_block input))
    (mkHeaderState (cs_header_cache s) [] ∅ None None None).
Lemma connect_header_moves env input (s s' : ChainState S) r :
  connect_header params options env input s = (r, s') ->
  cs_store s' = cs_store s /\ cs_header_cache s' = hs_cache (entered env input s).2
  /\ forall e b txids paid, r = Ok (e, b, txids, paid) -> (entered env input s).1 = Ok e /\ b = hs_batch (entered env input s).2.
Proof.
  unfold entered, connect_header, mbind at 1, node_bind at 1, insert_block_header.
  destruct (insert_header _ _ _ _ _ _) as [ri c]. destruct ri as [e|e|]; cbn [mbind result_bind fst snd].
  2,3: by intros [= <- <-].
  intros Hc. match type of Hc with ?p ?s0 = _ => assert (still p) as Hp; [|specialize (Hp s0); rewrite Hc in Hp] end.
  { still_tac. }
  destruct Hp as [E1 E2]. cbn [snd] in *.
  split; [done|split; [done|]]. intros e' b txids paid ->. inv_node. by simplify_eq/=.
Qed.
Lemma connect_block_moves env input (s s' : ChainState S) r :
  connect_block params options env input s = (r, s') ->
  cs_store s' = cs_store s /\ cs_header_cache s' = hs_cache (entered env input s).2.
Proof.
  unfold connect_block, mbind at 1, node_bind at 1. destruct (connect_header _ _ _ _ s) as [rh s1] eqn:Eh.
  apply connect_header_moves in Eh as (E1&E2&_). destruct rh as [[[[e b] txids] paid]|e|]; [|by intros [= _ <-]..].
  intros Hc. match type of Hc with ?p ?s0 = _ => assert (still p) as Hp; [|specialize (Hp s0); rewrite Hc in Hp] end.
  { still_tac. }
  destruct Hp as [E3 E4]. cbn [snd] in *. split; congruence.
Qed.

(** What a connected block writes: what entering its header wrote, its header
    with the status of a stored block, and nothing else of the headers. *)
Definition with_block (e : HeaderEntry) : HeaderEntry :=
  mkHeaderEntry (he_prev_hash e) (he_skip_hash e) (he_height e) (he_time e) (he_bits e) (he_chainwork e)
    (status_with_block (he_status e)).
Lemma connect_block_writes env input (s s' : ChainState S) batch :
  connect_block params options env input s = (Ok batch, s') ->
  exists e ops1 ops2, (entered env input s).1 = Ok e
    /\ batch = hs_batch (entered env input s).2 ++ ops1
               ++ Put HeaderIndex (header_hash (header (bi_block input))) (encode_header_entry (with_block e)) :: ops2
    /\ Forall off_headers ops1 /\ Forall off_headers ops2.
Proof.
  unfold connect_block. intros Hc. apply node_bind_Ok in Hc as ([[[e b0] txids] paid]&s1&Hh&Hc).
  apply connect_header_moves in Hh as (_&_&Hh). destruct (Hh _ _ _ _ eq_refl) as [He ->]. clear Hh.
  set (b0 := hs_batch _) in *. inv_node.
  match goal with a : BlockAcc * WriteBatch * list FluxnodeUndo |- _ => destruct a as [[acc bm] extra] end. inv_node. simplify_eq/=.
  repeat match goal with
  | Hi : connect_body _ _ _ _ _ _ _ _ = Ok _ |- _ => apply plain_body in Hi
  | Hi : note_location _ _ _ _ _ _ = _ |- _ => apply note_location_frame in Hi as [Hi _]; apply plain_files in Hi
  | Hi : store_undo _ _ _ _ _ _ _ _ = _ |- _ => apply store_undo_frame in Hi as (Hi&_&_); apply plain_files in Hi
  | Hi : prune_block_undo _ _ _ = _ |- _ => apply prune_block_undo_frame in Hi; apply plain_files in Hi
  | Hi : finish_totals _ _ _ _ _ _ = _ |- _ => apply plain_totals in Hi
  end.
  match goal with Hb : plain b0 ?b1, Hn : plain ?b1 ?b2, Ht : plain (make_tip _ _ _ (index_block _ ?st ?hd ?h ?loc ?ids ?b2)) ?b3 |- _ =>
    pose proof (extends_trans _ _ _ _ Hb (extends_trans _ _ _ _ Hn (plain_index options st hd h loc ids b2))) as (ops1&E1&Ho1);
    assert (plain (make_tip e h (bi_height input) (index_block options st hd h loc ids b2)) batch) as Hend
      by (repeat (eapply extends_trans; [eassumption|]); apply extends_refl); rewrite E1 in Hend end.
  exists e, ops1. unfold make_tip, put_header, batch_put in Hend. fold (with_block e) in Hend.
  match type of Hend with plain (set_height_hash (set_best_block ?b _) _ _) _ =>
    assert (plain b batch) as (ops2&->&Ho2) by
      (eapply extends_trans; [|exact Hend]; unfold set_height_hash, set_best_block; plain_tac) end.
  exists ops2. rewrite <- !app_assoc. by split_and!.
Qed.
End still.

(** ** Disconnecting *)
Section disconnecting.
  Context {H : Hashes} {T : ShieldedTrees} {S : Type} {KV : KeyValueStore S}.
  Context (options : ChainStateOptions) (height : Z).

Lemma plain_restore_fluxnode b entry : plain b (restore_fluxnode b entry).
Proof. unfold restore_fluxnode. plain_tac. Qed.
Lemma plain_start block undo : plain [] (uw_batch (unwind_start block undo)).
Proof.
  unfold unwind_start. cbn [uw_batch]. apply extends_foldl; [apply plain_restore_fluxnode|].
  apply extends_foldl; [|apply extends_refl]. intros b tx. unfold remove_nullifiers, nullifier_remove. plain_tac.
Qed.
Lemma plain_remove_output ti txid u item u' : remove_output options height ti txid u item = Ok u' -> plain (uw_batch u) (uw_batch u').
Proof.
  destruct item as [k output]. unfold remove_output. cbv zeta. intros Hr. do 2 (apply bind_Ok in Hr as (?&_&Hr)). injection Hr as <-.
  cbn [uw_batch]. unfold delta_delete, delta_delete_with_prefix, address_delete, utxo_delete. plain_tac.
Qed.
Lemma plain_restore_input ti txid u item u' : restore_input options height ti txid u item = Ok u' -> plain (uw_batch u) (uw_batch u').
Proof.
  destruct item as [k input]. unfold restore_input. destruct (uw_spent u); [done|]. destruct (negb _); [done|]. cbv zeta.
  intros Hr. do 2 (apply bind_Ok in Hr as (?&_&Hr)). injection Hr as <-. cbn [uw_batch].
  unfold address_insert, utxo_put, delta_delete, delta_delete_with_prefix, spentindex_delete. plain_tac.
Qed.
Lemma plain_collateral tx u u' : restore_collateral tx u = Ok u' -> plain (uw_batch u) (uw_batch u').
Proof.
  unfold restore_collateral. destruct (fluxnode_collateral tx); [|intros [= <-]; apply extends_refl].
  destruct (uw_fluxnode u); [done|]. destruct (negb _); [done|]. intros [= <-]. apply plain_restore_fluxnode.
Qed.
Lemma plain_unwind_tx u item u' : unwind_tx options height u item = Ok u' -> plain (uw_batch u) (uw_batch u').
Proof.
  destruct item as [i tx]. unfold unwind_tx. cbv zeta. intros Hu. apply bind_Ok in Hu as (txid&_&Hu).
  apply bind_Ok in Hu as (u1&Ho&Hu). apply bind_Ok in Hu as (u2&Hi&Hu). apply plain_collateral in Hu.
  eapply extends_trans; [|exact Hu]. clear Hu.
  assert (plain (uw_batch u) (uw_batch u1)) as H1.
  { refine (try_fold_inv _ (fun v => plain (uw_batch u) (uw_batch v)) _ _ _ _ _ Ho); [apply extends_refl|].
    intros it v1 v2 _ Hv Hr. apply plain_remove_output in Hr. by eapply extends_trans. }
  set (v := if index_tx options then _ else _) in Hi.
  assert (plain (uw_batch u) (uw_batch v)) as H2.
  { subst v. destruct (index_tx options); [|done]. cbn [uw_batch set_uw_batch]. unfold txindex_delete. plain_tac. }
  destruct (i =? 0)%nat; [by injection Hi as <-|].
  refine (try_fold_inv _ (fun v => plain (uw_batch u) (uw_batch v)) _ _ _ _ _ Hi); [done|].
  intros it v1 v2 _ Hv Hr. apply plain_restore_input in Hr. by eapply extends_trans.
Qed.
Lemma plain_remove_timestamp (store : S) hash b b' : remove_timestamp store hash b = Ok b' -> plain b b'.
Proof. unfold remove_timestamp. intros Hc. apply bind_Ok in Hc as ([ts|]&_&[= <-]); plain_tac. Qed.
Lemma plain_restore_trees trees undo b b' : restore_trees trees undo b = Ok b' -> plain b b'.
Proof.
  unfold restore_trees, anchor_insert, anchor_remove. intros Hc.
  apply bind_Ok in Hc as (?&_&Hc). apply bind_Ok in Hc as (?&_&Hc). injection Hc as <-. plain_tac.
Qed.
Lemma plain_unwind block undo u : unwind_txs options height block undo = Ok u -> plain [] (uw_batch u).
Proof.
  unfold unwind_txs. intros Hu. apply bind_Ok in Hu as (u1&Hf&Hu).
  assert (u1 = u) as -> by (destruct (negb _); [done|]; destruct (negb _); [done|]; by injection Hu).
  refine (try_fold_inv _ (fun v => plain [] (uw_batch v)) _ _ _ _ _ Hf); [apply plain_start|].
  intros it v1 v2 _ Hv Hr. apply plain_unwind_tx in Hr. by eapply extends_trans.
Qed.
End disconnecting.

Section disconnected.
  Context {H : Hashes} {T : ShieldedTrees} {S : Type} {KV : KeyValueStore S}.
  Context (options : ChainStateOptions).

(** Steps that at most put one entry into the cache. *)
Definition caches_at_most hash e {A} (p : node (S:=S) A) : Prop := forall s,
  cs_store (p s).2 = cs_store s
  /\ (cs_header_cache (p s).2 = cs_header_cache s \/ cs_header_cache (p s).2 = cache_insert (cs_header_cache s) hash e).
Lemma caches_bind hash e {A C} (p : node A) (f : A -> node C) :
  still p -> (forall a, caches_at_most hash e (f a)) -> caches_at_most hash e (p ≫= f).
Proof.
  intros Hp Hf s. specialize (Hp s). unfold mbind, node_bind. destruct (p s) as [[a|er|] s1]; destruct Hp as [E1 E2]; cbn [snd] in *;
    [|by split; [|left]..]. destruct (Hf a s1) as [E3 E4]. rewrite E1, E2 in *. done.
Qed.

Lemma disconnect_reads_tip hash (s : ChainState S) e height block undo :
  disconnect_reads hash s = Ok (e, height, block, undo) ->
  get_header (cs_store s) hash = Ok (Some e) /\ exists tip, best_block (cs_store s) = Ok (Some tip) /\ tip_hash tip = hash.
Proof.
  unfold disconnect_reads. intros Hr. apply bind_Ok in Hr as (best&Hb&Hr). apply bind_Ok in Hr as (tip&Ht&Hr).
  destruct (bool_decide (tip_hash tip = hash)) eqn:Eh; [|done]. apply bool_decide_eq_true in Eh. cbn [negb] in Hr.
  apply bind_Ok in Hr as (en&He&Hr). apply bind_Ok in Hr as (e'&He'&Hr). apply bind_Ok in Hr as (?&_&Hr).
  do 6 (apply bind_Ok in Hr as (?&_&Hr)). injection Hr as -> _ _ _.
  destruct en as [e1|]; [|done]. injection He' as ->. destruct best as [b|]; [|done]. injection Ht as ->.
  destruct (get_header (cs_store s) hash) as [o| |] eqn:Eg; [|done..]. injection He as ->.
  destruct (best_block (cs_store s)) as [o| |] eqn:Ebb; [|done..]. injection Hb as ->. split; [done|by exists tip].
Qed.

(** Disconnecting reads; its one change of the state is the entry of the tip
    in the cache, and its batch makes the parent the tip. *)
Lemma disconnect_block_moves hash (s s' : ChainState S) r :
  disconnect_block options hash s = (r, s') ->
  cs_store s' = cs_store s
  /\ (cs_header_cache s' = cs_header_cache s
      \/ exists e, get_header (cs_store s) hash = Ok (Some e) /\ cs_header_cache s' = cache_insert (cs_header_cache s) hash e).
Proof.
  unfold disconnect_block, mbind at 1, node_bind at 1, reads at 1.
  destruct (disconnect_reads hash s) as [[[[e height] block] undo]|er|] eqn:Er; [|intros [= _ <-]; by split; [|left]..].
  apply disconnect_reads_tip in Er as [He _]. intros Hd.
  match type of Hd with ?p ?s0 = _ => assert (caches_at_most hash e p) as Hp; [|specialize (Hp s0); rewrite Hd in Hp] end.
  { repeat (apply caches_bind; [first [apply still_reads|apply still_read_store|apply still_lift|apply still_cache]|intros]).
    intros s1. split; [done|by right]. }
  destruct Hp as [E1 [E2|E2]]; (split; [done|]); [by left|right; by exists e].
Qed.
Lemma disconnect_block_writes hash (s s' : ChainState S) batch :
  disconnect_block options hash s = (Ok batch, s') ->
  plain [] batch /\ exists tip e, best_block (cs_store s) = Ok (Some tip) /\ tip_hash tip = hash
    /\ get_header (cs_store s) hash = Ok (Some e)
    /\ last_write batch Meta META_BEST_BLOCK_KEY = Some (Some (he_prev_hash e)).
Proof.
  unfold disconnect_block. intros Hd. apply node_bind_Ok in Hd as ([[[e height] block] undo]&s1&Hf&Hd).
  apply reads_Ok in Hf as [Hf ->]. apply disconnect_reads_tip in Hf as (He&tip&Hb&Ht).
  inv_node.
  repeat match goal with
  | Hi : unwind_txs _ _ _ _ = Ok _ |- _ => apply plain_unwind in Hi
  | Hi : remove_timestamp _ _ _ = Ok _ |- _ => apply plain_remove_timestamp in Hi
  | Hi : restore_trees _ _ _ = Ok _ |- _ => apply plain_restore_trees in Hi
  | Hi : clear_block_index_undo _ _ _ = Ok _ |- _ => apply clear_undo_frame in Hi
  end.
  assert (plain a3 (batch_delete (set_best_block (clear_height_hash a5 (he_height e)) (he_prev_hash e)) BlockUndoCol (tip_hash tip))) as Hp.
  { unfold set_best_block, clear_height_hash. plain_tac. }
  split.
  - do 2 (apply extends_put; [off_tac|]). eapply extends_trans; [exact Hn2|]. eapply extends_trans; [exact Hn3|].
    eapply extends_trans; [exact Hp|by apply plain_files].
  - exists tip, e. split_and!; [done..|]. rewrite !last_write_put, !bool_decide_false by by_decide.
    rewrite (extends_last_write file_op _ _ Meta META_BEST_BLOCK_KEY Hn6).
    + unfold batch_delete. rewrite last_write_app. cbn [last_write]. rewrite bool_decide_false by done.
      unfold set_best_block. by rewrite last_write_put, bool_decide_true.
    + intros op [E|[E|[_ E]]] Ec Ek; [by rewrite Ec in E..|]. rewrite Ek in E. by vm_compute in E.
Qed.
End disconnected.

(** ** Lookups fill the cache from the store *)
Section lookups.
  Context {H : Hashes} {S : Type} {KV : KeyValueStore S} (store : S).

Definition filled (c c' : HeaderCache) : Prop :=
  forall h e, hc_entries c' !! h = Some e -> hc_entries c !! h = Some e \/ get_header store h = Ok (Some e).
Definition fills {A} (p : chain A) : Prop := forall s, filled (hs_cache s) (hs_cache (p s).2).

Lemma filled_trans c1 c2 c3 : filled c1 c2 -> filled c2 c3 -> filled c1 c3.
Proof. intros H1 H2 h e He. destruct (H2 h e He) as [He2|?]; [by apply H1|by right]. Qed.
Lemma fills_same {A} (p : chain A) : (forall s, hs_cache (p s).2 = hs_cache s) -> fills p.
Proof. intros Hp s h e. rewrite Hp. by left. Qed.
Lemma fills_bind {A C} (p : chain A) (f : A -> chain C) : fills p -> (forall a, fills (f a)) -> fills (p ≫= f).
Proof.
  intros Hp Hf s. specialize (Hp s). unfold mbind, chain_bind. destruct (p s) as [[a|e|] s1]; [|done..].
  eapply filled_trans; [exact Hp|apply Hf].
Qed.
Lemma fills_entry hash : fills (header_entry store hash).
Proof.
  intros s. unfold header_entry, gets, from_store, run, modify, mbind, chain_bind, mret, chain_ret, cache_get.
  destruct (hc_entries (hs_cache s) !! hash); [by left|].
  destruct (get_header store hash) as [[e|]|e|] eqn:E; cbn [map_err]; [|by left..].
  intros h e1 He. pose proof (lookup_weaken _ _ _ _ He (cache_insert_subseteq _ _ _)) as Hi.
  apply lookup_insert_Some in Hi as [[<- <-]|[_ Hi]]; [by right|by left].
Qed.
Lemma fills_ancestor_loop fuel target h e : fills (ancestor_loop store fuel target h e).
Proof.
  revert h e. induction fuel as [|fuel IH]; intros h e; cbn [ancestor_loop]; destruct (_ >? _); try by apply fills_same.
  apply fills_bind; [apply fills_entry|]. intros [e'|]; [apply IH|by apply fills_same].
Qed.
Lemma fills_ancestor h target : fills (header_ancestor_hash store h target).
Proof.
  unfold header_ancestor_hash. destruct (_ <? _); [by apply fills_same|]. apply fills_bind; [apply fills_entry|].
  intros [e|]; [|by apply fills_same]. destruct (_ >? _); [by apply fills_same|apply fills_ancestor_loop].
Qed.
End lookups.

(** ** Histories with blocks *)
Section histories.
  Context {H : Hashes} {HL : HashesLaws H} {B : Blake2b} {U : U256Ops} {UL : U256Laws U} {S256 : Secp}.
  Context {R : Recovery} {SC : ShieldedCrypto} {T : ShieldedTrees} {S : Type} {KV : KeyValueStore S} {KL : KeyValueStoreLaws S}.
  Context (params : ChainParams) (options : ChainStateOptions).
  Notation history := (header_history (consensus params) options).

(** The headers of a node, store and cache, are those of some history. *)
Definition headers_ok (s : ChainState S) : Prop :=
  hash_broken \/ exists hs, history (cs_store s) hs /\ hs_cache hs = cs_header_cache s.

Lemma headers_ok_same s s' : same_chain s s' -> headers_ok s -> headers_ok s'.
Proof. intros [E1 E2] [?|(hs&Hh&Hc)]; [by left|right]. exists hs. by rewrite E1, E2. Qed.

Lemma headers_ok_filled (s : ChainState S) c :
  headers_ok s -> filled (cs_store s) (cs_header_cache s) c -> headers_ok (set_header_cache c s).
Proof.
  intros [?|(hs&Hh&Hc)] Hf; [by left|right]. exists (set_cache c hs). split; [|done]. apply history_cache; [done|].
  intros h e He. destruct (Hf h e He) as [?|?]; [left; by rewrite Hc|right]. exists e. split; [done|by left].
Qed.

Lemma begin_idle (store : S) s best :
  stored_best store = Ok best ->
  begin_batch store (consensus params) [] s = (Ok tt, mkHeaderState (hs_cache s) (hs_batch s) ∅ best None None).
Proof. unfold begin_batch, run, mbind, chain_bind, modify. by intros ->. Qed.

(** Entering the header of a block is a step of the history, and the header is
    then one of the batch or of the store. *)
Definition known_header (store : S) (hs : HeaderState) (h : Hash256) (e : HeaderEntry) : Prop :=
  HeaderEntry_wf e /\ (hs_pending hs !! h = Some e \/ hs_pending hs !! h = None /\ get_header store h = Ok (Some e)).
Lemma enter_header_history env input (s : ChainState S) :
  headers_ok s -> header_wf true (header (bi_block input)) ->
  (forall e, (entered params options env input s).1 = Ok e -> he_height e < 2 ^ 31 - 1) ->
  hash_broken \/ history (cs_store s) (entered params options env input s).2
    /\ forall e, (entered params options env input s).1 = Ok e ->
         known_header (cs_store s) (entered params options env input s).2 (header_hash (header (bi_block input))) e.
Proof.
  intros [?|(hs&Hh&Hc)] Hwf Hlt; [by left|]. destruct (history_chain_ok _ _ _ _ Hh) as [(t&m&Hok)|]; [|by left].
  pose proof Hok as (Ht&Hs&Hm&Hcl&best0&Hb0&Hb).
  pose proof (stored_best_eq _ t m _ _ Ht Hs Hm Hb0) as Hbest.
  pose proof (begin_idle _ (set_batch [] hs) best0 Hbest) as Ebegin.
  assert (entered params options env input s = insert_header_with_pending (cs_store s) (consensus params) options (be_now env)
            (header (bi_block input)) true (mkHeaderState (hs_cache hs) [] ∅ best0 None None)) as Ee.
  { unfold entered, insert_header, mbind, chain_bind. rewrite (begin_idle _ _ best0 Hbest), <- Hc. done. }
  rewrite Ee in *.
  destruct (insert_header_with_pending _ _ _ _ _ _ _) as [r c] eqn:E. cbn [fst snd] in *.
  destruct (begin_batch_ok _ _ _ _ _ [] _ Hok Ebegin) as (_&_&_&_&best1&Hb1&Hbb).
  destruct (insert_header_step _ _ _ _ _ _ Ht Hs Hm Hcl _ _ _ _ _ _ Hbb Hwf E) as [Hi|]; [right|by left].
  split; [eapply history_insert; [by eapply history_begin|exact Hwf|exact E|exact Hlt]|].
  intros e ->. destruct (Hi (Hlt e eq_refl)) as (t'&Hsub&Ht'&Hb'&He).
  apply lookup_union_Some_raw in He as [He|[Hn He]].
  - split; [by destruct (bo_pending _ _ _ _ _ Hb' _ _ He) as (_&?&_)|by left].
  - split; [by destruct (Hm _ _ He) as (_&?&_)|right]. split; [done|]. by rewrite Hs, He.
Qed.

(** The rest of what a block writes restates headers of the batch. *)
Lemma off_headers_restating store hs op : off_headers op -> restating store hs op.
Proof.
  intros Ho. destruct op as [[] k v|[] k]; try done; simpl.
  all: first [by destruct Ho; left | intros ->; by destruct Ho; right].
Qed.

Lemma same_header_join e e1 e2 : same_header e e1 -> same_header e e2 -> same_header e1 e2.
Proof. intros (_&?&?&?&?&?&?) (?&?&?&?&?&?&?). unfold same_header. split_and!; first [done|congruence]. Qed.

(** The updates of a batch are its entries. *)
Lemma header_updates_puts batch updates u :
  header_updates batch = Ok updates -> u ∈ updates -> exists v, Put HeaderIndex u.1 v ∈ batch /\ decode_header_entry v = Ok u.2.
Proof.
  revert updates. induction batch as [|op batch IH]; intros updates; cbn [header_updates].
  { by intros [= <-] ?%not_elem_of_nil. }
  assert (forall rest, header_updates batch = Ok rest -> u ∈ rest ->
    exists v, Put HeaderIndex u.1 v ∈ op :: batch /\ decode_header_entry v = Ok u.2) as Hrest.
  { intros rest Hb Hu. destruct (IH rest Hb Hu) as (v&Hv&Hd). exists v. split; [by apply list_elem_of_further|done]. }
  destruct op as [[] k v|[] k]; try (by apply Hrest).
  intros Hu. apply bind_Ok in Hu as (o&Ho&Hu). apply bind_Ok in Hu as (rest&Hb&Hu). injection Hu as <-.
  destruct o as [u1|]; [|by apply Hrest]. intros [->|Hin]%elem_of_cons; [|by eapply Hrest].
  exists v. unfold header_update in Ho. destruct (v !! STATUS_OFFSET); [|done]. destruct (_ && _); [|done].
  apply bind_Ok in Ho as (e&He&[= <-]). split; [apply list_elem_of_here|]. by destruct (decode_header_entry v); simplify_eq/=.
Qed.

Lemma cache_one store hs h e :
  history store hs -> stored_like store h e -> history store (set_cache (cache_insert (hs_cache hs) h e) hs).
Proof.
  intros Hh He. apply history_cache; [done|]. intros h1 e1 He1.
  pose proof (lookup_weaken _ _ _ _ He1 (cache_insert_subseteq _ _ _)) as Hi.
  apply lookup_insert_Some in Hi as [[<- <-]|[_ Hi]]; [by right|by left].
Qed.
Lemma cached_history store hs updates :
  history store hs -> Forall (fun u => stored_like store u.1 u.2) updates ->
  exists hs', history store hs'
    /\ hs_cache hs' = foldl (fun c u => cache_insert c (fst u) (snd u)) (hs_cache hs) updates.
Proof.
  intros Hh Hu. revert hs Hh. induction Hu as [|u updates He _ IH]; intros hs Hh; [by exists hs|].
  apply (cache_one _ _ _ _ Hh) in He. by apply IH in He.
Qed.

(** No stored header is lost, nor its parent, height, time, bits or work changed. *)
Definition headers_kept (s s' : ChainState S) : Prop :=
  forall h e, get_header (cs_store s) h = Ok (Some e) ->
    exists e', get_header (cs_store s') h = Ok (Some e') /\ node_of e' = node_of e.
Lemma headers_kept_refl (s s' : ChainState S) : cs_store s' = cs_store s -> headers_kept s s'.
Proof. intros E h e He. exists e. by rewrite E. Qed.
Lemma headers_kept_trans s1 s2 s3 : headers_kept s1 s2 -> headers_kept s2 s3 -> headers_kept s1 s3.
Proof. intros H1 H2 h e He. destruct (H1 _ _ He) as (e1&He1&E1). destruct (H2 _ _ He1) as (e2&He2&E2). exists e2. split; congruence. Qed.

(** A commit of a batch of headers with what restates them. *)
Lemma commit_history hs extra (s s' : ChainState S) fails r :
  history (cs_store s) hs -> hs_cache hs = cs_header_cache s -> restates (cs_store s) hs extra ->
  commit_batch options fails (hs_batch hs ++ extra) s = (r, s') ->
  hash_broken \/ headers_ok s' /\ headers_kept s s'.
Proof.
  intros Hh Hc Hx Hcommit. destruct (history_chain_ok _ _ _ _ Hh) as [(t&m&Hok)|]; [|by left].
  apply (commit_batch_frame options header_key) in Hcommit as [(store'&updates&Hu&Hw&Hk&Hcache)|[-> _]].
  3: { intros op Hop. by apply file_op_off_headers. }
  2: { right. split; [right; by exists hs|by apply headers_kept_refl]. }
  assert (Hg : forall h, get_header (cs_store s') h = get_header store' h).
  { intros h. unfold get_header. by rewrite Hk by by left. }
  destruct (commit_ok _ t m _ _ _ _ Hok Hx Hw) as (m'&(_&Hs2&_)&Hr&_).
  pose proof (HeaderHistory.history_commit _ _ _ _ _ _ Hh Hx Hw) as Hh'.
  apply (history_elsewhere _ _ _ _ (cs_store s')) in Hh'; [|exact Hg|apply Hk; by right].
  pose proof Hok as (Ht&Hs&Hm&_&best0&_&Hb). right. split.
  2: { intros h e He. rewrite Hs in He. injection He as He. rewrite Hg, Hs2. specialize (Hr h).
       assert (exists e1, (hs_pending hs ∪ m) !! h = Some e1 /\ node_of e1 = node_of e) as (e1&He1&E1).
       { destruct (hs_pending hs !! h) as [e1|] eqn:Ep; [|exists e; by rewrite lookup_union_r].
         exists e1. split; [by apply lookup_union_Some_l|].
         destruct (bo_pending _ _ _ _ _ Hb _ _ Ep) as (Hn1&_), (Hm _ _ He) as (Hn2&_). congruence. }
       rewrite He1 in Hr. inversion Hr as [? e2 Hsame E2 E3|]; subst. exists e2. split; [done|].
       by rewrite (same_header_node _ _ Hsame). }
  right. destruct Hcache as [E|E]; [exists (idle (hs_cache hs) (hs_best hs)); split; [done|by rewrite E]|].
  rewrite E, <- Hc. apply (cached_history _ (idle (hs_cache hs) (hs_best hs))); [done|].
  apply Forall_forall. intros u Hin.
  destruct (header_updates_puts _ _ _ Hu Hin) as (v&Hput&Hd). unfold stored_like. rewrite Hg, Hs2.
  assert (exists e, (hs_pending hs ∪ m) !! u.1 = Some e /\ same_header e u.2) as (e&He&Hsame).
  { apply elem_of_app in Hput as [Hput|Hput].
    - destruct (bo_puts _ _ _ _ _ Hb _ _ Hput) as (e&He&->). exists e. split; [by apply lookup_union_Some_l|].
      destruct (bo_pending _ _ _ _ _ Hb _ _ He) as (_&Hwf&_). rewrite decode_header_entry_encode in Hd by done.
      injection Hd as <-. by apply same_header_refl.
    - unfold restates in Hx. rewrite Forall_forall in Hx. destruct (Hx _ Hput) as (e&e'&He&Hsame&->).
      rewrite decode_header_entry_encode in Hd by apply Hsame. injection Hd as <-. exists e. split; [|done].
      destruct He as [He|[Hn He]]; [by apply lookup_union_Some_l|]. rewrite lookup_union_r by done. rewrite Hs in He. congruence. }
  specialize (Hr u.1). rewrite He in Hr. inversion Hr as [? e2 Hsame2 E1 E2|]; subst. exists e2. split; [done|].
  right. by eapply same_header_join.
Qed.

Lemma status_with_block_u8 n : is_u8 n -> is_u8 (status_with_block n).
Proof.
  intros Hn. assert (forallb (fun n => bool_decide (is_u8 (status_with_block n))) (seqZ 0 256) = true) as Hall by (vm_compute; reflexivity).
  rewrite forallb_forall in Hall. apply (bool_decide_unpack _), Is_true_true, Hall, list_elem_of_In, elem_of_seqZ.
  unfold is_u8 in Hn. lia.
Qed.
Lemma same_header_with_block e : HeaderEntry_wf e -> same_header e (with_block e).
Proof.
  intros (?&?&?&?&?&?&Hst). unfold same_header, HeaderEntry_wf, with_block. simpl.
  pose proof (status_with_block_u8 _ Hst). tauto.
Qed.

(** Connecting a block, and writing it. *)
Lemma connect_headers_ok env input (s s' : ChainState S) r :
  headers_ok s -> header_wf true (header (bi_block input)) ->
  (forall e, (entered params options env input s).1 = Ok e -> he_height e < 2 ^ 31 - 1) ->
  connect_block params options env input s = (r, s') -> headers_ok s' /\ headers_kept s s'.
Proof.
  intros Hs Hwf Hlt Hc. apply connect_block_moves in Hc as [E1 E2].
  split; [|by apply headers_kept_refl]. destruct (enter_header_history env input s Hs Hwf Hlt) as [?|[Hh _]]; [by left|right].
  exists (entered params options env input s).2. by rewrite E1, E2.
Qed.
Lemma connected_headers_ok env input (s s1 s' : ChainState S) batch fails r :
  headers_ok s -> header_wf true (header (bi_block input)) ->
  (forall e, (entered params options env input s).1 = Ok e -> he_height e < 2 ^ 31 - 1) ->
  connect_block params options env input s = (Ok batch, s1) -> commit_batch options fails batch s1 = (r, s') ->
  hash_broken \/ headers_ok s' /\ headers_kept s s'.
Proof.
  intros Hs Hwf Hlt Hc Hw. destruct (enter_header_history env input s Hs Hwf Hlt) as [?|[Hh Hkn]]; [by left|].
  destruct (connect_block_moves _ _ _ _ _ _ _ Hc) as [E1 E2].
  destruct (connect_block_writes _ _ _ _ _ _ _ Hc) as (e&ops1&ops2&He&->&Ho1&Ho2). rewrite <- E1 in Hh.
  apply (commit_history (entered params options env input s).2) in Hw as [?|[Hok Hk]]; [by left|right|done|done|].
  - split; [done|]. eapply headers_kept_trans; [|exact Hk]. by apply headers_kept_refl.
  - unfold restates. apply Forall_app. split; [eapply Forall_impl; [exact Ho1|by apply off_headers_restating]|].
    constructor; [|eapply Forall_impl; [exact Ho2|by apply off_headers_restating]].
    destruct (Hkn e He) as [Hwfe Hknown]. exists e, (with_block e). rewrite E1. split_and!; [done|by apply same_header_with_block|done].
Qed.

(** Disconnecting one, and writing that. *)
Lemma disconnect_headers_ok hash (s s' : ChainState S) r :
  headers_ok s -> disconnect_block options hash s = (r, s') -> headers_ok s' /\ headers_kept s s'.
Proof.
  intros Hs Hd. apply disconnect_block_moves in Hd as [E1 E2]. split; [|by apply headers_kept_refl].
  destruct Hs as [?|(hs&Hh&Hc)]; [by left|right]. destruct E2 as [E2|(e&He&E2)]; [exists hs; by rewrite E1, E2|].
  exists (set_cache (cache_insert (hs_cache hs) hash e) hs). rewrite E1, E2, <- Hc. split; [|done].
  apply cache_one; [done|]. exists e. split; [done|by left].
Qed.
Lemma plain_commit_headers_ok batch (s s' : ChainState S) fails r :
  headers_ok s -> plain [] batch -> commit_batch options fails batch s = (r, s') ->
  hash_broken \/ headers_ok s' /\ headers_kept s s'.
Proof.
  intros [?|(hs&Hh&Hc)] (ops&->&Hops) Hw; [by left|]. destruct (history_chain_ok _ _ _ _ Hh) as [(t&m&Hok)|]; [|by left].
  pose proof Hok as (Ht&Hs&Hm&_&best0&Hb0&_). pose proof (stored_best_eq _ t m _ _ Ht Hs Hm Hb0) as Hbest.
  pose proof (begin_idle _ (set_batch [] hs) best0 Hbest) as Ebegin.
  apply (commit_history (mkHeaderState (hs_cache hs) [] ∅ best0 None None)) in Hw; [done|by eapply history_begin|done|].
  eapply Forall_impl; [exact Hops|by apply off_headers_restating].
Qed.
Lemma disconnected_headers_ok hash (s s1 s' : ChainState S) batch fails r :
  headers_ok s -> disconnect_block options hash s = (Ok batch, s1) -> commit_batch options fails batch s1 = (r, s') ->
  hash_broken \/ headers_ok s' /\ headers_kept s s'.
Proof.
  intros Hs Hd Hw. destruct (disconnect_headers_ok _ _ _ _ Hs Hd) as [Hs1 Hk1].
  destruct (disconnect_block_writes _ _ _ _ _ Hd) as [Hp _].
  destruct (plain_commit_headers_ok _ _ _ _ _ Hs1 Hp Hw) as [?|[Hs' Hk]]; [by left|right].
  split; [done|by eapply headers_kept_trans].
Qed.

(** ** Blocks come and go *)

(** What the node does with blocks, whatever comes of it: one is connected, or
    connected and written, disconnected, or disconnected and written. *)
Inductive block_step : ChainState S -> ChainState S -> Prop :=
| step_connect env input s r s' :
    header_wf true (header (bi_block input)) ->
    (forall e, (entered params options env input s).1 = Ok e -> he_height e < 2 ^ 31 - 1) ->
    connect_block params options env input s = (r, s') -> block_step s s'
| step_connected env input s batch s1 fails r s' :
    header_wf true (header (bi_block input)) ->
    (forall e, (entered params options env input s).1 = Ok e -> he_height e < 2 ^ 31 - 1) ->
    connect_block params options env input s = (Ok batch, s1) -> commit_batch options fails batch s1 = (r, s') ->
    block_step s s'
| step_disconnect hash s r s' : disconnect_block options hash s = (r, s') -> block_step s s'
| step_disconnected hash s batch s1 fails r s' :
    disconnect_block options hash s = (Ok batch, s1) -> commit_batch options fails batch s1 = (r, s') -> block_step s s'.

Lemma block_step_ok s s' : block_step s s' -> headers_ok s -> hash_broken \/ headers_ok s' /\ headers_kept s s'.
Proof.
  destruct 1 as [env input s r s' Hwf Hlt Hc|env input s batch s1 fails r s' Hwf Hlt Hc Hw|hash s r s' Hd|hash s batch s1 fails r s' Hd Hw];
    intros Hs.
  - right. by eapply connect_headers_ok.
  - by eapply connected_headers_ok.
  - right. by eapply disconnect_headers_ok.
  - by eapply disconnected_headers_ok.
Qed.

(** C0: blocks come and go, headers stay.  Let the headers of a node be those
    of a history of insertions.  Then whatever blocks it connects and
    disconnects, with or without success, no stored header is lost, nor its
    parent, height, time, bits or work changed; and the headers are again
    those of a history, so that what is proved of histories goes on to hold:
    one tree of work, with the best header at its heaviest tip. *)
Theorem blocks_keep_headers (s s' : ChainState S) :
  headers_ok s -> rtc block_step s s' -> hash_broken \/ headers_ok s' /\ headers_kept s s'.
Proof.
  intros Hs Hr. revert Hs. induction Hr as [s|s s1 s' Hstep _ IH]; intros Hs; [right; split; [done|by apply headers_kept_refl]|].
  destruct (block_step_ok _ _ Hstep Hs) as [?|[Hs1 Hk1]]; [by left|]. destruct (IH Hs1) as [?|[Hs' Hk]]; [by left|right].
  split; [done|by eapply headers_kept_trans].
Qed.
End histories.
