(* ===== verification/Float64.v ===== *)
(** * Binary64

    The arithmetic of [f64] is that of [SpecFloat] at 53 bits of precision;
    here are the operations the node uses beside the product, the order
    [total_cmp], and the conversion to and from bits.  A NaN is the quiet NaN:
    its payload is not kept. *)

From S2P Require Import Prelude Rewards.
From Stdlib Require Import ZArith Lia Floats.SpecFloat.
From stdpp Require Import base list numbers.
#[local] Open Scope Z_scope.

Definition f64_add (a b : spec_float) : spec_float := SFadd 53 1024 a b.
Definition f64_sub (a b : spec_float) : spec_float := SFsub 53 1024 a b.
Definition f64_div (a b : spec_float) : spec_float := SFdiv 53 1024 a b.
Definition f64_zero : spec_float := S754_zero false.
Definition f64_infinity : spec_float := S754_infinity false.
Definition f64_lt (a b : spec_float) : bool := SFltb a b.
Definition f64_ge (a b : spec_float) : bool := SFleb b a.
Definition f64_eq (a b : spec_float) : bool := SFeqb a b.
(** [f64::min] and [f64::max]: of a number and a NaN, the number. *)
Definition f64_min (a b : spec_float) : spec_float :=
  match a, b with
  | S754_nan, _ => b
  | _, S754_nan => a
  | _, _ => if SFltb b a then b else a
  end.
Definition f64_max (a b : spec_float) : spec_float :=
  match a, b with
  | S754_nan, _ => b
  | _, S754_nan => a
  | _, _ => if SFltb a b then b else a
  end.
Definition is_finite (a : spec_float) : bool :=
  match a with S754_zero _ | S754_finite _ _ _ => true | _ => false end.

(** ** Bits *)
Definition sign_bit (s : bool) : Z := if s then 2 ^ 63 else 0.
Definition to_bits (a : spec_float) : Z :=
  match a with
  | S754_zero s => sign_bit s
  | S754_infinity s => sign_bit s + 2047 * 2 ^ 52
  | S754_nan => 2047 * 2 ^ 52 + 2 ^ 51
  | S754_finite s m e =>
      if Z.pos m <? 2 ^ 52 then sign_bit s + Z.pos m else sign_bit s + (e + 1075) * 2 ^ 52 + (Z.pos m - 2 ^ 52)
  end.
Definition finite_of (s : bool) (mantissa exponent : Z) : spec_float :=
  match mantissa with Z.pos m => S754_finite s m exponent | _ => S754_zero s end.
Definition from_bits (bits : Z) : spec_float :=
  let s := 2 ^ 63 <=? bits in
  let exponent := (bits / 2 ^ 52) mod 2048 in
  let mantissa := bits mod 2 ^ 52 in
  if exponent =? 0 then finite_of s mantissa (-1074)
  else if exponent =? 2047 then if mantissa =? 0 then S754_infinity s else S754_nan
  else finite_of s (mantissa + 2 ^ 52) (exponent - 1075).
(** [f64::total_cmp], as a key that integers order. *)
Definition total_key (a : spec_float) : Z :=
  let bits := to_bits a in if bits <? 2 ^ 63 then bits else - (bits - 2 ^ 63) - 1.
Definition total_cmp (a b : spec_float) : comparison := total_key a ?= total_key b.

Definition f64_ok (a : spec_float) : Prop := valid_binary 53 1024 a = true.
#[global] Instance f64_ok_dec a : Decision (f64_ok a).
Proof. unfold f64_ok. apply _. Defined.

Lemma digits2_pos_bounds m : 2 ^ (Z.pos (digits2_pos m) - 1) <= Z.pos m < 2 ^ Z.pos (digits2_pos m).
Proof.
  induction m as [m IH|m IH|]; cbn [digits2_pos]; [| |simpl; lia];
    rewrite Pos2Z.inj_succ; replace (Z.succ (Z.pos (digits2_pos m)) - 1) with (Z.succ (Z.pos (digits2_pos m) - 1)) by lia;
    rewrite !Z.pow_succ_r by lia; lia.
Qed.
(** The two kinds of finite numbers. *)
Lemma f64_finite_cases s m e :
  f64_ok (S754_finite s m e) ->
  (Z.pos m < 2 ^ 52 /\ e = -1074) \/ (2 ^ 52 <= Z.pos m < 2 ^ 53 /\ -1074 <= e <= 971).
Proof.
  unfold f64_ok. cbn [valid_binary bounded]. intros [Hc He]%andb_true_iff. apply Zle_bool_imp_le in He.
  unfold canonical_mantissa in Hc. apply Zeq_bool_eq in Hc. unfold fexp, emin in Hc. pose proof (digits2_pos_bounds m) as Hm.
  set (d := digits2_pos m) in *. destruct (decide (Z.pos d = 53)) as [Hd|Hd].
  - right. rewrite Hd in Hm. split; [exact Hm|lia].
  - assert (Z.pos d < 53 /\ e = -1074) as [Hd' ->] by lia. left. split; [|done].
    assert (2 ^ Z.pos d <= 2 ^ 52) by (apply Z.pow_le_mono_r; lia). lia.
Qed.
Lemma to_bits_range a : f64_ok a -> is_u64 (to_bits a).
Proof.
  unfold is_u64. destruct a as [s|s| |s m e]; intros Ha; cbn [to_bits]; [destruct s; cbn; lia|destruct s; cbn; lia|lia|].
  apply f64_finite_cases in Ha. destruct (_ <? _) eqn:E; destruct s; cbn [sign_bit]; lia.
Qed.
Lemma from_bits_parts s exponent mantissa :
  0 <= mantissa < 2 ^ 52 -> 0 <= exponent < 2048 ->
  let bits := sign_bit s + exponent * 2 ^ 52 + mantissa in
  (2 ^ 63 <=? bits) = s /\ (bits / 2 ^ 52) mod 2048 = exponent /\ bits mod 2 ^ 52 = mantissa.
Proof. intros Hm He. cbv zeta. destruct s; cbn [sign_bit]; split_and!; try div_lia; lia. Qed.
(** What is written as bits is read back. *)
Lemma from_to_bits a : f64_ok a -> from_bits (to_bits a) = a.
Proof.
  intros Ha. destruct a as [s|s| |s m e]; [by destruct s|by destruct s|done|].
  apply f64_finite_cases in Ha as [[Hm ->]|[Hm He]]; cbn [to_bits].
  - destruct (_ <? _) eqn:E; [|lia]. destruct (from_bits_parts s 0 (Z.pos m)) as (H1&H2&H3); [lia..|].
    rewrite Z.mul_0_l, Z.add_0_r in *. unfold from_bits. by rewrite H1, H2, H3.
  - destruct (_ <? _) eqn:E; [lia|]. destruct (from_bits_parts s (e + 1075) (Z.pos m - 2 ^ 52)) as (H1&H2&H3); [lia..|].
    unfold from_bits. rewrite H1, H2, H3. destruct (_ =? 0) eqn:E0; [lia|]. destruct (_ =? 2047) eqn:E1; [lia|].
    replace (Z.pos m - 2 ^ 52 + 2 ^ 52) with (Z.pos m) by lia. cbn. f_equal. lia.
Qed.
