(* ===== verification/Mempool.v ===== *)
(** * The memory pool ([node/src/mempool.rs], the pool itself)

    Entries by transaction id with the maps that follow them: who spends an
    output or reveals a nullifier, who descends from whom, how many bytes
    there are; eviction of the transactions that pay least; and the
    transactions that wait for a parent.  What an error says is kept as data;
    the text is made of it.  The order in which a hash map gives its values is
    that of [map_to_list]: it decides between orphans received in the same
    second, and nothing else. *)

From S2P Require Import Prelude Encoding Transaction Rewards Float64 Script Fluxnode Utxo Shielded Validation HeaderChain Payees.
From Stdlib Require Import ZArith Lia Floats.SpecFloat.
From stdpp Require Import base list option numbers strings gmap sets sorting.
#[local] Open Scope Z_scope.

(** ** Machine integers *)
Definition usize_max : Z := 18446744073709551615.
Definition saturating_add_usize (a b : Z) : Z := Z.min (a + b) usize_max.
Definition saturating_sub_usize (a b : Z) : Z := Z.max (a - b) 0.
Definition saturating_add_i64 (a b : Z) : Z :=
  Z.max (-9223372036854775808) (Z.min 9223372036854775807 (a + b)).
Definition saturating_mul_i128 (a b : Z) : Z := Z.max (- 2 ^ 127) (Z.min (2 ^ 127 - 1) (a * b)).

(** ** Errors *)
Module MempoolErrorKind.
Inductive Kind :=
  | AlreadyInMempool | ConflictingInput | InsufficientFee | MissingInput | MempoolFull | NonStandard
  | InvalidTransaction | InvalidScript | InvalidShielded | Internal.
#[global] Instance Kind_eq_dec : EqDecision Kind.
Proof. solve_decision. Defined.
End MempoolErrorKind.

Inductive MempoolMessage :=
  | Text (s : string)
  | InputSpentBy (outpoint : OutPoint) (conflict : Hash256)
  | SproutNullifierSpentBy (nullifier conflict : Hash256)
  | SaplingNullifierSpentBy (nullifier conflict : Hash256)
  | ExpiringSoon (expiry_height min_expiry : Z)
  | OfEncoding (error : TransactionEncodeError)
  | OfValidation (error : ValidationError)
  | OfChainState (error : ChainStateError)
  | OfScript (error : ScriptError)
  | OfMandatoryScript (error : ScriptError)
  | OfShielded (error : ShieldedError).

Record MempoolError := mkMempoolError {
  err_kind : MempoolErrorKind.Kind; err_message : MempoolMessage; err_missing_inputs : list OutPoint }.
Definition MempoolError_new (kind : MempoolErrorKind.Kind) (message : MempoolMessage) : MempoolError :=
  mkMempoolError kind message [].
Definition MempoolError_missing_inputs (missing_inputs : list OutPoint) : MempoolError :=
  mkMempoolError MempoolErrorKind.MissingInput (Text "missing inputs") missing_inputs.

(** ** The pool *)
Record MempoolEntry := mkEntry {
  en_txid : Hash256; en_tx : Transaction; en_raw : bytes; en_time : Z; en_height : Z; en_fee : Z;
  en_value_in : Z; en_modified_size : Z; en_priority : spec_float; en_was_clear_at_entry : bool;
  en_fee_delta : Z; en_priority_delta : spec_float; en_spent_outpoints : list OutPoint;
  en_parents : list Hash256 }.

Definition entry_size (e : MempoolEntry) : Z := Z.of_nat (length (en_raw e)).
Definition modified_fee (e : MempoolEntry) : Z := saturating_add_i64 (en_fee e) (en_fee_delta e).
Definition starting_priority (e : MempoolEntry) : spec_float := en_priority e.
Definition modified_starting_priority (e : MempoolEntry) : spec_float := f64_add (en_priority e) (en_priority_delta e).
Definition MAX_PRIORITY : spec_float := f64_of_i64 10000000000000000.
(** What the age of the inputs adds. *)
Definition priority_increase (e : MempoolEntry) (current_height : Z) : spec_float :=
  let delta := f64_of_i64 (Z.max (saturating_sub_i32 current_height (en_height e)) 0) in
  let value_in := f64_of_i64 (Z.max (en_value_in e) 0) in
  f64_div (f64_mul delta value_in) (f64_of_i64 (en_modified_size e)).
Definition current_priority (e : MempoolEntry) (current_height : Z) : spec_float :=
  if en_modified_size e =? 0 then starting_priority e
  else f64_min (f64_add (en_priority e) (priority_increase e current_height)) MAX_PRIORITY.
Definition modified_current_priority (e : MempoolEntry) (current_height : Z) : spec_float :=
  if en_modified_size e =? 0 then modified_starting_priority e
  else f64_min (f64_add (f64_add (en_priority e) (priority_increase e current_height)) (en_priority_delta e))
         MAX_PRIORITY.

Record OrphanTx := mkOrphan {
  or_txid : Hash256; or_raw : bytes; or_received : Z; or_missing_parents : list Hash256; or_limit_free : bool }.
Record MempoolPrevout := mkPrevout { mpv_value : Z; mpv_script_pubkey : bytes }.
Record Prioritisation := mkPrioritisation { pr_priority_delta : spec_float; pr_fee_delta : Z }.

Record Mempool := mkMempool {
  mp_entries : gmap Hash256 MempoolEntry;
  mp_spent : gmap OutPoint Hash256;
  mp_sprout : gmap Hash256 Hash256;
  mp_sapling : gmap Hash256 Hash256;
  mp_children : gmap Hash256 (list Hash256);
  mp_prioritisations : gmap Hash256 Prioritisation;
  mp_orphans : gmap Hash256 OrphanTx;
  mp_orphans_by_parent : gmap Hash256 (list Hash256);
  mp_orphan_bytes : Z; mp_total_bytes : Z; mp_max_bytes : Z; mp_revision : Z }.

Definition Mempool_new (max_bytes : Z) : Mempool := mkMempool ∅ ∅ ∅ ∅ ∅ ∅ ∅ ∅ 0 0 max_bytes 0.

(** ** Reading the pool *)
Definition contains (txid : Hash256) (m : Mempool) : bool := is_some (mp_entries m !! txid).
Definition is_spent (outpoint : OutPoint) (m : Mempool) : bool := is_some (mp_spent m !! outpoint).
Definition spender (outpoint : OutPoint) (m : Mempool) : option Hash256 := mp_spent m !! outpoint.
Definition sprout_nullifier_spender (nullifier : Hash256) (m : Mempool) : option Hash256 := mp_sprout m !! nullifier.
Definition sapling_nullifier_spender (nullifier : Hash256) (m : Mempool) : option Hash256 := mp_sapling m !! nullifier.
Definition size (m : Mempool) : nat := base.size (mp_entries m).
Definition prevout (outpoint : OutPoint) (m : Mempool) : option MempoolPrevout :=
  entry ← mp_entries m !! hash outpoint;
  txout ← vout (en_tx entry) !! Z.to_nat (op_index outpoint);
  Some (mkPrevout (value txout) (script_pubkey txout)).
Definition add_prevout (m : Mempool) (out : gmap OutPoint MempoolPrevout) (input : TxIn) : gmap OutPoint MempoolPrevout :=
  if is_some (out !! Transaction.prevout input) then out
  else match prevout (Transaction.prevout input) m with
       | Some p => <[Transaction.prevout input := p]> out
       | None => out
       end.
Definition prevouts_for_tx (tx : Transaction) (m : Mempool) : gmap OutPoint MempoolPrevout :=
  foldl (add_prevout m) ∅ (vin tx).

(** ** Lists of children, by parent *)
Definition add_child (child : Hash256) (m : gmap Hash256 (list Hash256)) (parent : Hash256)
    : gmap Hash256 (list Hash256) :=
  let children := default [] (m !! parent) in
  <[parent := if bool_decide (child ∈ children) then children else children ++ [child]]> m.
(** [retain(|x| x != child)]. *)
Definition without (child : Hash256) (l : list Hash256) : list Hash256 := filter (fun x => x <> child) l.
Definition drop_child (child : Hash256) (m : gmap Hash256 (list Hash256)) (parent : Hash256)
    : gmap Hash256 (list Hash256) :=
  match m !! parent with
  | Some children =>
      match without child children with
      | [] => delete parent m
      | children => <[parent := children]> m
      end
  | None => m
  end.

(** ** Removing *)
Definition entry_nullifiers (e : MempoolEntry) : list Hash256 := concat (map nullifiers (join_splits (en_tx e))).
Definition entry_spends (e : MempoolEntry) : list Hash256 := map sd_nullifier (shielded_spends (en_tx e)).

(** Claims of [txid] on keys of a map of spenders. *)
Definition release {K} `{Countable K} (txid : Hash256) (keys : list K) (m : gmap K Hash256) : gmap K Hash256 :=
  foldl (fun m k => if bool_decide (m !! k = Some txid) then delete k m else m) m keys.
Definition claim {K} `{Countable K} (txid : Hash256) (keys : list K) (m : gmap K Hash256) : gmap K Hash256 :=
  foldl (fun m k => <[k := txid]> m) m keys.
(** The first key that has been claimed, and by whom. *)
Fixpoint first_claimed {K} `{Countable K} (keys : list K) (m : gmap K Hash256) : option (K * Hash256) :=
  match keys with
  | [] => None
  | k :: keys => match m !! k with Some conflict => Some (k, conflict) | None => first_claimed keys m end
  end.

Definition with_parents (parents : list Hash256) (e : MempoolEntry) : MempoolEntry :=
  mkEntry (en_txid e) (en_tx e) (en_raw e) (en_time e) (en_height e) (en_fee e) (en_value_in e)
    (en_modified_size e) (en_priority e) (en_was_clear_at_entry e) (en_fee_delta e) (en_priority_delta e)
    (en_spent_outpoints e) parents.
Definition orphan_entry (parent : Hash256) (e : MempoolEntry) : MempoolEntry :=
  with_parents (without parent (en_parents e)) e.
Definition detach (parent : Hash256) (entries : gmap Hash256 MempoolEntry) (children : list Hash256)
    : gmap Hash256 MempoolEntry :=
  foldl (fun entries child => alter (orphan_entry parent) child entries) entries children.

Definition remove (txid : Hash256) (m : Mempool) : option MempoolEntry * Mempool :=
  match mp_entries m !! txid with
  | None => (None, m)
  | Some e =>
      let children := foldl (drop_child txid) (mp_children m) (en_parents e) in
      (Some e,
       mkMempool (detach txid (delete txid (mp_entries m)) (default [] (children !! txid)))
         (release txid (en_spent_outpoints e) (mp_spent m)) (release txid (entry_nullifiers e) (mp_sprout m))
         (release txid (entry_spends e) (mp_sapling m)) (delete txid children) (mp_prioritisations m)
         (mp_orphans m) (mp_orphans_by_parent m) (mp_orphan_bytes m)
         (saturating_sub_usize (mp_total_bytes m) (entry_size e)) (mp_max_bytes m)
         (saturating_add_usize (mp_revision m) 1))
  end.
Fixpoint remove_all (txids : list Hash256) (m : Mempool) : list MempoolEntry * Mempool :=
  match txids with
  | [] => ([], m)
  | txid :: txids =>
      let '(e, m) := remove txid m in
      let '(removed, m) := remove_all txids m in
      (match e with Some e => e :: removed | None => removed end, m)
  end.

(** [visit]: what has been visited, and the order it was left in. *)
Fixpoint visit (fuel : nat) (children : gmap Hash256 (list Hash256)) (txid : Hash256)
    (st : gset Hash256 * list Hash256) : option (gset Hash256 * list Hash256) :=
  match fuel with
  | O => None
  | Datatypes.S fuel =>
      if bool_decide (txid ∈ fst st) then Some st
      else
        st ← foldl (fun st child => st ← st; visit fuel children child st)
               (Some ({[txid]} ∪ fst st, snd st)) (default [] (children !! txid));
        Some (fst st, snd st ++ [txid])
  end.
Definition visit_fuel (m : Mempool) : nat := Datatypes.S (base.size (mp_children m)).
Definition removal_order (txid : Hash256) (m : Mempool) : list Hash256 :=
  default [] (snd <$> visit (visit_fuel m) (mp_children m) txid (∅, [])).
Definition remove_with_descendants (txid : Hash256) (m : Mempool) : list MempoolEntry * Mempool :=
  remove_all (removal_order txid m) m.

(** ** Evicting *)
Record EvictCandidate := mkCandidate { ca_txid : Hash256; ca_fee : Z; ca_size : Z; ca_time : Z }.
Definition candidate_of (e : MempoolEntry) : EvictCandidate :=
  mkCandidate (en_txid e) (modified_fee e) (Z.max (entry_size e) 1) (en_time e).
(** The transaction that pays less per byte first, then the older one. *)
Definition candidate_cmp (a b : EvictCandidate) : comparison :=
  then_with (saturating_mul_i128 (ca_fee a) (ca_size b) ?= saturating_mul_i128 (ca_fee b) (ca_size a))
    (then_with (ca_time a ?= ca_time b) (bytes_cmp (ca_txid a) (ca_txid b))).
Definition candidate_le (a b : EvictCandidate) : Prop := candidate_cmp a b <> Gt.
#[global] Instance candidate_le_dec : RelDecision candidate_le.
Proof. intros a b. unfold candidate_le. apply _. Defined.

Record MempoolInsertOutcome := mkOutcome { evicted : Z; evicted_bytes : Z; evicted_txids : list Hash256 }.
Definition no_eviction : MempoolInsertOutcome := mkOutcome 0 0 [].
Fixpoint evict_loop (candidates : list EvictCandidate) (outcome : MempoolInsertOutcome) (m : Mempool)
    : MempoolInsertOutcome * Mempool :=
  match candidates with
  | [] => (outcome, m)
  | c :: candidates =>
      if mp_total_bytes m <=? mp_max_bytes m then (outcome, m)
      else
        let '(removed, m) := remove_with_descendants (ca_txid c) m in
        match removed with
        | [] => evict_loop candidates outcome m
        | _ =>
            evict_loop candidates
              (mkOutcome (saturating_add_usize (evicted outcome) (Z.of_nat (length removed)))
                 (saturating_add_usize (evicted_bytes outcome) (wrap_u64 (foldr Z.add 0 (map entry_size removed))))
                 (evicted_txids outcome ++ map en_txid removed)) m
        end
  end.
Definition evict_to_fit (m : Mempool) : MempoolInsertOutcome * Mempool :=
  evict_loop (merge_sort candidate_le (map (fun kv => candidate_of (snd kv)) (map_to_list (mp_entries m)))) no_eviction m.

(** ** Inserting *)
Definition prioritise_transaction (txid : Hash256) (priority_delta : spec_float) (fee_delta : Z) (m : Mempool) : Mempool :=
  let old := default (mkPrioritisation f64_zero 0) (mp_prioritisations m !! txid) in
  let new := mkPrioritisation (f64_add (pr_priority_delta old) priority_delta)
               (saturating_add_i64 (pr_fee_delta old) fee_delta) in
  mkMempool
    (alter (fun e => mkEntry (en_txid e) (en_tx e) (en_raw e) (en_time e) (en_height e) (en_fee e) (en_value_in e)
                       (en_modified_size e) (en_priority e) (en_was_clear_at_entry e)
                       (saturating_add_i64 (en_fee_delta e) fee_delta) (f64_add (en_priority_delta e) priority_delta)
                       (en_spent_outpoints e) (en_parents e)) txid (mp_entries m))
    (mp_spent m) (mp_sprout m) (mp_sapling m) (mp_children m) (<[txid := new]> (mp_prioritisations m)) (mp_orphans m)
    (mp_orphans_by_parent m) (mp_orphan_bytes m) (mp_total_bytes m) (mp_max_bytes m)
    (saturating_add_usize (mp_revision m) 1).

(** An entry comes with what has been asked for its transaction. *)
Definition prioritised (m : Mempool) (e : MempoolEntry) : MempoolEntry :=
  match mp_prioritisations m !! en_txid e with
  | Some p =>
      mkEntry (en_txid e) (en_tx e) (en_raw e) (en_time e) (en_height e) (en_fee e) (en_value_in e)
        (en_modified_size e) (en_priority e) (en_was_clear_at_entry e)
        (saturating_add_i64 (en_fee_delta e) (pr_fee_delta p))
        (f64_add (en_priority_delta e) (pr_priority_delta p)) (en_spent_outpoints e) (en_parents e)
  | None => e
  end.
(** What stands against an entry. *)
Definition insert_refused (m : Mempool) (e : MempoolEntry) : option MempoolError :=
  if (0 <? mp_max_bytes m) && (mp_max_bytes m <? entry_size e) then
    Some (MempoolError_new MempoolErrorKind.MempoolFull (Text "transaction too large for mempool"))
  else if contains (en_txid e) m then
    Some (MempoolError_new MempoolErrorKind.AlreadyInMempool (Text "transaction already in mempool"))
  else
    match first_claimed (en_spent_outpoints e) (mp_spent m) with
    | Some (o, t) => Some (MempoolError_new MempoolErrorKind.ConflictingInput (InputSpentBy o t))
    | None =>
        match first_claimed (entry_nullifiers e) (mp_sprout m) with
        | Some (n, t) => Some (MempoolError_new MempoolErrorKind.ConflictingInput (SproutNullifierSpentBy n t))
        | None =>
            match first_claimed (entry_spends e) (mp_sapling m) with
            | Some (n, t) => Some (MempoolError_new MempoolErrorKind.ConflictingInput (SaplingNullifierSpentBy n t))
            | None => None
            end
        end
    end.
Definition add_entry (e : MempoolEntry) (m : Mempool) : Mempool :=
  mkMempool (<[en_txid e := e]> (mp_entries m)) (claim (en_txid e) (en_spent_outpoints e) (mp_spent m))
    (claim (en_txid e) (entry_nullifiers e) (mp_sprout m)) (claim (en_txid e) (entry_spends e) (mp_sapling m))
    (foldl (add_child (en_txid e)) (mp_children m) (en_parents e)) (mp_prioritisations m) (mp_orphans m)
    (mp_orphans_by_parent m) (mp_orphan_bytes m) (saturating_add_usize (mp_total_bytes m) (entry_size e))
    (mp_max_bytes m) (saturating_add_usize (mp_revision m) 1).
Definition insert (e : MempoolEntry) (m : Mempool) : result MempoolError MempoolInsertOutcome * Mempool :=
  let e := prioritised m e in
  match insert_refused m e with
  | Some err => (Err err, m)
  | None =>
      let m := add_entry e m in
      let '(outcome, m) :=
        if (0 <? mp_max_bytes m) && (mp_max_bytes m <? mp_total_bytes m) then evict_to_fit m else (no_eviction, m) in
      if (0 <? mp_max_bytes m) && negb (contains (en_txid e) m)
      then (Err (MempoolError_new MempoolErrorKind.MempoolFull (Text "mempool full")), m)
      else (Ok outcome, m)
  end.

(** ** Transactions that wait for a parent *)
Definition DEFAULT_MAX_ORPHANS : nat := 100.
Definition DEFAULT_MAX_ORPHAN_BYTES : Z := 5 * 1024 * 1024.
Definition DEFAULT_ORPHAN_TTL_SECS : Z := 20 * 60.

Definition set_orphans (orphans : gmap Hash256 OrphanTx) (by_parent : gmap Hash256 (list Hash256)) (orphan_bytes : Z)
    (m : Mempool) : Mempool :=
  mkMempool (mp_entries m) (mp_spent m) (mp_sprout m) (mp_sapling m) (mp_children m) (mp_prioritisations m)
    orphans by_parent orphan_bytes (mp_total_bytes m) (mp_max_bytes m) (mp_revision m).

(** [BTreeSet]-like: without repetitions and in order. *)
Definition hash_order (a b : Hash256) : Prop := bytes_cmp a b <> Gt.
#[global] Instance hash_order_dec : RelDecision hash_order.
Proof. intros a b. unfold hash_order. apply _. Defined.
Definition orphan_parent_txids (missing_inputs : list OutPoint) : list Hash256 :=
  merge_sort hash_order
    (elements (list_to_set (filter (fun h => h <> zeros 32) (map hash missing_inputs)) : gset Hash256)).

Definition orphan_size (o : OrphanTx) : Z := Z.of_nat (length (or_raw o)).
(** The parents left without children are removed after the loop. *)
Definition drop_waiting (txid : Hash256) (st : gmap Hash256 (list Hash256) * list Hash256) (parent : Hash256)
    : gmap Hash256 (list Hash256) * list Hash256 :=
  match fst st !! parent with
  | Some children =>
      let children := without txid children in
      (<[parent := children]> (fst st), match children with [] => snd st ++ [parent] | _ => snd st end)
  | None => st
  end.
Definition remove_orphan (txid : Hash256) (m : Mempool) : option OrphanTx * Mempool :=
  match mp_orphans m !! txid with
  | None => (None, m)
  | Some orphan =>
      let '(by_parent, empty_parents) := foldl (drop_waiting txid) (mp_orphans_by_parent m, []) (or_missing_parents orphan) in
      (Some orphan,
       set_orphans (delete txid (mp_orphans m)) (foldl (fun m p => delete p m) by_parent empty_parents)
         (saturating_sub_usize (mp_orphan_bytes m) (orphan_size orphan)) m)
  end.

Definition prune_orphans (now : Z) (m : Mempool) : Mempool :=
  let cutoff := saturating_sub_usize now DEFAULT_ORPHAN_TTL_SECS in
  let stale := filter (fun kv => or_received (snd kv) <= cutoff) (map_to_list (mp_orphans m)) in
  foldl (fun m kv => snd (remove_orphan (fst kv) m)) m stale.

(** [min_by_key]: the first of the least. *)
Definition oldest (orphans : list OrphanTx) : option OrphanTx :=
  foldl (fun found o =>
           match found with
           | Some f => if or_received o <? or_received f then Some o else found
           | None => Some o
           end) None orphans.
Definition evict_oldest_orphan (m : Mempool) : option Mempool :=
  match oldest (map snd (map_to_list (mp_orphans m))) with
  | Some o => Some (snd (remove_orphan (or_txid o) m))
  | None => None
  end.
Definition orphans_full (orphan : OrphanTx) (m : Mempool) : bool :=
  Nat.leb DEFAULT_MAX_ORPHANS (base.size (mp_orphans m))
  || (DEFAULT_MAX_ORPHAN_BYTES <? saturating_add_usize (mp_orphan_bytes m) (orphan_size orphan)).
(** [fuel] bounds the orphans that can be evicted. *)
Fixpoint make_room (fuel : nat) (orphan : OrphanTx) (m : Mempool) : Mempool :=
  if orphans_full orphan m then
    match fuel, evict_oldest_orphan m with
    | Datatypes.S fuel, Some m => make_room fuel orphan m
    | _, _ => m
    end
  else m.
Definition insert_orphan (now : Z) (orphan : OrphanTx) (m : Mempool) : Mempool :=
  let m := prune_orphans now m in
  if DEFAULT_MAX_ORPHAN_BYTES <? orphan_size orphan then m
  else
    let m := if is_some (mp_orphans m !! or_txid orphan) then snd (remove_orphan (or_txid orphan) m) else m in
    let m := make_room (base.size (mp_orphans m)) orphan m in
    set_orphans (<[or_txid orphan := orphan]> (mp_orphans m))
      (foldl (add_child (or_txid orphan)) (mp_orphans_by_parent m) (or_missing_parents orphan))
      (saturating_add_usize (mp_orphan_bytes m) (orphan_size orphan)) m.
Definition store_orphan (now : Z) (txid : Hash256) (raw : bytes) (missing_inputs : list OutPoint) (limit_free : bool)
    (m : Mempool) : Mempool :=
  match orphan_parent_txids missing_inputs with
  | [] => m
  | missing_parents => insert_orphan now (mkOrphan txid raw now missing_parents limit_free) m
  end.

Fixpoint take_orphans (txids : list Hash256) (m : Mempool) : list OrphanTx * Mempool :=
  match txids with
  | [] => ([], m)
  | txid :: txids =>
      let '(o, m) := remove_orphan txid m in
      let '(taken, m) := take_orphans txids m in
      (match o with Some o => o :: taken | None => taken end, m)
  end.
Definition take_orphans_for_parent (parent_txid : Hash256) (m : Mempool) : list OrphanTx * Mempool :=
  match mp_orphans_by_parent m !! parent_txid with
  | None => ([], m)
  | Some txids =>
      take_orphans txids
        (set_orphans (mp_orphans m) (delete parent_txid (mp_orphans_by_parent m)) (mp_orphan_bytes m) m)
  end.
