(* ===== verification/PoolInvariant.v ===== *)
(** * The memory pool stays consistent

    Inserting, prioritising, removing and evicting keep the maps of the pool
    in step with its entries: every output and nullifier has at most one
    spender, who is in the pool; parents of entries are entries; the byte
    count is the sum of the sizes. *)

From S2P Require Import Prelude Encoding Transaction Rewards Float64 Script Fluxnode Utxo Shielded Validation HeaderChain Mempool.
From Stdlib Require Import ZArith Lia Floats.SpecFloat.
From stdpp Require Import base list option numbers strings gmap sets sorting.
#[local] Open Scope Z_scope.

(** ** Claims on keys *)
Section claims.
  Context {K : Type} {EqK : EqDecision K} {CK : Countable K}.

Lemma claim_lookup txid (keys : list K) (m : gmap K Hash256) k :
  claim txid keys m !! k = if bool_decide (k ∈ keys) then Some txid else m !! k.
Proof.
  revert m. induction keys as [|k' keys IH]; intros m; [done|].
  change (claim txid keys (<[k' := txid]> m) !! k = if bool_decide (k ∈ k' :: keys) then Some txid else m !! k). rewrite IH.
  destruct (decide (k ∈ keys)) as [Hin|Hin].
  - by rewrite !bool_decide_true by (first [done|by apply list_elem_of_further]).
  - rewrite (bool_decide_false (k ∈ keys)) by done. destruct (decide (k = k')) as [->|Hne].
    + by rewrite bool_decide_true, lookup_insert_eq by apply list_elem_of_here.
    + rewrite bool_decide_false, lookup_insert_ne; [done..|]. rewrite elem_of_cons. naive_solver.
Qed.
Lemma release_lookup txid (keys : list K) (m : gmap K Hash256) k :
  release txid keys m !! k = if bool_decide (k ∈ keys /\ m !! k = Some txid) then None else m !! k.
Proof.
  revert m. induction keys as [|k' keys IH]; intros m.
  { rewrite bool_decide_false; [done|]. intros [Hin _]. by apply not_elem_of_nil in Hin. }
  change (release txid keys (if bool_decide (m !! k' = Some txid) then delete k' m else m) !! k
          = if bool_decide (k ∈ k' :: keys /\ m !! k = Some txid) then None else m !! k).
  rewrite IH. destruct (decide (k = k')) as [->|Hne].
  - destruct (decide (m !! k' = Some txid)) as [Hm|Hm].
    + rewrite (bool_decide_true (m !! k' = _)), lookup_delete_eq by done.
      rewrite (bool_decide_true (_ /\ m !! k' = _)) by (split; [apply list_elem_of_here|done]). by case_bool_decide.
    + rewrite (bool_decide_false (m !! k' = _)) by done. rewrite !bool_decide_false by naive_solver. done.
  - assert ((if bool_decide (m !! k' = Some txid) then delete k' m else m) !! k = m !! k) as ->.
    { case_bool_decide; [by rewrite lookup_delete_ne|done]. }
    rewrite (bool_decide_ext _ (k ∈ k' :: keys /\ m !! k = Some txid)); [done|].
    rewrite elem_of_cons. naive_solver.
Qed.
Lemma first_claimed_None (keys : list K) (m : gmap K Hash256) :
  first_claimed keys m = None -> forall k, k ∈ keys -> m !! k = None.
Proof.
  induction keys as [|k' keys IH]; cbn; intros Hf k; [by rewrite elem_of_nil|].
  destruct (m !! k') eqn:E; [done|]. rewrite elem_of_cons. intros [->|Hk]; auto.
Qed.
Lemma first_claimed_Some (keys : list K) (m : gmap K Hash256) k t :
  first_claimed keys m = Some (k, t) -> k ∈ keys /\ m !! k = Some t.
Proof.
  induction keys as [|k' keys IH]; cbn; [done|]. destruct (m !! k') eqn:E.
  - intros [= <- <-]. by split; [apply list_elem_of_here|].
  - intros Hf. apply IH in Hf as [Hin Hk]. by split; [apply list_elem_of_further|].
Qed.

(** The map says exactly which entry uses which key. *)
Definition claims (keys : MempoolEntry -> list K) (entries : gmap Hash256 MempoolEntry) (m : gmap K Hash256) : Prop :=
  forall k t, m !! k = Some t <-> exists e, entries !! t = Some e /\ k ∈ keys e.

Context (keys : MempoolEntry -> list K).
Lemma claims_add entries m (t : Hash256) e :
  claims keys entries m -> entries !! t = None -> (forall k, k ∈ keys e -> m !! k = None) ->
  claims keys (<[t := e]> entries) (claim t (keys e) m).
Proof.
  intros Hc Hn Hfree k t'. rewrite claim_lookup. case_bool_decide as Hk.
  - split.
    + intros [= <-]. exists e. by rewrite lookup_insert_eq.
    + intros (e'&He&Hk'). destruct (decide (t = t')) as [->|Hne]; [done|]. rewrite lookup_insert_ne in He by done.
      assert (m !! k = Some t') as Hm by (apply Hc; eauto). by rewrite Hfree in Hm.
  - rewrite (Hc k t'). destruct (decide (t = t')) as [->|Hne].
    + rewrite lookup_insert_eq. split; [intros (e'&He&_); congruence|]. intros (e'&[= <-]&Hk'). done.
    + by rewrite lookup_insert_ne.
Qed.
Lemma claims_remove entries m (t : Hash256) e :
  claims keys entries m -> entries !! t = Some e -> claims keys (delete t entries) (release t (keys e) m).
Proof.
  intros Hc He k t'. rewrite release_lookup. case_bool_decide as Hk.
  - destruct Hk as [Hk Hm]. split; [done|]. intros (e'&He'&Hk').
    apply lookup_delete_Some in He' as [Hne He']. assert (m !! k = Some t') by (apply Hc; eauto). congruence.
  - rewrite (Hc k t'). split; intros (e'&He'&Hk').
    + exists e'. split; [|done]. apply lookup_delete_Some. split; [|done]. intros <-.
      apply Hk. split; [congruence|]. apply Hc. eauto.
    + apply lookup_delete_Some in He' as [_ He']. eauto.
Qed.
Lemma claims_same entries entries' m :
  claims keys entries m -> (forall t : Hash256, keys <$> entries' !! t = keys <$> entries !! t) -> claims keys entries' m.
Proof.
  intros Hc Hs k t. rewrite (Hc k t). specialize (Hs t).
  destruct (entries !! t) as [e|], (entries' !! t) as [e'|]; simpl in *; simplify_eq; [|naive_solver].
  split; intros (?&[= <-]&Hk); eexists; (split; [done|]); congruence.
Qed.
End claims.

(** ** Children *)
Definition kids (m : gmap Hash256 (list Hash256)) (p : Hash256) : list Hash256 := default [] (m !! p).
Definition nonempty_lists (m : gmap Hash256 (list Hash256)) : Prop := forall p, m !! p <> Some [].

Lemma elem_of_without c x l : x ∈ without c l <-> x <> c /\ x ∈ l.
Proof. unfold without. by rewrite list_elem_of_filter. Qed.
Lemma without_idemp c l : without c (without c l) = without c l.
Proof.
  unfold without. rewrite list_filter_filter. apply list_filter_iff. naive_solver.
Qed.
Lemma without_absent c l : c ∉ l -> without c l = l.
Proof.
  induction l as [|x l IH]; intros Hc; [done|]. apply not_elem_of_cons in Hc as [Hx Hl].
  unfold without. rewrite filter_cons_True by congruence. f_equal. by apply IH.
Qed.
Lemma orphan_entry_absent p e : p ∉ en_parents e -> orphan_entry p e = e.
Proof. intros Hp. unfold orphan_entry. rewrite without_absent by done. by destruct e. Qed.
Lemma add_child_kids c m p c' q :
  c' ∈ kids (add_child c m p) q <-> c' ∈ kids m q \/ c' = c /\ q = p.
Proof.
  unfold add_child, kids. cbv zeta. destruct (decide (q = p)) as [->|Hne].
  - rewrite lookup_insert_eq. simpl. case_bool_decide as Hin; [naive_solver|].
    rewrite elem_of_app, list_elem_of_singleton. naive_solver.
  - rewrite lookup_insert_ne by done. naive_solver.
Qed.
Lemma add_children_kids c ps m c' q :
  c' ∈ kids (foldl (add_child c) m ps) q <-> c' ∈ kids m q \/ c' = c /\ q ∈ ps.
Proof.
  revert m. induction ps as [|p ps IH]; intros m; simpl; [rewrite elem_of_nil; naive_solver|].
  rewrite IH, add_child_kids, elem_of_cons. naive_solver.
Qed.
Lemma add_children_nonempty c ps m : nonempty_lists m -> nonempty_lists (foldl (add_child c) m ps).
Proof.
  revert m. induction ps as [|p ps IH]; intros m Hm; simpl; [done|]. apply IH. intros q.
  unfold add_child. cbv zeta. destruct (decide (q = p)) as [->|Hne]; [|rewrite lookup_insert_ne by done; apply Hm].
  rewrite lookup_insert_eq. case_bool_decide as Hin; intros [= Heq].
  - rewrite Heq in Hin. by apply not_elem_of_nil in Hin.
  - by apply app_nil in Heq as [_ ?].
Qed.
Lemma drop_child_kids c m p c' q :
  c' ∈ kids (drop_child c m p) q <-> c' ∈ kids m q /\ ~ (c' = c /\ q = p).
Proof.
  unfold drop_child, kids. destruct (decide (q = p)) as [->|Hne].
  - destruct (m !! p) as [l|] eqn:E; simpl.
    + pose proof (elem_of_without c c' l) as Hw. destruct (without c l) as [|x l'].
      * rewrite lookup_delete_eq. simpl in *. rewrite elem_of_nil in *. naive_solver.
      * rewrite lookup_insert_eq. simpl. naive_solver.
    + rewrite E. simpl. rewrite elem_of_nil. naive_solver.
  - destruct (m !! p) as [l|]; [|naive_solver].
    destruct (without c l); [rewrite lookup_delete_ne by done|rewrite lookup_insert_ne by done]; naive_solver.
Qed.
Lemma drop_children_kids c ps m c' q :
  c' ∈ kids (foldl (drop_child c) m ps) q <-> c' ∈ kids m q /\ ~ (c' = c /\ q ∈ ps).
Proof.
  revert m. induction ps as [|p ps IH]; intros m; simpl; [rewrite elem_of_nil; naive_solver|].
  rewrite IH, drop_child_kids, elem_of_cons. naive_solver.
Qed.
Lemma drop_children_nonempty c ps m : nonempty_lists m -> nonempty_lists (foldl (drop_child c) m ps).
Proof.
  revert m. induction ps as [|p ps IH]; intros m Hm; simpl; [done|]. apply IH. intros q.
  unfold drop_child. destruct (m !! p) as [l|]; [|apply Hm].
  destruct (without c l); (destruct (decide (q = p)) as [->|Hne];
    [rewrite ?lookup_delete_eq, ?lookup_insert_eq|rewrite ?lookup_delete_ne, ?lookup_insert_ne by done]); done || apply Hm.
Qed.
Lemma kids_delete (t : Hash256) (m : gmap Hash256 (list Hash256)) c q : c ∈ kids (delete t m) q <-> q <> t /\ c ∈ kids m q.
Proof.
  unfold kids. destruct (decide (q = t)) as [->|Hne]; [rewrite lookup_delete_eq; simpl; rewrite elem_of_nil; naive_solver|].
  rewrite lookup_delete_ne by done. naive_solver.
Qed.

(** ** Entries without a parent *)
Lemma orphan_entry_idemp p e : orphan_entry p (orphan_entry p e) = orphan_entry p e.
Proof. unfold orphan_entry, with_parents. simpl. by rewrite without_idemp. Qed.
Lemma detach_lookup p entries cs (t : Hash256) :
  detach p entries cs !! t = (if bool_decide (t ∈ cs) then orphan_entry p else id) <$> entries !! t.
Proof.
  revert entries. induction cs as [|c cs IH]; intros entries.
  { rewrite bool_decide_false by apply not_elem_of_nil. simpl. by rewrite option_fmap_id. }
  change (detach p entries (c :: cs)) with (detach p (alter (orphan_entry p) c entries) cs). rewrite IH.
  destruct (decide (t = c)) as [->|Hne].
  - rewrite lookup_alter_eq, (bool_decide_true (c ∈ c :: cs)) by apply list_elem_of_here.
    destruct (entries !! c) as [e|]; simpl; [|by case_bool_decide].
    case_bool_decide; simpl; [by rewrite orphan_entry_idemp|done].
  - rewrite lookup_alter_ne by done. rewrite (bool_decide_ext (t ∈ cs) (t ∈ c :: cs)); [done|].
    rewrite elem_of_cons. naive_solver.
Qed.
Lemma detach_field {A} (f : MempoolEntry -> A) p entries cs (t : Hash256) :
  (forall e, f (orphan_entry p e) = f e) -> f <$> detach p entries cs !! t = f <$> entries !! t.
Proof.
  intros Hf. rewrite detach_lookup. destruct (entries !! t) as [e|]; simpl; [|done].
  case_bool_decide; simpl; by rewrite ?Hf.
Qed.

(** ** Sizes *)
Section totals.
  Context {A : Type} (f : A -> Z).
Definition map_total (m : gmap Hash256 A) : Z := map_fold (fun _ size total => size + total) 0 (f <$> m).
Lemma map_total_insert m (t : Hash256) a : m !! t = None -> map_total (<[t := a]> m) = f a + map_total m.
Proof.
  intros Hn. unfold map_total. rewrite fmap_insert. rewrite map_fold_insert_L; [done|intros; lia|].
  by rewrite lookup_fmap, Hn.
Qed.
Lemma map_total_delete m (t : Hash256) a : m !! t = Some a -> map_total m = f a + map_total (delete t m).
Proof.
  intros Ha. rewrite <- (insert_delete_id m t a) at 1 by done. apply map_total_insert. apply lookup_delete_eq.
Qed.
Lemma map_total_same m m' : (forall t : Hash256, f <$> m' !! t = f <$> m !! t) -> map_total m' = map_total m.
Proof. intros Hs. unfold map_total. f_equal. apply map_eq. intros t. rewrite !lookup_fmap. apply Hs. Qed.
Lemma map_total_nonneg m : (forall a, 0 <= f a) -> 0 <= map_total m.
Proof.
  intros Hf. unfold map_total. assert (forall (i : Hash256) x, (f <$> m) !! i = Some x -> 0 <= x) as Hx.
  { intros i x. rewrite lookup_fmap. intros (a&_&->)%fmap_Some. apply Hf. }
  revert Hx. generalize (f <$> m).
  apply (map_fold_weak_ind (fun r sizes => (forall (i : Hash256) x, sizes !! i = Some x -> 0 <= x) -> 0 <= r)); [lia|].
  intros i x sizes r Hi Hr Hx. assert (0 <= x) by (apply (Hx i); by rewrite lookup_insert_eq).
  enough (0 <= r) by lia. apply Hr. intros j y Hj. apply (Hx j). rewrite lookup_insert_ne; [done|]. intros ->. congruence.
Qed.
End totals.
Definition entries_bytes : gmap Hash256 MempoolEntry -> Z := map_total entry_size.
Lemma entry_size_nonneg e : 0 <= entry_size e.
Proof. unfold entry_size. lia. Qed.

(** ** The pool *)
Record pool_ok (m : Mempool) : Prop := {
  ok_keys (t : Hash256) e : mp_entries m !! t = Some e -> en_txid e = t;
  ok_spent : claims en_spent_outpoints (mp_entries m) (mp_spent m);
  ok_sprout : claims entry_nullifiers (mp_entries m) (mp_sprout m);
  ok_sapling : claims entry_spends (mp_entries m) (mp_sapling m);
  ok_children p c : c ∈ kids (mp_children m) p <-> exists e, mp_entries m !! c = Some e /\ p ∈ en_parents e;
  ok_nonempty : nonempty_lists (mp_children m);
  ok_parents (t : Hash256) e p : mp_entries m !! t = Some e -> p ∈ en_parents e -> is_Some (mp_entries m !! p);
  ok_bytes : mp_total_bytes m = entries_bytes (mp_entries m) }.

Lemma pool_ok_new max : pool_ok (Mempool_new max).
Proof.
  split; simpl; try done.
  1-3: intros k t; rewrite lookup_empty; split; [done|]; intros (e&He&_); by rewrite lookup_empty in He.
  - intros p c. unfold kids. rewrite lookup_empty. simpl. rewrite elem_of_nil. split; [done|].
    intros (e&He&_). by rewrite lookup_empty in He.
Qed.

(** What removing an entry does to the entries. *)
Definition removed_entries (t : Hash256) (m : Mempool) : gmap Hash256 MempoolEntry := mp_entries (snd (Mempool.remove t m)).
Lemma remove_lookup m (t k : Hash256) :
  pool_ok m ->
  removed_entries t m !! k = if bool_decide (k = t) then None else orphan_entry t <$> mp_entries m !! k.
Proof.
  intros Hm. unfold removed_entries, Mempool.remove. destruct (mp_entries m !! t) as [e|] eqn:Et; simpl.
  - rewrite detach_lookup. case_bool_decide as Hk; case_bool_decide as Hkt.
    + subst. by rewrite lookup_delete_eq.
    + by rewrite lookup_delete_ne.
    + subst. by rewrite lookup_delete_eq.
    + rewrite lookup_delete_ne by done. destruct (mp_entries m !! k) as [e'|] eqn:Ek; simpl; [|done].
      f_equal. symmetry. apply orphan_entry_absent. intros Hx. apply Hk.
      assert (k ∈ kids (foldl (drop_child t) (mp_children m) (en_parents e)) t) as Hin; [|exact Hin].
      apply drop_children_kids. split; [apply ok_children; eauto|naive_solver].
  - case_bool_decide as Hkt; [by subst|]. destruct (mp_entries m !! k) as [e'|] eqn:Ek; simpl; [|done].
    f_equal. symmetry. apply orphan_entry_absent. intros Hx. destruct (ok_parents m Hm _ _ _ Ek Hx). congruence.
Qed.

Lemma remove_field {A} (f : MempoolEntry -> A) m (t k : Hash256) :
  pool_ok m -> (forall p e, f (orphan_entry p e) = f e) ->
  f <$> removed_entries t m !! k = f <$> delete t (mp_entries m) !! k.
Proof.
  intros Hm Hf. rewrite remove_lookup by done. case_bool_decide as Hk.
  - subst. by rewrite lookup_delete_eq.
  - rewrite lookup_delete_ne by done. destruct (mp_entries m !! k); simpl; [by rewrite Hf|done].
Qed.
Lemma remove_present m (t : Hash256) e :
  mp_entries m !! t = Some e ->
  let m' := snd (Mempool.remove t m) in
  mp_spent m' = release t (en_spent_outpoints e) (mp_spent m)
  /\ mp_sprout m' = release t (entry_nullifiers e) (mp_sprout m)
  /\ mp_sapling m' = release t (entry_spends e) (mp_sapling m)
  /\ mp_children m' = delete t (foldl (drop_child t) (mp_children m) (en_parents e))
  /\ mp_total_bytes m' = saturating_sub_usize (mp_total_bytes m) (entry_size e).
Proof. intros He. unfold Mempool.remove. by rewrite He. Qed.
Lemma remove_absent m (t : Hash256) : mp_entries m !! t = None -> Mempool.remove t m = (None, m).
Proof. intros Hn. unfold Mempool.remove. by rewrite Hn. Qed.

Lemma pool_ok_remove m (t : Hash256) : pool_ok m -> pool_ok (snd (Mempool.remove t m)).
Proof.
  intros Hm. destruct (mp_entries m !! t) as [e|] eqn:Et; [|by rewrite remove_absent].
  pose proof (remove_present m t e Et) as (Es&En&Ep&Ec&Eb).
  assert (forall k e', mp_entries (snd (Mempool.remove t m)) !! k = Some e' ->
    k <> t /\ exists e0, mp_entries m !! k = Some e0 /\ e' = orphan_entry t e0) as Hl.
  { intros k e' Hk. change (removed_entries t m !! k = Some e') in Hk. rewrite remove_lookup in Hk by done.
    case_bool_decide; [done|]. apply fmap_Some in Hk as (e0&He0&->). eauto. }
  assert (forall k e0, k <> t -> mp_entries m !! k = Some e0 ->
    mp_entries (snd (Mempool.remove t m)) !! k = Some (orphan_entry t e0)) as Hr.
  { intros k e0 Hk He0. change (removed_entries t m !! k = Some (orphan_entry t e0)).
    rewrite remove_lookup, bool_decide_false, He0 by done. done. }
  split.
  - intros k e' Hk. apply Hl in Hk as (_&e0&He0&->). by apply (ok_keys m Hm) in He0.
  - rewrite Es. eapply claims_same; [by apply claims_remove, Et; apply Hm|]. intros k. by apply remove_field.
  - rewrite En. eapply claims_same; [by apply claims_remove, Et; apply Hm|]. intros k. by apply remove_field.
  - rewrite Ep. eapply claims_same; [by apply claims_remove, Et; apply Hm|]. intros k. by apply remove_field.
  - intros p c. rewrite Ec, kids_delete, drop_children_kids, (ok_children m Hm). split.
    + intros (Hp&(e0&He0&Hin)&Hn). assert (c <> t) as Hc by (intros ->; apply Hn; split; congruence).
      exists (orphan_entry t e0). split; [by apply Hr|]. apply elem_of_without. auto.
    + intros (e'&He'&Hin). apply Hl in He' as (Hc&e0&He0&->). apply elem_of_without in Hin as [Hp Hin].
      split_and!; [done|eauto|naive_solver].
  - rewrite Ec. intros q. destruct (decide (q = t)) as [->|Hq]; [by rewrite lookup_delete_eq|].
    rewrite lookup_delete_ne by done. apply drop_children_nonempty, Hm.
  - intros k e' p Hk Hin. apply Hl in Hk as (_&e0&He0&->). apply elem_of_without in Hin as [Hp Hin].
    destruct (ok_parents m Hm _ _ _ He0 Hin) as [e1 He1]. rewrite (Hr p e1) by done. done.
  - rewrite Eb, (ok_bytes m Hm), (map_total_delete entry_size _ _ _ Et : entries_bytes _ = _).
    assert (entries_bytes (mp_entries (snd (Mempool.remove t m))) = entries_bytes (delete t (mp_entries m))) as ->.
    { apply map_total_same. intros k. by apply (remove_field entry_size). }
    pose proof (map_total_nonneg entry_size (delete t (mp_entries m)) entry_size_nonneg). unfold entries_bytes. unfold saturating_sub_usize. lia.
Qed.

Lemma pool_ok_add m e :
  pool_ok m -> mp_entries m !! en_txid e = None ->
  (forall k, k ∈ en_spent_outpoints e -> mp_spent m !! k = None) ->
  (forall k, k ∈ entry_nullifiers e -> mp_sprout m !! k = None) ->
  (forall k, k ∈ entry_spends e -> mp_sapling m !! k = None) ->
  (forall p, p ∈ en_parents e -> is_Some (mp_entries m !! p)) ->
  mp_total_bytes m + entry_size e <= usize_max ->
  pool_ok (add_entry e m).
Proof.
  intros Hm Hn Hs Hj Hp Hpar Hb. split; simpl.
  - intros t e'. destruct (decide (t = en_txid e)) as [->|Hne]; [by rewrite lookup_insert_eq; intros [= <-]|].
    rewrite lookup_insert_ne by done. apply (ok_keys m Hm).
  - apply claims_add; auto. apply Hm.
  - apply claims_add; auto. apply Hm.
  - apply claims_add; auto. apply Hm.
  - intros p c. rewrite add_children_kids, (ok_children m Hm). destruct (decide (c = en_txid e)) as [->|Hne].
    + rewrite lookup_insert_eq. split; [intros [(e'&He'&_)|[_ Hin]]; [congruence|eauto]|].
      intros (e'&[= <-]&Hin). auto.
    + rewrite lookup_insert_ne by done. naive_solver.
  - apply add_children_nonempty, Hm.
  - intros t e' p. assert (forall q, is_Some (mp_entries m !! q) -> is_Some (<[en_txid e:=e]> (mp_entries m) !! q)) as Hq.
    { intros q Hq. rewrite lookup_insert. by case_decide. }
    destruct (decide (t = en_txid e)) as [->|Hne].
    + rewrite lookup_insert_eq. intros [= <-] Hin. auto.
    + rewrite lookup_insert_ne by done. intros He' Hin. apply Hq. by apply (ok_parents m Hm t e').
  - unfold entries_bytes. rewrite map_total_insert by done. fold entries_bytes. rewrite <- (ok_bytes m Hm). unfold saturating_add_usize. lia.
Qed.

(** A change of the entries that keeps what the other maps follow. *)
Definition same_entry (e e' : MempoolEntry) : Prop :=
  en_txid e' = en_txid e /\ en_spent_outpoints e' = en_spent_outpoints e
  /\ en_tx e' = en_tx e /\ en_parents e' = en_parents e /\ en_raw e' = en_raw e.
Lemma prioritised_same m e : same_entry e (prioritised m e).
Proof. unfold prioritised. destruct (mp_prioritisations m !! en_txid e); done. Qed.
Lemma pool_ok_same m m' :
  pool_ok m -> (forall t : Hash256, option_relation same_entry (fun _ => False) (fun _ => False) (mp_entries m !! t) (mp_entries m' !! t)) ->
  mp_spent m' = mp_spent m -> mp_sprout m' = mp_sprout m -> mp_sapling m' = mp_sapling m ->
  mp_children m' = mp_children m -> mp_total_bytes m' = mp_total_bytes m -> pool_ok m'.
Proof.
  intros Hm Hr Es Ej Ep Ec Eb.
  assert (forall (t : Hash256) e', mp_entries m' !! t = Some e' -> exists e, mp_entries m !! t = Some e /\ same_entry e e') as Hl.
  { intros t e' He'. specialize (Hr t). rewrite He' in Hr. destruct (mp_entries m !! t); simpl in Hr; [eauto|done]. }
  assert (forall (t : Hash256) e, mp_entries m !! t = Some e -> exists e', mp_entries m' !! t = Some e' /\ same_entry e e') as Hl'.
  { intros t e He. specialize (Hr t). rewrite He in Hr. destruct (mp_entries m' !! t); simpl in Hr; [eauto|done]. }
  assert (forall A (f : MempoolEntry -> A), (forall e e', same_entry e e' -> f e' = f e) ->
            forall t : Hash256, f <$> mp_entries m' !! t = f <$> mp_entries m !! t) as Hf.
  { intros A f Hf t. specialize (Hr t). destruct (mp_entries m !! t), (mp_entries m' !! t); simpl in *; try done. f_equal. by apply Hf. }
  split.
  - intros t e' He'. apply Hl in He' as (e&He&Hs&_). rewrite Hs. by apply (ok_keys m Hm).
  - rewrite Es. eapply claims_same; [apply Hm|]. apply Hf. by intros e e' (?&?&?&?&?).
  - rewrite Ej. eapply claims_same; [apply Hm|]. apply Hf. unfold entry_nullifiers. intros e e' (?&?&Ht&?&?). by rewrite Ht.
  - rewrite Ep. eapply claims_same; [apply Hm|]. apply Hf. unfold entry_spends. intros e e' (?&?&Ht&?&?). by rewrite Ht.
  - intros p c. rewrite Ec, (ok_children m Hm). split; intros (e&He&Hin).
    + apply Hl' in He as (e'&He'&?&?&?&Hp&?). exists e'. by rewrite Hp.
    + apply Hl in He as (e0&He0&?&?&?&Hp&?). exists e0. by rewrite <- Hp.
  - rewrite Ec. apply Hm.
  - intros t e' p He' Hin. apply Hl in He' as (e&He&?&?&?&Hp&?). rewrite Hp in Hin.
    destruct (ok_parents m Hm t e p He Hin) as [e1 He1]. apply Hl' in He1 as (e1'&He1'&_). eauto.
  - rewrite Eb, (ok_bytes m Hm). symmetry. apply map_total_same. apply Hf. unfold entry_size.
    intros e e' (?&?&?&?&Hraw). by rewrite Hraw.
Qed.
Lemma pool_ok_prioritise m txid d f : pool_ok m -> pool_ok (prioritise_transaction txid d f m).
Proof.
  intros Hm. apply (pool_ok_same m); try done. intros t. simpl.
  destruct (decide (t = txid)) as [->|Hne]; [rewrite lookup_alter_eq|rewrite lookup_alter_ne by done];
    by destruct (mp_entries m !! _).
Qed.

Lemma pool_ok_remove_all txids m : pool_ok m -> pool_ok (snd (remove_all txids m)).
Proof.
  revert m. induction txids as [|t txids IH]; intros m Hm; simpl; [done|].
  pose proof (pool_ok_remove m t Hm) as Hr. destruct (Mempool.remove t m) as [e m1]. simpl in Hr.
  specialize (IH m1 Hr). by destruct (remove_all txids m1) as [removed m2].
Qed.
Lemma pool_ok_remove_with_descendants txid m : pool_ok m -> pool_ok (snd (remove_with_descendants txid m)).
Proof. apply pool_ok_remove_all. Qed.
Lemma pool_ok_evict_loop cs out m : pool_ok m -> pool_ok (snd (evict_loop cs out m)).
Proof.
  revert out m. induction cs as [|c cs IH]; intros out m Hm; simpl; [done|].
  case_match; [done|]. pose proof (pool_ok_remove_with_descendants (ca_txid c) m Hm) as Hr.
  destruct (remove_with_descendants (ca_txid c) m) as [removed m1]. by destruct removed; apply IH.
Qed.

(** An entry that may be inserted: its parents are in the pool, and the bytes
    of the pool can be counted. *)
Definition insertable (m : Mempool) (e : MempoolEntry) : Prop :=
  (forall p, p ∈ en_parents e -> is_Some (mp_entries m !! p)) /\ mp_total_bytes m + entry_size e <= usize_max.
Lemma insert_refused_None m e :
  insert_refused m e = None ->
  mp_entries m !! en_txid e = None
  /\ (forall k, k ∈ en_spent_outpoints e -> mp_spent m !! k = None)
  /\ (forall k, k ∈ entry_nullifiers e -> mp_sprout m !! k = None)
  /\ (forall k, k ∈ entry_spends e -> mp_sapling m !! k = None)
  /\ (mp_max_bytes m <= 0 \/ entry_size e <= mp_max_bytes m).
Proof.
  unfold insert_refused, contains. destruct (_ && _) eqn:Eb; [done|].
  destruct (mp_entries m !! en_txid e) eqn:Ee; [done|].
  destruct (first_claimed (en_spent_outpoints e) _) as [[??]|] eqn:E1; [done|].
  destruct (first_claimed (entry_nullifiers e) _) as [[??]|] eqn:E2; [done|].
  destruct (first_claimed (entry_spends e) _) as [[??]|] eqn:E3; [done|]. intros _.
  split_and!; eauto using first_claimed_None. apply andb_false_iff in Eb as [Eb|Eb]; lia.
Qed.
Lemma pool_ok_prioritised_add m e :
  pool_ok m -> insertable m e -> insert_refused m (prioritised m e) = None -> pool_ok (add_entry (prioritised m e) m).
Proof.
  intros Hm [Hp Hb] Hi. apply insert_refused_None in Hi as (Hn&Hs&Hj&Hsp&_).
  destruct (prioritised_same m e) as (Et&Es&Etx&Epa&Er).
  apply pool_ok_add; try done; [by rewrite Epa|]. unfold entry_size in *. by rewrite Er.
Qed.
Lemma pool_ok_insert m e : pool_ok m -> insertable m e -> pool_ok (snd (Mempool.insert e m)).
Proof.
  intros Hm Hi. unfold Mempool.insert. cbv zeta. destruct (insert_refused m (prioritised m e)) eqn:Ei; [done|].
  pose proof (pool_ok_prioritised_add m e Hm Hi Ei) as Ha.
  match goal with |- context [if ?c then evict_to_fit _ else _] => destruct c end.
  - unfold evict_to_fit. pose proof (pool_ok_evict_loop (merge_sort candidate_le
      (map (fun kv => candidate_of kv.2) (map_to_list (mp_entries (add_entry (prioritised m e) m))))) no_eviction _ Ha) as He.
    destruct (evict_loop _ _ _) as [o m1]. by destruct (_ && _).
  - by destruct (_ && _).
Qed.
