(* ===== verification/PoolEviction.v ===== *)
(** * Eviction from the memory pool

    The recursive visit terminates and lists exactly the descendants of a
    transaction; a pool that is too large loses its cheapest transactions with
    their descendants, and no others, until it fits. *)

From S2P Require Import Prelude Encoding Transaction Rewards Float64 Script Fluxnode Utxo Shielded Validation HeaderChain Payees Mempool PoolInvariant.
From Stdlib Require Import ZArith Lia Floats.SpecFloat.
From stdpp Require Import base list option numbers strings gmap sets sorting relations.
#[local] Open Scope Z_scope.

(** ** Visiting descendants *)
Abbreviation Children := (gmap Hash256 (list Hash256)).
Definition child_of (children : Children) (p c : Hash256) : Prop := c ∈ kids children p.
Abbreviation descends children := (rtc (child_of children)).

(** What a visit adds to its state: the new elements, each left once, after
    all of its children. *)
Definition visited_more (children : Children) (st st' : gset Hash256 * list Hash256) : Prop :=
  exists new, snd st' = snd st ++ new /\ NoDup new
    /\ (forall x, x ∈ fst st' <-> x ∈ fst st \/ x ∈ new)
    /\ (forall x, x ∈ new -> x ∉ fst st)
    /\ (forall x, x ∈ new -> forall c, child_of children x c -> c ∈ fst st').
Lemma visited_more_refl children st : visited_more children st st.
Proof.
  exists []. rewrite app_nil_r. split_and!; [done|constructor|intros x; rewrite elem_of_nil; naive_solver|..];
    intros x Hx; by apply not_elem_of_nil in Hx.
Qed.
Lemma visited_more_mono children st st' x : visited_more children st st' -> x ∈ fst st -> x ∈ fst st'.
Proof. intros (new&_&_&Hf&_) Hx. apply Hf. auto. Qed.
Lemma visited_more_trans children st1 st2 st3 :
  visited_more children st1 st2 -> visited_more children st2 st3 -> visited_more children st1 st3.
Proof.
  intros H12 H23. pose proof H23 as H23'. destruct H12 as (n1&E1&D1&F1&I1&C1), H23 as (n2&E2&D2&F2&I2&C2).
  exists (n1 ++ n2). split_and!.
  - by rewrite E2, E1, app_assoc.
  - apply NoDup_app. split_and!; [done| |done]. intros x Hx1 Hx2. apply (I2 x Hx2). apply F1. auto.
  - intros x. rewrite F2, F1, elem_of_app. naive_solver.
  - intros x. rewrite elem_of_app. intros [Hx|Hx]; [auto|]. intros Hf. apply (I2 x Hx), F1. auto.
  - intros x. rewrite elem_of_app. intros [Hx|Hx] c Hc; [|by apply (C2 x)].
    eapply visited_more_mono; [exact H23'|]. by apply (C1 x).
Qed.

(** Nodes that have children and are still to be visited. *)
Definition unvisited (children : Children) (visited : gset Hash256) : nat := base.size (dom children ∖ visited).

Lemma visit_ok fuel children t st :
  (unvisited children (fst st) < fuel)%nat ->
  exists st', visit fuel children t st = Some st' /\ visited_more children st st' /\ t ∈ fst st'
    /\ forall x, x ∈ fst st' -> x ∈ fst st \/ descends children t x.
Proof.
  revert t st. induction fuel as [|fuel IH]; intros t st Hf; [lia|]. cbn [visit].
  case_bool_decide as Ht; [exists st; split_and!; [done|apply visited_more_refl|done|auto]|].
  destruct st as [visited order]. cbn [fst snd] in *.
  assert (forall cs st0, visited_more children ({[t]} ∪ visited, order) st0 ->
    (forall c, c ∈ cs -> child_of children t c) ->
    exists st1, foldl (fun st child => st ← st; visit fuel children child st) (Some st0) cs = Some st1
      /\ visited_more children st0 st1 /\ (forall c, c ∈ cs -> c ∈ fst st1)
      /\ forall x, x ∈ fst st1 -> x ∈ fst st0 \/ exists c, c ∈ cs /\ descends children c x) as Hloop.
  { induction cs as [|c cs IHcs]; intros st0 H0 Hcs; simpl.
    { exists st0. split_and!; [done|apply visited_more_refl| |auto]. intros c Hc. by apply not_elem_of_nil in Hc. }
    destruct (IH c st0) as (st1&E1&H1&Hc1&Hd1).
    { assert (t ∈ dom children) as Hd.
      { assert (child_of children t c) as Hk by (apply Hcs, list_elem_of_here). unfold child_of, kids in Hk.
        apply elem_of_dom. destruct (children !! t); [eauto|]. by apply not_elem_of_nil in Hk. }
      assert (unvisited children (fst st0) < unvisited children visited)%nat; [|lia].
      unfold unvisited. apply subset_size. split.
      - intros x. rewrite !elem_of_difference. intros [Hx Hv]. split; [done|]. intros Hv'. apply Hv.
        apply (visited_more_mono _ _ _ _ H0). apply elem_of_union. auto.
      - intros Hs. assert (t ∈ dom children ∖ fst st0) as Hin by (apply Hs; apply elem_of_difference; auto).
        apply elem_of_difference in Hin as [_ Hin]. apply Hin, (visited_more_mono _ _ _ _ H0).
        apply elem_of_union. left. by apply elem_of_singleton. }
    rewrite E1. destruct (IHcs st1) as (st2&E2&H2&Hc2&Hd2).
    { by eapply visited_more_trans. }
    { intros c' Hc'. apply Hcs. by apply list_elem_of_further. }
    exists st2. split_and!; [done|by eapply visited_more_trans| |].
    - intros c' [->|Hc']%elem_of_cons; [|auto]. by eapply visited_more_mono.
    - intros x Hx. apply Hd2 in Hx as [Hx|(c'&Hc'&Hx)].
      + apply Hd1 in Hx as [Hx|Hx]; [auto|]. right. exists c. split; [apply list_elem_of_here|done].
      + right. exists c'. split; [by apply list_elem_of_further|done]. }
  destruct (Hloop (kids children t) ({[t]} ∪ visited, order)) as (st1&E1&H1&Hc1&Hd1); [apply visited_more_refl|done|].
  unfold kids in E1. rewrite E1. cbn [mbind option_bind fst snd]. eexists. split; [reflexivity|].
  destruct H1 as (new&En&Dn&Fn&In&Cn). cbn [fst snd] in *. split_and!.
  - exists (new ++ [t]). cbn [fst snd]. split_and!.
    + by rewrite En, app_assoc.
    + apply NoDup_app. split_and!; [done| |apply NoDup_singleton]. intros x Hx Hxt.
      apply list_elem_of_singleton in Hxt as ->. apply (In t Hx). apply elem_of_union. left. by apply elem_of_singleton.
    + intros x. rewrite Fn, elem_of_union, elem_of_singleton, elem_of_app, list_elem_of_singleton. naive_solver.
    + intros x. rewrite elem_of_app, list_elem_of_singleton. intros [Hx| ->]; [|done]. intros Hv. apply (In x Hx).
      apply elem_of_union. auto.
    + intros x. rewrite elem_of_app, list_elem_of_singleton. intros [Hx| ->] c Hc; [by apply (Cn x)|by apply Hc1].
  - apply Fn. left. apply elem_of_union. left. by apply elem_of_singleton.
  - intros x Hx. apply Hd1 in Hx as [Hx|(c&Hc&Hx)].
    + apply elem_of_union in Hx as [->%elem_of_singleton|Hx]; [right; reflexivity|auto].
    + right. by apply rtc_l with c.
Qed.

(** The visit of [remove_with_descendants] never runs out of fuel, and lists
    the descendants of the transaction, itself included, once each. *)
Lemma removal_order_spec txid m :
  is_Some (visit (visit_fuel m) (mp_children m) txid (∅, []))
  /\ NoDup (removal_order txid m)
  /\ forall x, x ∈ removal_order txid m <-> descends (mp_children m) txid x.
Proof.
  destruct (visit_ok (visit_fuel m) (mp_children m) txid (∅, [])) as ([visited order]&E&Hm&Hin&Hd).
  { unfold unvisited, visit_fuel. cbn [fst]. rewrite difference_empty_L, size_dom. lia. }
  unfold removal_order. rewrite E. split; [eauto|]. simpl. destruct Hm as (new&En&Dn&Hf&_&Hc).
  cbn [fst snd] in *. rewrite app_nil_l in En. subst new. split; [done|]. intros x.
  assert (forall y, y ∈ visited <-> y ∈ order) as Hv.
  { intros y. rewrite Hf. split; [|auto]. intros [Hy|Hy]; [by apply elem_of_empty in Hy|done]. }
  rewrite <- Hv. split.
  - intros Hx. apply Hd in Hx as [Hx|Hx]; [by apply elem_of_empty in Hx|done].
  - intros Hr. clear E Hd. revert Hin. induction Hr as [|x y z Hxy Hyz IH]; intros Hin; [done|].
    apply IH. apply (Hc x); [by apply Hv|done].
Qed.

(** ** Removing transactions *)
Lemma remove_result m (t : Hash256) : fst (Mempool.remove t m) = mp_entries m !! t.
Proof. unfold Mempool.remove. by destruct (mp_entries m !! t). Qed.
Lemma remove_max m t : mp_max_bytes (snd (Mempool.remove t m)) = mp_max_bytes m.
Proof. unfold Mempool.remove. by destruct (mp_entries m !! t). Qed.
(** Fields of an entry that do not depend on its parents. *)
Definition own_fields (e : MempoolEntry) : MempoolEntry := with_parents [] e.
Lemma remove_own m (t k : Hash256) :
  pool_ok m -> own_fields <$> mp_entries (snd (Mempool.remove t m)) !! k
               = if bool_decide (k = t) then None else own_fields <$> mp_entries m !! k.
Proof.
  intros Hm. pose proof (remove_field own_fields m t k Hm) as Hf. unfold removed_entries in Hf. rewrite Hf by done.
  case_bool_decide; [subst; by rewrite lookup_delete_eq|by rewrite lookup_delete_ne].
Qed.
Lemma remove_kids m (t p c : Hash256) :
  pool_ok m -> c ∈ kids (mp_children (snd (Mempool.remove t m))) p -> c ∈ kids (mp_children m) p.
Proof.
  intros Hm. destruct (mp_entries m !! t) as [e|] eqn:Et; [|by rewrite remove_absent].
  destruct (remove_present m t e Et) as (_&_&_&->&_). rewrite kids_delete, drop_children_kids. naive_solver.
Qed.
Lemma remove_all_spec txids m :
  pool_ok m ->
  let m' := snd (remove_all txids m) in
  (forall k : Hash256, own_fields <$> mp_entries m' !! k
                       = if bool_decide (k ∈ txids) then None else own_fields <$> mp_entries m !! k)
  /\ (forall p c, c ∈ kids (mp_children m') p -> c ∈ kids (mp_children m) p)
  /\ mp_max_bytes m' = mp_max_bytes m
  /\ (NoDup txids -> map en_txid (fst (remove_all txids m))
        = filter (fun t => is_Some (mp_entries m !! t)) txids).
Proof.
  cbv zeta. revert m. induction txids as [|t txids IH]; intros m Hm.
  { by split_and!. }
  cbn [remove_all]. pose proof (pool_ok_remove m t Hm) as Hm1. pose proof (remove_own m t) as Ho.
  pose proof (remove_kids m t) as Hk. pose proof (remove_max m t) as Hx. pose proof (remove_result m t) as Hres.
  destruct (Mempool.remove t m) as [e m1]. cbn [fst snd] in *.
  destruct (IH m1 Hm1) as (I1&I2&I3&I4). destruct (remove_all txids m1) as [removed m2]. cbn [fst snd] in *.
  split_and!.
  - intros k. rewrite I1, Ho by done. destruct (decide (k ∈ txids)) as [Hin|Hin].
    + by rewrite !bool_decide_true by (first [done|by apply list_elem_of_further]).
    + rewrite (bool_decide_false (k ∈ txids)) by done. destruct (decide (k = t)) as [->|Hkt].
      * by rewrite !bool_decide_true by (first [done|apply list_elem_of_here]).
      * rewrite (bool_decide_false (k = t)), (bool_decide_false (k ∈ t :: txids)); [done| |done].
        by rewrite elem_of_cons; intros [?|?].
  - intros p c Hc. by apply Hk, I2.
  - congruence.
  - intros [Hnin Hnd]%NoDup_cons. assert (filter (fun t0 : Hash256 => is_Some (mp_entries m1 !! t0)) txids
        = filter (fun t0 : Hash256 => is_Some (mp_entries m !! t0)) txids) as Hf.
    { clear -Ho Hm Hnin. induction txids as [|x l IHl]; [done|]. apply not_elem_of_cons in Hnin as [Hxt Hnin].
      rewrite !filter_cons, IHl by done. specialize (Ho x Hm). rewrite bool_decide_false in Ho by done.
      destruct (mp_entries m1 !! x) eqn:E1, (mp_entries m !! x) eqn:E2; by simpl in Ho. }
    rewrite filter_cons, <- Hf, <- I4 by done. destruct e as [e|]; rewrite <- Hres.
    + rewrite decide_True by eauto. simpl. f_equal. symmetry in Hres. by apply (ok_keys m Hm) in Hres.
    + by rewrite decide_False by (by intros [? ?]).
Qed.

(** ** The order of eviction *)
Definition candidate_ok (c : EvictCandidate) : Prop := is_i64 (ca_fee c) /\ 1 <= ca_size c <= usize_max.

Lemma then_with_not_gt a b : then_with a b <> Gt <-> a = Lt \/ a = Eq /\ b <> Gt.
Proof. destruct a, b; naive_solver. Qed.
Lemma bytes_cmp_not_gt a b c : bytes_cmp a b <> Gt -> bytes_cmp b c <> Gt -> bytes_cmp a c <> Gt.
Proof.
  destruct (bytes_cmp a b) eqn:E1; [apply bytes_cmp_eq in E1 as ->; done| |done].
  destruct (bytes_cmp b c) eqn:E2; [apply bytes_cmp_eq in E2 as <-; congruence| |done].
  by rewrite (bytes_cmp_trans a b c).
Qed.
Lemma saturating_mul_exact f s : is_i64 f -> 0 <= s <= usize_max -> saturating_mul_i128 f s = f * s.
Proof. unfold saturating_mul_i128, usize_max. unfold_ints. intros Hf Hs. nia. Qed.
Lemma candidate_le_spec a b :
  candidate_ok a -> candidate_ok b ->
  candidate_le a b <->
    ca_fee a * ca_size b < ca_fee b * ca_size a
    \/ ca_fee a * ca_size b = ca_fee b * ca_size a
       /\ (ca_time a < ca_time b \/ ca_time a = ca_time b /\ bytes_cmp (ca_txid a) (ca_txid b) <> Gt).
Proof.
  intros [Hfa Hsa] [Hfb Hsb]. unfold candidate_le, candidate_cmp.
  rewrite !saturating_mul_exact by (done || lia). rewrite !then_with_not_gt.
  by rewrite !Z.compare_lt_iff, !Z.compare_eq_iff.
Qed.
Lemma candidate_le_trans a b c :
  candidate_ok a -> candidate_ok b -> candidate_ok c -> candidate_le a b -> candidate_le b c -> candidate_le a c.
Proof.
  intros Ha Hb Hc. rewrite !candidate_le_spec by done. destruct Ha as [_ Hsa], Hb as [_ Hsb], Hc as [_ Hsc].
  intros [H1|[H1 T1]] [H2|[H2 T2]]; [left; nia..|]. right. split; [nia|].
  destruct T1 as [T1|[T1 N1]], T2 as [T2|[T2 N2]]; [left; lia..|]. right. split; [lia|]. by eapply bytes_cmp_not_gt.
Qed.
#[export] Instance candidate_le_total : Total candidate_le.
Proof.
  intros a b. unfold candidate_le. destruct (candidate_cmp a b) eqn:E; [by left..|]. right.
  assert (candidate_cmp b a = CompOpp (candidate_cmp a b)) as ->; [|by rewrite E].
  unfold candidate_cmp. rewrite !then_with_opp, <- !Z.compare_antisym, bytes_cmp_opp. done.
Qed.
Lemma candidates_sorted l :
  Forall candidate_ok l -> StronglySorted candidate_le (merge_sort candidate_le l).
Proof.
  intros Hl. assert (Forall candidate_ok (merge_sort candidate_le l)) as Hs.
  { by rewrite (merge_sort_Permutation candidate_le l). }
  pose proof (Sorted_merge_sort candidate_le l) as Hsort. revert Hs Hsort. generalize (merge_sort candidate_le l).
  clear. induction l as [|a l IH]; intros Hok Hs; [constructor|]. apply Forall_cons in Hok as [Ha Hl].
  apply Sorted_inv in Hs as [Hs Hd]. specialize (IH Hl Hs). constructor; [done|].
  destruct Hd as [|b l Hab]; [constructor|]. apply Forall_cons in Hl as [Hb Hl]. constructor; [done|].
  apply StronglySorted_inv in IH as [_ Hbl]. rewrite Forall_forall in *. intros x Hx.
  eapply candidate_le_trans; [exact Ha|exact Hb| |exact Hab|]; auto.
Qed.

(** ** What the loop of [evict_to_fit] removes *)
Lemma descends_mono m m' t x :
  (forall p c, c ∈ kids (mp_children m') p -> c ∈ kids (mp_children m) p) ->
  descends (mp_children m') t x -> descends (mp_children m) t x.
Proof. intros Hk Hr. induction Hr as [|x y z Hxy _ IH]; [done|]. apply rtc_l with y; [by apply Hk|done]. Qed.
Lemma descends_present m t x :
  pool_ok m -> descends (mp_children m) t x -> is_Some (mp_entries m !! x) -> is_Some (mp_entries m !! t).
Proof.
  intros Hm Hr Hx. destruct Hr as [|t y x Hty _]; [done|]. apply (ok_children m Hm) in Hty as (e&He&Hin).
  by apply (ok_parents m Hm y e).
Qed.
Lemma own_present m m' (k : Hash256) :
  own_fields <$> mp_entries m' !! k = own_fields <$> mp_entries m !! k ->
  is_Some (mp_entries m' !! k) <-> is_Some (mp_entries m !! k).
Proof. destruct (mp_entries m' !! k), (mp_entries m !! k); simpl; intros ?; simplify_eq; split; intros []; eauto. Qed.
Lemma own_absent m (k : Hash256) : own_fields <$> mp_entries m !! k = None -> mp_entries m !! k = None.
Proof. by destruct (mp_entries m !! k). Qed.

(** The transactions removed with [t]: its descendants that are in the pool. *)
Lemma remove_with_descendants_spec m t :
  pool_ok m ->
  let removed := map en_txid (fst (remove_with_descendants t m)) in
  let m' := snd (remove_with_descendants t m) in
  pool_ok m' /\ NoDup removed
  /\ (forall x, x ∈ removed <-> descends (mp_children m) t x /\ is_Some (mp_entries m !! x))
  /\ (forall k : Hash256, own_fields <$> mp_entries m' !! k
                          = if bool_decide (k ∈ removed) then None else own_fields <$> mp_entries m !! k)
  /\ (forall p c, c ∈ kids (mp_children m') p -> c ∈ kids (mp_children m) p)
  /\ mp_max_bytes m' = mp_max_bytes m /\ mp_entries m' !! t = None.
Proof.
  intros Hm. cbv zeta. destruct (removal_order_spec t m) as (_&Hnd&Ho).
  destruct (remove_all_spec (removal_order t m) m Hm) as (I1&I2&I3&I4). specialize (I4 Hnd).
  unfold remove_with_descendants in *. rewrite I4.
  assert (forall x, x ∈ filter (fun t0 : Hash256 => is_Some (mp_entries m !! t0)) (removal_order t m)
            <-> descends (mp_children m) t x /\ is_Some (mp_entries m !! x)) as Hf.
  { intros x. rewrite list_elem_of_filter, Ho. naive_solver. }
  split_and!; [by apply pool_ok_remove_all|by apply NoDup_filter|done| |done|done|].
  - intros k. rewrite I1. destruct (decide (is_Some (mp_entries m !! k))) as [Hk|Hk].
    + rewrite (bool_decide_ext (k ∈ filter _ _) (k ∈ removal_order t m)); [done|]. rewrite Hf, Ho. naive_solver.
    + apply eq_None_not_Some in Hk. rewrite Hk. simpl. by case_bool_decide; case_bool_decide.
  - apply own_absent. rewrite I1, bool_decide_true; [done|]. by apply Ho.
Qed.

Lemma evict_loop_spec cs out m :
  pool_ok m ->
  let out' := fst (evict_loop cs out m) in let m' := snd (evict_loop cs out m) in
  exists handled rest new,
    cs = handled ++ rest /\ evicted_txids out' = evicted_txids out ++ new
    /\ (forall k : Hash256, own_fields <$> mp_entries m' !! k
                            = if bool_decide (k ∈ new) then None else own_fields <$> mp_entries m !! k)
    /\ (forall x, x ∈ new -> is_Some (mp_entries m !! x)
          /\ exists c, c ∈ handled /\ ca_txid c ∈ new /\ descends (mp_children m) (ca_txid c) x)
    /\ (forall c, c ∈ handled -> mp_entries m' !! ca_txid c = None)
    /\ (mp_total_bytes m' <= mp_max_bytes m \/ rest = []) /\ NoDup new /\ mp_max_bytes m' = mp_max_bytes m.
Proof.
  cbv zeta. revert out m. induction cs as [|c cs IH]; intros out m Hm; cbn [evict_loop].
  { exists [], [], []. split_and!; [done|by rewrite app_nil_r|intros k; reflexivity|by intros ? ?%not_elem_of_nil|by intros ? ?%not_elem_of_nil|by right|constructor|done]. }
  destruct (mp_total_bytes m <=? mp_max_bytes m) eqn:Eb.
  { exists [], (c :: cs), [].
    split_and!; [done|by rewrite app_nil_r|intros k; reflexivity|by intros ? ?%not_elem_of_nil|by intros ? ?%not_elem_of_nil|left; simpl; lia|constructor|done]. }
  destruct (remove_with_descendants_spec m (ca_txid c) Hm) as (Hm1&Hnd&Hin&Hown&Hk&Hmax&Hgone). cbv zeta in *.
  destruct (remove_with_descendants (ca_txid c) m) as [removed m1]. cbn [fst snd] in *.
  assert (forall out1, exists handled rest new, c :: cs = handled ++ rest
    /\ evicted_txids (fst (evict_loop cs out1 m1)) = evicted_txids out1 ++ new
    /\ (forall k : Hash256, own_fields <$> mp_entries (snd (evict_loop cs out1 m1)) !! k
          = if bool_decide (k ∈ map en_txid removed ++ new) then None else own_fields <$> mp_entries m !! k)
    /\ (forall x, x ∈ map en_txid removed ++ new -> is_Some (mp_entries m !! x)
          /\ exists c, c ∈ handled /\ ca_txid c ∈ map en_txid removed ++ new /\ descends (mp_children m) (ca_txid c) x)
    /\ (forall c, c ∈ handled -> mp_entries (snd (evict_loop cs out1 m1)) !! ca_txid c = None)
    /\ (mp_total_bytes (snd (evict_loop cs out1 m1)) <= mp_max_bytes m \/ rest = []) 
    /\ NoDup (map en_txid removed ++ new) /\ mp_max_bytes (snd (evict_loop cs out1 m1)) = mp_max_bytes m) as Hstep.
  { intros out1. destruct (IH out1 m1 Hm1) as (handled&rest&new&Ecs&Eout&Hl&Hn&Hh&Hb&Hnn&Hx).
    assert (forall x, x ∈ new -> is_Some (mp_entries m1 !! x) -> x ∉ map en_txid removed) as Hfresh.
    { intros x Hx1 Hs Hr. specialize (Hown x). rewrite bool_decide_true in Hown by done.
      apply own_absent in Hown. rewrite Hown in Hs. by destruct Hs. }
    exists (c :: handled), rest, new. split_and!; [by rewrite Ecs|done| | | | | |congruence].
    - intros k. rewrite Hl, Hown, !bool_decide_decide. destruct (decide (k ∈ new)) as [Hkn|Hkn].
      + by rewrite decide_True by (apply elem_of_app; auto).
      + destruct (decide (k ∈ map en_txid removed)) as [Hkr|Hkr].
        * by rewrite decide_True by (apply elem_of_app; auto).
        * rewrite decide_False; [done|]. rewrite elem_of_app. naive_solver.
    - intros x [Hx1|Hx1]%elem_of_app.
      + apply Hin in Hx1 as [Hd Hp]. split; [done|]. exists c. split_and!; [apply list_elem_of_here| |done].
        apply elem_of_app. left. apply Hin. split; [done|]. by eapply descends_present.
      + destruct (Hn x Hx1) as (Hp&c'&Hc'&Hcn&Hd). split.
        * specialize (Hown x). rewrite bool_decide_false in Hown by auto. by apply own_present in Hown; apply Hown.
        * exists c'. split_and!; [by apply list_elem_of_further|apply elem_of_app; auto|by eapply descends_mono].
    - intros c' [->|Hc']%elem_of_cons; [|auto]. apply own_absent. rewrite Hl, (proj2 (fmap_None _ _) Hgone).
      by case_bool_decide.
    - by rewrite <- Hmax.
    - apply NoDup_app. split_and!; [done| |done]. intros x Hr Hx1. destruct (Hn x Hx1) as [Hs _].
      by apply (Hfresh x). }
  destruct removed as [|e removed].
  - destruct (Hstep out) as (handled&rest&new&?). by exists handled, rest, new.
  - match goal with |- context [evict_loop cs ?o m1] => destruct (Hstep o) as (handled&rest&new&Ecs&Eout&Hrest) end.
    exists handled, rest, (map en_txid (e :: removed) ++ new). split; [done|]. split; [|exact Hrest].
    rewrite Eout. cbn [evicted_txids]. by rewrite app_assoc.
Qed.

(** ** [evict_to_fit] *)
Lemma entry_size_bound m (t : Hash256) e : pool_ok m -> mp_entries m !! t = Some e -> 0 <= entry_size e <= mp_total_bytes m.
Proof.
  intros Hm He. rewrite (ok_bytes m Hm), (map_total_delete entry_size _ _ _ He : entries_bytes _ = _).
  pose proof (map_total_nonneg entry_size (delete t (mp_entries m)) entry_size_nonneg). pose proof (entry_size_nonneg e). lia.
Qed.
Lemma candidate_of_ok m (t : Hash256) e :
  pool_ok m -> mp_total_bytes m <= usize_max -> mp_entries m !! t = Some e -> candidate_ok (candidate_of e).
Proof.
  intros Hm Hb He. pose proof (entry_size_bound m t e Hm He). unfold candidate_ok, candidate_of, usize_max in *. simpl.
  unfold modified_fee, saturating_add_i64. unfold_ints. lia.
Qed.
Definition candidates (m : Mempool) : list EvictCandidate :=
  merge_sort candidate_le (map (fun kv => candidate_of (snd kv)) (map_to_list (mp_entries m))).
Lemma elem_of_candidates m c :
  c ∈ candidates m <-> exists (t : Hash256) e, mp_entries m !! t = Some e /\ c = candidate_of e.
Proof.
  unfold candidates. rewrite merge_sort_Permutation, list_elem_of_In, in_map_iff. split.
  - intros ([t e]&<-&Hin). apply list_elem_of_In, elem_of_map_to_list in Hin. eauto.
  - intros (t&e&He&->). exists (t, e). split; [done|]. by apply list_elem_of_In, elem_of_map_to_list.
Qed.
Lemma candidate_own e e' : own_fields e' = own_fields e -> candidate_of e' = candidate_of e.
Proof. destruct e, e'. unfold own_fields, with_parents. simpl. intros [=]. by subst. Qed.

(** [x] pays at most as much per byte as [y]. *)
Definition pays_no_more (x y : MempoolEntry) : Prop :=
  modified_fee x * Z.max (entry_size y) 1 <= modified_fee y * Z.max (entry_size x) 1.

Lemma evict_to_fit_spec m :
  pool_ok m -> mp_total_bytes m <= usize_max -> 0 <= mp_max_bytes m ->
  let out := fst (evict_to_fit m) in let m' := snd (evict_to_fit m) in
  pool_ok m' /\ mp_max_bytes m' = mp_max_bytes m /\ mp_total_bytes m' <= mp_max_bytes m /\ NoDup (evicted_txids out)
  /\ (forall k : Hash256, own_fields <$> mp_entries m' !! k
        = if bool_decide (k ∈ evicted_txids out) then None else own_fields <$> mp_entries m !! k)
  /\ forall x, x ∈ evicted_txids out ->
       exists (c : Hash256) ce, c ∈ evicted_txids out /\ mp_entries m !! c = Some ce
         /\ descends (mp_children m) c x
         /\ forall (k : Hash256) y, mp_entries m' !! k = Some y -> pays_no_more ce y.
Proof.
  intros Hm Hu Hmax. cbv zeta. unfold evict_to_fit. fold (candidates m).
  pose proof (pool_ok_evict_loop (candidates m) no_eviction m Hm) as Hm'.
  destruct (evict_loop_spec (candidates m) no_eviction m Hm) as (handled&rest&new&Ecs&Eout&Hl&Hn&Hh&Hb&Hnd&Hx).
  cbv zeta in *. rewrite app_nil_l in Eout. destruct (evict_loop _ _ _) as [out m']. cbn [fst snd] in *. rewrite Eout.
  assert (forall (k : Hash256) y, mp_entries m' !! k = Some y -> candidate_of y ∈ rest) as Hrest.
  { intros k y Hy. pose proof (Hl k) as Hlk. rewrite Hy in Hlk. case_bool_decide; [done|]. simpl in Hlk.
    symmetry in Hlk. apply fmap_Some in Hlk as (e&He&Eo). rewrite (candidate_own _ _ Eo).
    assert (candidate_of e ∈ candidates m) as Hin by (apply elem_of_candidates; by exists k, e).
    rewrite Ecs in Hin. apply elem_of_app in Hin as [Hin|Hin]; [|done]. apply Hh in Hin. simpl in Hin.
    rewrite (ok_keys m Hm _ _ He) in Hin. congruence. }
  split_and!; try done.
  - destruct Hb as [Hb| ->]; [done|]. rewrite (ok_bytes m' Hm'). assert (mp_entries m' = ∅) as ->.
    { apply map_eq. intros k. rewrite lookup_empty. destruct (mp_entries m' !! k) eqn:E; [|done].
      apply Hrest in E. by apply not_elem_of_nil in E. }
    unfold entries_bytes, map_total. rewrite fmap_empty, map_fold_empty. done.
  - intros x Hx1. destruct (Hn x Hx1) as (_&c&Hc&Hcn&Hd).
    assert (c ∈ candidates m) as Hin by (rewrite Ecs; apply elem_of_app; auto).
    apply elem_of_candidates in Hin as (t&ce&He&->). pose proof (ok_keys m Hm _ _ He) as Ht. simpl in Hcn, Hd.
    rewrite Ht in *. exists t, ce. split_and!; [done..|]. intros k y Hy.
    assert (Forall candidate_ok (map (fun kv => candidate_of (snd kv)) (map_to_list (mp_entries m)))) as Hok.
    { apply Forall_forall. intros c Hc'. apply list_elem_of_In, in_map_iff in Hc' as ([k' e']&<-&Hin).
      apply list_elem_of_In, elem_of_map_to_list in Hin. exact (candidate_of_ok m k' e' Hm Hu Hin). }
    pose proof (candidates_sorted _ Hok) as Hs. fold (candidates m) in Hs. rewrite Ecs in Hs.
    assert (candidate_le (candidate_of ce) (candidate_of y)) as Hle by (eapply StronglySorted_app_1_elem_of; eauto).
    pose proof (Hl k) as Hlk. rewrite Hy in Hlk. case_bool_decide; [done|]. simpl in Hlk.
    symmetry in Hlk. apply fmap_Some in Hlk as (e0&He0&Eo).
    rewrite candidate_le_spec in Hle by (rewrite ?(candidate_own _ _ Eo);
      first [exact (candidate_of_ok m t ce Hm Hu He)|exact (candidate_of_ok m k e0 Hm Hu He0)]).
    unfold pays_no_more. simpl in Hle. lia.
Qed.

(** ** Inserting, as a whole *)
Lemma prioritised_max m e : mp_max_bytes (add_entry (prioritised m e) m) = mp_max_bytes m.
Proof. done. Qed.

(** C33: a full pool makes room at the expense of what pays least.  When
    a transaction is inserted, the pool holds it, fits in its limit, and holds
    what it held but for the transactions reported as evicted, each once; each
    of those is, or descends from, an evicted transaction that pays no more
    per byte than any transaction that stays. *)
Theorem insert_evicts_cheapest (m m' : Mempool) (e : MempoolEntry) (outcome : MempoolInsertOutcome) :
  pool_ok m -> insertable m e -> 0 <= mp_max_bytes m ->
  Mempool.insert e m = (Ok outcome, m') ->
  let m1 := add_entry (prioritised m e) m in
  is_Some (mp_entries m' !! en_txid e) /\ (0 < mp_max_bytes m -> mp_total_bytes m' <= mp_max_bytes m)
  /\ NoDup (evicted_txids outcome)
  /\ (forall k : Hash256, own_fields <$> mp_entries m' !! k
        = if bool_decide (k ∈ evicted_txids outcome) then None else own_fields <$> mp_entries m1 !! k)
  /\ forall x, x ∈ evicted_txids outcome ->
       exists (c : Hash256) ce, c ∈ evicted_txids outcome /\ mp_entries m1 !! c = Some ce
         /\ descends (mp_children m1) c x
         /\ forall (k : Hash256) y, mp_entries m' !! k = Some y -> pays_no_more ce y.
Proof.
  intros Hm Hi Hmax Hins. cbv zeta. unfold Mempool.insert in Hins. cbv zeta in Hins.
  destruct (insert_refused m (prioritised m e)) eqn:Er; [done|].
  pose proof (pool_ok_prioritised_add m e Hm Hi Er) as Ha. destruct (prioritised_same m e) as (Et&_&_&_&Eraw).
  set (m1 := add_entry (prioritised m e) m) in *. assert (mp_max_bytes m1 = mp_max_bytes m) as Emax by done.
  assert (mp_total_bytes m1 <= usize_max) as Hu by (simpl; unfold saturating_add_usize; lia).
  destruct ((0 <? mp_max_bytes m1) && (mp_max_bytes m1 <? mp_total_bytes m1)) eqn:Eb.
  - pose proof (evict_to_fit_spec m1 Ha Hu) as Hs. rewrite Emax in Hs. specialize (Hs Hmax). cbv zeta in Hs.
    destruct (evict_to_fit m1) as [out m2]. cbn [fst snd] in *. destruct Hs as (Hok&Hx&Hfit&Hnd&Hl&Hc).
    destruct (_ && negb _) eqn:Ec in Hins; [done|]. injection Hins as <- <-.
    split_and!; [|done..]. rewrite Hx in Ec. apply andb_true_iff in Eb as [Eb _]. rewrite Emax in Eb.
    rewrite Eb in Ec. unfold contains in Ec. rewrite Et in Ec. destruct (mp_entries m2 !! en_txid e); [eauto|done].
  - destruct (_ && negb _) eqn:Ec in Hins; [done|]. injection Hins as <- <-.
    split_and!; [|intros Hp; apply andb_false_iff in Eb as [Eb|Eb]; lia|constructor|..].
    + simpl. rewrite Et, lookup_insert_eq. eauto.
    + intros k. rewrite bool_decide_false; [done|]. apply not_elem_of_nil.
    + intros x Hx. by apply not_elem_of_nil in Hx.
Qed.

(** What an insertion that fails has done. *)
Definition refusal (m : Mempool) (e : MempoolEntry) (err : MempoolError) : Prop :=
  match err_kind err with
  | MempoolErrorKind.AlreadyInMempool => is_Some (mp_entries m !! en_txid e)
  | MempoolErrorKind.ConflictingInput =>
      (exists o t, o ∈ en_spent_outpoints e /\ mp_spent m !! o = Some t)
      \/ (exists n t, n ∈ entry_nullifiers e /\ mp_sprout m !! n = Some t)
      \/ (exists n t, n ∈ entry_spends e /\ mp_sapling m !! n = Some t)
  | MempoolErrorKind.MempoolFull => 0 < mp_max_bytes m < entry_size e
  | _ => False
  end.
Lemma refused_why m e err : insert_refused m e = Some err -> refusal m e err.
Proof.
  unfold insert_refused, contains, refusal. destruct (_ && _) eqn:Eb; [apply andb_true_iff in Eb; intros [= <-]; simpl; lia|].
  destruct (mp_entries m !! en_txid e) eqn:Ee; [intros [= <-]; simpl; eauto|].
  destruct (first_claimed (en_spent_outpoints e) _) as [[o t]|] eqn:E1.
  { intros [= <-]. left. exists o, t. by apply first_claimed_Some in E1. }
  destruct (first_claimed (entry_nullifiers e) _) as [[o t]|] eqn:E2.
  { intros [= <-]. right. left. exists o, t. by apply first_claimed_Some in E2. }
  destruct (first_claimed (entry_spends e) _) as [[o t]|] eqn:E3; [|done].
  intros [= <-]. right. right. exists o, t. by apply first_claimed_Some in E3.
Qed.

