(* ===== verification/Orphans.v ===== *)
(** * Transactions that wait for a parent, and the history of the pool

    The orphans of the memory pool are indexed by the parents they miss and
    bounded in number and bytes.  With what inserting and removing keep, this
    gives the invariant of every history of the pool. *)

From S2P Require Import Prelude Encoding Transaction Rewards Float64 Script Fluxnode Utxo Shielded Validation HeaderChain Payees Mempool PoolInvariant PoolEviction.
From Stdlib Require Import ZArith Lia Floats.SpecFloat.
From stdpp Require Import base list option numbers strings gmap sets sorting relations.
#[local] Open Scope Z_scope.

(** ** The index by parent *)
Lemma drop_waiting_spec (t : Hash256) (ps : list Hash256) (m m' : Children) (empties empties' : list Hash256) :
  foldl (drop_waiting t) (m, empties) ps = (m', empties') ->
  (forall q : Hash256, m !! q = Some [] -> q ∈ empties) -> (forall q : Hash256, q ∈ empties -> m !! q = Some []) ->
  (forall c q, c ∈ kids m' q <-> c ∈ kids m q /\ ~ (c = t /\ q ∈ ps))
  /\ (forall q : Hash256, m' !! q = Some [] -> q ∈ empties') /\ (forall q : Hash256, q ∈ empties' -> m' !! q = Some [])
  /\ (forall q : Hash256, m !! q = None -> m' !! q = None).
Proof.
  revert m empties. induction ps as [|p ps IH]; intros m empties Hf H1 H2.
  { injection Hf as <- <-. split_and!; try done. intros c q. rewrite elem_of_nil. naive_solver. }
  change (foldl (drop_waiting t) (drop_waiting t (m, empties) p) ps = (m', empties')) in Hf.
  unfold drop_waiting in Hf at 2. cbn [fst snd] in Hf. destruct (m !! p) as [l|] eqn:Ep.
  - apply IH in Hf as (K&E1&E2&E3).
    + split_and!; [|done|done|].
      * intros c q. rewrite K, elem_of_cons. unfold kids. destruct (decide (q = p)) as [->|Hne].
        -- rewrite lookup_insert_eq, Ep. simpl. rewrite elem_of_without. naive_solver.
        -- rewrite lookup_insert_ne by done. naive_solver.
      * intros q Hq. apply E3. destruct (decide (q = p)) as [->|Hne]; [congruence|by rewrite lookup_insert_ne].
    + intros q. destruct (decide (q = p)) as [->|Hne].
      * rewrite lookup_insert_eq. intros [= Hw]. rewrite Hw. apply elem_of_app. right. by apply list_elem_of_singleton.
      * rewrite lookup_insert_ne by done. intros Hq. apply H1 in Hq. destruct (without t l); [apply elem_of_app; auto|done].
    + intros q. destruct (decide (q = p)) as [->|Hne].
      * intros Hin. rewrite lookup_insert_eq. destruct (without t l) as [|x l'] eqn:Ew; [done|].
        apply H2 in Hin. rewrite Ep in Hin. injection Hin as ->. done.
      * rewrite lookup_insert_ne by done. intros Hin. apply H2. destruct (without t l); [|done].
        apply elem_of_app in Hin as [Hin|Hin]; [done|]. by apply list_elem_of_singleton in Hin.
  - apply IH in Hf as (K&E1&E2&E3); [|done..]. split_and!; [|done..].
    intros c q. rewrite K, elem_of_cons. split; [|naive_solver]. intros [Hk Hn]. split; [done|].
    intros [-> [->|Hq]]; [|by apply Hn]. unfold kids in Hk. rewrite Ep in Hk. by apply not_elem_of_nil in Hk.
Qed.
Lemma delete_all_lookup (ps : list Hash256) (m : Children) (q : Hash256) :
  foldl (fun m p => delete p m) m ps !! q = if bool_decide (q ∈ ps) then None else m !! q.
Proof.
  revert m. induction ps as [|p ps IH]; intros m; [done|].
  change (foldl (fun m p => delete p m) m (p :: ps)) with (foldl (fun m p => delete p m) (delete p m) ps). rewrite IH.
  destruct (decide (q = p)) as [->|Hne].
  - rewrite lookup_delete_eq, (bool_decide_true (p ∈ p :: ps)) by apply list_elem_of_here. by case_bool_decide.
  - rewrite lookup_delete_ne by done. rewrite (bool_decide_ext (q ∈ ps) (q ∈ p :: ps)); [done|].
    rewrite elem_of_cons. naive_solver.
Qed.

(** ** The orphans *)
Definition orphans_bytes : gmap Hash256 OrphanTx -> Z := map_total orphan_size.
Lemma orphan_size_nonneg o : 0 <= orphan_size o.
Proof. unfold orphan_size. lia. Qed.

(** The index is exact, but for a parent [X] whose orphans are being taken. *)
Record orphans_ok (X : option Hash256) (m : Mempool) : Prop := {
  oo_keys (t : Hash256) o : mp_orphans m !! t = Some o -> or_txid o = t;
  oo_index p t : Some p <> X ->
    t ∈ kids (mp_orphans_by_parent m) p <-> exists o, mp_orphans m !! t = Some o /\ p ∈ or_missing_parents o;
  oo_hole p : X = Some p -> mp_orphans_by_parent m !! p = None;
  oo_nonempty : nonempty_lists (mp_orphans_by_parent m);
  oo_bytes : mp_orphan_bytes m = orphans_bytes (mp_orphans m) }.

(** Orphans leave the rest of the pool alone. *)
Definition orphans_only (m m' : Mempool) : Prop :=
  exists orphans by_parent n, m' = set_orphans orphans by_parent n m.
#[export] Instance orphans_only_preorder : PreOrder orphans_only.
Proof.
  split; [intros m; exists (mp_orphans m), (mp_orphans_by_parent m), (mp_orphan_bytes m); by destruct m|].
  intros m1 m2 m3 (o1&b1&n1&->) (o2&b2&n2&->). by exists o2, b2, n2.
Qed.
Lemma pool_ok_orphans m m' : orphans_only m m' -> pool_ok m -> pool_ok m'.
Proof.
  intros (o&b&n&->) Hm. apply (pool_ok_same m); try done. intros t. simpl. by destruct (mp_entries m !! t).
Qed.

Lemma remove_orphan_only t m : orphans_only m (snd (remove_orphan t m)).
Proof.
  unfold remove_orphan. destruct (mp_orphans m !! t); [|reflexivity]. destruct (foldl _ _ _). simpl. unfold orphans_only. eauto.
Qed.
Lemma remove_orphan_result t m : fst (remove_orphan t m) = mp_orphans m !! t.
Proof. unfold remove_orphan. destruct (mp_orphans m !! t); [|done]. by destruct (foldl _ _ _). Qed.
Lemma remove_orphan_orphans t m : mp_orphans (snd (remove_orphan t m)) = delete t (mp_orphans m).
Proof.
  unfold remove_orphan. destruct (mp_orphans m !! t) eqn:E; [by destruct (foldl _ _ _)|].
  simpl. by rewrite delete_id.
Qed.
Lemma orphans_ok_remove X t m : orphans_ok X m -> orphans_ok X (snd (remove_orphan t m)).
Proof.
  intros Hm. unfold remove_orphan. destruct (mp_orphans m !! t) as [o|] eqn:Eo; [|done].
  destruct (foldl (drop_waiting t) (mp_orphans_by_parent m, []) (or_missing_parents o)) as [bp empties] eqn:Ef.
  apply drop_waiting_spec in Ef as (K&E1&E2&E3); [|intros q Hq; by apply (oo_nonempty X m Hm) in Hq|intros q Hq; by apply not_elem_of_nil in Hq].
  cbn [snd]. set (bp' := foldl (fun m p => delete p m) bp empties).
  assert (forall c q, c ∈ kids bp' q <-> c ∈ kids bp q) as Hk.
  { intros c q. unfold kids, bp'. rewrite delete_all_lookup. case_bool_decide as Hq; [|done]. by rewrite (E2 q Hq). }
  split; cbn [mp_orphans mp_orphans_by_parent mp_orphan_bytes set_orphans].
  - intros t' o' Ho. apply lookup_delete_Some in Ho as [_ Ho]. by apply (oo_keys X m Hm).
  - intros p t' Hp. rewrite Hk, K, (oo_index X m Hm) by done. split.
    + intros ((o'&Ho'&Hin)&Hn). exists o'. split; [|done]. apply lookup_delete_Some. split; [|done].
      intros <-. apply Hn. split; [done|]. congruence.
    + intros (o'&Ho'&Hin). apply lookup_delete_Some in Ho' as [Hne Ho']. split; [eauto|naive_solver].
  - intros p Hp. unfold bp'. rewrite delete_all_lookup. case_bool_decide; [done|]. apply E3. by apply (oo_hole X m Hm).
  - intros q. unfold bp'. rewrite delete_all_lookup. case_bool_decide as Hq; [done|]. intros Hq'. by apply E1 in Hq'.
  - rewrite (oo_bytes X m Hm). unfold orphans_bytes. rewrite (map_total_delete orphan_size _ _ _ Eo).
    pose proof (map_total_nonneg orphan_size (delete t (mp_orphans m)) orphan_size_nonneg). unfold saturating_sub_usize. lia.
Qed.

(** A step on orphans that only removes some. *)
Definition fewer (X : option Hash256) (m m' : Mempool) : Prop :=
  orphans_only m m' /\ mp_orphans m' ⊆ mp_orphans m /\ (orphans_ok X m -> orphans_ok X m').
#[export] Instance fewer_preorder X : PreOrder (fewer X).
Proof.
  split; [intros m; split_and!; done || reflexivity|]. intros m1 m2 m3 (A1&B1&C1) (A2&B2&C2).
  split_and!; [by etrans|by etrans|auto].
Qed.
Lemma fewer_remove X t m : fewer X m (snd (remove_orphan t m)).
Proof.
  split_and!; [apply remove_orphan_only| |apply orphans_ok_remove]. rewrite remove_orphan_orphans. apply delete_subseteq.
Qed.
Lemma fewer_prune X now m : fewer X m (prune_orphans now m).
Proof.
  unfold prune_orphans. cbv zeta. generalize (filter (fun kv : Hash256 * OrphanTx => or_received (snd kv) <= saturating_sub_usize now DEFAULT_ORPHAN_TTL_SECS) (map_to_list (mp_orphans m))).
  intros l. revert m. induction l as [|kv l IH]; intros m; simpl; [reflexivity|]. etrans; [apply fewer_remove|apply IH].
Qed.
Lemma oldest_elem l o : oldest l = Some o -> o ∈ l.
Proof.
  unfold oldest. assert (forall found, foldl (fun found o => match found with
     | Some f => if or_received o <? or_received f then Some o else found | None => Some o end) found l = Some o ->
     found = Some o \/ o ∈ l) as Hl; [|intros Ho; by apply Hl in Ho as [?|?]].
  induction l as [|x l IH]; intros found; simpl; [auto|]. intros Hf. apply IH in Hf as [Hf|Hf].
  - destruct found as [f|]; [destruct (_ <? _)|]; simplify_eq; auto; right; apply list_elem_of_here.
  - right. by apply list_elem_of_further.
Qed.
Lemma oldest_some l : l <> [] -> is_Some (oldest l).
Proof.
  unfold oldest. assert (forall f, is_Some (foldl (fun found o => match found with
     | Some f => if or_received o <? or_received f then Some o else found | None => Some o end) (Some f) l)) as Hl.
  { induction l as [|x l IH]; intros f; simpl; [eauto|]. destruct (_ <? _); apply IH. }
  destruct l as [|x l]; [done|]. intros _. simpl. clear Hl. revert x. induction l as [|y l IH]; intros x; simpl; [eauto|].
  destruct (_ <? _); apply IH.
Qed.
Lemma evict_oldest_spec X m :
  orphans_ok X m ->
  match evict_oldest_orphan m with
  | Some m' => fewer X m m' /\ (base.size (mp_orphans m') < base.size (mp_orphans m))%nat
  | None => mp_orphans m = ∅
  end.
Proof.
  intros Hm. unfold evict_oldest_orphan. destruct (oldest _) as [o|] eqn:Eo.
  - split; [apply fewer_remove|]. apply oldest_elem, list_elem_of_In, in_map_iff in Eo as ([t o']&Ho&Hin).
    simpl in Ho. subst o'. apply list_elem_of_In, elem_of_map_to_list in Hin. rewrite (oo_keys X m Hm _ _ Hin).
    rewrite remove_orphan_orphans. rewrite map_size_delete_Some by eauto.
    assert (base.size (mp_orphans m) <> 0)%nat; [|lia]. intros Hz. apply map_size_empty_iff in Hz. rewrite Hz in Hin.
    by rewrite lookup_empty in Hin.
  - destruct (map snd (map_to_list (mp_orphans m))) eqn:El; [|by destruct (oldest_some (o :: l)) as [? E]; [done|congruence]].
    apply map_eq_nil in El. by apply map_to_list_empty_iff.
Qed.
(** The fuel of [make_room] is enough: there is room afterwards. *)
Lemma make_room_spec fuel o m :
  orphans_ok None m -> (base.size (mp_orphans m) <= fuel)%nat -> orphan_size o <= DEFAULT_MAX_ORPHAN_BYTES ->
  fewer None m (make_room fuel o m) /\ orphans_full o (make_room fuel o m) = false.
Proof.
  revert m. induction fuel as [|fuel IH]; intros m Hm Hs Ho; cbn [make_room]; destruct (orphans_full o m) eqn:Ef;
    try (split; [reflexivity|done]).
  - exfalso. assert (mp_orphans m = ∅) as He by (apply map_size_empty_iff; lia).
    unfold orphans_full in Ef. rewrite (oo_bytes None m Hm), He in Ef. unfold orphans_bytes, map_total in Ef.
    rewrite fmap_empty, map_fold_empty, map_size_empty in Ef. unfold saturating_add_usize in Ef.
    apply orb_true_iff in Ef as [Ef|Ef]; [done|]. lia.
  - pose proof (evict_oldest_spec None m Hm) as He. destruct (evict_oldest_orphan m) as [m1|].
    + destruct He as [Hf Hlt]. destruct (IH m1) as [Hf1 Hn]; [by apply Hf|lia|done|].
      split; [by etrans|done].
    + exfalso. unfold orphans_full in Ef. rewrite (oo_bytes None m Hm), He in Ef. unfold orphans_bytes, map_total in Ef.
      rewrite fmap_empty, map_fold_empty, map_size_empty in Ef. unfold saturating_add_usize in Ef.
      apply orb_true_iff in Ef as [Ef|Ef]; [done|]. lia.
Qed.

Definition orphans_fit (m : Mempool) : Prop :=
  (base.size (mp_orphans m) <= DEFAULT_MAX_ORPHANS)%nat /\ mp_orphan_bytes m <= DEFAULT_MAX_ORPHAN_BYTES.
Lemma map_total_sub {A} (f : A -> Z) (m m' : gmap Hash256 A) :
  (forall a, 0 <= f a) -> m' ⊆ m -> map_total f m' <= map_total f m.
Proof.
  intros Hf. revert m. induction m' as [|t a m' Hn IH] using map_ind; intros m Hs.
  - unfold map_total at 1. rewrite fmap_empty, map_fold_empty. by apply map_total_nonneg.
  - assert (m !! t = Some a) as Ha by (eapply lookup_weaken; [apply lookup_insert_eq|done]).
    rewrite map_total_insert, (map_total_delete f m t a) by done.
    assert (m' ⊆ delete t m) as Hd; [|apply IH in Hd; lia].
    rewrite <- (delete_insert_id m' t a) by done. by apply delete_mono.
Qed.
Lemma orphans_fit_fewer m m' : orphans_ok None m -> fewer None m m' -> orphans_fit m -> orphans_fit m'.
Proof.
  intros Hm (_&Hs&Hok) [H1 H2]. split; [pose proof (map_subseteq_size _ _ Hs); lia|].
  rewrite (oo_bytes None _ (Hok Hm)). rewrite (oo_bytes None _ Hm) in H2.
  pose proof (map_total_sub orphan_size _ _ orphan_size_nonneg Hs) as Ht. unfold orphans_bytes in *. lia.
Qed.

Lemma insert_orphan_ok now o m :
  orphans_ok None m -> orphans_fit m ->
  let m' := insert_orphan now o m in orphans_only m m' /\ orphans_ok None m' /\ orphans_fit m'.
Proof.
  intros Hm Hfit. cbv zeta. unfold insert_orphan. cbv zeta.
  pose proof (fewer_prune None now m) as Hp. set (m1 := prune_orphans now m) in *. clearbody m1.
  destruct (DEFAULT_MAX_ORPHAN_BYTES <? orphan_size o) eqn:Eb.
  { destruct Hp as (H1&H2&H3). split_and!; [done|auto|]. by apply (orphans_fit_fewer m). }
  apply Z.ltb_ge in Eb.
  set (m2 := if is_some (mp_orphans m1 !! or_txid o) then snd (remove_orphan (or_txid o) m1) else m1).
  assert (fewer None m1 m2 /\ mp_orphans m2 !! or_txid o = None) as [H12 Hn].
  { unfold m2. destruct (mp_orphans m1 !! or_txid o) eqn:E; simpl; [|by split; [reflexivity|]].
    split; [apply fewer_remove|]. rewrite remove_orphan_orphans. apply lookup_delete_eq. }
  clearbody m2. assert (fewer None m m2) as H02 by (by etrans). assert (orphans_ok None m2) as Hm2 by (by apply H02).
  destruct (make_room_spec (base.size (mp_orphans m2)) o m2 Hm2 (le_n _) Eb) as [H23 Hroom].
  set (m3 := make_room _ o m2) in *. clearbody m3. assert (orphans_ok None m3) as Hm3 by (by apply H23).
  assert (mp_orphans m3 !! or_txid o = None) as Hn3.
  { destruct H23 as (_&Hs&_). destruct (mp_orphans m3 !! or_txid o) eqn:E; [|done].
    eapply lookup_weaken in E; [|exact Hs]. congruence. }
  unfold orphans_full, saturating_add_usize in Hroom. apply orb_false_iff in Hroom as [Hr1 Hr2].
  apply Nat.leb_gt in Hr1. apply Z.ltb_ge in Hr2.
  assert (mp_orphan_bytes m3 + orphan_size o <= DEFAULT_MAX_ORPHAN_BYTES) as Hr3.
  { unfold usize_max, DEFAULT_MAX_ORPHAN_BYTES in *. lia. }
  split_and!.
  - destruct (fewer_preorder None) as [_ Htr]. destruct (Htr _ _ _ H02 H23) as (Ho&_&_). etrans; [exact Ho|].
    unfold orphans_only. eauto.
  - split; cbn [mp_orphans mp_orphans_by_parent mp_orphan_bytes set_orphans].
    + intros t o'. destruct (decide (t = or_txid o)) as [->|Hne]; [rewrite lookup_insert_eq; by intros [= <-]|].
      rewrite lookup_insert_ne by done. apply (oo_keys None m3 Hm3).
    + intros p t _. rewrite add_children_kids, (oo_index None m3 Hm3) by done.
      destruct (decide (t = or_txid o)) as [->|Hne].
      * rewrite lookup_insert_eq. split; [intros [(o'&Ho'&_)|[_ Hin]]; [congruence|eauto]|].
        intros (o'&[= <-]&Hin). auto.
      * rewrite lookup_insert_ne by done. naive_solver.
    + done.
    + apply add_children_nonempty, Hm3.
    + rewrite (oo_bytes None m3 Hm3) in *. unfold orphans_bytes in *. rewrite map_total_insert by done.
      unfold saturating_add_usize, usize_max, DEFAULT_MAX_ORPHAN_BYTES in *. lia.
  - split; cbn [mp_orphans mp_orphan_bytes set_orphans].
    + rewrite map_size_insert_None by done. lia.
    + unfold saturating_add_usize. lia.
Qed.

Lemma take_orphans_spec X txids m :
  let m' := snd (take_orphans txids m) in
  fewer X m m' /\ (forall t : Hash256, mp_orphans m' !! t = if bool_decide (t ∈ txids) then None else mp_orphans m !! t).
Proof.
  cbv zeta. revert m. induction txids as [|t txids IH]; intros m; cbn [take_orphans].
  { by split; [reflexivity|]. }
  pose proof (fewer_remove X t m) as Hf. pose proof (remove_orphan_orphans t m) as Ho.
  destruct (remove_orphan t m) as [o m1]. cbn [fst snd] in *. destruct (IH m1) as [H1 H2].
  destruct (take_orphans txids m1) as [taken m2]. cbn [fst snd] in *. split; [by etrans|].
  intros t'. rewrite H2, Ho. destruct (decide (t' = t)) as [->|Hne].
  - rewrite lookup_delete_eq, (bool_decide_true (t ∈ t :: txids)) by apply list_elem_of_here. by case_bool_decide.
  - rewrite lookup_delete_ne by done. rewrite (bool_decide_ext (t' ∈ txids) (t' ∈ t :: txids)); [done|].
    rewrite elem_of_cons. naive_solver.
Qed.
(** The list of a parent set aside. *)
Lemma orphans_ok_hole p m :
  orphans_ok None m ->
  orphans_ok (Some p) (set_orphans (mp_orphans m) (delete p (mp_orphans_by_parent m)) (mp_orphan_bytes m) m).
Proof.
  intros Hm. split; simpl; [apply (oo_keys None m Hm)| |intros q [= <-]; apply lookup_delete_eq| |apply (oo_bytes None m Hm)].
  - intros q t Hq. rewrite kids_delete, (oo_index None m Hm) by done. naive_solver.
  - intros q. destruct (decide (q = p)) as [->|Hne]; [by rewrite lookup_delete_eq|].
    rewrite lookup_delete_ne by done. apply (oo_nonempty None m Hm).
Qed.
Lemma take_orphans_for_parent_ok p m :
  orphans_ok None m -> orphans_fit m ->
  let m' := snd (take_orphans_for_parent p m) in
  orphans_only m m' /\ orphans_ok None m' /\ orphans_fit m'
  /\ forall (t : Hash256) o, mp_orphans m' !! t = Some o -> p ∉ or_missing_parents o.
Proof.
  intros Hm Hfit. cbv zeta. unfold take_orphans_for_parent.
  destruct (mp_orphans_by_parent m !! p) as [txids|] eqn:Ep.
  2: { split_and!; [reflexivity|done|done|]. intros t o Ho Hin.
       assert (t ∈ kids (mp_orphans_by_parent m) p) as Hk by (apply (oo_index None m Hm); [done|eauto]).
       unfold kids in Hk. rewrite Ep in Hk. by apply not_elem_of_nil in Hk. }
  set (m1 := set_orphans (mp_orphans m) (delete p (mp_orphans_by_parent m)) (mp_orphan_bytes m) m).
  pose proof (orphans_ok_hole p m Hm) as Hm1. fold m1 in Hm1.
  destruct (take_orphans_spec (Some p) txids m1) as [(Ho&Hsub&Hok)  Hl]. specialize (Hok Hm1).
  destruct (take_orphans txids m1) as [taken m2]. cbn [fst snd] in *.
  assert (forall (t : Hash256) o, mp_orphans m2 !! t = Some o -> p ∉ or_missing_parents o) as Hnone.
  { intros t o Ht Hin. rewrite Hl in Ht. case_bool_decide as Hnt; [done|]. apply Hnt. simpl in Ht.
    assert (t ∈ kids (mp_orphans_by_parent m) p) as Hk by (apply (oo_index None m Hm); [done|eauto]).
    unfold kids in Hk. by rewrite Ep in Hk. }
  split_and!; [etrans; [|exact Ho]; unfold orphans_only, m1; eauto| | |done].
  - split; try apply Hok; [|done]. intros q t _. destruct (decide (q = p)) as [->|Hne].
    + unfold kids. rewrite (oo_hole _ _ Hok p eq_refl). simpl. rewrite elem_of_nil. split; [done|].
      intros (o&Ht&Hin). by apply (Hnone t o).
    + apply (oo_index _ _ Hok). congruence.
  - destruct Hfit as [Hs Hb]. split; [pose proof (map_subseteq_size _ _ Hsub) as Hz; simpl in Hz; lia|]. rewrite (oo_bytes _ _ Hok). rewrite (oo_bytes _ _ Hm) in Hb.
    pose proof (map_total_sub orphan_size _ _ orphan_size_nonneg Hsub) as Ht. unfold orphans_bytes in *. simpl in Ht. lia.
Qed.
Lemma store_orphan_ok now txid raw missing lf m :
  orphans_ok None m -> orphans_fit m ->
  let m' := store_orphan now txid raw missing lf m in orphans_only m m' /\ orphans_ok None m' /\ orphans_fit m'.
Proof.
  intros Hm Hf. unfold store_orphan. destruct (orphan_parent_txids missing) as [|p ps].
  - cbv zeta. by split_and!; [reflexivity|..].
  - by apply insert_orphan_ok.
Qed.

(** ** The rest of the pool leaves the orphans alone *)
Definition same_orphans (m m' : Mempool) : Prop :=
  mp_orphans m' = mp_orphans m /\ mp_orphans_by_parent m' = mp_orphans_by_parent m
  /\ mp_orphan_bytes m' = mp_orphan_bytes m /\ mp_max_bytes m' = mp_max_bytes m.
#[export] Instance same_orphans_preorder : PreOrder same_orphans.
Proof.
  split; [by intros m|]. intros m1 m2 m3 (A1&B1&C1&D1) (A2&B2&C2&D2). unfold same_orphans. split_and!; congruence.
Qed.
Lemma same_orphans_remove t m : same_orphans m (snd (Mempool.remove t m)).
Proof. unfold Mempool.remove. by destruct (mp_entries m !! t). Qed.
Lemma same_orphans_remove_all ts m : same_orphans m (snd (remove_all ts m)).
Proof.
  revert m. induction ts as [|t ts IH]; intros m; simpl; [reflexivity|]. pose proof (same_orphans_remove t m) as Hr.
  destruct (Mempool.remove t m) as [e m1]. specialize (IH m1). destruct (remove_all ts m1). simpl in *. by etrans.
Qed.
Lemma same_orphans_evict cs out m : same_orphans m (snd (evict_loop cs out m)).
Proof.
  revert out m. induction cs as [|c cs IH]; intros out m; simpl; [reflexivity|]. case_match; [reflexivity|].
  pose proof (same_orphans_remove_all (removal_order (ca_txid c) m) m) as Hr. fold (remove_with_descendants (ca_txid c) m) in Hr.
  destruct (remove_with_descendants (ca_txid c) m) as [removed m1]. simpl in Hr. destruct removed; (etrans; [exact Hr|apply IH]).
Qed.
Lemma same_orphans_insert e m : same_orphans m (snd (Mempool.insert e m)).
Proof.
  unfold Mempool.insert. cbv zeta. destruct (insert_refused _ _); [reflexivity|].
  assert (same_orphans m (add_entry (prioritised m e) m)) as Ha by done.
  destruct (_ && _); [|by destruct (_ && negb _)]. unfold evict_to_fit.
  match goal with |- context [evict_loop ?cs ?o ?m1] => pose proof (same_orphans_evict cs o m1) as He; destruct (evict_loop cs o m1) end.
  simpl in He. destruct (_ && negb _); simpl; by etrans.
Qed.
Lemma orphans_ok_same m m' : same_orphans m m' -> orphans_ok None m -> orphans_ok None m'.
Proof. intros (A&B&C&_) Hm. split; rewrite ?A, ?B, ?C; apply Hm. Qed.
Lemma orphans_fit_same m m' : same_orphans m m' -> orphans_fit m -> orphans_fit m'.
Proof. intros (A&B&C&_). unfold orphans_fit. by rewrite A, C. Qed.

(** ** The limit on bytes *)
Definition fits (m : Mempool) : Prop := mp_max_bytes m = 0 \/ mp_total_bytes m <= mp_max_bytes m.
Lemma remove_total t m : mp_total_bytes m <= mp_max_bytes m -> 0 <= mp_max_bytes m ->
  mp_total_bytes (snd (Mempool.remove t m)) <= mp_max_bytes m.
Proof.
  unfold Mempool.remove. destruct (mp_entries m !! t) as [e|]; [|done]. simpl.
  pose proof (entry_size_nonneg e). unfold saturating_sub_usize. lia.
Qed.
Lemma fits_remove t m : 0 <= mp_max_bytes m -> fits m -> fits (snd (Mempool.remove t m)).
Proof.
  intros Hmax [H0|Hf]; unfold fits; rewrite remove_max; [by left|right]. by apply remove_total.
Qed.
Lemma fits_remove_all ts m : 0 <= mp_max_bytes m -> fits m -> fits (snd (remove_all ts m)).
Proof.
  revert m. induction ts as [|t ts IH]; intros m Hmax Hf; simpl; [done|].
  pose proof (fits_remove t m Hmax Hf) as Hr. pose proof (remove_max m t) as Hx.
  destruct (Mempool.remove t m) as [e m1]. simpl in *. specialize (IH m1). rewrite Hx in IH. specialize (IH Hmax Hr).
  by destruct (remove_all ts m1).
Qed.
Lemma fits_insert e m : pool_ok m -> insertable m e -> 0 <= mp_max_bytes m -> fits m -> fits (snd (Mempool.insert e m)).
Proof.
  intros Hm Hi Hmax Hf. destruct (Mempool.insert e m) as [r m'] eqn:E. pose proof (same_orphans_insert e m) as (_&_&_&Hx).
  rewrite E in Hx. simpl in *. unfold Mempool.insert in E. cbv zeta in E.
  destruct (insert_refused m (prioritised m e)) eqn:Er; [by injection E as _ <-|].
  pose proof (pool_ok_prioritised_add m e Hm Hi Er) as Ha. set (m1 := add_entry (prioritised m e) m) in *.
  assert (mp_max_bytes m1 = mp_max_bytes m) as Emax by done.
  assert (mp_total_bytes m1 <= usize_max) as Hu by (simpl; unfold saturating_add_usize; lia).
  destruct ((0 <? mp_max_bytes m1) && (mp_max_bytes m1 <? mp_total_bytes m1)) eqn:Eb.
  - pose proof (evict_to_fit_spec m1 Ha Hu Hmax) as Hs. cbv zeta in Hs. destruct (evict_to_fit m1) as [out m2].
    destruct Hs as (_&Hx2&Hfit&_). simpl in *. assert (m' = m2) as -> by (destruct (_ && negb _); by simplify_eq).
    right. lia.
  - assert (m' = m1) as -> by (destruct (_ && negb _); by simplify_eq). unfold fits.
    apply andb_false_iff in Eb as [Eb|Eb]; [left|right]; lia.
Qed.

(** ** Every history of the pool *)
Inductive pool_step : Mempool -> Mempool -> Prop :=
| step_insert e m : insertable m e -> pool_step m (snd (Mempool.insert e m))
| step_prioritise txid d f m : pool_step m (prioritise_transaction txid d f m)
| step_remove txid m : pool_step m (snd (Mempool.remove txid m))
| step_remove_with_descendants txid m : pool_step m (snd (remove_with_descendants txid m))
| step_store_orphan now txid raw missing limit_free m : pool_step m (store_orphan now txid raw missing limit_free m)
| step_take_orphans parent m : pool_step m (snd (take_orphans_for_parent parent m)).

Record consistent (m : Mempool) : Prop := {
  cs_pool : pool_ok m; cs_orphans : orphans_ok None m; cs_orphans_fit : orphans_fit m; cs_fits : fits m;
  cs_max : 0 <= mp_max_bytes m }.
Lemma consistent_new max : 0 <= max -> consistent (Mempool_new max).
Proof.
  intros Hmax. split; [apply pool_ok_new| | |right; simpl; lia|done].
  - split; simpl; try done. intros p t _. unfold kids. rewrite lookup_empty. simpl. rewrite elem_of_nil.
    split; [done|]. intros (o&Ho&_). by rewrite lookup_empty in Ho.
  - split; simpl; [rewrite map_size_empty; unfold DEFAULT_MAX_ORPHANS; lia|done].
Qed.
Lemma consistent_orphans m m' :
  consistent m -> orphans_only m m' /\ orphans_ok None m' /\ orphans_fit m' -> consistent m'.
Proof.
  intros [H1 H2 H3 H4 H5] (Ho&Hok&Hfit). pose proof (pool_ok_orphans _ _ Ho H1). destruct Ho as (o&b&n&->). by split.
Qed.
Lemma consistent_pool m m' :
  consistent m -> same_orphans m m' -> pool_ok m' -> fits m' -> consistent m'.
Proof.
  intros [H1 H2 H3 H4 H5] Hs Hp Hf. split; [done|by eapply orphans_ok_same|by eapply orphans_fit_same|done|].
  destruct Hs as (_&_&_&->). done.
Qed.
Lemma consistent_step m m' : pool_step m m' -> consistent m -> consistent m'.
Proof.
  intros Hs Hc. pose proof Hc as [H1 H2 H3 H4 H5]. destruct Hs.
  - apply (consistent_pool m); [done|apply same_orphans_insert|by apply pool_ok_insert|by apply fits_insert].
  - apply (consistent_pool m); [done|done|by apply pool_ok_prioritise|done].
  - apply (consistent_pool m); [done|apply same_orphans_remove|by apply pool_ok_remove|by apply fits_remove].
  - apply (consistent_pool m); [done|apply same_orphans_remove_all|by apply pool_ok_remove_all|by apply fits_remove_all].
  - apply (consistent_orphans m); [done|]. by apply store_orphan_ok.
  - apply (consistent_orphans m); [done|]. destruct (take_orphans_for_parent_ok parent m H2 H3) as (?&?&?&_). done.
Qed.

(** C5: the memory pool never holds a double spend and never loses count.
    In every pool reached from an empty one by inserting (entries whose
    parents are in the pool), prioritising, removing, removing with
    descendants, and storing and taking orphans: an output or nullifier is
    used by at most one transaction, and the index names it; the parents of
    every transaction are in the pool; the bytes counted are the bytes held
    and within the limit; at most 100 orphans of at most 5 MiB in all wait,
    each of them listed under every parent it misses and under no other. *)
Theorem pool_history_consistent (max : Z) (m : Mempool) :
  0 <= max -> rtc pool_step (Mempool_new max) m ->
  (forall (t1 t2 : Hash256) e1 e2, mp_entries m !! t1 = Some e1 -> mp_entries m !! t2 = Some e2 -> t1 <> t2 ->
     en_spent_outpoints e1 ## en_spent_outpoints e2 /\ entry_nullifiers e1 ## entry_nullifiers e2
     /\ entry_spends e1 ## entry_spends e2)
  /\ (forall o t, spender o m = Some t <-> exists e, mp_entries m !! t = Some e /\ o ∈ en_spent_outpoints e)
  /\ (forall (t : Hash256) e p, mp_entries m !! t = Some e -> p ∈ en_parents e -> contains p m = true)
  /\ mp_total_bytes m = map_total entry_size (mp_entries m)
  /\ (mp_max_bytes m = 0 \/ mp_total_bytes m <= mp_max_bytes m)
  /\ (base.size (mp_orphans m) <= DEFAULT_MAX_ORPHANS)%nat
  /\ map_total orphan_size (mp_orphans m) <= DEFAULT_MAX_ORPHAN_BYTES
  /\ forall p t, t ∈ kids (mp_orphans_by_parent m) p
       <-> exists o, mp_orphans m !! t = Some o /\ p ∈ or_missing_parents o.
Proof.
  intros Hmax Hr. assert (consistent m) as [Hm Ho [Hf1 Hf2] Hf Hx].
  { pose proof (consistent_new max Hmax) as Hc. induction Hr; [done|]. eauto using consistent_step. }
  assert (forall K `{Countable K} (f : MempoolEntry -> list K) (s : gmap K Hash256) (t1 t2 : Hash256) e1 e2,
    claims f (mp_entries m) s -> mp_entries m !! t1 = Some e1 -> mp_entries m !! t2 = Some e2 -> t1 <> t2 -> f e1 ## f e2) as Hd.
  { intros K ?? f s t1 t2 e1 e2 Hc He1 He2 Hne k Hk1 Hk2.
    assert (s !! k = Some t1) by (apply Hc; eauto). assert (s !! k = Some t2) by (apply Hc; eauto). congruence. }
  split_and!.
  - intros t1 t2 e1 e2 He1 He2 Hne. split_and!; (eapply Hd; [apply Hm|done..]).
  - apply (ok_spent m Hm).
  - intros t e p He Hp. unfold contains. by destruct (ok_parents m Hm t e p He Hp) as [? ->].
  - apply (ok_bytes m Hm).
  - done.
  - done.
  - change (orphans_bytes (mp_orphans m) <= DEFAULT_MAX_ORPHAN_BYTES). by rewrite <- (oo_bytes None m Ho).
  - intros p t. by apply (oo_index None m Ho).
Qed.
