(* ===== verification/SamplePool.v ===== *)
(** * A small memory pool

    Four transactions in a pool that holds twenty-five bytes: the theorems on
    the pool applied to it, and what it shows about a full pool and about a
    parent that is gone. *)

From S2P Require Import Prelude Encoding Transaction Rewards Float64 Script Fluxnode Utxo Shielded Validation HeaderChain Payees Mempool PoolInvariant PoolEviction Orphans.
From Stdlib Require Import ZArith Lia Floats.SpecFloat.
From stdpp Require Import base list option numbers strings gmap sets sorting relations.
#[local] Open Scope Z_scope.

Definition pool_tx (inputs : list OutPoint) : Transaction :=
  mkTransaction false 1 0 (map (fun o => mkTxIn o [] 0) inputs) [mkTxOut 50 [81]] 0 0 0 [] [] [] (zeros 32) (zeros 64) (zeros 64) None.
Definition pool_id (n : Z) : Hash256 := replicate 32 n.
Definition pool_entry (n size fee : Z) (inputs : list OutPoint) (parents : list Hash256) : MempoolEntry :=
  mkEntry (pool_id n) (pool_tx inputs) (zeros (Z.to_nat size)) n 100 fee 1000 size f64_zero (bool_decide (parents = []))
    0 f64_zero inputs parents.
Definition coin_of (n : Z) : OutPoint := mkOutPoint (pool_id n) 0.

(** A parent that pays little, its child, and one that pays well. *)
Definition poor : MempoolEntry := pool_entry 1 10 1 [coin_of 101] [].
Definition child : MempoolEntry := pool_entry 2 5 90 [coin_of 1] [pool_id 1].
Definition rich : MempoolEntry := pool_entry 3 15 100 [coin_of 102] [].
(** A transaction too large to stay with [rich], and paying less. *)
Definition large : MempoolEntry := pool_entry 4 20 3 [coin_of 103] [].

Definition pool_0 : Mempool := Mempool_new 25.
Definition pool_1 : Mempool := snd (Mempool.insert poor pool_0).
Definition pool_2 : Mempool := snd (Mempool.insert child pool_1).
Definition pool_3 : Mempool := snd (Mempool.insert rich pool_2).

(** The child pays well, and goes with its parent. *)
Example poor_evicted : fst (Mempool.insert rich pool_2) = Ok (mkOutcome 2 15 [pool_id 2; pool_id 1]).
Proof. vm_compute. reflexivity. Qed.

(** An insertion that ends with a full pool has evicted [poor] before it
    gave up: the caller is not told. *)
Lemma full_pool_loses_evicted :
  fst (Mempool.insert large (snd (Mempool.insert rich pool_1)))
  = Err (MempoolError_new MempoolErrorKind.MempoolFull (Text "mempool full"))
  /\ contains (pool_id 1) (snd (Mempool.insert rich pool_1)) = true
  /\ contains (pool_id 1) (snd (Mempool.insert large (snd (Mempool.insert rich pool_1)))) = false.
Proof. vm_compute. done. Qed.

(** A parent that has gone since the entry was built is not missed. *)
Lemma parent_not_missed :
  is_ok (fst (Mempool.insert child pool_0)) = true
  /\ contains (pool_id 1) (snd (Mempool.insert child pool_0)) = false.
Proof. vm_compute. done. Qed.

(** ** Witnesses *)
Lemma insertable_decide m e :
  forallb (fun p => contains p m) (en_parents e) && (mp_total_bytes m + entry_size e <=? usize_max) = true ->
  insertable m e.
Proof.
  intros [Hp Hb]%andb_true_iff. split; [|lia]. intros p Hin. rewrite forallb_forall in Hp.
  assert (contains p m = true) as Hc by (apply Hp; by apply list_elem_of_In). unfold contains in Hc.
  destruct (mp_entries m !! p); [eauto|done].
Qed.
Lemma pool_2_steps : rtc pool_step (Mempool_new 25) pool_2.
Proof.
  eapply rtc_l; [apply (step_insert poor); apply insertable_decide; vm_compute; reflexivity|].
  eapply rtc_l; [apply (step_insert child); apply insertable_decide; vm_compute; reflexivity|]. reflexivity.
Qed.

Lemma pool_2_ok : pool_ok pool_2.
Proof.
  do 2 (apply pool_ok_insert; [|apply insertable_decide; vm_compute; reflexivity]). apply pool_ok_new.
Qed.
Lemma ok_insert (r : result MempoolError MempoolInsertOutcome * Mempool) out : fst r = Ok out -> r = (Ok out, snd r).
Proof. destruct r. by intros [= ->]. Qed.

Lemma pool_history_consistent_witness :
  0 <= 25 /\
  ((forall (t1 t2 : Hash256) e1 e2, mp_entries pool_2 !! t1 = Some e1 -> mp_entries pool_2 !! t2 = Some e2 -> t1 <> t2 ->
     en_spent_outpoints e1 ## en_spent_outpoints e2 /\ entry_nullifiers e1 ## entry_nullifiers e2
     /\ entry_spends e1 ## entry_spends e2)
  /\ (forall o t, spender o pool_2 = Some t <-> exists e, mp_entries pool_2 !! t = Some e /\ o ∈ en_spent_outpoints e)
  /\ (forall (t : Hash256) e p, mp_entries pool_2 !! t = Some e -> p ∈ en_parents e -> contains p pool_2 = true)
  /\ mp_total_bytes pool_2 = map_total entry_size (mp_entries pool_2)
  /\ (mp_max_bytes pool_2 = 0 \/ mp_total_bytes pool_2 <= mp_max_bytes pool_2)
  /\ (base.size (mp_orphans pool_2) <= DEFAULT_MAX_ORPHANS)%nat
  /\ map_total orphan_size (mp_orphans pool_2) <= DEFAULT_MAX_ORPHAN_BYTES
  /\ forall p t, t ∈ kids (mp_orphans_by_parent pool_2) p
       <-> exists o, mp_orphans pool_2 !! t = Some o /\ p ∈ or_missing_parents o).
Proof. split; [lia|]. apply (pool_history_consistent 25 pool_2); [lia|exact pool_2_steps]. Defined.

Lemma insert_evicts_cheapest_witness :
  let outcome := mkOutcome 2 15 [pool_id 2; pool_id 1] in
  let m1 := add_entry (prioritised pool_2 rich) pool_2 in
  is_Some (mp_entries pool_3 !! en_txid rich) /\ (0 < mp_max_bytes pool_2 -> mp_total_bytes pool_3 <= mp_max_bytes pool_2)
  /\ NoDup (evicted_txids outcome)
  /\ (forall k : Hash256, own_fields <$> mp_entries pool_3 !! k
        = if bool_decide (k ∈ evicted_txids outcome) then None else own_fields <$> mp_entries m1 !! k)
  /\ forall x, x ∈ evicted_txids outcome ->
       exists (c : Hash256) ce, c ∈ evicted_txids outcome /\ mp_entries m1 !! c = Some ce
         /\ descends (mp_children m1) c x
         /\ forall (k : Hash256) y, mp_entries pool_3 !! k = Some y -> pays_no_more ce y.
Proof.
  apply (insert_evicts_cheapest pool_2 pool_3 rich (mkOutcome 2 15 [pool_id 2; pool_id 1])).
  - exact pool_2_ok.
  - apply insertable_decide. vm_compute. reflexivity.
  - vm_compute. discriminate.
  - apply ok_insert. vm_compute. reflexivity.
Defined.
