(* ===== verification/MempoolPolicy.v ===== *)
(** * Admission to the memory pool ([node/src/mempool.rs])

    What a transaction must satisfy to become an entry of the pool: the
    consensus checks for the next block, inputs that exist, scripts that
    verify, standard forms, fees; the limit on free relay; and the orphans
    tried again when their parent is accepted.  The clock is read once per
    call; [powf] is the platform's, and a parameter. *)

From S2P Require Import Prelude Consensus Rewards Float64 Encoding Hashing Transaction Sighash Script Storage Fluxnode Utxo Indexes ChainIndex Shielded Validation HeaderChain Payees FluxnodeChecks Ledger Mempool.
From Stdlib Require Import ZArith Lia Floats.SpecFloat.
From stdpp Require Import base list option numbers strings gmap sets sorting.
#[local] Open Scope Z_scope.

Definition refuse {A} (kind : MempoolErrorKind.Kind) (message : MempoolMessage) : result MempoolError A :=
  Err (MempoolError_new kind message).
Definition invalid {A} (message : string) : result MempoolError A :=
  refuse MempoolErrorKind.InvalidTransaction (Text message).
Definition non_standard {A} (message : string) : result MempoolError A :=
  refuse MempoolErrorKind.NonStandard (Text message).
Definition internal {A} (r : result ChainStateError A) : result MempoolError A :=
  map_err (fun e => MempoolError_new MempoolErrorKind.Internal (OfChainState e)) r.
Definition in_range {A} (o : option A) : result MempoolError A :=
  match o with Some a => Ok a | None => invalid "value out of range" end.
Definition out_of_range_unless (check : bool) : result MempoolError unit :=
  if check then Ok tt else invalid "value out of range".

(** ** Values *)
Fixpoint sum_out (total : Z) (outputs : list TxOut) : result MempoolError Z :=
  match outputs with
  | [] => Ok total
  | o :: outputs =>
      total ← in_range (checked_add_i64 total (value o));
      _ ← out_of_range_unless (Consensus.money_range total && (0 <=? value o) && (value o <=? MAX_MONEY));
      sum_out total outputs
  end.
Fixpoint sum_joined (part : JoinSplit -> Z) (total : Z) (joinsplits : list JoinSplit) : result MempoolError Z :=
  match joinsplits with
  | [] => Ok total
  | j :: joinsplits =>
      total ← in_range (checked_add_i64 total (part j));
      _ ← out_of_range_unless (Consensus.money_range (part j) && Consensus.money_range total);
      sum_joined part total joinsplits
  end.
Definition tx_value_out (tx : Transaction) : result MempoolError Z :=
  total ← sum_out 0 (vout tx);
  total ← (if value_balance tx <=? 0 then
             let balance := wrap_i64 (- value_balance tx) in
             total ← in_range (checked_add_i64 total balance);
             _ ← out_of_range_unless (Consensus.money_range balance && Consensus.money_range total);
             Ok total
           else Ok total);
  sum_joined vpub_old total (join_splits tx).
Definition tx_shielded_value_in (tx : Transaction) : result MempoolError Z :=
  total ← (if 0 <=? value_balance tx then
             total ← in_range (checked_add_i64 0 (value_balance tx));
             _ ← out_of_range_unless (Consensus.money_range (value_balance tx) && Consensus.money_range total);
             Ok total
           else Ok 0);
  sum_joined vpub_new total (join_splits tx).

(** ** Scripts *)
Definition OP_RETURN : Z := 0x6a.
Definition OP_1NEGATE : Z := 0x4f.
Definition OP_16 : Z := 0x60.
Definition OP_CHECKSIG : Z := 0xac.
Definition OP_CHECKSIGVERIFY : Z := 0xad.
Definition OP_CHECKMULTISIGVERIFY : Z := 0xaf.

(** The length after a data push, and what follows it; [None] when the bytes
    of the length are missing. *)
Definition data_len (op : Z) (rest : bytes) : option (Z * bytes) :=
  if (1 <=? op) && (op <=? 0x4b) then Some (op, rest)
  else if op =? OP_PUSHDATA1 then match rest with l :: rest => Some (l, rest) | _ => None end
  else if op =? OP_PUSHDATA2 then
    match rest with lo :: hi :: rest => Some (hi * 256 + lo, rest) | _ => None end
  else
    match rest with
    | b0 :: b1 :: b2 :: b3 :: rest => Some (b3 * 16777216 + b2 * 65536 + b1 * 256 + b0, rest)
    | _ => None
    end.
Definition is_data_push (op : Z) : bool := (1 <=? op) && (op <=? OP_PUSHDATA4).

(** The loops over a script consume it; [fuel] is its length. *)
Fixpoint push_only_stack_loop (fuel : nat) (script : bytes) (stack : list bytes) : option (list bytes) :=
  match script, fuel with
  | [], _ => Some stack
  | _, O => None
  | op :: rest, S fuel =>
      if is_data_push op then
        d ← data_len op rest;
        let '(len, rest) := d in
        if Z.of_nat (length rest) <? len then None
        else push_only_stack_loop fuel (drop (Z.to_nat len) rest) (stack ++ [take (Z.to_nat len) rest])
      else if op =? OP_0 then push_only_stack_loop fuel rest (stack ++ [[]])
      else if op =? OP_1NEGATE then push_only_stack_loop fuel rest (stack ++ [[0x81]])
      else if (OP_1 <=? op) && (op <=? OP_16) then push_only_stack_loop fuel rest (stack ++ [[op - OP_1 + 1]])
      else None
  end.
Definition parse_push_only_stack (script : bytes) : option (list bytes) :=
  push_only_stack_loop (length script) script [].
Definition is_push_only (script : bytes) : bool := is_some (parse_push_only_stack script).

Definition decode_op_n (opcode : Z) : option Z :=
  if opcode =? OP_0 then Some 0
  else if (OP_1 <=? opcode) && (opcode <=? OP_16) then Some (opcode - OP_1 + 1) else None.
Fixpoint count_sigops_loop (fuel : nat) (accurate : bool) (script : bytes) (last_opcode count : Z) : option Z :=
  match script, fuel with
  | [], _ => Some count
  | _, O => None
  | op :: rest, S fuel =>
      if is_data_push op then
        d ← data_len op rest;
        let '(len, rest) := d in
        if Z.of_nat (length rest) <? len then None
        else count_sigops_loop fuel accurate (drop (Z.to_nat len) rest) op count
      else if (op =? OP_CHECKSIG) || (op =? OP_CHECKSIGVERIFY) then
        count_sigops_loop fuel accurate rest op (saturating_add_u32 count 1)
      else if (op =? OP_CHECKMULTISIG) || (op =? OP_CHECKMULTISIGVERIFY) then
        count_sigops_loop fuel accurate rest op
          (saturating_add_u32 count (if accurate then default 20 (decode_op_n last_opcode) else 20))
      else count_sigops_loop fuel accurate rest op count
  end.
Definition count_sigops (script : bytes) (accurate : bool) : option Z :=
  count_sigops_loop (length script) accurate script 0 0.

Definition is_standard_op_return (script_pubkey : bytes) (max_bytes : Z) : bool :=
  match script_pubkey with
  | op :: rest =>
      if negb (op =? OP_RETURN) then false
      else
        match rest with
        | [] => true
        | op :: rest =>
            let pushed :=
              if is_data_push op then data_len op rest
              else if (op =? OP_0) || (op =? OP_1NEGATE) || ((OP_1 <=? op) && (op <=? OP_16)) then Some (0, rest)
              else None in
            match pushed with
            | Some (len, rest) => if len >? max_bytes then false else len =? Z.of_nat (length rest)
            | None => false
            end
        end
  | [] => false
  end.

(** ** Policy *)
Definition DEFAULT_LIMIT_FREE_RELAY_KB_PER_MINUTE : Z := 500.
Definition DEFAULT_BLOCK_PRIORITY_SIZE : Z := MAX_BLOCK_SIZE / 2.
Definition FREE_TX_SIZE_LIMIT : Z := DEFAULT_BLOCK_PRIORITY_SIZE - 1000.
Definition ASYNC_RPC_OPERATION_DEFAULT_MINERS_FEE : Z := 10000.
Definition MEMPOOL_HEIGHT : Z := 0x7fffffff.

Record MempoolPolicy := mkPolicy {
  require_standard : bool; min_relay_fee_per_kb : Z; limit_free_relay_kb_per_minute : Z; max_scriptsig_size : Z;
  max_op_return_bytes : Z; max_p2sh_sigops : Z; max_standard_tx_sigops : Z }.
Definition MempoolPolicy_standard (min_relay_fee_per_kb : Z) (require_standard : bool) : MempoolPolicy :=
  mkPolicy require_standard (Z.max min_relay_fee_per_kb 0) DEFAULT_LIMIT_FREE_RELAY_KB_PER_MINUTE 1650 80 15
    (MAX_BLOCK_SIGOPS / 5).

Definition saturating_mul_i64 (a b : Z) : Z :=
  Z.max (-9223372036854775808) (Z.min 9223372036854775807 (a * b)).
Definition min_relay_fee_for_size (min_fee_per_kb size : Z) : Z :=
  if min_fee_per_kb <=? 0 then 0
  else
    let size := if size <=? i64_max then size else i64_max in
    let fee := Z.quot (saturating_mul_i64 min_fee_per_kb size) 1000 in
    if fee =? 0 then min_fee_per_kb else fee.
Definition compact_size_len (value : Z) : Z :=
  if value <? 0xfd then 1 else if value <=? 0xffff then 3 else if value <=? 0xffffffff then 5 else 9.
Definition is_unspendable (script_pubkey : bytes) : bool := bool_decide (head script_pubkey = Some OP_RETURN).
Definition is_dust (value : Z) (script_pubkey : bytes) (min_fee_per_kb : Z) : bool :=
  if min_fee_per_kb <=? 0 then false
  else if is_unspendable script_pubkey then false
  else if value <? 0 then true
  else
    let len := Z.of_nat (length script_pubkey) in
    let out_size := saturating_add_usize (saturating_add_usize 8 (compact_size_len len)) len in
    let spend_size := saturating_add_usize out_size 148 in
    value <? saturating_mul_i64 (min_relay_fee_for_size min_fee_per_kb spend_size) 3.

(** Every output has a standard form and is worth spending; at most one
    carries data. *)
Fixpoint standard_outputs_loop (policy : MempoolPolicy) (op_return_count : Z) (outputs : list TxOut)
    : result MempoolError Z :=
  match outputs with
  | [] => Ok op_return_count
  | o :: outputs =>
      if is_standard_op_return (script_pubkey o) (max_op_return_bytes policy)
      then standard_outputs_loop policy (op_return_count + 1) outputs
      else
        match classify_script_pubkey (script_pubkey o) with
        | P2Pk | P2Pkh | P2Sh =>
            if is_dust (value o) (script_pubkey o) (min_relay_fee_per_kb policy) then non_standard "dust"
            else standard_outputs_loop policy op_return_count outputs
        | P2Wpkh | P2Wsh => non_standard "witness-program"
        | Unknown => non_standard "scriptpubkey"
        end
  end.
Definition enforce_standard_outputs (tx : Transaction) (policy : MempoolPolicy) : result MempoolError unit :=
  count ← standard_outputs_loop policy 0 (vout tx);
  if count >? 1 then non_standard "multi-op-return" else Ok tt.

(** The arguments of a signature script fit the script it spends. *)
Definition standard_input (policy : MempoolPolicy) (sigops : Z) (item : TxIn * bytes) : result MempoolError Z :=
  stack ← match parse_push_only_stack (script_sig (fst item)) with Some stack => Ok stack | None => non_standard "scriptsig" end;
  match classify_script_pubkey (snd item) with
  | P2Pkh => if negb (length stack =? 2)%nat then non_standard "scriptsig-args" else Ok sigops
  | P2Pk => if negb (length stack =? 1)%nat then non_standard "scriptsig-args" else Ok sigops
  | P2Sh =>
      match last stack with
      | None | Some [] => non_standard "p2sh-redeem"
      | Some redeem =>
          if (520 <? length redeem)%nat then non_standard "p2sh-redeem-size"
          else
            match count_sigops redeem true with
            | None => non_standard "p2sh-redeem"
            | Some redeem_sigops =>
                if redeem_sigops >? max_p2sh_sigops policy then non_standard "p2sh-sigops"
                else Ok (saturating_add_u32 sigops redeem_sigops)
            end
      end
  | P2Wpkh | P2Wsh | Unknown => non_standard "nonstandard-input"
  end.
Definition add_sigops (message : string) (sigops : Z) (script : bytes) : result MempoolError Z :=
  match count_sigops script false with
  | Some n => Ok (saturating_add_u32 sigops n)
  | None => non_standard message
  end.
Definition enforce_standard_inputs (tx : Transaction) (prev_scripts : list bytes) (policy : MempoolPolicy)
    : result MempoolError unit :=
  sigops ← try_fold (standard_input policy) 0 (zip (vin tx) prev_scripts);
  sigops ← try_fold (fun n input => add_sigops "scriptsig-sigops" n (script_sig input)) sigops (vin tx);
  sigops ← try_fold (fun n output => add_sigops "scriptpubkey-sigops" n (script_pubkey output)) sigops (vout tx);
  if sigops >? max_standard_tx_sigops policy then non_standard "bad-txns-too-many-sigops" else Ok tt.

Definition tx_needs_shielded (tx : Transaction) : bool :=
  negb (is_nil (join_splits tx) && is_nil (shielded_spends tx) && is_nil (shielded_outputs tx)).
Definition calculate_modified_size (tx : Transaction) (tx_size : Z) : Z :=
  foldl (fun size input =>
           let offset := 41 + Z.min 110 (Z.of_nat (length (script_sig input))) in
           if size >? offset then saturating_sub_usize size offset else size) tx_size (vin tx).

(** ** The limit on free relay *)
(** [f64::powf], of the platform's mathematical library. *)
Class Powf := { powf : spec_float -> spec_float -> spec_float }.
Record FreeRelayLimiter := mkLimiter { fl_count : spec_float; fl_last_time : Z }.
Definition FreeRelayLimiter_default : FreeRelayLimiter := mkLimiter f64_zero 0.
Definition decay `{Powf} (delta : Z) : spec_float :=
  powf (f64_sub (f64_of_i64 1) (f64_div (f64_of_i64 1) (f64_of_i64 600))) (f64_of_i64 delta).
Definition apply_free_relay_rate_limit `{Powf} (now limit_kb_per_minute size : Z) (limiter : FreeRelayLimiter)
    : result MempoolError unit * FreeRelayLimiter :=
  let threshold := f64_mul (f64_mul (f64_of_i64 limit_kb_per_minute) (f64_of_i64 10)) (f64_of_i64 1000) in
  let delta := saturating_sub_usize now (fl_last_time limiter) in
  let count := f64_mul (fl_count limiter) (decay delta) in
  if f64_ge count threshold
  then (refuse MempoolErrorKind.InsufficientFee (Text "rate limited free transaction"), mkLimiter count now)
  else (Ok tt, mkLimiter (f64_add count (f64_of_i64 size)) now).

(** ** Building an entry *)
Section build.
  Context {H : Hashes} {S256 : Secp} {R : Recovery} {SC : ShieldedCrypto}.
  Context {T : ShieldedTrees} {S : Type} {KV : KeyValueStore S} {F : Powf}.
  Context (store : S) (params : ChainParams) (flags : ValidationFlags) (policy : MempoolPolicy).

(** [sprout_anchor_exists], [sprout_nullifier_spent] and [sapling_nullifier_spent] of the chain state. *)
Definition sprout_anchor_exists (anchor : Hash256) : result ChainStateError bool :=
  if bool_decide (anchor = sprout_empty_root_hash) then Ok true
  else map_err ChainStore (anchor_contains AnchorSprout store anchor).
Definition sprout_nullifier_spent (nullifier : Hash256) : result ChainStateError bool :=
  map_err ChainStore (nullifier_contains NullifierSprout store nullifier).
Definition sapling_nullifier_spent (nullifier : Hash256) : result ChainStateError bool :=
  map_err ChainStore (nullifier_contains NullifierSapling store nullifier).

Definition check_unspent (message : string) (spent : Hash256 -> result ChainStateError bool) (_ : unit)
    (nullifier : Hash256) : result MempoolError unit :=
  known ← internal (spent nullifier);
  if known : bool then invalid message else Ok tt.
Definition validate_shielded_state (tx : Transaction) : result MempoolError unit :=
  _ ← try_fold (fun _ j =>
         known ← internal (sprout_anchor_exists (js_anchor j));
         if negb known then invalid "sprout anchor not found"
         else try_fold (check_unspent "sprout nullifier already spent" sprout_nullifier_spent) tt (nullifiers j))
       tt (join_splits tx);
  try_fold (fun _ s =>
         known ← internal (sapling_anchor_exists store (sd_anchor s));
         if negb known then invalid "sapling anchor not found"
         else check_unspent "sapling nullifier already spent" sapling_nullifier_spent tt (sd_nullifier s))
       tt (shielded_spends tx).

Definition check_expiring (tx : Transaction) (next_height : Z) : result MempoolError unit :=
  if (0 <? expiry_height tx) && network_upgrade_active next_height (upgrades (consensus params)) Acadia then
    let next_height_u32 := if 0 <=? next_height then next_height else 0 in
    let min_expiry := saturating_add_u32 next_height_u32 TX_EXPIRING_SOON_THRESHOLD in
    if min_expiry >? expiry_height tx
    then refuse MempoolErrorKind.InvalidTransaction (ExpiringSoon (expiry_height tx) min_expiry)
    else Ok tt
  else Ok tt.

(** Where the inputs come from: the chain, or the pool. *)
Record PrevInfo := mkPrevInfo { pi_value : Z; pi_script_pubkey : bytes; pi_is_coinbase : bool; pi_height : Z }.
Record Found := mkFound {
  fo_previnfos : gmap OutPoint PrevInfo; fo_missing : gset OutPoint; fo_parents : gset Hash256 }.
Definition find_prevout (mempool_prevouts : gmap OutPoint MempoolPrevout) (found : Found) (input : TxIn)
    : result MempoolError Found :=
  _ ← (if require_standard policy then
         if Z.of_nat (length (script_sig input)) >? max_scriptsig_size policy then non_standard "scriptsig-size"
         else if negb (is_push_only (script_sig input)) then non_standard "scriptsig-not-pushonly"
         else Ok tt
       else Ok tt);
  entry ← internal (map_err ChainStore (utxo_get store (Transaction.prevout input)));
  match entry with
  | Some e =>
      Ok (mkFound (<[Transaction.prevout input :=
                     mkPrevInfo (ue_value e) (ue_script_pubkey e) (ue_is_coinbase e) (ue_height e)]> (fo_previnfos found))
            (fo_missing found) (fo_parents found))
  | None =>
      match mempool_prevouts !! Transaction.prevout input with
      | Some p =>
          Ok (mkFound (<[Transaction.prevout input :=
                         mkPrevInfo (mpv_value p) (mpv_script_pubkey p) false MEMPOOL_HEIGHT]> (fo_previnfos found))
                (fo_missing found) ({[hash (Transaction.prevout input)]} ∪ fo_parents found))
      | None => Ok (mkFound (fo_previnfos found) ({[Transaction.prevout input]} ∪ fo_missing found) (fo_parents found))
      end
  end.
Definition outpoint_cmp (a b : OutPoint) : comparison :=
  then_with (bytes_cmp (hash a) (hash b)) (op_index a ?= op_index b).
Definition outpoint_order (a b : OutPoint) : Prop := outpoint_cmp a b <> Gt.
#[global] Instance outpoint_order_dec : RelDecision outpoint_order.
Proof. intros a b. unfold outpoint_order. apply _. Defined.
Definition find_prevouts (mempool_prevouts : gmap OutPoint MempoolPrevout) (tx : Transaction) : result MempoolError Found :=
  found ← try_fold (find_prevout mempool_prevouts) (mkFound ∅ ∅ ∅) (vin tx);
  match merge_sort outpoint_order (elements (fo_missing found)) with
  | [] => Ok found
  | missing => Err (MempoolError_missing_inputs missing)
  end.

Definition previnfo (found : Found) (outpoint : OutPoint) : result MempoolError PrevInfo :=
  match fo_previnfos found !! outpoint with
  | Some info => Ok info
  | None => refuse MempoolErrorKind.Internal (Text "missing prevout info")
  end.
Definition check_maturity (tx : Transaction) (next_height : Z) (info : PrevInfo) : result MempoolError unit :=
  if pi_is_coinbase info then
    if next_height - pi_height info <? COINBASE_MATURITY then invalid "premature spend of coinbase"
    else if coinbase_must_be_protected (consensus params)
            && negb (network_upgrade_active next_height (upgrades (consensus params)) Flux) && negb (is_nil (vout tx))
    then invalid "coinbase spend has transparent outputs"
    else Ok tt
  else Ok tt.
Definition check_input_script (tx : Transaction) (branch_id : Z) (input_index : nat) (input : TxIn) (info : PrevInfo)
    : result MempoolError unit :=
  if check_script flags then
    let verify script_flags :=
      verify_script (script_sig input) (pi_script_pubkey info) tx input_index (pi_value info) script_flags branch_id in
    _ ← map_err (fun e => MempoolError_new MempoolErrorKind.InvalidScript (OfScript e))
          (verify (if require_standard policy then STANDARD_SCRIPT_VERIFY_FLAGS else BLOCK_SCRIPT_VERIFY_FLAGS));
    if require_standard policy then
      map_err (fun e => MempoolError_new MempoolErrorKind.InvalidScript (OfMandatoryScript e))
        (verify BLOCK_SCRIPT_VERIFY_FLAGS)
    else Ok tt
  else Ok tt.
(** The scripts and outputs spent so far, and their value. *)
Definition spend_input (tx : Transaction) (found : Found) (next_height branch_id : Z)
    (st : list bytes * list OutPoint * Z) (indexed : nat * TxIn) : result MempoolError (list bytes * list OutPoint * Z) :=
  let '(prev_scripts, spent, transparent_in) := st in
  let '(input_index, input) := indexed in
  info ← previnfo found (Transaction.prevout input);
  _ ← check_maturity tx next_height info;
  transparent_in ← in_range (checked_add_i64 transparent_in (pi_value info));
  _ ← check_input_script tx branch_id input_index input info;
  Ok (prev_scripts ++ [pi_script_pubkey info], spent ++ [Transaction.prevout input], transparent_in).

Definition add_input_priority (found : Found) (best_height : Z) (priority : spec_float) (input : TxIn)
    : result MempoolError spec_float :=
  info ← previnfo found (Transaction.prevout input);
  if best_height <=? pi_height info then Ok priority
  else Ok (f64_add priority (f64_mul (f64_of_i64 (Z.max (pi_value info) 0)) (f64_of_i64 (best_height - pi_height info)))).
Definition tx_priority (tx : Transaction) (found : Found) (best_height modified_size : Z) : result MempoolError spec_float :=
  if tx_needs_shielded tx then Ok MAX_PRIORITY
  else if modified_size =? 0 then Ok f64_zero
  else
    inputs_priority ← try_fold (add_input_priority found (Z.max best_height 0)) f64_zero (vin tx);
    Ok (f64_min (f64_div inputs_priority (f64_of_i64 modified_size)) MAX_PRIORITY).

(** The fee that relaying for free requires, and the limit on its rate. *)
Definition check_free_relay (now : Z) (tx : Transaction) (fee size : Z) (limiter : FreeRelayLimiter)
    : result MempoolError unit * FreeRelayLimiter :=
  let min_relay_fee := min_relay_fee_for_size (min_relay_fee_per_kb policy) size in
  let tx_min_fee := if size <? FREE_TX_SIZE_LIMIT then 0 else min_relay_fee in
  if (is_nil (join_splits tx) || (fee <? ASYNC_RPC_OPERATION_DEFAULT_MINERS_FEE)) && (fee <? tx_min_fee)
  then (refuse MempoolErrorKind.InsufficientFee (Text "insufficient fee"), limiter)
  else if fee <? min_relay_fee then apply_free_relay_rate_limit now (limit_free_relay_kb_per_minute policy) size limiter
  else (Ok tt, limiter).
Definition check_proofs_now (tx : Transaction) (branch_id : Z) : result MempoolError unit :=
  if check_shielded flags && tx_needs_shielded tx then
    match shielded_params flags with
    | Some shielded =>
        map_err (fun e => MempoolError_new MempoolErrorKind.InvalidShielded (OfShielded e))
          (verify_transaction tx branch_id shielded)
    | None => refuse MempoolErrorKind.InvalidShielded (Text "shielded parameters not loaded")
    end
  else Ok tt.

(** The checks ahead of the fee: consensus, inputs, scripts, standard forms. *)
Definition check_entry (mempool_prevouts : gmap OutPoint MempoolPrevout) (now best_height : Z) (tx : Transaction) (txid : Hash256)
    : result MempoolError (Found * list OutPoint * Z * Z) :=
  let next_height := wrap_i32 (Z.min (best_height + 1) 2147483647) in
  let branch_id := current_epoch_branch_id next_height (upgrades (consensus params)) in
  _ ← check_expiring tx next_height;
  _ ← map_err (fun e => MempoolError_new MempoolErrorKind.InvalidTransaction (OfValidation e))
        (validate_mempool_transaction tx next_height (Z.min now i64_max) (consensus params)
           (mkFlags (check_pow flags) (check_pon flags) (check_script flags) false (shielded_params flags)));
  _ ← map_err (fun e => MempoolError_new MempoolErrorKind.InvalidTransaction (OfChainState e))
        (validate_fluxnode_tx_for_mempool store params tx txid next_height);
  _ ← validate_shielded_state tx;
  found ← find_prevouts mempool_prevouts tx;
  spent ← try_fold (spend_input tx found next_height branch_id) ([], [], 0) (enumerate (vin tx));
  let '(prev_scripts, spent_outpoints, transparent_in) := spent in
  _ ← (if require_standard policy then enforce_standard_inputs tx prev_scripts policy else Ok tt);
  _ ← (if require_standard policy then enforce_standard_outputs tx policy else Ok tt);
  value_out ← tx_value_out tx;
  shielded_value_in ← tx_shielded_value_in tx;
  value_in ← in_range (checked_add_i64 shielded_value_in transparent_in);
  if value_in <? value_out then invalid "value out of range" else Ok (found, spent_outpoints, value_in, value_in - value_out).

Definition build_mempool_entry (mempool_prevouts : gmap OutPoint MempoolPrevout) (now : Z) (tx : Transaction) (raw : bytes)
    (limit_free : bool) (limiter : FreeRelayLimiter) : result MempoolError MempoolEntry * FreeRelayLimiter :=
  let size := Z.of_nat (length raw) in
  let checked :=
    txid ← map_err (fun e => MempoolError_new MempoolErrorKind.InvalidTransaction (OfEncoding e)) (txid tx);
    best ← internal (map_err ChainStore (best_block store));
    let best_height := from_option tip_height 0 best in
    checked ← check_entry mempool_prevouts now best_height tx txid;
    let '(found, spent_outpoints, value_in, fee) := checked in
    let modified_size := calculate_modified_size tx size in
    priority ← tx_priority tx found best_height modified_size;
    let parents := merge_sort hash_order (elements (fo_parents found)) in
    Ok (mkEntry txid tx raw now best_height fee value_in modified_size priority (is_nil parents) 0 f64_zero
          spent_outpoints parents) in
  match checked with
  | Ok e =>
      let '(relayed, limiter) := if limit_free then check_free_relay now tx (en_fee e) size limiter else (Ok tt, limiter) in
      (_ ← relayed;
       _ ← check_proofs_now tx
             (current_epoch_branch_id (wrap_i32 (Z.min (en_height e + 1) 2147483647)) (upgrades (consensus params)));
       Ok e, limiter)
  | Err e => (Err e, limiter)
  | Panic => (Panic, limiter)
  end.

(** ** Orphans, after a parent has been accepted *)
Record OrphanAcceptedTx := mkAccepted {
  oa_txid : Hash256; oa_height : Z; oa_fee : Z; oa_size : Z; oa_starting_priority : spec_float;
  oa_was_clear_at_entry : bool }.
Record OrphanProcessOutcome := mkProcessed {
  op_accepted : list OrphanAcceptedTx; op_evicted : Z; op_evicted_bytes : Z; op_evicted_txids : list Hash256 }.
Definition OrphanProcessOutcome_default : OrphanProcessOutcome := mkProcessed [] 0 0 [].
Definition accepted_of (e : MempoolEntry) : OrphanAcceptedTx :=
  mkAccepted (en_txid e) (Z.max (en_height e) 0) (en_fee e) (entry_size e) (starting_priority e) (en_was_clear_at_entry e).
Definition add_inserted (accepted : OrphanAcceptedTx) (inserted : MempoolInsertOutcome) (o : OrphanProcessOutcome)
    : OrphanProcessOutcome :=
  let o :=
    if 0 <? evicted inserted
    then mkProcessed (op_accepted o) (saturating_add_usize (op_evicted o) (evicted inserted))
           (saturating_add_usize (op_evicted_bytes o) (evicted_bytes inserted)) (op_evicted_txids o ++ evicted_txids inserted)
    else o in
  mkProcessed (op_accepted o ++ [accepted]) (op_evicted o) (op_evicted_bytes o) (op_evicted_txids o).

(** The pool, the limiter, what has come of it so far, and the parents still
    to look at. *)
Record OrphanState := mkOrphanState {
  os_pool : Mempool; os_limiter : FreeRelayLimiter; os_outcome : OrphanProcessOutcome; os_queue : list Hash256 }.
Inductive OrphanStop := out_of_fuel.

(** One orphan taken from the pool: it becomes an entry, waits for another
    parent, or is dropped. *)
Definition retry_orphan (now : Z) (st : OrphanState) (orphan : OrphanTx) : result OrphanStop OrphanState :=
  match tx_consensus_decode (or_raw orphan) with
  | Err _ => Ok st
  | Panic => Panic
  | Ok tx =>
      let m := os_pool st in
      let '(entry, limiter) :=
        build_mempool_entry (prevouts_for_tx tx m) now tx (or_raw orphan) (or_limit_free orphan) (os_limiter st) in
      match entry with
      | Panic => Panic
      | Err err =>
          let m :=
            if decide (err_kind err = MempoolErrorKind.MissingInput)
            then store_orphan now (or_txid orphan) (or_raw orphan) (err_missing_inputs err) (or_limit_free orphan) m
            else m in
          Ok (mkOrphanState m limiter (os_outcome st) (os_queue st))
      | Ok e =>
          let '(inserted, m) := Mempool.insert e m in
          match inserted with
          | Panic => Panic
          | Ok i => Ok (mkOrphanState m limiter (add_inserted (accepted_of e) i (os_outcome st)) (os_queue st ++ [en_txid e]))
          | Err err =>
              Ok (mkOrphanState m limiter (os_outcome st)
                    (if decide (err_kind err = MempoolErrorKind.AlreadyInMempool) then os_queue st ++ [en_txid e]
                     else os_queue st))
          end
      end
  end.
(** [fuel] bounds the parents taken from the queue. *)
Fixpoint process_orphans_loop (fuel : nat) (now : Z) (visited : gset Hash256) (st : OrphanState) : result OrphanStop OrphanState :=
  match os_queue st with
  | [] => Ok st
  | parent :: queue =>
      match fuel with
      | O => Err out_of_fuel
      | Datatypes.S fuel =>
          let st := mkOrphanState (os_pool st) (os_limiter st) (os_outcome st) queue in
          if bool_decide (parent ∈ visited) then process_orphans_loop fuel now visited st
          else
            let '(orphans, m) := take_orphans_for_parent parent (os_pool st) in
            st ← try_fold (retry_orphan now) (mkOrphanState m (os_limiter st) (os_outcome st) queue) orphans;
            process_orphans_loop fuel now ({[parent]} ∪ visited) st
      end
  end.
Definition orphan_fuel (m : Mempool) : nat :=
  let n := Datatypes.S (base.size (mp_orphans m)) in (n * n)%nat.
Definition process_orphans_after_accept (now : Z) (parent_txid : Hash256) (m : Mempool) (limiter : FreeRelayLimiter)
    : result OrphanStop OrphanState :=
  process_orphans_loop (orphan_fuel m) now ∅ (mkOrphanState m limiter OrphanProcessOutcome_default [parent_txid]).
End build.
