(* ===== verification/Admission.v ===== *)
(** * What an admitted transaction satisfies

    [build_mempool_entry] answers with an entry only when every input is an
    output of the chain or of the pool, mature and spent by a script that
    verifies, when the values balance and no nullifier is known to the chain;
    when outputs are missing, it names them all. *)

From S2P Require Import Prelude Consensus Rewards Float64 Encoding Hashing Transaction Sighash Script Storage Fluxnode Utxo Indexes ChainIndex Shielded Validation HeaderChain Payees FluxnodeChecks Ledger Frames Mempool PoolInvariant PoolEviction MempoolPolicy.
From Stdlib Require Import ZArith Lia Floats.SpecFloat.
From stdpp Require Import base list option numbers strings gmap sets sorting.
#[local] Open Scope Z_scope.

(** ** Values *)
Definition total_of {A} (f : A -> Z) (l : list A) : Z := foldr Z.add 0 (map f l).
Lemma total_of_app {A} (f : A -> Z) l1 l2 : total_of f (l1 ++ l2) = total_of f l1 + total_of f l2.
Proof. unfold total_of. induction l1 as [|a l1 IH]; simpl in *; lia. Qed.

Lemma pool_checked_add_Some a b c : checked_add_i64 a b = Some c -> c = a + b.
Proof. unfold checked_add_i64. case_match; congruence. Qed.
Lemma in_range_Ok {A} (o : option A) a : in_range o = Ok a <-> o = Some a.
Proof. destruct o; unfold in_range, invalid, refuse; split; congruence. Qed.
Lemma out_of_range_unless_Ok b u : out_of_range_unless b = Ok u -> b = true.
Proof. by destruct b. Qed.

(** What the checks on values say, once they have passed. *)
Ltac inv_value :=
  repeat match goal with
  | _ => progress inv_result
  | H : in_range _ = Ok _ |- _ => apply in_range_Ok, pool_checked_add_Some in H
  | H : out_of_range_unless _ = Ok _ |- _ => apply out_of_range_unless_Ok in H
  end; subst.

Lemma sum_out_Ok total outputs v : sum_out total outputs = Ok v -> v = total + total_of value outputs.
Proof.
  revert total. induction outputs as [|o outputs IH]; intros total; cbn [sum_out]; intros Hs; inv_value.
  - unfold total_of. simpl. lia.
  - apply IH in Hs. unfold total_of in *. simpl. lia.
Qed.
Lemma sum_joined_Ok part total js v : sum_joined part total js = Ok v -> v = total + total_of part js.
Proof.
  revert total. induction js as [|j js IH]; intros total; cbn [sum_joined]; intros Hs; inv_value.
  - unfold total_of. simpl. lia.
  - apply IH in Hs. unfold total_of in *. simpl. lia.
Qed.
Lemma pool_value_out_Ok tx v :
  is_i64 (value_balance tx) -> tx_value_out tx = Ok v ->
  v = total_of value (vout tx) + Z.max (- value_balance tx) 0 + total_of vpub_old (join_splits tx).
Proof.
  unfold tx_value_out. intros Hb Hv. inv_value.
  - apply sum_out_Ok in Hm. apply sum_joined_Ok in Hv.
    unfold Consensus.money_range, MAX_MONEY, COIN, wrap_i64, is_i64 in *. div_lia.
  - apply sum_out_Ok in Hm. apply sum_joined_Ok in Hv. lia.
Qed.
Lemma pool_shielded_value_in_Ok tx v :
  tx_shielded_value_in tx = Ok v -> v = Z.max (value_balance tx) 0 + total_of vpub_new (join_splits tx).
Proof. unfold tx_shielded_value_in. intros Hv. inv_value; apply sum_joined_Ok in Hv; lia. Qed.

(** ** Errors that do not name missing outputs *)
Definition names_nothing {A} (r : result MempoolError A) : Prop :=
  forall e, r = Err e -> err_kind e <> MempoolErrorKind.MissingInput.
Section names_nothing.
  Context {A B : Type}.
Lemma names_nothing_ok (a : A) : names_nothing (Ok a).
Proof. by intros e [=]. Qed.
Lemma names_nothing_refuse kind message :
  kind <> MempoolErrorKind.MissingInput -> names_nothing (refuse (A:=A) kind message).
Proof. intros Hk e [= <-]. done. Qed.
Lemma names_nothing_map_err {E} kind message (r : result E A) :
  kind <> MempoolErrorKind.MissingInput -> names_nothing (map_err (fun e => MempoolError_new kind (message e)) r).
Proof. intros Hk e. destruct r; [done| |done]. by intros [= <-]. Qed.
Lemma names_nothing_bind (r : result MempoolError A) (f : A -> result MempoolError B) :
  names_nothing r -> (forall a, names_nothing (f a)) -> names_nothing (r ≫= f).
Proof. intros Hr Hf e. destruct r as [a|e'|]; [apply Hf| |done]. intros [= <-]. by apply Hr. Qed.
Lemma names_nothing_fold (f : A -> B -> result MempoolError A) a l :
  (forall a b, names_nothing (f a b)) -> names_nothing (try_fold f a l).
Proof.
  intros Hf. revert a. induction l as [|b l IH]; intros a; cbn [try_fold]; [by intros e [=]|].
  specialize (Hf a b). destruct (f a b) as [a'|e'|]; [apply IH| |done]. intros e [= <-]. by apply Hf.
Qed.
End names_nothing.
Ltac solve_names_nothing :=
  repeat first
    [ assumption
    | discriminate
    | apply names_nothing_ok
    | apply names_nothing_refuse
    | apply names_nothing_map_err
    | apply names_nothing_bind
    | apply names_nothing_fold
    | progress intros
    | progress unfold internal, invalid, non_standard, in_range, out_of_range_unless
    | match goal with |- names_nothing (match ?b with _ => _ end) => destruct b end ].

Lemma names_nothing_sum_out total outputs : names_nothing (sum_out total outputs).
Proof. revert total. induction outputs; intros total; cbn [sum_out]; solve_names_nothing; auto. Qed.
Lemma names_nothing_sum_joined part total js : names_nothing (sum_joined part total js).
Proof. revert total. induction js; intros total; cbn [sum_joined]; solve_names_nothing; auto. Qed.
Lemma names_nothing_standard_outputs policy n outputs : names_nothing (standard_outputs_loop policy n outputs).
Proof. revert n. induction outputs; intros n; cbn [standard_outputs_loop]; solve_names_nothing; auto. Qed.

(** ** Where the inputs come from *)
Section inputs.
  Context {H : Hashes} {S256 : Secp} {R : Recovery} {SC : ShieldedCrypto}.
  Context {T : ShieldedTrees} {S : Type} {KV : KeyValueStore S} {F : Powf}.
  Context (store : S) (params : ChainParams) (flags : ValidationFlags) (policy : MempoolPolicy).
  Context (mempool_prevouts : gmap OutPoint MempoolPrevout).

Definition on_chain (o : OutPoint) (info : PrevInfo) : Prop :=
  exists e, utxo_get store o = Ok (Some e)
    /\ info = mkPrevInfo (ue_value e) (ue_script_pubkey e) (ue_is_coinbase e) (ue_height e).
Definition in_pool (o : OutPoint) (info : PrevInfo) : Prop :=
  utxo_get store o = Ok None
  /\ exists p, mempool_prevouts !! o = Some p
       /\ info = mkPrevInfo (mpv_value p) (mpv_script_pubkey p) false MEMPOOL_HEIGHT.
Definition nowhere (o : OutPoint) : Prop := utxo_get store o = Ok None /\ mempool_prevouts !! o = None.

(** What has been found of the inputs seen. *)
Record found_ok (seen : list TxIn) (found : Found) : Prop := {
  fd_info o info : fo_previnfos found !! o = Some info -> on_chain o info \/ in_pool o info;
  fd_missing o : o ∈ fo_missing found <-> o ∈ map Transaction.prevout seen /\ nowhere o;
  fd_parents h : h ∈ fo_parents found <-> exists o info, o ∈ map Transaction.prevout seen /\ in_pool o info /\ hash o = h }.

Lemma in_pool_not_chain o i1 i2 : on_chain o i1 -> in_pool o i2 -> False.
Proof. intros (e&He&_) [Hn _]. congruence. Qed.
Lemma seen_app seen input o :
  o ∈ map Transaction.prevout (seen ++ [input]) <-> o ∈ map Transaction.prevout seen \/ o = Transaction.prevout input.
Proof. rewrite map_app, elem_of_app. simpl. by rewrite list_elem_of_singleton. Qed.

Lemma find_prevout_ok seen input found found' :
  found_ok seen found -> find_prevout store policy mempool_prevouts found input = Ok found' ->
  found_ok (seen ++ [input]) found'.
Proof.
  intros [H1 H2 H3] Hf. unfold find_prevout in Hf. apply bind_Ok in Hf as (u&_&Hf).
  apply bind_Ok in Hf as (entry&He&Hf). unfold internal in He. inv_result.
  set (o := Transaction.prevout input) in *.
  destruct entry as [e|]; [|destruct (mempool_prevouts !! o) as [p|] eqn:Ep]; inv_result.
  - assert (on_chain o (mkPrevInfo (ue_value e) (ue_script_pubkey e) (ue_is_coinbase e) (ue_height e))) as Hc by (by exists e).
    split; cbn [fo_previnfos fo_missing fo_parents].
    + intros o' info [[<- <-]|[_ Hl]]%lookup_insert_Some; [by left|by apply H1].
    + intros o'. rewrite seen_app, H2. fold o. split; [intros [? ?]; by auto|].
      intros [[Hs| ->] Hn]; [done|]. destruct Hc as (e'&He'&_). destruct Hn. congruence.
    + intros h. rewrite H3. setoid_rewrite seen_app. fold o. split; [intros (o'&i&?&?&?); by eauto 6|].
      intros (o'&info&[Hs| ->]&Hp&Hh); [eauto|]. by destruct (in_pool_not_chain _ _ _ Hc Hp).
  - assert (in_pool o (mkPrevInfo (mpv_value p) (mpv_script_pubkey p) false MEMPOOL_HEIGHT)) as Hc by (split; eauto).
    split; cbn [fo_previnfos fo_missing fo_parents].
    + intros o' info [[<- <-]|[_ Hl]]%lookup_insert_Some; [by right|by apply H1].
    + intros o'. rewrite seen_app, H2. fold o. split; [intros [? ?]; by auto|].
      intros [[Hs| ->] Hn]; [done|]. destruct Hn. congruence.
    + intros h. rewrite elem_of_union, elem_of_singleton, H3. setoid_rewrite seen_app. fold o. split.
      * intros [->|(o'&i&?&?&?)]; eauto 8.
      * intros (o'&info&[Hs| ->]&Hp&Hh); eauto 6.
  - split; cbn [fo_previnfos fo_missing fo_parents].
    + done.
    + intros o'. rewrite elem_of_union, elem_of_singleton, seen_app, H2. fold o. split.
      * intros [->|[? ?]]; auto. by split; [right|].
      * intros [[Hs| ->] Hn]; auto.
    + intros h. rewrite H3. setoid_rewrite seen_app. fold o. split; [intros (o'&i&?&?&?); by eauto 6|].
      intros (o'&info&[Hs| ->]&Hp&Hh); [eauto|]. destruct Hp as (_&p&Hp&_). congruence.
Qed.
Lemma found_ok_nil : found_ok [] (mkFound ∅ ∅ ∅).
Proof. split; cbn; intros; set_solver. Qed.
Lemma find_all_ok inputs found :
  try_fold (find_prevout store policy mempool_prevouts) (mkFound ∅ ∅ ∅) inputs = Ok found -> found_ok inputs found.
Proof.
  apply (try_fold_ind _ (fun seen found => found_ok seen found)); [apply found_ok_nil|].
  intros seen b a1 a2 _. apply find_prevout_ok.
Qed.
(** ** Shielded inputs *)
Lemma try_fold_each {E B} (f : unit -> B -> result E unit) l u :
  try_fold f u l = Ok u -> forall b, b ∈ l -> f tt b = Ok tt.
Proof.
  destruct u. induction l as [|b l IH]; cbn [try_fold]; intros Hf b' Hb; [by apply not_elem_of_nil in Hb|].
  destruct (f tt b) as [[]| |] eqn:E1; try done. apply elem_of_cons in Hb as [->|Hb]; [done|by apply IH].
Qed.
Lemma check_unspent_Ok message spent n u : check_unspent message spent tt n = Ok u -> spent n = Ok false.
Proof.
  unfold check_unspent, internal. intros Hc. apply bind_Ok in Hc as (known&Hk&Hc). apply map_err_Ok in Hk.
  by destruct known.
Qed.
(** The chain knows none of the nullifiers, and all of the anchors. *)
Record shielded_fresh (tx : Transaction) : Prop := {
  sf_sprout j n : j ∈ join_splits tx -> n ∈ nullifiers j -> sprout_nullifier_spent store n = Ok false;
  sf_sprout_anchor j : j ∈ join_splits tx -> sprout_anchor_exists store (js_anchor j) = Ok true;
  sf_sapling s : s ∈ shielded_spends tx -> sapling_nullifier_spent store (sd_nullifier s) = Ok false;
  sf_sapling_anchor s : s ∈ shielded_spends tx -> sapling_anchor_exists store (sd_anchor s) = Ok true }.
Lemma validate_shielded_state_Ok tx u : validate_shielded_state store tx = Ok u -> shielded_fresh tx.
Proof.
  unfold validate_shielded_state. intros Hv. apply bind_Ok in Hv as ([]&Hj&Hs). destruct u.
  pose proof (try_fold_each _ _ _ Hj) as Hj'. pose proof (try_fold_each _ _ _ Hs) as Hs'. clear Hj Hs. cbv beta in *.
  assert (forall j, j ∈ join_splits tx -> sprout_anchor_exists store (js_anchor j) = Ok true
    /\ forall n, n ∈ nullifiers j -> sprout_nullifier_spent store n = Ok false) as HJ.
  { intros j Hin. specialize (Hj' j Hin). apply bind_Ok in Hj' as (known&Hk&Hj'). unfold internal in Hk.
    apply map_err_Ok in Hk. destruct known; [|done]. split; [done|]. intros n Hn.
    by apply (check_unspent_Ok _ _ _ tt (try_fold_each _ _ _ Hj' n Hn)). }
  assert (forall s, s ∈ shielded_spends tx -> sapling_anchor_exists store (sd_anchor s) = Ok true
    /\ sapling_nullifier_spent store (sd_nullifier s) = Ok false) as HS.
  { intros s Hin. specialize (Hs' s Hin). apply bind_Ok in Hs' as (known&Hk&Hs'). unfold internal in Hk.
    apply map_err_Ok in Hk. destruct known; [|done]. split; [done|]. exact (check_unspent_Ok _ _ _ _ Hs'). }
  split; [intros j n ? ?; by apply (HJ j)|intros j ?; by apply (HJ j)|intros s ?; by apply HS|intros s ?; by apply HS].
Qed.

Lemma find_prevouts_Ok tx found :
  find_prevouts store policy mempool_prevouts tx = Ok found ->
  found_ok (vin tx) found /\ forall o, o ∈ map Transaction.prevout (vin tx) -> ~ nowhere o.
Proof.
  unfold find_prevouts. intros Hf. apply bind_Ok in Hf as (found'&Hf&Hm). pose proof (find_all_ok _ _ Hf) as Hok.
  destruct (merge_sort outpoint_order (elements (fo_missing found'))) as [|o l] eqn:Em; [|done]. injection Hm as ->.
  split; [done|]. intros o Hin Hn. assert (o ∈ elements (fo_missing found)) as Ho by (apply elem_of_elements, Hok; auto).
  assert (elements (fo_missing found) = []) as He; [|rewrite He in Ho; by apply not_elem_of_nil in Ho].
  apply Permutation_nil_r. rewrite <- Em. symmetry. apply merge_sort_Permutation.
Qed.

(** ** Spending them *)
(** What the loop over the inputs has checked of the [i]-th. *)
Definition spendable (tx : Transaction) (next_height branch_id : Z) (i : nat) (input : TxIn) (info : PrevInfo) : Prop :=
  (on_chain (Transaction.prevout input) info \/ in_pool (Transaction.prevout input) info)
  /\ (pi_is_coinbase info = true -> COINBASE_MATURITY <= next_height - pi_height info)
  /\ (check_script flags = true ->
      verify_script (script_sig input) (pi_script_pubkey info) tx i (pi_value info) BLOCK_SCRIPT_VERIFY_FLAGS branch_id = Ok tt).
Lemma check_maturity_Ok tx next_height info u :
  check_maturity params tx next_height info = Ok u -> pi_is_coinbase info = true -> COINBASE_MATURITY <= next_height - pi_height info.
Proof.
  unfold check_maturity, invalid, refuse. intros Hc Hcb. rewrite Hcb in Hc.
  destruct (next_height - pi_height info <? COINBASE_MATURITY) eqn:E; [done|]. by apply Z.ltb_ge in E.
Qed.
Lemma check_input_script_Ok tx branch_id i input info u :
  check_input_script flags policy tx branch_id i input info = Ok u -> check_script flags = true ->
  verify_script (script_sig input) (pi_script_pubkey info) tx i (pi_value info) BLOCK_SCRIPT_VERIFY_FLAGS branch_id = Ok tt.
Proof.
  unfold check_input_script. intros Hc Hs. rewrite Hs in Hc. apply bind_Ok in Hc as ([]&Hv&Hc).
  apply map_err_Ok in Hv. destruct (require_standard policy); [|done].
  apply map_err_Ok in Hc. by destruct u.
Qed.

(** After the inputs [seen]. *)
Definition spent_ok (tx : Transaction) (next_height branch_id : Z) (seen : list (nat * TxIn))
    (st : list bytes * list OutPoint * Z) : Prop :=
  exists infos, Forall2 (fun ii info => spendable tx next_height branch_id (fst ii) (snd ii) info) seen infos
    /\ st = (map pi_script_pubkey infos, map (fun ii => Transaction.prevout (snd ii)) seen, total_of pi_value infos).
Lemma spend_input_ok tx found next_height branch_id seen st ii st' :
  found_ok (vin tx) found -> spent_ok tx next_height branch_id seen st ->
  spend_input params flags policy tx found next_height branch_id st ii = Ok st' ->
  spent_ok tx next_height branch_id (seen ++ [ii]) st'.
Proof.
  intros Hok (infos&Hall&->) Hs. destruct ii as [i input]. unfold spend_input in Hs.
  apply bind_Ok in Hs as (info&Hi&Hs). apply bind_Ok in Hs as (u&Hmat&Hs). apply bind_Ok in Hs as (total&Ht&Hs).
  apply bind_Ok in Hs as (u'&Hsc&Hs). injection Hs as <-. apply in_range_Ok, pool_checked_add_Some in Ht.
  exists (infos ++ [info]). split.
  - apply Forall2_app; [done|]. constructor; [|constructor]. cbn [fst snd]. split_and!.
    + unfold previnfo, refuse in Hi. destruct (fo_previnfos found !! _) eqn:El; [|done]. injection Hi as ->.
      by apply (fd_info _ _ Hok).
    + by eapply check_maturity_Ok.
    + by eapply check_input_script_Ok.
  - rewrite !map_app, total_of_app, Ht. unfold total_of. simpl. f_equal. lia.
Qed.
Lemma enumerate_from_snd {A B} (f : A -> B) n (l : list A) : map (fun ii => f (snd ii)) (enumerate_from n l) = map f l.
Proof. revert n. induction l as [|a l IH]; intros n; simpl; [done|]. by rewrite IH. Qed.
Lemma enumerate_from_lookup {A} n (l : list A) k : enumerate_from n l !! k = (fun a => ((n + k)%nat, a)) <$> l !! k.
Proof.
  revert n k. induction l as [|a l IH]; intros n k; [done|]. destruct k as [|k]; simpl; [by rewrite Nat.add_0_r|].
  rewrite IH. by rewrite Nat.add_succ_r.
Qed.
Lemma spend_all_ok tx found next_height branch_id prev_scripts spent total :
  found_ok (vin tx) found ->
  try_fold (spend_input params flags policy tx found next_height branch_id) ([], [], 0) (enumerate (vin tx))
    = Ok (prev_scripts, spent, total) ->
  exists infos, length infos = length (vin tx)
    /\ (forall i input info, vin tx !! i = Some input -> infos !! i = Some info ->
         spendable tx next_height branch_id i input info)
    /\ prev_scripts = map pi_script_pubkey infos /\ spent = map Transaction.prevout (vin tx)
    /\ total = total_of pi_value infos.
Proof.
  intros Hok Hf. assert (spent_ok tx next_height branch_id (enumerate (vin tx)) (prev_scripts, spent, total)) as (infos&Hall&Heq).
  { revert Hf. apply (try_fold_ind _ (spent_ok tx next_height branch_id)); [by exists []|].
    intros seen ii a1 a2 _ Ha Hs. by eapply spend_input_ok. }
  injection Heq as -> -> ->. exists infos. unfold enumerate in *. split_and!; [|..|done|apply enumerate_from_snd|done].
  - apply Forall2_length in Hall. rewrite <- Hall, <- (length_map snd). f_equal.
    etrans; [apply (enumerate_from_snd id)|apply map_id].
  - intros i input info Hi Hinfo. assert (enumerate_from 0 (vin tx) !! i = Some (i, input)) as He
      by (rewrite enumerate_from_lookup, Hi; done).
    by destruct (Forall2_lookup_lr _ _ _ _ _ _ Hall He Hinfo) as (?&?&?).
Qed.

(** ** The entry *)
Definition next_height_of (best_height : Z) : Z := wrap_i32 (Z.min (best_height + 1) 2147483647).
Definition branch_id_at (best_height : Z) : Z :=
  current_epoch_branch_id (next_height_of best_height) (upgrades (consensus params)).

(** The outputs that the transaction spends, with the value it moves. *)
Record admissible (tx : Transaction) (best_height : Z) (parents : gset Hash256) (value_in fee : Z) (infos : list PrevInfo) : Prop := {
  ad_length : length infos = length (vin tx);
  ad_spendable i input info : vin tx !! i = Some input -> infos !! i = Some info ->
    spendable tx (next_height_of best_height) (branch_id_at best_height) i input info;
  ad_parents h : h ∈ parents <-> exists o info, o ∈ map Transaction.prevout (vin tx) /\ in_pool o info /\ hash o = h;
  ad_value_in : value_in = total_of pi_value infos + Z.max (value_balance tx) 0 + total_of vpub_new (join_splits tx);
  ad_balance : is_i64 (value_balance tx) ->
    value_in = total_of value (vout tx) + Z.max (- value_balance tx) 0 + total_of vpub_old (join_splits tx) + fee;
  ad_fee : 0 <= fee;
  ad_shielded : shielded_fresh tx }.
Lemma check_entry_Ok now best_height tx txid found spent value_in fee :
  check_entry store params flags policy mempool_prevouts now best_height tx txid = Ok (found, spent, value_in, fee) ->
  spent = map Transaction.prevout (vin tx)
  /\ exists infos, admissible tx best_height (fo_parents found) value_in fee infos.
Proof.
  intros Hc. unfold check_entry in Hc. cbv zeta in Hc.
  apply bind_Ok in Hc as (u1&_&Hc). apply bind_Ok in Hc as (u2&_&Hc). apply bind_Ok in Hc as (u3&_&Hc).
  apply bind_Ok in Hc as (u4&Hsh&Hc). apply bind_Ok in Hc as (found'&Hfound&Hc).
  apply bind_Ok in Hc as ([[prev_scripts spent'] total]&Hspent&Hc).
  apply bind_Ok in Hc as (u5&_&Hc). apply bind_Ok in Hc as (u6&_&Hc).
  apply bind_Ok in Hc as (out&Hout&Hc). apply bind_Ok in Hc as (shin&Hshin&Hc). apply bind_Ok in Hc as (vin&Hvin&Hc).
  apply in_range_Ok, pool_checked_add_Some in Hvin. destruct (vin <? out) eqn:El; [done|]. injection Hc as <- <- <- <-.
  destruct (find_prevouts_Ok _ _ Hfound) as [Hok _].
  destruct (spend_all_ok _ _ _ _ _ _ _ Hok Hspent) as (infos&Hlen&Hall&_&->&->).
  apply pool_shielded_value_in_Ok in Hshin.
  split; [done|]. exists infos. split; [done|exact Hall|apply Hok|lia| |lia|by eapply validate_shielded_state_Ok].
  intros Hb. apply (pool_value_out_Ok _ _ Hb) in Hout. lia.
Qed.

Lemma build_mempool_entry_Ok now tx raw limit_free limiter e limiter' :
  build_mempool_entry store params flags policy mempool_prevouts now tx raw limit_free limiter = (Ok e, limiter') ->
  txid tx = Ok (en_txid e) /\ en_tx e = tx /\ en_raw e = raw
  /\ en_spent_outpoints e = map Transaction.prevout (vin tx)
  /\ (check_shielded flags && tx_needs_shielded tx = true -> exists sp, shielded_params flags = Some sp
        /\ verify_transaction tx (branch_id_at (en_height e)) sp = Ok tt)
  /\ exists parents infos, en_parents e = merge_sort hash_order (elements parents)
       /\ admissible tx (en_height e) parents (en_value_in e) (en_fee e) infos.
Proof.
  intros Hc. unfold build_mempool_entry in Hc. cbv zeta in Hc.
  match type of Hc with context [match ?m with _ => _ end = (Ok e, _)] => destruct m as [e'| |] eqn:Em end;
    [|by injection Hc|by injection Hc].
  destruct (if limit_free then _ else _) as [relayed l]. injection Hc as Hc ->.
  apply bind_Ok in Hc as (u&_&Hc). apply bind_Ok in Hc as (u'&Hp&Hc). injection Hc as ->.
  apply bind_Ok in Em as (id&Hid&Em). apply map_err_Ok in Hid. apply bind_Ok in Em as (best&_&Em).
  apply bind_Ok in Em as ([[[found spent] value_in] fee]&Hcheck&Em). apply bind_Ok in Em as (prio&_&Em). injection Em as <-.
  cbn [en_txid en_tx en_raw en_spent_outpoints en_height en_parents en_value_in en_fee] in *.
  destruct (check_entry_Ok _ _ _ _ _ _ _ _ Hcheck) as (->&infos&Had). split_and!; try done.
  - intros Hn. unfold check_proofs_now in Hp. rewrite Hn in Hp. destruct (shielded_params flags) as [sp|]; [|done].
    apply map_err_Ok in Hp. exists sp. by destruct u'.
  - by exists (fo_parents found), infos.
Qed.

(** C6: the memory pool admits no transaction that conjures coins.  When
    [build_mempool_entry] answers with an entry for [tx]: each input spends an
    output of the chain, or of a pool transaction, which is then listed as a
    parent; coinbase outputs are a hundred blocks deep; every script verifies
    under the flags of blocks when scripts are checked; the value of the
    spent outputs plus what leaves the shielded pools is the value of the new
    outputs plus what enters the shielded pools plus the fee, which is not
    negative; the chain knows all the anchors and none of the nullifiers. *)
Theorem admitted_entry_sound now tx raw limit_free limiter e limiter' :
  is_i64 (value_balance tx) ->
  build_mempool_entry store params flags policy mempool_prevouts now tx raw limit_free limiter = (Ok e, limiter') ->
  txid tx = Ok (en_txid e) /\ en_raw e = raw /\ en_spent_outpoints e = map Transaction.prevout (vin tx)
  /\ (forall p, p ∈ en_parents e <-> exists o info, o ∈ map Transaction.prevout (vin tx) /\ in_pool o info /\ hash o = p)
  /\ shielded_fresh tx
  /\ exists infos, length infos = length (vin tx)
       /\ (forall i input info, vin tx !! i = Some input -> infos !! i = Some info ->
            (on_chain (Transaction.prevout input) info \/ in_pool (Transaction.prevout input) info)
            /\ (pi_is_coinbase info = true -> COINBASE_MATURITY <= next_height_of (en_height e) - pi_height info)
            /\ (check_script flags = true ->
                verify_script (script_sig input) (pi_script_pubkey info) tx i (pi_value info)
                  BLOCK_SCRIPT_VERIFY_FLAGS (branch_id_at (en_height e)) = Ok tt))
       /\ 0 <= en_fee e
       /\ total_of pi_value infos + Z.max (value_balance tx) 0 + total_of vpub_new (join_splits tx)
          = total_of value (vout tx) + Z.max (- value_balance tx) 0 + total_of vpub_old (join_splits tx) + en_fee e.
Proof.
  intros Hb Hbuild. apply build_mempool_entry_Ok in Hbuild as (Hid&_&Hraw&Hsp&_&parents&infos&Hpar&Had).
  split_and!; [done..| |apply Had|].
  - intros p. rewrite Hpar, merge_sort_Permutation, elem_of_elements. apply Had.
  - exists infos. pose proof (ad_balance _ _ _ _ _ _ Had Hb). pose proof (ad_value_in _ _ _ _ _ _ Had).
    split_and!; [apply Had|apply Had|apply Had|lia].
Qed.

(** ** What is missing *)
Lemma names_nothing_enforce_inputs tx prev_scripts : names_nothing (enforce_standard_inputs tx prev_scripts policy).
Proof. unfold enforce_standard_inputs, standard_input, add_sigops. solve_names_nothing. Qed.
Lemma names_nothing_enforce_outputs tx : names_nothing (enforce_standard_outputs tx policy).
Proof.
  unfold enforce_standard_outputs. apply names_nothing_bind; [apply names_nothing_standard_outputs|solve_names_nothing].
Qed.
Lemma names_nothing_values tx : names_nothing (tx_value_out tx) /\ names_nothing (tx_shielded_value_in tx).
Proof.
  split; (apply names_nothing_bind; [|intros; try apply names_nothing_sum_joined]); try apply names_nothing_sum_out;
    try apply names_nothing_bind; intros; try apply names_nothing_sum_joined; solve_names_nothing.
Qed.
Lemma names_nothing_spend tx found h b st ii : names_nothing (spend_input params flags policy tx found h b st ii).
Proof. unfold spend_input, previnfo, check_maturity, check_input_script. destruct ii. destruct st as [[]]. solve_names_nothing. Qed.
Lemma names_nothing_shielded tx : names_nothing (validate_shielded_state store tx).
Proof. unfold validate_shielded_state, check_unspent. solve_names_nothing. Qed.
Lemma names_nothing_find found input : names_nothing (find_prevout store policy mempool_prevouts found input).
Proof. unfold find_prevout. solve_names_nothing. Qed.
Lemma names_nothing_priority tx found h size : names_nothing (tx_priority tx found h size).
Proof. unfold tx_priority, add_input_priority, previnfo. solve_names_nothing. Qed.
Lemma names_nothing_relay now tx fee size limiter : names_nothing (fst (check_free_relay policy now tx fee size limiter)).
Proof. unfold check_free_relay, apply_free_relay_rate_limit. repeat case_match; cbn [fst]; solve_names_nothing. Qed.

Lemma outpoint_cmp_eq a b : outpoint_cmp a b = Eq <-> a = b.
Proof.
  unfold outpoint_cmp. rewrite then_with_eq, bytes_cmp_eq, Z.compare_eq_iff. destruct a, b. simpl. naive_solver.
Qed.
#[export] Instance outpoint_order_trans : Transitive outpoint_order.
Proof.
  intros a b c. unfold outpoint_order, outpoint_cmp. rewrite !then_with_not_gt, !bytes_cmp_eq.
  intros [Hab|[Hab H1]] [Hbc|[Hbc H2]].
  - left. by eapply bytes_cmp_trans.
  - left. congruence.
  - left. congruence.
  - right. split; [congruence|]. rewrite Z.compare_gt_iff in *. lia.
Qed.
#[export] Instance outpoint_order_total : Total outpoint_order.
Proof.
  intros a b. unfold outpoint_order. destruct (outpoint_cmp a b) eqn:E; [by left|by left|right].
  unfold outpoint_cmp in *. rewrite bytes_cmp_opp, Z.compare_antisym, <- then_with_opp, E. done.
Qed.

(** The outputs named: in order, once each, and those that are nowhere. *)
Definition names (tx : Transaction) (missing : list OutPoint) : Prop :=
  missing <> [] /\ StronglySorted outpoint_order missing /\ NoDup missing
  /\ forall o, o ∈ missing <-> o ∈ map Transaction.prevout (vin tx) /\ nowhere o.
Lemma find_prevouts_missing tx err :
  find_prevouts store policy mempool_prevouts tx = Err err -> err_kind err = MempoolErrorKind.MissingInput ->
  names tx (err_missing_inputs err).
Proof.
  unfold find_prevouts. intros Hf Hk.
  destruct (try_fold _ _ _) as [found|e|] eqn:Ef; cbn [mbind result_bind] in Hf; [| |done].
  - apply find_all_ok in Ef. set (l := elements (fo_missing found)) in *.
    pose proof (merge_sort_Permutation outpoint_order l) as Hp.
    pose proof (StronglySorted_merge_sort outpoint_order l) as Hs.
    destruct (merge_sort outpoint_order l) as [|o missing]; [done|]. injection Hf as <-. cbn [err_missing_inputs MempoolError_missing_inputs].
    split_and!; [done|done|rewrite Hp; apply NoDup_elements|].
    intros o'. rewrite Hp. unfold l. rewrite elem_of_elements. apply Ef.
  - injection Hf as <-. exfalso. revert Hk. eapply (names_nothing_fold (A:=Found)); [|exact Ef]. apply names_nothing_find.
Qed.
Lemma check_entry_missing now best_height tx txid err :
  check_entry store params flags policy mempool_prevouts now best_height tx txid = Err err ->
  err_kind err = MempoolErrorKind.MissingInput -> names tx (err_missing_inputs err).
Proof.
  intros Hc Hk. unfold check_entry in Hc. cbv zeta in Hc.
  assert (forall (A B : Type) (r : result MempoolError A) (f : A -> result MempoolError B), names_nothing r ->
    (r ≫= f) = Err err -> exists a, r = Ok a /\ f a = Err err) as Hskip.
  { intros A B r f Hr. destruct r as [a|e|]; cbn; [eauto| |done]. intros [= ->]. by destruct (Hr err). }
  apply Hskip in Hc as (u1&_&Hc); [|unfold check_expiring; solve_names_nothing].
  apply Hskip in Hc as (u2&_&Hc); [|solve_names_nothing]. apply Hskip in Hc as (u3&_&Hc); [|solve_names_nothing].
  apply Hskip in Hc as (u4&_&Hc); [|apply names_nothing_shielded].
  destruct (find_prevouts store policy mempool_prevouts tx) as [found|e|] eqn:Ef; cbn [mbind result_bind] in Hc; [| |done].
  2: { injection Hc as ->. by apply find_prevouts_missing. }
  exfalso. match type of Hc with ?r = _ => enough (names_nothing r) as Hn by (by apply (Hn err)) end.
  clear dependent err.
  apply names_nothing_bind; [apply names_nothing_fold; intros; apply names_nothing_spend|]. intros [[ps sp] tin].
  apply names_nothing_bind; [destruct (require_standard policy); [apply names_nothing_enforce_inputs|solve_names_nothing]|].
  intros _. apply names_nothing_bind; [destruct (require_standard policy); [apply names_nothing_enforce_outputs|solve_names_nothing]|].
  intros _. apply names_nothing_bind; [apply names_nothing_values|]. intros out.
  apply names_nothing_bind; [apply names_nothing_values|]. intros shin. solve_names_nothing.
Qed.

Lemma build_missing_names now tx raw limit_free limiter err :
  fst (build_mempool_entry store params flags policy mempool_prevouts now tx raw limit_free limiter) = Err err ->
  err_kind err = MempoolErrorKind.MissingInput -> names tx (err_missing_inputs err).
Proof.
  unfold build_mempool_entry. cbv zeta.
  match goal with |- context [match ?m with _ => _ end] => destruct m as [e|err'|] eqn:Em end; [| |done].
  - intros Hr Hk. exfalso. revert Hk. revert err Hr.
    pose proof (names_nothing_relay now tx (en_fee e) (Z.of_nat (length raw)) limiter) as Hn.
    destruct limit_free; [destruct (check_free_relay _ _ _ _ _ _) as [relayed l]|]; cbn [fst] in *;
      match goal with |- forall e, ?r = Err e -> _ => change (names_nothing r) end;
      unfold check_proofs_now; solve_names_nothing.
  - cbn [fst]. intros [= <-] Hk. revert Em.
    destruct (map_err _ (txid tx)) as [id|e'|] eqn:E1; cbn [mbind result_bind]; [| |done].
    2: { intros [= ->]. exfalso. revert Hk. apply (fun Hk => names_nothing_map_err _ _ _ Hk _ E1). discriminate. }
    destruct (internal _) as [best|e'|] eqn:E2; cbn [mbind result_bind]; [| |done].
    2: { intros [= ->]. exfalso. revert Hk. apply (fun Hk => names_nothing_map_err _ _ _ Hk _ E2). discriminate. }
    destruct (check_entry _ _ _ _ _ _ _ _ _) as [[[[found sp] vi] fee]|e'|] eqn:E3; cbn [mbind result_bind]; [| |done].
    2: { intros [= ->]. by apply (check_entry_missing _ _ _ _ _ E3). }
    intros Hp. exfalso. revert Hk. revert Hp.
    match goal with |- ?r = _ -> _ => assert (names_nothing r) as Hn end; [|apply Hn].
    apply names_nothing_bind; [apply names_nothing_priority|solve_names_nothing].
Qed.

(** C17: when an input is missing, the error of [build_mempool_entry] names
    exactly what is missing: the outputs that the transaction spends and that
    are neither in the chain nor in the pool, in order, each once.  No other
    refusal is of kind [MissingInput], and with an output missing there is no
    entry. *)
Theorem missing_inputs_named now tx raw limit_free limiter :
  let r := fst (build_mempool_entry store params flags policy mempool_prevouts now tx raw limit_free limiter) in
  (forall err, r = Err err -> err_kind err = MempoolErrorKind.MissingInput ->
     err_missing_inputs err <> [] /\ StronglySorted outpoint_order (err_missing_inputs err)
     /\ NoDup (err_missing_inputs err)
     /\ forall o, o ∈ err_missing_inputs err <-> o ∈ map Transaction.prevout (vin tx) /\ nowhere o)
  /\ (forall o, o ∈ map Transaction.prevout (vin tx) -> nowhere o -> is_ok r = false).
Proof.
  cbv zeta. split; [intros err; apply build_missing_names|]. intros o Ho Hn. unfold build_mempool_entry. cbv zeta.
  match goal with |- context [match ?m with _ => _ end] => destruct m as [e|err|] eqn:Em end; [|done..].
  exfalso. apply bind_Ok in Em as (id&_&Em). apply bind_Ok in Em as (best&_&Em).
  apply bind_Ok in Em as (c&Hc&_). unfold check_entry in Hc. cbv zeta in Hc.
  do 4 apply bind_Ok in Hc as (?&_&Hc). apply bind_Ok in Hc as (found&Hf&_).
  apply find_prevouts_Ok in Hf as [_ Hf]. by apply (Hf o).
Qed.
End inputs.
