(* ===== verification/OrphanRetry.v ===== *)
(** * Orphans tried again

    [process_orphans_after_accept] works through a queue of accepted parents.
    It ends, since no parent is looked at twice and the orphans only become
    fewer, and every change it makes to the pool is a step of the pool's
    history.  The pool is locked anew for each step; what other threads do in
    between is not part of this run. *)

From S2P Require Import Prelude Consensus Rewards Float64 Encoding Hashing Transaction Sighash Script Storage Fluxnode Utxo Indexes ChainIndex Shielded Validation HeaderChain Payees FluxnodeChecks Ledger Frames Mempool PoolInvariant PoolEviction Orphans MempoolPolicy Admission.
From Stdlib Require Import ZArith Lia Floats.SpecFloat.
From stdpp Require Import base list option numbers strings gmap sets sorting relations.
#[local] Open Scope Z_scope.

(** ** Outputs of the pool *)
Lemma prevouts_for_tx_lookup tx m o p : prevouts_for_tx tx m !! o = Some p -> Mempool.prevout o m = Some p.
Proof.
  unfold prevouts_for_tx. set (l := vin tx). clearbody l.
  assert (forall out, (forall o p, out !! o = Some p -> Mempool.prevout o m = Some p) ->
    foldl (add_prevout m) out l !! o = Some p -> Mempool.prevout o m = Some p) as Hl.
  2: { apply Hl. intros o' p'. by rewrite lookup_empty. }
  induction l as [|i l IH]; intros out Hout; simpl; [apply Hout|]. apply IH.
  intros o' p'. unfold add_prevout. destruct (is_some _); [apply Hout|].
  destruct (Mempool.prevout (Transaction.prevout i) m) eqn:E; [|apply Hout].
  intros [[<- <-]|[_ Hl]]%lookup_insert_Some; [done|by apply Hout].
Qed.
Lemma pool_prevout_entry (o : OutPoint) p m : Mempool.prevout o m = Some p -> is_Some (mp_entries m !! hash o).
Proof. unfold Mempool.prevout. destruct (mp_entries m !! hash o); [eauto|done]. Qed.

(** ** Orphans taken and stored *)
(** The orphans of [m'] are orphans of [m], with the same bytes. *)
Definition known_orphans (m m' : gmap Hash256 OrphanTx) : Prop :=
  forall (t : Hash256) o, m' !! t = Some o -> exists o0, m !! t = Some o0 /\ or_raw o0 = or_raw o.
#[export] Instance known_orphans_preorder : PreOrder known_orphans.
Proof.
  split; [intros m t o; eauto|]. intros m1 m2 m3 H12 H23 t o Ho.
  apply H23 in Ho as (o2&Ho&<-). by apply H12.
Qed.
Lemma known_orphans_sub m m' : m' ⊆ m -> known_orphans m m'.
Proof. intros Hs t o Ho. exists o. split; [by eapply lookup_weaken|done]. Qed.
Lemma known_orphans_size m m' : known_orphans m m' -> (base.size m' <= base.size m)%nat.
Proof.
  intros Hk. rewrite <- !size_dom. apply subseteq_size. intros t Ht.
  apply elem_of_dom in Ht as [o Ho]. apply Hk in Ho as (o0&Ho&_). apply elem_of_dom. eauto.
Qed.

Lemma make_room_sub fuel o m : mp_orphans (make_room fuel o m) ⊆ mp_orphans m.
Proof.
  revert m. induction fuel as [|fuel IH]; intros m; cbn [make_room]; (destruct (orphans_full o m); [|done]); [done|].
  unfold evict_oldest_orphan. destruct (oldest _) as [o'|]; [|done]. etrans; [apply IH|].
  rewrite remove_orphan_orphans. apply delete_subseteq.
Qed.
Lemma store_orphan_known (now : Z) (t : Hash256) (raw : bytes) (missing : list OutPoint) (lf : bool) (m : Mempool)
    (orphans : gmap Hash256 OrphanTx) (o0 : OrphanTx) :
  known_orphans orphans (mp_orphans m) -> orphans !! t = Some o0 -> or_raw o0 = raw ->
  known_orphans orphans (mp_orphans (store_orphan now t raw missing lf m)).
Proof.
  intros Hk H0 Hraw. unfold store_orphan. destruct (orphan_parent_txids missing) as [|p ps]; [done|].
  unfold insert_orphan. cbv zeta. pose proof (fewer_prune None now m) as (_&Hp&_). set (m1 := prune_orphans now m) in *.
  assert (known_orphans orphans (mp_orphans m1)) as H1 by (etrans; [exact Hk|by apply known_orphans_sub]).
  destruct (_ <? _); [done|]. set (m2 := if is_some _ then _ else m1).
  assert (mp_orphans m2 ⊆ mp_orphans m1) as H2.
  { unfold m2. destruct (is_some _); [|done]. rewrite remove_orphan_orphans. apply delete_subseteq. }
  cbn [mp_orphans set_orphans or_txid]. intros t' o' [[<- <-]|[_ Hl]]%lookup_insert_Some; [by exists o0|].
  apply H1. eapply lookup_weaken; [exact Hl|]. etrans; [apply make_room_sub|done].
Qed.

Lemma taken_orphans X txids m :
  orphans_ok X m ->
  Forall (fun o => mp_orphans m !! or_txid o = Some o) (fst (take_orphans txids m))
  /\ (length (fst (take_orphans txids m)) <= base.size (mp_orphans m))%nat.
Proof.
  revert m. induction txids as [|t txids IH]; intros m Hm; cbn [take_orphans]; [split; [constructor|simpl; lia]|].
  pose proof (remove_orphan_result t m) as Hr. pose proof (remove_orphan_orphans t m) as Ho.
  pose proof (orphans_ok_remove X t m Hm) as Hm1. destruct (remove_orphan t m) as [o m1]. cbn [fst snd] in *. subst o.
  destruct (IH m1 Hm1) as [Hf Hlen]. destruct (take_orphans txids m1) as [taken m2]. cbn [fst] in *. rewrite Ho in Hf, Hlen.
  assert (Forall (fun o => mp_orphans m !! or_txid o = Some o) taken) as Hf'.
  { eapply Forall_impl; [exact Hf|]. intros o [_ Hl]%lookup_delete_Some. done. }
  destruct (mp_orphans m !! t) as [o|] eqn:E; [|split; [done|by rewrite delete_id in Hlen]].
  split; [constructor; [by rewrite (oo_keys X m Hm _ _ E)|done]|]. rewrite map_size_delete_Some in Hlen by eauto.
  assert (base.size (mp_orphans m) <> 0)%nat; [|simpl; lia]. intros Hz. apply map_size_empty_iff in Hz. rewrite Hz in E.
  by rewrite lookup_empty in E.
Qed.
Lemma taken_for_parent p m :
  orphans_ok None m ->
  Forall (fun o => mp_orphans m !! or_txid o = Some o) (fst (take_orphans_for_parent p m))
  /\ (length (fst (take_orphans_for_parent p m)) <= base.size (mp_orphans m))%nat
  /\ mp_orphans (snd (take_orphans_for_parent p m)) ⊆ mp_orphans m.
Proof.
  intros Hm. unfold take_orphans_for_parent. destruct (mp_orphans_by_parent m !! p) as [txids|]; [|by split_and!; [constructor|simpl; lia|]].
  set (m1 := set_orphans _ _ _ m).
  pose proof (orphans_ok_hole p m Hm) as Hm1. fold m1 in Hm1.
  destruct (taken_orphans (Some p) txids m1 Hm1) as [H1 H2]. split_and!; [done..|].
  destruct (take_orphans_spec (Some p) txids m1) as [(_&Hs&_) _]. done.
Qed.

(** ** Steps of the pool *)
Lemma pool_step_max m m' : pool_step m m' -> consistent m -> mp_max_bytes m' = mp_max_bytes m.
Proof.
  intros Hs [H1 H2 H3 H4 H5]. destruct Hs.
  - apply (same_orphans_insert e m).
  - done.
  - apply (same_orphans_remove txid m).
  - apply (same_orphans_remove_all _ m).
  - by destruct (store_orphan_ok now txid raw missing limit_free m H2 H3) as [(?&?&?&->) _].
  - by destruct (take_orphans_for_parent_ok parent m H2 H3) as [(?&?&?&->) _].
Qed.
Lemma same_orphans_known (orphans : gmap Hash256 OrphanTx) e m :
  known_orphans orphans (mp_orphans m) -> known_orphans orphans (mp_orphans (snd (Mempool.insert e m))).
Proof. destruct (same_orphans_insert e m) as (-> & _). done. Qed.

(** Room for an orphan beside a full pool. *)
Definition roomy (m : Mempool) : Prop := 0 < mp_max_bytes m <= usize_max - DEFAULT_MAX_ORPHAN_BYTES.
Lemma orphan_size_bound (t : Hash256) o m :
  orphans_ok None m -> orphans_fit m -> mp_orphans m !! t = Some o -> orphan_size o <= DEFAULT_MAX_ORPHAN_BYTES.
Proof.
  intros Hm [_ Hf] Ho. rewrite (oo_bytes None m Hm) in Hf. unfold orphans_bytes in Hf.
  rewrite (map_total_delete orphan_size _ _ _ Ho) in Hf.
  pose proof (map_total_nonneg orphan_size (delete t (mp_orphans m)) orphan_size_nonneg). lia.
Qed.

Section retry.
  Context {H : Hashes} {S256 : Secp} {R : Recovery} {SC : ShieldedCrypto}.
  Context {T : ShieldedTrees} {S : Type} {KV : KeyValueStore S} {F : Powf}.
  Context (store : S) (params : ChainParams) (flags : ValidationFlags) (policy : MempoolPolicy) (now : Z).

Lemma built_insertable tx raw lf limiter e limiter' m :
  build_mempool_entry store params flags policy (prevouts_for_tx tx m) now tx raw lf limiter = (Ok e, limiter') ->
  consistent m -> roomy m -> Z.of_nat (length raw) <= DEFAULT_MAX_ORPHAN_BYTES -> insertable m e.
Proof.
  intros Hb Hc Hr Hlen. apply build_mempool_entry_Ok in Hb as (_&_&Hraw&_&_&parents&infos&Hpar&Had). split.
  - intros p. rewrite Hpar, merge_sort_Permutation, elem_of_elements. rewrite (ad_parents _ _ _ _ _ _ _ _ _ _ Had).
    intros (o&info&_&(_&p'&Hp&_)&<-). apply prevouts_for_tx_lookup in Hp. by eapply pool_prevout_entry.
  - unfold entry_size. rewrite Hraw. destruct (cs_fits m Hc) as [Hf|Hf]; unfold roomy in Hr; lia.
Qed.

(** The transaction id an orphan may be accepted under. *)
Definition orphan_txid (raw : bytes) : option Hash256 :=
  match tx_consensus_decode raw with
  | Ok tx => match txid tx with Ok id => Some id | _ => None end
  | _ => None
  end.

(** From [st0], a run with orphans among [orphans] has reached [st], and put at most [n]
    parents in the queue. *)
Record run (orphans : gmap Hash256 OrphanTx) (n : nat) (st0 st : OrphanState) : Prop := {
  run_steps : rtc pool_step (os_pool st0) (os_pool st);
  run_orphans : known_orphans orphans (mp_orphans (os_pool st));
  run_queue : exists added, os_queue st = os_queue st0 ++ added /\ (length added <= n)%nat
    /\ forall p, p ∈ added -> exists (t : Hash256) o, orphans !! t = Some o /\ orphan_txid (or_raw o) = Some p }.
Lemma run_refl orphans st : known_orphans orphans (mp_orphans (os_pool st)) -> run orphans 0 st st.
Proof.
  intros Hk. split; [done|done|]. exists []. rewrite app_nil_r. split_and!; [done|done|].
  intros p Hp. by apply not_elem_of_nil in Hp.
Qed.
Lemma run_trans orphans n1 n2 st1 st2 st3 : run orphans n1 st1 st2 -> run orphans n2 st2 st3 -> run orphans (n1 + n2) st1 st3.
Proof.
  intros [A1 B1 (a1&Q1&L1&P1)] [A2 B2 (a2&Q2&L2&P2)]. split; [by etrans|done|].
  exists (a1 ++ a2). rewrite Q2, Q1, app_assoc, length_app. split_and!; [done|lia|].
  intros p [Hp|Hp]%elem_of_app; auto.
Qed.
(** The pool can still be relied on after a run. *)
Lemma steps_consistent m m' : rtc pool_step m m' -> consistent m -> roomy m -> consistent m' /\ roomy m'.
Proof.
  intros Hs. induction Hs as [|m1 m2 m3 Hs _ IH]; [done|]. intros Hc Hr. apply IH; [by eapply consistent_step|].
  unfold roomy in *. by rewrite (pool_step_max m1 m2).
Qed.

Lemma retry_orphan_run (orphans : gmap Hash256 OrphanTx) st o st' :
  consistent (os_pool st) -> roomy (os_pool st) -> known_orphans orphans (mp_orphans (os_pool st)) ->
  (exists o0, orphans !! or_txid o = Some o0 /\ or_raw o0 = or_raw o) -> orphan_size o <= DEFAULT_MAX_ORPHAN_BYTES ->
  retry_orphan store params flags policy now st o = Ok st' -> run orphans 1 st st'.
Proof.
  intros Hc Hr Hk (o0&Ho&Hraw) Hsize Hs. unfold retry_orphan in Hs. cbv zeta in Hs.
  assert (forall m l out, rtc pool_step (os_pool st) m -> known_orphans orphans (mp_orphans m) ->
    run orphans 1 st (mkOrphanState m l out (os_queue st))) as Hstay.
  { intros m l out H1 H2. split; [done|done|]. exists []. cbn. rewrite app_nil_r. split_and!; [done|lia|].
    intros p Hp. by apply not_elem_of_nil in Hp. }
  destruct (tx_consensus_decode (or_raw o)) as [tx| |] eqn:Ed; [|injection Hs as <-; destruct st; by apply Hstay|done].
  destruct (build_mempool_entry _ _ _ _ _ _ _ _ _ _) as [[e|err|] l] eqn:Eb; [| |done].
  - assert (run orphans 1 st (mkOrphanState (snd (Mempool.insert e (os_pool st))) l
      (os_outcome st) (os_queue st ++ [en_txid e]))) as [A B C].
    { split; cbn [os_pool os_queue].
      - apply rtc_once, step_insert. by eapply built_insertable.
      - by apply same_orphans_known.
      - exists [en_txid e]. split_and!; [done|simpl; lia|]. intros p ->%list_elem_of_singleton. exists (or_txid o), o0.
        split; [done|]. unfold orphan_txid. rewrite Hraw, Ed. apply build_mempool_entry_Ok in Eb as (->&_). done. }
    destruct (Mempool.insert e (os_pool st)) as [[i|err|] m]; [injection Hs as <-; by split| |done].
    injection Hs as <-. destruct (decide _); [by split|]. by apply Hstay.
  - injection Hs as <-. apply Hstay; destruct (decide _); try done.
    + apply rtc_once, step_store_orphan.
    + by eapply store_orphan_known.
Qed.
Lemma retry_all_run (orphans : gmap Hash256 OrphanTx) taken st st' :
  consistent (os_pool st) -> roomy (os_pool st) -> known_orphans orphans (mp_orphans (os_pool st)) ->
  Forall (fun o => (exists o0, orphans !! or_txid o = Some o0 /\ or_raw o0 = or_raw o) /\ orphan_size o <= DEFAULT_MAX_ORPHAN_BYTES) taken ->
  try_fold (retry_orphan store params flags policy now) st taken = Ok st' -> run orphans (length taken) st st'.
Proof.
  intros Hc Hr Hk Ht. revert st Hc Hr Hk. induction Ht as [|o taken [Ho Hsize] Ht IH]; intros st Hc Hr Hk; cbn [try_fold].
  { intros [= <-]. by apply run_refl. }
  destruct (retry_orphan _ _ _ _ _ st o) as [st1| |] eqn:E; [|done..].
  intros Hf. pose proof (retry_orphan_run orphans st o st1 Hc Hr Hk Ho Hsize E) as H1.
  destruct (steps_consistent _ _ (run_steps _ _ _ _ H1) Hc Hr) as [Hc1 Hr1].
  apply (run_trans orphans 1 (length taken) st st1); [done|]. apply IH; [done..|apply H1|done].
Qed.

(** ** The queue *)
Lemma retry_orphan_no_stop st o : retry_orphan store params flags policy now st o <> Err out_of_fuel.
Proof. unfold retry_orphan. cbv zeta. repeat case_match; discriminate. Qed.
Lemma retry_all_no_stop taken st : try_fold (retry_orphan store params flags policy now) st taken <> Err out_of_fuel.
Proof.
  revert st. induction taken as [|o taken IH]; intros st; cbn [try_fold]; [done|].
  pose proof (retry_orphan_no_stop st o). destruct (retry_orphan _ _ _ _ _ st o) as [st1|[]|]; [apply IH|done|done].
Qed.

(** Every parent that can come up. *)
Definition candidates (parent : Hash256) (orphans : gmap Hash256 OrphanTx) : gset Hash256 :=
  {[parent]} ∪ list_to_set (omap (fun kv => orphan_txid (or_raw (snd kv))) (map_to_list orphans)).
Lemma elem_of_waiting_candidates (parent : Hash256) (orphans : gmap Hash256 OrphanTx) (t : Hash256) o p :
  orphans !! t = Some o -> orphan_txid (or_raw o) = Some p -> p ∈ candidates parent orphans.
Proof.
  intros Ho Hp. unfold candidates. apply elem_of_union_r, elem_of_list_to_set, list_elem_of_omap.
  exists (t, o). split; [by apply elem_of_map_to_list|done].
Qed.
Lemma size_list_to_set_le (l : list Hash256) : (base.size (list_to_set l : gset Hash256) <= length l)%nat.
Proof.
  induction l as [|x l IH]; [rewrite list_to_set_nil, size_empty; simpl; lia|]. rewrite list_to_set_cons. simpl length.
  pose proof (size_union_alt {[x]} (list_to_set l : gset Hash256)) as Hu.
  pose proof (subseteq_size (list_to_set l ∖ {[x]} : gset Hash256) (list_to_set l)) as Hs.
  rewrite size_singleton in Hu. assert (list_to_set l ∖ {[x]} ⊆ (list_to_set l : gset Hash256)) by set_solver.
  specialize (Hs ltac:(done)). lia.
Qed.
Lemma size_candidates (parent : Hash256) (orphans : gmap Hash256 OrphanTx) :
  (base.size (candidates parent orphans) <= Datatypes.S (base.size orphans))%nat.
Proof.
  unfold candidates. pose proof (size_list_to_set_le (parent :: omap (fun kv => orphan_txid (or_raw (snd kv))) (map_to_list orphans))) as Hl.
  simpl in Hl. etrans; [exact Hl|]. apply le_n_S. rewrite <- length_map_to_list. 
  generalize (map_to_list orphans). intros l. induction l as [|kv l IH]; simpl; [done|].
  destruct (orphan_txid (or_raw kv.2)); simpl; unfold omap in IH; lia.
Qed.

(** [fuel] covers the queue and what the parents not looked at yet can add. *)
Lemma process_loop_runs (orphans : gmap Hash256 OrphanTx) (universe : gset Hash256) fuel visited st :
  (forall (t : Hash256) o p, orphans !! t = Some o -> orphan_txid (or_raw o) = Some p -> p ∈ universe) ->
  consistent (os_pool st) -> roomy (os_pool st) -> known_orphans orphans (mp_orphans (os_pool st)) ->
  (forall p, p ∈ os_queue st -> p ∈ universe) -> visited ⊆ universe ->
  (length (os_queue st) + (base.size universe - base.size visited) * base.size orphans <= fuel)%nat ->
  process_orphans_loop store params flags policy fuel now visited st <> Err out_of_fuel
  /\ forall st', process_orphans_loop store params flags policy fuel now visited st = Ok st' ->
       os_queue st' = [] /\ rtc pool_step (os_pool st) (os_pool st') /\ known_orphans orphans (mp_orphans (os_pool st')).
Proof.
  intros Hu. revert visited st. induction fuel as [|fuel IH]; intros visited st Hc Hr Hk Hq Hv Hfuel;
    cbn [process_orphans_loop]; destruct (os_queue st) as [|parent queue] eqn:Eq;
    try (split; [done|]; by intros st' [= <-]).
  { by apply Nat.nle_succ_0 in Hfuel. }
  cbn [length] in Hfuel. destruct (decide (parent ∈ visited)) as [Hin|Hnin].
  - rewrite bool_decide_true by done. apply (IH visited (mkOrphanState (os_pool st) _ _ queue)); cbn; try done; [|lia].
    intros p Hp. apply Hq. by apply list_elem_of_further.
  - rewrite bool_decide_false by done. cbn [os_pool os_limiter os_outcome].
    pose proof (taken_for_parent parent (os_pool st) (cs_orphans _ Hc)) as (Ht&Hlen&Hsub).
    pose proof (step_take_orphans parent (os_pool st)) as Hstep.
    destruct (take_orphans_for_parent parent (os_pool st)) as [taken m1]. cbn [fst snd] in *.
    set (st1 := mkOrphanState m1 (os_limiter st) (os_outcome st) queue).
    assert (consistent m1 /\ roomy m1) as [Hc1 Hr1] by (eapply steps_consistent; [by apply rtc_once|done..]).
    assert (known_orphans orphans (mp_orphans m1)) as Hk1 by (etrans; [exact Hk|by apply known_orphans_sub]).
    assert (Forall (fun o => (exists o0, orphans !! or_txid o = Some o0 /\ or_raw o0 = or_raw o)
      /\ orphan_size o <= DEFAULT_MAX_ORPHAN_BYTES) taken) as Ht'.
    { eapply Forall_impl; [exact Ht|]. intros o Ho. split; [by apply Hk|].
      eapply orphan_size_bound; [apply Hc|apply Hc|exact Ho]. }
    pose proof (retry_all_no_stop taken st1) as Hns. pose proof (known_orphans_size _ _ Hk) as Hsz.
    destruct (try_fold _ st1 taken) as [st2|[]|] eqn:Ef; cbn [mbind result_bind]; [|done|by split].
    destruct (retry_all_run orphans taken st1 st2 Hc1 Hr1 Hk1 Ht' Ef) as [Hsteps Hk2 (added&Hqueue&Hadded&Hp)].
    assert (consistent (os_pool st2) /\ roomy (os_pool st2)) as [Hc2 Hr2] by (by eapply steps_consistent).
    cbn [os_queue st1] in Hqueue. cbn [os_pool st1] in Hsteps.
    assert (parent ∈ universe) as Hpu by (apply Hq, list_elem_of_here).
    destruct (IH ({[parent]} ∪ visited) st2) as [H1 H2]; try done.
    + rewrite Hqueue. intros p [Hin|Hin]%elem_of_app; [apply Hq; by apply list_elem_of_further|].
      destruct (Hp p Hin) as (t&o&Ho&Htx). by eapply Hu.
    + set_solver.
    + rewrite Hqueue, length_app, size_union, size_singleton by set_solver.
      assert (base.size visited < base.size universe)%nat.
      { apply subset_size. set_solver. }
      assert ((base.size universe - base.size visited) * base.size orphans
        = (base.size universe - Datatypes.S (base.size visited)) * base.size orphans + base.size orphans)%nat by nia.
      simpl. lia.
    + split; [done|]. intros st' Hst'. destruct (H2 st' Hst') as (HA&HB&HC). split_and!; [done| |done].
      etrans; [by apply rtc_once|]. by etrans.
Qed.

Lemma process_orphans_ends (parent : Hash256) (m : Mempool) (limiter : FreeRelayLimiter) :
  consistent m -> roomy m ->
  process_orphans_after_accept store params flags policy now parent m limiter <> Err out_of_fuel
  /\ forall st, process_orphans_after_accept store params flags policy now parent m limiter = Ok st ->
       os_queue st = [] /\ rtc pool_step m (os_pool st) /\ known_orphans (mp_orphans m) (mp_orphans (os_pool st)).
Proof.
  intros Hc Hr. unfold process_orphans_after_accept.
  set (st0 := mkOrphanState m limiter OrphanProcessOutcome_default [parent]).
  apply (process_loop_runs (mp_orphans m) (candidates parent (mp_orphans m)) (orphan_fuel m) ∅ st0); try done.
  - intros t o p. apply elem_of_waiting_candidates.
  - intros p ->%list_elem_of_singleton. unfold candidates. set_solver.
  - unfold orphan_fuel. cbn [st0 os_queue length]. rewrite size_empty. pose proof (size_candidates parent (mp_orphans m)). nia.
Qed.

(** C18: after a transaction is accepted, trying the orphans again comes to
    an end, and leaves the pool in order.  From any consistent pool with room
    for an orphan in its counter, [process_orphans_after_accept] empties its
    queue within [(n + 1)^2] parents for [n] orphans; every change it makes is
    a step of the pool's history, so that the pool stays consistent; and the
    orphans that wait afterwards, under any parent, are among those that
    waited before. *)
Theorem orphans_retried (parent : Hash256) (m : Mempool) (limiter : FreeRelayLimiter) :
  consistent m -> 0 < mp_max_bytes m <= usize_max - DEFAULT_MAX_ORPHAN_BYTES ->
  let r := process_orphans_after_accept store params flags policy now parent m limiter in
  r <> Err out_of_fuel
  /\ forall st, r = Ok st ->
       os_queue st = [] /\ rtc pool_step m (os_pool st) /\ consistent (os_pool st)
       /\ known_orphans (mp_orphans m) (mp_orphans (os_pool st)).
Proof.
  intros Hc Hr. cbv zeta. destruct (process_orphans_ends parent m limiter Hc Hr) as [H1 H2]. split; [done|].
  intros st Hst. destruct (H2 st Hst) as (HA&HB&HC). split_and!; [done|done| |done]. by apply (steps_consistent m).
Qed.
End retry.
