(* ===== verification/SampleAdmission.v ===== *)
(** * A transaction admitted, and its orphan

    The pool of a node at the chain of [SampleBlock]: one transaction spends a
    stored output; another spends an output of the first, comes before it and
    waits for it. *)

From S2P Require Import Prelude Consensus Rewards Float64 Encoding Hashing Address Transaction Block Difficulty Sighash.
From S2P Require Import Script Equihash Pow Pon Storage Fluxnode Utxo FlatFiles Indexes ChainIndex Shielded.
From S2P Require Import Validation HeaderChain Caches Payees FluxnodeChecks Ledger BlockConnect SampleBlock.
From S2P Require Import Mempool PoolInvariant PoolEviction Orphans MempoolPolicy Admission OrphanRetry.
From Stdlib Require Import ZArith Lia Floats.SpecFloat.
From stdpp Require Import base list option numbers strings gmap relations sorting.
#[local] Open Scope Z_scope.

(** A power function that is enough for a first transaction. *)
#[global] Instance toy_powf : Powf := {| powf a b := a |}.
Definition relay_flags : ValidationFlags := mkFlags false false true true None.
Definition relay_policy : MempoolPolicy := MempoolPolicy_standard 100 false.
Definition encoded (tx : Transaction) : bytes := match tx_consensus_encode tx with Ok bs => bs | _ => [] end.
Definition build (m : Mempool) (tx : Transaction) : result MempoolError MempoolEntry * FreeRelayLimiter :=
  build_mempool_entry (cs_store start_state) mainnet_chain_params relay_flags relay_policy (prevouts_for_tx tx m) 1600000000
    tx (encoded tx) true FreeRelayLimiter_default.
(** The second waits; the first comes. *)
Definition waits (tx : Transaction) (m : Mempool) (r : result MempoolError MempoolEntry) : Mempool :=
  match r with
  | Err e => store_orphan 1600000000 (id_of tx) (encoded tx) (err_missing_inputs e) true m
  | _ => m
  end.
Definition enters (m : Mempool) (r : result MempoolError MempoolEntry) : Mempool :=
  match r with Ok e => snd (Mempool.insert e m) | _ => m end.
Definition waiting : Mempool := waits spend_2 (Mempool_new 1000) (fst (build (Mempool_new 1000) spend_2)).
Definition built_1 : result MempoolError MempoolEntry * FreeRelayLimiter := build waiting spend_1.
Definition parent_in : Mempool := enters waiting (fst built_1).
Definition retried : result OrphanStop OrphanState :=
  process_orphans_after_accept (cs_store start_state) mainnet_chain_params relay_flags relay_policy 1600000001
    (id_of spend_1) parent_in FreeRelayLimiter_default.
Definition has_accepted (ids : list Hash256) (r : result OrphanStop OrphanState) : Prop :=
  match r with
  | Ok st => map oa_txid (op_accepted (os_outcome st)) = ids /\ forallb (fun id => contains id (os_pool st)) ids = true
  | _ => False
  end.
Example orphan_accepted : has_accepted [id_of spend_2] retried /\ base.size (mp_orphans parent_in) = 1%nat.
Proof. vm_compute. done. Qed.

Lemma built_pair (r : result MempoolError MempoolEntry * FreeRelayLimiter) e : fst r = Ok e -> r = (Ok e, snd r).
Proof. destruct r. by intros [= ->]. Qed.
Lemma built_1_Ok : exists e, fst built_1 = Ok e.
Proof. vm_compute. eauto. Qed.

Lemma consistent_waiting : consistent waiting.
Proof.
  assert (consistent (Mempool_new 1000)) as Hn by (by apply consistent_new). unfold waiting, waits.
  destruct (fst _) as [e|e|]; [done| |done]. eapply consistent_step; [apply step_store_orphan|done].
Qed.
Lemma waiting_max : mp_max_bytes waiting = 1000.
Proof. vm_compute. done. Qed.
Lemma consistent_parent_in : consistent parent_in.
Proof.
  unfold parent_in, enters. destruct (fst built_1) as [e|e|] eqn:E; [|apply consistent_waiting..].
  eapply consistent_step; [apply step_insert|apply consistent_waiting].
  pose proof (built_pair _ _ E) as Hb. unfold built_1 in Hb at 1. unfold build in Hb at 1.
  eapply built_insertable; [exact Hb|apply consistent_waiting| |vm_compute; discriminate].
  unfold roomy, usize_max, DEFAULT_MAX_ORPHAN_BYTES. rewrite waiting_max. lia.
Qed.
Lemma parent_in_max : mp_max_bytes parent_in = 1000.
Proof. vm_compute. done. Qed.

(** ** Witnesses *)
Lemma admitted_entry_sound_witness : exists e, fst built_1 = Ok e /\ en_spent_outpoints e = [coin] /\ 0 <= en_fee e.
Proof.
  destruct built_1_Ok as [e He]. exists e. split; [exact He|].
  pose proof (built_pair _ _ He) as Hb. unfold built_1 in Hb at 1. unfold build in Hb at 1.
  assert (is_i64 (value_balance spend_1)) as Hi by (unfold is_i64; change (value_balance spend_1) with 0; lia).
  pose proof (admitted_entry_sound _ _ _ _ _ _ _ _ _ _ _ _ Hi Hb) as Hw.
  destruct Hw as (_&_&Hs&_&_&infos&_&_&Hf&_). split; [exact Hs|exact Hf].
Defined.
Lemma orphans_retried_witness :
  0 < mp_max_bytes parent_in <= usize_max - DEFAULT_MAX_ORPHAN_BYTES /\
  retried <> Err out_of_fuel
  /\ forall st, retried = Ok st ->
       os_queue st = [] /\ rtc pool_step parent_in (os_pool st) /\ consistent (os_pool st)
       /\ forall (t : Hash256) o, mp_orphans (os_pool st) !! t = Some o ->
            exists o0, mp_orphans parent_in !! t = Some o0 /\ or_raw o0 = or_raw o.
Proof.
  assert (0 < mp_max_bytes parent_in <= usize_max - DEFAULT_MAX_ORPHAN_BYTES) as Hr
    by (unfold usize_max, DEFAULT_MAX_ORPHAN_BYTES; rewrite parent_in_max; lia).
  split; [exact Hr|]. unfold retried.
  exact (orphans_retried (cs_store start_state) mainnet_chain_params relay_flags relay_policy 1600000001
    (id_of spend_1) parent_in FreeRelayLimiter_default consistent_parent_in Hr).
Defined.

Definition built_2 : result MempoolError MempoolEntry * FreeRelayLimiter := build (Mempool_new 1000) spend_2.
Lemma built_2_Err : exists e, fst built_2 = Err e /\ err_kind e = MempoolErrorKind.MissingInput.
Proof. vm_compute. eauto. Qed.
Lemma missing_inputs_named_witness : exists e, fst built_2 = Err e /\ err_missing_inputs e <> [].
Proof.
  destruct built_2_Err as (e&He&Hk). exists e. split; [exact He|]. unfold built_2, build in He.
  pose proof (missing_inputs_named (cs_store start_state) mainnet_chain_params relay_flags relay_policy
    (prevouts_for_tx spend_2 (Mempool_new 1000)) 1600000000 spend_2 (encoded spend_2) true FreeRelayLimiter_default) as Hw.
  cbv zeta in Hw. destruct Hw as [Hw _]. destruct (Hw e He Hk) as [Hn _]. exact Hn.
Defined.
