(* ===== verification/Wire.v ===== *)
(** * Messages between peers ([node/src/p2p.rs], the payloads and frames)

    What each message carries, how it is built and parsed, and how messages
    follow each other on the stream of a connection.  The clock, the random
    nonce and the bytes of the stream are arguments; a read that finds the
    stream at its end fails, and a time-out is not told apart from that. *)

From S2P Require Import Prelude Encoding Hashing Transaction Block.
From Stdlib Require Import ZArith Lia.
From stdpp Require Import base list option numbers strings.
#[local] Open Scope Z_scope.

Definition MAX_PAYLOAD_SIZE : Z := 4 * 1024 * 1024.
Definition MAX_HEADERS_RESULTS : nat := 160.
Definition MAX_LOCATOR : nat := 128.
Definition MAX_ADDR_RESULTS : nat := 1000.
Definition MAX_INV_RESULTS : Z := 50000.
Definition NODE_NETWORK : Z := 1.
Definition PROTOCOL_VERSION : Z := 170020.
Definition MSG_TX : Z := 1.
Definition MSG_BLOCK : Z := 2.
Definition USER_AGENT : bytes := ascii_bytes "/fluxd-rust:0.1.0/".

Inductive WireError := OfDecode (error : DecodeError) | WireText (message : string).
#[global] Instance WireError_eq_dec : EqDecision WireError.
Proof. solve_decision. Defined.

(** ** Parts of payloads *)
Definition run_parser {A} (m : parser WireError A) (payload : bytes) : result WireError A :=
  match m (new_decoder payload) with Ok (a, _) => Ok a | Err e => Err e | Panic => Panic end.
Definition at_end (message : string) : parser WireError unit := fun d =>
  if is_empty d then Ok (tt, d) else Err (WireText message).
Definition read_limited (limit : Z) (message : string) : parser WireError nat :=
  count ← lift OfDecode read_count;
  if Z.of_nat count >? limit then fail (WireText message) else mret count.

(** ** Headers *)
Definition read_header : parser WireError BlockHeader :=
  header ← lift OfDecode (header_decode_from true);
  tx_count ← lift OfDecode read_varint;
  mret header.
Definition parse_headers (payload : bytes) : result WireError (list BlockHeader) :=
  run_parser (count ← read_limited 160 "header count too large"; read_n count read_header) payload.
Definition build_headers_payload (headers : list bytes) : bytes :=
  write_varint (Z.of_nat (length headers)) ++ write_list (fun h => write_bytes h ++ write_varint 0) headers.

Record GetHeadersRequest := mkGetHeaders { gh_locator : list Hash256; gh_stop : Hash256 }.
Definition parse_getheaders (payload : bytes) : result WireError GetHeadersRequest :=
  run_parser (
    version ← lift OfDecode read_i32_le;
    count ← read_limited 128 "locator count too large";
    locator ← read_n count (lift OfDecode read_hash_le);
    stop ← lift OfDecode read_hash_le;
    _ ← at_end "trailing bytes in getheaders payload";
    mret (mkGetHeaders locator stop)) payload.
Definition build_getheaders_payload (locator : list Hash256) : bytes :=
  write_i32_le PROTOCOL_VERSION ++ write_varint (Z.of_nat (length locator)) ++ write_list write_hash_le locator
  ++ write_hash_le (zeros 32).

(** ** Inventories *)
Record InventoryVector := mkInv { inv_type : Z; inv_hash : Hash256 }.
Definition read_inv : parser WireError InventoryVector :=
  inv_type ← lift OfDecode read_u32_le;
  hash ← lift OfDecode read_hash_le;
  mret (mkInv inv_type hash).
Definition write_inv (v : InventoryVector) : bytes := write_u32_le (inv_type v) ++ write_hash_le (inv_hash v).
Definition parse_inv (payload : bytes) : result WireError (list InventoryVector) :=
  run_parser (
    count ← read_limited MAX_INV_RESULTS "inv count too large";
    out ← read_n count read_inv;
    _ ← at_end "trailing bytes in inv payload";
    mret out) payload.
Definition build_inv_payload (hashes : list Hash256) (inv_type : Z) : bytes :=
  write_varint (Z.of_nat (length hashes)) ++ write_list (fun h => write_inv (mkInv inv_type h)) hashes.
Definition build_getdata_payload (hashes : list Hash256) (inv_type : Z) : bytes := build_inv_payload hashes inv_type.

(** ** Addresses *)
Inductive IpAddr := V4 (octets : bytes) | V6 (octets : bytes).
#[global] Instance IpAddr_eq_dec : EqDecision IpAddr.
Proof. solve_decision. Defined.
Record SocketAddr := mkSocketAddr { sa_ip : IpAddr; sa_port : Z }.
#[global] Instance SocketAddr_eq_dec : EqDecision SocketAddr.
Proof. solve_decision. Defined.

Definition ipv4_mapped_prefix : bytes := zeros 10 ++ [255; 255].
Definition to_ipv4_mapped (octets : bytes) : option bytes :=
  if bool_decide (take 12 octets = ipv4_mapped_prefix) then Some (drop 12 octets) else None.
Definition ip_of (octets : bytes) : IpAddr :=
  match to_ipv4_mapped octets with Some ip4 => V4 ip4 | None => V6 octets end.
Definition is_unspecified (ip : IpAddr) : bool :=
  match ip with V4 o => bool_decide (o = zeros 4) | V6 o => bool_decide (o = zeros 16) end.
Definition is_loopback (ip : IpAddr) : bool :=
  match ip with V4 o => bool_decide (head o = Some 127) | V6 o => bool_decide (o = zeros 15 ++ [1]) end.
(** An address worth keeping, or nothing. *)
Definition read_addr : parser WireError (option SocketAddr) :=
  time ← lift OfDecode read_u32_le;
  services ← lift OfDecode read_u64_le;
  ip_bytes ← lift OfDecode (read_fixed 16);
  port_bytes ← lift OfDecode (read_bytes 2);
  mret (let port := from_be port_bytes in
        if port =? 0 then None
        else
          let ip := ip_of ip_bytes in
          if is_unspecified ip || is_loopback ip then None else Some (mkSocketAddr ip port)).
Definition parse_addr (payload : bytes) : result WireError (list SocketAddr) :=
  run_parser (
    count ← read_limited 1000 "addr count too large";
    addrs ← read_n count read_addr;
    mret (omap id addrs)) payload.
Definition ip_octets (ip : IpAddr) : bytes := match ip with V4 o => ipv4_mapped_prefix ++ o | V6 o => o end.
Definition write_addr (now : Z) (a : SocketAddr) : bytes :=
  write_u32_le now ++ write_u64_le NODE_NETWORK ++ write_bytes (ip_octets (sa_ip a)) ++ write_bytes (be_bytes 2 (sa_port a)).
Definition build_addr_payload (addrs : list SocketAddr) (now : Z) : bytes :=
  write_varint (Z.of_nat (length addrs)) ++ write_list (write_addr now) addrs.

(** ** Rejections and fees *)
Record RejectMessage := mkReject { rj_message : bytes; rj_code : Z; rj_reason : bytes; rj_data : option Hash256 }.
Definition read_reject_data : parser WireError (option Hash256) := fun d =>
  if (remaining d =? 32)%nat then (h ← lift OfDecode read_hash_le; mret (Some h)) d else Ok (None, d).
Definition parse_reject (payload : bytes) : result WireError RejectMessage :=
  run_parser (
    message ← lift OfDecode read_var_str;
    code ← lift OfDecode read_u8;
    reason ← lift OfDecode read_var_str;
    data ← read_reject_data;
    mret (mkReject message code reason data)) payload.
Definition parse_feefilter (payload : bytes) : result WireError Z :=
  run_parser (
    raw ← lift OfDecode read_u64_le;
    _ ← at_end "trailing bytes in feefilter payload";
    mret (Z.max (if raw <=? i64_max then raw else i64_max) 0)) payload.
Definition build_feefilter_payload (fee_rate_per_kb : Z) : bytes := write_i64_le (Z.max fee_rate_per_kb 0).

(** ** Versions *)
Record VersionInfo := mkVersionInfo { vi_version : Z; vi_services : Z; vi_user_agent : bytes; vi_start_height : Z }.
Definition write_net_addr (services : Z) (ip : bytes) (port : Z) : bytes :=
  write_u64_le services ++ write_bytes ip ++ write_bytes (be_bytes 2 port).
Definition read_net_addr : parser WireError unit :=
  services ← lift OfDecode read_u64_le;
  ip ← lift OfDecode (read_fixed 16);
  port ← lift OfDecode (read_bytes 2);
  mret tt.
Definition build_version_payload (timestamp nonce start_height : Z) (relay : bool) : bytes :=
  write_i32_le PROTOCOL_VERSION ++ write_u64_le NODE_NETWORK ++ write_i64_le timestamp
  ++ write_net_addr NODE_NETWORK (zeros 16) 0 ++ write_net_addr NODE_NETWORK (zeros 16) 0
  ++ write_u64_le nonce ++ write_var_str USER_AGENT ++ write_i32_le start_height ++ write_u8 (if relay then 1 else 0).
Definition parse_version (payload : bytes) : result WireError VersionInfo :=
  run_parser (
    version ← lift OfDecode read_i32_le;
    services ← lift OfDecode read_u64_le;
    timestamp ← lift OfDecode read_i64_le;
    _ ← read_net_addr;
    _ ← read_net_addr;
    nonce ← lift OfDecode read_u64_le;
    user_agent ← lift OfDecode read_var_str;
    start_height ← lift OfDecode read_i32_le;
    mret (mkVersionInfo version services user_agent start_height)) payload.

(** ** Frames *)
Section frames.
  Context `{H : Hashes}.

(** The bytes that [send_message] writes. *)
Definition frame (magic command payload : bytes) : result WireError bytes :=
  if (12 <? length command)%nat then Err (WireText "command too long")
  else
    Ok (magic ++ (command ++ zeros (12 - length command)) ++ le_bytes 4 (wrap_u32 (Z.of_nat (length payload)))
        ++ take 4 (sha256d payload) ++ payload).

(** [AsyncReadExt::read_exact] on what is left of the stream. *)
Definition read_exact (n : nat) (stream : bytes) : result WireError (bytes * bytes) :=
  if (length stream <? n)%nat then Err (WireText "early eof") else Ok (take n stream, drop n stream).
(** The bytes before the first zero. *)
Fixpoint until_zero (bs : bytes) : bytes :=
  match bs with
  | b :: bs => if b =? 0 then [] else b :: until_zero bs
  | [] => []
  end.
(** [read_message]: the command, the payload, and what follows. *)
Definition read_message (magic stream : bytes) : result WireError (bytes * bytes * bytes) :=
  r ← read_exact 24 stream;
  let '(header, stream) := r in
  if negb (bool_decide (slice header 0 4 = magic)) then Err (WireText "invalid magic")
  else
    let command := until_zero (slice header 4 16) in
    let length := from_le (slice header 16 20) in
    if length >? MAX_PAYLOAD_SIZE then Err (WireText "payload too large")
    else
      let checksum := slice header 20 24 in
      r ← read_exact (Z.to_nat length) stream;
      let '(payload, stream) := r in
      if negb (bool_decide (checksum = take 4 (sha256d payload))) then Err (WireText "invalid payload checksum")
      else Ok (command, payload, stream).
Fixpoint read_messages (n : nat) (magic stream : bytes) : result WireError (list (bytes * bytes) * bytes) :=
  match n with
  | O => Ok ([], stream)
  | Datatypes.S n =>
      r ← read_message magic stream;
      let '(command, payload, stream) := r in
      r ← read_messages n magic stream;
      let '(messages, stream) := r in
      Ok ((command, payload) :: messages, stream)
  end.
End frames.

(** ** Laws of the parts *)
Lemma run_parser_reads {A} (m : parser WireError A) bs rest a : reads m bs a -> run_parser m (bs ++ rest) = Ok a.
Proof.
  intros Hm. unfold run_parser. by rewrite (Hm (new_decoder (bs ++ rest)) rest) by apply rem_new.
Qed.
Lemma run_parser_reads_all {A} (m : parser WireError A) bs a : reads m bs a -> run_parser m bs = Ok a.
Proof. intros Hm. rewrite <- (app_nil_r bs). by apply run_parser_reads. Qed.
Lemma run_parser_parses {A} (m : parser WireError A) P payload a :
  parses m P -> bytes_ok payload -> run_parser m payload = Ok a -> exists bs rest, payload = bs ++ rest /\ P a bs.
Proof.
  intros Hm Hb. unfold run_parser. destruct (m (new_decoder payload)) as [[a' d']| |] eqn:E; [|done|done]. intros [= ->].
  apply Hm in E as (bs&Hr&_&_&HP); [|by rewrite rem_new]. rewrite rem_new in Hr. eauto.
Qed.
(** Parsers that leave nothing. *)
Definition exhausts {A} (m : parser WireError A) : Prop := forall d a d', m d = Ok (a, d') -> rem d' = [].
Lemma exhausts_bind {A B} (m : parser WireError A) (f : A -> parser WireError B) :
  (forall a, exhausts (f a)) -> exhausts (m ≫= f).
Proof.
  intros Hf d b d'. unfold mbind, parser_bind. destruct (m d) as [[a d1]| |]; [|done|done]. apply Hf.
Qed.
Lemma exhausts_at_end {A} message (a : A) : exhausts (_ ← at_end message; mret a).
Proof.
  intros d b d'. unfold mbind, parser_bind, at_end. destruct (is_empty d) eqn:E; [|done]. intros [= _ <-].
  by apply is_empty_rem.
Qed.
Lemma run_parser_exact {A} (m : parser WireError A) P payload a :
  parses m P -> exhausts m -> bytes_ok payload -> run_parser m payload = Ok a -> P a payload.
Proof.
  intros Hm He Hb. unfold run_parser. destruct (m (new_decoder payload)) as [[a' d']| |] eqn:E; [|done|done]. intros [= ->].
  pose proof (He _ _ _ E) as Hr. apply Hm in E as (bs&Hr'&_&_&HP); [|by rewrite rem_new].
  rewrite rem_new, Hr, app_nil_r in Hr'. by subst.
Qed.

Lemma read_limited_reads {A} limit message (l : list A) :
  fits_compact l -> Z.of_nat (length l) <= limit -> reads (read_limited limit message) (write_varint (Z.of_nat (length l))) (length l).
Proof.
  intros Hf Hl. unfold read_limited. eapply reads_bind_nil; [apply reads_lift; by apply read_count_reads|]. cbv beta.
  destruct (Z.of_nat (length l) >? limit) eqn:E; [lia|apply reads_ret].
Qed.
Lemma read_limited_parses limit message :
  parses (read_limited limit message) (fun n bs => Z.of_nat n <= limit /\ bs = write_varint (Z.of_nat n)).
Proof.
  unfold read_limited. eapply parses_conseq.
  { apply parses_bind; [apply parses_lift, read_count_parses|]. intros n.
    apply (parses_if _ _ _ (fun n' bs => Z.of_nat n <= limit /\ n' = n /\ bs = [])); [intros _; apply parses_fail|].
    intros Hn. eapply parses_conseq; [apply parses_ret|]. intros n' bs _ [-> ->]. split_and!; [lia|done..]. }
  intros n bs _ ?. inv_parses. split_and!; auto.
Qed.
Lemma at_end_parses message : parses (at_end message) (fun _ bs => bs = []).
Proof.
  intros d u d' Hb. unfold at_end. destruct (is_empty d); [|done]. intros [= <- <-]. exists []. rewrite advance_0. by split_and!; [| |constructor|].
Qed.
Lemma reads_whole_end {A} message (a : A) : reads_whole (_ ← at_end message; mret a) [] a.
Proof.
  intros d Hd. unfold mbind, parser_bind, at_end. rewrite (proj2 (is_empty_rem _) Hd). unfold mret, parser_ret. eauto.
Qed.
Lemma run_parser_whole {A} (m : parser WireError A) bs a : reads_whole m bs a -> run_parser m bs = Ok a.
Proof. intros Hm. unfold run_parser. destruct (Hm (new_decoder bs)) as [d' ->]; [apply rem_new|done]. Qed.
#[export] Hint Resolve read_limited_parses at_end_parses : codec.

(** ** What can be sent *)
Definition inv_ok (v : InventoryVector) : Prop := is_u32 (inv_type v) /\ array 32 (inv_hash v).
Definition ip_ok (ip : IpAddr) : Prop :=
  match ip with V4 o => array 4 o | V6 o => array 16 o /\ to_ipv4_mapped o = None end.
(** An address another peer can connect to. *)
Definition routable (a : SocketAddr) : Prop :=
  ip_ok (sa_ip a) /\ is_unspecified (sa_ip a) = false /\ is_loopback (sa_ip a) = false /\ 0 < sa_port a < 65536.

Lemma read_inv_reads v : inv_ok v -> reads read_inv (write_inv v) v.
Proof. intros [? ?]. destruct v. unfold read_inv, write_inv. cbn in *. solve_reads. Qed.
Lemma read_inv_parses : parses read_inv (fun v bs => inv_ok v /\ bs = write_inv v).
Proof. unfold read_inv. solve_parses. split_and!; done. Qed.
Lemma read_header_reads h : header_wf true h -> reads read_header (header_consensus_encode h ++ write_varint 0) h.
Proof.
  intros Hh. unfold read_header. eapply reads_bind; [apply reads_lift; by apply header_reads|]. cbv beta.
  eapply reads_bind_nil; [apply reads_lift, read_varint_reads; unfold MAX_COMPACT_SIZE; lia|]. apply reads_ret.
Qed.
Lemma read_header_parses : parses read_header (fun h bs => header_wf true h).
Proof.
  unfold read_header. eapply parses_conseq.
  { eapply parses_bind; [apply parses_lift, header_parses|intros h].
    eapply parses_bind; [apply parses_lift, read_varint_parses|intros n; apply parses_ret]. }
  intros ? ? _ ?. inv_parses. done.
Qed.

Lemma length_prefix : length ipv4_mapped_prefix = 12%nat.
Proof. done. Qed.
Lemma ip_octets_array ip : ip_ok ip -> array 16 (ip_octets ip).
Proof.
  destruct ip as [o|o]; [|by intros [? _]]. intros [Hl Hb]. split; [simpl; lia|].
  apply bytes_ok_app. split; [|done]. by_decide.
Qed.
Lemma ip_of_octets ip : ip_ok ip -> ip_of (ip_octets ip) = ip.
Proof.
  destruct ip as [o|o]; cbn [ip_ok ip_octets]; unfold ip_of; [|by intros [_ ->]]. intros _. unfold to_ipv4_mapped.
  rewrite take_app_length' by done. rewrite bool_decide_true by done. by rewrite drop_app_length'.
Qed.
Lemma ip_of_ok o : array 16 o -> ip_ok (ip_of o).
Proof.
  intros [Hl Hb]. unfold ip_of. destruct (to_ipv4_mapped o) as [o4|] eqn:E; [|by split; [split|]].
  unfold to_ipv4_mapped in E. case_bool_decide; [|done]. injection E as <-. split; [rewrite length_drop; lia|by apply bytes_ok_drop].
Qed.
Lemma read_addr_reads now a : is_u32 now -> routable a -> reads read_addr (write_addr now a) (Some a).
Proof.
  intros Hnow (Hip&Hu&Hl&Hp). unfold read_addr, write_addr, write_bytes. destruct a as [ip port]. cbn [sa_ip sa_port] in *.
  eapply reads_bind; [by auto with codec|]. cbv beta.
  eapply reads_bind; [apply reads_lift, read_u64_le_reads; unfold NODE_NETWORK; int_lia|]. cbv beta.
  eapply reads_bind; [apply reads_lift, read_fixed_reads; by apply ip_octets_array|]. cbv beta.
  eapply reads_bind_nil; [apply reads_lift, read_slice_reads; apply length_be_bytes|]. cbv beta.
  rewrite from_be_be_bytes, ip_of_octets, Hu, Hl by done. change (256 ^ Z.of_nat 2) with 65536.
  rewrite Z.mod_small by lia. destruct (port =? 0) eqn:E; [lia|]. apply reads_ret.
Qed.
Lemma read_addr_parses : parses read_addr (fun o _ => forall a, o = Some a -> routable a).
Proof.
  unfold read_addr. eapply parses_conseq.
  { eapply parses_bind; [apply parses_lift, read_u32_le_parses|intros t].
    eapply parses_bind; [apply parses_lift, read_u64_le_parses|intros s].
    eapply parses_bind; [apply parses_lift, read_fixed_parses|intros ip].
    eapply parses_bind; [apply parses_lift, read_slice_parses|intros port]. apply parses_ret. }
  intros o bs Hb ?. inv_parses. intros a.
  match goal with |- context [from_be ?p] => assert (0 <= from_be p < 65536) as Hr end.
  { match goal with |- 0 <= from_be ?p < _ => assert (bytes_ok p) as Hp end.
    { by repeat match goal with H : bytes_ok (_ ++ _) |- _ => apply bytes_ok_app in H as [? ?] end. }
    pose proof (from_be_range _ Hp) as Hr. repeat match goal with H : length _ = 2%nat |- _ => rewrite H in Hr end. exact Hr. }
  destruct (_ =? 0) eqn:E0; [done|]. destruct (_ || _) eqn:Eu; [done|]. intros [= <-].
  apply orb_false_iff in Eu as [? ?]. split_and!; cbn; [by apply ip_of_ok|done|done|lia|lia].
Qed.

Lemma read_vector_reads {A} (m : parser WireError A) (enc : A -> bytes) (R : A -> Prop) limit message l :
  (forall a, R a -> reads m (enc a) a) -> Forall R l -> fits_compact l -> Z.of_nat (length l) <= limit ->
  reads (count ← read_limited limit message; read_n count m) (write_varint (Z.of_nat (length l)) ++ write_list enc l) l.
Proof.
  intros Hm Hl Hf Hn. eapply reads_bind; [by apply read_limited_reads|]. cbv beta. by apply read_n_reads with R.
Qed.
Lemma read_n_parses_each {E A} (m : parser E A) (R : A -> Prop) n :
  parses m (fun a _ => R a) -> parses (read_n n m) (fun l _ => length l = n /\ Forall R l).
Proof.
  intros Hm. induction n as [|n IH]; cbn [read_n].
  - eapply parses_conseq; [apply parses_ret|]. by intros l bs _ [-> _].
  - eapply parses_conseq.
    { apply parses_bind; [apply Hm|intros a]. apply parses_bind; [apply IH|intros xs; apply parses_ret]. }
    intros l bs _ ?. inv_parses. split; [done|by constructor].
Qed.
Lemma write_list_map {A B} (f : A -> B) (enc : B -> bytes) l : write_list (fun a => enc (f a)) l = write_list enc (map f l).
Proof. unfold write_list. by rewrite map_map. Qed.
Lemma fits_small {A} (l : list A) n : Z.of_nat (length l) <= n -> n <= MAX_COMPACT_SIZE -> fits_compact l.
Proof. unfold fits_compact. lia. Qed.

(** *** Each message *)
Lemma headers_roundtrip hs :
  Forall (header_wf true) hs -> Z.of_nat (length hs) <= 160 ->
  parse_headers (build_headers_payload (map header_consensus_encode hs)) = Ok hs.
Proof.
  intros Hh Hl. unfold parse_headers, build_headers_payload. rewrite length_map, <- write_list_map.
  apply run_parser_reads_all. apply (read_vector_reads _ _ (header_wf true)); [apply read_header_reads|done| |done].
  by apply (fits_small _ 160).
Qed.
Lemma getheaders_roundtrip locator :
  Forall (array 32) locator -> Z.of_nat (length locator) <= 128 ->
  parse_getheaders (build_getheaders_payload locator) = Ok (mkGetHeaders locator (zeros 32)).
Proof.
  intros Hh Hl. unfold parse_getheaders, build_getheaders_payload.
  apply run_parser_whole.
  eapply reads_whole_bind; [apply reads_lift, read_i32_le_reads; by_decide|]. cbv beta.
  eapply reads_whole_bind; [apply read_limited_reads; [by apply (fits_small _ 128)|done]|]. cbv beta.
  eapply reads_whole_bind; [apply read_n_reads with (array 32); [intros; apply reads_lift; by apply read_hash_le_reads|done]|].
  cbv beta. rewrite <- (app_nil_r (write_hash_le _)).
  eapply reads_whole_bind; [apply reads_lift, read_hash_le_reads, array_zeros|]. apply reads_whole_end.
Qed.
Lemma inv_roundtrip hashes inv_type :
  is_u32 inv_type -> Forall (array 32) hashes -> Z.of_nat (length hashes) <= MAX_INV_RESULTS ->
  parse_inv (build_inv_payload hashes inv_type) = Ok (map (mkInv inv_type) hashes).
Proof.
  intros Ht Hh Hl. unfold parse_inv, build_inv_payload. rewrite write_list_map, <- (length_map (mkInv inv_type)).
  apply run_parser_whole. eapply reads_whole_bind.
  { apply read_limited_reads; [apply (fits_small _ MAX_INV_RESULTS); [by rewrite length_map|done]|by rewrite length_map]. }
  cbv beta. rewrite <- (app_nil_r (write_list _ _)). eapply reads_whole_bind.
  { apply read_n_reads with inv_ok; [apply read_inv_reads|]. apply Forall_map. eapply Forall_impl; [exact Hh|done]. }
  apply reads_whole_end.
Qed.
Lemma omap_Some {A} (l : list A) : omap id (map Some l) = l.
Proof. induction l as [|a l IH]; [done|]. simpl. by f_equal. Qed.
Lemma addr_roundtrip addrs now :
  is_u32 now -> Forall routable addrs -> Z.of_nat (length addrs) <= 1000 ->
  parse_addr (build_addr_payload addrs now) = Ok addrs.
Proof.
  intros Hnow Ha Hl. unfold parse_addr, build_addr_payload. apply run_parser_reads_all.
  eapply reads_bind; [apply read_limited_reads; [by apply (fits_small _ 1000)|done]|]. cbv beta.
  assert (reads (read_n (length addrs) read_addr) (write_list (write_addr now) addrs) (map Some addrs)) as Hr.
  { clear Hl. induction Ha as [|a l Ha _ IH]; cbn [length read_n]; [apply reads_ret|].
    unfold write_list in *. cbn [map concat]. eapply reads_bind; [by apply read_addr_reads|].
    eapply reads_bind_nil; [apply IH|]. apply reads_ret. }
  eapply reads_bind_nil; [exact Hr|]. cbv beta. rewrite omap_Some. apply reads_ret.
Qed.
Lemma feefilter_roundtrip fee : is_i64 fee -> parse_feefilter (build_feefilter_payload fee) = Ok (Z.max fee 0).
Proof.
  intros Hf. unfold parse_feefilter, build_feefilter_payload. apply run_parser_whole.
  change (write_i64_le (Z.max fee 0)) with (write_u64_le (Z.max fee 0)). rewrite <- (app_nil_r (write_u64_le _)).
  eapply reads_whole_bind; [apply reads_lift, read_u64_le_reads; int_lia|]. cbv beta.
  destruct (Z.max fee 0 <=? i64_max) eqn:E; [|unfold i64_max in *; int_lia]. rewrite (Z.max_l (Z.max fee 0) 0) by lia.
  apply reads_whole_end.
Qed.
Lemma read_net_addr_reads : reads read_net_addr (write_net_addr NODE_NETWORK (zeros 16) 0) tt.
Proof.
  unfold read_net_addr, write_net_addr. eapply reads_bind; [apply reads_lift, read_u64_le_reads; by_decide|]. cbv beta.
  eapply reads_bind; [apply reads_lift, read_fixed_reads, array_zeros|]. cbv beta.
  eapply reads_bind_nil; [apply reads_lift, read_slice_reads; apply length_be_bytes|]. apply reads_ret.
Qed.
Lemma version_roundtrip timestamp nonce start_height relay :
  is_i64 timestamp -> is_u64 nonce -> is_i32 start_height ->
  parse_version (build_version_payload timestamp nonce start_height relay)
  = Ok (mkVersionInfo PROTOCOL_VERSION NODE_NETWORK USER_AGENT start_height).
Proof.
  intros Ht Hn Hs. unfold parse_version, build_version_payload.
  set (m := _ ≫= _).
  assert (reads m (write_i32_le PROTOCOL_VERSION ++ write_u64_le NODE_NETWORK ++ write_i64_le timestamp
    ++ write_net_addr NODE_NETWORK (zeros 16) 0 ++ write_net_addr NODE_NETWORK (zeros 16) 0
    ++ write_u64_le nonce ++ write_var_str USER_AGENT ++ write_i32_le start_height)
    (mkVersionInfo PROTOCOL_VERSION NODE_NETWORK USER_AGENT start_height)) as Hm.
  { unfold m. eapply reads_bind; [apply reads_lift, read_i32_le_reads; by_decide|]. cbv beta.
    eapply reads_bind; [apply reads_lift, read_u64_le_reads; by_decide|]. cbv beta.
    eapply reads_bind; [apply reads_lift; by apply read_i64_le_reads|]. cbv beta.
    eapply reads_bind; [apply read_net_addr_reads|]. cbv beta. eapply reads_bind; [apply read_net_addr_reads|]. cbv beta.
    eapply reads_bind; [apply reads_lift; by apply read_u64_le_reads|]. cbv beta.
    eapply reads_bind; [apply reads_lift, read_var_str_reads; by_decide|]. cbv beta.
    eapply reads_bind_nil; [apply reads_lift; by apply read_i32_le_reads|]. apply reads_ret. }
  rewrite <- (run_parser_reads m _ (write_u8 (if relay then 1 else 0)) _ Hm). by rewrite <- !app_assoc.
Qed.

(** ** Properties *)

(** A peer understands what this node says.  Parsing what the node builds
    gives back the headers, the locator, the inventory, the addresses, the fee
    rate (negative ones as zero) and the version, whatever the clock and the
    nonce. *)
Theorem peer_messages_roundtrip :
  (forall hs, Forall (header_wf true) hs -> Z.of_nat (length hs) <= 160 ->
     parse_headers (build_headers_payload (map header_consensus_encode hs)) = Ok hs)
  /\ (forall locator, Forall (array 32) locator -> Z.of_nat (length locator) <= 128 ->
     parse_getheaders (build_getheaders_payload locator) = Ok (mkGetHeaders locator (zeros 32)))
  /\ (forall hashes kind, is_u32 kind -> Forall (array 32) hashes -> Z.of_nat (length hashes) <= MAX_INV_RESULTS ->
     parse_inv (build_inv_payload hashes kind) = Ok (map (mkInv kind) hashes))
  /\ (forall addrs now, is_u32 now -> Forall routable addrs -> Z.of_nat (length addrs) <= 1000 ->
     parse_addr (build_addr_payload addrs now) = Ok addrs)
  /\ (forall fee, is_i64 fee -> parse_feefilter (build_feefilter_payload fee) = Ok (Z.max fee 0))
  /\ (forall timestamp nonce start_height relay, is_i64 timestamp -> is_u64 nonce -> is_i32 start_height ->
     parse_version (build_version_payload timestamp nonce start_height relay)
     = Ok (mkVersionInfo PROTOCOL_VERSION NODE_NETWORK USER_AGENT start_height)).
Proof.
  split_and!; [exact headers_roundtrip|exact getheaders_roundtrip|intros; by apply inv_roundtrip
    |exact addr_roundtrip|exact feefilter_roundtrip|exact version_roundtrip].
Qed.

Lemma headers_wf payload hs :
  bytes_ok payload -> parse_headers payload = Ok hs -> Z.of_nat (length hs) <= 160 /\ Forall (header_wf true) hs.
Proof.
  intros Hb Hp. eapply run_parser_parses in Hp as (bs&rest&_&HP); [|eapply parses_bind; [apply read_limited_parses|intros n; apply (read_n_parses_each _ _ n read_header_parses)]|done].
  inv_parses. done.
Qed.
Lemma getheaders_wf payload r :
  bytes_ok payload -> parse_getheaders payload = Ok r ->
  Z.of_nat (length (gh_locator r)) <= 128 /\ Forall (array 32) (gh_locator r) /\ array 32 (gh_stop r).
Proof.
  intros Hb Hp. eapply run_parser_parses in Hp as (bs&rest&_&HP); [| |done].
  2: { do 2 (eapply parses_bind; [by auto with codec|intros ?]).
       eapply parses_bind; [apply read_n_parses with (enc := write_hash_le), parses_lift, read_hash_le_parses|intros ?].
       repeat parses_step. }
  inv_parses. done.
Qed.
(** An inventory has one encoding. *)
Lemma inv_canonical payload vs :
  bytes_ok payload -> parse_inv payload = Ok vs ->
  Z.of_nat (length vs) <= MAX_INV_RESULTS /\ Forall inv_ok vs
  /\ payload = write_varint (Z.of_nat (length vs)) ++ write_list write_inv vs.
Proof.
  intros Hb Hp. eapply run_parser_exact in Hp; [| | |done].
  2: { eapply parses_bind; [apply read_limited_parses|intros n].
       eapply parses_bind; [apply read_n_parses, read_inv_parses|intros ?]. repeat parses_step. }
  2: { apply exhausts_bind. intros n. apply exhausts_bind. intros l. apply exhausts_at_end. }
  inv_parses. done.
Qed.
Lemma addr_wf payload addrs :
  bytes_ok payload -> parse_addr payload = Ok addrs -> Z.of_nat (length addrs) <= 1000 /\ Forall routable addrs.
Proof.
  intros Hb Hp. eapply run_parser_parses in Hp as (bs&rest&_&HP); [| |done].
  2: { eapply parses_bind; [apply read_limited_parses|intros n].
       eapply parses_bind; [apply (read_n_parses_each _ _ n read_addr_parses)|intros ?]. repeat parses_step. }
  cbv beta in HP. destruct HP as (n&b1&b2&_&_&[Hn _]&l&b3&b4&_&_&[Hl HR]&->&_).
  split; [|].
  - assert (length (omap id l) <= length l)%nat; [|lia].
    clear. induction l as [|[a|] l IH]; cbn; lia.
  - clear Hl. induction HR as [|[a|] l HR _ IH]; cbn; [constructor|constructor; [by apply HR|done]|done].
Qed.
Lemma feefilter_range payload fee : bytes_ok payload -> parse_feefilter payload = Ok fee -> 0 <= fee <= i64_max.
Proof.
  intros Hb Hp. eapply run_parser_parses in Hp as (bs&rest&_&HP); [| |done]; [|repeat parses_step].
  inv_parses. destruct (_ <=? _) eqn:E; unfold i64_max in *; lia.
Qed.

(** C31: what a peer sends is well formed or refused.  Whatever the bytes of a
    payload, an accepted [headers] message holds at most 160 well-formed
    headers, a [getheaders] at most 128 hashes, an [inv] at most 50000
    entries (and the payload is their only encoding), an [addr] at most 1000
    addresses that can be connected to - a port, and neither unspecified nor
    loopback, IPv4 as such -, and a [feefilter] a fee that is not negative. *)
Theorem peer_messages_well_formed payload :
  bytes_ok payload ->
  (forall hs, parse_headers payload = Ok hs -> Z.of_nat (length hs) <= 160 /\ Forall (header_wf true) hs)
  /\ (forall r, parse_getheaders payload = Ok r ->
        Z.of_nat (length (gh_locator r)) <= 128 /\ Forall (array 32) (gh_locator r) /\ array 32 (gh_stop r))
  /\ (forall vs, parse_inv payload = Ok vs ->
        Z.of_nat (length vs) <= MAX_INV_RESULTS /\ Forall inv_ok vs
        /\ payload = write_varint (Z.of_nat (length vs)) ++ write_list write_inv vs)
  /\ (forall addrs, parse_addr payload = Ok addrs -> Z.of_nat (length addrs) <= 1000 /\ Forall routable addrs)
  /\ (forall fee, parse_feefilter payload = Ok fee -> 0 <= fee <= i64_max).
Proof.
  intros Hb. split_and!; intros.
  all: first [by eapply headers_wf|by eapply getheaders_wf|by eapply inv_canonical|by eapply addr_wf|by eapply feefilter_range].
Qed.

(** ** The stream of a connection *)
Section stream.
  Context `{HL : HashesLaws}.

(** A command fits its field and has no zero; a payload is within the limit. *)
Definition message_ok (m : bytes * bytes) : Prop :=
  (length (fst m) <= 12)%nat /\ Forall (fun b => b <> 0) (fst m) /\ Z.of_nat (length (snd m)) <= MAX_PAYLOAD_SIZE.
Definition framed (magic : bytes) (m : bytes * bytes) : bytes :=
  magic ++ (fst m ++ zeros (12 - length (fst m))) ++ le_bytes 4 (Z.of_nat (length (snd m))) ++ take 4 (sha256d (snd m)) ++ snd m.
Lemma frame_framed magic m : message_ok m -> frame magic (fst m) (snd m) = Ok (framed magic m).
Proof.
  intros (Hc&_&Hp). unfold frame, framed, MAX_PAYLOAD_SIZE in *. destruct (12 <? length (fst m))%nat eqn:E; [apply Nat.ltb_lt in E; lia|].
  rewrite wrap_u32_id by int_lia. done.
Qed.
Lemma until_zero_padded c n : Forall (fun b => b <> 0) c -> until_zero (c ++ zeros n) = c.
Proof.
  induction 1 as [|b c Hb _ IH]; cbn [app until_zero]; [by destruct n|]. destruct (b =? 0) eqn:E; [lia|]. by rewrite IH.
Qed.
Lemma length_frame_checksum p : length (take 4 (sha256d p)) = 4%nat.
Proof. rewrite length_take. destruct (sha256d_array p) as [-> _]. done. Qed.
Lemma read_exact_prefix n a b : length a = n -> read_exact n (a ++ b) = Ok (a, b).
Proof.
  intros Hn. unfold read_exact. rewrite length_app. destruct (_ <? n)%nat eqn:E; [apply Nat.ltb_lt in E; lia|].
  by rewrite take_app_length', drop_app_length' by done.
Qed.
Lemma read_exact_Ok n s a b : read_exact n s = Ok (a, b) -> s = a ++ b /\ length a = n.
Proof.
  unfold read_exact. destruct (_ <? n)%nat eqn:E; [done|]. apply Nat.ltb_ge in E. intros [= <- <-].
  rewrite take_drop, length_take. split; [done|lia].
Qed.
Lemma read_framed magic m rest :
  length magic = 4%nat -> message_ok m -> read_message magic (framed magic m ++ rest) = Ok (fst m, snd m, rest).
Proof.
  intros Hm (Hc&Hz&Hp). unfold read_message, framed. destruct m as [c p]. cbn [fst snd] in *.
  set (len := le_bytes 4 (Z.of_nat (length p))). set (sum := take 4 (sha256d p)).
  assert (length len = 4%nat) as Hlen by apply length_le_bytes. assert (length sum = 4%nat) as Hsum by apply length_frame_checksum.
  assert (length (c ++ zeros (12 - length c)) = 12%nat) as Hcmd by (rewrite length_app, length_zeros; lia).
  set (cmd := c ++ zeros _) in *.
  replace ((magic ++ cmd ++ len ++ sum ++ p) ++ rest) with ((magic ++ cmd ++ len ++ sum) ++ p ++ rest) by (by rewrite <- !app_assoc).
  rewrite read_exact_prefix by (rewrite !length_app; lia). cbn [mbind result_bind].
  rewrite slice_first by lia. rewrite bool_decide_true by done. cbn [negb].
  rewrite (slice_at magic cmd (len ++ sum) 4 16) by lia.
  replace (magic ++ cmd ++ len ++ sum) with ((magic ++ cmd) ++ len ++ sum) by (by rewrite <- app_assoc).
  rewrite (slice_at (magic ++ cmd) len sum 16 20) by (rewrite length_app; lia).
  assert (from_le len = Z.of_nat (length p)) as -> by (apply from_le_le_bytes_4; unfold MAX_PAYLOAD_SIZE in *; int_lia).
  destruct (Z.of_nat (length p) >? MAX_PAYLOAD_SIZE) eqn:E; [lia|]. rewrite Nat2Z.id, read_exact_prefix by done.
  cbn [mbind result_bind]. rewrite (app_assoc (magic ++ cmd)), slice_last by (rewrite ?length_app; lia).
  rewrite bool_decide_true by done. cbn [negb]. unfold cmd. by rewrite until_zero_padded.
Qed.
Lemma read_message_inv magic stream c p rest :
  length magic = 4%nat -> read_message magic stream = Ok (c, p, rest) ->
  exists header, stream = header ++ p ++ rest /\ length header = 24%nat /\ slice header 0 4 = magic
    /\ c = until_zero (slice header 4 16) /\ (bytes_ok header -> from_le (slice header 16 20) = Z.of_nat (length p))
    /\ Z.of_nat (length p) <= MAX_PAYLOAD_SIZE /\ slice header 20 24 = take 4 (sha256d p).
Proof.
  intros Hm Hr. unfold read_message in Hr. apply bind_Ok in Hr as ([header s]&Hh&Hr). apply read_exact_Ok in Hh as [-> Hl].
  case_bool_decide as Hmagic; [|done]. cbn [negb] in Hr. destruct (_ >? _) eqn:E; [done|].
  apply bind_Ok in Hr as ([payload s']&Hp&Hr). apply read_exact_Ok in Hp as [-> Hlp].
  case_bool_decide as Hsum; [|done]. cbn [negb] in Hr. injection Hr as <- -> ->.
  exists header. split_and!; try done.
  - intros Hb. pose proof (from_le_range (slice header 16 20) ltac:(unfold slice; auto using bytes_ok_take, bytes_ok_drop)). lia.
  - rewrite Hlp. unfold MAX_PAYLOAD_SIZE in *. lia.
Qed.

End stream.

(** ** Witnesses *)
Definition sample_peer : SocketAddr := mkSocketAddr (V4 [10; 0; 0; 7]) 16125.
Lemma peer_messages_roundtrip_witness :
  parse_addr (build_addr_payload [sample_peer] 5) = Ok [sample_peer]
  /\ parse_inv (build_inv_payload [zeros 32] MSG_TX) = Ok [mkInv MSG_TX (zeros 32)].
Proof.
  destruct peer_messages_roundtrip as (_&_&Hi&Ha&_). split.
  - apply Ha; [by_decide| |vm_compute; discriminate]. constructor; [|constructor].
    split_and!; vm_compute; try done. by repeat constructor.
  - apply Hi; [by_decide| |vm_compute; discriminate]. constructor; [apply array_zeros|constructor].
Defined.
Lemma peer_messages_well_formed_witness :
  bytes_ok (build_addr_payload [sample_peer] 5) /\ Forall routable [sample_peer].
Proof.
  assert (bytes_ok (build_addr_payload [sample_peer] 5)) as Hb by by_decide. split; [exact Hb|].
  destruct (peer_messages_well_formed (build_addr_payload [sample_peer] 5) Hb) as (_&_&_&Ha&_).
  apply (Ha [sample_peer]). vm_compute. reflexivity.
Defined.
Definition sample_magic : bytes := [36; 233; 39; 100].
Definition sample_messages : list (bytes * bytes) :=
  [(ascii_bytes "verack", []); (ascii_bytes "inv", build_inv_payload [zeros 32] MSG_TX)].
