(* ===== verification/Peers.v ===== *)
(** * Connections ([node/src/p2p.rs], the registry, the totals and the handshake)

    Who is connected, what has been counted, and how a connection is opened.
    Times are arguments; writes to the stream succeed, and the messages that
    arrive, or the error that ends them, are a list. *)

From S2P Require Import Prelude Encoding Hashing Transaction Block Wire.
From Stdlib Require Import ZArith Lia.
From stdpp Require Import base list option numbers strings gmap sets relations.
#[local] Open Scope Z_scope.

#[global] Program Instance IpAddr_countable : Countable IpAddr :=
  inj_countable' (fun ip => match ip with V4 o => (true, o) | V6 o => (false, o) end)
    (fun p : bool * bytes => if p.1 then V4 p.2 else V6 p.2) _.
Next Obligation. by intros [o|o]. Qed.
#[global] Program Instance SocketAddr_countable : Countable SocketAddr :=
  inj_countable' (fun a => (sa_ip a, sa_port a)) (fun p => mkSocketAddr p.1 p.2) _.
Next Obligation. by intros []. Qed.

Definition saturating_add_u64 (a b : Z) : Z := Z.min (a + b) u64_max.

(** ** The registry *)
Inductive PeerKind := Block | Header | Relay.
#[global] Instance PeerKind_eq_dec : EqDecision PeerKind.
Proof. solve_decision. Defined.
Record PeerEntry := mkPeerEntry {
  pe_addr : SocketAddr; pe_kind : PeerKind; pe_inbound : bool; pe_version : Z; pe_services : Z; pe_user_agent : bytes;
  pe_start_height : Z; pe_connected_since : Z; pe_last_send : Z; pe_last_recv : Z; pe_bytes_sent : Z; pe_bytes_recv : Z }.
Record PeerRegistry := mkRegistry {
  rg_next_id : Z; rg_peers : gmap Z PeerEntry; rg_disconnect_requests : gset SocketAddr }.
Definition PeerRegistry_default : PeerRegistry := mkRegistry 0 ∅ ∅.

(** The counter wraps around. *)
Definition register_internal (now : Z) (addr : SocketAddr) (kind : PeerKind) (inbound : bool) (r : PeerRegistry)
    : Z * PeerRegistry :=
  let entry := mkPeerEntry addr kind inbound 0 0 [] (-1) now now now 0 0 in
  let id := rg_next_id r in
  (id, mkRegistry (wrap_u64 (id + 1)) (<[id := entry]> (rg_peers r)) (rg_disconnect_requests r)).
Definition request_disconnect (addr : SocketAddr) (r : PeerRegistry) : PeerRegistry :=
  mkRegistry (rg_next_id r) (rg_peers r) ({[addr]} ∪ rg_disconnect_requests r).
Definition take_disconnect_request (addr : SocketAddr) (r : PeerRegistry) : bool :=
  bool_decide (addr ∈ rg_disconnect_requests r).
Definition alter_peer (f : PeerEntry -> PeerEntry) (id : Z) (r : PeerRegistry) : PeerRegistry :=
  mkRegistry (rg_next_id r) (alter f id (rg_peers r)) (rg_disconnect_requests r).
Definition update_version (id version services : Z) (user_agent : bytes) (start_height : Z) : PeerRegistry -> PeerRegistry :=
  alter_peer (fun e => mkPeerEntry (pe_addr e) (pe_kind e) (pe_inbound e) version services user_agent start_height
                         (pe_connected_since e) (pe_last_send e) (pe_last_recv e) (pe_bytes_sent e) (pe_bytes_recv e)) id.
Definition note_send (now id bytes : Z) : PeerRegistry -> PeerRegistry :=
  alter_peer (fun e => mkPeerEntry (pe_addr e) (pe_kind e) (pe_inbound e) (pe_version e) (pe_services e) (pe_user_agent e)
                         (pe_start_height e) (pe_connected_since e) now (pe_last_recv e)
                         (saturating_add_u64 (pe_bytes_sent e) bytes) (pe_bytes_recv e)) id.
Definition note_recv (now id bytes : Z) : PeerRegistry -> PeerRegistry :=
  alter_peer (fun e => mkPeerEntry (pe_addr e) (pe_kind e) (pe_inbound e) (pe_version e) (pe_services e) (pe_user_agent e)
                         (pe_start_height e) (pe_connected_since e) (pe_last_send e) now
                         (pe_bytes_sent e) (saturating_add_u64 (pe_bytes_recv e) bytes)) id.
Definition connected_at (addr : SocketAddr) (peers : gmap Z PeerEntry) : bool :=
  existsb (fun kv => bool_decide (pe_addr (snd kv) = addr)) (map_to_list peers).
(** A request to disconnect an address goes with its last connection. *)
Definition registry_remove (id : Z) (r : PeerRegistry) : PeerRegistry :=
  match rg_peers r !! id with
  | None => r
  | Some entry =>
      let peers := delete id (rg_peers r) in
      mkRegistry (rg_next_id r) peers
        (if connected_at (pe_addr entry) peers then rg_disconnect_requests r
         else rg_disconnect_requests r ∖ {[pe_addr entry]})
  end.
Definition registry_count (r : PeerRegistry) : nat := base.size (rg_peers r).

(** ** The totals: counters that wrap around *)
Record NetTotals := mkTotals { nt_bytes_recv : Z; nt_bytes_sent : Z; nt_connections : Z }.
Definition NetTotals_default : NetTotals := mkTotals 0 0 0.
Definition add_recv (n : Z) (t : NetTotals) : NetTotals := mkTotals (wrap_u64 (nt_bytes_recv t + n)) (nt_bytes_sent t) (nt_connections t).
Definition add_sent (n : Z) (t : NetTotals) : NetTotals := mkTotals (nt_bytes_recv t) (wrap_u64 (nt_bytes_sent t + n)) (nt_connections t).
Definition inc_connections (t : NetTotals) : NetTotals :=
  mkTotals (nt_bytes_recv t) (nt_bytes_sent t) (wrap_u64 (nt_connections t + 1)).
Definition dec_connections (t : NetTotals) : NetTotals :=
  mkTotals (nt_bytes_recv t) (nt_bytes_sent t) (Z.max (nt_connections t - 1) 0).

(** ** A peer and its network *)
Record Net := mkNet { net_registry : PeerRegistry; net_totals : NetTotals }.
Record Peer := mkPeer {
  p_magic : bytes; p_remote_height : Z; p_remote_version : Z; p_remote_services : Z; p_remote_user_agent : bytes;
  p_kind : PeerKind; p_addr : SocketAddr; p_registry_id : Z }.
(** [connect] and [from_inbound], once there is a stream. *)
Definition peer_new (now : Z) (addr : SocketAddr) (magic : bytes) (kind : PeerKind) (inbound : bool) (n : Net) : Peer * Net :=
  let totals := inc_connections (net_totals n) in
  let '(id, registry) := register_internal now addr kind inbound (net_registry n) in
  (mkPeer magic (-1) 0 0 [] kind addr id, mkNet registry totals).
Definition peer_drop (p : Peer) (n : Net) : Net :=
  mkNet (registry_remove (p_registry_id p) (net_registry n)) (dec_connections (net_totals n)).
Definition bump_remote_height (height : Z) (p : Peer) : Peer :=
  mkPeer (p_magic p) (Z.max (p_remote_height p) height) (p_remote_version p) (p_remote_services p) (p_remote_user_agent p)
    (p_kind p) (p_addr p) (p_registry_id p).

Section handshake.
  Context `{H : Hashes}.

(** [send_message]: the bytes written, counted. *)
Definition send_message (now : Z) (command payload : bytes) (p : Peer) (n : Net) : result WireError (bytes * Net) :=
  bs ← frame (p_magic p) command payload;
  let len := Z.of_nat (length bs) in
  Ok (bs, mkNet (note_send now (p_registry_id p) len (net_registry n)) (add_sent len (net_totals n))).
(** What [read_message] counts. *)
Definition received (now : Z) (payload : bytes) (p : Peer) (n : Net) : Net :=
  let len := 24 + Z.of_nat (length payload) in
  mkNet (note_recv now (p_registry_id p) len (net_registry n)) (add_recv len (net_totals n)).

Record Handshake := mkHandshake {
  hs_peer : Peer; hs_net : Net; hs_sent : list (bytes * bytes); hs_got_version : bool; hs_got_verack : bool }.
Definition VERSION : bytes := ascii_bytes "version".
Definition VERACK : bytes := ascii_bytes "verack".
Definition PING : bytes := ascii_bytes "ping".
Definition PONG : bytes := ascii_bytes "pong".
Definition reply (now : Z) (command payload : bytes) (h : Handshake) : result WireError Handshake :=
  r ← send_message now command payload (hs_peer h) (hs_net h);
  Ok (mkHandshake (hs_peer h) (snd r) (hs_sent h ++ [(command, payload)]) (hs_got_version h) (hs_got_verack h)).
(** A version that does not parse leaves the peer as it was. *)
Definition learn_version (payload : bytes) (h : Handshake) : Handshake :=
  match parse_version payload with
  | Ok info =>
      let p := hs_peer h in
      mkHandshake
        (mkPeer (p_magic p) (vi_start_height info) (vi_version info) (vi_services info) (vi_user_agent info) (p_kind p)
           (p_addr p) (p_registry_id p))
        (mkNet (update_version (p_registry_id p) (vi_version info) (vi_services info) (vi_user_agent info)
                  (vi_start_height info) (net_registry (hs_net h))) (net_totals (hs_net h)))
        (hs_sent h) (hs_got_version h) (hs_got_verack h)
  | _ => h
  end.
Definition handshake_message (now : Z) (message : bytes * bytes) (h : Handshake) : result WireError Handshake :=
  let '(command, payload) := message in
  let h := mkHandshake (hs_peer h) (received now payload (hs_peer h) (hs_net h)) (hs_sent h) (hs_got_version h) (hs_got_verack h) in
  if bool_decide (command = VERSION) then
    h ← reply now VERACK [] (mkHandshake (hs_peer h) (hs_net h) (hs_sent h) true (hs_got_verack h));
    Ok (learn_version payload h)
  else if bool_decide (command = VERACK) then Ok (mkHandshake (hs_peer h) (hs_net h) (hs_sent h) (hs_got_version h) true)
  else if bool_decide (command = PING) then reply now PONG payload h
  else Ok h.
Definition handshake_done (h : Handshake) : bool := hs_got_verack h && hs_got_version h.
(** What arrives: messages, then the error that ends the stream.  The state and
    the messages not read. *)
Fixpoint handshake_loop (now : Z) (incoming : list (bytes * bytes)) (ends : WireError) (h : Handshake)
    : result WireError (Handshake * list (bytes * bytes)) :=
  if handshake_done h then Ok (h, incoming)
  else
    match incoming with
    | [] => Err ends
    | message :: incoming => h ← handshake_message now message h; handshake_loop now incoming ends h
    end.
Definition handshake (now nonce start_height : Z) (incoming : list (bytes * bytes)) (ends : WireError) (p : Peer) (n : Net)
    : result WireError (Handshake * list (bytes * bytes)) :=
  let relay := bool_decide (p_kind p = Relay) in
  h ← reply now VERSION (build_version_payload now nonce start_height relay) (mkHandshake p n [] false false);
  handshake_loop now incoming ends h.
End handshake.

(** ** Histories of the network *)
Inductive net_step : Net * gmap Z Peer -> Net * gmap Z Peer -> Prop :=
| step_connect now addr magic kind inbound n live p n' :
    peer_new now addr magic kind inbound n = (p, n') ->
    rg_next_id (net_registry n) < u64_max ->
    net_step (n, live) (n', <[p_registry_id p := p]> live)
| step_drop id p n live : live !! id = Some p -> net_step (n, live) (peer_drop p n, delete id live)
| step_request addr n live :
    net_step (n, live) (mkNet (request_disconnect addr (net_registry n)) (net_totals n), live)
| step_traffic f id totals n live :
    (forall e, pe_addr (f e) = pe_addr e) -> nt_connections totals = nt_connections (net_totals n) ->
    net_step (n, live) (mkNet (alter_peer f id (net_registry n)) totals, live).

(** ** Connections are counted *)
Record net_ok (s : Net * gmap Z Peer) : Prop := {
  no_ids id p : s.2 !! id = Some p -> p_registry_id p = id;
  no_entry id p : s.2 !! id = Some p -> exists e, rg_peers (net_registry s.1) !! id = Some e /\ pe_addr e = p_addr p;
  no_live id : is_Some (rg_peers (net_registry s.1) !! id) -> is_Some (s.2 !! id);
  no_fresh id p : s.2 !! id = Some p -> 0 <= id < rg_next_id (net_registry s.1);
  no_next : 0 <= rg_next_id (net_registry s.1) <= u64_max;
  no_size : Z.of_nat (base.size (s.2)) <= rg_next_id (net_registry s.1);
  no_count : nt_connections (net_totals s.1) = Z.of_nat (base.size (s.2)) }.

Lemma net_ok_start : net_ok (mkNet PeerRegistry_default NetTotals_default, ∅).
Proof. split; cbn.
  1, 2, 4: intros id p; by rewrite lookup_empty.
  - intros id [e He]. by rewrite lookup_empty in He.
  - unfold u64_max. lia.
  - rewrite map_size_empty. lia.
  - by rewrite map_size_empty.
Qed.
Lemma connected_at_spec addr (peers : gmap Z PeerEntry) :
  connected_at addr peers = true <-> exists id e, peers !! id = Some e /\ pe_addr e = addr.
Proof.
  unfold connected_at. rewrite existsb_exists. split.
  - intros ([id e]&Hin&He). apply list_elem_of_In, elem_of_map_to_list in Hin. case_bool_decide; [eauto|done].
  - intros (id&e&Hl&He). exists (id, e). split; [by apply list_elem_of_In, elem_of_map_to_list|by apply bool_decide_true].
Qed.
Lemma drop_entry id p n live :
  net_ok (n, live) -> live !! id = Some p ->
  exists e, rg_peers (net_registry n) !! id = Some e /\ pe_addr e = p_addr p
    /\ net_registry (peer_drop p n)
       = mkRegistry (rg_next_id (net_registry n)) (delete id (rg_peers (net_registry n)))
           (if connected_at (p_addr p) (delete id (rg_peers (net_registry n))) then rg_disconnect_requests (net_registry n)
            else rg_disconnect_requests (net_registry n) ∖ {[p_addr p]}).
Proof.
  intros Hn Hl. destruct (no_entry _ Hn id p Hl) as (e&He&Ha). exists e. split_and!; [done|done|].
  unfold peer_drop, registry_remove. cbn. rewrite (no_ids _ Hn id p Hl). cbn in He. by rewrite He, Ha.
Qed.
Lemma size_insert_fresh (id : Z) (p : Peer) (live : gmap Z Peer) : live !! id = None -> base.size (<[id := p]> live) = Datatypes.S (base.size live).
Proof. apply map_size_insert_None. Qed.
Lemma net_ok_step s s' : net_step s s' -> net_ok s -> net_ok s'.
Proof.
  intros Hs Hn. destruct Hs as [now addr magic kind inbound n live p n' Hp Hid|id p n live Hl|addr n live|f id totals n live Hf Ht].
  - unfold peer_new, register_internal in Hp. injection Hp as <- <-.
    set (id := rg_next_id (net_registry n)) in *. cbn [p_registry_id].
    pose proof (no_next _ Hn) as Hnext. pose proof (no_size _ Hn) as Hsize. cbn in Hnext, Hsize. fold id in Hnext, Hsize.
    assert (live !! id = None) as Hnone.
    { destruct (live !! id) as [q|] eqn:E; [|done]. pose proof (no_fresh _ Hn id q E) as Hf. cbn in Hf. fold id in Hf. lia. }
    assert (wrap_u64 (id + 1) = id + 1) as Hwrap by (unfold wrap_u64, u64_max in *; apply Z.mod_small; lia).
    pose proof (no_count _ Hn) as Hcount. cbn in Hcount.
    split; cbn; rewrite ?Hwrap; fold id.
    + intros i q [[<- <-]|[_ Hq]]%lookup_insert_Some; [done|by apply (no_ids _ Hn)].
    + intros i q [[<- <-]|[Hne Hq]]%lookup_insert_Some; [rewrite lookup_insert_eq; eauto|].
      rewrite lookup_insert_ne by done. by apply (no_entry _ Hn).
    + intros i [e [[<- <-]|[Hne Hq]]%lookup_insert_Some]; [rewrite lookup_insert_eq; eauto|].
      rewrite lookup_insert_ne by done. apply (no_live _ Hn). by exists e.
    + intros i q [[<- <-]|[_ Hq]]%lookup_insert_Some; [lia|]. pose proof (no_fresh _ Hn i q Hq) as Hf. cbn in Hf. fold id in Hf. lia.
    + unfold u64_max in *. lia.
    + rewrite size_insert_fresh by done. lia.
    + rewrite size_insert_fresh, Hcount by done. unfold wrap_u64, u64_max in *. rewrite Z.mod_small by lia. lia.
  - destruct (drop_entry id p n live Hn Hl) as (e&He&_&Hr).
    assert (base.size live = Datatypes.S (base.size (delete id live))) as Hsz.
    { rewrite <- (insert_delete_id live id p Hl) at 1. apply size_insert_fresh, lookup_delete_eq. }
    split; cbn [fst snd]; rewrite ?Hr; cbn.
    + intros i q [_ Hq]%lookup_delete_Some. by apply (no_ids _ Hn).
    + intros i q [Hne Hq]%lookup_delete_Some. rewrite lookup_delete_ne by done. by apply (no_entry _ Hn).
    + intros i [x [Hne Hq]%lookup_delete_Some]. rewrite lookup_delete_ne by done. apply (no_live _ Hn). by exists x.
    + intros i q [_ Hq]%lookup_delete_Some. by eapply (no_fresh _ Hn).
    + apply (no_next _ Hn).
    + pose proof (no_size _ Hn) as Hs. cbn in Hs. lia.
    + pose proof (no_count _ Hn) as Hc. cbn in Hc. lia.
  - split; cbn; apply Hn.
  - split; cbn; try apply Hn.
    + intros i p Hp. destruct (no_entry _ Hn i p Hp) as (e&He&Ha). cbn in He. destruct (decide (i = id)) as [->|Hne].
      * rewrite lookup_alter_eq, He. exists (f e). split; [done|]. by rewrite Hf.
      * rewrite lookup_alter_ne by done. eauto.
    + intros i Hi. apply (no_live _ Hn i). cbn. by rewrite lookup_alter_is_Some in Hi.
    + rewrite Ht. apply (no_count _ Hn).
Qed.

(** C19: the node knows how many connections it has.  In every history of
    connecting, dropping, asking for disconnection and exchanging messages
    (with fewer than 2^64 connections in all): the counter of connections is
    the number of registered peers and of live ones; every live peer is
    registered under its own identifier and address; and dropping a peer
    withdraws the request to disconnect its address exactly when no other
    connection to that address is left, and no other request. *)
Theorem connections_counted (n : Net) (live : gmap Z Peer) :
  rtc net_step (mkNet PeerRegistry_default NetTotals_default, ∅) (n, live) ->
  nt_connections (net_totals n) = Z.of_nat (base.size live)
  /\ registry_count (net_registry n) = base.size live
  /\ (forall id p, live !! id = Some p ->
        p_registry_id p = id /\ exists e, rg_peers (net_registry n) !! id = Some e /\ pe_addr e = p_addr p)
  /\ forall id p addr, live !! id = Some p ->
       take_disconnect_request addr (net_registry (peer_drop p n))
       = take_disconnect_request addr (net_registry n)
         && (negb (bool_decide (addr = p_addr p)) || connected_at addr (delete id (rg_peers (net_registry n)))).
Proof.
  intros Hr. assert (net_ok (n, live)) as Hn.
  { change (net_ok (n, live)). remember (mkNet PeerRegistry_default NetTotals_default, ∅) as s0.
    assert (net_ok s0) as H0 by (subst; apply net_ok_start). clear Heqs0.
    induction Hr; [done|]. eauto using net_ok_step. }
  split_and!; [apply (no_count _ Hn)| |intros id p Hp; split; [by apply (no_ids _ Hn)|by apply (no_entry _ Hn)]|].
  - unfold registry_count. rewrite <- !size_dom. f_equal. apply set_eq. intros id. rewrite !elem_of_dom. split.
    + apply (no_live _ Hn).
    + intros [p Hp]. destruct (no_entry _ Hn id p Hp) as (e&He&_). eauto.
  - intros id p addr Hp. destruct (drop_entry id p n live Hn Hp) as (e&_&_&->). unfold take_disconnect_request. cbn.
    destruct (decide (addr = p_addr p)) as [->|Hne].
    + rewrite (bool_decide_true (p_addr p = p_addr p)) by done. cbn. destruct (connected_at _ _); [by rewrite andb_true_r|].
      rewrite andb_false_r. apply bool_decide_false. set_solver.
    + rewrite (bool_decide_false (addr = p_addr p)) by done. cbn. rewrite andb_true_r.
      destruct (connected_at _ _); [done|]. apply bool_decide_ext. set_solver.
Qed.

(** A request for an address that is not connected waits for the next
    connection to it. *)
Lemma stale_request_cuts_connection now addr magic kind inbound n p n' :
  peer_new now addr magic kind inbound (mkNet (request_disconnect addr (net_registry n)) (net_totals n)) = (p, n') ->
  take_disconnect_request (p_addr p) (net_registry n') = true.
Proof.
  unfold peer_new, register_internal. cbn. intros [= <- <-]. unfold take_disconnect_request. cbn.
  apply bool_decide_true. set_solver.
Qed.

(** ** The handshake *)
Section handshake_facts.
  Context `{H : Hashes}.

(** What a message is answered with. *)
Definition answers (m : bytes * bytes) : list (bytes * bytes) :=
  if bool_decide (m.1 = VERSION) then [(VERACK, [])]
  else if bool_decide (m.1 = VERACK) then []
  else if bool_decide (m.1 = PING) then [(PONG, m.2)] else [].
Definition both_seen (messages : list (bytes * bytes)) : Prop := VERSION ∈ map fst messages /\ VERACK ∈ map fst messages.

Lemma reply_Ok now command payload h :
  (length command <= 12)%nat ->
  exists h', reply now command payload h = Ok h' /\ hs_sent h' = hs_sent h ++ [(command, payload)]
    /\ hs_got_version h' = hs_got_version h /\ hs_got_verack h' = hs_got_verack h.
Proof.
  intros Hc. unfold reply, send_message, frame. destruct (12 <? length command)%nat eqn:E; [apply Nat.ltb_lt in E; lia|].
  cbn [mbind result_bind]. eexists. split; [reflexivity|]. done.
Qed.
Lemma learn_version_same payload h :
  hs_sent (learn_version payload h) = hs_sent h /\ hs_got_version (learn_version payload h) = hs_got_version h
  /\ hs_got_verack (learn_version payload h) = hs_got_verack h.
Proof. unfold learn_version. by destruct (parse_version payload). Qed.
Lemma handshake_message_Ok now m h :
  exists h', handshake_message now m h = Ok h' /\ hs_sent h' = hs_sent h ++ answers m
    /\ hs_got_version h' = hs_got_version h || bool_decide (m.1 = VERSION)
    /\ hs_got_verack h' = hs_got_verack h || bool_decide (m.1 = VERACK).
Proof.
  destruct m as [command payload]. unfold handshake_message, answers. cbn [fst snd].
  destruct (decide (command = VERSION)) as [->|H1].
  { rewrite bool_decide_true by done. rewrite (bool_decide_false (VERSION = VERACK)) by done.
    edestruct reply_Ok as (h'&Hh&Hs&Hv&Ha); [|rewrite Hh; cbn [mbind result_bind]; eexists; split; [reflexivity|]].
    { simpl. lia. }
    destruct (learn_version_same payload h') as (->&->&->). rewrite Hs, Hv, Ha. cbn. by rewrite orb_true_r, orb_false_r. }
  rewrite (bool_decide_false (command = VERSION)) by done. destruct (decide (command = VERACK)) as [->|H2].
  { rewrite bool_decide_true by done. eexists. split; [reflexivity|]. cbn. by rewrite app_nil_r, orb_true_r, orb_false_r. }
  rewrite (bool_decide_false (command = VERACK)) by done. rewrite !orb_false_r. destruct (decide (command = PING)) as [->|H3].
  - rewrite bool_decide_true by done. edestruct reply_Ok as (h'&Hh&Hs&Hv&Ha); [|rewrite Hh; eexists; split; [reflexivity|done]].
    simpl. lia.
  - rewrite bool_decide_false by done. eexists. split; [reflexivity|]. cbn. by rewrite app_nil_r.
Qed.

Lemma handshake_loop_spec now incoming ends h :
  match handshake_loop now incoming ends h with
  | Ok (h', rest) =>
      exists read, incoming = read ++ rest /\ hs_sent h' = hs_sent h ++ concat (map answers read)
        /\ (hs_got_version h || bool_decide (VERSION ∈ map fst read)) && (hs_got_verack h || bool_decide (VERACK ∈ map fst read)) = true
        /\ forall before after, read = before ++ after -> after <> [] ->
             (hs_got_version h || bool_decide (VERSION ∈ map fst before)) && (hs_got_verack h || bool_decide (VERACK ∈ map fst before)) = false
  | Err e => e = ends
      /\ (hs_got_version h || bool_decide (VERSION ∈ map fst incoming)) && (hs_got_verack h || bool_decide (VERACK ∈ map fst incoming)) = false
  | Panic => False
  end.
Proof.
  assert (forall b (c : bytes) m (l : list (bytes * bytes)), b || bool_decide (m.1 = c) || bool_decide (c ∈ map fst l)
    = b || bool_decide (c ∈ map fst (m :: l))) as Hor.
  { intros b c m l. rewrite <- orb_assoc. f_equal. cbn [map]. apply Bool.eq_true_iff_eq.
    rewrite orb_true_iff, !bool_decide_eq_true, elem_of_cons. naive_solver. }
  assert (forall b (c : bytes), b || bool_decide (c ∈ map fst ([] : list (bytes * bytes))) = b) as Hnil.
  { intros b c. rewrite bool_decide_false by apply not_elem_of_nil. apply orb_false_r. }
  revert h. induction incoming as [|m incoming IH]; intros h; cbn [handshake_loop]; destruct (handshake_done h) eqn:Ed.
  1, 3: exists []; unfold handshake_done in Ed; split_and!;
    [done|by rewrite app_nil_r|by rewrite !Hnil, andb_comm|by intros [|] [|]].
  - split; [done|]. unfold handshake_done in Ed. by rewrite !Hnil, andb_comm.
  - destruct (handshake_message_Ok now m h) as (h1&->&Hs&Hv&Ha). cbn [mbind result_bind]. specialize (IH h1).
    destruct (handshake_loop now incoming ends h1) as [[h' rest]|e|]; [| |done].
    + destruct IH as (read&->&Hs'&Hb&Hmin). exists (m :: read). rewrite Hv, Ha, !Hor in Hb.
      split_and!; [done|by rewrite Hs', Hs, <- app_assoc|done|].
      intros [|m' before] after Heq Hne; [unfold handshake_done in Ed; by rewrite !Hnil, andb_comm|].
      injection Heq as <- Heq. specialize (Hmin before after Heq Hne). by rewrite Hv, Ha, !Hor in Hmin.
    + destruct IH as [-> Hb]. by rewrite Hv, Ha, !Hor in Hb.
Qed.

(** The handshake completes exactly when both a [version] and a [verack]
    arrive, and not before.  It reads the shortest run of messages that has
    both; it sends its own [version] first, then one [verack] for each
    [version] and one [pong] with the same payload for each [ping], in order;
    and when the messages end without both, it fails with what ended them. *)
Theorem handshake_exchanges now nonce start_height incoming ends p n :
  match handshake now nonce start_height incoming ends p n with
  | Ok (h, rest) =>
      exists read, incoming = read ++ rest /\ both_seen read
        /\ (forall before after, read = before ++ after -> after <> [] -> ~ both_seen before)
        /\ hs_sent h = (VERSION, build_version_payload now nonce start_height (bool_decide (p_kind p = Relay)))
                       :: concat (map answers read)
  | Err e => e = ends /\ ~ both_seen incoming
  | Panic => False
  end.
Proof.
  unfold handshake. cbv zeta.
  edestruct (reply_Ok now VERSION (build_version_payload now nonce start_height (bool_decide (p_kind p = Relay)))
    (mkHandshake p n [] false false)) as (h1&->&Hs&Hv&Ha); [simpl; lia|]. cbn [mbind result_bind].
  cbn [hs_sent hs_got_version hs_got_verack app] in *.
  assert (forall l, (false || bool_decide (VERSION ∈ map fst l)) && (false || bool_decide (VERACK ∈ map fst l)) = true <-> both_seen l) as Hb.
  { intros l. cbn [orb]. rewrite andb_true_iff, !bool_decide_eq_true. done. }
  pose proof (handshake_loop_spec now incoming ends h1) as Hl. destruct (handshake_loop _ _ _ _) as [[h rest]|e|]; [| |done].
  - destruct Hl as (read&->&Hs'&Hseen&Hmin). rewrite Hv, Ha in *. exists read. split_and!; [done|by apply Hb| |by rewrite Hs', Hs].
    intros before after Heq Hne Hbb. apply Hb in Hbb. specialize (Hmin before after Heq Hne). congruence.
  - destruct Hl as [-> Hf]. rewrite Hv, Ha in Hf. split; [done|]. intros Hbb. apply Hb in Hbb. congruence.
Qed.
End handshake_facts.

(** ** A peer that connects *)
Definition sample_net : Peer * Net :=
  peer_new 1700000000 sample_peer sample_magic Relay true (mkNet PeerRegistry_default NetTotals_default).
Lemma connections_counted_witness :
  nt_connections (net_totals sample_net.2) = 1 /\ registry_count (net_registry sample_net.2) = 1%nat.
Proof.
  destruct (connections_counted sample_net.2 (<[0 := sample_net.1]> ∅)) as (H1&H2&_).
  - apply rtc_once. apply (step_connect 1700000000 sample_peer sample_magic Relay true _ ∅ sample_net.1 sample_net.2); done.
  - split; [exact H1|exact H2].
Defined.
Example handshake_trip :
  match handshake 5 6 7 [(PING, [1]); (VERACK, []); (VERSION, build_version_payload 8 9 10 false); (PING, [2])]
          (WireText "early eof") sample_net.1 sample_net.2 with
  | Ok (h, rest) => p_remote_height (hs_peer h) = 10 /\ rest = [(PING, [2])]
      /\ map fst (hs_sent h) = [VERSION; PONG; VERACK]
  | _ => False
  end.
Proof. vm_compute. done. Qed.
