(* ===== verification/FeeEstimator.v ===== *)
(** * The fee estimator ([node/src/fee_estimator.rs])

    How long transactions of each fee rate and priority took to confirm, as
    decaying averages over buckets, and the estimates made of it.  An index
    out of range aborts, as in the source; reading and writing the file is an
    argument and a result. *)

From S2P Require Import Prelude Consensus Rewards Float64 Encoding.
From Stdlib Require Import ZArith Lia Floats.SpecFloat.
From stdpp Require Import base list option numbers strings gmap.
#[local] Open Scope Z_scope.

(** Computations that can only abort. *)
Inductive Never :=.
#[local] Notation total := (result Never).
Definition at_index {A} (l : list A) (i : nat) : total A := index l i.
Definition set_at {A} (l : list A) (i : nat) (a : A) : total (list A) :=
  if (i <? length l)%nat then Ok (<[i := a]> l) else Panic.
Fixpoint each {A} (f : A -> nat -> total A) (l : list nat) (a : A) : total A :=
  match l with [] => Ok a | i :: l => a ← f a i; each f l a end.
Fixpoint map_rows {A} (f : A -> total A) (l : list A) : total (list A) :=
  match l with [] => Ok [] | a :: l => a ← f a; l ← map_rows f l; Ok (a :: l) end.
Definition saturating_add_i32 (a b : Z) : Z := Z.max (-2147483648) (Z.min 2147483647 (a + b)).
Definition saturating_mul_i64 (a b : Z) : Z := Z.max (-9223372036854775808) (Z.min 9223372036854775807 (a * b)).
Definition saturating_sub_i32 (a b : Z) : Z := Z.max (-2147483648) (Z.min 2147483647 (a - b)).

Definition FEE_ESTIMATES_FILE_VERSION : Z := 2.
Definition DEFAULT_DECAY : spec_float := f64_literal 998 1000.
Definition MAX_BLOCK_CONFIRMS : nat := 25.
Definition MIN_SUCCESS_PCT : spec_float := f64_literal 85 100.
Definition UNLIKELY_PCT : spec_float := f64_literal 50 100.
Definition SUFFICIENT_FEETXS : spec_float := f64_of_i64 1.
Definition SUFFICIENT_PRITXS : spec_float := f64_literal 2 10.
Definition MIN_FEERATE_PER_KB : Z := 10.
Definition MAX_FEERATE_PER_KB : spec_float := f64_of_i64 10000000.
Definition INF_FEERATE_PER_KB : spec_float := f64_of_i64 MAX_MONEY.
Definition MIN_PRIORITY : spec_float := f64_of_i64 10.
Definition MAX_PRIORITY : spec_float := f64_of_i64 10000000000000000.
Definition INF_PRIORITY : spec_float := f64_mul (f64_of_i64 1000000000) (f64_of_i64 MAX_MONEY).
Definition FEE_SPACING : spec_float := f64_literal 11 10.
Definition PRIORITY_SPACING : spec_float := f64_of_i64 2.
Definition allow_free_threshold : spec_float := f64_of_i64 (Z.quot (COIN * 144) 250).
Definition f64_one : spec_float := f64_of_i64 1.
Definition minus_one : spec_float := f64_of_i64 (-1).

Record MempoolTxInfo := mkTxInfo {
  ti_txid : Hash256; ti_height : Z; ti_fee : Z; ti_size : Z; ti_starting_priority : spec_float; ti_was_clear_at_entry : bool }.
Record BlockTxInfo := mkBlockTx {
  bt_fee : Z; bt_size : Z; bt_height : Z; bt_priority : spec_float; bt_was_clear_at_entry : bool }.
Inductive TrackedStats := Fee | Priority.
Record TxStatsInfo := mkTxStats { ts_stats : TrackedStats; ts_block_height : Z; ts_bucket_index : nat }.

(** ** Statistics *)
Record TxConfirmStats := mkStats {
  buckets : list spec_float; tx_ct_avg : list spec_float; cur_block_tx_ct : list Z; conf_avg : list (list spec_float);
  cur_block_conf : list (list Z); avg : list spec_float; cur_block_val : list spec_float; decay : spec_float;
  unconf_txs : list (list Z); old_unconf_txs : list Z }.

Definition stats_of (buckets tx_ct_avg : list spec_float) (conf_avg : list (list spec_float)) (avg : list spec_float)
    (decay : spec_float) (max_confirms : nat) : TxConfirmStats :=
  let n := length buckets in
  mkStats buckets tx_ct_avg (replicate n 0) conf_avg (replicate max_confirms (replicate n 0)) avg
    (replicate n f64_zero) decay (replicate max_confirms (replicate n 0)) (replicate n 0).
Definition initialize (default_buckets : list spec_float) (max_confirms : nat) (decay : spec_float) : TxConfirmStats :=
  let buckets := default_buckets ++ [f64_infinity] in
  let n := length buckets in
  let max_confirms := Nat.max max_confirms 1 in
  stats_of buckets (replicate n f64_zero) (replicate max_confirms (replicate n f64_zero)) (replicate n f64_zero) decay max_confirms.

Definition max_confirms (s : TxConfirmStats) : Z := Z.min (Z.of_nat (length (conf_avg s))) u32_max.

(** [slice::binary_search_by]: an index that compares equal, or where the value would go. *)
Fixpoint search_loop (fuel : nat) (cmp : nat -> comparison) (size base : nat) : nat :=
  match fuel with
  | O => base
  | Datatypes.S fuel =>
      if (size <=? 1)%nat then base
      else
        let half := Nat.div2 size in
        let mid := (base + half)%nat in
        search_loop fuel cmp (size - half) (match cmp mid with Gt => base | _ => mid end)
  end.
Definition binary_search (cmp : nat -> comparison) (size : nat) : nat + nat :=
  match size with
  | O => inr O
  | _ =>
      let base := search_loop size cmp size 0 in
      match cmp base with Eq => inl base | Lt => inr (Datatypes.S base) | Gt => inr base end
  end.
Definition find_bucket_index (val : spec_float) (s : TxConfirmStats) : nat :=
  let last := (length (buckets s) - 1)%nat in
  if negb (is_finite val) then last
  else
    match binary_search (fun i => total_cmp (nth i (buckets s) f64_zero) val) (length (buckets s)) with
    | inl idx => idx
    | inr idx => Nat.min idx last
    end.

(** A remainder by the number of rows. *)
Definition row_of (height : Z) (s : TxConfirmStats) : total nat :=
  if max_confirms s =? 0 then Panic else Ok (Z.to_nat (height mod max_confirms s)).
Definition clear_bucket (block_index : nat) (s : TxConfirmStats) (bucket : nat) : total TxConfirmStats :=
  old ← at_index (old_unconf_txs s) bucket;
  row ← at_index (unconf_txs s) block_index;
  cell ← at_index row bucket;
  old_unconf ← set_at (old_unconf_txs s) bucket (saturating_add_i32 old cell);
  row ← set_at row bucket 0;
  unconf ← set_at (unconf_txs s) block_index row;
  conf ← map_rows (fun row => set_at row bucket 0) (cur_block_conf s);
  tx_ct ← set_at (cur_block_tx_ct s) bucket 0;
  val ← set_at (cur_block_val s) bucket f64_zero;
  Ok (mkStats (buckets s) (tx_ct_avg s) tx_ct (conf_avg s) conf (avg s) val (decay s) unconf old_unconf).
Definition clear_current (block_height : Z) (s : TxConfirmStats) : total TxConfirmStats :=
  match unconf_txs s with
  | [] => Ok s
  | _ =>
      block_index ← row_of block_height s;
      each (clear_bucket block_index) (seq 0 (length (buckets s))) s
  end.

(** Confirmed within [k] blocks, for every [k] from [blocks_to_confirm] on. *)
Definition record (blocks_to_confirm : Z) (val : spec_float) (s : TxConfirmStats) : TxConfirmStats :=
  if blocks_to_confirm <? 1 then s
  else
    let bucket_index := find_bucket_index val s in
    let bump (row : list Z) := alter (fun cell => saturating_add_i32 cell 1) bucket_index row in
    mkStats (buckets s) (tx_ct_avg s) (bump (cur_block_tx_ct s)) (conf_avg s)
      (imap (fun i row => if (blocks_to_confirm <=? Z.of_nat i + 1) && (Z.of_nat i + 1 <=? max_confirms s) then bump row else row)
         (cur_block_conf s))
      (avg s) (alter (fun cell => f64_add cell val) bucket_index (cur_block_val s)) (decay s) (unconf_txs s) (old_unconf_txs s).

Definition set_unconf (unconf : list (list Z)) (old : list Z) (s : TxConfirmStats) : TxConfirmStats :=
  mkStats (buckets s) (tx_ct_avg s) (cur_block_tx_ct s) (conf_avg s) (cur_block_conf s) (avg s) (cur_block_val s) (decay s)
    unconf old.
Definition new_tx (block_height : Z) (val : spec_float) (s : TxConfirmStats) : total (nat * TxConfirmStats) :=
  let bucket_index := find_bucket_index val s in
  match unconf_txs s with
  | [] => Ok (bucket_index, s)
  | _ =>
      block_index ← row_of block_height s;
      Ok (bucket_index,
          set_unconf (alter (alter (fun cell => saturating_add_i32 cell 1) bucket_index) block_index (unconf_txs s))
            (old_unconf_txs s) s)
  end.
Definition remove_tx (entry_height best_seen_height : Z) (bucket_index : nat) (s : TxConfirmStats) : total TxConfirmStats :=
  let blocks_ago := if best_seen_height =? 0 then 0 else best_seen_height - entry_height in
  let decrease := alter (fun cell => saturating_sub_i32 cell 1) bucket_index in
  if blocks_ago <? 0 then Ok s
  else
    let bins := length (unconf_txs s) in
    if (bins =? 0)%nat then Ok s
    else if Z.of_nat bins <=? blocks_ago then Ok (set_unconf (unconf_txs s) (decrease (old_unconf_txs s)) s)
    else
      entry_index ← row_of entry_height s;
      Ok (set_unconf (alter decrease entry_index (unconf_txs s)) (old_unconf_txs s) s).

Definition update_bucket (s : TxConfirmStats) (bucket : nat) : total TxConfirmStats :=
  conf ← each (fun conf i =>
      row ← at_index conf i; old ← at_index row bucket; cur_row ← at_index (cur_block_conf s) i;
      cur ← at_index cur_row bucket;
      row ← set_at row bucket (f64_add (f64_mul old (decay s)) (f64_of_i64 cur));
      set_at conf i row) (seq 0 (length (conf_avg s))) (conf_avg s);
  old_avg ← at_index (avg s) bucket; val ← at_index (cur_block_val s) bucket;
  avg' ← set_at (avg s) bucket (f64_add (f64_mul old_avg (decay s)) val);
  old_ct ← at_index (tx_ct_avg s) bucket; ct ← at_index (cur_block_tx_ct s) bucket;
  tx_ct ← set_at (tx_ct_avg s) bucket (f64_add (f64_mul old_ct (decay s)) (f64_of_i64 ct));
  Ok (mkStats (buckets s) tx_ct (cur_block_tx_ct s) conf (cur_block_conf s) avg' (cur_block_val s) (decay s)
        (unconf_txs s) (old_unconf_txs s)).
Definition update_moving_averages (s : TxConfirmStats) : total TxConfirmStats :=
  each update_bucket (seq 0 (length (buckets s))) s.

(** ** The median of the buckets that confirm in time *)
Record Scan := mkScan {
  sc_n_conf : spec_float; sc_total_num : spec_float; sc_extra_num : Z; sc_cur_near : nat; sc_best_near : nat;
  sc_best_far : nat; sc_found : bool }.
Definition extra_of (block_height : Z) (bucket : nat) (s : TxConfirmStats) (extra : Z) (confct : nat) : total Z :=
  let bins := Z.of_nat (length (unconf_txs s)) in
  if bins =? 0 then Ok extra
  else
    row ← at_index (unconf_txs s) (Z.to_nat (wrap_u32 (block_height - Z.of_nat confct) mod bins));
    cell ← at_index row bucket;
    Ok (saturating_add_i32 extra cell).
Fixpoint each_Z (f : Z -> nat -> total Z) (l : list nat) (a : Z) : total Z :=
  match l with [] => Ok a | i :: l => a ← f a i; each_Z f l a end.
(** The buckets in the order they are visited. *)
Fixpoint scan_loop (conf_target : nat) (sufficient break_point : spec_float) (require_greater : bool) (block_height : Z)
    (s : TxConfirmStats) (visit : list nat) (st : Scan) : total Scan :=
  match visit with
  | [] => Ok st
  | bucket :: visit =>
      row ← at_index (conf_avg s) (conf_target - 1);
      c ← at_index row bucket;
      t ← at_index (tx_ct_avg s) bucket;
      extra ← each_Z (fun extra confct => extra_of block_height bucket s extra confct)
                (seq conf_target (length (conf_avg s) - conf_target)) (sc_extra_num st);
      old ← at_index (old_unconf_txs s) bucket;
      let n_conf := f64_add (sc_n_conf st) c in
      let total_num := f64_add (sc_total_num st) t in
      let extra := saturating_add_i32 extra old in
      if f64_ge total_num (f64_div sufficient (f64_sub f64_one (decay s))) then
        let cur_pct := f64_div n_conf (f64_add total_num (f64_of_i64 extra)) in
        let st := mkScan n_conf total_num extra (sc_cur_near st) (sc_best_near st) (sc_best_far st) (sc_found st) in
        if require_greater && f64_lt cur_pct break_point then Ok st
        else if negb require_greater && f64_lt break_point cur_pct then Ok st
        else
          let next := if require_greater then Z.of_nat bucket - 1 else Z.of_nat bucket + 1 in
          scan_loop conf_target sufficient break_point require_greater block_height s visit
            (mkScan f64_zero f64_zero 0 (if 0 <=? next then Z.to_nat next else sc_cur_near st) (sc_cur_near st) bucket true)
      else
        scan_loop conf_target sufficient break_point require_greater block_height s visit
          (mkScan n_conf total_num extra (sc_cur_near st) (sc_best_near st) (sc_best_far st) (sc_found st))
  end.
Fixpoint sum_loop (s : TxConfirmStats) (l : list nat) (sum : spec_float) : total spec_float :=
  match l with [] => Ok sum | i :: l => t ← at_index (tx_ct_avg s) i; sum_loop s l (f64_add sum t) end.
Fixpoint median_loop (s : TxConfirmStats) (l : list nat) (tx_sum : spec_float) : total spec_float :=
  match l with
  | [] => Ok minus_one
  | i :: l =>
      t ← at_index (tx_ct_avg s) i;
      if f64_lt t tx_sum then median_loop s l (f64_sub tx_sum t)
      else a ← at_index (avg s) i; Ok (f64_div a t)
  end.
Definition estimate_median_val (conf_target : Z) (sufficient break_point : spec_float) (require_greater : bool)
    (block_height : Z) (s : TxConfirmStats) : total spec_float :=
  if (conf_target =? 0) || (Z.of_nat (length (conf_avg s)) <? conf_target) then Ok minus_one
  else
    match buckets s with
    | [] => Ok minus_one
    | _ =>
        let n := length (buckets s) in
        let start := if require_greater then (n - 1)%nat else O in
        let visit := if require_greater then rev (seq 0 n) else seq 0 n in
        st ← scan_loop (Z.to_nat conf_target) sufficient break_point require_greater block_height s visit
               (mkScan f64_zero f64_zero 0 start start start false);
        let lo := Nat.min (sc_best_near st) (sc_best_far st) in
        let hi := Nat.max (sc_best_near st) (sc_best_far st) in
        let range := seq lo (hi - lo + 1) in
        tx_sum ← sum_loop s range f64_zero;
        if negb (sc_found st) || f64_eq tx_sum f64_zero then Ok minus_one
        else median_loop s range (f64_div tx_sum (f64_of_i64 2))
    end.

(** ** The estimator *)
Definition fee_rate_per_kb (fee size : Z) : Z :=
  if fee <=? 0 then 0
  else
    let size := Z.min (Z.max size 1) i64_max in
    Z.quot (saturating_mul_i64 fee 1000) size.

Record FeeEstimator := mkEstimator {
  fe_min_tracked_fee_per_kb : Z; fe_min_tracked_priority : spec_float; fe_best_seen_height : Z;
  fe_fee_stats : TxConfirmStats; fe_pri_stats : TxConfirmStats; fe_mempool_txs : gmap Hash256 TxStatsInfo;
  fe_fee_unlikely : spec_float; fe_fee_likely : spec_float; fe_pri_unlikely : spec_float; fe_pri_likely : spec_float;
  fe_revision : Z }.

(** Boundaries from [boundary] to [max], each [spacing] times the one before; [fuel] bounds their number. *)
Fixpoint boundaries (fuel : nat) (boundary max spacing : spec_float) : list spec_float :=
  match fuel with
  | O => []
  | Datatypes.S fuel =>
      if f64_ge max boundary then boundary :: boundaries fuel (f64_mul boundary spacing) max spacing else []
  end.
Definition BOUNDARY_FUEL : nat := 200.
Definition FeeEstimator_new (min_relay_fee_per_kb : Z) : FeeEstimator :=
  let min_tracked_fee_per_kb := Z.max min_relay_fee_per_kb MIN_FEERATE_PER_KB in
  let fee_buckets := boundaries BOUNDARY_FUEL (f64_of_i64 min_tracked_fee_per_kb) MAX_FEERATE_PER_KB FEE_SPACING in
  let min_tracked_priority := f64_max allow_free_threshold MIN_PRIORITY in
  let priority_buckets := boundaries BOUNDARY_FUEL min_tracked_priority MAX_PRIORITY PRIORITY_SPACING in
  mkEstimator min_tracked_fee_per_kb min_tracked_priority 0 (initialize fee_buckets MAX_BLOCK_CONFIRMS DEFAULT_DECAY)
    (initialize priority_buckets MAX_BLOCK_CONFIRMS DEFAULT_DECAY) ∅ f64_zero INF_FEERATE_PER_KB f64_zero INF_PRIORITY 0.

Definition set_tracked (fee_stats pri_stats : TxConfirmStats) (txs : gmap Hash256 TxStatsInfo) (e : FeeEstimator) : FeeEstimator :=
  mkEstimator (fe_min_tracked_fee_per_kb e) (fe_min_tracked_priority e) (fe_best_seen_height e) fee_stats pri_stats txs
    (fe_fee_unlikely e) (fe_fee_likely e) (fe_pri_unlikely e) (fe_pri_likely e) (fe_revision e).
Definition is_fee_data_point (fee_rate : Z) (priority : spec_float) (e : FeeEstimator) : bool :=
  let fee_rate := f64_of_i64 fee_rate in
  (f64_lt priority (fe_min_tracked_priority e) && f64_ge fee_rate (f64_of_i64 (fe_min_tracked_fee_per_kb e)))
  || (f64_lt priority (fe_pri_unlikely e) && f64_lt (fe_fee_likely e) fee_rate).
Definition is_priority_data_point (fee_rate : Z) (priority : spec_float) (e : FeeEstimator) : bool :=
  let fee_rate := f64_of_i64 fee_rate in
  (f64_lt fee_rate (f64_of_i64 (fe_min_tracked_fee_per_kb e)) && f64_ge priority (fe_min_tracked_priority e))
  || (f64_lt fee_rate (fe_fee_unlikely e) && f64_lt (fe_pri_likely e) priority).

Definition process_transaction (tx : MempoolTxInfo) (current_estimate : bool) (e : FeeEstimator) : total FeeEstimator :=
  if bool_decide (is_Some (fe_mempool_txs e !! ti_txid tx)) then Ok e
  else if ti_height tx <? fe_best_seen_height e then Ok e
  else if negb current_estimate then Ok e
  else if negb (ti_was_clear_at_entry tx) then Ok e
  else
    let fee_rate := fee_rate_per_kb (ti_fee tx) (ti_size tx) in
    let priority := ti_starting_priority tx in
    if (ti_fee tx =? 0) || is_priority_data_point fee_rate priority e then
      r ← new_tx (ti_height tx) priority (fe_pri_stats e);
      let '(bucket_index, pri_stats) := r in
      Ok (set_tracked (fe_fee_stats e) pri_stats
            (<[ti_txid tx := mkTxStats Priority (ti_height tx) bucket_index]> (fe_mempool_txs e)) e)
    else if is_fee_data_point fee_rate priority e then
      r ← new_tx (ti_height tx) (f64_of_i64 fee_rate) (fe_fee_stats e);
      let '(bucket_index, fee_stats) := r in
      Ok (set_tracked fee_stats (fe_pri_stats e)
            (<[ti_txid tx := mkTxStats Fee (ti_height tx) bucket_index]> (fe_mempool_txs e)) e)
    else Ok e.
Definition remove_transaction (txid : Hash256) (e : FeeEstimator) : total FeeEstimator :=
  match fe_mempool_txs e !! txid with
  | None => Ok e
  | Some info =>
      let txs := delete txid (fe_mempool_txs e) in
      match ts_stats info with
      | Fee =>
          s ← remove_tx (ts_block_height info) (fe_best_seen_height e) (ts_bucket_index info) (fe_fee_stats e);
          Ok (set_tracked s (fe_pri_stats e) txs e)
      | Priority =>
          s ← remove_tx (ts_block_height info) (fe_best_seen_height e) (ts_bucket_index info) (fe_pri_stats e);
          Ok (set_tracked (fe_fee_stats e) s txs e)
      end
  end.

Definition process_block_tx (block_height : Z) (e : FeeEstimator) (entry : BlockTxInfo) : FeeEstimator :=
  if negb (bt_was_clear_at_entry entry) then e
  else
    let blocks_to_confirm := block_height - bt_height entry in
    if blocks_to_confirm <=? 0 then e
    else
      let fee_rate := fee_rate_per_kb (bt_fee entry) (bt_size entry) in
      if (bt_fee entry =? 0) || is_priority_data_point fee_rate (bt_priority entry) e then
        set_tracked (fe_fee_stats e) (record blocks_to_confirm (bt_priority entry) (fe_pri_stats e)) (fe_mempool_txs e) e
      else if is_fee_data_point fee_rate (bt_priority entry) e then
        set_tracked (record blocks_to_confirm (f64_of_i64 fee_rate) (fe_fee_stats e)) (fe_pri_stats e) (fe_mempool_txs e) e
      else e.
(** The limits between what fees and what priorities explain. *)
Definition likely_of (median infinite : spec_float) : spec_float := if f64_lt median f64_zero then infinite else median.
Definition process_block (block_height : Z) (entries : list BlockTxInfo) (current_estimate : bool) (e : FeeEstimator)
    : total FeeEstimator :=
  if block_height <=? fe_best_seen_height e then Ok e
  else
    let seen :=
      mkEstimator (fe_min_tracked_fee_per_kb e) (fe_min_tracked_priority e) block_height (fe_fee_stats e) (fe_pri_stats e)
        (fe_mempool_txs e) (fe_fee_unlikely e) (fe_fee_likely e) (fe_pri_unlikely e) (fe_pri_likely e) (fe_revision e) in
    if negb current_estimate then Ok seen
    else
      pri_likely ← estimate_median_val 2 SUFFICIENT_PRITXS MIN_SUCCESS_PCT true block_height (fe_pri_stats e);
      let pri_likely := f64_max pri_likely f64_zero in
      let pri_likely := if f64_eq pri_likely f64_zero then INF_PRIORITY else pri_likely in
      fee_likely ← estimate_median_val 2 SUFFICIENT_FEETXS MIN_SUCCESS_PCT true block_height (fe_fee_stats e);
      pri_unlikely ← estimate_median_val 10 SUFFICIENT_PRITXS UNLIKELY_PCT false block_height (fe_pri_stats e);
      fee_unlikely ← estimate_median_val 10 SUFFICIENT_FEETXS UNLIKELY_PCT false block_height (fe_fee_stats e);
      fee_stats ← clear_current block_height (fe_fee_stats e);
      pri_stats ← clear_current block_height (fe_pri_stats e);
      let e :=
        mkEstimator (fe_min_tracked_fee_per_kb e) (fe_min_tracked_priority e) block_height fee_stats pri_stats (fe_mempool_txs e)
          (likely_of fee_unlikely f64_zero) (likely_of fee_likely INF_FEERATE_PER_KB) (f64_max pri_unlikely f64_zero)
          pri_likely (fe_revision e) in
      let e := foldl (process_block_tx block_height) e entries in
      fee_stats ← update_moving_averages (fe_fee_stats e);
      pri_stats ← update_moving_averages (fe_pri_stats e);
      Ok (mkEstimator (fe_min_tracked_fee_per_kb e) (fe_min_tracked_priority e) (fe_best_seen_height e) fee_stats pri_stats
            (fe_mempool_txs e) (fe_fee_unlikely e) (fe_fee_likely e) (fe_pri_unlikely e) (fe_pri_likely e)
            (Z.min (fe_revision e + 1) u64_max)).

Definition estimate_fee_per_kb (target_blocks : Z) (e : FeeEstimator) : total (option Z) :=
  if (target_blocks <? 1) || (max_confirms (fe_fee_stats e) <? target_blocks) then Ok None
  else
    median ← estimate_median_val target_blocks SUFFICIENT_FEETXS MIN_SUCCESS_PCT true (fe_best_seen_height e) (fe_fee_stats e);
    if f64_ge f64_zero median || negb (is_finite median) then Ok None
    else Ok (Some (i64_of_f64 (f64_min median (f64_of_i64 i64_max)))).
Definition estimate_priority (target_blocks : Z) (e : FeeEstimator) : total (option spec_float) :=
  if (target_blocks <? 1) || (max_confirms (fe_pri_stats e) <? target_blocks) then Ok None
  else
    estimate ← estimate_median_val target_blocks SUFFICIENT_PRITXS MIN_SUCCESS_PCT true (fe_best_seen_height e) (fe_pri_stats e);
    if f64_lt estimate f64_zero || negb (is_finite estimate) then Ok None else Ok (Some estimate).

(** ** The file *)
Inductive FileError := InvalidFile (error : DecodeError) | FileText (message : string) | FeeStats (error : FileError) | PriorityStats (error : FileError).
Definition write_f64 (value : spec_float) : bytes := write_u64_le (to_bits value).
Definition read_f64 : parser FileError spec_float := raw ← lift InvalidFile read_u64_le; mret (from_bits raw).
Definition write_vec_f64 (values : list spec_float) : bytes :=
  write_varint (Z.of_nat (length values)) ++ write_list write_f64 values.
Definition read_vec_f64 : parser FileError (list spec_float) := count ← lift InvalidFile read_count; read_n count read_f64.
Definition write_vec_vec_f64 (values : list (list spec_float)) : bytes :=
  write_varint (Z.of_nat (length values)) ++ write_list write_vec_f64 values.
Definition read_vec_vec_f64 : parser FileError (list (list spec_float)) :=
  count ← lift InvalidFile read_count; read_n count read_vec_f64.
Definition stats_encode (s : TxConfirmStats) : bytes :=
  write_f64 (decay s) ++ write_vec_f64 (buckets s) ++ write_vec_f64 (avg s) ++ write_vec_f64 (tx_ct_avg s)
  ++ write_vec_vec_f64 (conf_avg s).
Definition corrupt {A} (message : string) : parser FileError A := fail (FileText message).
Definition unless (bad : bool) (message : string) : parser FileError unit := if bad then corrupt message else mret tt.
(** [(0.0..1.0).contains(&decay)]. *)
Definition decay_in_range (decay : spec_float) : bool := f64_ge decay f64_zero && f64_lt decay f64_one.
Definition stats_decode : parser FileError TxConfirmStats :=
  decay ← read_f64;
  _ ← unless (negb (decay_in_range decay)) "corrupt fee estimates file: decay must be between 0 and 1";
  buckets ← read_vec_f64;
  let n := length buckets in
  _ ← unless ((n <=? 1)%nat || (Z.of_nat n >? 1000)) "corrupt fee estimates file: invalid bucket count";
  avg ← read_vec_f64;
  _ ← unless (negb (length avg =? n)%nat) "corrupt fee estimates file: mismatch in average bucket count";
  tx_ct_avg ← read_vec_f64;
  _ ← unless (negb (length tx_ct_avg =? n)%nat) "corrupt fee estimates file: mismatch in tx count bucket count";
  conf_avg ← read_vec_vec_f64;
  let m := length conf_avg in
  _ ← unless ((m =? 0)%nat || (Z.of_nat m >? 6 * 24 * 7)) "corrupt fee estimates file: invalid max confirms";
  _ ← unless (negb (m =? MAX_BLOCK_CONFIRMS)%nat) "corrupt fee estimates file: unsupported max confirms";
  _ ← unless (existsb (fun row => negb (length row =? n)%nat) conf_avg) "corrupt fee estimates file: mismatch in conf average bucket count";
  mret (stats_of buckets tx_ct_avg conf_avg avg decay m).
Definition estimator_save (e : FeeEstimator) : bytes :=
  write_u32_le FEE_ESTIMATES_FILE_VERSION ++ write_u32_le (fe_best_seen_height e) ++ stats_encode (fe_fee_stats e)
  ++ stats_encode (fe_pri_stats e).
Definition file_end : parser FileError unit := fun d =>
  if is_empty d then Ok (tt, d) else Err (FileText "invalid fee estimates file: trailing bytes").
Definition read_estimator : parser FileError (Z * TxConfirmStats * TxConfirmStats) :=
  version ← lift InvalidFile read_u32_le;
  _ ← unless (negb (version =? FEE_ESTIMATES_FILE_VERSION)) "unsupported fee estimates file version";
  best_seen_height ← lift InvalidFile read_u32_le;
  fee_stats ← lift FeeStats stats_decode;
  pri_stats ← lift PriorityStats stats_decode;
  _ ← file_end;
  mret (best_seen_height, fee_stats, pri_stats).
(** [None] is a file that does not exist. *)
Definition estimator_load (file : option bytes) (min_relay_fee_per_kb : Z) : result FileError FeeEstimator :=
  match file with
  | None => Ok (FeeEstimator_new min_relay_fee_per_kb)
  | Some bs =>
      match read_estimator (new_decoder bs) with
      | Ok ((height, fee_stats, pri_stats), _) =>
          let e := FeeEstimator_new min_relay_fee_per_kb in
          Ok (mkEstimator (fe_min_tracked_fee_per_kb e) (fe_min_tracked_priority e) height fee_stats pri_stats
                (fe_mempool_txs e) (fe_fee_unlikely e) (fe_fee_likely e) (fe_pri_unlikely e) (fe_pri_likely e) (fe_revision e))
      | Err e => Err e
      | Panic => Panic
      end
  end.
