(* ===== verification/FeeHistory.v ===== *)
(** * The fee estimator over its history

    Whatever file it starts from and whatever it is told, the estimator never
    reaches outside its tables; and the unconfirmed transactions it counts in
    a bucket are those it tracks there. *)

From S2P Require Import Prelude Consensus Rewards Float64 Encoding FeeEstimator.
From Stdlib Require Import ZArith Lia Floats.SpecFloat.
From stdpp Require Import base list option numbers strings gmap.
#[local] Open Scope Z_scope.
#[local] Notation total := (result Never).

(** ** Loops that do not abort *)
Definition succeeds {A} (m : total A) (P : A -> Prop) : Prop := exists a, m = Ok a /\ P a.
Lemma succeeds_bind {A B} (m : total A) (f : A -> total B) P Q :
  succeeds m P -> (forall a, P a -> succeeds (f a) Q) -> succeeds (m ≫= f) Q.
Proof. intros (a&->&Ha) Hf. by apply Hf. Qed.
Lemma succeeds_ok {A} (a : A) (P : A -> Prop) : P a -> succeeds (Ok a) P.
Proof. by exists a. Qed.
Lemma succeeds_at {A} (l : list A) i (P : A -> Prop) :
  (i < length l)%nat -> (forall a, l !! i = Some a -> P a) -> succeeds (at_index l i) P.
Proof. intros Hi HP. apply lookup_lt_is_Some_2 in Hi as [a Ha]. exists a. unfold at_index, index. rewrite Ha. auto. Qed.
Lemma succeeds_set {A} (l : list A) i a (P : list A -> Prop) :
  (i < length l)%nat -> P (<[i := a]> l) -> succeeds (set_at l i a) P.
Proof. intros Hi HP. exists (<[i := a]> l). unfold set_at. by apply Nat.ltb_lt in Hi as ->. Qed.
Lemma succeeds_each {A} (f : A -> nat -> total A) (I : A -> Prop) l a :
  (forall i a, i ∈ l -> I a -> succeeds (f a i) I) -> I a -> succeeds (each f l a) I.
Proof.
  revert a. induction l as [|i l IH]; intros a Hf Ha; cbn [each]; [by exists a|].
  eapply succeeds_bind; [apply Hf; [apply list_elem_of_here|done]|]. intros a' Ha'. apply IH; [|done].
  intros j b Hj. apply Hf. by apply list_elem_of_further.
Qed.
Lemma succeeds_each_Z (f : Z -> nat -> total Z) l a :
  (forall i a, i ∈ l -> succeeds (f a i) (fun _ => True)) -> succeeds (each_Z f l a) (fun _ => True).
Proof.
  revert a. induction l as [|i l IH]; intros a Hf; cbn [each_Z]; [by exists a|].
  eapply succeeds_bind; [apply Hf, list_elem_of_here|]. intros a' _. apply IH. intros j b Hj. apply Hf. by apply list_elem_of_further.
Qed.
Lemma succeeds_rows {A} (f : A -> total A) (R : A -> Prop) l :
  (forall a, R a -> succeeds (f a) R) -> Forall R l -> succeeds (map_rows f l) (fun l' => length l' = length l /\ Forall R l').
Proof.
  intros Hf. induction 1 as [|a l Ha _ IH]; cbn [map_rows]; [by exists []|].
  eapply succeeds_bind; [by apply Hf|]. intros a' Ha'. eapply succeeds_bind; [exact IH|]. intros l' [Hl HR].
  apply succeeds_ok. split; [simpl; by f_equal|by constructor].
Qed.
Lemma succeeds_weaken {A} (m : total A) (P Q : A -> Prop) : succeeds m P -> (forall a, P a -> Q a) -> succeeds m Q.
Proof. intros (a&->&Ha) HPQ. exists a. auto. Qed.

(** ** Tables of [m] rows of [n] cells *)
Definition table {A} (m n : nat) (rows : list (list A)) : Prop := length rows = m /\ Forall (fun row => length row = n) rows.
Lemma table_row {A} m n (rows : list (list A)) i row : table m n rows -> rows !! i = Some row -> length row = n.
Proof. intros [_ Hr] Hi. by eapply Forall_lookup_1 in Hr. Qed.
Lemma table_insert {A} m n (rows : list (list A)) i row : table m n rows -> length row = n -> table m n (<[i := row]> rows).
Proof. intros [Hl Hr] Hn. split; [by rewrite length_insert|by apply Forall_insert]. Qed.
Lemma table_alter {A} m n (rows : list (list A)) i (f : list A -> list A) :
  table m n rows -> (forall row, length (f row) = length row) -> table m n (alter f i rows).
Proof.
  intros [Hl Hr] Hf. split; [by rewrite length_alter|]. apply Forall_alter; [done|]. intros row _ Hrow. by rewrite Hf.
Qed.
Lemma table_replicate {A} m n (a : A) : table m n (replicate m (replicate n a)).
Proof. split; [apply length_replicate|]. apply Forall_replicate, length_replicate. Qed.

Record stats_wf (m n : nat) (s : TxConfirmStats) : Prop := {
  wf_m : (0 < m)%nat /\ Z.of_nat m <= u32_max; wf_n : (0 < n)%nat;
  wf_buckets : length (buckets s) = n; wf_tx_ct : length (tx_ct_avg s) = n; wf_cur_ct : length (cur_block_tx_ct s) = n;
  wf_avg : length (avg s) = n; wf_val : length (cur_block_val s) = n; wf_old : length (old_unconf_txs s) = n;
  wf_conf : table m n (conf_avg s); wf_cur_conf : table m n (cur_block_conf s); wf_unconf : table m n (unconf_txs s) }.

Lemma stats_wf_of bs ct conf av d m :
  (0 < m)%nat /\ Z.of_nat m <= u32_max -> (0 < length bs)%nat -> length ct = length bs -> length av = length bs ->
  table m (length bs) conf -> stats_wf m (length bs) (stats_of bs ct conf av d m).
Proof.
  intros Hm Hn Hc Ha Ht. split; cbn; try done; try apply length_replicate; try apply table_replicate.
Qed.
Lemma initialize_wf bs m d :
  Z.of_nat m <= u32_max -> stats_wf (Nat.max m 1) (length bs + 1) (initialize bs m d).
Proof.
  intros Hm. unfold initialize. replace (length bs + 1)%nat with (length (bs ++ [f64_infinity])) by (rewrite length_app; simpl; lia).
  apply stats_wf_of; rewrite ?length_replicate, ?length_app; simpl; try lia; try done.
  - unfold u32_max in *. lia.
  - apply table_replicate.
Qed.

Section stats.
  Context (m n : nat).

Lemma max_confirms_eq s : stats_wf m n s -> max_confirms s = Z.of_nat m.
Proof. intros Hs. unfold max_confirms. destruct (wf_conf m n s Hs) as [-> _]. destruct (wf_m m n s Hs). lia. Qed.
Lemma row_of_Ok height s : stats_wf m n s -> exists r, row_of height s = Ok r /\ (r < m)%nat.
Proof.
  intros Hs. unfold row_of. rewrite (max_confirms_eq s Hs). destruct (wf_m m n s Hs). destruct (_ =? 0) eqn:E; [lia|].
  eexists. split; [reflexivity|]. pose proof (Z.mod_pos_bound height (Z.of_nat m)). lia.
Qed.

Lemma search_loop_bound fuel cmp size base N :
  (base + size <= N)%nat -> (0 < size)%nat -> (search_loop fuel cmp size base < N)%nat.
Proof.
  revert size base. induction fuel as [|fuel IH]; intros size base Hb Hs; cbn [search_loop]; [lia|].
  destruct (size <=? 1)%nat eqn:E; [lia|]. apply Nat.leb_gt in E.
  assert (0 < Nat.div2 size < size)%nat as Hh.
  { rewrite Nat.div2_div. split; [apply Nat.div_str_pos; lia|apply Nat.div_lt; lia]. }
  apply IH; [|lia]. destruct (cmp _); lia.
Qed.
Lemma find_bucket_bound val s : stats_wf m n s -> (find_bucket_index val s < n)%nat.
Proof.
  intros Hs. unfold find_bucket_index. cbv zeta. rewrite (wf_buckets m n s Hs). pose proof (wf_n m n s Hs) as Hn.
  destruct (negb (is_finite val)); [lia|]. unfold binary_search. destruct n as [|n']; [lia|].
  set (cmp := fun i => _). set (base := search_loop _ _ _ _).
  assert (base < Datatypes.S n')%nat as Hb by (apply search_loop_bound; lia).
  clearbody base. destruct (total_cmp _ _); cbv beta iota; lia.
Qed.

(** ** The operations keep the shape *)
Lemma clear_bucket_wf r s b :
  stats_wf m n s -> (r < m)%nat -> (b < n)%nat ->
  succeeds (clear_bucket r s b) (fun s' => stats_wf m n s'
    /\ exists row old, unconf_txs s !! r = Some row /\ old_unconf_txs s !! b = Some old
         /\ unconf_txs s' = <[r := <[b := 0]> row]> (unconf_txs s)
         /\ old_unconf_txs s' = <[b := saturating_add_i32 old (default 0 (row !! b))]> (old_unconf_txs s)).
Proof.
  intros Hs Hr Hb. destruct Hs as [Hm Hn H1 H2 H3 H4 H5 H6 H7 H8 H9]. unfold clear_bucket.
  eapply succeeds_bind; [apply (succeeds_at _ _ (fun old => old_unconf_txs s !! b = Some old)); [lia|done]|]. intros old Hold.
  eapply succeeds_bind; [apply (succeeds_at _ _ (fun row => unconf_txs s !! r = Some row)); [destruct H9; lia|done]|]. intros row Hrow.
  pose proof (table_row _ _ _ _ _ H9 Hrow) as Hlen.
  eapply succeeds_bind; [apply (succeeds_at _ _ (fun c => row !! b = Some c)); [lia|done]|]. intros c Hc.
  eapply succeeds_bind; [apply (succeeds_set _ _ _ (fun l => l = <[b := saturating_add_i32 old c]> (old_unconf_txs s))); [lia|done]|]. intros old' ->.
  eapply succeeds_bind; [apply (succeeds_set _ _ _ (fun l => l = <[b := 0]> row)); [lia|done]|]. intros row' ->.
  eapply succeeds_bind; [apply (succeeds_set _ _ _ (fun l => l = <[r := <[b := 0]> row]> (unconf_txs s))); [destruct H9; lia|done]|]. intros un ->.
  eapply succeeds_bind.
  { apply (succeeds_rows _ (fun row : list Z => length row = n)); [|apply H8].
    intros a Ha. apply succeeds_set; [lia|by rewrite length_insert]. }
  intros conf [Hcl Hcf].
  eapply succeeds_bind; [apply (succeeds_set _ _ _ (fun l => length l = n)); [lia|by rewrite length_insert]|]. cbv beta. intros ct Hct.
  eapply succeeds_bind; [apply (succeeds_set _ _ _ (fun l => length l = n)); [lia|by rewrite length_insert]|]. cbv beta. intros val Hval.
  apply succeeds_ok. split.
  - split; cbn; try done; [by rewrite length_insert|split; [destruct H8; lia|done]|].
    apply table_insert; [done|by rewrite length_insert].
  - exists row, old. rewrite Hc. done.
Qed.

(** Clearing moves the cells of one row to the old ones. *)
Lemma clear_current_wf height s (I : TxConfirmStats -> Prop) :
  stats_wf m n s -> I s ->
  (forall r b s s', stats_wf m n s -> I s -> (r < m)%nat -> (b < n)%nat -> clear_bucket r s b = Ok s' -> I s') ->
  succeeds (clear_current height s) (fun s' => stats_wf m n s' /\ I s').
Proof.
  intros Hs Hi Hstep. unfold clear_current. destruct (unconf_txs s) as [|row rows]; [by apply succeeds_ok|].
  destruct (row_of_Ok height s Hs) as (r&->&Hr). cbn [mbind result_bind]. rewrite (wf_buckets m n s Hs).
  apply (succeeds_each _ (fun s' => stats_wf m n s' /\ I s')); [|done].
  intros b s1 Hb [Hs1 Hi1]. apply elem_of_seq in Hb. destruct (clear_bucket_wf r s1 b Hs1 Hr ltac:(lia)) as (s2&E&Hs2&_).
  exists s2. split; [done|]. split; [done|]. eapply (Hstep r b s1); try done. lia.
Qed.
Lemma update_bucket_wf s b :
  stats_wf m n s -> (b < n)%nat ->
  succeeds (update_bucket s b) (fun s' => stats_wf m n s' /\ unconf_txs s' = unconf_txs s /\ old_unconf_txs s' = old_unconf_txs s).
Proof.
  intros [Hm Hn H1 H2 H3 H4 H5 H6 H7 H8 H9] Hb. unfold update_bucket.
  eapply succeeds_bind.
  { apply (succeeds_each _ (fun conf => table m n conf)); [|exact H7]. intros i conf Hi Ht. apply elem_of_seq in Hi.
    assert (i < m)%nat as Him by (destruct H7; lia).
    eapply succeeds_bind; [apply (succeeds_at _ _ (fun row => length row = n)); [destruct Ht; lia|intros; eapply table_row; [exact Ht|done]]|].
    cbv beta. intros row Hrow. eapply succeeds_bind; [apply (succeeds_at _ _ (fun _ => True)); [lia|done]|]. intros old _.
    eapply succeeds_bind; [apply (succeeds_at _ _ (fun row => length row = n)); [destruct H8; lia|intros; eapply table_row; [exact H8|done]]|].
    cbv beta. intros cur_row Hcur. eapply succeeds_bind; [apply (succeeds_at _ _ (fun _ => True)); [lia|done]|]. intros cur _.
    eapply succeeds_bind; [apply (succeeds_set _ _ _ (fun l => length l = n)); [lia|by rewrite length_insert]|]. cbv beta. intros row' Hrow'.
    apply succeeds_set; [destruct Ht; lia|]. by apply table_insert. }
  intros conf Hconf.
  do 2 (eapply succeeds_bind; [apply (succeeds_at _ _ (fun _ => True)); [lia|done]|]; intros ? _).
  eapply succeeds_bind; [apply (succeeds_set _ _ _ (fun l => length l = n)); [lia|by rewrite length_insert]|]. cbv beta. intros av Hav.
  do 2 (eapply succeeds_bind; [apply (succeeds_at _ _ (fun _ => True)); [lia|done]|]; intros ? _).
  eapply succeeds_bind; [apply (succeeds_set _ _ _ (fun l => length l = n)); [lia|by rewrite length_insert]|]. cbv beta. intros ct Hct.
  apply succeeds_ok. split; [by split|done].
Qed.
Lemma update_averages_wf s :
  stats_wf m n s ->
  succeeds (update_moving_averages s) (fun s' => stats_wf m n s' /\ unconf_txs s' = unconf_txs s /\ old_unconf_txs s' = old_unconf_txs s).
Proof.
  intros Hs. unfold update_moving_averages. rewrite (wf_buckets m n s Hs).
  apply (succeeds_each _ (fun s' => stats_wf m n s' /\ unconf_txs s' = unconf_txs s /\ old_unconf_txs s' = old_unconf_txs s)); [|done].
  intros b s1 Hb (Hs1&Hu&Ho). apply elem_of_seq in Hb. eapply succeeds_weaken; [apply update_bucket_wf; [done|lia]|].
  intros s2 (Hs2&->&->). done.
Qed.
Lemma record_wf k val s :
  stats_wf m n s -> stats_wf m n (record k val s) /\ unconf_txs (record k val s) = unconf_txs s
    /\ old_unconf_txs (record k val s) = old_unconf_txs s.
Proof.
  intros Hs. unfold record. destruct (k <? 1); [done|]. cbv zeta. split; [|done].
  destruct Hs as [Hm Hn H1 H2 H3 H4 H5 H6 H7 [H8l H8] H9].
  split; cbn; try done; rewrite ?length_alter; try done. split; [by rewrite length_imap|].
  apply Forall_lookup_2. intros i row Hi. rewrite list_lookup_imap in Hi.
  destruct (cur_block_conf s !! i) as [row0|] eqn:E; [|done]. injection Hi as <-. eapply Forall_lookup_1 in H8; [|exact E].
  destruct (_ && _); [by rewrite length_alter|done].
Qed.
Lemma set_unconf_wf s un old : stats_wf m n s -> table m n un -> length old = n -> stats_wf m n (set_unconf un old s).
Proof. intros [] Hu Ho. by split. Qed.
Lemma new_tx_wf height val s :
  stats_wf m n s ->
  succeeds (new_tx height val s) (fun r => stats_wf m n r.2 /\ (r.1 < n)%nat
    /\ exists i, (i < m)%nat /\ unconf_txs r.2 = alter (alter (fun cell => saturating_add_i32 cell 1) r.1) i (unconf_txs s)
         /\ old_unconf_txs r.2 = old_unconf_txs s).
Proof.
  intros Hs. unfold new_tx. pose proof (find_bucket_bound val s Hs) as Hb. destruct (wf_m m n s Hs) as [Hm _].
  destruct (unconf_txs s) as [|row rows] eqn:Eu.
  { destruct (wf_unconf m n s Hs) as [Hl _]. rewrite Eu in Hl. simpl in Hl. lia. }
  destruct (row_of_Ok height s Hs) as (r&->&Hr). cbn [mbind result_bind]. rewrite <- Eu. apply succeeds_ok. cbn [fst snd].
  split_and!; [|done|by exists r]. apply set_unconf_wf; [done| |apply Hs].
  apply table_alter; [apply Hs|]. intros x. apply length_alter.
Qed.
Lemma remove_tx_wf height best b s :
  stats_wf m n s -> (b < n)%nat ->
  succeeds (remove_tx height best b s) (fun s' => stats_wf m n s'
    /\ ((best <> 0 /\ best < height /\ s' = s)
        \/ (unconf_txs s' = unconf_txs s /\ old_unconf_txs s' = alter (fun cell => saturating_sub_i32 cell 1) b (old_unconf_txs s))
        \/ exists i, (i < m)%nat /\ unconf_txs s' = alter (alter (fun cell => saturating_sub_i32 cell 1) b) i (unconf_txs s)
             /\ old_unconf_txs s' = old_unconf_txs s)).
Proof.
  intros Hs Hb. unfold remove_tx. cbv zeta. destruct (wf_m m n s Hs) as [Hm _]. destruct (wf_unconf m n s Hs) as [Hl _].
  destruct (_ <? 0) eqn:E0.
  { apply succeeds_ok. split; [done|]. left. destruct (best =? 0) eqn:Eb; [lia|]. split_and!; [lia|lia|done]. }
  destruct (length (unconf_txs s) =? 0)%nat eqn:E1; [apply Nat.eqb_eq in E1; lia|].
  destruct (_ <=? _).
  { apply succeeds_ok. split; [|by right; left]. apply set_unconf_wf; [done|apply Hs|]. rewrite length_alter. apply Hs. }
  destruct (row_of_Ok height s Hs) as (r&->&Hr). cbn [mbind result_bind]. apply succeeds_ok. split; [|by right; right; exists r].
  apply set_unconf_wf; [done| |apply Hs]. apply table_alter; [apply Hs|]. intros x. apply length_alter.
Qed.

(** ** The estimates *)
Definition scan_ok (st : Scan) : Prop := (sc_best_near st < n)%nat /\ (sc_best_far st < n)%nat.
Lemma extra_of_Ok height b s extra k : stats_wf m n s -> (b < n)%nat -> succeeds (extra_of height b s extra k) (fun _ => True).
Proof.
  intros Hs Hb. unfold extra_of. destruct (wf_unconf m n s Hs) as [Hl Hr]. destruct (wf_m m n s Hs) as [Hm _]. rewrite Hl.
  destruct (_ =? 0) eqn:E; [by apply succeeds_ok|].
  pose proof (Z.mod_pos_bound (wrap_u32 (height - Z.of_nat k)) (Z.of_nat m) ltac:(lia)) as Hmod.
  eapply succeeds_bind; [apply (succeeds_at _ _ (fun row => length row = n)); [lia|intros row Hrow; eapply table_row; [apply (wf_unconf m n s Hs)|done]]|].
  cbv beta. intros row Hrow. eapply succeeds_bind; [apply (succeeds_at _ _ (fun _ => True)); [lia|done]|]. intros c _. by apply succeeds_ok.
Qed.
(** Buckets that can be visited one after the other. *)
Fixpoint visitable (greater : bool) (visit : list nat) : Prop :=
  match visit with
  | [] => True
  | b :: visit => (b < n)%nat /\ (visit = [] \/ greater = true \/ (b + 1 < n)%nat) /\ visitable greater visit
  end.
Lemma visitable_up k l : (k + l <= n)%nat -> visitable false (seq k l).
Proof.
  revert k. induction l as [|l IH]; intros k Hk; cbn; [done|]. split_and!; [lia| |apply IH; lia].
  destruct l; [by left|right; right; lia].
Qed.
Lemma visitable_down l : Forall (fun b => b < n)%nat l -> visitable true l.
Proof. induction 1; cbn; [done|]. split_and!; auto. Qed.
Lemma scan_loop_Ok target suff brk greater height s visit st :
  stats_wf m n s -> (0 < target <= m)%nat -> visitable greater visit -> scan_ok st ->
  (sc_cur_near st < n)%nat \/ visit = [] ->
  succeeds (scan_loop target suff brk greater height s visit st) scan_ok.
Proof.
  intros Hs Ht. revert st. induction visit as [|b visit IH]; intros st Hv Hst Hcur; cbn [scan_loop]; [by apply succeeds_ok|].
  destruct Hv as (Hb&Hnext&Hv). destruct (wf_conf m n s Hs) as [Hcl _].
  eapply succeeds_bind; [apply (succeeds_at _ _ (fun row => length row = n)); [lia|intros row Hrow; eapply table_row; [apply (wf_conf m n s Hs)|done]]|].
  cbv beta. intros row Hrow. eapply succeeds_bind; [apply (succeeds_at _ _ (fun _ => True)); [lia|done]|]. intros c _.
  eapply succeeds_bind; [apply (succeeds_at _ _ (fun _ => True)); [rewrite (wf_tx_ct m n s Hs); lia|done]|]. intros t _.
  eapply succeeds_bind; [apply succeeds_each_Z; intros k a _; by apply extra_of_Ok|]. intros extra _.
  eapply succeeds_bind; [apply (succeeds_at _ _ (fun _ => True)); [rewrite (wf_old m n s Hs); lia|done]|]. intros old _.
  cbv zeta. destruct Hcur as [Hcur|]; [|done]. destruct (f64_ge _ _).
  - destruct (greater && _); [by apply succeeds_ok|]. destruct (negb greater && _); [by apply succeeds_ok|].
    apply IH; [done|by split|]. cbn [sc_cur_near].
    destruct Hnext as [->|[->|Hn]]; [by right| |]; left; [|destruct greater];
      match goal with |- context [0 <=? ?x] => destruct (0 <=? x) eqn:E end; lia.
  - apply IH; [done|exact Hst|by left].
Qed.
Lemma loops_Ok s range x :
  stats_wf m n s -> Forall (fun b => b < n)%nat range ->
  succeeds (sum_loop s range x) (fun _ => True) /\ succeeds (median_loop s range x) (fun _ => True).
Proof.
  intros Hs Hr. revert x. induction Hr as [|b range Hb _ IH]; intros x; cbn [sum_loop median_loop].
  { split; by apply succeeds_ok. }
  split; (eapply succeeds_bind; [apply (succeeds_at _ _ (fun _ => True)); [rewrite (wf_tx_ct m n s Hs); lia|done]|]); intros t _.
  - apply IH.
  - destruct (f64_lt t x); [apply IH|].
    eapply succeeds_bind; [apply (succeeds_at _ _ (fun _ => True)); [rewrite (wf_avg m n s Hs); lia|done]|]. intros a _. by apply succeeds_ok.
Qed.
Lemma estimate_median_Ok target suff brk greater height s :
  stats_wf m n s -> 0 <= target -> succeeds (estimate_median_val target suff brk greater height s) (fun _ => True).
Proof.
  intros Hs Ht. unfold estimate_median_val. destruct (wf_conf m n s Hs) as [Hcl _]. rewrite Hcl.
  destruct (_ || _) eqn:E; [by apply succeeds_ok|]. apply orb_false_iff in E as [E1 E2].
  destruct (buckets s) as [|b0 bs] eqn:Eb; [by apply succeeds_ok|]. rewrite <- Eb, (wf_buckets m n s Hs). cbv zeta.
  pose proof (wf_n m n s Hs) as Hn.
  eapply succeeds_bind.
  { apply scan_loop_Ok; [done|lia| | |].
    - destruct greater; [|by apply visitable_up]. apply visitable_down. apply Forall_rev, Forall_forall.
      intros k Hk. apply elem_of_seq in Hk. lia.
    - split; cbn; destruct greater; lia.
    - left. cbn. destruct greater; lia. }
  intros st [H1 H2].
  set (range := seq _ _). assert (Forall (fun b => b < n)%nat range) as Hr.
  { apply Forall_forall. intros k Hk. apply elem_of_seq in Hk. lia. }
  destruct (loops_Ok s range f64_zero Hs Hr) as [Hsum _]. eapply succeeds_bind; [exact Hsum|]. intros x _.
  destruct (_ || _); [by apply succeeds_ok|]. by apply loops_Ok.
Qed.
End stats.

(** ** What is counted *)
Definition cell (b : nat) (row : list Z) : Z := default 0 (row !! b).
Definition column (g : Z -> Z) (b : nat) (rows : list (list Z)) : Z := foldr Z.add 0 (map (fun row => g (cell b row)) rows).
(** The unconfirmed transactions of a bucket, and how far the cells that make
    the sum are from zero. *)
Definition unconfirmed (s : TxConfirmStats) (b : nat) : Z := column id b (unconf_txs s) + cell b (old_unconf_txs s).
Definition weight (s : TxConfirmStats) (b : nat) : Z := column Z.abs b (unconf_txs s) + Z.abs (cell b (old_unconf_txs s)).

Lemma column_insert g b rows r row row' :
  rows !! r = Some row -> column g b (<[r := row']> rows) = column g b rows - g (cell b row) + g (cell b row').
Proof.
  assert (forall x rows, column g b (x :: rows) = g (cell b x) + column g b rows) as Hc by done.
  revert r. induction rows as [|x rows IH]; intros r Hr; [done|]. destruct r as [|r].
  - injection Hr as ->. change (<[0%nat := row']> (row :: rows)) with (row' :: rows). rewrite !Hc. lia.
  - change (<[Datatypes.S r := row']> (x :: rows)) with (x :: <[r := row']> rows). rewrite !Hc, (IH r Hr). lia.
Qed.
Lemma column_nonneg b rows : 0 <= column Z.abs b rows.
Proof. unfold column. induction rows as [|x rows IH]; cbn in *; lia. Qed.
Lemma column_cell b rows r row : rows !! r = Some row -> Z.abs (cell b row) <= column Z.abs b rows.
Proof.
  revert r. induction rows as [|x rows IH]; intros r Hr; [done|]. unfold column in *. destruct r as [|r]; cbn in *.
  - injection Hr as ->. pose proof (column_nonneg b rows). unfold column in *. lia.
  - specialize (IH r Hr). lia.
Qed.
Lemma cell_insert b b' row x : (b < length row)%nat -> cell b' (<[b := x]> row) = if decide (b' = b) then x else cell b' row.
Proof.
  intros Hb. unfold cell. destruct (decide (b' = b)) as [->|Hne]; [by rewrite list_lookup_insert_eq|by rewrite list_lookup_insert_ne].
Qed.
Lemma cell_alter f b b' row : (b < length row)%nat -> cell b' (alter f b row) = if decide (b' = b) then f (cell b row) else cell b' row.
Proof.
  intros Hb. unfold cell. destruct (decide (b' = b)) as [->|Hne]; [|by rewrite list_lookup_alter_ne].
  rewrite list_lookup_alter_eq. apply lookup_lt_is_Some_2 in Hb as [x ->]. done.
Qed.
Lemma alter_insert_row {A} (f : A -> A) i (l : list A) a : l !! i = Some a -> alter f i l = <[i := f a]> l.
Proof.
  revert i. induction l as [|x l IH]; intros [|i] Hi; cbn in *; [done|done|by injection Hi as ->|]. f_equal. by apply IH.
Qed.

Definition i32_bound : Z := 2147483647.
Section counted.
  Context (m n : nat) (N : Z).

Lemma clear_bucket_counts r b s s' :
  stats_wf m n s -> (r < m)%nat -> (b < n)%nat -> (forall b', weight s b' <= N) -> N < i32_bound ->
  clear_bucket r s b = Ok s' -> forall b', unconfirmed s' b' = unconfirmed s b' /\ weight s' b' <= weight s b'.
Proof.
  intros Hs Hr Hb Hw HN Hc b'. destruct (clear_bucket_wf m n r s b Hs Hr Hb) as (s2&E&_&row&old&Hrow&Hold&Hu&Ho).
  rewrite Hc in E. injection E as <-. unfold unconfirmed, weight. rewrite Hu, Ho, !(column_insert _ _ _ _ _ _ Hrow).
  pose proof (table_row _ _ _ _ _ (wf_unconf m n s Hs) Hrow) as Hlen.
  rewrite !cell_insert by (rewrite ?Hlen, ?(wf_old m n s Hs); lia). destruct (decide (b' = b)) as [->|Hne]; [|lia].
  specialize (Hw b). unfold weight in Hw. pose proof (column_cell b _ _ _ Hrow) as Hcell. fold (cell b row).
  assert (cell b (old_unconf_txs s) = old) as Hco by (unfold cell; by rewrite Hold). rewrite Hco in *.
  unfold id, saturating_add_i32, i32_bound in *. lia.
Qed.
Lemma bump_counts (f : Z -> Z) delta s un old b :
  stats_wf m n s -> (b < n)%nat -> (forall b', weight s b' <= N) -> N < i32_bound ->
  -1 <= delta <= 1 -> (forall x, Z.abs x <= N -> f x = x + delta) ->
  (un = unconf_txs s /\ old = alter f b (old_unconf_txs s))
  \/ (exists i, (i < m)%nat /\ un = alter (alter f b) i (unconf_txs s) /\ old = old_unconf_txs s) ->
  forall s', unconf_txs s' = un -> old_unconf_txs s' = old ->
  forall b', unconfirmed s' b' = unconfirmed s b' + (if decide (b' = b) then delta else 0) /\ weight s' b' <= weight s b' + 1.
Proof.
  intros Hs Hb Hw HN Hd Hf Hcase s' Hu Ho b'. unfold unconfirmed, weight. rewrite Hu, Ho.
  specialize (Hw b). unfold weight in Hw. pose proof (column_nonneg b (unconf_txs s)) as Hnn.
  destruct Hcase as [[-> ->]|(i&Hi&->&->)].
  - rewrite !cell_alter by (rewrite (wf_old m n s Hs); lia). destruct (decide (b' = b)) as [->|Hne]; [|lia].
    rewrite Hf by lia. lia.
  - destruct (wf_unconf m n s Hs) as [Hl _]. rewrite <- Hl in Hi. apply lookup_lt_is_Some_2 in Hi as [row Hrow].
    rewrite (alter_insert_row _ _ _ _ Hrow), !(column_insert _ _ _ _ _ _ Hrow).
    rewrite !cell_alter by (rewrite (table_row _ _ _ _ _ (wf_unconf m n s Hs) Hrow); lia).
    destruct (decide (b' = b)) as [->|Hne]; [|unfold id; lia]. pose proof (column_cell b _ _ _ Hrow).
    rewrite Hf by lia. unfold id. lia.
Qed.
End counted.

(** ** The estimator *)
#[global] Instance TrackedStats_eq_dec : EqDecision TrackedStats.
Proof. solve_decision. Defined.
Definition tracked (k : TrackedStats) (b : nat) (txs : gmap Hash256 TxStatsInfo) : Z :=
  Z.of_nat (base.size (filter (fun kv : Hash256 * TxStatsInfo => ts_stats kv.2 = k /\ ts_bucket_index kv.2 = b) txs)).
Lemma tracked_insert (k : TrackedStats) (b : nat) (txs : gmap Hash256 TxStatsInfo) (t : Hash256) (i : TxStatsInfo) :
  txs !! t = None ->
  tracked k b (<[t := i]> txs) = tracked k b txs + if decide (ts_stats i = k /\ ts_bucket_index i = b) then 1 else 0.
Proof.
  intros Ht. unfold tracked. destruct (decide _) as [Hd|Hd].
  - rewrite map_filter_insert_True by done. rewrite map_size_insert_None by (rewrite map_lookup_filter_None; by left). lia.
  - rewrite map_filter_insert_False by done. rewrite delete_id by done. lia.
Qed.
Lemma tracked_delete (k : TrackedStats) (b : nat) (txs : gmap Hash256 TxStatsInfo) (t : Hash256) (i : TxStatsInfo) :
  txs !! t = Some i ->
  tracked k b (delete t txs) = tracked k b txs - if decide (ts_stats i = k /\ ts_bucket_index i = b) then 1 else 0.
Proof.
  intros Ht. rewrite <- (insert_delete_id txs t i Ht) at 2. rewrite tracked_insert by apply lookup_delete_eq. lia.
Qed.

(** The statistics of fees, or of priorities. *)
Definition stats_at (k : TrackedStats) (e : FeeEstimator) : TxConfirmStats :=
  match k with Fee => fe_fee_stats e | Priority => fe_pri_stats e end.
Record est_ok (n : TrackedStats -> nat) (e : FeeEstimator) : Prop := {
  eo_stats k : stats_wf MAX_BLOCK_CONFIRMS (n k) (stats_at k e);
  eo_tracked (t : Hash256) i : fe_mempool_txs e !! t = Some i -> (ts_bucket_index i < n (ts_stats i))%nat }.
Record counts_ok (N : Z) (e : FeeEstimator) : Prop := {
  co_count k b : unconfirmed (stats_at k e) b = tracked k b (fe_mempool_txs e);
  co_weight k b : weight (stats_at k e) b <= N }.

Inductive est_op :=
  | OpTransaction (tx : MempoolTxInfo) (current_estimate : bool)
  | OpRemove (txid : Hash256)
  | OpBlock (height : Z) (entries : list BlockTxInfo) (current_estimate : bool).
Definition run_op (op : est_op) (e : FeeEstimator) : total FeeEstimator :=
  match op with
  | OpTransaction tx current => process_transaction tx current e
  | OpRemove txid => remove_transaction txid e
  | OpBlock height entries current => process_block height entries current e
  end.
Fixpoint run_ops (ops : list est_op) (e : FeeEstimator) : total FeeEstimator :=
  match ops with [] => Ok e | op :: ops => e ← run_op op e; run_ops ops e end.
(** A transaction is not removed while the estimator lags behind the height it
    was entered at. *)
Definition timely (op : est_op) (e : FeeEstimator) : bool :=
  match op with
  | OpRemove txid =>
      match fe_mempool_txs e !! txid with
      | Some i => (fe_best_seen_height e =? 0) || (ts_block_height i <=? fe_best_seen_height e)
      | None => true
      end
  | _ => true
  end.
Fixpoint all_timely (ops : list est_op) (e : FeeEstimator) : bool :=
  match ops with
  | [] => true
  | op :: ops => timely op e && match run_op op e with Ok e' => all_timely ops e' | _ => true end
  end.

Section estimator.
  Context (n : TrackedStats -> nat).
(** What one operation keeps. *)
Definition kept (op : est_op) (e e' : FeeEstimator) : Prop :=
  est_ok n e' /\ forall N, counts_ok N e -> N < i32_bound -> timely op e = true -> counts_ok (N + 1) e'.
Lemma kept_same op e : est_ok n e -> kept op e e.
Proof. intros He. split; [done|]. intros N [H1 H2] _ _. split; [done|]. intros k b. specialize (H2 k b). lia. Qed.

(** The statistics of kind [k] and the tracked transactions change. *)
Lemma one_kind_ok k e e' :
  est_ok n e -> stats_wf MAX_BLOCK_CONFIRMS (n k) (stats_at k e') ->
  (forall k', k' <> k -> stats_at k' e' = stats_at k' e) ->
  (forall (t : Hash256) i, fe_mempool_txs e' !! t = Some i -> (ts_bucket_index i < n (ts_stats i))%nat) -> est_ok n e'.
Proof.
  intros He Hs Ho Ht. split; [|done]. intros k'. destruct (decide (k' = k)) as [->|Hne]; [done|].
  rewrite Ho by done. apply He.
Qed.
Lemma one_kind_counts N k b delta e e' :
  counts_ok N e -> (forall k', k' <> k -> stats_at k' e' = stats_at k' e) ->
  (forall b', unconfirmed (stats_at k e') b' = unconfirmed (stats_at k e) b' + (if decide (b' = b) then delta else 0)
     /\ weight (stats_at k e') b' <= N + 1) ->
  (forall k' b', tracked k' b' (fe_mempool_txs e')
     = tracked k' b' (fe_mempool_txs e) + if decide (k = k' /\ b = b') then delta else 0) ->
  counts_ok (N + 1) e'.
Proof.
  intros [H1 H2] Ho Hc Ht. split; intros k' b'; destruct (decide (k' = k)) as [->|Hne].
  - destruct (Hc b') as [-> _]. rewrite Ht, H1. f_equal. destruct (decide (b' = b)) as [->|Hne]; [by rewrite decide_True|].
    rewrite decide_False; [done|naive_solver].
  - rewrite Ho, Ht, H1, decide_False by naive_solver. lia.
  - apply Hc.
  - rewrite Ho by done. specialize (H2 k' b'). lia.
Qed.

Lemma enters_kept k b i s tx current e e' :
  est_ok n e -> fe_mempool_txs e !! ti_txid tx = None -> (b < n k)%nat -> (i < MAX_BLOCK_CONFIRMS)%nat ->
  stats_wf MAX_BLOCK_CONFIRMS (n k) s ->
  unconf_txs s = alter (alter (fun c => saturating_add_i32 c 1) b) i (unconf_txs (stats_at k e)) ->
  old_unconf_txs s = old_unconf_txs (stats_at k e) ->
  stats_at k e' = s -> (forall k', k' <> k -> stats_at k' e' = stats_at k' e) ->
  fe_mempool_txs e' = <[ti_txid tx := mkTxStats k (ti_height tx) b]> (fe_mempool_txs e) ->
  kept (OpTransaction tx current) e e'.
Proof.
  intros He Hn Hb Hi Hs Hu Ho Hk Hother Htxs. split.
  - apply (one_kind_ok k e); [done|by rewrite Hk|done|]. rewrite Htxs.
    intros t x [[<- <-]|[_ Hx]]%lookup_insert_Some; [done|by eapply eo_tracked].
  - intros N Hc HN _. apply (one_kind_counts N k b 1 e); [done|done| |].
    + intros b'. rewrite Hk.
      destruct (bump_counts MAX_BLOCK_CONFIRMS (n k) N (fun c => saturating_add_i32 c 1) 1 (stats_at k e) _ _ b (eo_stats _ _ He k) Hb
        (co_weight _ _ Hc k) HN ltac:(lia) ltac:(intros x Hx; unfold saturating_add_i32, i32_bound in *; lia)
        (or_intror (ex_intro _ i (conj Hi (conj eq_refl eq_refl)))) s Hu Ho b') as [H1 H2].
      pose proof (co_weight _ _ Hc k b'). split; [done|lia].
    + intros k' b'. rewrite Htxs, tracked_insert by done. done.
Qed.
Lemma process_transaction_kept tx current e :
  est_ok n e -> succeeds (process_transaction tx current e) (kept (OpTransaction tx current) e).
Proof.
  intros He. unfold process_transaction. destruct (bool_decide _) eqn:Ed; [by apply succeeds_ok, kept_same|].
  apply bool_decide_eq_false in Ed. rewrite <- eq_None_not_Some in Ed.
  destruct (_ <? _); [by apply succeeds_ok, kept_same|]. destruct (negb current); [by apply succeeds_ok, kept_same|].
  destruct (negb _); [by apply succeeds_ok, kept_same|]. cbv zeta.
  assert (forall k val (f : nat -> TxConfirmStats -> FeeEstimator),
    (forall b s, stats_at k (f b s) = s) -> (forall b s k', k' <> k -> stats_at k' (f b s) = stats_at k' e) ->
    (forall b s, fe_mempool_txs (f b s) = <[ti_txid tx := mkTxStats k (ti_height tx) b]> (fe_mempool_txs e)) ->
    succeeds (new_tx (ti_height tx) val (stats_at k e) ≫= fun r => let '(b, s) := r in Ok (f b s))
      (kept (OpTransaction tx current) e)) as Hnew.
  { intros k val f H1 H2 H3. eapply succeeds_bind; [exact (new_tx_wf _ _ _ _ _ (eo_stats _ _ He k))|].
    intros [b s] (Hs&Hb&i&Hi&Hu&Ho); cbn [fst snd] in *. apply succeeds_ok.
    apply (enters_kept k b i s tx); auto. }
  destruct (_ || _).
  - apply (Hnew Priority _ (fun b s => set_tracked (fe_fee_stats e) s (<[ti_txid tx := _]> _) e)); [done| |done]. by intros b s [].
  - destruct (is_fee_data_point _ _ _); [|by apply succeeds_ok, kept_same].
    apply (Hnew Fee _ (fun b s => set_tracked s (fe_pri_stats e) (<[ti_txid tx := _]> _) e)); [done| |done]. by intros b s [].
Qed.

Lemma leaves_kept txid i s e e' :
  est_ok n e -> fe_mempool_txs e !! txid = Some i -> remove_tx (ts_block_height i) (fe_best_seen_height e) (ts_bucket_index i) (stats_at (ts_stats i) e) = Ok s ->
  stats_at (ts_stats i) e' = s -> (forall k', k' <> ts_stats i -> stats_at k' e' = stats_at k' e) ->
  fe_mempool_txs e' = delete txid (fe_mempool_txs e) -> kept (OpRemove txid) e e'.
Proof.
  intros He Hi Hr Hk Ho Htxs. pose proof (eo_tracked _ _ He _ _ Hi) as Hb.
  destruct (remove_tx_wf _ _ (ts_block_height i) (fe_best_seen_height e) _ _ (eo_stats _ _ He (ts_stats i)) Hb) as (s'&E&Hs&Hcase).
  rewrite Hr in E. injection E as <-. rewrite <- Hk in Hs, Hcase. split.
  - apply (one_kind_ok (ts_stats i) e); [done|done|done|]. rewrite Htxs. intros t x Hx%lookup_delete_Some. eapply eo_tracked; [done|apply Hx].
  - intros N Hc HN Htimely. apply (one_kind_counts N (ts_stats i) (ts_bucket_index i) (-1) e); [done|done| |].
    + cbn [timely] in Htimely. rewrite Hi in Htimely. destruct Hcase as [(H1&H2&_)|Hcase];
        [apply orb_true_iff in Htimely as [?|?]; lia|].
      intros b'. destruct (bump_counts MAX_BLOCK_CONFIRMS (n (ts_stats i)) N (fun c => saturating_sub_i32 c 1) (-1)
        (stats_at (ts_stats i) e) (unconf_txs (stats_at (ts_stats i) e')) (old_unconf_txs (stats_at (ts_stats i) e')) (ts_bucket_index i)
        (eo_stats _ _ He _) Hb (co_weight _ _ Hc _) HN ltac:(lia)
        ltac:(intros x Hx; unfold saturating_sub_i32, i32_bound in *; lia)
        ltac:(destruct Hcase as [H|(j&H)]; [by left|right; by exists j]) (stats_at (ts_stats i) e') eq_refl eq_refl b') as [H1 H2].
      pose proof (co_weight _ _ Hc (ts_stats i) b'). split; [done|lia].
    + intros k' b'. rewrite Htxs, (tracked_delete _ _ _ _ i) by done. case_decide; lia.
Qed.
Lemma remove_transaction_kept txid e :
  est_ok n e -> succeeds (remove_transaction txid e) (kept (OpRemove txid) e).
Proof.
  intros He. unfold remove_transaction. destruct (fe_mempool_txs e !! txid) as [i|] eqn:Ei; [|by apply succeeds_ok, kept_same].
  pose proof (eo_tracked _ _ He _ _ Ei) as Hb. cbv zeta.
  destruct (remove_tx_wf _ _ (ts_block_height i) (fe_best_seen_height e) _ _ (eo_stats _ _ He (ts_stats i)) Hb) as (s&E&_).
  destruct (ts_stats i) eqn:Ek; cbn [stats_at] in E; rewrite E; cbn [mbind result_bind]; apply succeeds_ok;
    apply (leaves_kept txid i s); rewrite ?Ek; try done; by intros [].
Qed.

(** A block moves the cells of its row and changes no count. *)
Definition same_counts (N : Z) (s s' : TxConfirmStats) : Prop := forall b,
  unconfirmed s' b = unconfirmed s b /\ weight s' b <= N.
Definition settled (e e' : FeeEstimator) : Prop :=
  est_ok n e' /\ forall N, counts_ok N e -> N < i32_bound -> counts_ok N e'.
Lemma settled_trans e1 e2 e3 : settled e1 e2 -> settled e2 e3 -> settled e1 e3.
Proof. intros [_ H1] [H2 H3]. split; [done|]. auto. Qed.
Lemma settled_refl e : est_ok n e -> settled e e.
Proof. by split. Qed.
(** Both statistics keep their shape and their counts. *)
Lemma settled_stats e e' :
  est_ok n e -> fe_mempool_txs e' = fe_mempool_txs e -> (forall k, stats_wf MAX_BLOCK_CONFIRMS (n k) (stats_at k e')) ->
  (forall N k, (forall b, weight (stats_at k e) b <= N) -> N < i32_bound -> same_counts N (stats_at k e) (stats_at k e')) ->
  settled e e'.
Proof.
  intros He Ht Hs Hc. split; [split; [done|rewrite Ht; apply He]|]. intros N [H1 H2] HN.
  split; intros k b; destruct (Hc N k (H2 k) HN b) as [H3 H4]; [rewrite Ht, H3; apply H1|done].
Qed.
Lemma clear_current_counts k height s :
  stats_wf MAX_BLOCK_CONFIRMS (n k) s ->
  succeeds (clear_current height s) (fun s' => stats_wf MAX_BLOCK_CONFIRMS (n k) s' /\
    forall N, (forall b, weight s b <= N) -> N < i32_bound -> same_counts N s s').
Proof.
  intros Hs. apply (clear_current_wf _ _ height s (fun s' => forall N, (forall b, weight s b <= N) -> N < i32_bound -> same_counts N s s')); [done|by split|].
  intros r b s1 s2 Hs1 H1 Hr Hb E N HN Hlt b'. destruct (H1 N HN Hlt b') as [H2 H3].
  destruct (clear_bucket_counts _ _ N r b s1 s2 Hs1 Hr Hb ltac:(intros b1; by apply (H1 N HN Hlt)) Hlt E b') as [-> H4].
  split; [done|lia].
Qed.
Lemma settled_one k e e' :
  est_ok n e -> fe_mempool_txs e' = fe_mempool_txs e -> (forall k', k' <> k -> stats_at k' e' = stats_at k' e) ->
  stats_wf MAX_BLOCK_CONFIRMS (n k) (stats_at k e') -> unconf_txs (stats_at k e') = unconf_txs (stats_at k e) ->
  old_unconf_txs (stats_at k e') = old_unconf_txs (stats_at k e) -> settled e e'.
Proof.
  intros He Ht Ho Hs H1 H2. apply settled_stats; [done|done| |]; intros *.
  - destruct (decide (k0 = k)) as [->|]; [done|]. rewrite Ho by done. apply He.
  - intros HN _ b. unfold unconfirmed, weight in *. destruct (decide (k0 = k)) as [->|]; [rewrite H1, H2|rewrite Ho by done]; split; auto.
Qed.
Lemma process_block_tx_settled height e entry : est_ok n e -> settled e (process_block_tx height e entry).
Proof.
  intros He. unfold process_block_tx. destruct (negb _); [by apply settled_refl|]. cbv zeta.
  destruct (_ <=? 0); [by apply settled_refl|].
  destruct (_ || _); [|destruct (is_fee_data_point _ _ _); [|by apply settled_refl]].
  - destruct (record_wf _ _ (height - bt_height entry) (bt_priority entry) _ (eo_stats _ _ He Priority)) as (H1&H2&H3).
    apply (settled_one Priority); try done. by intros [].
  - destruct (record_wf _ _ (height - bt_height entry) (f64_of_i64 (fee_rate_per_kb (bt_fee entry) (bt_size entry))) _ (eo_stats _ _ He Fee)) as (H1&H2&H3).
    apply (settled_one Fee); try done. by intros [].
Qed.
Lemma process_block_txs_settled height entries e : est_ok n e -> settled e (foldl (process_block_tx height) e entries).
Proof.
  revert e. induction entries as [|entry entries IH]; intros e He; cbn [foldl]; [by apply settled_refl|].
  pose proof (process_block_tx_settled height e entry He) as H1. eapply settled_trans; [exact H1|]. apply IH, H1.
Qed.
Lemma settled_kept op e e' : settled e e' -> kept op e e'.
Proof. intros [H1 H2]. split; [done|]. intros N Hc HN _. destruct (H2 N Hc HN) as [H3 H4]. split; [done|]. intros k b. specialize (H4 k b). lia. Qed.
(** Two states with the same statistics and tracked transactions. *)
Lemma settled_same e e' : est_ok n e -> fe_mempool_txs e' = fe_mempool_txs e -> (forall k, stats_at k e' = stats_at k e) -> settled e e'.
Proof. intros He Ht Hs. apply (settled_one Fee); rewrite ?Hs; try done. apply He. Qed.
Lemma both_settled (f : TxConfirmStats -> total TxConfirmStats) (g : TxConfirmStats -> TxConfirmStats -> FeeEstimator) e Q :
  est_ok n e ->
  (forall k s, stats_wf MAX_BLOCK_CONFIRMS (n k) s -> succeeds (f s) (fun s' => stats_wf MAX_BLOCK_CONFIRMS (n k) s' /\
    forall N, (forall b, weight s b <= N) -> N < i32_bound -> same_counts N s s')) ->
  (forall s1 s2, fe_fee_stats (g s1 s2) = s1 /\ fe_pri_stats (g s1 s2) = s2 /\ fe_mempool_txs (g s1 s2) = fe_mempool_txs e) ->
  (forall e', settled e e' -> succeeds (Ok e') Q) ->
  succeeds (fs ← f (fe_fee_stats e); ps ← f (fe_pri_stats e); Ok (g fs ps)) Q.
Proof.
  intros He Hf Hg HQ. eapply succeeds_bind; [apply (Hf Fee), (eo_stats _ _ He Fee)|]. intros s1 [H1 C1].
  eapply succeeds_bind; [apply (Hf Priority), (eo_stats _ _ He Priority)|]. intros s2 [H2 C2]. apply HQ.
  destruct (Hg s1 s2) as (E1&E2&E3). apply settled_stats; [done|done| |]; intros *.
  - destruct k; cbn; [by rewrite E1|by rewrite E2].
  - destruct k; cbn; [rewrite E1; apply C1|rewrite E2; apply C2].
Qed.
Lemma update_averages_counts k s :
  stats_wf MAX_BLOCK_CONFIRMS (n k) s ->
  succeeds (update_moving_averages s) (fun s' => stats_wf MAX_BLOCK_CONFIRMS (n k) s' /\
    forall N, (forall b, weight s b <= N) -> N < i32_bound -> same_counts N s s').
Proof.
  intros Hs. eapply succeeds_weaken; [by apply update_averages_wf|]. intros s' (H&Hu&Ho). split; [done|].
  intros N HN _ b. unfold unconfirmed, weight in *. rewrite Hu, Ho. auto.
Qed.
Lemma process_block_kept height entries current e :
  est_ok n e -> succeeds (process_block height entries current e) (kept (OpBlock height entries current) e).
Proof.
  intros He. unfold process_block. destruct (_ <=? _); [by apply succeeds_ok, kept_same|]. cbv zeta.
  destruct (negb current); [by apply succeeds_ok, settled_kept, settled_same|].
  do 4 (eapply succeeds_bind;
    [first [apply (estimate_median_Ok MAX_BLOCK_CONFIRMS (n Priority)); [apply (eo_stats _ _ He Priority)|lia]
           |apply (estimate_median_Ok MAX_BLOCK_CONFIRMS (n Fee)); [apply (eo_stats _ _ He Fee)|lia]]|]; intros ? _).
  eapply succeeds_bind; [apply (clear_current_counts Fee), (eo_stats _ _ He Fee)|]. intros s1 [H1 C1].
  eapply succeeds_bind; [apply (clear_current_counts Priority), (eo_stats _ _ He Priority)|]. intros s2 [H2 C2].
  set (e1 := mkEstimator _ _ _ _ _ _ _ _ _ _ _). assert (settled e e1) as Hs1.
  { apply settled_stats; [done|done| |]; intros []; cbn; try done; intros []; auto. }
  clearbody e1. pose proof (process_block_txs_settled height entries e1 (proj1 Hs1)) as Hs2. cbv zeta.
  set (e2 := foldl _ _ _) in *. clearbody e2.
  apply both_settled; [apply Hs2|apply update_averages_counts|by cbn|].
  intros e3 Hs3. apply succeeds_ok, settled_kept. eapply settled_trans; [exact Hs1|]. by eapply settled_trans.
Qed.

Lemma run_op_kept op e : est_ok n e -> succeeds (run_op op e) (kept op e).
Proof. destruct op; cbn [run_op]; [apply process_transaction_kept|apply remove_transaction_kept|apply process_block_kept]. Qed.
Lemma run_ops_ok ops e : est_ok n e -> succeeds (run_ops ops e) (est_ok n).
Proof.
  revert e. induction ops as [|op ops IH]; intros e He; cbn [run_ops]; [by apply succeeds_ok|].
  eapply succeeds_bind; [by apply run_op_kept|]. intros e' [He' _]. by apply IH.
Qed.
Lemma run_ops_counts ops N e e' :
  est_ok n e -> counts_ok N e -> N + Z.of_nat (length ops) <= i32_bound -> all_timely ops e = true -> run_ops ops e = Ok e' ->
  counts_ok (N + Z.of_nat (length ops)) e'.
Proof.
  revert N e. induction ops as [|op ops IH]; intros N e He Hc HN Ht Hr; cbn in *.
  { injection Hr as <-. by rewrite Z.add_0_r. }
  destruct (run_op_kept op e He) as (e1&E&He1&Hk). rewrite E in Hr. cbn [mbind result_bind] in Hr. rewrite E in Ht.
  apply andb_prop in Ht as [Ht1 Ht2].
  specialize (IH (N + 1) e1 He1). replace (N + Z.of_nat (Datatypes.S (length ops))) with (N + 1 + Z.of_nat (length ops)) by lia.
  apply IH; [apply Hk; [done|lia|done]|lia|done|done].
Qed.
Lemma estimates_ok target e : est_ok n e -> succeeds (estimate_fee_per_kb target e) (fun _ => True) /\ succeeds (estimate_priority target e) (fun _ => True).
Proof.
  intros He. unfold estimate_fee_per_kb, estimate_priority.
  split; (destruct (_ || _) eqn:E; [by apply succeeds_ok|]; apply orb_false_iff in E as [E _];
    eapply succeeds_bind; [first [apply (estimate_median_Ok MAX_BLOCK_CONFIRMS (n Priority)); [apply (eo_stats _ _ He Priority)|lia]
      |apply (estimate_median_Ok MAX_BLOCK_CONFIRMS (n Fee)); [apply (eo_stats _ _ He Fee)|lia]]|]; intros ? _; destruct (_ || _); by apply succeeds_ok).
Qed.
End estimator.

(** ** Loading *)
Definition parsed {A} (m : parser FileError A) (P : A -> Prop) : Prop := forall d a d', m d = Ok (a, d') -> P a.
Lemma parsed_bind {A B} (m : parser FileError A) (f : A -> parser FileError B) P Q :
  parsed m P -> (forall a, P a -> parsed (f a) Q) -> parsed (m ≫= f) Q.
Proof.
  intros Hm Hf d b d' E. unfold mbind, parser_bind in E. destruct (m d) as [[a d1]| |] eqn:Em; [|done|done].
  eapply Hf; [by eapply Hm|exact E].
Qed.
Lemma parsed_ret {A} (a : A) (P : A -> Prop) : P a -> parsed (mret a) P.
Proof. by intros HP d a' d' [= <- <-]. Qed.
Lemma parsed_any {A} (m : parser FileError A) : parsed m (fun _ => True).
Proof. done. Qed.
Lemma parsed_unless bad message : parsed (unless bad message) (fun _ => bad = false).
Proof. intros d a d' E. by destruct bad. Qed.
Lemma parsed_lift {A} (f : FileError -> FileError) (m : parser FileError A) P : parsed m P -> parsed (lift f m) P.
Proof. intros Hm d a d' E. unfold lift in E. apply map_err_Ok in E. by eapply Hm. Qed.

Definition untracked (n : nat) (s : TxConfirmStats) : Prop :=
  stats_wf MAX_BLOCK_CONFIRMS n s /\ forall b, unconfirmed s b = 0 /\ weight s b = 0.
Lemma cell_zeros b n : cell b (replicate n 0) = 0.
Proof.
  unfold cell. destruct (decide (b < n)%nat); [by rewrite lookup_replicate_2|].
  by rewrite lookup_ge_None_2 by (rewrite length_replicate; lia).
Qed.
Lemma column_zeros g b m n : g 0 = 0 -> column g b (replicate m (replicate n 0)) = 0.
Proof.
  intros Hg. unfold column. induction m as [|m IH]; [done|]. cbn [replicate map foldr]. by rewrite cell_zeros, Hg, IH.
Qed.
Lemma stats_of_zeros bs ct conf av d m b : unconfirmed (stats_of bs ct conf av d m) b = 0 /\ weight (stats_of bs ct conf av d m) b = 0.
Proof.
  unfold unconfirmed, weight. cbn [stats_of unconf_txs old_unconf_txs]. by rewrite !column_zeros, cell_zeros by done.
Qed.
Lemma stats_decode_parsed : parsed stats_decode (fun s => exists n, (1 < n)%nat /\ untracked n s).
Proof.
  unfold stats_decode.
  eapply parsed_bind; [apply parsed_any|]. intros d _. eapply parsed_bind; [apply parsed_unless|]. intros [] _.
  eapply parsed_bind; [apply parsed_any|]. intros bs _. cbv zeta. eapply parsed_bind; [apply parsed_unless|]. intros [] Hn.
  eapply parsed_bind; [apply parsed_any|]. intros av _. eapply parsed_bind; [apply parsed_unless|]. intros [] Hav.
  eapply parsed_bind; [apply parsed_any|]. intros ct _. eapply parsed_bind; [apply parsed_unless|]. intros [] Hct.
  eapply parsed_bind; [apply parsed_any|]. intros conf _. eapply parsed_bind; [apply parsed_unless|]. intros [] _.
  eapply parsed_bind; [apply parsed_unless|]. intros [] Hm. eapply parsed_bind; [apply parsed_unless|]. intros [] Hrows.
  apply parsed_ret. apply orb_false_iff in Hn as [Hn _]. apply Nat.leb_gt in Hn.
  apply negb_false_iff, Nat.eqb_eq in Hav, Hct, Hm. exists (length bs). split; [done|]. split; [|apply stats_of_zeros].
  rewrite Hm. apply stats_wf_of; try done; [by unfold MAX_BLOCK_CONFIRMS; split; [lia|]|lia|].
  split; [done|]. apply Forall_forall. intros row Hrow. destruct (decide (length row = length bs)) as [|Hne]; [done|exfalso].
  assert (existsb (fun row => negb (length row =? length bs)%nat) conf = true); [|congruence].
  apply existsb_exists. exists row. split; [by apply list_elem_of_In|]. by apply negb_true_iff, Nat.eqb_neq.
Qed.
Lemma initialize_untracked bs d : untracked (length bs + 1) (initialize bs MAX_BLOCK_CONFIRMS d).
Proof. split; [by apply (initialize_wf bs MAX_BLOCK_CONFIRMS d)|apply stats_of_zeros]. Qed.

Definition est_fresh (e : FeeEstimator) : Prop := exists n, est_ok n e /\ counts_ok 0 e.
Lemma est_fresh_of e nf np :
  fe_mempool_txs e = ∅ -> untracked nf (fe_fee_stats e) -> untracked np (fe_pri_stats e) -> est_fresh e.
Proof.
  intros Ht [H1 C1] [H2 C2]. exists (fun k => match k with Fee => nf | Priority => np end). split; split.
  - by intros [].
  - intros t i. rewrite Ht. by rewrite lookup_empty.
  - intros k b. rewrite Ht. unfold tracked. rewrite map_filter_empty, map_size_empty. destruct k; [apply C1|apply C2].
  - intros k b. destruct k; cbn; [destruct (C1 b) as [_ ->]|destruct (C2 b) as [_ ->]]; lia.
Qed.
Lemma new_fresh min : est_fresh (FeeEstimator_new min).
Proof. eapply est_fresh_of; [done|apply initialize_untracked|apply initialize_untracked]. Qed.
Lemma load_fresh file min e : estimator_load file min = Ok e -> est_fresh e.
Proof.
  unfold estimator_load. destruct file as [bs|]; [|intros [= <-]; apply new_fresh].
  destruct (read_estimator (new_decoder bs)) as [[[[h fs] ps] d]| |] eqn:E; [|done|done]. intros [= <-].
  assert (parsed read_estimator (fun r => (exists n, (1 < n)%nat /\ untracked n r.1.2) /\ exists n, (1 < n)%nat /\ untracked n r.2)) as Hp.
  { unfold read_estimator.
    eapply parsed_bind; [apply parsed_any|]. intros v _. eapply parsed_bind; [apply parsed_any|]. intros _ _.
    eapply parsed_bind; [apply parsed_any|]. intros b _.
    eapply parsed_bind; [apply parsed_lift, stats_decode_parsed|]. intros s1 H1.
    eapply parsed_bind; [apply parsed_lift, stats_decode_parsed|]. intros s2 H2.
    eapply parsed_bind; [apply parsed_any|]. intros [] _. by apply parsed_ret. }
  apply Hp in E as [(n1&_&H1) (n2&_&H2)]. by eapply est_fresh_of.
Qed.
Lemma no_panic_unless bad message : no_panic (unless bad message).
Proof. by destruct bad. Qed.
Lemma no_panic_read_f64 : no_panic read_f64.
Proof. unfold read_f64. solve_no_panic. Qed.
Lemma no_panic_read_vec_f64 : no_panic read_vec_f64.
Proof. apply no_panic_bind; [apply no_panic_lift, no_panic_read_count|]. intros c. apply no_panic_read_n, no_panic_read_f64. Qed.
Lemma no_panic_stats_decode : no_panic stats_decode.
Proof.
  unfold stats_decode. repeat first
    [apply no_panic_bind; [first [apply no_panic_read_f64|apply no_panic_read_vec_f64|apply no_panic_unless
       |apply no_panic_bind; [apply no_panic_lift, no_panic_read_count|intros ?; apply no_panic_read_n, no_panic_read_vec_f64]]|intros ?]
    |apply no_panic_ret]; cbv zeta.
Qed.
Lemma no_panic_load file min : estimator_load file min <> Panic.
Proof.
  unfold estimator_load. destruct file as [bs|]; [|done].
  assert (no_panic read_estimator) as Hp.
  { unfold read_estimator. repeat first
      [apply no_panic_bind; [first [apply no_panic_lift; first [apply no_panic_read_u32_le|apply no_panic_stats_decode]|apply no_panic_unless
         |intros d; unfold file_end; by destruct (is_empty d)]|intros ?]
      |apply no_panic_ret]. }
  specialize (Hp (new_decoder bs)). by destruct (read_estimator _) as [[[[h fs] ps] d]| |].
Qed.

(** ** Saving *)
Definition saved_ok (s : TxConfirmStats) : Prop :=
  (exists n, (1 < n)%nat /\ Z.of_nat n <= 1000 /\ stats_wf MAX_BLOCK_CONFIRMS n s) /\ decay_in_range (decay s) = true
  /\ f64_ok (decay s) /\ Forall f64_ok (buckets s) /\ Forall f64_ok (avg s) /\ Forall f64_ok (tx_ct_avg s)
  /\ Forall (Forall f64_ok) (conf_avg s).
Definition saved_ok_b (s : TxConfirmStats) : bool :=
  let n := length (buckets s) in
  let row_ok {A} (row : list A) := (length row =? n)%nat in
  let table_ok {A} (rows : list (list A)) := (length rows =? MAX_BLOCK_CONFIRMS)%nat && forallb row_ok rows in
  (1 <? n)%nat && (n <=? 1000)%nat && row_ok (tx_ct_avg s) && row_ok (cur_block_tx_ct s) && row_ok (avg s)
  && row_ok (cur_block_val s) && row_ok (old_unconf_txs s) && table_ok (conf_avg s) && table_ok (cur_block_conf s)
  && table_ok (unconf_txs s) && decay_in_range (decay s)
  && forallb (valid_binary 53 1024) (decay s :: buckets s ++ avg s ++ tx_ct_avg s ++ concat (conf_avg s)).
Lemma table_decided {A} m n (rows : list (list A)) :
  (length rows =? m)%nat && forallb (fun row : list A => (length row =? n)%nat) rows = true -> table m n rows.
Proof.
  intros [Hl%Nat.eqb_eq Hr]%andb_prop. split; [done|]. apply Forall_forall. intros row Hrow.
  apply (proj1 (forallb_forall _ _)) with (x := row) in Hr; [by apply Nat.eqb_eq|by apply list_elem_of_In].
Qed.
Lemma f64s_decided l : forallb (valid_binary 53 1024) l = true -> Forall f64_ok l.
Proof.
  intros Hl. apply Forall_forall. intros a Ha. apply (proj1 (forallb_forall _ _) Hl). by apply list_elem_of_In.
Qed.
Lemma saved_ok_decided s : saved_ok_b s = true -> saved_ok s.
Proof.
  unfold saved_ok_b. cbv zeta. rewrite !andb_true_iff.
  intros [[[[[[[[[[[Hn%Nat.ltb_lt Hn'%Nat.leb_le] H1%Nat.eqb_eq] H2%Nat.eqb_eq] H3%Nat.eqb_eq] H4%Nat.eqb_eq] H5%Nat.eqb_eq]
    H6] H7] H8] Hd] Hf%f64s_decided].
  apply Forall_cons in Hf as [Hf0 Hf]. apply Forall_app in Hf as [Hf1 Hf]. apply Forall_app in Hf as [Hf2 Hf].
  apply Forall_app in Hf as [Hf3 Hf4]. split_and!; [|done..|].
  - exists (length (buckets s)). split_and!; [done|lia|].
    split; try done; [unfold MAX_BLOCK_CONFIRMS; split; [lia|done]|lia|apply table_decided..]; by apply andb_true_iff.
  - by apply Forall_concat in Hf4.
Qed.
(** What a file keeps of the statistics. *)
Definition saved (s : TxConfirmStats) : TxConfirmStats :=
  stats_of (buckets s) (tx_ct_avg s) (conf_avg s) (avg s) (decay s) MAX_BLOCK_CONFIRMS.
Lemma read_f64_reads a : f64_ok a -> reads read_f64 (write_f64 a) a.
Proof.
  intros Ha. unfold read_f64, write_f64. eapply reads_bind_nil; [apply reads_lift, read_u64_le_reads; by apply to_bits_range|].
  rewrite from_to_bits by done. apply reads_ret.
Qed.
Lemma fits_thousand {A} (l : list A) : Z.of_nat (length l) <= 1000 -> fits_compact l.
Proof. intros Hl. unfold fits_compact, MAX_COMPACT_SIZE. lia. Qed.
Lemma read_vec_f64_reads l : Z.of_nat (length l) <= 1000 -> Forall f64_ok l -> reads read_vec_f64 (write_vec_f64 l) l.
Proof.
  intros Hl Hok. unfold read_vec_f64, write_vec_f64. eapply reads_bind; [apply reads_lift, read_count_reads, fits_thousand, Hl|].
  eapply read_n_reads; [intros a Ha; by apply read_f64_reads|done].
Qed.
Lemma read_vec_vec_f64_reads l :
  Z.of_nat (length l) <= 1000 -> Forall (fun row => Z.of_nat (length row) <= 1000 /\ Forall f64_ok row) l ->
  reads read_vec_vec_f64 (write_vec_vec_f64 l) l.
Proof.
  intros Hl Hok. unfold read_vec_vec_f64, write_vec_vec_f64. eapply reads_bind; [apply reads_lift, read_count_reads, fits_thousand, Hl|].
  eapply read_n_reads; [|exact Hok]. intros row [H1 H2]. by apply read_vec_f64_reads.
Qed.
Lemma reads_unless {A} bad message (f : unit -> parser FileError A) bs a :
  bad = false -> reads (f tt) bs a -> reads (_ ← unless bad message; f tt) bs a.
Proof. intros -> Hf. apply (reads_bind (unless false message) _ [] bs tt); [apply reads_ret|done]. Qed.
Lemma stats_roundtrip s : saved_ok s -> reads stats_decode (stats_encode s) (saved s).
Proof.
  intros ((n&Hn&Hn'&Hs)&Hd&Hd'&Hb&Ha&Hc&Hf). unfold stats_decode, stats_encode, saved.
  pose proof (wf_buckets _ _ _ Hs) as Lb. pose proof (wf_avg _ _ _ Hs) as La. pose proof (wf_tx_ct _ _ _ Hs) as Lc.
  destruct (wf_conf _ _ _ Hs) as [Lf Rf].
  eapply reads_bind; [by apply read_f64_reads|]. apply (reads_unless _ _ (fun _ => _)); [by rewrite Hd|].
  eapply reads_bind; [apply read_vec_f64_reads; [lia|done]|]. cbv zeta.
  apply (reads_unless _ _ (fun _ => _)); [rewrite orb_false_iff; split; [apply Nat.leb_gt; lia|lia]|].
  eapply reads_bind; [apply read_vec_f64_reads; [lia|done]|].
  apply (reads_unless _ _ (fun _ => _)); [apply negb_false_iff, Nat.eqb_eq; lia|].
  eapply reads_bind; [apply read_vec_f64_reads; [lia|done]|].
  apply (reads_unless _ _ (fun _ => _)); [apply negb_false_iff, Nat.eqb_eq; lia|].
  eapply reads_bind_nil; [apply read_vec_vec_f64_reads; [rewrite Lf; unfold MAX_BLOCK_CONFIRMS; lia|]|].
  { apply Forall_forall. intros row Hrow. rewrite Forall_forall in Hf, Rf. split; [rewrite Rf by done; lia|auto]. }
  rewrite Lf. apply (reads_unless _ _ (fun _ => _)); [done|]. apply (reads_unless _ _ (fun _ => _)); [done|].
  apply (reads_unless _ _ (fun _ => _)); [|apply reads_ret].
  destruct (existsb _ _) eqn:E; [|done]. apply existsb_exists in E as (row&Hrow&E). apply list_elem_of_In in Hrow.
  rewrite Forall_forall in Rf. apply negb_true_iff, Nat.eqb_neq in E. rewrite Rf in E by done. congruence.
Qed.
Lemma estimator_roundtrip e :
  is_u32 (fe_best_seen_height e) -> saved_ok (fe_fee_stats e) -> saved_ok (fe_pri_stats e) ->
  reads_whole read_estimator (estimator_save e) (fe_best_seen_height e, saved (fe_fee_stats e), saved (fe_pri_stats e)).
Proof.
  intros Hh Hf Hp. unfold read_estimator, estimator_save.
  apply (reads_whole_bind _ _ (write_u32_le FEE_ESTIMATES_FILE_VERSION) _ FEE_ESTIMATES_FILE_VERSION); [apply reads_lift, read_u32_le_reads; unfold is_u32, FEE_ESTIMATES_FILE_VERSION; lia|].
  apply (reads_whole_bind _ _ [] _ tt); [apply reads_ret|].
  apply (reads_whole_bind _ _ (write_u32_le (fe_best_seen_height e)) _ (fe_best_seen_height e)); [by apply reads_lift, read_u32_le_reads|].
  eapply reads_whole_bind; [by apply reads_lift, stats_roundtrip|].
  rewrite <- (app_nil_r (stats_encode (fe_pri_stats e))).
  eapply reads_whole_bind; [by apply reads_lift, stats_roundtrip|].
  intros d Hd. unfold mbind, parser_bind, file_end. rewrite (proj2 (is_empty_rem _) Hd). unfold mret, parser_ret. eauto.
Qed.

(** ** The theorems *)

(** C20: whatever file an estimator is started from, reading the file does
    not abort, and from an estimator that starts no history of transactions
    entered, transactions removed and blocks connected aborts: no index into
    its tables (buckets, rows of confirmations, rows of unconfirmed
    transactions) is out of range and no remainder is by zero; nor does any
    estimate, for any number of blocks, asked at the end. *)
Theorem estimator_never_aborts (file : option bytes) (min_relay_fee_per_kb target : Z) (ops : list est_op) (e : FeeEstimator) :
  estimator_load file min_relay_fee_per_kb <> Panic
  /\ (estimator_load file min_relay_fee_per_kb = Ok e ->
      exists e', run_ops ops e = Ok e'
        /\ (exists fee, estimate_fee_per_kb target e' = Ok fee) /\ exists priority, estimate_priority target e' = Ok priority).
Proof.
  split; [apply no_panic_load|]. intros Hl. apply load_fresh in Hl as (n&He&_).
  destruct (run_ops_ok n ops e He) as (e'&->&He'). exists e'. split; [done|].
  destruct (estimates_ok n target e' He') as [(a&->&_) (b&->&_)]. eauto.
Qed.

(** The counts of unconfirmed transactions are exact: after fewer than
    2^31 steps from a loaded file, for fees and for priorities and in every
    bucket, the cells of the rows of recent blocks and of the older ones sum
    to the number of transactions tracked in that bucket, provided no
    transaction is removed while the best block seen is below the height it
    entered at. *)
Theorem estimator_counts_tracked (file : option bytes) (min_relay_fee_per_kb : Z) (ops : list est_op) (e e' : FeeEstimator) :
  estimator_load file min_relay_fee_per_kb = Ok e -> Z.of_nat (length ops) < 2 ^ 31 -> all_timely ops e = true ->
  run_ops ops e = Ok e' ->
  forall kind bucket, unconfirmed (stats_at kind e') bucket = tracked kind bucket (fe_mempool_txs e').
Proof.
  intros Hl Hn Ht Hr. apply load_fresh in Hl as (n&He&Hc).
  by apply (co_count _ _ (run_ops_counts n ops 0 e e' He Hc ltac:(unfold i32_bound; lia) Ht Hr)).
Qed.

(** An estimator whose tables have the shape its file allows is
    restored from the file it saves: the load succeeds, with the height of the
    best block seen, the buckets and every moving average of fees and
    priorities bit for bit, nothing tracked and every count of unconfirmed
    transactions zero. *)
Theorem estimator_file_roundtrip (e : FeeEstimator) (min_relay_fee_per_kb : Z) :
  is_u32 (fe_best_seen_height e) -> saved_ok (fe_fee_stats e) -> saved_ok (fe_pri_stats e) ->
  exists e', estimator_load (Some (estimator_save e)) min_relay_fee_per_kb = Ok e'
    /\ fe_best_seen_height e' = fe_best_seen_height e
    /\ fe_fee_stats e' = saved (fe_fee_stats e) /\ fe_pri_stats e' = saved (fe_pri_stats e)
    /\ fe_mempool_txs e' = ∅
    /\ forall kind bucket, unconfirmed (stats_at kind e') bucket = 0.
Proof.
  intros Hh Hf Hp. unfold estimator_load.
  destruct (estimator_roundtrip e Hh Hf Hp (new_decoder (estimator_save e)) (rem_new _)) as [d ->].
  eexists. split; [reflexivity|]. split_and!; [done..|]. intros [] b; apply stats_of_zeros.
Qed.

(** ** Witnesses *)
Definition sample_mempool_tx (height fee : Z) : MempoolTxInfo :=
  mkTxInfo (ascii_bytes "a transaction") height fee 250 f64_zero true.
Definition sample_history : list est_op :=
  [OpBlock 10 [] true; OpTransaction (sample_mempool_tx 10 5000) true; OpBlock 11 [] true;
   OpTransaction (mkTxInfo (ascii_bytes "another") 11 0 300 f64_infinity true) true;
   OpRemove (ascii_bytes "a transaction"); OpBlock 12 [mkBlockTx 5000 250 10 f64_zero true] true].
(** A file of two buckets. *)
Definition sample_stats : TxConfirmStats := initialize [f64_of_i64 15000] MAX_BLOCK_CONFIRMS DEFAULT_DECAY.
Definition sample_file : bytes :=
  write_u32_le FEE_ESTIMATES_FILE_VERSION ++ write_u32_le 7 ++ stats_encode sample_stats ++ stats_encode sample_stats.
Definition sample_estimator : FeeEstimator :=
  match estimator_load (Some sample_file) 1000 with Ok e => e | _ => FeeEstimator_new 0 end.
Definition run_or (ops : list est_op) (e : FeeEstimator) : FeeEstimator := match run_ops ops e with Ok e' => e' | _ => e end.

Lemma estimator_never_aborts_witness :
  exists e', run_ops sample_history sample_estimator = Ok e'
    /\ (exists fee, estimate_fee_per_kb 3 e' = Ok fee) /\ exists priority, estimate_priority 3 e' = Ok priority.
Proof. apply (estimator_never_aborts (Some sample_file) 1000 3 sample_history sample_estimator). vm_compute. reflexivity. Defined.
Lemma estimator_counts_tracked_witness :
  unconfirmed (stats_at Priority (run_or sample_history sample_estimator)) 1
    = tracked Priority 1 (fe_mempool_txs (run_or sample_history sample_estimator))
  /\ unconfirmed (stats_at Fee (run_or sample_history sample_estimator)) 1
    = tracked Fee 1 (fe_mempool_txs (run_or sample_history sample_estimator)).
Proof.
  split; (apply (estimator_counts_tracked (Some sample_file) 1000 sample_history sample_estimator); [|reflexivity| |];
    vm_compute; reflexivity).
Defined.
Lemma estimator_file_roundtrip_witness :
  exists e', estimator_load (Some (estimator_save (run_or sample_history sample_estimator))) 5 = Ok e'
    /\ fe_best_seen_height e' = 12.
Proof.
  destruct (estimator_file_roundtrip (run_or sample_history sample_estimator) 5) as (e'&H1&H2&_).
  - vm_compute. split; [discriminate|reflexivity].
  - apply saved_ok_decided. vm_compute. reflexivity.
  - apply saved_ok_decided. vm_compute. reflexivity.
  - exists e'. split; [exact H1|]. rewrite H2. vm_compute. reflexivity.
Defined.
Example sample_counted : tracked Priority 1 (fe_mempool_txs (run_or (take 4 sample_history) sample_estimator)) = 1
  /\ tracked Fee 1 (fe_mempool_txs (run_or (take 4 sample_history) sample_estimator)) = 1.
Proof. vm_compute. done. Qed.

(** The estimator is only told of a block that touches the pool
    ([node/src/main.rs], [connect_pending]): a transaction entered after a
    block it was not told of and removed by the next one stays counted. *)
Lemma skipped_block_leaks_count :
  let e := run_or [OpBlock 10 [] true; OpTransaction (sample_mempool_tx 11 5000) true; OpRemove (ascii_bytes "a transaction")]
             sample_estimator in
  tracked Fee 1 (fe_mempool_txs e) = 0 /\ unconfirmed (stats_at Fee e) 1 = 1.
Proof. vm_compute. done. Qed.
