(* ===== verification/AddrBook.v ===== *)
(** * The address book ([node/src/main.rs], [AddrBook])

    What the node knows of the addresses of other nodes: when each was last
    seen, tried and reached.  Addresses that peers announce enter here, the
    ones to connect to or to announce are sampled from it.  The clock is an
    argument; the shuffle of the [rand] crate is a parameter that permutes;
    where the code iterates over a hash map the model takes the order of the
    finite map, and the theorems do not depend on it. *)

From S2P Require Import Prelude Consensus Encoding Wire Peers.
From Stdlib Require Import ZArith Lia.
From stdpp Require Import base list option numbers strings gmap sets sorting.
#[local] Open Scope Z_scope.

Definition ADDR_BOOK_MAX : nat := 5000.
Definition saturating_add_u32 (a b : Z) : Z := Z.min (a + b) u32_max.
Definition saturating_sub_u (a b : Z) : Z := Z.max (a - b) 0.
Definition saturating_sub_i32 (a b : Z) : Z := Z.max (-2147483648) (Z.min 2147483647 (a - b)).

Record AddrBookEntry := mkAddrEntry {
  ae_last_seen : Z; ae_last_success : Z; ae_last_failure : Z; ae_last_attempt : Z; ae_successes : Z; ae_failures : Z;
  ae_last_height : Z; ae_last_version : Z }.
Definition AddrBookEntry_default : AddrBookEntry := mkAddrEntry 0 0 0 0 0 0 0 0.
#[local] Notation Book := (gmap SocketAddr AddrBookEntry).
Record AddrBook := mkAddrBook { ab_entries : Book; ab_revision : Z }.
Definition AddrBook_default : AddrBook := mkAddrBook ∅ 0.

(** ** Entries *)
Definition addr_failure_cooldown_secs (failures : Z) : Z := Z.min (Z.min (5 * 2 ^ Z.min failures 10) u64_max) 3600.
(** [last_height + 100] wraps around. *)
Definition addr_is_eligible (addr : SocketAddr) (entry : AddrBookEntry) (now min_height : Z) : bool :=
  if sa_port addr =? 0 then false
  else if (0 <? ae_last_attempt entry) && (saturating_sub_u now (ae_last_attempt entry) <? 5) then false
  else if (0 <? min_height) && (0 <? ae_last_height entry) && (wrap_i32 (ae_last_height entry + 100) <? min_height) then false
  else if (ae_last_success entry <? ae_last_failure entry) && (0 <? ae_last_failure entry)
          && (now <? saturating_add_u64 (ae_last_failure entry) (addr_failure_cooldown_secs (ae_failures entry))) then false
  else true.
Definition addr_score (entry : AddrBookEntry) (now min_height : Z) : Z :=
  let score :=
    if 0 <? ae_last_success entry then
      let age := saturating_sub_u now (ae_last_success entry) in
      if age <? 3600 then 2000 else if age <? 86400 then 800 else if age <? 604800 then 200 else 0
    else 0 in
  let score := score + ae_successes entry * 15 in
  let score := score - ae_failures entry * 25 in
  let score := if 0 <? ae_last_height entry then score + Z.min (Z.quot (ae_last_height entry) 1000) 2500 else score in
  let score :=
    if (0 <? min_height) && (0 <? ae_last_height entry) then
      let delta := saturating_sub_i32 (ae_last_height entry) min_height in
      if -10 <=? delta then score + 300 else if -100 <=? delta then score + 100 else if delta <? -1000 then score - 1000 else score
    else score in
  if (ae_last_success entry <? ae_last_failure entry) && (0 <? ae_last_failure entry)
     && (saturating_sub_u now (ae_last_failure entry) <? 600)
  then score - 500 else score.
(** The groups that sampling spreads over: a tag for the family, and the start
    of the address. *)
Definition addr_bucket_key (addr : SocketAddr) : Z :=
  match sa_ip addr with
  | V4 octets => Z.lor (Z.shiftl 1 63) (from_be (take 2 octets))
  | V6 octets => Z.lor (wrap_u64 (Z.shiftl 2 62)) (from_be (take 4 octets))
  end.
Definition merge_addr_entry (existing incoming : AddrBookEntry) : AddrBookEntry :=
  mkAddrEntry (Z.max (ae_last_seen existing) (ae_last_seen incoming)) (Z.max (ae_last_success existing) (ae_last_success incoming))
    (Z.max (ae_last_failure existing) (ae_last_failure incoming)) (ae_last_attempt existing)
    (Z.max (ae_successes existing) (ae_successes incoming)) (Z.max (ae_failures existing) (ae_failures incoming))
    (if ae_last_height existing <? ae_last_height incoming then ae_last_height incoming else ae_last_height existing)
    (if ae_last_height existing <? ae_last_height incoming then ae_last_version incoming
     else if (ae_last_height incoming =? ae_last_height existing) && (ae_last_version existing <? ae_last_version incoming)
     then ae_last_version incoming else ae_last_version existing).

(** ** Keeping the book small *)
Definition still_useful (now : Z) (entry : AddrBookEntry) : bool :=
  let last_activity := Z.max (Z.max (ae_last_success entry) (ae_last_failure entry)) (ae_last_seen entry) in
  if last_activity =? 0 then true
  else if (ae_successes entry =? 0) && (last_activity <? saturating_sub_u now (14 * 86400)) then false
  else if (8 <=? ae_failures entry) && (ae_last_success entry =? 0) && (last_activity <? saturating_sub_u now 86400) then false
  else true.
Definition by_score (a b : SocketAddr * Z) : Prop := a.2 <= b.2.
#[global] Instance by_score_dec : RelDecision by_score.
Proof. unfold by_score. intros ??. apply _. Defined.
Definition prune_addr_book (now : Z) (book : Book) : Book :=
  let book := filter (fun kv => still_useful now kv.2 = true) book in
  if (base.size book <=? ADDR_BOOK_MAX)%nat then book
  else
    let scored := merge_sort by_score (map (fun kv => (kv.1, addr_score kv.2 now (-2147483648))) (map_to_list book)) in
    let excess := (base.size book - ADDR_BOOK_MAX)%nat in
    foldl (fun book a => delete a.1 book) book (take excess scored).

(** ** What happens to an address *)
Definition entry_of (addr : SocketAddr) (book : Book) : AddrBookEntry := default AddrBookEntry_default (book !! addr).
Definition bump (b : AddrBook) (entries : Book) : AddrBook := mkAddrBook entries (wrap_u64 (ab_revision b + 1)).
Definition book_record_attempt (now : Z) (addr : SocketAddr) (b : AddrBook) : AddrBook :=
  let e := entry_of addr (ab_entries b) in
  mkAddrBook (<[addr := mkAddrEntry (ae_last_seen e) (ae_last_success e) (ae_last_failure e) now (ae_successes e) (ae_failures e)
                          (ae_last_height e) (ae_last_version e)]> (ab_entries b)) (ab_revision b).
Definition book_record_success (now : Z) (addr : SocketAddr) (peer : Peer) (b : AddrBook) : AddrBook :=
  let e := entry_of addr (ab_entries b) in
  bump b (<[addr := mkAddrEntry now now (ae_last_failure e) (ae_last_attempt e) (saturating_add_u32 (ae_successes e) 1)
                      (saturating_sub_u (ae_failures e) 1) (p_remote_height peer) (p_remote_version peer)]> (ab_entries b)).
Definition book_record_failure (now : Z) (addr : SocketAddr) (b : AddrBook) : AddrBook :=
  let e := entry_of addr (ab_entries b) in
  bump b (<[addr := mkAddrEntry now (ae_last_success e) now (ae_last_attempt e) (ae_successes e)
                      (saturating_add_u32 (ae_failures e) 1) (ae_last_height e) (ae_last_version e)]> (ab_entries b)).

(** A place for one more address; [None] when there is none. *)
Definition place_for (now : Z) (addr : SocketAddr) (book : Book) : option Book * Book :=
  if negb (bool_decide (is_Some (book !! addr))) && (ADDR_BOOK_MAX <=? base.size book)%nat then
    let book := prune_addr_book now book in
    if (ADDR_BOOK_MAX <=? base.size book)%nat then (None, book) else (Some book, book)
  else (Some book, book).
Fixpoint insert_addrs (now : Z) (addrs : list SocketAddr) (book : Book) (inserted : nat) : Book * nat :=
  match addrs with
  | [] => (book, inserted)
  | addr :: addrs =>
      if sa_port addr =? 0 then insert_addrs now addrs book inserted
      else
        match place_for now addr book with
        | (None, book) => (book, inserted)
        | (Some book, _) =>
            let e := entry_of addr book in
            insert_addrs now addrs
              (<[addr := mkAddrEntry now (ae_last_success e) (ae_last_failure e) (ae_last_attempt e) (ae_successes e)
                           (ae_failures e) (ae_last_height e) (ae_last_version e)]> book)
              (if ae_last_seen e =? 0 then Datatypes.S inserted else inserted)
        end
  end.
Definition insert_many (now : Z) (addrs : list SocketAddr) (b : AddrBook) : nat * AddrBook :=
  match addrs with
  | [] => (O, b)
  | _ =>
      let '(book, inserted) := insert_addrs now addrs (ab_entries b) 0 in
      (inserted, if (0 <? inserted)%nat then bump b book else mkAddrBook book (ab_revision b))
  end.
Definition without_attempt (e : AddrBookEntry) : AddrBookEntry :=
  mkAddrEntry (ae_last_seen e) (ae_last_success e) (ae_last_failure e) 0 (ae_successes e) (ae_failures e) (ae_last_height e)
    (ae_last_version e).
Fixpoint load_addrs (now : Z) (loaded : list (SocketAddr * AddrBookEntry)) (book : Book) (inserted : nat) : Book * nat :=
  match loaded with
  | [] => (book, inserted)
  | (addr, e) :: loaded =>
      if sa_port addr =? 0 then load_addrs now loaded book inserted
      else
        let e := without_attempt e in
        match place_for now addr book with
        | (None, book) => (book, inserted)
        | (Some book, _) =>
            match book !! addr with
            | Some existing => load_addrs now loaded (<[addr := merge_addr_entry existing e]> book) inserted
            | None => load_addrs now loaded (<[addr := e]> book) (Datatypes.S inserted)
            end
        end
  end.
Definition load_entries (now : Z) (loaded : list (SocketAddr * AddrBookEntry)) (b : AddrBook) : nat * AddrBook :=
  match loaded with
  | [] => (O, b)
  | _ => let '(book, inserted) := load_addrs now loaded (ab_entries b) 0 in (inserted, bump b book)
  end.
Definition book_len (b : AddrBook) : nat := base.size (ab_entries b).
Definition book_snapshot (now : Z) (b : AddrBook) : list (SocketAddr * AddrBookEntry) * AddrBook :=
  let book := prune_addr_book now (ab_entries b) in
  (map_to_list book, mkAddrBook book (ab_revision b)).

(** ** Sampling *)
Definition BUCKET_KEEP : nat := 8.
#[local] Notation Buckets := (gmap Z (list (SocketAddr * Z))).
Definition add_to_bucket (buckets : Buckets) (a : SocketAddr * Z) : Buckets :=
  let key := addr_bucket_key a.1 in <[key := default [] (buckets !! key) ++ [a]]> buckets.
(** The best of a bucket, best last. *)
Definition bucket_list (entries : list (SocketAddr * Z)) : list SocketAddr :=
  let entries := merge_sort by_score entries in
  map fst (drop (length entries - BUCKET_KEEP) entries).
Definition to_bucket_lists (buckets : Buckets) : list (list SocketAddr) :=
  map (fun kv => bucket_list kv.2) (map_to_list buckets).

(** [Vec::pop] and [Vec::swap_remove]. *)
Definition pop {A} (l : list A) : option (A * list A) :=
  match rev l with [] => None | a :: l => Some (a, rev l) end.
Definition swap_remove {A} (i : nat) (l : list A) : list A :=
  match pop l with
  | None => l
  | Some (a, l') => if (i <? length l')%nat then <[i := a]> l' else l'
  end.
Fixpoint round_robin (fuel : nat) (buckets : list (list SocketAddr)) (idx target : nat) (out : list SocketAddr)
    : list (list SocketAddr) * list SocketAddr :=
  match fuel with
  | O => (buckets, out)
  | Datatypes.S fuel =>
      if (length out <? target)%nat && negb (length buckets =? 0)%nat then
        let idx := if (length buckets <=? idx)%nat then O else idx in
        match pop (nth idx buckets []) with
        | Some (addr, rest) => round_robin fuel (<[idx := rest]> buckets) (Datatypes.S idx) target (out ++ [addr])
        | None => round_robin fuel (swap_remove idx buckets) idx target out
        end
      else (buckets, out)
  end.
(** Every round takes an address or drops a bucket. *)
Definition robin_fuel (buckets : list (list SocketAddr)) : nat := (length (concat buckets) + length buckets)%nat.

Section sampling.
  Context (shuffle : nat -> list (list SocketAddr) -> list (list SocketAddr)).

Definition take_round_robin (call : nat) (buckets : list (list SocketAddr)) (count : nat) (out : list SocketAddr)
    : list (list SocketAddr) * list SocketAddr :=
  if (count =? 0)%nat then (buckets, out)
  else
    let buckets := shuffle call buckets in
    round_robin (robin_fuel buckets) buckets 0 (length out + count) out.
Definition scored_entries (now min_height : Z) (book : Book) : list (SocketAddr * Z * bool) :=
  omap (fun kv => if addr_is_eligible kv.1 kv.2 now min_height
                  then Some (kv.1, addr_score kv.2 now min_height, 0 <? ae_last_success kv.2) else None) (map_to_list book).
Definition buckets_of (tried : bool) (scored : list (SocketAddr * Z * bool)) : Buckets :=
  foldl add_to_bucket ∅ (map fst (filter (fun s => s.2 = tried) scored)).
Definition sample_for_height (now : Z) (limit : nat) (min_height : Z) (b : AddrBook) : list SocketAddr :=
  if (limit =? 0)%nat then []
  else
    match scored_entries now min_height (ab_entries b) with
    | [] => []
    | scored =>
        let tried_lists := to_bucket_lists (buckets_of true scored) in
        let new_lists := to_bucket_lists (buckets_of false scored) in
        let tried_target := (limit * 3 / 4)%nat in
        let '(tried_lists, addrs) := take_round_robin 0 tried_lists tried_target [] in
        let '(new_lists, addrs) := take_round_robin 1 new_lists (limit - length addrs) addrs in
        let '(tried_lists, addrs) := take_round_robin 2 tried_lists (limit - length addrs) addrs in
        take limit addrs
    end.
Definition sample (now : Z) (limit : nat) (b : AddrBook) : list SocketAddr := sample_for_height now limit (-2147483648) b.
End sampling.

(** ** Facts about the operations *)
Lemma pop_Some {A} (l : list A) a l' : pop l = Some (a, l') -> l = l' ++ [a].
Proof.
  unfold pop. destruct (rev l) as [|b m] eqn:E; [done|]. intros [= <- <-]. by rewrite <- (rev_involutive l), E.
Qed.
Lemma pop_None {A} (l : list A) : pop l = None -> l = [].
Proof. unfold pop. destruct (rev l) eqn:E; [|done]. intros _. by rewrite <- (rev_involutive l), E. Qed.
Lemma swap_remove_perm {A} i (l : list A) a : l !! i = Some a -> l ≡ₚ a :: swap_remove i l.
Proof.
  intros Hi. unfold swap_remove. destruct (pop l) as [[b l']|] eqn:E; [|by rewrite (pop_None l E) in Hi].
  apply pop_Some in E as ->. destruct (i <? length l')%nat eqn:Hlt.
  - apply Nat.ltb_lt in Hlt. rewrite lookup_app_l in Hi by done.
    rewrite (Permutation_app_comm l'). simpl. rewrite <- (take_drop_middle l' i a Hi) at 1.
    rewrite insert_take_drop by done. rewrite <- !Permutation_middle. apply perm_swap.
  - apply Nat.ltb_ge in Hlt. assert (i = length l') as ->.
    { apply lookup_lt_Some in Hi. rewrite length_app in Hi. simpl in Hi. lia. }
    rewrite list_lookup_middle in Hi by done. injection Hi as ->. apply Permutation_app_comm.
Qed.
Lemma concat_insert {A} i (l : list (list A)) x y : l !! i = Some (x ++ [y]) -> concat l ≡ₚ y :: concat (<[i := x]> l).
Proof.
  intros Hi. rewrite <- (take_drop_middle l i _ Hi) at 1. rewrite insert_take_drop by (by eapply lookup_lt_Some).
  rewrite !concat_app. simpl. rewrite <- app_assoc. simpl. by rewrite <- !Permutation_middle.
Qed.
Lemma concat_perm {A} (l l' : list (list A)) : l ≡ₚ l' -> concat l ≡ₚ concat l'.
Proof.
  induction 1 as [|x l l' _ IH|x y l|l1 l2 l3 _ IH1 _ IH2]; simpl; [done|by rewrite IH| |by etrans].
  by rewrite !app_assoc, (Permutation_app_comm y x).
Qed.

(** [round_robin] takes addresses off the lists, until it has enough or nothing
    is left. *)
Lemma round_robin_spec fuel buckets idx target out buckets' out' :
  (robin_fuel buckets <= fuel)%nat -> round_robin fuel buckets idx target out = (buckets', out') ->
  (length out <= target)%nat ->
  exists taken, out' = out ++ taken /\ concat buckets ≡ₚ taken ++ concat buckets' /\ (length out' <= target)%nat
    /\ (length out' = target \/ concat buckets' = []).
Proof.
  revert buckets idx out. induction fuel as [|fuel IH]; intros buckets idx out Hf Hr Ho; cbn [round_robin] in Hr.
  { injection Hr as <- <-. exists []. rewrite app_nil_r. split_and!; [done..|right].
    unfold robin_fuel in Hf. destruct (concat buckets); [done|simpl in Hf; lia]. }
  destruct (_ && _) eqn:Hgo.
  - apply andb_prop in Hgo as [Hlen Hne]. apply Nat.ltb_lt in Hlen. apply negb_true_iff, Nat.eqb_neq in Hne.
    cbv zeta in Hr. set (i := if (length buckets <=? idx)%nat then O else idx) in *. assert (i < length buckets)%nat as Hi.
    { unfold i. destruct (length buckets <=? idx)%nat eqn:E; [lia|]. apply Nat.leb_gt in E. done. }
    destruct (nth_lookup_or_length buckets i []) as [Hl|]; [|lia]. unfold robin_fuel in *.
    destruct (pop (nth i buckets [])) as [[addr rest]|] eqn:Hp.
    + apply pop_Some in Hp. rewrite Hp in Hl. pose proof (concat_insert _ _ _ _ Hl) as Hc.
      pose proof (Permutation_length Hc) as Hcl. simpl in Hcl.
      apply IH in Hr as (taken&->&Ht&H1&H2); [|rewrite length_insert; lia|rewrite length_app; simpl; lia].
      exists (addr :: taken). rewrite <- app_assoc. split_and!; [done| | |].
      * rewrite Hc, Ht. done.
      * rewrite <- app_assoc in H1. done.
      * rewrite <- app_assoc in H2. done.
    + apply pop_None in Hp. rewrite Hp in Hl. pose proof (swap_remove_perm _ _ _ Hl) as Hs.
      pose proof (Permutation_length Hs) as Hsl. simpl in Hsl. pose proof (concat_perm _ _ Hs) as Hc. simpl in Hc.
      pose proof (Permutation_length Hc) as Hcl.
      apply IH in Hr as (taken&->&Ht&H1&H2); [|lia|done]. exists taken. split_and!; [done| |done|done]. by rewrite Hc.
  - injection Hr as <- <-. exists []. rewrite app_nil_r. split_and!; [done..|].
    apply andb_false_iff in Hgo as [H%Nat.ltb_ge|H%negb_false_iff%Nat.eqb_eq]; [left; lia|right].
    by destruct buckets.
Qed.

(** ** Groups *)
Lemma filter_none {A} (P : A -> Prop) `{!forall x, Decision (P x)} l : Forall (fun x => ~ P x) l -> filter P l = [].
Proof. induction 1 as [|x l Hx _ IH]; [done|]. by rewrite filter_cons_False. Qed.
Lemma filter_sub {A} (P : A -> Prop) `{!forall x, Decision (P x)} l : filter P l ⊆+ l.
Proof.
  induction l as [|x l IH]; [done|]. destruct (decide (P x)); [rewrite filter_cons_True by done|rewrite filter_cons_False by done].
  - by apply submseteq_skip.
  - by apply submseteq_cons.
Qed.
Lemma nodup_sub {A} (l k : list A) : l ⊆+ k -> NoDup k -> NoDup l.
Proof. intros [k' ->]%submseteq_Permutation. by intros [? _]%NoDup_app. Qed.
Lemma add_to_buckets_perm l (buckets : Buckets) :
  concat (map (fun kv => kv.2) (map_to_list (foldl add_to_bucket buckets l)))
  ≡ₚ concat (map (fun kv => kv.2) (map_to_list buckets)) ++ l.
Proof.
  revert buckets. induction l as [|a l IH]; intros buckets; cbn [foldl]; [by rewrite app_nil_r|].
  rewrite IH, (app_assoc _ [a] l). apply Permutation_app_tail. unfold add_to_bucket.
  set (k := addr_bucket_key a.1). destruct (buckets !! k) as [x|] eqn:E.
  - assert (map_to_list (<[k := x ++ [a]]> buckets) ≡ₚ (k, x ++ [a]) :: map_to_list (delete k buckets)) as ->.
    { rewrite <- insert_delete_eq. apply map_to_list_insert, lookup_delete_eq. }
    assert (map_to_list buckets ≡ₚ (k, x) :: map_to_list (delete k buckets)) as ->.
    { rewrite <- (insert_delete_id buckets k x E) at 1. apply map_to_list_insert, lookup_delete_eq. }
    simpl. rewrite <- !app_assoc. apply Permutation_app_head, Permutation_app_comm.
  - rewrite map_to_list_insert by done. simpl. apply (Permutation_app_comm [a]).
Qed.
(** Every bucket holds addresses of its own group. *)
Lemma add_to_buckets_keys l (buckets : Buckets) :
  (forall k x, buckets !! k = Some x -> Forall (fun a => addr_bucket_key a.1 = k) x) ->
  forall k x, foldl add_to_bucket buckets l !! k = Some x -> Forall (fun a => addr_bucket_key a.1 = k) x.
Proof.
  revert buckets. induction l as [|a l IH]; intros buckets Hb; cbn [foldl]; [done|]. apply IH.
  intros k x. unfold add_to_bucket. intros [[<- <-]|[_ Hl]]%lookup_insert_Some; [|by apply Hb].
  apply Forall_app. split; [|by repeat constructor]. destruct (buckets !! _) as [y|] eqn:E; [by apply Hb|constructor].
Qed.

Definition in_group (key : Z) (addrs : list SocketAddr) : list SocketAddr := filter (fun a => addr_bucket_key a = key) addrs.
Lemma bucket_list_sub x : bucket_list x ⊆+ map fst x.
Proof.
  unfold bucket_list. rewrite <- (merge_sort_Permutation by_score x) at 3. apply fmap_submseteq.
  apply sublist_submseteq, sublist_drop.
Qed.
Lemma bucket_list_length x : (length (bucket_list x) <= BUCKET_KEEP)%nat.
Proof. unfold bucket_list. rewrite length_map, length_drop. lia. Qed.
Lemma bucket_lists_group (kvs : list (Z * list (SocketAddr * Z))) key :
  NoDup (map fst kvs) -> Forall (fun kv => Forall (fun a => addr_bucket_key a.1 = kv.1) kv.2) kvs ->
  (length (in_group key (concat (map (fun kv => bucket_list kv.2) kvs))) <= if decide (key ∈ map fst kvs) then BUCKET_KEEP else 0)%nat.
Proof.
  unfold in_group. induction kvs as [|[k x] kvs IH]; intros Hn Hk; simpl; [done|].
  apply NoDup_cons in Hn as [Hk' Hn]. apply Forall_cons in Hk as [Hx Hk]. specialize (IH Hn Hk). simpl in *.
  rewrite filter_app, length_app.
  assert (Forall (fun a => addr_bucket_key a = k) (bucket_list x)) as Hb.
  { apply Forall_forall. intros a Ha. pose proof (elem_of_submseteq _ _ _ Ha (bucket_list_sub x)) as Hm.
    apply list_elem_of_fmap in Hm as (y&->&Hy). by eapply Forall_forall in Hx. }
  destruct (decide (k = key)) as [->|Hne].
  - rewrite decide_True by apply list_elem_of_here. rewrite decide_False in IH by done.
    pose proof (length_filter (fun a => addr_bucket_key a = key) (bucket_list x)). pose proof (bucket_list_length x). lia.
  - replace (filter (fun a => addr_bucket_key a = key) (bucket_list x)) with (@nil SocketAddr).
    + simpl. etrans; [exact IH|]. destruct (decide (key ∈ map fst kvs)); [rewrite decide_True by by apply list_elem_of_further|]; lia.
    + symmetry. apply filter_none. eapply Forall_impl; [exact Hb|]. by intros a <-.
Qed.
Lemma to_bucket_lists_sub (buckets : Buckets) :
  concat (to_bucket_lists buckets) ⊆+ map fst (concat (map (fun kv => kv.2) (map_to_list buckets))).
Proof.
  unfold to_bucket_lists. induction (map_to_list buckets) as [|kv l IH]; simpl; [done|].
  rewrite map_app. by apply submseteq_app; [apply bucket_list_sub|].
Qed.
Lemma to_bucket_lists_group l key :
  (length (in_group key (concat (to_bucket_lists (foldl add_to_bucket ∅ l)))) <= BUCKET_KEEP)%nat.
Proof.
  etrans; [apply bucket_lists_group|destruct (decide _); unfold BUCKET_KEEP; lia].
  - apply NoDup_fst_map_to_list.
  - apply Forall_forall. intros [k x] Hkx%elem_of_map_to_list. simpl.
    eapply (add_to_buckets_keys l ∅); [intros ??; by rewrite lookup_empty|exact Hkx].
Qed.
Lemma to_bucket_lists_scored l : concat (to_bucket_lists (foldl add_to_bucket ∅ l)) ⊆+ map fst l.
Proof.
  etrans; [apply to_bucket_lists_sub|]. rewrite add_to_buckets_perm. by rewrite map_to_list_empty.
Qed.

(** ** Sampling *)
(** The addresses kept of a sample: the best of each bucket, tried or not. *)
Definition kept_addrs (tried : bool) (now min_height : Z) (b : AddrBook) : list SocketAddr :=
  concat (to_bucket_lists (buckets_of tried (scored_entries now min_height (ab_entries b)))).
Lemma kept_group tried now min_height b key : (length (in_group key (kept_addrs tried now min_height b)) <= BUCKET_KEEP)%nat.
Proof. apply to_bucket_lists_group. Qed.
Lemma scored_sub tried now min_height (book : Book) :
  map fst (map fst (filter (fun s : SocketAddr * Z * bool => s.2 = tried) (scored_entries now min_height book)))
  = map fst (filter (fun kv => addr_is_eligible kv.1 kv.2 now min_height = true /\ (0 <? ae_last_success kv.2) = tried) (map_to_list book)).
Proof.
  unfold scored_entries. induction (map_to_list book) as [|[a e] l IH]; [done|].
  change (omap ?f ((a, e) :: l)) with (match f (a, e) with Some b => b :: omap f l | None => omap f l end). cbv beta.
  destruct (addr_is_eligible _ _ _ _) eqn:E; cbn [fst snd] in *.
  - destruct (decide ((0 <? ae_last_success e) = tried)) as [Ht|Ht].
    + rewrite !filter_cons_True by done. simpl. by rewrite IH.
    + rewrite !filter_cons_False by (cbn; tauto). done.
  - rewrite filter_cons_False by (cbn; intuition congruence). done.
Qed.
Lemma filter_split_perm {A} (P f : A -> bool) l :
  filter (fun x => P x = true /\ f x = true) l ++ filter (fun x => P x = true /\ f x = false) l ≡ₚ filter (fun x => P x = true) l.
Proof.
  induction l as [|x l IH]; [done|]. destruct (P x) eqn:EP.
  - rewrite (filter_cons_True (fun x => P x = true)) by done. destruct (f x) eqn:Ef.
    + rewrite filter_cons_True, filter_cons_False by (cbn; intuition congruence). simpl. by rewrite IH.
    + rewrite filter_cons_False, filter_cons_True by (cbn; intuition congruence). by rewrite <- Permutation_middle, IH.
  - by rewrite !filter_cons_False by (cbn; intuition congruence).
Qed.
Definition eligible_addrs (now min_height : Z) (b : AddrBook) : list SocketAddr :=
  map fst (filter (fun kv => addr_is_eligible kv.1 kv.2 now min_height = true) (map_to_list (ab_entries b))).
Lemma kept_sub now min_height b :
  kept_addrs true now min_height b ++ kept_addrs false now min_height b ⊆+ eligible_addrs now min_height b.
Proof.
  etrans; [apply submseteq_app; apply to_bucket_lists_scored|]. rewrite !scored_sub, <- map_app. apply fmap_submseteq.
  by rewrite (filter_split_perm (fun kv => addr_is_eligible kv.1 kv.2 now min_height) (fun kv => 0 <? ae_last_success kv.2)).
Qed.
Lemma eligible_nodup now min_height b : NoDup (eligible_addrs now min_height b).
Proof. eapply nodup_sub; [apply fmap_submseteq, filter_sub|]. apply NoDup_fst_map_to_list. Qed.

Section sampling_facts.
  Context (shuffle : nat -> list (list SocketAddr) -> list (list SocketAddr)).
  Context (shuffle_perm : forall call l, shuffle call l ≡ₚ l).

Lemma take_round_robin_spec call buckets count out buckets' out' :
  take_round_robin shuffle call buckets count out = (buckets', out') ->
  exists taken, out' = out ++ taken /\ concat buckets ≡ₚ taken ++ concat buckets'
    /\ length taken = Nat.min count (length (concat buckets)).
Proof.
  unfold take_round_robin. destruct (count =? 0)%nat eqn:E.
  { apply Nat.eqb_eq in E as ->. intros [= <- <-]. exists []. by rewrite app_nil_r. }
  cbv zeta. pose proof (concat_perm _ _ (shuffle_perm call buckets)) as Hp. intros Hr.
  apply round_robin_spec in Hr as (taken&->&Ht&H1&H2); [|done|lia]. exists taken. rewrite length_app in *.
  split_and!; [done|by rewrite <- Hp|]. rewrite <- Hp. apply Permutation_length in Ht. rewrite length_app in Ht.
  destruct H2 as [H2|H2]; [lia|]. rewrite H2 in Ht. simpl in Ht. lia.
Qed.
Lemma sample_spec now limit min_height b :
  exists rest, sample_for_height shuffle now limit min_height b ++ rest
      ≡ₚ kept_addrs true now min_height b ++ kept_addrs false now min_height b
    /\ length (sample_for_height shuffle now limit min_height b)
       = Nat.min limit (length (kept_addrs true now min_height b ++ kept_addrs false now min_height b)).
Proof.
  unfold sample_for_height, kept_addrs. destruct (limit =? 0)%nat eqn:El.
  { apply Nat.eqb_eq in El as ->. by exists (kept_addrs true now min_height b ++ kept_addrs false now min_height b). }
  apply Nat.eqb_neq in El. destruct (scored_entries _ _ _) as [|s0 ss] eqn:Es.
  { exists []. split; [done|]. symmetry. apply (Nat.min_0_r limit). }
  rewrite <- Es. cbv zeta. clear Es s0 ss. set (T := to_bucket_lists _). set (N := to_bucket_lists (buckets_of false _)).
  assert ((limit * 3 / 4 <= limit)%nat) as Hq by (apply Nat.Div0.div_le_upper_bound; lia). set (q := (limit * 3 / 4)%nat) in *.
  destruct (take_round_robin shuffle 0 T q []) as [T1 a1] eqn:E1.
  destruct (take_round_robin shuffle 1 N (limit - length a1) a1) as [N1 a2] eqn:E2.
  destruct (take_round_robin shuffle 2 T1 (limit - length a2) a2) as [T2 a3] eqn:E3.
  apply take_round_robin_spec in E1 as (t1&->&P1&L1), E2 as (t2&->&P2&L2), E3 as (t3&->&P3&L3).
  rewrite ?length_app in *. simpl in *. pose proof (Permutation_length P1) as Q1. rewrite length_app in Q1.
  rewrite take_ge by (rewrite !length_app; lia).
  exists (concat T2 ++ concat N1). split.
  - rewrite P1, P2, P3. rewrite <- !app_assoc. apply Permutation_app_head. rewrite !(Permutation_app_comm t2).
    rewrite <- !app_assoc. apply Permutation_app_head, Permutation_app_head. by rewrite (Permutation_app_comm (concat N1)).
  - rewrite !length_app. lia.
Qed.

End sampling_facts.

(** ** The book stays small *)
Lemma delete_all_size (l : list (SocketAddr * Z)) (book : Book) :
  NoDup (map fst l) -> Forall (fun a => is_Some (book !! a.1)) l ->
  base.size (foldl (fun book a => delete a.1 book) book l) = (base.size book - length l)%nat.
Proof.
  revert book. induction l as [|a l IH]; intros book Hn Hs; cbn [foldl map length] in *; [lia|].
  apply NoDup_cons in Hn as [Ha Hn]. apply Forall_cons in Hs as [Hsa Hs]. rewrite IH; [|done|].
  - rewrite map_size_delete_Some by done. lia.
  - apply Forall_forall. intros b Hb. rewrite Forall_forall in Hs. rewrite lookup_delete_ne; [by apply Hs|].
    intros Heq. apply Ha. rewrite Heq. by apply list_elem_of_fmap_2.
Qed.
Lemma delete_all_sub (l : list (SocketAddr * Z)) (book : Book) : foldl (fun book a => delete a.1 book) book l ⊆ book.
Proof.
  revert book. induction l as [|a l IH]; intros book; cbn [foldl]; [done|]. etrans; [apply IH|apply delete_subseteq].
Qed.
Lemma prune_sub now (book : Book) : prune_addr_book now book ⊆ book.
Proof.
  unfold prune_addr_book. cbv zeta. destruct (_ <=? _)%nat; [apply map_filter_subseteq|].
  etrans; [apply delete_all_sub|apply map_filter_subseteq].
Qed.
Lemma prune_size now (book : Book) : (base.size (prune_addr_book now book) <= ADDR_BOOK_MAX)%nat.
Proof.
  unfold prune_addr_book. cbv zeta. set (f := filter _ book). destruct (_ <=? _)%nat eqn:E; [by apply Nat.leb_le|].
  apply Nat.leb_gt in E. set (scored := merge_sort _ _). set (scores := map _ (map_to_list f)) in scored.
  assert (scored ≡ₚ scores) as Hp by apply merge_sort_Permutation.
  assert (map fst scores = map fst (map_to_list f)) as Hf by (unfold scores; by rewrite map_map).
  assert (length scored = base.size f) as Hl.
  { rewrite Hp, <- (length_map fst), Hf, length_map. apply length_map_to_list. }
  rewrite delete_all_size.
  - rewrite length_take, Hl. lia.
  - eapply nodup_sub; [apply fmap_submseteq, sublist_submseteq, sublist_take|]. change (NoDup (map fst scored)).
    eapply nodup_sub; [|apply (NoDup_fst_map_to_list f)]. change (map fst scored ⊆+ map fst (map_to_list f)). rewrite <- Hf.
    apply fmap_submseteq. by rewrite Hp.
  - apply Forall_take, Forall_forall. intros a Ha. rewrite Hp in Ha. apply list_elem_of_fmap in Ha as ([a' e]&->&Hm).
    rewrite elem_of_map_to_list in Hm. by exists e.
Qed.

(** What an address is known for, apart from when it was seen. *)
Definition history (e : AddrBookEntry) : Z * Z * Z * Z * Z * Z * Z :=
  (ae_last_success e, ae_last_failure e, ae_last_attempt e, ae_successes e, ae_failures e, ae_last_height e, ae_last_version e).
(** The book grows by addresses of [addrs] only, seen now, and keeps what it
    knows of the others. *)
Definition grown (now : Z) (addrs : list SocketAddr) (book book' : Book) : Prop :=
  forall addr e', book' !! addr = Some e' ->
    book !! addr = Some e'
    \/ (addr ∈ addrs /\ sa_port addr <> 0 /\ ae_last_seen e' = now
        /\ (history e' = history AddrBookEntry_default \/ exists e, book !! addr = Some e /\ history e' = history e)).
Lemma grown_sub now addrs (book book' : Book) : book' ⊆ book -> grown now addrs book book'.
Proof. intros Hs addr e He. left. by eapply lookup_weaken. Qed.
Lemma place_for_spec now addr (book : Book) o book1 :
  (base.size book <= ADDR_BOOK_MAX)%nat -> place_for now addr book = (o, book1) ->
  book1 ⊆ book /\ (base.size book1 <= ADDR_BOOK_MAX)%nat
  /\ forall book', o = Some book' -> book' = book1 /\ (is_Some (book1 !! addr) \/ (base.size book1 < ADDR_BOOK_MAX)%nat).
Proof.
  intros Hb. unfold place_for. destruct (_ && _) eqn:E.
  2: { intros Heq. injection Heq as <- <-. split_and!; [done|done|]. intros book' [= <-]. split; [done|].
    apply andb_false_iff in E as [E|E]; [left|right].
    + by apply negb_false_iff, bool_decide_eq_true in E.
    + by apply Nat.leb_gt. }
  pose proof (prune_size now book). cbv zeta. destruct (ADDR_BOOK_MAX <=? base.size (prune_addr_book now book))%nat eqn:E1;
    intros Heq; injection Heq as <- <-; (split_and!; [apply prune_sub|done|]); [done|].
  intros book' [= <-]. split; [done|right]. by apply Nat.leb_gt.
Qed.
Lemma insert_size addr (e : AddrBookEntry) (book : Book) :
  is_Some (book !! addr) \/ (base.size book < ADDR_BOOK_MAX)%nat -> (base.size book <= ADDR_BOOK_MAX)%nat ->
  (base.size (<[addr := e]> book) <= ADDR_BOOK_MAX)%nat.
Proof.
  intros H Hb. destruct (book !! addr) as [e0|] eqn:E.
  - by rewrite map_size_insert_Some.
  - rewrite map_size_insert_None by done. destruct H as [[? [=]]|]. lia.
Qed.
Lemma insert_addrs_spec now addrs (book : Book) inserted book' inserted' :
  (base.size book <= ADDR_BOOK_MAX)%nat -> insert_addrs now addrs book inserted = (book', inserted') ->
  (base.size book' <= ADDR_BOOK_MAX)%nat /\ grown now addrs book book'.
Proof.
  revert book inserted. induction addrs as [|addr addrs IH]; intros book inserted Hb; cbn [insert_addrs].
  { intros [= <- <-]. split; [done|by apply grown_sub]. }
  destruct (sa_port addr =? 0) eqn:Ep.
  { intros Hi. apply IH in Hi as [H1 H2]; [|done]. split; [done|]. intros a e Ha.
    destruct (H2 a e Ha) as [|(?&?&?&?)]; [by left|right]. split_and!; [by apply list_elem_of_further|done..]. }
  destruct (place_for now addr book) as [o book1] eqn:Epl. apply place_for_spec in Epl as (Hs&Hb1&Ho); [|done].
  destruct o as [book2|]; [|intros [= <- <-]; split; [done|by apply grown_sub]]. destruct (Ho _ eq_refl) as [-> Hroom].
  cbv zeta. set (e1 := mkAddrEntry _ _ _ _ _ _ _ _). intros Hi. apply IH in Hi as [H1 H2]; [|by apply insert_size].
  split; [done|]. intros a e Ha. destruct (H2 a e Ha) as [[[<- <-]|[_ Hl]]%lookup_insert_Some|(Hin&Hport&Hseen&Hh)].
  - right. split_and!; [apply list_elem_of_here|lia|done|]. unfold e1, entry_of, history.
    destruct (book1 !! addr) as [e0|] eqn:E0; [right|by left]. exists e0. split; [by eapply lookup_weaken|done].
  - left. by eapply lookup_weaken.
  - right. split_and!; [by apply list_elem_of_further|done|done|]. destruct Hh as [Hh|(e0&He0&Hh)]; [by left|].
    apply lookup_insert_Some in He0 as [[<- <-]|[_ Hl]].
    + unfold e1, entry_of in Hh. destruct (book1 !! addr) as [e0|] eqn:E0; [|by left].
      right. exists e0. split; [by eapply lookup_weaken|]. by rewrite Hh.
    + right. exists e0. split; [by eapply lookup_weaken|done].
Qed.
Lemma load_addrs_size now loaded (book : Book) inserted :
  (base.size book <= ADDR_BOOK_MAX)%nat -> (base.size (load_addrs now loaded book inserted).1 <= ADDR_BOOK_MAX)%nat.
Proof.
  revert book inserted. induction loaded as [|[addr e] loaded IH]; intros book inserted Hb; cbn [load_addrs]; [done|].
  destruct (sa_port addr =? 0); [by apply IH|]. cbv zeta.
  destruct (place_for now addr book) as [o book1] eqn:Epl. apply place_for_spec in Epl as (Hs&Hb1&Ho); [|done].
  destruct o as [book2|]; [|done]. destruct (Ho _ eq_refl) as [-> Hroom].
  destruct (book1 !! addr) as [e0|] eqn:E0; apply IH, insert_size; [by rewrite E0|done|by rewrite E0|done].
Qed.

(** What peers announce cannot fill the node's memory or rewrite what
    it knows.  Adding announced addresses keeps the book within 5000 entries;
    an entry of the new book is an old one, or is of an announced address with
    a port, seen now, and then everything else it says is what the book knew
    or nothing; loading saved entries and pruning keep the bound too. *)
Theorem address_book_bounded now addrs loaded b :
  (base.size (ab_entries b) <= ADDR_BOOK_MAX)%nat ->
  (book_len (insert_many now addrs b).2 <= ADDR_BOOK_MAX)%nat
  /\ grown now addrs (ab_entries b) (ab_entries (insert_many now addrs b).2)
  /\ (book_len (load_entries now loaded b).2 <= ADDR_BOOK_MAX)%nat
  /\ (book_len (book_snapshot now b).2 <= ADDR_BOOK_MAX)%nat.
Proof.
  intros Hb. unfold book_len.
  assert (base.size (ab_entries (insert_many now addrs b).2) <= ADDR_BOOK_MAX
    /\ grown now addrs (ab_entries b) (ab_entries (insert_many now addrs b).2))%nat as [H1 H2].
  { unfold insert_many. destruct addrs as [|a addrs]; [split; [done|by apply grown_sub]|].
    destruct (insert_addrs _ _ _ _) as [book inserted] eqn:E. apply insert_addrs_spec in E as [H1 H2]; [|done].
    by destruct (0 <? inserted)%nat. }
  split_and!; [done|done| |apply prune_size].
  unfold load_entries. destruct loaded as [|l loaded]; [done|]. pose proof (load_addrs_size now (l :: loaded) (ab_entries b) 0 Hb).
  by destruct (load_addrs _ _ _ _).
Qed.

(** ** On concrete addresses *)
(** The tags of the two families are the same bit, so that an IPv4 group and an
    IPv6 group share a bucket. *)
Lemma family_tags_collide port :
  addr_bucket_key (mkSocketAddr (V4 [1; 2; 9; 9]) port) = addr_bucket_key (mkSocketAddr (V6 ([0; 0; 1; 2] ++ zeros 12)) port).
Proof. vm_compute. reflexivity. Qed.
(** A peer that claims the greatest height is never eligible again: the sum
    wraps around. *)
Lemma height_claim_wraps addr now :
  sa_port addr <> 0 -> addr_is_eligible addr (mkAddrEntry 1 1 0 0 1 0 2147483647 0) now 1 = false.
Proof. intros Hp. unfold addr_is_eligible. destruct (sa_port addr =? 0) eqn:E; [lia|]. reflexivity. Qed.

Definition sample_addr (n : Z) : SocketAddr := mkSocketAddr (V4 [10; 0; 0; n]) 16125.
Definition sample_book : AddrBook :=
  book_record_failure 90 (sample_addr 2) (insert_many 80 (map sample_addr (map Z.of_nat (seq 1 12))) AddrBook_default).2.
Lemma address_book_bounded_witness :
  (book_len (insert_many 100 [sample_addr 40] sample_book).2 <= ADDR_BOOK_MAX)%nat.
Proof.
  destruct (address_book_bounded 100 [sample_addr 40] [] sample_book) as [H _]; [|exact H].
  apply Nat.leb_le. vm_compute. reflexivity.
Defined.
Example sampled : length (sample_for_height (fun _ l => l) 200 6 0 sample_book) = 6%nat
  /\ length (sample_for_height (fun _ l => l) 200 50 0 sample_book) = 8%nat.
Proof. vm_compute. done. Qed.
