(* ===== verification/PeerBook.v ===== *)
(** * Scores and bans of peers ([node/src/peer_book.rs])

    [HeaderPeerBook] scores the peers that headers come from and bans
    addresses until a time.  A ban that has run out is only forgotten when it
    is looked at.  Times are nanoseconds since 1970 and an argument; a sum of
    times that leaves the range of [SystemTime] aborts, and the abort happens
    while the list of bans is locked, which poisons it: [hb_banned] is [None]
    from then on, and every operation treats it as the code does.  Reading and
    writing the JSON file is an argument and a result ([serde_json]). *)

From S2P Require Import Prelude Consensus Encoding Wire Peers.
From Stdlib Require Import ZArith Lia.
From stdpp Require Import base list option numbers strings gmap sets sorting.
#[local] Open Scope Z_scope.

(** ** Times *)
Definition NANOS : Z := 1000000000.
(** [time + Duration::from_secs(secs)]; [None] aborts. *)
Definition add_secs (time secs : Z) : option Z :=
  if time / NANOS + secs <=? i64_max then Some (time + secs * NANOS) else None.
Definition as_secs (time : Z) : Z := time / NANOS.

(** ** The book *)
Record HeaderPeerBook := mkPeerBook {
  hb_scores : gmap SocketAddr Z; hb_banned : option (gmap SocketAddr Z); hb_revision : Z }.
Definition HeaderPeerBook_default : HeaderPeerBook := mkPeerBook ∅ (Some ∅) 0.
Definition set_scores (scores : gmap SocketAddr Z) (b : HeaderPeerBook) : HeaderPeerBook :=
  mkPeerBook scores (hb_banned b) (hb_revision b).
(** [revision.fetch_add(1)], [n] times. *)
Definition set_banned (banned : gmap SocketAddr Z) (n : Z) (b : HeaderPeerBook) : HeaderPeerBook :=
  mkPeerBook (hb_scores b) (Some banned) (wrap_u64 (hb_revision b + n)).
Definition poison (b : HeaderPeerBook) : HeaderPeerBook := mkPeerBook (hb_scores b) None (hb_revision b).

Definition saturating_add_i32 (a b : Z) : Z := Z.max (-2147483648) (Z.min 2147483647 (a + b)).
Definition peer_success (addr : SocketAddr) (b : HeaderPeerBook) : HeaderPeerBook :=
  set_scores (<[addr := saturating_add_i32 (default 0 (hb_scores b !! addr)) 3]> (hb_scores b)) b.
Definition peer_failure (addr : SocketAddr) (b : HeaderPeerBook) : HeaderPeerBook :=
  set_scores (<[addr := saturating_add_i32 (default 0 (hb_scores b !! addr)) (-1)]> (hb_scores b)) b.
Definition is_banned (now : Z) (addr : SocketAddr) (b : HeaderPeerBook) : bool * HeaderPeerBook :=
  match hb_banned b with
  | None => (false, b)
  | Some banned =>
      match banned !! addr with
      | Some until => if now <? until then (true, b) else (false, set_banned (delete addr banned) 1 b)
      | None => (false, b)
      end
  end.
(** [None] is an abort. *)
Definition ban_for (now : Z) (addr : SocketAddr) (secs : Z) (b : HeaderPeerBook) : option unit * HeaderPeerBook :=
  match hb_banned b with
  | None => (Some tt, b)
  | Some banned =>
      match add_secs now secs with
      | Some until => (Some tt, set_banned (<[addr := until]> banned) 1 b)
      | None => (None, poison b)
      end
  end.
Definition record_bad_chain (now : Z) (addr : SocketAddr) (ban_secs : Z) (b : HeaderPeerBook) : option unit * HeaderPeerBook :=
  ban_for now addr ban_secs (peer_failure addr b).
Definition unban (addr : SocketAddr) (b : HeaderPeerBook) : bool * HeaderPeerBook :=
  match hb_banned b with
  | None => (false, b)
  | Some banned =>
      match banned !! addr with
      | Some _ => (true, set_banned (delete addr banned) 1 b)
      | None => (false, b)
      end
  end.
Definition clear_banned (b : HeaderPeerBook) : nat * HeaderPeerBook :=
  match hb_banned b with
  | None => (O, b)
  | Some banned => let removed := base.size banned in (removed, if (0 <? removed)%nat then set_banned ∅ 1 b else b)
  end.

Definition best_first (a b : SocketAddr * Z) : Prop := b.2 <= a.2.
#[global] Instance best_first_dec : RelDecision best_first.
Proof. unfold best_first. intros ??. apply _. Defined.
(** [filter] asks for the bans of those with a positive score, one by one. *)
Fixpoint filter_allowed (now : Z) (entries : list (SocketAddr * Z)) (b : HeaderPeerBook)
    : list (SocketAddr * Z) * HeaderPeerBook :=
  match entries with
  | [] => ([], b)
  | (addr, score) :: entries =>
      if 0 <? score then
        let '(banned, b) := is_banned now addr b in
        let '(allowed, b) := filter_allowed now entries b in
        (if banned then allowed else (addr, score) :: allowed, b)
      else filter_allowed now entries b
  end.
Definition preferred (now : Z) (limit : nat) (b : HeaderPeerBook) : list SocketAddr * HeaderPeerBook :=
  if (limit =? 0)%nat then ([], b)
  else
    let '(entries, b) := filter_allowed now (map_to_list (hb_scores b)) b in
    (map fst (take limit (merge_sort best_first entries)), b).

Definition live (now : Z) (banned : gmap SocketAddr Z) : gmap SocketAddr Z := filter (fun kv => now < kv.2) banned.
Definition banned_peers (now : Z) (b : HeaderPeerBook) : list (SocketAddr * Z) * HeaderPeerBook :=
  match hb_banned b with
  | None => ([], b)
  | Some banned =>
      (map_to_list (live now banned),
       set_banned (live now banned) (Z.of_nat (base.size banned - base.size (live now banned))) b)
  end.

(** ** The file *)
Definition BANLIST_VERSION : Z := 1.
Record BanListFile := mkBanList { bl_version : Z; bl_banned : list (SocketAddr * Z) }.
Inductive BanListError := UnsupportedVersion (version : Z).
(** The entries of the file, and how many were taken; [None] is an abort. *)
Fixpoint load_bans (now : Z) (entries : list (SocketAddr * Z)) (banned : gmap SocketAddr Z) (inserted : nat)
    : option (gmap SocketAddr Z * nat) :=
  match entries with
  | [] => Some (banned, inserted)
  | (addr, secs) :: entries =>
      until ← add_secs 0 secs;
      if until <=? now then load_bans now entries banned inserted
      else load_bans now entries (<[addr := until]> banned) (Datatypes.S inserted)
  end.
Definition load_banlist (now : Z) (file : option BanListFile) (b : HeaderPeerBook) : result BanListError nat * HeaderPeerBook :=
  match file with
  | None => (Ok O, b)
  | Some file =>
      if negb (bl_version file =? BANLIST_VERSION) then (Err (UnsupportedVersion (bl_version file)), b)
      else
        match hb_banned b with
        | None => (Ok O, b)
        | Some banned =>
            match load_bans now (bl_banned file) banned 0 with
            | Some (banned, inserted) => (Ok inserted, mkPeerBook (hb_scores b) (Some banned) (hb_revision b))
            | None => (Panic, poison b)
            end
        end
  end.
(** The entries are sorted by the text of the address, which the order of the
    map stands for. *)
Definition save_banlist (now : Z) (b : HeaderPeerBook) : BanListFile * HeaderPeerBook :=
  match hb_banned b with
  | None => (mkBanList BANLIST_VERSION [], b)
  | Some banned =>
      (mkBanList BANLIST_VERSION (map (fun kv => (kv.1, as_secs kv.2)) (map_to_list (live now banned))),
       mkPeerBook (hb_scores b) (Some (live now banned)) (hb_revision b))
  end.

(** ** What bans promise

    The specification never forgets a ban; it says at any time which of them
    still hold. *)
Inductive peer_op :=
| Success (addr : SocketAddr) | Failure (addr : SocketAddr) | BadChain (addr : SocketAddr) (secs : Z)
| Ban (addr : SocketAddr) (secs : Z) | Unban (addr : SocketAddr) | Clear
| Ask (addr : SocketAddr) | Bans | Prefer (limit : nat) | Save.
(** What the caller sees. *)
Inductive peer_seen := SeenNothing | SeenBanned (b : bool) | SeenBans (bans : list (SocketAddr * Z)) | SeenPeers (peers : list SocketAddr)
  | SeenFile (file : BanListFile).

Record PeerSpec := mkPeerSpec { sp_scores : gmap SocketAddr Z; sp_bans : gmap SocketAddr Z }.
Definition score_by (addr : SocketAddr) (n : Z) (s : PeerSpec) : PeerSpec :=
  mkPeerSpec (<[addr := saturating_add_i32 (default 0 (sp_scores s !! addr)) n]> (sp_scores s)) (sp_bans s).
Definition banned_at (now : Z) (addr : SocketAddr) (bans : gmap SocketAddr Z) : bool :=
  match bans !! addr with Some until => now <? until | None => false end.
Definition good_peers (now : Z) (limit : nat) (s : PeerSpec) : list SocketAddr :=
  map fst (take limit (merge_sort best_first
    (filter (fun a => 0 < a.2 /\ banned_at now a.1 (sp_bans s) = false) (map_to_list (sp_scores s))))).
Definition spec_step (now : Z) (op : peer_op) (s : PeerSpec) : peer_seen * PeerSpec :=
  match op with
  | Success addr => (SeenNothing, score_by addr 3 s)
  | Failure addr => (SeenNothing, score_by addr (-1) s)
  | BadChain addr secs =>
      let s := score_by addr (-1) s in (SeenNothing, mkPeerSpec (sp_scores s) (<[addr := now + secs * NANOS]> (sp_bans s)))
  | Ban addr secs => (SeenNothing, mkPeerSpec (sp_scores s) (<[addr := now + secs * NANOS]> (sp_bans s)))
  | Unban addr => (SeenNothing, mkPeerSpec (sp_scores s) (delete addr (sp_bans s)))
  | Clear => (SeenNothing, mkPeerSpec (sp_scores s) ∅)
  | Ask addr => (SeenBanned (banned_at now addr (sp_bans s)), s)
  | Bans => (SeenBans (map_to_list (live now (sp_bans s))), s)
  | Prefer limit => (SeenPeers (good_peers now limit s), s)
  | Save => (SeenFile (mkBanList BANLIST_VERSION (map (fun kv => (kv.1, as_secs kv.2)) (map_to_list (live now (sp_bans s))))), s)
  end.
Definition book_step (now : Z) (op : peer_op) (b : HeaderPeerBook) : option peer_seen * HeaderPeerBook :=
  match op with
  | Success addr => (Some SeenNothing, peer_success addr b)
  | Failure addr => (Some SeenNothing, peer_failure addr b)
  | BadChain addr secs => let '(r, b) := record_bad_chain now addr secs b in ((fun _ => SeenNothing) <$> r, b)
  | Ban addr secs => let '(r, b) := ban_for now addr secs b in ((fun _ => SeenNothing) <$> r, b)
  | Unban addr => (Some SeenNothing, (unban addr b).2)
  | Clear => (Some SeenNothing, (clear_banned b).2)
  | Ask addr => let '(r, b) := is_banned now addr b in (Some (SeenBanned r), b)
  | Bans => let '(l, b) := banned_peers now b in (Some (SeenBans l), b)
  | Prefer limit => let '(l, b) := preferred now limit b in (Some (SeenPeers l), b)
  | Save => let '(f, b) := save_banlist now b in (Some (SeenFile f), b)
  end.
Fixpoint spec_run (h : list (Z * peer_op)) (s : PeerSpec) : list peer_seen :=
  match h with [] => [] | (now, op) :: h => let '(o, s) := spec_step now op s in o :: spec_run h s end.
Fixpoint book_run (h : list (Z * peer_op)) (b : HeaderPeerBook) : option (list peer_seen) :=
  match h with
  | [] => Some []
  | (now, op) :: h => match book_step now op b with (Some o, b) => cons o <$> book_run h b | (None, _) => None end
  end.
(** The clock does not go back, and no ban ends beyond it. *)
Definition op_in_range (now : Z) (op : peer_op) : bool :=
  match op with Ban _ secs | BadChain _ secs => now / NANOS + secs <=? i64_max | _ => true end.
Fixpoint clock_ok (from : Z) (h : list (Z * peer_op)) : bool :=
  match h with [] => true | (now, op) :: h => (from <=? now) && op_in_range now op && clock_ok now h end.

(** ** Facts *)
(** A book that forgot some of the bans that have run out. *)
Record refines (now : Z) (s : PeerSpec) (b : HeaderPeerBook) : Prop := {
  rf_scores : hb_scores b = sp_scores s;
  rf_bans : exists banned, hb_banned b = Some banned /\ live now banned = live now (sp_bans s) }.
Lemma live_lookup now (m : gmap SocketAddr Z) addr until :
  live now m !! addr = Some until <-> m !! addr = Some until /\ now < until.
Proof. apply map_lookup_filter_Some. Qed.
Lemma live_at now (m : gmap SocketAddr Z) addr : live now m !! addr = (until ← m !! addr; if now <? until then Some until else None).
Proof.
  destruct (m !! addr) as [until|] eqn:E; simpl.
  - destruct (now <? until) eqn:El; [apply live_lookup; split; [done|lia]|].
    destruct (live now m !! addr) eqn:E2; [|done]. apply live_lookup in E2 as [E2 ?]. rewrite E in E2. injection E2 as ->. lia.
  - destruct (live now m !! addr) eqn:E2; [|done]. apply live_lookup in E2 as [E2 ?]. by rewrite E in E2.
Qed.
Lemma banned_at_live now addr (m m' : gmap SocketAddr Z) : live now m = live now m' -> banned_at now addr m = banned_at now addr m'.
Proof.
  intros Hl. apply (f_equal (lookup addr)) in Hl. rewrite !live_at in Hl. unfold banned_at.
  destruct (m !! addr) as [u|], (m' !! addr) as [u'|]; simpl in *; repeat case_match; congruence.
Qed.
Lemma live_later now now' (m m' : gmap SocketAddr Z) : now <= now' -> live now m = live now m' -> live now' m = live now' m'.
Proof.
  intros Hle Hl. apply map_eq. intros addr. apply (f_equal (lookup addr)) in Hl. rewrite !live_at in *.
  destruct (m !! addr) as [u|], (m' !! addr) as [u'|]; simpl in *; repeat case_match; try congruence; lia.
Qed.
Lemma live_delete now addr (m m' : gmap SocketAddr Z) : live now m = live now m' -> live now (delete addr m) = live now (delete addr m').
Proof. intros Hl. unfold live in *. by rewrite !map_filter_delete, Hl. Qed.
Lemma live_insert now addr u (m m' : gmap SocketAddr Z) :
  live now m = live now m' -> live now (<[addr := u]> m) = live now (<[addr := u]> m').
Proof.
  intros Hl. apply map_eq. intros a. rewrite !live_at. apply (f_equal (lookup a)) in Hl. rewrite !live_at in Hl.
  destruct (decide (a = addr)) as [->|Hne]; [by rewrite !lookup_insert_eq|by rewrite !lookup_insert_ne].
Qed.
Lemma live_expired now addr (m : gmap SocketAddr Z) : banned_at now addr m = false -> live now (delete addr m) = live now m.
Proof.
  intros Hb. unfold live. rewrite map_filter_delete. apply delete_id. fold (live now m). rewrite live_at. unfold banned_at in Hb.
  destruct (m !! addr); simpl; [by rewrite Hb|done].
Qed.
Lemma live_live now (m : gmap SocketAddr Z) : live now (live now m) = live now m.
Proof. apply map_eq. intros a. rewrite !live_at. destruct (m !! a); simpl; repeat (case_match; simpl in * ); congruence. Qed.

Lemma is_banned_refines now addr s b :
  refines now s b -> exists b', is_banned now addr b = (banned_at now addr (sp_bans s), b') /\ refines now s b'.
Proof.
  intros [Hs (banned&Eb&Hl)]. unfold is_banned. rewrite Eb, <- (banned_at_live now addr _ _ Hl). unfold banned_at.
  destruct (banned !! addr) as [u|] eqn:E; [destruct (now <? u) eqn:Eu|].
  - eexists. split; [done|]. split; [done|by exists banned].
  - eexists. split; [done|]. split; [done|]. eexists. split; [done|]. rewrite live_expired; [done|]. unfold banned_at. by rewrite E.
  - eexists. split; [done|]. split; [done|by exists banned].
Qed.
Lemma filter_allowed_refines now entries s b :
  refines now s b ->
  exists b', filter_allowed now entries b
      = (filter (fun a => 0 < a.2 /\ banned_at now a.1 (sp_bans s) = false) entries, b') /\ refines now s b'.
Proof.
  revert b. induction entries as [|[addr score] entries IH]; intros b Hb; cbn [filter_allowed]; [by exists b|].
  destruct (0 <? score) eqn:Es.
  - destruct (is_banned_refines now addr s b Hb) as (b1&->&Hb1). destruct (IH b1 Hb1) as (b2&->&Hb2). exists b2. split; [|done].
    f_equal. destruct (banned_at now addr (sp_bans s)) eqn:Ea.
    + rewrite filter_cons_False; [done|]. cbn. intros [_ H]. congruence.
    + rewrite filter_cons_True; [done|]. cbn. split; [lia|done].
  - destruct (IH b Hb) as (b1&->&Hb1). exists b1. split; [|done]. rewrite filter_cons_False; [done|]. cbn. lia.
Qed.
Lemma ban_refines now addr secs s b :
  refines now s b -> now / NANOS + secs <=? i64_max = true ->
  exists b', ban_for now addr secs b = (Some tt, b')
    /\ refines now (mkPeerSpec (sp_scores s) (<[addr := now + secs * NANOS]> (sp_bans s))) b'.
Proof.
  intros [Hs (banned&Eb&Hl)] Hr. unfold ban_for, add_secs. rewrite Eb, Hr. eexists. split; [done|]. split; [done|].
  eexists. split; [done|]. by apply live_insert.
Qed.
Lemma refines_later now now' s b : now <= now' -> refines now s b -> refines now' s b.
Proof. intros Hle [Hs (banned&Eb&Hl)]. split; [done|]. exists banned. split; [done|by eapply live_later]. Qed.
Lemma score_refines now addr n s b :
  refines now s b ->
  refines now (score_by addr n s)
    (set_scores (<[addr := saturating_add_i32 (default 0 (hb_scores b !! addr)) n]> (hb_scores b)) b).
Proof. intros [Hs Hb]. split; [cbn; by rewrite Hs|done]. Qed.

Lemma step_refines now op s b :
  refines now s b -> op_in_range now op = true ->
  exists b', book_step now op b = (Some (spec_step now op s).1, b') /\ refines now (spec_step now op s).2 b'.
Proof.
  intros Hb Hr. pose proof Hb as [Hs (banned&Eb&Hl)]. destruct op as [addr|addr|addr secs|addr secs|addr| |addr| |limit|];
    cbn [op_in_range book_step spec_step fst snd] in *.
  - eexists. split; [done|]. by apply score_refines.
  - eexists. split; [done|]. by apply score_refines.
  - destruct (ban_refines now addr secs _ _ (score_refines now addr (-1) _ _ Hb) Hr) as (b'&Hban&Hb').
    unfold record_bad_chain, peer_failure. rewrite Hban. by eexists.
  - destruct (ban_refines now addr secs _ _ Hb Hr) as (b'&->&Hb'). by eexists.
  - eexists. split; [done|]. unfold unban. rewrite Eb. destruct (banned !! addr) eqn:E; (split; [done|]); eexists; (split; [done|]);
      cbn [sp_bans]; rewrite <- (live_delete _ _ _ _ Hl); [done|]. by rewrite delete_id.
  - eexists. split; [done|]. unfold clear_banned. rewrite Eb. destruct (0 <? base.size banned)%nat eqn:E; (split; [done|]);
      eexists; (split; [done|]); [done|]. apply Nat.ltb_ge in E. assert (banned = ∅) as ->; [|done]. apply map_size_empty_inv. lia.
  - destruct (is_banned_refines now addr s b Hb) as (b'&->&Hb'). by eexists.
  - unfold banned_peers. rewrite Eb, Hl. eexists. split; [done|]. split; [done|]. eexists. split; [done|]. apply live_live.
  - unfold preferred. destruct (limit =? 0)%nat eqn:E0.
    { apply Nat.eqb_eq in E0 as ->. unfold good_peers. rewrite take_0. by eexists. }
    destruct (filter_allowed_refines now (map_to_list (hb_scores b)) s b Hb) as (b'&->&Hb'). rewrite Hs. by eexists.
  - unfold save_banlist. rewrite Eb, Hl. eexists. split; [done|]. split; [done|]. eexists. split; [done|]. apply live_live.
Qed.
Lemma run_refines now h s b : refines now s b -> clock_ok now h = true -> book_run h b = Some (spec_run h s).
Proof.
  revert now s b. induction h as [|[now' op] h IH]; intros now s b Hb Hc; cbn [book_run spec_run clock_ok] in *; [done|].
  apply andb_prop in Hc as [[Hle Hr]%andb_prop Hc].
  destruct (step_refines now' op s b (refines_later now now' s b ltac:(lia) Hb) Hr) as (b'&->&Hb').
  destruct (spec_step now' op s) as [o s']. cbn [fst snd] in *. by rewrite (IH now' s' b').
Qed.

(** C32: bans hold exactly until they run out.  Over every history of
    scoring, banning, unbanning, asking, listing, choosing and saving, with a
    clock that does not go back and bans that end within its range, the book,
    which forgets bans that have run out whenever it meets them, answers as
    the specification that forgets none: an address is banned when the time
    is before the end of its last ban, unless it was unbanned since; the peers
    preferred are the best scored of those with a positive score that are not
    banned; what is listed and saved are the bans that still hold. *)
Theorem bans_refine_specification (h : list (Z * peer_op)) (start : Z) :
  clock_ok start h = true -> book_run h HeaderPeerBook_default = Some (spec_run h (mkPeerSpec ∅ ∅)).
Proof. apply run_refines. split; [done|by eexists]. Qed.

(** ** Bans over a restart *)
Definition in_range (m : gmap SocketAddr Z) : Prop := map_Forall (fun _ until => 0 <= until /\ until / NANOS <= i64_max) m.
Lemma load_bans_lookup now l (m : gmap SocketAddr Z) k :
  NoDup (map fst l) -> Forall (fun kv => 0 <= kv.2 <= i64_max) l ->
  exists m' k', load_bans now l m k = Some (m', k') /\ forall addr, m' !! addr =
    match list_to_map (M := gmap SocketAddr Z) l !! addr with
    | Some secs => if now <? secs * NANOS then Some (secs * NANOS) else m !! addr
    | None => m !! addr
    end.
Proof.
  revert m k. induction l as [|[a secs] l IH]; intros m k Hn Hr; cbn [load_bans map fst] in *.
  { exists m, k. split; [done|]. intros addr. by rewrite list_to_map_nil, lookup_empty. }
  apply NoDup_cons in Hn as [Ha Hn]. apply Forall_cons in Hr as [Hs Hr]. cbn [snd] in Hs.
  assert (add_secs 0 secs = Some (secs * NANOS)) as ->.
  { unfold add_secs. rewrite Z.div_0_l by done. destruct (_ <=? _) eqn:E; [by rewrite Z.add_0_l|lia]. }
  cbn [mbind option_bind]. assert (list_to_map (M := gmap SocketAddr Z) l !! a = None) as Hno by (by apply not_elem_of_list_to_map_1).
  destruct (_ <=? now) eqn:E.
  - destruct (IH m k Hn Hr) as (m'&k'&->&Hm). exists m', k'. split; [done|]. intros addr. rewrite Hm. rewrite list_to_map_cons.
    destruct (decide (addr = a)) as [->|Hne]; [|by rewrite lookup_insert_ne].
    rewrite lookup_insert_eq, Hno. destruct (now <? secs * NANOS) eqn:E2; [lia|done].
  - destruct (IH (<[a := secs * NANOS]> m) (Datatypes.S k) Hn Hr) as (m'&k'&->&Hm). exists m', k'. split; [done|]. intros addr. rewrite Hm.
    rewrite list_to_map_cons. destruct (decide (addr = a)) as [->|Hne]; [|by rewrite !lookup_insert_ne].
    rewrite !lookup_insert_eq, Hno. destruct (now <? secs * NANOS) eqn:E2; [done|lia].
Qed.

(** Bans survive a restart, less a fraction of a second.  The file
    saved from a book at any time loads into a fresh book at any later time
    without aborting; an address it bans was banned before; and one that was
    banned for at least another second is banned after the restart. *)
Theorem bans_survive_restart (b : HeaderPeerBook) banned (saved_at loaded_at : Z) :
  hb_banned b = Some banned -> in_range banned -> 0 <= saved_at <= loaded_at ->
  exists k b', load_banlist loaded_at (Some (save_banlist saved_at b).1) HeaderPeerBook_default = (Ok k, b')
    /\ forall addr now, loaded_at <= now ->
         ((is_banned now addr b').1 = true -> (is_banned now addr b).1 = true)
         /\ ((is_banned (now + NANOS) addr b).1 = true -> (is_banned now addr b').1 = true).
Proof.
  intros Eb Hr Ht. unfold save_banlist, load_banlist. rewrite Eb. cbn [fst bl_version bl_banned hb_banned HeaderPeerBook_default].
  rewrite Z.eqb_refl. cbn [negb]. set (l := map _ (map_to_list (live saved_at banned))).
  assert (map fst l = map fst (map_to_list (live saved_at banned))) as Hf by (unfold l; by rewrite map_map).
  destruct (load_bans_lookup loaded_at l ∅ 0) as (m'&k'&->&Hm).
  { rewrite Hf. apply NoDup_fst_map_to_list. }
  { apply Forall_forall. intros kv Hkv. apply list_elem_of_fmap in Hkv as ([a u]&->&Hin%elem_of_map_to_list).
    apply live_lookup in Hin as [Hin _]. apply Hr in Hin. cbn. unfold as_secs, NANOS in *. split; [|lia]. apply Z.div_pos; lia. }
  assert (forall addr, list_to_map (M := gmap SocketAddr Z) l !! addr = as_secs <$> live saved_at banned !! addr) as Hl.
  { intros addr. change l with (prod_map id as_secs <$> map_to_list (live saved_at banned)).
    by rewrite list_to_map_fmap, list_to_map_to_list, lookup_fmap. }
  eexists k', _. split; [reflexivity|]. intros addr now Hnow. unfold is_banned. rewrite Eb. cbn [hb_banned].
  rewrite Hm, Hl, live_at, lookup_empty. destruct (banned !! addr) as [u|] eqn:E; cbn [mbind option_bind]; [|done].
  assert (as_secs u * NANOS <= u < as_secs u * NANOS + NANOS) as Hu.
  { unfold as_secs, NANOS. pose proof (Z.div_mod u 1000000000). pose proof (Z.mod_pos_bound u 1000000000). lia. }
  repeat (case_match; cbn [fmap option_fmap option_map fst] in * ); try done; simplify_eq; lia.
Qed.

(** ** On concrete addresses *)
Definition peer_a : SocketAddr := mkSocketAddr (V4 [10; 0; 0; 1]) 16125.
Definition peer_b : SocketAddr := mkSocketAddr (V4 [10; 0; 0; 2]) 16125.
Definition sample_peer_history : list (Z * peer_op) :=
  [(5 * NANOS, Success peer_a); (5 * NANOS, Success peer_b); (6 * NANOS, BadChain peer_b 10); (7 * NANOS, Prefer 3);
   (7 * NANOS, Save); (16 * NANOS, Ask peer_b); (17 * NANOS, Prefer 3); (18 * NANOS, Bans)].
Lemma bans_refine_specification_witness :
  book_run sample_peer_history HeaderPeerBook_default = Some (spec_run sample_peer_history (mkPeerSpec ∅ ∅)).
Proof. apply (bans_refine_specification sample_peer_history 0). reflexivity. Defined.
Example sample_peers_seen :
  spec_run sample_peer_history (mkPeerSpec ∅ ∅)
  = [SeenNothing; SeenNothing; SeenNothing; SeenPeers [peer_a]; SeenFile (mkBanList 1 [(peer_b, 16)]); SeenBanned false;
     SeenPeers [peer_a; peer_b]; SeenBans []].
Proof. vm_compute. reflexivity. Qed.
Definition sample_banned : HeaderPeerBook := (ban_for 1500000000 peer_b 20 HeaderPeerBook_default).2.
Lemma bans_survive_restart_witness :
  exists k b', load_banlist 3000000000 (Some (save_banlist 2000000000 sample_banned).1) HeaderPeerBook_default = (Ok k, b').
Proof.
  destruct (bans_survive_restart sample_banned {[peer_b := 21500000000]} 2000000000 3000000000) as (k&b'&H&_);
    [reflexivity| |vm_compute; split; discriminate|exists k, b'; exact H].
  intros a u [<- <-]%lookup_singleton_Some. vm_compute. split; discriminate.
Defined.

(** A ban that ends beyond the range of the clock aborts while the list is
    locked, and from then on nobody is banned. *)
Lemma far_ban_lifts_all_bans :
  let b := (ban_for (2000 * NANOS) peer_a 9223372036854775807 sample_banned).2 in
  (is_banned (2000000000 + 1) peer_b sample_banned).1 = true /\ (forall now addr, (is_banned now addr b).1 = false)
  /\ bl_banned (save_banlist (2000000000 + 1) b).1 = [].
Proof. split_and!; [vm_compute; reflexivity|done|vm_compute; reflexivity]. Qed.
