(* ===== verification/PeerServer.v ===== *)
(** * Serving a peer ([node/src/p2p_server.rs])

    What the node does with each message of a peer that connected to it.  The
    state of a connection is [Session]: what the peer is known to know, what
    was asked of it, its fee filter and its rates; and what it shares with the
    rest of the node: chain state, memory pool, free-relay limiter, fee
    estimator, address book, the transactions announced to the other peers.
    What is written to the stream is collected in [ss_sent]; metrics and log
    lines are left out, locks never fail, and other threads do not run during
    a message.  The clock is read once per message. *)

From S2P Require Import Prelude Consensus Rewards Float64 Encoding Hashing Transaction Sighash Script Storage Fluxnode Utxo FlatFiles Indexes ChainIndex Shielded Validation HeaderChain Payees FluxnodeChecks Ledger BlockConnect Mempool MempoolPolicy Wire Peers FeeEstimator AddrBook.
From Stdlib Require Import ZArith Lia Floats.SpecFloat.
From stdpp Require Import base list option numbers strings gmap sets sorting relations.
#[local] Open Scope Z_scope.

Definition MAX_INBOUND_GETDATA : nat := 256.
Definition MAX_INBOUND_ADDR : nat := 1000.
Definition TX_GETDATA_BATCH : nat := 128.
Definition TX_KNOWN_CAP : Z := 50000.
Definition MAX_INBOUND_TX_REQUEST : nat := 2048.
Definition INBOUND_RATE_WINDOW_SECS : Z := 10.
Definition INBOUND_MAX_BYTES_SENT_PER_WINDOW : Z := 32 * 1024 * 1024.
Definition INBOUND_MAX_BYTES_RECV_PER_WINDOW : Z := 16 * 1024 * 1024.

Record Clock := mkClock { ck_secs : Z; ck_instant : Z }.

(** ** Rates *)
Record InboundRateLimiter := mkRate { rl_window_start : Z; rl_bytes_sent : Z; rl_bytes_recv : Z }.
Definition rate_new (instant : Z) : InboundRateLimiter := mkRate instant 0 0.
Definition reset_if_needed (instant : Z) (r : InboundRateLimiter) : InboundRateLimiter :=
  if INBOUND_RATE_WINDOW_SECS * 1000000000 <=? Z.max (instant - rl_window_start r) 0 then mkRate instant 0 0 else r.
(** The limiter, and whether the rate is kept. *)
Definition rate_recv (instant bytes : Z) (r : InboundRateLimiter) : bool * InboundRateLimiter :=
  let r := reset_if_needed instant r in
  let r := mkRate (rl_window_start r) (rl_bytes_sent r) (saturating_add_usize (rl_bytes_recv r) bytes) in
  (rl_bytes_recv r <=? INBOUND_MAX_BYTES_RECV_PER_WINDOW, r).
Definition rate_send (instant bytes : Z) (r : InboundRateLimiter) : bool * InboundRateLimiter :=
  let r := reset_if_needed instant r in
  let r := mkRate (rl_window_start r) (saturating_add_usize (rl_bytes_sent r) bytes) (rl_bytes_recv r) in
  (rl_bytes_sent r <=? INBOUND_MAX_BYTES_SENT_PER_WINDOW, r).

(** ** The connection *)
Inductive SessionError :=
| SessionWire (error : WireError)
| SessionTransaction (error : TransactionDecodeError)
| SessionTxid (error : TransactionEncodeError)
| SessionChain (error : ChainStateError)
| RateExceeded (direction : string).

Record Session `{ShieldedTrees} (S : Type) := mkSession {
  ss_chain : ChainState S; ss_pool : Mempool; ss_free_relay : FreeRelayLimiter; ss_estimator : FeeEstimator;
  ss_book : AddrBook; ss_announced : list Hash256; ss_sent : list (bytes * bytes); ss_rate : InboundRateLimiter;
  ss_known : gset Hash256; ss_requested : gset Hash256; ss_filter : Z }.
Arguments mkSession {_ _} _ _ _ _ _ _ _ _ _ _ _.
Arguments ss_chain {_ _} _.
Arguments ss_pool {_ _} _.
Arguments ss_free_relay {_ _} _.
Arguments ss_estimator {_ _} _.
Arguments ss_book {_ _} _.
Arguments ss_announced {_ _} _.
Arguments ss_sent {_ _} _.
Arguments ss_rate {_ _} _.
Arguments ss_known {_ _} _.
Arguments ss_requested {_ _} _.
Arguments ss_filter {_ _} _.

(** [slice::chunks]. *)
Fixpoint chunks_loop {A} (fuel n : nat) (l : list A) : list (list A) :=
  match fuel, l with
  | _, [] => []
  | O, _ => []
  | Datatypes.S fuel, _ => take n l :: chunks_loop fuel n (drop n l)
  end.
Definition chunks {A} (n : nat) (l : list A) : list (list A) := chunks_loop (length l) n l.

Definition touch_known (txid : Hash256) (known : gset Hash256) : gset Hash256 :=
  {[txid]} ∪ (if TX_KNOWN_CAP <=? Z.of_nat (base.size known) then ∅ else known).
Definition relay_fee_rate (fee size : Z) : Z := Z.quot (saturating_mul_i64 fee 1000) (Z.min (Z.max size 1) i64_max).
Definition pool_get (txid : Hash256) (m : Mempool) : option MempoolEntry := mp_entries m !! txid.
Definition has_orphan (txid : Hash256) (m : Mempool) : bool := is_some (mp_orphans m !! txid).
Definition should_announce_tx (m : Mempool) (txid : Hash256) (peer_fee_filter_per_kb : Z) : bool :=
  let filter := Z.max peer_fee_filter_per_kb 0 in
  match pool_get txid m with
  | None => false
  | Some entry => if filter =? 0 then true else filter <=? relay_fee_rate (en_fee entry) (entry_size entry)
  end.
Definition above_filter (filter : Z) (entry : MempoolEntry) : bool :=
  negb ((0 <? filter) && (relay_fee_rate (en_fee entry) (entry_size entry) <? filter)).
Definition mempool_txids (m : Mempool) (limit : nat) (peer_fee_filter_per_kb : Z) : list Hash256 :=
  let filter_ := Z.max peer_fee_filter_per_kb 0 in
  take limit (map en_txid (filter (fun e => above_filter filter_ e = true) (map snd (map_to_list (mp_entries m))))).

Section server.
  Context {H : Hashes} {S256 : Secp} {R : Recovery} {SC : ShieldedCrypto}.
  Context {T : ShieldedTrees} {S : Type} {KV : KeyValueStore S} {F : Powf}.
  Context (params : ChainParams) (flags : ValidationFlags) (policy : MempoolPolicy).
  Context (shuffle : nat -> list (list SocketAddr) -> list (list SocketAddr)).

Definition set_chain (x : ChainState S) (s : Session S) : Session S :=
  mkSession x (ss_pool s) (ss_free_relay s) (ss_estimator s) (ss_book s) (ss_announced s) (ss_sent s) (ss_rate s) (ss_known s) (ss_requested s) (ss_filter s).
Definition set_pool (m : Mempool) (l : FreeRelayLimiter) (s : Session S) : Session S :=
  mkSession (ss_chain s) m l (ss_estimator s) (ss_book s) (ss_announced s) (ss_sent s) (ss_rate s) (ss_known s) (ss_requested s) (ss_filter s).
Definition set_estimator (x : FeeEstimator) (s : Session S) : Session S :=
  mkSession (ss_chain s) (ss_pool s) (ss_free_relay s) x (ss_book s) (ss_announced s) (ss_sent s) (ss_rate s) (ss_known s) (ss_requested s) (ss_filter s).
Definition set_book (x : AddrBook) (s : Session S) : Session S :=
  mkSession (ss_chain s) (ss_pool s) (ss_free_relay s) (ss_estimator s) x (ss_announced s) (ss_sent s) (ss_rate s) (ss_known s) (ss_requested s) (ss_filter s).
Definition set_announced (x : list Hash256) (s : Session S) : Session S :=
  mkSession (ss_chain s) (ss_pool s) (ss_free_relay s) (ss_estimator s) (ss_book s) x (ss_sent s) (ss_rate s) (ss_known s) (ss_requested s) (ss_filter s).
Definition set_sent (x : list (bytes * bytes)) (s : Session S) : Session S :=
  mkSession (ss_chain s) (ss_pool s) (ss_free_relay s) (ss_estimator s) (ss_book s) (ss_announced s) x (ss_rate s) (ss_known s) (ss_requested s) (ss_filter s).
Definition set_rate (x : InboundRateLimiter) (s : Session S) : Session S :=
  mkSession (ss_chain s) (ss_pool s) (ss_free_relay s) (ss_estimator s) (ss_book s) (ss_announced s) (ss_sent s) x (ss_known s) (ss_requested s) (ss_filter s).
Definition set_seen (known requested : gset Hash256) (s : Session S) : Session S :=
  mkSession (ss_chain s) (ss_pool s) (ss_free_relay s) (ss_estimator s) (ss_book s) (ss_announced s) (ss_sent s) (ss_rate s) known requested (ss_filter s).
Definition set_filter (x : Z) (s : Session S) : Session S :=
  mkSession (ss_chain s) (ss_pool s) (ss_free_relay s) (ss_estimator s) (ss_book s) (ss_announced s) (ss_sent s) (ss_rate s) (ss_known s) (ss_requested s) x.

(** Computations on a session: an error ends the connection, and what was done
    before it stays done. *)
Definition serve (A : Type) : Type := Session S -> result SessionError A * Session S.
#[local] Instance serve_ret : MRet serve := fun A a s => (Ok a, s).
#[local] Instance serve_bind : MBind serve := fun A B f m s =>
  match m s with
  | (Ok a, s) => f a s
  | (Err e, s) => (Err e, s)
  | (Panic, s) => (Panic, s)
  end.
Definition ask {A} (f : Session S -> A) : serve A := fun s => (Ok (f s), s).
Definition update (f : Session S -> Session S) : serve unit := fun s => (Ok tt, f s).
Definition of_result {A} (r : result SessionError A) : serve A := fun s => (r, s).
(** A lookup in the chain state, which may fill the cache of headers. *)
Definition header_read {A} (m : chain A) : serve A := fun s =>
  let c := ss_chain s in
  let '(r, h) := m (mkHeaderState (cs_header_cache c) [] ∅ None None None) in
  (map_err SessionChain r, set_chain (set_header_cache (hs_cache h) c) s).
Definition store_read {A} (f : S -> result ChainStateError A) : serve A := fun s =>
  (map_err SessionChain (f (cs_store (ss_chain s))), s).
(** The estimator never fails. *)
Definition estimate (f : FeeEstimator -> result Never FeeEstimator) : serve unit := fun s =>
  match f (ss_estimator s) with Ok e => (Ok tt, set_estimator e s) | _ => (Panic, s) end.

Definition send (command : string) (payload : bytes) : serve unit :=
  update (fun s => set_sent (ss_sent s ++ [(ascii_bytes command, payload)]) s).
Definition send_message_limited (clock : Clock) (command : string) (payload : bytes) : serve unit := fun s =>
  let '(kept, rate) := rate_send (ck_instant clock) (saturating_add_usize (Z.of_nat (length payload)) 24) (ss_rate s) in
  let s := set_rate rate s in
  if kept then send command payload s else (Err (RateExceeded "send"), s).
Definition send_inv_tx_limited (clock : Clock) (hashes : list Hash256) : serve unit :=
  send_message_limited clock "inv" (build_inv_payload hashes MSG_TX).
Fixpoint send_all (command : string) (payloads : list bytes) : serve unit :=
  match payloads with [] => mret tt | p :: payloads => _ ← send command p; send_all command payloads end.
Definition request_txids (txids : list Hash256) : serve unit :=
  send_all "getdata" (map (fun chunk => build_getdata_payload chunk MSG_TX) (chunks TX_GETDATA_BATCH txids)).
Definition forget_requested (txid : Hash256) : serve unit :=
  update (fun s => set_seen (ss_known s) (ss_requested s ∖ {[txid]}) s).
Definition know (txid : Hash256) : serve unit :=
  update (fun s => set_seen (touch_known txid (ss_known s)) (ss_requested s) s).

(** ** Inventories and transactions *)
(** At most [limit] of the announced transactions are asked for. *)
Fixpoint inv_loop (limit : nat) (vectors : list InventoryVector) (m : Mempool) (known requested : gset Hash256)
    (to_request : list Hash256) : gset Hash256 * gset Hash256 * list Hash256 :=
  match vectors with
  | [] => (known, requested, to_request)
  | v :: vectors =>
      if negb (inv_type v =? MSG_TX) then inv_loop limit vectors m known requested to_request
      else
        let known := touch_known (inv_hash v) known in
        if contains (inv_hash v) m || has_orphan (inv_hash v) m || bool_decide (inv_hash v ∈ requested)
        then inv_loop limit vectors m known requested to_request
        else
          let requested := {[inv_hash v]} ∪ requested in
          let to_request := to_request ++ [inv_hash v] in
          if (limit <=? length to_request)%nat then (known, requested, to_request)
          else inv_loop limit vectors m known requested to_request
  end.
Definition handle_inv (payload : bytes) : serve unit :=
  vectors ← of_result (map_err SessionWire (parse_inv payload));
  s ← ask id;
  let '(known, requested, to_request) :=
    inv_loop MAX_INBOUND_TX_REQUEST vectors (ss_pool s) (ss_known s) (ss_requested s) [] in
  _ ← update (set_seen known requested);
  request_txids to_request.

(** Missing parents that were not asked for yet, at most [limit] of them. *)
Fixpoint parents_loop (limit : nat) (parents : list Hash256) (requested : gset Hash256) (to_request : list Hash256)
    : gset Hash256 * list Hash256 :=
  match parents with
  | [] => (requested, to_request)
  | parent :: parents =>
      if bool_decide (parent ∈ requested) then parents_loop limit parents requested to_request
      else
        let requested := {[parent]} ∪ requested in
        let to_request := to_request ++ [parent] in
        if (limit <=? length to_request)%nat then (requested, to_request)
        else parents_loop limit parents requested to_request
  end.
Definition request_parents (limit : nat) (missing : list OutPoint) : serve unit :=
  s ← ask id;
  let '(requested, to_request) := parents_loop limit (orphan_parent_txids missing) (ss_requested s) [] in
  _ ← update (set_seen (ss_known s) requested);
  request_txids to_request.
Definition current_fee_estimate (store : S) : bool :=
  let height (tip : result StoreError (option ChainTip)) :=
    match tip with Ok (Some tip) => Z.max (tip_height tip) 0 | _ => 0 end in
  saturating_sub_i32 (height (best_header store)) (height (best_block store)) <=? 1.
Definition info_of_entry (e : MempoolEntry) : MempoolTxInfo :=
  mkTxInfo (en_txid e) (Z.max (en_height e) 0) (en_fee e) (entry_size e) (starting_priority e) (en_was_clear_at_entry e).
Definition info_of_accepted (a : OrphanAcceptedTx) : MempoolTxInfo :=
  mkTxInfo (oa_txid a) (oa_height a) (oa_fee a) (oa_size a) (oa_starting_priority a) (oa_was_clear_at_entry a).
Fixpoint forget_txs (txids : list Hash256) (e : FeeEstimator) : result Never FeeEstimator :=
  match txids with [] => Ok e | txid :: txids => e ← remove_transaction txid e; forget_txs txids e end.
Fixpoint enter_txs (accepted : list OrphanAcceptedTx) (current : bool) (e : FeeEstimator) : result Never FeeEstimator :=
  match accepted with
  | [] => Ok e
  | a :: accepted => e ← process_transaction (info_of_accepted a) current e; enter_txs accepted current e
  end.
Definition announce (txid : Hash256) : serve unit := update (fun s => set_announced (ss_announced s ++ [txid]) s).
(** After a transaction entered the pool: the orphans that waited for it. *)
Definition accept_orphans (clock : Clock) (txid : Hash256) (current : bool) : serve unit := fun s =>
  match process_orphans_after_accept (cs_store (ss_chain s)) params flags policy (ck_secs clock) txid (ss_pool s) (ss_free_relay s) with
  | Ok st =>
      (_ ← update (set_pool (os_pool st) (os_limiter st));
       _ ← estimate (fun e => e ← forget_txs (op_evicted_txids (os_outcome st)) e; enter_txs (op_accepted (os_outcome st)) current e);
       update (fun s => set_announced (ss_announced s ++ map oa_txid (op_accepted (os_outcome st))) s)) s
  | _ => (Panic, s)
  end.
(** [Mempool::insert] of a built entry, and what follows. *)
Definition insert_entry (clock : Clock) (e : MempoolEntry) : serve unit :=
  s ← ask id;
  let current := current_fee_estimate (cs_store (ss_chain s)) in
  if contains (en_txid e) (ss_pool s) then mret tt
  else
    let '(inserted, m) := Mempool.insert e (ss_pool s) in
    _ ← update (set_pool m (ss_free_relay s));
    match inserted with
    | Ok outcome =>
        _ ← estimate (fun est => est ← process_transaction (info_of_entry e) current est; forget_txs (evicted_txids outcome) est);
        _ ← know (en_txid e);
        _ ← forget_requested (en_txid e);
        _ ← announce (en_txid e);
        accept_orphans clock (en_txid e) current
    | Err _ => mret tt
    | Panic => of_result Panic
    end.
Definition handle_tx (clock : Clock) (payload : bytes) : serve unit :=
  tx ← of_result (map_err SessionTransaction (tx_consensus_decode payload));
  txid ← of_result (map_err SessionTxid (txid tx));
  s ← ask id;
  if contains txid (ss_pool s) then _ ← know txid; forget_requested txid
  else
    let '(entry, limiter) :=
      build_mempool_entry (cs_store (ss_chain s)) params flags policy (prevouts_for_tx tx (ss_pool s)) (ck_secs clock) tx payload true
        (ss_free_relay s) in
    _ ← update (set_pool (ss_pool s) limiter);
    match entry with
    | Ok e => insert_entry clock e
    | Err err =>
        if decide (err_kind err = MempoolErrorKind.MissingInput) then
          _ ← forget_requested txid;
          _ ← update (fun s => set_pool (store_orphan (ck_secs clock) txid payload (err_missing_inputs err) true (ss_pool s)) (ss_free_relay s) s);
          _ ← know txid;
          request_parents MAX_INBOUND_TX_REQUEST (err_missing_inputs err)
        else mret tt
    | Panic => of_result Panic
    end.

(** ** Headers *)
(** The height of the first hash of the locator that is on the best chain. *)
Fixpoint find_anchor (tip : Hash256) (tip_height : Z) (locator : list Hash256) : serve Z :=
  match locator with
  | [] => mret 0
  | candidate :: locator =>
      s ← ask id;
      entry ← header_read (header_entry (cs_store (ss_chain s)) candidate);
      match entry with
      | None => find_anchor tip tip_height locator
      | Some entry =>
          if (he_height entry <? 0) || (tip_height <? he_height entry) then find_anchor tip tip_height locator
          else
            ancestor ← header_read (header_ancestor_hash (cs_store (ss_chain s)) tip (he_height entry));
            if bool_decide (ancestor = Some candidate) then mret (he_height entry) else find_anchor tip tip_height locator
      end
  end.
(** The last height to send: [end_height], or that of a stop hash on the best chain. *)
Definition stop_height (tip : Hash256) (tip_height start_height end_height : Z) (stop : Hash256) : serve Z :=
  if bool_decide (stop = zeros 32) then mret end_height
  else
    s ← ask id;
    entry ← header_read (header_entry (cs_store (ss_chain s)) stop);
    match entry with
    | None => mret end_height
    | Some entry =>
        if (start_height <=? he_height entry) && (he_height entry <=? tip_height) then
          ancestor ← header_read (header_ancestor_hash (cs_store (ss_chain s)) tip (he_height entry));
          mret (if bool_decide (ancestor = Some stop) then Z.min end_height (he_height entry) else end_height)
        else mret end_height
    end.
Definition block_header_bytes (store : S) (hash : Hash256) : result ChainStateError (option bytes) :=
  map_err ChainStore (kv_get store BlockHeaderCol hash).
Fixpoint collect_headers_from (tip : Hash256) (count : nat) (height : Z) : serve (list bytes) :=
  match count with
  | O => mret []
  | Datatypes.S count =>
      s ← ask id;
      hash ← header_read (header_ancestor_hash (cs_store (ss_chain s)) tip height);
      match hash with
      | None => mret []
      | Some hash =>
          bs ← store_read (fun store => block_header_bytes store hash);
          match bs with
          | None => mret []
          | Some bs => headers ← collect_headers_from tip count (height + 1); mret (bs :: headers)
          end
      end
  end.
Definition handle_getheaders (clock : Clock) (payload : bytes) : serve unit :=
  request ← of_result (map_err SessionWire (parse_getheaders payload));
  best ← store_read (fun store => map_err ChainStore (best_header store));
  let '(tip, tip_height) :=
    match best with Some tip => (tip_hash tip, tip_height tip) | None => (hash_genesis_block (consensus params), 0) end in
  anchor_height ← find_anchor tip tip_height (gh_locator request);
  let start_height := Z.min (anchor_height + 1) 2147483647 in
  if tip_height <? start_height then send_message_limited clock "headers" (build_headers_payload [])
  else
    let end_height := Z.min (Z.max (Z.min (start_height + 160) 2147483647 - 1) (-2147483648)) tip_height in
    end_height ← stop_height tip tip_height start_height end_height (gh_stop request);
    headers ← collect_headers_from tip (Z.to_nat (end_height - start_height + 1)) start_height;
    send_message_limited clock "headers" (build_headers_payload headers).

(** ** Data *)
(** Reading a block fails with [NotFound]: its file is not there. *)
Definition file_missing (chain : ChainState S) (location : FileLocation) : bool :=
  negb (loc_len location =? 0) && bool_decide (ffs_files (cs_blocks chain) !! file_id location = None).
Fixpoint getdata_loop (clock : Clock) (invs : list InventoryVector) (missing_blocks missing_txs : list Hash256)
    : serve (list Hash256 * list Hash256) :=
  match invs with
  | [] => mret (missing_blocks, missing_txs)
  | inv :: invs =>
      s ← ask id;
      if inv_type inv =? MSG_BLOCK then
        location ← store_read (fun store => block_location store (inv_hash inv));
        match location with
        | None => getdata_loop clock invs (missing_blocks ++ [inv_hash inv]) missing_txs
        | Some location =>
            if file_missing (ss_chain s) location then getdata_loop clock invs (missing_blocks ++ [inv_hash inv]) missing_txs
            else
              bs ← of_result (map_err SessionChain (read_block (ss_chain s) location));
              _ ← send_message_limited clock "block" bs;
              getdata_loop clock invs missing_blocks missing_txs
        end
      else if inv_type inv =? MSG_TX then
        match pool_get (inv_hash inv) (ss_pool s) with
        | Some entry => _ ← send_message_limited clock "tx" (en_raw entry); getdata_loop clock invs missing_blocks missing_txs
        | None => getdata_loop clock invs missing_blocks (missing_txs ++ [inv_hash inv])
        end
      else getdata_loop clock invs missing_blocks missing_txs
  end.
Definition send_notfound (clock : Clock) (hashes : list Hash256) (inv_type : Z) : serve unit :=
  match hashes with [] => mret tt | _ => send_message_limited clock "notfound" (build_inv_payload hashes inv_type) end.
Definition handle_getdata (clock : Clock) (payload : bytes) : serve unit :=
  invs ← of_result (map_err SessionWire (parse_inv payload));
  missing ← getdata_loop clock (take MAX_INBOUND_GETDATA invs) [] [];
  _ ← send_notfound clock (fst missing) MSG_BLOCK;
  send_notfound clock (snd missing) MSG_TX.

(** ** Messages *)
Fixpoint know_all (txids : list Hash256) (known : gset Hash256) : gset Hash256 :=
  match txids with [] => known | txid :: txids => know_all txids (touch_known txid known) end.
Definition tx_hashes (vectors : list InventoryVector) : list Hash256 :=
  map inv_hash (filter (fun v => inv_type v = MSG_TX) vectors).
Definition handle_getaddr (clock : Clock) : serve unit :=
  s ← ask id;
  send_message_limited clock "addr"
    (build_addr_payload (take MAX_INBOUND_ADDR (sample shuffle (ck_secs clock) MAX_INBOUND_ADDR (ss_book s))) (wrap_u32 (ck_secs clock))).
Definition handle_addr (clock : Clock) (payload : bytes) : serve unit :=
  match parse_addr payload with
  | Ok addrs => update (fun s => set_book (insert_many (ck_secs clock) addrs (ss_book s)).2 s)
  | _ => mret tt
  end.
Definition handle_mempool (clock : Clock) : serve unit :=
  s ← ask id;
  let txids := mempool_txids (ss_pool s) (Z.to_nat TX_KNOWN_CAP) (ss_filter s) in
  _ ← update (set_seen (know_all txids (ss_known s)) (ss_requested s));
  send_inv_tx_limited clock txids.
Definition handle_notfound (payload : bytes) : serve unit :=
  match parse_inv payload with
  | Ok vectors => update (fun s => set_seen (ss_known s) (ss_requested s ∖ list_to_set (tx_hashes vectors)) s)
  | _ => mret tt
  end.
Definition handle_reject (payload : bytes) : serve unit :=
  match parse_reject payload with
  | Ok reject =>
      if bool_decide (rj_message reject = ascii_bytes "tx") then
        match rj_data reject with Some txid => forget_requested txid | None => mret tt end
      else mret tt
  | _ => mret tt
  end.
Definition handle_feefilter (payload : bytes) : serve unit :=
  match parse_feefilter payload with Ok filter => update (set_filter filter) | _ => mret tt end.
Definition handle_inbound_message (clock : Clock) (command payload : bytes) : serve unit :=
  let named (name : string) := bool_decide (command = ascii_bytes name) in
  if named "ping" then send_message_limited clock "pong" payload
  else if named "getaddr" then handle_getaddr clock
  else if named "addr" then handle_addr clock payload
  else if named "getheaders" then handle_getheaders clock payload
  else if named "inv" then handle_inv payload
  else if named "tx" then handle_tx clock payload
  else if named "mempool" then handle_mempool clock
  else if named "feefilter" then handle_feefilter payload
  else if named "getdata" then handle_getdata clock payload
  else if named "notfound" then handle_notfound payload
  else if named "reject" then handle_reject payload
  else if named "version" then send_message_limited clock "verack" []
  else mret tt.

(** ** The connection *)
Inductive event :=
| Received (command payload : bytes) | Announced (txid : Hash256) | Lagged | Closed | DisconnectRequested.
Definition note_received (clock : Clock) (payload : bytes) : serve unit := fun s =>
  let '(kept, rate) := rate_recv (ck_instant clock) (saturating_add_usize (Z.of_nat (length payload)) 24) (ss_rate s) in
  (if kept then Ok tt else Err (RateExceeded "recv"), set_rate rate s).
Definition handle_announced (clock : Clock) (txid : Hash256) : serve unit :=
  s ← ask id;
  if bool_decide (txid ∈ ss_known s) then mret tt
  else if should_announce_tx (ss_pool s) txid (ss_filter s) then _ ← know txid; send_inv_tx_limited clock [txid]
  else mret tt.
Fixpoint serve_events (events : list (Clock * event)) : serve unit :=
  match events with
  | [] => mret tt
  | (clock, Received command payload) :: events =>
      _ ← note_received clock payload;
      _ ← handle_inbound_message clock command payload;
      serve_events events
  | (clock, Announced txid) :: events => _ ← handle_announced clock txid; serve_events events
  | (_, Lagged) :: events => serve_events events
  | (_, (Closed | DisconnectRequested)) :: _ => mret tt
  end.
(** After the handshake: the fee filter, then the events. *)
Definition session_start (instant : Z) (s : Session S) : Session S :=
  mkSession (ss_chain s) (ss_pool s) (ss_free_relay s) (ss_estimator s) (ss_book s) (ss_announced s) (ss_sent s) (rate_new instant) ∅ ∅ 0.
Definition handle_inbound_peer (instant : Z) (events : list (Clock * event)) : serve unit :=
  _ ← update (session_start instant);
  _ ← send "feefilter" (build_feefilter_payload (min_relay_fee_per_kb policy));
  serve_events events.
End server.
