(* ===== verification/Serving.v ===== *)
(** * What a connected peer can and cannot do

    Whatever messages arrive on a connection, and in whatever order they
    alternate with announcements, the state shared with the rest of the node
    stays in order; the rates bound what is sent and read; requests for data
    are answered with exactly what is stored. *)

From S2P Require Import Prelude Consensus Rewards Float64 Encoding Hashing Transaction Sighash Script Storage Fluxnode Utxo FlatFiles Indexes ChainIndex Shielded Validation HeaderChain Payees FluxnodeChecks Ledger BlockConnect Mempool PoolInvariant Orphans MempoolPolicy Admission OrphanRetry Wire Peers FeeEstimator FeeHistory AddrBook PeerServer.
From Stdlib Require Import ZArith Lia Floats.SpecFloat.
From stdpp Require Import base list option numbers strings gmap sets sorting relations.
#[local] Open Scope Z_scope.

(** ** Rates *)
Inductive transfer := Sent (bytes : Z) | Read (bytes : Z).
Definition sent_of (x : transfer) : Z := match x with Sent n => n | Read _ => 0 end.
Definition read_of (x : transfer) : Z := match x with Read n => n | Sent _ => 0 end.
Definition sent_bytes (x : Z * transfer) : Z := sent_of x.2.
Definition read_bytes (x : Z * transfer) : Z := read_of x.2.
Definition sum_bytes (f : Z * transfer -> Z) (l : list (Z * transfer)) : Z := foldr Z.add 0 (map f l).
Definition transfer_at (instant : Z) (x : transfer) (r : InboundRateLimiter) : bool * InboundRateLimiter :=
  match x with Sent n => rate_send instant n r | Read n => rate_recv instant n r end.
(** The limiter after transfers at the given instants; [None] when the rate of one of them is exceeded. *)
Fixpoint rate_all (l : list (Z * transfer)) (r : InboundRateLimiter) : option InboundRateLimiter :=
  match l with
  | [] => Some r
  | (instant, x) :: l =>
      let '(kept, r) := transfer_at instant x r in
      if kept then rate_all l r else None
  end.
Definition WINDOW : Z := INBOUND_RATE_WINDOW_SECS * 1000000000.
(** The instants never go back, and the counts are sizes. *)
Fixpoint timed (from : Z) (l : list (Z * transfer)) : bool :=
  match l with
  | [] => true
  | (instant, x) :: l => (from <=? instant) && (0 <=? sent_of x + read_of x) && timed instant l
  end.

Lemma sum_cons f x l : sum_bytes f (x :: l) = f x + sum_bytes f l.
Proof. done. Qed.
Lemma sum_sent_cons t x l : sum_bytes sent_bytes ((t, x) :: l) = sent_of x + sum_bytes sent_bytes l.
Proof. done. Qed.
Lemma sum_read_cons t x l : sum_bytes read_bytes ((t, x) :: l) = read_of x + sum_bytes read_bytes l.
Proof. done. Qed.
Lemma sum_app f l1 l2 : sum_bytes f (l1 ++ l2) = sum_bytes f l1 + sum_bytes f l2.
Proof. induction l1 as [|x l1 IH]; [done|]. rewrite <- app_comm_cons, !sum_cons, IH. lia. Qed.
Lemma rate_all_app l1 l2 r : rate_all (l1 ++ l2) r = r1 ← rate_all l1 r; rate_all l2 r1.
Proof.
  revert r. induction l1 as [|[t x] l1 IH]; intros r; [done|]. cbn [app rate_all].
  destruct (transfer_at t x _) as [[] r1]; [apply IH|done].
Qed.
Lemma timed_app from l1 l2 : timed from (l1 ++ l2) = true -> timed from l1 = true /\ exists t, from <= t /\ timed t l2 = true
  /\ (forall x, x ∈ l1 -> x.1 <= t).
Proof.
  revert from. induction l1 as [|[t x] l1 IH]; intros from; cbn [app timed].
  { intros Hl. split; [done|]. exists from. split_and!; [lia|done|]. intros x Hx. by apply not_elem_of_nil in Hx. }
  intros [[H1 H2]%andb_true_iff Hl]%andb_true_iff. apply IH in Hl as (Hl&t'&Ht&Hl2&Hle). rewrite H1, H2. split; [done|].
  exists t'. split_and!; [lia|done|]. intros y [->|Hy]%elem_of_cons; [done|auto].
Qed.
Lemma timed_from from from' l : from' <= from -> timed from l = true -> timed from' l = true.
Proof.
  destruct l as [|[t x] l]; [done|]. cbn [timed]. intros Hf [[H1 H2]%andb_true_iff ->]%andb_true_iff.
  rewrite H2, !andb_true_r. lia.
Qed.
Lemma sum_nonneg from l : timed from l = true -> 0 <= sum_bytes sent_bytes l /\ 0 <= sum_bytes read_bytes l.
Proof.
  revert from. induction l as [|[t x] l IH]; intros from; cbn [timed]; [by split|].
  intros [[_ Hx]%andb_true_iff Hl]%andb_true_iff. apply IH in Hl. rewrite sum_sent_cons, sum_read_cons.
  destruct x; simpl in *; lia.
Qed.

(** What a limiter has counted. *)
Record counting (r : InboundRateLimiter) : Prop := {
  cn_sent : 0 <= rl_bytes_sent r <= INBOUND_MAX_BYTES_SENT_PER_WINDOW;
  cn_recv : 0 <= rl_bytes_recv r <= INBOUND_MAX_BYTES_RECV_PER_WINDOW }.
Lemma counting_new t : counting (rate_new t).
Proof. split; vm_compute; split; discriminate. Qed.

(** One transfer: in the window it adds to the counts, after it they start anew. *)
Definition counts (instant : Z) (x : transfer) (r r' : InboundRateLimiter) : Prop :=
  let r0 := reset_if_needed instant r in
  rl_window_start r' = rl_window_start r0
  /\ rl_bytes_sent r' = rl_bytes_sent r0 + sent_of x /\ rl_bytes_recv r' = rl_bytes_recv r0 + read_of x.
Lemma saturate_kept a n limit :
  0 <= a -> 0 <= n -> limit < usize_max -> (saturating_add_usize a n <=? limit) = true ->
  saturating_add_usize a n = a + n /\ 0 <= a + n <= limit.
Proof. unfold saturating_add_usize. intros. lia. Qed.
Lemma limits_fit : INBOUND_MAX_BYTES_SENT_PER_WINDOW < usize_max /\ INBOUND_MAX_BYTES_RECV_PER_WINDOW < usize_max.
Proof. by vm_compute. Qed.
Lemma counting_reset instant r : counting r -> counting (reset_if_needed instant r).
Proof. intros Hr. unfold reset_if_needed. destruct (_ <=? _); [apply counting_new|done]. Qed.
Lemma rate_step instant x r r' :
  counting r -> 0 <= sent_of x + read_of x -> transfer_at instant x r = (true, r') -> counting r' /\ counts instant x r r'.
Proof.
  intros Hc Hx. pose proof limits_fit as [L1 L2]. apply (counting_reset instant) in Hc. unfold counts. cbv zeta.
  destruct x as [n|n]; unfold transfer_at, rate_send, rate_recv; cbv zeta; generalize dependent (reset_if_needed instant r);
    intros r0 [Hs Hr] [= Hk <-]; cbn [rl_window_start rl_bytes_sent rl_bytes_recv sent_of read_of] in *.
  - apply saturate_kept in Hk as [-> Hk]; [|lia..]. split; [by split|]. by rewrite Z.add_0_r.
  - apply saturate_kept in Hk as [-> Hk]; [|lia..]. split; [by split|]. by rewrite Z.add_0_r.
Qed.

Lemma no_reset t r : t < rl_window_start r + WINDOW -> reset_if_needed t r = r.
Proof.
  unfold reset_if_needed, WINDOW, INBOUND_RATE_WINDOW_SECS. intros Ht. destruct (Z.leb_spec (10 * 1000000000) (Z.max (t - rl_window_start r) 0)); [lia|done].
Qed.
Lemma reset_after t r : rl_window_start r + WINDOW <= t -> reset_if_needed t r = rate_new t.
Proof.
  unfold reset_if_needed, WINDOW, INBOUND_RATE_WINDOW_SECS. intros Ht. destruct (Z.leb_spec (10 * 1000000000) (Z.max (t - rl_window_start r) 0)); [done|lia].
Qed.

(** Within ten seconds of the start of the window the counts only grow. *)
Lemma rate_same_window l r r' from :
  counting r -> timed from l = true -> (forall x, x ∈ l -> x.1 < rl_window_start r + WINDOW) -> rate_all l r = Some r' ->
  counting r' /\ rl_window_start r' = rl_window_start r
  /\ rl_bytes_sent r' = rl_bytes_sent r + sum_bytes sent_bytes l /\ rl_bytes_recv r' = rl_bytes_recv r + sum_bytes read_bytes l.
Proof.
  revert r from. induction l as [|[t x] l IH]; intros r from Hc; cbn [rate_all timed].
  { intros _ _ [= <-]. split_and!; [done..| |]; unfold sum_bytes; simpl; lia. }
  intros [[Hf Hx]%andb_true_iff Hl]%andb_true_iff Hw Hr.
  destruct (transfer_at t x _) as [[] r1] eqn:E; [|done].
  apply rate_step in E as [Hc1 (Hs&Hn&Hm)]; [|done|lia].
  assert (reset_if_needed t r = r) as Er by (apply no_reset, (Hw (t, x)), list_elem_of_here).
  rewrite Er in Hs, Hn, Hm. destruct (IH r1 t Hc1 Hl) as (Hc'&Hs'&Hn'&Hm').
  { intros y Hy. rewrite Hs. apply Hw. by apply list_elem_of_further. }
  { done. }
  rewrite sum_sent_cons, sum_read_cons. split_and!; [done|lia|lia|lia].
Qed.

(** The first transfer of a list that starts a new window. *)
Lemma rate_window_split l r r' from :
  counting r -> timed from l = true -> rate_all l r = Some r' ->
  (forall x, x ∈ l -> x.1 < rl_window_start r + WINDOW)
  \/ exists l1 t x l2 r1, l = l1 ++ (t, x) :: l2 /\ (forall x, x ∈ l1 -> x.1 < rl_window_start r + WINDOW)
       /\ rate_all l1 r = Some r1 /\ counting r1 /\ rl_window_start r1 = rl_window_start r
       /\ rl_window_start r + WINDOW <= t.
Proof.
  revert r from. induction l as [|[t x] l IH]; intros r from Hc Ht Hr.
  { left. intros x Hx. by apply not_elem_of_nil in Hx. }
  destruct (Z.lt_ge_cases t (rl_window_start r + WINDOW)) as [Hlt|Hge].
  2: { right. exists [], t, x, l, r. split_and!; [done| |done|done|done|done]. intros y Hy. by apply not_elem_of_nil in Hy. }
  cbn [rate_all timed] in *. apply andb_true_iff in Ht as [[Hf Hx]%andb_true_iff Hl].
  destruct (transfer_at t x _) as [[] r1] eqn:E; [|done].
  pose proof E as E1. apply rate_step in E1 as [Hc1 (Hs&_)]; [|done|lia].
  pose proof (no_reset t r Hlt) as Er.
  rewrite Er in Hs. destruct (IH r1 t Hc1 Hl Hr) as [Hw|(l1&t'&x'&l2&r2&->&Hw&Hr2&Hc2&Hs2&Hge)].
  - left. intros y [->|Hy]%elem_of_cons; [done|]. rewrite <- Hs. by apply Hw.
  - right. exists ((t, x) :: l1), t', x', l2, r2. rewrite Hs in Hw, Hs2, Hge. split_and!; [done| | |done|done|done].
    + intros y [->|Hy]%elem_of_cons; [done|]. by apply Hw.
    + cbn [rate_all]. by rewrite E.
Qed.

Lemma rate_all_counting l r r' from : counting r -> timed from l = true -> rate_all l r = Some r' -> counting r'.
Proof.
  revert r from. induction l as [|[t x] l IH]; intros r from Hc; cbn [rate_all timed]; [by intros _ [= <-]|].
  intros [[_ Hx]%andb_true_iff Hl]%andb_true_iff. destruct (transfer_at t x r) as [[] r1] eqn:E; [|done].
  apply rate_step in E as [Hc1 _]; [|done|lia]. by eapply IH.
Qed.
(** A new window counts what follows from nothing. *)
Lemma rate_new_window t x l r r' from :
  counting r -> rl_window_start r + WINDOW <= t -> timed from ((t, x) :: l) = true -> (forall y, y ∈ l -> y.1 < t + WINDOW) ->
  rate_all ((t, x) :: l) r = Some r' ->
  sum_bytes sent_bytes ((t, x) :: l) <= INBOUND_MAX_BYTES_SENT_PER_WINDOW /\ sum_bytes read_bytes ((t, x) :: l) <= INBOUND_MAX_BYTES_RECV_PER_WINDOW.
Proof.
  intros Hc Hge. cbn [rate_all timed]. intros [[_ Hx]%andb_true_iff Hl]%andb_true_iff Hw Hr.
  destruct (transfer_at t x r) as [[] r1] eqn:E; [|done]. apply rate_step in E as [Hc1 (Hs&Hn&Hm)]; [|done|lia].
  rewrite (reset_after t r Hge) in Hs, Hn, Hm. cbn [rate_new rl_window_start rl_bytes_sent rl_bytes_recv] in *.
  destruct (rate_same_window l r1 r' t Hc1 Hl) as ([]&_&Hn'&Hm'); [by rewrite Hs|done|].
  rewrite sum_sent_cons, sum_read_cons. lia.
Qed.
Lemma rate_allows l r from :
  0 <= rl_bytes_sent r -> 0 <= rl_bytes_recv r -> timed from l = true ->
  rl_bytes_sent r + sum_bytes sent_bytes l <= INBOUND_MAX_BYTES_SENT_PER_WINDOW ->
  rl_bytes_recv r + sum_bytes read_bytes l <= INBOUND_MAX_BYTES_RECV_PER_WINDOW -> is_Some (rate_all l r).
Proof.
  pose proof limits_fit as [L1 L2].
  revert r from. induction l as [|[t x] l IH]; intros r from Hs Hr; cbn [rate_all timed]; [by eexists|].
  intros [[_ Hx]%andb_true_iff Hl]%andb_true_iff. rewrite sum_sent_cons, sum_read_cons. intros Hts Htr.
  pose proof (sum_nonneg t l Hl) as [N1 N2].
  assert (0 <= rl_bytes_sent (reset_if_needed t r) <= rl_bytes_sent r /\ 0 <= rl_bytes_recv (reset_if_needed t r) <= rl_bytes_recv r) as [R1 R2].
  { unfold reset_if_needed. case_match; cbn [rate_new rl_bytes_sent rl_bytes_recv]; lia. }
  assert (forall a n limit, limit < usize_max -> a + n <= limit -> saturating_add_usize a n = a + n) as Hsat.
  { unfold saturating_add_usize. intros. lia. }
  destruct x as [n|n]; unfold transfer_at, rate_send, rate_recv; cbv zeta; generalize dependent (reset_if_needed t r);
    intros r0 R1 R2; cbn [sent_of read_of rl_bytes_sent rl_bytes_recv rl_window_start] in *.
  - rewrite (Hsat _ n _ L1) by lia. destruct (Z.leb_spec (rl_bytes_sent r0 + n) INBOUND_MAX_BYTES_SENT_PER_WINDOW); [|lia].
    apply (IH _ t); cbn [rl_bytes_sent rl_bytes_recv]; first [done|lia].
  - rewrite (Hsat _ n _ L2) by lia. destruct (Z.leb_spec (rl_bytes_recv r0 + n) INBOUND_MAX_BYTES_RECV_PER_WINDOW); [|lia].
    apply (IH _ t); cbn [rl_bytes_sent rl_bytes_recv]; first [done|lia].
Qed.

(** C25: the rates hold for every interval of ten seconds, not only for
    the windows the limiter happens to count.  Of the transfers of a
    connection, whatever their instants and sizes, those of any interval
    shorter than ten seconds that were let through are at most 64 MiB sent and
    32 MiB read; and a peer that stays within 32 MiB sent and 16 MiB read in
    all is never cut off. *)
Theorem inbound_rate_bounded (start : Z) (before during : list (Z * transfer)) (r : InboundRateLimiter) :
  timed start (before ++ during) = true ->
  (forall x y, x ∈ during -> y ∈ during -> x.1 - y.1 < WINDOW) ->
  (rate_all (before ++ during) (rate_new start) = Some r ->
   sum_bytes sent_bytes during <= 2 * INBOUND_MAX_BYTES_SENT_PER_WINDOW
   /\ sum_bytes read_bytes during <= 2 * INBOUND_MAX_BYTES_RECV_PER_WINDOW)
  /\ (sum_bytes sent_bytes before <= INBOUND_MAX_BYTES_SENT_PER_WINDOW -> sum_bytes read_bytes before <= INBOUND_MAX_BYTES_RECV_PER_WINDOW ->
      is_Some (rate_all before (rate_new start))).
Proof.
  intros Ht Hd. apply timed_app in Ht as (Hb&t0&_&Hdur&_). split.
  - rewrite rate_all_app. destruct (rate_all before (rate_new start)) as [r1|] eqn:E1; [|done]. cbn. intros Hr.
    pose proof (rate_all_counting _ _ _ _ (counting_new start) Hb E1) as Hc1.
    destruct (rate_window_split during r1 r t0 Hc1 Hdur Hr) as [Hw|(l1&t&x&l2&r2&->&Hw&Hr2&Hc2&Hs2&Hge)].
    + destruct (rate_same_window during r1 r t0 Hc1 Hdur Hw Hr) as ([]&_&Hn&Hm). destruct Hc1. lia.
    + apply timed_app in Hdur as (Ht1&t2&_&Ht2&_).
      destruct (rate_same_window l1 r1 r2 t0 Hc1 Ht1 Hw Hr2) as ([]&_&Hn&Hm). destruct Hc1.
      rewrite rate_all_app, Hr2 in Hr. cbn [mbind option_bind] in Hr. rewrite <- Hs2 in Hge.
      destruct (rate_new_window t x l2 r2 r t2 Hc2 Hge Ht2) as [N1 N2]; [|done|rewrite !sum_app; lia].
      intros y Hy. specialize (Hd y (t, x)). cbn [fst] in Hd. enough (y.1 - t < WINDOW) by lia.
      apply Hd; apply elem_of_app; right; [by apply list_elem_of_further|apply list_elem_of_here].
  - intros Hs Hr. apply (rate_allows before _ start); [done|done|done|cbn; lia|cbn; lia].
Qed.

(** ** What every message keeps *)
Record session_ok `{ShieldedTrees} {S : Type} (s : Session S) : Prop := {
  so_pool : consistent (ss_pool s); so_room : roomy (ss_pool s);
  so_estimator : exists n, est_ok n (ss_estimator s);
  so_known : Z.of_nat (base.size (ss_known s)) <= TX_KNOWN_CAP;
  so_book : (book_len (ss_book s) <= ADDR_BOOK_MAX)%nat }.
(** Nothing of the chain but the cache of headers, and nothing sent or announced is taken back. *)
Definition extends `{ShieldedTrees} {S : Type} (s s' : Session S) : Prop :=
  (exists cache, ss_chain s' = set_header_cache cache (ss_chain s))
  /\ ss_sent s `prefix_of` ss_sent s' /\ ss_announced s `prefix_of` ss_announced s'.

Lemma size_touch txid known :
  Z.of_nat (base.size known) <= TX_KNOWN_CAP -> Z.of_nat (base.size (touch_known txid known)) <= TX_KNOWN_CAP.
Proof.
  intros Hk. unfold touch_known, TX_KNOWN_CAP in *.
  assert (forall k : gset Hash256, base.size ({[txid]} ∪ k) <= Datatypes.S (base.size k))%nat as Hu.
  { intros k. rewrite size_union_alt, size_singleton. pose proof (subseteq_size (k ∖ {[txid]}) k). specialize (H ltac:(set_solver)). lia. }
  destruct (50000 <=? _) eqn:E; [pose proof (Hu ∅) as H; rewrite size_empty in H; lia|specialize (Hu known); lia].
Qed.
Lemma size_know_all txids known :
  Z.of_nat (base.size known) <= TX_KNOWN_CAP -> Z.of_nat (base.size (know_all txids known)) <= TX_KNOWN_CAP.
Proof. revert known. induction txids as [|t txids IH]; intros known Hk; simpl; [done|]. by apply IH, size_touch. Qed.
Lemma size_inv_loop limit vectors m known requested asked known' requested' asked' :
  inv_loop limit vectors m known requested asked = (known', requested', asked') ->
  Z.of_nat (base.size known) <= TX_KNOWN_CAP -> Z.of_nat (base.size known') <= TX_KNOWN_CAP.
Proof.
  revert known requested asked. induction vectors as [|v vectors IH]; intros known requested asked; cbn [inv_loop]; [by intros [= <- _ _]|].
  intros Hl Hk. pose proof (size_touch (inv_hash v) known Hk) as Ht.
  destruct (negb _); [by eapply IH|]. destruct (_ || _ || _); [by eapply IH|]. destruct (_ <=? _)%nat; [by injection Hl as <- _ _|by eapply IH].
Qed.

(** The estimator takes what it is told. *)
Lemma forget_txs_ok n txids e : est_ok n e -> exists e', forget_txs txids e = Ok e' /\ est_ok n e'.
Proof.
  revert e. induction txids as [|t txids IH]; intros e He; cbn [forget_txs]; [eauto|].
  destruct (remove_transaction_kept n t e He) as (e1&->&H1&_). by apply IH.
Qed.
Lemma enter_txs_ok n accepted current e : est_ok n e -> exists e', enter_txs accepted current e = Ok e' /\ est_ok n e'.
Proof.
  revert e. induction accepted as [|a accepted IH]; intros e He; cbn [enter_txs]; [eauto|].
  destruct (process_transaction_kept n (info_of_accepted a) current e He) as (e1&->&H1&_). by apply IH.
Qed.

Create HintDb serving.
Section rules.
  Context {T : ShieldedTrees} {S : Type}.
  #[local] Existing Instances serve_ret serve_bind.
  Implicit Types (s : Session S).

#[export] Instance extends_preorder : PreOrder (extends (S:=S)).
Proof.
  split.
  - intros s. split_and!; [|done|done]. exists (cs_header_cache (ss_chain s)). by destruct (ss_chain s).
  - intros s1 s2 s3 ((c1&E1)&P1&A1) ((c2&E2)&P2&A2). split_and!; [|by etrans|by etrans]. exists c2. rewrite E2, E1. by destruct (ss_chain s1).
Qed.

(** [m] run from [s] leaves the session in order. *)
Definition harmless {A} (m : serve A) s : Prop := session_ok s -> forall r s', m s = (r, s') -> session_ok s' /\ extends s s'.
Lemma harmless_ret {A} (a : A) s : harmless (mret a) s.
Proof. intros Hs r s' [= _ <-]. by split. Qed.
Lemma harmless_result {A} (r : result SessionError A) s : harmless (of_result r) s.
Proof. intros Hs r' s' [= _ <-]. by split. Qed.
Lemma harmless_bind {A B} (m : serve A) (f : A -> serve B) s :
  harmless m s -> (forall a s1, harmless (f a) s1) -> harmless (m ≫= f) s.
Proof.
  intros Hm Hf Hs r s'. unfold mbind, serve_bind. destruct (m s) as [[a|e|] s1] eqn:E; destruct (Hm Hs _ _ E) as [H1 E1].
  - intros Hr. destruct (Hf a s1 H1 r s' Hr) as [H2 E2]. split; [done|by etrans].
  - by intros [= _ <-].
  - by intros [= _ <-].
Qed.
(** What is asked is asked of the session at hand. *)
Lemma harmless_ask {A} (f : Session S -> serve A) s : (forall s0, session_ok s0 -> harmless (f s0) s0) -> harmless (s0 ← ask id; f s0) s.
Proof. intros Hf Hs r s'. cbn. by apply Hf. Qed.
Lemma harmless_ask_at {A} (f : Session S -> serve A) s : (session_ok s -> harmless (f s) s) -> harmless (s0 ← ask id; f s0) s.
Proof. intros Hf Hs r s'. cbn. by apply Hf. Qed.
Lemma harmless_result_bind {A B} (r : result SessionError A) (f : A -> serve B) s :
  (forall a, r = Ok a -> harmless (f a) s) -> harmless (a ← of_result r; f a) s.
Proof. intros Hf Hs r' s'. unfold mbind, serve_bind, of_result. destruct r as [a|e|]; [by apply Hf|by intros [= _ <-]..]. Qed.
Lemma harmless_update_then {A} (g : Session S -> Session S) (f : unit -> serve A) s :
  (session_ok s -> session_ok (g s) /\ extends s (g s)) -> harmless (f tt) (g s) -> harmless (u ← update g; f u) s.
Proof. intros Hg Hf Hs r s' Hr. destruct (Hg Hs) as [H1 E1]. destruct (Hf H1 r s' Hr) as [H2 E2]. split; [done|by etrans]. Qed.
Lemma harmless_update (g : Session S -> Session S) s : (session_ok s -> session_ok (g s) /\ extends s (g s)) -> harmless (update g) s.
Proof. intros Hg Hs r s' [= _ <-]. by apply Hg. Qed.

Lemma same_chain (c : ChainState S) : exists cache, c = set_header_cache cache c.
Proof. exists (cs_header_cache c). by destruct c. Qed.
#[local] Hint Resolve same_chain : core.
Lemma harmless_send command payload s : harmless (send command payload) s.
Proof.
  apply harmless_update. intros []. split; [by split|]. split_and!; [apply same_chain| |done]. cbn. by apply prefix_app_r.
Qed.
Lemma harmless_send_all command payloads s : harmless (send_all command payloads) s.
Proof.
  revert s. induction payloads as [|p payloads IH]; intros s; cbn [send_all]; [apply harmless_ret|].
  apply harmless_bind; [apply harmless_send|auto].
Qed.
Lemma harmless_send_limited clock command payload s : harmless (send_message_limited clock command payload) s.
Proof.
  intros Hs r s'. unfold send_message_limited. destruct (rate_send _ _ _) as [k rate].
  assert (session_ok (set_rate rate s) /\ extends s (set_rate rate s)) as [H1 E1].
  { destruct Hs. split; [by split|by split_and!]. }
  destruct k; [|by intros [= _ <-]]. intros Hr. destruct (harmless_send _ _ _ H1 _ _ Hr) as [H2 E2]. split; [done|by etrans].
Qed.
Lemma harmless_send_inv clock hashes s : harmless (send_inv_tx_limited clock hashes) s.
Proof. apply harmless_send_limited. Qed.
Lemma harmless_header_read {A} (m : chain A) s : harmless (header_read m) s.
Proof.
  intros [] r s'. unfold header_read. destruct (m _) as [r' h]. intros [= _ <-]. split; [by split|].
  split_and!; [|done|done]. by exists (hs_cache h).
Qed.
Lemma harmless_store_read {A} (f : S -> result ChainStateError A) s : harmless (store_read f) s.
Proof. intros Hs r s' [= _ <-]. by split. Qed.
Lemma harmless_seen known requested s :
  (session_ok s -> Z.of_nat (base.size known) <= TX_KNOWN_CAP) -> harmless (update (set_seen known requested)) s.
Proof. intros Hk. apply harmless_update. intros Hs. specialize (Hk Hs). destruct Hs. split; [by split|by split_and!]. Qed.
Lemma harmless_forget txid s : harmless (forget_requested txid) s.
Proof. apply harmless_update. intros []. split; [by split|by split_and!]. Qed.
Lemma harmless_know txid s : harmless (know txid) s.
Proof. apply harmless_update. intros []. split; [split; try done; by apply size_touch|by split_and!]. Qed.
Lemma harmless_announce txid s : harmless (announce txid) s.
Proof. apply harmless_update. intros []. split; [by split|]. split_and!; [apply same_chain|done|]. cbn. by apply prefix_app_r. Qed.
Lemma harmless_estimate f s :
  (forall n e, est_ok n e -> exists e', f e = Ok e' /\ est_ok n e') -> harmless (estimate f) s.
Proof.
  intros Hf [H1 H2 [n H3] H4 H5] r s'. unfold estimate. destruct (Hf n _ H3) as (e'&->&He). intros [= _ <-].
  split; [split; cbn; eauto|by split_and!].
Qed.
Lemma harmless_pool m l s : (session_ok s -> consistent m /\ roomy m) -> harmless (update (set_pool m l)) s.
Proof. intros Hp. apply harmless_update. intros Hs. destruct (Hp Hs). destruct Hs. split; [by split|by split_and!]. Qed.
End rules.
#[export] Hint Resolve harmless_ret harmless_result harmless_send harmless_send_all harmless_send_limited harmless_send_inv harmless_header_read
  harmless_store_read harmless_forget harmless_know harmless_announce : serving.
Ltac serving := repeat first
  [ progress auto with serving | apply harmless_ask; intros ? ? | apply harmless_bind; [|intros ? ?] | progress intros | case_match ].

Section serving.
  Context {H : Hashes} {S256 : Secp} {R : Recovery} {SC : ShieldedCrypto}.
  Context {T : ShieldedTrees} {S : Type} {KV : KeyValueStore S} {F : Powf}.
  Context (params : ChainParams) (flags : ValidationFlags) (policy : MempoolPolicy).
  Context (shuffle : nat -> list (list SocketAddr) -> list (list SocketAddr)).
  #[local] Existing Instances serve_ret serve_bind.
  Implicit Types (s : Session S).

  #[local] Hint Resolve same_chain : core.

(** ** Headers, data and the small messages *)
Lemma harmless_find_anchor tip tip_height locator s : harmless (find_anchor tip tip_height locator) s.
Proof. revert s. induction locator as [|c locator IH]; intros s; cbn [find_anchor]; serving. Qed.
Lemma harmless_stop_height tip tip_height a b stop s : harmless (stop_height tip tip_height a b stop) s.
Proof. unfold stop_height. serving. Qed.
Lemma harmless_collect tip count height s : harmless (collect_headers_from tip count height) s.
Proof. revert height s. induction count as [|count IH]; intros height s; cbn [collect_headers_from]; serving. Qed.
#[local] Hint Resolve harmless_find_anchor harmless_stop_height harmless_collect : serving.
Lemma harmless_getheaders clock payload s : harmless (handle_getheaders params clock payload) s.
Proof. unfold handle_getheaders. serving. Qed.
Lemma harmless_getdata clock payload s : harmless (handle_getdata clock payload) s.
Proof.
  assert (forall invs b t s, harmless (getdata_loop clock invs b t) s) as Hl.
  { induction invs as [|inv invs IH]; intros b t s0; cbn [getdata_loop]; serving. }
  unfold handle_getdata, send_notfound. serving.
Qed.
Lemma harmless_request txids s : harmless (request_txids txids) s.
Proof. unfold request_txids. serving. Qed.
#[local] Hint Resolve harmless_request : serving.
Lemma harmless_inv payload s : harmless (handle_inv payload) s.
Proof.
  unfold handle_inv. apply harmless_bind; [serving|intros vectors s1]. apply harmless_ask. intros s0 H0.
  destruct (inv_loop _ _ _ _ _ _) as [[known requested] asked] eqn:E. apply harmless_bind; [|serving].
  apply harmless_seen. intros _. eapply size_inv_loop; [exact E|apply H0].
Qed.
Lemma harmless_parents limit missing s : harmless (request_parents limit missing) s.
Proof.
  unfold request_parents. apply harmless_ask. intros s0 H0. destruct (parents_loop _ _ _ _) as [requested asked].
  apply harmless_bind; [apply harmless_seen; intros _; apply H0|serving].
Qed.

(** ** Transactions *)
Lemma harmless_accept_orphans clock txid current s : harmless (accept_orphans params flags policy clock txid current) s.
Proof.
  intros Hs r s'. unfold accept_orphans.
  destruct (process_orphans_ends (cs_store (ss_chain s)) params flags policy (ck_secs clock) txid (ss_pool s) (ss_free_relay s)
    (so_pool s Hs) (so_room s Hs)) as [_ Hst].
  destruct (process_orphans_after_accept _ _ _ _ _ _ _ _) as [st| |]; [|by intros [= _ <-]..].
  destruct (Hst st eq_refl) as (_&Hsteps&_).
  refine (_ Hs r s'). apply harmless_bind; [|intros _ s1; apply harmless_bind].
  - apply harmless_pool. intros _. by apply (steps_consistent (ss_pool s)); [|apply Hs..].
  - apply harmless_estimate. intros n e He. destruct (forget_txs_ok n (op_evicted_txids (os_outcome st)) e He) as (e1&->&H1).
    by apply enter_txs_ok.
  - intros _ s2. apply harmless_update. intros []. split; [by split|]. split_and!; [apply same_chain|done|]. cbn. by apply prefix_app_r.
Qed.
#[local] Hint Resolve harmless_accept_orphans : serving.
Lemma harmless_insert clock e s : insertable (ss_pool s) e -> harmless (insert_entry params flags policy clock e) s.
Proof.
  intros Hi. unfold insert_entry. apply harmless_ask_at. intros Hs. cbv zeta. destruct (contains _ _); [serving|].
  destruct (Mempool.insert e (ss_pool s)) as [inserted m] eqn:Ei.
  apply harmless_update_then.
  - intros _. assert (pool_step (ss_pool s) m) as Hp by (replace m with (snd (Mempool.insert e (ss_pool s))) by (by rewrite Ei); by constructor).
    destruct (steps_consistent (ss_pool s) m) as [H1 H2]; [by apply rtc_once|apply Hs..|]. destruct Hs. split; [by split|by split_and!].
  - destruct inserted as [outcome| |]; [|serving..]. apply harmless_bind; [|intros _ s1; serving]. apply harmless_estimate. intros n est He.
    destruct (process_transaction_kept n (info_of_entry e) (current_fee_estimate (cs_store (ss_chain s))) est He) as (e1&->&H1&_).
    by apply forget_txs_ok.
Qed.
Lemma harmless_tx clock payload s :
  Z.of_nat (length payload) <= MAX_PAYLOAD_SIZE -> harmless (handle_tx params flags policy clock payload) s.
Proof.
  intros Hlen. unfold handle_tx. apply harmless_bind; [serving|intros tx s1]. apply harmless_bind; [serving|intros id s2].
  apply harmless_ask. intros s0 H0. case_match; [serving|].
  destruct (build_mempool_entry _ _ _ _ _ _ _ _ _ _) as [entry limiter] eqn:Eb.
  apply harmless_update_then; [intros _; destruct H0; split; [by split|by split_and!]|].
  destruct entry as [e|err|]; [| |serving].
  - apply harmless_insert. eapply built_insertable; [exact Eb|apply H0..|].
    unfold DEFAULT_MAX_ORPHAN_BYTES, MAX_PAYLOAD_SIZE in *. lia.
  - destruct (decide _); [|serving]. apply harmless_bind; [serving|intros _ s3].
    apply harmless_bind; [|intros _ s4; apply harmless_bind; [serving|intros _ s5; apply harmless_parents]].
    apply harmless_update. intros Hs3.
    destruct (steps_consistent (ss_pool s3) (store_orphan (ck_secs clock) id payload (err_missing_inputs err) true (ss_pool s3))) as [HA HB];
      [apply rtc_once; constructor|apply Hs3..|]. destruct Hs3. split; [by split|by split_and!].
Qed.
Lemma harmless_book clock addrs s : harmless (update (fun s => set_book (insert_many clock addrs (ss_book s)).2 s)) s.
Proof.
  apply harmless_update. intros []. split; [split; try done|by split_and!]. cbn. unfold insert_many, book_len in *.
  destruct addrs as [|a addrs]; [done|].
  destruct (insert_addrs clock (a :: addrs) (ab_entries (ss_book s)) 0) as [book inserted] eqn:E.
  apply insert_addrs_spec in E as [H1 _]; [|done]. by destruct (0 <? inserted)%nat.
Qed.

Lemma harmless_addr clock payload s : harmless (handle_addr clock payload) s.
Proof. unfold handle_addr. serving. apply harmless_book. Qed.
Lemma harmless_mempool clock s : harmless (handle_mempool clock) s.
Proof.
  unfold handle_mempool. apply harmless_ask. intros s0 H0. apply harmless_bind; [|serving].
  apply harmless_seen. intros _. apply size_know_all, H0.
Qed.
Lemma harmless_feefilter payload s : harmless (handle_feefilter payload) s.
Proof. unfold handle_feefilter. serving. apply harmless_update. intros []. split; [by split|by split_and!]. Qed.
Lemma harmless_notfound payload s : harmless (handle_notfound payload) s.
Proof. unfold handle_notfound. serving. apply harmless_update. intros []. split; [by split|by split_and!]. Qed.
Lemma harmless_reject payload s : harmless (handle_reject payload) s.
Proof. unfold handle_reject. serving. Qed.
#[local] Hint Resolve harmless_getheaders harmless_getdata harmless_inv harmless_tx harmless_addr harmless_mempool harmless_feefilter
  harmless_notfound harmless_reject : serving.

(** ** The connection *)
Lemma harmless_message clock command payload s :
  Z.of_nat (length payload) <= MAX_PAYLOAD_SIZE ->
  harmless (handle_inbound_message params flags policy shuffle clock command payload) s.
Proof. intros Hlen. unfold handle_inbound_message, handle_getaddr. serving. Qed.
(** Every message that arrives has the size the frame reader lets through. *)
Definition event_ok (e : event) : Prop :=
  match e with Received _ payload => Z.of_nat (length payload) <= MAX_PAYLOAD_SIZE | _ => True end.
Lemma harmless_events (events : list (Clock * event)) s :
  Forall (fun e => event_ok e.2) events -> harmless (serve_events params flags policy shuffle events) s.
Proof.
  intros He. revert s. induction He as [|[clock e] events He _ IH]; intros s; cbn [serve_events]; [serving|].
  destruct e as [command payload|txid| | |]; cbn in He; [| |apply IH|serving..].
  - apply harmless_bind; [|intros _ s1; apply harmless_bind; [by apply harmless_message|auto]].
    intros Hs r s'. unfold note_received. destruct (rate_recv _ _ _) as [k rate]. intros [= _ <-]. destruct Hs. split; [by split|by split_and!].
  - apply harmless_bind; [|auto]. unfold handle_announced. serving.
Qed.


(** ** Answers to requests for data *)
Definition stored_data (inv : InventoryVector) s : result SessionError (option (string * bytes)) :=
  if inv_type inv =? MSG_BLOCK then
    location ← map_err SessionChain (block_location (cs_store (ss_chain s)) (inv_hash inv));
    match location with
    | None => Ok None
    | Some location =>
        if file_missing (ss_chain s) location then Ok None
        else bs ← map_err SessionChain (read_block (ss_chain s) location); Ok (Some ("block", bs))
    end
  else if inv_type inv =? MSG_TX then
    Ok (option_map (fun entry => ("tx", en_raw entry)) (pool_get (inv_hash inv) (ss_pool s)))
  else Ok None.
Definition answer_of s (inv : InventoryVector) : option (bytes * bytes) :=
  match stored_data inv s with Ok (Some (command, bs)) => Some (ascii_bytes command, bs) | _ => None end.
Definition is_missing (type : Z) s (inv : InventoryVector) : bool :=
  (inv_type inv =? type) && match stored_data inv s with Ok None => true | _ => false end.
Definition missing_of (type : Z) s (asked : list InventoryVector) : list Hash256 :=
  map inv_hash (filter (fun inv => is_missing type s inv = true) asked).
Definition notfound_of (type : Z) (hashes : list Hash256) : list (bytes * bytes) :=
  match hashes with [] => [] | _ => [(ascii_bytes "notfound", build_inv_payload hashes type)] end.

(** [m] only writes [sent]. *)
Definition wrote s (sent : list (bytes * bytes)) s' : Prop := exists rate, s' = set_sent (ss_sent s ++ sent) (set_rate rate s).
Lemma wrote_nil s : wrote s [] s.
Proof. exists (ss_rate s). rewrite app_nil_r. by destruct s. Qed.
Lemma wrote_trans s1 l1 s2 l2 s3 : wrote s1 l1 s2 -> wrote s2 l2 s3 -> wrote s1 (l1 ++ l2) s3.
Proof. intros [r1 ->] [r2 ->]. exists r2. cbn. by rewrite app_assoc. Qed.
Lemma wrote_data s l s' inv : wrote s l s' -> stored_data inv s' = stored_data inv s.
Proof. intros [r ->]. done. Qed.
Lemma send_limited_wrote clock command payload s r s' :
  send_message_limited clock command payload s = (r, s') ->
  (r = Ok tt /\ wrote s [(ascii_bytes command, payload)] s') \/ r = Err (RateExceeded "send").
Proof.
  unfold send_message_limited. destruct (rate_send _ _ _) as [[] rate]; intros [= <- <-]; [left|by right].
  split; [done|by exists rate].
Qed.

(** What one vector adds to the answer. *)
Definition missing_if (type : Z) s (inv : InventoryVector) : list Hash256 := if is_missing type s inv then [inv_hash inv] else [].
Lemma missing_of_cons type s inv asked : missing_of type s (inv :: asked) = missing_if type s inv ++ missing_of type s asked.
Proof. unfold missing_of, missing_if. destruct (is_missing type s inv) eqn:E; [by rewrite filter_cons_True|rewrite filter_cons_False; [done|congruence]]. Qed.
Lemma missing_of_wrote type s l s' asked : wrote s l s' -> missing_of type s' asked = missing_of type s asked.
Proof. intros [r ->]. done. Qed.

Inductive stops s (asked : list InventoryVector) (e : SessionError) : Prop :=
| stops_rate : e = RateExceeded "send" -> stops s asked e
| stops_data inv : inv ∈ asked -> stored_data inv s = Err e -> stops s asked e.
Lemma getdata_step clock inv invs b t s :
  getdata_loop clock (inv :: invs) b t s =
  match stored_data inv s with
  | Ok (Some (command, bs)) => (_ ← send_message_limited clock command bs; getdata_loop clock invs b t) s
  | Ok None => getdata_loop clock invs (b ++ missing_if MSG_BLOCK s inv) (t ++ missing_if MSG_TX s inv) s
  | Err e => (Err e, s)
  | Panic => (Panic, s)
  end.
Proof.
  unfold missing_if, is_missing. cbn [getdata_loop]. unfold ask, mbind at 1, serve_bind at 1, id, stored_data.
  destruct (inv_type inv =? MSG_BLOCK) eqn:Eb.
  - assert (inv_type inv =? MSG_TX = false) as -> by (apply Z.eqb_eq in Eb as ->; done).
    unfold mbind at 1, serve_bind at 1, store_read.
    destruct (block_location _ _) as [[l|]|e|]; cbn; [|by rewrite app_nil_r|done..].
    destruct (file_missing _ _); [cbn; by rewrite app_nil_r|]. unfold mbind at 1, serve_bind at 1, of_result.
    by destruct (read_block _ _).
  - destruct (inv_type inv =? MSG_TX); cbn; [|by rewrite !app_nil_r].
    destruct (pool_get _ _); cbn; [done|by rewrite app_nil_r].
Qed.
Definition is_known (inv : InventoryVector) s : Prop := exists d, stored_data inv s = Ok d.
Lemma getdata_loop_spec clock invs b t s r s' :
  getdata_loop clock invs b t s = (r, s') ->
  match r with
  | Ok missing => wrote s (omap (answer_of s) invs) s' /\ Forall (fun inv => is_known inv s) invs
      /\ missing = (b ++ missing_of MSG_BLOCK s invs, t ++ missing_of MSG_TX s invs)
  | Err e => stops s invs e
  | Panic => True
  end.
Proof.
  revert b t s. induction invs as [|inv invs IH]; intros b t s.
  { intros [= <- <-]. split_and!; [apply wrote_nil|done|by rewrite !app_nil_r]. }
  rewrite getdata_step, !missing_of_cons. cbn [omap list_omap]. change (list_omap _ _ ?f ?l) with (omap f l).
  unfold answer_of at 1, missing_if, is_missing.
  destruct (stored_data inv s) as [[[command bs]|]|e|] eqn:Ed.
  - unfold mbind, serve_bind. destruct (send_message_limited clock command bs s) as [r1 s1] eqn:Es.
    apply send_limited_wrote in Es as [[-> Hw]| ->]; [|intros [= <- _]; by apply stops_rate].
    intros Hr. apply IH in Hr. destruct r as [missing|e|]; [|destruct Hr as [-> |inv' Hin He]; [by apply stops_rate|]|done].
    + destruct Hr as (Hw2&Hk&->). rewrite !andb_false_r, !(missing_of_wrote _ _ _ _ _ Hw). split_and!; [| |done].
      * assert (omap (answer_of s1) invs = omap (answer_of s) invs) as Ho by (destruct Hw as [? ->]; done).
        rewrite Ho in Hw2. by apply (wrote_trans s [(ascii_bytes command, bs)] s1).
      * constructor; [by eexists|]. eapply Forall_impl; [exact Hk|]. intros inv' [d Hd]. exists d. by rewrite <- (wrote_data _ _ _ inv' Hw).
    + apply (stops_data _ _ _ inv'); [by apply list_elem_of_further|]. by rewrite <- (wrote_data _ _ _ inv' Hw).
  - intros Hr. apply IH in Hr. destruct r as [missing|e|]; [|destruct Hr as [-> |inv' Hin He]; [by apply stops_rate|]|done].
    + destruct Hr as (Hw2&Hk&->). rewrite !andb_true_r, <- !app_assoc. split_and!; [done| |done]. constructor; [by eexists|done].
    + apply (stops_data _ _ _ inv'); [by apply list_elem_of_further|done].
  - intros [= <- _]. apply (stops_data _ _ _ inv); [apply list_elem_of_here|done].
  - by intros [= <- _].
Qed.
Lemma send_notfound_spec clock hashes type s r s' :
  send_notfound clock hashes type s = (r, s') ->
  (r = Ok tt /\ wrote s (notfound_of type hashes) s') \/ r = Err (RateExceeded "send").
Proof.
  unfold send_notfound, notfound_of. destruct hashes; [|apply send_limited_wrote].
  intros [= <- <-]. left. split; [done|apply wrote_nil].
Qed.


(** ** What is never asked for again *)
(** A transaction refused for another reason than a missing input stays in the
    set of requested ones, *)
Lemma refused_stays_requested clock payload tx txid0 err limiter s :
  tx_consensus_decode payload = Ok tx -> txid tx = Ok txid0 -> contains txid0 (ss_pool s) = false ->
  build_mempool_entry (cs_store (ss_chain s)) params flags policy (prevouts_for_tx tx (ss_pool s)) (ck_secs clock) tx payload true
    (ss_free_relay s) = (Err err, limiter) ->
  err_kind err <> MempoolErrorKind.MissingInput ->
  handle_tx params flags policy clock payload s = (Ok tt, set_pool (ss_pool s) limiter s).
Proof.
  intros Hd Hi Hc Hb Hk. unfold handle_tx. unfold mbind, serve_bind, of_result, ask, id. rewrite Hd. cbn [map_err]. rewrite Hi. cbn [map_err].
  rewrite Hc, Hb. unfold update. by destruct (decide _).
Qed.
(** and what is in that set is not asked for when it is announced again. *)
Lemma requested_not_asked payload h s :
  parse_inv payload = Ok [mkInv MSG_TX h] -> h ∈ ss_requested s ->
  exists s', handle_inv payload s = (Ok tt, s') /\ ss_sent s' = ss_sent s /\ ss_requested s' = ss_requested s.
Proof.
  intros Hp Hr. unfold handle_inv, mbind, serve_bind, of_result, ask, id. rewrite Hp. cbn [map_err inv_loop inv_type inv_hash].
  rewrite (bool_decide_true (h ∈ _)), orb_true_r by done. cbn. by eexists.
Qed.
End serving.
