(* ===== verification/HeaderServing.v ===== *)
(** * Headers served to a peer

    [handle_getheaders] against the best chain of the store: what it answers
    is said by the stored headers alone, following parents from the best
    header; the code finds the same along skip pointers and through the cache,
    which may hold headers that are not on the best chain or not stored. *)

From S2P Require Import Prelude Consensus Rewards Float64 Encoding Hashing Block Transaction Sighash Script Difficulty Equihash Storage Fluxnode Utxo FlatFiles Indexes ChainIndex Shielded Validation HeaderChain HeaderTree HeaderHistory Payees FluxnodeChecks Ledger BlockConnect Mempool MempoolPolicy Wire Peers FeeEstimator AddrBook PeerServer Serving.
From Stdlib Require Import ZArith Lia Floats.SpecFloat.
From stdpp Require Import base list option numbers strings gmap sets sorting relations.
#[local] Open Scope Z_scope.

(** ** The best chain *)
Section best_chain.
  Context {S : Type} {KV : KeyValueStore S}.
  Context (store : S) (tip : ChainTip).
(** The header of height [h] on the chain of the best header. *)
Definition on_best (c : Hash256) (h : Z) : Prop :=
  0 <= h <= tip_height tip /\ nth_parent store (Z.to_nat (tip_height tip - h)) (tip_hash tip) = Ok (Some c).
(** The height to answer after: of the first hash of the locator that is on the best chain. *)
Definition anchor_of (locator : list Hash256) (a : Z) : Prop :=
  (exists before c after, locator = before ++ c :: after /\ on_best c a /\ Forall (fun c => forall h, ~ on_best c h) before)
  \/ a = 0 /\ Forall (fun c => forall h, ~ on_best c h) locator.
(** The last height to answer: 160 more, the tip, or the stop hash. *)
Definition last_height (a : Z) (stop : Hash256) (l : Z) : Prop :=
  (exists h, stop <> zeros 32 /\ a < h /\ on_best stop h /\ l = Z.min (Z.min (a + 160) (tip_height tip)) h)
  \/ (stop = zeros 32 \/ forall h, a < h -> ~ on_best stop h) /\ l = Z.min (a + 160) (tip_height tip).
Definition stored_headers (a l : Z) (headers : list bytes) : Prop :=
  Forall2 (fun h bs => exists c, on_best c h /\ kv_get store BlockHeaderCol c = Ok (Some bs)) (seqZ (a + 1) (l - a)) headers.
End best_chain.

Section headers.
  Context {H : Hashes} {HL : HashesLaws H} {B : Blake2b} {U : U256Ops} {UL : U256Laws U} {S256 : Secp}.
  Context {R : Recovery} {SC : ShieldedCrypto} {T : ShieldedTrees} {F : Powf}.
  Context {S : Type} {KV : KeyValueStore S} {KL : KeyValueStoreLaws S}.
  Context (params : ChainParams) (options : ChainStateOptions).
  #[local] Existing Instances serve_ret serve_bind.
  Implicit Types (s : Session S).

Section reading.
  Context (store : S) (tip : ChainTip) (t : Tree) (m : gmap Hash256 HeaderEntry) (hs : HeaderState) (te : HeaderEntry).
  Context (Hok : chain_ok (consensus params) t m store hs) (Hte : m !! tip_hash tip = Some te) (Hth : he_height te = tip_height tip).
  Notation best := (on_best store tip).

Lemma best_walk c h : best c h <-> 0 <= h <= tip_height tip /\ walk t (Z.to_nat (tip_height tip - h)) (tip_hash tip) = Some c.
Proof.
  pose proof Hok as (Ht&Hs&Hm&Hcl&_). destruct (Hm _ _ Hte) as (Hn&_). split; intros [Hh Hw]; split; try done.
  - destruct (walk_total (consensus params) t (tip_hash tip) _ (Z.to_nat (tip_height tip - h)) Ht Hn) as (a&na&Ha&_); [simpl; lia|].
    rewrite Ha. rewrite (nth_parent_walk (consensus params) t m store hs _ _ te a Hok Hte) in Hw; [congruence|lia|done].
  - eapply nth_parent_walk; [exact Hok|exact Hte|lia|done].
Qed.
Lemma best_node c h : best c h -> exists n, t !! c = Some n /\ n_height n = h.
Proof.
  intros [Hh Hw]%best_walk. pose proof Hok as (Ht&Hs&Hm&_). destruct (Hm _ _ Hte) as (Hn&_).
  destruct (walk_total (consensus params) t (tip_hash tip) _ (Z.to_nat (tip_height tip - h)) Ht Hn) as (a&na&Ha&Hna&Hhn); [simpl; lia|].
  rewrite Hw in Ha. injection Ha as ->. exists na. split; [done|]. simpl in Hhn. lia.
Qed.
Lemma best_total h : 0 <= h <= tip_height tip -> exists c, best c h.
Proof.
  intros Hh. pose proof Hok as (Ht&Hs&Hm&_). destruct (Hm _ _ Hte) as (Hn&_).
  destruct (walk_total (consensus params) t (tip_hash tip) _ (Z.to_nat (tip_height tip - h)) Ht Hn) as (a&na&Ha&_); [simpl; lia|].
  exists a. by apply best_walk.
Qed.
Lemma best_unique c c' h : best c h -> best c' h -> c = c'.
Proof. intros [_ H1] [_ H2]. congruence. Qed.
Lemma best_stored c h : best c h -> exists e, m !! c = Some e /\ he_height e = h.
Proof.
  intros Hb. pose proof (best_node c h Hb) as (n&Hn&Hh). apply best_walk in Hb as [Hh' Hw]. pose proof Hok as (Ht&Hs&Hm&Hcl&_).
  destruct (closed_walk (consensus params) t m (tip_hash tip) (Z.to_nat (tip_height tip - h)) c Hm Hcl) as [e He]; [by eexists| |done|done|].
  - intros e He. rewrite Hte in He. injection He as <-. lia.
  - exists e. split; [done|]. destruct (Hm _ _ He) as (Hn'&_). rewrite Hn in Hn'. injection Hn' as ->. done.
Qed.

(** ** Reading the header chain for a peer *)
Definition at_rest s : Prop := cs_store (ss_chain s) = store /\ cache_ok t (cs_header_cache (ss_chain s)).
Definition moved s s' : Prop := exists c, cache_ok t c /\ s' = set_chain (set_header_cache c (ss_chain s)) s.
Lemma moved_rest s s' : at_rest s -> moved s s' -> at_rest s'.
Proof. intros [H1 H2] (c&Hc&->). by split. Qed.
Lemma moved_refl s : at_rest s -> moved s s.
Proof. intros [_ Hc]. eexists. split; [exact Hc|]. destruct s as [[] ? ? ? ? ? ? ? ? ? ?]. done. Qed.
Lemma moved_trans s1 s2 s3 : moved s1 s2 -> moved s2 s3 -> moved s1 s3.
Proof. intros (c1&_&->) (c2&Hc&->). by exists c2. Qed.

(** [p] succeeds with something [P] holds of, and only the cache moves. *)
Definition reads_as {A} (p : serve A) s (P : A -> Prop) : Prop := exists a s', p s = (Ok a, s') /\ moved s s' /\ P a.
Lemma reads_as_ret {A} (a : A) s (P : A -> Prop) : at_rest s -> P a -> reads_as (mret a) s P.
Proof. intros Hs Ha. exists a, s. split_and!; [done|by apply moved_refl|done]. Qed.
Lemma reads_as_bind {A D} (p : serve A) (f : A -> serve D) s P Q :
  reads_as p s P -> at_rest s -> (forall a s1, P a -> at_rest s1 -> reads_as (f a) s1 Q) -> reads_as (p ≫= f) s Q.
Proof.
  intros (a&s1&E&Hm1&Ha) Hs Hf. destruct (Hf a s1 Ha (moved_rest _ _ Hs Hm1)) as (b&s2&E2&Hm2&Hb).
  exists b, s2. unfold mbind, serve_bind. rewrite E. split_and!; [done|by eapply moved_trans|done].
Qed.
Lemma reads_ask {A} (f : Session S -> serve A) s P : reads_as (f s) s P -> reads_as (s0 ← ask id; f s0) s P.
Proof. done. Qed.
Lemma reads_weaken {A} (p : serve A) s P Q : reads_as p s P -> (forall a, P a -> Q a) -> reads_as p s Q.
Proof. intros (a&s'&E&Hm&Ha) Hpq. exists a, s'. auto. Qed.
Lemma reads_header {A} (p : chain A) s (P : A -> Prop) :
  at_rest s -> (forall s0 : HeaderState, cache_ok t (hs_cache s0) -> quiet t p s0 (fun r => exists a, r = Ok a /\ P a)) -> reads_as (header_read p) s P.
Proof.
  intros [_ Hc] Hq. unfold reads_as, header_read. cbv zeta.
  destruct (Hq (mkHeaderState (cs_header_cache (ss_chain s)) [] ∅ None None None) Hc) as (r&c&E&Hc'&a&->&Ha).
  rewrite E. exists a. eexists. split; [done|]. split; [by exists c|done].
Qed.
Lemma reads_entry c s :
  at_rest s -> reads_as (header_read (header_entry store c)) s (fun o =>
    (forall e, o = Some e -> forall h, best c h -> he_height e = h) /\ ((exists h, best c h) -> is_Some o)).
Proof.
  intros Hs. apply reads_header; [done|]. intros st Hc. pose proof Hok as (Ht&Hms&Hm&Hcl&_).
  eapply quiet_conseq; [by eapply header_entry_spec|]. intros r (o&->&Ho&Hmo). exists o. split; [done|]. split.
  - intros e -> h Hb. apply best_node in Hb as (n&Hn&<-). destruct (Ho e eq_refl) as (Hn'&_). rewrite Hn in Hn'. by injection Hn' as ->.
  - intros [h Hb]. apply Hmo. apply best_stored in Hb as (e&He&_). by eexists.
Qed.
Lemma reads_ancestor h s :
  at_rest s -> 0 <= h <= tip_height tip ->
  reads_as (header_read (header_ancestor_hash store (tip_hash tip) h)) s (fun o => exists c, o = Some c /\ best c h).
Proof.
  intros Hs Hh. apply reads_header; [done|]. intros st Hc. pose proof Hok as (Ht&Hms&Hm&Hcl&_).
  eapply quiet_conseq; [by eapply header_ancestor_spec|]. intros r (o&->&Ho&Hmo).
  destruct (Hmo te Hte) as [c ->]; [lia|]. exists (Some c). split; [done|]. exists c. split; [done|].
  destruct (Ho c eq_refl) as (n&Hn&_&Hw). destruct (Hm _ _ Hte) as (Hn'&_). rewrite Hn in Hn'. injection Hn' as ->.
  apply best_walk. split; [done|]. simpl in Hw. by rewrite Hth in Hw.
Qed.

Lemma anchor_skip c locator a : (forall h, ~ best c h) -> anchor_of store tip locator a -> anchor_of store tip (c :: locator) a.
Proof.
  intros Hc [(before&c'&after&->&Hb&Hf)|[-> Hf]]; [left|right; by split; [|constructor]].
  exists (c :: before), c', after. split_and!; [done|done|by constructor].
Qed.
Lemma reads_anchor locator s :
  at_rest s -> reads_as (find_anchor (tip_hash tip) (tip_height tip) locator) s (anchor_of store tip locator).
Proof.
  revert s. induction locator as [|c locator IH]; intros s Hs; cbn [find_anchor].
  { apply reads_as_ret; [done|]. right. by split. }
  apply reads_ask. rewrite (proj1 Hs).
  eapply reads_as_bind; [by apply reads_entry|done|]. intros o s1 [Ho Hex] Hs1.
  assert (forall s2, at_rest s2 -> (forall h, ~ best c h) ->
    reads_as (find_anchor (tip_hash tip) (tip_height tip) locator) s2 (anchor_of store tip (c :: locator))) as Hskip.
  { intros s2 Hs2 Hn. eapply reads_weaken; [by apply IH|]. intros a Ha. by apply anchor_skip. }
  destruct o as [e|].
  2: { apply Hskip; [done|]. intros h Hb. destruct Hex as [? ?]; [by exists h|done]. }
  destruct ((he_height e <? 0) || (tip_height tip <? he_height e)) eqn:Er.
  { apply Hskip; [done|]. intros h Hb. pose proof (Ho e eq_refl h Hb) as <-. destruct Hb as [? _]. lia. }
  eapply reads_as_bind; [by apply reads_ancestor; [|lia]|done|]. intros o s2 (c'&->&Hb) Hs2.
  case_bool_decide as Ec.
  - injection Ec as ->. apply reads_as_ret; [done|]. left. exists [], c, locator. by split_and!.
  - apply Hskip; [done|]. intros h Hb'. pose proof (Ho e eq_refl h Hb') as Heq. rewrite Heq in Hb. apply Ec. f_equal. by eapply best_unique.
Qed.
Lemma reads_stop a stop s :
  at_rest s -> -1 <= a < tip_height tip ->
  reads_as (stop_height (tip_hash tip) (tip_height tip) (a + 1) (Z.min (a + 160) (tip_height tip)) stop) s (last_height store tip a stop).
Proof.
  intros Hs Ha. unfold stop_height. case_bool_decide as Ez; [apply reads_as_ret; [done|]; right; by split; [left|]|].
  apply reads_ask. rewrite (proj1 Hs).
  eapply reads_as_bind; [by apply reads_entry|done|]. intros o s1 [Ho Hex] Hs1. destruct o as [e|].
  2: { apply reads_as_ret; [done|]. right. split; [|done]. right. intros h _ Hb. destruct Hex as [? ?]; [by exists h|done]. }
  destruct ((a + 1 <=? he_height e) && (he_height e <=? tip_height tip)) eqn:Er.
  2: { apply reads_as_ret; [done|]. right. split; [|done]. right. intros h Hh Hb. pose proof (Ho e eq_refl h Hb) as <-.
       destruct Hb as [? _]. lia. }
  eapply reads_as_bind; [by apply reads_ancestor; [|lia]|done|]. intros o s2 (c'&->&Hb) Hs2.
  apply reads_as_ret; [done|]. case_bool_decide as Ec.
  - injection Ec as ->. left. exists (he_height e). split_and!; [done|lia|done|done].
  - right. split; [|done]. right. intros h Hh Hb'. pose proof (Ho e eq_refl h Hb') as Heq. rewrite Heq in Hb. apply Ec. f_equal. by eapply best_unique.
Qed.
Lemma reads_collect count h s :
  (forall c h, best c h -> exists bs, kv_get store BlockHeaderCol c = Ok (Some bs)) ->
  at_rest s -> 0 <= h -> h + Z.of_nat count <= tip_height tip + 1 ->
  reads_as (collect_headers_from (tip_hash tip) count h) s
    (Forall2 (fun h bs => exists c, best c h /\ kv_get store BlockHeaderCol c = Ok (Some bs)) (seqZ h (Z.of_nat count))).
Proof.
  intros Hbytes. revert h s. induction count as [|count IH]; intros h s Hs H0 Hh; cbn [collect_headers_from].
  { by apply reads_as_ret. }
  apply reads_ask. rewrite (proj1 Hs). eapply reads_as_bind; [by apply reads_ancestor; [|lia]|done|]. intros o s1 (c&->&Hb) Hs1.
  destruct (Hbytes _ _ Hb) as [bs Hbs].
  apply (reads_as_bind _ _ _ (fun o => o = Some bs)); [|done|].
  - exists (Some bs), s1. unfold store_read, block_header_bytes. rewrite (proj1 Hs1), Hbs. split_and!; [done|by apply moved_refl|done].
  - intros o s2 -> Hs2. eapply reads_as_bind; [by apply IH; [|lia..]|done|]. intros headers s3 Hf Hs3.
    apply reads_as_ret; [done|]. rewrite seqZ_cons by lia. constructor; [by exists c|].
    replace (Z.pred (Z.of_nat (Datatypes.S count))) with (Z.of_nat count) by lia. by rewrite <- Z.add_1_r.
Qed.
Lemma anchor_range locator a : 0 <= tip_height tip -> anchor_of store tip locator a -> 0 <= a <= tip_height tip.
Proof. by intros Ht [(?&?&?&_&[? _]&_)|[-> _]]. Qed.
Lemma last_range a stop l : a <= tip_height tip -> last_height store tip a stop l -> a <= l <= Z.min (a + 160) (tip_height tip).
Proof. intros Ha [(h&_&?&_&->)|[_ ->]]; lia. Qed.

(** What the peer asked for, found; then one message. *)
Lemma getheaders_spec clock payload request s r s' :
  (forall c h, best c h -> exists bs, kv_get store BlockHeaderCol c = Ok (Some bs)) ->
  best_header store = Ok (Some tip) -> parse_getheaders payload = Ok request -> at_rest s ->
  handle_getheaders params clock payload s = (r, s') ->
  exists a l headers s1, anchor_of store tip (gh_locator request) a /\ last_height store tip a (gh_stop request) l
    /\ stored_headers store tip a l headers /\ (length headers <= 160)%nat
    /\ moved s s1 /\ send_message_limited clock "headers" (build_headers_payload headers) s1 = (r, s').
Proof.
  intros Hbytes Hbest Hreq Hs. unfold handle_getheaders, mbind at 1, serve_bind at 1, of_result. rewrite Hreq. cbn [map_err].
  unfold mbind at 1, serve_bind at 1, store_read. rewrite (proj1 Hs), Hbest. cbn [map_err].
  pose proof Hok as (Ht&_&Hm&_). destruct (Hm _ _ Hte) as (Hn&_). destruct (Ht _ _ Hn) as (_&Hrange&_). cbn [node_of n_height] in Hrange.
  rewrite Hth in Hrange.
  destruct (reads_anchor (gh_locator request) s Hs) as (a&s1&Ea&Hm1&Ha). pose proof (anchor_range _ _ ltac:(lia) Ha) as Hra.
  unfold mbind at 1, serve_bind at 1. rewrite Ea. cbv zeta. rewrite (Z.min_l (a + 1)) by lia.
  destruct (Z.ltb_spec (tip_height tip) (a + 1)) as [Hlt|Hge].
  { intros Hr. exists a, (tip_height tip), [], s1. split_and!; [done| | |simpl; lia|done|done].
    - right. split; [|lia]. right. intros h Hh [? _]. lia.
    - unfold stored_headers. rewrite seqZ_nil by lia. constructor. }
  replace (Z.min (Z.max (Z.min (a + 1 + 160) 2147483647 - 1) (-2147483648)) (tip_height tip)) with (Z.min (a + 160) (tip_height tip)) by lia.
  pose proof (moved_rest _ _ Hs Hm1) as Hs1.
  destruct (reads_stop a (gh_stop request) s1 Hs1 ltac:(lia)) as (l&s2&El&Hm2&Hl). pose proof (last_range _ _ _ (proj2 Hra) Hl) as Hrl.
  unfold mbind at 1, serve_bind at 1. rewrite El. pose proof (moved_rest _ _ Hs1 Hm2) as Hs2.
  destruct (reads_collect (Z.to_nat (l - (a + 1) + 1)) (a + 1) s2 Hbytes Hs2 ltac:(lia) ltac:(lia)) as (headers&s3&Eh&Hm3&Hh).
  unfold mbind at 1, serve_bind at 1. rewrite Eh. intros Hr. exists a, l, headers, s3.
  replace (Z.of_nat (Z.to_nat (l - (a + 1) + 1))) with (l - a) in Hh by lia.
  split_and!; [done|done|done| |eapply moved_trans; [exact Hm1|by eapply moved_trans]|done].
  apply Forall2_length in Hh. rewrite length_seqZ in Hh. lia.
Qed.
End reading.

End headers.
