(* ===== verification/TxRelay.v ===== *)
(** * Relaying transactions with the peers the node chose ([node/src/tx_relay.rs])

    The other copy of the transaction handling: for connections the node
    opened.  It works on the same [Session] as [PeerServer], without rates and
    without a limit on what one message may make it ask for.  The counts of
    refused transactions, which only a log line reads, are left out; so is the
    loop that opens connections. *)

From S2P Require Import Prelude Consensus Rewards Float64 Encoding Hashing Transaction Sighash Script Storage Fluxnode Utxo FlatFiles Indexes ChainIndex Shielded Validation HeaderChain Payees FluxnodeChecks Ledger BlockConnect Mempool PoolInvariant Orphans MempoolPolicy Admission OrphanRetry Wire Peers FeeEstimator FeeHistory AddrBook PeerServer Serving.
From Stdlib Require Import ZArith Lia Floats.SpecFloat.
From stdpp Require Import base list option numbers strings gmap sets sorting relations.
#[local] Open Scope Z_scope.

Section relay.
  Context {H : Hashes} {S256 : Secp} {R : Recovery} {SC : ShieldedCrypto}.
  Context {T : ShieldedTrees} {S : Type} {KV : KeyValueStore S} {F : Powf}.
  Context (params : ChainParams) (flags : ValidationFlags) (policy : MempoolPolicy).
  #[local] Existing Instances serve_ret serve_bind.

(** What is asked for of the announced transactions. *)
Fixpoint relay_inv_loop (txids : list Hash256) (m : Mempool) (known requested : gset Hash256) (to_request : list Hash256)
    : gset Hash256 * gset Hash256 * list Hash256 :=
  match txids with
  | [] => (known, requested, to_request)
  | txid :: txids =>
      let known := touch_known txid known in
      if contains txid m || has_orphan txid m || bool_decide (txid ∈ requested)
      then relay_inv_loop txids m known requested to_request
      else relay_inv_loop txids m known ({[txid]} ∪ requested) (to_request ++ [txid])
  end.
Definition relay_inv (payload : bytes) : serve (S:=S) unit :=
  vectors ← of_result (map_err SessionWire (parse_inv payload));
  match tx_hashes vectors with
  | [] => mret tt
  | txids =>
      s ← ask id;
      let '(known, requested, to_request) := relay_inv_loop txids (ss_pool s) (ss_known s) (ss_requested s) [] in
      _ ← update (set_seen known requested);
      request_txids to_request
  end.
Fixpoint relay_parents_loop (parents : list Hash256) (requested : gset Hash256) (to_request : list Hash256)
    : gset Hash256 * list Hash256 :=
  match parents with
  | [] => (requested, to_request)
  | parent :: parents =>
      if bool_decide (parent ∈ requested) then relay_parents_loop parents requested to_request
      else relay_parents_loop parents ({[parent]} ∪ requested) (to_request ++ [parent])
  end.
Definition relay_parents (missing : list OutPoint) : serve (S:=S) unit :=
  s ← ask id;
  let '(requested, to_request) := relay_parents_loop (orphan_parent_txids missing) (ss_requested s) [] in
  _ ← update (set_seen (ss_known s) requested);
  request_txids to_request.
(** The orphans that waited; the estimator hears of it only when some entered. *)
Definition relay_orphans (clock : Clock) (txid : Hash256) : serve (S:=S) unit := fun s =>
  match process_orphans_after_accept (cs_store (ss_chain s)) params flags policy (ck_secs clock) txid (ss_pool s) (ss_free_relay s) with
  | Ok st =>
      (_ ← update (set_pool (os_pool st) (os_limiter st));
       match op_accepted (os_outcome st) with
       | [] => mret tt
       | accepted =>
           s ← ask id;
           let current := current_fee_estimate (cs_store (ss_chain s)) in
           _ ← estimate (fun e => e ← forget_txs (op_evicted_txids (os_outcome st)) e; enter_txs accepted current e);
           update (fun s => set_announced (ss_announced s ++ map oa_txid accepted) s)
       end) s
  | _ => (Panic, s)
  end.
Definition relay_insert (clock : Clock) (e : MempoolEntry) : serve (S:=S) unit :=
  s ← ask id;
  let current := current_fee_estimate (cs_store (ss_chain s)) in
  if contains (en_txid e) (ss_pool s) then mret tt
  else
    let '(inserted, m) := Mempool.insert e (ss_pool s) in
    _ ← update (set_pool m (ss_free_relay s));
    match inserted with
    | Ok outcome =>
        _ ← estimate (fun est => est ← process_transaction (info_of_entry e) current est; forget_txs (evicted_txids outcome) est);
        _ ← know (en_txid e);
        _ ← forget_requested (en_txid e);
        _ ← announce (en_txid e);
        relay_orphans clock (en_txid e)
    | Err _ => mret tt
    | Panic => of_result Panic
    end.
Definition relay_tx (clock : Clock) (payload : bytes) : serve (S:=S) unit :=
  tx ← of_result (map_err SessionTransaction (tx_consensus_decode payload));
  txid ← of_result (map_err SessionTxid (txid tx));
  s ← ask id;
  if contains txid (ss_pool s) then _ ← know txid; forget_requested txid
  else
    let '(entry, limiter) :=
      build_mempool_entry (cs_store (ss_chain s)) params flags policy (prevouts_for_tx tx (ss_pool s)) (ck_secs clock) tx payload true
        (ss_free_relay s) in
    _ ← update (set_pool (ss_pool s) limiter);
    match entry with
    | Ok e => relay_insert clock e
    | Err err =>
        if decide (err_kind err = MempoolErrorKind.MissingInput) then
          _ ← forget_requested txid;
          _ ← update (fun s => set_pool (store_orphan (ck_secs clock) txid payload (err_missing_inputs err) true (ss_pool s)) (ss_free_relay s) s);
          _ ← know txid;
          relay_parents (err_missing_inputs err)
        else mret tt
    | Panic => of_result Panic
    end.
Definition mempool_raws (m : Mempool) (txids : list Hash256) : list bytes :=
  omap (fun txid => option_map en_raw (pool_get txid m)) txids.
Definition relay_getdata (payload : bytes) : serve (S:=S) unit :=
  vectors ← of_result (map_err SessionWire (parse_inv payload));
  match tx_hashes vectors with
  | [] => mret tt
  | txids => s ← ask id; send_all "tx" (mempool_raws (ss_pool s) txids)
  end.
Definition relay_mempool : serve (S:=S) unit :=
  s ← ask id;
  match mempool_txids (ss_pool s) (Z.to_nat TX_KNOWN_CAP) (ss_filter s) with
  | [] => mret tt
  | txids =>
      _ ← update (set_seen (know_all txids (ss_known s)) (ss_requested s));
      send "inv" (build_inv_payload txids MSG_TX)
  end.
(** A malformed [notfound] ends this connection. *)
Definition relay_notfound (payload : bytes) : serve (S:=S) unit :=
  vectors ← of_result (map_err SessionWire (parse_inv payload));
  update (fun s => set_seen (ss_known s) (ss_requested s ∖ list_to_set (tx_hashes vectors)) s).
Definition handle_peer_message (clock : Clock) (command payload : bytes) : serve (S:=S) unit :=
  let named (name : string) := bool_decide (command = ascii_bytes name) in
  if named "inv" then relay_inv payload
  else if named "tx" then relay_tx clock payload
  else if named "feefilter" then handle_feefilter payload
  else if named "getdata" then relay_getdata payload
  else if named "mempool" then relay_mempool
  else if named "notfound" then relay_notfound payload
  else if named "reject" then handle_reject payload
  else if named "ping" then send "pong" payload
  else if named "version" then send "verack" []
  else mret tt.
Definition relay_announced (txid : Hash256) : serve (S:=S) unit :=
  s ← ask id;
  if bool_decide (txid ∈ ss_known s) then mret tt
  else if should_announce_tx (ss_pool s) txid (ss_filter s) then _ ← know txid; send "inv" (build_inv_payload [txid] MSG_TX)
  else mret tt.
Fixpoint relay_events (events : list (Clock * event)) : serve (S:=S) unit :=
  match events with
  | [] => mret tt
  | (clock, Received command payload) :: events => _ ← handle_peer_message clock command payload; relay_events events
  | (clock, Announced txid) :: events => _ ← relay_announced txid; relay_events events
  | (_, Lagged) :: events => relay_events events
  | (_, (Closed | DisconnectRequested)) :: _ => mret tt
  end.
Definition tx_relay_peer (instant : Z) (events : list (Clock * event)) : serve (S:=S) unit :=
  _ ← update (session_start instant);
  _ ← send "feefilter" (build_feefilter_payload (min_relay_fee_per_kb policy));
  _ ← send "mempool" [];
  relay_events events.

(** ** Both copies do the same *)
Lemma relay_inv_loop_eq limit vectors m known requested asked :
  (length asked < limit)%nat -> (length asked + length (tx_hashes vectors) <= limit)%nat ->
  inv_loop limit vectors m known requested asked = relay_inv_loop (tx_hashes vectors) m known requested asked.
Proof.
  revert known requested asked. induction vectors as [|v vectors IH]; intros known requested asked Hl Hlen; [done|].
  unfold tx_hashes in *. cbn [inv_loop]. destruct (decide (inv_type v = MSG_TX)) as [Ev|Ev].
  - rewrite filter_cons_True in * by done. cbn [map length] in *. rewrite (proj2 (Z.eqb_eq _ _) Ev). cbn [negb relay_inv_loop].
    destruct (_ || _ || _); [apply IH; lia|].
    destruct (limit <=? length (asked ++ [inv_hash v]))%nat eqn:El; rewrite length_app in El; simpl in El.
    + apply Nat.leb_le in El. assert (map inv_hash (filter (fun v => inv_type v = MSG_TX) vectors) = []) as ->; [|done].
      apply length_zero_iff_nil. lia.
    + apply Nat.leb_gt in El. apply IH; rewrite length_app; simpl; lia.
  - rewrite filter_cons_False in * by done. rewrite (proj2 (Z.eqb_neq _ _) Ev). by apply IH.
Qed.
Lemma relay_parents_loop_eq limit parents requested asked :
  (length asked < limit)%nat -> (length asked + length parents <= limit)%nat ->
  parents_loop limit parents requested asked = relay_parents_loop parents requested asked.
Proof.
  revert requested asked. induction parents as [|p parents IH]; intros requested asked Hl Hlen; [done|]. cbn [parents_loop relay_parents_loop length] in *.
  case_bool_decide; [apply IH; lia|].
  destruct (limit <=? length (asked ++ [p]))%nat eqn:El; rewrite length_app in El; simpl in El.
  - apply Nat.leb_le in El. assert (parents = []) as ->; [|done]. apply length_zero_iff_nil. lia.
  - apply Nat.leb_gt in El. apply IH; rewrite length_app; simpl; lia.
Qed.

(** Nothing is evicted by orphans unless one entered. *)
Definition evicts_if_accepts (o : OrphanProcessOutcome) : Prop := op_accepted o = [] -> op_evicted_txids o = [].
Lemma retry_orphan_evicts store now st o st' :
  evicts_if_accepts (os_outcome st) -> retry_orphan store params flags policy now st o = Ok st' -> evicts_if_accepts (os_outcome st').
Proof.
  intros Ho. unfold retry_orphan. cbv zeta. repeat case_match; intros [= <-]; try done.
  unfold evicts_if_accepts, add_inserted. cbn. intros Hn. exfalso. by eapply app_cons_not_nil.
Qed.
Lemma process_loop_evicts store fuel now visited st st' :
  evicts_if_accepts (os_outcome st) -> process_orphans_loop store params flags policy fuel now visited st = Ok st' ->
  evicts_if_accepts (os_outcome st').
Proof.
  revert visited st. induction fuel as [|fuel IH]; intros visited st Ho; cbn [process_orphans_loop];
    (destruct (os_queue st) as [|p queue]; [by intros [= <-]|]); [done|].
  cbv zeta. case_bool_decide; [by apply IH|]. destruct (take_orphans_for_parent _ _) as [taken m].
  assert (forall taken st1 st2, evicts_if_accepts (os_outcome st1) ->
    try_fold (retry_orphan store params flags policy now) st1 taken = Ok st2 -> evicts_if_accepts (os_outcome st2)) as Hf.
  { intros l. induction l as [|o l IHl]; intros st1 st2 H1; cbn [try_fold]; [by intros [= <-]|].
    destruct (retry_orphan _ _ _ _ _ st1 o) as [st3| |] eqn:E; [|done..]. apply IHl. by eapply retry_orphan_evicts. }
  destruct (try_fold _ _ taken) as [st2| |] eqn:E; cbn [mbind result_bind]; [|done..]. apply IH. by eapply Hf in E.
Qed.

Lemma orphan_parents_length missing : (length (orphan_parent_txids missing) <= length missing)%nat.
Proof.
  unfold orphan_parent_txids. rewrite merge_sort_Permutation.
  etrans; [apply (size_list_to_set_le (filter (fun h => h <> zeros 32) (map hash missing)))|].
  rewrite length_filter. by rewrite length_map.
Qed.
Lemma missing_length store tx missing prevouts :
  names store prevouts tx missing -> (length missing <= length (vin tx))%nat.
Proof.
  intros (_&_&Hn&Hin). rewrite <- (length_map Transaction.prevout (vin tx)). apply submseteq_length, NoDup_submseteq; [done|].
  intros o Ho. by apply Hin.
Qed.

Lemma relay_parents_eq missing (s : Session S) :
  (length missing <= MAX_INBOUND_TX_REQUEST)%nat -> relay_parents missing s = request_parents MAX_INBOUND_TX_REQUEST missing s.
Proof.
  intros Hl. unfold relay_parents, request_parents, mbind at 1 3, serve_bind at 1 3, ask, id.
  pose proof (orphan_parents_length missing) as Hp.
  rewrite relay_parents_loop_eq; [done|unfold MAX_INBOUND_TX_REQUEST; simpl; lia|cbn [length]; lia].
Qed.
Lemma relay_orphans_eq clock txid (s : Session S) :
  relay_orphans clock txid s
  = accept_orphans params flags policy clock txid (current_fee_estimate (cs_store (ss_chain s))) s.
Proof.
  unfold relay_orphans, accept_orphans. destruct (process_orphans_after_accept _ _ _ _ _ _ _ _) as [st| |] eqn:E; [|done..].
  apply process_loop_evicts in E; [|done]. unfold mbind at 1 4, serve_bind at 1 4, update at 1 3.
  destruct (op_accepted (os_outcome st)) as [|a l] eqn:Ea; [|done].
  rewrite (E Ea). cbn. unfold mbind, serve_bind, estimate. cbn. rewrite app_nil_r. by destruct s.
Qed.
Lemma serve_bind_eq {A D} (m : serve (S:=S) A) (f g : A -> serve D) s :
  (forall a s1, m s = (Ok a, s1) -> f a s1 = g a s1) -> (m ≫= f) s = (m ≫= g) s.
Proof. intros Hf. unfold mbind, serve_bind. destruct (m s) as [[a|e|] s1]; [by apply Hf|done..]. Qed.
Lemma relay_insert_eq clock e (s : Session S) : relay_insert clock e s = insert_entry params flags policy clock e s.
Proof.
  unfold relay_insert, insert_entry. apply serve_bind_eq. intros s0 s1 [= -> ->]. cbv zeta. destruct (contains _ _); [done|].
  destruct (Mempool.insert e (ss_pool s1)) as [[outcome|err|] m]; (apply serve_bind_eq; intros [] s2 [= <-]); [|done..].
  apply serve_bind_eq. intros [] s3. unfold estimate. destruct (_ ≫= _) as [est|[]|]; [|done]. intros [= <-].
  do 3 (apply serve_bind_eq; intros [] ? [= <-]). by rewrite relay_orphans_eq.
Qed.

(** C29: it makes no difference which side opened the connection.  The node
    has two copies of the handling of transactions, one for peers that
    connected to it and one for peers it connected to; for an [inv] message of
    at most 2048 transactions, and for a [tx] message of a transaction of at
    most 2048 inputs, they take every session to the same session with the
    same result, whatever the state of pool, estimator and chain. *)
Theorem relay_agrees_with_server (clock : Clock) (payload : bytes) (s : Session S) :
  (forall vectors, parse_inv payload = Ok vectors -> (length (tx_hashes vectors) <= MAX_INBOUND_TX_REQUEST)%nat ->
     relay_inv payload s = handle_inv payload s)
  /\ (forall tx, tx_consensus_decode payload = Ok tx -> (length (vin tx) <= MAX_INBOUND_TX_REQUEST)%nat ->
       relay_tx clock payload s = handle_tx params flags policy clock payload s).
Proof.
  split.
  - intros vectors Hv Hl. unfold relay_inv, handle_inv. rewrite Hv. cbn [map_err]. apply serve_bind_eq. intros v s1 [= -> ->].
    unfold mbind, serve_bind, ask, id. rewrite relay_inv_loop_eq; [|unfold MAX_INBOUND_TX_REQUEST; simpl; lia|cbn [length]; lia].
    destruct (tx_hashes v) as [|h hs]; [|done]. cbn [relay_inv_loop]. by destruct s1.
  - intros tx Hd Hl. unfold relay_tx, handle_tx. rewrite Hd. cbn [map_err]. apply serve_bind_eq. intros tx' s1 [= -> ->].
    apply serve_bind_eq. intros id s2 _. apply serve_bind_eq. intros s3 s4 _. destruct (contains _ _); [done|].
    pose proof (fun err => build_missing_names (cs_store (ss_chain s3)) params flags policy (prevouts_for_tx tx' (ss_pool s3)) (ck_secs clock)
      tx' payload true (ss_free_relay s3) err) as Hm.
    destruct (build_mempool_entry _ _ _ _ _ _ _ _ _ _) as [[e|err|] l]; (apply serve_bind_eq; intros [] s5 _); [apply relay_insert_eq| |done].
    destruct (decide _) as [Ek|]; [|done]. specialize (Hm err eq_refl Ek). apply missing_length in Hm.
    do 3 (apply serve_bind_eq; intros [] ? _). apply relay_parents_eq. lia.
Qed.
End relay.
