(* ===== verification/Sync.v ===== *)
(** * Following the best header ([node/src/main.rs])

    How the node brings its blocks to the best header: where the two chains
    part, which blocks are missing, what to ask a peer for headers with, and
    the way back over blocks of another branch.  The state is [SyncState]:
    chain state, memory pool, fee estimator; [Pipeline] adds the blocks that
    come in.  Metrics, log lines and the peers are left out, locks never fail,
    and no other thread acts meanwhile. *)

From S2P Require Import Prelude Consensus Rewards Float64 Encoding Hashing Block Transaction Sighash Script Difficulty Equihash Storage Fluxnode Utxo FlatFiles Indexes ChainIndex Shielded Validation HeaderChain Payees FluxnodeChecks Ledger BlockConnect Mempool MempoolPolicy FeeEstimator AddrBook PeerServer.
From Stdlib Require Import ZArith Lia Floats.SpecFloat.
From stdpp Require Import base list option numbers strings gmap sets.
#[local] Open Scope Z_scope.

Inductive SyncError :=
| SyncChain (error : ChainStateError)
| SyncMessage (message : string)
| PreValidationFailed (height : Z) (hash : Hash256) (error : ValidationError)
| ShieldedFailed (hash : Hash256) (error : ShieldedError).

Record SyncState `{ShieldedTrees} (S : Type) := mkSync { sy_chain : ChainState S; sy_pool : Mempool; sy_estimator : FeeEstimator }.
Arguments mkSync {_ _} _ _ _.
Arguments sy_chain {_ _} _.
Arguments sy_pool {_ _} _.
Arguments sy_estimator {_ _} _.

Section sync.
  Context {H : Hashes} {B : Blake2b} {U : U256Ops} {S256 : Secp} {R : Recovery} {SC : ShieldedCrypto}.
  Context {T : ShieldedTrees} {S : Type} {KV : KeyValueStore S}.
  Context (params : ChainParams) (options : ChainStateOptions).
  (* The files that the operating system refuses to remove. *)
  Context (remove_fails : FlatFileKind -> Z -> bool).

Definition set_sync_chain (c : ChainState S) (s : SyncState S) : SyncState S := mkSync c (sy_pool s) (sy_estimator s).
Definition set_sync_pool (m : Mempool) (s : SyncState S) : SyncState S := mkSync (sy_chain s) m (sy_estimator s).
Definition set_sync_estimator (e : FeeEstimator) (s : SyncState S) : SyncState S := mkSync (sy_chain s) (sy_pool s) e.

(** Computations on the node that can fail and keep what they did before. *)
Definition sync (A : Type) : Type := SyncState S -> result SyncError A * SyncState S.
#[local] Instance sync_ret : MRet sync := fun A a s => (Ok a, s).
#[local] Instance sync_bind : MBind sync := fun A C f m s =>
  match m s with
  | (Ok a, s) => f a s
  | (Err e, s) => (Err e, s)
  | (Panic, s) => (Panic, s)
  end.
Definition sync_result {A} (r : result SyncError A) : sync A := fun s => (r, s).
Definition read_chain {A} (f : S -> result StoreError A) : sync A := fun s =>
  (map_err (fun e => SyncChain (ChainStore e)) (f (cs_store (sy_chain s))), s).
Definition on_chain {A} (m : node (S:=S) A) : sync A := fun s =>
  let '(r, c) := m (sy_chain s) in (map_err SyncChain r, set_sync_chain c s).
(** A lookup of headers, which may fill their cache. *)
Definition on_headers {A} (m : S -> chain A) : sync A := fun s =>
  let c := sy_chain s in
  let '(r, h) := m (cs_store c) (mkHeaderState (cs_header_cache c) [] ∅ None None None) in
  (map_err SyncChain r, set_sync_chain (set_header_cache (hs_cache h) c) s).
Definition present {A} (message : string) (o : option A) : sync A := sync_result (ok_or o (SyncMessage message)).

Definition entry_of (message : string) (hash : Hash256) : sync HeaderEntry :=
  entry ← on_headers (fun store => header_entry store hash); present message entry.
Definition ancestor_of (message : string) (hash : Hash256) (height : Z) : sync Hash256 :=
  ancestor ← on_headers (fun store => header_ancestor_hash store hash height); present message ancestor.

(** ** Where two chains part *)
Definition header_descends_from (hash ancestor_hash : Hash256) (ancestor_height : Z) : sync bool :=
  if bool_decide (hash = ancestor_hash) then mret true
  else
    entry ← entry_of "missing header entry while checking ancestry" hash;
    if he_height entry <? ancestor_height then mret false
    else
      ancestor ← ancestor_of "missing header entry while checking ancestry" hash ancestor_height;
      mret (bool_decide (ancestor = ancestor_hash)).

(** A binary search for the last common height; [fuel] bounds the halvings. *)
Definition midpoint (low high : Z) : Z :=
  wrap_i32 (low + Z.quot (wrap_i32 (wrap_i32 (high - low) + 1)) 2).
Fixpoint search_ancestor (fuel : nat) (a b : Hash256) (low high : Z) : sync Z :=
  match fuel with
  | O => sync_result Panic
  | Datatypes.S fuel =>
      if low <? high then
        let mid := midpoint low high in
        mid_a ← ancestor_of "missing header entry while finding ancestor" a mid;
        mid_b ← ancestor_of "missing header entry while finding ancestor" b mid;
        if bool_decide (mid_a = mid_b) then search_ancestor fuel a b mid high
        else search_ancestor fuel a b low (saturating_sub_i32 mid 1)
      else mret low
  end.
Definition SEARCH_FUEL : nat := 33.
Definition find_common_ancestor (a_hash : Hash256) (a_height : Z) (b_hash : Hash256) (b_height : Z) : sync (Hash256 * Z) :=
  let max_height := Z.min a_height b_height in
  if max_height <? 0 then sync_result (Err (SyncMessage "missing header entry while finding ancestor"))
  else
    low ← search_ancestor SEARCH_FUEL a_hash b_hash 0 max_height;
    ancestor ← ancestor_of "missing header entry while finding ancestor" a_hash low;
    mret (ancestor, low).

(** ** The blocks to fetch *)

(** From [hash] down to the anchor; [fuel] bounds the headers. *)
Fixpoint walk_back (fuel : nat) (anchor hash : Hash256) (missing : list Hash256) : sync (list Hash256) :=
  match fuel with
  | O => sync_result Panic
  | Datatypes.S fuel =>
      if bool_decide (hash = anchor) then mret missing
      else
        let missing := missing ++ [hash] in
        entry ← entry_of "missing header entry while scanning for blocks" hash;
        if he_height entry <=? 0 then mret missing else walk_back fuel anchor (he_prev_hash entry) missing
  end.
Definition collect_missing_blocks (max_count : Z) : sync (list Hash256) :=
  if max_count =? 0 then mret []
  else
    best_header ← read_chain best_header;
    match best_header with
    | None => mret []
    | Some best_header =>
        best_block ← read_chain best_block;
        match best_block with
        | None => mret []
        | Some best_block =>
            if bool_decide (tip_hash best_header = tip_hash best_block) then mret []
            else
              descends ← header_descends_from (tip_hash best_header) (tip_hash best_block) (tip_height best_block);
              anchor ← (if (descends : bool) then mret (tip_hash best_block, tip_height best_block)
                        else find_common_ancestor (tip_hash best_header) (tip_height best_header)
                               (tip_hash best_block) (tip_height best_block));
              let '(anchor_hash, anchor_height) := anchor in
              let start_height := saturating_add_i32 anchor_height 1 in
              if tip_height best_header <? start_height then mret []
              else
                let end_height :=
                  Z.min (saturating_sub_i32 (saturating_add_i32 start_height (wrap_i32 max_count)) 1) (tip_height best_header) in
                end_hash ← ancestor_of "missing header entry while scanning for blocks" (tip_hash best_header) end_height;
                missing ← walk_back (Z.to_nat (end_height + 2)) anchor_hash end_hash [];
                mret (rev missing)
        end
    end.

(** ** What to ask a peer for headers with *)

(** [back] steps down, not below height 0. *)
Fixpoint step_back (back : nat) (hash : Hash256) (height : Z) : sync (Hash256 * Z) :=
  match back with
  | O => mret (hash, height)
  | Datatypes.S back =>
      if 0 <? height then
        entry ← entry_of "missing header entry while building locator" hash;
        step_back back (he_prev_hash entry) (height - 1)
      else mret (hash, height)
  end.
(** [fuel] bounds the hashes; [back] steps cannot be more than [height]. *)
Fixpoint locator_loop (fuel : nat) (hash : Hash256) (height step : Z) (locator : list Hash256) : sync (list Hash256) :=
  match fuel with
  | O => sync_result Panic
  | Datatypes.S fuel =>
      let locator := locator ++ [hash] in
      if height =? 0 then mret locator
      else
        next ← step_back (Z.to_nat (Z.min step height)) hash height;
        let '(hash, height) := next in
        let step := if (10 <? length locator)%nat then Z.min (step * 2) 2147483647 else step in
        locator_loop fuel hash height step locator
  end.
Definition LOCATOR_FUEL : nat := 64.
Definition build_locator (genesis_hash : Hash256) : sync (list Hash256) :=
  tip ← read_chain best_header;
  match tip with
  | None => mret [genesis_hash]
  | Some tip =>
      locator ← locator_loop LOCATOR_FUEL (tip_hash tip) (tip_height tip) 1 [];
      mret (if bool_decide (last locator = Some genesis_hash) then locator else locator ++ [genesis_hash])
  end.

(** ** Back to the best header's branch *)

Definition one_block_back (hash : Hash256) : sync unit :=
  batch ← on_chain (disconnect_block options hash);
  on_chain (commit_batch options remove_fails batch).
(** Disconnects the tip until it is [ancestor]; [fuel] bounds the blocks. *)
Fixpoint disconnect_to (fuel : nat) (ancestor : Hash256) : sync unit :=
  match fuel with
  | O => sync_result Panic
  | Datatypes.S fuel =>
      tip ← read_chain best_block;
      tip ← present "missing best block during reorg" tip;
      if bool_decide (tip_hash tip = ancestor) then mret tt
      else
        _ ← one_block_back (tip_hash tip);
        disconnect_to fuel ancestor
  end.
Definition reorg_to_best_header : sync unit :=
  best_block ← read_chain best_block;
  match best_block with
  | None => mret tt
  | Some best_block =>
      best_header ← read_chain best_header;
      match best_header with
      | None => mret tt
      | Some best_header =>
          if bool_decide (tip_hash best_header = tip_hash best_block) then mret tt
          else
            descends ← header_descends_from (tip_hash best_header) (tip_hash best_block) (tip_height best_block);
            if (descends : bool) then mret tt
            else
              ancestor ← find_common_ancestor (tip_hash best_header) (tip_height best_header)
                           (tip_hash best_block) (tip_height best_block);
              disconnect_to (Z.to_nat (tip_height best_block + 1)) (fst ancestor)
      end
  end.
End sync.
