(* ===== verification/SampleServing.v ===== *)
(** * A peer served

    The properties of [Serving] and [HeaderServing] on concrete connections: a
    peer sends the transaction an orphan waits for, asks for data, and asks for
    headers. *)

From S2P Require Import Prelude Consensus Rewards Float64 Encoding Hashing Address Transaction Block Difficulty Sighash.
From S2P Require Import Script Equihash Storage Fluxnode Utxo FlatFiles Indexes ChainIndex Shielded Validation HeaderChain HeaderTree HeaderHistory.
From S2P Require Import Payees FluxnodeChecks Ledger BlockConnect SampleBlock Mempool Orphans MempoolPolicy OrphanRetry SampleAdmission.
From S2P Require Import Wire Peers FeeEstimator FeeHistory AddrBook PeerServer Serving HeaderServing TxRelay.
From Stdlib Require Import ZArith Lia Floats.SpecFloat.
From stdpp Require Import base list option numbers strings gmap relations sorting.
#[local] Open Scope Z_scope.

Definition no_shuffle (call : nat) (l : list (list SocketAddr)) : list (list SocketAddr) := l.
Definition sample_clock (i : Z) : Clock := mkClock (1600000000 + i) (i * 1000000000).
Definition session_with (chain : ChainState MemoryStore) (m : Mempool) : Session MemoryStore :=
  mkSession chain m FreeRelayLimiter_default (FeeEstimator_new 100) AddrBook_default [] [] (rate_new 0) ∅ ∅ 0.
Lemma session_with_ok chain m : consistent m -> roomy m -> session_ok (session_with chain m).
Proof.
  intros Hc Hr. split; [done|done| |vm_compute; discriminate|vm_compute; lia].
  destruct (new_fresh 100) as (n&He&_). by exists n.
Qed.
Definition serve_sample (events : list (Clock * event)) : result SessionError unit * Session MemoryStore :=
  handle_inbound_peer mainnet_chain_params relay_flags relay_policy no_shuffle 0 events (session_with start_state waiting).
Definition sample_events : list (Clock * event) :=
  [(sample_clock 1, Received (ascii_bytes "tx") (encoded spend_1)); (sample_clock 2, Received (ascii_bytes "ping") [1; 2])].
(** The orphan follows its parent into the pool, both are announced, the ping is answered. *)
Example peer_served :
  let s := (serve_sample sample_events).2 in
  (serve_sample sample_events).1 = Ok tt /\ ss_announced s = [id_of spend_1; id_of spend_2]
  /\ map fst (ss_sent s) = [ascii_bytes "feefilter"; ascii_bytes "pong"].
Proof. vm_compute. auto. Qed.

Lemma roomy_waiting : roomy waiting.
Proof. unfold roomy, usize_max, DEFAULT_MAX_ORPHAN_BYTES. rewrite waiting_max. lia. Qed.
Lemma events_fit : Forall (fun e => event_ok e.2) sample_events.
Proof. repeat constructor; vm_compute; discriminate. Qed.

Lemma inbound_rate_bounded_witness :
  let l := [(5, Sent 30000000); (9000000000, Read 10); (10000000004, Sent 30000000)] in
  sum_bytes sent_bytes l <= 2 * INBOUND_MAX_BYTES_SENT_PER_WINDOW.
Proof.
  destruct (inbound_rate_bounded 0 [(1, Sent 1000)] [(5, Sent 30000000); (9000000000, Read 10); (10000000004, Sent 30000000)]
    (mkRate 10000000004 30000000 0)) as [Hb _]; [reflexivity| |destruct Hb as [Hb _]; [vm_compute; reflexivity|exact Hb]].
  intros x y Hx Hy. repeat (apply elem_of_cons in Hx as [->|Hx]); try (by apply not_elem_of_nil in Hx);
    repeat (apply elem_of_cons in Hy as [->|Hy]); try (by apply not_elem_of_nil in Hy); vm_compute; reflexivity.
Defined.

Definition wanted : list InventoryVector := [mkInv MSG_TX (id_of spend_1); mkInv MSG_BLOCK (zeros 32); mkInv MSG_TX (zeros 32)].
Definition wanted_payload : bytes := write_varint 3 ++ concat (map (fun v => write_u32_le (inv_type v) ++ inv_hash v) wanted).
Definition asked_session : Session MemoryStore := session_with start_state parent_in.
Definition answered : result SessionError unit * Session MemoryStore := handle_getdata (sample_clock 3) wanted_payload asked_session.
Example answered_with :
  answered.1 = Ok tt /\ map fst (ss_sent answered.2) = [ascii_bytes "tx"; ascii_bytes "notfound"; ascii_bytes "notfound"].
Proof. vm_compute. auto. Qed.
Lemma answered_Ok : handle_getdata (sample_clock 3) wanted_payload asked_session = (Ok tt, answered.2).
Proof.
  fold answered. rewrite (surjective_pairing answered) at 1. replace answered.1 with (Ok (E:=SessionError) tt); [reflexivity|].
  vm_compute. reflexivity.
Qed.
Lemma wanted_parsed : parse_inv wanted_payload = Ok wanted.
Proof. vm_compute. reflexivity. Qed.

(** ** Headers of the history in [HeaderHistory] *)
Definition header_params : ChainParams :=
  let p := mainnet_chain_params in
  mkChainParams (chain_network p) HeaderHistory.sample_params (funding p) (swap_pool p) (chain_emergency p) (fluxnode_params p)
    (message_start p) (default_port p) (dns_seeds p) (fixed_seeds p).
Definition header_session : Session MemoryStore :=
  session_with (mkChainState sample_store_headers (hs_cache sample_state_2) payments_new None
    (mkFlatFileStore (mkFlatFileState 0 0) ∅ 100000) (mkFlatFileStore (mkFlatFileState 0 0) ∅ 100000) (mkFileMeta None None))
    (Mempool_new 1000).
Definition sample_tip : ChainTip := Eval vm_compute in
  match best_header sample_store_headers with Ok (Some tip) => tip | _ => mkChainTip [] 0 [] end.
(** A peer that knows a header of its own, and the genesis block. *)
Definition header_request : GetHeadersRequest := mkGetHeaders [replicate 32 7; header_hash sample_genesis] (zeros 32).
Definition header_payload : bytes := build_getheaders_payload (gh_locator header_request).
Definition headers_sent : result SessionError unit * Session MemoryStore :=
  handle_getheaders header_params (sample_clock 1) header_payload header_session.
Lemma best_bytes_stored c h :
  on_best sample_store_headers sample_tip c h -> exists bs, kv_get sample_store_headers BlockHeaderCol c = Ok (Some bs).
Proof.
  intros [Hh Hc]. change (tip_height sample_tip) with 1 in *.
  destruct (decide (h = 0)) as [->|]; [|replace h with 1 in * by lia]; vm_compute in Hc; injection Hc as <-; eexists; vm_compute; reflexivity.
Qed.

Lemma relay_agrees_with_server_witness :
  relay_tx mainnet_chain_params relay_flags relay_policy (sample_clock 1) (encoded spend_1) (session_with start_state waiting)
  = handle_tx mainnet_chain_params relay_flags relay_policy (sample_clock 1) (encoded spend_1) (session_with start_state waiting).
Proof.
  destruct (relay_agrees_with_server mainnet_chain_params relay_flags relay_policy (sample_clock 1) (encoded spend_1)
    (session_with start_state waiting)) as [_ Hw]. apply (Hw spend_1); [vm_compute; reflexivity|apply Nat.leb_le; vm_compute; reflexivity].
Defined.
