(* ===== verification/Wallet.v ===== *)
(** * The wallet: keys, lock, secrets and file ([node/src/wallet.rs])

    The state of a wallet and the part every operation rests on: one key, the
    lock with its timeout and passphrase, the blob of the secrets, and the
    file with all the versions it is still read in.  The fields of the struct
    [Wallet] are grouped into five records, by the part of the file they
    belong to.

    An operation takes the wallet and the world (the disk, and how far the
    clock, the random generator and the operations of the file system have
    been used) and returns both, also when it fails: what it changed before
    the error stays.  The secp256k1, argon2, ChaCha20-Poly1305, sapling and
    note-tree crates, and what clock, generator and disk will do, are
    parameters. *)

From S2P Require Import Prelude Consensus Rewards Encoding Hashing Address Transaction Script Storage HeaderChain Payees FluxnodeChecks Ledger Mempool.
From Stdlib Require Import ZArith Lia.
From stdpp Require Import base list option numbers strings gmap sets sorting.
#[local] Open Scope Z_scope.

(** ** Third-party code *)

(** [secp256k1::SecretKey], over 32 bytes. *)
Class SecretKeys `{Recovery} := {
  PublicKey_eq_dec :: EqDecision PublicKey;
  SecretKey_from_slice : bytes -> bool;
  PublicKey_from_secret_key : bytes -> PublicKey;
  sign_ecdsa_recoverable : Hash256 -> bytes -> Z * bytes }.

(** [argon2], [chacha20poly1305]. *)
Class Cipher := {
  Argon2_params : Z -> Z -> Z -> bool;
  Argon2_hash : Z * Z * Z -> bytes -> bytes -> option bytes;
  aead_encrypt : bytes -> bytes -> bytes -> bytes -> option bytes;
  aead_decrypt : bytes -> bytes -> bytes -> bytes -> option bytes }.
(** What was encrypted decrypts again. *)
Class CipherLaws (C : Cipher) : Prop := {
  aead_opens key nonce aad msg ct : aead_encrypt key nonce aad msg = Some ct -> aead_decrypt key nonce aad ct = Some msg;
  argon2_key params salt pass key : Argon2_hash params salt pass = Some key -> array 32 key }.

(** [sapling_crypto]: keys are their encodings, a diversifier index is an
    integer of 88 bits. *)
Record SaplingNote := mkSaplingNote { sn_value : Z; sn_recipient : bytes; sn_rseed : bool * bytes }.
Class SaplingKeys := {
  ExtendedSpendingKey_from_bytes : bytes -> bool;
  ExtendedSpendingKey_master : bytes -> bytes;
  to_extended_full_viewing_key : bytes -> bytes;
  ExtendedFullViewingKey_read : bytes -> bool;
  find_address : bytes -> Z -> option (Z * bytes);
  default_address_index : bytes -> Z;
  PaymentAddress_from_bytes : bytes -> bool;
  decrypt_diversifier : bytes -> bytes -> bool;
  try_sapling_note_decryption : bytes -> OutputDescription -> option SaplingNote;
  note_nullifier : bytes -> SaplingNote -> Z -> bytes }.
Class SaplingWitnesses `{ShieldedTrees} := {
  Witness : Type;
  SaplingTree_eq_dec :: EqDecision SaplingTree;
  sapling_tree_size : SaplingTree -> Z;
  witness_from_tree : SaplingTree -> option Witness;
  witness_append : SaplingNode -> Witness -> option Witness;
  write_incremental_witness : Witness -> option bytes;
  read_incremental_witness : bytes -> option Witness }.

(** ** The world of an operation *)

(** A path is its directory, the stem and the extension of its last name. *)
Abbreviation Path := (string * string * option string)%type.
Definition with_extension (p : Path) (ext : string) : Path := (p.1, Some ext).

Inductive Fault := Done | Refused | Torn (written : nat).
(** The seconds a reading of the clock gives, the bytes of a draw, and what
    becomes of an operation of the file system; which paths are directories. *)
Class Machine := { clock : nat -> Z; entropy : nat -> nat -> bytes; fault : nat -> Fault; is_directory : Path -> bool }.
Record World := mkWorld { wd_readings : nat; wd_draws : nat; wd_ops : nat; wd_disk : gmap Path bytes }.

(** ** Data *)
Inductive WalletError :=
| Io
| Decode (e : DecodeError)
| InvalidWallet (message : string)
| WalletChainState (e : ChainStateError)
| NetworkMismatch (expected found : Network)
| InvalidSecretKey
| WalletLocked
| WalletNotEncrypted
| WalletAlreadyEncrypted
| IncorrectPassphrase.

Definition WALLET_FILE_VERSION : Z := 16.
Definition DEFAULT_KEYPOOL_SIZE : nat := 100.
Definition WALLET_SECRETS_VERSION : Z := 1.
Definition WALLET_ENCRYPTION_VERSION : Z := 1.
Definition WALLET_ENCRYPTION_SALT_BYTES : nat := 16.
Definition WALLET_ENCRYPTION_NONCE_BYTES : nat := 12.

Record WalletKdfParams := mkKdf { kdf_mem_kib : Z; kdf_iters : Z; kdf_parallelism : Z; kdf_salt : bytes }.
Record WalletEncryptedSecrets := mkEncrypted { enc_kdf : WalletKdfParams; enc_nonce : bytes; enc_ciphertext : bytes }.
Record WalletKey := mkWalletKey { wk_hash : bytes; wk_secret : option bytes; wk_compressed : bool; wk_pubkey : bytes }.
Record KeyPoolEntry := mkPoolEntry { kp_key : WalletKey; kp_created_at : Z }.
Record SaplingKeyEntry := mkSaplingKey { sk_extfvk : bytes; sk_extsk : option bytes; sk_next_index : bytes }.
Record SaplingViewingKeyEntry := mkViewingKey { vk_extfvk : bytes; vk_next_index : bytes }.
Inductive SaplingRseedBytes := BeforeZip212 (rcm : bytes) | AfterZip212 (seed : bytes).
Record SaplingNoteRecord := mkNote {
  nr_address : bytes; nr_value : Z; nr_height : Z; nr_position : Z; nr_nullifier : bytes; nr_rseed : option SaplingRseedBytes }.
#[global] Instance SaplingRseedBytes_eq_dec : EqDecision SaplingRseedBytes.
Proof. solve_decision. Defined.
#[global] Instance SaplingNoteRecord_eq_dec : EqDecision SaplingNoteRecord.
Proof. solve_decision. Defined.
Abbreviation SaplingNoteKey := (bytes * Z)%type.

Record KeyRing := mkKeyRing {
  kr_keys : list WalletKey; kr_keypool : list KeyPoolEntry; kr_sapling_keys : list SaplingKeyEntry;
  kr_sapling_viewing_keys : list SaplingViewingKeyEntry; kr_change_key_hashes : gset bytes }.
Record KnownScripts := mkScripts {
  ws_watch_scripts : list bytes; ws_redeem_scripts : gmap bytes bytes; ws_address_labels : gmap bytes bytes }.
Record TxHistory := mkHistory {
  th_history : gset Hash256; th_received_at : gmap Hash256 Z; th_store : gmap Hash256 bytes;
  th_values : gmap Hash256 (gmap bytes bytes) }.
Record Seal := mkSeal {
  sl_encrypted : option WalletEncryptedSecrets; sl_unlocked_key : option bytes; sl_unlocked_until : Z; sl_generation : Z }.

Section records.
  Context {T : ShieldedTrees} {SW : SaplingWitnesses}.
Record SaplingScan := mkScan {
  ss_height : Z; ss_hash : Hash256; ss_next_position : Z; ss_notes : gmap SaplingNoteKey SaplingNoteRecord;
  ss_tree : SaplingTree; ss_witnesses : gmap SaplingNoteKey Witness }.
Record Wallet := mkWallet {
  w_path : Path; w_network : Network; w_pay_tx_fee_per_kb : Z; w_ring : KeyRing; w_scripts : KnownScripts;
  w_history : TxHistory; w_scan : SaplingScan; w_seal : Seal; w_revision : Z; w_locked_outpoints : gset OutPoint }.

Definition set_fee (fee : Z) (w : Wallet) : Wallet :=
  mkWallet (w_path w) (w_network w) fee (w_ring w) (w_scripts w) (w_history w) (w_scan w) (w_seal w) (w_revision w) (w_locked_outpoints w).
Definition set_ring (ring : KeyRing) (w : Wallet) : Wallet :=
  mkWallet (w_path w) (w_network w) (w_pay_tx_fee_per_kb w) ring (w_scripts w) (w_history w) (w_scan w) (w_seal w) (w_revision w) (w_locked_outpoints w).
Definition set_scripts (scripts : KnownScripts) (w : Wallet) : Wallet :=
  mkWallet (w_path w) (w_network w) (w_pay_tx_fee_per_kb w) (w_ring w) scripts (w_history w) (w_scan w) (w_seal w) (w_revision w) (w_locked_outpoints w).
Definition set_history (history : TxHistory) (w : Wallet) : Wallet :=
  mkWallet (w_path w) (w_network w) (w_pay_tx_fee_per_kb w) (w_ring w) (w_scripts w) history (w_scan w) (w_seal w) (w_revision w) (w_locked_outpoints w).
Definition set_scan (scan : SaplingScan) (w : Wallet) : Wallet :=
  mkWallet (w_path w) (w_network w) (w_pay_tx_fee_per_kb w) (w_ring w) (w_scripts w) (w_history w) scan (w_seal w) (w_revision w) (w_locked_outpoints w).
Definition set_seal (seal : Seal) (w : Wallet) : Wallet :=
  mkWallet (w_path w) (w_network w) (w_pay_tx_fee_per_kb w) (w_ring w) (w_scripts w) (w_history w) (w_scan w) seal (w_revision w) (w_locked_outpoints w).
Definition set_revision (revision : Z) (w : Wallet) : Wallet :=
  mkWallet (w_path w) (w_network w) (w_pay_tx_fee_per_kb w) (w_ring w) (w_scripts w) (w_history w) (w_scan w) (w_seal w) revision (w_locked_outpoints w).
Definition set_locked_outpoints (locked : gset OutPoint) (w : Wallet) : Wallet :=
  mkWallet (w_path w) (w_network w) (w_pay_tx_fee_per_kb w) (w_ring w) (w_scripts w) (w_history w) (w_scan w) (w_seal w) (w_revision w) locked.

Definition no_scan : SaplingScan := mkScan (-1) (zeros 32) 0 ∅ empty_sapling_tree ∅.
Definition no_keys : KeyRing := mkKeyRing [] [] [] [] ∅.
Definition no_seal : Seal := mkSeal None None 0 0.
Definition fresh_wallet (path : Path) (network : Network) : Wallet :=
  mkWallet path network 0 no_keys (mkScripts [] ∅ ∅) (mkHistory ∅ ∅ ∅ ∅) no_scan no_seal 0 ∅.
End records.

Definition set_keys (keys : list WalletKey) (r : KeyRing) : KeyRing :=
  mkKeyRing keys (kr_keypool r) (kr_sapling_keys r) (kr_sapling_viewing_keys r) (kr_change_key_hashes r).
Definition set_keypool (pool : list KeyPoolEntry) (r : KeyRing) : KeyRing :=
  mkKeyRing (kr_keys r) pool (kr_sapling_keys r) (kr_sapling_viewing_keys r) (kr_change_key_hashes r).
Definition set_sapling_keys (keys : list SaplingKeyEntry) (r : KeyRing) : KeyRing :=
  mkKeyRing (kr_keys r) (kr_keypool r) keys (kr_sapling_viewing_keys r) (kr_change_key_hashes r).
Definition set_viewing_keys (keys : list SaplingViewingKeyEntry) (r : KeyRing) : KeyRing :=
  mkKeyRing (kr_keys r) (kr_keypool r) (kr_sapling_keys r) keys (kr_change_key_hashes r).
Definition set_change_key_hashes (hashes : gset bytes) (r : KeyRing) : KeyRing :=
  mkKeyRing (kr_keys r) (kr_keypool r) (kr_sapling_keys r) (kr_sapling_viewing_keys r) hashes.
Definition set_secret (secret : option bytes) (k : WalletKey) : WalletKey :=
  mkWalletKey (wk_hash k) secret (wk_compressed k) (wk_pubkey k).
Definition set_key (k : WalletKey) (e : KeyPoolEntry) : KeyPoolEntry := mkPoolEntry k (kp_created_at e).
Definition set_extsk (extsk : option bytes) (e : SaplingKeyEntry) : SaplingKeyEntry :=
  mkSaplingKey (sk_extfvk e) extsk (sk_next_index e).

(** The iteration of a [BTreeMap] and a [BTreeSet]. *)
Definition key_order {K V} (R : K -> K -> Prop) (a b : K * V) : Prop := R a.1 b.1.
#[global] Instance key_order_dec {K V} (R : K -> K -> Prop) `{!RelDecision R} : RelDecision (key_order (V:=V) R) :=
  fun a b => decide (R a.1 b.1).
Definition note_order (a b : SaplingNoteKey) : Prop :=
  match bytes_cmp a.1 b.1 with Lt => True | Eq => a.2 <= b.2 | Gt => False end.
#[global] Instance note_order_dec : RelDecision note_order.
Proof. intros a b. unfold note_order. destruct (bytes_cmp _ _); apply _. Defined.
Definition btree_iter {K V} `{Countable K} (R : K -> K -> Prop) `{!RelDecision R} (m : gmap K V) : list (K * V) :=
  merge_sort (key_order R) (map_to_list m).
Definition btree_items (s : gset bytes) : list bytes := merge_sort hash_order (elements s).

(** ** Operations and their world *)
Section wallet.
  Context {H : Hashes} {S256 : Secp} {Rc : Recovery} {SK : SecretKeys} {C : Cipher} {SA : SaplingKeys}.
  Context {T : ShieldedTrees} {SW : SaplingWitnesses} {M : Machine}.

Definition wallet_op (A : Type) : Type := Wallet * World -> result WalletError A * (Wallet * World).
#[global] Instance wallet_ret : MRet wallet_op := fun A a s => (Ok a, s).
#[global] Instance wallet_bind : MBind wallet_op := fun A D f m s =>
  match m s with
  | (Ok a, s) => f a s
  | (Err e, s) => (Err e, s)
  | (Panic, s) => (Panic, s)
  end.
Definition failing {A} (e : WalletError) : wallet_op A := fun s => (Err e, s).
Definition of_result {A} (r : result WalletError A) : wallet_op A := fun s => (r, s).
Definition wallet : wallet_op Wallet := fun s => (Ok s.1, s).
Definition modify (f : Wallet -> Wallet) : wallet_op unit := fun s => (Ok tt, (f s.1, s.2)).
(** [if let Err(err) = m { ...; return Err(err) }]. *)
Definition on_error (m : wallet_op unit) (handler : WalletError -> wallet_op unit) : wallet_op unit := fun s =>
  match m s with
  | (Err e, s) => handler e s
  | r => r
  end.
Definition or_undo (m : wallet_op unit) (undo : Wallet -> Wallet) : wallet_op unit :=
  on_error m (fun e => _ ← modify undo; failing e).

Definition current_unix_seconds : wallet_op Z := fun '(w, d) =>
  (Ok (clock (wd_readings d)), (w, mkWorld (Datatypes.S (wd_readings d)) (wd_draws d) (wd_ops d) (wd_disk d))).
Definition fill_bytes (n : nat) : wallet_op bytes := fun '(w, d) =>
  (Ok (entropy (wd_draws d) n), (w, mkWorld (wd_readings d) (Datatypes.S (wd_draws d)) (wd_ops d) (wd_disk d))).

(** *** The file system *)
Definition file_op (f : gmap Path bytes -> Fault -> result WalletError unit * gmap Path bytes) : wallet_op unit :=
  fun '(w, d) =>
  let '(r, disk) := f (wd_disk d) (fault (wd_ops d)) in
  (r, (w, mkWorld (wd_readings d) (wd_draws d) (Datatypes.S (wd_ops d)) disk)).
Definition fs_create_dir_all : wallet_op unit := file_op (fun disk o =>
  match o with Done => (Ok tt, disk) | _ => (Err Io, disk) end).
Definition fs_write (path : Path) (data : bytes) : wallet_op unit := file_op (fun disk o =>
  match o with
  | Done => (Ok tt, <[path := data]> disk)
  | Refused => (Err Io, disk)
  | Torn n => (Err Io, <[path := take n data]> disk)
  end).
Definition fs_rename (from to : Path) : wallet_op unit := file_op (fun disk o =>
  match o, disk !! from with
  | Done, Some data => (Ok tt, <[to := data]> (delete from disk))
  | _, _ => (Err Io, disk)
  end).
Definition fs_remove_file (path : Path) : wallet_op unit := file_op (fun disk o =>
  match o, disk !! path with
  | Done, Some _ => (Ok tt, delete path disk)
  | _, _ => (Err Io, disk)
  end).
(** [None] when there is no such file. *)
Definition fs_read (path : Path) : wallet_op (option bytes) := fun '(w, d) =>
  let r := match fault (wd_ops d) with Done => Ok (wd_disk d !! path) | _ => Err Io end in
  (r, (w, mkWorld (wd_readings d) (wd_draws d) (Datatypes.S (wd_ops d)) (wd_disk d))).

(** The result of a call that is asked only whether it failed. *)
Definition succeeded (m : wallet_op unit) : wallet_op bool := fun s =>
  match m s with
  | (Ok _, s) => (Ok true, s)
  | (Err _, s) => (Ok false, s)
  | (Panic, s) => (Panic, s)
  end.
Definition write_file_atomic (path : Path) (data : bytes) : wallet_op unit :=
  _ ← fs_create_dir_all;
  let tmp := with_extension path "tmp" in
  _ ← fs_write tmp data;
  renamed ← succeeded (fs_rename tmp path);
  if (renamed : bool) then mret tt
  else _ ← succeeded (fs_remove_file path); fs_rename tmp path.

(** ** One key *)
Definition serialize_key (compressed : bool) (pubkey : PublicKey) : bytes :=
  if compressed then serialize pubkey else serialize_uncompressed pubkey.
Definition from_secret (secret : bytes) (compressed : bool) : result WalletError WalletKey :=
  if SecretKey_from_slice secret then
    let pubkey_bytes := serialize_key compressed (PublicKey_from_secret_key secret) in
    Ok (mkWalletKey (hash160 pubkey_bytes) (Some secret) compressed pubkey_bytes)
  else Err InvalidSecretKey.
Definition secret_key (k : WalletKey) : result WalletError bytes :=
  secret ← ok_or (wk_secret k) WalletLocked;
  if SecretKey_from_slice secret then Ok secret else Err InvalidSecretKey.
Definition pubkey (k : WalletKey) : result WalletError PublicKey :=
  secret ← secret_key k; Ok (PublicKey_from_secret_key secret).
(** The key as the call leaves it. *)
Definition ensure_pubkey_bytes (k : WalletKey) : result WalletError WalletKey :=
  if negb (bool_decide (wk_pubkey k = [])) then Ok k
  else
    match wk_secret k with
    | None => Ok k
    | Some _ =>
        pubkey ← pubkey k;
        Ok (mkWalletKey (wk_hash k) (wk_secret k) (wk_compressed k) (serialize_key (wk_compressed k) pubkey))
    end.
Definition validate_pubkey_bytes (k : WalletKey) : result WalletError unit :=
  if bool_decide (wk_pubkey k = []) then Ok tt
  else if negb (Nat.eqb (length (wk_pubkey k)) (if wk_compressed k then 33 else 65))
  then Err (InvalidWallet "wallet pubkey length mismatch")
  else
    match PublicKey_from_slice (wk_pubkey k) with
    | None => Err (InvalidWallet "wallet contains invalid pubkey bytes")
    | Some _ =>
        if bool_decide (hash160 (wk_pubkey k) = wk_hash k) then Ok tt
        else Err (InvalidWallet "wallet pubkey hash mismatch")
    end.
Definition pubkey_bytes (k : WalletKey) : result WalletError bytes :=
  if negb (bool_decide (wk_pubkey k = [])) then Ok (wk_pubkey k)
  else pubkey ← pubkey k; Ok (serialize_key (wk_compressed k) pubkey).
Definition p2pkh_script (key_hash : bytes) : bytes := [0x76; 0xa9; 0x14] ++ key_hash ++ [0x88; 0xac].
Definition p2pkh_script_pubkey (k : WalletKey) : bytes := p2pkh_script (wk_hash k).
Definition address (k : WalletKey) (network : Network) : result WalletError bytes :=
  ok_or (script_pubkey_to_address (p2pkh_script_pubkey k) network) (InvalidWallet "failed to encode address").
Definition wif (k : WalletKey) (network : Network) : result WalletError bytes :=
  secret ← ok_or (wk_secret k) WalletLocked; Ok (secret_key_to_wif secret network (wk_compressed k)).

(** ** The secrets *)
Definition encode_network (network : Network) : Z :=
  match network with Mainnet => 0 | Testnet => 1 | Regtest => 2 end.
Definition decode_network (value : Z) : result WalletError Network :=
  if value =? 0 then Ok Mainnet else if value =? 1 then Ok Testnet else if value =? 2 then Ok Regtest
  else Err (InvalidWallet "unknown wallet network").
Definition sapling_extfvk_from_extsk (extsk : bytes) : result WalletError bytes :=
  if ExtendedSpendingKey_from_bytes extsk then Ok (to_extended_full_viewing_key extsk)
  else Err (InvalidWallet "invalid sapling spending key encoding").

Definition bool_le (a b : bool) : Prop := a = true -> b = true.
Definition secret_order (a b : bytes * bool) : Prop :=
  match bytes_cmp a.1 b.1 with Lt => True | Eq => bool_le a.2 b.2 | Gt => False end.
#[global] Instance secret_order_dec : RelDecision secret_order.
Proof. intros a b. unfold secret_order, bool_le. destruct (bytes_cmp _ _); apply _. Defined.
(** [dedup] drops an element equal to the one before it. *)
Fixpoint dedup {A} `{EqDecision A} (l : list A) : list A :=
  match l with
  | a :: (b :: _) as l => if bool_decide (a = b) then dedup l else a :: dedup l
  | _ => l
  end.
Definition key_secret (k : WalletKey) : result WalletError (bytes * bool) :=
  secret ← ok_or (wk_secret k) WalletLocked; Ok (secret, wk_compressed k).
Fixpoint collect {A D} (f : A -> result WalletError D) (l : list A) : result WalletError (list D) :=
  match l with [] => Ok [] | a :: l => d ← f a; l ← collect f l; Ok (d :: l) end.
Definition ring_keys (r : KeyRing) : list WalletKey := kr_keys r ++ map kp_key (kr_keypool r).
Definition write_secret (s : bytes * bool) : bytes := write_bytes s.1 ++ write_bool s.2.
Definition encode_secrets_blob (r : KeyRing) : result WalletError bytes :=
  transparent ← collect key_secret (ring_keys r);
  let transparent := dedup (merge_sort secret_order transparent) in
  sapling ← collect (fun e => ok_or (sk_extsk e) WalletLocked) (kr_sapling_keys r);
  let sapling := dedup (merge_sort hash_order sapling) in
  Ok (write_u32_le WALLET_SECRETS_VERSION
      ++ write_varint (Z.of_nat (length transparent)) ++ write_list write_secret transparent
      ++ write_varint (Z.of_nat (length sapling)) ++ write_list write_bytes sapling).

(** A count of the file. *)
Definition read_file_count (message : string) : parser WalletError nat :=
  count ← lift Decode read_varint;
  if count <=? u64_max then mret (Z.to_nat count) else fail (InvalidWallet message).
Definition parse {A} (r : result WalletError A) : parser WalletError A := fun d => a ← r; Ok (a, d).
Definition read_entries {A} (message : string) (m : parser WalletError A) : parser WalletError (list A) :=
  count ← read_file_count message; read_n count m.

(** The secrets by the hash of the key, and by the viewing key. *)
Definition read_secret : parser WalletError (bytes * (bytes * bool)) :=
  secret ← lift Decode (read_fixed 32);
  compressed ← lift Decode read_bool;
  key ← parse (from_secret secret compressed);
  mret (wk_hash key, (secret, compressed)).
Definition read_extsk : parser WalletError (bytes * bytes) :=
  extsk ← lift Decode (read_fixed 169);
  extfvk ← parse (sapling_extfvk_from_extsk extsk);
  mret (extfvk, extsk).
Definition insert_all {K V} `{Countable K} (l : list (K * V)) : gmap K V :=
  foldl (fun m kv => <[kv.1 := kv.2]> m) ∅ l.
Definition read_secrets : parser WalletError (gmap bytes (bytes * bool) * gmap bytes bytes) :=
  version ← lift Decode read_u32_le;
  if negb (version =? WALLET_SECRETS_VERSION) then fail (InvalidWallet "unsupported wallet secrets version")
  else
    transparent ← read_entries "wallet secrets key count too large" read_secret;
    sapling ← read_entries "wallet secrets sapling count too large" read_extsk;
    mret (insert_all transparent, insert_all sapling).
(** A key gets its secret; the key as the code leaves it, also when it
    refuses the secret. *)
Definition restore_key (transparent : gmap bytes (bytes * bool)) (missing mismatch : string) (k : WalletKey)
    : result WalletError unit * WalletKey :=
  match transparent !! wk_hash k with
  | None => (Err (InvalidWallet missing), k)
  | Some (secret, compressed) =>
      if negb (bool_decide (wk_compressed k = compressed)) then (Err (InvalidWallet mismatch), k)
      else
        let k := set_secret (Some secret) k in
        match ensure_pubkey_bytes k with
        | Ok k => (validate_pubkey_bytes k, k)
        | Err e => (Err e, k)
        | Panic => (Panic, k)
        end
  end.
(** [for x in &mut list]: what follows the first failure is not visited. *)
Fixpoint for_each_mut {A} (f : A -> result WalletError unit * A) (l : list A) : result WalletError unit * list A :=
  match l with
  | [] => (Ok tt, [])
  | a :: l =>
      match f a with
      | (Ok _, a) => let '(r, l) := for_each_mut f l in (r, a :: l)
      | (r, a) => (r, a :: l)
      end
  end.
Definition restore_pool_key (transparent : gmap bytes (bytes * bool)) (e : KeyPoolEntry) : result WalletError unit * KeyPoolEntry :=
  let '(r, k) := restore_key transparent "missing keypool secret key" "wallet keypool compression mismatch" (kp_key e) in
  (r, set_key k e).
Definition restore_sapling (sapling : gmap bytes bytes) (e : SaplingKeyEntry) : result WalletError unit * SaplingKeyEntry :=
  match sapling !! sk_extfvk e with
  | None => (Err (InvalidWallet "missing sapling spending key"), e)
  | Some extsk => (Ok tt, set_extsk (Some extsk) e)
  end.
Definition restore_ring (transparent : gmap bytes (bytes * bool)) (sapling : gmap bytes bytes) (r : KeyRing)
    : result WalletError unit * KeyRing :=
  let '(o, keys) := for_each_mut
    (restore_key transparent "missing wallet secret key" "wallet secret compression mismatch") (kr_keys r) in
  let r := set_keys keys r in
  match o with
  | Ok _ =>
      let '(o, pool) := for_each_mut (restore_pool_key transparent) (kr_keypool r) in
      let r := set_keypool pool r in
      match o with
      | Ok _ => let '(o, keys) := for_each_mut (restore_sapling sapling) (kr_sapling_keys r) in (o, set_sapling_keys keys r)
      | _ => (o, r)
      end
  | _ => (o, r)
  end.
Definition apply_secrets_blob (blob : bytes) (r : KeyRing) : result WalletError unit * KeyRing :=
  match decode_all (InvalidWallet "wallet secrets blob has trailing bytes") read_secrets blob with
  | Ok (transparent, sapling) => restore_ring transparent sapling r
  | Err e => (Err e, r)
  | Panic => (Panic, r)
  end.
Definition apply_secrets (blob : bytes) : wallet_op unit := fun '(w, d) =>
  let '(o, ring) := apply_secrets_blob blob (w_ring w) in (o, (set_ring ring w, d)).

(** ** Encryption *)
Definition wallet_secrets_aad (network : Network) : bytes := ascii_bytes "fluxd-wallet-secrets-v1:" ++ [encode_network network].
Definition derive_wallet_key (passphrase : bytes) (kdf : WalletKdfParams) : result WalletError bytes :=
  if Argon2_params (kdf_mem_kib kdf) (kdf_iters kdf) (kdf_parallelism kdf) then
    ok_or (Argon2_hash (kdf_mem_kib kdf, kdf_iters kdf, kdf_parallelism kdf) (kdf_salt kdf) passphrase)
      (InvalidWallet "wallet key derivation failed")
  else Err (InvalidWallet "invalid wallet kdf parameters").
Definition new_wallet_kdf (passphrase : bytes) : wallet_op (WalletKdfParams * bytes) :=
  salt ← fill_bytes WALLET_ENCRYPTION_SALT_BYTES;
  let kdf := mkKdf (64 * 1024) 3 1 salt in
  key ← of_result (derive_wallet_key passphrase kdf);
  mret (kdf, key).
Definition encrypt_wallet_secrets (network : Network) (key nonce plaintext : bytes) : result WalletError bytes :=
  ok_or (aead_encrypt key nonce (wallet_secrets_aad network) plaintext) (InvalidWallet "wallet encryption failed").
Definition decrypt_wallet_secrets (network : Network) (key nonce ciphertext : bytes) : result WalletError bytes :=
  ok_or (aead_decrypt key nonce (wallet_secrets_aad network) ciphertext) IncorrectPassphrase.

(** ** Writing the file *)
Definition write_entries {A} (enc : A -> bytes) (l : list A) : bytes :=
  write_varint (Z.of_nat (length l)) ++ write_list enc l.
Definition write_encryption (enc : option WalletEncryptedSecrets) : bytes :=
  write_bool (bool_decide (is_Some enc)) ++
  match enc with
  | Some enc =>
      write_u8 WALLET_ENCRYPTION_VERSION ++ write_u32_le (kdf_mem_kib (enc_kdf enc)) ++ write_u32_le (kdf_iters (enc_kdf enc))
      ++ write_u32_le (kdf_parallelism (enc_kdf enc)) ++ write_bytes (kdf_salt (enc_kdf enc)) ++ write_bytes (enc_nonce enc)
  | None => []
  end.
Definition write_key (k : WalletKey) : bytes :=
  write_bytes (wk_hash k) ++ write_bool (wk_compressed k) ++ write_var_bytes (wk_pubkey k).
Definition write_pool_entry (e : KeyPoolEntry) : bytes := write_key (kp_key e) ++ write_u64_le (kp_created_at e).
Definition write_redeem (kv : bytes * bytes) : bytes := write_bytes kv.1 ++ write_var_bytes kv.2.
Definition write_received (kv : bytes * Z) : bytes := write_bytes kv.1 ++ write_u64_le kv.2.
Definition write_text_pair (kv : bytes * bytes) : bytes := write_var_bytes kv.1 ++ write_var_bytes kv.2.
Definition write_values (kv : bytes * gmap bytes bytes) : bytes :=
  write_bytes kv.1 ++ write_entries write_text_pair (btree_iter hash_order kv.2).
Definition write_sapling_key (e : SaplingKeyEntry) : bytes := write_bytes (sk_extfvk e) ++ write_bytes (sk_next_index e).
Definition write_viewing_key (e : SaplingViewingKeyEntry) : bytes := write_bytes (vk_extfvk e) ++ write_bytes (vk_next_index e).
Definition write_note_key (k : SaplingNoteKey) : bytes := write_bytes k.1 ++ write_u32_le k.2.
Definition write_rseed (rseed : option SaplingRseedBytes) : bytes :=
  match rseed with
  | None => write_u8 0
  | Some (BeforeZip212 rcm) => write_u8 1 ++ write_bytes rcm
  | Some (AfterZip212 seed) => write_u8 2 ++ write_bytes seed
  end.
Definition write_note (kv : SaplingNoteKey * SaplingNoteRecord) : bytes :=
  write_note_key kv.1 ++ write_i32_le (nr_height kv.2) ++ write_u64_le (nr_position kv.2) ++ write_i64_le (nr_value kv.2)
  ++ write_bytes (nr_address kv.2) ++ write_bytes (nr_nullifier kv.2) ++ write_rseed (nr_rseed kv.2).
Definition write_witness (kv : SaplingNoteKey * Witness) : result WalletError bytes :=
  data ← ok_or (write_incremental_witness kv.2) (InvalidWallet "invalid sapling witness state");
  Ok (write_note_key kv.1 ++ write_var_bytes data).

(** The three tables of transactions keep only what the history has. *)
Definition retain_known {V : Type} (history : gset Hash256) (m : gmap Hash256 V) : gmap Hash256 V :=
  filter (fun kv => kv.1 ∈ history) m.
Definition retain_history (h : TxHistory) : TxHistory :=
  mkHistory (th_history h) (retain_known (th_history h) (th_received_at h)) (retain_known (th_history h) (th_store h))
    (retain_known (th_history h) (th_values h)).
Definition write_ring_keys (r : KeyRing) : bytes := write_entries write_key (kr_keys r).
Definition write_scripts (s : KnownScripts) : bytes :=
  write_entries write_var_bytes (ws_watch_scripts s) ++ write_entries write_redeem (btree_iter hash_order (ws_redeem_scripts s)).
Definition write_history (h : TxHistory) : bytes :=
  write_entries write_bytes (btree_items (th_history h))
  ++ write_entries write_received (btree_iter hash_order (th_received_at h))
  ++ write_entries write_redeem (btree_iter hash_order (th_store h))
  ++ write_entries write_values (btree_iter hash_order (th_values h)).
Definition write_ring_rest (r : KeyRing) : bytes :=
  write_entries write_pool_entry (kr_keypool r) ++ write_entries write_sapling_key (kr_sapling_keys r)
  ++ write_entries write_viewing_key (kr_sapling_viewing_keys r) ++ write_entries write_bytes (btree_items (kr_change_key_hashes r)).
Definition write_scan (s : SaplingScan) : result WalletError bytes :=
  tree ← ok_or (sapling_tree_to_bytes (ss_tree s)) (InvalidWallet "invalid sapling tree state");
  witnesses ← collect write_witness (btree_iter note_order (ss_witnesses s));
  Ok (write_i32_le (ss_height s) ++ write_bytes (ss_hash s) ++ write_u64_le (ss_next_position s)
      ++ write_entries write_note (btree_iter note_order (ss_notes s)) ++ write_var_bytes tree
      ++ write_varint (Z.of_nat (length witnesses)) ++ concat witnesses).
(** The file up to the secrets. *)
Definition write_public (w : Wallet) : result WalletError bytes :=
  scan ← write_scan (w_scan w);
  Ok (write_u32_le WALLET_FILE_VERSION ++ write_u8 (encode_network (w_network w)) ++ write_i64_le (w_pay_tx_fee_per_kb w)
      ++ write_encryption (sl_encrypted (w_seal w)) ++ write_ring_keys (w_ring w) ++ write_scripts (w_scripts w)
      ++ write_history (w_history w) ++ write_ring_rest (w_ring w) ++ scan
      ++ write_entries write_text_pair (btree_iter hash_order (ws_address_labels (w_scripts w)))).
Definition set_encrypted (enc : option WalletEncryptedSecrets) (s : Seal) : Seal :=
  mkSeal enc (sl_unlocked_key s) (sl_unlocked_until s) (sl_generation s).
(** The secrets as the file has them; an open wallet encrypts them anew. *)
Definition secrets_payload : wallet_op bytes :=
  w ← wallet;
  match sl_encrypted (w_seal w) with
  | None => of_result (encode_secrets_blob (w_ring w))
  | Some enc =>
      match sl_unlocked_key (w_seal w) with
      | None => mret (enc_ciphertext enc)
      | Some key =>
          plaintext ← of_result (encode_secrets_blob (w_ring w));
          nonce ← fill_bytes WALLET_ENCRYPTION_NONCE_BYTES;
          ciphertext ← of_result (encrypt_wallet_secrets (w_network w) key nonce plaintext);
          _ ← modify (fun w => set_seal (set_encrypted (Some (mkEncrypted (enc_kdf enc) nonce ciphertext)) (w_seal w)) w);
          mret ciphertext
      end
  end.
Definition save : wallet_op unit :=
  _ ← modify (fun w => set_history (retain_history (w_history w)) w);
  w ← wallet;
  public ← of_result (write_public w);
  payload ← secrets_payload;
  write_file_atomic (w_path w) (public ++ write_var_bytes payload).

(** ** Reading the file *)
Definition read_since {A} (version first : Z) (m : parser WalletError A) (otherwise : A) : parser WalletError A :=
  if first <=? version then m else mret otherwise.
Definition read_fixed_file (n : nat) : parser WalletError bytes := lift Decode (read_fixed n).
Definition read_var_file : parser WalletError bytes := lift Decode read_var_bytes.
Definition read_text (message : string) : parser WalletError bytes :=
  text ← read_var_file; if utf8_valid text then mret text else fail (InvalidWallet message).

(** *** Parts shared by the versions *)
Definition read_pair {A} (m : parser WalletError A) : parser WalletError (bytes * A) :=
  k ← read_fixed_file 32; v ← m; mret (k, v).
Definition read_viewing_key : parser WalletError SaplingViewingKeyEntry :=
  extfvk ← read_fixed_file 169; next ← read_fixed_file 11; mret (mkViewingKey extfvk next).
Definition read_note_key : parser WalletError SaplingNoteKey :=
  txid ← read_fixed_file 32; out_index ← lift Decode read_u32_le; mret (txid, out_index).
Definition read_rseed : parser WalletError (option SaplingRseedBytes) :=
  tag ← lift Decode read_u8;
  if tag =? 0 then mret None
  else if tag =? 1 then rcm ← read_fixed_file 32; mret (Some (BeforeZip212 rcm))
  else if tag =? 2 then seed ← read_fixed_file 32; mret (Some (AfterZip212 seed))
  else fail (InvalidWallet "invalid sapling note rseed encoding").
Definition read_note (version : Z) : parser WalletError (SaplingNoteKey * SaplingNoteRecord) :=
  key ← read_note_key;
  height ← lift Decode read_i32_le;
  position ← lift Decode read_u64_le;
  value ← lift Decode read_i64_le;
  address ← read_fixed_file 43;
  nullifier ← read_fixed_file 32;
  rseed ← read_since version 10 read_rseed None;
  mret (key, mkNote address value height position nullifier rseed).
Definition read_tree : parser WalletError SaplingTree :=
  tree_bytes ← read_var_file;
  if bool_decide (tree_bytes = []) then mret empty_sapling_tree
  else parse (ok_or (sapling_tree_from_bytes tree_bytes) (InvalidWallet "invalid sapling tree encoding")).
Definition read_witness : parser WalletError (SaplingNoteKey * Witness) :=
  key ← read_note_key;
  witness_bytes ← read_var_file;
  witness ← parse (ok_or (read_incremental_witness witness_bytes) (InvalidWallet "invalid sapling witness encoding"));
  mret (key, witness).
Definition read_trees : parser WalletError (SaplingTree * gmap SaplingNoteKey Witness) :=
  tree ← read_tree;
  witnesses ← read_entries "sapling witness count too large" read_witness;
  mret (tree, insert_all witnesses).
Definition read_scan (version : Z) : parser WalletError SaplingScan :=
  '(height, hash, position, notes) ← read_since version 8
    (height ← lift Decode read_i32_le;
     hash ← read_fixed_file 32;
     position ← lift Decode read_u64_le;
     notes ← read_entries "sapling note count too large" (read_note version);
     mret (height, hash, position, insert_all notes)) (-1, zeros 32, 0, ∅);
  '(tree, witnesses) ← read_since version 9 read_trees (empty_sapling_tree, ∅);
  mret (mkScan height hash position notes tree witnesses).
Definition read_hashes (n : nat) (message : string) : parser WalletError (gset bytes) :=
  hashes ← read_entries message (read_fixed_file n); mret (list_to_set hashes).

(** *** Up to version 10: the secrets lie open *)
Definition read_open_key : parser WalletError WalletKey :=
  secret ← read_fixed_file 32; compressed ← lift Decode read_bool; parse (from_secret secret compressed).
Definition read_open_pool_entry : parser WalletError KeyPoolEntry :=
  secret ← read_fixed_file 32; compressed ← lift Decode read_bool; created_at ← lift Decode read_u64_le;
  key ← parse (from_secret secret compressed); mret (mkPoolEntry key created_at).
Definition read_open_sapling_key : parser WalletError SaplingKeyEntry :=
  extsk ← read_fixed_file 169; next ← read_fixed_file 11;
  extfvk ← parse (sapling_extfvk_from_extsk extsk); mret (mkSaplingKey extfvk (Some extsk) next).
Definition read_open (path : Path) (network : Network) (fee version : Z) : parser WalletError Wallet :=
  keys ← read_entries "wallet key count too large" read_open_key;
  watch_scripts ← read_since version 2 (read_entries "watch script count too large" read_var_file) [];
  history ← read_since version 3 (read_hashes 32 "tx history count too large") ∅;
  keypool ← read_since version 4 (read_entries "keypool count too large" read_open_pool_entry) [];
  sapling_keys ← read_since version 5 (read_entries "sapling key count too large" read_open_sapling_key) [];
  viewing_keys ← read_since version 6 (read_entries "sapling viewing key count too large" read_viewing_key) [];
  change ← read_since version 7 (read_hashes 20 "change key hash count too large") ∅;
  scan ← read_scan version;
  mret (mkWallet path network fee (mkKeyRing keys keypool sapling_keys viewing_keys change) (mkScripts watch_scripts ∅ ∅)
          (mkHistory history ∅ ∅ ∅) scan no_seal 0 ∅).

(** *** From version 11: the secrets are a blob at the end *)
Definition read_encryption : parser WalletError (option WalletEncryptedSecrets) :=
  encrypted ← lift Decode read_bool;
  if (encrypted : bool) then
    version ← lift Decode read_u8;
    if negb (version =? WALLET_ENCRYPTION_VERSION) then fail (InvalidWallet "unsupported wallet encryption version")
    else
      mem_kib ← lift Decode read_u32_le; iters ← lift Decode read_u32_le; parallelism ← lift Decode read_u32_le;
      salt ← read_fixed_file WALLET_ENCRYPTION_SALT_BYTES; nonce ← read_fixed_file WALLET_ENCRYPTION_NONCE_BYTES;
      mret (Some (mkEncrypted (mkKdf mem_kib iters parallelism salt) nonce []))
  else mret None.
Definition read_key_fields (version : Z) : parser WalletError WalletKey :=
  key_hash ← read_fixed_file 20; compressed ← lift Decode read_bool;
  pubkey_bytes ← read_since version 12 read_var_file [];
  mret (mkWalletKey key_hash None compressed pubkey_bytes).
Definition validated (k : WalletKey) : parser WalletError WalletKey := _ ← parse (validate_pubkey_bytes k); mret k.
Definition read_key (version : Z) : parser WalletError WalletKey := k ← read_key_fields version; validated k.
Definition read_pool_entry (version : Z) : parser WalletError KeyPoolEntry :=
  k ← read_key_fields version; created_at ← lift Decode read_u64_le; k ← validated k; mret (mkPoolEntry k created_at).
Definition read_redeem : parser WalletError (bytes * bytes) :=
  hash ← read_fixed_file 20; script ← read_var_file;
  if bool_decide (hash160 script = hash) then mret (hash, script) else fail (InvalidWallet "redeemScript hash mismatch").
Definition read_scripts (version : Z) : parser WalletError (list bytes * gmap bytes bytes) :=
  watch ← read_entries "watch script count too large" read_var_file;
  redeem ← read_since version 12 (read_entries "redeem script count too large" read_redeem) [];
  mret (watch, insert_all redeem).
Definition read_value : parser WalletError (bytes * bytes) :=
  key ← read_text "tx value key is not utf8"; value ← read_text "tx value is not utf8"; mret (key, value).
Definition nonempty (kv : bytes * bytes) : bool := negb (bool_decide (kv.1 = [])) && negb (bool_decide (kv.2 = [])).
Definition read_values : parser WalletError (gmap bytes bytes) :=
  entries ← read_entries "tx value entry count too large" read_value; mret (insert_all (List.filter nonempty entries)).
Definition has_values (kv : bytes * gmap bytes bytes) : bool := negb (bool_decide (kv.2 = ∅)).
Definition read_history (version : Z) : parser WalletError TxHistory :=
  history ← read_hashes 32 "tx history count too large";
  received ← read_since version 13
    (read_entries "tx received time count too large" (read_pair (lift Decode read_u64_le))) [];
  store ← read_since version 14 (read_entries "tx store count too large" (read_pair read_var_file)) [];
  values ← read_since version 15 (read_entries "tx values count too large" (read_pair read_values)) [];
  mret (mkHistory history (insert_all received) (insert_all store) (insert_all (List.filter has_values values))).
Definition read_sapling_key : parser WalletError SaplingKeyEntry :=
  extfvk ← read_fixed_file 169; next ← read_fixed_file 11; mret (mkSaplingKey extfvk None next).
Definition read_ring_rest (version : Z) (keys : list WalletKey) : parser WalletError KeyRing :=
  keypool ← read_entries "keypool count too large" (read_pool_entry version);
  sapling_keys ← read_entries "sapling key count too large" read_sapling_key;
  viewing_keys ← read_entries "sapling viewing key count too large" read_viewing_key;
  change ← read_hashes 20 "change key hash count too large";
  mret (mkKeyRing keys keypool sapling_keys viewing_keys change).
Definition read_label : parser WalletError (bytes * bytes) :=
  script_pubkey ← read_var_file; label ← read_text "invalid wallet label encoding"; mret (script_pubkey, label).
Definition has_label (kv : bytes * bytes) : bool := negb (bool_decide (kv.2 = [])).
Definition read_labels (version : Z) : parser WalletError (gmap bytes bytes) :=
  labels ← read_since version 16 (read_entries "wallet label count too large" read_label) [];
  mret (insert_all (List.filter has_label labels)).
(** The wallet without secrets, and the payload. *)
Definition read_sealed (path : Path) (network : Network) (fee version : Z) : parser WalletError (Wallet * bytes) :=
  enc ← read_encryption;
  keys ← read_entries "wallet key count too large" (read_key version);
  '(watch, redeem) ← read_scripts version;
  history ← read_history version;
  ring ← read_ring_rest version keys;
  scan ← read_scan version;
  labels ← read_labels version;
  payload ← read_var_file;
  mret (mkWallet path network fee ring (mkScripts watch redeem labels) history scan (mkSeal enc None 0 0) 0 ∅, payload).
Definition read_header (expected : Network) : parser WalletError (Z * Z) :=
  version ← lift Decode read_u32_le;
  if (version =? 0) || (WALLET_FILE_VERSION <? version) then fail (InvalidWallet "unsupported wallet file version")
  else
    tag ← lift Decode read_u8;
    network ← parse (decode_network tag);
    if negb (bool_decide (network = expected)) then fail (NetworkMismatch expected network)
    else fee ← read_since version 2 (lift Decode read_i64_le) 0; mret (version, fee).
Definition open_payload (wp : Wallet * bytes) : result WalletError Wallet :=
  let '(w, payload) := wp in
  match sl_encrypted (w_seal w) with
  | Some enc => Ok (set_seal (set_encrypted (Some (mkEncrypted (enc_kdf enc) (enc_nonce enc) payload)) (w_seal w)) w)
  | None => let '(o, ring) := apply_secrets_blob payload (w_ring w) in _ ← o; Ok (set_ring ring w)
  end.
(** The payload is looked at once the file was read to its end. *)
Definition read_wallet (path : Path) (expected : Network) : parser WalletError (Wallet + Wallet * bytes) :=
  '(version, fee) ← read_header expected;
  if version <=? 10 then w ← read_open path expected fee version; mret (inl w)
  else wp ← read_sealed path expected fee version; mret (inr wp).
Definition decode_wallet (path : Path) (expected : Network) (data : bytes) : result WalletError Wallet :=
  r ← decode_all (InvalidWallet "wallet file has trailing bytes") (read_wallet path expected) data;
  match r with inl w => Ok w | inr wp => open_payload wp end.

(** [load_or_create]: the wallet that the state of the world becomes. *)
Definition load_or_create (path : Path) (network : Network) : wallet_op unit :=
  data ← fs_read path;
  match data with
  | Some data => w ← of_result (decode_wallet path network data); modify (fun _ => w)
  | None => modify (fun _ => fresh_wallet path network)
  end.

(** ** The lock *)
Definition is_encrypted (w : Wallet) : bool := bool_decide (is_Some (sl_encrypted (w_seal w))).
Definition saturating_succ (n : Z) : Z := Z.min (n + 1) u64_max.
Definition forget_secret (k : WalletKey) : WalletKey := set_secret None k.
Definition forget_pool_secret (e : KeyPoolEntry) : KeyPoolEntry := set_key (forget_secret (kp_key e)) e.
Definition forget_secrets (r : KeyRing) : KeyRing :=
  mkKeyRing (map forget_secret (kr_keys r)) (map forget_pool_secret (kr_keypool r)) (map (set_extsk None) (kr_sapling_keys r))
    (kr_sapling_viewing_keys r) (kr_change_key_hashes r).
Definition lock_inner (w : Wallet) : Wallet :=
  set_ring (forget_secrets (w_ring w))
    (set_seal (mkSeal (sl_encrypted (w_seal w)) None 0 (saturating_succ (sl_generation (w_seal w)))) w).
Definition lock_if_expired : wallet_op unit :=
  w ← wallet;
  if negb (is_encrypted w) || (sl_unlocked_until (w_seal w) =? 0) then mret tt
  else now ← current_unix_seconds; if sl_unlocked_until (w_seal w) <=? now then modify lock_inner else mret tt.
Definition unlocked_until : wallet_op Z := _ ← lock_if_expired; w ← wallet; mret (sl_unlocked_until (w_seal w)).
Definition can_generate_keys : wallet_op bool :=
  _ ← lock_if_expired; w ← wallet; mret (negb (is_encrypted w) || bool_decide (is_Some (sl_unlocked_key (w_seal w)))).
Definition require_unlocked : wallet_op unit :=
  _ ← lock_if_expired;
  w ← wallet;
  if negb (is_encrypted w) then mret tt
  else if bool_decide (sl_unlocked_key (w_seal w) = None) || (sl_unlocked_until (w_seal w) =? 0) then failing WalletLocked
  else mret tt.
Definition walletlock : wallet_op unit :=
  w ← wallet; if negb (is_encrypted w) then failing WalletNotEncrypted else modify lock_inner.

Definition encryptwallet (passphrase : bytes) : wallet_op unit :=
  w ← wallet;
  if is_encrypted w then failing WalletAlreadyEncrypted
  else
    secrets ← of_result (encode_secrets_blob (w_ring w));
    '(kdf, key) ← new_wallet_kdf passphrase;
    nonce ← fill_bytes WALLET_ENCRYPTION_NONCE_BYTES;
    ciphertext ← of_result (encrypt_wallet_secrets (w_network w) key nonce secrets);
    _ ← modify (fun w => set_seal (set_encrypted (Some (mkEncrypted kdf nonce ciphertext)) (w_seal w)) w);
    _ ← modify lock_inner;
    on_error save (fun e =>
      _ ← modify (fun w => set_seal (set_encrypted None (w_seal w)) w); _ ← apply_secrets secrets; failing e).

Definition key_without_pubkey (k : WalletKey) : bool := bool_decide (wk_pubkey k = []).
Definition walletpassphrase (passphrase : bytes) (timeout : Z) : wallet_op (Z * Z) :=
  w ← wallet;
  if negb (is_encrypted w) then failing WalletNotEncrypted
  else
    _ ← lock_if_expired;
    w ← wallet;
    let needs_pubkey_persist := existsb key_without_pubkey (ring_keys (w_ring w)) in
    encrypted ← of_result (ok_or (sl_encrypted (w_seal w)) WalletNotEncrypted);
    key ← of_result (derive_wallet_key passphrase (enc_kdf encrypted));
    plaintext ← of_result (decrypt_wallet_secrets (w_network w) key (enc_nonce encrypted) (enc_ciphertext encrypted));
    _ ← apply_secrets plaintext;
    now ← current_unix_seconds;
    let until := Z.min (now + timeout) u64_max in
    _ ← modify (fun w => set_seal (mkSeal (sl_encrypted (w_seal w)) (Some key) until (saturating_succ (sl_generation (w_seal w)))) w);
    _ ← (if needs_pubkey_persist then save else mret tt);
    w ← wallet;
    mret (until, sl_generation (w_seal w)).

Definition walletpassphrasechange (old_passphrase new_passphrase : bytes) : wallet_op unit :=
  w ← wallet;
  if negb (is_encrypted w) then failing WalletNotEncrypted
  else
    prev ← of_result (ok_or (sl_encrypted (w_seal w)) WalletNotEncrypted);
    old_key ← of_result (derive_wallet_key old_passphrase (enc_kdf prev));
    plaintext ← of_result (decrypt_wallet_secrets (w_network w) old_key (enc_nonce prev) (enc_ciphertext prev));
    '(kdf, new_key) ← new_wallet_kdf new_passphrase;
    nonce ← fill_bytes WALLET_ENCRYPTION_NONCE_BYTES;
    ciphertext ← of_result (encrypt_wallet_secrets (w_network w) new_key nonce plaintext);
    _ ← modify (fun w => set_seal (mkSeal (Some (mkEncrypted kdf nonce ciphertext))
           (match sl_unlocked_key (w_seal w) with Some _ => Some new_key | None => None end)
           (sl_unlocked_until (w_seal w)) (sl_generation (w_seal w))) w);
    or_undo save (fun w => set_seal (set_encrypted (Some prev) (w_seal w)) w).
End wallet.
