(* ===== verification/WalletScripts.v ===== *)
(** * What a wallet answers ([node/src/wallet.rs])

    The queries of the wallet: which scripts it can spend or watches, the keys
    it signs with, its addresses, and the text of a dump.  None of them
    changes the wallet. *)

From S2P Require Import Prelude Consensus Rewards Encoding Hashing Address Transaction Script Storage Payees FluxnodeChecks Ledger Mempool Wallet.
From Stdlib Require Import ZArith Lia.
From stdpp Require Import base list option numbers strings gmap sets sorting.
#[local] Open Scope Z_scope.

(** ** Scripts *)
Definition p2pkh_key_hash_from_script_pubkey (script : bytes) : option bytes :=
  if negb (Nat.eqb (length script) 25) then None
  else if negb (at_is script 0 0x76) then None
  else if negb (at_is script 1 0xa9) || negb (at_is script 2 0x14) then None
  else if negb (at_is script 23 0x88) || negb (at_is script 24 0xac) then None
  else Some (slice script 3 23).
Definition p2sh_hash_from_script_pubkey (script : bytes) : option bytes :=
  if negb (Nat.eqb (length script) 23) then None
  else if negb (at_is script 0 0xa9) || negb (at_is script 1 0x14) then None
  else if negb (at_is script 22 0x87) then None
  else Some (slice script 2 22).
Definition decode_small_int_opcode (opcode : Z) : option nat :=
  if opcode =? 0 then Some O
  else if (0x51 <=? opcode) && (opcode <=? 0x60) then Some (Z.to_nat (opcode - 0x50))
  else None.
(** [script.get(from..to)]. *)
Definition get_range (script : bytes) (from to : nat) : option bytes :=
  if (from <=? to)%nat && (to <=? length script)%nat then Some (slice script from to) else None.

Section scripts.
  Context {H : Hashes} {S256 : Secp} {Rc : Recovery} {SK : SecretKeys}.

Definition p2sh_script_pubkey_from_redeem_script (redeem_script : bytes) : bytes :=
  [0xa9; 0x14] ++ hash160 redeem_script ++ [0x87].

(** The length of the push at [cursor] and how far its data is. *)
Definition push_at (script : bytes) (cursor : nat) : option (nat * nat) :=
  opcode ← script !! cursor;
  if (1 <=? opcode) && (opcode <=? 75) then Some (Z.to_nat opcode, 1%nat)
  else if opcode =? 0x4c then len ← script !! (cursor + 1)%nat; Some (Z.to_nat len, 2%nat)
  else if opcode =? 0x4d then data ← get_range script (cursor + 1) (cursor + 3); Some (Z.to_nat (from_le data), 3%nat)
  else if opcode =? 0x4e then data ← get_range script (cursor + 1) (cursor + 5); Some (Z.to_nat (from_le data), 5%nat)
  else None.
(** The keys up to [stop]; every step moves the cursor. *)
Fixpoint multisig_pubkeys (fuel : nat) (script : bytes) (cursor stop : nat) (pubkeys : list PublicKey)
    : option (nat * list PublicKey) :=
  match fuel with
  | O => None
  | Datatypes.S fuel =>
      if (cursor <? stop)%nat then
        push ← push_at script cursor;
        let '(len, advance) := push in
        let start := (cursor + advance)%nat in
        if negb (Nat.eqb len 33) && negb (Nat.eqb len 65) then None
        else if (stop <? start + len)%nat then None
        else
          data ← get_range script start (start + len);
          pubkey ← PublicKey_from_slice data;
          multisig_pubkeys fuel script (start + len) stop (pubkeys ++ [pubkey])
      else Some (cursor, pubkeys)
  end.
Definition parse_multisig_redeem_script_with_required (script : bytes) : option (nat * list PublicKey) :=
  if (length script <? 3)%nat then None
  else if negb (bool_decide (last script = Some 0xae)) then None
  else
    n_code ← script !! (length script - 2)%nat;
    n ← decode_small_int_opcode n_code;
    m_code ← head script;
    m ← decode_small_int_opcode m_code;
    if (m =? 0)%nat || (n =? 0)%nat || (n <? m)%nat || (16 <? n)%nat then None
    else
      let stop := (length script - 2)%nat in
      found ← multisig_pubkeys (Datatypes.S (length script)) script 1 stop [];
      let '(cursor, pubkeys) := found in
      if negb (Nat.eqb cursor stop) then None
      else if negb (Nat.eqb (length pubkeys) n) then None
      else Some (m, pubkeys).

(** ** What the wallet can spend *)
Definition has_key_hash (r : KeyRing) (key_hash : bytes) : bool :=
  existsb (fun k => bool_decide (wk_hash k = key_hash)) (ring_keys r).
Definition wallet_key_matches_pubkey (k : WalletKey) (target : PublicKey) : bool :=
  if negb (bool_decide (wk_pubkey k = [])) then
    match PublicKey_from_slice (wk_pubkey k) with Some pubkey => bool_decide (pubkey = target) | None => false end
  else
    match secret_key k with
    | Ok secret => bool_decide (PublicKey_from_secret_key secret = target)
    | _ => false
    end.
Definition has_pubkey (r : KeyRing) (target : PublicKey) : bool :=
  existsb (fun k => wallet_key_matches_pubkey k target) (ring_keys r).
(** Counting stops at the number that is required. *)
Fixpoint enough_pubkeys (r : KeyRing) (required available : nat) (pubkeys : list PublicKey) : bool :=
  match pubkeys with
  | [] => false
  | pubkey :: pubkeys =>
      if has_pubkey r pubkey then
        if (required <=? available + 1)%nat then true else enough_pubkeys r required (available + 1) pubkeys
      else enough_pubkeys r required available pubkeys
  end.
Definition can_spend_redeem_script (r : KeyRing) (redeem_script : bytes) : bool :=
  match parse_multisig_redeem_script_with_required redeem_script with
  | Some (required, pubkeys) => enough_pubkeys r required 0 pubkeys
  | None =>
      match p2pkh_key_hash_from_script_pubkey redeem_script with
      | Some key_hash => has_key_hash r key_hash
      | None => false
      end
  end.

  Context {C : Cipher} {SA : SaplingKeys} {T : ShieldedTrees} {SW : SaplingWitnesses}.
  Context (w : Wallet).
  #[local] Notation keys := (kr_keys (w_ring w)).
  #[local] Notation redeem_scripts := (btree_iter hash_order (ws_redeem_scripts (w_scripts w))).
  #[local] Notation watch_scripts := (ws_watch_scripts (w_scripts w)).

Definition can_spend_script_pubkey (script_pubkey : bytes) : bool :=
  match p2pkh_key_hash_from_script_pubkey script_pubkey with
  | Some key_hash => has_key_hash (w_ring w) key_hash
  | None =>
      match p2sh_hash_from_script_pubkey script_pubkey with
      | None => false
      | Some script_hash =>
          match ws_redeem_scripts (w_scripts w) !! script_hash with
          | None => false
          | Some redeem_script => can_spend_redeem_script (w_ring w) redeem_script
          end
      end
  end.
Definition sort_dedup (l : list bytes) : list bytes := dedup (merge_sort hash_order l).
Definition own_scripts : list bytes :=
  map p2pkh_script_pubkey keys
  ++ map (fun kv => p2sh_script_pubkey_from_redeem_script kv.2)
       (List.filter (fun kv => can_spend_redeem_script (w_ring w) kv.2) redeem_scripts).
Definition all_script_pubkeys : list bytes := sort_dedup own_scripts.
Definition all_script_pubkeys_including_watchonly : list bytes :=
  sort_dedup (all_script_pubkeys ++ watch_scripts ++ map (fun kv => p2sh_script_pubkey_from_redeem_script kv.2) redeem_scripts).
Definition script_pubkey_is_watchonly (script_pubkey : bytes) : bool :=
  if can_spend_script_pubkey script_pubkey then false
  else
    let watched := existsb (fun spk => bool_decide (spk = script_pubkey)) watch_scripts in
    match p2sh_hash_from_script_pubkey script_pubkey with
    | Some script_hash => if bool_decide (is_Some (ws_redeem_scripts (w_scripts w) !! script_hash)) then true else watched
    | None => watched
    end.
Definition redeem_script_for_p2sh_script_pubkey (script_pubkey : bytes) : option bytes :=
  script_hash ← p2sh_hash_from_script_pubkey script_pubkey; ws_redeem_scripts (w_scripts w) !! script_hash.
(** The first key of that hash: its stored public key, else one from its
    secret. *)
Definition pubkey_bytes_for_p2pkh_script_pubkey (script_pubkey : bytes) : result WalletError (option bytes) :=
  match p2pkh_key_hash_from_script_pubkey script_pubkey with
  | None => Ok None
  | Some key_hash =>
      match List.find (fun k => bool_decide (wk_hash k = key_hash)) (ring_keys (w_ring w)) with
      | None => Ok None
      | Some k =>
          if negb (bool_decide (wk_pubkey k = [])) then Ok (Some (wk_pubkey k))
          else if bool_decide (is_Some (wk_secret k)) then data ← pubkey_bytes k; Ok (Some data)
          else Ok None
      end
  end.

(** ** Signing *)
Fixpoint signing_key (target : PublicKey) (l : list WalletKey) : result WalletError (option bytes) :=
  match l with
  | [] => Ok None
  | k :: l =>
      secret ← secret_key k;
      if bool_decide (PublicKey_from_secret_key secret = target) then Ok (Some secret) else signing_key target l
  end.
Definition signing_key_for_pubkey (target : PublicKey) : result WalletError (option bytes) :=
  signing_key target (ring_keys (w_ring w)).
Definition signing_key_for_script_pubkey (script_pubkey : bytes) : result WalletError (option (bytes * bytes)) :=
  match List.find (fun k => bool_decide (p2pkh_script_pubkey k = script_pubkey)) keys with
  | None => Ok None
  | Some k => secret ← secret_key k; data ← pubkey_bytes k; Ok (Some (secret, data))
  end.
(** [f] of the first key with that address. *)
Fixpoint with_address {A} (text : bytes) (f : WalletKey -> result WalletError A) (l : list WalletKey)
    : result WalletError (option A) :=
  match l with
  | [] => Ok None
  | k :: l =>
      a ← address k (w_network w);
      if bool_decide (a = text) then r ← f k; Ok (Some r) else with_address text f l
  end.
Definition saturating_add_u8 (a b : Z) : Z := Z.min (a + b) 255.
Definition sign_message (text message : bytes) : result WalletError (option bytes) :=
  with_address text (fun k =>
    secret ← secret_key k;
    let '(rec_id, compact) := sign_ecdsa_recoverable (signed_message_hash message) secret in
    let header := saturating_add_u8 (saturating_add_u8 27 (wrap_u8 rec_id)) (if wk_compressed k then 4 else 0) in
    Ok (header :: compact)) keys.
Definition dump_wif_for_address (text : bytes) : result WalletError (option bytes) :=
  with_address text (fun k => wif k (w_network w)) keys.

(** ** Addresses *)
Definition default_address : result WalletError (option bytes) :=
  match keys with [] => Ok None | k :: _ => a ← address k (w_network w); Ok (Some a) end.
Definition label_for_script_pubkey (script_pubkey : bytes) : option bytes :=
  ws_address_labels (w_scripts w) !! script_pubkey.
Record TransparentAddressInfo := mkAddressInfo { ai_address : bytes; ai_label : option bytes; ai_is_change : bool }.
Definition is_change (k : WalletKey) : bool := bool_decide (wk_hash k ∈ kr_change_key_hashes (w_ring w)).
Definition transparent_address_infos : result WalletError (list TransparentAddressInfo) :=
  collect (fun k =>
    a ← address k (w_network w);
    Ok (mkAddressInfo a (label_for_script_pubkey (p2pkh_script_pubkey k)) (is_change k))) keys.
Definition with_filter (addresses : list bytes) (script_pubkey : bytes) : list bytes :=
  match script_pubkey_to_address script_pubkey (w_network w) with
  | Some a => if bool_decide (a ∈ addresses) then [script_pubkey] else []
  | None => []
  end.
Definition scripts_for_filter (addresses : list bytes) : result WalletError (list bytes) :=
  if bool_decide (addresses = []) then Ok all_script_pubkeys
  else
    own ← collect (fun k =>
      a ← address k (w_network w); Ok (if bool_decide (a ∈ addresses) then [p2pkh_script_pubkey k] else [])) keys;
    Ok (sort_dedup (concat own
      ++ flat_map (fun kv => with_filter addresses (p2sh_script_pubkey_from_redeem_script kv.2)) redeem_scripts
      ++ flat_map (with_filter addresses) watch_scripts)).

(** ** Sapling addresses *)
Definition INDEX_BYTES : nat := 11.
Definition increment (index : Z) : option Z := if index + 1 <? 2 ^ 88 then Some (index + 1) else None.
Definition viewing_key (extfvk : bytes) : result WalletError bytes :=
  if ExtendedFullViewingKey_read extfvk then Ok extfvk else Err (InvalidWallet "invalid sapling viewing key encoding").
(** The addresses from [index] to [stop]; [fuel] is the distance. *)
Fixpoint addresses_until (fuel : nat) (extfvk : bytes) (index stop : Z) : result WalletError (list bytes) :=
  if index <? stop then
    match fuel with
    | O => Panic
    | Datatypes.S fuel =>
        '(found, address) ← ok_or (find_address extfvk index) (InvalidWallet "sapling diversifier space exhausted");
        if stop <=? found then Ok []
        else
          next ← ok_or (increment found) (InvalidWallet "sapling diversifier index overflow");
          rest ← addresses_until fuel extfvk next stop;
          Ok (address :: rest)
    end
  else Ok [].
Definition issued_addresses (extfvk next_index : bytes) : result WalletError (list bytes) :=
  dfvk ← viewing_key extfvk;
  addresses_until (Z.to_nat (from_le next_index)) dfvk 0 (from_le next_index).
Definition sapling_addresses_bytes : result WalletError (list bytes) :=
  out ← collect (fun e => issued_addresses (sk_extfvk e) (sk_next_index e)) (kr_sapling_keys (w_ring w)); Ok (concat out).
Definition sapling_viewing_addresses_bytes : result WalletError (list bytes) :=
  out ← collect (fun e => issued_addresses (vk_extfvk e) (vk_next_index e)) (kr_sapling_viewing_keys (w_ring w)); Ok (concat out).
(** The first entry whose key owns the address. *)
Fixpoint owner {A} (extfvk : A -> bytes) (addr : bytes) (l : list A) : result WalletError (option A) :=
  match l with
  | [] => Ok None
  | e :: l =>
      dfvk ← viewing_key (extfvk e);
      if decrypt_diversifier dfvk addr then Ok (Some e) else owner extfvk addr l
  end.
Definition sapling_extsk_for_address (addr : bytes) : result WalletError (option bytes) :=
  if negb (PaymentAddress_from_bytes addr) then Ok None
  else
    e ← owner sk_extfvk addr (kr_sapling_keys (w_ring w));
    match e with None => Ok None | Some e => extsk ← ok_or (sk_extsk e) WalletLocked; Ok (Some extsk) end.
Definition sapling_extfvk_for_address (addr : bytes) : result WalletError (option bytes) :=
  if negb (PaymentAddress_from_bytes addr) then Ok None
  else
    e ← owner sk_extfvk addr (kr_sapling_keys (w_ring w));
    match e with
    | Some e => Ok (Some (sk_extfvk e))
    | None =>
        e ← owner vk_extfvk addr (kr_sapling_viewing_keys (w_ring w));
        Ok (match e with Some e => Some (vk_extfvk e) | None => None end)
    end.
Definition sapling_address_is_mine (addr : bytes) : result WalletError bool :=
  if negb (PaymentAddress_from_bytes addr) then Ok false
  else e ← owner sk_extfvk addr (kr_sapling_keys (w_ring w)); Ok (bool_decide (is_Some e)).
Definition sapling_address_is_watchonly (addr : bytes) : result WalletError bool :=
  mine ← sapling_address_is_mine addr;
  if (mine : bool) then Ok false
  else if negb (PaymentAddress_from_bytes addr) then Ok false
  else e ← owner vk_extfvk addr (kr_sapling_viewing_keys (w_ring w)); Ok (bool_decide (is_Some e)).

(** ** Transactions *)
Definition recent_order (a b : bytes * Z) : Prop := b.2 < a.2 \/ (a.2 = b.2 /\ hash_order a.1 b.1).
#[global] Instance recent_order_dec : RelDecision recent_order.
Proof. intros a b. unfold recent_order. apply _. Defined.
Definition recent_transactions (limit : nat) : list (bytes * Z) :=
  take limit (merge_sort recent_order (btree_iter hash_order (th_received_at (w_history w)))).
Definition tx_received_time (txid : Hash256) : option Z := th_received_at (w_history w) !! txid.
Definition stored_transactions : list (bytes * Z) :=
  map (fun kv => (kv.1, default 0 (tx_received_time kv.1))) (btree_iter hash_order (th_store (w_history w))).
End scripts.

(** ** The text of a dump *)
Definition hex_nibble_to_char (nibble : Z) : Z := if nibble <=? 9 then 48 + nibble else if nibble <=? 15 then 65 + (nibble - 10) else 48.
Definition decode_hex_digit (byte : Z) : option Z :=
  if (48 <=? byte) && (byte <=? 57) then Some (byte - 48)
  else if (97 <=? byte) && (byte <=? 102) then Some (byte - 97 + 10)
  else if (65 <=? byte) && (byte <=? 70) then Some (byte - 65 + 10)
  else None.
Definition escape_byte (byte : Z) : bytes :=
  if (byte <=? 32) || (128 <=? byte) || (byte =? 37)
  then [37; hex_nibble_to_char (Z.shiftr byte 4); hex_nibble_to_char (Z.land byte 0x0f)]
  else [byte].
Definition encode_wallet_dump_string (value : bytes) : bytes := flat_map escape_byte value.
(** The bytes the text stands for. *)
Fixpoint unescape (value : bytes) : bytes :=
  match value with
  | [] => []
  | byte :: rest =>
      match rest with
      | a :: b :: rest' =>
          match decode_hex_digit a, decode_hex_digit b with
          | Some hi, Some lo => if byte =? 37 then Z.lor (Z.shiftl hi 4) lo :: unescape rest' else byte :: unescape rest
          | _, _ => byte :: unescape rest
          end
      | _ => byte :: unescape rest
      end
  end.
(** [String::from_utf8_lossy]: how many bytes the next character has, or how
    many of an ill-formed one are replaced. *)
Definition utf8_next (b0 : Z) (r : bytes) : bool * nat :=
  let second lo hi := match r with b1 :: _ => (lo <=? b1) && (b1 <=? hi) | [] => false end in
  let later i := match r !! i with Some b => utf8_cont b | None => false end in
  if b0 <=? 0x7f then (true, 1%nat)
  else if (0xc2 <=? b0) && (b0 <=? 0xdf) then if later O then (true, 2%nat) else (false, 1%nat)
  else if (0xe0 <=? b0) && (b0 <=? 0xef) then
    if negb (second (if b0 =? 0xe0 then 0xa0 else 0x80) (if b0 =? 0xed then 0x9f else 0xbf)) then (false, 1%nat)
    else if negb (later 1%nat) then (false, 2%nat) else (true, 3%nat)
  else if (0xf0 <=? b0) && (b0 <=? 0xf4) then
    if negb (second (if b0 =? 0xf0 then 0x90 else 0x80) (if b0 =? 0xf4 then 0x8f else 0xbf)) then (false, 1%nat)
    else if negb (later 1%nat) then (false, 2%nat) else if negb (later 2%nat) then (false, 3%nat) else (true, 4%nat)
  else (false, 1%nat).
Fixpoint from_utf8_lossy (fuel : nat) (bs : bytes) : bytes :=
  match fuel, bs with
  | Datatypes.S fuel, b0 :: r =>
      let '(valid, n) := utf8_next b0 r in
      (if valid then take n bs else [0xef; 0xbf; 0xbd]) ++ from_utf8_lossy fuel (drop n bs)
  | _, _ => []
  end.
Definition decode_wallet_dump_string (value : bytes) : bytes :=
  let out := unescape value in from_utf8_lossy (length out) out.

(** *** The dump *)
(** [bech32::encode] with a prefix. *)
Class Bech32 := { bech32_encode : bytes -> bytes -> option bytes }.
Section dump.
  Context {H : Hashes} {S256 : Secp} {Rc : Recovery} {SK : SecretKeys} {SA : SaplingKeys} {T : ShieldedTrees} {SW : SaplingWitnesses} {B32 : Bech32}.
  Context (w : Wallet).
Definition newline : bytes := [10].
Definition sapling_hrp : bytes :=
  ascii_bytes (match w_network w with Mainnet => "za" | Testnet => "ztestacadia" | Regtest => "zregtestsapling" end).
Definition sapling_sk_hrp : bytes :=
  ascii_bytes (match w_network w with
               | Mainnet => "secret-extended-key-main" | Testnet => "secret-extended-key-test"
               | Regtest => "secret-extended-key-regtest" end).
Definition encode_sapling_address (addr : bytes) : result WalletError bytes :=
  ok_or (bech32_encode sapling_hrp addr) (InvalidWallet "failed to encode sapling address").
(** Every address once, and whether only its viewing key is known. *)
Definition sapling_address_infos : result WalletError (list (bytes * bool)) :=
  own ← sapling_addresses_bytes w;
  own ← collect encode_sapling_address own;
  viewed ← sapling_viewing_addresses_bytes w;
  viewed ← collect encode_sapling_address viewed;
  let own := foldl (fun m a => <[a := false]> m) (∅ : gmap bytes bool) own in
  Ok (btree_iter hash_order (foldl (fun m a => match m !! a with Some _ => m | None => <[a := true]> m end) own viewed)).

Inductive TransparentDumpFlag := DumpDefault | DumpChange | DumpReserve.
Record TransparentDumpEntry := mkDumpEntry { de_address : bytes; de_wif : bytes; de_flag : TransparentDumpFlag; de_label : bytes }.
Definition dump_order (a b : TransparentDumpEntry) : Prop :=
  match bytes_cmp (de_address a) (de_address b) with Lt => True | Eq => hash_order (de_wif a) (de_wif b) | Gt => False end.
#[global] Instance dump_order_dec : RelDecision dump_order.
Proof. intros a b. unfold dump_order. destruct (bytes_cmp _ _); apply _. Defined.
Definition dump_key (k : WalletKey) : result WalletError TransparentDumpEntry :=
  a ← address k (w_network w);
  text ← wif k (w_network w);
  Ok (mkDumpEntry a text (if is_change w k then DumpChange else DumpDefault)
        (default [] (label_for_script_pubkey w (p2pkh_script_pubkey k)))).
Definition dump_reserve (e : KeyPoolEntry) : result WalletError TransparentDumpEntry :=
  a ← address (kp_key e) (w_network w);
  text ← wif (kp_key e) (w_network w);
  Ok (mkDumpEntry a text DumpReserve []).
Definition WALLET_DUMP_EPOCH : bytes := ascii_bytes "1970-01-01T00:00:00Z".
Definition dump_line (e : TransparentDumpEntry) : bytes :=
  de_wif e ++ [32] ++ WALLET_DUMP_EPOCH ++ [32] ++
  match de_flag e with
  | DumpReserve => ascii_bytes "reserve=1"
  | DumpChange => ascii_bytes "change=1"
  | DumpDefault => ascii_bytes "label=" ++ encode_wallet_dump_string (de_label e)
  end ++ ascii_bytes " # addr=" ++ de_address e ++ newline.
(** The encoded key and its first address. *)
Definition dump_sapling (e : SaplingKeyEntry) : result WalletError (bytes * bytes) :=
  extsk ← ok_or (sk_extsk e) WalletLocked;
  extfvk ← sapling_extfvk_from_extsk extsk;
  '(_, addr) ← ok_or (find_address extfvk 0) (InvalidWallet "sapling diversifier space exhausted");
  zaddr ← encode_sapling_address addr;
  zkey ← ok_or (bech32_encode sapling_sk_hrp extsk) (InvalidWallet "failed to encode sapling spending key");
  Ok (zkey, zaddr).
Definition pair_order (a b : bytes * bytes) : Prop :=
  match bytes_cmp a.1 b.1 with Lt => True | Eq => hash_order a.2 b.2 | Gt => False end.
#[global] Instance pair_order_dec : RelDecision pair_order.
Proof. intros a b. unfold pair_order. destruct (bytes_cmp _ _); apply _. Defined.
Definition sapling_line (kv : bytes * bytes) : bytes :=
  kv.1 ++ [32] ++ WALLET_DUMP_EPOCH ++ ascii_bytes " # zaddr=" ++ kv.2 ++ newline.
Definition export_wallet_dump (include_sapling_keys : bool) : result WalletError bytes :=
  own ← collect dump_key (kr_keys (w_ring w));
  reserve ← collect dump_reserve (kr_keypool (w_ring w));
  sapling ← (if include_sapling_keys then
               lines ← collect dump_sapling (kr_sapling_keys (w_ring w));
               Ok (newline ++ ascii_bytes "# Sapling keys" ++ newline ++ newline
                   ++ flat_map sapling_line (dedup (merge_sort pair_order lines)) ++ newline)
             else Ok []);
  Ok (ascii_bytes "# Wallet dump created by fluxd-rust" ++ newline
      ++ ascii_bytes "# * Created on " ++ WALLET_DUMP_EPOCH ++ newline ++ newline
      ++ flat_map dump_line (merge_sort dump_order (own ++ reserve)) ++ sapling
      ++ ascii_bytes "# End of dump" ++ newline).
End dump.
