(* ===== verification/WalletOps.v ===== *)
(** * What changes a wallet ([node/src/wallet.rs])

    Imports, labels, the keypool, the history of transactions, sapling keys,
    the scan of the chain for notes, and the backup.  An operation changes
    the wallet, saves it, and puts back what it changed when the file cannot
    be written; the revision counts the changes that were saved. *)

From S2P Require Import Prelude Consensus Rewards Encoding Hashing Address Transaction Block Script Storage FlatFiles ChainIndex HeaderChain Payees FluxnodeChecks Ledger BlockConnect Mempool Wallet WalletScripts.
From Stdlib Require Import ZArith Lia.
From stdpp Require Import base list option numbers strings gmap sets sorting.
#[local] Open Scope Z_scope.

Section ops.
  Context {H : Hashes} {S256 : Secp} {Rc : Recovery} {SK : SecretKeys} {C : Cipher} {SA : SaplingKeys}.
  Context {T : ShieldedTrees} {SW : SaplingWitnesses} {M : Machine}.

Definition bump_revision (w : Wallet) : Wallet := set_revision (saturating_succ (w_revision w)) w.
(** Save, or undo and fail; then count the change. *)
Definition save_or (undo : Wallet -> Wallet) : wallet_op unit := _ ← or_undo save undo; modify bump_revision.
Definition update_ring (f : KeyRing -> KeyRing) (w : Wallet) : Wallet := set_ring (f (w_ring w)) w.
Definition update_scripts (f : KnownScripts -> KnownScripts) (w : Wallet) : Wallet := set_scripts (f (w_scripts w)) w.

(** ** Labels, fee, locked outpoints *)
Definition set_labels (labels : gmap bytes bytes) (s : KnownScripts) : KnownScripts :=
  mkScripts (ws_watch_scripts s) (ws_redeem_scripts s) labels.
Definition update_labels (f : gmap bytes bytes -> gmap bytes bytes) : Wallet -> Wallet :=
  update_scripts (fun s => set_labels (f (ws_address_labels s)) s).
(** What [insert] or [remove] took from the map, put back. *)
Definition put_back {V : Type} (key : bytes) (prev : option V) (m : gmap bytes V) : gmap bytes V :=
  match prev with Some prev => <[key := prev]> m | None => delete key m end.
Definition set_label_for_script_pubkey (script_pubkey label : bytes) : wallet_op unit :=
  w ← wallet;
  let prev := ws_address_labels (w_scripts w) !! script_pubkey in
  if bool_decide (label = []) then
    match prev with
    | None => mret tt
    | Some _ =>
        _ ← modify (update_labels (delete script_pubkey));
        save_or (update_labels (put_back script_pubkey prev))
    end
  else if bool_decide (prev = Some label) then mret tt
  else
    _ ← modify (update_labels (insert script_pubkey label));
    save_or (update_labels (put_back script_pubkey prev)).
Definition set_pay_tx_fee_per_kb (fee : Z) : wallet_op unit :=
  w ← wallet;
  _ ← modify (set_fee fee);
  save_or (set_fee (w_pay_tx_fee_per_kb w)).
Definition lock_outpoint (o : OutPoint) : wallet_op unit := modify (fun w => set_locked_outpoints ({[o]} ∪ w_locked_outpoints w) w).
Definition unlock_outpoint (o : OutPoint) : wallet_op unit := modify (fun w => set_locked_outpoints (w_locked_outpoints w ∖ {[o]}) w).
Definition unlock_all_outpoints : wallet_op unit := modify (set_locked_outpoints ∅).

(** ** The history *)
(** A transaction enters the history; whether it is new. *)
Definition enter_history (now : Z) (txid : Hash256) (h : TxHistory) : TxHistory * bool :=
  if bool_decide (txid ∈ th_history h) then (h, false)
  else
    (mkHistory ({[txid]} ∪ th_history h)
       (match th_received_at h !! txid with Some _ => th_received_at h | None => <[txid := now]> (th_received_at h) end)
       (th_store h) (th_values h), true).
Definition store_raw (txid : Hash256) (raw : bytes) (h : TxHistory) : TxHistory * bool :=
  if bool_decide (th_store h !! txid = Some raw) then (h, false)
  else (mkHistory (th_history h) (th_received_at h) (<[txid := raw]> (th_store h)) (th_values h), true).
Definition enter_transaction (now : Z) (tx : Hash256 * bytes) (hc : TxHistory * bool) : TxHistory * bool :=
  let '(h, changed) := hc in
  let '(h, entered) := enter_history now tx.1 h in
  let '(h, stored) := store_raw tx.1 tx.2 h in
  (h, changed || entered || stored).
Definition merge_value (kv : bytes * bytes) (ec : gmap bytes bytes * bool) : gmap bytes bytes * bool :=
  let '(entry, changed) := ec in
  if bool_decide (kv.2 = []) then ec
  else if bool_decide (entry !! kv.1 = Some kv.2) then ec
  else (<[kv.1 := kv.2]> entry, true).
Definition merge_values (txid : Hash256) (values : gmap bytes bytes) (hc : TxHistory * bool) : TxHistory * bool :=
  let '(h, changed) := hc in
  if bool_decide (values = ∅) then hc
  else
    let '(entry, changed) := foldl (fun ec kv => merge_value kv ec) (default ∅ (th_values h !! txid), changed) (btree_iter hash_order values) in
    (mkHistory (th_history h) (th_received_at h) (th_store h)
       (if bool_decide (entry = ∅) then delete txid (th_values h) else <[txid := entry]> (th_values h)), changed).
Definition save_if (changed : bool) : wallet_op unit := if changed then _ ← save; modify bump_revision else mret tt.
Definition record_txids (txids : list Hash256) : wallet_op nat :=
  now ← current_unix_seconds;
  w ← wallet;
  let h := foldl (fun h txid => fst (enter_history now txid h)) (w_history w) txids in
  _ ← modify (set_history h);
  let added := (base.size (th_history h) - base.size (th_history (w_history w)))%nat in
  _ ← save_if (0 <? added)%nat;
  mret added.
Definition record_transactions (transactions : list (Hash256 * bytes)) : wallet_op nat :=
  now ← current_unix_seconds;
  w ← wallet;
  let '(h, changed) := foldl (fun hc tx => enter_transaction now tx hc) (w_history w, false) transactions in
  _ ← modify (set_history h);
  let added := (base.size (th_history h) - base.size (th_history (w_history w)))%nat in
  _ ← save_if changed;
  mret added.
Definition record_transaction_with_values (txid : Hash256) (raw : bytes) (values : gmap bytes bytes) : wallet_op unit :=
  now ← current_unix_seconds;
  w ← wallet;
  let '(h, changed) := merge_values txid values (enter_transaction now (txid, raw) (w_history w, false)) in
  _ ← modify (set_history h);
  save_if changed.
Definition record_transaction (txid : Hash256) (raw : bytes) : wallet_op unit := record_transaction_with_values txid raw ∅.

(** ** Imports *)
Definition update_keys (f : list WalletKey -> list WalletKey) : Wallet -> Wallet :=
  update_ring (fun r => set_keys (f (kr_keys r)) r).
Definition import_wif (text : bytes) : wallet_op unit :=
  _ ← require_unlocked;
  w ← wallet;
  '(secret, compressed) ← of_result (map_err (fun _ => InvalidWallet "invalid wif") (wif_to_secret_key text (w_network w)));
  key ← of_result (from_secret secret compressed);
  if has_key_hash (w_ring w) (wk_hash key) then mret tt
  else
    let prev_len := length (kr_keys (w_ring w)) in
    _ ← modify (update_keys (fun l => l ++ [key]));
    save_or (update_keys (take prev_len)).
Definition set_watch_scripts (watch : list bytes) (s : KnownScripts) : KnownScripts :=
  mkScripts watch (ws_redeem_scripts s) (ws_address_labels s).
Definition import_watch_script_pubkey (script_pubkey : bytes) : wallet_op unit :=
  w ← wallet;
  if existsb (fun spk => bool_decide (spk = script_pubkey)) (all_script_pubkeys w) then mret tt
  else if existsb (fun spk => bool_decide (spk = script_pubkey)) (ws_watch_scripts (w_scripts w)) then mret tt
  else
    _ ← modify (update_scripts (fun s => set_watch_scripts (ws_watch_scripts s ++ [script_pubkey]) s));
    save_or (update_scripts (fun s => set_watch_scripts (take (length (ws_watch_scripts s) - 1) (ws_watch_scripts s)) s)).
Definition update_redeem (f : gmap bytes bytes -> gmap bytes bytes) : Wallet -> Wallet :=
  update_scripts (fun s => mkScripts (ws_watch_scripts s) (f (ws_redeem_scripts s)) (ws_address_labels s)).
Definition import_redeem_script (redeem_script : bytes) : wallet_op unit :=
  let hash := hash160 redeem_script in
  w ← wallet;
  let prev := ws_redeem_scripts (w_scripts w) !! hash in
  if bool_decide (prev = Some redeem_script) then mret tt
  else
    _ ← modify (update_redeem (insert hash redeem_script));
    save_or (update_redeem (put_back hash prev)).

(** ** The keypool *)
Fixpoint generate_key_loop (tries : nat) (compressed : bool) (r : KeyRing) : wallet_op WalletKey :=
  match tries with
  | O => failing (InvalidWallet "failed to generate secret key")
  | Datatypes.S tries =>
      seed ← fill_bytes 32;
      match from_secret seed compressed with
      | Ok key => if has_key_hash r (wk_hash key) then generate_key_loop tries compressed r else mret key
      | Err InvalidSecretKey => generate_key_loop tries compressed r
      | Err e => failing e
      | Panic => of_result Panic
      end
  end.
Definition generate_unique_key (compressed : bool) : wallet_op WalletKey :=
  w ← wallet; generate_key_loop 100 compressed (w_ring w).
Definition update_pool (f : list KeyPoolEntry -> list KeyPoolEntry) : Wallet -> Wallet :=
  update_ring (fun r => set_keypool (f (kr_keypool r)) r).
(** [count] keys are put at the end of the pool. *)
Fixpoint fill_keypool (count : nat) : wallet_op unit :=
  match count with
  | O => mret tt
  | Datatypes.S count =>
      key ← generate_unique_key true;
      created_at ← current_unix_seconds;
      _ ← modify (update_pool (fun l => l ++ [mkPoolEntry key created_at]));
      fill_keypool count
  end.
Definition refill_keypool (newsize : nat) : wallet_op unit :=
  _ ← require_unlocked;
  w ← wallet;
  let prev_len := length (kr_keypool (w_ring w)) in
  if (newsize <=? prev_len)%nat then mret tt
  else
    _ ← fill_keypool (newsize - prev_len);
    save_or (update_pool (take prev_len)).
Definition ensure_keypool_minimum (target : nat) : wallet_op nat :=
  w ← wallet;
  let missing := (target - length (kr_keypool (w_ring w)))%nat in
  _ ← fill_keypool missing;
  mret missing.
Definition update_change (f : gset bytes -> gset bytes) : Wallet -> Wallet :=
  update_ring (fun r => set_change_key_hashes (f (kr_change_key_hashes r)) r).
(** The oldest key of the pool, taken out of it. *)
Definition pop_keypool (compressed : bool) : wallet_op (option KeyPoolEntry) :=
  w ← wallet;
  if compressed then
    _ ← modify (update_pool (drop 1)); mret (head (kr_keypool (w_ring w)))
  else mret None.
(** What a failed save takes back. *)
Definition unreserve (prev_key_len added : nat) (popped : option KeyPoolEntry) (change_added : option bytes) (w : Wallet) : Wallet :=
  let w := update_keys (take prev_key_len) w in
  let w := update_pool (fun l => take (length l - added) l) w in
  let w := match popped with Some entry => update_pool (cons entry) w | None => w end in
  match change_added with Some key_hash => update_change (fun s => s ∖ {[key_hash]}) w | None => w end.
Definition reserve_from_keypool_or_generate (compressed is_change : bool) : wallet_op bytes :=
  w ← wallet;
  let prev_key_len := length (kr_keys (w_ring w)) in
  popped ← pop_keypool compressed;
  reserved ← match popped with
             | Some entry => mret (kp_key entry)
             | None => _ ← require_unlocked; generate_unique_key compressed
             end;
  can ← can_generate_keys;
  added ← (if can : bool then ensure_keypool_minimum DEFAULT_KEYPOOL_SIZE else mret O);
  w ← wallet;
  address ← of_result (address reserved (w_network w));
  let change_added :=
    if (is_change : bool) && negb (bool_decide (wk_hash reserved ∈ kr_change_key_hashes (w_ring w)))
    then Some (wk_hash reserved) else None in
  _ ← (match change_added with Some key_hash => modify (update_change (union {[key_hash]})) | None => mret tt end);
  _ ← modify (update_keys (fun l => l ++ [reserved]));
  _ ← save_or (unreserve prev_key_len added popped change_added);
  mret address.
Definition generate_new_address (compressed : bool) : wallet_op bytes := reserve_from_keypool_or_generate compressed false.
Definition generate_new_change_address (compressed : bool) : wallet_op bytes := reserve_from_keypool_or_generate compressed true.

(** ** Sapling keys *)
Definition update_sapling (f : list SaplingKeyEntry -> list SaplingKeyEntry) : Wallet -> Wallet :=
  update_ring (fun r => set_sapling_keys (f (kr_sapling_keys r)) r).
Definition update_viewing (f : list SaplingViewingKeyEntry -> list SaplingViewingKeyEntry) : Wallet -> Wallet :=
  update_ring (fun r => set_viewing_keys (f (kr_sapling_viewing_keys r)) r).
Definition set_next_index (index : Z) (e : SaplingKeyEntry) : SaplingKeyEntry :=
  mkSaplingKey (sk_extfvk e) (sk_extsk e) (le_bytes INDEX_BYTES index).
Definition add_master_key : wallet_op unit :=
  _ ← require_unlocked;
  seed ← fill_bytes 32;
  let extsk := ExtendedSpendingKey_master seed in
  extfvk ← of_result (sapling_extfvk_from_extsk extsk);
  modify (update_sapling (fun l => l ++ [mkSaplingKey extfvk (Some extsk) (zeros INDEX_BYTES)])).
Definition generate_new_sapling_address_bytes : wallet_op bytes :=
  w ← wallet;
  let added_key := bool_decide (kr_sapling_keys (w_ring w) = []) in
  _ ← (if added_key then add_master_key else mret tt);
  w ← wallet;
  entry ← of_result (ok_or (head (kr_sapling_keys (w_ring w))) (InvalidWallet "sapling key state missing"));
  dfvk ← of_result (viewing_key (sk_extfvk entry));
  '(found, address) ← of_result (ok_or (find_address dfvk (from_le (sk_next_index entry)))
                                   (InvalidWallet "sapling diversifier space exhausted"));
  next ← of_result (ok_or (increment found) (InvalidWallet "sapling diversifier index overflow"));
  _ ← modify (update_sapling (alter (set_next_index next) O));
  _ ← save_or (update_sapling (fun l => if added_key then [] else <[O := entry]> l));
  mret address.
Definition import_sapling_extsk (extsk : bytes) : wallet_op bool :=
  _ ← require_unlocked;
  extfvk ← of_result (sapling_extfvk_from_extsk extsk);
  w ← wallet;
  if existsb (fun e => bool_decide (sk_extfvk e = extfvk)) (kr_sapling_keys (w_ring w)) then mret false
  else
    let prev_len := length (kr_sapling_keys (w_ring w)) in
    _ ← modify (update_sapling (fun l => l ++ [mkSaplingKey extfvk (Some extsk) (zeros INDEX_BYTES)]));
    _ ← save_or (update_sapling (take prev_len));
    mret true.
Definition import_sapling_extfvk (extfvk : bytes) : wallet_op bool :=
  _ ← of_result (viewing_key extfvk);
  w ← wallet;
  if existsb (fun e => bool_decide (vk_extfvk e = extfvk)) (kr_sapling_viewing_keys (w_ring w)) then mret false
  else
    next ← of_result (ok_or (increment (default_address_index extfvk)) (InvalidWallet "sapling diversifier index overflow"));
    let prev_len := length (kr_sapling_viewing_keys (w_ring w)) in
    _ ← modify (update_viewing (fun l => l ++ [mkViewingKey extfvk (le_bytes INDEX_BYTES next)]));
    _ ← save_or (update_viewing (take prev_len));
    mret true.

(** ** Sapling notes *)
Definition set_rseed (rseed : option SaplingRseedBytes) (n : SaplingNoteRecord) : SaplingNoteRecord :=
  mkNote (nr_address n) (nr_value n) (nr_height n) (nr_position n) (nr_nullifier n) rseed.
Definition set_notes (notes : gmap SaplingNoteKey SaplingNoteRecord) (s : SaplingScan) : SaplingScan :=
  mkScan (ss_height s) (ss_hash s) (ss_next_position s) notes (ss_tree s) (ss_witnesses s).
Definition update_note (key : SaplingNoteKey) (f : SaplingNoteRecord -> SaplingNoteRecord) (w : Wallet) : Wallet :=
  set_scan (set_notes (alter f key (ss_notes (w_scan w))) (w_scan w)) w.
Definition backfill_sapling_note_rseed (key : SaplingNoteKey) (rseed : SaplingRseedBytes) : wallet_op bool :=
  w ← wallet;
  match ss_notes (w_scan w) !! key with
  | None => mret false
  | Some note =>
      if bool_decide (is_Some (nr_rseed note)) then mret false
      else
        _ ← modify (update_note key (set_rseed (Some rseed)));
        _ ← save_or (update_note key (set_rseed None));
        mret true
  end.
Definition reset_sapling_scan : wallet_op unit :=
  w ← wallet;
  _ ← modify (set_scan no_scan);
  save_or (set_scan (w_scan w)).

(** *** Scanning the chain *)
Record SaplingScanKey := mkScanKey { sc_extfvk : bytes }.
Definition sapling_scan_keys (r : KeyRing) : result WalletError (list SaplingScanKey) :=
  collect (fun extfvk => k ← viewing_key extfvk; Ok (mkScanKey k))
    (map sk_extfvk (kr_sapling_keys r) ++ map vk_extfvk (kr_sapling_viewing_keys r)).
Definition rseed_of (r : bool * bytes) : SaplingRseedBytes := if r.1 then AfterZip212 r.2 else BeforeZip212 r.2.
Fixpoint scan_sapling_output (keys : list SaplingScanKey) (output : OutputDescription) (position height : Z)
    : option SaplingNoteRecord :=
  match keys with
  | [] => None
  | key :: keys =>
      match try_sapling_note_decryption (sc_extfvk key) output with
      | None => scan_sapling_output keys output position height
      | Some note =>
          if i64_max <? sn_value note then scan_sapling_output keys output position height
          else
            Some (mkNote (sn_recipient note) (sn_value note) height position (note_nullifier (sc_extfvk key) note position)
                    (Some (rseed_of (sn_rseed note))))
      end
  end.
Definition scan_state : wallet_op SaplingScan := w ← wallet; mret (w_scan w).
Definition modify_scan (f : SaplingScan -> SaplingScan) : wallet_op unit := modify (fun w => set_scan (f (w_scan w)) w).
Definition set_tree (tree : SaplingTree) (s : SaplingScan) : SaplingScan :=
  mkScan (ss_height s) (ss_hash s) (ss_next_position s) (ss_notes s) tree (ss_witnesses s).
Definition set_witnesses (witnesses : gmap SaplingNoteKey Witness) (s : SaplingScan) : SaplingScan :=
  mkScan (ss_height s) (ss_hash s) (ss_next_position s) (ss_notes s) (ss_tree s) witnesses.
Definition set_next_position (position : Z) (s : SaplingScan) : SaplingScan :=
  mkScan (ss_height s) (ss_hash s) position (ss_notes s) (ss_tree s) (ss_witnesses s).
Definition set_scanned (height : Z) (hash : Hash256) (s : SaplingScan) : SaplingScan :=
  mkScan height hash (ss_next_position s) (ss_notes s) (ss_tree s) (ss_witnesses s).
Definition append_to (node : SaplingNode) (kv : SaplingNoteKey * Witness) : result WalletError unit * (SaplingNoteKey * Witness) :=
  match witness_append node kv.2 with
  | Some witness => (Ok tt, (kv.1, witness))
  | None => (Err (InvalidWallet "sapling witness append failed"), kv)
  end.
Definition append_witnesses (node : SaplingNode) : wallet_op unit :=
  s ← scan_state;
  let '(r, witnesses) := for_each_mut (append_to node) (btree_iter note_order (ss_witnesses s)) in
  _ ← modify_scan (set_witnesses (insert_all witnesses));
  of_result r.
Definition add_note (key : SaplingNoteKey) (record : SaplingNoteRecord) (witness : Witness) (s : SaplingScan) : SaplingScan :=
  match ss_notes s !! key with
  | None => set_witnesses (<[key := witness]> (ss_witnesses s)) (set_notes (<[key := record]> (ss_notes s)) s)
  | Some _ =>
      match ss_witnesses s !! key with
      | Some _ => s
      | None => set_witnesses (<[key := witness]> (ss_witnesses s)) s
      end
  end.
Definition scan_output (keys : list SaplingScanKey) (txid : Hash256) (height : Z) (io : Z * OutputDescription) : wallet_op unit :=
  let '(out_index, output) := io in
  s ← scan_state;
  let position := ss_next_position s in
  node ← of_result (ok_or (sapling_node_from_hash (od_cm output)) (InvalidWallet "invalid sapling note commitment"));
  tree ← of_result (ok_or (sapling_append node (ss_tree s)) (InvalidWallet "sapling tree append failed"));
  _ ← modify_scan (set_tree tree);
  _ ← append_witnesses node;
  _ ← modify_scan (set_next_position (Z.min (position + 1) u64_max));
  match scan_sapling_output keys output position height with
  | None => mret tt
  | Some record =>
      witness ← of_result (ok_or (witness_from_tree tree) (InvalidWallet "sapling witness state missing"));
      modify_scan (add_note (txid, out_index) record witness)
  end.
Fixpoint for_each {A} (f : A -> wallet_op unit) (l : list A) : wallet_op unit :=
  match l with [] => mret tt | a :: l => _ ← f a; for_each f l end.
Fixpoint enumerate_from {A} (i : Z) (l : list A) : list (Z * A) :=
  match l with [] => [] | a :: l => (wrap_u32 i, a) :: enumerate_from (i + 1) l end.
Definition scan_transaction (keys : list SaplingScanKey) (height : Z) (tx : Transaction) : wallet_op unit :=
  id ← of_result (map_err (fun _ => InvalidWallet "invalid transaction encoding") (txid tx));
  for_each (scan_output keys id height) (enumerate_from 0 (shielded_outputs tx)).
Definition scan_block (keys : list SaplingScanKey) (height : Z) (hash : Hash256) (block : Block) : wallet_op unit :=
  _ ← for_each (scan_transaction keys height) (transactions block);
  modify_scan (set_scanned height hash).

(** ** The backup *)
Definition file_exists (path : Path) : wallet_op bool := fun s => (Ok (bool_decide (is_Some (wd_disk s.2 !! path))), s).
Definition backup_to (destination : Path) : wallet_op unit :=
  w ← wallet;
  if bool_decide (destination = w_path w) then failing (InvalidWallet "backup destination must differ from wallet.dat")
  else if is_directory destination then failing (InvalidWallet "backup destination is a directory")
  else
    exists_ ← file_exists (w_path w);
    _ ← (if exists_ : bool then mret tt else save);
    data ← fs_read (w_path w);
    data ← of_result (ok_or data Io);
    write_file_atomic destination data.

(** ** The chain *)
  Context {S : Type} {KV : KeyValueStore S}.
  Context (chain : ChainState S).
  #[local] Notation from_chain := (map_err WalletChainState).
(** The caches the chain state fills while it answers are not kept. *)
Definition chain_tip : result WalletError (option ChainTip) := from_chain (map_err ChainStore (best_block (cs_store chain))).
Definition chain_hash (height : Z) : result WalletError (option Hash256) :=
  from_chain (map_err ChainStore (height_hash (cs_store chain) height)).
Definition chain_trees : result WalletError ShieldedTreesCache := from_chain (shielded_cache chain).1.
Definition read_block_by_hash (hash : Hash256) : result WalletError Block :=
  location ← from_chain (block_location (cs_store chain) hash);
  location ← ok_or location (InvalidWallet "missing block location for wallet scan");
  data ← from_chain (read_block chain location);
  map_err (fun _ => InvalidWallet "invalid block bytes") (block_consensus_decode data).
(** Heights up to the tip, [count] of them. *)
Fixpoint scan_heights (keys : list SaplingScanKey) (count : nat) (height : Z) : wallet_op unit :=
  match count with
  | O => mret tt
  | Datatypes.S count =>
      hash ← of_result (chain_hash height);
      hash ← of_result (ok_or hash (InvalidWallet "missing block hash for wallet scan"));
      block ← of_result (read_block_by_hash hash);
      _ ← scan_block keys height hash block;
      scan_heights keys count (height + 1)
  end.
Definition ensure_sapling_scan_initialized_to_tip : wallet_op unit :=
  w ← wallet;
  if (0 <=? ss_height (w_scan w)) || negb (bool_decide (ss_notes (w_scan w) = ∅)) then mret tt
  else
    tip ← of_result chain_tip;
    match tip with
    | None => mret tt
    | Some tip =>
        trees ← of_result chain_trees;
        tree ← of_result (ok_or (sapling_tree_from_bytes (tc_sapling_bytes trees)) (InvalidWallet "invalid sapling tree encoding"));
        _ ← modify_scan (fun s => mkScan (tip_height tip) (tip_hash tip) (sapling_tree_size (tc_sapling_tree trees)) (ss_notes s) tree ∅);
        save_or (fun w' => set_scan (set_notes (ss_notes (w_scan w')) (w_scan w)) w')
    end.
(** The scan has to start over: its tree or its witnesses do not fit, or the
    block it stopped at is no longer on the chain. *)
Definition needs_full_rescan (s : SaplingScan) : result WalletError bool :=
  if ss_height s <? 0 then Ok false
  else if negb (sapling_tree_size (ss_tree s) =? ss_next_position s)
       || negb (Nat.eqb (base.size (ss_witnesses s)) (base.size (ss_notes s)))
  then Ok true
  else
    best ← chain_hash (ss_height s);
    Ok (negb (bool_decide (best = Some (ss_hash s)))).
Definition scan_changed (prev s : SaplingScan) : bool :=
  negb (ss_height s =? ss_height prev) || negb (bool_decide (ss_hash s = ss_hash prev))
  || negb (ss_next_position s =? ss_next_position prev) || negb (bool_decide (ss_notes s = ss_notes prev))
  || negb (bool_decide (ss_tree s = ss_tree prev)) || negb (bool_decide (dom (ss_witnesses s) = dom (ss_witnesses prev))).
Definition sync_sapling_notes : wallet_op unit :=
  w ← wallet;
  if bool_decide (kr_sapling_keys (w_ring w) = []) && bool_decide (kr_sapling_viewing_keys (w_ring w) = []) then mret tt
  else
    tip ← of_result chain_tip;
    match tip with
    | None => mret tt
    | Some tip =>
        let prev := w_scan w in
        _ ← (if ss_height prev <? 0
             then modify_scan (fun s => mkScan (ss_height s) (zeros 32) 0 (ss_notes s) empty_sapling_tree ∅) else mret tt);
        keys ← of_result (sapling_scan_keys (w_ring w));
        s ← scan_state;
        rescan ← of_result (needs_full_rescan s);
        _ ← (if rescan : bool then modify_scan (fun _ => no_scan) else mret tt);
        s ← scan_state;
        _ ← scan_heights keys (Z.to_nat (tip_height tip - ss_height s)) (ss_height s + 1);
        s ← scan_state;
        if scan_changed prev s then save_or (set_scan prev) else mret tt
    end.
End ops.
