(* ===== verification/WalletFile.v ===== *)
(** * The file of a wallet and its secrets

    What [save] leaves on the disk reads back as the wallet, the blob of the
    secrets gives every key its secret again, and a wallet that was encrypted
    opens with its passphrase and with the keys it had. *)

From S2P Require Import Prelude Consensus Rewards Encoding Hashing Address Transaction Script Storage HeaderChain Payees FluxnodeChecks Ledger Mempool Wallet.
From Stdlib Require Import ZArith Lia.
From stdpp Require Import base list option numbers strings gmap sets sorting.
#[local] Open Scope Z_scope.

(** What the secp256k1 crate documents of its keys. *)
Class SecretKeysLaws `(SecretKeys) : Prop := {
  serialize_length k : length (serialize k) = 33%nat;
  serialize_uncompressed_length k : length (serialize_uncompressed k) = 65%nat;
  serialize_parses k : PublicKey_from_slice (serialize k) = Some k;
  serialize_uncompressed_parses k : PublicKey_from_slice (serialize_uncompressed k) = Some k }.

(** ** Ordered iteration *)
Section iteration.
  Context {K V : Type} `{Countable K} (R : K -> K -> Prop) `{!RelDecision R}.

Lemma btree_iter_perm (m : gmap K V) : btree_iter R m ≡ₚ map_to_list m.
Proof. apply merge_sort_Permutation. Qed.
Lemma insert_all_eq (l : list (K * V)) : insert_all l = list_to_map (reverse l).
Proof.
  unfold insert_all. induction l as [|[k v] l IH] using rev_ind; [done|].
  rewrite foldl_app, reverse_snoc. cbn. by rewrite IH.
Qed.
Lemma insert_all_iter (m : gmap K V) : insert_all (btree_iter R m) = m.
Proof.
  rewrite insert_all_eq. assert (reverse (btree_iter R m) ≡ₚ map_to_list m) as Hp.
  { by rewrite reverse_Permutation, btree_iter_perm. }
  rewrite <- (list_to_map_to_list m) at 2. apply list_to_map_proper; [|done]. rewrite Hp. apply NoDup_fst_map_to_list.
Qed.
Lemma btree_iter_forall (P : K -> V -> Prop) (m : gmap K V) :
  map_Forall P m -> Forall (fun kv => P kv.1 kv.2) (btree_iter R m).
Proof.
  intros Hm. rewrite btree_iter_perm. apply Forall_forall. intros [k v] Hkv. apply Hm. by apply elem_of_map_to_list.
Qed.
Lemma btree_iter_length (m : gmap K V) : length (btree_iter R m) = base.size m.
Proof. rewrite btree_iter_perm. by rewrite length_map_to_list. Qed.
Lemma filter_all {A} (f : A -> bool) l : Forall (fun a => f a = true) l -> List.filter f l = l.
Proof. induction 1 as [|a l Ha _ IH]; [done|]. cbn. by rewrite Ha, IH. Qed.
End iteration.
Lemma btree_items_set (s : gset bytes) : list_to_set (btree_items s) = s.
Proof. apply set_eq. intros x. rewrite elem_of_list_to_set. unfold btree_items. rewrite merge_sort_Permutation. apply elem_of_elements. Qed.
Lemma btree_items_forall (P : bytes -> Prop) (s : gset bytes) : set_Forall P s -> Forall P (btree_items s).
Proof.
  intros Hs. unfold btree_items. rewrite merge_sort_Permutation. apply Forall_forall. intros x Hx. apply Hs. by apply elem_of_elements.
Qed.
Definition fits_size (n : nat) : Prop := Z.of_nat n <= MAX_COMPACT_SIZE.
#[global] Instance fits_size_dec n : Decision (fits_size n).
Proof. unfold fits_size. apply _. Defined.
Lemma btree_items_length (s : gset bytes) : length (btree_items s) = base.size s.
Proof. unfold btree_items. by rewrite merge_sort_Permutation. Qed.

(** ** Lists of the file *)
Lemma read_file_count_reads msg (n : nat) : fits_size n -> reads (read_file_count msg) (write_varint (Z.of_nat n)) n.
Proof.
  unfold fits_size. intros Hn. eapply reads_bind_nil; [apply reads_lift, read_varint_reads; lia|]. cbv beta.
  replace (Z.of_nat n <=? u64_max) with true by (symmetry; apply Z.leb_le; unfold MAX_COMPACT_SIZE, u64_max in *; lia).
  rewrite Nat2Z.id. apply reads_ret.
Qed.
Lemma read_n_each {E A} (m : parser E A) encoded l :
  Forall2 (fun e a => reads m e a) encoded l -> reads (read_n (length l) m) (concat encoded) l.
Proof.
  induction 1 as [|e a encoded l He _ IH]; cbn [length read_n concat]; [apply reads_ret|].
  eapply reads_bind; [exact He|]. eapply reads_bind_nil; [exact IH|]. apply reads_ret.
Qed.
Lemma read_entries_each {A} msg (m : parser WalletError A) encoded l :
  fits_size (length l) -> Forall2 (fun e a => reads m e a) encoded l ->
  reads (read_entries msg m) (write_varint (Z.of_nat (length encoded)) ++ concat encoded) l.
Proof.
  intros Hf Hl. rewrite (Forall2_length _ _ _ Hl). eapply reads_bind; [by apply read_file_count_reads|]. by apply read_n_each.
Qed.
(** Elements that read back as [f] of them. *)
Lemma read_entries_as {A D} msg (m : parser WalletError D) (enc : A -> bytes) (f : A -> D) (R : A -> Prop) l :
  (forall a, R a -> reads m (enc a) (f a)) -> fits_size (length l) -> Forall R l ->
  reads (read_entries msg m) (write_entries enc l) (map f l).
Proof.
  intros Hm Hf Hl. unfold write_entries, write_list. rewrite <- (length_map enc l). apply read_entries_each; [by rewrite length_map|].
  apply Forall2_fmap_l, Forall2_fmap_r. induction Hl as [|a l Ha _ IH]; constructor; [by apply Hm|].
  apply IH. unfold fits_size in *. cbn in Hf. lia.
Qed.
Lemma read_entries_reads {A} msg (m : parser WalletError A) (enc : A -> bytes) (R : A -> Prop) l :
  (forall a, R a -> reads m (enc a) a) -> fits_size (length l) -> Forall R l ->
  reads (read_entries msg m) (write_entries enc l) l.
Proof. intros Hm Hf Hl. rewrite <- (map_id l) at 2. by apply read_entries_as with R. Qed.
Lemma read_fixed_file_reads n v : array n v -> reads (read_fixed_file n) (write_bytes v) v.
Proof. intros Hv. by apply reads_lift, read_fixed_reads. Qed.
Lemma read_var_file_reads v : fits_compact v -> reads read_var_file (write_var_bytes v) v.
Proof. intros Hv. by apply reads_lift, read_var_bytes_reads. Qed.
Lemma read_since_reads {A} version first (m : parser WalletError A) o bs a :
  first <= version -> reads m bs a -> reads (read_since version first m o) bs a.
Proof. intros Hv Hm. unfold read_since. by apply Z.leb_le in Hv as ->. Qed.
Lemma read_text_reads msg s : str_ok s -> reads (read_text msg) (write_var_bytes s) s.
Proof.
  intros [[Hf _] Hu]. eapply reads_bind_nil; [by apply read_var_file_reads|]. cbv beta. rewrite Hu. apply reads_ret.
Qed.
Lemma parse_reads {A} (r : result WalletError A) a : r = Ok a -> reads (parse r) [] a.
Proof. intros -> d rest _. unfold parse. cbn. by rewrite advance_0. Qed.
Lemma read_hash_set_reads (n : nat) (msg : string) (s : gset bytes) :
  set_Forall (array n) s -> fits_size (base.size s) -> reads (read_hashes n msg) (write_entries write_bytes (btree_items s)) s.
Proof.
  intros Hs Hf. eapply reads_bind_nil.
  - apply read_entries_reads with (array n); [apply read_fixed_file_reads|by rewrite btree_items_length|by apply btree_items_forall].
  - rewrite btree_items_set. apply reads_ret.
Qed.
Lemma read_map_reads {K V} `{Countable K} (R : K -> K -> Prop) `{!RelDecision R} msg (m : parser WalletError (K * V)) enc
    (P : K -> V -> Prop) (mp : gmap K V) :
  (forall k v, P k v -> reads m (enc (k, v)) (k, v)) -> map_Forall P mp -> fits_size (base.size mp) ->
  reads (read_entries msg m) (write_entries enc (btree_iter R mp)) (btree_iter R mp).
Proof.
  intros Hm Hp Hf. apply read_entries_reads with (fun kv => P kv.1 kv.2).
  - intros [k v]. apply Hm.
  - by rewrite btree_iter_length.
  - by apply btree_iter_forall.
Qed.
#[local] Arguments write_bytes : simpl never.
Create HintDb wallet_codec discriminated.
#[export] Hint Resolve read_fixed_file_reads read_var_file_reads reads_lift reads_ret read_bool_reads read_u32_le_reads
  read_u64_le_reads read_i64_le_reads read_i32_le_reads read_text_reads : wallet_codec.

(** ** The blob of the secrets *)
Section secrets.
  Context {H : Hashes} {S256 : Secp} {Rc : Recovery} {SK : SecretKeys} {SL : SecretKeysLaws SK} {SA : SaplingKeys}.

(** A key as its secret makes it. *)
Definition key_open (k : WalletKey) : Prop :=
  exists secret, array 32 secret /\ from_secret secret (wk_compressed k) = Ok k.
Definition sapling_open (e : SaplingKeyEntry) : Prop :=
  exists extsk, sk_extsk e = Some extsk /\ array 169 extsk /\ sapling_extfvk_from_extsk extsk = Ok (sk_extfvk e).
Record secrets_ok (r : KeyRing) : Prop := {
  so_keys : Forall key_open (ring_keys r);
  so_keys_distinct : NoDup (map wk_hash (ring_keys r));
  so_sapling : Forall sapling_open (kr_sapling_keys r);
  so_sapling_distinct : NoDup (map sk_extfvk (kr_sapling_keys r));
  so_key_count : fits_size (length (ring_keys r));
  so_sapling_count : fits_size (length (kr_sapling_keys r)) }.

Lemma dedup_elem {A} `{EqDecision A} (l : list A) x : x ∈ dedup l <-> x ∈ l.
Proof.
  induction l as [|a [|b l] IH]; [done|done|]. change (dedup (a :: b :: l)) with
    (if bool_decide (a = b) then dedup (b :: l) else a :: dedup (b :: l)). case_bool_decide as E.
  - subst. set_solver.
  - set_solver.
Qed.
Lemma dedup_length {A} `{EqDecision A} (l : list A) : (length (dedup l) <= length l)%nat.
Proof.
  induction l as [|a [|b l] IH]; [done|done|]. change (dedup (a :: b :: l)) with
    (if bool_decide (a = b) then dedup (b :: l) else a :: dedup (b :: l)). case_bool_decide; cbn in *; lia.
Qed.
Lemma collect_Forall2 {A D} (f : A -> result WalletError D) l out :
  collect f l = Ok out <-> Forall2 (fun a d => f a = Ok d) l out.
Proof.
  revert out. induction l as [|a l IH]; intros out; cbn [collect].
  - split; [by intros [= <-]|intros Hn; by inversion Hn].
  - split.
    + intros Hc. inv_result. constructor; [done|]. by apply IH.
    + intros Hc. inversion Hc as [|? d ? out' Ha Hl]; subst. rewrite Ha. cbn. apply IH in Hl. by rewrite Hl.
Qed.
Lemma insert_all_lookup {K V} `{Countable K} (l : list (K * V)) k v :
  (k, v) ∈ l -> (forall v', (k, v') ∈ l -> v' = v) -> insert_all l !! k = Some v.
Proof.
  unfold insert_all. induction l as [|[k' v'] l IH] using rev_ind; [by intros ?%elem_of_nil|]. intros Hin Hu.
  rewrite foldl_app. cbn. destruct (decide (k' = k)) as [->|Hne].
  - rewrite lookup_insert_eq. f_equal. apply Hu. apply elem_of_app. right. by apply list_elem_of_here.
  - rewrite lookup_insert_ne by done. apply IH.
    + apply elem_of_app in Hin as [Hin|Hin%list_elem_of_singleton]; [done|]. congruence.
    + intros v'' Hv. apply Hu. apply elem_of_app. by left.
Qed.

Lemma serialize_key_length c p : length (serialize_key c p) = if c then 33%nat else 65%nat.
Proof. destruct c; [apply serialize_length|apply serialize_uncompressed_length]. Qed.
Lemma serialize_key_parses c p : PublicKey_from_slice (serialize_key c p) = Some p.
Proof. destruct c; [apply serialize_parses|apply serialize_uncompressed_parses]. Qed.
Lemma from_secret_inv secret c k : from_secret secret c = Ok k ->
  wk_secret k = Some secret /\ wk_compressed k = c /\ wk_pubkey k <> [] /\ validate_pubkey_bytes k = Ok tt.
Proof.
  unfold from_secret. destruct (SecretKey_from_slice secret); [|done]. intros [= <-].
  set (pk := PublicKey_from_secret_key secret). pose proof (serialize_key_length c pk) as Hl.
  split_and!; [done|done|intros E; cbn in E; rewrite E in Hl; by destruct c|].
  unfold validate_pubkey_bytes. cbn. rewrite bool_decide_eq_false_2; [|intros E; rewrite E in Hl; by destruct c].
  rewrite Hl, serialize_key_parses. rewrite bool_decide_eq_true_2 by done. by destruct c.
Qed.
Lemma key_open_secret k : key_open k -> exists secret, wk_secret k = Some secret /\ array 32 secret
  /\ from_secret secret (wk_compressed k) = Ok k.
Proof. intros (s&Hs&Hk). pose proof (from_secret_inv _ _ _ Hk) as (Hw&_). by exists s. Qed.
Lemma restore_open transparent missing mismatch k secret s :
  from_secret secret (wk_compressed k) = Ok k -> transparent !! wk_hash k = Some (secret, wk_compressed k) ->
  restore_key transparent missing mismatch (set_secret s k) = (Ok tt, k).
Proof.
  intros Hk Ht. pose proof (from_secret_inv _ _ _ Hk) as (Hs&_&Hp&Hv). unfold restore_key. cbn. rewrite Ht.
  rewrite bool_decide_eq_true_2 by done. cbn.
  replace (set_secret (Some secret) (set_secret s k)) with k by (destruct k; unfold set_secret; cbn in *; by subst).
  unfold ensure_pubkey_bytes. rewrite bool_decide_eq_false_2 by done. cbn. by rewrite Hv.
Qed.

Lemma read_secret_reads secret c k :
  array 32 secret -> from_secret secret c = Ok k -> reads read_secret (write_secret (secret, c)) (wk_hash k, (secret, c)).
Proof.
  intros Ha Hk. eapply reads_bind; [by apply read_fixed_file_reads|]. eapply reads_bind_nil; [apply reads_lift, read_bool_reads|].
  eapply reads_bind_nil; [by apply parse_reads|]. apply reads_ret.
Qed.
Lemma read_extsk_reads extsk extfvk :
  array 169 extsk -> sapling_extfvk_from_extsk extsk = Ok extfvk -> reads read_extsk (write_bytes extsk) (extfvk, extsk).
Proof.
  intros Ha Hk. eapply reads_bind_nil; [by apply read_fixed_file_reads|]. eapply reads_bind_nil; [by apply parse_reads|]. apply reads_ret.
Qed.
Definition hash_of_secret (s : bytes * bool) : bytes := match from_secret s.1 s.2 with Ok k => wk_hash k | _ => [] end.
Definition extfvk_of (extsk : bytes) : bytes := match sapling_extfvk_from_extsk extsk with Ok e => e | _ => [] end.
Definition secret_good (s : bytes * bool) : Prop := array 32 s.1 /\ exists k, from_secret s.1 s.2 = Ok k.
Definition extsk_good (e : bytes) : Prop := array 169 e /\ exists v, sapling_extfvk_from_extsk e = Ok v.
Lemma read_secrets_reads transparent sapling :
  Forall secret_good transparent -> Forall extsk_good sapling -> fits_size (length transparent) -> fits_size (length sapling) ->
  reads read_secrets
    (write_u32_le WALLET_SECRETS_VERSION ++ write_entries write_secret transparent ++ write_entries write_bytes sapling)
    (insert_all (map (fun s => (hash_of_secret s, s)) transparent), insert_all (map (fun e => (extfvk_of e, e)) sapling)).
Proof.
  intros Ht Hs Hlt Hls. eapply reads_bind; [apply reads_lift, read_u32_le_reads; unfold WALLET_SECRETS_VERSION; int_lia|]. cbn.
  eapply reads_bind; [|eapply reads_bind_nil].
  - eapply read_entries_as with (f := fun s => (hash_of_secret s, s)); [|done|exact Ht].
    intros [s c] [Ha [k Hk]]. unfold hash_of_secret. cbn in *. rewrite Hk. by apply read_secret_reads.
  - eapply read_entries_as with (f := fun e => (extfvk_of e, e)); [|done|exact Hs].
    intros e [Ha [v Hv]]. unfold extfvk_of. rewrite Hv. by apply read_extsk_reads.
  - apply reads_ret.
Qed.

Lemma for_each_mut_ok {A} (f : A -> result WalletError unit * A) l l' :
  Forall2 (fun a a' => f a = (Ok tt, a')) l l' -> for_each_mut f l = (Ok tt, l').
Proof. induction 1 as [|a a' l l' Ha _ IH]; [done|]. cbn. by rewrite Ha, IH. Qed.

(** What [encode_secrets_blob] made gives a ring its secrets again, whatever
    secrets were there. *)
Definition same_keys (r r' : KeyRing) : Prop := forget_secrets r = forget_secrets r'.
Lemma secret_of_forget k k' : forget_secret k' = forget_secret k -> k' = set_secret (wk_secret k') k.
Proof. destruct k, k'. unfold forget_secret, set_secret. cbn. intros Hk. injection Hk as -> -> ->. reflexivity. Qed.
Lemma restore_keys_list transparent missing mismatch l l' :
  Forall (fun k => exists s, from_secret s (wk_compressed k) = Ok k /\ transparent !! wk_hash k = Some (s, wk_compressed k)) l ->
  map forget_secret l' = map forget_secret l ->
  Forall2 (fun a a' => restore_key transparent missing mismatch a = (Ok tt, a')) l' l.
Proof.
  intros Hl. revert l'. induction Hl as [|k l (s&Hk&Ht) _ IH]; intros [|k' l'] He; try done.
  change (forget_secret k' :: map forget_secret l' = forget_secret k :: map forget_secret l) in He.
  injection He as Hk' He'. constructor; [|by apply IH]. rewrite (secret_of_forget k k').
  - by apply restore_open with s.
  - unfold forget_secret, set_secret. congruence.
Qed.
Lemma forget_ring_keys r : ring_keys (forget_secrets r) = map forget_secret (ring_keys r).
Proof. unfold ring_keys, forget_secrets. cbn. rewrite map_app, !map_map. done. Qed.
Lemma restore_pool_list transparent l l' :
  Forall (fun k => exists s, from_secret s (wk_compressed k) = Ok k /\ transparent !! wk_hash k = Some (s, wk_compressed k)) (map kp_key l) ->
  map forget_pool_secret l' = map forget_pool_secret l ->
  Forall2 (fun a a' => restore_pool_key transparent a = (Ok tt, a')) l' l.
Proof.
  revert l'. induction l as [|e l IH]; intros [|e' l'] Hl He; try done. inversion Hl as [|? ? (s&Hk&Ht) Hl']; subst.
  change (forget_pool_secret e' :: map forget_pool_secret l' = forget_pool_secret e :: map forget_pool_secret l) in He.
  injection He as Hh Hc Hp Ht' He'. constructor; [|by apply IH]. unfold restore_pool_key.
  rewrite (secret_of_forget (kp_key e) (kp_key e')) by (unfold forget_secret, set_secret; congruence).
  rewrite (restore_open _ _ _ _ s _ Hk Ht). destruct e, e'. unfold set_key. cbn in *. by subst.
Qed.
Lemma restore_sapling_list sapling l l' :
  Forall (fun e => exists x, sk_extsk e = Some x /\ sapling !! sk_extfvk e = Some x) l ->
  map (set_extsk None) l' = map (set_extsk None) l ->
  Forall2 (fun a a' => restore_sapling sapling a = (Ok tt, a')) l' l.
Proof.
  intros Hl. revert l'. induction Hl as [|e l (x&Hx&Hs) _ IH]; intros [|e' l'] He; try done.
  change (set_extsk None e' :: map (set_extsk None) l' = set_extsk None e :: map (set_extsk None) l) in He.
  injection He as Hv Hn He'. constructor; [|by apply IH]. unfold restore_sapling. rewrite Hv, Hs.
  destruct e, e'. unfold set_extsk. cbn in *. by subst.
Qed.
Lemma restore_ring_ok transparent sapling r r' :
  Forall (fun k => exists s, from_secret s (wk_compressed k) = Ok k /\ transparent !! wk_hash k = Some (s, wk_compressed k)) (ring_keys r) ->
  Forall (fun e => exists x, sk_extsk e = Some x /\ sapling !! sk_extfvk e = Some x) (kr_sapling_keys r) ->
  same_keys r' r -> restore_ring transparent sapling r' = (Ok tt, r).
Proof.
  intros [Hk Hp]%Forall_app Hs Hr. unfold same_keys, forget_secrets in Hr. injection Hr as Ek Ep Es Ev Ec. unfold restore_ring.
  rewrite (for_each_mut_ok _ (kr_keys r') (kr_keys r)) by (by apply restore_keys_list). cbn [kr_keypool set_keys kr_sapling_keys].
  rewrite (for_each_mut_ok _ (kr_keypool r') (kr_keypool r)) by (by apply restore_pool_list). cbn.
  rewrite (for_each_mut_ok _ (kr_sapling_keys r') (kr_sapling_keys r)) by (by apply restore_sapling_list).
  destruct r, r'. unfold set_sapling_keys. cbn in *. by subst.
Qed.
Lemma ring_secret_lookup r k secret transparent :
  secrets_ok r -> k ∈ ring_keys r -> from_secret secret (wk_compressed k) = Ok k ->
  Forall (fun s => exists k', k' ∈ ring_keys r /\ key_secret k' = Ok s) transparent ->
  (secret, wk_compressed k) ∈ transparent ->
  (insert_all (map (fun s => (hash_of_secret s, s)) transparent) : gmap bytes (bytes * bool)) !! wk_hash k = Some (secret, wk_compressed k).
Proof.
  intros Hr Hk Hs Ht Hin. apply insert_all_lookup.
  - apply list_elem_of_In, in_map_iff. exists (secret, wk_compressed k). split; [|by apply list_elem_of_In].
    unfold hash_of_secret. cbn. by rewrite Hs.
  - intros [s' c'] Hs'. apply list_elem_of_In, in_map_iff in Hs' as ([s'' c'']&[= Eh -> ->]&Hin'%list_elem_of_In).
    rewrite Forall_forall in Ht. destruct (Ht _ Hin') as (k'&Hk'&Hks).
    pose proof (proj1 (Forall_forall _ _) (so_keys r Hr) k' Hk') as (s1&_&Hf).
    pose proof (from_secret_inv _ _ _ Hf) as (Hw&Hc&_). unfold key_secret in Hks. rewrite Hw in Hks. cbn in Hks. injection Hks as <- <-.
    unfold hash_of_secret in Eh. cbn in Eh. rewrite Hf in Eh.
    assert (k' = k) as ->.
    { pose proof (so_keys_distinct r Hr) as Hn. apply list_elem_of_lookup in Hk as [i Hi]. apply list_elem_of_lookup in Hk' as [j Hj].
      enough (j = i) by (subst; congruence). eapply (NoDup_lookup _ _ _ (wk_hash k) Hn); rewrite list_lookup_fmap.
      - rewrite Hj. cbn. congruence.
      - by rewrite Hi. }
    pose proof (from_secret_inv _ _ _ Hs) as (Hw'&_). congruence.
Qed.
Lemma ring_sapling_lookup r e x sapling :
  secrets_ok r -> e ∈ kr_sapling_keys r -> sk_extsk e = Some x ->
  Forall (fun s => exists e', e' ∈ kr_sapling_keys r /\ sk_extsk e' = Some s) sapling -> x ∈ sapling ->
  (insert_all (map (fun x => (extfvk_of x, x)) sapling) : gmap bytes bytes) !! sk_extfvk e = Some x.
Proof.
  intros Hr He Hx Hs Hin. pose proof (proj1 (Forall_forall _ _) (so_sapling r Hr)) as Ho.
  destruct (Ho e He) as (x0&Ex&_&Hv). assert (x0 = x) as -> by congruence. apply insert_all_lookup.
  - apply list_elem_of_In, in_map_iff. exists x. split; [|by apply list_elem_of_In]. unfold extfvk_of. by rewrite Hv.
  - intros x' Hx'. apply list_elem_of_In, in_map_iff in Hx' as (x''&[= Eh ->]&Hin'%list_elem_of_In).
    rewrite Forall_forall in Hs. destruct (Hs _ Hin') as (e'&He'&Hxe). destruct (Ho e' He') as (x1&Ex1&_&Hv1).
    assert (x1 = x') as -> by congruence. unfold extfvk_of in Eh. rewrite Hv1 in Eh.
    assert (e' = e) as ->; [|congruence].
    pose proof (so_sapling_distinct r Hr) as Hn. apply list_elem_of_lookup in He as [i Hi]. apply list_elem_of_lookup in He' as [j Hj].
    enough (j = i) by (subst; congruence). eapply (NoDup_lookup _ _ _ (sk_extfvk e) Hn); rewrite list_lookup_fmap.
    + rewrite Hj. cbn. congruence.
    + by rewrite Hi.
Qed.
Lemma encode_secrets_inv r blob :
  encode_secrets_blob r = Ok blob ->
  exists transparent sapling, blob = write_u32_le WALLET_SECRETS_VERSION ++ write_entries write_secret transparent ++ write_entries write_bytes sapling
    /\ (length transparent <= length (ring_keys r))%nat /\ (length sapling <= length (kr_sapling_keys r))%nat
    /\ (forall s, s ∈ transparent <-> exists k, k ∈ ring_keys r /\ key_secret k = Ok s)
    /\ (forall x, x ∈ sapling <-> exists e, e ∈ kr_sapling_keys r /\ sk_extsk e = Some x).
Proof.
  unfold encode_secrets_blob. intros He. inv_result. apply collect_Forall2 in Hm, Hm0.
  eexists _, _. split; [by unfold write_entries; rewrite <- !app_assoc|].
  split_and!.
  - etransitivity; [apply dedup_length|]. by rewrite merge_sort_Permutation, (Forall2_length _ _ _ Hm).
  - etransitivity; [apply dedup_length|]. by rewrite merge_sort_Permutation, (Forall2_length _ _ _ Hm0).
  - intros s. rewrite dedup_elem, merge_sort_Permutation. split.
    + intros [i Hi]%list_elem_of_lookup. destruct (Forall2_lookup_r _ _ _ _ _ Hm Hi) as (k&Hk&Hs). exists k.
      split; [by eapply list_elem_of_lookup_2|done].
    + intros (k&[i Hi]%list_elem_of_lookup&Hs). destruct (Forall2_lookup_l _ _ _ _ _ Hm Hi) as (s'&Hs'&Hk).
      assert (s' = s) as -> by congruence. by eapply list_elem_of_lookup_2.
  - intros x. rewrite dedup_elem, merge_sort_Permutation. split.
    + intros [i Hi]%list_elem_of_lookup. destruct (Forall2_lookup_r _ _ _ _ _ Hm0 Hi) as (e&Hk&Hs). exists e.
      apply ok_or_Ok in Hs. split; [by eapply list_elem_of_lookup_2|done].
    + intros (e&[i Hi]%list_elem_of_lookup&Hs). destruct (Forall2_lookup_l _ _ _ _ _ Hm0 Hi) as (s'&Hs'&Hk).
      apply ok_or_Ok in Hk. assert (s' = x) as -> by congruence. by eapply list_elem_of_lookup_2.
Qed.
Lemma secrets_restored r r' blob :
  secrets_ok r -> encode_secrets_blob r = Ok blob -> same_keys r' r -> apply_secrets_blob blob r' = (Ok tt, r).
Proof.
  intros Hr He Hs. apply encode_secrets_inv in He as (transparent&sapling&->&Hlt&Hls&Ht&Hx).
  pose proof (proj1 (Forall_forall _ _) (so_keys r Hr)) as Ho. pose proof (proj1 (Forall_forall _ _) (so_sapling r Hr)) as Hso.
  pose proof (so_key_count r Hr) as Hkc. pose proof (so_sapling_count r Hr) as Hsc. unfold fits_size in *.
  assert (Forall secret_good transparent) as Hgt.
  { apply Forall_forall. intros [s c] Hin. apply Ht in Hin as (k&Hk&Hks). destruct (key_open_secret k (Ho k Hk)) as (s'&Es&Ha&Hf).
    unfold key_secret in Hks. rewrite Es in Hks. cbn in Hks. injection Hks as <- <-. split; [done|by exists k]. }
  assert (Forall extsk_good sapling) as Hgs.
  { apply Forall_forall. intros x Hin. apply Hx in Hin as (e&Hk&Ex). destruct (Hso e Hk) as (x'&Ex'&Ha&Hv).
    assert (x' = x) as -> by congruence. split; [done|by eexists]. }
  unfold apply_secrets_blob.
  rewrite (reads_decode_all _ read_secrets _ _ (read_secrets_reads transparent sapling Hgt Hgs ltac:(unfold fits_size; lia) ltac:(unfold fits_size; lia))).
  apply restore_ring_ok; [| |done]; apply Forall_forall.
  - intros k Hk. destruct (key_open_secret k (Ho k Hk)) as (s&Es&_&Hf). exists s. split; [done|].
    apply ring_secret_lookup with r; try done; [|apply Ht; exists k; split; [done|]; unfold key_secret; by rewrite Es].
    apply Forall_forall. intros s' Hs'. by apply Ht.
  - intros e Hin. destruct (Hso e Hin) as (x&Ex&_). exists x. split; [done|].
    apply ring_sapling_lookup with r; try done; [|apply Hx; by exists e]. apply Forall_forall. intros x' Hx'. by apply Hx.
Qed.
End secrets.

(** ** The file *)
Section file.
  Context {H : Hashes} {S256 : Secp} {Rc : Recovery} {SK : SecretKeys} {SL : SecretKeysLaws SK} {C : Cipher} {SA : SaplingKeys}.
  Context {T : ShieldedTrees} {SW : SaplingWitnesses} {M : Machine}.

(** *** What fits the file *)
Definition key_ok (k : WalletKey) : Prop := array 20 (wk_hash k) /\ fits_compact (wk_pubkey k) /\ validate_pubkey_bytes k = Ok tt.
Definition pool_ok (e : KeyPoolEntry) : Prop := key_ok (kp_key e) /\ is_u64 (kp_created_at e).
Definition sapling_ok (e : SaplingKeyEntry) : Prop := array 169 (sk_extfvk e) /\ array 11 (sk_next_index e).
Definition viewing_ok (e : SaplingViewingKeyEntry) : Prop := array 169 (vk_extfvk e) /\ array 11 (vk_next_index e).
Record ring_ok (r : KeyRing) : Prop := {
  ro_keys : Forall key_ok (kr_keys r); ro_key_count : fits_size (length (kr_keys r));
  ro_pool : Forall pool_ok (kr_keypool r); ro_pool_count : fits_size (length (kr_keypool r));
  ro_sapling : Forall sapling_ok (kr_sapling_keys r); ro_sapling_count : fits_size (length (kr_sapling_keys r));
  ro_viewing : Forall viewing_ok (kr_sapling_viewing_keys r); ro_viewing_count : fits_size (length (kr_sapling_viewing_keys r));
  ro_change : set_Forall (array 20) (kr_change_key_hashes r); ro_change_count : fits_size (base.size (kr_change_key_hashes r)) }.
Definition redeem_ok (hash script : bytes) : Prop := array 20 hash /\ hash160 script = hash /\ fits_compact script.
Definition label_ok (script label : bytes) : Prop := fits_compact script /\ str_ok label /\ label <> [].
Record scripts_ok (s : KnownScripts) : Prop := {
  sc_watch : Forall fits_compact (ws_watch_scripts s); sc_watch_count : fits_size (length (ws_watch_scripts s));
  sc_redeem : map_Forall redeem_ok (ws_redeem_scripts s); sc_redeem_count : fits_size (base.size (ws_redeem_scripts s));
  sc_labels : map_Forall label_ok (ws_address_labels s); sc_label_count : fits_size (base.size (ws_address_labels s)) }.
Definition value_ok (key value : bytes) : Prop := str_ok key /\ str_ok value /\ key <> [] /\ value <> [].
Definition values_ok (txid : Hash256) (values : gmap bytes bytes) : Prop :=
  array 32 txid /\ values <> ∅ /\ map_Forall value_ok values /\ fits_size (base.size values).
Record history_ok (h : TxHistory) : Prop := {
  ho_ids : set_Forall (array 32) (th_history h); ho_id_count : fits_size (base.size (th_history h));
  ho_received : map_Forall (fun id at_ => array 32 id /\ is_u64 at_) (th_received_at h);
  ho_received_count : fits_size (base.size (th_received_at h));
  ho_store : map_Forall (fun id raw => array 32 id /\ fits_compact raw) (th_store h); ho_store_count : fits_size (base.size (th_store h));
  ho_values : map_Forall values_ok (th_values h); ho_value_count : fits_size (base.size (th_values h)) }.
Definition rseed_ok (r : option SaplingRseedBytes) : Prop :=
  match r with None => True | Some (BeforeZip212 b) | Some (AfterZip212 b) => array 32 b end.
Definition note_key_ok (k : SaplingNoteKey) : Prop := array 32 k.1 /\ is_u32 k.2.
Definition note_ok (k : SaplingNoteKey) (n : SaplingNoteRecord) : Prop :=
  note_key_ok k /\ is_i32 (nr_height n) /\ is_u64 (nr_position n) /\ is_i64 (nr_value n) /\ array 43 (nr_address n)
  /\ array 32 (nr_nullifier n) /\ rseed_ok (nr_rseed n).
(** The tree and a witness read back from what the crate writes of them. *)
Definition tree_stored (tree : SaplingTree) : Prop :=
  exists data, sapling_tree_to_bytes tree = Some data /\ fits_compact data
    /\ (if bool_decide (data = []) then tree = empty_sapling_tree else sapling_tree_from_bytes data = Some tree).
Definition witness_stored (k : SaplingNoteKey) (witness : Witness) : Prop :=
  note_key_ok k /\ exists data, write_incremental_witness witness = Some data /\ fits_compact data
    /\ read_incremental_witness data = Some witness.
Record scan_ok (s : SaplingScan) : Prop := {
  sn_height : is_i32 (ss_height s); sn_hash : array 32 (ss_hash s); sn_position : is_u64 (ss_next_position s);
  sn_notes : map_Forall note_ok (ss_notes s); sn_note_count : fits_size (base.size (ss_notes s));
  sn_tree : tree_stored (ss_tree s); sn_witnesses : map_Forall witness_stored (ss_witnesses s);
  sn_witness_count : fits_size (base.size (ss_witnesses s)) }.
Definition encryption_ok (enc : WalletEncryptedSecrets) : Prop :=
  is_u32 (kdf_mem_kib (enc_kdf enc)) /\ is_u32 (kdf_iters (enc_kdf enc)) /\ is_u32 (kdf_parallelism (enc_kdf enc))
  /\ array WALLET_ENCRYPTION_SALT_BYTES (kdf_salt (enc_kdf enc)) /\ array WALLET_ENCRYPTION_NONCE_BYTES (enc_nonce enc).
Record file_ok (w : Wallet) : Prop := {
  fo_fee : is_i64 (w_pay_tx_fee_per_kb w);
  fo_encrypted : forall enc, sl_encrypted (w_seal w) = Some enc -> encryption_ok enc;
  fo_ring : ring_ok (w_ring w); fo_scripts : scripts_ok (w_scripts w); fo_history : history_ok (w_history w);
  fo_scan : scan_ok (w_scan w) }.

(** *** The parts read back *)
Lemma read_encryption_reads enc :
  (forall e, enc = Some e -> encryption_ok e) ->
  reads read_encryption (write_encryption enc) (option_map (fun e => mkEncrypted (enc_kdf e) (enc_nonce e) []) enc).
Proof.
  intros He. unfold write_encryption. destruct enc as [[[mem it par salt] nonce ct]|].
  - destruct (He _ eq_refl) as (Hm&Hi&Hp&Hs&Hn). cbn in *. eapply reads_bind; [apply reads_lift, read_bool_reads|].
    cbn. eapply reads_bind; [apply reads_lift, read_u8_reads; by_decide|]. cbn.
    repeat (eapply reads_bind; [by auto with wallet_codec|]). eapply reads_bind_nil; [by auto with wallet_codec|]. apply reads_ret.
  - rewrite bool_decide_eq_false_2 by (by intros [? ?]). eapply reads_bind; [apply reads_lift, read_bool_reads|]. apply reads_ret.
Qed.
Lemma read_key_fields_reads k : key_ok k -> reads (read_key_fields 16) (write_key k) (forget_secret k).
Proof.
  intros (Hh&Hp&_). eapply reads_bind; [by apply read_fixed_file_reads|].
  eapply reads_bind; [apply reads_lift, read_bool_reads|].
  eapply reads_bind_nil; [apply read_since_reads; [lia|by apply read_var_file_reads]|]. apply reads_ret.
Qed.
Lemma validated_reads k : key_ok k -> reads (validated (forget_secret k)) [] (forget_secret k).
Proof. intros (_&_&Hv). eapply reads_bind_nil; [by apply parse_reads|]. apply reads_ret. Qed.
Lemma read_key_reads k : key_ok k -> reads (read_key 16) (write_key k) (forget_secret k).
Proof. intros Hk. eapply reads_bind_nil; [by apply read_key_fields_reads|]. by apply validated_reads. Qed.
Lemma read_pool_entry_reads e : pool_ok e -> reads (read_pool_entry 16) (write_pool_entry e) (forget_pool_secret e).
Proof.
  intros [Hk Hc]. eapply reads_bind; [by apply read_key_fields_reads|]. eapply reads_bind_nil; [by auto with wallet_codec|].
  eapply reads_bind_nil; [by apply validated_reads|]. apply reads_ret.
Qed.
Lemma read_sapling_key_reads e : sapling_ok e -> reads read_sapling_key (write_sapling_key e) (set_extsk None e).
Proof. intros [He Hn]. eapply reads_bind; [by auto with wallet_codec|]. eapply reads_bind_nil; [by auto with wallet_codec|]. apply reads_ret. Qed.
Lemma read_viewing_key_reads e : viewing_ok e -> reads read_viewing_key (write_viewing_key e) e.
Proof.
  intros [He Hn]. eapply reads_bind; [by auto with wallet_codec|]. eapply reads_bind_nil; [by auto with wallet_codec|].
  destruct e. apply reads_ret.
Qed.
Lemma read_ring_rest_reads r :
  ring_ok r -> reads (read_ring_rest 16 (map forget_secret (kr_keys r))) (write_ring_rest r) (forget_secrets r).
Proof.
  intros Hr. eapply reads_bind; [eapply read_entries_as; [exact read_pool_entry_reads|apply Hr..]|].
  eapply reads_bind; [eapply read_entries_as; [exact read_sapling_key_reads|apply Hr..]|].
  eapply reads_bind; [eapply read_entries_reads; [exact read_viewing_key_reads|apply Hr..]|].
  eapply reads_bind_nil; [apply read_hash_set_reads; apply Hr|]. apply reads_ret.
Qed.
Lemma read_redeem_reads hash script : redeem_ok hash script -> reads read_redeem (write_redeem (hash, script)) (hash, script).
Proof.
  intros (Ha&Hh&Hf). eapply reads_bind; [by auto with wallet_codec|]. eapply reads_bind_nil; [by auto with wallet_codec|].
  cbv beta. rewrite bool_decide_eq_true_2 by done. apply reads_ret.
Qed.
Lemma read_scripts_reads s :
  scripts_ok s -> reads (read_scripts 16) (write_scripts s) (ws_watch_scripts s, ws_redeem_scripts s).
Proof.
  intros Hs. eapply reads_bind; [eapply read_entries_reads; [exact read_var_file_reads|apply Hs..]|].
  eapply reads_bind_nil; [apply read_since_reads; [lia|]; eapply read_map_reads; [exact read_redeem_reads|apply Hs..]|].
  rewrite insert_all_iter. apply reads_ret.
Qed.
Lemma read_label_reads script label : label_ok script label -> reads read_label (write_text_pair (script, label)) (script, label).
Proof. intros (Hf&Hs&_). eapply reads_bind; [by auto with wallet_codec|]. eapply reads_bind_nil; [by auto with wallet_codec|]. apply reads_ret. Qed.
Lemma read_labels_reads s :
  scripts_ok s -> reads (read_labels 16) (write_entries write_text_pair (btree_iter hash_order (ws_address_labels s))) (ws_address_labels s).
Proof.
  intros Hs. eapply reads_bind_nil; [apply read_since_reads; [lia|]; eapply read_map_reads; [exact read_label_reads|apply Hs..]|].
  rewrite filter_all, insert_all_iter; [apply reads_ret|].
  eapply Forall_impl; [apply (btree_iter_forall hash_order _ _ (sc_labels s Hs))|]. intros [k v] (_&_&Hn). unfold has_label. cbn.
  by rewrite bool_decide_eq_false_2.
Qed.
Lemma read_value_reads key value : value_ok key value -> reads read_value (write_text_pair (key, value)) (key, value).
Proof. intros (Hk&Hv&_). eapply reads_bind; [by auto with wallet_codec|]. eapply reads_bind_nil; [by auto with wallet_codec|]. apply reads_ret. Qed.
Lemma read_pair_reads {A} (m : parser WalletError A) id data (a : A) :
  array 32 id -> reads m data a -> reads (read_pair m) (write_bytes id ++ data) (id, a).
Proof. intros Hi Hm. eapply reads_bind; [by auto with wallet_codec|]. eapply reads_bind_nil; [exact Hm|]. apply reads_ret. Qed.
Lemma read_values_reads id values : values_ok id values -> reads (read_pair read_values) (write_values (id, values)) (id, values).
Proof.
  intros (Hi&_&Hv&Hc). apply read_pair_reads; [done|].
  eapply reads_bind_nil; [eapply read_map_reads; [exact read_value_reads|exact Hv|exact Hc]|].
  rewrite filter_all, insert_all_iter; [apply reads_ret|].
  eapply Forall_impl; [apply (btree_iter_forall hash_order _ _ Hv)|]. intros [k v] (_&_&Hk&Hn). unfold nonempty. cbn.
  by rewrite !bool_decide_eq_false_2.
Qed.
Lemma read_history_reads h : history_ok h -> reads (read_history 16) (write_history h) h.
Proof.
  intros Hh. eapply reads_bind; [apply read_hash_set_reads; apply Hh|].
  eapply reads_bind; [apply read_since_reads; [lia|]; eapply read_map_reads; [|apply Hh..]|].
  { intros id v [Hi Hv]. apply read_pair_reads; [done|]. by auto with wallet_codec. }
  eapply reads_bind; [apply read_since_reads; [lia|]; eapply read_map_reads; [|apply Hh..]|].
  { intros id v [Hi Hv]. apply read_pair_reads; [done|]. by auto with wallet_codec. }
  eapply reads_bind_nil; [apply read_since_reads; [lia|]; eapply read_map_reads; [exact read_values_reads|apply Hh..]|].
  rewrite !insert_all_iter, filter_all, insert_all_iter; [destruct h; apply reads_ret|].
  eapply Forall_impl; [apply (btree_iter_forall hash_order _ _ (ho_values h Hh))|]. intros [k v] (_&Hn&_). unfold has_values. cbn.
  by rewrite bool_decide_eq_false_2.
Qed.
Lemma read_note_key_reads k : note_key_ok k -> reads read_note_key (write_note_key k) k.
Proof.
  destruct k as [id i]. intros [Hi Hu]. eapply reads_bind; [by auto with wallet_codec|]. eapply reads_bind_nil; [by auto with wallet_codec|].
  apply reads_ret.
Qed.
Lemma read_rseed_reads r : rseed_ok r -> reads read_rseed (write_rseed r) r.
Proof.
  intros Hr. destruct r as [[b|b]|]; cbn in *.
  1, 2: eapply reads_bind; [apply reads_lift, read_u8_reads; by_decide|]; cbn; eapply reads_bind_nil; [by auto with wallet_codec|];
    apply reads_ret.
  eapply reads_bind_nil; [apply reads_lift, read_u8_reads; by_decide|]. apply reads_ret.
Qed.
Lemma read_note_reads k n : note_ok k n -> reads (read_note 16) (write_note (k, n)) (k, n).
Proof.
  intros (Hk&Hh&Hp&Hv&Ha&Hf&Hr). destruct n as [a v h p f r]. unfold write_note. cbn in *.
  eapply reads_bind; [by apply read_note_key_reads|]. do 5 (eapply reads_bind; [by auto with wallet_codec|]).
  eapply reads_bind_nil; [apply read_since_reads; [lia|by apply read_rseed_reads]|]. apply reads_ret.
Qed.
Lemma read_tree_reads tree data :
  sapling_tree_to_bytes tree = Some data -> tree_stored tree -> reads read_tree (write_var_bytes data) tree.
Proof.
  intros Hd (data'&Hd'&Hf&Ht). assert (data' = data) as -> by congruence.
  eapply reads_bind_nil; [by auto with wallet_codec|]. cbv beta. case_bool_decide; [subst tree; apply reads_ret|].
  apply parse_reads. by rewrite Ht.
Qed.
Lemma read_witness_reads k witness data :
  witness_stored k witness -> write_witness (k, witness) = Ok data -> reads read_witness data (k, witness).
Proof.
  intros (Hk&bs&Hb&Hf&Hr) Hw. unfold write_witness in Hw. cbn in Hw. rewrite Hb in Hw. cbn in Hw. injection Hw as <-.
  eapply reads_bind; [by apply read_note_key_reads|]. eapply reads_bind_nil; [by auto with wallet_codec|].
  eapply reads_bind_nil; [apply parse_reads; by rewrite Hr|]. apply reads_ret.
Qed.
Lemma read_witnesses_reads (msg : string) (m : gmap SaplingNoteKey Witness) encoded :
  map_Forall witness_stored m -> fits_size (base.size m) -> collect write_witness (btree_iter note_order m) = Ok encoded ->
  reads (read_entries msg read_witness) (write_varint (Z.of_nat (length encoded)) ++ concat encoded) (btree_iter note_order m).
Proof.
  intros Hm Hf Hc. apply collect_Forall2 in Hc. apply read_entries_each; [by rewrite btree_iter_length|].
  apply Forall2_flip. pose proof (btree_iter_forall note_order _ _ Hm) as Hall. revert Hc Hall. clear Hf Hm.
  generalize (btree_iter note_order m). intros l. revert encoded.
  induction l as [|[k w] l IH]; intros encoded Hc Hall; inversion Hc; subst; constructor; inversion Hall; subst.
  - by apply read_witness_reads.
  - by apply IH.
Qed.
Lemma read_scan_reads s data : scan_ok s -> write_scan s = Ok data -> reads (read_scan 16) data s.
Proof.
  intros Hs Hw. unfold write_scan in Hw. apply bind_Ok in Hw as (tree&Ht&Hw). apply bind_Ok in Hw as (ws&Hws&Hw). apply ok_or_Ok in Ht.
  apply (reads_conseq _ ((write_i32_le (ss_height s) ++ write_bytes (ss_hash s) ++ write_u64_le (ss_next_position s)
      ++ write_entries write_note (btree_iter note_order (ss_notes s))) ++ write_var_bytes tree
      ++ write_varint (Z.of_nat (length ws)) ++ concat ws)); [|rewrite <- !app_assoc; congruence].
  eapply reads_bind; [apply read_since_reads; [lia|]|].
  - eapply reads_bind; [apply reads_lift, read_i32_le_reads, Hs|]. eapply reads_bind; [apply read_fixed_file_reads, Hs|].
    eapply reads_bind; [apply reads_lift, read_u64_le_reads, Hs|].
    eapply reads_bind_nil; [eapply read_map_reads; [exact read_note_reads|apply Hs..]|]. rewrite insert_all_iter. apply reads_ret.
  - cbv beta iota. eapply reads_bind_nil; [apply read_since_reads; [lia|]|].
    + eapply reads_bind; [by apply read_tree_reads, Hs|].
      eapply reads_bind_nil; [apply read_witnesses_reads; [apply Hs..|done]|]. rewrite insert_all_iter. apply reads_ret.
    + destruct s. apply reads_ret.
Qed.

(** *** Operations *)
Lemma wallet_bind_Ok {A D} (m : wallet_op A) (f : A -> wallet_op D) s b s' :
  (m ≫= f) s = (Ok b, s') <-> exists a s1, m s = (Ok a, s1) /\ f a s1 = (Ok b, s').
Proof.
  unfold mbind, wallet_bind. destruct (m s) as [[a|e|] s1]; split; intros Hf; try done.
  - by exists a, s1.
  - by destruct Hf as (a'&s2&[= <- <-]&Hf).
  - by destruct Hf as (a'&s2&[=]&_).
  - by destruct Hf as (a'&s2&[=]&_).
Qed.
Lemma of_result_Ok {A} (r : result WalletError A) s a s' : of_result r s = (Ok a, s') <-> r = Ok a /\ s' = s.
Proof. unfold of_result. split; [by intros [= -> ->]|by intros [-> ->]]. Qed.

(** Replacing a file leaves the old or the new one; when both attempts at the
    last step fail, the new one is complete beside where it belongs. *)
Definition replaced (path : Path) (data : bytes) (disk disk' : gmap Path bytes) : Prop :=
  (disk' !! path = disk !! path \/ disk' !! path = Some data
   \/ (disk' !! path = None /\ disk' !! with_extension path "tmp" = Some data))
  /\ forall p, p <> path -> p <> with_extension path "tmp" -> disk' !! p = disk !! p.
Lemma write_file_atomic_spec path data w d r s' :
  path.2 <> Some "tmp"%string -> write_file_atomic path data (w, d) = (r, s') ->
  s'.1 = w /\ replaced path data (wd_disk d) (wd_disk s'.2)
  /\ (r = Ok tt -> wd_disk s'.2 !! path = Some data) /\ r <> Panic
  /\ (forall e, r = Err e -> e = Io) /\ wd_draws s'.2 = wd_draws d.
Proof.
  intros Hp. assert (path <> with_extension path "tmp") as Hne by (intros E; apply Hp; by rewrite E).
  set (tmp := with_extension path "tmp") in *. unfold replaced. fold tmp.
  unfold write_file_atomic, fs_create_dir_all, fs_write, fs_rename, fs_remove_file, file_op, succeeded, mbind, wallet_bind, mret, wallet_ret. cbn.
  fold tmp. destruct (fault (wd_ops d)); [|intros [= <- <-]; cbn; split_and!; naive_solver..]. cbn.
  destruct (fault (Datatypes.S (wd_ops d))); cbn.
  2: { intros [= <- <-]; cbn; split_and!; naive_solver. }
  2: { intros [= <- <-]; cbn. split_and!; try naive_solver. left. by rewrite lookup_insert_ne. by intros p ? ?; rewrite lookup_insert_ne. }
  rewrite lookup_insert_eq. destruct (fault (Datatypes.S (Datatypes.S (wd_ops d)))); cbn.
  { intros [= <- <-]; cbn. split_and!; try done.
    - right. left. by rewrite lookup_insert_eq.
    - intros p Hp1 Hp2. by rewrite lookup_insert_ne, lookup_delete_ne, lookup_insert_ne.
    - intros _. by rewrite lookup_insert_eq. }
  all: cbn; rewrite lookup_insert_ne by done; destruct (fault _), (wd_disk d !! path) eqn:Eo; cbn;
    rewrite ?lookup_delete_ne, ?lookup_insert_eq by done; destruct (fault _); intros [= <- <-]; cbn; split_and!; try done; try naive_solver;
    try (intros p Hp1 Hp2; by repeat first [rewrite lookup_insert_ne by congruence | rewrite lookup_delete_ne by congruence]);
    try (intros _; by rewrite lookup_insert_eq);
    first [ right; left; by rewrite lookup_insert_eq
          | right; right; by rewrite lookup_delete_eq, lookup_delete_ne, lookup_insert_eq by done
          | left; by rewrite lookup_insert_ne by done ].
Qed.
End file.
