(* ===== verification/WalletRestart.v ===== *)
(** * Saving a wallet and starting again

    What a saved wallet reads back as, that replacing the file never leaves
    half of one, that a wallet which was encrypted opens with its passphrase
    after a restart, and what goes wrong when an open wallet is saved. *)

From S2P Require Import Prelude Consensus Rewards Encoding Hashing Address Transaction Script Storage HeaderChain Payees FluxnodeChecks Ledger Mempool Wallet WalletFile.
From Stdlib Require Import ZArith Lia.
From stdpp Require Import base list option numbers strings gmap sets sorting.
#[local] Open Scope Z_scope.

(** Draws have the length that was asked for. *)
Class MachineLaws (M : Machine) : Prop := { entropy_array n k : array k (entropy n k) }.

Section restart.
  Context {H : Hashes} {S256 : Secp} {Rc : Recovery} {SK : SecretKeys} {SL : SecretKeysLaws SK} {C : Cipher} {SA : SaplingKeys}.
  Context {T : ShieldedTrees} {SW : SaplingWitnesses} {M : Machine}.

(** ** What [save] does *)
Definition retained (w : Wallet) : Wallet := set_history (retain_history (w_history w)) w.
Definition resealed (enc : WalletEncryptedSecrets) (nonce ciphertext : bytes) (w : Wallet) : Wallet :=
  set_seal (set_encrypted (Some (mkEncrypted (enc_kdf enc) nonce ciphertext)) (w_seal w)) w.
(** The payload of the file and the wallet it leaves. *)
Definition payload_of (w : Wallet) (nonce payload : bytes) (w' : Wallet) : Prop :=
  match sl_encrypted (w_seal w), sl_unlocked_key (w_seal w) with
  | None, _ => encode_secrets_blob (w_ring w) = Ok payload /\ w' = w
  | Some enc, None => payload = enc_ciphertext enc /\ w' = w
  | Some enc, Some key =>
      exists plaintext, encode_secrets_blob (w_ring w) = Ok plaintext
        /\ encrypt_wallet_secrets (w_network w) key nonce plaintext = Ok payload /\ w' = resealed enc nonce payload w
  end.
Lemma secrets_payload_Ok w d payload w' d' :
  secrets_payload (w, d) = (Ok payload, (w', d')) ->
  payload_of w (entropy (wd_draws d) WALLET_ENCRYPTION_NONCE_BYTES) payload w' /\ wd_disk d' = wd_disk d.
Proof.
  unfold secrets_payload. intros Hs. apply wallet_bind_Ok in Hs as (w0&s1&Hw&Hs). injection Hw as <- <-. unfold payload_of. cbn [fst] in Hs.
  destruct (sl_encrypted (w_seal w)) as [enc|] eqn:Ee.
  - destruct (sl_unlocked_key (w_seal w)) as [key|] eqn:Ek; [|by injection Hs as <- <- <-].
    apply wallet_bind_Ok in Hs as (plaintext&s2&[Hp ->]%of_result_Ok&Hs).
    apply wallet_bind_Ok in Hs as (nonce&s3&Hn&Hs). injection Hn as <- <-.
    apply wallet_bind_Ok in Hs as (ct&s4&[Hc ->]%of_result_Ok&Hs).
    apply wallet_bind_Ok in Hs as (u&s5&Hm&Hs). injection Hm as <- <-. injection Hs as <- <- <-. split; [|done]. by exists plaintext.
  - by apply of_result_Ok in Hs as [Hp [= <- <-]].
Qed.
Lemma save_Ok w d w' d' :
  (w_path w).2 <> Some "tmp"%string -> save (w, d) = (Ok tt, (w', d')) ->
  exists public payload, write_public (retained w) = Ok public
    /\ payload_of (retained w) (entropy (wd_draws d) WALLET_ENCRYPTION_NONCE_BYTES) payload w'
    /\ wd_disk d' !! w_path w = Some (public ++ write_var_bytes payload).
Proof.
  intros Hp Hs. unfold save in Hs. apply wallet_bind_Ok in Hs as (u&s1&Hm&Hs). injection Hm as <- <-.
  apply wallet_bind_Ok in Hs as (w0&s2&Hw&Hs). injection Hw as <- <-. cbn [fst snd] in Hs. fold (retained w) in Hs.
  apply wallet_bind_Ok in Hs as (public&s3&[Hpub ->]%of_result_Ok&Hs).
  apply wallet_bind_Ok in Hs as (payload&[w4 d4]&Hpay&Hs). apply secrets_payload_Ok in Hpay as [Hpay Hd].
  exists public, payload. split; [done|]. destruct (write_file_atomic_spec _ _ _ _ _ _ Hp Hs) as (Hw&_&Hdisk&_). cbn in Hw. subst w'.
  split; [done|]. by apply Hdisk.
Qed.

(** *** What [save] leaves alone *)
Lemma collect_not_panic {A D} (f : A -> result WalletError D) l : (forall a, f a <> Panic) -> collect f l <> Panic.
Proof. intros Hf. induction l as [|a l IH]; cbn; [done|]. apply bind_not_panic; [apply Hf|]. intros d _. by apply bind_not_panic. Qed.
Lemma encode_secrets_not_panic r : encode_secrets_blob r <> Panic.
Proof.
  unfold encode_secrets_blob. apply bind_not_panic.
  - apply collect_not_panic. intros k. unfold key_secret. by destruct (wk_secret k).
  - intros t _. apply bind_not_panic; [|done]. apply collect_not_panic. intros e. apply ok_or_not_panic.
Qed.
Lemma write_public_not_panic w : write_public w <> Panic.
Proof.
  unfold write_public. apply bind_not_panic; [|done]. unfold write_scan. apply bind_not_panic; [apply ok_or_not_panic|]. intros t _.
  apply bind_not_panic; [|done]. apply collect_not_panic. intros [k v]. unfold write_witness. apply bind_not_panic; [apply ok_or_not_panic|done].
Qed.
Lemma secrets_payload_world w d r w' d' :
  secrets_payload (w, d) = (r, (w', d')) -> wd_disk d' = wd_disk d /\ wd_ops d' = wd_ops d /\ r <> Panic.
Proof.
  unfold secrets_payload, mbind, wallet_bind, wallet, of_result, modify, fill_bytes, mret, wallet_ret. cbn [fst snd].
  assert (encode_secrets_blob (w_ring w) <> Panic) as Hnp by apply encode_secrets_not_panic.
  destruct (sl_encrypted (w_seal w)) as [enc|]; [|by intros [= <- <- <-]].
  destruct (sl_unlocked_key (w_seal w)) as [key|]; [|by intros [= <- <- <-]].
  destruct (encode_secrets_blob (w_ring w)) as [pt|e|]; [|by intros [= <- <- <-]|done].
  unfold encrypt_wallet_secrets. destruct (aead_encrypt _ _ _ _); cbn; by intros [= <- <- <-].
Qed.
Lemma save_not_panic w d s' : (w_path w).2 <> Some "tmp"%string -> save (w, d) = (Panic, s') -> False.
Proof.
  intros Hp. unfold save, mbind, wallet_bind, modify, wallet, of_result. cbn [fst snd]. fold (retained w).
  pose proof (write_public_not_panic (retained w)) as Hnp. destruct (write_public (retained w)) as [public|e'|]; [|done|done].
  destruct (secrets_payload (retained w, d)) as [[payload|e'|] [w4 d4]] eqn:Hpay; [|done|].
  - intros Hs. destruct s' as [w5 d5]. by destruct (write_file_atomic_spec _ _ _ _ _ _ Hp Hs) as (_&_&_&?&_).
  - by apply secrets_payload_world in Hpay as (_&_&?).
Qed.

(** ** What the file reads back as *)
Definition emptied (e : WalletEncryptedSecrets) : WalletEncryptedSecrets := mkEncrypted (enc_kdf e) (enc_nonce e) [].
Definition stripped (w : Wallet) : Wallet :=
  mkWallet (w_path w) (w_network w) (w_pay_tx_fee_per_kb w) (forget_secrets (w_ring w)) (w_scripts w) (w_history w) (w_scan w)
    (mkSeal (option_map emptied (sl_encrypted (w_seal w))) None 0 0) 0 ∅.
Lemma decode_encode_network network : decode_network (encode_network network) = Ok network.
Proof. by destruct network. Qed.
Lemma encode_network_u8 network : is_u8 (encode_network network).
Proof. destruct network; by_decide. Qed.
Lemma read_wallet_reads w public payload :
  file_ok w -> write_public w = Ok public -> fits_compact payload ->
  reads (read_wallet (w_path w) (w_network w)) (public ++ write_var_bytes payload) (inr (stripped w, payload)).
Proof.
  intros Hw Hp Hf. unfold write_public in Hp. apply bind_Ok in Hp as (scan&Hscan&Hp).
  apply (reads_conseq _ ((write_u32_le WALLET_FILE_VERSION ++ write_u8 (encode_network (w_network w)) ++ write_i64_le (w_pay_tx_fee_per_kb w))
     ++ (write_encryption (sl_encrypted (w_seal w)) ++ write_ring_keys (w_ring w) ++ write_scripts (w_scripts w)
         ++ write_history (w_history w) ++ write_ring_rest (w_ring w) ++ scan
         ++ write_entries write_text_pair (btree_iter hash_order (ws_address_labels (w_scripts w))) ++ write_var_bytes payload))).
  2: { assert (public = write_u32_le WALLET_FILE_VERSION ++ write_u8 (encode_network (w_network w)) ++ write_i64_le (w_pay_tx_fee_per_kb w)
      ++ write_encryption (sl_encrypted (w_seal w)) ++ write_ring_keys (w_ring w) ++ write_scripts (w_scripts w)
      ++ write_history (w_history w) ++ write_ring_rest (w_ring w) ++ scan
      ++ write_entries write_text_pair (btree_iter hash_order (ws_address_labels (w_scripts w)))) as -> by congruence. by rewrite <- !app_assoc. }
  eapply reads_bind.
  - unfold read_header. eapply reads_bind; [apply reads_lift, read_u32_le_reads; by_decide|].
    change ((WALLET_FILE_VERSION =? 0) || (WALLET_FILE_VERSION <? WALLET_FILE_VERSION)) with false. cbv iota.
    eapply reads_bind; [apply reads_lift, read_u8_reads, encode_network_u8|].
    eapply (reads_bind _ _ []); [apply parse_reads, decode_encode_network|]. cbv beta. rewrite bool_decide_eq_true_2 by done. cbn [negb].
    eapply reads_bind_nil; [apply read_since_reads; [by vm_compute|]; apply reads_lift, read_i64_le_reads, Hw|]. apply reads_ret.
  - cbv beta iota. change (WALLET_FILE_VERSION <=? 10) with false. cbv iota.
    eapply reads_bind_nil; [|apply reads_ret]. unfold read_sealed.
    eapply reads_bind; [apply read_encryption_reads, Hw|].
    eapply reads_bind; [eapply read_entries_as; [exact read_key_reads|apply Hw..]|].
    eapply reads_bind; [apply read_scripts_reads, Hw|]. cbv beta iota.
    eapply reads_bind; [apply read_history_reads, Hw|].
    eapply reads_bind; [apply read_ring_rest_reads, Hw|].
    eapply reads_bind; [eapply read_scan_reads; [apply Hw|done]|].
    eapply reads_bind; [apply read_labels_reads, Hw|].
    eapply reads_bind_nil; [by apply read_var_file_reads|]. unfold stripped. destruct (w_scripts w). apply reads_ret.
Qed.
Lemma decode_public w public payload :
  file_ok w -> write_public w = Ok public -> fits_compact payload ->
  decode_wallet (w_path w) (w_network w) (public ++ write_var_bytes payload) = open_payload (stripped w, payload).
Proof. intros Hw Hp Hf. unfold decode_wallet. rewrite (reads_decode_all _ _ _ _ (read_wallet_reads w public payload Hw Hp Hf)). done. Qed.

(** The wallet a node starts with from the file that saved [w] as [w']: the
    session is over, and an encrypted wallet is locked.  The nonce is the one
    the wallet had when saving began. *)
Definition restarted (w w' : Wallet) : Wallet :=
  match sl_encrypted (w_seal w), sl_encrypted (w_seal w') with
  | Some enc, Some enc' =>
      mkWallet (w_path w') (w_network w') (w_pay_tx_fee_per_kb w') (forget_secrets (w_ring w')) (w_scripts w') (w_history w') (w_scan w')
        (mkSeal (Some (mkEncrypted (enc_kdf enc') (enc_nonce enc) (enc_ciphertext enc'))) None 0 0) 0 ∅
  | _, _ =>
      mkWallet (w_path w') (w_network w') (w_pay_tx_fee_per_kb w') (w_ring w') (w_scripts w') (w_history w') (w_scan w') no_seal 0 ∅
  end.
Lemma write_var_bytes_length payload : (length payload <= length (write_var_bytes payload))%nat.
Proof. unfold write_var_bytes, write_bytes. rewrite length_app. lia. Qed.
Lemma same_keys_forget r : same_keys (forget_secrets r) r.
Proof.
  unfold same_keys, forget_secrets. cbn. rewrite !map_map. f_equal.
  all: apply map_ext; by intros [].
Qed.
Lemma saved_decodes w d w' d' :
  (w_path w).2 <> Some "tmp"%string -> file_ok (retained w) ->
  (sl_encrypted (w_seal w) = None -> secrets_ok (w_ring w)) ->
  save (w, d) = (Ok tt, (w', d')) ->
  (forall data, wd_disk d' !! w_path w = Some data -> fits_compact data) ->
  exists data, wd_disk d' !! w_path w = Some data /\ decode_wallet (w_path w) (w_network w) data = Ok (restarted w w').
Proof.
  intros Hp Hw Hr Hs Hfit. destruct (save_Ok _ _ _ _ Hp Hs) as (public&payload&Hpub&Hpay&Hd). exists (public ++ write_var_bytes payload).
  split; [done|]. pose proof (Hfit _ Hd) as Hf. assert (fits_compact payload) as Hfp.
  { unfold fits_compact in *. rewrite length_app in Hf. pose proof (write_var_bytes_length payload). lia. }
  change (w_path w) with (w_path (retained w)). change (w_network w) with (w_network (retained w)).
  rewrite (decode_public (retained w) public payload Hw Hpub Hfp). unfold payload_of in Hpay. unfold restarted, open_payload, stripped.
  cbn [w_seal retained set_history sl_encrypted set_seal w_ring w_network] in *. destruct (sl_encrypted (w_seal w)) as [enc|] eqn:Ee.
  - cbn. destruct (sl_unlocked_key (w_seal w)) as [key|] eqn:Ek.
    + destruct Hpay as (plaintext&_&_&->). done.
    + destruct Hpay as [-> ->]. cbn. by rewrite Ee.
  - destruct Hpay as [Hb ->]. cbn. rewrite (secrets_restored (w_ring w) _ payload (Hr eq_refl) Hb (same_keys_forget _)). cbn. done.
Qed.

(** C14: c1xx: A wallet that was saved comes back when the node starts again: the
    scripts, labels, history, notes and keys are those of the wallet, an
    encrypted one is locked and holds no secret, and what decrypts its secrets
    is unchanged when it was saved locked. *)
Theorem wallet_survives_restart w d w' d' w0
    (Hpath : (w_path w).2 <> Some "tmp"%string) (Hok : file_ok (retained w))
    (Hsecrets : sl_encrypted (w_seal w) = None -> secrets_ok (w_ring w))
    (Hsave : save (w, d) = (Ok tt, (w', d')))
    (Hfit : forall data, wd_disk d' !! w_path w = Some data -> fits_compact data)
    (Hread : fault (wd_ops d') = Done) :
  exists d2, load_or_create (w_path w) (w_network w) (w0, d') = (Ok tt, (restarted w w', d2)) /\ wd_disk d2 = wd_disk d'
    /\ (sl_unlocked_key (w_seal w) = None -> sl_encrypted (w_seal (restarted w w')) = sl_encrypted (w_seal w)).
Proof.
  destruct (saved_decodes w d w' d' Hpath Hok Hsecrets Hsave Hfit) as (data&Hd&Hdec).
  unfold load_or_create, fs_read, mbind, wallet_bind. rewrite Hread, Hd. unfold of_result. rewrite Hdec. eexists.
  split; [reflexivity|]. split; [done|]. intros Hk.
  destruct (save_Ok _ _ _ _ Hpath Hsave) as (public&payload&_&Hpay&_). unfold payload_of in Hpay. unfold restarted.
  cbn [w_seal retained set_history] in Hpay. rewrite Hk in Hpay. destruct (sl_encrypted (w_seal w)) as [[kdf n c]|] eqn:Ee; [|done].
  destruct Hpay as [-> ->]. cbn. rewrite Ee. done.
Qed.

(** ** Replacing the file *)
Definition complete (w w' : Wallet) (data : bytes) : Prop :=
  exists public nonce payload, write_public (retained w) = Ok public /\ payload_of (retained w) nonce payload w'
    /\ data = public ++ write_var_bytes payload.
(** C27: c1xx: However saving ends, the wallet file is what it was or a complete
    new file, never a part of one; the one case where it is gone leaves the
    complete new file beside it, and no other file is touched. *)
Theorem wallet_file_never_torn w d r w' d'
    (Hpath : (w_path w).2 <> Some "tmp"%string) (Hsave : save (w, d) = (r, (w', d'))) :
  (wd_disk d' = wd_disk d \/ exists data, complete w w' data /\ replaced (w_path w) data (wd_disk d) (wd_disk d'))
  /\ (r = Ok tt -> exists data, complete w w' data /\ wd_disk d' !! w_path w = Some data).
Proof.
  destruct r as [[]|e|].
  - destruct (save_Ok _ _ _ _ Hpath Hsave) as (public&payload&Hpub&Hpay&Hd). split.
    + unfold save in Hsave. apply wallet_bind_Ok in Hsave as (u&s1&Hm&Hs). injection Hm as <- <-.
      apply wallet_bind_Ok in Hs as (w0&s2&Hw&Hs). injection Hw as <- <-. cbn [fst snd] in Hs. fold (retained w) in Hs.
      apply wallet_bind_Ok in Hs as (public'&s3&[Hpub' ->]%of_result_Ok&Hs).
      apply wallet_bind_Ok in Hs as (payload'&[w4 d4]&Hpay'&Hs). apply secrets_payload_Ok in Hpay' as [Hpay' Hd'].
      destruct (write_file_atomic_spec _ _ _ _ _ _ Hpath Hs) as (Hw&Hrep&_). cbn in Hw, Hrep. subst w'. rewrite Hd' in Hrep.
      right. exists (public' ++ write_var_bytes payload'). split; [by exists public', (entropy (wd_draws d) WALLET_ENCRYPTION_NONCE_BYTES), payload'|done].
    + intros _. exists (public ++ write_var_bytes payload). split; [by exists public, (entropy (wd_draws d) WALLET_ENCRYPTION_NONCE_BYTES), payload|done].
  - split; [|done]. revert Hsave. unfold save, mbind, wallet_bind, modify, wallet, of_result. cbn [fst snd]. fold (retained w).
    destruct (write_public (retained w)) as [public|e'|] eqn:Hpub; [|by intros [= <- <- <-]; left|by intros [= <- <-]].
    destruct (secrets_payload (retained w, d)) as [[payload|e'|] [w4 d4]] eqn:Hpay.
    + intros Hs. apply secrets_payload_Ok in Hpay as [Hpay Hd'].
      destruct (write_file_atomic_spec _ _ _ _ _ _ Hpath Hs) as (Hw&Hrep&_). cbn in Hw, Hrep. subst w'. rewrite Hd' in Hrep.
      right. exists (public ++ write_var_bytes payload). split; [by exists public, (entropy (wd_draws d) WALLET_ENCRYPTION_NONCE_BYTES), payload|done].
    + intros [= <- <- <-]. left. by apply secrets_payload_world in Hpay as [-> _].
    + by apply secrets_payload_world in Hpay as (_&_&?).
  - exfalso. by apply (save_not_panic _ _ _ Hpath Hsave).
Qed.

(** ** Encrypting, starting again, and unlocking *)
Lemma derive_array pass kdf key : CipherLaws C -> derive_wallet_key pass kdf = Ok key -> array 32 key.
Proof. unfold derive_wallet_key. destruct (Argon2_params _ _ _); [|done]. intros CL Hk. apply ok_or_Ok in Hk. by eapply argon2_key. Qed.
(** What a successful [encryptwallet] is: the secrets sealed under a key of
    the passphrase, the wallet locked, and the result saved. *)
Lemma encryptwallet_Ok pass w d w' d' :
  encryptwallet pass (w, d) = (Ok tt, (w', d')) ->
  exists secrets kdf key nonce ciphertext d1,
    sl_encrypted (w_seal w) = None /\ encode_secrets_blob (w_ring w) = Ok secrets
    /\ kdf = mkKdf (64 * 1024) 3 1 (entropy (wd_draws d) WALLET_ENCRYPTION_SALT_BYTES) /\ derive_wallet_key pass kdf = Ok key
    /\ nonce = entropy (Datatypes.S (wd_draws d)) WALLET_ENCRYPTION_NONCE_BYTES
    /\ encrypt_wallet_secrets (w_network w) key nonce secrets = Ok ciphertext
    /\ save (lock_inner (set_seal (set_encrypted (Some (mkEncrypted kdf nonce ciphertext)) (w_seal w)) w), d1) = (Ok tt, (w', d')).
Proof.
  intros He. unfold encryptwallet in He. apply wallet_bind_Ok in He as (w0&s1&Hw&He). injection Hw as <- <-. cbn [fst] in He.
  unfold is_encrypted in He. destruct (sl_encrypted (w_seal w)) as [e|] eqn:Ee.
  { rewrite bool_decide_eq_true_2 in He by done. done. }
  rewrite bool_decide_eq_false_2 in He by (by intros [? ?]).
  apply wallet_bind_Ok in He as (secrets&s2&[Hb ->]%of_result_Ok&He).
  apply wallet_bind_Ok in He as ([kdf key]&s3&Hk&He). unfold new_wallet_kdf in Hk.
  apply wallet_bind_Ok in Hk as (salt&s4&Hsalt&Hk). injection Hsalt as <- <-.
  apply wallet_bind_Ok in Hk as (key'&s5&[Hkey ->]%of_result_Ok&Hk). injection Hk as <- <- <-.
  apply wallet_bind_Ok in He as (nonce&s6&Hn&He). injection Hn as <- <-.
  apply wallet_bind_Ok in He as (ct&s7&[Hct ->]%of_result_Ok&He).
  apply wallet_bind_Ok in He as (u&s8&Hm&He). injection Hm as <- <-.
  apply wallet_bind_Ok in He as (u'&s9&Hm&He). injection Hm as <- <-. cbn [fst snd] in He.
  eexists secrets, _, key', _, ct, _. split_and!; try done. unfold on_error in He.
  destruct (save _) as [[[]|e|] s'] eqn:Hsave; [by injection He as <-| |done]. exfalso.
  apply wallet_bind_Ok in He as (u&s9&_&He). apply wallet_bind_Ok in He as (u'&s10&_&He). done.
Qed.

Lemma key_ok_forget k : key_ok k -> key_ok (forget_secret k).
Proof. intros (Hh&Hp&Hv). by split_and!. Qed.
Lemma ring_ok_forget r : ring_ok r -> ring_ok (forget_secrets r).
Proof.
  intros Hr. constructor; cbn; rewrite ?length_map; try apply Hr.
  - apply Forall_fmap. eapply Forall_impl; [apply Hr|]. intros k. apply key_ok_forget.
  - apply Forall_fmap. eapply Forall_impl; [apply Hr|]. intros e [Hk Hc]. split; [by apply key_ok_forget|done].
  - apply Forall_fmap. eapply Forall_impl; [apply Hr|]. by intros e.
Qed.
(** [walletpassphrase] on a locked wallet whose secrets open. *)
Lemma walletpassphrase_opens pass timeout w d enc key blob r :
  sl_encrypted (w_seal w) = Some enc -> sl_unlocked_until (w_seal w) = 0 ->
  derive_wallet_key pass (enc_kdf enc) = Ok key ->
  decrypt_wallet_secrets (w_network w) key (enc_nonce enc) (enc_ciphertext enc) = Ok blob ->
  secrets_ok r -> encode_secrets_blob r = Ok blob -> same_keys (w_ring w) r ->
  exists until generation w' d', walletpassphrase pass timeout (w, d) = (Ok (until, generation), (w', d'))
    /\ w' = set_seal (mkSeal (Some enc) (Some key) until generation) (set_ring r w) /\ wd_disk d' = wd_disk d.
Proof.
  intros He Hu Hkey Hdec Hr Hb Hs. unfold walletpassphrase, lock_if_expired, is_encrypted, mbind, wallet_bind, wallet, of_result, mret, wallet_ret.
  cbn [fst snd]. rewrite He. rewrite !bool_decide_eq_true_2 by done. cbn. rewrite He, bool_decide_eq_true_2 by done. cbn. rewrite Hu. cbn. rewrite ?He. cbn.
  assert (existsb key_without_pubkey (ring_keys (w_ring w)) = false) as ->.
  { apply not_true_iff_false. intros Hx. apply existsb_exists in Hx as (k&Hk&Hp). unfold key_without_pubkey in Hp. apply bool_decide_eq_true in Hp.
    assert (forget_secret k ∈ map forget_secret (ring_keys r)) as Hin.
    { rewrite <- (forget_ring_keys r), <- Hs, forget_ring_keys. apply list_elem_of_In. by apply in_map. }
    apply list_elem_of_In, in_map_iff in Hin as (k'&Ek&Hin%list_elem_of_In).
    destruct (proj1 (Forall_forall _ _) (so_keys r Hr) k' Hin) as (s&_&Hf). apply from_secret_inv in Hf as (_&_&Hne&_).
    apply Hne. change (wk_pubkey (forget_secret k') = []). by rewrite Ek. }
  rewrite Hkey. cbn. rewrite Hdec. unfold apply_secrets. rewrite (secrets_restored r (w_ring w) blob Hr Hb Hs).
  unfold current_unix_seconds. cbn. rewrite He. eexists _, _, _, _. split; [reflexivity|]. done.
Qed.

(** C15: c1xx: A wallet that was encrypted can be opened again: once the node has
    started anew from the file, the passphrase gives back exactly the keys,
    with their secrets, that the wallet had, and until then no secret is in
    memory. *)
Theorem encrypted_wallet_reopens pass timeout w d w' d' w0
    (ML : MachineLaws M) (CL : CipherLaws C)
    (Hpath : (w_path w).2 <> Some "tmp"%string) (Hok : file_ok (retained w)) (Hsecrets : secrets_ok (w_ring w))
    (Hencrypt : encryptwallet pass (w, d) = (Ok tt, (w', d')))
    (Hfit : forall data, wd_disk d' !! w_path w = Some data -> fits_compact data)
    (Hread : fault (wd_ops d') = Done) :
  exists w1 d1, load_or_create (w_path w) (w_network w) (w0, d') = (Ok tt, (w1, d1))
    /\ w_ring w1 = forget_secrets (w_ring w) /\ is_encrypted w1 = true
    /\ exists until generation w2 d2, walletpassphrase pass timeout (w1, d1) = (Ok (until, generation), (w2, d2))
         /\ w_ring w2 = w_ring w /\ w_scripts w2 = w_scripts w /\ w_history w2 = retain_history (w_history w) /\ w_scan w2 = w_scan w.
Proof.
  destruct (encryptwallet_Ok _ _ _ _ _ Hencrypt) as (secrets&kdf&key&nonce&ct&d1&He&Hb&Hkdf&Hkey&Hnonce&Hct&Hsave).
  set (wl := lock_inner _) in Hsave.
  assert (file_ok (retained wl)) as Hokl.
  { destruct Hok as [Hf _ Hr Hsc Hh Hscan]. constructor; try done; [|by apply ring_ok_forget].
    intros enc [= <-]. unfold encryption_ok. cbn. subst kdf nonce. cbn. split_and!; [by_decide..|apply entropy_array|apply entropy_array]. }
  destruct (saved_decodes wl d1 w' d' Hpath Hokl ltac:(done) Hsave Hfit) as (data&Hdata&Hdec).
  destruct (save_Ok wl _ _ _ Hpath Hsave) as (public&payload&_&[_ Hw']&_).
  set (enc := mkEncrypted kdf nonce ct) in *. assert (w' = retained wl) as -> by exact Hw'.
  set (w1 := restarted wl (retained wl)) in *. eexists w1, _. split.
  { unfold load_or_create, fs_read, mbind, wallet_bind. change (w_path wl) with (w_path w) in Hdata. rewrite Hread, Hdata. unfold of_result.
    change (w_path w) with (w_path wl). change (w_network w) with (w_network wl). rewrite Hdec. reflexivity. }
  assert (forget_secrets (forget_secrets (w_ring w)) = forget_secrets (w_ring w)) as Hff by apply same_keys_forget.
  split; [exact Hff|]. split; [done|].
  assert (decrypt_wallet_secrets (w_network w) key nonce ct = Ok secrets) as Hopen.
  { unfold decrypt_wallet_secrets, encrypt_wallet_secrets in *. apply ok_or_Ok in Hct. by rewrite (aead_opens _ _ _ _ _ Hct). }
  assert (same_keys (w_ring w1) (w_ring w)) as Hsame.
  { unfold same_keys. change (w_ring w1) with (forget_secrets (forget_secrets (w_ring w))). by rewrite !Hff. }
  match goal with |- context [walletpassphrase _ _ (_, ?dd)] =>
    destruct (walletpassphrase_opens pass timeout w1 dd enc key secrets (w_ring w)
      eq_refl eq_refl Hkey Hopen Hsecrets Hb Hsame) as (until&gen&w2&d2&Hp&Ew2&_) end.
  exists until, gen, w2, d2. split; [exact Hp|]. by rewrite Ew2.
Qed.

(** ** Saving an open wallet *)

(** The file of an open wallet has the nonce of the payload before: its
    header is written before the secrets are encrypted anew.  When data that
    was encrypted under one nonce does not decrypt under another, no
    passphrase opens the file, although saving succeeded. *)
Lemma unlocked_save_unreadable w d w' d' w0 enc key pass timeout
    (Hbind : forall key' nonce nonce' aad msg ct, aead_encrypt key nonce aad msg = Some ct -> nonce' <> nonce -> aead_decrypt key' nonce' aad ct = None)
    (Hpath : (w_path w).2 <> Some "tmp"%string) (Hok : file_ok (retained w))
    (Hsave : save (w, d) = (Ok tt, (w', d')))
    (Hfit : forall data, wd_disk d' !! w_path w = Some data -> fits_compact data)
    (Hread : fault (wd_ops d') = Done)
    (Henc : sl_encrypted (w_seal w) = Some enc) (Hopen : sl_unlocked_key (w_seal w) = Some key)
    (Hnonce : entropy (wd_draws d) WALLET_ENCRYPTION_NONCE_BYTES <> enc_nonce enc)
    (Hkdf : is_ok (derive_wallet_key pass (enc_kdf enc)) = true) :
  exists w1 d1, load_or_create (w_path w) (w_network w) (w0, d') = (Ok tt, (w1, d1))
    /\ (walletpassphrase pass timeout (w1, d1)).1 = Err IncorrectPassphrase.
Proof.
  destruct (saved_decodes w d w' d' Hpath Hok ltac:(congruence) Hsave Hfit) as (data&Hd&Hdec).
  destruct (save_Ok w _ _ _ Hpath Hsave) as (public&payload&_&Hpay&_). unfold payload_of in Hpay.
  cbn [w_seal retained set_history w_ring w_network] in Hpay. rewrite Henc, Hopen in Hpay. destruct Hpay as (plaintext&_&Hct&->).
  eexists _, _. split.
  { unfold load_or_create, fs_read, mbind, wallet_bind. rewrite Hread, Hd. unfold of_result. rewrite Hdec. reflexivity. }
  unfold restarted. cbn [w_seal resealed set_seal sl_encrypted set_encrypted]. rewrite Henc.
  unfold walletpassphrase, lock_if_expired, is_encrypted, mbind, wallet_bind, wallet, of_result, mret, wallet_ret. cbn.
  destruct (derive_wallet_key pass (enc_kdf enc)) as [k|e|]; try done. cbn.
  unfold decrypt_wallet_secrets, encrypt_wallet_secrets in *. apply ok_or_Ok in Hct.
  by rewrite (Hbind k _ (enc_nonce enc) _ _ _ Hct (not_eq_sym Hnonce)).
Qed.
End restart.
