(* ===== verification/WalletSafety.v ===== *)
(** * What no call breaks

    Two invariants over any sequence of calls of the wallet: a locked wallet
    holds no secret until it is given its passphrase, and a secret the wallet
    holds is the secret of the address it is kept for. *)

From S2P Require Import Prelude Consensus Rewards Encoding Hashing Address Transaction Block Script Storage FlatFiles ChainIndex HeaderChain Payees FluxnodeChecks Ledger BlockConnect Mempool.
From S2P Require Import Wallet WalletScripts WalletOps WalletFile WalletRestart.
From Stdlib Require Import ZArith Lia.
From stdpp Require Import base list option numbers strings gmap sets sorting.
#[local] Open Scope Z_scope.

Section safety.
  Context {H : Hashes} {S256 : Secp} {Rc : Recovery} {SK : SecretKeys} {C : Cipher} {SA : SaplingKeys}.
  Context {T : ShieldedTrees} {SW : SaplingWitnesses} {M : Machine}.
  Context {S : Type} {KV : KeyValueStore S}.

(** ** Calls *)
Inductive WalletCall :=
| SetLabel (script_pubkey label : bytes) | SetFee (fee : Z)
| LockOutpoint (o : OutPoint) | UnlockOutpoint (o : OutPoint) | UnlockAll
| RecordTxids (txids : list Hash256) | RecordTransactions (txs : list (Hash256 * bytes))
| RecordValues (txid : Hash256) (raw : bytes) (values : gmap bytes bytes)
| ImportWif (text : bytes) | ImportWatch (script_pubkey : bytes) | ImportRedeem (redeem_script : bytes)
| RefillKeypool (newsize : nat) | NewAddress (compressed is_change : bool)
| NewSaplingAddress | ImportExtsk (extsk : bytes) | ImportExtfvk (extfvk : bytes)
| BackfillRseed (key : SaplingNoteKey) (rseed : SaplingRseedBytes) | ResetScan
| InitScan (chain : ChainState S) | SyncNotes (chain : ChainState S)
| Backup (destination : Path) | AskUnlocked | LockWallet | EncryptWallet (passphrase : bytes)
| ChangePassphrase (old_passphrase new_passphrase : bytes) | Unlock (passphrase : bytes) (timeout : Z).
Definition ignoring {A} (m : wallet_op A) : wallet_op unit := _ ← m; mret tt.
Definition run_call (c : WalletCall) : wallet_op unit :=
  match c with
  | SetLabel script_pubkey label => set_label_for_script_pubkey script_pubkey label
  | SetFee fee => set_pay_tx_fee_per_kb fee
  | LockOutpoint o => lock_outpoint o
  | UnlockOutpoint o => unlock_outpoint o
  | UnlockAll => unlock_all_outpoints
  | RecordTxids txids => ignoring (record_txids txids)
  | RecordTransactions txs => ignoring (record_transactions txs)
  | RecordValues txid raw values => record_transaction_with_values txid raw values
  | ImportWif text => import_wif text
  | ImportWatch script_pubkey => import_watch_script_pubkey script_pubkey
  | ImportRedeem redeem_script => import_redeem_script redeem_script
  | RefillKeypool newsize => refill_keypool newsize
  | NewAddress compressed is_change => ignoring (reserve_from_keypool_or_generate compressed is_change)
  | NewSaplingAddress => ignoring generate_new_sapling_address_bytes
  | ImportExtsk extsk => ignoring (import_sapling_extsk extsk)
  | ImportExtfvk extfvk => ignoring (import_sapling_extfvk extfvk)
  | BackfillRseed key rseed => ignoring (backfill_sapling_note_rseed key rseed)
  | ResetScan => reset_sapling_scan
  | InitScan chain => ensure_sapling_scan_initialized_to_tip chain
  | SyncNotes chain => sync_sapling_notes chain
  | Backup destination => backup_to destination
  | AskUnlocked => ignoring unlocked_until
  | LockWallet => walletlock
  | EncryptWallet passphrase => encryptwallet passphrase
  | ChangePassphrase old_passphrase new_passphrase => walletpassphrasechange old_passphrase new_passphrase
  | Unlock passphrase timeout => ignoring (walletpassphrase passphrase timeout)
  end.
(** The calls of a session, whatever each returns. *)
Definition run_calls (calls : list WalletCall) (s : Wallet * World) : Wallet * World :=
  foldl (fun s c => (run_call c s).2) s calls.

(** ** Triples: an invariant of the wallet, also when a call fails *)
Definition triple {A} (I : Wallet -> Prop) (m : wallet_op A) (Q : A -> Prop) : Prop :=
  forall w d r s', I w -> m (w, d) = (r, s') -> I s'.1 /\ match r with Ok a => Q a | _ => True end.
Definition keeps {A} (I : Wallet -> Prop) (m : wallet_op A) : Prop := triple I m (fun _ => True).

Section rules.
  Context (I : Wallet -> Prop).
Lemma triple_bind {A D} (m : wallet_op A) (f : A -> wallet_op D) Q R :
  triple I m Q -> (forall a, Q a -> triple I (f a) R) -> triple I (m ≫= f) R.
Proof.
  intros Hm Hf w d r s' Hw. unfold mbind, wallet_bind. destruct (m (w, d)) as [[a|e|] [w1 d1]] eqn:E.
  - destruct (Hm _ _ _ _ Hw E) as [Hw1 Ha]. by apply Hf.
  - intros [= <- <-]. by destruct (Hm _ _ _ _ Hw E).
  - intros [= <- <-]. by destruct (Hm _ _ _ _ Hw E).
Qed.
Lemma as_keeps {A} (m : wallet_op A) : keeps I m -> triple I m (fun _ => True).
Proof. done. Qed.
Lemma wallet_keeps_bind {A D} (m : wallet_op A) (f : A -> wallet_op D) R :
  keeps I m -> (forall a, triple I (f a) R) -> triple I (m ≫= f) R.
Proof. intros Hm Hf. eapply triple_bind; [exact Hm|]. intros a _. apply Hf. Qed.
(** A call that cannot succeed. *)
Lemma stops_bind {A D} (m : wallet_op A) (f : A -> wallet_op D) R : triple I m (fun _ => False) -> triple I (m ≫= f) R.
Proof. intros Hm. eapply triple_bind; [exact Hm|]. by intros a []. Qed.
Lemma triple_weaken {A} (m : wallet_op A) (Q R : A -> Prop) : triple I m Q -> (forall a, Q a -> R a) -> triple I m R.
Proof. intros Hm HQ w d r s' Hw E. destruct (Hm _ _ _ _ Hw E) as [? Hr]. split; [done|]. destruct r; auto. Qed.
Lemma triple_ret {A} (a : A) (Q : A -> Prop) : Q a -> triple I (mret a) Q.
Proof. by intros Ha w d r s' Hw [= <- <-]. Qed.
Lemma triple_failing {A} e (Q : A -> Prop) : triple I (failing e) Q.
Proof. by intros w d r s' Hw [= <- <-]. Qed.
Lemma triple_result {A} (r : result WalletError A) : triple I (of_result r) (fun a => r = Ok a).
Proof. intros w d r' s' Hw [= <- <-]. split; [done|]. by destruct r. Qed.
Lemma triple_wallet : triple I wallet I.
Proof. by intros w d r s' Hw [= <- <-]. Qed.
Lemma triple_wallet_bind {A} (f : Wallet -> wallet_op A) R : (forall w, I w -> triple I (f w) R) -> triple I (wallet ≫= f) R.
Proof. intros Hf. eapply triple_bind; [apply triple_wallet|done]. Qed.
Lemma keeps_modify f : (forall w, I w -> I (f w)) -> keeps I (modify f).
Proof. intros Hf w d r s' Hw [= <- <-]. split; [by apply Hf|done]. Qed.
Lemma keeps_now : keeps I current_unix_seconds.
Proof. by intros w d r s' Hw [= <- <-]. Qed.
Lemma keeps_fill n : keeps I (fill_bytes n).
Proof. by intros w d r s' Hw [= <- <-]. Qed.
Lemma keeps_file_op f : keeps I (file_op f).
Proof. intros w d r s' Hw. unfold file_op. destruct (f _ _) as [r0 disk]. intros [= <- <-]. split; [done|by destruct r0]. Qed.
Lemma keeps_fs_read path : keeps I (fs_read path).
Proof. intros w d r s' Hw. unfold fs_read. intros [= <- <-]. split; [done|by destruct (fault _)]. Qed.
Lemma keeps_file_exists path : keeps I (file_exists path).
Proof. by intros w d r s' Hw [= <- <-]. Qed.
Lemma keeps_succeeded m : keeps I m -> keeps I (succeeded m).
Proof.
  intros Hm w d r s' Hw. unfold succeeded. destruct (m (w, d)) as [[a|e|] s1] eqn:E; intros [= <- <-]; by destruct (Hm _ _ _ _ Hw E).
Qed.
Lemma keeps_if {A} (b : bool) (m1 m2 : wallet_op A) Q :
  (b = true -> triple I m1 Q) -> (b = false -> triple I m2 Q) -> triple I (if b then m1 else m2) Q.
Proof. destruct b; auto. Qed.
Lemma keeps_on_error m handler : keeps I m -> (forall e, keeps I (handler e)) -> keeps I (on_error m handler).
Proof.
  intros Hm Hh w d r s' Hw. unfold on_error. destruct (m (w, d)) as [[a|e|] [w1 d1]] eqn:E; destruct (Hm _ _ _ _ Hw E) as [Hw1 _].
  - by intros [= <- <-].
  - by apply Hh.
  - by intros [= <- <-].
Qed.
Lemma keeps_for_each {A} (f : A -> wallet_op unit) l : (forall a, keeps I (f a)) -> keeps I (for_each f l).
Proof. intros Hf. induction l as [|a l IH]; cbn; [by apply triple_ret|]. apply wallet_keeps_bind; [apply Hf|done]. Qed.
Lemma keeps_write_file path data : keeps I (write_file_atomic path data).
Proof.
  unfold write_file_atomic, fs_create_dir_all, fs_write, fs_rename, fs_remove_file.
  repeat (apply wallet_keeps_bind; [first [apply keeps_file_op|apply keeps_succeeded, keeps_file_op]|intros ?]).
  apply keeps_if; intros _; [by apply triple_ret|]. apply wallet_keeps_bind; [apply keeps_succeeded, keeps_file_op|]. intros _. apply keeps_file_op.
Qed.
End rules.
Create HintDb wallet_keeps discriminated.
Hint Resolve keeps_now keeps_fill keeps_fs_read keeps_file_exists keeps_write_file triple_failing : wallet_keeps.

Lemma run_calls_keep (I : Wallet -> Prop) (P : WalletCall -> Prop) calls s :
  (forall c, P c -> keeps I (run_call c)) -> Forall P calls -> I s.1 -> I (run_calls calls s).1.
Proof.
  intros Hc Hall. revert s. induction Hall as [|c calls Hp _ IH]; intros [w d] Hw; [done|]. apply IH.
  destruct (run_call c (w, d)) as [r s'] eqn:E. by destruct (Hc c Hp _ _ _ _ Hw E).
Qed.

(** ** Invariants of keys and lock

    [P] holds of the transparent keys, [Q] of the sapling keys, and [B] of
    whether the wallet is encrypted and open. *)
Section invariant.
  Context (P : WalletKey -> Prop) (Q : SaplingKeyEntry -> Prop) (B : bool -> bool -> Prop).
Definition is_open (w : Wallet) : bool := bool_decide (is_Some (sl_unlocked_key (w_seal w))).
Definition holds (w : Wallet) : Prop :=
  Forall P (ring_keys (w_ring w)) /\ Forall Q (kr_sapling_keys (w_ring w)) /\ B (is_encrypted w) (is_open w).
(** Either new keys are fine, or the wallet is always encrypted and shut. *)
Definition new_ok : Prop :=
  (forall secret c k, from_secret secret c = Ok k -> P k)
  /\ (forall x v n, sapling_extfvk_from_extsk x = Ok v -> Q (mkSaplingKey v (Some x) n)) /\ (forall e o, B e o).
Definition always_shut : Prop := forall e o, B e o -> e = true /\ o = false.
  Context (Pforget : forall k, P k -> P (forget_secret k)) (Qforget : forall e, Q e -> Q (set_extsk None e))
    (Qindex : forall i e, Q e -> Q (set_next_index i e)) (Hcase : new_ok \/ always_shut).
#[local] Notation keeps := (keeps holds).
#[local] Notation triple := (triple holds).

(** A change that neither decrypts nor opens the wallet. *)
Definition stays_shut (f : Wallet -> Wallet) : Prop :=
  (forall w, is_encrypted w = true -> is_encrypted (f w) = true) /\ (forall w, is_open w = false -> is_open (f w) = false).
Lemma holds_shut f w : stays_shut f -> B (is_encrypted w) (is_open w) -> B (is_encrypted (f w)) (is_open (f w)).
Proof.
  intros [He Ho] HB. destruct Hcase as [(_&_&Hall)|Hshut]; [apply Hall|]. destruct (Hshut _ _ HB) as [Ee Eo].
  rewrite (He _ Ee), (Ho _ Eo). by rewrite <- Ee, <- Eo at 1.
Qed.
Lemma keeps_seal f : (forall w, w_ring (f w) = w_ring w) -> stays_shut f -> keeps (modify f).
Proof.
  intros Hr Hs. apply keeps_modify. intros w (HP&HQ&HB). unfold holds. rewrite Hr. split_and!; [done|done|by apply holds_shut].
Qed.
Lemma keeps_other f : (forall w, w_ring (f w) = w_ring w) -> (forall w, w_seal (f w) = w_seal w) -> keeps (modify f).
Proof. intros Hr Hs. apply keeps_seal; [done|]. unfold stays_shut, is_encrypted, is_open. split; intros w; by rewrite Hs. Qed.
Lemma holds_ring f w :
  (Forall P (ring_keys (w_ring w)) -> Forall P (ring_keys (f (w_ring w)))) ->
  (Forall Q (kr_sapling_keys (w_ring w)) -> Forall Q (kr_sapling_keys (f (w_ring w)))) -> holds w -> holds (update_ring f w).
Proof. intros HP HQ (?&?&?). split_and!; cbn; auto. Qed.
Lemma keeps_ring f :
  (forall r, Forall P (ring_keys r) -> Forall P (ring_keys (f r))) ->
  (forall r, Forall Q (kr_sapling_keys r) -> Forall Q (kr_sapling_keys (f r))) -> keeps (modify (update_ring f)).
Proof. intros HP HQ. apply keeps_modify. intros w. apply holds_ring; auto. Qed.
Lemma holds_lock_inner w : holds w -> holds (lock_inner w).
Proof.
  intros (HP&HQ&HB). unfold holds. cbn [w_ring lock_inner set_ring]. rewrite forget_ring_keys. split_and!.
  - apply Forall_fmap. eapply Forall_impl; [done|]. intros k Hk. by apply Pforget.
  - cbn. apply Forall_fmap. eapply Forall_impl; [done|]. intros e Hq. by apply Qforget.
  - apply (holds_shut lock_inner); [by split|done].
Qed.

(** *** Locking and saving *)
Lemma keeps_lock_if_expired : keeps lock_if_expired.
Proof.
  apply triple_wallet_bind. intros w _. apply keeps_if; intros _; [by apply triple_ret|]. apply wallet_keeps_bind; [apply keeps_now|]. intros now.
  apply keeps_if; intros _; [apply keeps_modify, holds_lock_inner|by apply triple_ret].
Qed.
Lemma keeps_unlocked_until : keeps unlocked_until.
Proof. apply wallet_keeps_bind; [apply keeps_lock_if_expired|]. intros _. apply triple_wallet_bind. intros w _. by apply triple_ret. Qed.
(** Past this point new keys are fine. *)
Lemma triple_require_unlocked : triple require_unlocked (fun _ => new_ok).
Proof.
  apply wallet_keeps_bind; [apply keeps_lock_if_expired|]. intros _. apply triple_wallet_bind. intros w (_&_&HB). destruct Hcase as [Hnew|Hshut].
  - repeat case_match; first [by apply triple_ret|apply triple_failing].
  - destruct (Hshut _ _ HB) as [-> Ho]. cbn. unfold is_open in Ho. destruct (sl_unlocked_key (w_seal w)) as [k|]; [|apply triple_failing].
    by rewrite bool_decide_eq_true_2 in Ho.
Qed.
Lemma triple_can_generate : triple can_generate_keys (fun b => b = true -> new_ok).
Proof.
  apply wallet_keeps_bind; [apply keeps_lock_if_expired|]. intros _. apply triple_wallet_bind. intros w (_&_&HB). apply triple_ret.
  destruct Hcase as [Hnew|Hshut]; [done|]. destruct (Hshut _ _ HB) as [-> Ho]. unfold is_open in Ho. cbn. congruence.
Qed.
Lemma keeps_secrets_payload : keeps secrets_payload.
Proof.
  apply triple_wallet_bind. intros w _. destruct (sl_encrypted (w_seal w)) as [enc|] eqn:He.
  2: { eapply triple_weaken; [apply triple_result|done]. }
  destruct (sl_unlocked_key (w_seal w)) as [key|]; [|by apply triple_ret].
  eapply triple_bind; [apply triple_result|]. intros pt _. apply wallet_keeps_bind; [apply keeps_fill|]. intros nonce.
  eapply triple_bind; [apply triple_result|]. intros ct _. apply wallet_keeps_bind; [|intros _; by apply triple_ret].
  apply keeps_seal; [done|]. by split.
Qed.
Lemma keeps_save : keeps save.
Proof.
  apply wallet_keeps_bind; [by apply keeps_other|]. intros _. apply triple_wallet_bind. intros w _.
  eapply triple_bind; [apply triple_result|]. intros public _. apply wallet_keeps_bind; [apply keeps_secrets_payload|]. intros payload.
  apply keeps_write_file.
Qed.
Lemma keeps_save_or undo : keeps (modify undo) -> keeps (save_or undo).
Proof.
  intros Hu. apply wallet_keeps_bind; [|intros _; by apply keeps_other]. apply keeps_on_error; [apply keeps_save|]. intros e.
  apply wallet_keeps_bind; [done|]. intros _. apply triple_failing.
Qed.
Lemma keeps_save_or_other undo :
  (forall w, w_ring (undo w) = w_ring w) -> (forall w, w_seal (undo w) = w_seal w) -> keeps (save_or undo).
Proof. intros. by apply keeps_save_or, keeps_other. Qed.
Lemma keeps_save_if changed : keeps (save_if changed).
Proof. apply keeps_if; intros _; [|by apply triple_ret]. apply wallet_keeps_bind; [apply keeps_save|]. intros _. by apply keeps_other. Qed.
#[local] Hint Resolve keeps_now keeps_fill keeps_save keeps_save_if keeps_write_file : wallet_keeps.

(** Through the code of a call, step by step. *)
Ltac keeps :=
  repeat first
  [ apply triple_wallet_bind; intros ? ?
  | apply wallet_keeps_bind; [solve [auto with wallet_keeps | by apply keeps_other | keeps]|intros ?]
  | eapply triple_bind; [apply triple_result|intros ? ?]
  | apply keeps_if; intros ?
  | by apply triple_ret | apply triple_failing
  | apply as_keeps; solve [auto with wallet_keeps]
  | by apply keeps_save_or_other | by apply keeps_other | case_match ].

Lemma keeps_set_label script_pubkey label : keeps (set_label_for_script_pubkey script_pubkey label).
Proof. unfold set_label_for_script_pubkey. keeps. Qed.
Lemma keeps_set_fee fee : keeps (set_pay_tx_fee_per_kb fee).
Proof. unfold set_pay_tx_fee_per_kb. keeps. Qed.
Lemma keeps_lock_outpoint o : keeps (lock_outpoint o).
Proof. unfold lock_outpoint. keeps. Qed.
Lemma keeps_unlock_outpoint o : keeps (unlock_outpoint o).
Proof. unfold unlock_outpoint. keeps. Qed.
Lemma keeps_unlock_all : keeps unlock_all_outpoints.
Proof. unfold unlock_all_outpoints. keeps. Qed.
Lemma keeps_record_txids txids : keeps (record_txids txids).
Proof. unfold record_txids. keeps. Qed.
Lemma keeps_record_transactions txs : keeps (record_transactions txs).
Proof. unfold record_transactions. keeps. Qed.
Lemma keeps_record_values txid raw values : keeps (record_transaction_with_values txid raw values).
Proof. unfold record_transaction_with_values. keeps. Qed.
Lemma keeps_import_watch script_pubkey : keeps (import_watch_script_pubkey script_pubkey).
Proof. unfold import_watch_script_pubkey. keeps. Qed.
Lemma keeps_import_redeem redeem_script : keeps (import_redeem_script redeem_script).
Proof. unfold import_redeem_script. keeps. Qed.
Lemma keeps_backfill key rseed : keeps (backfill_sapling_note_rseed key rseed).
Proof. unfold backfill_sapling_note_rseed. keeps. Qed.
Lemma keeps_reset : keeps reset_sapling_scan.
Proof. unfold reset_sapling_scan. keeps. Qed.
Lemma keeps_backup destination : keeps (backup_to destination).
Proof. unfold backup_to. keeps. Qed.
Lemma keeps_scan_state : keeps scan_state.
Proof. unfold scan_state. keeps. Qed.
Lemma keeps_modify_scan f : keeps (modify_scan f).
Proof. by apply keeps_other. Qed.
#[local] Hint Resolve keeps_scan_state keeps_modify_scan : wallet_keeps.
Lemma keeps_init_scan (chain : ChainState S) : keeps (ensure_sapling_scan_initialized_to_tip chain).
Proof. unfold ensure_sapling_scan_initialized_to_tip. keeps. Qed.
Lemma keeps_append_witnesses node : keeps (append_witnesses node).
Proof. unfold append_witnesses. keeps. eapply triple_weaken; [apply triple_result|done]. Qed.
#[local] Hint Resolve keeps_append_witnesses : wallet_keeps.
Lemma keeps_scan_output keys txid height io : keeps (scan_output keys txid height io).
Proof. unfold scan_output. keeps. Qed.
Lemma keeps_scan_block keys height hash block : keeps (scan_block keys height hash block).
Proof.
  unfold scan_block. apply wallet_keeps_bind; [|intros _; apply keeps_modify_scan]. apply keeps_for_each. intros tx. unfold scan_transaction.
  eapply triple_bind; [apply triple_result|]. intros id _. apply keeps_for_each. intros io. apply keeps_scan_output.
Qed.
#[local] Hint Resolve keeps_scan_block : wallet_keeps.
Lemma keeps_scan_heights (chain : ChainState S) keys count height : keeps (scan_heights chain keys count height).
Proof. revert height. induction count as [|count IH]; intros height; cbn [scan_heights]; keeps. Qed.
#[local] Hint Resolve keeps_scan_heights : wallet_keeps.
Lemma keeps_sync (chain : ChainState S) : keeps (sync_sapling_notes chain).
Proof. unfold sync_sapling_notes. keeps. Qed.

(** *** Keys *)
Lemma ring_keys_app keys r : ring_keys (set_keys (kr_keys r ++ keys) r) = kr_keys r ++ keys ++ map kp_key (kr_keypool r).
Proof. unfold ring_keys. cbn. by rewrite app_assoc. Qed.
Lemma keeps_add_key k : P k -> keeps (modify (update_keys (fun l => l ++ [k]))).
Proof.
  intros Hk. apply keeps_ring; [|done]. intros r [H1' H2']%Forall_app. unfold ring_keys. cbn.
  apply Forall_app. split; [|done]. apply Forall_app. by split; [|repeat constructor].
Qed.
Lemma keeps_take_keys n : keeps (modify (update_keys (take n))).
Proof.
  apply keeps_ring; [|done]. intros r [H1' H2']%Forall_app. unfold ring_keys. cbn. apply Forall_app. split; [by apply Forall_take|done].
Qed.
Lemma keeps_pool f : (forall l, Forall P (map kp_key l) -> Forall P (map kp_key (f l))) -> keeps (modify (update_pool f)).
Proof. intros Hf. apply keeps_ring; [|done]. intros r [H1' H2']%Forall_app. unfold ring_keys. cbn. apply Forall_app. auto. Qed.
Lemma keeps_change f : keeps (modify (update_change f)).
Proof. by apply keeps_ring. Qed.
Lemma keeps_import_wif text : keeps (import_wif text).
Proof.
  eapply triple_bind; [apply triple_require_unlocked|]. intros _ (Hn&_). apply triple_wallet_bind. intros w _.
  eapply triple_bind; [apply triple_result|]. intros [secret c] _. eapply triple_bind; [apply triple_result|]. intros k Hk.
  apply keeps_if; intros _; [by apply triple_ret|]. apply wallet_keeps_bind; [eapply keeps_add_key, Hn, Hk|]. intros _.
  apply keeps_save_or, keeps_take_keys.
Qed.
Lemma triple_generate_loop tries c r : new_ok -> triple (generate_key_loop tries c r) P.
Proof.
  intros (Hn&_). induction tries as [|tries IH]; cbn [generate_key_loop]; [apply triple_failing|].
  apply wallet_keeps_bind; [apply keeps_fill|]. intros seed. destruct (from_secret seed c) as [k|e|] eqn:Ek.
  - apply keeps_if; intros _; [done|]. apply triple_ret. by eapply Hn.
  - destruct e; first [done|apply triple_failing].
  - eapply triple_weaken; [apply triple_result|done].
Qed.
Lemma triple_generate c : new_ok -> triple (generate_unique_key c) P.
Proof. intros Hn. apply triple_wallet_bind. intros w _. by apply triple_generate_loop. Qed.
Lemma keeps_fill_keypool n : new_ok -> keeps (fill_keypool n).
Proof.
  intros Hn. induction n as [|n IH]; cbn [fill_keypool]; [by apply triple_ret|]. eapply triple_bind; [by apply triple_generate|]. intros k Hk.
  apply wallet_keeps_bind; [apply keeps_now|]. intros at_. apply wallet_keeps_bind; [|done]. apply keeps_pool. intros l Hl. rewrite map_app.
  apply Forall_app. by split; [|repeat constructor].
Qed.
Lemma keeps_take_pool f : (forall l, exists n, f l = take n l) -> keeps (modify (update_pool f)).
Proof. intros Hf. apply keeps_pool. intros l Hl. destruct (Hf l) as [n ->]. rewrite <- firstn_map. by apply Forall_take. Qed.
Lemma keeps_refill newsize : keeps (refill_keypool newsize).
Proof.
  eapply triple_bind; [apply triple_require_unlocked|]. intros ? Hn. cbv beta in Hn. apply triple_wallet_bind. intros w _.
  apply keeps_if; intros _; [by apply triple_ret|]. apply wallet_keeps_bind; [by apply keeps_fill_keypool|]. intros _.
  apply keeps_save_or, keeps_take_pool. intros l. by eexists.
Qed.
Lemma triple_pop c : triple (pop_keypool c) (fun e => forall entry, e = Some entry -> P (kp_key entry)).
Proof.
  apply triple_wallet_bind. intros w (HP&_). apply keeps_if; intros _; [|by apply triple_ret].
  apply wallet_keeps_bind; [apply keeps_pool; intros l Hl; rewrite <- skipn_map; by apply Forall_drop|]. intros _. apply triple_ret. intros entry He.
  apply Forall_app in HP as [_ HP]. destruct (kr_keypool (w_ring w)) as [|e l]; [done|]. injection He as ->. by inversion HP.
Qed.
Lemma keeps_unreserve n added popped change : (forall entry, popped = Some entry -> P (kp_key entry)) -> keeps (modify (unreserve n added popped change)).
Proof.
  intros Hp. apply keeps_modify. intros w Hw. unfold unreserve.
  assert (forall f, keeps (modify f) -> forall w, holds w -> holds (f w)) as Hm by (intros f Hf w1 Hw1; by destruct (Hf w1 (mkWorld 0 0 0 ∅) _ _ Hw1 eq_refl)).
  assert (holds (update_pool (fun l => take (length l - added) l) (update_keys (take n) w))) as H1'.
  { apply Hm; [apply keeps_take_pool; intros l; by eexists|]. apply Hm; [apply keeps_take_keys|done]. }
  assert (forall w, holds w -> holds (match popped with Some entry => update_pool (cons entry) w | None => w end)) as H2'.
  { intros w1 Hw1. destruct popped as [entry|]; [|done]. apply Hm; [|done]. apply keeps_pool. intros l Hl. constructor; [by apply Hp|done]. }
  destruct change; [apply Hm; [apply keeps_change|]|]; by apply H2'.
Qed.
Lemma keeps_reserve c is_change : keeps (reserve_from_keypool_or_generate c is_change).
Proof.
  apply triple_wallet_bind. intros w _. eapply triple_bind; [apply triple_pop|]. intros popped Hp.
  eapply (triple_bind _ _ _ P).
  { destruct popped as [entry|]; [apply triple_ret; by apply Hp|]. eapply triple_bind; [apply triple_require_unlocked|]. intros ? Hn. cbv beta in Hn. by apply triple_generate. }
  intros k Hk. eapply triple_bind; [apply triple_can_generate|]. intros can Hcan. apply wallet_keeps_bind.
  { apply keeps_if; [|intros _; by apply triple_ret]. intros Ec. apply triple_wallet_bind. intros w1 _.
    apply wallet_keeps_bind; [by apply keeps_fill_keypool, Hcan|]. intros _. by apply triple_ret. }
  intros added. apply triple_wallet_bind. intros w1 _. eapply triple_bind; [apply triple_result|]. intros addr _.
  apply wallet_keeps_bind. { case_match; [apply keeps_change|by apply triple_ret]. }
  intros _. apply wallet_keeps_bind; [by apply keeps_add_key|]. intros _.
  apply wallet_keeps_bind; [by apply keeps_save_or, keeps_unreserve|]. intros _. by apply triple_ret.
Qed.

(** *** Sapling keys *)
Lemma keeps_sapling f : (forall l, Forall Q l -> Forall Q (f l)) -> keeps (modify (update_sapling f)).
Proof. intros Hf. apply keeps_ring; [done|]. intros r. apply Hf. Qed.
Lemma keeps_viewing f : keeps (modify (update_viewing f)).
Proof. by apply keeps_ring. Qed.
Lemma keeps_add_sapling x v n : new_ok -> sapling_extfvk_from_extsk x = Ok v ->
  keeps (modify (update_sapling (fun l => l ++ [mkSaplingKey v (Some x) n]))).
Proof. intros (_&Hq&_) Hv. apply keeps_sapling. intros l Hl. apply Forall_app. split; [done|]. repeat constructor. by apply Hq. Qed.
Lemma keeps_sapling_address : keeps generate_new_sapling_address_bytes.
Proof.
  apply triple_wallet_bind. intros w _. apply wallet_keeps_bind.
  { apply keeps_if; intros _; [|by apply triple_ret]. eapply triple_bind; [apply triple_require_unlocked|]. intros ? Hn. cbv beta in Hn.
    apply wallet_keeps_bind; [apply keeps_fill|]. intros seed. eapply triple_bind; [apply triple_result|]. intros v Hv. by apply keeps_add_sapling. }
  intros _. apply triple_wallet_bind. intros w1 (_&HQ&_). eapply triple_bind; [apply triple_result|]. intros e He.
  assert (Q e) as Hq.
  { apply ok_or_Ok in He. destruct (kr_sapling_keys (w_ring w1)); [done|]. injection He as ->. by inversion HQ. }
  eapply triple_bind; [apply triple_result|]. intros v _. eapply triple_bind; [apply triple_result|]. intros [found addr] _.
  eapply triple_bind; [apply triple_result|]. intros next _. apply wallet_keeps_bind.
  { apply keeps_sapling. intros l Hl. apply Forall_alter; [done|]. intros e' _ He'. by apply Qindex. }
  intros _. apply wallet_keeps_bind; [|intros _; by apply triple_ret]. apply keeps_save_or, keeps_sapling. intros l Hl.
  case_match; [constructor|]. by apply Forall_insert.
Qed.
Lemma keeps_import_extsk extsk : keeps (import_sapling_extsk extsk).
Proof.
  eapply triple_bind; [apply triple_require_unlocked|]. intros ? Hn. cbv beta in Hn. eapply triple_bind; [apply triple_result|]. intros v Hv.
  apply triple_wallet_bind. intros w _. apply keeps_if; intros _; [by apply triple_ret|].
  apply wallet_keeps_bind; [by apply keeps_add_sapling|]. intros _. apply wallet_keeps_bind; [|intros _; by apply triple_ret].
  apply keeps_save_or, keeps_sapling. intros l Hl. by apply Forall_take.
Qed.
Lemma keeps_import_extfvk extfvk : keeps (import_sapling_extfvk extfvk).
Proof.
  eapply triple_bind; [apply triple_result|]. intros _ _. apply triple_wallet_bind. intros w _. apply keeps_if; intros _; [by apply triple_ret|].
  eapply triple_bind; [apply triple_result|]. intros next _. apply wallet_keeps_bind; [apply keeps_viewing|]. intros _.
  apply wallet_keeps_bind; [|intros _; by apply triple_ret]. apply keeps_save_or, keeps_viewing.
Qed.

(** *** Encryption *)
Lemma keeps_walletlock : keeps walletlock.
Proof. apply triple_wallet_bind. intros w _. apply keeps_if; intros _; [apply triple_failing|apply keeps_modify, holds_lock_inner]. Qed.
Lemma keeps_new_kdf pass : keeps (new_wallet_kdf pass).
Proof. unfold new_wallet_kdf. keeps. Qed.
Definition restores : Prop := new_ok -> forall blob r, Forall P (ring_keys r) -> Forall Q (kr_sapling_keys r) ->
  Forall P (ring_keys (apply_secrets_blob blob r).2) /\ Forall Q (kr_sapling_keys (apply_secrets_blob blob r).2).
Lemma keeps_apply blob : restores -> new_ok -> keeps (apply_secrets blob).
Proof.
  intros Hr Hn w d r s' (HP&HQ&HB). unfold apply_secrets. pose proof (Hr Hn blob _ HP HQ) as [HP' HQ'].
  destruct (apply_secrets_blob blob (w_ring w)) as [o ring]. intros [= <- <-]. split; [by split_and!|by destruct o].
Qed.
Lemma keeps_encryptwallet pass : restores -> keeps (encryptwallet pass).
Proof.
  intros Hr. apply triple_wallet_bind. intros w (_&_&HB). apply keeps_if; intros Ew; [apply triple_failing|].
  assert new_ok as Hn. { destruct Hcase as [Hn|Hs]; [done|]. destruct (Hs _ _ HB). congruence. }
  eapply triple_bind; [apply triple_result|]. intros secrets _. apply wallet_keeps_bind; [apply keeps_new_kdf|]. intros [kdf key].
  apply wallet_keeps_bind; [apply keeps_fill|]. intros nonce. eapply triple_bind; [apply triple_result|]. intros ct _.
  apply wallet_keeps_bind; [by apply keeps_seal; [|split]|]. intros _. apply wallet_keeps_bind; [apply keeps_modify, holds_lock_inner|]. intros _.
  apply keeps_on_error; [apply keeps_save|]. intros e. apply wallet_keeps_bind.
  { apply keeps_modify. intros w1 (HP&HQ&_). destruct Hn as (_&_&Hall). split_and!; [done|done|apply Hall]. }
  intros _. apply wallet_keeps_bind; [by apply keeps_apply|]. intros _. apply triple_failing.
Qed.
Lemma keeps_passphrasechange old new : keeps (walletpassphrasechange old new).
Proof.
  apply triple_wallet_bind. intros w _. apply keeps_if; intros _; [apply triple_failing|].
  do 3 (eapply triple_bind; [apply triple_result|]; intros ? _). apply wallet_keeps_bind; [apply keeps_new_kdf|]. intros [kdf key].
  apply wallet_keeps_bind; [apply keeps_fill|]. intros nonce. eapply triple_bind; [apply triple_result|]. intros ct _.
  assert (forall f, (forall w, w_ring (f w) = w_ring w) -> stays_shut f -> keeps (modify f)) as Hm by apply keeps_seal.
  apply wallet_keeps_bind.
  { apply Hm; [done|]. split; [done|]. intros w1. unfold is_open. cbn. by destruct (sl_unlocked_key (w_seal w1)). }
  intros _. apply keeps_on_error; [apply keeps_save|]. intros e. apply wallet_keeps_bind; [by apply Hm; [|split]|]. intros _. apply triple_failing.
Qed.
Lemma keeps_walletpassphrase pass timeout : restores -> new_ok -> keeps (walletpassphrase pass timeout).
Proof.
  intros Hr Hn. assert (forall f, (forall w, w_ring (f w) = w_ring w) -> keeps (modify f)) as Hm.
  { intros f Hf. apply keeps_modify. intros w1 (HP&HQ&_). destruct Hn as (_&_&Hall). split_and!; [by rewrite Hf|by rewrite Hf|apply Hall]. }
  apply triple_wallet_bind. intros w _. apply keeps_if; intros _; [apply triple_failing|].
  apply wallet_keeps_bind; [apply keeps_lock_if_expired|]. intros _. apply triple_wallet_bind. intros w1 _.
  do 3 (eapply triple_bind; [apply triple_result|]; intros ? _). apply wallet_keeps_bind; [by apply keeps_apply|]. intros _.
  apply wallet_keeps_bind; [apply keeps_now|]. intros now. apply wallet_keeps_bind; [by apply Hm|]. intros _.
  apply wallet_keeps_bind; [apply keeps_if; intros _; [apply keeps_save|by apply triple_ret]|]. intros _.
  apply triple_wallet_bind. intros w2 _. by apply triple_ret.
Qed.
Lemma keeps_ignoring {A} (m : wallet_op A) : keeps m -> keeps (ignoring m).
Proof. intros Hm. apply wallet_keeps_bind; [done|]. intros _. by apply triple_ret. Qed.
(** Every call, but unlocking only where new keys are fine. *)
Lemma keeps_call c : restores -> (new_ok \/ (forall pass timeout, c <> Unlock pass timeout)) -> keeps (run_call c).
Proof.
  intros Hr Hc. destruct c; cbn [run_call]; try apply keeps_ignoring.
  all: auto using keeps_set_label, keeps_set_fee, keeps_lock_outpoint, keeps_unlock_outpoint, keeps_unlock_all, keeps_record_txids,
    keeps_record_transactions, keeps_record_values, keeps_import_wif, keeps_import_watch, keeps_import_redeem.
  all: auto using keeps_refill, keeps_reserve, keeps_sapling_address, keeps_import_extsk, keeps_import_extfvk, keeps_backfill, keeps_reset,
    keeps_init_scan, keeps_sync, keeps_backup, keeps_unlocked_until, keeps_walletlock, keeps_encryptwallet, keeps_passphrasechange.
  destruct Hc as [Hn|Hc]; [by apply keeps_walletpassphrase|by destruct (Hc passphrase timeout)].
Qed.
End invariant.

(** ** No secret in a locked wallet *)
Definition no_secret (k : WalletKey) : Prop := wk_secret k = None.
Definition no_extsk (e : SaplingKeyEntry) : Prop := sk_extsk e = None.
Definition shut (e o : bool) : Prop := e = true /\ o = false.
Lemma shut_always : always_shut shut.
Proof. by intros e o. Qed.
Lemma shut_restores : restores no_secret no_extsk shut.
Proof. intros (_&_&Hall). by destruct (Hall false false). Qed.
Lemma locked_holds w : is_encrypted w = true -> holds no_secret no_extsk shut (lock_inner w).
Proof.
  intros He. unfold holds. cbn [w_ring lock_inner set_ring]. rewrite forget_ring_keys. split_and!.
  - apply Forall_fmap. by apply Forall_forall.
  - cbn. apply Forall_fmap. by apply Forall_forall.
  - split; [exact He|done].
Qed.
Lemma with_address_none {A} w text (f : WalletKey -> result WalletError A) l a :
  (forall k, k ∈ l -> forall b, f k <> Ok b) -> with_address w text f l <> Ok (Some a).
Proof.
  induction l as [|k l IH]; intros Hf; cbn; [done|]. intros Hw. apply bind_Ok in Hw as (ad&_&Hw). case_bool_decide.
  - apply bind_Ok in Hw as (b&Hb&_). by apply (Hf k (list_elem_of_here _ _) b).
  - revert Hw. apply IH. intros k' Hk'. apply Hf. by apply list_elem_of_further.
Qed.
Lemma signing_key_none target l s : Forall no_secret l -> signing_key target l <> Ok (Some s).
Proof. intros Hl. destruct Hl as [|k l Hk Hl]; cbn; [done|]. unfold secret_key. by rewrite Hk. Qed.


(** ** Secrets belong to their addresses *)
Definition secret_fits (k : WalletKey) : Prop :=
  forall secret, wk_secret k = Some secret -> exists k', from_secret secret (wk_compressed k) = Ok k' /\ wk_hash k' = wk_hash k.
Definition extsk_fits (e : SaplingKeyEntry) : Prop :=
  forall extsk, sk_extsk e = Some extsk -> sapling_extfvk_from_extsk extsk = Ok (sk_extfvk e).
Definition whenever (e o : bool) : Prop := True.
Lemma from_secret_fits secret c k : from_secret secret c = Ok k -> secret_fits k.
Proof.
  unfold from_secret. destruct (SecretKey_from_slice secret) eqn:Es; [|done]. intros [= <-] s [= <-]. unfold from_secret. cbn. rewrite Es.
  by eexists.
Qed.
Lemma fits_new : new_ok secret_fits extsk_fits whenever.
Proof. split_and!; [apply from_secret_fits|intros x v n Hv y [= <-]; exact Hv|done]. Qed.

(** *** What parsers give *)
Definition yields {A} (m : parser WalletError A) (Q : A -> Prop) : Prop := forall d a d', m d = Ok (a, d') -> Q a.
Lemma yields_bind {A D} (m : parser WalletError A) (f : A -> parser WalletError D) Q R :
  yields m Q -> (forall a, Q a -> yields (f a) R) -> yields (m ≫= f) R.
Proof.
  intros Hm Hf d b d'. unfold mbind, parser_bind. destruct (m d) as [[a d1]|e|] eqn:E; [|done|done]. apply Hf. by eapply Hm.
Qed.
Lemma yields_any {A} (m : parser WalletError A) : yields m (fun _ => True).
Proof. done. Qed.
Lemma yields_skip {A D} (m : parser WalletError A) (f : A -> parser WalletError D) R : (forall a, yields (f a) R) -> yields (m ≫= f) R.
Proof. intros Hf. eapply yields_bind; [apply yields_any|]. intros a _. apply Hf. Qed.
Lemma yields_ret {A} (a : A) (Q : A -> Prop) : Q a -> yields (mret a) Q.
Proof. by intros Ha d b d' [= <- <-]. Qed.
Lemma yields_fail {A} e (Q : A -> Prop) : yields (fail e) Q.
Proof. by intros d a d'. Qed.
Lemma yields_parse {A} (r : result WalletError A) : yields (parse r) (fun a => r = Ok a).
Proof. intros d a d' Hp. unfold parse in Hp. apply bind_Ok in Hp as (a'&Hr&[= <- <-]). done. Qed.
Lemma yields_since {A} v first (m : parser WalletError A) o Q : yields m Q -> Q o -> yields (read_since v first m o) Q.
Proof. intros Hm Ho. unfold read_since. destruct (first <=? v); [done|by apply yields_ret]. Qed.
Lemma yields_entries {A} msg (m : parser WalletError A) Q : yields m Q -> yields (read_entries msg m) (Forall Q).
Proof.
  intros Hm. apply yields_skip. intros n. induction n as [|n IH]; cbn [read_n]; [by apply yields_ret|].
  eapply yields_bind; [exact Hm|]. intros a Ha. eapply yields_bind; [exact IH|]. intros l Hl. apply yields_ret. by constructor.
Qed.
Definition good_ring (r : KeyRing) : Prop := Forall secret_fits (ring_keys r) /\ Forall extsk_fits (kr_sapling_keys r).
Lemma no_secret_fits k : wk_secret k = None -> secret_fits k.
Proof. intros Hk s Hs. congruence. Qed.
Lemma yields_open_key : yields read_open_key secret_fits.
Proof.
  apply yields_skip. intros s. apply yields_skip. intros c d k d' Hk. apply yields_parse in Hk. by apply from_secret_fits in Hk.
Qed.
Lemma yields_open_pool : yields read_open_pool_entry (fun e => secret_fits (kp_key e)).
Proof.
  apply yields_skip. intros s. apply yields_skip. intros c. apply yields_skip. intros at_. eapply yields_bind; [apply yields_parse|]. intros k Hk.
  apply yields_ret. by apply from_secret_fits in Hk.
Qed.
Lemma yields_open_sapling : yields read_open_sapling_key extsk_fits.
Proof.
  apply yields_skip. intros x. apply yields_skip. intros n. eapply yields_bind; [apply yields_parse|]. intros v Hv.
  apply yields_ret. by intros y [= <-].
Qed.
Lemma good_ring_of keys pool sapling viewing change :
  Forall secret_fits keys -> Forall (fun e => secret_fits (kp_key e)) pool -> Forall extsk_fits sapling ->
  good_ring (mkKeyRing keys pool sapling viewing change).
Proof. intros Hk Hp Hs. split; [|done]. apply Forall_app. split; [done|by apply Forall_fmap]. Qed.
Lemma yields_read_open path network fee version : yields (read_open path network fee version) (fun w => good_ring (w_ring w)).
Proof.
  eapply yields_bind; [apply yields_entries, yields_open_key|]. intros keys Hk. apply yields_skip. intros watch. apply yields_skip. intros history.
  eapply yields_bind; [apply yields_since; [apply yields_entries, yields_open_pool|constructor]|]. intros pool Hp.
  eapply yields_bind; [apply yields_since; [apply yields_entries, yields_open_sapling|constructor]|]. intros sapling Hs.
  do 3 (apply yields_skip; intros ?). apply yields_ret. by apply good_ring_of.
Qed.
Lemma yields_key_fields version : yields (read_key_fields version) no_secret.
Proof. do 3 (apply yields_skip; intros ?). by apply yields_ret. Qed.
Lemma yields_validated k : no_secret k -> yields (validated k) no_secret.
Proof. intros Hk. apply yields_skip. intros _. by apply yields_ret. Qed.
Lemma yields_read_sealed path network fee version : yields (read_sealed path network fee version) (fun wp => good_ring (w_ring wp.1)).
Proof.
  apply yields_skip. intros enc.
  eapply yields_bind; [apply yields_entries; eapply yields_bind; [apply yields_key_fields|apply yields_validated]|]. intros keys Hk.
  apply yields_skip. intros [watch redeem]. apply yields_skip. intros history.
  eapply (yields_bind _ _ good_ring).
  { eapply yields_bind; [apply (yields_entries _ _ (fun e => no_secret (kp_key e)))|].
    - eapply yields_bind; [apply yields_key_fields|]. intros k Hk'. apply yields_skip. intros at_. eapply yields_bind; [by apply yields_validated|].
      intros k' Hk2. by apply yields_ret.
    - intros pool Hp. eapply yields_bind; [apply (yields_entries _ _ no_extsk); do 2 (apply yields_skip; intros ?); by apply yields_ret|].
      intros sapling Hs. do 2 (apply yields_skip; intros ?). apply yields_ret. apply good_ring_of.
      + eapply Forall_impl; [exact Hk|]. intros k. apply no_secret_fits.
      + eapply Forall_impl; [exact Hp|]. intros e. apply no_secret_fits.
      + eapply Forall_impl; [exact Hs|]. intros e He x Hx. unfold no_extsk in He. congruence. }
  intros ring Hr. do 3 (apply yields_skip; intros ?). by apply yields_ret.
Qed.

(** *** The blob gives out fitting secrets *)
Lemma insert_all_Forall {K V} `{Countable K} (Q : K -> V -> Prop) (l : list (K * V)) :
  Forall (fun kv => Q kv.1 kv.2) l -> map_Forall Q (insert_all l).
Proof.
  unfold insert_all. induction l as [|[k v] l IH] using rev_ind; intros Hl; [apply map_Forall_empty|].
  rewrite foldl_app. apply Forall_app in Hl as [Hl Hkv]. cbn. apply map_Forall_insert_2; [by inversion Hkv|by apply IH].
Qed.
Lemma yields_secrets :
  yields read_secrets (fun ts =>
    map_Forall (fun h s => exists k, from_secret s.1 s.2 = Ok k /\ wk_hash k = h) ts.1
    /\ map_Forall (fun v x => sapling_extfvk_from_extsk x = Ok v) ts.2).
Proof.
  apply yields_skip. intros version. destruct (negb _); [apply yields_fail|].
  eapply yields_bind; [apply (yields_entries _ _ (fun kv => exists k, from_secret kv.2.1 kv.2.2 = Ok k /\ wk_hash k = kv.1))|].
  - apply yields_skip. intros s. apply yields_skip. intros c. eapply yields_bind; [apply yields_parse|]. intros k Hk. apply yields_ret. by exists k.
  - intros transparent Ht. eapply yields_bind; [apply (yields_entries _ _ (fun kv => sapling_extfvk_from_extsk kv.2 = Ok kv.1))|].
    + apply yields_skip. intros x. eapply yields_bind; [apply yields_parse|]. intros v Hv. by apply yields_ret.
    + intros sapling Hs. apply yields_ret. split; by apply insert_all_Forall.
Qed.
Lemma for_each_mut_Forall {A} (f : A -> result WalletError unit * A) (Q : A -> Prop) l :
  (forall a, Q a -> Q (f a).2) -> Forall Q l -> Forall Q (for_each_mut f l).2.
Proof.
  intros Hf. induction 1 as [|a l Ha Hl IH]; [done|]. cbn. pose proof (Hf a Ha) as Ha'. destruct (f a) as [[[]|e|] a']; cbn in *.
  - destruct (for_each_mut f l) as [r l']. by constructor.
  - by constructor.
  - by constructor.
Qed.
Lemma restore_key_fits transparent missing mismatch k :
  map_Forall (fun h s => exists k, from_secret s.1 s.2 = Ok k /\ wk_hash k = h) transparent -> secret_fits k ->
  secret_fits (restore_key transparent missing mismatch k).2.
Proof.
  intros Ht Hk. unfold restore_key. destruct (transparent !! wk_hash k) as [[s c]|] eqn:E; [|done].
  destruct (negb _) eqn:Ec; [done|]. apply negb_false_iff, bool_decide_eq_true in Ec. destruct (Ht _ _ E) as (k'&Hk'&Hh). cbn in Hk'.
  assert (secret_fits (set_secret (Some s) k)) as Hset. { intros s' [= <-]. exists k'. cbn. rewrite Ec. done. }
  unfold ensure_pubkey_bytes. destruct (negb _); [exact Hset|]. cbn. destruct (SecretKey_from_slice s); cbn; [|exact Hset].
  intros s' [= <-]. exists k'. cbn. rewrite Ec. done.
Qed.
Lemma apply_good blob r : good_ring r -> good_ring (apply_secrets_blob blob r).2.
Proof.
  intros [HP HQ]. unfold apply_secrets_blob. destruct (decode_all _ _ _) as [[transparent sapling]|e|] eqn:Ed; [|done|done].
  unfold decode_all in Ed. destruct (read_secrets _) as [[ts d']|e|] eqn:Er; [|done|done]. destruct (is_empty d'); [|done].
  injection Ed as ->. destruct (yields_secrets _ _ _ Er) as [Ht Hs]. cbn in Ht, Hs.
  unfold restore_ring. apply Forall_app in HP as [HP1 HP2]. apply (proj1 (Forall_fmap _ _ _)) in HP2.
  pose proof (for_each_mut_Forall (restore_key transparent "missing wallet secret key" "wallet secret compression mismatch") secret_fits
    (kr_keys r) (fun k => restore_key_fits transparent _ _ k Ht) HP1) as H1'.
  destruct (for_each_mut _ (kr_keys r)) as [o1 keys]. cbn in H1'. destruct o1 as [[]|e|]; [|by apply good_ring_of|by apply good_ring_of].
  cbn [kr_keypool set_keys].
  assert (Forall (fun e => secret_fits (kp_key e)) (for_each_mut (restore_pool_key transparent) (kr_keypool r)).2) as H2'.
  { apply for_each_mut_Forall; [|done]. intros e He. unfold restore_pool_key.
    pose proof (restore_key_fits transparent "missing keypool secret key" "wallet keypool compression mismatch" (kp_key e) Ht He).
    by destruct (restore_key _ _ _ _). }
  destruct (for_each_mut _ (kr_keypool r)) as [o2 pool]. cbn in H2'. destruct o2 as [[]|e|]; [|by apply good_ring_of|by apply good_ring_of].
  cbn. pose proof (for_each_mut_Forall (restore_sapling sapling) extsk_fits (kr_sapling_keys r)) as H3'.
  destruct (for_each_mut _ (kr_sapling_keys r)) as [o3 sk]. apply good_ring_of; [done|done|]. apply H3'; [|done]. intros e He.
  unfold restore_sapling. destruct (sapling !! sk_extfvk e) as [x|] eqn:Ex; [|done]. intros y [= <-]. by apply Hs.
Qed.
Lemma decode_good path network data w : decode_wallet path network data = Ok w -> good_ring (w_ring w).
Proof.
  unfold decode_wallet. intros Hd. apply bind_Ok in Hd as (r&Hd&Hw). unfold decode_all in Hd.
  destruct (read_wallet path network _) as [[r' d']|e|] eqn:Er; [|done|done]. destruct (is_empty d'); [|done]. injection Hd as ->.
  assert (yields (read_wallet path network) (fun r => match r with inl w => good_ring (w_ring w) | inr wp => good_ring (w_ring wp.1) end)) as Hy.
  { apply yields_skip. intros [version fee]. destruct (version <=? 10); [eapply yields_bind; [apply yields_read_open|]|eapply yields_bind; [apply yields_read_sealed|]];
      intros ? ?; by apply yields_ret. }
  apply Hy in Er. destruct r as [w1|[w1 payload]]; [by injection Hw as ->|]. cbn in Er. unfold open_payload in Hw.
  destruct (sl_encrypted (w_seal w1)); [by injection Hw as <-|]. pose proof (apply_good payload _ Er) as Hg.
  destruct (apply_secrets_blob _ _) as [o ring]. apply bind_Ok in Hw as (u&_&Hw). injection Hw as <-. exact Hg.
Qed.
Lemma fits_restores : restores secret_fits extsk_fits whenever.
Proof. intros _ blob r HP HQ. by apply apply_good. Qed.

(** C28: c1xx: Whatever wallet file a node starts from, and whatever calls follow,
    a secret the wallet holds is the secret of the address it is kept for: the
    key that is shown for an address is a key of that address. *)
Theorem secrets_belong_to_addresses path network s0 s calls w' d'
    (Hload : load_or_create path network s0 = (Ok tt, s)) (Hrun : run_calls calls s = (w', d')) :
  Forall secret_fits (ring_keys (w_ring w')) /\ Forall extsk_fits (kr_sapling_keys (w_ring w'))
  /\ forall text shown, dump_wif_for_address w' text = Ok (Some shown) ->
       exists secret compressed k, shown = secret_key_to_wif secret (w_network w') compressed
         /\ from_secret secret compressed = Ok k /\ address k (w_network w') = Ok text.
Proof.
  assert (holds secret_fits extsk_fits whenever s.1) as Hs.
  { destruct s0 as [w0 d0]. unfold load_or_create in Hload. apply wallet_bind_Ok in Hload as ([data|]&s1&_&Hload).
    - apply wallet_bind_Ok in Hload as (w&s2&[Hw ->]%of_result_Ok&Hload). injection Hload as <-. apply decode_good in Hw as [H1' H2']. by split_and!.
    - injection Hload as <-. split_and!; by try constructor. }
  assert (holds secret_fits extsk_fits whenever w') as (HP&HQ&_).
  { replace w' with (run_calls calls s).1 by (by rewrite Hrun). apply (run_calls_keep _ (fun _ => True)); [|by apply Forall_forall|done].
    intros c _. apply keeps_call; [|done|done|left; exact fits_new|exact fits_restores|left; exact fits_new].
    intros k _ s' [=]. }
  split_and!; [done|done|]. intros text shown Hd. apply Forall_app in HP as [HP _]. unfold dump_wif_for_address in Hd.
  induction HP as [|k l Hk HP IH]; cbn in Hd; [done|]. apply bind_Ok in Hd as (a&Ha&Hd). case_bool_decide as Et; [|by apply IH].
  apply bind_Ok in Hd as (x&Hx&[= ->]). unfold wif in Hx. apply bind_Ok in Hx as (secret&Hsec&[= <-]). apply ok_or_Ok in Hsec.
  destruct (Hk _ Hsec) as (k'&Hk'&Hh). exists secret, (wk_compressed k), k'. split_and!; [done|done|].
  unfold address, p2pkh_script_pubkey in *. rewrite Hh. by subst a.
Qed.
End safety.
