(* ===== verification/WalletUndo.v ===== *)
(** * A call whose save fails leaves the wallet as it was

    When the wallet file cannot be written, every call that undoes its change
    leaves the wallet as before the call, but for what saving itself does (the
    tables of transactions lose what the history does not have, an open wallet
    encrypts anew) and for a lock whose time had come.  And what the two calls
    that do not undo everything leave behind. *)

From S2P Require Import Prelude Consensus Rewards Encoding Hashing Address Transaction Block Script Storage FlatFiles ChainIndex HeaderChain Payees FluxnodeChecks Ledger BlockConnect Mempool.
From S2P Require Import Wallet WalletScripts WalletOps WalletFile WalletRestart WalletSafety.
From Stdlib Require Import ZArith Lia.
From stdpp Require Import base list option numbers strings gmap sets sorting.
#[local] Open Scope Z_scope.

Section undo.
  Context {H : Hashes} {S256 : Secp} {Rc : Recovery} {SK : SecretKeys} {C : Cipher} {SA : SaplingKeys}.
  Context {T : ShieldedTrees} {SW : SaplingWitnesses} {M : Machine}.
  Context {S : Type} {KV : KeyValueStore S}.

(** ** The keys without their secrets, or with them *)
Definition view_key (b : bool) (k : WalletKey) : WalletKey := if b then forget_secret k else k.
Definition view_entry (b : bool) (e : KeyPoolEntry) : KeyPoolEntry := if b then forget_pool_secret e else e.
Definition view_sapling (b : bool) (e : SaplingKeyEntry) : SaplingKeyEntry := if b then set_extsk None e else e.
Definition view (b : bool) (r : KeyRing) : KeyRing :=
  mkKeyRing (map (view_key b) (kr_keys r)) (map (view_entry b) (kr_keypool r)) (map (view_sapling b) (kr_sapling_keys r))
    (kr_sapling_viewing_keys r) (kr_change_key_hashes r).
Lemma view_true r : view true r = forget_secrets r.
Proof. done. Qed.
Lemma view_false r : view false r = r.
Proof. destruct r. unfold view. cbn. f_equal; apply map_id. Qed.
Lemma view_forget r : view true (forget_secrets r) = view true r.
Proof. apply same_keys_forget. Qed.

(** ** The wallet before and after *)
Definition alike (b : bool) (w w' : Wallet) : Prop :=
  w_path w' = w_path w /\ w_network w' = w_network w /\ w_pay_tx_fee_per_kb w' = w_pay_tx_fee_per_kb w /\ w_scripts w' = w_scripts w
  /\ w_scan w' = w_scan w /\ w_revision w' = w_revision w /\ w_locked_outpoints w' = w_locked_outpoints w
  /\ (w_history w' = w_history w \/ w_history w' = retain_history (w_history w))
  /\ view b (w_ring w') = view b (w_ring w) /\ is_encrypted w' = is_encrypted w.
(** [b] when the wallet may lock. *)
Definition may_lock (b : bool) (w : Wallet) : Prop := b = false -> is_encrypted w = false.

(** What saving changes, also when it fails. *)
Definition after_save (w w' : Wallet) : Prop :=
  w_path w' = w_path w /\ w_network w' = w_network w /\ w_pay_tx_fee_per_kb w' = w_pay_tx_fee_per_kb w /\ w_scripts w' = w_scripts w
  /\ w_scan w' = w_scan w /\ w_revision w' = w_revision w /\ w_locked_outpoints w' = w_locked_outpoints w
  /\ w_history w' = retain_history (w_history w) /\ w_ring w' = w_ring w /\ is_encrypted w' = is_encrypted w.
Lemma save_after w d r w' d' : save (w, d) = (r, (w', d')) -> after_save w w'.
Proof.
  unfold save, mbind, wallet_bind, modify, wallet, of_result. cbn [fst snd]. fold (retained w).
  assert (after_save w (retained w)) as Hr by done.
  destruct (write_public (retained w)) as [public|e|]; [|intros [= <- <- <-]; exact Hr..].
  destruct (secrets_payload (retained w, d)) as [rp [w1 d1]] eqn:Hp.
  assert (after_save w w1) as H1'.
  { revert Hp. unfold secrets_payload, mbind, wallet_bind, wallet, of_result, modify, fill_bytes, mret, wallet_ret. cbn [fst snd].
    destruct (sl_encrypted (w_seal (retained w))) as [enc|] eqn:Ee; [|by intros [= <- <- <-]].
    destruct (sl_unlocked_key (w_seal (retained w))) as [key|]; [|by intros [= <- <- <-]].
    destruct (encode_secrets_blob _) as [pt|e|]; [|by intros [= <- <- <-]..].
    destruct (encrypt_wallet_secrets _ _ _ _) as [ct|e|]; [|by intros [= <- <- <-]..].
    intros [= <- <- <-]. repeat split; try done. unfold is_encrypted. cbn in *. rewrite Ee. by rewrite !bool_decide_eq_true_2. }
  destruct rp as [payload|e|]; [|by intros [= <- <- <-]..].
  intros Hw. pose proof (keeps_write_file (after_save w) (w_path (retained w)) (public ++ write_var_bytes payload) _ _ _ _ H1' Hw) as [? _]. done.
Qed.

(** ** Reasoning about what a call gives, and how it ends with [Io] *)
Definition gives {A} (m : wallet_op A) (w : Wallet) (Q : A -> Wallet -> Prop) : Prop :=
  forall d a w' d', m (w, d) = (Ok a, (w', d')) -> Q a w'.
Definition fails_io {A} (m : wallet_op A) (w : Wallet) (Q : Wallet -> Prop) : Prop :=
  forall d w' d', m (w, d) = (Err Io, (w', d')) -> Q w'.
Definition no_io {A} (m : wallet_op A) : Prop := forall s, (m s).1 <> Err Io.
Lemma fails_bind {A D} (m : wallet_op A) (f : A -> wallet_op D) w Q R :
  no_io m -> gives m w Q -> (forall a w1, Q a w1 -> fails_io (f a) w1 R) -> fails_io (m ≫= f) w R.
Proof.
  intros Hn Hm Hf d w' d'. unfold mbind, wallet_bind. pose proof (Hn (w, d)) as Hn'. destruct (m (w, d)) as [[a|e|] [w1 d1]] eqn:E.
  - intros Hr. eapply Hf; [by eapply Hm|done].
  - intros [= -> -> ->]. done.
  - done.
Qed.
Lemma fails_wallet {A} (f : Wallet -> wallet_op A) w R : fails_io (f w) w R -> fails_io (wallet ≫= f) w R.
Proof. intros Hf d w' d' Hr. exact (Hf _ _ _ Hr). Qed.
Lemma fails_modify {A} g (f : unit -> wallet_op A) w R : fails_io (f tt) (g w) R -> fails_io (modify g ≫= f) w R.
Proof. intros Hf d w' d' Hr. exact (Hf _ _ _ Hr). Qed.
Lemma fails_result {A D} (r : result WalletError A) (f : A -> wallet_op D) w R :
  r <> Err Io -> (forall a, r = Ok a -> fails_io (f a) w R) -> fails_io (of_result r ≫= f) w R.
Proof. intros Hn Hf d w' d'. unfold mbind, wallet_bind, of_result. destruct r as [a|e|]; intros Hr; [by eapply Hf|congruence|done]. Qed.
Lemma fails_then_ret {A D} (m : wallet_op A) (g : A -> D) w R : fails_io m w R -> fails_io (m ≫= fun a => mret (g a)) w R.
Proof.
  intros Hm d w' d'. unfold mbind, wallet_bind. destruct (m (w, d)) as [[a|e|] [w1 d1]] eqn:E; [done| |done]. intros [= -> -> ->]. by eapply Hm.
Qed.
Lemma fails_ret {A} (a : A) w R : fails_io (mret a) w R.
Proof. done. Qed.
Lemma fails_if {A} (b : bool) (m1 m2 : wallet_op A) w R : (b = true -> fails_io m1 w R) -> (b = false -> fails_io m2 w R) -> fails_io (if b then m1 else m2) w R.
Proof. destruct b; auto. Qed.
Lemma fails_save_or undo w R : (forall w', after_save w w' -> R (undo w')) -> fails_io (save_or undo) w R.
Proof.
  intros Hu d w' d'. unfold save_or, or_undo, on_error, mbind, wallet_bind, modify, failing. cbn.
  destruct (save (w, d)) as [[a|e|] [w1 d1]] eqn:E; [done| |done]. intros [= -> <- <-]. apply Hu. by eapply save_after.
Qed.
Lemma no_io_bind {A D} (m : wallet_op A) (f : A -> wallet_op D) : no_io m -> (forall a, no_io (f a)) -> no_io (m ≫= f).
Proof.
  intros Hm Hf s. unfold mbind, wallet_bind. pose proof (Hm s) as Hn. destruct (m s) as [[a|e|] s1]; [apply Hf|cbn in *; congruence|done].
Qed.
Lemma no_io_result {A} (r : result WalletError A) : r <> Err Io -> no_io (of_result r).
Proof. by intros Hr s. Qed.
Lemma no_io_lock : no_io lock_if_expired.
Proof.
  apply no_io_bind; [done|]. intros w. destruct (_ || _); [done|]. apply no_io_bind; [by intros [w1 d1]|]. intros now. by destruct (_ <=? _).
Qed.
Lemma no_io_require : no_io require_unlocked.
Proof. apply no_io_bind; [apply no_io_lock|]. intros _. apply no_io_bind; [done|]. intros w. destruct (negb _); [done|]. by destruct (_ || _). Qed.
Lemma no_io_can_generate : no_io can_generate_keys.
Proof. apply no_io_bind; [apply no_io_lock|]. intros _. by apply no_io_bind. Qed.
Lemma from_secret_no_io secret c : from_secret secret c <> Err Io.
Proof. unfold from_secret. by destruct (SecretKey_from_slice secret). Qed.
Lemma no_io_generate_loop tries c r : no_io (generate_key_loop tries c r).
Proof.
  induction tries as [|tries IH]; cbn [generate_key_loop]; [done|]. apply no_io_bind; [by intros [w d]|]. intros seed.
  pose proof (from_secret_no_io seed c). destruct (from_secret seed c) as [k|e|]; [by destruct (has_key_hash r (wk_hash k))| |done].
  destruct e; try done; intros s; cbn; congruence.
Qed.
Lemma no_io_generate c : no_io (generate_unique_key c).
Proof. apply no_io_bind; [done|]. intros w. apply no_io_generate_loop. Qed.
Lemma no_io_fill_keypool n : no_io (fill_keypool n).
Proof.
  induction n as [|n IH]; cbn [fill_keypool]; [done|]. apply no_io_bind; [apply no_io_generate|]. intros k.
  apply no_io_bind; [by intros [w d]|]. intros at_. by apply no_io_bind.
Qed.

(** *** What the steps before saving give *)
Lemma gives_bind {A D} (m : wallet_op A) (f : A -> wallet_op D) w Q R :
  gives m w Q -> (forall a w1, Q a w1 -> gives (f a) w1 R) -> gives (m ≫= f) w R.
Proof. intros Hm Hf d a w' d' Hr. apply wallet_bind_Ok in Hr as (a1&[w1 d1]&H1'&H2'). eapply Hf; [by eapply Hm|done]. Qed.
(** At most the lock. *)
Definition at_most_locked (b : bool) (w w' : Wallet) : Prop := alike b w w' /\ w_history w' = w_history w /\ may_lock b w'.
Lemma at_most_locked_refl b w : may_lock b w -> at_most_locked b w w.
Proof. intros Hb. split_and!; [|done|done]. unfold alike. split_and!; try done. by left. Qed.
Lemma alike_locked b w w1 w' : at_most_locked b w w1 -> alike b w1 w' -> alike b w w'.
Proof.
  intros [Ha [Hh _]] Hb. unfold alike in *. destruct_and!. split_and!; try congruence.
Qed.
Lemma at_most_locked_trans b w w1 w2 : at_most_locked b w w1 -> at_most_locked b w1 w2 -> at_most_locked b w w2.
Proof.
  intros H1' (H2'&Hh&Hb). split_and!; [by eapply alike_locked|rewrite Hh; apply H1'|done].
Qed.
Lemma locked_inner b w : may_lock b w -> is_encrypted w = true -> at_most_locked b w (lock_inner w).
Proof.
  intros Hb He. destruct b; [|by rewrite Hb in He]. split_and!; [|done|done]. unfold alike. split_and!; try done; [by left|apply view_forget].
Qed.
Lemma gives_lock b w : may_lock b w -> gives lock_if_expired w (fun _ w' => at_most_locked b w w').
Proof.
  intros Hb d a w' d' Hr. unfold lock_if_expired in Hr. apply wallet_bind_Ok in Hr as (w0&s1&Hw&Hr). injection Hw as <- <-. cbn [fst] in Hr.
  destruct (is_encrypted w) eqn:Ee; [|injection Hr as _ <- _; by apply at_most_locked_refl]. cbn in Hr.
  destruct (_ =? 0); [injection Hr as _ <- _; by apply at_most_locked_refl|]. apply wallet_bind_Ok in Hr as (now&s2&Hn&Hr). injection Hn as <- <-.
  destruct (_ <=? _); injection Hr as _ <- _; [by apply locked_inner|by apply at_most_locked_refl].
Qed.
Lemma gives_require b w : may_lock b w -> gives require_unlocked w (fun _ w' => at_most_locked b w w').
Proof.
  intros Hb. eapply gives_bind; [by apply (gives_lock b)|]. intros ? w1 Hw1 d a w' d' Hr. apply wallet_bind_Ok in Hr as (w0&s1&Hw&Hr). injection Hw as <- <-. cbn [fst] in Hr.
  destruct (negb _); [by injection Hr as _ <- _|]. destruct (_ || _); [done|by injection Hr as _ <- _].
Qed.
Lemma gives_can_generate b w : may_lock b w -> gives can_generate_keys w (fun _ w' => at_most_locked b w w').
Proof.
  intros Hb. eapply gives_bind; [by apply (gives_lock b)|]. intros ? w1 Hw1 d a w' d' Hr. apply wallet_bind_Ok in Hr as (w0&s1&Hw&Hr). injection Hw as <- <-.
  by injection Hr as _ <- _.
Qed.
Lemma gives_generate_loop tries c r w : gives (generate_key_loop tries c r) w (fun _ w' => w' = w).
Proof.
  induction tries as [|tries IH]; cbn [generate_key_loop]; [done|]. intros d a w' d' Hr.
  apply wallet_bind_Ok in Hr as (seed&s1&Hw&Hr). injection Hw as <- <-.
  destruct (from_secret _ c) as [k|e|]; [destruct (has_key_hash r (wk_hash k)); [by eapply IH|by injection Hr as _ <- _]| |done].
  destruct e; try done. by eapply IH.
Qed.
Lemma gives_wallet {A} (f : Wallet -> wallet_op A) w R : gives (f w) w R -> gives (wallet ≫= f) w R.
Proof. intros Hf d a w' d' Hr. exact (Hf _ _ _ _ Hr). Qed.
Lemma gives_generate c w : gives (generate_unique_key c) w (fun _ w' => w' = w).
Proof. apply gives_wallet, gives_generate_loop. Qed.
Lemma update_pool_trans f g w : update_pool g (update_pool f w) = update_pool (fun l => g (f l)) w.
Proof. done. Qed.
Lemma gives_fill_keypool n w :
  gives (fill_keypool n) w (fun _ w' => exists new, length new = n /\ w' = update_pool (fun l => l ++ new) w).
Proof.
  revert w. induction n as [|n IH]; intros w; cbn [fill_keypool].
  - intros d a w' d' [= _ <- _]. exists []. split; [done|]. unfold update_pool, update_ring, set_keypool, set_ring.
    destruct w as [? ? ? []]. cbn. by rewrite app_nil_r.
  - eapply gives_bind; [apply gives_generate|]. intros k w1 ->. intros d a w' d' Hr.
    apply wallet_bind_Ok in Hr as (at_&s1&Hw&Hr). injection Hw as <- <-. apply wallet_bind_Ok in Hr as (u&s2&Hw&Hr). injection Hw as <- <-.
    apply IH in Hr as (new&Hl&->). eexists (_ :: new). split; [cbn; by f_equal|]. rewrite update_pool_trans.
    unfold update_pool, update_ring, set_keypool. do 2 f_equal. by rewrite <- app_assoc.
Qed.

(** ** Undoing *)
Lemma fails_weaken {A} (m : wallet_op A) w (Q R : Wallet -> Prop) : fails_io m w Q -> (forall w', Q w' -> R w') -> fails_io m w R.
Proof. intros Hm HQ d w' d' Hr. by eapply HQ, Hm. Qed.
(** After a step that may lock, relative to the wallet it left. *)
Lemma fails_locked {A D} (m : wallet_op A) (f : A -> wallet_op D) b w :
  no_io m -> gives m w (fun _ w' => at_most_locked b w w') ->
  (forall a w1, may_lock b w1 -> fails_io (f a) w1 (alike b w1)) -> fails_io (m ≫= f) w (alike b w).
Proof.
  intros Hn Hm Hf. eapply fails_bind; [done|exact Hm|]. intros a w1 Hw1. eapply fails_weaken; [apply Hf, Hw1|].
  intros w'. by apply alike_locked.
Qed.
(** What the change and its undoing leave untouched is settled. *)
Ltac undone_parts :=
  intros ? (Hpath&Hnet&Hfee&Hscr&Hscan&Hrev&Hlk&Hhist&Hring&Henc); unfold alike; split_and!;
  [ exact Hpath | exact Hnet | first [exact Hfee | idtac] | first [exact Hscr | idtac] | first [exact Hscan | idtac] | exact Hrev
  | exact Hlk | right; exact Hhist | first [exact (f_equal _ Hring) | idtac] | exact Henc ].
Ltac undone := apply fails_save_or; undone_parts.
Lemma put_back_delete {V : Type} (key : bytes) (m : gmap bytes V) : put_back key (m !! key) (delete key m) = m.
Proof. unfold put_back. destruct (m !! key) as [v|] eqn:E; [by rewrite insert_delete_eq, insert_id|by rewrite !(delete_id m key E)]. Qed.
Lemma put_back_insert {V : Type} (key : bytes) (v : V) (m : gmap bytes V) : put_back key (m !! key) (<[key := v]> m) = m.
Proof. unfold put_back. destruct (m !! key) as [v'|] eqn:E; [by rewrite insert_insert_eq, insert_id|by rewrite delete_insert_id]. Qed.
Lemma KnownScripts_eta s : mkScripts (ws_watch_scripts s) (ws_redeem_scripts s) (ws_address_labels s) = s.
Proof. by destruct s. Qed.
Lemma undone_set_label b script_pubkey label w : fails_io (set_label_for_script_pubkey script_pubkey label) w (alike b w).
Proof.
  apply fails_wallet. apply fails_if; intros _.
  - destruct (_ !! _) eqn:E; [|apply fails_ret]. apply fails_modify. rewrite <- E. undone.
    cbn. rewrite Hscr. cbn. unfold set_labels. cbn. by rewrite put_back_delete, KnownScripts_eta.
  - apply fails_if; intros _; [apply fails_ret|]. apply fails_modify. undone.
    cbn. rewrite Hscr. cbn. unfold set_labels. cbn. by rewrite put_back_insert, KnownScripts_eta.
Qed.
Lemma undone_set_fee b fee w : fails_io (set_pay_tx_fee_per_kb fee) w (alike b w).
Proof. apply fails_wallet, fails_modify. by undone. Qed.
Lemma undone_import_watch b script_pubkey w : fails_io (import_watch_script_pubkey script_pubkey) w (alike b w).
Proof.
  apply fails_wallet. do 2 (apply fails_if; intros _; [apply fails_ret|]). apply fails_modify. undone.
  cbn. rewrite Hscr. cbn. unfold set_watch_scripts. cbn. rewrite length_app, take_app_le by (cbn; lia). cbn.
  rewrite take_ge by lia. apply KnownScripts_eta.
Qed.
Lemma undone_import_redeem b redeem_script w : fails_io (import_redeem_script redeem_script) w (alike b w).
Proof.
  apply fails_wallet. apply fails_if; intros _; [apply fails_ret|]. apply fails_modify. undone.
  cbn. rewrite Hscr. cbn. by rewrite put_back_insert, KnownScripts_eta.
Qed.
Lemma map_scan_eta s : set_notes (ss_notes s) s = s.
Proof. by destruct s. Qed.
Lemma undone_backfill b key rseed w : fails_io (backfill_sapling_note_rseed key rseed) w (alike b w).
Proof.
  apply fails_wallet. destruct (_ !! _) as [note|] eqn:E; [|apply fails_ret]. apply fails_if; [intros _; apply fails_ret|]. intros Hn.
  apply fails_modify. apply (fails_then_ret _ (fun _ => true)). undone. cbn. rewrite Hscan. cbn. unfold set_notes. cbn.
  replace (alter _ _ (alter _ _ _)) with (ss_notes (w_scan w)); [by destruct (w_scan w)|]. symmetry. rewrite alter_alter_eq. apply map_eq. intros k.
  destruct (decide (k = key)) as [-> |Hk]; [|by rewrite lookup_alter_ne]. rewrite lookup_alter_eq, E. cbn. f_equal.
  apply bool_decide_eq_false in Hn. destruct note as [? ? ? ? ? [r|]]; [|done]. by destruct Hn; eexists.
Qed.
Lemma undone_reset b w : fails_io reset_sapling_scan w (alike b w).
Proof. apply fails_wallet, fails_modify. by undone. Qed.

(** *** Keys *)
Lemma no_io_ok_or {A} (o : option A) e : e <> Io -> ok_or o e <> Err Io.
Proof. intros He. destruct o; cbn; congruence. Qed.
Lemma no_io_extfvk extsk : sapling_extfvk_from_extsk extsk <> Err Io.
Proof. unfold sapling_extfvk_from_extsk. by destruct (ExtendedSpendingKey_from_bytes extsk). Qed.
Lemma no_io_viewing extfvk : viewing_key extfvk <> Err Io.
Proof. unfold viewing_key. by destruct (ExtendedFullViewingKey_read extfvk). Qed.
Lemma no_io_map_err {E A} (f : E -> WalletError) (r : result E A) : (forall e, f e <> Io) -> map_err f r <> Err Io.
Proof. intros Hf. destruct r as [a|e|]; cbn; [done| |done]. specialize (Hf e). congruence. Qed.
Lemma KeyRing_eta r : mkKeyRing (kr_keys r) (kr_keypool r) (kr_sapling_keys r) (kr_sapling_viewing_keys r) (kr_change_key_hashes r) = r.
Proof. by destruct r. Qed.
Lemma undone_import_wif b text w : may_lock b w -> fails_io (import_wif text) w (alike b w).
Proof.
  intros Hb. apply fails_locked; [apply no_io_require|by apply gives_require|]. intros _ w1 _. apply fails_wallet.
  apply fails_result; [by apply no_io_map_err|]. intros [secret c] _. apply fails_result; [apply from_secret_no_io|]. intros k _.
  apply fails_if; intros _; [apply fails_ret|]. apply fails_modify. undone.
  cbn. rewrite Hring. cbn. unfold set_keys. cbn. by rewrite take_app_length, KeyRing_eta.
Qed.
Lemma undone_refill b newsize w : may_lock b w -> fails_io (refill_keypool newsize) w (alike b w).
Proof.
  intros Hb. apply fails_locked; [apply no_io_require|by apply gives_require|]. intros _ w1 _. apply fails_wallet.
  apply fails_if; intros _; [apply fails_ret|]. eapply fails_bind; [apply no_io_fill_keypool|apply gives_fill_keypool|].
  intros _ w2 (new&_&->). undone. cbn. rewrite Hring. cbn. unfold set_keypool. cbn. by rewrite take_app_length, KeyRing_eta.
Qed.
Lemma undone_import_extsk b extsk w : may_lock b w -> fails_io (import_sapling_extsk extsk) w (alike b w).
Proof.
  intros Hb. apply fails_locked; [apply no_io_require|by apply gives_require|]. intros _ w1 _.
  apply fails_result; [apply no_io_extfvk|]. intros extfvk _. apply fails_wallet.
  apply fails_if; intros _; [apply fails_ret|]. apply fails_modify. apply (fails_then_ret _ (fun _ => true)). undone.
  cbn. rewrite Hring. cbn. unfold set_sapling_keys. cbn. by rewrite take_app_length, KeyRing_eta.
Qed.
Lemma undone_import_extfvk b extfvk w : fails_io (import_sapling_extfvk extfvk) w (alike b w).
Proof.
  apply fails_result; [apply no_io_viewing|]. intros dfvk _. apply fails_wallet. apply fails_if; intros _; [apply fails_ret|].
  apply fails_result; [by apply no_io_ok_or|]. intros next _. apply fails_modify. apply (fails_then_ret _ (fun _ => true)). undone.
  cbn. rewrite Hring. cbn. unfold set_viewing_keys. cbn. by rewrite take_app_length, KeyRing_eta.
Qed.

(** A new sapling address: the first one also makes the key. *)
Lemma no_io_master : no_io add_master_key.
Proof.
  apply no_io_bind; [apply no_io_require|]. intros _. apply no_io_bind; [by intros [w d]|]. intros seed.
  apply no_io_bind; [apply no_io_result, no_io_extfvk|]. done.
Qed.
Lemma gives_result_bind {A D} (r : result WalletError A) (f : A -> wallet_op D) w Q :
  (forall a, r = Ok a -> gives (f a) w Q) -> gives (of_result r ≫= f) w Q.
Proof. intros Hf d a w' d' Hr. apply wallet_bind_Ok in Hr as (a1&s1&[Ha ->]%of_result_Ok&Hr). by eapply Hf. Qed.
Lemma gives_master b w :
  may_lock b w -> gives add_master_key w (fun _ w' => exists w1 e, at_most_locked b w w1 /\ w' = update_sapling (fun l => l ++ [e]) w1).
Proof.
  intros Hb. eapply gives_bind; [by apply (gives_require b)|]. intros ? w1 Hw1. cbv beta in Hw1. eapply (gives_bind _ _ _ (fun _ w' => w' = w1)).
  - by intros d s w' d' [= <- <- <-].
  - intros seed w2 ->. apply gives_result_bind. intros extfvk _ d u w' d' [= _ <- _]. eauto.
Qed.
Lemma at_most_locked_sapling b w w1 : at_most_locked b w w1 -> kr_sapling_keys (w_ring w) = [] -> kr_sapling_keys (w_ring w1) = [].
Proof.
  intros [Ha _] Hn. unfold alike in Ha. destruct_and! Ha. match goal with E : view b _ = view b _ |- _ => injection E as _ _ E _ _ end.
  rewrite Hn in *. by destruct (kr_sapling_keys (w_ring w1)).
Qed.
(** [generate_new_sapling_address_bytes] once there is a key. *)
Definition next_sapling_address (added_key : bool) : wallet_op bytes :=
  w ← wallet;
  entry ← of_result (ok_or (head (kr_sapling_keys (w_ring w))) (InvalidWallet "sapling key state missing"));
  dfvk ← of_result (viewing_key (sk_extfvk entry));
  '(found, address) ← of_result (ok_or (find_address dfvk (from_le (sk_next_index entry)))
                                   (InvalidWallet "sapling diversifier space exhausted"));
  next ← of_result (ok_or (increment found) (InvalidWallet "sapling diversifier index overflow"));
  _ ← modify (update_sapling (alter (set_next_index next) O));
  _ ← save_or (update_sapling (fun l => if added_key then [] else <[O := entry]> l));
  mret address.
Lemma undone_next b (added_key : bool) w w1 :
  (forall entry next w', head (kr_sapling_keys (w_ring w1)) = Some entry ->
     after_save (update_sapling (alter (set_next_index next) O) w1) w' ->
     alike b w (update_sapling (fun l => if added_key then [] else <[O := entry]> l) w')) ->
  fails_io (next_sapling_address added_key) w1 (alike b w).
Proof.
  intros Hu. apply fails_wallet. apply fails_result; [by apply no_io_ok_or|]. intros entry He%ok_or_Ok.
  apply fails_result; [apply no_io_viewing|]. intros dfvk _. apply fails_result; [by apply no_io_ok_or|]. intros [found a] _.
  apply fails_result; [by apply no_io_ok_or|]. intros next _. apply fails_modify. apply (fails_then_ret _ (fun _ => a)).
  apply fails_save_or. intros w'. by apply Hu.
Qed.
Lemma undone_new_sapling b w : may_lock b w -> fails_io generate_new_sapling_address_bytes w (alike b w).
Proof.
  intros Hb. apply fails_wallet. case_bool_decide as Hk.
  - eapply fails_bind; [apply no_io_master|by apply (gives_master b)|]. intros _ w1 (w2&e&Hw2&->). apply (undone_next b true).
    intros entry next w' _ Hw'. eapply alike_locked; [exact Hw2|]. revert w' Hw'. undone_parts.
    cbn. rewrite Hring. cbn. unfold set_sapling_keys. cbn. by rewrite <- (at_most_locked_sapling b w w2 Hw2 Hk), KeyRing_eta.
  - eapply (fails_bind _ _ _ (fun _ w' => w' = w)); [done|by intros d a w' d' [= _ <- _]|]. intros _ w1 ->. apply (undone_next b false).
    intros entry next w' He. revert w'. undone_parts.
    cbn. rewrite Hring. cbn. unfold set_sapling_keys. cbn. destruct (w_ring w) as [ks ps [|e l] vs ch]; [done|]. cbn in *. by injection He as ->.
Qed.

(** A new address: the oldest key of the pool, or a new one. *)
Lemma no_io_pop compressed : no_io (pop_keypool compressed).
Proof. intros [w d]. by destruct compressed. Qed.
Definition popped_from (popped : option KeyPoolEntry) (w w' : Wallet) : Prop :=
  match popped with Some e => kr_keypool (w_ring w) = e :: kr_keypool (w_ring w') | None => kr_keypool (w_ring w) = kr_keypool (w_ring w') end.
Lemma gives_pop compressed w :
  gives (pop_keypool compressed) w (fun popped w' => popped_from popped w w' /\ w' = update_pool (fun _ => kr_keypool (w_ring w')) w).
Proof.
  intros d a w' d' Hr. unfold pop_keypool in Hr. apply wallet_bind_Ok in Hr as (w0&s1&Hw&Hr). injection Hw as <- <-. cbn [fst] in Hr.
  destruct compressed.
  - apply wallet_bind_Ok in Hr as (u&s2&Hw&Hr). injection Hw as _ <-. injection Hr as <- <- _. split; [|done]. unfold popped_from.
    cbn. destruct (kr_keypool (w_ring w)) as [|e l]; cbn; [done|]. by rewrite drop_0.
  - injection Hr as <- <- _. split; [done|]. unfold update_pool, update_ring, set_keypool, set_ring. by destruct w as [? ? ? []].
Qed.
Definition reserved_key (compressed : bool) (popped : option KeyPoolEntry) : wallet_op WalletKey :=
  match popped with
  | Some entry => mret (kp_key entry)
  | None => _ ← require_unlocked; generate_unique_key compressed
  end.
Lemma no_io_reserved_key compressed popped : no_io (reserved_key compressed popped).
Proof. destruct popped; [done|]. apply no_io_bind; [apply no_io_require|]. intros _. apply no_io_generate. Qed.
Lemma gives_reserved_key b compressed popped w : may_lock b w -> gives (reserved_key compressed popped) w (fun _ w' => at_most_locked b w w').
Proof.
  intros Hb. destruct popped as [e|].
  - intros d a w' d' [= _ <- _]. by apply at_most_locked_refl.
  - eapply gives_bind; [by apply (gives_require b)|]. intros ? w1 Hw1 d a w' d' Hr. by apply gives_generate in Hr as ->.
Qed.
Definition refilled (can : bool) : wallet_op nat := if can then ensure_keypool_minimum DEFAULT_KEYPOOL_SIZE else mret O.
Lemma no_io_refilled can : no_io (refilled can).
Proof.
  destruct can; [|done]. apply no_io_bind; [done|]. intros w. apply no_io_bind; [apply no_io_fill_keypool|]. done.
Qed.
Lemma gives_refilled can w :
  gives (refilled can) w (fun added w' => exists new, length new = added /\ w' = update_pool (fun l => l ++ new) w).
Proof.
  destruct can.
  - apply gives_wallet. eapply gives_bind; [apply gives_fill_keypool|]. intros ? w1 Hw1 d a w' d' [= <- <- _]. exact Hw1.
  - intros d a w' d' [= <- <- _]. exists []. split; [done|]. unfold update_pool, update_ring, set_keypool, set_ring.
    destruct w as [? ? ? []]. cbn. by rewrite app_nil_r.
Qed.
Lemma no_io_address k network : address k network <> Err Io.
Proof. by apply no_io_ok_or. Qed.

(** What [unreserve] makes of the keys. *)
Lemma view_unreserve b r r3 popped new reserved (change : option bytes) :
  view b r3 = view b (set_keypool (kr_keypool r3) r) ->
  map (view_entry b) (kr_keypool r) = map (view_entry b) (match popped with Some e => e :: kr_keypool r3 | None => kr_keypool r3 end) ->
  (forall h, change = Some h -> h ∉ kr_change_key_hashes r3) ->
  view b (mkKeyRing (take (length (kr_keys r)) (kr_keys r3 ++ [reserved]))
    (match popped with
     | Some e => e :: take (length (kr_keypool r3 ++ new) - length new) (kr_keypool r3 ++ new)
     | None => take (length (kr_keypool r3 ++ new) - length new) (kr_keypool r3 ++ new)
     end) (kr_sapling_keys r3) (kr_sapling_viewing_keys r3)
    (match change with Some h => (({[h]} : gset bytes) ∪ kr_change_key_hashes r3) ∖ {[h]} | None => kr_change_key_hashes r3 end)) = view b r.
Proof.
  intros Hv Hpool Hchange. injection Hv as Hk Hs Hvk Hc. unfold view. cbn in *.
  assert (length (kr_keys r) = length (kr_keys r3)) as ->.
  { apply (f_equal length) in Hk. rewrite !length_map in Hk. done. }
  rewrite take_app_length, length_app, Nat.add_sub, take_app_length, Hk, Hs, Hvk. f_equal.
  - rewrite Hpool. by destruct popped.
  - rewrite <- Hc. destruct change as [h|]; [|done]. specialize (Hchange h eq_refl). set_solver.
Qed.
Lemma view_ring_parts b r r' :
  view b r = view b r' ->
  map (view_key b) (kr_keys r) = map (view_key b) (kr_keys r') /\ map (view_entry b) (kr_keypool r) = map (view_entry b) (kr_keypool r')
  /\ map (view_sapling b) (kr_sapling_keys r) = map (view_sapling b) (kr_sapling_keys r')
  /\ kr_sapling_viewing_keys r = kr_sapling_viewing_keys r' /\ kr_change_key_hashes r = kr_change_key_hashes r'.
Proof. by intros [= -> -> -> -> ->]. Qed.
Lemma view_ring_join b r r' :
  map (view_key b) (kr_keys r) = map (view_key b) (kr_keys r') -> map (view_entry b) (kr_keypool r) = map (view_entry b) (kr_keypool r') ->
  map (view_sapling b) (kr_sapling_keys r) = map (view_sapling b) (kr_sapling_keys r') ->
  kr_sapling_viewing_keys r = kr_sapling_viewing_keys r' -> kr_change_key_hashes r = kr_change_key_hashes r' -> view b r = view b r'.
Proof. intros H1' H2' H3' H4' H5'. unfold view. by rewrite H1', H2', H3', H4', H5'. Qed.
(** The wallet once the key is taken, with its change mark. *)
Definition taken (change : option bytes) (reserved : WalletKey) (w : Wallet) : Wallet :=
  update_keys (fun l => l ++ [reserved])
    (match change with Some h => update_change (union {[h]}) w | None => w end).
Lemma alike_unreserved b w w1 w3 popped new reserved change w' :
  popped_from popped w w1 -> w1 = update_pool (fun _ => kr_keypool (w_ring w1)) w -> at_most_locked b w1 w3 ->
  (forall h, change = Some h -> h ∉ kr_change_key_hashes (w_ring w3)) ->
  after_save (taken change reserved (update_pool (fun l => l ++ new) w3)) w' ->
  alike b w (unreserve (length (kr_keys (w_ring w))) (length new) popped change w').
Proof.
  intros Hpop Hw1 [Ha [Hh _]] Hch Hs.
  assert (alike b w1 w3) as (Hp1&Hn1&Hf1&Hs1&Hc1&Hr1&Hl1&_&Hv1&He1) by exact Ha.
  assert (w_path w1 = w_path w /\ w_network w1 = w_network w /\ w_pay_tx_fee_per_kb w1 = w_pay_tx_fee_per_kb w /\ w_scripts w1 = w_scripts w
    /\ w_scan w1 = w_scan w /\ w_revision w1 = w_revision w /\ w_locked_outpoints w1 = w_locked_outpoints w
    /\ w_history w1 = w_history w /\ is_encrypted w1 = is_encrypted w
    /\ w_ring w1 = set_keypool (kr_keypool (w_ring w1)) (w_ring w)) as (Hp2&Hn2&Hf2&Hs2&Hc2&Hr2&Hl2&Hh2&He2&Hg2) by (by rewrite Hw1).
  assert (after_save (update_pool (fun l => l ++ new) w3) (set_ring (w_ring (update_pool (fun l => l ++ new) w3)) w')) as Hs'.
  { unfold after_save in Hs |- *. destruct Hs as (?&?&?&?&?&?&?&?&?&?). split_and!; try done; by destruct change. }
  destruct Hs' as (Hp3&Hn3&Hf3&Hs3&Hc3&Hr3&Hl3&Hh3&_&He3). destruct Hs as (_&_&_&_&_&_&_&_&Hring&_).
  cbn in Hp3, Hn3, Hf3, Hs3, Hc3, Hr3, Hl3, Hh3, Hring. unfold is_encrypted in He3. cbn in He3. fold (is_encrypted w3) in He3.
  assert (forall u : Wallet, u = unreserve (length (kr_keys (w_ring w))) (length new) popped change w' ->
    w_path u = w_path w' /\ w_network u = w_network w' /\ w_pay_tx_fee_per_kb u = w_pay_tx_fee_per_kb w' /\ w_scripts u = w_scripts w'
    /\ w_scan u = w_scan w' /\ w_revision u = w_revision w' /\ w_locked_outpoints u = w_locked_outpoints w' /\ w_history u = w_history w'
    /\ w_seal u = w_seal w') as Hu by (intros u ->; by destruct popped, change).
  specialize (Hu _ eq_refl). remember (unreserve _ _ _ _ _) as u eqn:Eu. destruct Hu as (?&?&?&?&?&?&?&Hhu&Hsu).
  unfold alike. split_and!; try congruence.
  - right. congruence.
  - subst u. apply view_ring_parts in Hv1 as (Vk&Vp&Vs&Vv&Vc). rewrite Hg2 in Vk, Vp, Vs, Vv, Vc. cbn in Vk, Vp, Vs, Vv, Vc.
    etransitivity; [|apply (view_unreserve b (w_ring w) (w_ring w3) popped new reserved change)].
    + f_equal. unfold unreserve, update_keys, update_pool, update_change, update_ring in *. destruct popped, change; cbn; rewrite Hring; cbn; by rewrite ?app_length.
    + by apply view_ring_join.
    + unfold popped_from in Hpop. destruct popped as [e|]; rewrite Hpop; cbn; by rewrite Vp.
    + exact Hch.
  - unfold is_encrypted in *. rewrite Hsu. congruence.
Qed.
Lemma undone_reserve b compressed is_change w : may_lock b w -> fails_io (reserve_from_keypool_or_generate compressed is_change) w (alike b w).
Proof.
  intros Hb. apply fails_wallet. eapply fails_bind; [apply no_io_pop|apply gives_pop|]. intros popped w1 [Hpop Hw1].
  assert (may_lock b w1) as Hb1. { intros Eb. rewrite Hw1. exact (Hb Eb). }
  eapply (fails_bind (reserved_key compressed popped)); [apply no_io_reserved_key|by apply (gives_reserved_key b)|]. intros reserved w2 Hw2. cbv beta in Hw2.
  eapply fails_bind; [apply no_io_can_generate|apply (gives_can_generate b), Hw2|]. intros can w3 Hw3. cbv beta in Hw3.
  eapply (fails_bind (refilled can)); [apply no_io_refilled|apply gives_refilled|]. intros added w4 (new&<-&->).
  apply fails_wallet. apply fails_result; [apply no_io_address|]. intros addr _. cbv zeta.
  match goal with |- context [if ?c then Some ?h else None] => set (change := if c then Some h else None) end.
  assert (forall h, change = Some h -> h ∉ kr_change_key_hashes (w_ring w3)) as Hch.
  { intros h. unfold change. destruct is_change; [|done]. cbn. case_bool_decide; [done|]. by intros [= <-]. }
  assert (fails_io (save_or (unreserve (length (kr_keys (w_ring w))) (length new) popped change))
    (taken change reserved (update_pool (fun l => l ++ new) w3)) (alike b w)) as Hsave.
  { apply fails_save_or. intros w'. apply (alike_unreserved b w w1 w3); try done. by eapply at_most_locked_trans. }
  destruct change as [h|].
  - apply fails_modify. apply fails_modify. by apply (fails_then_ret _ (fun _ => addr)).
  - eapply (fails_bind _ _ _ (fun _ w' => w' = update_pool (fun l => l ++ new) w3)); [done|by intros d a w' d' [= _ <- _]|]. intros _ w5 ->.
    apply fails_modify. by apply (fails_then_ret _ (fun _ => addr)).
Qed.

(** *** The scan *)
Lemma no_io_rbind {A D} (r : result WalletError A) (f : A -> result WalletError D) :
  r <> Err Io -> (forall a, f a <> Err Io) -> (r ≫= f) <> Err Io.
Proof. intros Hr Hf. destruct r as [a|e|]; cbn; [apply Hf|congruence|done]. Qed.
Lemma no_io_for_each {A} (f : A -> wallet_op unit) l : (forall a, no_io (f a)) -> no_io (for_each f l).
Proof. intros Hf. induction l as [|a l IH]; cbn; [done|]. by apply no_io_bind. Qed.
Lemma no_io_for_each_mut {A} (f : A -> result WalletError unit * A) l : (forall a, (f a).1 <> Err Io) -> (for_each_mut f l).1 <> Err Io.
Proof.
  intros Hf. induction l as [|a l IH]; cbn; [done|]. pose proof (Hf a). destruct (f a) as [[[]|e|] a']; cbn in *; [|congruence|done].
  by destruct (for_each_mut f l).
Qed.
Lemma no_io_append node : no_io (append_witnesses node).
Proof.
  apply no_io_bind; [done|]. intros s.
  assert ((for_each_mut (append_to node) (btree_iter note_order (ss_witnesses s))).1 <> Err Io) as Hn.
  { apply no_io_for_each_mut. intros [k v]. unfold append_to. by destruct (witness_append node _). }
  destruct (for_each_mut _ _) as [r ws]. apply no_io_bind; [done|]. intros _. by apply no_io_result.
Qed.
Lemma no_io_scan_output keys txid height io : no_io (scan_output keys txid height io).
Proof.
  destruct io as [i o]. apply no_io_bind; [done|]. intros s. apply no_io_bind; [by apply no_io_result, no_io_ok_or|]. intros node.
  apply no_io_bind; [by apply no_io_result, no_io_ok_or|]. intros tree. apply no_io_bind; [done|]. intros _.
  apply no_io_bind; [apply no_io_append|]. intros _. apply no_io_bind; [done|]. intros _. destruct (scan_sapling_output _ _ _ _); [|done].
  apply no_io_bind; [by apply no_io_result, no_io_ok_or|]. done.
Qed.
Lemma no_io_scan_block keys height hash block : no_io (scan_block keys height hash block).
Proof.
  apply no_io_bind; [|done]. apply no_io_for_each. intros tx. apply no_io_bind; [by apply no_io_result, no_io_map_err|]. intros id.
  apply no_io_for_each. intros io. apply no_io_scan_output.
Qed.
Lemma no_io_read_block (chain : ChainState S) hash : read_block_by_hash chain hash <> Err Io.
Proof.
  apply no_io_rbind; [by apply no_io_map_err|]. intros l. apply no_io_rbind; [by apply no_io_ok_or|]. intros l'.
  apply no_io_rbind; [by apply no_io_map_err|]. intros data. by apply no_io_map_err.
Qed.
Lemma no_io_scan_heights (chain : ChainState S) keys count height : no_io (scan_heights chain keys count height).
Proof.
  revert height. induction count as [|count IH]; intros height; cbn [scan_heights]; [done|].
  apply no_io_bind; [by apply no_io_result, no_io_map_err|]. intros hash. apply no_io_bind; [by apply no_io_result, no_io_ok_or|]. intros h.
  apply no_io_bind; [apply no_io_result, no_io_read_block|]. intros block. apply no_io_bind; [apply no_io_scan_block|]. done.
Qed.
Lemma no_io_scan_keys r : sapling_scan_keys r <> Err Io.
Proof.
  unfold sapling_scan_keys. induction (_ ++ _) as [|v l IH]; cbn [collect]; [done|].
  apply no_io_rbind; [|intros k; apply no_io_rbind; [exact IH|done]]. apply no_io_rbind; [apply no_io_viewing|done].
Qed.
Lemma no_io_rescan (chain : ChainState S) s : needs_full_rescan chain s <> Err Io.
Proof.
  unfold needs_full_rescan. destruct (_ <? 0); [done|]. destruct (_ || _); [done|]. apply no_io_rbind; [by apply no_io_map_err|done].
Qed.

(** The scan changes nothing else. *)
Definition only_scan (w w' : Wallet) : Prop := exists s, w' = set_scan s w.
Lemma only_scan_refl w : only_scan w w.
Proof. exists (w_scan w). by destruct w. Qed.
Lemma keeps_only_scan w f : keeps (only_scan w) (modify_scan f).
Proof. apply keeps_modify. intros w' [s ->]. by eexists. Qed.
Lemma scan_state_only w : keeps (only_scan w) scan_state.
Proof. apply triple_wallet_bind. intros w' _. by apply triple_ret. Qed.
Ltac scanning :=
  repeat first
  [ apply wallet_keeps_bind; [first [apply keeps_only_scan | apply scan_state_only]|intros ?]
  | eapply triple_bind; [apply triple_result|intros ? _]
  | apply keeps_only_scan | by apply triple_ret ].
Lemma append_only_scan w node : keeps (only_scan w) (append_witnesses node).
Proof. unfold append_witnesses. scanning. case_match. scanning. eapply triple_weaken; [apply triple_result|done]. Qed.
Lemma scan_output_only w keys txid height io : keeps (only_scan w) (scan_output keys txid height io).
Proof.
  unfold scan_output. destruct io as [i o]. scanning. apply wallet_keeps_bind; [apply append_only_scan|]. intros _. scanning.
  destruct (scan_sapling_output _ _ _ _); scanning.
Qed.
Lemma scan_block_only w keys height hash block : keeps (only_scan w) (scan_block keys height hash block).
Proof.
  apply wallet_keeps_bind; [|intros _; apply keeps_only_scan]. apply keeps_for_each. intros tx. unfold scan_transaction. scanning.
  apply keeps_for_each. intros io. apply scan_output_only.
Qed.
Lemma scan_heights_only w (chain : ChainState S) keys count height : keeps (only_scan w) (scan_heights chain keys count height).
Proof.
  revert height. induction count as [|count IH]; intros height; cbn [scan_heights]; scanning.
  apply wallet_keeps_bind; [apply scan_block_only|]. intros _. apply IH.
Qed.
(** A step of the scan: it changes only the scan, and does not fail to write. *)
Lemma fails_scanning {A D} (m : wallet_op A) (f : A -> wallet_op D) w w0 R :
  only_scan w w0 -> no_io m -> keeps (only_scan w) m -> (forall a w1, only_scan w w1 -> fails_io (f a) w1 R) -> fails_io (m ≫= f) w0 R.
Proof.
  intros H0 Hn Hk Hf. eapply (fails_bind _ _ _ (fun _ w' => only_scan w w')); [done| |done]. intros d a w' d' Hr. by destruct (Hk _ _ _ _ H0 Hr).
Qed.
Lemma undone_init_scan b (chain : ChainState S) w : fails_io (ensure_sapling_scan_initialized_to_tip chain) w (alike b w).
Proof.
  apply fails_wallet. apply fails_if; intros _; [apply fails_ret|]. apply fails_result; [by apply no_io_map_err|].
  intros [tip|] _; [|apply fails_ret]. apply fails_result; [by apply no_io_map_err|]. intros trees _.
  apply fails_result; [by apply no_io_ok_or|]. intros tree _. apply fails_modify. undone.
  cbn. rewrite Hscan. cbn. apply map_scan_eta.
Qed.
Lemma undone_sync b (chain : ChainState S) w : fails_io (sync_sapling_notes chain) w (alike b w).
Proof.
  apply fails_wallet. apply fails_if; intros _; [apply fails_ret|]. apply fails_result; [by apply no_io_map_err|].
  intros [tip|] _; [|apply fails_ret]. cbv zeta. pose proof (only_scan_refl w) as H0.
  eapply (fails_scanning _ _ w); [exact H0|by destruct (_ <? 0)|destruct (_ <? 0); [apply keeps_only_scan|by apply triple_ret]|]. intros _ w1 H1'.
  apply fails_result; [apply no_io_scan_keys|]. intros keys _.
  eapply (fails_scanning _ _ w); [exact H1'|done|apply scan_state_only|]. intros s w2 H2'. apply fails_result; [apply no_io_rescan|]. intros rescan _.
  eapply (fails_scanning _ _ w); [exact H2'|by destruct rescan|destruct rescan; [apply keeps_only_scan|by apply triple_ret]|]. intros _ w3 H3'.
  eapply (fails_scanning _ _ w); [exact H3'|done|apply scan_state_only|]. intros s' w4 H4'.
  eapply (fails_scanning _ _ w); [exact H4'|apply no_io_scan_heights|apply scan_heights_only|]. intros _ w5 H5'.
  eapply (fails_scanning _ _ w); [exact H5'|done|apply scan_state_only|]. intros s2 w6 [s6 ->].
  apply fails_if; intros _; [|apply fails_ret]. by undone.
Qed.

(** ** The calls that undo their change *)
Definition undoes (c : WalletCall (S:=S)) : bool :=
  match c with
  | SetLabel _ _ | SetFee _ | ImportWif _ | ImportWatch _ | ImportRedeem _ | RefillKeypool _ | NewAddress _ _ | NewSaplingAddress
  | ImportExtsk _ | ImportExtfvk _ | BackfillRseed _ _ | ResetScan | InitScan _ | SyncNotes _ => true
  | _ => false
  end.
(** C26: c1xx: When a call that undoes its change cannot write the wallet file, the
    wallet is the one before the call: same addresses in the same order, same
    keypool, change marks, scripts, labels, fee, notes, scan and revision, and
    when it is not encrypted the same secrets.  An encrypted wallet can have
    locked meanwhile; and saving drops what is kept of transactions that the
    history does not have. *)
Theorem failed_save_undone (c : WalletCall (S:=S)) w d w' d' b
    (Hc : undoes c = true) (Hb : may_lock b w) (Hrun : run_call c (w, d) = (Err Io, (w', d'))) :
  alike b w w'.
Proof.
  revert d w' d' Hrun. change (fails_io (run_call c) w (alike b w)).
  destruct c; try done; cbn [run_call]; unfold ignoring;
    eauto using undone_set_label, undone_set_fee, undone_import_watch, undone_import_redeem, undone_import_wif, undone_refill, undone_reset,
      undone_init_scan, undone_sync;
    apply (fails_then_ret _ (fun _ => tt));
    eauto using undone_reserve, undone_new_sapling, undone_import_extsk, undone_import_extfvk, undone_backfill.
Qed.
End undo.
