(* ===== verification/SampleWallet.v ===== *)
(** * A wallet on concrete keys

    Toy instances of the crates the wallet uses (a cipher that writes its key,
    nonce and additional data before the message; sapling keys that are their
    own viewing keys), a machine whose disk obeys, one that refuses a write,
    a small wallet, and the theorems of the wallet applied to it. *)

From S2P Require Import Prelude Consensus Rewards Encoding Hashing Address Transaction Block Script Storage FlatFiles ChainIndex HeaderChain Payees FluxnodeChecks Ledger BlockConnect Mempool SampleBlock.
From S2P Require Import Wallet WalletScripts WalletOps WalletFile WalletRestart WalletSafety WalletUndo.
From Stdlib Require Import ZArith Lia.
From stdpp Require Import base list option numbers strings gmap sets sorting.
#[local] Open Scope Z_scope.

(** ** Toy crates *)
Definition PublicKey32 : Type := dsig (fun k : bytes => length k = 32%nat).
Definition key32 (k : bytes) : option PublicKey32 :=
  match decide (length k = 32%nat) with left Hk => Some (dexist k Hk) | right _ => None end.
Definition pad32 (k : bytes) : bytes := take 32 (k ++ zeros 32).
Lemma pad32_length k : length (pad32 k) = 32%nat.
Proof. unfold pad32. rewrite length_take, length_app. change (length (zeros 32)) with 32%nat. lia. Qed.
Definition parse_key (s : bytes) : option PublicKey32 :=
  match s with
  | 2 :: k => key32 k
  | 4 :: k => if bool_decide (drop 32 k = zeros 32) then key32 (take 32 k) else None
  | _ => None
  end.
#[local] Instance wallet_secp : Secp := {|
  Signature := bytes; PublicKey := PublicKey32;
  from_der d := Some d; normalize_s s := s; PublicKey_from_slice := parse_key;
  verify_ecdsa _ s k := bool_decide (s = proj1_sig k) |}.
#[local] Instance wallet_recovery : Recovery := {|
  RecoverableSignature := bytes; RecoveryId := Z;
  RecoveryId_from_i32 i := if (0 <=? i) && (i <=? 3) then Some i else None;
  RecoverableSignature_from_compact compact _ := Some (take 32 compact);
  to_standard s := s; recover_ecdsa _ s := key32 s;
  serialize k := 2 :: proj1_sig k;
  serialize_uncompressed k := 4 :: proj1_sig k ++ zeros 32 |}.
#[local] Instance wallet_secret_keys : SecretKeys := {|
  PublicKey_eq_dec := _;
  SecretKey_from_slice s := Nat.eqb (length s) 32;
  PublicKey_from_secret_key s := dexist (P := fun k : bytes => length k = 32%nat) (pad32 s) (pad32_length s);
  sign_ecdsa_recoverable _ s := (0, s ++ zeros 32) |}.
Lemma key32_proj (k : PublicKey32) : key32 (proj1_sig k) = Some k.
Proof.
  unfold key32. destruct (decide _) as [Hk|Hk]; [|destruct Hk; exact (proj2_dsig k)]. f_equal. by apply dsig_eq.
Qed.
#[local] Instance wallet_secret_keys_laws : SecretKeysLaws wallet_secret_keys.
Proof.
  assert (forall k : PublicKey32, length (proj1_sig k) = 32%nat) as Hl by (intros k; exact (proj2_dsig k)). split; intros k; cbn.
  - by rewrite Hl.
  - by rewrite length_app, Hl.
  - apply key32_proj.
  - rewrite drop_app_length', take_app_length' by (symmetry; apply Hl). rewrite bool_decide_eq_true_2 by done. apply key32_proj.
Qed.
Definition seal_prefix (key nonce aad : bytes) : bytes := key ++ nonce ++ aad.
#[local] Instance wallet_cipher : Cipher := {|
  Argon2_params mem iters par := (8 <=? mem) && (1 <=? iters) && (1 <=? par);
  Argon2_hash _ salt pass := Some (toy_digest 32 (salt ++ pass));
  aead_encrypt key nonce aad msg := Some (seal_prefix key nonce aad ++ msg);
  aead_decrypt key nonce aad ct :=
    if bool_decide (take (length (seal_prefix key nonce aad)) ct = seal_prefix key nonce aad)
    then Some (drop (length (seal_prefix key nonce aad)) ct) else None |}.
#[local] Instance wallet_cipher_laws : CipherLaws wallet_cipher.
Proof.
  split; cbn.
  - intros key nonce aad msg ct [= <-]. by rewrite take_app_length, bool_decide_eq_true_2, drop_app_length.
  - intros _ salt pass key [= <-]. apply toy_digest_array.
Qed.
#[local] Instance wallet_sapling : SaplingKeys := {|
  ExtendedSpendingKey_from_bytes k := Nat.eqb (length k) 169;
  ExtendedSpendingKey_master seed := seed ++ zeros 137;
  to_extended_full_viewing_key k := k;
  ExtendedFullViewingKey_read k := Nat.eqb (length k) 169;
  find_address k i := Some (i, le_bytes 11 i ++ take 32 k);
  default_address_index _ := 0;
  PaymentAddress_from_bytes a := Nat.eqb (length a) 43;
  decrypt_diversifier k a := bool_decide (drop 11 a = take 32 k);
  try_sapling_note_decryption _ _ := None;
  note_nullifier _ n p := zeros 32 |}.
#[local] Instance wallet_witnesses : SaplingWitnesses := {|
  Witness := list Hash256; SaplingTree_eq_dec := _;
  sapling_tree_size t := Z.of_nat (length t);
  witness_from_tree t := Some t; witness_append h t := Some (t ++ [h]);
  write_incremental_witness t := Some (concat t);
  read_incremental_witness bs := Some (hashes_of (length bs) bs) |}.

(** ** Two machines *)
Definition obliging (faults : nat -> Fault) : Machine := {|
  clock n := 1700000000 + Z.of_nat n;
  entropy n k := toy_digest k [Z.of_nat n];
  fault := faults;
  is_directory _ := false |}.
Lemma obliging_laws faults : MachineLaws (obliging faults).
Proof. split. intros n k. apply toy_digest_array. Qed.
Definition fine_machine : Machine := obliging (fun _ => Done).
(** The second operation on the disk fails: it is the first write. *)
Definition full_disk : Machine := obliging (fun n => if Nat.eqb n 1 then Torn 10 else Done).

(** ** A wallet *)
Definition wallet_path : Path := ("data"%string, "wallet"%string, Some "dat"%string).
Definition the_key (secret : bytes) : WalletKey :=
  match from_secret secret true with Ok k => k | _ => mkWalletKey [] None true [] end.
Definition secret_1 : bytes := replicate 32 7.
Definition secret_2 : bytes := replicate 32 8.
Definition sample_ring : KeyRing :=
  mkKeyRing [the_key secret_1] [mkPoolEntry (the_key secret_2) 1600000000]
    [mkSaplingKey (replicate 169 3) (Some (replicate 169 3)) (zeros 11)] [mkViewingKey (replicate 169 4) (zeros 11)] {[wk_hash (the_key secret_1)]}.
Definition sample_scripts : KnownScripts :=
  mkScripts [[81]] {[hash160 [82] := [82]]} {[ [81] := [0x6c; 0x61] ]}.
Definition sample_history : TxHistory :=
  mkHistory {[zeros 32]} {[zeros 32 := 1600000001; replicate 32 1 := 5]} {[zeros 32 := [1; 2]]} {[zeros 32 := {[ [0x6b] := [0x76] ]}]}.
Definition sample_note : SaplingNoteRecord := mkNote (zeros 43) 900 3 0 (zeros 32) (Some (AfterZip212 (zeros 32))).
Definition sample_scan : SaplingScan :=
  mkScan 5 (replicate 32 5) 1 {[(zeros 32, 0) := sample_note]} [replicate 32 6] {[(zeros 32, 0) := [replicate 32 6]]}.
Definition sample_wallet : Wallet :=
  mkWallet wallet_path Mainnet 1000 sample_ring sample_scripts sample_history sample_scan no_seal 4 ∅.
Definition blank_world : World := mkWorld 0 0 0 ∅.
Lemma ring_ok_sample : ring_ok sample_ring.
Proof.
  split; try by_decide.
  - constructor; [|constructor]. split_and!; [by_decide|by_decide|by vm_compute].
  - constructor; [|constructor]. split; [split_and!; [by_decide|by_decide|by vm_compute]|by_decide].
Qed.
Lemma key_open_sample secret : array 32 secret -> from_secret secret true = Ok (the_key secret) -> key_open (the_key secret).
Proof. intros Ha Hk. exists secret. split; [done|]. rewrite <- Hk. unfold the_key. by rewrite Hk, (proj1 (proj2 (from_secret_inv _ _ _ Hk))). Qed.
Lemma secrets_ok_sample : secrets_ok sample_ring.
Proof.
  split; try by_decide.
  - change (ring_keys sample_ring) with [the_key secret_1; the_key secret_2].
    apply Forall_cons. split; [apply key_open_sample; [by_decide|by vm_compute]|].
    apply Forall_singleton, key_open_sample; [by_decide|by vm_compute].
  - apply Forall_singleton. exists (replicate 169 3). split_and!; [done|by_decide|by vm_compute].
Qed.
Lemma file_ok_sample : file_ok (retained sample_wallet).
Proof.
  constructor; [by_decide|done|exact ring_ok_sample| | |].
  - split; by_decide.
  - split; by_decide.
  - split; try by_decide.
    + apply map_Forall_singleton. split; [by_decide|]. split_and!; by_decide.
    + exists (replicate 32 6). split_and!; [done|by_decide|by vm_compute].
    + apply map_Forall_singleton. split; [by_decide|]. exists (replicate 32 6). split_and!; [done|by_decide|by vm_compute].
Qed.

(** ** Saving and starting again *)
(** What a run ends with is evaluated apart from where it ends. *)
Lemma ends_with {A} (m : result WalletError A * (Wallet * World)) r : m.1 = r -> m = (r, (m.2.1, m.2.2)).
Proof. destruct m as [r' [w d]]. by intros <-. Qed.
Section fine.
#[local] Existing Instance fine_machine.
Definition saved_state : Wallet * World := (save (sample_wallet, blank_world)).2.
Definition saved_file : bytes := default [] (wd_disk saved_state.2 !! wallet_path).
Lemma sample_saves : save (sample_wallet, blank_world) = (Ok tt, (saved_state.1, saved_state.2)).
Proof. unfold saved_state. apply ends_with. vm_compute. reflexivity. Qed.
Lemma saved_on_disk data : wd_disk saved_state.2 !! wallet_path = Some data -> fits_compact data.
Proof.
  intros Hd. assert (data = saved_file) as -> by (unfold saved_file; by rewrite Hd). by_decide.
Qed.
Lemma wallet_survives_restart_witness :
  exists d2, load_or_create wallet_path Mainnet (fresh_wallet wallet_path Mainnet, saved_state.2)
      = (Ok tt, (restarted sample_wallet saved_state.1, d2))
    /\ wd_disk d2 = wd_disk saved_state.2
    /\ (sl_unlocked_key (w_seal sample_wallet) = None ->
        sl_encrypted (w_seal (restarted sample_wallet saved_state.1)) = sl_encrypted (w_seal sample_wallet)).
Proof.
  apply (wallet_survives_restart sample_wallet blank_world saved_state.1 saved_state.2).
  - done.
  - exact file_ok_sample.
  - intros _. exact secrets_ok_sample.
  - exact sample_saves.
  - exact saved_on_disk.
  - done.
Defined.

(** Encrypted, started anew, opened. *)
Definition pass : bytes := [0x73; 0x65; 0x73; 0x61; 0x6d; 0x65].
Definition sealed_state : Wallet * World := (encryptwallet pass (sample_wallet, blank_world)).2.
Lemma sample_encrypts : encryptwallet pass (sample_wallet, blank_world) = (Ok tt, (sealed_state.1, sealed_state.2)).
Proof. unfold sealed_state. apply ends_with. vm_compute. reflexivity. Qed.
Lemma sealed_on_disk data : wd_disk sealed_state.2 !! wallet_path = Some data -> fits_compact data.
Proof.
  intros Hd. assert (data = default [] (wd_disk sealed_state.2 !! wallet_path)) as -> by (by rewrite Hd). by_decide.
Qed.
Lemma encrypted_wallet_reopens_witness :
  exists w1 d1, load_or_create wallet_path Mainnet (sample_wallet, sealed_state.2) = (Ok tt, (w1, d1))
    /\ w_ring w1 = forget_secrets sample_ring /\ is_encrypted w1 = true
    /\ exists until generation w2 d2, walletpassphrase pass 60 (w1, d1) = (Ok (until, generation), (w2, d2))
         /\ w_ring w2 = sample_ring /\ w_scripts w2 = sample_scripts /\ w_history w2 = retain_history sample_history /\ w_scan w2 = sample_scan.
Proof.
  apply (encrypted_wallet_reopens pass 60 sample_wallet blank_world sealed_state.1 sealed_state.2).
  - apply obliging_laws.
  - exact wallet_cipher_laws.
  - done.
  - exact file_ok_sample.
  - exact secrets_ok_sample.
  - exact sample_encrypts.
  - exact sealed_on_disk.
  - done.
Defined.

(** A wallet that is locked again, and calls that ask for its keys. *)
Definition opened_state : Wallet * World := (walletpassphrase pass 60 sealed_state).2.
Definition locked_state : Wallet * World := (walletlock opened_state).2.
Lemma sample_locks : walletlock (opened_state.1, opened_state.2) = (Ok tt, (locked_state.1, locked_state.2)).
Proof. rewrite <- (surjective_pairing opened_state). unfold locked_state. apply ends_with. vm_compute. reflexivity. Qed.
Definition nosy_calls : list (WalletCall (S:=MemoryStore)) :=
  [NewAddress true false; SetFee 5; ImportWif (secret_key_to_wif secret_1 Mainnet true); LockWallet; RefillKeypool 3].

(** A node that starts from the saved file, imports a key and shows it. *)
Definition loaded_state : Wallet * World := (load_or_create wallet_path Mainnet (sample_wallet, saved_state.2)).2.
Lemma sample_loads : load_or_create wallet_path Mainnet (sample_wallet, saved_state.2) = (Ok tt, loaded_state).
Proof. unfold loaded_state. rewrite (surjective_pairing (load_or_create _ _ _).2). apply ends_with. vm_compute. reflexivity. Qed.
Definition import_calls : list (WalletCall (S:=MemoryStore)) := [ImportWif (secret_key_to_wif (replicate 32 9) Mainnet false)].
Lemma secrets_belong_to_addresses_witness :
  let w' := (run_calls import_calls loaded_state).1 in
  Forall secret_fits (ring_keys (w_ring w')) /\ Forall extsk_fits (kr_sapling_keys (w_ring w'))
  /\ forall text shown, dump_wif_for_address w' text = Ok (Some shown) ->
       exists secret compressed k, shown = secret_key_to_wif secret (w_network w') compressed
         /\ from_secret secret compressed = Ok k /\ address k (w_network w') = Ok text.
Proof.
  apply (secrets_belong_to_addresses wallet_path Mainnet (sample_wallet, saved_state.2) loaded_state import_calls _
    (run_calls import_calls loaded_state).2).
  - exact sample_loads.
  - apply surjective_pairing.
Defined.
End fine.

(** ** A disk that is full *)
Section full.
#[local] Existing Instance full_disk.
Definition failed_state : Wallet * World := (save (sample_wallet, blank_world)).2.
Lemma wallet_file_never_torn_witness :
  (wd_disk failed_state.2 = ∅ \/ exists data, complete sample_wallet failed_state.1 data /\ replaced wallet_path data ∅ (wd_disk failed_state.2))
  /\ (Err Io = @Ok WalletError unit tt -> exists data, complete sample_wallet failed_state.1 data /\ wd_disk failed_state.2 !! wallet_path = Some data).
Proof.
  apply (wallet_file_never_torn sample_wallet blank_world (Err Io) failed_state.1 failed_state.2).
  - done.
  - unfold failed_state. apply ends_with. vm_compute. reflexivity.
Defined.
Definition new_key : WalletCall (S:=MemoryStore) := ImportExtsk (replicate 169 9).
Definition undone_state : Wallet * World := (run_call new_key (sample_wallet, blank_world)).2.
Lemma failed_save_undone_witness : alike false sample_wallet undone_state.1.
Proof.
  apply (failed_save_undone new_key sample_wallet blank_world undone_state.1 undone_state.2 false).
  - done.
  - done.
  - unfold undone_state. apply ends_with. vm_compute. reflexivity.
Defined.
End full.

(** ** What goes wrong *)
(** The wallet is opened for a second; when an address is asked for after that
    second, the key is taken from the pool before the wallet locks, and the
    locked wallet shows its secret. *)
Section expired.
#[local] Existing Instance fine_machine.
Definition briefly_open : Wallet * World := (walletpassphrase pass 1 sealed_state).2.
Definition after_expiry : Wallet * World := (reserve_from_keypool_or_generate true false briefly_open).2.
Definition address_2 : bytes := match address (the_key secret_2) Mainnet with Ok a => a | _ => [] end.
Lemma expired_wallet_shows_secret :
  sl_unlocked_key (w_seal after_expiry.1) = None
  /\ dump_wif_for_address after_expiry.1 address_2 = Ok (Some (secret_key_to_wif secret_2 Mainnet true)).
Proof. vm_compute. split; reflexivity. Qed.
End expired.

(** Changing the passphrase of an open wallet fails to write the file: the
    salt is the old one again, and the key is the one of the new passphrase
    and the new salt. *)
Section half_changed.
Definition breaks_on_change : Machine := obliging (fun n => if Nat.eqb n 4 then Refused else Done).
#[local] Existing Instance breaks_on_change.
Definition open_state : Wallet * World := (walletpassphrase pass 60 (encryptwallet pass (sample_wallet, blank_world)).2).2.
Definition change_state := walletpassphrasechange pass [0x6e; 0x65; 0x77] open_state.
(** The key that is open is the one this passphrase gives with the salt. *)
Definition opens_again (w : Wallet) (p : bytes) : bool :=
  match sl_encrypted (w_seal w), sl_unlocked_key (w_seal w) with
  | Some enc, Some key => match derive_wallet_key p (enc_kdf enc) with Ok k => bool_decide (k = key) | _ => false end
  | _, _ => false
  end.
Lemma failed_change_keeps_new_key :
  change_state.1 = Err Io /\ opens_again open_state.1 pass = true
  /\ opens_again change_state.2.1 pass = false /\ opens_again change_state.2.1 [0x6e; 0x65; 0x77] = false.
Proof. vm_compute. split_and!; reflexivity. Qed.
End half_changed.
